(* ===== verification/_CoqProject ===== *)
-Q . S2P
Prelude.v
StdSet.v
ArithUint256.v
Uint256.v
Blocks.v
Sha3.v
MdHash.v
Sha1.v
Ripemd160.v
Sha2.v
SipHash.v
Chain.v
Params.v
Pow.v
VersionBits.v
Hash.v
Crypto.v
Script.v
Interpreter.v
Serialize.v
Transaction.v
SigHash.v
Coins.v
TxVerify.v
Block.v
Merkle.v
MerkleBlock.v
BlockCheck.v
ChainState.v
Activation.v
Undo.v
Compress.v
BlockFiles.v
BlockDb.v
Accept.v
LoadIndex.v
Validation.v
ChainParams.v
Standard.v
Bloom.v
Bech32.v
Base58.v
KeyIO.v
