(* ===== verification/Prelude.v ===== *)
(** * Ecoin: a verification development of the consensus core

    Ecoin is a node of a block chain in C++, forked from Bitcoin Core: it keeps
    signatures of ed25519, hashes with SHA3-256, mines with Equihash, and pays
    out of a genesis block.  This library models the part of it on which all
    nodes have to agree, from the integers up to connecting and disconnecting
    blocks, with the addresses and filters that wallets use,
    and proves what makes each part correct.  Paths of sources are
    relative to src/src of the repository.

    ** How the program is put together, and which file models which part

    - Numbers and bytes.  [Prelude]: fixed-width integers ([wrap], [swrap]),
      bits, digit lists ([le_val], [le_digits]), the error monad [result],
      tactics and hints.  [ArithUint256]: arith_uint256.h and .cpp, limb by
      limb, and the compact encoding of targets.  [Uint256]: uint256.h,
      crypto/common.h and the hexadecimal functions of utilstrencodings.
    - Hash functions (crypto/).  [Blocks] holds what they share: buffering,
      folding over blocks, and the simulation of rounds written out by the
      loops of a standard.  [Sha3], [Sha1], [Ripemd160], [Sha2] and [MdHash]
      are the hashers; the tables [rows] have one entry for each line of the
      transformations.  [SipHash]: SipHash and MurmurHash3 of hash.cpp.
      [Crypto]: HMAC, and the hashers as the instance of the interface
      [Hash.HashFunctions].  All other theorems on hashes hold for any instance
      of that interface whose digests have the right sizes ([HashLaws]).
    - The index of blocks.  [Chain]: chain.h, chain.cpp and AddToBlockIndex of
      validation.cpp, with block indexes in a heap, because they point to each
      other.  [Params]: consensus/params.h.  [Pow]: pow.cpp.  [VersionBits]:
      versionbits.cpp, the state machine of BIP9 with its caches.
    - Scripts (script/).  [Script]: script.h and .cpp, instructions and script
      numbers.  [Interpreter]: interpreter.cpp, EvalScript and VerifyScript over
      the interface [BaseSignatureChecker].  [SigHash]: SignatureHash and the
      checker of transactions, which implements that interface.
    - Data.  [Serialize]: serialize.h, with the class [CodecLaws] that says what
      a codec promises.  [Transaction] and [Block]: primitives/.  [Merkle]
      and [MerkleBlock]: consensus/merkle.cpp, merkleblock.cpp.
    - Validation.  [Coins]: coins.h and .cpp, the cache of unspent outputs over
      any view ([CCoinsView] and its laws), an instance of the same class.
      [TxVerify]: consensus/tx_verify.cpp.  [BlockCheck]: CheckBlock and the
      contextual checks of validation.cpp, checkpoints.cpp.  [Undo]:
      UpdateCoins, ApplyTxInUndo, DisconnectBlock.  [Validation]: the subsidy,
      CheckInputs and ConnectBlock, which compose everything above.
      [StdSet]: std::set with an order that depends on the state, as a sorted
      list.  [ChainState]: what CChainState of validation.cpp keeps about the
      index, above all which blocks can become the tip.  [Activation]:
      ActivateBestChain, PreciousBlock and InvalidateBlock over the class
      [ChainTip] of what connects and disconnects one block.
      [ChainParams]: chainparams.cpp, the three networks and their genesis
      blocks.
    - What is kept on disk.  [Compress]: compressor.h and .cpp, undo.h, the
      forms in which coins, undo data and index entries are written.
      [BlockFiles]: the numbered block and undo files, their statistics and
      pruning.  [BlockDb]: the index database of txdb.cpp and FlushStateToDisk.
    - The life of a node.  [Accept]: what happens to headers and blocks that
      arrive (AcceptBlockHeader, AcceptBlock, ProcessNewBlock), over the index,
      the files, the database and the activation.  [LoadIndex]: the start, from
      the entries of the database to the tip (LoadBlockIndexGuts,
      LoadBlockIndex, LoadBlockIndexDB, LoadChainTip).
    - Wallets and light clients.  [Standard]: script/standard.cpp, which scripts
      are standard and what they pay to.  [Base58], [Bech32] and [KeyIO]: the
      text of addresses, base58.cpp, bech32.cpp and key_io.cpp with the prefixes
      of the three networks.  [Bloom]: bloom.cpp, the instance of the class
      [MerkleBlock.BloomFilter], and the rolling filter of the network code.

    Each file has the data and the operations first, named as in the source,
    then a module [.._facts] of lemmas, a module [.._example] of small states for
    the witnesses, and the properties.  A witness applies its property to one
    of these states and evaluates the rest.

    ** How C++ is modelled

    Integers are [Z] with every possible wrap-around written out.  Pointers to
    block indexes are keys of the heap [index_map]; iterators and streams are
    the rest of what they point into.  A failed assertion, a null or dangling
    pointer and an access out of bounds are [None], or an [Err] where the code
    has errors of its own: [tx_failure] for CValidationState, [failure] for
    scripts.  A [const] method that fills a cache returns the new state.  What
    uninitialised memory or the bytes behind a vector hold is an argument.
    Loops are structural where the code walks a list, and otherwise have fuel:
    heights for walks over the index, the length for scripts, 2^32 levels never
    more than 32 for Merkle trees, the number of bits for divisions and variable
    length integers; for ActivateBestChain a turn for every height and every
    block that can still fail.  The facts prove that the fuel is enough, so the
    properties say that the operations return, not only what they return.

    ** What the properties show

    - Money: [Validation.supply_bounded], over all states that blocks can reach,
      from [Validation.ConnectBlock_correct]; and the error in the code behind
      it, [Validation.duplicate_inputs_inflate]: duplicate inputs are not
      refused, and the supply is bounded only for blocks without them
      ([Validation.connectable]).  [Validation.DisconnectBlock_undoes].
    - Coins: the cache refines a finite map ([Coins.cache_operations_correct])
      and flushing carries it to the view below ([Coins.Flush_correct]).
    - Transactions and blocks: exactly which are accepted, and with which error
      the others are refused ([TxVerify], [BlockCheck]).
    - Scripts: limits, safety (no access out of bounds), soft forks (a flag more
      accepts less), multi-signatures, signature hashes.
    - The best chain: [Activation.ActivateBestChain_correct], the loop ends with
      the valid block of most work, whichever blocks are refused on the way, as
      long as no refusal is put down to corrupted data; after such a refusal the
      code loops for ever ([damaged_block_loops]).  The invariant [chain_wf] of
      the chain state, kept by every operation, and the completeness of the
      candidates ([based]) are in [ChainState].
    - Arrivals: [Accept.AcceptBlockHeader_correct] and
      [Accept.AcceptBlock_correct] say what is taken and that memory, files and
      database stay together, and that a genesis block that arrives makes the
      code follow a null pointer; [Accept.ProcessNewBlock_correct] follows a
      block to the best chain.
    - Disk: what is written can be read back ([BlockFiles.saved_data_readable]),
      pruning keeps what is needed, and after a call of FlushStateToDisk,
      whichever of its writes failed, the stored index names only blocks that
      the files hold ([BlockDb.FlushStateToDisk_safe]).  A write of the coins
      that fails loses them, since Flush clears the cache all the same
      ([BlockDb.lost_coins]).
      [LoadIndex.restart_correct] is that start: the node finds the same index,
      the same chain and the same coins again.
    - The index: invariants of linking, skip lists, the active chain, locators;
      the difficulty; BIP9.
    - Encodings: round trips, and where an encoding is unique.
    - Merkle trees: equivalence with the recursive tree; soundness of filtered
      blocks up to collisions of the hash; and their completeness: with a bloom
      filter, a light client finds all that concerns it
      ([Bloom.filtered_block_complete]).  A rolling filter forgets nothing
      too early.
    - Addresses: from a destination to its script and to its text and back,
      for all destinations; which scripts are standard
      ([Standard.ScriptSolver_correct]); the errors that the checksum of
      bech32 detects.
    - Hashes: equivalence with FIPS 180, FIPS 202, RIPEMD-160, SipHash, RFC 2104,
      whose constants are recomputed from their definitions.  As a test of the
      whole model, [ChainParams.networks_sound] computes the genesis blocks of
      the three networks and finds the hashes that the source asserts.

    ** What is not modelled

    - The primitives of vendored code: ed25519 ([SigHash.ed25519]), Equihash
      ([BlockCheck.Equihash]), boost's 512-bit text conversion
      ([Pow.cpp_int_io]), LevelDB under the coins ([Coins.CCoinsView]), what the
      operating system answers ([BlockFiles.FilePlatform]) and the reading of
      blocks in ConnectBlock ([Validation.BlockStorage]) are classes.
    - Of validation.cpp: memory pool acceptance, CVerifyDB, RewindBlockIndex,
      ReplayBlocks and LoadExternalBlockFile, which go over the same operations
      again after a crash or an upgrade, and CheckBlockIndex, a check for
      debugging.  The memory pool itself, and the policy for whole transactions.
    - The texts of private and extended keys, signing and the key store.  The
      sizes of bloom filters, computed in floating point, are arguments.  For
      addresses of witness programs of unknown version with less than 17 bytes
      one direction of the round trip is not stated ([KeyIO.text_ok]).
    - Threads and locks: every operation runs under cs_main, and the script
      check queue is modelled as the list of its checks.
    - Networking, RPC, wallet, mining, graphical interface, logging, tests and
      the libraries of 3rd-src: input and output, or not part of consensus. *)

From Stdlib Require Export ZArith Lia.
From stdpp Require Export base list gmap strings numbers sorting relations.

#[global] Open Scope Z_scope.

(** [dlia] is [lia] with divisions and remainders turned into equations. *)
Ltac dlia := Z.div_mod_to_equations; lia.

(** [pow_literals] evaluates the powers of numerals. *)
Ltac is_numeral t :=
  let v := eval vm_compute in t in
  lazymatch v with Z0 => idtac | Zpos ?p => is_ground p | Zneg ?p => is_ground p end.
Ltac pow_literal b k :=
  is_numeral b; is_numeral k; let v := eval vm_compute in (b ^ k) in
  progress change (b ^ k) with v in *.
Ltac pow_literals :=
  repeat match goal with
  | |- context [?b ^ ?k] => pow_literal b k
  | _ : context [?b ^ ?k] |- _ => pow_literal b k
  end.

(** ** Fixed-width integers

    A [w]-bit unsigned integer of the C++ code is a [Z] in [0, 2^w); every
    place where the code may wrap around applies [wrap]. *)

Definition wrap (w z : Z) : Z := z mod 2 ^ w.
Abbreviation u8 := (wrap 8).
Abbreviation u16 := (wrap 16).
Abbreviation u32 := (wrap 32).
Abbreviation u64 := (wrap 64).

(** Conversion to a [w]-bit two's complement integer. *)
Definition swrap (w z : Z) : Z :=
  let u := wrap w z in if u <? 2 ^ (w - 1) then u else u - 2 ^ w.
Abbreviation i32 := (swrap 32).
Abbreviation i64 := (swrap 64).

Definition in_range (w x : Z) : Prop := 0 <= x < 2 ^ w.
#[export] Instance in_range_dec w x : Decision (in_range w x).
Proof. unfold in_range. apply _. Defined.

(** The bytes of a vector or a string are 8-bit integers. *)
Abbreviation byte := Z (only parsing).
Abbreviation bytes := (list Z).
Abbreviation limbs_ok w := (Forall (in_range w)).
Abbreviation bytes_ok := (Forall (in_range 8)).

Create HintDb ecoin.
Create Rewrite HintDb ecoin.

Lemma wrap_range w z : 0 <= w -> in_range w (wrap w z).
Proof. intros Hw. unfold in_range, wrap. apply Z.mod_pos_bound. lia. Qed.

Lemma wrap_small w z : in_range w z -> wrap w z = z.
Proof. unfold in_range, wrap. intros ?. by apply Z.mod_small. Qed.

Lemma wrap_idemp w z : wrap w (wrap w z) = wrap w z.
Proof. apply Zmod_mod. Qed.

Lemma wrap_add_l w a b : wrap w (wrap w a + b) = wrap w (a + b).
Proof. unfold wrap. apply Zplus_mod_idemp_l. Qed.

Lemma wrap_add_r w a b : wrap w (a + wrap w b) = wrap w (a + b).
Proof. unfold wrap. apply Zplus_mod_idemp_r. Qed.

Lemma wrap_mul_l w a b : wrap w (wrap w a * b) = wrap w (a * b).
Proof. unfold wrap. apply Zmult_mod_idemp_l. Qed.

Lemma swrap_small w z :
  0 < w -> - 2 ^ (w - 1) <= z < 2 ^ (w - 1) -> swrap w z = z.
Proof.
  intros Hw Hz. unfold swrap, wrap.
  assert (2 ^ w = 2 * 2 ^ (w - 1)) as Hp.
  { rewrite <- Z.pow_succ_r by lia. f_equal. lia. }
  destruct (decide (0 <= z)).
  - rewrite Z.mod_small by lia.
    destruct (Z.ltb_spec z (2 ^ (w - 1))); lia.
  - replace (z mod 2 ^ w) with (z + 2 ^ w).
    + destruct (Z.ltb_spec (z + 2 ^ w) (2 ^ (w - 1))); lia.
    + apply (Z.mod_unique z _ (-1)); lia.
Qed.

(** ** Bits *)

Lemma wrap_testbit w z n :
  0 <= w -> 0 <= n -> Z.testbit (wrap w z) n = (n <? w) && Z.testbit z n.
Proof.
  intros Hw Hn. unfold wrap. destruct (Z.ltb_spec n w); cbn.
  - rewrite Z.mod_pow2_bits_low; auto.
  - rewrite Z.mod_pow2_bits_high; auto.
Qed.

Lemma in_range_testbit w x n :
  0 <= w -> in_range w x -> w <= n -> Z.testbit x n = false.
Proof.
  intros Hw Hx Hn. rewrite <- (wrap_small w x Hx), wrap_testbit by lia.
  destruct (Z.ltb_spec n w); [lia|done].
Qed.

Lemma in_range_lor w x y : 0 <= w -> in_range w x -> in_range w y -> in_range w (Z.lor x y).
Proof.
  intros Hw Hx Hy. rewrite <- (wrap_small w x), <- (wrap_small w y) by done.
  replace (Z.lor (wrap w x) (wrap w y)) with (wrap w (Z.lor x y)).
  { by apply wrap_range. }
  apply Z.bits_inj'. intros n Hn.
  rewrite Z.lor_spec, !wrap_testbit, Z.lor_spec by lia.
  by destruct (n <? w).
Qed.

Lemma in_range_land_l w x y : 0 <= w -> in_range w x -> in_range w (Z.land x y).
Proof.
  intros Hw Hx. rewrite <- (wrap_small w x) by done.
  replace (Z.land (wrap w x) y) with (wrap w (Z.land x y)).
  { by apply wrap_range. }
  apply Z.bits_inj'. intros n Hn.
  rewrite Z.land_spec, !wrap_testbit, Z.land_spec by lia.
  by destruct (n <? w).
Qed.

Lemma land_ones_wrap w x : 0 <= w -> Z.land x (Z.ones w) = wrap w x.
Proof. intros. by rewrite Z.land_ones. Qed.

Lemma in_range_shiftr w x s : 0 <= w -> 0 <= s -> in_range w x -> in_range w (Z.shiftr x s).
Proof.
  intros Hw Hs [Hx1 Hx2]. unfold in_range. rewrite Z.shiftr_div_pow2 by lia.
  assert (0 < 2 ^ s) by lia. split; [by apply Z.div_pos|].
  apply Z.div_lt_upper_bound; [done|]. nia.
Qed.

(** Decimal numerals that the C++ code writes in hexadecimal masks. *)
Lemma land_ffffffff x : Z.land x 0xffffffff = u32 x.
Proof. change 0xffffffff with (Z.ones 32). by apply land_ones_wrap. Qed.

Lemma land_ff x : Z.land x 0xff = u8 x.
Proof. change 0xff with (Z.ones 8). by apply land_ones_wrap. Qed.

(** Concatenating bit fields: [x | (y << n)] when [x] has [n] bits. *)
Lemma lor_shiftl_add x y n : in_range n x -> 0 <= n -> Z.lor x (Z.shiftl y n) = x + y * 2 ^ n.
Proof.
  intros Hx Hn. rewrite <- Z.shiftl_mul_pow2 by done. symmetry. apply Z.add_nocarry_lor.
  apply Z.bits_inj'. intros i Hi. rewrite Z.land_spec, Z.shiftl_spec, Z.bits_0 by done.
  destruct (Z.lt_ge_cases i n).
  - rewrite (Z.testbit_neg_r y) by lia. apply andb_false_r.
  - by rewrite (in_range_testbit n x i).
Qed.

Lemma land_le_l a b : 0 <= a -> 0 <= Z.land a b <= a.
Proof.
  intros Ha. split; [apply Z.land_nonneg; auto|].
  assert (a - Z.land a b = Z.ldiff a (Z.land a b)) as H.
  { apply Z.sub_nocarry_ldiff. apply Z.bits_inj'. intros i Hi.
    rewrite Z.ldiff_spec, Z.land_spec, Z.bits_0. by destruct (Z.testbit a i), (Z.testbit b i). }
  pose proof (proj2 (Z.ldiff_nonneg a (Z.land a b)) (or_introl Ha)). lia.
Qed.

Lemma testbit_top x n : 0 <= n -> 0 <= x < 2 ^ (n + 1) -> Z.testbit x n = (2 ^ n <=? x).
Proof.
  intros Hn Hx. rewrite Z.pow_add_r in Hx by lia.
  destruct (Z.leb_spec (2 ^ n) x).
  - apply Z.testbit_true; [done|].
    rewrite <- (Z.div_unique x (2 ^ n) 1 (x - 2 ^ n)); [done|lia|lia].
  - apply (in_range_testbit n); unfold in_range; lia.
Qed.

(** ** Little-endian digit lists

    The value of a list of [w]-bit digits, least significant first.  Used
    with [w = 8] for byte strings and [w = 32] for [base_uint]'s limbs. *)

Fixpoint le_val (w : Z) (l : list Z) : Z :=
  match l with
  | [] => 0
  | x :: t => x + 2 ^ w * le_val w t
  end.

Fixpoint le_digits (w : Z) (n : nat) (z : Z) : list Z :=
  match n with
  | O => []
  | S n => wrap w z :: le_digits w n (Z.shiftr z w)
  end.

Lemma length_le_digits w n z : length (le_digits w n z) = n.
Proof. revert z; induction n; intros; cbn; congruence. Qed.

Lemma le_digits_ok w n z : 0 <= w -> limbs_ok w (le_digits w n z).
Proof.
  intros Hw. revert z; induction n; intros; cbn; constructor; auto.
  by apply wrap_range.
Qed.

Lemma pow2_mul_succ w (n : nat) :
  0 <= w -> 2 ^ (w * Z.of_nat (S n)) = 2 ^ w * 2 ^ (w * Z.of_nat n).
Proof. intros. rewrite <- Z.pow_add_r by lia. f_equal. lia. Qed.

Lemma le_val_bound w l :
  0 <= w -> limbs_ok w l -> 0 <= le_val w l < 2 ^ (w * Z.of_nat (length l)).
Proof.
  intros Hw. induction 1 as [|x l Hx Hl IH]; cbn [le_val length].
  - rewrite Z.mul_0_r. lia.
  - rewrite pow2_mul_succ by done. unfold in_range in Hx.
    assert (0 < 2 ^ w) by lia. nia.
Qed.

Lemma le_val_app w l1 l2 :
  0 <= w ->
  le_val w (l1 ++ l2) = le_val w l1 + 2 ^ (w * Z.of_nat (length l1)) * le_val w l2.
Proof.
  intros Hw. induction l1 as [|x l1 IH]; cbn [app le_val length].
  - rewrite Z.mul_0_r. lia.
  - rewrite IH, pow2_mul_succ by done. ring.
Qed.

Lemma le_val_snoc l b : le_val 8 (l ++ [b]) = le_val 8 l + 2 ^ (8 * Z.of_nat (length l)) * b.
Proof. rewrite le_val_app by lia. cbn [le_val]. ring. Qed.

Lemma le_val_digits w n z :
  0 <= w -> le_val w (le_digits w n z) = z mod 2 ^ (w * Z.of_nat n).
Proof.
  intros Hw. revert z; induction n as [|n IH]; intros; cbn [le_val le_digits].
  - rewrite Z.mul_0_r. by rewrite Z.mod_1_r.
  - rewrite IH, pow2_mul_succ, Z.shiftr_div_pow2 by done. unfold wrap.
    rewrite (Z.rem_mul_r z (2 ^ w)) by lia. ring.
Qed.

Lemma digit_mod P x v : 0 <= x < P -> (x + P * v) mod P = x.
Proof. intros. rewrite (Z.mul_comm P v), Z.mod_add by lia. by apply Z.mod_small. Qed.

Lemma digit_div P x v : 0 <= x < P -> (x + P * v) / P = v.
Proof.
  intros. rewrite (Z.mul_comm P v), Z.div_add by lia.
  by rewrite Z.div_small.
Qed.

(** Prepending a digit commutes with reduction modulo a power of the base. *)
Lemma digit_cons_mod M P x R :
  0 <= x < M -> 0 < P -> x + M * (R mod P) = (x + M * R) mod (M * P).
Proof.
  intros Hx HP. rewrite Z.rem_mul_r by lia.
  by rewrite digit_mod, digit_div by lia.
Qed.

Lemma le_digits_val w l : 0 <= w -> limbs_ok w l -> le_digits w (length l) (le_val w l) = l.
Proof.
  intros Hw. induction 1 as [|x l Hx Hl IH]; cbn [le_val le_digits length]; [done|].
  f_equal; [by apply digit_mod|].
  by rewrite Z.shiftr_div_pow2, digit_div.
Qed.

Lemma le_val_inj w l1 l2 :
  0 <= w -> limbs_ok w l1 -> limbs_ok w l2 -> length l1 = length l2 ->
  le_val w l1 = le_val w l2 -> l1 = l2.
Proof.
  intros Hw H1 H2 Hlen Hv.
  rewrite <- (le_digits_val w l1), <- (le_digits_val w l2) by done. congruence.
Qed.

Lemma le_val_testbit w l n :
  0 < w -> limbs_ok w l -> 0 <= n ->
  Z.testbit (le_val w l) n = Z.testbit (nth (Z.to_nat (n / w)) l 0) (n mod w).
Proof.
  intros Hw Hl. revert n. induction Hl as [|x l Hx Hl IH]; intros n Hn.
  { cbn [le_val]. rewrite Z.bits_0. destruct (Z.to_nat _); by rewrite Z.bits_0. }
  cbn [le_val]. unfold in_range in Hx.
  destruct (decide (n < w)) as [Hlt|Hge].
  - rewrite Z.div_small, Z.mod_small by lia. cbn [nth Z.to_nat].
    rewrite <- (Z.mod_pow2_bits_low _ w n) by lia.
    by rewrite digit_mod.
  - replace (Z.to_nat (n / w)) with (S (Z.to_nat ((n - w) / w))).
    2:{ replace n with ((n - w) + 1 * w) at 2 by ring.
        rewrite Z.div_add by lia.
        assert (0 <= (n - w) / w) by (apply Z.div_pos; lia). lia. }
    cbn [nth]. replace (n mod w) with ((n - w) mod w).
    2:{ replace n with ((n - w) + 1 * w) at 2 by ring. by rewrite Z.mod_add by lia. }
    rewrite <- IH by lia.
    replace (Z.testbit (x + 2 ^ w * le_val w l) n)
      with (Z.testbit (Z.shiftr (x + 2 ^ w * le_val w l) w) (n - w)).
    2:{ rewrite Z.shiftr_spec by lia. f_equal. lia. }
    by rewrite Z.shiftr_div_pow2, digit_div by lia.
Qed.

Lemma nth_limb_ok w l i : 0 <= w -> limbs_ok w l -> in_range w (nth i l 0).
Proof.
  intros Hw Hl. revert i. induction Hl; intros [|i]; cbn; auto.
  all: unfold in_range; lia.
Qed.

(** ** Results

    A computation that returns a value or stops with an error, for the code
    that throws, returns error codes or fails assertions. *)

Inductive result (E A : Type) :=
  | Ok (a : A)
  | Err (e : E).
Arguments Ok {E A} a.
Arguments Err {E A} e.

#[export] Instance result_eq_dec `{EqDecision E, EqDecision A} : EqDecision (result E A).
Proof. solve_decision. Defined.

#[export] Instance result_ret E : MRet (result E) := fun A a => Ok a.
#[export] Instance result_bind E : MBind (result E) :=
  fun A B f m => match m with Ok a => f a | Err e => Err e end.
#[export] Instance result_fmap E : FMap (result E) :=
  fun A B f m => match m with Ok a => Ok (f a) | Err e => Err e end.

(** [check b e]: go on when the test holds, else stop with [e]. *)
Definition check {E} (b : bool) (e : E) : result E unit := if b then Ok () else Err e.

Lemma bind_Ok {E A B} (m : result E A) (f : A -> result E B) b :
  m ≫= f = Ok b <-> exists a, m = Ok a /\ f a = Ok b.
Proof. destruct m; cbn; naive_solver. Qed.

Lemma check_Ok {E} b (e : E) u : check b e = Ok u <-> b = true.
Proof. destruct u, b; cbn; naive_solver. Qed.

(** [inv_ok] takes a successful computation apart. *)
Ltac inv_ok :=
  repeat match goal with
  | H : _ ≫= _ = Ok _ |- _ => apply bind_Ok in H as (? & ? & H)
  | H : check _ _ = Ok _ |- _ => apply check_Ok in H
  | H : Ok _ = Ok _ |- _ => injection H as H
  | H : Err _ = Ok _ |- _ => discriminate H
  | H : Ok _ = Err _ |- _ => discriminate H
  end; simplify_eq.

(** ** Proof automation *)

(** [bcases] destructs every boolean comparison of the goal together with
    its specification. *)
Ltac bcase :=
  match goal with
  | |- context [?a <? ?b] => destruct (Z.ltb_spec a b)
  | |- context [?a <=? ?b] => destruct (Z.leb_spec a b)
  | |- context [?a =? ?b] => destruct (Z.eqb_spec a b)
  | |- context [?a >? ?b] => rewrite (Z.gtb_ltb a b)
  | |- context [?a >=? ?b] => rewrite (Z.geb_leb a b)
  end.
Ltac bcases := repeat (bcase; cbn [andb orb negb]; try lia).

(** [decided] proves a decidable closed proposition by computation. *)
Ltac decided := apply (bool_decide_unpack _); vm_compute; exact I.

#[export] Hint Resolve wrap_range in_range_lor in_range_land_l nth_limb_ok
  in_range_shiftr le_digits_ok : ecoin.
#[export] Hint Rewrite wrap_idemp wrap_add_l wrap_add_r wrap_mul_l : ecoin.
