(* ===== verification/StdSet.v ===== *)
(** * Ordered sets with a comparison function

    [std::set<T, Compare>] as the list of its elements in their order.  Insert,
    erase and count look for the first element that does not compare less,
    which is what the search in the tree finds as long as the list is sorted;
    the facts show that the operations keep it sorted.  The comparison may
    depend on memory: [sorted_agree] moves a set to another comparison that
    agrees on its elements. *)

From S2P Require Import Prelude.

Section std_set.
Context {A : Type} (lt : A -> A -> bool).

Fixpoint set_insert (x : A) (l : list A) : list A :=
  match l with
  | [] => [x]
  | y :: l => if lt y x then y :: set_insert x l else if lt x y then x :: y :: l else y :: l
  end.

Fixpoint set_erase (x : A) (l : list A) : list A :=
  match l with
  | [] => []
  | y :: l => if lt y x then y :: set_erase x l else if lt x y then y :: l else l
  end.

Definition set_count (x : A) (l : list A) : bool := existsb (fun y => negb (lt x y) && negb (lt y x)) l.

(** The loop that erases from the beginning what compares less. *)
Fixpoint erase_below (x : A) (l : list A) : list A :=
  match l with
  | [] => []
  | y :: l => if lt y x then erase_below x l else y :: l
  end.
End std_set.

Module stdset_facts.
Section facts.
Context {A : Type} (lt : A -> A -> bool) (P : A -> Prop).

(** [lt] is a strict total order on the elements that satisfy [P]. *)
Record strict_order : Prop := {
  so_irrefl : forall x, P x -> lt x x = false;
  so_trans : forall x y z, P x -> P y -> P z -> lt x y = true -> lt y z = true -> lt x z = true;
  so_total : forall x y, P x -> P y -> lt x y = false -> lt y x = false -> x = y;
}.

Definition sorted (l : list A) : Prop := StronglySorted (fun x y => lt x y = true) l.

Context (Hso : strict_order).

Lemma so_asym x y : P x -> P y -> lt x y = true -> lt y x = false.
Proof using Hso.
  intros Hx Hy H. destruct (lt y x) eqn:E; [|done].
  pose proof (so_trans Hso x y x Hx Hy Hx H E). by rewrite (so_irrefl Hso x Hx) in *.
Qed.

Lemma elem_of_set_insert x l y : Forall P l -> P x -> y ∈ set_insert lt x l <-> y = x \/ y ∈ l.
Proof using Hso.
  intros Hl Hx. induction Hl as [|z l Hz Hl IH]; cbn [set_insert].
  { set_solver. }
  destruct (lt z x) eqn:E1; [rewrite !elem_of_cons, IH; tauto|].
  destruct (lt x z) eqn:E2; [by rewrite !elem_of_cons|].
  replace z with x by by apply (so_total Hso). rewrite elem_of_cons. tauto.
Qed.

Lemma set_insert_Forall Q x l : Forall Q l -> Q x -> Forall Q (set_insert lt x l).
Proof.
  intros Hl Hx. induction Hl as [|z l Hz Hl IH]; cbn [set_insert]; [by repeat constructor|].
  by destruct (lt z x); [|destruct (lt x z)]; repeat constructor.
Qed.

Lemma set_insert_sorted x l : Forall P l -> P x -> sorted l -> sorted (set_insert lt x l).
Proof using Hso.
  intros Hl Hx. induction Hl as [|z l Hz Hl IH]; cbn [set_insert]; intros Hs; [by repeat constructor|].
  apply StronglySorted_inv in Hs as [Hs Hf].
  destruct (lt z x) eqn:E1.
  - constructor; [by apply IH|]. by apply set_insert_Forall.
  - destruct (lt x z) eqn:E2; [|by constructor]. repeat constructor; try done.
    rewrite Forall_forall in Hf, Hl |- *. intros y Hy. by apply (so_trans Hso x z y); auto.
Qed.

Lemma elem_of_set_erase x l y : Forall P l -> P x -> sorted l -> y ∈ set_erase lt x l <-> y <> x /\ y ∈ l.
Proof using Hso.
  intros Hl Hx. induction Hl as [|z l Hz Hl IH]; cbn [set_erase]; intros Hs; [set_solver|].
  apply StronglySorted_inv in Hs as [Hs Hf]. rewrite Forall_forall in Hf, Hl.
  destruct (lt z x) eqn:E1.
  { rewrite !elem_of_cons, IH by done. split; [|tauto]. intros [->|]; [|tauto]. split; [|tauto].
    intros ->. by rewrite (so_irrefl Hso x Hx) in E1. }
  destruct (lt x z) eqn:E2.
  - split; [|tauto]. intros Hy. split; [|done]. intros ->. rewrite elem_of_cons in Hy. destruct Hy as [->|Hy].
    + by rewrite (so_irrefl Hso z Hz) in E2.
    + by rewrite (Hf x Hy) in E1.
  - assert (z = x) as -> by by apply (so_total Hso). rewrite elem_of_cons. split; [|naive_solver].
    intros Hy. split; [|by right]. intros ->. specialize (Hf x Hy). by rewrite (so_irrefl Hso x Hx) in Hf.
Qed.

Lemma set_erase_Forall Q x l : Forall Q l -> Forall Q (set_erase lt x l).
Proof.
  induction 1 as [|z l Hz Hl IH]; cbn [set_erase]; [constructor|].
  destruct (lt z x); [by constructor|]. by destruct (lt x z); [constructor|].
Qed.

Lemma set_erase_sorted x l : sorted l -> sorted (set_erase lt x l).
Proof.
  induction 1 as [|z l Hs IH Hf]; cbn [set_erase]; [constructor|].
  destruct (lt z x); [|destruct (lt x z); [by constructor|done]].
  constructor; [done|]. by apply set_erase_Forall.
Qed.

(** Erasing an element makes the list shorter. *)
Lemma set_erase_shorter x l : Forall P l -> P x -> sorted l -> x ∈ l -> (length (set_erase lt x l) < length l)%nat.
Proof using Hso.
  intros Hl Hx. induction Hl as [|z l Hz Hl IH]; cbn [set_erase length]; intros Hs Hin.
  { by apply elem_of_nil in Hin. }
  apply StronglySorted_inv in Hs as [Hs Hf]. rewrite Forall_forall in Hf. apply elem_of_cons in Hin as [->|Hin].
  - rewrite (so_irrefl Hso z Hz). lia.
  - rewrite (Hf x Hin). cbn [length]. specialize (IH Hs Hin). lia.
Qed.

Lemma set_erase_length x l : (length (set_erase lt x l) <= length l)%nat.
Proof.
  induction l as [|z l IH]; cbn [set_erase length]; [done|].
  destruct (lt z x); cbn [length]; [lia|]. destruct (lt x z); cbn [length]; lia.
Qed.

Lemma set_count_elem x l : Forall P l -> P x -> set_count lt x l = true <-> x ∈ l.
Proof using Hso.
  intros Hl Hx. unfold set_count. rewrite existsb_exists. rewrite Forall_forall in Hl. split.
  - intros (y & Hy & E). apply list_elem_of_In in Hy. apply andb_prop in E as [E1 E2].
    apply negb_true_iff in E1, E2. by rewrite (so_total Hso x y) by auto.
  - intros Hin. exists x. split; [by apply list_elem_of_In|]. by rewrite (so_irrefl Hso x Hx).
Qed.

(** The last element is the greatest. *)
Lemma sorted_last l x y : sorted l -> last l = Some x -> y ∈ l -> y = x \/ lt y x = true.
Proof.
  induction 1 as [|z l Hs IH Hf]; [done|]. rewrite elem_of_cons. destruct l as [|z' l].
  - intros [= <-] [->|H]; [by left|by apply elem_of_nil in H].
  - rewrite last_cons_cons. intros Hl [->|Hy]; [|by apply IH].
    right. rewrite Forall_forall in Hf. apply Hf. by apply last_Some_elem_of.
Qed.

Lemma erase_below_spec x l y :
  Forall P l -> P x -> sorted l -> y ∈ erase_below lt x l <-> y ∈ l /\ lt y x = false.
Proof using Hso.
  intros Hl Hx. induction Hl as [|z l Hz Hl IH]; cbn [erase_below]; intros Hs; [set_solver|].
  apply StronglySorted_inv in Hs as [Hs Hf]. rewrite Forall_forall in Hf, Hl.
  destruct (lt z x) eqn:E.
  - rewrite IH, elem_of_cons by done. split; [tauto|]. intros [[->|H] H']; [congruence|done].
  - split; [|tauto]. intros Hy. split; [done|]. apply elem_of_cons in Hy as [->|Hy]; [done|].
    destruct (lt y x) eqn:E'; [|done]. by rewrite (so_trans Hso z y x) in E by auto.
Qed.

Lemma erase_below_sorted x l : sorted l -> sorted (erase_below lt x l).
Proof. induction 1 as [|z l Hs IH Hf]; cbn [erase_below]; [constructor|]. destruct (lt z x); [done|by constructor]. Qed.

Lemma sorted_NoDup l : Forall P l -> sorted l -> NoDup l.
Proof using Hso.
  intros Hl. induction 1 as [|z l Hs IH Hf]; [constructor|]. apply Forall_cons in Hl as [Hz Hl].
  constructor; [|by apply IH]. intros Hin. rewrite Forall_forall in Hf. specialize (Hf z Hin).
  by rewrite (so_irrefl Hso z Hz) in Hf.
Qed.
End facts.

Lemma set_erase_sublist {A} (lt : A -> A -> bool) x l : set_erase lt x l `sublist_of` l.
Proof.
  induction l as [|z l IH]; cbn [set_erase]; [done|].
  destruct (lt z x); [by constructor|]. destruct (lt x z); [done|by constructor].
Qed.

Lemma sorted_sublist {A} (lt : A -> A -> bool) l l' : l' `sublist_of` l -> sorted lt l -> sorted lt l'.
Proof.
  induction 1 as [|x l1 l2 Hs IH|x l1 l2 Hs IH]; [done| |]; intros [Hl Hf]%StronglySorted_inv; [|auto].
  constructor; [by apply IH|]. rewrite Forall_forall in Hf |- *. intros y Hy. by apply Hf, (elem_of_sublist l1).
Qed.

Lemma sorted_agree {A} (lt lt' : A -> A -> bool) l :
  (forall x y, x ∈ l -> y ∈ l -> lt' x y = lt x y) -> sorted lt l -> sorted lt' l.
Proof.
  intros H. induction 1 as [|z l Hs IH Hf]; constructor.
  - apply IH. intros x y Hx Hy. apply H; by right.
  - rewrite Forall_forall in Hf |- *. intros y Hy. rewrite H by (constructor; done || by right). by apply Hf.
Qed.
End stdset_facts.
