(* ===== verification/ArithUint256.v ===== *)
(** * [base_uint<BITS>] and [arith_uint256]

    The limb arithmetic of [arith_uint256.h] and [arith_uint256.cpp]: a
    [base_uint] is its array [pn] of [WIDTH = BITS / 32] 32-bit limbs, least
    significant first.  Every operation is modelled on the limbs, loop by
    loop, and proved to compute the expected operation on the integer
    [val pn], modulo [2 ^ BITS] where the code wraps around.  The compact
    encoding of targets ([SetCompact], [GetCompact]) is at the end. *)

From S2P Require Import Prelude.

Module base_uint.

Abbreviation limbs := (list Z).

(** The integer a limb array stands for. *)
Definition val (pn : limbs) : Z := le_val 32 pn.

(** Errors of the class ([uint_error]). *)
Inductive uint_error := DivisionByZero.

Definition get (pn : limbs) (i : nat) : Z := nth i pn 0.
Definition or_at (j : nat) (v : Z) (pn : limbs) : limbs := <[j := Z.lor (get pn j) v]> pn.

(** ** Definitions, for any width *)

Section base_uint.
Context (WIDTH : nat).

Definition BITS : Z := 32 * Z.of_nat WIDTH.
Definition wf (pn : limbs) : Prop := length pn = WIDTH /\ limbs_ok 32 pn.

Definition zero : limbs := replicate WIDTH 0.

(** [base_uint(uint64_t b)] and [operator=(uint64_t b)]. *)
Definition of_u64 (b : Z) : limbs :=
u32 b :: u32 (Z.shiftr b 32) :: replicate (WIDTH - 2) 0.

Definition not_ (pn : limbs) : limbs := map (fun x => u32 (Z.lnot x)) pn.

(** [operator^=], [operator&=], [operator|=]: limb by limb. *)
Fixpoint limbwise (op : Z -> Z -> Z) (a b : limbs) : limbs :=
match a, b with
| x :: a, y :: b => op x y :: limbwise op a b
| _, _ => a
end.
Definition xor_ := limbwise Z.lxor.
Definition and_ := limbwise Z.land.
Definition or_ := limbwise Z.lor.

(** [operator<<=]: one iteration [i] of the loop over the copy [a]. *)
Definition shl_step (k : nat) (s : Z) (a pn : limbs) (i : nat) : limbs :=
let pn := if Nat.ltb (i + k + 1) WIDTH && negb (s =? 0)
          then or_at (i + k + 1) (Z.shiftr (get a i) (32 - s)) pn else pn in
if Nat.ltb (i + k) WIDTH then or_at (i + k) (u32 (Z.shiftl (get a i) s)) pn else pn.

Definition shl (a : limbs) (shift : Z) : limbs :=
fold_left (shl_step (Z.to_nat (shift / 32)) (shift mod 32) a) (seq 0 WIDTH) zero.

(** [operator>>=]: [i - k - 1 >= 0] is [k + 1 <= i]. *)
Definition shr_step (k : nat) (s : Z) (a pn : limbs) (i : nat) : limbs :=
let pn := if Nat.leb (k + 1) i && negb (s =? 0)
          then or_at (i - k - 1) (u32 (Z.shiftl (get a i) (32 - s))) pn else pn in
if Nat.leb k i then or_at (i - k) (Z.shiftr (get a i) s) pn else pn.

Definition shr (a : limbs) (shift : Z) : limbs :=
fold_left (shr_step (Z.to_nat (shift / 32)) (shift mod 32) a) (seq 0 WIDTH) zero.

(** [operator+=(const base_uint&)]: the carry loop. *)
Fixpoint add_loop (carry : Z) (a b : limbs) : limbs :=
match a, b with
| x :: a, y :: b =>
    let n := u64 (carry + x + y) in
    Z.land n 0xffffffff :: add_loop (Z.shiftr n 32) a b
| _, _ => a
end.
Definition add (a b : limbs) : limbs := add_loop 0 a b.

(** [operator++()]: [while (i < WIDTH && ++pn[i] == 0) i++]. *)
Fixpoint incr (pn : limbs) : limbs :=
match pn with
| [] => []
| x :: t => let x := u32 (x + 1) in if x =? 0 then x :: incr t else x :: t
end.

(** [operator--()]: [while (i < WIDTH && --pn[i] == (uint32_t)-1) i++]. *)
Fixpoint decr (pn : limbs) : limbs :=
match pn with
| [] => []
| x :: t => let x := u32 (x - 1) in if x =? 0xffffffff then x :: decr t else x :: t
end.

(** Unary [operator-()]: complement, then increment. *)
Definition neg (pn : limbs) : limbs := incr (not_ pn).
Definition sub (a b : limbs) : limbs := add a (neg b).
Definition add_u64 (a : limbs) (b64 : Z) : limbs := add a (of_u64 b64).
Definition sub_u64 (a : limbs) (b64 : Z) : limbs := add a (neg (of_u64 b64)).

(** [operator*=(uint32_t b32)]. *)
Fixpoint mul32_loop (carry b32 : Z) (pn : limbs) : limbs :=
match pn with
| [] => []
| x :: t =>
    let n := u64 (carry + b32 * x) in
    Z.land n 0xffffffff :: mul32_loop (Z.shiftr n 32) b32 t
end.
Definition mul32 (pn : limbs) (b32 : Z) : limbs := mul32_loop 0 b32 pn.

(** [operator*=(const base_uint& b)].  The inner loop at [j] reads and
  writes [pn[i + j]] for [i + j < WIDTH] only, so it runs on the suffix of
  [pn] that starts at [j]; after it, [pn[j]] is not written any more and
  the outer loop goes on with the suffix that starts at [j + 1]. *)
Fixpoint mul_row (carry aj : Z) (pn b : limbs) : limbs :=
match pn, b with
| p :: pn, y :: b =>
    let n := u64 (carry + p + aj * y) in
    Z.land n 0xffffffff :: mul_row (Z.shiftr n 32) aj pn b
| _, _ => pn
end.

Fixpoint mul_loop (a pn b : limbs) : limbs :=
match a with
| [] => pn
| aj :: a =>
    match mul_row 0 aj pn b with
    | [] => []
    | p :: pn => p :: mul_loop a pn b
    end
end.
Definition mul (a b : limbs) : limbs := mul_loop a zero b.

(** [CompareTo]: from the most significant limb down. *)
Fixpoint compare_loop (n : nat) (a b : limbs) : Z :=
match n with
| O => 0
| S i => if get a i <? get b i then -1
         else if get a i >? get b i then 1
         else compare_loop i a b
end.
Definition CompareTo (a b : limbs) : Z := compare_loop WIDTH a b.

Definition gtb (a b : limbs) : bool := CompareTo a b >? 0.
Definition geb (a b : limbs) : bool := CompareTo a b >=? 0.
Definition ltb (a b : limbs) : bool := CompareTo a b <? 0.
Definition leb (a b : limbs) : bool := CompareTo a b <=? 0.

(** [EqualTo(uint64_t b)]. *)
Definition EqualTo (pn : limbs) (b : Z) : bool :=
forallb (fun x => x =? 0) (drop 2 pn)
&& (get pn 1 =? Z.shiftr b 32) && (get pn 0 =? Z.land b 0xffffffff).

(** [bits()]: inner loop on [nbits = 31 .. 1], outer loop on
  [pos = WIDTH - 1 .. 0]. *)
Fixpoint limb_bits (nbits : nat) (x : Z) : Z :=
match nbits with
| O => 1
| S m => if Z.land x (Z.shiftl 1 (Z.of_nat nbits)) =? 0
         then limb_bits m x else Z.of_nat nbits + 1
end.

Fixpoint bits_loop (n : nat) (pn : limbs) : Z :=
match n with
| O => 0
| S pos => if get pn pos =? 0 then bits_loop pos pn
           else 32 * Z.of_nat pos + limb_bits 31 (get pn pos)
end.
Definition bits (pn : limbs) : Z := bits_loop WIDTH pn.

Definition GetLow64 (pn : limbs) : Z := Z.lor (get pn 0) (Z.shiftl (get pn 1) 32).

(** [operator/=]: the [while (shift >= 0)] loop runs [shift + 1] times; the
  state is the quotient ([*this]), [num] and [div]. *)
Fixpoint div_loop (n : nat) (quot num dv : limbs) : limbs * limbs :=
match n with
| O => (quot, num)
| S shift =>
    let '(quot, num) :=
      if geb num dv
      then (or_at (shift / 32) (Z.shiftl 1 (Z.of_nat (shift mod 32))) quot, sub num dv)
      else (quot, num) in
    div_loop shift quot num (shr dv 1)
end.

Definition div (a b : limbs) : uint_error + limbs :=
let num_bits := bits a in
let div_bits := bits b in
if div_bits =? 0 then inl DivisionByZero
else if div_bits >? num_bits then inr zero
else
  let shift := num_bits - div_bits in
  inr (div_loop (Z.to_nat (shift + 1)) zero a (shl b shift)).1.
End base_uint.

(** ** Lengths and limb bounds *)

Section facts.
Context {WIDTH : nat}.
Implicit Types a b pn : limbs.

Lemma val_bound a : wf WIDTH a -> 0 <= val a < 2 ^ BITS WIDTH.
Proof. intros [<- Ha]. by apply le_val_bound. Qed.

Lemma wf_inj a b : wf WIDTH a -> wf WIDTH b -> val a = val b -> a = b.
Proof. intros [Ha1 Ha2] [Hb1 Hb2] ?. apply (le_val_inj 32); auto; lia. Qed.

Lemma wf_zero : wf WIDTH (zero WIDTH).
Proof.
split; [apply length_replicate|]. apply Forall_replicate. unfold in_range. lia.
Qed.

Lemma val_zeros n : val (replicate n 0) = 0.
Proof. induction n; cbn [replicate val le_val]; [done|]. unfold val in *. lia. Qed.

Lemma val_zero : val (zero WIDTH) = 0.
Proof. apply val_zeros. Qed.

Lemma wf_of_u64 (b : Z) : (2 <= WIDTH)%nat -> wf WIDTH (of_u64 WIDTH b).
Proof.
intros Hw. split.
- unfold of_u64. cbn [length]. rewrite length_replicate. lia.
- repeat constructor; try (by apply wrap_range).
  apply Forall_replicate. unfold in_range. lia.
Qed.

Lemma val_of_u64 (b : Z) : in_range 64 b -> val (of_u64 WIDTH b) = b.
Proof.
intros Hb. unfold of_u64, val. cbn [le_val].
pose proof (val_zeros (WIDTH - 2)) as Hz. unfold val in Hz. rewrite Hz.
rewrite Z.shiftr_div_pow2 by lia. unfold wrap.
unfold in_range in Hb.
rewrite (Z.mod_small (b / 2 ^ 32)) by dlia. dlia.
Qed.

(** ** Carry chains *)

(** One step of a carry loop: the low 32 bits of [n] are stored and the
  rest is carried into the next limb. *)
Lemma carry_step n R P rest :
0 < P -> rest = (Z.shiftr n 32 + R) mod P ->
Z.land n 0xffffffff + 2 ^ 32 * rest = (n + 2 ^ 32 * R) mod (2 ^ 32 * P).
Proof.
intros HP ->. rewrite land_ffffffff, Z.shiftr_div_pow2 by lia.
unfold wrap. rewrite digit_cons_mod by first [lia | by apply Z.mod_pos_bound].
f_equal. pose proof (Z_div_mod_eq_full n (2 ^ 32)). lia.
Qed.

(** [carry_with IH R] closes the value of a carry loop whose tail has, by
  [IH], the value of the carry plus [R]. *)
Local Ltac carry_with IH R :=
rewrite (carry_step _ R (2 ^ (32 * Z.of_nat (length _)))) by
  first [lia | rewrite IH; f_equal; ring]; f_equal; ring.

Lemma land_ffffffff_range n : in_range 32 (Z.land n 0xffffffff).
Proof. rewrite land_ffffffff. by apply wrap_range. Qed.

Lemma carry_range n c : 0 <= n < 2 ^ 32 * c -> 0 <= Z.shiftr n 32 < c.
Proof.
intros. rewrite Z.shiftr_div_pow2 by lia.
split; [apply Z.div_pos; lia|apply Z.div_lt_upper_bound; lia].
Qed.

Lemma add_loop_spec a b c :
limbs_ok 32 a -> limbs_ok 32 b -> length a = length b -> 0 <= c < 2 ->
limbs_ok 32 (add_loop c a b) /\ length (add_loop c a b) = length a /\
val (add_loop c a b) = (c + val a + val b) mod 2 ^ (32 * Z.of_nat (length a)).
Proof.
intros Ha. revert b c. unfold val.
induction Ha as [|x a Hx Ha IH]; intros [|y b] c Hb Hlen Hc; try done.
{ cbn [length add_loop le_val]. split; [constructor|]. split; [done|].
  by rewrite Z.mod_1_r. }
inversion Hb as [|? ? Hy Hb']; subst. cbn [add_loop]. unfold in_range in Hx, Hy.
rewrite (wrap_small 64 (c + x + y)) by (unfold in_range; lia).
destruct (IH b (Z.shiftr (c + x + y) 32)) as (I1 & I2 & I3); auto.
{ apply carry_range. lia. }
split; [constructor; auto using land_ffffffff_range|]. cbn [length].
split; [lia|]. rewrite pow2_mul_succ by lia. cbn [le_val].
carry_with I3 (le_val 32 a + le_val 32 b).
Qed.

Lemma mul32_loop_spec pn (b32 c : Z) :
limbs_ok 32 pn -> in_range 32 b32 -> in_range 32 c ->
limbs_ok 32 (mul32_loop c b32 pn) /\ length (mul32_loop c b32 pn) = length pn /\
val (mul32_loop c b32 pn) = (c + b32 * val pn) mod 2 ^ (32 * Z.of_nat (length pn)).
Proof.
intros Hp Hb. revert c. unfold val.
induction Hp as [|x pn Hx Hp IH]; intros c Hc.
{ cbn [length mul32_loop le_val]. split; [constructor|]. split; [done|].
  by rewrite Z.mod_1_r. }
cbn [mul32_loop]. unfold in_range in Hx, Hb, Hc.
assert (0 <= c + b32 * x < 2 ^ 64) as Hn by nia.
rewrite (wrap_small 64 (c + b32 * x)) by (unfold in_range; lia).
destruct (IH (Z.shiftr (c + b32 * x) 32)) as (I1 & I2 & I3).
{ apply carry_range. lia. }
split; [constructor; auto using land_ffffffff_range|]. cbn [length].
split; [lia|]. rewrite pow2_mul_succ by lia. cbn [le_val].
carry_with I3 (b32 * le_val 32 pn).
Qed.

Lemma mul_row_spec pn b aj c :
limbs_ok 32 pn -> limbs_ok 32 b -> (length pn <= length b)%nat ->
in_range 32 aj -> in_range 32 c ->
limbs_ok 32 (mul_row c aj pn b) /\ length (mul_row c aj pn b) = length pn /\
val (mul_row c aj pn b) = (c + val pn + aj * val b) mod 2 ^ (32 * Z.of_nat (length pn)).
Proof.
intros Hp Hb Hlen Haj. revert b c Hb Hlen. unfold val.
induction Hp as [|x pn Hx Hp IH]; intros [|y b] c Hb Hlen Hc; cbn [length] in Hlen; try lia.
1,2: cbn [length mul_row le_val]; split; [constructor|]; split; [done|]; by rewrite Z.mod_1_r.
inversion Hb as [|? ? Hy Hb']; subst. cbn [mul_row]. unfold in_range in Hx, Hy, Haj, Hc.
assert (0 <= c + x + aj * y < 2 ^ 64) as Hn by nia.
rewrite (wrap_small 64 (c + x + aj * y)) by (unfold in_range; lia).
destruct (IH b (Z.shiftr (c + x + aj * y) 32)) as (I1 & I2 & I3); auto; [lia| |].
{ apply carry_range. lia. }
split; [constructor; auto using land_ffffffff_range|]. cbn [length].
split; [lia|]. rewrite pow2_mul_succ by lia. cbn [le_val].
carry_with I3 (le_val 32 pn + aj * le_val 32 b).
Qed.

Lemma mul_loop_spec a pn b :
limbs_ok 32 a -> limbs_ok 32 pn -> limbs_ok 32 b ->
length a = length pn -> (length pn <= length b)%nat ->
limbs_ok 32 (mul_loop a pn b) /\ length (mul_loop a pn b) = length pn /\
val (mul_loop a pn b) = (val pn + val a * val b) mod 2 ^ (32 * Z.of_nat (length pn)).
Proof.
intros Ha. revert pn. induction Ha as [|aj a Haj Ha IH]; intros pn Hp Hb Hlen Hlb.
{ destruct pn; [|done]. cbn [mul_loop]. split; [constructor|]. split; [done|].
  by rewrite Z.mod_1_r. }
cbn [mul_loop].
destruct (mul_row_spec pn b aj 0 Hp Hb Hlb Haj) as (R1 & R2 & R3).
{ unfold in_range; lia. }
destruct (mul_row 0 aj pn b) as [|p pn']; [cbn in R2, Hlen; lia|].
inversion R1; subst. cbn [length] in R2, Hlen.
destruct (IH pn') as (I1 & I2 & I3); auto; try lia.
split; [by constructor|]. split; [cbn [length]; lia|].
unfold val in *. cbn [le_val] in *. rewrite <- R2 in R3 |- *.
rewrite pow2_mul_succ in R3 by lia. rewrite I3, pow2_mul_succ by lia.
rewrite digit_cons_mod by (unfold in_range in *; lia).
replace (p + 2 ^ 32 * (le_val 32 pn' + le_val 32 a * le_val 32 b))
  with ((p + 2 ^ 32 * le_val 32 pn') + 2 ^ 32 * (le_val 32 a * le_val 32 b)) by ring.
rewrite R3, Zplus_mod_idemp_l. f_equal. ring.
Qed.

(** ** Complement, increment, negation *)

Lemma not_spec pn :
limbs_ok 32 pn ->
limbs_ok 32 (not_ pn) /\ length (not_ pn) = length pn /\
val (not_ pn) = 2 ^ (32 * Z.of_nat (length pn)) - 1 - val pn.
Proof.
unfold val. induction 1 as [|x pn Hx Hp (I1 & I2 & I3)]; [done|].
cbn [not_ map length le_val]. unfold in_range in Hx.
assert (u32 (Z.lnot x) = 2 ^ 32 - 1 - x) as Hn.
{ unfold wrap, Z.lnot. symmetry. apply Z.mod_unique with (q := -1); lia. }
split; [constructor; [by apply wrap_range|done]|]. split; [by rewrite <- I2|].
rewrite pow2_mul_succ by lia. fold (not_ pn). rewrite I3, Hn. ring.
Qed.

Lemma incr_spec pn :
limbs_ok 32 pn ->
limbs_ok 32 (incr pn) /\ length (incr pn) = length pn /\
val (incr pn) = (val pn + 1) mod 2 ^ (32 * Z.of_nat (length pn)).
Proof.
unfold val. induction 1 as [|x pn Hx Hp (I1 & I2 & I3)].
{ cbn [length incr le_val]. by rewrite Z.mod_1_r. }
pose proof (le_val_bound 32 pn ltac:(lia) Hp) as Hb.
cbn [incr length le_val]. unfold in_range in Hx. rewrite pow2_mul_succ by lia.
destruct (decide (x = 2 ^ 32 - 1)) as [->|Hne].
- change (u32 (2 ^ 32 - 1 + 1)) with 0. cbn [Z.eqb le_val length].
  split; [constructor; [unfold in_range; lia|done]|]. split; [lia|].
  rewrite I3, digit_cons_mod by lia. f_equal. ring.
- rewrite wrap_small by (unfold in_range; lia).
  destruct (Z.eqb_spec (x + 1) 0); [lia|]. cbn [le_val length].
  split; [constructor; [unfold in_range; lia|done]|]. split; [lia|].
  rewrite Z.mod_small; lia.
Qed.

Lemma wf_neg a : wf WIDTH a -> wf WIDTH (neg a).
Proof.
intros [Hl Ha]. destruct (not_spec a Ha) as (N1 & N2 & _).
destruct (incr_spec (not_ a) N1) as (I1 & I2 & _). split; [|done].
unfold neg. lia.
Qed.

Lemma val_neg a : wf WIDTH a -> val (neg a) = (- val a) mod 2 ^ BITS WIDTH.
Proof.
intros [Hl Ha]. destruct (not_spec a Ha) as (N1 & N2 & N3).
destruct (incr_spec (not_ a) N1) as (I1 & I2 & I3). unfold neg, BITS.
rewrite I3, N2, N3, Hl.
replace (_ - 1 - val a + 1) with (- val a + 1 * 2 ^ (32 * Z.of_nat WIDTH)) by ring.
by rewrite Z.mod_add by lia.
Qed.

(** ** Ring operations *)

Lemma wf_add a b : wf WIDTH a -> wf WIDTH b -> wf WIDTH (add a b).
Proof.
intros [Ha1 Ha2] [Hb1 Hb2].
destruct (add_loop_spec a b 0) as (I1 & I2 & _); auto; try lia.
split; [unfold add; lia|done].
Qed.

Lemma val_add a b :
wf WIDTH a -> wf WIDTH b -> val (add a b) = (val a + val b) mod 2 ^ BITS WIDTH.
Proof.
intros [Ha1 Ha2] [Hb1 Hb2].
destruct (add_loop_spec a b 0) as (_ & _ & I3); auto; try lia.
unfold add, BITS. by rewrite I3, Ha1.
Qed.

Lemma wf_sub a b : wf WIDTH a -> wf WIDTH b -> wf WIDTH (sub a b).
Proof. intros. apply wf_add; [done|by apply wf_neg]. Qed.

Lemma val_sub a b :
wf WIDTH a -> wf WIDTH b -> val (sub a b) = (val a - val b) mod 2 ^ BITS WIDTH.
Proof.
intros Ha Hb. unfold sub. rewrite val_add, val_neg by auto using wf_neg.
by rewrite Zplus_mod_idemp_r.
Qed.

Lemma wf_mul32 a (c : Z) : wf WIDTH a -> in_range 32 c -> wf WIDTH (mul32 a c).
Proof.
intros [Ha1 Ha2] Hc.
destruct (mul32_loop_spec a c 0) as (I1 & I2 & _); auto; [unfold in_range; lia|].
split; [unfold mul32; lia|done].
Qed.

Lemma val_mul32 a (c : Z) :
wf WIDTH a -> in_range 32 c -> val (mul32 a c) = (val a * c) mod 2 ^ BITS WIDTH.
Proof.
intros [Ha1 Ha2] Hc.
destruct (mul32_loop_spec a c 0) as (_ & _ & I3); auto; [unfold in_range; lia|].
unfold mul32, BITS. rewrite I3, Ha1. f_equal. ring.
Qed.

Lemma mul_spec a b :
wf WIDTH a -> wf WIDTH b ->
wf WIDTH (mul WIDTH a b) /\ val (mul WIDTH a b) = (val a * val b) mod 2 ^ BITS WIDTH.
Proof.
intros [Ha1 Ha2] [Hb1 Hb2]. destruct wf_zero as [Hz1 Hz2].
destruct (mul_loop_spec a (zero WIDTH) b) as (I1 & I2 & I3); auto; try lia.
split; [split; unfold mul; [lia|done]|].
unfold mul, BITS. by rewrite I3, val_zero, Hz1.
Qed.

(** ** Comparison *)

Lemma val_take_S i a :
(i < length a)%nat ->
val (take (S i) a) = val (take i a) + 2 ^ (32 * Z.of_nat i) * get a i.
Proof.
intros Hi. destruct (lookup_lt_is_Some_2 a i Hi) as [x Hx].
rewrite (take_S_r _ _ _ Hx). unfold val. rewrite le_val_app by lia.
rewrite length_take_le by lia. cbn [le_val]. unfold get.
rewrite (nth_lookup_Some _ _ _ _ Hx). ring.
Qed.

Lemma val_take_bound i a :
limbs_ok 32 a -> (i <= length a)%nat -> 0 <= val (take i a) < 2 ^ (32 * Z.of_nat i).
Proof.
intros Ha Hi. pose proof (le_val_bound 32 (take i a) ltac:(lia)) as Hb.
rewrite length_take_le in Hb by lia. apply Hb. by apply Forall_take.
Qed.

Definition sign_of (c : comparison) : Z := match c with Lt => -1 | Eq => 0 | Gt => 1 end.

Lemma compare_loop_spec n a b :
limbs_ok 32 a -> limbs_ok 32 b -> (n <= length a)%nat -> (n <= length b)%nat ->
compare_loop n a b = sign_of (val (take n a) ?= val (take n b)).
Proof.
intros Ha Hb. induction n as [|i IH]; intros Hla Hlb; [done|].
cbn [compare_loop]. rewrite !val_take_S by lia.
pose proof (val_take_bound i a Ha ltac:(lia)) as Hba.
pose proof (val_take_bound i b Hb ltac:(lia)) as Hbb.
set (P := 2 ^ (32 * Z.of_nat i)) in *.
rewrite Z.gtb_ltb.
destruct (Z.ltb_spec (get a i) (get b i)).
{ rewrite (proj2 (Z.compare_lt_iff _ _)); [done|]. nia. }
destruct (Z.ltb_spec (get b i) (get a i)).
{ rewrite (proj2 (Z.compare_gt_iff _ _)); [done|]. nia. }
rewrite IH by lia. replace (get b i) with (get a i) by lia.
by rewrite !(Z.add_comm _ (P * _)), Z.add_compare_mono_l.
Qed.

Lemma CompareTo_val a b :
wf WIDTH a -> wf WIDTH b -> CompareTo WIDTH a b = sign_of (val a ?= val b).
Proof.
intros [Ha1 Ha2] [Hb1 Hb2]. unfold CompareTo.
rewrite compare_loop_spec by (done || lia).
by rewrite !take_ge by lia.
Qed.

Lemma gtb_val a b : wf WIDTH a -> wf WIDTH b -> gtb WIDTH a b = (val b <? val a).
Proof.
intros. unfold gtb. rewrite CompareTo_val by done. unfold Z.ltb.
rewrite (Z.compare_antisym (val a)). by destruct (val a ?= val b).
Qed.

Lemma geb_val a b : wf WIDTH a -> wf WIDTH b -> geb WIDTH a b = (val b <=? val a).
Proof.
intros. unfold geb. rewrite CompareTo_val by done. unfold Z.leb.
rewrite (Z.compare_antisym (val a)). by destruct (val a ?= val b).
Qed.

(** ** Bit length *)

Lemma land_pow2_eqb x n :
0 <= n -> (Z.land x (Z.shiftl 1 n) =? 0) = negb (Z.testbit x n).
Proof.
intros Hn. rewrite Z.shiftl_1_l.
destruct (Z.testbit x n) eqn:Hb; cbn [negb].
- apply Z.eqb_neq. intros H0.
  assert (Z.testbit (Z.land x (2 ^ n)) n = true) as Ht.
  { rewrite Z.land_spec, Hb, Z.pow2_bits_true by done. done. }
  rewrite H0, Z.bits_0 in Ht. done.
- apply Z.eqb_eq. apply Z.bits_inj'. intros m Hm.
  rewrite Z.land_spec, Z.bits_0, Z.pow2_bits_eqb by done.
  destruct (Z.eqb_spec n m) as [<-|]; [by rewrite Hb|apply andb_false_r].
Qed.

Lemma limb_bits_spec n x :
0 < x < 2 ^ (Z.of_nat n + 1) -> limb_bits n x = Z.log2 x + 1.
Proof.
induction n as [|n IH]; intros Hx; cbn [limb_bits].
{ replace x with 1 by lia. done. }
rewrite land_pow2_eqb by lia.
assert (0 < 2 ^ (Z.of_nat n + 1)) by lia.
assert (2 ^ (Z.of_nat (S n) + 1) = 2 * 2 ^ (Z.of_nat n + 1)) as Hp.
{ rewrite <- Z.pow_succ_r by lia. f_equal. lia. }
assert (Z.of_nat (S n) = Z.of_nat n + 1) as Hs by lia.
destruct (Z.testbit x (Z.of_nat (S n))) eqn:Hb; cbn [negb].
- rewrite (Z.log2_unique' x (Z.of_nat (S n)) (x - 2 ^ Z.of_nat (S n))); [done|lia| |lia].
  assert (2 ^ Z.of_nat (S n) <= x); [|rewrite Hs in *; lia].
  destruct (Z.lt_ge_cases x (2 ^ Z.of_nat (S n))) as [Hlt|]; [|done].
  rewrite (in_range_testbit (Z.of_nat (S n)) x) in Hb; [done|lia| |lia].
  unfold in_range; lia.
- apply IH. split; [lia|].
  destruct (Z.lt_ge_cases x (2 ^ (Z.of_nat n + 1))) as [|Hge]; [done|].
  exfalso. assert (Z.log2 x = Z.of_nat (S n)) as Hl.
  { apply Z.log2_unique; [lia|]. rewrite Z.pow_succ_r, Hs by lia. lia. }
  rewrite <- Hl, Z.bit_log2 in Hb; [done|lia].
Qed.

Definition bit_length (z : Z) : Z := if z =? 0 then 0 else Z.log2 z + 1.

Lemma bits_loop_spec n a :
limbs_ok 32 a -> (n <= length a)%nat ->
bits_loop n a = bit_length (val (take n a)).
Proof.
intros Ha. induction n as [|i IH]; intros Hn; [done|].
cbn [bits_loop]. rewrite val_take_S, IH by lia.
pose proof (val_take_bound i a Ha ltac:(lia)) as Hb.
pose proof (nth_limb_ok 32 a i ltac:(lia) Ha) as Hx. fold (get a i) in Hx.
destruct (Z.eqb_spec (get a i) 0) as [->|Hne].
{ by rewrite Z.mul_0_r, Z.add_0_r. }
unfold in_range in Hx. rewrite limb_bits_spec by lia. unfold bit_length.
assert (2 ^ Z.log2 (get a i) <= get a i < 2 ^ Z.succ (Z.log2 (get a i))) as Hlog.
{ apply Z.log2_spec. lia. }
pose proof (Z.log2_nonneg (get a i)).
rewrite (Z.log2_unique (val (take i a) + 2 ^ (32 * Z.of_nat i) * get a i)
  (32 * Z.of_nat i + Z.log2 (get a i))).
- destruct (Z.eqb_spec (val (take i a) + 2 ^ (32 * Z.of_nat i) * get a i) 0); nia.
- lia.
- rewrite <- Z.add_succ_r, !Z.pow_add_r by lia. nia.
Qed.

Lemma bits_val a : wf WIDTH a -> bits WIDTH a = bit_length (val a).
Proof.
intros [Ha1 Ha2]. unfold bits. rewrite bits_loop_spec by (done || lia).
by rewrite take_ge by lia.
Qed.

(** ** Shifts *)

Lemma get_or_at j v pn i :
(j < length pn)%nat ->
get (or_at j v pn) i = if decide (i = j) then Z.lor (get pn i) v else get pn i.
Proof.
intros Hj. unfold get, or_at. rewrite !nth_lookup. case_decide as Hd.
- subst. rewrite list_lookup_insert_eq by done. cbn. unfold get. by rewrite nth_lookup.
- by rewrite list_lookup_insert_ne by done.
Qed.

Lemma length_or_at j v pn : length (or_at j v pn) = length pn.
Proof. apply length_insert. Qed.

Local Ltac bdestruct_nat :=
repeat match goal with
| |- context [Nat.ltb ?a ?b] => destruct (Nat.ltb_spec a b); try lia
| |- context [Nat.leb ?a ?b] => destruct (Nat.leb_spec a b); try lia
end.

Lemma or_at_ok j v pn : limbs_ok 32 pn -> in_range 32 v -> limbs_ok 32 (or_at j v pn).
Proof.
intros Hp Hv. apply Forall_insert; [done|].
apply in_range_lor; [lia| |done]. by apply nth_limb_ok.
Qed.

Lemma get_zero i : get (zero WIDTH) i = 0.
Proof.
unfold get, zero. revert i. induction WIDTH as [|n IH]; intros [|i]; cbn; auto.
Qed.

(** A conditional [pn[i] |= v], seen from one bit of limb [j]. *)
Lemma or_if_bit (c : bool) i v pn j (n : Z) :
(c = true -> (i < length pn)%nat) ->
Z.testbit (get (if c then or_at i v pn else pn) j) n =
  Z.testbit (get pn j) n || (c && bool_decide (j = i)) && Z.testbit v n.
Proof.
intros Hc. destruct c; cbn [andb]; [|by rewrite orb_false_r].
rewrite get_or_at by auto. case_decide.
- by rewrite Z.lor_spec, bool_decide_eq_true_2.
- by rewrite bool_decide_eq_false_2, orb_false_r.
Qed.

(** Growing the window of contributing iterations by one. *)
Lemma window_step (P P' Q : Prop) `{!Decision P, !Decision P', !Decision Q} (X : nat -> bool) i m :
(P' <-> P \/ Q) -> (Q -> i = m) ->
bool_decide P' && X i = bool_decide P && X i || bool_decide Q && X m.
Proof.
intros HP HQ. destruct (decide Q) as [q|nq].
- rewrite (HQ q), (bool_decide_eq_true_2 P'), (bool_decide_eq_true_2 Q) by tauto.
  by destruct (bool_decide P), (X m).
- rewrite (bool_decide_eq_false_2 Q) by done. rewrite orb_false_r. f_equal.
  apply bool_decide_ext. tauto.
Qed.

(** What limb [j] holds after [m] iterations of the two shift loops. *)
Lemma shl_fold k s a m :
(m <= WIDTH)%nat ->
let r := fold_left (shl_step WIDTH k s a) (seq 0 m) (zero WIDTH) in
length r = WIDTH /\
forall j (n : Z), (j < WIDTH)%nat ->
  Z.testbit (get r j) n =
    bool_decide (k <= j < k + m)%nat && Z.testbit (u32 (Z.shiftl (get a (j - k)) s)) n
    || bool_decide (k + 1 <= j < k + 1 + m)%nat
       && (negb (s =? 0) && Z.testbit (Z.shiftr (get a (j - k - 1)) (32 - s)) n).
Proof.
induction m as [|m IH]; intros Hm.
{ cbn [seq fold_left]. split; [apply length_replicate|]. intros j n Hj.
  by rewrite get_zero, Z.bits_0, !bool_decide_eq_false_2 by lia. }
destruct (IH ltac:(lia)) as [IH1 IH2]. cbn zeta. rewrite seq_S, fold_left_app.
cbn [fold_left Nat.add]. clear IH. revert IH1 IH2.
generalize (fold_left (shl_step WIDTH k s a) (seq 0 m) (zero WIDTH)). intros r IH1 IH2.
unfold shl_step. split.
{ by repeat case_match; rewrite ?length_or_at. }
intros j n Hj.
rewrite or_if_bit by (rewrite Nat.ltb_lt; case_match; rewrite ?length_or_at; lia).
rewrite or_if_bit by (rewrite andb_true_iff, Nat.ltb_lt; lia).
rewrite IH2 by done. clear IH2.
rewrite (window_step (k <= j < k + m) (k <= j < k + S m) (j = m + k)
  (fun i => (Z.testbit (u32 (Z.shiftl (get a i) s)) n)%Z) (j - k) m)%nat by lia.
rewrite (window_step (k + 1 <= j < k + 1 + m) (k + 1 <= j < k + 1 + S m) (j = m + k + 1)
  (fun i => (negb (s =? 0) && Z.testbit (Z.shiftr (get a i) (32 - s)) n)%Z) (j - k - 1) m)%nat by lia.
repeat case_bool_decide; bdestruct_nat; cbn [andb orb];
  repeat match goal with |- context [Z.testbit ?x n] => destruct (Z.testbit x n) end;
  by destruct (s =? 0).
Qed.

Lemma shr_fold k s a m :
(m <= WIDTH)%nat ->
let r := fold_left (shr_step k s a) (seq 0 m) (zero WIDTH) in
length r = WIDTH /\
forall j (n : Z), (j < WIDTH)%nat ->
  Z.testbit (get r j) n =
    bool_decide (j + k < m)%nat && Z.testbit (Z.shiftr (get a (j + k)) s) n
    || bool_decide (j + k + 1 < m)%nat
       && (negb (s =? 0) && Z.testbit (u32 (Z.shiftl (get a (j + k + 1)) (32 - s))) n).
Proof.
induction m as [|m IH]; intros Hm.
{ cbn [seq fold_left]. split; [apply length_replicate|]. intros j n Hj.
  by rewrite get_zero, Z.bits_0, !bool_decide_eq_false_2 by lia. }
destruct (IH ltac:(lia)) as [IH1 IH2]. cbn zeta. rewrite seq_S, fold_left_app.
cbn [fold_left Nat.add]. clear IH. revert IH1 IH2.
generalize (fold_left (shr_step k s a) (seq 0 m) (zero WIDTH)). intros r IH1 IH2.
unfold shr_step. split.
{ by repeat case_match; rewrite ?length_or_at. }
intros j n Hj.
rewrite or_if_bit by (rewrite Nat.leb_le; case_match; rewrite ?length_or_at; lia).
rewrite or_if_bit by (rewrite andb_true_iff, Nat.leb_le; lia).
rewrite IH2 by done. clear IH2.
rewrite (window_step (j + k < m) (j + k < S m) (k <= m /\ j = m - k)
  (fun i => (Z.testbit (Z.shiftr (get a i) s) n)%Z) (j + k) m)%nat by lia.
rewrite (window_step (j + k + 1 < m) (j + k + 1 < S m) (k + 1 <= m /\ j = m - k - 1)
  (fun i => (negb (s =? 0) && Z.testbit (u32 (Z.shiftl (get a i) (32 - s))) n)%Z) (j + k + 1) m)%nat by lia.
repeat case_bool_decide; bdestruct_nat; cbn [andb orb];
  repeat match goal with |- context [Z.testbit ?x n] => destruct (Z.testbit x n) end;
  by destruct (s =? 0).
Qed.

Lemma shl_step_ok k s a pn i :
0 <= s < 32 -> limbs_ok 32 a -> limbs_ok 32 pn -> limbs_ok 32 (shl_step WIDTH k s a pn i).
Proof.
intros Hs Ha Hp. pose proof (nth_limb_ok 32 a i ltac:(lia) Ha) as Hx. fold (get a i) in Hx.
unfold shl_step. repeat case_match; try done; repeat apply or_at_ok; auto;
  first [by apply wrap_range | apply in_range_shiftr; auto; lia].
Qed.

Lemma shr_step_ok k s a pn i :
0 <= s < 32 -> limbs_ok 32 a -> limbs_ok 32 pn -> limbs_ok 32 (shr_step k s a pn i).
Proof.
intros Hs Ha Hp. pose proof (nth_limb_ok 32 a i ltac:(lia) Ha) as Hx. fold (get a i) in Hx.
unfold shr_step. repeat case_match; try done; repeat apply or_at_ok; auto;
  first [by apply wrap_range | apply in_range_shiftr; auto; lia].
Qed.

Lemma fold_limbs_ok f pn l :
(forall pn i, limbs_ok 32 pn -> limbs_ok 32 (f pn i)) -> limbs_ok 32 pn ->
limbs_ok 32 (fold_left f (l : list nat) pn).
Proof. intros Hf. revert pn. induction l; cbn; auto. Qed.

Lemma wf_shl a (shift : Z) : wf WIDTH a -> 0 <= shift -> wf WIDTH (shl WIDTH a shift).
Proof.
intros [Ha1 Ha2] Hs. split; [by apply shl_fold|].
apply fold_limbs_ok; [|apply wf_zero]. intros. apply shl_step_ok; auto.
apply Z.mod_pos_bound. lia.
Qed.

Lemma wf_shr a (shift : Z) : wf WIDTH a -> 0 <= shift -> wf WIDTH (shr WIDTH a shift).
Proof.
intros [Ha1 Ha2] Hs. split; [by apply shr_fold|].
apply fold_limbs_ok; [|apply wf_zero]. intros. apply shr_step_ok; auto.
apply Z.mod_pos_bound. lia.
Qed.

Lemma val_testbit a (n : Z) :
limbs_ok 32 a -> 0 <= n -> Z.testbit (val a) n = Z.testbit (get a (Z.to_nat (n / 32))) (n mod 32).
Proof. intros. by apply le_val_testbit. Qed.

Lemma get_overflow a i : (length a <= i)%nat -> get a i = 0.
Proof. intros. by apply nth_overflow. Qed.

(** Bit [n] of the source of a shift, located in its limb. *)
Lemma limb_index (n : Z) j (m : Z) :
0 <= m < 32 -> n = 32 * Z.of_nat j + m -> Z.to_nat (n / 32) = j /\ n mod 32 = m.
Proof. intros. split; dlia. Qed.

Lemma split_index (n : Z) : 0 <= n ->
exists j m, n = 32 * Z.of_nat j + m /\ 0 <= m < 32.
Proof. intros. exists (Z.to_nat (n / 32)), (n mod 32). dlia. Qed.

Lemma testbit_get a j (m : Z) :
limbs_ok 32 a -> 0 <= m < 32 ->
Z.testbit (get a j) m = Z.testbit (val a) (32 * Z.of_nat j + m).
Proof.
intros Ha Hm. rewrite val_testbit by (done || lia).
by destruct (limb_index (32 * Z.of_nat j + m) j m Hm eq_refl) as [-> ->].
Qed.

Lemma testbit_get_high a j (m : Z) : limbs_ok 32 a -> 32 <= m -> Z.testbit (get a j) m = false.
Proof. intros. apply (in_range_testbit 32); [lia|by apply nth_limb_ok|done]. Qed.

Lemma val_shl a (shift : Z) :
wf WIDTH a -> 0 <= shift ->
val (shl WIDTH a shift) = (val a * 2 ^ shift) mod 2 ^ BITS WIDTH.
Proof.
intros Ha Hs. pose proof (wf_shl a shift Ha Hs) as [_ Hok]. destruct Ha as [Hlen Ha].
apply Z.bits_inj'. intros n Hn. rewrite <- Z.shiftl_mul_pow2 by done.
fold (wrap (BITS WIDTH) (Z.shiftl (val a) shift)).
rewrite wrap_testbit, Z.shiftl_spec by (unfold BITS; lia).
destruct (split_index n Hn) as (j & m & -> & Hm).
rewrite <- testbit_get by done.
destruct (shl_fold (Z.to_nat (shift / 32)) (shift mod 32) a WIDTH ltac:(lia)) as [Hl Hbit].
fold (shl WIDTH a shift) in Hl, Hbit. unfold BITS.
destruct (Nat.lt_ge_cases j WIDTH) as [Hj|Hj].
2:{ rewrite get_overflow, Z.bits_0 by lia. by rewrite (proj2 (Z.ltb_ge _ _)) by lia. }
rewrite (proj2 (Z.ltb_lt _ _)) by lia. cbn [andb]. rewrite Hbit by done. clear Hbit Hl.
destruct (split_index shift Hs) as (k & s & -> & Hss).
destruct (limb_index (32 * Z.of_nat k + s) k s Hss eq_refl) as [-> ->].
rewrite wrap_testbit, Z.shiftl_spec, Z.shiftr_spec by lia.
rewrite (proj2 (Z.ltb_lt m 32)) by lia. cbn [andb].
destruct (Z.lt_ge_cases m s) as [Hms|Hms].
- rewrite (Z.testbit_neg_r (get a (j - k)) (m - s)), andb_false_r by lia. cbn [orb].
  rewrite (proj2 (Z.eqb_neq s 0)) by lia. cbn [negb andb].
  case_bool_decide; cbn [andb]; [|rewrite Z.testbit_neg_r; lia].
  rewrite testbit_get by (done || lia). f_equal. lia.
- rewrite (testbit_get_high a _ (m + (32 - s))), !andb_false_r, orb_false_r by (done || lia).
  case_bool_decide; cbn [andb]; [|rewrite Z.testbit_neg_r; lia].
  rewrite testbit_get by (done || lia). f_equal. lia.
Qed.

Lemma val_shr a (shift : Z) :
wf WIDTH a -> 0 <= shift -> val (shr WIDTH a shift) = val a / 2 ^ shift.
Proof.
intros Ha Hs. pose proof (wf_shr a shift Ha Hs) as [_ Hok].
pose proof (val_bound a Ha) as Hv. destruct Ha as [Hlen Ha].
apply Z.bits_inj'. intros n Hn. rewrite <- Z.shiftr_div_pow2, Z.shiftr_spec by done.
destruct (split_index n Hn) as (j & m & -> & Hm).
rewrite <- testbit_get by done.
destruct (shr_fold (Z.to_nat (shift / 32)) (shift mod 32) a WIDTH ltac:(lia)) as [Hl Hbit].
fold (shr WIDTH a shift) in Hl, Hbit.
destruct (Nat.lt_ge_cases j WIDTH) as [Hj|Hj].
2:{ rewrite get_overflow, Z.bits_0 by lia. symmetry.
    apply (in_range_testbit (BITS WIDTH)); unfold BITS, in_range in *; lia. }
rewrite Hbit by done. clear Hbit Hl.
destruct (split_index shift Hs) as (k & s & -> & Hss).
destruct (limb_index (32 * Z.of_nat k + s) k s Hss eq_refl) as [-> ->].
rewrite wrap_testbit, Z.shiftl_spec, Z.shiftr_spec by lia.
rewrite (proj2 (Z.ltb_lt m 32)) by lia. cbn [andb].
destruct (Z.lt_ge_cases (m + s) 32) as [Hms|Hms].
- rewrite (Z.testbit_neg_r (get a (j + k + 1)) (m - (32 - s))) by lia.
  rewrite !andb_false_r, orb_false_r.
  replace (32 * Z.of_nat j + m + (32 * Z.of_nat k + s))
    with (32 * Z.of_nat (j + k) + (m + s)) by lia.
  rewrite <- testbit_get by (done || lia).
  case_bool_decide; cbn [andb]; [done|]. by rewrite get_overflow, Z.bits_0 by lia.
- rewrite (testbit_get_high a _ (m + s)), andb_false_r by (done || lia). cbn [orb].
  rewrite (proj2 (Z.eqb_neq s 0)) by lia. cbn [negb andb].
  replace (32 * Z.of_nat j + m + (32 * Z.of_nat k + s))
    with (32 * Z.of_nat (j + k + 1) + (m - (32 - s))) by lia.
  rewrite <- testbit_get by (done || lia).
  case_bool_decide; cbn [andb]; [done|]. by rewrite get_overflow, Z.bits_0 by lia.
Qed.

(** ** Division *)

Lemma val_insert a j (x : Z) :
(j < length a)%nat ->
val (<[j := x]> a) = val a + 2 ^ (32 * Z.of_nat j) * (x - get a j).
Proof.
unfold val, get. revert j. induction a as [|y a IH]; intros [|j] Hj; cbn [length] in Hj; try lia.
- cbn. lia.
- change (<[S j:=x]> (y :: a)) with (y :: <[j := x]> a). cbn [le_val nth].
  rewrite IH, pow2_mul_succ by lia. ring.
Qed.

(** Setting a bit that is clear adds its weight. *)
Lemma lor_pow2_clear x (m : Z) :
0 <= m -> Z.testbit x m = false -> Z.lor x (2 ^ m) = x + 2 ^ m.
Proof.
intros Hm Hx. symmetry. apply Z.add_nocarry_lor. apply Z.bits_inj'. intros i Hi.
rewrite Z.land_spec, Z.bits_0, Z.pow2_bits_eqb by done.
destruct (Z.eqb_spec m i) as [<-|]; [by rewrite Hx|apply andb_false_r].
Qed.

Lemma wf_or_at a j (v : Z) : wf WIDTH a -> in_range 32 v -> wf WIDTH (or_at j v a).
Proof. intros [Ha1 Ha2] Hv. split; [by rewrite length_or_at|by apply or_at_ok]. Qed.

Lemma set_bit_spec a (i : nat) :
wf WIDTH a -> Z.of_nat i < BITS WIDTH -> Z.testbit (val a) (Z.of_nat i) = false ->
let r := or_at (i / 32) (Z.shiftl 1 (Z.of_nat (i mod 32))) a in
wf WIDTH r /\ val r = val a + 2 ^ Z.of_nat i.
Proof.
intros Ha Hi Hbit. cbn zeta. rewrite Z.shiftl_1_l.
pose proof (Nat.mod_upper_bound i 32 ltac:(lia)) as Hm.
pose proof (Nat.div_mod_eq i 32) as Hdm.
assert (Z.of_nat i = 32 * Z.of_nat (i / 32) + Z.of_nat (i mod 32)) as Hi' by lia.
split.
{ apply wf_or_at; [done|]. unfold in_range. split; [lia|].
  apply Z.pow_lt_mono_r; lia. }
destruct Ha as [Hlen Ha]. rewrite Hi', <- testbit_get in Hbit by (done || lia).
unfold or_at. unfold BITS in Hi. rewrite val_insert by lia.
rewrite lor_pow2_clear by (done || lia).
rewrite Hi', Z.pow_add_r by lia. ring.
Qed.

(** The loop keeps [num + quot * b] and the alignment of [div]. *)
Lemma div_loop_spec (B : Z) n quot num dv :
0 < B ->
wf WIDTH quot -> wf WIDTH num -> wf WIDTH dv ->
Z.of_nat n <= BITS WIDTH -> (n <> 0%nat -> val dv = B * 2 ^ (Z.of_nat n - 1)) ->
val num < B * 2 ^ Z.of_nat n -> (2 ^ Z.of_nat n | val quot) ->
let r := div_loop WIDTH n quot num dv in
wf WIDTH r.1 /\ val r.1 * B + val r.2 = val quot * B + val num /\ 0 <= val r.2 < B.
Proof.
intros HB. revert quot num dv. induction n as [|n IH]; intros quot num dv Hq Hn Hd Hb Hdv Hlt Hdiv.
{ change (2 ^ Z.of_nat 0) with 1 in Hlt. cbn [div_loop fst snd].
  pose proof (val_bound num Hn). split; [done|]. split; [done|lia]. }
cbn zeta. cbn [div_loop]. specialize (Hdv ltac:(done)).
replace (Z.of_nat (S n) - 1) with (Z.of_nat n) in Hdv by lia.
rewrite Nat2Z.inj_succ, Z.pow_succ_r in Hlt, Hdiv by lia.
assert (wf WIDTH (shr WIDTH dv 1)) as Hd' by (apply wf_shr; [done|lia]).
assert (n <> 0%nat -> val (shr WIDTH dv 1) = B * 2 ^ (Z.of_nat n - 1)) as Hdv'.
{ intros Hn0. rewrite val_shr, Hdv by (done || lia).
  replace (2 ^ Z.of_nat n) with (2 ^ (Z.of_nat n - 1) * 2 ^ 1).
  2:{ rewrite <- Z.pow_add_r by lia. f_equal. lia. }
  by rewrite Z.mul_assoc, Z.div_mul. }
pose proof (val_bound num Hn) as Hbn. pose proof (val_bound dv Hd) as Hbd.
rewrite geb_val by done. destruct (Z.leb_spec (val dv) (val num)) as [Hge|Hlt'].
- destruct Hdiv as [c Hc].
  assert (Z.testbit (val quot) (Z.of_nat n) = false) as Hbit.
  { rewrite Hc, Z.mul_assoc, Z.mul_pow2_bits by lia.
    rewrite Z.sub_diag. rewrite Z.mul_comm. apply Z.testbit_even_0. }
  destruct (set_bit_spec quot n Hq ltac:(lia) Hbit) as [Hwq Hvq].
  assert (val (sub num dv) = val num - val dv) as Hsub.
  { rewrite val_sub by done. apply Z.mod_small. lia. }
  edestruct (IH (or_at (n / 32) (Z.shiftl 1 (Z.of_nat (n mod 32))) quot) (sub num dv)
    (shr WIDTH dv 1)) as (I1 & I2 & I3); auto using wf_sub; try lia.
  { exists (2 * c + 1). rewrite Hvq, Hc. ring. }
  split; [done|]. split; [|done]. rewrite I2, Hvq, Hsub, Hdv. ring.
- apply IH; auto; [lia|lia|]. destruct Hdiv as [c Hc]. exists (2 * c). rewrite Hc. ring.
Qed.

Lemma bit_length_spec (z : Z) : 0 <= z -> z < 2 ^ bit_length z /\ (z <> 0 -> 2 ^ (bit_length z - 1) <= z).
Proof.
intros Hz. unfold bit_length. destruct (Z.eqb_spec z 0) as [->|Hne]; [split; [lia|done]|].
pose proof (Z.log2_spec z ltac:(lia)) as [H1 H2].
rewrite <- Z.add_1_r in H2. split; [done|]. intros _.
by replace (Z.log2 z + 1 - 1) with (Z.log2 z) by ring.
Qed.

Lemma bit_length_nonneg (z : Z) : 0 <= bit_length z.
Proof. unfold bit_length. bcase; [done|]. pose proof (Z.log2_nonneg z). lia. Qed.

Lemma bit_length_le (z n : Z) : 0 <= z < 2 ^ n -> 0 <= n -> bit_length z <= n.
Proof.
intros Hz Hn. unfold bit_length. bcase; [lia|].
pose proof (proj1 (Z.log2_lt_pow2 z n ltac:(lia)) (proj2 Hz)). lia.
Qed.

Lemma bit_length_pos (z : Z) : 0 < z -> 0 < bit_length z.
Proof. intros. unfold bit_length. bcase; [lia|]. pose proof (Z.log2_nonneg z). lia. Qed.

Lemma bits_facts a :
wf WIDTH a -> 0 <= bits WIDTH a <= BITS WIDTH /\ val a < 2 ^ bits WIDTH a /\
(val a <> 0 -> 2 ^ (bits WIDTH a - 1) <= val a /\ 0 < bits WIDTH a).
Proof.
intros Ha. pose proof (val_bound a Ha) as Hb. rewrite bits_val by done.
pose proof (bit_length_nonneg (val a)).
pose proof (bit_length_spec (val a) ltac:(lia)) as [H1 H2].
pose proof (bit_length_le (val a) (BITS WIDTH) Hb ltac:(unfold BITS; lia)).
split; [lia|]. split; [done|]. intros Hne. split; [auto|].
apply bit_length_pos. lia.
Qed.

Lemma div_spec a b :
wf WIDTH a -> wf WIDTH b -> val b <> 0 ->
exists q, div WIDTH a b = inr q /\ wf WIDTH q /\ val q = val a / val b.
Proof.
intros Ha Hb Hb0.
pose proof (bits_facts a Ha) as (A1 & A2 & _).
pose proof (bits_facts b Hb) as (B1 & B2 & B3). specialize (B3 Hb0) as [B3 B4].
pose proof (val_bound b Hb). pose proof (val_bound a Ha).
unfold div. rewrite Z.gtb_ltb. set (na := bits WIDTH a) in *. set (nb := bits WIDTH b) in *.
destruct (Z.eqb_spec nb 0); [lia|]. destruct (Z.ltb_spec na nb) as [Hlt|Hge].
- exists (zero WIDTH). split; [done|]. split; [apply wf_zero|].
  rewrite val_zero, Z.div_small; [done|]. split; [lia|].
  assert (2 ^ na <= 2 ^ (nb - 1)) by (apply Z.pow_le_mono_r; lia). lia.
- assert (2 ^ na = 2 ^ (nb - 1) * 2 ^ (na - nb + 1)) as Hp.
  { rewrite <- Z.pow_add_r by lia. f_equal. lia. }
  assert (2 ^ na <= 2 ^ BITS WIDTH) by (apply Z.pow_le_mono_r; lia).
  assert (2 ^ na = 2 ^ nb * 2 ^ (na - nb)) as Hp'.
  { rewrite <- Z.pow_add_r by lia. f_equal. lia. }
  assert (val (shl WIDTH b (na - nb)) = val b * 2 ^ (na - nb)) as Hsh.
  { rewrite val_shl by (done || lia). apply Z.mod_small. nia. }
  edestruct (div_loop_spec (val b) (Z.to_nat (na - nb + 1)) (zero WIDTH) a
    (shl WIDTH b (na - nb))) as (D1 & D2 & D3); auto using wf_zero; try lia.
  + apply wf_shl; [done|lia].
  + intros _. rewrite Hsh. do 2 f_equal. lia.
  + rewrite Z2Nat.id by lia. nia.
  + rewrite val_zero. apply Z.divide_0_r.
  + eexists. split; [done|]. split; [done|]. rewrite val_zero in D2.
    apply Z.div_unique with (r := val (div_loop WIDTH (Z.to_nat (na - nb + 1))
      (zero WIDTH) a (shl WIDTH b (na - nb))).2); lia.
Qed.

Lemma div_zero a b : wf WIDTH b -> val b = 0 -> div WIDTH a b = inl DivisionByZero.
Proof. intros Hb H0. unfold div. by rewrite bits_val, H0 by done. Qed.

Lemma GetLow64_val a : (2 <= WIDTH)%nat -> wf WIDTH a -> GetLow64 a = val a mod 2 ^ 64.
Proof.
intros Hw [Hl Ha]. unfold GetLow64. destruct a as [|x [|y a]]; cbn [length] in Hl; try lia.
inversion_clear Ha as [|? ? Hx Ha']. inversion_clear Ha' as [|? ? Hy Ha].
unfold val, get. cbn [nth le_val]. unfold in_range in *.
rewrite lor_shiftl_add by (done || lia).
replace (x + 2 ^ 32 * (y + 2 ^ 32 * le_val 32 a))
  with (x + y * 2 ^ 32 + le_val 32 a * 2 ^ 64) by ring.
rewrite Z.mod_add by lia. symmetry. apply Z.mod_small. lia.
Qed.

(** [EqualTo] compares with a 64-bit integer. *)
Lemma forallb_zero a : limbs_ok 32 a -> forallb (fun x => x =? 0) a = (val a =? 0).
Proof.
unfold val. induction 1 as [|x a Hx Ha IH]; [done|]. cbn [forallb le_val]. rewrite IH.
pose proof (le_val_bound 32 a ltac:(lia) Ha). unfold in_range in Hx. bcases; lia.
Qed.

Lemma EqualTo_val a (b : Z) :
(2 <= WIDTH)%nat -> wf WIDTH a -> in_range 64 b -> EqualTo a b = (val a =? b).
Proof.
intros Hw [Hl Ha] Hb. unfold EqualTo. destruct a as [|x [|y a]]; cbn [length] in Hl; try lia.
inversion_clear Ha as [|? ? Hx Ha']. inversion_clear Ha' as [|? ? Hy Ha].
change (drop 2 (x :: y :: a)) with a. rewrite forallb_zero by done.
unfold get, val. cbn [nth le_val]. pose proof (le_val_bound 32 a ltac:(lia) Ha).
rewrite land_ffffffff, Z.shiftr_div_pow2 by lia. unfold wrap, in_range in *.
bcases; dlia.
Qed.

Lemma val_not a : wf WIDTH a -> wf WIDTH (not_ a) /\ val (not_ a) = 2 ^ BITS WIDTH - 1 - val a.
Proof.
intros [Hl Ha]. destruct (not_spec a Ha) as (N1 & N2 & N3). unfold BITS.
split; [split; [lia|done]|]. by rewrite N3, Hl.
Qed.

Lemma add_u64_spec a (b : Z) :
(2 <= WIDTH)%nat -> wf WIDTH a -> in_range 64 b ->
wf WIDTH (add_u64 WIDTH a b) /\ val (add_u64 WIDTH a b) = (val a + b) mod 2 ^ BITS WIDTH.
Proof.
intros Hw Ha Hb. unfold add_u64. split; [apply wf_add; auto using wf_of_u64|].
by rewrite val_add, val_of_u64 by auto using wf_of_u64.
Qed.
End facts.

End base_uint.

(** ** [arith_uint256]: the width is 8 limbs, 256 bits *)

Module arith_uint256.
Import base_uint.

Abbreviation W := 8%nat.
Abbreviation t := (list Z).

(** [SetCompact]: the new value, [*pfNegative] and [*pfOverflow]. *)
Definition SetCompact (nCompact : Z) : t * bool * bool :=
let nSize := Z.shiftr nCompact 24 in
let nWord := Z.land nCompact 0x007fffff in
let '(nWord, this) :=
  if nSize <=? 3
  then let nWord := Z.shiftr nWord (8 * (3 - nSize)) in (nWord, of_u64 W nWord)
  else (nWord, shl W (of_u64 W nWord) (8 * (nSize - 3))) in
let fNegative := negb (nWord =? 0) && negb (Z.land nCompact 0x00800000 =? 0) in
let fOverflow := negb (nWord =? 0) &&
  ((nSize >? 34) || ((nWord >? 0xff) && (nSize >? 33)) || ((nWord >? 0xffff) && (nSize >? 32))) in
(this, fNegative, fOverflow).

(** [GetCompact]; [None] is a failed assertion. *)
Definition GetCompact (this : t) (fNegative : bool) : option Z :=
let nSize := (bits W this + 7) / 8 in
let nCompact :=
  if nSize <=? 3
  then u32 (u64 (Z.shiftl (GetLow64 this) (8 * (3 - nSize))))
  else u32 (GetLow64 (shr W this (8 * (nSize - 3)))) in
let '(nCompact, nSize) :=
  if negb (Z.land nCompact 0x00800000 =? 0)
  then (Z.shiftr nCompact 8, nSize + 1) else (nCompact, nSize) in
if negb (Z.land nCompact (Z.lnot 0x007fffff) =? 0) then None
else if negb (nSize <? 256) then None
else
  let nCompact := Z.lor nCompact (Z.shiftl nSize 24) in
  Some (Z.lor nCompact
    (if fNegative && negb (Z.land nCompact 0x007fffff =? 0) then 0x00800000 else 0)).

(** ** The compact format on integers

  [N = mantissa * 256 ^ (exponent - 3)], as the comment of
  [arith_uint256.h] defines it (rounded down when [exponent < 3]). *)

Definition mantissa (c : Z) : Z := c mod 2 ^ 23.
Definition exponent (c : Z) : Z := c / 2 ^ 24.
Definition compact_value (c : Z) : Z := mantissa c * 256 ^ exponent c / 256 ^ 3.

(** The number of bytes of [z], its three leading bytes, and the pair
  normalised so that the sign bit of the mantissa is clear. *)
Definition byte_length (z : Z) : Z := (bit_length z + 7) / 8.
Definition leading3 (z : Z) : Z := z * 256 ^ 3 / 256 ^ byte_length z.
Definition compact_parts (z : Z) : Z * Z :=
if leading3 z <? 2 ^ 23 then (leading3 z, byte_length z)
else (leading3 z / 256, byte_length z + 1).
Definition compact_of (z : Z) : Z := (compact_parts z).1 + 2 ^ 24 * (compact_parts z).2.

Section facts.
Implicit Types z c : Z.

Lemma byte_length_spec z :
0 < z -> 0 < byte_length z /\ 256 ^ (byte_length z - 1) <= z < 256 ^ byte_length z.
Proof.
intros Hz. pose proof (bit_length_spec z ltac:(lia)) as [H1 H2].
specialize (H2 ltac:(lia)). pose proof (bit_length_pos z Hz).
assert (0 < byte_length z) by (unfold byte_length; dlia).
split; [done|]. change 256 with (2 ^ 8). rewrite <- !Z.pow_mul_r by lia.
assert (8 * (byte_length z - 1) <= bit_length z - 1 /\ bit_length z <= 8 * byte_length z) as [B1 B2].
{ unfold byte_length. dlia. }
apply (Z.pow_le_mono_r 2) in B1, B2; lia.
Qed.

Lemma byte_length_unique z n : 0 < n -> 256 ^ (n - 1) <= z < 256 ^ n -> byte_length z = n.
Proof.
intros Hn [H1 H2].
assert (0 < 256 ^ (n - 1)) by lia.
destruct (byte_length_spec z ltac:(lia)) as (B0 & B1 & B2).
destruct (Z.lt_trichotomy (byte_length z) n) as [Hlt|[?|Hlt]]; [|done|]; exfalso.
- assert (256 ^ byte_length z <= 256 ^ (n - 1)) by (apply Z.pow_le_mono_r; lia). lia.
- assert (256 ^ n <= 256 ^ (byte_length z - 1)) by (apply Z.pow_le_mono_r; lia). lia.
Qed.

Lemma byte_length_0 : byte_length 0 = 0.
Proof. done. Qed.

Lemma byte_length_le z n : 0 <= z < 256 ^ n -> 0 <= n -> 0 <= byte_length z <= n.
Proof.
intros Hz Hn. change 256 with (2 ^ 8) in Hz. rewrite <- Z.pow_mul_r in Hz by lia.
pose proof (bit_length_le z (8 * n) ltac:(lia) ltac:(lia)).
pose proof (bit_length_nonneg z). unfold byte_length. dlia.
Qed.

(** The three leading bytes of a positive number, and what is dropped. *)
Lemma leading3_spec z :
0 < z -> 2 ^ 16 <= leading3 z < 2 ^ 24.
Proof.
intros Hz. destruct (byte_length_spec z Hz) as (B0 & B1 & B2). unfold leading3.
replace (256 ^ byte_length z) with (256 * 256 ^ (byte_length z - 1)) in *.
2:{ rewrite <- Z.pow_succ_r by lia. f_equal. lia. }
set (U := 256 ^ (byte_length z - 1)) in *. split.
- apply Z.div_le_lower_bound; [lia|]. lia.
- apply Z.div_lt_upper_bound; [lia|]. lia.
Qed.

Lemma leading3_small z : byte_length z <= 3 -> 0 <= byte_length z -> leading3 z = z * 256 ^ (3 - byte_length z).
Proof.
intros Hz H0. unfold leading3.
replace (256 ^ 3) with (256 ^ (3 - byte_length z) * 256 ^ byte_length z).
2:{ rewrite <- Z.pow_add_r by lia. f_equal. lia. }
rewrite Z.mul_assoc. apply Z.div_mul. lia.
Qed.

Lemma leading3_large z : 3 <= byte_length z -> leading3 z = z / 256 ^ (byte_length z - 3).
Proof.
intros Hz. unfold leading3.
replace (256 ^ byte_length z) with (256 ^ (byte_length z - 3) * 256 ^ 3).
2:{ rewrite <- Z.pow_add_r by lia. f_equal. lia. }
apply Z.div_mul_cancel_r; lia.
Qed.

Lemma sign_bit_eqb x : in_range 24 x -> (Z.land x 0x00800000 =? 0) = (x <? 2 ^ 23).
Proof.
intros Hx. unfold in_range in Hx. change 0x00800000 with (Z.shiftl 1 23).
rewrite land_pow2_eqb, testbit_top by lia. by rewrite Z.leb_antisym, negb_involutive.
Qed.

Lemma land_7fffff x : Z.land x 0x007fffff = x mod 2 ^ 23.
Proof. change 0x007fffff with (Z.ones 23). by apply Z.land_ones. Qed.

Lemma compact_parts_range z :
0 <= z -> let '(m, s) := compact_parts z in
0 <= m < 2 ^ 23 /\ byte_length z <= s <= byte_length z + 1.
Proof.
intros Hz. unfold compact_parts.
assert (0 <= leading3 z < 2 ^ 24) as Hl.
{ destruct (decide (z = 0)) as [->|]; [done|]. pose proof (leading3_spec z ltac:(lia)). lia. }
destruct (Z.ltb_spec (leading3 z) (2 ^ 23)); [lia|]. split; [dlia|lia].
Qed.

Lemma compact_of_parts z m s :
compact_parts z = (m, s) -> 0 <= m < 2 ^ 23 -> 0 <= s ->
mantissa (compact_of z) = m /\ exponent (compact_of z) = s.
Proof.
intros Hp Hm Hs. unfold mantissa, exponent, compact_of. rewrite Hp. cbn [fst snd]. split.
- replace (m + 2 ^ 24 * s) with (m + (2 * s) * 2 ^ 23) by ring.
  rewrite Z.mod_add by lia. by apply Z.mod_small.
- apply digit_div. lia.
Qed.

(** The three leading bytes, as the two branches of [GetCompact] get them. *)
Lemma GetCompact_leading a :
wf W a -> let v := val a in let nSize := byte_length v in
(if nSize <=? 3
 then u32 (u64 (Z.shiftl (GetLow64 a) (8 * (3 - nSize))))
 else u32 (GetLow64 (shr W a (8 * (nSize - 3))))) = leading3 v.
Proof.
intros Ha. cbn zeta. pose proof (val_bound a Ha) as Hb.
pose proof (byte_length_le (val a) 32 ltac:(exact Hb) ltac:(lia)) as Hs.
assert (0 <= leading3 (val a) < 2 ^ 24) as Hl.
{ destruct (decide (val a = 0)) as [->|]; [done|].
  pose proof (leading3_spec (val a) ltac:(lia)). lia. }
destruct (Z.leb_spec (byte_length (val a)) 3) as [Hle|Hgt].
- rewrite (leading3_small _ Hle ltac:(lia)) in *.
  rewrite (GetLow64_val (WIDTH:=W)), Z.shiftl_mul_pow2 by (done || lia).
  rewrite Z.pow_mul_r by lia. change (2 ^ 8) with 256.
  assert (0 < 256 ^ (3 - byte_length (val a))) by lia.
  rewrite (Z.mod_small (val a)) by nia.
  rewrite (wrap_small 64) by (unfold in_range; lia).
  apply wrap_small. unfold in_range. lia.
- assert (3 <= byte_length (val a)) as Hge by lia. rewrite (leading3_large _ Hge) in *.
  rewrite (GetLow64_val (WIDTH:=W)) by first [done | apply wf_shr; [done|lia] | lia].
  rewrite val_shr by (done || lia).
  rewrite Z.pow_mul_r by lia. change (2 ^ 8) with 256.
  rewrite (Z.mod_small (_ / _)) by lia. apply wrap_small. unfold in_range. lia.
Qed.

Lemma GetCompact_spec a (fNegative : bool) :
wf W a ->
GetCompact a fNegative =
  Some (compact_of (val a) +
        (if fNegative && negb (mantissa (compact_of (val a)) =? 0) then 2 ^ 23 else 0)).
Proof.
intros Ha. unfold GetCompact. rewrite bits_val by done. fold (byte_length (val a)).
rewrite GetCompact_leading by done.
pose proof (val_bound a Ha) as Hb.
pose proof (byte_length_le (val a) 32 ltac:(exact Hb) ltac:(lia)) as Hs.
assert (in_range 24 (leading3 (val a))) as Hl.
{ unfold in_range. destruct (decide (val a = 0)) as [->|]; [done|].
  pose proof (leading3_spec (val a) ltac:(lia)). lia. }
rewrite sign_bit_eqb by done. rewrite Z.shiftr_div_pow2 by lia. change (2 ^ 8) with 256.
replace (if negb (leading3 (val a) <? 2 ^ 23) then _ else _) with (compact_parts (val a))
  by (unfold compact_parts; by destruct (leading3 (val a) <? 2 ^ 23)).
pose proof (compact_parts_range (val a) ltac:(lia)) as Hr.
destruct (compact_parts (val a)) as [m s] eqn:Hp. destruct Hr as [Hm Hs'].
destruct (compact_of_parts (val a) m s Hp Hm ltac:(lia)) as [Hmant _].
replace (Z.land m (Z.lnot 0x007fffff)) with 0.
2:{ change 0x007fffff with (Z.ones 23). rewrite <- Z.ldiff_land, Z.ldiff_ones_r by lia.
    rewrite Z.shiftr_div_pow2, Z.div_small by lia. by rewrite Z.shiftl_0_l. }
cbn [Z.eqb negb]. rewrite (proj2 (Z.ltb_lt s 256)) by lia. cbn [negb].
rewrite lor_shiftl_add by (unfold in_range; lia). f_equal.
replace (m + s * 2 ^ 24) with (compact_of (val a))
  by (unfold compact_of; rewrite Hp; cbn [fst snd]; ring).
rewrite land_7fffff. fold (mantissa (compact_of (val a))).
destruct (fNegative && negb (mantissa (compact_of (val a)) =? 0)).
- change 0x00800000 with (2 ^ 23). apply lor_pow2_clear; [lia|].
  rewrite <- (Z.mod_pow2_bits_low _ 24) by lia. unfold compact_of. rewrite Hp. cbn [fst snd].
  rewrite digit_mod by lia. rewrite testbit_top by lia. apply Z.leb_gt. lia.
- by rewrite Z.lor_0_r, Z.add_0_r.
Qed.

Lemma compact_value_small c :
0 <= exponent c <= 3 -> compact_value c = mantissa c / 2 ^ (8 * (3 - exponent c)).
Proof.
intros He. unfold compact_value.
replace (256 ^ 3) with (256 ^ (3 - exponent c) * 256 ^ exponent c).
2:{ rewrite <- Z.pow_add_r by lia. f_equal. lia. }
rewrite Z.div_mul_cancel_r by lia. f_equal. by rewrite Z.pow_mul_r by lia.
Qed.

Lemma compact_value_large c :
3 <= exponent c -> compact_value c = mantissa c * 2 ^ (8 * (exponent c - 3)).
Proof.
intros He. unfold compact_value.
replace (256 ^ exponent c) with (256 ^ (exponent c - 3) * 256 ^ 3).
2:{ rewrite <- Z.pow_add_r by lia. f_equal. lia. }
rewrite Z.mul_assoc, Z.div_mul by lia. f_equal. by rewrite Z.pow_mul_r by lia.
Qed.

(** The overflow test is exact. *)
Lemma overflow_test c :
0 <= exponent c -> 3 < exponent c ->
negb (mantissa c =? 0) && ((exponent c >? 34) || ((mantissa c >? 0xff) && (exponent c >? 33))
  || ((mantissa c >? 0xffff) && (exponent c >? 32))) = (2 ^ 256 <=? compact_value c).
Proof.
intros He0 He. rewrite compact_value_large by lia. rewrite !Z.gtb_ltb.
pose proof (Z.mod_pos_bound c (2 ^ 23) ltac:(lia)) as Hm. fold (mantissa c) in Hm.
set (m := mantissa c) in *. set (e := exponent c) in *.
destruct (Z.eqb_spec m 0) as [->|Hne]; [done|]. cbn [negb andb].
destruct (Z.ltb_spec 34 e) as [H34|H34]; cbn [orb].
{ symmetry. apply Z.leb_le. assert (2 ^ 256 <= 2 ^ (8 * (e - 3))) by (apply Z.pow_le_mono_r; lia). nia. }
destruct (decide (e = 34)) as [E34|]; [|destruct (decide (e = 33)) as [E33|]].
1,2: rewrite ?E34, ?E33; cbn [Z.ltb Z.compare Pos.compare Pos.compare_cont];
  rewrite ?andb_true_r, ?andb_false_r; symmetry; bcases; cbn [orb]; apply Z.leb_le || apply Z.leb_gt; lia.
replace (33 <? e) with false by (symmetry; apply Z.ltb_ge; lia).
replace (32 <? e) with false by (symmetry; apply Z.ltb_ge; lia).
rewrite !andb_false_r. symmetry. apply Z.leb_gt.
assert (2 ^ (8 * (e - 3)) <= 2 ^ 232) by (apply Z.pow_le_mono_r; lia). nia.
Qed.

Lemma SetCompact_spec c :
in_range 32 c ->
let '(t, neg, ovf) := SetCompact c in
wf W t /\ val t = compact_value c mod 2 ^ 256 /\
neg = negb (compact_value c =? 0) && Z.testbit c 23 /\
ovf = (2 ^ 256 <=? compact_value c).
Proof.
intros Hc. unfold in_range in Hc. unfold SetCompact.
rewrite land_7fffff, Z.shiftr_div_pow2 by lia. fold (mantissa c) (exponent c).
assert (0 <= exponent c < 2 ^ 8) as He by (unfold exponent; dlia).
assert (0 <= mantissa c < 2 ^ 23) as Hm by (apply Z.mod_pos_bound; lia).
assert ((Z.land c 0x00800000 =? 0) = negb (Z.testbit c 23)) as Hsign.
{ change 0x00800000 with (Z.shiftl 1 23). by apply land_pow2_eqb. }
rewrite Hsign, negb_involutive.
destruct (Z.leb_spec (exponent c) 3) as [Hle|Hgt].
- rewrite Z.shiftr_div_pow2, <- compact_value_small by lia.
  assert (0 <= compact_value c < 2 ^ 23) as Hv.
  { rewrite compact_value_small by lia. split; [apply Z.div_pos; lia|].
    apply Z.div_lt_upper_bound; [lia|]. nia. }
  split; [apply wf_of_u64; lia|]. split; [|split; [done|]].
  + rewrite val_of_u64 by (unfold in_range; lia). rewrite Z.mod_small; lia.
  + rewrite !Z.gtb_ltb. replace (34 <? exponent c) with false by (symmetry; apply Z.ltb_ge; lia).
    replace (33 <? exponent c) with false by (symmetry; apply Z.ltb_ge; lia).
    replace (32 <? exponent c) with false by (symmetry; apply Z.ltb_ge; lia).
    rewrite !andb_false_r. symmetry. apply Z.leb_gt. lia.
- split; [apply wf_shl; [apply wf_of_u64; lia|lia]|].
  split; [|split; [|apply overflow_test; lia]].
  + rewrite (val_shl (WIDTH := W)) by first [apply wf_of_u64; lia | lia].
    rewrite val_of_u64 by (unfold in_range; lia). by rewrite <- compact_value_large by lia.
  + f_equal. f_equal. rewrite compact_value_large by lia.
    destruct (Z.eqb_spec (mantissa c) 0) as [->|Hne]; [done|].
    symmetry. apply Z.eqb_neq. nia.
Qed.

(** Encoding [z], then reading the encoding back. *)
Lemma compact_value_of z m s :
compact_parts z = (m, s) -> 0 <= m < 2 ^ 23 -> 0 <= s ->
compact_value (compact_of z) = m * 256 ^ s / 256 ^ 3.
Proof.
intros Hp Hm Hs. destruct (compact_of_parts z m s Hp Hm Hs) as [H1 H2].
unfold compact_value. by rewrite H1, H2.
Qed.

Lemma compact_roundtrip_exact z :
0 < z -> byte_length z <= 3 -> (byte_length z = 3 -> leading3 z < 2 ^ 23) ->
compact_value (compact_of z) = z.
Proof.
intros Hz Hs H3. pose proof (compact_parts_range z ltac:(lia)) as Hr.
destruct (byte_length_spec z Hz) as [B0 B1].
destruct (compact_parts z) as [m s] eqn:Hp. destruct Hr as [Hm Hs'].
rewrite (compact_value_of z m s Hp Hm ltac:(lia)). unfold compact_parts in Hp.
rewrite leading3_small in Hp, H3 by lia.
assert (byte_length z = 1 \/ byte_length z = 2 \/ byte_length z = 3) as [E|[E|E]] by lia;
  rewrite E in *; pow_literals;
  match type of Hp with (if ?x <? ?y then _ else _) = _ => destruct (Z.ltb_spec x y) as [H|H] end;
  injection Hp as <- <-; pow_literals; try specialize (H3 eq_refl); clear - Hz B1 H3 H; dlia.
Qed.

Lemma compact_roundtrip_trunc z :
0 < z -> 3 <= byte_length z ->
let U := 256 ^ (byte_length z - 3) in
let '(m, s) := compact_parts z in
let V := if leading3 z <? 2 ^ 23 then U else 256 * U in
compact_value (compact_of z) = m * V /\ m = z / V /\ 2 ^ 15 <= m /\
byte_length (m * V) = byte_length z /\ compact_parts (m * V) = (m, s).
Proof.
intros Hz Hs. cbn zeta. pose proof (compact_parts_range z ltac:(lia)) as Hr.
destruct (byte_length_spec z Hz) as [B0 B1]. pose proof (leading3_spec z Hz) as Hl.
pose proof (leading3_large z Hs) as HL. set (n := byte_length z) in *.
assert (256 ^ (n - 1) = 2 ^ 16 * 256 ^ (n - 3)) as HU.
{ change (2 ^ 16) with (256 ^ 2). rewrite <- Z.pow_add_r by lia. f_equal. lia. }
destruct (compact_parts z) as [m s] eqn:Hp. destruct Hr as [Hm Hs'].
set (U := 256 ^ (n - 3)) in *. assert (0 < U) by (unfold U; lia).
set (V := if leading3 z <? 2 ^ 23 then U else 256 * U).
assert (m = z / V /\ s = (if leading3 z <? 2 ^ 23 then n else n + 1)) as [HmV Hsn].
{ unfold compact_parts in Hp. unfold V. fold n in Hp.
  destruct (leading3 z <? 2 ^ 23); injection Hp as <- <-; rewrite HL; (split; [|done]); [done|].
  rewrite Z.div_div by lia. f_equal. lia. }
assert (2 ^ 15 <= m /\ 2 ^ 16 * U <= m * V) as [Hm15 HmU].
{ clear HmV Hsn. unfold compact_parts in Hp. unfold V.
  destruct (Z.ltb_spec (leading3 z) (2 ^ 23)); injection Hp as Hp1 _.
  - split; [lia|]. nia.
  - assert (2 ^ 15 <= m) by (rewrite <- Hp1; apply Z.div_le_lower_bound; lia). split; [done|]. nia. }
assert (0 < V) by (unfold V; case_match; lia).
assert (m * V <= z) by (rewrite HmV, Z.mul_comm; by apply Z.mul_div_le).
assert (byte_length (m * V) = n) as Hn by (apply byte_length_unique; lia).
split; [|split; [done|split; [done|split; [done|]]]].
- rewrite (compact_value_of z m s Hp Hm ltac:(lia)).
  replace (256 ^ s) with (V * 256 ^ 3); [by rewrite Z.mul_assoc, Z.div_mul by lia|].
  rewrite Hsn. unfold V, U. case_match.
  + rewrite <- Z.pow_add_r by lia. f_equal. lia.
  + rewrite <- (Z.pow_1_r 256) at 1. rewrite <- !Z.pow_add_r by lia. f_equal. lia.
- unfold compact_parts. rewrite leading3_large by lia. rewrite Hn. fold U.
  assert (leading3 z < 2 ^ 23 -> m = leading3 z) as HmL.
  { intros Hlt. unfold compact_parts in Hp. rewrite (proj2 (Z.ltb_lt _ _) Hlt) in Hp. congruence. }
  rewrite Hsn. unfold V. destruct (Z.ltb_spec (leading3 z) (2 ^ 23)).
  + rewrite Z.div_mul by lia. specialize (HmL ltac:(lia)).
    by rewrite (proj2 (Z.ltb_lt m (2 ^ 23))) by lia.
  + rewrite Z.mul_assoc, Z.div_mul by lia.
    rewrite (proj2 (Z.ltb_ge (m * 256) (2 ^ 23))) by lia. by rewrite Z.div_mul by lia.
Qed.

Lemma compact_roundtrip z :
0 <= z ->
let v := compact_value (compact_of z) in
v <= z /\ 2 ^ 15 * (z - v) <= v /\ compact_of v = compact_of z.
Proof.
intros Hz. cbn zeta. destruct (decide (z = 0)) as [->|Hne]; [vm_compute; intuition congruence|].
destruct (byte_length_spec z ltac:(lia)) as [B0 B1].
destruct (decide (byte_length z < 3)) as [Hlt|Hge].
{ rewrite compact_roundtrip_exact by lia. split; [lia|]. split; [lia|done]. }
pose proof (compact_roundtrip_trunc z ltac:(lia) ltac:(lia)) as Hr. cbn zeta in Hr.
destruct (compact_parts z) as [m s] eqn:Hp. destruct Hr as (R1 & R2 & R3 & R4 & R5).
rewrite R1. set (V := if leading3 z <? 2 ^ 23 then _ else _) in *.
assert (0 < V) by (unfold V; case_match; lia).
assert (z = V * m + z mod V) as Hdm by (rewrite R2; apply Z_div_mod_eq_full).
pose proof (Z.mod_pos_bound z V ltac:(lia)). split; [nia|]. split; [nia|].
unfold compact_of. by rewrite R5, Hp.
Qed.

Lemma compact_of_range z : 0 <= z < 2 ^ 256 -> in_range 32 (compact_of z) /\ Z.testbit (compact_of z) 23 = false.
Proof.
intros Hz. pose proof (byte_length_le z 32 ltac:(lia) ltac:(lia)).
pose proof (compact_parts_range z ltac:(lia)) as Hr. unfold compact_of.
destruct (compact_parts z) as [m s]. cbn [fst snd]. destruct Hr. split.
- unfold in_range. lia.
- rewrite <- (Z.mod_pow2_bits_low _ 24), digit_mod by lia.
  rewrite testbit_top by lia. apply Z.leb_gt. lia.
Qed.
End facts.
End arith_uint256.

(** ** Properties *)

(** For every width, the limb loops of [base_uint] compute the ring
    operations, shifts, comparison and bit length of the integers their limbs
    stand for, modulo [2 ^ BITS] where the code wraps, and return well-formed
    limb arrays. *)
Lemma base_uint_ops_correct (WIDTH : nat) (a b : list Z) (b32 shift : Z) :
  base_uint.wf WIDTH a -> base_uint.wf WIDTH b -> in_range 32 b32 -> 0 <= shift ->
  let M := 2 ^ base_uint.BITS WIDTH in
  let v := base_uint.val in
  (base_uint.wf WIDTH (base_uint.add a b) /\ v (base_uint.add a b) = (v a + v b) mod M) /\
  (base_uint.wf WIDTH (base_uint.neg a) /\ v (base_uint.neg a) = (- v a) mod M) /\
  (base_uint.wf WIDTH (base_uint.sub a b) /\ v (base_uint.sub a b) = (v a - v b) mod M) /\
  (base_uint.wf WIDTH (base_uint.mul32 a b32) /\ v (base_uint.mul32 a b32) = (v a * b32) mod M) /\
  (base_uint.wf WIDTH (base_uint.mul WIDTH a b) /\ v (base_uint.mul WIDTH a b) = (v a * v b) mod M) /\
  (base_uint.wf WIDTH (base_uint.shl WIDTH a shift) /\
     v (base_uint.shl WIDTH a shift) = (v a * 2 ^ shift) mod M) /\
  (base_uint.wf WIDTH (base_uint.shr WIDTH a shift) /\ v (base_uint.shr WIDTH a shift) = v a / 2 ^ shift) /\
  base_uint.CompareTo WIDTH a b = base_uint.sign_of (v a ?= v b) /\
  base_uint.bits WIDTH a = base_uint.bit_length (v a).
Proof.
  intros Ha Hb Hb32 Hs. cbn zeta.
  repeat match goal with |- _ /\ _ => split end;
    eauto using base_uint.wf_add, base_uint.val_add, base_uint.wf_neg, base_uint.val_neg,
      base_uint.wf_sub, base_uint.val_sub, base_uint.wf_mul32, base_uint.val_mul32,
      base_uint.wf_shl, base_uint.val_shl, base_uint.wf_shr, base_uint.val_shr,
      base_uint.CompareTo_val, base_uint.bits_val.
  all: by apply base_uint.mul_spec.
Qed.

(** [operator/=] computes the integer quotient of any two values of any
    width by shift and subtract, and throws [uint_error] exactly on a zero
    divisor. *)
Lemma base_uint_div_correct (WIDTH : nat) (a b : list Z) :
  base_uint.wf WIDTH a -> base_uint.wf WIDTH b ->
  if decide (base_uint.val b = 0) then base_uint.div WIDTH a b = inl base_uint.DivisionByZero
  else exists q, base_uint.div WIDTH a b = inr q /\ base_uint.wf WIDTH q /\
         base_uint.val q = base_uint.val a / base_uint.val b.
Proof.
  intros Ha Hb. case_decide.
  - by apply base_uint.div_zero.
  - by apply base_uint.div_spec.
Qed.

(** C34: [base_uint] of any width computes with integers modulo [2 ^ BITS]:
    addition, negation, subtraction, both multiplications, and the left shift
    reduce the exact result; the right shift divides; comparison and [bits]
    agree with the values; and every result is well formed.  Division is the
    floor of the quotient, and throws exactly when the divisor is zero. *)
Theorem base_uint_correct (WIDTH : nat) (a b : list Z) (b32 shift : Z) :
  base_uint.wf WIDTH a -> base_uint.wf WIDTH b -> in_range 32 b32 -> 0 <= shift ->
  let M := 2 ^ base_uint.BITS WIDTH in
  let v := base_uint.val in
  ((base_uint.wf WIDTH (base_uint.add a b) /\ v (base_uint.add a b) = (v a + v b) mod M) /\
   (base_uint.wf WIDTH (base_uint.neg a) /\ v (base_uint.neg a) = (- v a) mod M) /\
   (base_uint.wf WIDTH (base_uint.sub a b) /\ v (base_uint.sub a b) = (v a - v b) mod M) /\
   (base_uint.wf WIDTH (base_uint.mul32 a b32) /\ v (base_uint.mul32 a b32) = (v a * b32) mod M) /\
   (base_uint.wf WIDTH (base_uint.mul WIDTH a b) /\ v (base_uint.mul WIDTH a b) = (v a * v b) mod M) /\
   (base_uint.wf WIDTH (base_uint.shl WIDTH a shift) /\
      v (base_uint.shl WIDTH a shift) = (v a * 2 ^ shift) mod M) /\
   (base_uint.wf WIDTH (base_uint.shr WIDTH a shift) /\ v (base_uint.shr WIDTH a shift) = v a / 2 ^ shift) /\
   base_uint.CompareTo WIDTH a b = base_uint.sign_of (v a ?= v b) /\
   base_uint.bits WIDTH a = base_uint.bit_length (v a)) /\
  if decide (v b = 0) then base_uint.div WIDTH a b = inl base_uint.DivisionByZero
  else exists q, base_uint.div WIDTH a b = inr q /\ base_uint.wf WIDTH q /\ v q = v a / v b.
Proof. intros Ha Hb Hb32 Hs. split; [by apply base_uint_ops_correct|by apply base_uint_div_correct]. Qed.

Lemma base_uint_correct_witness :
  base_uint.val (base_uint.add [4294967295; 4294967295] [10; 0]) = 9 /\
  exists q, base_uint.div 2 [4294967295; 4294967295] [10; 0] = inr q /\ base_uint.val q = 1844674407370955161.
Proof.
  assert (base_uint.wf 2 [4294967295; 4294967295]) as Ha by
    (split; [done|repeat constructor; unfold in_range; lia]).
  assert (base_uint.wf 2 [10; 0]) as Hb by (split; [done|repeat constructor; unfold in_range; lia]).
  destruct (base_uint_correct 2 _ _ 7 40 Ha Hb ltac:(unfold in_range; lia) ltac:(lia)) as [[[_ H1] _] H].
  split; [rewrite H1; reflexivity|].
  destruct (decide _) as [Hz|Hz]; [discriminate Hz|].
  destruct H as (q & H2 & _ & H3). exists q. split; [exact H2|]. rewrite H3. reflexivity.
Defined.

(** [SetCompact] decodes every 32-bit compact number exactly as the
    documented [mantissa * 256 ^ (exponent - 3)] when it fits 256 bits; the
    overflow flag is raised exactly when it does not fit, and the negative
    flag exactly when the sign bit is set on a non-zero number. *)
Lemma SetCompact_correct (c : Z) :
  in_range 32 c ->
  let '(t, fNegative, fOverflow) := arith_uint256.SetCompact c in
  base_uint.wf 8 t /\
  (fOverflow = true <-> 2 ^ 256 <= arith_uint256.compact_value c) /\
  (fOverflow = false -> base_uint.val t = arith_uint256.compact_value c) /\
  (fNegative = true <-> arith_uint256.compact_value c <> 0 /\ Z.testbit c 23 = true).
Proof.
  intros Hc. pose proof (arith_uint256.SetCompact_spec c Hc) as H.
  destruct (arith_uint256.SetCompact c) as [[t neg] ovf]. destruct H as (H1 & H2 & -> & ->).
  assert (0 <= arith_uint256.compact_value c) as H0.
  { unfold arith_uint256.compact_value. apply Z.div_pos; [|lia].
    assert (0 <= arith_uint256.mantissa c) by (apply Z.mod_pos_bound; lia).
    assert (0 <= 256 ^ arith_uint256.exponent c) by (apply Z.pow_nonneg; lia). nia. }
  split; [done|]. split; [by rewrite Z.leb_le|]. split.
  - intros Hlt%Z.leb_gt. rewrite H2. apply Z.mod_small. lia.
  - by rewrite andb_true_iff, negb_true_iff, Z.eqb_neq.
Qed.

(** [GetCompact] never fails its assertions; decoding its result gives no
    flags and a target that is not above the encoded one and keeps at least
    15 significant bits; and re-encoding the decoded target gives the same
    compact number, so the encoding is canonical. *)
Lemma GetCompact_roundtrip (a : list Z) :
  base_uint.wf 8 a ->
  exists c t, arith_uint256.GetCompact a false = Some c /\ in_range 32 c /\
    arith_uint256.SetCompact c = (t, false, false) /\ base_uint.wf 8 t /\
    base_uint.val t <= base_uint.val a /\
    2 ^ 15 * (base_uint.val a - base_uint.val t) <= base_uint.val t /\
    arith_uint256.GetCompact t false = Some c.
Proof.
  intros Ha. pose proof (base_uint.val_bound a Ha) as Hb. change (2 ^ base_uint.BITS 8) with (2 ^ 256) in Hb.
  set (c := arith_uint256.compact_of (base_uint.val a)).
  destruct (arith_uint256.compact_of_range _ Hb) as [Hc Hs]. fold c in Hc, Hs.
  pose proof (arith_uint256.compact_roundtrip (base_uint.val a) ltac:(lia)) as (R1 & R2 & R3). fold c in R1, R2, R3.
  pose proof (arith_uint256.SetCompact_spec c Hc) as H.
  destruct (arith_uint256.SetCompact c) as [[t neg] ovf] eqn:E. destruct H as (H1 & H2 & -> & ->).
  rewrite Hs, andb_false_r, (proj2 (Z.leb_gt _ _)) in * by lia.
  rewrite Z.mod_small in H2 by lia.
  exists c, t. split; [by rewrite arith_uint256.GetCompact_spec, Z.add_0_r by done|].
  split; [done|]. split; [done|]. split; [done|]. rewrite H2. split; [done|]. split; [done|].
  rewrite arith_uint256.GetCompact_spec by done. cbn [andb]. by rewrite H2, R3, Z.add_0_r.
Qed.

(** The compact encoding of targets.  [SetCompact] decodes every 32-bit
    compact number exactly as [mantissa * 256 ^ (exponent - 3)] when it fits
    256 bits; the overflow flag is raised exactly when it does not fit, and
    the negative flag exactly when the sign bit is set on a non-zero number.
    [GetCompact] never fails its assertions; decoding its result gives no
    flags and a target that is not above the encoded one and keeps at least
    15 significant bits; and re-encoding the decoded target gives the same
    compact number, so the encoding is canonical. *)
Theorem compact_encoding_correct :
  (forall c, in_range 32 c ->
     let '(t, fNegative, fOverflow) := arith_uint256.SetCompact c in
     base_uint.wf 8 t /\
     (fOverflow = true <-> 2 ^ 256 <= arith_uint256.compact_value c) /\
     (fOverflow = false -> base_uint.val t = arith_uint256.compact_value c) /\
     (fNegative = true <-> arith_uint256.compact_value c <> 0 /\ Z.testbit c 23 = true)) /\
  (forall a, base_uint.wf 8 a ->
     exists c t, arith_uint256.GetCompact a false = Some c /\ in_range 32 c /\
       arith_uint256.SetCompact c = (t, false, false) /\ base_uint.wf 8 t /\
       base_uint.val t <= base_uint.val a /\
       2 ^ 15 * (base_uint.val a - base_uint.val t) <= base_uint.val t /\
       arith_uint256.GetCompact t false = Some c).
Proof. split; [apply SetCompact_correct|apply GetCompact_roundtrip]. Qed.

Lemma compact_encoding_correct_witness :
  base_uint.wf 8 (arith_uint256.SetCompact 0x05123456).1.1 /\
  exists c, arith_uint256.GetCompact (base_uint.of_u64 8 0x12345678) false = Some c /\ c = 0x04123456.
Proof.
  split.
  - assert (in_range 32 0x05123456) as Hc by (unfold in_range; lia).
    pose proof (proj1 compact_encoding_correct _ Hc) as H.
    destruct (arith_uint256.SetCompact 0x05123456) as [[t neg] ovf] eqn:E. exact (proj1 H).
  - assert (base_uint.wf 8 (base_uint.of_u64 8 0x12345678)) as Ha by (apply base_uint.wf_of_u64; lia).
    destruct (proj2 compact_encoding_correct _ Ha) as (c & t & H1 & _).
    exists c. split; [exact H1|]. vm_compute in H1. congruence.
Defined.

