(* ===== verification/Uint256.v ===== *)
(** * Byte blobs, endianness and hexadecimal text

    [crypto/common.h] (little- and big-endian words), the hexadecimal
    functions of [utilstrencodings] and [base_blob<BITS>] of [uint256.h] and
    [uint256.cpp], whose instances are [uint160] and [uint256].  A C string
    is the list of its characters' codes, without the final NUL. *)

From S2P Require Import Prelude ArithUint256.

(** ** [crypto/common.h] *)

Module common.
Definition ReadLE16 (p : bytes) : Z := le_val 8 (take 2 p).
Definition ReadLE32 (p : bytes) : Z := le_val 8 (take 4 p).
Definition ReadLE64 (p : bytes) : Z := le_val 8 (take 8 p).
Definition WriteLE16 (x : Z) : bytes := le_digits 8 2 x.
Definition WriteLE32 (x : Z) : bytes := le_digits 8 4 x.
Definition WriteLE64 (x : Z) : bytes := le_digits 8 8 x.
Definition ReadBE32 (p : bytes) : Z := le_val 8 (reverse (take 4 p)).
Definition ReadBE64 (p : bytes) : Z := le_val 8 (reverse (take 8 p)).
Definition WriteBE32 (x : Z) : bytes := reverse (le_digits 8 4 x).
Definition WriteBE64 (x : Z) : bytes := reverse (le_digits 8 8 x).

(** The portable loop of [CountBits]; a 64-bit value needs 64 turns. *)
Fixpoint CountBits_loop (fuel : nat) (x ret : Z) : Z :=
  match fuel with
  | O => ret
  | S fuel => if x =? 0 then ret else CountBits_loop fuel (Z.shiftr x 1) (ret + 1)
  end.
Definition CountBits (x : Z) : Z := CountBits_loop 64 x 0.
End common.

(** ** Hexadecimal text *)

Module hex.
Definition isspace (c : Z) : bool := (c =? 32) || ((9 <=? c) && (c <=? 13)).

(** The table [p_util_hexdigit]: -1 for a character that is not a digit. *)
Definition HexDigit (c : Z) : Z :=
  if (48 <=? c) && (c <=? 57) then c - 48
  else if (65 <=? c) && (c <=? 70) then c - 55
  else if (97 <=? c) && (c <=? 102) then c - 87
  else -1.

Definition IsHex (str : bytes) : bool :=
  forallb (fun c => negb (HexDigit c <? 0)) str
  && (0 <? Z.of_nat (length str)) && (Z.of_nat (length str) mod 2 =? 0).

Definition IsHexNumber (str : bytes) : bool :=
  let start :=
    match str with
    | c0 :: c1 :: _ :: _ => if (c0 =? 48) && (c1 =? 120) then 2%nat else 0%nat
    | _ => 0%nat
    end in
  forallb (fun c => negb (HexDigit c <? 0)) (drop start str)
  && (Nat.ltb start (length str)).

(** The loop of [ParseHex]: [hi] is the high nibble already read, if any.
    White space is skipped before a high nibble only. *)
Fixpoint ParseHex_loop (hi : option Z) (psz : bytes) : bytes :=
  match psz with
  | [] => []
  | ch :: psz =>
      let c := HexDigit ch in
      match hi with
      | None =>
          if isspace ch then ParseHex_loop None psz
          else if c =? -1 then [] else ParseHex_loop (Some (u8 (Z.shiftl c 4))) psz
      | Some n => if c =? -1 then [] else Z.lor n c :: ParseHex_loop None psz
      end
  end.
Definition ParseHex (psz : bytes) : bytes := ParseHex_loop None psz.

Definition hexmap (v : Z) : Z := if v <? 10 then 48 + v else 87 + v.

Definition HexStr (l : bytes) : bytes :=
  concat (map (fun val => [hexmap (Z.shiftr val 4); hexmap (Z.land val 15)]) l).
End hex.

(** ** [base_blob<BITS>] *)

Module base_blob.
Section base_blob.
Context (WIDTH : nat).

Definition wf (b : bytes) : Prop := length b = WIDTH /\ bytes_ok b.
Definition null : bytes := replicate WIDTH 0.
Definition IsNull (b : bytes) : bool := forallb (fun x => x =? 0) b.

(** [memcmp]: the sign of the first difference. *)
Fixpoint Compare (a b : bytes) : Z :=
  match a, b with
  | x :: a, y :: b => if x =? y then Compare a b else if x <? y then -1 else 1
  | _, _ => 0
  end.

Definition GetUint64 (b : bytes) (pos : nat) : Z := le_val 8 (take 8 (drop (pos * 8) b)).
Definition GetHex (b : bytes) : bytes := hex.HexStr (reverse b).

Fixpoint skip_spaces (psz : bytes) : bytes :=
  match psz with
  | c :: t => if hex.isspace c then skip_spaces t else psz
  | [] => []
  end.

Definition skip_0x (psz : bytes) : bytes :=
  match psz with
  | c0 :: c1 :: t => if (c0 =? 48) && ((c1 =? 120) || (c1 =? 88)) then t else psz
  | _ => psz
  end.

Fixpoint hex_digits (psz : bytes) : bytes :=
  match psz with
  | c :: t => if hex.HexDigit c =? -1 then [] else hex.HexDigit c :: hex_digits t
  | [] => []
  end.

(** The filling loop: [ds] are the digits from the last one back, [n] the
    bytes left until [pend]; what is not written stays zero. *)
Fixpoint fill (n : nat) (ds : bytes) : bytes :=
  match n with
  | O => []
  | S m =>
      match ds with
      | [] => replicate n 0
      | [d] => d :: replicate m 0
      | d0 :: d1 :: ds => Z.lor d0 (u8 (Z.shiftl d1 4)) :: fill m ds
      end
  end.

Definition SetHex (psz : bytes) : bytes :=
  fill WIDTH (reverse (hex_digits (skip_0x (skip_spaces psz)))).
End base_blob.
End base_blob.

Abbreviation uint256 := bytes.
Abbreviation uint160 := bytes.

Definition uint256_wf : uint256 -> Prop := base_blob.wf 32.
Definition uint256_null : uint256 := base_blob.null 32.
Definition uint256S (str : bytes) : uint256 := base_blob.SetHex 32 str.
Definition GetCheapHash (h : uint256) : Z := common.ReadLE64 h.

(** [ArithToUint256] and [UintToArith256]: limb by limb, little-endian. *)
Definition ArithToUint256 (a : list Z) : uint256 := concat (map common.WriteLE32 a).
Fixpoint UintToArith256_loop (n : nat) (b : uint256) : list Z :=
  match n with
  | O => []
  | S n => common.ReadLE32 b :: UintToArith256_loop n (drop 4 b)
  end.
Definition UintToArith256 (b : uint256) : list Z := UintToArith256_loop 8 b.

(** ** Facts *)

(** A property of bytes that can be decided by evaluation on all of them. *)
Lemma byte_forall (P : Z -> bool) :
  forallb P (map Z.of_nat (seq 0 256)) = true -> forall x, in_range 8 x -> P x = true.
Proof.
  intros H x Hx. rewrite forallb_forall in H. apply H. apply in_map_iff.
  unfold in_range in Hx. exists (Z.to_nat x). split; [lia|]. apply in_seq. lia.
Qed.

Module blob_facts.
Import hex base_blob.

Definition hex_ok (v : Z) : bool :=
  let hi := Z.shiftr v 4 in let lo := Z.land v 15 in
  (HexDigit (hexmap hi) =? hi) && (HexDigit (hexmap lo) =? lo)
  && (Z.lor lo (u8 (Z.shiftl hi 4)) =? v) && (Z.lor (u8 (Z.shiftl hi 4)) lo =? v)
  && (negb (hi =? -1)) && (negb (lo =? -1)) && negb (isspace (hexmap hi))
  && negb ((hexmap lo =? 120) || (hexmap lo =? 88)).

Lemma hex_byte v : in_range 8 v ->
  let hi := Z.shiftr v 4 in let lo := Z.land v 15 in
  HexDigit (hexmap hi) = hi /\ HexDigit (hexmap lo) = lo /\
  Z.lor lo (u8 (Z.shiftl hi 4)) = v /\ Z.lor (u8 (Z.shiftl hi 4)) lo = v /\
  (hi =? -1) = false /\ (lo =? -1) = false /\ isspace (hexmap hi) = false /\
  ((hexmap lo =? 120) || (hexmap lo =? 88)) = false.
Proof.
  intros Hv. assert (hex_ok v = true) as H by (revert v Hv; by apply byte_forall).
  unfold hex_ok in H. cbn zeta in H |- *. rewrite !andb_true_iff, !Z.eqb_eq, !negb_true_iff in H.
  tauto.
Qed.

Lemma HexStr_cons v l :
  HexStr (v :: l) = hexmap (Z.shiftr v 4) :: hexmap (Z.land v 15) :: HexStr l.
Proof. done. Qed.

Lemma ParseHex_HexStr l : bytes_ok l -> ParseHex (HexStr l) = l.
Proof.
  unfold ParseHex. induction 1 as [|v l Hv Hl IH]; [done|].
  destruct (hex_byte v Hv) as (H1 & H2 & _ & H4 & H5 & H6 & H7 & _).
  rewrite HexStr_cons. cbn [ParseHex_loop]. rewrite H7, H1, H5. cbn [ParseHex_loop].
  by rewrite H2, H6, H4, IH.
Qed.

Lemma length_HexStr l : length (HexStr l) = (2 * length l)%nat.
Proof. induction l as [|v l IH]; [done|]. rewrite HexStr_cons. cbn [length]. lia. Qed.

(** The text after the digits: nothing, or a character that is no digit. *)
Definition no_digit (rest : bytes) : bool :=
  match rest with [] => true | c :: _ => HexDigit c =? -1 end.

Lemma hex_digits_HexStr l rest :
  bytes_ok l -> no_digit rest = true ->
  hex_digits (HexStr l ++ rest) = concat (map (fun v => [Z.shiftr v 4; Z.land v 15]) l).
Proof.
  intros Hl Hr. induction Hl as [|v l Hv Hl IH].
  { change (HexStr [] ++ rest) with rest. destruct rest; [done|]. cbn in *. by rewrite Hr. }
  destruct (hex_byte v Hv) as (H1 & H2 & _ & _ & H5 & H6 & _).
  rewrite HexStr_cons. cbn [map concat app hex_digits]. by rewrite H1, H5, H2, H6, IH.
Qed.

Lemma fill_nibbles l :
  bytes_ok l ->
  fill (length l) (reverse (concat (map (fun v => [Z.shiftr v 4; Z.land v 15]) (reverse l)))) = l.
Proof.
  induction 1 as [|v l Hv Hl IH]; [done|].
  destruct (hex_byte v Hv) as (_ & _ & H3 & _).
  rewrite reverse_cons, map_app, concat_app, reverse_app. cbn [map concat app length].
  change (reverse [Z.shiftr v 4; Z.land v 15]) with [Z.land v 15; Z.shiftr v 4].
  cbn [app fill]. by rewrite H3, IH.
Qed.

Lemma skip_HexStr l rest :
  bytes_ok l -> l <> [] -> skip_0x (skip_spaces (HexStr l ++ rest)) = HexStr l ++ rest.
Proof.
  intros Hl Hne. destruct Hl as [|v l Hv Hl]; [done|].
  destruct (hex_byte v Hv) as (_ & _ & _ & _ & _ & _ & H7 & H8).
  rewrite HexStr_cons. cbn [app skip_spaces]. rewrite H7. cbn [skip_0x].
  by rewrite H8, andb_false_r.
Qed.

Lemma skip_spaces_app sp s : Forall (fun c => isspace c = true) sp -> skip_spaces (sp ++ s) = skip_spaces s.
Proof. induction 1 as [|c sp Hc Hsp IH]; [done|]. cbn [app skip_spaces]. by rewrite Hc. Qed.

Lemma SetHex_digits WIDTH b s rest :
  wf WIDTH b -> no_digit rest = true ->
  skip_0x (skip_spaces s) = HexStr (reverse b) ++ rest -> SetHex WIDTH s = b.
Proof.
  intros [<- Hb] Hr Hs. unfold SetHex. rewrite Hs, hex_digits_HexStr by first [by apply Forall_reverse | done].
  by apply fill_nibbles.
Qed.

End blob_facts.

(** [UintToArith256] and [ArithToUint256] are inverse and keep the value. *)
Module arith_conv.
Import base_uint.

Lemma ArithToUint256_spec a :
  limbs_ok 32 a ->
  bytes_ok (ArithToUint256 a) /\ length (ArithToUint256 a) = (4 * length a)%nat /\
  le_val 8 (ArithToUint256 a) = val a.
Proof.
  unfold ArithToUint256, val. induction 1 as [|x a Hx Ha (I1 & I2 & I3)]; [done|].
  cbn [map concat]. split; [|split].
  - apply Forall_app. split; [by apply le_digits_ok|done].
  - rewrite length_app, I2. cbn [length]. unfold common.WriteLE32.
    rewrite length_le_digits. lia.
  - rewrite le_val_app, I3 by lia. unfold common.WriteLE32.
    rewrite length_le_digits, le_val_digits by lia. cbn [le_val].
    unfold in_range in Hx. rewrite Z.mod_small; [done|exact Hx].
Qed.

Lemma UintToArith256_loop_spec n b :
  bytes_ok b -> length b = (4 * n)%nat ->
  limbs_ok 32 (UintToArith256_loop n b) /\ length (UintToArith256_loop n b) = n /\
  val (UintToArith256_loop n b) = le_val 8 b.
Proof.
  unfold val. revert b. induction n as [|n IH]; intros b Hb Hlen.
  { destruct b; [done|cbn in Hlen; lia]. }
  cbn [UintToArith256_loop]. rewrite <- (take_drop 4 b) in Hb. apply Forall_app in Hb as [Hb1 Hb2].
  destruct (IH (drop 4 b)) as (I1 & I2 & I3); [done|rewrite length_drop; lia|].
  assert (length (take 4 b) = 4%nat) as Hl by (rewrite length_take; lia).
  split; [|split].
  - constructor; [|done]. unfold common.ReadLE32, in_range.
    pose proof (le_val_bound 8 (take 4 b) ltac:(lia) Hb1) as Hv. rewrite Hl in Hv. exact Hv.
  - cbn [length]. lia.
  - rewrite <- (f_equal (le_val 8) (take_drop 4 b)), le_val_app by lia. cbn [le_val].
    by rewrite I3, Hl.
Qed.

Lemma UintToArith256_spec b :
  uint256_wf b -> wf 8 (UintToArith256 b) /\ val (UintToArith256 b) = le_val 8 b.
Proof.
  intros [Hl Hb]. destruct (UintToArith256_loop_spec 8 b Hb Hl) as (I1 & I2 & I3).
  by split; [split|].
Qed.

Lemma ArithToUint256_UintToArith256 b : uint256_wf b -> ArithToUint256 (UintToArith256 b) = b.
Proof.
  intros Hb. destruct (UintToArith256_spec b Hb) as [[W1 W2] W3]. destruct Hb as [Hl Hb].
  destruct (ArithToUint256_spec (UintToArith256 b) W2) as (A1 & A2 & A3).
  change (length (UintToArith256 b)) with 8%nat in A2.
  apply (le_val_inj 8); [lia|done|done|by rewrite A2, Hl|congruence].
Qed.
End arith_conv.

(** ** Properties *)

(** C26: [SetHex] inverts [GetHex] for a blob of any width, whatever white
    space and [0x] or [0X] prefix come before the digits and whatever text
    that does not continue the number comes after them; and [ParseHex]
    inverts [HexStr] on every byte string. *)
Theorem hex_roundtrip (WIDTH : nat) (b sp rest : bytes) (prefix : bool) (x : Z) :
  base_blob.wf WIDTH b -> (0 < WIDTH)%nat ->
  Forall (fun c => hex.isspace c = true) sp -> blob_facts.no_digit rest = true ->
  x = 120 \/ x = 88 ->
  base_blob.SetHex WIDTH (sp ++ (if prefix then [48; x] else []) ++ base_blob.GetHex b ++ rest) = b /\
  hex.ParseHex (hex.HexStr b) = b.
Proof.
  intros Hb Hw Hsp Hr Hx. split; [|by apply blob_facts.ParseHex_HexStr, Hb].
  apply blob_facts.SetHex_digits with rest; [done..|].
  rewrite blob_facts.skip_spaces_app by done. destruct prefix.
  - by destruct Hx as [->| ->].
  - cbn [app]. apply blob_facts.skip_HexStr; [by apply Forall_reverse, Hb|].
    intros H%(f_equal length). rewrite length_reverse, (proj1 Hb) in H. cbn in H. lia.
Qed.

Lemma hex_roundtrip_witness :
  base_blob.wf 2 [0xab; 0x0c] /\ base_blob.GetHex [0xab; 0x0c] = [48; 99; 97; 98] /\
  base_blob.SetHex 2 ([32; 10] ++ [48; 88] ++ [48; 99; 97; 98] ++ [103]) = [0xab; 0x0c].
Proof.
  assert (base_blob.wf 2 [0xab; 0x0c]) as Hb by (split; [done|repeat constructor; unfold in_range; lia]).
  split; [exact Hb|]. split; [reflexivity|].
  apply (hex_roundtrip 2 [0xab; 0x0c] [32; 10] [103] true 88); auto; try lia; repeat constructor.
Defined.
