(* ===== verification/Blocks.v ===== *)
(** * Hashing a message block by block

    What the hash functions of [crypto/] share: the state after the full
    blocks of a message, what is left of the message, and how both change
    when the message is continued; and [memcpy] into a buffer. *)

From S2P Require Import Prelude.

Declare Scope words_scope.
Infix "⊕" := Z.lxor (at level 45, left associativity) : words_scope.
Notation "A ! i" := (nth i A 0) (at level 9, format "A ! i") : words_scope.

(** The low [w] bits: [wrap] as a mask, which evaluates much faster. *)
Definition low (w z : Z) : Z := Z.land z (Z.ones w).
Abbreviation low32 := (low 32).
Abbreviation low64 := (low 64).
Lemma low_wrap w z : 0 <= w -> low w z = wrap w z.
Proof. apply land_ones_wrap. Qed.

(** Rotation of a [w]-bit word. *)
Definition rotl (w x n : Z) : Z := Z.lor (low w (Z.shiftl x n)) (Z.shiftr x (w - n)).
Definition rotr (w x n : Z) : Z := Z.lor (Z.shiftr x n) (low w (Z.shiftl x (w - n))).

(** Equations between bitwise operations, bit by bit. *)
Ltac bitwise :=
  apply Z.bits_inj'; intros ? ?;
  rewrite ?Z.lxor_spec, ?Z.lor_spec, ?Z.land_spec, ?Z.lnot_spec by done;
  rewrite ?Z.lxor_spec, ?Z.lor_spec, ?Z.land_spec, ?Z.lnot_spec by done;
  repeat match goal with |- context [Z.testbit ?x ?n] => destruct (Z.testbit x n) end; reflexivity.

(** [memcpy(buf + pos, data, n)] for [data] of [n] bytes. *)
Definition memcpy (buf : bytes) (pos : nat) (data : bytes) : bytes :=
  take pos buf ++ data ++ drop (pos + length data) buf.

Section blocks.
Context {S : Type} (f : S -> bytes -> S) (n : nat).

(** [f] on the first [k] blocks of [n] bytes. *)
Fixpoint fold_blocks (k : nat) (s : S) (l : bytes) : S :=
  match k with
  | O => s
  | Datatypes.S k => fold_blocks k (f s (take n l)) (drop n l)
  end.

(** The state after all the full blocks, and the bytes behind them. *)
Definition full (l : bytes) : nat := (length l / n)%nat.
Definition absorbed (s : S) (l : bytes) : S := fold_blocks (full l) s l.
Definition remainder (l : bytes) : bytes := drop (n * full l) l.

(** A hasher that has been given [msg]: the state [s] of the full blocks, and
    the rest in the first [pos] bytes of the buffer. *)
Record buffered (s0 : S) (s : S) (buf : bytes) (pos : nat) (msg : bytes) : Prop := {
  buffered_state : s = absorbed s0 msg;
  buffered_size : (n <= length buf)%nat;
  buffered_rest : take pos buf = remainder msg;
  buffered_pos : pos = length (remainder msg);
}.
End blocks.

(** ** Message schedules

    A schedule in which each word is computed from the words before it: the
    whole list of words may be kept, or a window of the last sixteen. *)

Definition round_whole (next : nat -> list Z -> Z) (round : nat -> list Z -> Z -> list Z)
    (r : list Z * list Z) (t : nat) : list Z * list Z :=
  let w := next t (snd r) in (round t (fst r) w, snd r ++ [w]).
Definition round_window (slide : nat -> list Z -> Z) (round : nat -> list Z -> Z -> list Z)
    (t : nat) (r : list Z * list Z) : list Z * list Z :=
  let w := slide t (snd r) in (round t (fst r) w, drop 1 (snd r) ++ [w]).

(** ** Facts *)

Module blocks_facts.

Lemma length_memcpy buf pos data :
  (pos + length data <= length buf)%nat -> length (memcpy buf pos data) = length buf.
Proof. intros H. unfold memcpy. rewrite !length_app, length_take, length_drop. lia. Qed.

Lemma take_memcpy buf pos data :
  (pos + length data <= length buf)%nat -> take (pos + length data) (memcpy buf pos data) = take pos buf ++ data.
Proof.
  intros H. unfold memcpy. rewrite app_assoc. apply take_app_length'. rewrite length_app, length_take. lia.
Qed.

Section blocks.
Context {S : Type} (f : S -> bytes -> S) (n : nat) (Hn : (0 < n)%nat).
Implicit Types (s : S) (l : bytes).

Lemma fold_blocks_take k s l l' : (k * n <= length l)%nat -> fold_blocks f n k s (l ++ l') = fold_blocks f n k s l.
Proof.
  revert s l. induction k as [|k IH]; intros s l H; [done|]. cbn [fold_blocks]. cbn in H.
  rewrite take_app_le, drop_app_le by lia. apply IH. rewrite length_drop. lia.
Qed.

Lemma fold_blocks_add k k' s l :
  fold_blocks f n (k + k') s l = fold_blocks f n k' (fold_blocks f n k s l) (drop (k * n) l).
Proof.
  revert s l. induction k as [|k IH]; intros s l; cbn [fold_blocks Nat.add Nat.mul]; [by rewrite drop_0|].
  rewrite IH. by rewrite drop_drop.
Qed.

Lemma full_bound l : (n * full n l <= length l < n * full n l + n)%nat.
Proof.
  unfold full. pose proof (Nat.div_mod_eq (length l) n). pose proof (Nat.mod_upper_bound (length l) n ltac:(lia)). lia.
Qed.

Lemma length_remainder l : length (remainder n l) = (length l mod n)%nat.
Proof.
  unfold remainder, full. rewrite length_drop. pose proof (Nat.div_mod_eq (length l) n). lia.
Qed.

Lemma remainder_short l : (length (remainder n l) < n)%nat.
Proof. rewrite length_remainder. apply Nat.mod_upper_bound. lia. Qed.

Lemma full_short l : (length l < n)%nat -> full n l = 0%nat.
Proof. intros H. by apply Nat.div_small. Qed.

Lemma absorbed_short s l : (length l < n)%nat -> absorbed f n s l = s /\ remainder n l = l.
Proof. intros H. unfold absorbed, remainder. rewrite full_short by done. rewrite Nat.mul_0_r. by rewrite drop_0. Qed.

(** Continuing a message: only what is left of it matters. *)
Lemma full_app l l' : full n (l ++ l') = (full n l + full n (remainder n l ++ l'))%nat.
Proof.
  pose proof (full_bound l) as Hb. unfold full at 1 3. rewrite !length_app, length_remainder.
  replace (length l + length l')%nat with ((length l mod n + length l') + full n l * n)%nat.
  - rewrite Nat.div_add by lia. lia.
  - unfold full. pose proof (Nat.div_mod_eq (length l) n). lia.
Qed.

Lemma drop_full l l' : drop (full n l * n) (l ++ l') = remainder n l ++ l'.
Proof. pose proof (full_bound l). rewrite drop_app_le by lia. unfold remainder. by rewrite Nat.mul_comm. Qed.

Lemma absorbed_app s l l' : absorbed f n s (l ++ l') = absorbed f n (absorbed f n s l) (remainder n l ++ l').
Proof.
  unfold absorbed at 1. rewrite full_app, fold_blocks_add, drop_full.
  rewrite (fold_blocks_take (full n l) s l) by (pose proof (full_bound l); lia). done.
Qed.

Lemma remainder_app l l' : remainder n (l ++ l') = remainder n (remainder n l ++ l').
Proof.
  unfold remainder at 1. rewrite full_app. replace (n * (full n l + full n (remainder n l ++ l')))%nat
    with (full n l * n + n * full n (remainder n l ++ l'))%nat by lia.
  rewrite <- drop_drop, drop_full. done.
Qed.

(** A first block. *)
Lemma absorbed_block s b l : length b = n -> absorbed f n s (b ++ l) = absorbed f n (f s b) l.
Proof.
  intros Hb. assert (full n b = 1%nat) as Hf by (unfold full; rewrite Hb; apply Nat.div_same; lia).
  rewrite absorbed_app. unfold absorbed at 2, remainder. rewrite Hf, Nat.mul_1_r. cbn [fold_blocks].
  rewrite take_ge, drop_ge by lia. done.
Qed.

Lemma remainder_block b l : length b = n -> remainder n (b ++ l) = remainder n l.
Proof.
  intros Hb. assert (full n b = 1%nat) as Hf by (unfold full; rewrite Hb; apply Nat.div_same; lia).
  rewrite remainder_app. unfold remainder at 2. rewrite Hf, Nat.mul_1_r, drop_ge by lia. done.
Qed.

(** Two functions that agree on the states that occur. *)
Lemma fold_blocks_ext (g : S -> bytes -> S) (I : S -> Prop) k s l :
  (forall s b, I s -> f s (take n b) = g s (take n b) /\ I (g s (take n b))) -> I s ->
  fold_blocks f n k s l = fold_blocks g n k s l.
Proof.
  intros Hfg. revert s l. induction k as [|k IH]; intros s l Hs; [done|]. cbn [fold_blocks].
  destruct (Hfg s l Hs) as [-> Hi]. by apply IH.
Qed.

Lemma fold_blocks_invariant (I : S -> Prop) k s l :
  (forall s b, I s -> I (f s b)) -> I s -> I (fold_blocks f n k s l).
Proof. intros Hf. revert s l. induction k as [|k IH]; intros s l Hs; [done|]. cbn [fold_blocks]. auto. Qed.

(** *** Buffers *)

Context (s0 : S).
Abbreviation buffered := (buffered f n s0).

Lemma buffered_new buf : (n <= length buf)%nat -> buffered s0 buf 0 [].
Proof.
  intros Hb. destruct (absorbed_short s0 [] ltac:(cbn; lia)) as [Ha Hr]. split; [done|done|by rewrite Hr|by rewrite Hr].
Qed.

Lemma buffered_short s buf pos msg : buffered s buf pos msg -> (pos < n)%nat.
Proof. intros [_ _ _ ->]. apply remainder_short. Qed.

(** Completing a block in the buffer. *)
Lemma buffered_fill s buf pos msg d :
  buffered s buf pos msg -> (n <= pos + length d)%nat ->
  let buf' := memcpy buf pos (take (n - pos) d) in
  buffered (f s (take n buf')) buf' 0 (msg ++ take (n - pos) d).
Proof.
  intros Hh Hle buf'. pose proof (buffered_short _ _ _ _ Hh) as Hs. destruct Hh as [HA Hm Hr Hp].
  assert (length (take (n - pos) d) = n - pos)%nat as Hk by (rewrite length_take; lia).
  assert (length (remainder n msg ++ take (n - pos) d) = n) as Hl by (rewrite length_app, <- Hp, Hk; lia).
  assert (remainder n (msg ++ take (n - pos) d) = []) as Hrem.
  { rewrite remainder_app, <- (app_nil_r (remainder n msg ++ _)), remainder_block by done.
    by apply absorbed_short. }
  split; [|unfold buf'; rewrite length_memcpy; lia|by rewrite take_0, Hrem|by rewrite Hrem].
  replace n with (pos + length (take (n - pos) d))%nat at 1 by lia.
  unfold buf'. rewrite take_memcpy by lia. rewrite Hr, HA, absorbed_app.
  rewrite <- (app_nil_r (remainder n msg ++ take (n - pos) d)) at 2. rewrite absorbed_block by done.
  symmetry. by apply absorbed_short.
Qed.

(** Taking full blocks from the data, with an empty buffer. *)
Lemma buffered_bulk s buf msg d :
  buffered s buf 0 msg ->
  buffered (fold_blocks f n (full n d) s d) buf 0 (msg ++ take (full n d * n) d).
Proof.
  intros [HA Hm Hr Hp]. assert (remainder n msg = []) as Hnil by (by apply nil_length_inv).
  pose proof (full_bound d) as Hb. remember (full n d) as k eqn:Hkd.
  assert (length (take (k * n) d) = k * n)%nat as Hk by (rewrite length_take; lia).
  assert (full n (take (k * n) d) = k) as Hf by (unfold full; rewrite Hk; apply Nat.div_mul; lia).
  assert (remainder n (msg ++ take (k * n) d) = []) as Hrem.
  { rewrite remainder_app, Hnil. cbn [app]. unfold remainder. rewrite Hf, drop_ge by lia. done. }
  split; [|done|by rewrite Hrem|by rewrite Hrem].
  rewrite HA, absorbed_app, Hnil. cbn [app]. unfold absorbed at 2. rewrite Hf.
  rewrite <- (take_drop (k * n) d) at 1. apply fold_blocks_take. by rewrite Hk.
Qed.

(** Keeping less than a block. *)
Lemma buffered_keep s buf pos msg d :
  buffered s buf pos msg -> (pos + length d < n)%nat ->
  buffered s (memcpy buf pos d) (pos + length d) (msg ++ d).
Proof.
  intros [HA Hm Hr Hp] Hl.
  assert (length (remainder n msg ++ d) < n)%nat as Hs by (rewrite length_app; lia).
  destruct (absorbed_short (absorbed f n s0 msg) _ Hs) as [Ha Hrem].
  split; [by rewrite absorbed_app, Ha|rewrite length_memcpy; lia| |].
  - rewrite take_memcpy by lia. rewrite remainder_app, Hrem. by rewrite Hr.
  - rewrite remainder_app, Hrem, length_app. lia.
Qed.
End blocks.

(** ** Rounds written out

    [steps] proves, row by row, that the rows of a table do what the steps of
    a reference do, through a view of the reference state. *)

Section simulation.
Context {St R : Type} (view : nat -> R -> St) (step : nat -> R -> R) (I : R -> Prop).
Context (HI : forall i r, I r -> I (step i r)).

Fixpoint steps (i : nat) (rows : list (St -> St)) : Prop :=
  match rows with
  | [] => True
  | row :: rows => (forall r, I r -> row (view i r) = view (Datatypes.S i) (step i r)) /\ steps (Datatypes.S i) rows
  end.

Lemma simulation rows i r :
  steps i rows -> I r ->
  foldl (fun st row => row st) (view i r) rows
  = view (i + length rows) (foldl (fun r t => step t r) r (seq i (length rows))).
Proof.
  revert i r. induction rows as [|row rows IH]; intros i r Hsteps Hr; cbn [foldl length seq].
  { by rewrite Nat.add_0_r. }
  destruct Hsteps as [Hrow Hsteps]. rewrite Hrow by done. rewrite IH by auto. f_equal. lia.
Qed.

Lemma simulated_invariant l r : I r -> I (foldl (fun r t => step t r) r l).
Proof. revert r. induction l as [|t l IH]; intros r Hr; [done|]. cbn [foldl]. auto. Qed.
End simulation.

(** ** Message schedules *)

Section schedule.
Context (next : nat -> list Z -> Z) (slide : nat -> list Z -> Z) (round : nat -> list Z -> Z -> list Z).

Abbreviation round_whole := (round_whole next round).
Abbreviation round_window := (round_window slide round).

Context (Hslide : forall t l win, length l = t -> length win = 16%nat ->
  ((16 <= t)%nat -> win = drop (t - 16) l) -> slide t win = next t l).

Lemma window_whole n s l pre :
  length pre = 16%nat ->
  fst (foldl (fun r t => round_window t r) (s, drop (length l) (pre ++ l)) (seq (length l) n))
  = fst (foldl round_whole (s, l) (seq (length l) n)).
Proof.
  intros Hp. revert s l. induction n as [|n IH]; intros s l; [done|]. cbn [seq foldl].
  unfold Blocks.round_window at 2, Blocks.round_whole at 2. cbn [fst snd]. rewrite (Hslide _ l); [|done| |].
  - set (w := next _ _). replace (Datatypes.S (length l)) with (length (l ++ [w])) by (rewrite length_app; cbn; lia).
    rewrite <- IH. do 3 f_equal. rewrite (app_assoc pre), length_app, <- drop_drop.
    rewrite (drop_app_le (pre ++ l)) by (rewrite length_app; lia).
    rewrite (drop_app_le (drop _ _)) by (rewrite length_drop, length_app; cbn; lia). done.
  - rewrite length_drop, length_app. lia.
  - intros H16. rewrite drop_app_ge by lia. f_equal. lia.
Qed.
End schedule.
End blocks_facts.
