(* ===== verification/Sha3.v ===== *)
(** * SHA3-256 ([crypto/sha3_256.h], [crypto/sha3_256.cpp])

    The hasher with its buffer, and the Keccak permutation with its rounds
    written out.  Sizes and positions are [nat]: they are bounded by the
    arrays.  The facts relate the rounds to the step mappings of FIPS 202 and
    the hasher to the hash of the whole message. *)

From S2P Require Import Prelude Uint256 Blocks.

Module sha3_256.
#[local] Open Scope words_scope.

Definition RC : list Z :=
  [0x0000000000000001; 0x0000000000008082; 0x800000000000808A; 0x8000000080008000;
   0x000000000000808B; 0x0000000080000001; 0x8000000080008081; 0x8000000000008009;
   0x000000000000008A; 0x0000000000000088; 0x0000000080008009; 0x000000008000000A;
   0x000000008000808B; 0x800000000000008B; 0x8000000000008089; 0x8000000000008003;
   0x8000000000008002; 0x8000000000000080; 0x000000000000800A; 0x800000008000000A;
   0x8000000080008081; 0x8000000000008080; 0x0000000080000001; 0x8000000080008008].

Definition rotate_left (x n : Z) : Z := Z.lor (low64 (Z.shiftl x n)) (Z.shiftr x (64 - n)).
(** [(~x) & y]. *)
Definition andn (x y : Z) : Z := Z.land (low64 (Z.lnot x)) y.

(** One round on the 25 words, with its constant. *)
Definition round (A : list Z) (rc : Z) : list Z :=
  let C0 := A!0 ⊕ A!5 ⊕ A!10 ⊕ A!15 ⊕ A!20 in
  let C1 := A!1 ⊕ A!6 ⊕ A!11 ⊕ A!16 ⊕ A!21 in
  let C2 := A!2 ⊕ A!7 ⊕ A!12 ⊕ A!17 ⊕ A!22 in
  let C3 := A!3 ⊕ A!8 ⊕ A!13 ⊕ A!18 ⊕ A!23 in
  let C4 := A!4 ⊕ A!9 ⊕ A!14 ⊕ A!19 ⊕ A!24 in
  let D0 := C4 ⊕ rotate_left C1 1 in
  let D1 := C0 ⊕ rotate_left C2 1 in
  let D2 := C1 ⊕ rotate_left C3 1 in
  let D3 := C2 ⊕ rotate_left C4 1 in
  let D4 := C3 ⊕ rotate_left C0 1 in
  let B0 := A!0 ⊕ D0 in
  let B10 := rotate_left (A!1 ⊕ D1) 1 in
  let B20 := rotate_left (A!2 ⊕ D2) 62 in
  let B5 := rotate_left (A!3 ⊕ D3) 28 in
  let B15 := rotate_left (A!4 ⊕ D4) 27 in
  let B16 := rotate_left (A!5 ⊕ D0) 36 in
  let B1 := rotate_left (A!6 ⊕ D1) 44 in
  let B11 := rotate_left (A!7 ⊕ D2) 6 in
  let B21 := rotate_left (A!8 ⊕ D3) 55 in
  let B6 := rotate_left (A!9 ⊕ D4) 20 in
  let B7 := rotate_left (A!10 ⊕ D0) 3 in
  let B17 := rotate_left (A!11 ⊕ D1) 10 in
  let B2 := rotate_left (A!12 ⊕ D2) 43 in
  let B12 := rotate_left (A!13 ⊕ D3) 25 in
  let B22 := rotate_left (A!14 ⊕ D4) 39 in
  let B23 := rotate_left (A!15 ⊕ D0) 41 in
  let B8 := rotate_left (A!16 ⊕ D1) 45 in
  let B18 := rotate_left (A!17 ⊕ D2) 15 in
  let B3 := rotate_left (A!18 ⊕ D3) 21 in
  let B13 := rotate_left (A!19 ⊕ D4) 8 in
  let B14 := rotate_left (A!20 ⊕ D0) 18 in
  let B24 := rotate_left (A!21 ⊕ D1) 2 in
  let B9 := rotate_left (A!22 ⊕ D2) 61 in
  let B19 := rotate_left (A!23 ⊕ D3) 56 in
  let B4 := rotate_left (A!24 ⊕ D4) 14 in
  [(B0 ⊕ (andn B1 B2)) ⊕ rc; B1 ⊕ (andn B2 B3); B2 ⊕ (andn B3 B4); B3 ⊕ (andn B4 B0); B4 ⊕ (andn B0 B1);
   B5 ⊕ (andn B6 B7); B6 ⊕ (andn B7 B8); B7 ⊕ (andn B8 B9); B8 ⊕ (andn B9 B5); B9 ⊕ (andn B5 B6);
   B10 ⊕ (andn B11 B12); B11 ⊕ (andn B12 B13); B12 ⊕ (andn B13 B14); B13 ⊕ (andn B14 B10); B14 ⊕ (andn B10 B11);
   B15 ⊕ (andn B16 B17); B16 ⊕ (andn B17 B18); B17 ⊕ (andn B18 B19); B18 ⊕ (andn B19 B15); B19 ⊕ (andn B15 B16);
   B20 ⊕ (andn B21 B22); B21 ⊕ (andn B22 B23); B22 ⊕ (andn B23 B24); B23 ⊕ (andn B24 B20); B24 ⊕ (andn B20 B21)].

(** [transform(uint64_t* A)]. *)
Definition transform (A : list Z) : list Z := foldl round A RC.

(** The words of a block are added to the first words of the state. *)
Fixpoint add_block (r64 : nat) (A : list Z) (data : bytes) : list Z :=
  match r64, A with
  | S r64, a :: A => a ⊕ common.ReadLE64 data :: add_block r64 A (drop 8 data)
  | _, _ => A
  end.

(** [transform(data, num_blks, A, rate)]. *)
Definition RATE : nat := 1600 - 2 * 256.
Definition transform_block (A : list Z) (data : bytes) : list Z := transform (add_block (RATE / 64) A data).
Definition transform_blocks (data : bytes) (num_blks : nat) (A : list Z) : list Z :=
  fold_blocks transform_block (RATE / 8) num_blks A data.

Record CSHA3_256 := { sha3_A : list Z; sha3_m : bytes; sha3_pos : nat; sha3_total : Z }.
Definition OUTPUT_SIZE : nat := 32.

(** The constructor leaves [m] and [total] as they are. *)
Definition make_CSHA3_256 (m : bytes) (total : Z) : CSHA3_256 :=
  {| sha3_A := replicate 25 0; sha3_m := m; sha3_pos := 0; sha3_total := total |}.
Definition CSHA3_256_Reset (h : CSHA3_256) : CSHA3_256 :=
  {| sha3_A := replicate 25 0; sha3_m := replicate 144 0; sha3_pos := 0; sha3_total := sha3_total h |}.

(** The three parts of [absorb_bytes]: complete a block in the buffer, take
    full blocks from the data, keep the rest. *)
Definition fill (bs bschk : nat) (data : bytes) (h : CSHA3_256) : CSHA3_256 * bytes :=
  if negb (sha3_pos h =? 0)%nat && (bschk <=? sha3_pos h + length data)%nat then
    let m := memcpy (sha3_m h) (sha3_pos h) (take (bs - sha3_pos h) data) in
    ({| sha3_A := transform_blocks m 1 (sha3_A h); sha3_m := m; sha3_pos := 0;
        sha3_total := u64 (sha3_total h + Z.of_nat bs * 8) |},
     drop (bs - sha3_pos h) data)
  else (h, data).
Definition bulk (bs bschk : nat) (data : bytes) (h : CSHA3_256) : CSHA3_256 * bytes :=
  if (bschk <=? length data)%nat then
    let blocks := ((length data + bs - bschk) / bs)%nat in
    let bytes := (blocks * bs)%nat in
    ({| sha3_A := transform_blocks data blocks (sha3_A h); sha3_m := sha3_m h; sha3_pos := sha3_pos h;
        sha3_total := u64 (sha3_total h + Z.of_nat bytes * 8) |},
     drop bytes data)
  else (h, data).
Definition keep (data : bytes) (h : CSHA3_256) : CSHA3_256 :=
  {| sha3_A := sha3_A h; sha3_m := memcpy (sha3_m h) (sha3_pos h) data;
     sha3_pos := sha3_pos h + length data; sha3_total := sha3_total h |}.

Definition absorb_bytes (bs bschk : nat) (data : bytes) (h : CSHA3_256) : CSHA3_256 :=
  let '(h, data) := fill bs bschk data h in
  let '(h, data) := bulk bs bschk data h in
  keep data h.

Definition CSHA3_256_Write (h : CSHA3_256) (data : bytes) : CSHA3_256 :=
  absorb_bytes (RATE / 8) (RATE / 8) data h.

(** The digest, with the state it leaves. *)
Definition CSHA3_256_Finalize (h : CSHA3_256) : CSHA3_256 * bytes :=
  let r := (RATE / 8)%nat in
  let m := memcpy (sha3_m h) (sha3_pos h) [0x06] in
  let pos := (sha3_pos h + 1)%nat in
  let m := if negb (r =? pos)%nat then memcpy m pos (replicate (r - pos) 0) else m in
  let m := <[(r - 1)%nat := Z.lor (nth (r - 1) m 0) 0x80]> m in
  let A := transform_blocks m 1 (sha3_A h) in
  ({| sha3_A := A; sha3_m := m; sha3_pos := pos; sha3_total := sha3_total h |},
   take OUTPUT_SIZE (concat (map common.WriteLE64 A))).
End sha3_256.

(** ** The standard

    FIPS 202 on the words of the state: the word [A[x, y]] is the element
    [5 * y + x] of the list. *)

Module fips202.
#[local] Open Scope words_scope.

Definition lane (A : list Z) (x y : nat) : Z := A!(5 * (y mod 5) + x mod 5).
Definition lanes (f : nat -> nat -> Z) : list Z := map (fun i => f (i mod 5)%nat (i / 5)%nat) (seq 0 25).

(** Rotation of a word: bit [i] comes from bit [i - n]. *)
Definition ROT (x n : Z) : Z := if n mod 64 =? 0 then x else sha3_256.rotate_left x (n mod 64).

Definition theta (A : list Z) : list Z :=
  let C x := lane A x 0 ⊕ lane A x 1 ⊕ lane A x 2 ⊕ lane A x 3 ⊕ lane A x 4 in
  let D x := C ((x + 4) mod 5)%nat ⊕ ROT (C ((x + 1) mod 5)%nat) 1 in
  lanes (fun x y => lane A x y ⊕ D x).

(** The offsets of rho, along the walk [(x, y) -> (y, 2 x + 3 y)]. *)
Fixpoint rho_walk (n : nat) (t : Z) (x y : nat) (l : list Z) : list Z :=
  match n with
  | O => l
  | S n => rho_walk n (t + 1) y ((2 * x + 3 * y) mod 5)%nat (<[(5 * y + x)%nat := (t + 1) * (t + 2) / 2]> l)
  end.
Definition rho (A : list Z) : list Z :=
  let offsets := rho_walk 24 0 1 0 (replicate 25 0) in
  lanes (fun x y => ROT (lane A x y) (lane offsets x y)).

Definition pi (A : list Z) : list Z := lanes (fun x y => lane A (x + 3 * y) x).
Definition chi (A : list Z) : list Z :=
  lanes (fun x y => lane A x y ⊕ Z.land (low64 (Z.lnot (lane A (x + 1) y))) (lane A (x + 2) y)).

(** The round constants, from the linear feedback shift register [rc]. *)
Definition lfsr_step (R : list bool) : list bool :=
  let R := false :: R in
  let r8 := nth 8 R false in
  take 8 (map (fun i => if bool_decide (i ∈ [0; 4; 5; 6])%nat then xorb (nth i R false) r8 else nth i R false) (seq 0 9)).
Definition rc (t : nat) : bool :=
  nth 0 (Nat.iter (t mod 255) lfsr_step [true; false; false; false; false; false; false; false]) false.
Definition round_constant (ir : nat) : Z :=
  foldl (fun v j => if rc (j + 7 * ir) then Z.setbit v (2 ^ Z.of_nat j - 1) else v) 0 (seq 0 7).
Definition iota (A : list Z) (ir : nat) : list Z := <[0%nat := lane A 0 0 ⊕ round_constant ir]> A.

Definition Rnd (A : list Z) (ir : nat) : list Z := iota (chi (pi (rho (theta A)))) ir.
Definition keccak_f (A : list Z) : list Z := foldl Rnd A (seq 0 24).

(** The sponge of rate 136 bytes: a block is added to the first 17 words. *)
Definition absorb (A : list Z) (block : bytes) : list Z :=
  keccak_f (imap (fun i a => if (i <? 17)%nat then a ⊕ le_val 8 (take 8 (drop (8 * i) block)) else a) A).

(** The suffix 01 of SHA-3 and the padding 10*1, on bytes. *)
Definition pad (n : nat) : bytes :=
  let q := (136 - n mod 136)%nat in
  if (q =? 1)%nat then [0x86] else 0x06 :: replicate (q - 2) 0 ++ [0x80].

Definition SHA3_256 (msg : bytes) : bytes :=
  take 32 (concat (map (le_digits 8 8) (absorbed absorb 136 (replicate 25 0) (msg ++ pad (length msg))))).
End fips202.

(** ** Facts *)

Module sha3_facts.
Import sha3_256 fips202 blocks_facts.

Lemma list_25 {A} (l : list A) : length l = 25%nat ->
  exists a0 a1 a2 a3 a4 a5 a6 a7 a8 a9 a10 a11 a12 a13 a14 a15 a16 a17 a18 a19 a20 a21 a22 a23 a24,
    l = [a0; a1; a2; a3; a4; a5; a6; a7; a8; a9; a10; a11; a12; a13; a14; a15; a16; a17; a18; a19; a20; a21; a22; a23; a24].
Proof.
  intros H. do 25 (destruct l as [|? l]; [discriminate|]). destruct l; [|discriminate]. by repeat eexists.
Qed.

Lemma RC_spec : RC = map round_constant (seq 0 24).
Proof. vm_compute. reflexivity. Qed.

(** The round written out is the composition of the step mappings. *)
Lemma round_spec A ir : length A = 25%nat -> round A (round_constant ir) = Rnd A ir.
Proof.
  intros HA. apply list_25 in HA.
  destruct HA as (a0 & a1 & a2 & a3 & a4 & a5 & a6 & a7 & a8 & a9 & a10 & a11 & a12 & a13 & a14 & a15 & a16 & a17 & a18
    & a19 & a20 & a21 & a22 & a23 & a24 & ->).
  unfold Rnd, iota. generalize (round_constant ir) as k. intros k.
  cbv -[Z.lxor rotate_left Z.land Z.lnot low]. reflexivity.
Qed.

Lemma length_round A rc : length (round A rc) = 25%nat.
Proof. reflexivity. Qed.

Lemma transform_spec A : length A = 25%nat -> transform A = keccak_f A.
Proof.
  unfold transform, keccak_f. rewrite RC_spec. generalize (seq 0 24) as l. intros l. revert A.
  induction l as [|ir l IH]; intros A HA; [done|]. cbn [map foldl]. rewrite round_spec by done. apply IH.
  rewrite <- round_spec by done. apply length_round.
Qed.

Lemma length_keccak_f A : length A = 25%nat -> length (keccak_f A) = 25%nat.
Proof.
  intros HA. rewrite <- transform_spec by done. unfold transform.
  assert (forall l A, length A = 25%nat -> length (foldl round A l) = 25%nat) as H; [|by apply H].
  intros l. induction l as [|rc l IH]; intros B HB; [done|]. cbn [foldl]. apply IH, length_round.
Qed.

Lemma add_block_spec A b : length A = 25%nat ->
  add_block 17 A b = imap (fun i a => if (i <? 17)%nat then Z.lxor a (le_val 8 (take 8 (drop (8 * i) b))) else a) A.
Proof.
  intros HA. apply list_25 in HA.
  destruct HA as (a0 & a1 & a2 & a3 & a4 & a5 & a6 & a7 & a8 & a9 & a10 & a11 & a12 & a13 & a14 & a15 & a16 & a17 & a18
    & a19 & a20 & a21 & a22 & a23 & a24 & ->).
  cbn [add_block imap compose Nat.ltb Nat.leb Nat.mul Nat.add]. unfold common.ReadLE64.
  rewrite !drop_drop. cbn [Nat.add]. rewrite drop_0. reflexivity.
Qed.

Lemma transform_block_spec A b : length A = 25%nat -> transform_block A b = absorb A b.
Proof.
  intros HA. unfold transform_block, absorb. change (RATE / 64)%nat with 17%nat.
  rewrite add_block_spec by done. apply transform_spec. by rewrite length_imap.
Qed.

Lemma length_absorb A b : length A = 25%nat -> length (absorb A b) = 25%nat.
Proof. intros HA. unfold absorb. apply length_keccak_f. by rewrite length_imap. Qed.

Lemma fold_blocks_spec k A l :
  length A = 25%nat -> fold_blocks transform_block 136 k A l = fold_blocks absorb 136 k A l.
Proof.
  apply (fold_blocks_ext transform_block 136 absorb (fun A => length A = 25%nat)).
  intros B b HB. split; [by apply transform_block_spec|by apply length_absorb].
Qed.

(** *** The hasher *)

(** A hasher that has been given a message. *)
Definition hashed (h : CSHA3_256) (msg : bytes) : Prop :=
  buffered transform_block 136 (replicate 25 0) (sha3_A h) (sha3_m h) (sha3_pos h) msg.

Lemma sha3_fill_ok h msg d h1 d1 :
  hashed h msg -> fill 136 136 d h = (h1, d1) ->
  exists msg1, hashed h1 msg1 /\ msg1 ++ d1 = msg ++ d /\ (sha3_pos h1 = 0 \/ sha3_pos h1 + length d1 < 136)%nat.
Proof.
  intros Hh. unfold fill.
  destruct (Nat.eqb_spec (sha3_pos h) 0) as [H0|H0]; cbn [negb andb].
  { intros [= <- <-]. exists msg. auto. }
  destruct (Nat.leb_spec 136 (sha3_pos h + length d)) as [Hle|Hlt]; intros [= <- <-].
  - exists (msg ++ take (136 - sha3_pos h) d). rewrite <- app_assoc, take_drop. split; [|auto].
    by apply buffered_fill; [lia| |].
  - exists msg. auto.
Qed.

Lemma sha3_bulk_ok h msg d h1 d1 :
  hashed h msg -> (sha3_pos h = 0 \/ sha3_pos h + length d < 136)%nat -> bulk 136 136 d h = (h1, d1) ->
  exists msg1, hashed h1 msg1 /\ msg1 ++ d1 = msg ++ d /\ (sha3_pos h1 + length d1 < 136)%nat.
Proof.
  intros Hh Hcase. pose proof (buffered_short _ 136 ltac:(lia) _ _ _ _ _ Hh) as Hs. unfold bulk.
  destruct (Nat.leb_spec 136 (length d)) as [Hle|Hlt].
  2:{ intros [= <- <-]. exists msg. split; [done|]. split; [done|]. destruct Hcase; lia. }
  destruct Hcase as [H0|]; [|lia].
  replace (length d + 136 - 136)%nat with (length d) by lia. fold (full 136 d).
  pose proof (full_bound 136 ltac:(lia) d) as Hb. pose proof (buffered_bulk transform_block 136 ltac:(lia) (replicate 25 0)
    (sha3_A h) (sha3_m h) msg d) as Hbulk. unfold hashed in Hh. rewrite H0 in Hh. specialize (Hbulk Hh).
  remember (full 136 d) as k eqn:Hkd. intros [= <- <-].
  exists (msg ++ take (k * 136) d). rewrite <- app_assoc, take_drop. split; [|split; [done|]].
  - unfold hashed. cbn [sha3_A sha3_m sha3_pos]. by rewrite H0.
  - cbn [sha3_pos]. rewrite length_drop. lia.
Qed.

Lemma sha3_Write_ok h msg d : hashed h msg -> hashed (CSHA3_256_Write h d) (msg ++ d).
Proof.
  intros Hh. unfold CSHA3_256_Write, absorb_bytes. change (RATE / 8)%nat with 136%nat.
  destruct (fill 136 136 d h) as [h1 d1] eqn:H1. apply (sha3_fill_ok h msg) in H1 as (msg1 & K1 & E1 & L1); [|done].
  destruct (bulk 136 136 d1 h1) as [h2 d2] eqn:H2. apply (sha3_bulk_ok h1 msg1) in H2 as (msg2 & K2 & E2 & L2); [|done..].
  rewrite <- E1, <- E2. by apply buffered_keep; [lia| |].
Qed.

(** The buffer that [Finalize] makes is the last block, padded. *)
Definition last_block (h : CSHA3_256) : bytes :=
  let m := memcpy (sha3_m h) (sha3_pos h) [0x06] in
  let pos := (sha3_pos h + 1)%nat in
  let m := if negb (136 =? pos)%nat then memcpy m pos (replicate (136 - pos) 0) else m in
  <[135%nat := Z.lor (nth 135 m 0) 0x80]> m.

Lemma take_update (m : bytes) (n : nat) (x : Z) l y :
  take (n + 1) m = l ++ [y] -> (length l = n)%nat -> take (n + 1) (<[n := x]> m) = l ++ [x] /\ nth n m 0 = y.
Proof.
  intros H Hl. rewrite <- (take_drop (n + 1) m), H, <- app_assoc. rewrite <- Hl.
  rewrite insert_app_r_alt by lia. rewrite Nat.sub_diag. cbn [app insert list_insert]. split.
  - rewrite cons_middle, app_assoc. apply take_app_length'. by rewrite length_app.
  - rewrite app_nth2, Nat.sub_diag by lia. done.
Qed.

Lemma last_block_ok h msg : hashed h msg -> take 136 (last_block h) = remainder 136 msg ++ pad (length msg).
Proof.
  intros Hh. pose proof (buffered_short _ 136 ltac:(lia) _ _ _ _ _ Hh) as Hs. destruct Hh as [HA Hm Hr Hp].
  assert (length (remainder 136 msg) = sha3_pos h) as Hlr by done.
  rewrite length_remainder in Hp by lia. unfold pad. rewrite <- Hp. unfold last_block.
  set (m1 := memcpy (sha3_m h) (sha3_pos h) [0x06]).
  assert (length m1 = length (sha3_m h)) as Hm1 by (unfold m1; rewrite length_memcpy; cbn; lia).
  assert (take (sha3_pos h + 1) m1 = remainder 136 msg ++ [0x06]) as Ht1.
  { unfold m1. change 1%nat with (length [0x06]). rewrite take_memcpy by (cbn; lia). by rewrite Hr. }
  cbn zeta. destruct (Nat.eqb_spec 136 (sha3_pos h + 1)) as [Heq|Hne]; cbn [negb].
  - rewrite (proj2 (Nat.eqb_eq _ _)) by lia. rewrite <- Heq in Ht1.
    destruct (take_update m1 135 (Z.lor (nth 135 m1 0) 0x80) _ _ Ht1 ltac:(lia)) as [E1 E2].
    change (135 + 1)%nat with 136%nat in E1. by rewrite E1, E2.
  - rewrite (proj2 (Nat.eqb_neq _ _)) by lia.
    set (z := replicate (136 - (sha3_pos h + 1)) 0). set (m2 := memcpy m1 (sha3_pos h + 1) z).
    assert (take (135 + 1) m2 = (remainder 136 msg ++ 0x06 :: replicate (136 - sha3_pos h - 2) 0) ++ [0]) as Ht2.
    { replace (135 + 1)%nat with (sha3_pos h + 1 + length z)%nat by (unfold z; rewrite length_replicate; lia).
      unfold m2. rewrite take_memcpy by (unfold z; rewrite length_replicate; lia). rewrite Ht1. unfold z.
      replace (136 - (sha3_pos h + 1))%nat with (136 - sha3_pos h - 2 + 1)%nat by lia.
      rewrite replicate_add, <- !app_assoc. done. }
    destruct (take_update m2 135 (Z.lor (nth 135 m2 0) 0x80) _ _ Ht2) as [E1 E2];
      [rewrite length_app; cbn [length]; rewrite length_replicate; lia|].
    change (135 + 1)%nat with 136%nat in E1. rewrite E1, E2, <- app_assoc. done.
Qed.

(** Words are written with their least significant byte first. *)
Lemma digest_spec A : concat (map common.WriteLE64 A) = concat (map (le_digits 8 8) A).
Proof. done. Qed.

Lemma length_absorbed k A l : length A = 25%nat -> length (fold_blocks absorb 136 k A l) = 25%nat.
Proof.
  revert A l. induction k as [|k IH]; intros A l HA; [done|]. cbn [fold_blocks]. apply IH. by apply length_absorb.
Qed.

Lemma full_padded msg : full 136 (remainder 136 msg ++ pad (length msg)) = 1%nat.
Proof.
  unfold full. replace (length (remainder 136 msg ++ pad (length msg))) with 136%nat; [done|].
  rewrite length_app, length_remainder by lia. unfold pad.
  pose proof (Nat.mod_upper_bound (length msg) 136 ltac:(lia)).
  destruct (Nat.eqb_spec (136 - length msg mod 136) 1) as [H1|H1]; cbn [length]; [lia|].
  rewrite length_app, length_replicate. cbn [length]. lia.
Qed.

Lemma sha3_Finalize_ok h msg : hashed h msg -> snd (CSHA3_256_Finalize h) = SHA3_256 msg.
Proof.
  intros Hh. pose proof (last_block_ok h msg Hh) as Hl.
  unfold CSHA3_256_Finalize, SHA3_256. cbn [snd]. f_equal. change (RATE / 8)%nat with 136%nat.
  rewrite digest_spec. f_equal. f_equal.
  unfold transform_blocks. change (RATE / 8)%nat with 136%nat. rewrite (buffered_state _ _ _ _ _ _ _ Hh).
  rewrite absorbed_app by lia. unfold absorbed at 2. rewrite full_padded. cbn [fold_blocks].
  change (136 - 1)%nat with 135%nat. fold (last_block h).
  rewrite Hl. rewrite (take_ge (remainder 136 msg ++ pad (length msg)) 136).
  2:{ pose proof (f_equal length Hl) as E. rewrite length_take in E. lia. }
  unfold absorbed. rewrite fold_blocks_spec by done. apply transform_block_spec. by apply length_absorbed.
Qed.

Lemma sha3_Writes_ok chunks h msg : hashed h msg -> hashed (foldl CSHA3_256_Write h chunks) (msg ++ concat chunks).
Proof.
  revert h msg. induction chunks as [|d chunks IH]; intros h msg Hh; cbn [foldl concat]; [by rewrite app_nil_r|].
  rewrite app_assoc. apply IH. by apply sha3_Write_ok.
Qed.
End sha3_facts.

(** *** The rotation *)

Lemma rotate_left_bits x n i :
  0 <= x < 2 ^ 64 -> 0 < n < 64 -> 0 <= i < 64 ->
  Z.testbit (sha3_256.rotate_left x n) i = Z.testbit x ((i - n) mod 64).
Proof.
  intros Hx Hn Hi. unfold sha3_256.rotate_left. rewrite Z.lor_spec, Z.shiftr_spec by lia.
  unfold low. rewrite Z.land_spec, Z.ones_spec_low, andb_true_r, Z.shiftl_spec by lia.
  destruct (Z.lt_ge_cases i n).
  - rewrite (Z.testbit_neg_r x (i - n)) by lia. cbn [orb]. f_equal.
    replace (i - n) with ((i + (64 - n)) + (-1) * 64) by lia. rewrite Z.mod_add, Z.mod_small; lia.
  - rewrite (Z.mod_small (i - n)) by lia. rewrite (Z.bits_above_log2 x (i + (64 - n))); [by rewrite orb_false_r|lia|].
    destruct (Z.eq_dec x 0) as [->|]; [cbn; lia|]. apply Z.log2_lt_pow2; [lia|].
    apply Z.lt_le_trans with (2 ^ 64); [lia|]. apply Z.pow_le_mono_r; lia.
Qed.

(** *** Examples *)

Definition hex (s : bytes) : Z := le_val 8 (rev s).

Example sha3_empty : hex (fips202.SHA3_256 []) = 0xa7ffc6f8bf1ed76651c14756a061d662f580ff4de43b49fa82d80a4b80f8434a.
Proof. vm_compute. reflexivity. Qed.

Example sha3_abc : hex (fips202.SHA3_256 [97; 98; 99]) = 0x3a985da74fe225b2045c172d6bd390bd855f086e3e9d525b46bfe24511431532.
Proof. vm_compute. reflexivity. Qed.

(** However the message is cut into writes, and whatever the buffer held; a
    hasher that was used before can be reset. *)
Lemma SHA3_256_correct :
  (forall (m : bytes) (total : Z) (chunks : list bytes),
     length m = 144%nat ->
     snd (sha3_256.CSHA3_256_Finalize (foldl sha3_256.CSHA3_256_Write (sha3_256.make_CSHA3_256 m total) chunks))
     = fips202.SHA3_256 (concat chunks)) /\
  (forall (h : sha3_256.CSHA3_256) (chunks : list bytes),
     snd (sha3_256.CSHA3_256_Finalize (foldl sha3_256.CSHA3_256_Write (sha3_256.CSHA3_256_Reset h) chunks))
     = fips202.SHA3_256 (concat chunks)) /\
  (forall x n i, 0 <= x < 2 ^ 64 -> 0 < n < 64 -> 0 <= i < 64 ->
     Z.testbit (sha3_256.rotate_left x n) i = Z.testbit x ((i - n) mod 64)).
Proof.
  split; [|split].
  - intros m total chunks Hm. apply sha3_facts.sha3_Finalize_ok.
    apply (sha3_facts.sha3_Writes_ok chunks _ []). apply blocks_facts.buffered_new; [lia|]. cbn. lia.
  - intros h chunks. apply sha3_facts.sha3_Finalize_ok.
    apply (sha3_facts.sha3_Writes_ok chunks _ []). apply blocks_facts.buffered_new; [lia|]. cbn. lia.
  - apply rotate_left_bits.
Qed.
