(* ===== verification/MdHash.v ===== *)
(** * The hashers of [crypto/sha1.cpp], [ripemd160.cpp], [sha256.cpp] and
    [sha512.cpp]

    The four classes share their [Write], [Finalize] and [Reset], up to the
    size of a block, the way the full blocks are taken and the bytes of the
    length.  They are given here once, over these, and related to the
    Merkle-Damgård construction on the whole message. *)

From S2P Require Import Prelude Uint256 Blocks.

(** The state words, the buffer and the count of bytes, a [uint64_t]. *)
Record hasher := { md_s : list Z; md_buf : bytes; md_bytes : Z }.

Section hasher.
Context (transform : list Z -> bytes -> list Z) (initial : list Z) (n : nat).
(** The full blocks of the data, with the state and the count after them. *)
Context (bulk : list Z -> bytes -> Z -> list Z * bytes * Z).
(** The length in bits, as it is written; and how many bytes that takes. *)
Context (write_size : Z -> bytes) (size_len : Z).

(** The constructor leaves the buffer as it is. *)
Definition make_hasher (buf : bytes) : hasher := {| md_s := initial; md_buf := buf; md_bytes := 0 |}.
Definition hasher_Reset (h : hasher) : hasher := {| md_s := initial; md_buf := md_buf h; md_bytes := 0 |}.

(** The loop [while (end >= data + n)]. *)
Fixpoint bulk_loop (fuel : nat) (s : list Z) (data : bytes) (count : Z) : list Z * bytes * Z :=
  match fuel with
  | O => (s, data, count)
  | Datatypes.S fuel =>
    if (n <=? length data)%nat then
      bulk_loop fuel (transform s (take n data)) (drop n data) (u64 (count + Z.of_nat n))
    else (s, data, count)
  end.

Definition hasher_Write (h : hasher) (data : bytes) : hasher :=
  let bufsize := Z.to_nat (md_bytes h mod Z.of_nat n) in
  let '(h, data, bufsize) :=
    if negb (bufsize =? 0)%nat && (n <=? bufsize + length data)%nat then
      let k := (n - bufsize)%nat in
      let buf := memcpy (md_buf h) bufsize (take k data) in
      ({| md_s := transform (md_s h) buf; md_buf := buf; md_bytes := u64 (md_bytes h + Z.of_nat k) |}, drop k data, 0%nat)
    else (h, data, bufsize) in
  let '(s, data, count) := bulk (md_s h) data (md_bytes h) in
  if (0 <? length data)%nat then
    {| md_s := s; md_buf := memcpy (md_buf h) bufsize data; md_bytes := u64 (count + Z.of_nat (length data)) |}
  else {| md_s := s; md_buf := md_buf h; md_bytes := count |}.

(** The hasher that [Finalize] leaves; the digest is read off its state. *)
Definition pad : bytes := 0x80 :: replicate (n - 1) 0.
Definition hasher_Finalize (h : hasher) : hasher :=
  let sizedesc := write_size (u64 (Z.shiftl (md_bytes h) 3)) in
  let N := Z.of_nat n in
  let h := hasher_Write h (take (Z.to_nat (1 + (2 * N - size_len - 1 - md_bytes h mod N) mod N)) pad) in
  hasher_Write h sizedesc.

(** *** The construction on a whole message *)

Definition md_pad (len : nat) : bytes :=
  0x80 :: replicate (Z.to_nat ((- size_len - 1 - Z.of_nat len) mod Z.of_nat n)) 0 ++ write_size (u64 (8 * Z.of_nat len)).
Definition merkle_damgard (msg : bytes) : list Z :=
  absorbed transform n initial (msg ++ md_pad (length msg)).
End hasher.

(** ** Facts *)

Module hasher_facts.
Import blocks_facts.

Section hasher.
Context (transform : list Z -> bytes -> list Z) (initial : list Z) (n : nat).
Context (bulk : list Z -> bytes -> Z -> list Z * bytes * Z) (write_size : Z -> bytes) (size_len : Z).
Context (Hn : (0 < n)%nat) (Hdiv : 2 ^ 64 mod Z.of_nat n = 0).
(** What the transformation of full blocks and the size are to be. *)
Context (Hbulk : forall s d c, in_range 64 c -> bulk s d c =
  (fold_blocks transform n (full n d) s d, drop (full n d * n) d, u64 (c + Z.of_nat (full n d * n)))).
Context (Hsize : forall z, Z.of_nat (length (write_size z)) = size_len) (Hsl : 0 < size_len < Z.of_nat n).

Abbreviation Write := (hasher_Write transform n bulk).
Abbreviation Finalize := (hasher_Finalize transform n bulk write_size size_len).

Definition hashed (h : hasher) (msg : bytes) : Prop :=
  buffered transform n initial (md_s h) (md_buf h) (length msg mod n) msg
  /\ length (md_buf h) = n /\ md_bytes h = u64 (Z.of_nat (length msg)).

Lemma md_make_hashed buf : length buf = n -> hashed (make_hasher initial buf) [].
Proof.
  intros Hb. split; [|split; [done|by rewrite wrap_small by (unfold in_range; cbn; lia)]].
  cbn [length]. rewrite Nat.Div0.mod_0_l. apply buffered_new; [done|]. cbn. lia.
Qed.

Lemma u64_mod z : u64 z mod Z.of_nat n = z mod Z.of_nat n.
Proof.
  unfold wrap. apply Z.mod_divide in Hdiv as [q Hq]; [|lia]. rewrite Hq, (Z.mul_comm q).
  destruct (Z.eq_dec q 0) as [->|]; [lia|]. rewrite Z.rem_mul_r by lia.
  rewrite (Z.mul_comm (Z.of_nat n)), Z.mod_add by lia. apply Z.mod_mod. lia.
Qed.

Lemma hashed_bufsize h msg : hashed h msg -> Z.to_nat (md_bytes h mod Z.of_nat n) = (length msg mod n)%nat.
Proof. intros (_ & _ & ->). rewrite u64_mod. rewrite <- Nat2Z.inj_mod. lia. Qed.

Lemma u64_len (msg d : bytes) : u64 (u64 (Z.of_nat (length msg)) + Z.of_nat (length d)) = u64 (Z.of_nat (length (msg ++ d))).
Proof. rewrite wrap_add_l, length_app. f_equal. lia. Qed.

(** After the buffer has been filled up, where it was. *)
Lemma md_fill_ok h msg d :
  hashed h msg ->
  let bufsize := (length msg mod n)%nat in
  (bufsize <> 0 -> n <= bufsize + length d)%nat ->
  let k := if (bufsize =? 0)%nat then 0%nat else (n - bufsize)%nat in
  hashed (if (bufsize =? 0)%nat then h else
    {| md_s := transform (md_s h) (memcpy (md_buf h) bufsize (take k d)); md_buf := memcpy (md_buf h) bufsize (take k d);
       md_bytes := u64 (md_bytes h + Z.of_nat k) |}) (msg ++ take k d)
  /\ (length (msg ++ take k d) mod n = 0)%nat.
Proof.
  intros (Hb & Hl & Hc) bufsize Hle. cbn zeta. fold bufsize in Hb.
  pose proof (Nat.mod_upper_bound (length msg) n ltac:(lia)) as Hlt. fold bufsize in Hlt.
  destruct (Nat.eqb_spec bufsize 0) as [H0|H0].
  { rewrite take_0, app_nil_r. split; [exact (conj Hb (conj Hl Hc))|done]. }
  assert (length (take (n - bufsize) d) = n - bufsize)%nat as Hk by (rewrite length_take; lia).
  assert (length (msg ++ take (n - bufsize) d) mod n = 0)%nat as Hm.
  { rewrite length_app, Hk. rewrite (Nat.div_mod_eq (length msg) n). fold bufsize.
    replace (n * (length msg / n) + bufsize + (n - bufsize))%nat with ((length msg / n + 1) * n)%nat by lia.
    apply Nat.Div0.mod_mul. }
  split; [|done]. split; [|split].
  - rewrite Hm. pose proof (buffered_fill transform n Hn initial _ _ _ _ d Hb (Hle H0)) as Hf. cbn zeta in Hf.
    rewrite (take_ge (memcpy _ _ _)) in Hf; [done|]. rewrite length_memcpy; lia.
  - cbn [md_buf]. rewrite length_memcpy; lia.
  - cbn [md_bytes]. rewrite Hc. rewrite <- Hk at 1. apply u64_len.
Qed.

Lemma md_keep_ok s buf msg d c :
  hashed {| md_s := s; md_buf := buf; md_bytes := c |} msg -> (length msg mod n + length d < n)%nat ->
  hashed {| md_s := s; md_buf := memcpy buf (length msg mod n) d; md_bytes := u64 (c + Z.of_nat (length d)) |} (msg ++ d).
Proof.
  intros (Hb & Hl & Hc) Hlt. cbn [md_s md_buf md_bytes] in *. split; [|split]; cbn [md_s md_buf md_bytes].
  - replace (length (msg ++ d) mod n)%nat with (length msg mod n + length d)%nat; [by apply buffered_keep|].
    rewrite length_app. rewrite Nat.Div0.add_mod. rewrite (Nat.mod_small (length d)) by lia.
    symmetry. apply Nat.mod_small. lia.
  - rewrite length_memcpy; lia.
  - rewrite Hc. apply u64_len.
Qed.

Lemma md_bulk_ok h msg d :
  hashed h msg -> (length msg mod n = 0 \/ length msg mod n + length d < n)%nat ->
  hashed {| md_s := fold_blocks transform n (full n d) (md_s h) d; md_buf := md_buf h;
            md_bytes := u64 (md_bytes h + Z.of_nat (full n d * n)) |} (msg ++ take (full n d * n) d)
  /\ (length (msg ++ take (full n d * n) d) mod n = length msg mod n)%nat
  /\ (length msg mod n + length (drop (full n d * n) d) < n)%nat.
Proof.
  intros (Hb & Hl & Hc) Hcase. pose proof (full_bound n Hn d) as Hfb.
  assert (length (take (full n d * n) d) = full n d * n)%nat as Hk by (rewrite length_take; lia).
  assert (length (msg ++ take (full n d * n) d) mod n = length msg mod n)%nat as Hm.
  { rewrite length_app, Hk. apply Nat.Div0.mod_add. }
  split; [|split; [done|rewrite length_drop; destruct Hcase; lia]].
  split; [|split; [done|]]; cbn [md_s md_buf md_bytes].
  - rewrite Hm. destruct Hcase as [H0|Hlt].
    + rewrite H0 in *. by apply buffered_bulk.
    + rewrite (full_short n) by lia. cbn [fold_blocks Nat.mul]. by rewrite take_0, app_nil_r.
  - rewrite Hc. rewrite <- Hk at 1. apply u64_len.
Qed.

(** What follows the filling of the buffer. *)
Lemma md_rest_ok h msg d :
  hashed h msg -> (length msg mod n = 0 \/ length msg mod n + length d < n)%nat ->
  hashed (let '(s, data, count) := bulk (md_s h) d (md_bytes h) in
    if (0 <? length data)%nat then
      {| md_s := s; md_buf := memcpy (md_buf h) (length msg mod n) data; md_bytes := u64 (count + Z.of_nat (length data)) |}
    else {| md_s := s; md_buf := md_buf h; md_bytes := count |}) (msg ++ d).
Proof.
  intros Hh Hcase. rewrite Hbulk by (destruct Hh as (_ & _ & ->); by apply wrap_range). destruct (md_bulk_ok h msg d Hh Hcase) as (Hb & Hm & Hlt).
  replace (msg ++ d) with ((msg ++ take (full n d * n) d) ++ drop (full n d * n) d) by (by rewrite <- app_assoc, take_drop).
  destruct (Nat.ltb_spec 0 (length (drop (full n d * n) d))) as [Hp|Hp].
  - rewrite <- Hm. apply md_keep_ok; [done|]. by rewrite Hm.
  - rewrite (nil_length_inv (drop _ _)) by lia. by rewrite app_nil_r.
Qed.

Lemma md_Write_ok h msg d : hashed h msg -> hashed (Write h d) (msg ++ d).
Proof.
  intros Hh. unfold hasher_Write. rewrite (hashed_bufsize h msg Hh).
  set (b := (length msg mod n)%nat). destruct (Nat.leb_spec n (b + length d)) as [Hle|Hlt].
  2:{ rewrite andb_false_r. apply md_rest_ok; [done|]. by right. }
  destruct (md_fill_ok h msg d Hh (fun _ => Hle)) as (Hf & Hm). fold b in Hf, Hm.
  destruct (Nat.eqb_spec b 0) as [H0|H0]; cbn [negb andb].
  { apply md_rest_ok; [done|]. by left. }
  replace (msg ++ d) with ((msg ++ take (n - b) d) ++ drop (n - b) d) by (by rewrite <- app_assoc, take_drop).
  pose proof (md_rest_ok _ _ (drop (n - b) d) Hf (or_introl Hm)) as Hr. rewrite Hm in Hr. exact Hr.
Qed.

Lemma md_Writes_ok chunks h msg : hashed h msg -> hashed (foldl Write h chunks) (msg ++ concat chunks).
Proof.
  revert h msg. induction chunks as [|d chunks IH]; intros h msg Hh; cbn [foldl concat]; [by rewrite app_nil_r|].
  rewrite app_assoc. apply IH. by apply md_Write_ok.
Qed.

(** The padding that [Finalize] writes. *)
Lemma pad_spec (len : nat) :
  take (Z.to_nat (1 + (2 * Z.of_nat n - size_len - 1 - u64 (Z.of_nat len) mod Z.of_nat n) mod Z.of_nat n)) (pad n)
  = 0x80 :: replicate (Z.to_nat ((- size_len - 1 - Z.of_nat len) mod Z.of_nat n)) 0.
Proof.
  rewrite u64_mod. replace ((2 * Z.of_nat n - size_len - 1 - Z.of_nat len mod Z.of_nat n) mod Z.of_nat n)
    with ((- size_len - 1 - Z.of_nat len) mod Z.of_nat n).
  2:{ rewrite Zminus_mod_idemp_r. replace (2 * Z.of_nat n - size_len - 1 - Z.of_nat len)
        with ((- size_len - 1 - Z.of_nat len) + 2 * Z.of_nat n) by lia. by rewrite Z.mod_add by lia. }
  pose proof (Z.mod_pos_bound (- size_len - 1 - Z.of_nat len) (Z.of_nat n) ltac:(lia)).
  set (z := (- size_len - 1 - Z.of_nat len) mod Z.of_nat n) in *.
  replace (Z.to_nat (1 + z)) with (1 + Z.to_nat z)%nat by lia. unfold pad. cbn [take Nat.add]. f_equal.
  rewrite take_replicate. f_equal. lia.
Qed.

(** The padded message is a whole number of blocks. *)
Lemma padded_full (msg : bytes) : remainder n (msg ++ md_pad n write_size size_len (length msg)) = [].
Proof.
  apply nil_length_inv. rewrite length_remainder by done. apply Nat2Z.inj. rewrite Nat2Z.inj_mod.
  unfold md_pad. rewrite length_app. cbn [length]. rewrite length_app, length_replicate.
  set (z := (- size_len - 1 - Z.of_nat (length msg)) mod Z.of_nat n).
  pose proof (Z.mod_pos_bound (- size_len - 1 - Z.of_nat (length msg)) (Z.of_nat n) ltac:(lia)) as Hz. fold z in Hz.
  rewrite Nat2Z.inj_add, Nat2Z.inj_succ, Nat2Z.inj_add, Hsize, Z2Nat.id by lia.
  replace (Z.of_nat (length msg) + Z.succ (z + size_len)) with (z - (- size_len - 1 - Z.of_nat (length msg))) by lia.
  unfold z. rewrite Zminus_mod_idemp_l, Z.sub_diag. by apply Z.mod_0_l; lia.
Qed.

Lemma md_Finalize_ok h msg :
  hashed h msg -> md_s (Finalize h) = merkle_damgard transform initial n write_size size_len msg.
Proof.
  intros Hh. unfold hasher_Finalize. pose proof Hh as (_ & _ & Hc). rewrite Hc, pad_spec.
  rewrite Z.shiftl_mul_pow2, wrap_mul_l by lia. replace (Z.of_nat (length msg) * 2 ^ 3) with (8 * Z.of_nat (length msg)) by lia.
  pose proof (md_Write_ok _ _ (write_size (u64 (8 * Z.of_nat (length msg)))) (md_Write_ok h msg
    (0x80 :: replicate (Z.to_nat ((- size_len - 1 - Z.of_nat (length msg)) mod Z.of_nat n)) 0) Hh)) as (Hb & _).
  rewrite (buffered_state _ _ _ _ _ _ _ Hb). unfold merkle_damgard, md_pad. by rewrite <- app_assoc.
Qed.

(** The hasher computes the construction, however the message is cut. *)
Lemma hasher_correct buf chunks :
  length buf = n ->
  md_s (Finalize (foldl Write (make_hasher initial buf) chunks))
  = merkle_damgard transform initial n write_size size_len (concat chunks).
Proof. intros Hb. apply md_Finalize_ok. by apply (md_Writes_ok chunks _ []), md_make_hashed. Qed.
End hasher.

(** The loop of [Write] takes the full blocks. *)
Lemma bulk_loop_spec transform n fuel s d c :
  (0 < n)%nat -> (length d <= fuel)%nat -> in_range 64 c ->
  bulk_loop transform n fuel s d c
  = (fold_blocks transform n (full n d) s d, drop (full n d * n) d, u64 (c + Z.of_nat (full n d * n))).
Proof.
  intros Hn Hl Hc. assert ((length d < n)%nat -> (s, d, c)
    = (fold_blocks transform n (full n d) s d, drop (full n d * n) d, u64 (c + Z.of_nat (full n d * n)))) as Hsmall.
  { intros Hlt. rewrite (full_short n d) by done. cbn [fold_blocks Nat.mul].
    rewrite drop_0, Z.add_0_r. by rewrite wrap_small. }
  revert s d c Hl Hc Hsmall. induction fuel as [|fuel IH]; intros s d c Hl Hc Hsmall; cbn [bulk_loop].
  { apply Hsmall. lia. }
  destruct (Nat.leb_spec n (length d)) as [Hle|]; [|by apply Hsmall].
  assert (full n d = Datatypes.S (full n (drop n d))) as Hf.
  { unfold full. rewrite length_drop. replace (length d) with (length d - n + 1 * n)%nat at 1 by lia.
    rewrite Nat.div_add by lia. lia. }
  rewrite IH; [|rewrite length_drop; lia|by apply wrap_range|].
  - rewrite Hf. cbn [fold_blocks]. rewrite drop_drop, wrap_add_l. f_equal. f_equal. lia.
  - intros Hlt. rewrite (full_short n (drop n d)) by done. cbn [fold_blocks Nat.mul].
    rewrite drop_0, Z.add_0_r, wrap_idemp. done.
Qed.

Lemma merkle_damgard_ext f g (I : list Z -> Prop) s n ws sl msg :
  (forall s b, I s -> f s (take n b) = g s (take n b) /\ I (g s (take n b))) -> I s ->
  merkle_damgard f s n ws sl msg = merkle_damgard g s n ws sl msg.
Proof. intros Hfg Hs. unfold merkle_damgard, absorbed. by apply (fold_blocks_ext f n g I). Qed.
End hasher_facts.
