(* ===== verification/Sha1.v ===== *)
(** * SHA-1 ([crypto/sha1.h], [crypto/sha1.cpp]) *)

From S2P Require Import Prelude Uint256 Blocks MdHash.

Module sha1.
#[local] Open Scope words_scope.

Definition f1 (b c d : Z) : Z := d ⊕ Z.land b (c ⊕ d).
Definition f2 (b c d : Z) : Z := b ⊕ c ⊕ d.
Definition f3 (b c d : Z) : Z := Z.lor (Z.land b c) (Z.land d (Z.lor b c)).
Definition left (x : Z) : Z := Z.lor (low32 (Z.shiftl x 1)) (Z.shiftr x 31).

Definition Initialize : list Z := [0x67452301; 0xEFCDAB89; 0x98BADCFE; 0x10325476; 0xC3D2E1F0].

Definition k1 : Z := 0x5A827999.
Definition k2 : Z := 0x6ED9EBA1.
Definition k3 : Z := 0x8F1BBCDC.
Definition k4 : Z := 0xCA62C1D6.

(** The variables of [Transform] are positions: [a] to [e] of the first list,
    [w0] to [w15] of the second.  [Read i n] is [wi = ReadBE32(chunk + n)],
    [Set_left i j k l m] is [wi = left(wj ^ wk ^ wl ^ wm)] and [Left] the
    same without the assignment. *)
#[local] Abbreviation a := 0%nat (only parsing).
#[local] Abbreviation b := 1%nat (only parsing).
#[local] Abbreviation c := 2%nat (only parsing).
#[local] Abbreviation d := 3%nat (only parsing).
#[local] Abbreviation e := 4%nat (only parsing).

Inductive word :=
  | Read (i n : nat)
  | Set_left (i j k l m : nat)
  | Left (j k l m : nat).

Definition eval_word (chunk : bytes) (x : word) (W : list Z) : Z * list Z :=
  match x with
  | Read i n => let v := common.ReadBE32 (drop n chunk) in (v, <[i := v]> W)
  | Set_left i j k l m => let v := left (W!j ⊕ W!k ⊕ W!l ⊕ W!m) in (v, <[i := v]> W)
  | Left j k l m => (left (W!j ⊕ W!k ⊕ W!l ⊕ W!m), W)
  end.

(** One round on the variables that are named, with [f] of three of them. *)
Definition Round (a b c d e : nat) (f : (Z -> Z -> Z -> Z) * nat * nat * nat) (k : Z) (x : word)
    (chunk : bytes) (st : list Z * list Z) : list Z * list Z :=
  let '(R, W) := st in
  let '(w, W) := eval_word chunk x W in
  let '(f, x, y, z) := f in
  let v := f R!x R!y R!z in
  let R := <[e := low32 (R!e + (Z.lor (low32 (Z.shiftl R!a 5)) (Z.shiftr R!a 27) + v + k + w))]> R in
  let R := <[b := Z.lor (low32 (Z.shiftl R!b 30)) (Z.shiftr R!b 2)]> R in
  (R, W).

Definition rows : list (bytes -> list Z * list Z -> list Z * list Z) :=
  [Round a b c d e (f1, b, c, d) k1 (Read 0 0);
   Round e a b c d (f1, a, b, c) k1 (Read 1 4);
   Round d e a b c (f1, e, a, b) k1 (Read 2 8);
   Round c d e a b (f1, d, e, a) k1 (Read 3 12);
   Round b c d e a (f1, c, d, e) k1 (Read 4 16);
   Round a b c d e (f1, b, c, d) k1 (Read 5 20);
   Round e a b c d (f1, a, b, c) k1 (Read 6 24);
   Round d e a b c (f1, e, a, b) k1 (Read 7 28);
   Round c d e a b (f1, d, e, a) k1 (Read 8 32);
   Round b c d e a (f1, c, d, e) k1 (Read 9 36);
   Round a b c d e (f1, b, c, d) k1 (Read 10 40);
   Round e a b c d (f1, a, b, c) k1 (Read 11 44);
   Round d e a b c (f1, e, a, b) k1 (Read 12 48);
   Round c d e a b (f1, d, e, a) k1 (Read 13 52);
   Round b c d e a (f1, c, d, e) k1 (Read 14 56);
   Round a b c d e (f1, b, c, d) k1 (Read 15 60);
   Round e a b c d (f1, a, b, c) k1 (Set_left 0 0 13 8 2);
   Round d e a b c (f1, e, a, b) k1 (Set_left 1 1 14 9 3);
   Round c d e a b (f1, d, e, a) k1 (Set_left 2 2 15 10 4);
   Round b c d e a (f1, c, d, e) k1 (Set_left 3 3 0 11 5);
   Round a b c d e (f2, b, c, d) k2 (Set_left 4 4 1 12 6);
   Round e a b c d (f2, a, b, c) k2 (Set_left 5 5 2 13 7);
   Round d e a b c (f2, e, a, b) k2 (Set_left 6 6 3 14 8);
   Round c d e a b (f2, d, e, a) k2 (Set_left 7 7 4 15 9);
   Round b c d e a (f2, c, d, e) k2 (Set_left 8 8 5 0 10);
   Round a b c d e (f2, b, c, d) k2 (Set_left 9 9 6 1 11);
   Round e a b c d (f2, a, b, c) k2 (Set_left 10 10 7 2 12);
   Round d e a b c (f2, e, a, b) k2 (Set_left 11 11 8 3 13);
   Round c d e a b (f2, d, e, a) k2 (Set_left 12 12 9 4 14);
   Round b c d e a (f2, c, d, e) k2 (Set_left 13 13 10 5 15);
   Round a b c d e (f2, b, c, d) k2 (Set_left 14 14 11 6 0);
   Round e a b c d (f2, a, b, c) k2 (Set_left 15 15 12 7 1);
   Round d e a b c (f2, e, a, b) k2 (Set_left 0 0 13 8 2);
   Round c d e a b (f2, d, e, a) k2 (Set_left 1 1 14 9 3);
   Round b c d e a (f2, c, d, e) k2 (Set_left 2 2 15 10 4);
   Round a b c d e (f2, b, c, d) k2 (Set_left 3 3 0 11 5);
   Round e a b c d (f2, a, b, c) k2 (Set_left 4 4 1 12 6);
   Round d e a b c (f2, e, a, b) k2 (Set_left 5 5 2 13 7);
   Round c d e a b (f2, d, e, a) k2 (Set_left 6 6 3 14 8);
   Round b c d e a (f2, c, d, e) k2 (Set_left 7 7 4 15 9);
   Round a b c d e (f3, b, c, d) k3 (Set_left 8 8 5 0 10);
   Round e a b c d (f3, a, b, c) k3 (Set_left 9 9 6 1 11);
   Round d e a b c (f3, e, a, b) k3 (Set_left 10 10 7 2 12);
   Round c d e a b (f3, d, e, a) k3 (Set_left 11 11 8 3 13);
   Round b c d e a (f3, c, d, e) k3 (Set_left 12 12 9 4 14);
   Round a b c d e (f3, b, c, d) k3 (Set_left 13 13 10 5 15);
   Round e a b c d (f3, a, b, c) k3 (Set_left 14 14 11 6 0);
   Round d e a b c (f3, e, a, b) k3 (Set_left 15 15 12 7 1);
   Round c d e a b (f3, d, e, a) k3 (Set_left 0 0 13 8 2);
   Round b c d e a (f3, c, d, e) k3 (Set_left 1 1 14 9 3);
   Round a b c d e (f3, b, c, d) k3 (Set_left 2 2 15 10 4);
   Round e a b c d (f3, a, b, c) k3 (Set_left 3 3 0 11 5);
   Round d e a b c (f3, e, a, b) k3 (Set_left 4 4 1 12 6);
   Round c d e a b (f3, d, e, a) k3 (Set_left 5 5 2 13 7);
   Round b c d e a (f3, c, d, e) k3 (Set_left 6 6 3 14 8);
   Round a b c d e (f3, b, c, d) k3 (Set_left 7 7 4 15 9);
   Round e a b c d (f3, a, b, c) k3 (Set_left 8 8 5 0 10);
   Round d e a b c (f3, e, a, b) k3 (Set_left 9 9 6 1 11);
   Round c d e a b (f3, d, e, a) k3 (Set_left 10 10 7 2 12);
   Round b c d e a (f3, c, d, e) k3 (Set_left 11 11 8 3 13);
   Round a b c d e (f2, b, c, d) k4 (Set_left 12 12 9 4 14);
   Round e a b c d (f2, a, b, c) k4 (Set_left 13 13 10 5 15);
   Round d e a b c (f2, e, a, b) k4 (Set_left 14 14 11 6 0);
   Round c d e a b (f2, d, e, a) k4 (Set_left 15 15 12 7 1);
   Round b c d e a (f2, c, d, e) k4 (Set_left 0 0 13 8 2);
   Round a b c d e (f2, b, c, d) k4 (Set_left 1 1 14 9 3);
   Round e a b c d (f2, a, b, c) k4 (Set_left 2 2 15 10 4);
   Round d e a b c (f2, e, a, b) k4 (Set_left 3 3 0 11 5);
   Round c d e a b (f2, d, e, a) k4 (Set_left 4 4 1 12 6);
   Round b c d e a (f2, c, d, e) k4 (Set_left 5 5 2 13 7);
   Round a b c d e (f2, b, c, d) k4 (Set_left 6 6 3 14 8);
   Round e a b c d (f2, a, b, c) k4 (Set_left 7 7 4 15 9);
   Round d e a b c (f2, e, a, b) k4 (Set_left 8 8 5 0 10);
   Round c d e a b (f2, d, e, a) k4 (Set_left 9 9 6 1 11);
   Round b c d e a (f2, c, d, e) k4 (Set_left 10 10 7 2 12);
   Round a b c d e (f2, b, c, d) k4 (Set_left 11 11 8 3 13);
   Round e a b c d (f2, a, b, c) k4 (Set_left 12 12 9 4 14);
   Round d e a b c (f2, e, a, b) k4 (Left 13 10 5 15);
   Round c d e a b (f2, d, e, a) k4 (Left 14 11 6 0);
   Round b c d e a (f2, c, d, e) k4 (Left 15 12 7 1)].

(** The words [w0] to [w15] start with any values: none is read before it is
    set. *)
Definition Transform_from (W : list Z) (s : list Z) (chunk : bytes) : list Z :=
  let '(R, _) := foldl (fun st row => row st) (s, W) (map (fun row => row chunk) rows) in
  zip_with (fun x y => low32 (x + y)) s R.
Definition Transform : list Z -> bytes -> list Z := Transform_from (replicate 16 0).
End sha1.


(** [CSHA1]: [buf] and the count are those of [hasher]. *)
Definition CSHA1_bulk (s : list Z) (data : bytes) (count : Z) : list Z * bytes * Z :=
  bulk_loop sha1.Transform 64 (length data) s data count.
Definition make_CSHA1 (buf : bytes) : hasher := make_hasher sha1.Initialize buf.
Definition CSHA1_Reset (h : hasher) : hasher := hasher_Reset sha1.Initialize h.
Definition CSHA1_Write (h : hasher) (data : bytes) : hasher := hasher_Write sha1.Transform 64 CSHA1_bulk h data.
Definition CSHA1_Finalize (h : hasher) : bytes :=
  concat (map common.WriteBE32 (md_s (hasher_Finalize sha1.Transform 64 CSHA1_bulk common.WriteBE64 8 h))).

(** ** The standard (FIPS 180) *)

Module fips180_1.
#[local] Open Scope words_scope.

Definition f (t : nat) (x y z : Z) : Z :=
  if (t <? 20)%nat then Z.land x y ⊕ Z.land (Z.lnot x) z
  else if (t <? 40)%nat then x ⊕ y ⊕ z
  else if (t <? 60)%nat then Z.land x y ⊕ Z.land x z ⊕ Z.land y z
  else x ⊕ y ⊕ z.
Definition K (t : nat) : Z :=
  if (t <? 20)%nat then 0x5a827999 else if (t <? 40)%nat then 0x6ed9eba1
  else if (t <? 60)%nat then 0x8f1bbcdc else 0xca62c1d6.

(** The message schedule: the word [t] from the words before it. *)
Definition W (M : bytes) (t : nat) (w : list Z) : Z :=
  if (t <? 16)%nat then common.ReadBE32 (drop (4 * t) M)
  else rotl 32 (w!(t - 3) ⊕ w!(t - 8) ⊕ w!(t - 14) ⊕ w!(t - 16)) 1.

Definition round (t : nat) (s : list Z) (w : Z) : list Z :=
  match s with
  | [a; b; c; d; e] => [low32 (rotl 32 a 5 + f t b c d + e + K t + w); a; rotl 32 b 30; c; d]
  | _ => s
  end.

Definition compress (H : list Z) (M : bytes) : list Z :=
  zip_with (fun x y => low32 (x + y)) H (fst (foldl (round_whole (W M) round) (H, []) (seq 0 80))).
Definition H0 : list Z := [0x67452301; 0xefcdab89; 0x98badcfe; 0x10325476; 0xc3d2e1f0].
Definition SHA1 (msg : bytes) : bytes :=
  concat (map common.WriteBE32 (merkle_damgard compress H0 64 common.WriteBE64 8 msg)).
End fips180_1.

(** ** Facts *)

Module sha1_facts.
Import sha1 blocks_facts.
#[local] Open Scope words_scope.

Lemma f1_spec b c d : f1 b c d = Z.land b c ⊕ Z.land (Z.lnot b) d.
Proof. unfold f1. bitwise. Qed.

Lemma f3_spec b c d : f3 b c d = Z.land b c ⊕ Z.land b d ⊕ Z.land c d.
Proof. unfold f3. bitwise. Qed.

(** The step of the code on the roles [a] to [e] and the last sixteen words. *)
Definition code_f (t : nat) : Z -> Z -> Z -> Z :=
  if (t <? 20)%nat then f1 else if (t <? 40)%nat then f2 else if (t <? 60)%nat then f3 else f2.
Definition code_slide (chunk : bytes) (t : nat) (w : list Z) : Z :=
  if (t <? 16)%nat then common.ReadBE32 (drop (4 * t) chunk) else left (w!0 ⊕ w!13 ⊕ w!8 ⊕ w!2).
Definition code_round (t : nat) (s : list Z) (w : Z) : list Z :=
  match s with
  | [a; b; c; d; e] => [low32 (e + (rotl 32 a 5 + code_f t b c d + fips180_1.K t + w)); a; rotl 32 b 30; c; d]
  | _ => s
  end.

(** Where the code keeps them at step [i]. *)
Definition view (i : nat) (r : list Z * list Z) : list Z * list Z :=
  (map (fun j => (fst r)!((j + i) mod 5)) (seq 0 5), map (fun j => (snd r)!((j + 15 * i) mod 16)) (seq 0 16)).

Definition sized (r : list Z * list Z) : Prop := length (fst r) = 5%nat /\ length (snd r) = 16%nat.

Lemma sha1_sized_spec r : sized r ->
  exists a b c d e w0 w1 w2 w3 w4 w5 w6 w7 w8 w9 w10 w11 w12 w13 w14 w15,
    r = ([a; b; c; d; e], [w0; w1; w2; w3; w4; w5; w6; w7; w8; w9; w10; w11; w12; w13; w14; w15]).
Proof.
  destruct r as [s w]. unfold sized. cbn [fst snd]. intros [Hs Hw].
  do 5 (destruct s as [|? s]; [discriminate|]). destruct s; [|discriminate].
  do 16 (destruct w as [|? w]; [discriminate|]). destruct w; [|discriminate]. by repeat eexists.
Qed.

Ltac by_view := intros r Hr; apply sha1_sized_spec in Hr as (? & ? & ? & ? & ? & ? & ? & ? & ? & ? & ? & ? & ? & ? & ? & ? & ? & ? & ? & ? & ? & ->);
  cbv -[Z.lxor Z.land Z.lor Z.lnot Z.shiftl Z.shiftr Z.add Z.mul low common.ReadBE32 drop]; reflexivity.

Lemma sha1_rows_77 chunk :
  steps view (round_window (code_slide chunk) code_round) sized 0 (map (fun row => row chunk) (take 77 rows)).
Proof. cbn [rows take map steps]. repeat (split; [by_view|]). exact I. Qed.

(** The last three rows, which do not store their word. *)
Lemma sha1_rows_last chunk r :
  sized r ->
  fst (foldl (fun st row => row st) (view 77 r) (map (fun row => row chunk) (drop 77 rows)))
  = fst (foldl (fun r t => round_window (code_slide chunk) code_round t r) r (seq 77 3)).
Proof. revert r. cbn [rows drop map foldl seq]. by_view. Qed.

Lemma sha1_round_sized slide t r : sized r -> sized (round_window slide code_round t r).
Proof.
  intros Hr. apply sha1_sized_spec in Hr as (? & ? & ? & ? & ? & ? & ? & ? & ? & ? & ? & ? & ? & ? & ? & ? & ? & ? & ? & ? & ? & ->).
  by split.
Qed.

Lemma sha1_view_0 r : sized r -> view 0 r = r.
Proof. revert r. intros r Hr. apply sha1_sized_spec in Hr as (? & ? & ? & ? & ? & ? & ? & ? & ? & ? & ? & ? & ? & ? & ? & ? & ? & ? & ? & ? & ? & ->). reflexivity. Qed.

Lemma sha1_rows_spec chunk s W :
  length s = 5%nat -> length W = 16%nat ->
  fst (foldl (fun st row => row st) (s, W) (map (fun row => row chunk) rows))
  = fst (foldl (fun r t => round_window (code_slide chunk) code_round t r) (s, W) (seq 0 80)).
Proof.
  intros Hs HW. assert (sized (s, W)) as Hr by done.
  rewrite <- (sha1_view_0 (s, W)) at 1 by done. rewrite <- (take_drop 77 rows), map_app, foldl_app.
  rewrite (simulation view _ sized (sha1_round_sized _) _ 0 (s, W) (sha1_rows_77 chunk) Hr).
  change (0 + length (map (fun row => row chunk) (take 77 rows)))%nat with 77%nat.
  change (length (map (fun row => row chunk) (take 77 rows))) with 77%nat.
  rewrite sha1_rows_last by (by apply (simulated_invariant _ sized (sha1_round_sized _))).
  rewrite <- foldl_app. done.
Qed.

(** The words and the steps are those of the standard. *)
Lemma sha1_code_f_spec t b c d : code_f t b c d = fips180_1.f t b c d.
Proof.
  unfold code_f, fips180_1.f. destruct (t <? 20)%nat; [apply f1_spec|]. destruct (t <? 40)%nat; [done|].
  destruct (t <? 60)%nat; [apply f3_spec|done].
Qed.

Lemma sha1_code_round_spec t s w : code_round t s w = fips180_1.round t s w.
Proof.
  unfold code_round, fips180_1.round. destruct s as [|a [|b [|c [|d [|e [|]]]]]]; try done.
  rewrite sha1_code_f_spec. do 2 f_equal. lia.
Qed.

Lemma sha1_code_slide_spec chunk t l win :
  length l = t -> length win = 16%nat -> ((16 <= t)%nat -> win = drop (t - 16) l) ->
  code_slide chunk t win = fips180_1.W chunk t l.
Proof.
  intros Hl Hw Hd. unfold code_slide, fips180_1.W. destruct (Nat.ltb_spec t 16) as [|Ht]; [done|].
  rewrite (Hd Ht), !nth_skipn. unfold left, rotl. change (32 - 1) with 31.
  replace (t - 16 + 13)%nat with (t - 3)%nat by lia. replace (t - 16 + 8)%nat with (t - 8)%nat by lia.
  replace (t - 16 + 2)%nat with (t - 14)%nat by lia. rewrite Nat.add_0_r.
  replace (l!(t - 16) ⊕ l!(t - 3) ⊕ l!(t - 8) ⊕ l!(t - 14)) with (l!(t - 3) ⊕ l!(t - 8) ⊕ l!(t - 14) ⊕ l!(t - 16)); [done|].
  bitwise.
Qed.

Lemma sha1_Transform_spec W s chunk :
  length W = 16%nat -> length s = 5%nat -> Transform_from W s chunk = fips180_1.compress s chunk.
Proof.
  intros HW Hs. unfold Transform_from, fips180_1.compress.
  destruct (foldl _ _ _) as [R W'] eqn:E. f_equal.
  change R with (fst (R, W')). rewrite <- E, sha1_rows_spec by done.
  rewrite <- (window_whole _ (code_slide chunk) _ (sha1_code_slide_spec chunk) 80 s [] W HW).
  cbn [length app]. rewrite app_nil_r, drop_0.
  generalize (seq 0 80) as l, (s, W) as r. induction l as [|t l IH]; intros r; [done|]. cbn [foldl].
  rewrite IH. do 2 f_equal. unfold round_window. by rewrite sha1_code_round_spec.
Qed.

Lemma sha1_compress_length s b : length s = 5%nat -> length (fips180_1.compress s b) = 5%nat.
Proof.
  intros Hs. unfold fips180_1.compress. rewrite length_zip_with, Hs.
  assert (forall l r, length (fst r) = 5%nat -> length (fst (foldl (round_whole (fips180_1.W b) fips180_1.round) r l)) = 5%nat) as H.
  { intros l. induction l as [|t l IH]; intros r Hr; [done|]. cbn [foldl]. apply IH. unfold round_whole. cbn [fst].
    destruct (fst r) as [|? [|? [|? [|? [|? [|]]]]]]; done. }
  rewrite H by done. done.
Qed.

Lemma sha1_bulk_spec s d c :
  in_range 64 c -> CSHA1_bulk s d c
  = (fold_blocks Transform 64 (full 64 d) s d, drop (full 64 d * 64) d, u64 (c + Z.of_nat (full 64 d * 64))).
Proof. intros Hc. by apply hasher_facts.bulk_loop_spec; [lia| |]. Qed.

(** However the message is cut, and whatever the buffer held. *)
Lemma SHA1_correct buf chunks :
  length buf = 64%nat ->
  CSHA1_Finalize (foldl CSHA1_Write (make_CSHA1 buf) chunks) = fips180_1.SHA1 (concat chunks).
Proof.
  intros Hb. unfold CSHA1_Finalize, fips180_1.SHA1. do 2 f_equal.
  rewrite <- (hasher_facts.merkle_damgard_ext Transform fips180_1.compress (fun s => length s = 5%nat)); [| |done].
  - apply (hasher_facts.hasher_correct Transform Initialize 64 CSHA1_bulk common.WriteBE64 8); [lia|done|apply sha1_bulk_spec|done].
  - intros s b Hs. split; [by apply sha1_Transform_spec|by apply sha1_compress_length].
Qed.
End sha1_facts.

(** *** Examples *)

Definition big_endian (s : bytes) : Z := le_val 8 (rev s).

Example sha1_empty : big_endian (fips180_1.SHA1 []) = 0xda39a3ee5e6b4b0d3255bfef95601890afd80709.
Proof. vm_compute. reflexivity. Qed.

Example sha1_abc : big_endian (CSHA1_Finalize (CSHA1_Write (make_CSHA1 (replicate 64 0)) [97; 98; 99]))
  = 0xa9993e364706816aba3e25717850c26c9cd0d89d.
Proof. vm_compute. reflexivity. Qed.
