(* ===== verification/Ripemd160.v ===== *)
(** * RIPEMD-160 ([crypto/ripemd160.h], [crypto/ripemd160.cpp]) *)

From S2P Require Import Prelude Uint256 Blocks MdHash.

Module ripemd160.
#[local] Open Scope words_scope.

Definition f1 (x y z : Z) : Z := x ⊕ y ⊕ z.
Definition f2 (x y z : Z) : Z := Z.lor (Z.land x y) (Z.land (low32 (Z.lnot x)) z).
Definition f3 (x y z : Z) : Z := Z.lor x (low32 (Z.lnot y)) ⊕ z.
Definition f4 (x y z : Z) : Z := Z.lor (Z.land x z) (Z.land y (low32 (Z.lnot z))).
Definition f5 (x y z : Z) : Z := x ⊕ Z.lor y (low32 (Z.lnot z)).

Definition Initialize : list Z := [0x67452301; 0xEFCDAB89; 0x98BADCFE; 0x10325476; 0xC3D2E1F0].

Definition rol (x i : Z) : Z := Z.lor (low32 (Z.shiftl x i)) (Z.shiftr x (32 - i)).

(** The variables of [Transform] are positions of a list: [a1] to [e1], then
    [a2] to [e2]; the words [w0] to [w15] are another. *)
#[local] Abbreviation a1 := 0%nat (only parsing).
#[local] Abbreviation b1 := 1%nat (only parsing).
#[local] Abbreviation c1 := 2%nat (only parsing).
#[local] Abbreviation d1 := 3%nat (only parsing).
#[local] Abbreviation e1 := 4%nat (only parsing).
#[local] Abbreviation a2 := 5%nat (only parsing).
#[local] Abbreviation b2 := 6%nat (only parsing).
#[local] Abbreviation c2 := 7%nat (only parsing).
#[local] Abbreviation d2 := 8%nat (only parsing).
#[local] Abbreviation e2 := 9%nat (only parsing).

Definition Round (a b c d e : nat) (f : Z) (x k r : Z) (R : list Z) : list Z :=
  let R := <[a := low32 (rol (low32 (R!a + f + x + k)) r + R!e)]> R in
  <[c := rol R!c 10]> R.

Definition with_f (f : Z -> Z -> Z -> Z) (k : Z) (a b c d e w : nat) (r : Z) (W R : list Z) : list Z :=
  Round a b c d e (f R!b R!c R!d) W!w k r R.

Definition R11 := with_f f1 0.
Definition R21 := with_f f2 0x5A827999.
Definition R31 := with_f f3 0x6ED9EBA1.
Definition R41 := with_f f4 0x8F1BBCDC.
Definition R51 := with_f f5 0xA953FD4E.

Definition R12 := with_f f5 0x50A28BE6.
Definition R22 := with_f f4 0x5C4DD124.
Definition R32 := with_f f3 0x6D703EF3.
Definition R42 := with_f f2 0x7A6D76E9.
Definition R52 := with_f f1 0.

Definition rows : list (list Z -> list Z -> list Z) :=
  [R11 a1 b1 c1 d1 e1 0 11;
   R12 a2 b2 c2 d2 e2 5 8;
   R11 e1 a1 b1 c1 d1 1 14;
   R12 e2 a2 b2 c2 d2 14 9;
   R11 d1 e1 a1 b1 c1 2 15;
   R12 d2 e2 a2 b2 c2 7 9;
   R11 c1 d1 e1 a1 b1 3 12;
   R12 c2 d2 e2 a2 b2 0 11;
   R11 b1 c1 d1 e1 a1 4 5;
   R12 b2 c2 d2 e2 a2 9 13;
   R11 a1 b1 c1 d1 e1 5 8;
   R12 a2 b2 c2 d2 e2 2 15;
   R11 e1 a1 b1 c1 d1 6 7;
   R12 e2 a2 b2 c2 d2 11 15;
   R11 d1 e1 a1 b1 c1 7 9;
   R12 d2 e2 a2 b2 c2 4 5;
   R11 c1 d1 e1 a1 b1 8 11;
   R12 c2 d2 e2 a2 b2 13 7;
   R11 b1 c1 d1 e1 a1 9 13;
   R12 b2 c2 d2 e2 a2 6 7;
   R11 a1 b1 c1 d1 e1 10 14;
   R12 a2 b2 c2 d2 e2 15 8;
   R11 e1 a1 b1 c1 d1 11 15;
   R12 e2 a2 b2 c2 d2 8 11;
   R11 d1 e1 a1 b1 c1 12 6;
   R12 d2 e2 a2 b2 c2 1 14;
   R11 c1 d1 e1 a1 b1 13 7;
   R12 c2 d2 e2 a2 b2 10 14;
   R11 b1 c1 d1 e1 a1 14 9;
   R12 b2 c2 d2 e2 a2 3 12;
   R11 a1 b1 c1 d1 e1 15 8;
   R12 a2 b2 c2 d2 e2 12 6;
   R21 e1 a1 b1 c1 d1 7 7;
   R22 e2 a2 b2 c2 d2 6 9;
   R21 d1 e1 a1 b1 c1 4 6;
   R22 d2 e2 a2 b2 c2 11 13;
   R21 c1 d1 e1 a1 b1 13 8;
   R22 c2 d2 e2 a2 b2 3 15;
   R21 b1 c1 d1 e1 a1 1 13;
   R22 b2 c2 d2 e2 a2 7 7;
   R21 a1 b1 c1 d1 e1 10 11;
   R22 a2 b2 c2 d2 e2 0 12;
   R21 e1 a1 b1 c1 d1 6 9;
   R22 e2 a2 b2 c2 d2 13 8;
   R21 d1 e1 a1 b1 c1 15 7;
   R22 d2 e2 a2 b2 c2 5 9;
   R21 c1 d1 e1 a1 b1 3 15;
   R22 c2 d2 e2 a2 b2 10 11;
   R21 b1 c1 d1 e1 a1 12 7;
   R22 b2 c2 d2 e2 a2 14 7;
   R21 a1 b1 c1 d1 e1 0 12;
   R22 a2 b2 c2 d2 e2 15 7;
   R21 e1 a1 b1 c1 d1 9 15;
   R22 e2 a2 b2 c2 d2 8 12;
   R21 d1 e1 a1 b1 c1 5 9;
   R22 d2 e2 a2 b2 c2 12 7;
   R21 c1 d1 e1 a1 b1 2 11;
   R22 c2 d2 e2 a2 b2 4 6;
   R21 b1 c1 d1 e1 a1 14 7;
   R22 b2 c2 d2 e2 a2 9 15;
   R21 a1 b1 c1 d1 e1 11 13;
   R22 a2 b2 c2 d2 e2 1 13;
   R21 e1 a1 b1 c1 d1 8 12;
   R22 e2 a2 b2 c2 d2 2 11;
   R31 d1 e1 a1 b1 c1 3 11;
   R32 d2 e2 a2 b2 c2 15 9;
   R31 c1 d1 e1 a1 b1 10 13;
   R32 c2 d2 e2 a2 b2 5 7;
   R31 b1 c1 d1 e1 a1 14 6;
   R32 b2 c2 d2 e2 a2 1 15;
   R31 a1 b1 c1 d1 e1 4 7;
   R32 a2 b2 c2 d2 e2 3 11;
   R31 e1 a1 b1 c1 d1 9 14;
   R32 e2 a2 b2 c2 d2 7 8;
   R31 d1 e1 a1 b1 c1 15 9;
   R32 d2 e2 a2 b2 c2 14 6;
   R31 c1 d1 e1 a1 b1 8 13;
   R32 c2 d2 e2 a2 b2 6 6;
   R31 b1 c1 d1 e1 a1 1 15;
   R32 b2 c2 d2 e2 a2 9 14;
   R31 a1 b1 c1 d1 e1 2 14;
   R32 a2 b2 c2 d2 e2 11 12;
   R31 e1 a1 b1 c1 d1 7 8;
   R32 e2 a2 b2 c2 d2 8 13;
   R31 d1 e1 a1 b1 c1 0 13;
   R32 d2 e2 a2 b2 c2 12 5;
   R31 c1 d1 e1 a1 b1 6 6;
   R32 c2 d2 e2 a2 b2 2 14;
   R31 b1 c1 d1 e1 a1 13 5;
   R32 b2 c2 d2 e2 a2 10 13;
   R31 a1 b1 c1 d1 e1 11 12;
   R32 a2 b2 c2 d2 e2 0 13;
   R31 e1 a1 b1 c1 d1 5 7;
   R32 e2 a2 b2 c2 d2 4 7;
   R31 d1 e1 a1 b1 c1 12 5;
   R32 d2 e2 a2 b2 c2 13 5;
   R41 c1 d1 e1 a1 b1 1 11;
   R42 c2 d2 e2 a2 b2 8 15;
   R41 b1 c1 d1 e1 a1 9 12;
   R42 b2 c2 d2 e2 a2 6 5;
   R41 a1 b1 c1 d1 e1 11 14;
   R42 a2 b2 c2 d2 e2 4 8;
   R41 e1 a1 b1 c1 d1 10 15;
   R42 e2 a2 b2 c2 d2 1 11;
   R41 d1 e1 a1 b1 c1 0 14;
   R42 d2 e2 a2 b2 c2 3 14;
   R41 c1 d1 e1 a1 b1 8 15;
   R42 c2 d2 e2 a2 b2 11 14;
   R41 b1 c1 d1 e1 a1 12 9;
   R42 b2 c2 d2 e2 a2 15 6;
   R41 a1 b1 c1 d1 e1 4 8;
   R42 a2 b2 c2 d2 e2 0 14;
   R41 e1 a1 b1 c1 d1 13 9;
   R42 e2 a2 b2 c2 d2 5 6;
   R41 d1 e1 a1 b1 c1 3 14;
   R42 d2 e2 a2 b2 c2 12 9;
   R41 c1 d1 e1 a1 b1 7 5;
   R42 c2 d2 e2 a2 b2 2 12;
   R41 b1 c1 d1 e1 a1 15 6;
   R42 b2 c2 d2 e2 a2 13 9;
   R41 a1 b1 c1 d1 e1 14 8;
   R42 a2 b2 c2 d2 e2 9 12;
   R41 e1 a1 b1 c1 d1 5 6;
   R42 e2 a2 b2 c2 d2 7 5;
   R41 d1 e1 a1 b1 c1 6 5;
   R42 d2 e2 a2 b2 c2 10 15;
   R41 c1 d1 e1 a1 b1 2 12;
   R42 c2 d2 e2 a2 b2 14 8;
   R51 b1 c1 d1 e1 a1 4 9;
   R52 b2 c2 d2 e2 a2 12 8;
   R51 a1 b1 c1 d1 e1 0 15;
   R52 a2 b2 c2 d2 e2 15 5;
   R51 e1 a1 b1 c1 d1 5 5;
   R52 e2 a2 b2 c2 d2 10 12;
   R51 d1 e1 a1 b1 c1 9 11;
   R52 d2 e2 a2 b2 c2 4 9;
   R51 c1 d1 e1 a1 b1 7 6;
   R52 c2 d2 e2 a2 b2 1 12;
   R51 b1 c1 d1 e1 a1 12 8;
   R52 b2 c2 d2 e2 a2 5 5;
   R51 a1 b1 c1 d1 e1 2 13;
   R52 a2 b2 c2 d2 e2 8 14;
   R51 e1 a1 b1 c1 d1 10 12;
   R52 e2 a2 b2 c2 d2 7 6;
   R51 d1 e1 a1 b1 c1 14 5;
   R52 d2 e2 a2 b2 c2 6 8;
   R51 c1 d1 e1 a1 b1 1 12;
   R52 c2 d2 e2 a2 b2 2 13;
   R51 b1 c1 d1 e1 a1 3 13;
   R52 b2 c2 d2 e2 a2 13 6;
   R51 a1 b1 c1 d1 e1 8 14;
   R52 a2 b2 c2 d2 e2 14 5;
   R51 e1 a1 b1 c1 d1 11 11;
   R52 e2 a2 b2 c2 d2 0 15;
   R51 d1 e1 a1 b1 c1 6 8;
   R52 d2 e2 a2 b2 c2 3 13;
   R51 c1 d1 e1 a1 b1 15 5;
   R52 c2 d2 e2 a2 b2 9 11;
   R51 b1 c1 d1 e1 a1 13 6;
   R52 b2 c2 d2 e2 a2 11 11].

Definition Transform (s : list Z) (chunk : bytes) : list Z :=
  let W := map (fun i => common.ReadLE32 (drop (4 * i) chunk)) (seq 0 16) in
  let R := foldl (fun R row => row R) (s ++ s) (map (fun row => row W) rows) in
  [low32 (s!1 + R!c1 + R!d2); low32 (s!2 + R!d1 + R!e2); low32 (s!3 + R!e1 + R!a2); low32 (s!4 + R!a1 + R!b2);
   low32 (s!0 + R!b1 + R!c2)].
End ripemd160.

(** [CRIPEMD160]: [buf] and the count are those of [hasher]. *)
Definition CRIPEMD160_bulk (s : list Z) (data : bytes) (count : Z) : list Z * bytes * Z :=
  bulk_loop ripemd160.Transform 64 (length data) s data count.
Definition make_CRIPEMD160 (buf : bytes) : hasher := make_hasher ripemd160.Initialize buf.
Definition CRIPEMD160_Reset (h : hasher) : hasher := hasher_Reset ripemd160.Initialize h.
Definition CRIPEMD160_Write (h : hasher) (data : bytes) : hasher :=
  hasher_Write ripemd160.Transform 64 CRIPEMD160_bulk h data.
Definition CRIPEMD160_Finalize (h : hasher) : bytes :=
  concat (map common.WriteLE32 (md_s (hasher_Finalize ripemd160.Transform 64 CRIPEMD160_bulk common.WriteLE64 8 h))).

(** ** The standard

    The specification of Dobbertin, Bosselaers and Preneel: two lines of 80
    steps, whose message words are chosen by the permutations rho and pi. *)

Module rmd160.
#[local] Open Scope words_scope.

Definition f (j : nat) (x y z : Z) : Z :=
  match (j / 16)%nat with
  | 0%nat => x ⊕ y ⊕ z
  | 1%nat => Z.lor (Z.land x y) (Z.land (low32 (Z.lnot x)) z)
  | 2%nat => Z.lor x (low32 (Z.lnot y)) ⊕ z
  | 3%nat => Z.lor (Z.land x z) (Z.land y (low32 (Z.lnot z)))
  | _ => x ⊕ Z.lor y (low32 (Z.lnot z))
  end.
Definition K (j : nat) : Z := [0; 0x5a827999; 0x6ed9eba1; 0x8f1bbcdc; 0xa953fd4e]!(j / 16).
Definition K' (j : nat) : Z := [0x50a28be6; 0x5c4dd124; 0x6d703ef3; 0x7a6d76e9; 0]!(j / 16).

Definition rho (i : nat) : nat := nth i [7; 4; 13; 1; 10; 6; 15; 3; 12; 0; 9; 5; 2; 14; 11; 8]%nat 0%nat.
Definition r (j : nat) : nat := Nat.iter (j / 16) rho (j mod 16)%nat.
Definition r' (j : nat) : nat := Nat.iter (j / 16) rho ((9 * (j mod 16) + 5) mod 16)%nat.
Definition s (j : nat) : Z :=
  [11; 14; 15; 12; 5; 8; 7; 9; 11; 13; 14; 15; 6; 7; 9; 8; 7; 6; 8; 13; 11; 9; 7; 15; 7; 12; 15; 9; 11; 7; 13; 12;
   11; 13; 6; 7; 14; 9; 13; 15; 14; 8; 13; 6; 5; 12; 7; 5; 11; 12; 14; 15; 14; 15; 9; 8; 9; 14; 5; 6; 8; 6; 5; 12;
   9; 15; 5; 11; 6; 8; 13; 12; 5; 12; 13; 14; 11; 8; 5; 6]!j.
Definition s' (j : nat) : Z :=
  [8; 9; 9; 11; 13; 15; 15; 5; 7; 7; 8; 11; 14; 14; 12; 6; 9; 13; 15; 7; 12; 8; 9; 11; 7; 7; 12; 7; 6; 15; 13; 11;
   9; 7; 15; 11; 8; 6; 6; 14; 12; 13; 5; 14; 13; 13; 7; 5; 15; 5; 8; 11; 14; 14; 6; 14; 6; 9; 12; 9; 12; 5; 15; 8;
   8; 5; 12; 9; 12; 5; 14; 6; 8; 13; 6; 5; 15; 13; 11; 11]!j.

Definition line (f : nat -> Z -> Z -> Z -> Z) (K : nat -> Z) (r : nat -> nat) (s : nat -> Z)
    (X : nat -> Z) (v : list Z) (j : nat) : list Z :=
  match v with
  | [A; B; C; D; E] => [E; low32 (rotl 32 (low32 (A + f j B C D + X (r j) + K j)) (s j) + E); B; rotl 32 C 10; D]
  | _ => v
  end.

Definition compress (h : list Z) (M : bytes) : list Z :=
  let X i := common.ReadLE32 (drop (4 * i) M) in
  let v := foldl (line f K r s X) h (seq 0 80) in
  let v' := foldl (line (fun j => f (79 - j)) K' r' s' X) h (seq 0 80) in
  match h, v, v' with
  | [h0; h1; h2; h3; h4], [A; B; C; D; E], [A'; B'; C'; D'; E'] =>
    [low32 (h1 + C + D'); low32 (h2 + D + E'); low32 (h3 + E + A'); low32 (h4 + A + B'); low32 (h0 + B + C')]
  | _, _, _ => h
  end.
Definition H0 : list Z := [0x67452301; 0xefcdab89; 0x98badcfe; 0x10325476; 0xc3d2e1f0].
Definition RIPEMD160 (msg : bytes) : bytes :=
  concat (map common.WriteLE32 (merkle_damgard compress H0 64 common.WriteLE64 8 msg)).
End rmd160.

(** ** Facts *)

Module ripemd160_facts.
Import ripemd160 blocks_facts.
#[local] Open Scope words_scope.

Section lines.
Context (chunk : bytes).
Abbreviation X := (fun i => common.ReadLE32 (drop (4 * i) chunk)).
Abbreviation words := (map X (seq 0 16)).
Abbreviation line1 := (rmd160.line rmd160.f rmd160.K rmd160.r rmd160.s X).
Abbreviation line2 := (rmd160.line (fun j => rmd160.f (79 - j)) rmd160.K' rmd160.r' rmd160.s' X).

(** The rows of the two lines alternate. *)
Definition step (i : nat) (v : list Z * list Z) : list Z * list Z :=
  if (i mod 2 =? 0)%nat then (line1 (fst v) (i / 2), snd v) else (fst v, line2 (snd v) (i / 2)).

(** Where the code keeps the two lines at row [i]. *)
Definition view (i : nat) (v : list Z * list Z) : list Z :=
  map (fun j => (fst v)!((j + (i + 1) / 2) mod 5)) (seq 0 5) ++ map (fun j => (snd v)!((j + i / 2) mod 5)) (seq 0 5).

Definition sized (v : list Z * list Z) : Prop := length (fst v) = 5%nat /\ length (snd v) = 5%nat.

Lemma list_5 (l : list Z) : length l = 5%nat -> exists a b c d e, l = [a; b; c; d; e].
Proof.
  intros H. do 5 (destruct l as [|? l]; [discriminate|]). destruct l; [|discriminate]. by repeat eexists.
Qed.

Ltac by_view := intros [v1 v2] [H1 H2]; cbn [fst snd] in H1, H2;
  apply list_5 in H1 as (? & ? & ? & ? & ? & ->); apply list_5 in H2 as (? & ? & ? & ? & ? & ->);
  cbv -[Z.lxor Z.land Z.lor Z.lnot Z.shiftl Z.shiftr Z.add Z.mul low common.ReadLE32 drop]; reflexivity.

Lemma rows_steps : steps view step sized 0 (map (fun row => row words) rows).
Proof. cbn [rows map steps]. repeat (split; [by_view|]). exact I. Qed.

Lemma length_line f K r s Y v j : length v = 5%nat -> length (rmd160.line f K r s Y v j) = 5%nat.
Proof. intros Hv. apply list_5 in Hv as (? & ? & ? & ? & ? & ->). done. Qed.

Lemma rmd_step_sized i v : sized v -> sized (step i v).
Proof. intros [H1 H2]. unfold step. case_match; split; cbn [fst snd]; try done; by apply length_line. Qed.

(** The two lines one after the other. *)
Lemma steps_lines n v1 v2 :
  foldl (fun v i => step i v) (v1, v2) (seq 0 (2 * n)) = (foldl line1 v1 (seq 0 n), foldl line2 v2 (seq 0 n)).
Proof.
  induction n as [|n IH]; [done|]. replace (2 * Datatypes.S n)%nat with (Datatypes.S (Datatypes.S (2 * n))) by lia.
  rewrite (seq_S (Datatypes.S (2 * n))), (seq_S (2 * n)), (seq_S n), !foldl_app, IH. cbn [foldl].
  unfold step. cbn [fst snd]. rewrite !Nat.add_0_l.
  rewrite (Nat.mul_comm 2 n), Nat.Div0.mod_mul. cbn [Nat.eqb fst snd].
  replace (Datatypes.S (n * 2)) with (1 + n * 2)%nat by lia. rewrite Nat.Div0.mod_add, Nat.div_add, Nat.div_mul by lia.
  done.
Qed.

Lemma rmd_Transform_spec h : length h = 5%nat -> Transform h chunk = rmd160.compress h chunk.
Proof.
  intros Hh. unfold Transform, rmd160.compress. assert (sized (h, h)) as Hr by done.
  assert (h ++ h = view 0 (h, h)) as -> by (apply list_5 in Hh as (? & ? & ? & ? & ? & ->); done).
  rewrite (simulation view step sized rmd_step_sized _ 0 (h, h) rows_steps Hr).
  change (length (map (fun row => row words) rows)) with (2 * 80)%nat. rewrite steps_lines.
  pose proof (simulated_invariant (fun t v => line1 v t) (fun v => length v = 5%nat)
    (fun _ v => length_line _ _ _ _ _ v _) (seq 0 80) h Hh) as H1.
  pose proof (simulated_invariant (fun t v => line2 v t) (fun v => length v = 5%nat)
    (fun _ v => length_line _ _ _ _ _ v _) (seq 0 80) h Hh) as H2. cbn beta in H1, H2.
  remember (foldl line1 h (seq 0 80)) as v1. remember (foldl line2 h (seq 0 80)) as v2. clear Heqv1 Heqv2.
  apply list_5 in Hh as (? & ? & ? & ? & ? & ->). apply list_5 in H1 as (? & ? & ? & ? & ? & ->).
  apply list_5 in H2 as (? & ? & ? & ? & ? & ->). reflexivity.
Qed.

Lemma rmd_compress_length h : length h = 5%nat -> length (rmd160.compress h chunk) = 5%nat.
Proof. intros Hh. rewrite <- rmd_Transform_spec by done. done. Qed.
End lines.

Lemma rmd_bulk_spec s d c :
  in_range 64 c -> CRIPEMD160_bulk s d c
  = (fold_blocks Transform 64 (full 64 d) s d, drop (full 64 d * 64) d, u64 (c + Z.of_nat (full 64 d * 64))).
Proof. intros Hc. by apply hasher_facts.bulk_loop_spec; [lia| |]. Qed.

(** However the message is cut, and whatever the buffer held. *)
Lemma RIPEMD160_correct buf chunks :
  length buf = 64%nat ->
  CRIPEMD160_Finalize (foldl CRIPEMD160_Write (make_CRIPEMD160 buf) chunks) = rmd160.RIPEMD160 (concat chunks).
Proof.
  intros Hb. unfold CRIPEMD160_Finalize, rmd160.RIPEMD160. do 2 f_equal.
  rewrite <- (hasher_facts.merkle_damgard_ext Transform rmd160.compress (fun s => length s = 5%nat)); [| |done].
  - apply (hasher_facts.hasher_correct Transform Initialize 64 CRIPEMD160_bulk common.WriteLE64 8);
      [lia|done|apply rmd_bulk_spec|done].
  - intros s b Hs. split; [by apply rmd_Transform_spec|by apply rmd_compress_length].
Qed.
End ripemd160_facts.

(** *** Examples *)

Example ripemd160_empty :
  CRIPEMD160_Finalize (make_CRIPEMD160 (replicate 64 0))
  = reverse (le_digits 8 20 0x9c1185a5c5e9fc54612808977ee8f548b2258d31).
Proof. vm_compute. reflexivity. Qed.

Example ripemd160_abc :
  CRIPEMD160_Finalize (CRIPEMD160_Write (make_CRIPEMD160 (replicate 64 0)) [97; 98; 99])
  = reverse (le_digits 8 20 0x8eb208f7e05d987a9b044a8e98c6b087f15a0bfc).
Proof. vm_compute. reflexivity. Qed.
