(* ===== verification/Sha2.v ===== *)
(** * SHA-256 and SHA-512 ([crypto/sha256.h], [sha256.cpp], [sha512.h],
    [sha512.cpp])

    The two transformations have the same structure on words of 32 and of 64
    bits; their rows are tables over one [Round]. *)

From S2P Require Import Prelude Uint256 Blocks MdHash.

(** The variables of [Transform] are positions: [a] to [h] of the first list,
    [w0] to [w15] of the second.  [Read i n] is [wi = ReadBE(chunk + n)],
    [Add_to i j k l] is [wi += sigma1(wj) + wk + sigma0(wl)] and [Sum] the
    same without the assignment. *)
Inductive sha2_word :=
  | Read (i n : nat)
  | Add_to (i j k l : nat)
  | Sum (i j k l : nat).

Section sha2.
#[local] Open Scope words_scope.
Context (w : Z) (Sigma0 Sigma1 sigma0 sigma1 : Z -> Z) (ReadBE : bytes -> Z).

Definition sha2_Ch (x y z : Z) : Z := z ⊕ Z.land x (y ⊕ z).
Definition sha2_Maj (x y z : Z) : Z := Z.lor (Z.land x y) (Z.land z (Z.lor x y)).

Definition sha2_eval_word (chunk : bytes) (x : sha2_word) (W : list Z) : Z * list Z :=
  match x with
  | Read i n => let v := ReadBE (drop n chunk) in (v, <[i := v]> W)
  | Add_to i j k l => let v := low w (W!i + (sigma1 W!j + W!k + sigma0 W!l)) in (v, <[i := v]> W)
  | Sum i j k l => (low w (W!i + (sigma1 W!j + W!k + sigma0 W!l)), W)
  end.

Definition sha2_Round (a b c d e f g h : nat) (k : Z) (x : sha2_word)
    (chunk : bytes) (st : list Z * list Z) : list Z * list Z :=
  let '(R, W) := st in
  let '(v, W) := sha2_eval_word chunk x W in
  let t1 := low w (R!h + Sigma1 R!e + sha2_Ch R!e R!f R!g + k + v) in
  let t2 := low w (Sigma0 R!a + sha2_Maj R!a R!b R!c) in
  let R := <[d := low w (R!d + t1)]> R in
  let R := <[h := low w (t1 + t2)]> R in
  (R, W).

(** The words [w0] to [w15] start with any values: none is read before it is
    set. *)
Definition sha2_Transform (rows : list (bytes -> list Z * list Z -> list Z * list Z))
    (W : list Z) (s : list Z) (chunk : bytes) : list Z :=
  let '(R, _) := foldl (fun st row => row st) (s, W) (map (fun row => row chunk) rows) in
  zip_with (fun x y => low w (x + y)) s R.
End sha2.

#[local] Abbreviation a := 0%nat (only parsing).
#[local] Abbreviation b := 1%nat (only parsing).
#[local] Abbreviation c := 2%nat (only parsing).
#[local] Abbreviation d := 3%nat (only parsing).
#[local] Abbreviation e := 4%nat (only parsing).
#[local] Abbreviation f := 5%nat (only parsing).
#[local] Abbreviation g := 6%nat (only parsing).
#[local] Abbreviation h := 7%nat (only parsing).

Module sha256.
#[local] Open Scope words_scope.

Definition Sigma0 (x : Z) : Z :=
  Z.lor (Z.shiftr x 2) (low32 (Z.shiftl x 30)) ⊕ Z.lor (Z.shiftr x 13) (low32 (Z.shiftl x 19)) ⊕ Z.lor (Z.shiftr x 22) (low32 (Z.shiftl x 10)).
Definition Sigma1 (x : Z) : Z :=
  Z.lor (Z.shiftr x 6) (low32 (Z.shiftl x 26)) ⊕ Z.lor (Z.shiftr x 11) (low32 (Z.shiftl x 21)) ⊕ Z.lor (Z.shiftr x 25) (low32 (Z.shiftl x 7)).
Definition sigma0 (x : Z) : Z :=
  Z.lor (Z.shiftr x 7) (low32 (Z.shiftl x 25)) ⊕ Z.lor (Z.shiftr x 18) (low32 (Z.shiftl x 14)) ⊕ Z.shiftr x 3.
Definition sigma1 (x : Z) : Z :=
  Z.lor (Z.shiftr x 17) (low32 (Z.shiftl x 15)) ⊕ Z.lor (Z.shiftr x 19) (low32 (Z.shiftl x 13)) ⊕ Z.shiftr x 10.

Definition Initialize : list Z :=
  [0x6a09e667; 0xbb67ae85; 0x3c6ef372; 0xa54ff53a; 0x510e527f; 0x9b05688c; 0x1f83d9ab; 0x5be0cd19].

Definition round := sha2_Round 32 Sigma0 Sigma1 sigma0 sigma1 common.ReadBE32.
Definition rows : list (bytes -> list Z * list Z -> list Z * list Z) :=
  [round a b c d e f g h 0x428a2f98 (Read 0 0);
   round h a b c d e f g 0x71374491 (Read 1 4);
   round g h a b c d e f 0xb5c0fbcf (Read 2 8);
   round f g h a b c d e 0xe9b5dba5 (Read 3 12);
   round e f g h a b c d 0x3956c25b (Read 4 16);
   round d e f g h a b c 0x59f111f1 (Read 5 20);
   round c d e f g h a b 0x923f82a4 (Read 6 24);
   round b c d e f g h a 0xab1c5ed5 (Read 7 28);
   round a b c d e f g h 0xd807aa98 (Read 8 32);
   round h a b c d e f g 0x12835b01 (Read 9 36);
   round g h a b c d e f 0x243185be (Read 10 40);
   round f g h a b c d e 0x550c7dc3 (Read 11 44);
   round e f g h a b c d 0x72be5d74 (Read 12 48);
   round d e f g h a b c 0x80deb1fe (Read 13 52);
   round c d e f g h a b 0x9bdc06a7 (Read 14 56);
   round b c d e f g h a 0xc19bf174 (Read 15 60);
   round a b c d e f g h 0xe49b69c1 (Add_to 0 14 9 1);
   round h a b c d e f g 0xefbe4786 (Add_to 1 15 10 2);
   round g h a b c d e f 0x0fc19dc6 (Add_to 2 0 11 3);
   round f g h a b c d e 0x240ca1cc (Add_to 3 1 12 4);
   round e f g h a b c d 0x2de92c6f (Add_to 4 2 13 5);
   round d e f g h a b c 0x4a7484aa (Add_to 5 3 14 6);
   round c d e f g h a b 0x5cb0a9dc (Add_to 6 4 15 7);
   round b c d e f g h a 0x76f988da (Add_to 7 5 0 8);
   round a b c d e f g h 0x983e5152 (Add_to 8 6 1 9);
   round h a b c d e f g 0xa831c66d (Add_to 9 7 2 10);
   round g h a b c d e f 0xb00327c8 (Add_to 10 8 3 11);
   round f g h a b c d e 0xbf597fc7 (Add_to 11 9 4 12);
   round e f g h a b c d 0xc6e00bf3 (Add_to 12 10 5 13);
   round d e f g h a b c 0xd5a79147 (Add_to 13 11 6 14);
   round c d e f g h a b 0x06ca6351 (Add_to 14 12 7 15);
   round b c d e f g h a 0x14292967 (Add_to 15 13 8 0);
   round a b c d e f g h 0x27b70a85 (Add_to 0 14 9 1);
   round h a b c d e f g 0x2e1b2138 (Add_to 1 15 10 2);
   round g h a b c d e f 0x4d2c6dfc (Add_to 2 0 11 3);
   round f g h a b c d e 0x53380d13 (Add_to 3 1 12 4);
   round e f g h a b c d 0x650a7354 (Add_to 4 2 13 5);
   round d e f g h a b c 0x766a0abb (Add_to 5 3 14 6);
   round c d e f g h a b 0x81c2c92e (Add_to 6 4 15 7);
   round b c d e f g h a 0x92722c85 (Add_to 7 5 0 8);
   round a b c d e f g h 0xa2bfe8a1 (Add_to 8 6 1 9);
   round h a b c d e f g 0xa81a664b (Add_to 9 7 2 10);
   round g h a b c d e f 0xc24b8b70 (Add_to 10 8 3 11);
   round f g h a b c d e 0xc76c51a3 (Add_to 11 9 4 12);
   round e f g h a b c d 0xd192e819 (Add_to 12 10 5 13);
   round d e f g h a b c 0xd6990624 (Add_to 13 11 6 14);
   round c d e f g h a b 0xf40e3585 (Add_to 14 12 7 15);
   round b c d e f g h a 0x106aa070 (Add_to 15 13 8 0);
   round a b c d e f g h 0x19a4c116 (Add_to 0 14 9 1);
   round h a b c d e f g 0x1e376c08 (Add_to 1 15 10 2);
   round g h a b c d e f 0x2748774c (Add_to 2 0 11 3);
   round f g h a b c d e 0x34b0bcb5 (Add_to 3 1 12 4);
   round e f g h a b c d 0x391c0cb3 (Add_to 4 2 13 5);
   round d e f g h a b c 0x4ed8aa4a (Add_to 5 3 14 6);
   round c d e f g h a b 0x5b9cca4f (Add_to 6 4 15 7);
   round b c d e f g h a 0x682e6ff3 (Add_to 7 5 0 8);
   round a b c d e f g h 0x748f82ee (Add_to 8 6 1 9);
   round h a b c d e f g 0x78a5636f (Add_to 9 7 2 10);
   round g h a b c d e f 0x84c87814 (Add_to 10 8 3 11);
   round f g h a b c d e 0x8cc70208 (Add_to 11 9 4 12);
   round e f g h a b c d 0x90befffa (Add_to 12 10 5 13);
   round d e f g h a b c 0xa4506ceb (Add_to 13 11 6 14);
   round c d e f g h a b 0xbef9a3f7 (Sum 14 12 7 15);
   round b c d e f g h a 0xc67178f2 (Sum 15 13 8 0)].

(** [blocks] turns of the loop. *)
Definition Transform_block : list Z -> bytes -> list Z := sha2_Transform 32 rows (replicate 16 0).
Definition Transform (s : list Z) (chunk : bytes) (blocks : nat) : list Z :=
  fold_blocks Transform_block 64 blocks s chunk.

Definition SelfTest (tr : list Z -> bytes -> nat -> list Z) : bool :=
  let in1 := 0 :: 0x80 :: replicate 63 0 in
  let in2 := 0 :: replicate 64 32 ++ 0x80 :: replicate 61 0 ++ [2; 0] in
  let init := [0x6a09e667; 0xbb67ae85; 0x3c6ef372; 0xa54ff53a; 0x510e527f; 0x9b05688c; 0x1f83d9ab; 0x5be0cd19] in
  let out1 := [0xe3b0c442; 0x98fc1c14; 0x9afbf4c8; 0x996fb924; 0x27ae41e4; 0x649b934c; 0xa495991b; 0x7852b855] in
  let out2 := [0xce4153b0; 0x147c2a86; 0x3ed4298e; 0xe0676bc8; 0x79fc77a1; 0x2abe1f49; 0xb2b055df; 0x1069523e] in
  let buf := tr init [] 0%nat in
  if negb (bool_decide (buf = init)) then false
  else if negb (bool_decide (tr buf (drop 1 in1) 1%nat = out1)) then false
  else bool_decide (tr init (drop 1 in2) 2%nat = out2).
End sha256.

(** [CSHA256]: the data's full blocks are given to one [Transform]. *)
Definition CSHA256_bulk (s : list Z) (data : bytes) (count : Z) : list Z * bytes * Z :=
  if (64 <=? length data)%nat then
    let blocks := (length data / 64)%nat in
    (sha256.Transform s data blocks, drop (64 * blocks) data, u64 (count + 64 * Z.of_nat blocks))
  else (s, data, count).
Definition make_CSHA256 (buf : bytes) : hasher := make_hasher sha256.Initialize buf.
Definition CSHA256_Reset (h : hasher) : hasher := hasher_Reset sha256.Initialize h.
Definition CSHA256_Write (h : hasher) (data : bytes) : hasher :=
  hasher_Write (fun s buf => sha256.Transform s buf 1) 64 CSHA256_bulk h data.
Definition CSHA256_Finalize (h : hasher) : bytes :=
  concat (map common.WriteBE32
    (md_s (hasher_Finalize (fun s buf => sha256.Transform s buf 1) 64 CSHA256_bulk common.WriteBE64 8 h))).

Module sha512.
#[local] Open Scope words_scope.

Definition Sigma0 (x : Z) : Z :=
  Z.lor (Z.shiftr x 28) (low64 (Z.shiftl x 36)) ⊕ Z.lor (Z.shiftr x 34) (low64 (Z.shiftl x 30)) ⊕ Z.lor (Z.shiftr x 39) (low64 (Z.shiftl x 25)).
Definition Sigma1 (x : Z) : Z :=
  Z.lor (Z.shiftr x 14) (low64 (Z.shiftl x 50)) ⊕ Z.lor (Z.shiftr x 18) (low64 (Z.shiftl x 46)) ⊕ Z.lor (Z.shiftr x 41) (low64 (Z.shiftl x 23)).
Definition sigma0 (x : Z) : Z :=
  Z.lor (Z.shiftr x 1) (low64 (Z.shiftl x 63)) ⊕ Z.lor (Z.shiftr x 8) (low64 (Z.shiftl x 56)) ⊕ Z.shiftr x 7.
Definition sigma1 (x : Z) : Z :=
  Z.lor (Z.shiftr x 19) (low64 (Z.shiftl x 45)) ⊕ Z.lor (Z.shiftr x 61) (low64 (Z.shiftl x 3)) ⊕ Z.shiftr x 6.

Definition Initialize : list Z :=
  [0x6a09e667f3bcc908; 0xbb67ae8584caa73b; 0x3c6ef372fe94f82b; 0xa54ff53a5f1d36f1;
   0x510e527fade682d1; 0x9b05688c2b3e6c1f; 0x1f83d9abfb41bd6b; 0x5be0cd19137e2179].

Definition round := sha2_Round 64 Sigma0 Sigma1 sigma0 sigma1 common.ReadBE64.
Definition rows : list (bytes -> list Z * list Z -> list Z * list Z) :=
  [round a b c d e f g h 0x428a2f98d728ae22 (Read 0 0);
   round h a b c d e f g 0x7137449123ef65cd (Read 1 8);
   round g h a b c d e f 0xb5c0fbcfec4d3b2f (Read 2 16);
   round f g h a b c d e 0xe9b5dba58189dbbc (Read 3 24);
   round e f g h a b c d 0x3956c25bf348b538 (Read 4 32);
   round d e f g h a b c 0x59f111f1b605d019 (Read 5 40);
   round c d e f g h a b 0x923f82a4af194f9b (Read 6 48);
   round b c d e f g h a 0xab1c5ed5da6d8118 (Read 7 56);
   round a b c d e f g h 0xd807aa98a3030242 (Read 8 64);
   round h a b c d e f g 0x12835b0145706fbe (Read 9 72);
   round g h a b c d e f 0x243185be4ee4b28c (Read 10 80);
   round f g h a b c d e 0x550c7dc3d5ffb4e2 (Read 11 88);
   round e f g h a b c d 0x72be5d74f27b896f (Read 12 96);
   round d e f g h a b c 0x80deb1fe3b1696b1 (Read 13 104);
   round c d e f g h a b 0x9bdc06a725c71235 (Read 14 112);
   round b c d e f g h a 0xc19bf174cf692694 (Read 15 120);
   round a b c d e f g h 0xe49b69c19ef14ad2 (Add_to 0 14 9 1);
   round h a b c d e f g 0xefbe4786384f25e3 (Add_to 1 15 10 2);
   round g h a b c d e f 0x0fc19dc68b8cd5b5 (Add_to 2 0 11 3);
   round f g h a b c d e 0x240ca1cc77ac9c65 (Add_to 3 1 12 4);
   round e f g h a b c d 0x2de92c6f592b0275 (Add_to 4 2 13 5);
   round d e f g h a b c 0x4a7484aa6ea6e483 (Add_to 5 3 14 6);
   round c d e f g h a b 0x5cb0a9dcbd41fbd4 (Add_to 6 4 15 7);
   round b c d e f g h a 0x76f988da831153b5 (Add_to 7 5 0 8);
   round a b c d e f g h 0x983e5152ee66dfab (Add_to 8 6 1 9);
   round h a b c d e f g 0xa831c66d2db43210 (Add_to 9 7 2 10);
   round g h a b c d e f 0xb00327c898fb213f (Add_to 10 8 3 11);
   round f g h a b c d e 0xbf597fc7beef0ee4 (Add_to 11 9 4 12);
   round e f g h a b c d 0xc6e00bf33da88fc2 (Add_to 12 10 5 13);
   round d e f g h a b c 0xd5a79147930aa725 (Add_to 13 11 6 14);
   round c d e f g h a b 0x06ca6351e003826f (Add_to 14 12 7 15);
   round b c d e f g h a 0x142929670a0e6e70 (Add_to 15 13 8 0);
   round a b c d e f g h 0x27b70a8546d22ffc (Add_to 0 14 9 1);
   round h a b c d e f g 0x2e1b21385c26c926 (Add_to 1 15 10 2);
   round g h a b c d e f 0x4d2c6dfc5ac42aed (Add_to 2 0 11 3);
   round f g h a b c d e 0x53380d139d95b3df (Add_to 3 1 12 4);
   round e f g h a b c d 0x650a73548baf63de (Add_to 4 2 13 5);
   round d e f g h a b c 0x766a0abb3c77b2a8 (Add_to 5 3 14 6);
   round c d e f g h a b 0x81c2c92e47edaee6 (Add_to 6 4 15 7);
   round b c d e f g h a 0x92722c851482353b (Add_to 7 5 0 8);
   round a b c d e f g h 0xa2bfe8a14cf10364 (Add_to 8 6 1 9);
   round h a b c d e f g 0xa81a664bbc423001 (Add_to 9 7 2 10);
   round g h a b c d e f 0xc24b8b70d0f89791 (Add_to 10 8 3 11);
   round f g h a b c d e 0xc76c51a30654be30 (Add_to 11 9 4 12);
   round e f g h a b c d 0xd192e819d6ef5218 (Add_to 12 10 5 13);
   round d e f g h a b c 0xd69906245565a910 (Add_to 13 11 6 14);
   round c d e f g h a b 0xf40e35855771202a (Add_to 14 12 7 15);
   round b c d e f g h a 0x106aa07032bbd1b8 (Add_to 15 13 8 0);
   round a b c d e f g h 0x19a4c116b8d2d0c8 (Add_to 0 14 9 1);
   round h a b c d e f g 0x1e376c085141ab53 (Add_to 1 15 10 2);
   round g h a b c d e f 0x2748774cdf8eeb99 (Add_to 2 0 11 3);
   round f g h a b c d e 0x34b0bcb5e19b48a8 (Add_to 3 1 12 4);
   round e f g h a b c d 0x391c0cb3c5c95a63 (Add_to 4 2 13 5);
   round d e f g h a b c 0x4ed8aa4ae3418acb (Add_to 5 3 14 6);
   round c d e f g h a b 0x5b9cca4f7763e373 (Add_to 6 4 15 7);
   round b c d e f g h a 0x682e6ff3d6b2b8a3 (Add_to 7 5 0 8);
   round a b c d e f g h 0x748f82ee5defb2fc (Add_to 8 6 1 9);
   round h a b c d e f g 0x78a5636f43172f60 (Add_to 9 7 2 10);
   round g h a b c d e f 0x84c87814a1f0ab72 (Add_to 10 8 3 11);
   round f g h a b c d e 0x8cc702081a6439ec (Add_to 11 9 4 12);
   round e f g h a b c d 0x90befffa23631e28 (Add_to 12 10 5 13);
   round d e f g h a b c 0xa4506cebde82bde9 (Add_to 13 11 6 14);
   round c d e f g h a b 0xbef9a3f7b2c67915 (Add_to 14 12 7 15);
   round b c d e f g h a 0xc67178f2e372532b (Add_to 15 13 8 0);
   round a b c d e f g h 0xca273eceea26619c (Add_to 0 14 9 1);
   round h a b c d e f g 0xd186b8c721c0c207 (Add_to 1 15 10 2);
   round g h a b c d e f 0xeada7dd6cde0eb1e (Add_to 2 0 11 3);
   round f g h a b c d e 0xf57d4f7fee6ed178 (Add_to 3 1 12 4);
   round e f g h a b c d 0x06f067aa72176fba (Add_to 4 2 13 5);
   round d e f g h a b c 0x0a637dc5a2c898a6 (Add_to 5 3 14 6);
   round c d e f g h a b 0x113f9804bef90dae (Add_to 6 4 15 7);
   round b c d e f g h a 0x1b710b35131c471b (Add_to 7 5 0 8);
   round a b c d e f g h 0x28db77f523047d84 (Add_to 8 6 1 9);
   round h a b c d e f g 0x32caab7b40c72493 (Add_to 9 7 2 10);
   round g h a b c d e f 0x3c9ebe0a15c9bebc (Add_to 10 8 3 11);
   round f g h a b c d e 0x431d67c49c100d4c (Add_to 11 9 4 12);
   round e f g h a b c d 0x4cc5d4becb3e42b6 (Add_to 12 10 5 13);
   round d e f g h a b c 0x597f299cfc657e2a (Add_to 13 11 6 14);
   round c d e f g h a b 0x5fcb6fab3ad6faec (Sum 14 12 7 15);
   round b c d e f g h a 0x6c44198c4a475817 (Sum 15 13 8 0)].

Definition Transform : list Z -> bytes -> list Z := sha2_Transform 64 rows (replicate 16 0).
End sha512.

(** [CSHA512]. *)
Definition CSHA512_bulk (s : list Z) (data : bytes) (count : Z) : list Z * bytes * Z :=
  bulk_loop sha512.Transform 128 (length data) s data count.
(** The length takes the last 8 of the 16 bytes of [sizedesc]. *)
Definition sizedesc16 (x : Z) : bytes := replicate 8 0 ++ common.WriteBE64 x.
Definition make_CSHA512 (buf : bytes) : hasher := make_hasher sha512.Initialize buf.
Definition CSHA512_Reset (h : hasher) : hasher := hasher_Reset sha512.Initialize h.
Definition CSHA512_Write (h : hasher) (data : bytes) : hasher :=
  hasher_Write sha512.Transform 128 CSHA512_bulk h data.
Definition CSHA512_Finalize (h : hasher) : bytes :=
  concat (map common.WriteBE64
    (md_s (hasher_Finalize sha512.Transform 128 CSHA512_bulk sizedesc16 16 h))).

(** ** The standard (FIPS 180) *)

Module fips180_2.
#[local] Open Scope words_scope.

(** The first bits of the fractional parts of square and cube roots. *)
Fixpoint root (p : Z) (bits : nat) (r n : Z) : Z :=
  match bits with
  | O => r
  | Datatypes.S bits => let r' := r + 2 ^ Z.of_nat bits in root p bits (if r' ^ p <=? n then r' else r) n
  end.
Definition fraction (w p n : Z) : Z := low w (root p (Z.to_nat w + 5) 0 (n * 2 ^ (p * w))).
Definition primes (n : nat) : list Z :=
  filter (fun p => forallb (fun d => negb (p mod Z.of_nat d =? 0)) (seq 2 (Z.to_nat p - 2)) = true) (map Z.of_nat (seq 2 n)).
Definition K (w : Z) : list Z := map (fraction w 3) (primes 409).
Definition H0 (w : Z) : list Z := map (fraction w 2) (primes 18).

Section standard.
Context (w : Z) (ROTR_Sigma0 ROTR_Sigma1 : list Z) (ROTR_sigma0 ROTR_sigma1 : list Z) (read : bytes -> Z) (k : list Z).

(** Sums of rotations; in the last place of a [sigma] stands a shift. *)
Definition Sigma (l : list Z) (x : Z) : Z := rotr w x l!0 ⊕ rotr w x l!1 ⊕ rotr w x l!2.
Definition sigma (l : list Z) (x : Z) : Z := rotr w x l!0 ⊕ rotr w x l!1 ⊕ Z.shiftr x l!2.
Definition Ch (x y z : Z) : Z := Z.land x y ⊕ Z.land (Z.lnot x) z.
Definition Maj (x y z : Z) : Z := Z.land x y ⊕ Z.land x z ⊕ Z.land y z.

Definition W (M : bytes) (t : nat) (l : list Z) : Z :=
  if (t <? 16)%nat then read (drop (Z.to_nat (w / 8) * t) M)
  else low w (sigma ROTR_sigma1 l!(t - 2) + l!(t - 7) + sigma ROTR_sigma0 l!(t - 15) + l!(t - 16)).
Definition round (t : nat) (s : list Z) (Wt : Z) : list Z :=
  match s with
  | [A; B; C; D; E; F; G; H] =>
    let T1 := low w (H + Sigma ROTR_Sigma1 E + Ch E F G + k!t + Wt) in
    let T2 := low w (Sigma ROTR_Sigma0 A + Maj A B C) in
    [low w (T1 + T2); A; B; C; low w (D + T1); E; F; G]
  | _ => s
  end.
Definition compress (rounds : nat) (H : list Z) (M : bytes) : list Z :=
  zip_with (fun x y => low w (x + y)) H (fst (foldl (round_whole (W M) round) (H, []) (seq 0 rounds))).
End standard.

Definition compress256 := compress 32 [2; 13; 22] [6; 11; 25] [7; 18; 3] [17; 19; 10] common.ReadBE32 (K 32) 64.
Definition compress512 := compress 64 [28; 34; 39] [14; 18; 41] [1; 8; 7] [19; 61; 6] common.ReadBE64 (K 64) 80.
Definition SHA256 (msg : bytes) : bytes :=
  concat (map common.WriteBE32 (merkle_damgard compress256 (H0 32) 64 common.WriteBE64 8 msg)).
(** For messages of less than 2^61 bytes; their length takes 8 of 16 bytes. *)
Definition SHA512 (msg : bytes) : bytes :=
  concat (map common.WriteBE64 (merkle_damgard compress512 (H0 64) 128 sizedesc16 16 msg)).
End fips180_2.

(** ** Facts *)

Module sha2_facts.
Import blocks_facts.
#[local] Open Scope words_scope.

Lemma Ch_spec x y z : sha2_Ch x y z = fips180_2.Ch x y z.
Proof. unfold sha2_Ch, fips180_2.Ch. bitwise. Qed.

Lemma Maj_spec x y z : sha2_Maj x y z = fips180_2.Maj x y z.
Proof. unfold sha2_Maj, fips180_2.Maj. bitwise. Qed.

(** *** The rows *)

(** Where the code keeps the roles [a] to [h] and the last sixteen words. *)
Definition view (i : nat) (r : list Z * list Z) : list Z * list Z :=
  (map (fun j => (fst r)!((j + i) mod 8)) (seq 0 8), map (fun j => (snd r)!((j + 15 * i) mod 16)) (seq 0 16)).

Definition sized (r : list Z * list Z) : Prop := length (fst r) = 8%nat /\ length (snd r) = 16%nat.

Lemma sha2_sized_spec r : sized r ->
  exists r0 r1 r2 r3 r4 r5 r6 r7 w0 w1 w2 w3 w4 w5 w6 w7 w8 w9 w10 w11 w12 w13 w14 w15,
    r = ([r0; r1; r2; r3; r4; r5; r6; r7], [w0; w1; w2; w3; w4; w5; w6; w7; w8; w9; w10; w11; w12; w13; w14; w15]).
Proof.
  destruct r as [s w]. unfold sized. cbn [fst snd]. intros [Hs Hw].
  do 8 (destruct s as [|? s]; [discriminate|]). destruct s; [|discriminate].
  do 16 (destruct w as [|? w]; [discriminate|]). destruct w; [|discriminate]. by repeat eexists.
Qed.

Ltac elements := intros ? Hr; apply sha2_sized_spec in Hr
  as (? & ? & ? & ? & ? & ? & ? & ? & ? & ? & ? & ? & ? & ? & ? & ? & ? & ? & ? & ? & ? & ? & ? & ? & ->).

Section rows.
Context (w : Z) (Sigma0 Sigma1 sigma0 sigma1 : Z -> Z) (ReadBE : bytes -> Z) (k : list Z) (bytes_per_word : nat).

(** The step of the code on the roles and the last sixteen words. *)
Definition code_slide (chunk : bytes) (t : nat) (l : list Z) : Z :=
  if (t <? 16)%nat then ReadBE (drop (bytes_per_word * t) chunk)
  else low w (l!0 + (sigma1 l!14 + l!9 + sigma0 l!1)).
Definition code_round (t : nat) (s : list Z) (x : Z) : list Z :=
  match s with
  | [A; B; C; D; E; F; G; H] =>
    let t1 := low w (H + Sigma1 E + sha2_Ch E F G + k!t + x) in
    let t2 := low w (Sigma0 A + sha2_Maj A B C) in
    [low w (t1 + t2); A; B; C; low w (D + t1); E; F; G]
  | _ => s
  end.
Abbreviation step chunk := (round_window (code_slide chunk) code_round).

Lemma sha2_step_sized chunk t r : sized r -> sized (step chunk t r).
Proof. revert r. elements. by split. Qed.

Lemma sha2_view_0 r : sized r -> view 0 r = r.
Proof. revert r. elements. reflexivity. Qed.

Context (rows : list (bytes -> list Z * list Z -> list Z * list Z)) (n : nat).
Context (Hfirst : forall chunk, steps view (step chunk) sized 0 (map (fun row => row chunk) (take n rows))).
Context (Hn : length (take n rows) = n).
(** The last two rows do not store their words. *)
Context (Hlast : forall chunk r, sized r ->
  fst (foldl (fun st row => row st) (view n r) (map (fun row => row chunk) (drop n rows)))
  = fst (foldl (fun r t => step chunk t r) r (seq n 2))).

Lemma sha2_rows_spec chunk s W :
  length s = 8%nat -> length W = 16%nat ->
  fst (foldl (fun st row => row st) (s, W) (map (fun row => row chunk) rows))
  = fst (foldl (fun r t => step chunk t r) (s, W) (seq 0 (n + 2))).
Proof.
  intros Hs HW. assert (sized (s, W)) as Hr by done.
  rewrite <- (sha2_view_0 (s, W)) at 1 by done. rewrite <- (take_drop n rows), map_app, foldl_app.
  rewrite (simulation view _ sized (sha2_step_sized chunk) _ 0 (s, W) (Hfirst chunk) Hr).
  rewrite length_map, Hn, Nat.add_0_l.
  rewrite Hlast by (by apply (simulated_invariant _ sized (sha2_step_sized chunk))).
  rewrite <- foldl_app, <- seq_app. done.
Qed.

(** *** The words and the steps are those of the standard *)
Context (S0 S1 s0 s1 : list Z).
Context (HS0 : forall x, Sigma0 x = fips180_2.Sigma w S0 x) (HS1 : forall x, Sigma1 x = fips180_2.Sigma w S1 x).
Context (Hs0 : forall x, sigma0 x = fips180_2.sigma w s0 x) (Hs1 : forall x, sigma1 x = fips180_2.sigma w s1 x).
Context (Hbytes : Z.to_nat (w / 8) = bytes_per_word).

Lemma sha2_code_round_spec t s x : code_round t s x = fips180_2.round w S0 S1 k t s x.
Proof.
  unfold code_round, fips180_2.round. repeat (destruct s as [|? s]; [done|]). destruct s; [|done].
  by rewrite HS0, HS1, Ch_spec, Maj_spec.
Qed.

Lemma sha2_code_slide_spec chunk t l win :
  length l = t -> length win = 16%nat -> ((16 <= t)%nat -> win = drop (t - 16) l) ->
  code_slide chunk t win = fips180_2.W w s0 s1 ReadBE chunk t l.
Proof.
  intros Hl Hw Hd. unfold code_slide, fips180_2.W. rewrite Hbytes. destruct (Nat.ltb_spec t 16) as [|Ht]; [done|].
  rewrite (Hd Ht), !nth_skipn, Hs0, Hs1.
  replace (t - 16 + 14)%nat with (t - 2)%nat by lia. replace (t - 16 + 9)%nat with (t - 7)%nat by lia.
  replace (t - 16 + 1)%nat with (t - 15)%nat by lia. rewrite Nat.add_0_r. f_equal. lia.
Qed.

Lemma sha2_Transform_spec W s chunk :
  length W = 16%nat -> length s = 8%nat ->
  sha2_Transform w rows W s chunk = fips180_2.compress w S0 S1 s0 s1 ReadBE k (n + 2) s chunk.
Proof.
  intros HW Hs. unfold sha2_Transform, fips180_2.compress.
  destruct (foldl _ _ _) as [R W'] eqn:E. f_equal. change R with (fst (R, W')). rewrite <- E, sha2_rows_spec by done.
  rewrite <- (window_whole _ (code_slide chunk) _ (sha2_code_slide_spec chunk) (n + 2) s [] W HW).
  cbn [length app]. rewrite app_nil_r, drop_0.
  generalize (seq 0 (n + 2)) as l, (s, W) as r. induction l as [|t l IH]; intros r; [done|]. cbn [foldl].
  rewrite IH. do 2 f_equal. unfold round_window. by rewrite sha2_code_round_spec.
Qed.

Lemma sha2_compress_length s chunk :
  length s = 8%nat -> length (fips180_2.compress w S0 S1 s0 s1 ReadBE k (n + 2) s chunk) = 8%nat.
Proof.
  intros Hs. rewrite <- (sha2_Transform_spec (replicate 16 0)) by done. unfold sha2_Transform.
  destruct (foldl _ _ _) as [R W'] eqn:E. rewrite length_zip_with, Hs. change R with (fst (R, W')). rewrite <- E, sha2_rows_spec by done.
  assert (sized (s, replicate 16 0)) as Hr by done.
  destruct (simulated_invariant (step chunk) sized (sha2_step_sized chunk) (seq 0 (n + 2)) _ Hr) as [Hl _]. by rewrite Hl.
Qed.
End rows.

(** *** SHA-256 *)

Ltac by_view := elements;
  cbv -[Z.lxor Z.land Z.lor Z.lnot Z.shiftl Z.shiftr Z.add Z.mul low common.ReadBE32 common.ReadBE64 drop
        sha256.Sigma0 sha256.Sigma1 sha256.sigma0 sha256.sigma1 sha512.Sigma0 sha512.Sigma1 sha512.sigma0 sha512.sigma1];
  reflexivity.

Definition K256 : list Z := Eval vm_compute in fips180_2.K 32.
Definition K512 : list Z := Eval vm_compute in fips180_2.K 64.
Lemma K256_spec : fips180_2.K 32 = K256.
Proof. vm_compute. reflexivity. Qed.
Lemma K512_spec : fips180_2.K 64 = K512.
Proof. vm_compute. reflexivity. Qed.

Abbreviation step256 chunk := (round_window (code_slide 32 sha256.sigma0 sha256.sigma1 common.ReadBE32 4 chunk)
  (code_round 32 sha256.Sigma0 sha256.Sigma1 K256)).
Abbreviation step512 chunk := (round_window (code_slide 64 sha512.sigma0 sha512.sigma1 common.ReadBE64 8 chunk)
  (code_round 64 sha512.Sigma0 sha512.Sigma1 K512)).

Lemma rows256_first chunk : steps view (step256 chunk) sized 0 (map (fun row => row chunk) (take 62 sha256.rows)).
Proof. cbn [sha256.rows take map steps]. repeat (split; [by_view|]). exact I. Qed.

Lemma rows256_last chunk r : sized r ->
  fst (foldl (fun st row => row st) (view 62 r) (map (fun row => row chunk) (drop 62 sha256.rows)))
  = fst (foldl (fun r t => step256 chunk t r) r (seq 62 2)).
Proof. revert r. cbn [sha256.rows drop map foldl seq]. by_view. Qed.

Lemma rows512_first chunk : steps view (step512 chunk) sized 0 (map (fun row => row chunk) (take 78 sha512.rows)).
Proof. cbn [sha512.rows take map steps]. repeat (split; [by_view|]). exact I. Qed.

Lemma rows512_last chunk r : sized r ->
  fst (foldl (fun st row => row st) (view 78 r) (map (fun row => row chunk) (drop 78 sha512.rows)))
  = fst (foldl (fun r t => step512 chunk t r) r (seq 78 2)).
Proof. revert r. cbn [sha512.rows drop map foldl seq]. by_view. Qed.

Lemma Transform256_spec W s chunk : length W = 16%nat -> length s = 8%nat ->
  sha2_Transform 32 sha256.rows W s chunk = fips180_2.compress256 s chunk.
Proof.
  unfold fips180_2.compress256. rewrite K256_spec.
  by apply (sha2_Transform_spec 32 sha256.Sigma0 sha256.Sigma1 sha256.sigma0 sha256.sigma1 common.ReadBE32 K256 4 sha256.rows 62
    rows256_first eq_refl rows256_last).
Qed.

Lemma Transform512_spec W s chunk : length W = 16%nat -> length s = 8%nat ->
  sha2_Transform 64 sha512.rows W s chunk = fips180_2.compress512 s chunk.
Proof.
  unfold fips180_2.compress512. rewrite K512_spec.
  by apply (sha2_Transform_spec 64 sha512.Sigma0 sha512.Sigma1 sha512.sigma0 sha512.sigma1 common.ReadBE64 K512 8 sha512.rows 78
    rows512_first eq_refl rows512_last).
Qed.

Lemma compress256_length s chunk : length s = 8%nat -> length (fips180_2.compress256 s chunk) = 8%nat.
Proof.
  intros Hs. unfold fips180_2.compress256. rewrite K256_spec.
  by apply (sha2_compress_length 32 sha256.Sigma0 sha256.Sigma1 sha256.sigma0 sha256.sigma1 common.ReadBE32 K256 4 sha256.rows 62
    rows256_first eq_refl rows256_last).
Qed.

Lemma compress512_length s chunk : length s = 8%nat -> length (fips180_2.compress512 s chunk) = 8%nat.
Proof.
  intros Hs. unfold fips180_2.compress512. rewrite K512_spec.
  by apply (sha2_compress_length 64 sha512.Sigma0 sha512.Sigma1 sha512.sigma0 sha512.sigma1 common.ReadBE64 K512 8 sha512.rows 78
    rows512_first eq_refl rows512_last).
Qed.

Lemma H0_spec : fips180_2.H0 32 = sha256.Initialize /\ fips180_2.H0 64 = sha512.Initialize.
Proof. vm_compute. split; reflexivity. Qed.

(** *** The hashers *)

Lemma bulk256_spec s d c :
  in_range 64 c -> CSHA256_bulk s d c
  = (fold_blocks (fun s buf => sha256.Transform s buf 1) 64 (full 64 d) s d, drop (full 64 d * 64) d,
     u64 (c + Z.of_nat (full 64 d * 64))).
Proof.
  intros Hc. unfold CSHA256_bulk. fold (full 64 d).
  assert (forall k s d, fold_blocks (fun s buf => sha256.Transform s buf 1) 64 k s d = sha256.Transform s d k) as Hk.
  { intros k. induction k as [|k IH]; intros s' d'; [done|]. cbn [fold_blocks]. rewrite IH.
    unfold sha256.Transform. cbn [fold_blocks]. by rewrite take_take. }
  rewrite Hk. destruct (Nat.leb_spec 64 (length d)) as [|Hlt].
  - f_equal; [f_equal; f_equal; lia|]. f_equal. lia.
  - rewrite (full_short 64 d) by done. cbn [Nat.mul Z.of_nat]. rewrite drop_0, Z.add_0_r. by rewrite wrap_small.
Qed.

Lemma bulk512_spec s d c :
  in_range 64 c -> CSHA512_bulk s d c
  = (fold_blocks sha512.Transform 128 (full 128 d) s d, drop (full 128 d * 128) d, u64 (c + Z.of_nat (full 128 d * 128))).
Proof. intros Hc. by apply hasher_facts.bulk_loop_spec; [lia| |]. Qed.

Lemma SHA256_correct buf chunks :
  length buf = 64%nat ->
  CSHA256_Finalize (foldl CSHA256_Write (make_CSHA256 buf) chunks) = fips180_2.SHA256 (concat chunks).
Proof.
  intros Hb. unfold CSHA256_Finalize, fips180_2.SHA256. do 2 f_equal. rewrite (proj1 H0_spec).
  rewrite <- (hasher_facts.merkle_damgard_ext (fun s buf => sha256.Transform s buf 1) fips180_2.compress256
    (fun s => length s = 8%nat)); [| |done].
  - apply (hasher_facts.hasher_correct _ sha256.Initialize 64 CSHA256_bulk common.WriteBE64 8); [lia|done|apply bulk256_spec|done].
  - intros s b Hs. unfold sha256.Transform. cbn [fold_blocks]. rewrite take_take, Nat.min_id.
    split; [by apply Transform256_spec|by apply compress256_length].
Qed.

Lemma SHA512_correct buf chunks :
  length buf = 128%nat ->
  CSHA512_Finalize (foldl CSHA512_Write (make_CSHA512 buf) chunks) = fips180_2.SHA512 (concat chunks).
Proof.
  intros Hb. unfold CSHA512_Finalize, fips180_2.SHA512. do 2 f_equal. rewrite (proj2 H0_spec).
  rewrite <- (hasher_facts.merkle_damgard_ext sha512.Transform fips180_2.compress512 (fun s => length s = 8%nat)); [| |done].
  - apply (hasher_facts.hasher_correct _ sha512.Initialize 128 CSHA512_bulk sizedesc16 16); [lia|done|apply bulk512_spec|done].
  - intros s b Hs. split; [by apply Transform512_spec|by apply compress512_length].
Qed.
End sha2_facts.

(** *** Examples *)

Example sha256_selftest : sha256.SelfTest sha256.Transform = true.
Proof. vm_compute. reflexivity. Qed.

Example sha512_abc :
  CSHA512_Finalize (CSHA512_Write (make_CSHA512 (replicate 128 0)) [97; 98; 99])
  = reverse (le_digits 8 64 0xddaf35a193617abacc417349ae20413112e6fa4e89a97ea20a9eeee64b55d39a2192992a274fc1a836ba3c23a3feebbd454d4423643ce80e2a9ac94fa54ca49f).
Proof. vm_compute. reflexivity. Qed.

