(* ===== verification/SipHash.v ===== *)
(** * SipHash-2-4 and MurmurHash3 ([hash.h], [hash.cpp])

    [CSipHasher] and the two specialised functions for [uint256], against
    SipHash-2-4 on the whole message.  The count of bytes is an [int]; the
    facts are for messages shorter than 2^31 bytes, past which its increment
    is not defined. *)

From S2P Require Import Prelude Uint256 Blocks.

Definition sip_state : Type := Z * Z * Z * Z.

Section siphash.
#[local] Open Scope words_scope.

Definition ROTL (x b : Z) : Z := Z.lor (low64 (Z.shiftl x b)) (Z.shiftr x (64 - b)).

Definition SIPROUND (v : sip_state) : sip_state :=
  let '(v0, v1, v2, v3) := v in
  let v0 := low64 (v0 + v1) in let v1 := ROTL v1 13 in let v1 := v1 ⊕ v0 in
  let v0 := ROTL v0 32 in
  let v2 := low64 (v2 + v3) in let v3 := ROTL v3 16 in let v3 := v3 ⊕ v2 in
  let v0 := low64 (v0 + v3) in let v3 := ROTL v3 21 in let v3 := v3 ⊕ v0 in
  let v2 := low64 (v2 + v1) in let v1 := ROTL v1 17 in let v1 := v1 ⊕ v2 in
  let v2 := ROTL v2 32 in
  (v0, v1, v2, v3).

(** [v0 ^= d], [v2 ^= d] and [v3 ^= d]. *)
Definition xor0 (d : Z) (v : sip_state) : sip_state := let '(v0, v1, v2, v3) := v in (v0 ⊕ d, v1, v2, v3).
Definition xor2 (d : Z) (v : sip_state) : sip_state := let '(v0, v1, v2, v3) := v in (v0, v1, v2 ⊕ d, v3).
Definition xor3 (d : Z) (v : sip_state) : sip_state := let '(v0, v1, v2, v3) := v in (v0, v1, v2, v3 ⊕ d).
Definition xor_all (v : sip_state) : Z := let '(v0, v1, v2, v3) := v in v0 ⊕ v1 ⊕ v2 ⊕ v3.

Record CSipHasher := { sip_v : sip_state; sip_tmp : Z; sip_count : Z }.

Definition make_CSipHasher (k0 k1 : Z) : CSipHasher := {|
  sip_v := (0x736f6d6570736575 ⊕ k0, 0x646f72616e646f6d ⊕ k1, 0x6c7967656e657261 ⊕ k0, 0x7465646279746573 ⊕ k1);
  sip_tmp := 0; sip_count := 0 |}.

(** [Write(uint64_t)]; [None] is the failed assertion. *)
Definition sip_Write64 (h : CSipHasher) (data : Z) : option CSipHasher :=
  let v := sip_v h in
  if sip_count h mod 8 =? 0 then
    let v := xor3 data v in
    let v := SIPROUND v in
    let v := SIPROUND v in
    let v := xor0 data v in
    Some {| sip_v := v; sip_tmp := sip_tmp h; sip_count := sip_count h + 8 |}
  else None.

(** One turn of the loop of [Write(const unsigned char*, size_t)]. *)
Definition sip_write_byte (st : sip_state * Z * Z) (b : Z) : sip_state * Z * Z :=
  let '(v, t, c) := st in
  let t := Z.lor t (u64 (Z.shiftl b (8 * (c mod 8)))) in
  let c := c + 1 in
  if Z.land c 7 =? 0 then
    let v := xor3 t v in
    let v := SIPROUND v in
    let v := SIPROUND v in
    let v := xor0 t v in
    (v, 0, c)
  else (v, t, c).
Definition sip_Write (h : CSipHasher) (data : bytes) : CSipHasher :=
  let '(v, t, c) := foldl sip_write_byte (sip_v h, sip_tmp h, sip_count h) data in
  {| sip_v := v; sip_tmp := t; sip_count := c |}.

Definition sip_Finalize (h : CSipHasher) : Z :=
  let v := sip_v h in
  let t := Z.lor (sip_tmp h) (u64 (Z.shiftl (u64 (sip_count h)) 56)) in
  let v := xor3 t v in
  let v := SIPROUND v in
  let v := SIPROUND v in
  let v := xor0 t v in
  let v := xor2 0xFF v in
  let v := SIPROUND v in
  let v := SIPROUND v in
  let v := SIPROUND v in
  let v := SIPROUND v in
  xor_all v.

Definition SipHashUint256 (k0 k1 : Z) (val : uint256) : Z :=
  let d := base_blob.GetUint64 val 0 in
  let v := (0x736f6d6570736575 ⊕ k0, 0x646f72616e646f6d ⊕ k1, 0x6c7967656e657261 ⊕ k0, 0x7465646279746573 ⊕ k1 ⊕ d) in
  let v := SIPROUND v in
  let v := SIPROUND v in
  let v := xor0 d v in
  let d := base_blob.GetUint64 val 1 in
  let v := xor3 d v in
  let v := SIPROUND v in
  let v := SIPROUND v in
  let v := xor0 d v in
  let d := base_blob.GetUint64 val 2 in
  let v := xor3 d v in
  let v := SIPROUND v in
  let v := SIPROUND v in
  let v := xor0 d v in
  let d := base_blob.GetUint64 val 3 in
  let v := xor3 d v in
  let v := SIPROUND v in
  let v := SIPROUND v in
  let v := xor0 d v in
  let v := xor3 (u64 (Z.shiftl 4 59)) v in
  let v := SIPROUND v in
  let v := SIPROUND v in
  let v := xor0 (u64 (Z.shiftl 4 59)) v in
  let v := xor2 0xFF v in
  let v := SIPROUND v in
  let v := SIPROUND v in
  let v := SIPROUND v in
  let v := SIPROUND v in
  xor_all v.

Definition SipHashUint256Extra (k0 k1 : Z) (val : uint256) (extra : Z) : Z :=
  let d := base_blob.GetUint64 val 0 in
  let v := (0x736f6d6570736575 ⊕ k0, 0x646f72616e646f6d ⊕ k1, 0x6c7967656e657261 ⊕ k0, 0x7465646279746573 ⊕ k1 ⊕ d) in
  let v := SIPROUND v in
  let v := SIPROUND v in
  let v := xor0 d v in
  let d := base_blob.GetUint64 val 1 in
  let v := xor3 d v in
  let v := SIPROUND v in
  let v := SIPROUND v in
  let v := xor0 d v in
  let d := base_blob.GetUint64 val 2 in
  let v := xor3 d v in
  let v := SIPROUND v in
  let v := SIPROUND v in
  let v := xor0 d v in
  let d := base_blob.GetUint64 val 3 in
  let v := xor3 d v in
  let v := SIPROUND v in
  let v := SIPROUND v in
  let v := xor0 d v in
  let d := Z.lor (u64 (Z.shiftl 36 56)) extra in
  let v := xor3 d v in
  let v := SIPROUND v in
  let v := SIPROUND v in
  let v := xor0 d v in
  let v := xor2 0xFF v in
  let v := SIPROUND v in
  let v := SIPROUND v in
  let v := SIPROUND v in
  let v := SIPROUND v in
  xor_all v.

(** ** MurmurHash3 *)

Definition ROTL32 (x r : Z) : Z := Z.lor (low32 (Z.shiftl x r)) (Z.shiftr x (32 - r)).

Definition c1 : Z := 0xcc9e2d51.
Definition c2 : Z := 0x1b873593.

(** [k1 *= c1; k1 = ROTL32(k1, 15); k1 *= c2]. *)
Definition murmur_mix (k1 : Z) : Z := low32 (ROTL32 (low32 (k1 * c1)) 15 * c2).

(** One turn of the loop over the words. *)
Definition murmur_block (h1 : Z) (block : bytes) : Z :=
  let k1 := murmur_mix (common.ReadLE32 block) in
  let h1 := h1 ⊕ k1 in
  let h1 := ROTL32 h1 13 in
  low32 (h1 * 5 + 0xe6546b64).

(** The cases of the switch fall through. *)
Definition murmur_tail (tail : bytes) (h1 : Z) : Z :=
  match tail with
  | [t0; t1; t2] => h1 ⊕ murmur_mix (Z.shiftl t2 16 ⊕ Z.shiftl t1 8 ⊕ t0)
  | [t0; t1] => h1 ⊕ murmur_mix (Z.shiftl t1 8 ⊕ t0)
  | [t0] => h1 ⊕ murmur_mix t0
  | _ => h1
  end.

Definition murmur_final (h1 size : Z) : Z :=
  let h1 := h1 ⊕ low32 size in
  let h1 := h1 ⊕ Z.shiftr h1 16 in
  let h1 := low32 (h1 * 0x85ebca6b) in
  let h1 := h1 ⊕ Z.shiftr h1 13 in
  let h1 := low32 (h1 * 0xc2b2ae35) in
  h1 ⊕ Z.shiftr h1 16.

Definition MurmurHash3 (nHashSeed : Z) (vDataToHash : bytes) : Z :=
  let nblocks := (length vDataToHash / 4)%nat in
  let h1 := fold_blocks murmur_block 4 nblocks nHashSeed vDataToHash in
  let h1 := murmur_tail (drop (nblocks * 4) vDataToHash) h1 in
  murmur_final h1 (Z.of_nat (length vDataToHash)).

(** ** SipHash-2-4 on the whole message *)

Definition sip_initial (k0 k1 : Z) : sip_state :=
  (k0 ⊕ 0x736f6d6570736575, k1 ⊕ 0x646f72616e646f6d, k0 ⊕ 0x6c7967656e657261, k1 ⊕ 0x7465646279746573).
(** Two rounds for each word of eight bytes, the first one lowest. *)
Definition sip_compress (v : sip_state) (m : Z) : sip_state := xor0 m (Nat.iter 2 SIPROUND (xor3 m v)).
Definition sip_block (v : sip_state) (block : bytes) : sip_state := sip_compress v (le_val 8 block).
(** The last word: the bytes that are left and, highest, the length. *)
Definition sip_last (msg : bytes) : bytes :=
  let rest := remainder 8 msg in
  rest ++ replicate (7 - length rest) 0 ++ [u8 (Z.of_nat (length msg))].
Definition SipHash24 (k0 k1 : Z) (msg : bytes) : Z :=
  let v := absorbed sip_block 8 (sip_initial k0 k1) msg in
  let v := sip_block v (sip_last msg) in
  xor_all (Nat.iter 4 SIPROUND (xor2 0xff v)).
End siphash.

(** ** Facts *)

Module siphash_facts.
Import blocks_facts.

Abbreviation sponge k0 k1 := (absorbed sip_block 8 (sip_initial k0 k1)).

(** The variables of [Write] when [msg] has been written. *)
Definition written (k0 k1 : Z) (msg : bytes) (st : sip_state * Z * Z) : Prop :=
  st = (sponge k0 k1 msg, le_val 8 (remainder 8 msg), Z.of_nat (length msg)).

Lemma bytes_remainder msg : bytes_ok msg -> bytes_ok (remainder 8 msg).
Proof. apply Forall_drop. Qed.

(** Adding a byte on top of the bytes that are there. *)
Lemma lor_byte l b :
  bytes_ok l -> in_range 8 b -> (length l < 8)%nat ->
  Z.lor (le_val 8 l) (u64 (Z.shiftl b (8 * Z.of_nat (length l)))) = le_val 8 (l ++ [b]).
Proof.
  intros Hl Hb Hlen. rewrite le_val_snoc. rewrite wrap_small.
  - rewrite lor_shiftl_add; [lia| |lia]. unfold in_range. by apply le_val_bound.
  - unfold in_range in *. rewrite Z.shiftl_mul_pow2 by lia.
    assert (0 < 2 ^ (8 * Z.of_nat (length l)) <= 2 ^ 56) by (split; [lia|apply Z.pow_le_mono_r; lia]). pow_literals. nia.
Qed.

Lemma mod8 n : Z.of_nat (n mod 8)%nat = Z.of_nat n mod 8.
Proof. apply Nat2Z.inj_mod. Qed.

Lemma write_byte_ok k0 k1 msg st b :
  bytes_ok msg -> in_range 8 b -> written k0 k1 msg st -> written k0 k1 (msg ++ [b]) (sip_write_byte st b).
Proof.
  intros Hm Hb ->. unfold sip_write_byte, written.
  pose proof (length_remainder 8 ltac:(lia) msg) as Hlen. pose proof (Nat.mod_upper_bound (length msg) 8 ltac:(lia)) as Hlt.
  replace (Z.of_nat (length msg) mod 8) with (Z.of_nat (length (remainder 8 msg))) by (rewrite Hlen, Nat2Z.inj_mod; lia).
  rewrite lor_byte by (rewrite ?Hlen; auto using bytes_remainder).
  change 7 with (Z.ones 3). rewrite Z.land_ones by lia. change (2 ^ 3) with 8.
  set (r := remainder 8 msg ++ [b]).
  assert (length r = length (remainder 8 msg) + 1)%nat as Hr by (unfold r; rewrite length_app; cbn; lia).
  replace (Z.of_nat (length (msg ++ [b]))) with (Z.of_nat (length msg) + 1) by (rewrite length_app; cbn; lia).
  rewrite (absorbed_app sip_block 8 ltac:(lia)), (remainder_app 8 ltac:(lia)). fold r.
  destruct (Z.eqb_spec ((Z.of_nat (length msg) + 1) mod 8) 0) as [H0|H0].
  - assert (length r = 8%nat) as H8 by (rewrite Hr, Hlen; pose proof (mod8 (length msg)); dlia).
    rewrite <- (app_nil_r r), absorbed_block, remainder_block, app_nil_r by (done || lia).
    destruct (absorbed_short sip_block 8 (sip_block (sponge k0 k1 msg) r) []) as [-> ->]; [cbn; lia|]. done.
  - assert (length r < 8)%nat as H8 by (rewrite Hr, Hlen; pose proof (mod8 (length msg)); dlia).
    by destruct (absorbed_short sip_block 8 (sponge k0 k1 msg) r H8) as [-> ->].
Qed.

Lemma write_bytes_ok k0 k1 msg d st :
  bytes_ok msg -> bytes_ok d -> written k0 k1 msg st -> written k0 k1 (msg ++ d) (foldl sip_write_byte st d).
Proof.
  intros Hm Hd. revert msg st Hm. induction Hd as [|b d Hb Hd IH]; intros msg st Hm Hw; cbn [foldl]; [by rewrite app_nil_r|].
  rewrite (cons_middle b msg d), app_assoc. apply IH; [|by apply write_byte_ok].
  apply Forall_app; auto.
Qed.

Definition hashed k0 k1 (msg : bytes) (h : CSipHasher) : Prop := written k0 k1 msg (sip_v h, sip_tmp h, sip_count h).

Lemma sip_Write_ok k0 k1 msg d h :
  bytes_ok msg -> bytes_ok d -> hashed k0 k1 msg h -> hashed k0 k1 (msg ++ d) (sip_Write h d).
Proof.
  intros Hm Hd Hh. unfold sip_Write. pose proof (write_bytes_ok k0 k1 msg d _ Hm Hd Hh) as Hw.
  destruct (foldl _ _ _) as [[v t] c]. exact Hw.
Qed.

Lemma sip_Writes_ok k0 k1 chunks : forall msg h,
  bytes_ok msg -> Forall bytes_ok chunks -> hashed k0 k1 msg h ->
  hashed k0 k1 (msg ++ concat chunks) (foldl sip_Write h chunks).
Proof.
  induction chunks as [|d chunks IH]; intros msg h Hm Hc Hh; cbn [foldl concat]; [by rewrite app_nil_r|].
  inversion Hc as [|? ? Hd Hc']; subst. rewrite app_assoc. apply IH; [by apply Forall_app|done|by apply sip_Write_ok].
Qed.

Lemma sip_make_hashed k0 k1 : hashed k0 k1 [] (make_CSipHasher k0 k1).
Proof.
  unfold hashed, written, make_CSipHasher. cbn [sip_v sip_tmp sip_count].
  destruct (absorbed_short sip_block 8 (sip_initial k0 k1) []) as [-> ->]; [cbn; lia|].
  unfold sip_initial. repeat (f_equal; try apply Z.lxor_comm).
Qed.

(** The word of [Finalize]: the bytes that are left under the length. *)
Lemma last_word msg :
  bytes_ok msg ->
  Z.lor (le_val 8 (remainder 8 msg)) (u64 (Z.shiftl (u64 (Z.of_nat (length msg))) 56)) = le_val 8 (sip_last msg).
Proof.
  intros Hm. pose proof (remainder_short 8 ltac:(lia) msg) as Hlt.
  pose proof (le_val_bound 8 (remainder 8 msg) ltac:(lia) (bytes_remainder msg Hm)) as Hb.
  unfold sip_last. cbn zeta. set (r := remainder 8 msg) in *.
  assert (u64 (Z.shiftl (u64 (Z.of_nat (length msg))) 56) = Z.shiftl (u8 (Z.of_nat (length msg))) 56) as ->.
  { rewrite !Z.shiftl_mul_pow2, wrap_mul_l by lia. unfold wrap. change (2 ^ 64) with (2 ^ 8 * 2 ^ 56).
    by rewrite Z.mul_mod_distr_r by lia. }
  assert (2 ^ (8 * Z.of_nat (length r)) <= 2 ^ 56) by (apply Z.pow_le_mono_r; lia).
  rewrite lor_shiftl_add; [|unfold in_range; lia|lia].
  rewrite app_assoc, le_val_snoc, length_app, length_replicate.
  replace (Z.of_nat (length r + (7 - length r))) with 7 by lia. change (8 * 7) with 56.
  rewrite le_val_app by lia.
  assert (forall n, le_val 8 (replicate n 0) = 0) as -> by (induction n as [|n IH]; cbn [replicate le_val]; lia). lia.
Qed.

Lemma sip_Finalize_ok k0 k1 msg h : bytes_ok msg -> hashed k0 k1 msg h -> sip_Finalize h = SipHash24 k0 k1 msg.
Proof.
  intros Hm Hh. injection Hh as Hv Ht Hc. unfold sip_Finalize. rewrite Hv, Ht, Hc, last_word by done. done.
Qed.

(** A whole word at once. *)
Lemma Write64_ok k0 k1 msg h d :
  bytes_ok msg -> in_range 64 d -> hashed k0 k1 msg h ->
  match sip_Write64 h d with
  | Some h' => (length msg mod 8 = 0)%nat /\ hashed k0 k1 (msg ++ common.WriteLE64 d) h'
  | None => (length msg mod 8 <> 0)%nat
  end.
Proof.
  intros Hm Hd Hh. injection Hh as Hv Ht Hc. unfold sip_Write64. rewrite Hc.
  destruct (Z.eqb_spec (Z.of_nat (length msg) mod 8) 0) as [H0|H0]; [|pose proof (mod8 (length msg)); lia].
  assert (length msg mod 8 = 0)%nat as Hm0 by (pose proof (mod8 (length msg)); lia). split; [done|].
  assert (remainder 8 msg = []) as Hnil by (apply nil_length_inv; by rewrite length_remainder by lia).
  unfold hashed, written. cbn [sip_v sip_tmp sip_count]. rewrite Hv, Ht.
  rewrite (absorbed_app sip_block 8 ltac:(lia)), (remainder_app 8 ltac:(lia)), Hnil. cbn [app].
  assert (length (common.WriteLE64 d) = 8%nat) as H8 by apply length_le_digits.
  rewrite <- (app_nil_r (common.WriteLE64 d)) at 1 2. rewrite absorbed_block, remainder_block by (done || lia).
  destruct (absorbed_short sip_block 8 (sip_block (sponge k0 k1 msg) (common.WriteLE64 d)) []) as [-> ->]; [cbn; lia|].
  assert (forall v, sip_block v (common.WriteLE64 d) = sip_compress v d) as ->.
  { intros v. unfold sip_block, common.WriteLE64. rewrite le_val_digits by lia.
    change (2 ^ (8 * Z.of_nat 8)) with (2 ^ 64). by rewrite Z.mod_small. }
  rewrite length_app, H8. repeat f_equal. lia.
Qed.

#[local] Opaque SIPROUND.

(** The words of a [uint256]. *)
Lemma absorbed_uint256 v (val rest : bytes) :
  length val = 32%nat -> (length rest < 8)%nat ->
  absorbed sip_block 8 v (val ++ rest)
  = sip_compress (sip_compress (sip_compress (sip_compress v (base_blob.GetUint64 val 0)) (base_blob.GetUint64 val 1))
      (base_blob.GetUint64 val 2)) (base_blob.GetUint64 val 3)
  /\ remainder 8 (val ++ rest) = rest.
Proof.
  intros Hv Hr. assert (full 8 (val ++ rest) = 4%nat) as Hf.
  { unfold full. rewrite length_app, Hv. symmetry. apply (Nat.div_unique _ _ _ (length rest)); lia. }
  unfold absorbed, remainder. rewrite Hf. split; [|by apply drop_app_length'].
  unfold base_blob.GetUint64. cbn [fold_blocks Nat.mul Nat.add]. rewrite !drop_drop. cbn [Nat.add].
  unfold sip_block. rewrite !drop_app_le, !take_app_le by (rewrite ?length_drop; lia). done.
Qed.

Lemma Uint256_ok k0 k1 val : length val = 32%nat -> SipHashUint256 k0 k1 val = SipHash24 k0 k1 val.
Proof.
  intros Hv. unfold SipHash24, sip_last.
  destruct (absorbed_uint256 (sip_initial k0 k1) val [] Hv ltac:(cbn; lia)) as [Ha Hr]. rewrite app_nil_r in Ha, Hr.
  rewrite Ha, Hr, Hv. unfold sip_initial.
  rewrite (Z.lxor_comm k0 0x736f6d6570736575), (Z.lxor_comm k1 0x646f72616e646f6d), (Z.lxor_comm k0 0x6c7967656e657261),
    (Z.lxor_comm k1 0x7465646279746573).
  change (le_val 8 (let rest := [] in rest ++ replicate (7 - length rest) 0 ++ [u8 (Z.of_nat 32)])) with (u64 (Z.shiftl 4 59)).
  unfold SipHashUint256, sip_block, sip_compress. generalize SIPROUND as R. intros R. reflexivity.
Qed.

Lemma Uint256Extra_ok k0 k1 val extra :
  length val = 32%nat -> in_range 32 extra ->
  SipHashUint256Extra k0 k1 val extra = SipHash24 k0 k1 (val ++ common.WriteLE32 extra).
Proof.
  intros Hv He. unfold SipHash24, sip_last.
  assert (length (common.WriteLE32 extra) = 4%nat) as H4 by apply length_le_digits.
  destruct (absorbed_uint256 (sip_initial k0 k1) val (common.WriteLE32 extra) Hv ltac:(lia)) as [Ha Hr].
  rewrite Ha, Hr, length_app, Hv, H4. unfold sip_initial.
  rewrite (Z.lxor_comm k0 0x736f6d6570736575), (Z.lxor_comm k1 0x646f72616e646f6d), (Z.lxor_comm k0 0x6c7967656e657261),
    (Z.lxor_comm k1 0x7465646279746573).
  assert (le_val 8 (common.WriteLE32 extra ++ replicate (7 - 4) 0 ++ [u8 (Z.of_nat (32 + 4))])
    = Z.lor (u64 (Z.shiftl 36 56)) extra) as Hl.
  { rewrite le_val_app, H4 by lia. unfold common.WriteLE32. rewrite le_val_digits by lia.
    change (2 ^ (8 * Z.of_nat 4)) with (2 ^ 32). rewrite Z.mod_small by done.
    change (u64 (Z.shiftl 36 56)) with (Z.shiftl 36 56). rewrite Z.lor_comm, lor_shiftl_add; [|unfold in_range in *; pow_literals; lia|lia].
    cbn [le_val replicate app Nat.sub]. change (u8 (Z.of_nat (32 + 4))) with 36. lia. }
  cbn zeta. unfold SipHashUint256Extra, sip_block, sip_compress. rewrite Hl.
  generalize SIPROUND as R. intros R. reflexivity.
Qed.
End siphash_facts.

(** *** Examples: the vectors of test/hash_tests.cpp *)

Example murmur_vectors :
  map (fun n => MurmurHash3 0 (take n [0x00; 0x11; 0x22; 0x33; 0x44; 0x55; 0x66; 0x77; 0x88])) (seq 0 10)
  = [0; 0x514e28b7; 0x16c6b7ab; 0x8eb51c3d; 0xb4471bf8; 0xe2301fa8; 0xfc2e4a15; 0xb074502c; 0x8034d2a0; 0xb4698def] /\
  MurmurHash3 0xFBA4C795 [] = 0x6a396f08 /\ MurmurHash3 0xffffffff [] = 0x81f16f39 /\
  MurmurHash3 0xFBA4C795 [0x00] = 0xea3f0b17 /\ MurmurHash3 0 [0xff] = 0xfd6cf10d.
Proof. vm_compute. repeat split. Qed.

(** ** Properties *)

(** for messages of bytes shorter than 2^31, the hasher computes
    SipHash-2-4 however the message is cut; a word written at once counts as
    its eight bytes, and is refused exactly when no whole number of words has
    been written; SipHashUint256 and SipHashUint256Extra are SipHash-2-4 of the
    32 bytes, and of these and the four bytes of the extra word. *)
Theorem SipHash_correct :
  (forall k0 k1 chunks, Forall bytes_ok chunks -> Z.of_nat (length (concat chunks)) < 2 ^ 31 ->
     sip_Finalize (foldl sip_Write (make_CSipHasher k0 k1) chunks) = SipHash24 k0 k1 (concat chunks)) /\
  (forall k0 k1 chunks d, Forall bytes_ok chunks -> Z.of_nat (length (concat chunks)) + 8 < 2 ^ 31 -> in_range 64 d ->
     match sip_Write64 (foldl sip_Write (make_CSipHasher k0 k1) chunks) d with
     | Some h => (length (concat chunks) mod 8 = 0)%nat /\
                 sip_Finalize h = SipHash24 k0 k1 (concat chunks ++ common.WriteLE64 d)
     | None => (length (concat chunks) mod 8 <> 0)%nat
     end) /\
  (forall k0 k1 (val : uint256), length val = 32%nat -> SipHashUint256 k0 k1 val = SipHash24 k0 k1 val) /\
  (forall k0 k1 (val : uint256) extra, length val = 32%nat -> in_range 32 extra ->
     SipHashUint256Extra k0 k1 val extra = SipHash24 k0 k1 (val ++ common.WriteLE32 extra)).
Proof.
  assert (forall chunks, Forall bytes_ok chunks -> bytes_ok (concat chunks)) as Hcat by (intros; by apply Forall_concat).
  split_and!.
  - intros k0 k1 chunks Hc _. apply siphash_facts.sip_Finalize_ok; [auto|].
    apply (siphash_facts.sip_Writes_ok k0 k1 chunks []); [constructor|done|apply siphash_facts.sip_make_hashed].
  - intros k0 k1 chunks d Hc _ Hd.
    assert (siphash_facts.hashed k0 k1 (concat chunks) (foldl sip_Write (make_CSipHasher k0 k1) chunks)) as Hh.
    { apply (siphash_facts.sip_Writes_ok k0 k1 chunks []); [constructor|done|apply siphash_facts.sip_make_hashed]. }
    pose proof (siphash_facts.Write64_ok k0 k1 _ _ d (Hcat _ Hc) Hd Hh) as H.
    destruct (sip_Write64 _ d) as [h|]; [|done]. destruct H as [H0 Hh']. split; [done|].
    apply siphash_facts.sip_Finalize_ok; [|done]. apply Forall_app. split; [auto|]. by apply le_digits_ok.
  - apply siphash_facts.Uint256_ok.
  - apply siphash_facts.Uint256Extra_ok.
Qed.

(** The key and the messages of [siphash_4_2_testvec] in test/hash_tests.cpp. *)
Lemma SipHash_correct_witness :
  sip_Finalize (foldl sip_Write (make_CSipHasher 0x0706050403020100 0x0F0E0D0C0B0A0908) [[0; 1]; [2; 3; 4; 5; 6; 7; 8]])
  = SipHash24 0x0706050403020100 0x0F0E0D0C0B0A0908 [0; 1; 2; 3; 4; 5; 6; 7; 8] /\
  SipHash24 0x0706050403020100 0x0F0E0D0C0B0A0908 [0; 1; 2; 3; 4; 5; 6; 7; 8] = 0x9e0082df0ba9e4b0.
Proof.
  split; [|vm_compute; reflexivity].
  exact (proj1 SipHash_correct 0x0706050403020100 0x0F0E0D0C0B0A0908 [[0; 1]; [2; 3; 4; 5; 6; 7; 8]]
    ltac:(decided) ltac:(vm_compute; reflexivity)).
Defined.
