(* ===== verification/Chain.v ===== *)
(** * The block index and the active chain

    [chain.h], [chain.cpp] and [CChainState::AddToBlockIndex] of
    [validation.cpp].  The [CBlockIndex] objects live in a heap [index_map]
    from pointers to records, because they point to each other ([pprev],
    [pskip]) and because [CChain] and the caches compare pointers.  An
    operation that dereferences a dangling pointer or fails an assertion
    returns [None]; [nullptr] is [None] of [option ptr]. *)

From S2P Require Import Prelude ArithUint256 Uint256.
Import base_uint arith_uint256.

Abbreviation ptr := positive.

(** ** [CBlockHeader] ([primitives/block.h]) *)

Record CBlockHeader := {
  hdr_nVersion : Z;
  hdr_hashPrevBlock : uint256;
  hdr_hashMerkleRoot : uint256;
  hdr_nTime : Z;
  hdr_nBits : Z;
  hdr_nNonce : uint256;
  hdr_nSolution : bytes;
}.

(** ** [CBlockIndex] *)

Record CBlockIndex := {
  phashBlock : uint256;
  pprev : option ptr;
  pskip : option ptr;
  nHeight : Z;
  nFile : Z;
  nDataPos : Z;
  nUndoPos : Z;
  nChainWork : list Z;
  nTx : Z;
  nChainTx : Z;
  nStatus : Z;
  nVersion : Z;
  hashMerkleRoot : uint256;
  nTime : Z;
  nBits : Z;
  nNonce : uint256;
  nSolution : bytes;
  nSequenceId : Z;
  nTimeMax : Z;
}.

Abbreviation index_map := (gmap ptr CBlockIndex).

(** [enum BlockStatus]. *)
Definition BLOCK_VALID_HEADER := 1.
Definition BLOCK_VALID_TREE := 2.
Definition BLOCK_VALID_TRANSACTIONS := 3.
Definition BLOCK_VALID_CHAIN := 4.
Definition BLOCK_VALID_SCRIPTS := 5.
Definition BLOCK_VALID_MASK :=
  Z.lor BLOCK_VALID_HEADER (Z.lor BLOCK_VALID_TREE (Z.lor BLOCK_VALID_TRANSACTIONS
    (Z.lor BLOCK_VALID_CHAIN BLOCK_VALID_SCRIPTS))).
Definition BLOCK_HAVE_DATA := 8.
Definition BLOCK_HAVE_UNDO := 16.
Definition BLOCK_FAILED_VALID := 32.
Definition BLOCK_FAILED_CHILD := 64.
Definition BLOCK_FAILED_MASK := Z.lor BLOCK_FAILED_VALID BLOCK_FAILED_CHILD.

(** [CBlockIndex(const CBlockHeader&)]: [SetNull], then the header's fields.
    The hash pointer is set by the caller. *)
Definition CBlockIndex_of_header (hash : uint256) (block : CBlockHeader) : CBlockIndex := {|
  phashBlock := hash; pprev := None; pskip := None; nHeight := 0; nFile := 0;
  nDataPos := 0; nUndoPos := 0; nChainWork := zero W; nTx := 0; nChainTx := 0;
  nStatus := 0; nVersion := hdr_nVersion block;
  hashMerkleRoot := hdr_hashMerkleRoot block; nTime := hdr_nTime block;
  nBits := hdr_nBits block; nNonce := hdr_nNonce block;
  nSolution := hdr_nSolution block; nSequenceId := 0; nTimeMax := 0;
|}.

Definition GetBlockTime (b : CBlockIndex) : Z := nTime b.
Definition GetBlockTimeMax (b : CBlockIndex) : Z := nTimeMax b.

Definition GetBlockHeader (m : index_map) (b : CBlockIndex) : option CBlockHeader :=
  hashPrev ← match pprev b with
             | Some q => phashBlock <$> m !! q
             | None => Some uint256_null
             end;
  Some {| hdr_nVersion := nVersion b; hdr_hashPrevBlock := hashPrev;
          hdr_hashMerkleRoot := hashMerkleRoot b; hdr_nTime := nTime b;
          hdr_nBits := nBits b; hdr_nNonce := nNonce b; hdr_nSolution := nSolution b |}.

(** [IsValid] and [RaiseValidity]; [None] is the failed assertion. *)
Definition IsValid (b : CBlockIndex) (nUpTo : Z) : option bool :=
  if negb (Z.land nUpTo (Z.lnot BLOCK_VALID_MASK) =? 0) then None
  else if negb (Z.land (nStatus b) BLOCK_FAILED_MASK =? 0) then Some false
  else Some (nUpTo <=? Z.land (nStatus b) BLOCK_VALID_MASK).

Definition set_nStatus (s : Z) (b : CBlockIndex) : CBlockIndex := {|
  phashBlock := phashBlock b; pprev := pprev b; pskip := pskip b; nHeight := nHeight b;
  nFile := nFile b; nDataPos := nDataPos b; nUndoPos := nUndoPos b;
  nChainWork := nChainWork b; nTx := nTx b; nChainTx := nChainTx b; nStatus := s;
  nVersion := nVersion b; hashMerkleRoot := hashMerkleRoot b; nTime := nTime b;
  nBits := nBits b; nNonce := nNonce b; nSolution := nSolution b;
  nSequenceId := nSequenceId b; nTimeMax := nTimeMax b |}.

Definition RaiseValidity (b : CBlockIndex) (nUpTo : Z) : option (CBlockIndex * bool) :=
  if negb (Z.land nUpTo (Z.lnot BLOCK_VALID_MASK) =? 0) then None
  else if negb (Z.land (nStatus b) BLOCK_FAILED_MASK =? 0) then Some (b, false)
  else if Z.land (nStatus b) BLOCK_VALID_MASK <? nUpTo
  then Some (set_nStatus (Z.lor (Z.land (nStatus b) (Z.lnot BLOCK_VALID_MASK)) nUpTo) b, true)
  else Some (b, false).

(** [GetMedianTimePast]: the times of up to [nMedianTimeSpan] blocks. *)
Definition nMedianTimeSpan : nat := 11.

Fixpoint past_times (m : index_map) (n : nat) (pindex : option ptr) : option (list Z) :=
  match n, pindex with
  | S n, Some p =>
      b ← m !! p; rest ← past_times m n (pprev b);
      Some (GetBlockTime b :: rest)
  | _, _ => Some []
  end.

Definition GetMedianTimePast (m : index_map) (p : ptr) : option Z :=
  times ← past_times m nMedianTimeSpan (Some p);
  merge_sort Z.le times !! Nat.div2 (length times).

(** ** The skip list *)

Definition InvertLowestOne (n : Z) : Z := Z.land n (n - 1).

Definition GetSkipHeight (height : Z) : Z :=
  if height <? 2 then 0
  else if negb (Z.land height 1 =? 0)
  then InvertLowestOne (InvertLowestOne (height - 1)) + 1
  else InvertLowestOne height.

(** The loop of [GetAncestor].  Each turn lowers [heightWalk], so
    [heightWalk - height] turns are enough. *)
Fixpoint GetAncestor_loop (m : index_map) (fuel : nat)
    (pindexWalk : ptr) (heightWalk height : Z) : option ptr :=
  if heightWalk >? height then
    match fuel with
    | O => None
    | S fuel =>
        b ← m !! pindexWalk;
        let heightSkip := GetSkipHeight heightWalk in
        let heightSkipPrev := GetSkipHeight (heightWalk - 1) in
        let use_skip :=
          (heightSkip =? height) ||
          ((heightSkip >? height) && negb ((heightSkipPrev <? heightSkip - 2)
                                           && (heightSkipPrev >=? height))) in
        match pskip b with
        | Some s =>
            if use_skip then GetAncestor_loop m fuel s heightSkip height
            else q ← pprev b; GetAncestor_loop m fuel q (heightWalk - 1) height
        | None => q ← pprev b; GetAncestor_loop m fuel q (heightWalk - 1) height
        end
    end
  else Some pindexWalk.

Definition GetAncestor (m : index_map) (p : ptr) (height : Z) : option (option ptr) :=
  b ← m !! p;
  if (height >? nHeight b) || (height <? 0) then Some None
  else Some <$> GetAncestor_loop m (Z.to_nat (nHeight b - height)) p (nHeight b) height.

(** [BuildSkip]: the new value of [pskip]. *)
Definition BuildSkip (m : index_map) (b : CBlockIndex) : option (option ptr) :=
  match pprev b with
  | Some q => GetAncestor m q (GetSkipHeight (nHeight b))
  | None => Some (pskip b)
  end.

(** ** Work *)

(** [GetBlockProof]; the division cannot throw, so an error is [None]. *)
Definition GetBlockProof (block_nBits : Z) : option (list Z) :=
  let '(bnTarget, fNegative, fOverflow) := SetCompact block_nBits in
  if fNegative || fOverflow || EqualTo bnTarget 0 then Some (of_u64 W 0)
  else match div W (not_ bnTarget) (add_u64 W bnTarget 1) with
       | inr q => Some (add_u64 W q 1)
       | inl _ => None
       end.

(** [GetBlockProofEquivalentTime]: the sign is applied in 64-bit unsigned
    arithmetic and converted to [int64_t]. *)
Definition GetBlockProofEquivalentTime (to from tip : CBlockIndex) (nPowTargetSpacing : Z) : option Z :=
  let '(r, sign) :=
    if gtb W (nChainWork to) (nChainWork from)
    then (sub (nChainWork to) (nChainWork from), 1)
    else (sub (nChainWork from) (nChainWork to), -1) in
  proof ← GetBlockProof (nBits tip);
  match div W (mul W r (of_u64 W (u64 nPowTargetSpacing))) proof with
  | inl _ => None
  | inr r => if bits W r >? 63 then Some (sign * (2 ^ 63 - 1))
             else Some (i64 (u64 sign * GetLow64 r))
  end.

(** [LastCommonAncestor].  [None] is the final assertion or a null argument
    after [GetAncestor]; the loop descends both branches together. *)
Fixpoint common_loop (m : index_map) (fuel : nat) (pa pb : option ptr) : option (option ptr) :=
  if decide (pa = pb) then Some pa
  else match pa, pb with
       | Some a, Some b =>
           match fuel with
           | O => None
           | S fuel => ba ← m !! a; bb ← m !! b; common_loop m fuel (pprev ba) (pprev bb)
           end
       | _, _ => None
       end.

Definition LastCommonAncestor (m : index_map) (pa pb : ptr) : option (option ptr) :=
  ba ← m !! pa; bb ← m !! pb;
  qa ← (if nHeight ba >? nHeight bb then GetAncestor m pa (nHeight bb) else Some (Some pa));
  qb ← (if nHeight ba >? nHeight bb then Some (Some pb)
        else if nHeight bb >? nHeight ba then GetAncestor m pb (nHeight ba) else Some (Some pb));
  common_loop m (S (Z.to_nat (Z.min (nHeight ba) (nHeight bb)))) qa qb.

(** ** [CChain] *)

Abbreviation CChain := (list (option ptr)).

Definition Genesis (c : CChain) : option ptr := default None (c !! 0%nat).
Definition Tip (c : CChain) : option ptr := default None (last c).
Definition chain_at (c : CChain) (h : Z) : option ptr :=
  if (h <? 0) || (h >=? Z.of_nat (length c)) then None else default None (c !! Z.to_nat h).
Definition Height (c : CChain) : Z := Z.of_nat (length c) - 1.

Definition Contains (m : index_map) (c : CChain) (p : ptr) : option bool :=
  b ← m !! p; Some (bool_decide (chain_at c (nHeight b) = Some p)).

Definition Next (m : index_map) (c : CChain) (p : ptr) : option (option ptr) :=
  b ← m !! p; inside ← Contains m c p;
  Some (if (inside : bool) then chain_at c (nHeight b + 1) else None).

(** [vChain.resize(n)]: truncate, or pad with [nullptr]. *)
Definition resize_chain (n : nat) (c : CChain) : CChain := resize n None c.

Fixpoint SetTip_loop (m : index_map) (fuel : nat) (c : CChain) (pindex : option ptr) : option CChain :=
  match pindex with
  | None => Some c
  | Some p =>
      b ← m !! p;
      if decide (chain_at c (nHeight b) = Some p) then Some c
      else match fuel with
           | O => None
           | S fuel => SetTip_loop m fuel (<[Z.to_nat (nHeight b) := Some p]> c) (pprev b)
           end
  end.

Definition SetTip (m : index_map) (c : CChain) (pindex : option ptr) : option CChain :=
  match pindex with
  | None => Some []
  | Some p =>
      b ← m !! p;
      SetTip_loop m (Z.to_nat (nHeight b + 1)) (resize_chain (Z.to_nat (nHeight b + 1)) c) (Some p)
  end.

(** [FindFork]: the loop goes down [pprev] until a block of the chain. *)
Fixpoint FindFork_loop (m : index_map) (c : CChain) (fuel : nat) (pindex : option ptr) : option (option ptr) :=
  match pindex with
  | None => Some None
  | Some p =>
      inside ← Contains m c p;
      if (inside : bool) then Some (Some p)
      else match fuel with
           | O => None
           | S fuel => b ← m !! p; FindFork_loop m c fuel (pprev b)
           end
  end.

Definition FindFork (m : index_map) (c : CChain) (pindex : option ptr) : option (option ptr) :=
  match pindex with
  | None => Some None
  | Some p =>
      b ← m !! p;
      q ← (if nHeight b >? Height c then GetAncestor m p (Height c) else Some (Some p));
      FindFork_loop m c (Z.to_nat (nHeight b + 1)) q
  end.

(** [GetLocator]: every block after the first ten doubles the step. *)
Fixpoint GetLocator_loop (m : index_map) (c : CChain) (fuel : nat)
    (nStep : Z) (nHave : Z) (pindex : option ptr) : option (list uint256) :=
  match pindex with
  | None => Some []
  | Some p =>
      b ← m !! p;
      if nHeight b =? 0 then Some [phashBlock b]
      else match fuel with
           | O => None
           | S fuel =>
               let h := Z.max (nHeight b - nStep) 0 in
               inside ← Contains m c p;
               next ← (if (inside : bool) then Some (chain_at c h) else GetAncestor m p h);
               let nHave := nHave + 1 in
               rest ← GetLocator_loop m c fuel (if nHave >? 10 then nStep * 2 else nStep) nHave next;
               Some (phashBlock b :: rest)
           end
  end.

Definition GetLocator (m : index_map) (c : CChain) (pindex : option ptr) : option (list uint256) :=
  let pindex := match pindex with Some p => Some p | None => Tip c end in
  let fuel := match pindex with
              | Some p => match m !! p with Some b => Z.to_nat (nHeight b) | None => O end
              | None => O end in
  GetLocator_loop m c fuel 1 0 pindex.

(** [FindEarliestAtLeast]: [std::lower_bound] on a sorted range returns the
    first element that does not compare less. *)
Fixpoint FindEarliestAtLeast (m : index_map) (c : CChain) (t : Z) : option (option ptr) :=
  match c with
  | [] => Some None
  | None :: _ => None
  | Some p :: c =>
      b ← m !! p;
      if GetBlockTimeMax b <? t then FindEarliestAtLeast m c t else Some (Some p)
  end.

(** ** [CChainState::AddToBlockIndex] ([validation.cpp])

    The block tree: the heap, the map from hashes to pointers, the best
    header and the set of dirty entries. *)

Record BlockTree := {
  heap : index_map;
  mapBlockIndex : gmap uint256 ptr;
  pindexBestHeader : option ptr;
  setDirtyBlockIndex : gset ptr;
}.

Definition set_links (q : option ptr) (h : Z) (s : option ptr) (b : CBlockIndex) : CBlockIndex := {|
  phashBlock := phashBlock b; pprev := q; pskip := s; nHeight := h;
  nFile := nFile b; nDataPos := nDataPos b; nUndoPos := nUndoPos b;
  nChainWork := nChainWork b; nTx := nTx b; nChainTx := nChainTx b; nStatus := nStatus b;
  nVersion := nVersion b; hashMerkleRoot := hashMerkleRoot b; nTime := nTime b;
  nBits := nBits b; nNonce := nNonce b; nSolution := nSolution b;
  nSequenceId := nSequenceId b; nTimeMax := nTimeMax b |}.

Definition set_totals (tmax : Z) (work : list Z) (b : CBlockIndex) : CBlockIndex := {|
  phashBlock := phashBlock b; pprev := pprev b; pskip := pskip b; nHeight := nHeight b;
  nFile := nFile b; nDataPos := nDataPos b; nUndoPos := nUndoPos b;
  nChainWork := work; nTx := nTx b; nChainTx := nChainTx b; nStatus := nStatus b;
  nVersion := nVersion b; hashMerkleRoot := hashMerkleRoot b; nTime := nTime b;
  nBits := nBits b; nNonce := nNonce b; nSolution := nSolution b;
  nSequenceId := nSequenceId b; nTimeMax := tmax |}.

Section AddToBlockIndex.
(** [CBlockHeader::GetHash]: the hash of the serialised header. *)
Context (GetHash : CBlockHeader -> uint256).

(** The links of the new entry [p]: [pprev], [nHeight] and [BuildSkip]. *)
Definition link_new (hp : index_map) (p : ptr) (b : CBlockIndex) (prev : option ptr) : option CBlockIndex :=
  match prev with
  | Some q =>
      c ← <[p := b]> hp !! q;
      let b := set_links (Some q) (nHeight c + 1) (pskip b) b in
      skip ← BuildSkip (<[p := b]> hp) b;
      Some (set_links (Some q) (nHeight b) skip b)
  | None => Some b
  end.

Definition AddToBlockIndex (st : BlockTree) (block : CBlockHeader) : option (BlockTree * ptr) :=
  let hash := GetHash block in
  match mapBlockIndex st !! hash with
  | Some p => Some (st, p)
  | None =>
      let p := fresh (dom (heap st)) in
      let map := <[hash := p]> (mapBlockIndex st) in
      let b := CBlockIndex_of_header hash block in
      b ← link_new (heap st) p b (map !! hdr_hashPrevBlock block);
      parent_totals ← match pprev b with
                      | Some q => c ← <[p := b]> (heap st) !! q; Some (nTimeMax c, nChainWork c)
                      | None => Some (nTime b, of_u64 W 0)
                      end;
      let '(pTimeMax, pWork) := parent_totals in
      proof ← GetBlockProof (nBits b);
      let b := set_totals (Z.max pTimeMax (nTime b)) (add pWork proof) b in
      raised ← RaiseValidity b BLOCK_VALID_TREE;
      let hp := <[p := raised.1]> (heap st) in
      best ← match pindexBestHeader st with
             | None => Some (Some p)
             | Some h => c ← hp !! h;
                 Some (if ltb W (nChainWork c) (nChainWork b) then Some p else Some h)
             end;
      Some ({| heap := hp; mapBlockIndex := map; pindexBestHeader := best;
               setDirtyBlockIndex := {[p]} ∪ setDirtyBlockIndex st |}, p)
  end.
End AddToBlockIndex.

(** [FindForkInGlobalIndex]: the first locator entry in the active chain. *)
Fixpoint FindForkInGlobalIndex (st : BlockTree) (c : CChain) (vHave : list uint256) : option (option ptr) :=
  match vHave with
  | [] => Some (Genesis c)
  | hash :: vHave =>
      match mapBlockIndex st !! hash with
      | None => FindForkInGlobalIndex st c vHave
      | Some p =>
          inside ← Contains (heap st) c p;
          if (inside : bool) then Some (Some p)
          else a ← GetAncestor (heap st) p (Height c);
               if decide (a = Tip c) then Some (Tip c) else FindForkInGlobalIndex st c vHave
      end
  end.

(** ** The well-formed block index

    [parent] is the [pprev] relation; [ancestor m p h r] says that the block
    [r] of height [h] is reached from [p] by [pprev] steps, which is the
    specification of every search below. *)

Definition parent (m : index_map) (p q : ptr) : Prop :=
  exists b, m !! p = Some b /\ pprev b = Some q.

Definition height (m : index_map) (p : ptr) : option Z := nHeight <$> m !! p.

Definition ancestor (m : index_map) (p : ptr) (h : Z) (r : ptr) : Prop :=
  rtc (parent m) p r /\ height m r = Some h.

Record index_wf (m : index_map) : Prop := {
  wf_height : forall p b, m !! p = Some b -> 0 <= nHeight b;
  wf_genesis : forall p b, m !! p = Some b -> pprev b = None -> nHeight b = 0;
  wf_parent : forall p b q, m !! p = Some b -> pprev b = Some q ->
    exists c, m !! q = Some c /\ nHeight b = nHeight c + 1;
  wf_skip : forall p b s, m !! p = Some b -> pskip b = Some s ->
    0 < nHeight b /\ ancestor m p (GetSkipHeight (nHeight b)) s;
}.

Module chain_facts.

Lemma InvertLowestOne_range n : 0 < n -> 0 <= InvertLowestOne n < n.
Proof.
intros Hn. unfold InvertLowestOne. rewrite Z.land_comm.
pose proof (land_le_l (n - 1) n ltac:(lia)). lia.
Qed.

Lemma GetSkipHeight_range h : 0 < h -> 0 <= GetSkipHeight h < h.
Proof.
intros Hh. unfold GetSkipHeight. destruct (Z.ltb_spec h 2); [lia|].
destruct (Z.land h 1 =? 0); cbn [negb]; [by apply InvertLowestOne_range; lia|].
pose proof (InvertLowestOne_range (h - 1) ltac:(lia)) as H1.
destruct (decide (InvertLowestOne (h - 1) = 0)) as [->|].
- change (InvertLowestOne 0) with 0. lia.
- pose proof (InvertLowestOne_range (InvertLowestOne (h - 1)) ltac:(lia)). lia.
Qed.

Section facts.
Context (m : index_map) (Hwf : index_wf m).
Implicit Types p q r s : ptr.
Implicit Types h : Z.

Lemma parent_det p q1 q2 : parent m p q1 -> parent m p q2 -> q1 = q2.
Proof. intros (b1 & ? & ?) (b2 & ? & ?). congruence. Qed.

Lemma height_lookup p h : height m p = Some h <-> exists b, m !! p = Some b /\ nHeight b = h.
Proof.
unfold height. rewrite fmap_Some. split; intros (b & ? & ?); exists b; by split.
Qed.

Lemma parent_height p q h : parent m p q -> height m p = Some h -> height m q = Some (h - 1).
Proof.
intros (b & Hp & Hq) Hh. apply height_lookup in Hh as (b' & Hp' & <-).
replace b' with b by congruence.
destruct (wf_parent m Hwf p b q Hp Hq) as (c & Hc & He).
apply height_lookup. exists c. split; [done|lia].
Qed.

Lemma rtc_height p r h : rtc (parent m) p r -> height m p = Some h ->
exists h', height m r = Some h' /\ h' <= h /\ (h' = h -> p = r).
Proof.
intros Hr. revert h. induction Hr as [p|p q r Hpq Hqr IH]; intros h Hp.
- exists h. by split.
- pose proof (parent_height p q h Hpq Hp) as Hq.
  destruct (IH (h - 1) Hq) as (h' & ? & ? & _). exists h'. split; [done|]. lia.
Qed.

(** There is at most one ancestor of a given height. *)
Lemma ancestor_unique p h r1 r2 : ancestor m p h r1 -> ancestor m p h r2 -> r1 = r2.
Proof.
intros [Hr1 Hh1]. revert Hh1. induction Hr1 as [p|p q r1 Hpq Hqr IH]; intros Hh1 [Hr2 Hh2].
- destruct (rtc_height p r2 h Hr2 Hh1) as (h' & ? & ? & He). simplify_eq. auto.
- destruct Hr2 as [p|p q' r2 Hpq' Hqr'].
  + exfalso. pose proof (parent_height p q h Hpq Hh2) as Hq.
    destruct (rtc_height q r1 _ Hqr Hq) as (h' & ? & ? & _). simplify_eq. lia.
  + rewrite (parent_det p q q' Hpq Hpq') in *. apply IH; [done|by split].
Qed.

Lemma ancestor_trans p h q h' r : ancestor m p h q -> ancestor m q h' r -> ancestor m p h' r.
Proof. intros [H1 _] [H2 H3]. split; [by etrans|done]. Qed.

Lemma ancestor_self p b : m !! p = Some b -> ancestor m p (nHeight b) p.
Proof. intros Hp. split; [done|]. unfold height. by rewrite Hp. Qed.

Lemma ancestor_range p b h r : m !! p = Some b -> ancestor m p h r -> 0 <= h <= nHeight b.
Proof.
intros Hp [Hr Hh]. destruct (rtc_height p r (nHeight b) Hr) as (h' & H1 & H2 & _).
{ unfold height. by rewrite Hp. }
simplify_eq. apply height_lookup in Hh as (c & Hc & <-).
pose proof (wf_height m Hwf r c Hc). lia.
Qed.

Lemma positive_parent p b : m !! p = Some b -> 0 < nHeight b -> exists q c,
pprev b = Some q /\ m !! q = Some c /\ nHeight c = nHeight b - 1.
Proof.
intros Hp Hb. destruct (pprev b) as [q|] eqn:Hq.
- destruct (wf_parent m Hwf p b q Hp Hq) as (c & Hc & He). exists q, c. repeat split; auto; lia.
- pose proof (wf_genesis m Hwf p b Hp Hq). lia.
Qed.

Lemma ancestor_below p h q : ancestor m p h q -> forall b, m !! q = Some b -> nHeight b = h.
Proof. intros [_ Hq] b Hb. unfold height in Hq. rewrite Hb in Hq. by injection Hq. Qed.

Lemma GetAncestor_loop_spec fuel p b h :
m !! p = Some b -> 0 <= h <= nHeight b -> nHeight b - h <= Z.of_nat fuel ->
exists r, GetAncestor_loop m fuel p (nHeight b) h = Some r /\ ancestor m p h r.
Proof.
revert p b. induction fuel as [|fuel IH]; intros p b Hp Hh Hf; cbn [GetAncestor_loop];
  rewrite Z.gtb_ltb; destruct (Z.ltb_spec h (nHeight b)) as [Hlt|Hge]; try lia;
  try (exists p; split; [done|]; replace h with (nHeight b) by lia; by apply ancestor_self).
rewrite Hp. cbn [mbind option_bind].
destruct (positive_parent p b Hp ltac:(lia)) as (q & c & Hq & Hc & Hch).
assert (exists r, GetAncestor_loop m fuel q (nHeight b - 1) h = Some r /\ ancestor m p h r) as Hprev.
{ rewrite <- Hch. destruct (IH q c Hc) as (r & Hr1 & Hr2); try lia.
  exists r. split; [done|]. apply (ancestor_trans p (nHeight c) q); [|done].
  split; [apply rtc_once; by exists b|]. unfold height. by rewrite Hc. }
rewrite Hq. cbn [mbind option_bind].
destruct (pskip b) as [s|] eqn:Hs; [|done]. case_match eqn:Huse; [|done].
destruct (wf_skip m Hwf p b s Hp Hs) as [_ Ha].
pose proof (GetSkipHeight_range (nHeight b) ltac:(lia)) as Hsk.
destruct Ha as [Hps Hhs]. pose proof Hhs as Hhs'. apply height_lookup in Hhs' as (d & Hd & Hdh).
assert (h <= GetSkipHeight (nHeight b)) as Hge.
{ rewrite orb_true_iff, andb_true_iff, Z.eqb_eq, Z.gtb_lt in Huse. lia. }
rewrite <- Hdh in *. destruct (IH s d Hd) as (r & Hr1 & Hr2); try lia.
exists r. split; [done|]. by apply (ancestor_trans p (nHeight d) s).
Qed.

(** [GetAncestor] finds the ancestor of every height up to the block's. *)
Lemma GetAncestor_spec p b h :
m !! p = Some b ->
if (h >? nHeight b) || (h <? 0) then GetAncestor m p h = Some None
else exists r, GetAncestor m p h = Some (Some r) /\ ancestor m p h r.
Proof.
intros Hp. unfold GetAncestor. rewrite Hp. cbn [mbind option_bind].
rewrite Z.gtb_ltb. destruct (Z.ltb_spec (nHeight b) h), (Z.ltb_spec h 0); cbn [orb]; try done.
destruct (GetAncestor_loop_spec (Z.to_nat (nHeight b - h)) p b h) as (r & -> & Hr); auto; try lia.
by exists r.
Qed.

Lemma GetAncestor_Some p b h :
m !! p = Some b -> 0 <= h <= nHeight b ->
exists r c, GetAncestor m p h = Some (Some r) /\ ancestor m p h r /\ m !! r = Some c /\ nHeight c = h.
Proof.
intros Hp Hh. pose proof (GetAncestor_spec p b h Hp) as H. rewrite Z.gtb_ltb in H.
rewrite (proj2 (Z.ltb_ge _ _)), (proj2 (Z.ltb_ge h 0)) in H by lia. cbn [orb] in H.
destruct H as (r & H1 & H2). pose proof H2 as [_ H3]. apply height_lookup in H3 as (c & ? & ?).
exists r, c. repeat split; auto; by destruct H2.
Qed.

Lemma GetAncestor_ancestor p h r : GetAncestor m p h = Some (Some r) -> ancestor m p h r.
Proof.
intros H. destruct (m !! p) as [b|] eqn:Hp.
2:{ unfold GetAncestor in H. by rewrite Hp in H. }
pose proof (GetAncestor_spec p b h Hp) as Hs. case_match; [congruence|].
destruct Hs as (r' & ? & ?). congruence.
Qed.
End facts.

(** ** Work of a block *)

(** The target of [nBits], when the code accepts it. *)
Definition target_of (c : Z) : option Z :=
if negb (compact_value c =? 0) && Z.testbit c 23 || (2 ^ 256 <=? compact_value c)
   || (compact_value c =? 0)
then None else Some (compact_value c).

Lemma compact_value_bound c : in_range 32 c -> compact_value c < 2 ^ 256 -> compact_value c + 1 < 2 ^ 256.
Proof.
intros Hc Hv. unfold in_range in Hc.
assert (0 <= exponent c) as He by (unfold exponent; dlia).
assert (0 <= mantissa c < 2 ^ 23) as Hm by (apply Z.mod_pos_bound; lia).
destruct (Z.lt_ge_cases 3 (exponent c)) as [Hgt|Hle].
- rewrite compact_value_large in * by lia.
  replace (8 * (exponent c - 3)) with (Z.succ (8 * (exponent c - 3) - 1)) in * by lia.
  rewrite Z.pow_succ_r in * by lia.
  replace (mantissa c * (2 * 2 ^ (8 * (exponent c - 3) - 1)))
    with (2 * (mantissa c * 2 ^ (8 * (exponent c - 3) - 1))) in * by ring.
  lia.
- rewrite compact_value_small by lia.
  assert (mantissa c / 2 ^ (8 * (3 - exponent c)) <= mantissa c); [|lia].
  apply Z.div_le_upper_bound; nia.
Qed.

(** [GetBlockProof] computes [2^256 / (target + 1)] without leaving 256 bits. *)
Lemma GetBlockProof_spec c :
in_range 32 c ->
exists w, GetBlockProof c = Some w /\ wf W w /\
  val w = match target_of c with Some t => 2 ^ 256 / (t + 1) | None => 0 end.
Proof.
intros Hc. unfold GetBlockProof, target_of.
pose proof (SetCompact_spec c Hc) as Hs.
destruct (SetCompact c) as [[t neg] ovf]. destruct Hs as (Hw & Hv & -> & ->).
rewrite (EqualTo_val (WIDTH := W)) by (first [done | lia | unfold in_range; lia]). rewrite Hv.
destruct (negb (compact_value c =? 0) && Z.testbit c 23) eqn:Hneg; cbn [orb].
{ exists (of_u64 W 0). split; [done|]. split; [apply wf_of_u64; lia|done]. }
destruct (Z.leb_spec (2 ^ 256) (compact_value c)) as [|Hlt]; cbn [orb].
{ exists (of_u64 W 0). split; [done|]. split; [apply wf_of_u64; lia|done]. }
pose proof (compact_value_bound c Hc Hlt) as Hlt1.
assert (0 <= compact_value c) as H0.
{ unfold compact_value. apply Z.div_pos; [|lia].
  assert (0 <= mantissa c) by (apply Z.mod_pos_bound; lia).
  assert (0 <= 256 ^ exponent c) by (apply Z.pow_nonneg; lia). nia. }
rewrite Z.mod_small in Hv |- * by lia. set (T := compact_value c) in *.
destruct (Z.eqb_spec T 0) as [|Hne].
{ exists (of_u64 W 0). split; [done|]. split; [apply wf_of_u64; lia|done]. }
destruct (add_u64_spec (WIDTH := W) t 1) as [Ha1 Ha2]; [lia|done|unfold in_range; lia|].
destruct (val_not (WIDTH := W) t Hw) as [Hn1 Hn2]. change (2 ^ BITS W) with (2 ^ 256) in *.
rewrite Hv, Z.mod_small in Ha2 by lia.
destruct (div_spec (WIDTH := W) (not_ t) (add_u64 W t 1)) as (q & -> & Hq1 & Hq2); [done|done|lia|].
destruct (add_u64_spec (WIDTH := W) q 1) as [Hs1 Hs2]; [lia|done|unfold in_range; lia|].
exists (add_u64 W q 1). split; [done|]. split; [done|].
change (2 ^ BITS W) with (2 ^ 256) in *. rewrite Hs2, Hq2, Ha2, Hn2, Hv.
assert ((2 ^ 256 - 1 - T) / (T + 1) = 2 ^ 256 / (T + 1) - 1) as ->.
{ replace (2 ^ 256 - 1 - T) with (2 ^ 256 + (-1) * (T + 1)) by ring. rewrite Z.div_add by lia. ring. }
rewrite Z.sub_add. apply Z.mod_small. split; [apply Z.div_pos; lia|].
apply Z.div_lt_upper_bound; lia.
Qed.

(** ** Growing the index *)

(** The part of the heap that [parent] and [ancestor] look at. *)
Definition links (m : index_map) : gmap ptr (option ptr * Z) := (fun b => (pprev b, nHeight b)) <$> m.

Lemma links_lookup m m' p b :
links m = links m' -> m !! p = Some b ->
exists b', m' !! p = Some b' /\ pprev b' = pprev b /\ nHeight b' = nHeight b.
Proof.
intros He Hp. assert (links m' !! p = Some (pprev b, nHeight b)) as H.
{ rewrite <- He. unfold links. by rewrite lookup_fmap, Hp. }
unfold links in H. rewrite lookup_fmap, fmap_Some in H. destruct H as (b' & ? & ?).
exists b'. by simplify_eq.
Qed.

Lemma links_parent m m' p q : links m = links m' -> parent m p q -> parent m' p q.
Proof.
intros He (b & Hp & Hq). destruct (links_lookup m m' p b He Hp) as (b' & ? & ? & ?).
exists b'. split; [done|congruence].
Qed.

Lemma links_ancestor m m' p h r : links m = links m' -> ancestor m p h r -> ancestor m' p h r.
Proof.
intros He [Hr Hh]. split.
- induction Hr; [done|]. eapply rtc_l; [by eapply links_parent|auto].
- apply height_lookup in Hh as (b & Hb & Hbh).
  destruct (links_lookup m m' r b He Hb) as (b' & ? & ? & ?).
  apply height_lookup. exists b'. split; [done|congruence].
Qed.

Lemma sub_ancestor m m' p h r : m ⊆ m' -> ancestor m p h r -> ancestor m' p h r.
Proof.
intros Hs [Hr Hh]. split.
- clear Hh. induction Hr as [|p q r (b & Hb & Hq) _ IH]; [done|].
  apply (rtc_l _ p q); [|done]. exists b. split; [|done]. by eapply lookup_weaken.
- apply height_lookup in Hh as (b & Hb & Hbh). apply height_lookup. exists b.
  split; [|done]. by eapply lookup_weaken.
Qed.

Lemma index_wf_insert m p b :
index_wf m -> m !! p = None -> pskip b = None ->
match pprev b with
| None => nHeight b = 0
| Some q => exists c, m !! q = Some c /\ nHeight b = nHeight c + 1
end ->
index_wf (<[p := b]> m).
Proof.
intros Hwf Hp Hs Hq. assert (m ⊆ <[p := b]> m) as Hsub by by apply insert_subseteq.
split.
- intros r d [[-> ->]|[? Hd]]%lookup_insert_Some; [|by eapply wf_height].
  destruct (pprev d) as [q|]; [|lia]. destruct Hq as (c & Hc & ->).
  pose proof (wf_height m Hwf q c Hc). lia.
- intros r d [[-> ->]|[? Hd]]%lookup_insert_Some Hn; [by rewrite Hn in Hq|by eapply wf_genesis].
- intros r d q [[-> ->]|[? Hd]]%lookup_insert_Some Hn.
  + rewrite Hn in Hq. destruct Hq as (c & Hc & ?). exists c. split; [by eapply lookup_weaken|done].
  + destruct (wf_parent m Hwf r d q Hd Hn) as (c & Hc & ?).
    exists c. split; [by eapply lookup_weaken|done].
- intros r d s [[-> ->]|[? Hd]]%lookup_insert_Some Hn; [congruence|].
  destruct (wf_skip m Hwf r d s Hd Hn) as [? ?]. split; [done|]. by eapply sub_ancestor.
Qed.

Lemma index_wf_links m m' :
links m = links m' -> index_wf m ->
(forall p b s, m' !! p = Some b -> pskip b = Some s ->
  0 < nHeight b /\ ancestor m p (GetSkipHeight (nHeight b)) s) ->
index_wf m'.
Proof.
intros He Hwf Hs. split.
- intros p b Hp. destruct (links_lookup m' m p b (eq_sym He) Hp) as (b' & Hb & _ & <-).
  by eapply wf_height.
- intros p b Hp Hn. destruct (links_lookup m' m p b (eq_sym He) Hp) as (b' & Hb & Hq & <-).
  eapply wf_genesis; [done..|congruence].
- intros p b q Hp Hn. destruct (links_lookup m' m p b (eq_sym He) Hp) as (b' & Hb & Hq & <-).
  destruct (wf_parent m Hwf p b' q Hb ltac:(congruence)) as (c & Hc & ?).
  destruct (links_lookup m m' q c He Hc) as (c' & ? & ? & ?). exists c'. split; [done|lia].
- intros p b s Hp Hn. destruct (Hs p b s Hp Hn) as [? Ha]. split; [done|].
  by apply (links_ancestor m m').
Qed.

Section tree.
Context (GetHash : CBlockHeader -> uint256).

Definition parent_work (m : index_map) (b : CBlockIndex) : Z :=
match pprev b with
| Some q => match m !! q with Some c => val (nChainWork c) | None => 0 end
| None => 0
end.

(** The invariant of the block tree: the hash map and the heap agree, the
  totals accumulate along [pprev], the best header has an entry. *)
Record tree_wf (st : BlockTree) : Prop := {
tw_index : index_wf (heap st);
tw_map : forall h p, mapBlockIndex st !! h = Some p <->
  exists b, heap st !! p = Some b /\ phashBlock b = h;
tw_work : forall p b, heap st !! p = Some b ->
  wf W (nChainWork b) /\
  exists w, GetBlockProof (nBits b) = Some w /\
    val (nChainWork b) = (parent_work (heap st) b + val w) mod 2 ^ 256;
tw_time : forall p b, heap st !! p = Some b ->
  nTime b <= nTimeMax b /\
  forall q c, pprev b = Some q -> heap st !! q = Some c -> nTimeMax c <= nTimeMax b;
tw_best : forall p, pindexBestHeader st = Some p -> is_Some (heap st !! p);
}.

(** The best header has the most work.  After a start this is so if no header
    of more work belongs to a failed block. *)
Definition heaviest (st : BlockTree) : Prop :=
match pindexBestHeader st with
| None => heap st = ∅
| Some p => exists b, heap st !! p = Some b /\
    forall q c, heap st !! q = Some c -> val (nChainWork c) <= val (nChainWork b)
end.

Definition header_ok (block : CBlockHeader) : Prop :=
in_range 32 (hdr_nBits block) /\ GetHash block <> hdr_hashPrevBlock block.

(** What [link_new] builds: the links of a well-formed entry. *)
Lemma link_new_spec m p b prev :
index_wf m -> m !! p = None -> pprev b = None -> pskip b = None -> nHeight b = 0 ->
(forall q, prev = Some q -> exists c, m !! q = Some c) ->
exists b', link_new m p b prev = Some b' /\ pprev b' = prev /\
  b' = set_links (pprev b') (nHeight b') (pskip b') b /\
  forall b'', pprev b'' = pprev b' -> nHeight b'' = nHeight b' -> pskip b'' = pskip b' ->
    index_wf (<[p := b'']> m).
Proof.
intros Hwf Hp Hb1 Hb2 Hb3 Hprev. unfold link_new. destruct prev as [q|].
- destruct (Hprev q eq_refl) as (c & Hc). assert (p <> q) by congruence.
  rewrite lookup_insert_ne, Hc by done. cbn [mbind option_bind].
  set (b1 := set_links (Some q) (nHeight c + 1) (pskip b) b).
  assert (index_wf (<[p := b1]> m)) as Hwf1.
  { apply index_wf_insert; [done..|]. cbn. by exists c. }
  unfold BuildSkip. cbn [pprev b1 set_links nHeight].
  pose proof (wf_height m Hwf q c Hc) as Hh0.
  pose proof (GetSkipHeight_range (nHeight c + 1) ltac:(lia)) as Hsk.
  destruct (GetAncestor_Some (<[p := b1]> m) Hwf1 q c (GetSkipHeight (nHeight c + 1)))
    as (s & d & Hs & Ha & _); [by rewrite lookup_insert_ne|lia|].
  change (set_links (Some q) (nHeight c + 1) (pskip b) b) with b1.
  rewrite Hs. cbn [mbind option_bind]. eexists. split; [done|]. split; [done|].
  split; [done|]. cbn [set_links pprev nHeight pskip]. intros b'' E1 E2 E3.
  apply (index_wf_links (<[p := b1]> m)); [|done|].
  { unfold links. rewrite !fmap_insert. f_equal. cbn. by rewrite E1, E2. }
  intros r e t [[-> ->]|[Hne He]]%lookup_insert_Some Ht.
  + rewrite E3 in Ht. injection Ht as <-. rewrite E2. split; [lia|].
    eapply ancestor_trans; [|exact Ha]. split; [|by unfold height; rewrite lookup_insert_ne, Hc].
    apply rtc_once. exists b1. by rewrite lookup_insert_eq.
  + apply (wf_skip _ Hwf1); [by rewrite lookup_insert_ne|done].
- exists b. split; [done|]. split; [done|]. split.
  { by destruct b. }
  intros b'' E1 E2 E3. apply index_wf_insert; [done|done|congruence|]. rewrite E1, Hb1, E2. done.
Qed.
(** [RaiseValidity(BLOCK_VALID_TREE)] on a fresh entry. *)
Lemma RaiseValidity_fresh b :
nStatus b = 0 -> RaiseValidity b BLOCK_VALID_TREE = Some (set_nStatus BLOCK_VALID_TREE b, true).
Proof. intros Hb. unfold RaiseValidity. by rewrite Hb. Qed.

Lemma ltb_val a b : wf W a -> wf W b -> ltb W a b = (val a <? val b).
Proof.
intros Ha Hb. unfold ltb. rewrite CompareTo_val by done. unfold Z.ltb.
by destruct (val a ?= val b).
Qed.

(** A new entry of the tree, given its links. *)
Lemma tree_wf_extend st p b hash :
tree_wf st -> heap st !! p = None -> mapBlockIndex st !! hash = None ->
phashBlock b = hash -> index_wf (<[p := b]> (heap st)) ->
(forall q, pprev b = Some q -> q <> p) ->
(exists w, GetBlockProof (nBits b) = Some w /\ wf W (nChainWork b) /\
  val (nChainWork b) = (parent_work (heap st) b + val w) mod 2 ^ 256) ->
nTime b <= nTimeMax b ->
(forall q c, pprev b = Some q -> heap st !! q = Some c -> nTimeMax c <= nTimeMax b) ->
forall best dirty,
(forall h, best = Some h -> is_Some (<[p := b]> (heap st) !! h)) ->
tree_wf {| heap := <[p := b]> (heap st); mapBlockIndex := <[hash := p]> (mapBlockIndex st);
           pindexBestHeader := best; setDirtyBlockIndex := dirty |}.
Proof.
intros Hwf Hp Hhash Hb Hidx Hpq Hwork Ht1 Ht2 best dirty Hbest. split; cbn [heap mapBlockIndex pindexBestHeader].
- done.
- intros h r. rewrite !lookup_insert_Some, (tw_map st Hwf). split.
  + intros [[<- <-]|[Hne (d & Hd & Hdh)]].
    * exists b. by rewrite lookup_insert_eq.
    * exists d. rewrite lookup_insert_ne; [done|congruence].
  + intros (d & Hd & Hdh). apply lookup_insert_Some in Hd as [[<- <-]|[Hne Hd]].
    * left. split; [congruence|done].
    * right. split; [|by exists d]. intros <-.
      assert (mapBlockIndex st !! phashBlock d = Some r) as H by (apply (tw_map st Hwf); by exists d).
      congruence.
- assert (forall d, (forall q, pprev d = Some q -> q <> p) ->
    parent_work (<[p := b]> (heap st)) d = parent_work (heap st) d) as Hpw.
  { intros d Hd. unfold parent_work. destruct (pprev d) as [q|]; [|done].
    by rewrite lookup_insert_ne by (apply not_eq_sym, Hd; done). }
  intros r d [[<- <-]|[Hne Hd]]%lookup_insert_Some.
  + rewrite Hpw by done. destruct Hwork as (w & ? & ? & ?). split; [done|by exists w].
  + rewrite Hpw; [by apply (tw_work st Hwf) with r|]. intros q Hq ->.
    destruct (wf_parent _ (tw_index st Hwf) r d p Hd Hq) as (c & Hc & _). congruence.
- intros r d [[<- <-]|[Hne Hd]]%lookup_insert_Some.
  + split; [done|]. intros q c Hq. rewrite lookup_insert_ne by (apply not_eq_sym, Hpq; done). eauto.
  + destruct (tw_time st Hwf r d Hd) as [T1 T2]. split; [done|]. intros q c Hq Hc.
    destruct (wf_parent _ (tw_index st Hwf) r d q Hd Hq) as (c' & Hc' & _).
    rewrite lookup_insert_ne in Hc by congruence. eauto.
- done.
Qed.

Lemma AddToBlockIndex_new st block :
tree_wf st -> header_ok block -> mapBlockIndex st !! GetHash block = None ->
exists st' p b, AddToBlockIndex GetHash st block = Some (st', p) /\ tree_wf st' /\
  heap st !! p = None /\ heap st' = <[p := b]> (heap st) /\
  mapBlockIndex st' = <[GetHash block := p]> (mapBlockIndex st) /\
  pprev b = mapBlockIndex st !! hdr_hashPrevBlock block /\
  nTime b = hdr_nTime block /\ nBits b = hdr_nBits block /\
  phashBlock b = GetHash block /\ nStatus b = BLOCK_VALID_TREE /\ nTx b = 0 /\ nChainTx b = 0.
Proof.
intros Hwf [Hbits Hne] Hnew. unfold AddToBlockIndex. rewrite Hnew, lookup_insert_ne by done.
set (p := fresh (dom (heap st))). set (b0 := CBlockIndex_of_header (GetHash block) block).
assert (heap st !! p = None) as Hp by (apply not_elem_of_dom, is_fresh).
assert (forall q, mapBlockIndex st !! hdr_hashPrevBlock block = Some q ->
  exists c, heap st !! q = Some c) as Hprev.
{ intros q Hq. apply (tw_map st Hwf) in Hq as (c & ? & _). by exists c. }
destruct (link_new_spec (heap st) p b0 _ (tw_index st Hwf) Hp eq_refl eq_refl eq_refl Hprev)
  as (b1 & -> & Hb1 & Heq & Hext). cbn [mbind option_bind]. rewrite Hb1.
assert (nBits b1 = hdr_nBits block /\ nTime b1 = hdr_nTime block /\ nStatus b1 = 0 /\
  phashBlock b1 = GetHash block /\ nTx b1 = 0 /\ nChainTx b1 = 0) as (E1 & E2 & E3 & E4 & E5 & E6) by by rewrite Heq.
destruct (GetBlockProof_spec (nBits b1)) as (w & Hw1 & Hw2 & _); [by rewrite E1|].
(* the totals inherited from the parent *)
assert (exists tm wk, match mapBlockIndex st !! hdr_hashPrevBlock block with
    | Some q => c ← <[p := b1]> (heap st) !! q; Some (nTimeMax c, nChainWork c)
    | None => Some (nTime b1, of_u64 W 0) end = Some (tm, wk) /\ wf W wk /\
    val wk = parent_work (heap st) b1 /\
    forall q c, pprev b1 = Some q -> heap st !! q = Some c -> nTimeMax c = tm)
  as (tm & wk & -> & Hwk1 & Hwk2 & Htm).
{ unfold parent_work. rewrite Hb1. destruct (mapBlockIndex st !! hdr_hashPrevBlock block) as [q|] eqn:Hq.
  - destruct (Hprev q eq_refl) as (c & Hc). rewrite lookup_insert_ne, Hc by congruence.
    exists (nTimeMax c), (nChainWork c). split; [done|].
    split; [by apply (tw_work st Hwf) with q|]. split; [done|]. intros; congruence.
  - exists (nTime b1), (of_u64 W 0). split; [done|]. split; [apply wf_of_u64; lia|].
    split; [done|]. done. }
cbn [mbind option_bind]. rewrite Hw1. cbn [mbind option_bind].
rewrite RaiseValidity_fresh by done. cbn [mbind option_bind fst].
set (b2 := set_totals _ _ b1). set (b := set_nStatus BLOCK_VALID_TREE b2).
assert (wf W (nChainWork b)) as Hbw by by apply (wf_add (WIDTH := W)).
assert (forall best, (forall h, best = Some h -> is_Some (<[p := b]> (heap st) !! h)) ->
  tree_wf {| heap := <[p := b]> (heap st); mapBlockIndex := <[GetHash block := p]> (mapBlockIndex st);
    pindexBestHeader := best; setDirtyBlockIndex := {[p]} ∪ setDirtyBlockIndex st |}) as Htree.
{ intros best. apply tree_wf_extend; try done.
  - by apply Hext.
  - intros q Hq. change (pprev b) with (pprev b1) in Hq. rewrite Hb1 in Hq.
    destruct (Hprev q Hq). congruence.
  - exists w. split; [done|]. split; [done|]. change (nChainWork b) with (add wk w).
    rewrite (val_add (WIDTH := W)), Hwk2 by done. done.
  - cbn. lia.
  - intros q c Hq Hc. rewrite (Htm q c Hq Hc). cbn. lia. }
destruct (pindexBestHeader st) as [h|] eqn:Hbest.
- destruct (tw_best st Hwf h Hbest) as [c Hc].
  rewrite lookup_insert_ne, Hc by congruence. cbn [mbind option_bind].
  eexists _, p, b. split; [done|]. split; [|by repeat split].
  apply Htree. intros r. destruct (ltb _ _ _); intros [= <-]; [by rewrite lookup_insert_eq|].
  rewrite lookup_insert_ne by congruence. by exists c.
- cbn [mbind option_bind]. eexists _, p, b. split; [done|]. split; [|by repeat split].
  apply Htree. intros r [= <-]. by rewrite lookup_insert_eq.
Qed.

Lemma AddToBlockIndex_heaviest st block st' p : tree_wf st -> tree_wf st' -> heaviest st ->
  AddToBlockIndex GetHash st block = Some (st', p) -> heaviest st'.
Proof.
  intros Hwf Hwf' Hbest. unfold AddToBlockIndex. destruct (mapBlockIndex st !! GetHash block); [by intros [= <- <-]|].
  set (r := fresh (dom (heap st))). assert (heap st !! r = None) as Hr by (apply not_elem_of_dom, is_fresh).
  destruct (link_new _ _ _ _) as [b1|]; [|done]. cbn [mbind option_bind].
  destruct (match pprev b1 with Some _ => _ | None => _ end) as [[tm wk]|]; [|done]. cbn [mbind option_bind].
  destruct (GetBlockProof (nBits b1)) as [w|]; [|done]. cbn [mbind option_bind]. set (b2 := set_totals _ _ b1).
  destruct (RaiseValidity b2 BLOCK_VALID_TREE) as [[b3 ?]|] eqn:E3; [|done]. cbn [mbind option_bind fst].
  assert (nChainWork b3 = nChainWork b2) as Ew.
  { clear -E3. unfold RaiseValidity in E3. repeat case_match; by simplify_eq. }
  unfold heaviest in Hbest |- *. destruct (pindexBestHeader st) as [h|]; cbn [mbind option_bind].
  - destruct Hbest as (c & Hc & Hmax). rewrite lookup_insert_ne, Hc by congruence. cbn [mbind option_bind].
    intros E. injection E as <- <-. cbn [pindexBestHeader heap] in *.
    assert (wf W (nChainWork b2)) as Hw2.
    { rewrite <- Ew. apply (tw_work _ Hwf' r b3). cbn [heap]. by rewrite lookup_insert_eq. }
    rewrite ltb_val by first [done | by apply (tw_work st Hwf) with h].
    change (add wk w) with (nChainWork b2).
    destruct (Z.ltb_spec (val (nChainWork c)) (val (nChainWork b2))).
    + exists b3. rewrite lookup_insert_eq. split; [done|].
      intros q d [[<- <-]|[? Hd]]%lookup_insert_Some; [done|]. rewrite Ew. specialize (Hmax q d Hd). lia.
    + exists c. rewrite lookup_insert_ne by congruence. split; [done|].
      intros q d [[<- <-]|[? Hd]]%lookup_insert_Some; [by rewrite Ew|]. by apply (Hmax q d).
  - intros E. injection E as <- <-. cbn [pindexBestHeader heap]. exists b3. rewrite lookup_insert_eq. split; [done|].
    intros q d [[<- <-]|[? Hd]]%lookup_insert_Some; [done|]. by rewrite Hbest in Hd.
Qed.
End tree.

(** ** The active chain *)

(** [c] holds exactly the ancestors of [tip], at their heights. *)
Definition chain_of (m : index_map) (c : CChain) (tip : option ptr) : Prop :=
match tip with
| None => c = []
| Some t => exists b, m !! t = Some b /\ Z.of_nat (length c) = nHeight b + 1 /\
    forall h, 0 <= h <= nHeight b -> exists r, chain_at c h = Some r /\ ancestor m t h r
end.

Lemma chain_at_range c h r : chain_at c h = Some r -> 0 <= h < Z.of_nat (length c).
Proof. unfold chain_at. rewrite Z.geb_leb. bcases; naive_solver lia. Qed.

Lemma chain_at_insert c k p h :
0 <= k < Z.of_nat (length c) ->
chain_at (<[Z.to_nat k := Some p]> c) h = if decide (h = k) then Some p else chain_at c h.
Proof.
intros Hk. unfold chain_at. rewrite length_insert, Z.geb_leb.
destruct (Z.ltb_spec h 0), (Z.leb_spec (Z.of_nat (length c)) h); cbn [orb];
  case_decide; try lia; try done.
- subst. by rewrite list_lookup_insert_eq by lia.
- by rewrite list_lookup_insert_ne by lia.
Qed.

Lemma chain_at_resize c n h :
0 <= h < Z.of_nat n -> chain_at (resize_chain n c) h = chain_at c h.
Proof.
intros Hh. unfold chain_at, resize_chain. rewrite length_resize, !Z.geb_leb.
destruct (Z.ltb_spec h 0); [lia|]. destruct (Z.leb_spec (Z.of_nat n) h); [lia|]. cbn [orb].
destruct (Z.leb_spec (Z.of_nat (length c)) h).
- by rewrite lookup_resize_new by lia.
- by rewrite lookup_resize by lia.
Qed.

Section chain.
Context (m : index_map) (Hwf : index_wf m).
Implicit Types p q r : ptr.

(** A block of a chain has its own ancestors below it. *)
Lemma chain_of_below c t k p :
chain_of m c t -> chain_at c k = Some p -> m !! p <> None ->
forall h, 0 <= h <= k -> exists r, chain_at c h = Some r /\ ancestor m p h r.
Proof.
intros Hc Hk Hp h Hh. pose proof (chain_at_range c k p Hk) as Hr.
destruct t as [t|]; [|cbn in Hc; subst c; change (Z.of_nat (length [])) with 0 in Hr; lia].
destruct Hc as (b & Hb & Hlen & Hanc).
destruct (Hanc k ltac:(lia)) as (p' & Hp1 & Hp2). replace p' with p in * by congruence.
destruct (Hanc h ltac:(lia)) as (r & Hr1 & Hr2). exists r. split; [done|].
pose proof Hp2 as [_ Hh2]. apply height_lookup in Hh2 as (d & Hd & Hdh).
destruct (GetAncestor_Some m Hwf p d h Hd) as (r' & e & _ & Ha & _); [lia|].
by rewrite (ancestor_unique m Hwf t h r r' Hr2 (ancestor_trans m t k p h r' Hp2 Ha)).
Qed.

Lemma SetTip_loop_spec c0 t0 t b fuel c k pindex :
chain_of m c0 t0 -> m !! t = Some b -> Z.of_nat (length c) = nHeight b + 1 ->
-1 <= k <= nHeight b -> k < Z.of_nat fuel ->
match pindex with
| None => k = -1
| Some p => ancestor m t k p
end ->
(forall h, k < h <= nHeight b -> exists r, chain_at c h = Some r /\ ancestor m t h r) ->
(forall h, 0 <= h <= k -> chain_at c h = chain_at c0 h) ->
exists c', SetTip_loop m fuel c pindex = Some c' /\ chain_of m c' (Some t).
Proof.
intros Hc0 Hb. revert c k pindex. induction fuel as [|fuel IH]; intros c k pindex Hlen Hk Hf Hp Hhi Hlo.
{ destruct pindex as [p|]; cbn [SetTip_loop].
  - pose proof (ancestor_range m Hwf t b k p Hb Hp). lia.
  - exists c. split; [done|]. exists b. split; [done|]. split; [lia|]. intros. apply Hhi. lia. }
destruct pindex as [p|]; cbn [SetTip_loop].
2:{ exists c. split; [done|]. exists b. split; [done|]. split; [lia|]. intros. apply Hhi. lia. }
pose proof (ancestor_range m Hwf t b k p Hb Hp) as Hk0.
pose proof Hp as [_ Hph]. apply height_lookup in Hph as (d & Hd & Hdh).
rewrite Hd. cbn [mbind option_bind]. rewrite Hdh. case_decide as Hdec.
- exists c. split; [done|]. exists b. split; [done|]. split; [done|]. intros h Hh.
  destruct (decide (k < h)); [apply Hhi; lia|].
  rewrite Hlo by lia. rewrite Hlo in Hdec by lia.
  destruct (chain_of_below c0 t0 k p Hc0 Hdec ltac:(congruence) h ltac:(lia)) as (r & Hr1 & Hr2).
  exists r. split; [done|]. by apply (ancestor_trans m t k p).
- apply (IH _ (k - 1)).
  + by rewrite length_insert.
  + lia.
  + lia.
  + destruct (pprev d) as [q|] eqn:Hq.
    * destruct (wf_parent m Hwf p d q Hd Hq) as (e & He & ?).
      apply (ancestor_trans m t k p); [done|]. split; [apply rtc_once; by exists d|].
      apply height_lookup. exists e. split; [done|lia].
    * pose proof (wf_genesis m Hwf p d Hd Hq). lia.
  + intros h Hh. rewrite chain_at_insert by lia. case_decide as Hhk.
    * exists p. split; [done|]. by rewrite Hhk.
    * apply Hhi. lia.
  + intros h Hh. rewrite chain_at_insert by lia. case_decide; [lia|]. apply Hlo. lia.
Qed.
Lemma SetTip_spec c0 t0 pindex :
chain_of m c0 t0 -> (forall p, pindex = Some p -> m !! p <> None) ->
exists c', SetTip m c0 pindex = Some c' /\ chain_of m c' pindex.
Proof.
intros Hc0 Hp. destruct pindex as [t|]; [|by exists []].
destruct (m !! t) as [b|] eqn:Hb; [|by destruct (Hp t eq_refl)].
unfold SetTip. rewrite Hb. cbn [mbind option_bind].
pose proof (wf_height m Hwf t b Hb) as Hh.
apply (SetTip_loop_spec c0 t0 t b _ _ (nHeight b)); auto.
- unfold resize_chain. rewrite length_resize. lia.
- lia.
- lia.
- by apply ancestor_self.
- intros h Hlt. lia.
- intros h Hlt. apply chain_at_resize. lia.
Qed.

(** ** Forks *)

Lemma Contains_spec c p b :
m !! p = Some b -> Contains m c p = Some (bool_decide (chain_at c (nHeight b) = Some p)).
Proof. intros Hp. unfold Contains. by rewrite Hp. Qed.

Lemma parent_ancestor p b q :
m !! p = Some b -> pprev b = Some q -> ancestor m p (nHeight b - 1) q.
Proof.
intros Hp Hq. split; [apply rtc_once; by exists b|].
destruct (wf_parent m Hwf p b q Hp Hq) as (c & Hc & ?).
apply height_lookup. exists c. split; [done|lia].
Qed.

(** An ancestor of [p] is [p] itself or an ancestor of its parent. *)
Lemma ancestor_cases p b h r :
m !! p = Some b -> ancestor m p h r ->
r = p \/ exists q, pprev b = Some q /\ ancestor m q h r.
Proof.
intros Hp [Hr Hh]. destruct Hr as [p|p q r (b' & Hb & Hq) Hqr]; [by left|].
right. exists q. split; [congruence|by split].
Qed.

Lemma FindFork_loop_spec c fuel p b :
m !! p = Some b -> nHeight b < Z.of_nat fuel ->
exists res, FindFork_loop m c fuel (Some p) = Some res /\
  match res with
  | Some q => exists h, ancestor m p h q /\ chain_at c h = Some q /\
      forall h' r, ancestor m p h' r -> chain_at c h' = Some r -> h' <= h
  | None => forall h' r, ancestor m p h' r -> chain_at c h' <> Some r
  end.
Proof.
revert p b. induction fuel as [|fuel IH]; intros p b Hp Hf.
{ pose proof (wf_height m Hwf p b Hp). lia. }
cbn [FindFork_loop]. rewrite (Contains_spec c p b Hp). cbn [mbind option_bind].
case_bool_decide as Hin.
- exists (Some p). split; [done|]. exists (nHeight b). split; [by apply ancestor_self|].
  split; [done|]. intros h' r Ha _. by destruct (ancestor_range m Hwf p b h' r Hp Ha).
- rewrite Hp. cbn [mbind option_bind]. destruct (pprev b) as [q|] eqn:Hq.
  + destruct (wf_parent m Hwf p b q Hp Hq) as (c' & Hc' & ?).
    destruct (IH q c' Hc' ltac:(lia)) as (res & -> & Hres). exists res. split; [done|].
    pose proof (parent_ancestor p b q Hp Hq) as Hpq.
    assert (forall h' r, ancestor m p h' r -> chain_at c h' = Some r -> ancestor m q h' r) as Hstep.
    { intros h' r Ha Hr. destruct (ancestor_cases p b h' r Hp Ha) as [->|(q' & ? & ?)]; [|congruence].
      exfalso. apply Hin. by rewrite (ancestor_below m p h' p Ha b Hp). }
    destruct res as [f|].
    * destruct Hres as (h & H1 & H2 & H3). exists h. split; [by eapply ancestor_trans|].
      split; [done|]. intros. eapply H3; eauto.
    * intros h' r Ha Hr. by apply (Hres h' r (Hstep h' r Ha Hr)).
  + exists None. destruct fuel; cbn [FindFork_loop]; (split; [done|]); intros h' r Ha Hr;
      destruct (ancestor_cases p b h' r Hp Ha) as [->|(q' & ? & ?)]; try congruence;
      apply Hin; by rewrite (ancestor_below m p h' p Ha b Hp).
Qed.

(** [FindFork] returns the highest ancestor that lies on the chain. *)
Lemma FindFork_spec c p b :
m !! p = Some b ->
exists res, FindFork m c (Some p) = Some res /\
  match res with
  | Some q => exists h, ancestor m p h q /\ chain_at c h = Some q /\
      forall h' r, ancestor m p h' r -> chain_at c h' = Some r -> h' <= h
  | None => forall h' r, ancestor m p h' r -> chain_at c h' <> Some r
  end.
Proof.
intros Hp. unfold FindFork. rewrite Hp. cbn [mbind option_bind]. rewrite Z.gtb_ltb.
pose proof (wf_height m Hwf p b Hp).
destruct (Z.ltb_spec (Height c) (nHeight b)) as [Hlt|Hge].
2:{ cbn [mbind option_bind]. apply FindFork_loop_spec with b; [done|lia]. }
destruct (decide (Height c < 0)) as [Hneg|Hpos].
- assert (GetAncestor m p (Height c) = Some None) as ->.
  { unfold GetAncestor. rewrite Hp. cbn [mbind option_bind].
    by rewrite (proj2 (Z.ltb_lt (Height c) 0)), orb_true_r by lia. }
  cbn [mbind option_bind]. exists None. split; [by destruct (Z.to_nat _)|].
  intros h' r _ Hr. apply chain_at_range in Hr. unfold Height in Hneg. lia.
- destruct (GetAncestor_Some m Hwf p b (Height c) Hp ltac:(lia)) as (q & d & -> & Ha & Hd & Hdh).
  cbn [mbind option_bind].
  destruct (FindFork_loop_spec c (Z.to_nat (nHeight b + 1)) q d Hd ltac:(lia)) as (res & -> & Hres).
  exists res. split; [done|].
  assert (forall h' r, ancestor m p h' r -> chain_at c h' = Some r -> ancestor m q h' r) as Hstep.
  { intros h' r Har Hr. apply chain_at_range in Hr. unfold Height in *.
    pose proof (ancestor_range m Hwf p b h' r Hp Har).
    destruct (GetAncestor_Some m Hwf q d h' Hd) as (r' & e & _ & Ha' & _); [lia|].
    by rewrite (ancestor_unique m Hwf p h' r r' Har (ancestor_trans m p _ q h' r' Ha Ha')). }
  destruct res as [f|].
  + destruct Hres as (h & H1 & H2 & H3). exists h. split; [by eapply ancestor_trans|].
    split; [done|]. intros. eapply H3; eauto.
  + intros h' r Har Hr. by apply (Hres h' r (Hstep h' r Har Hr)).
Qed.

Lemma common_loop_spec pa0 pb0 fuel pa pb h :
ancestor m pa0 h pa -> ancestor m pb0 h pb -> h < Z.of_nat fuel ->
(exists h0 r, ancestor m pa0 h0 r /\ ancestor m pb0 h0 r) ->
(forall h' r, ancestor m pa0 h' r -> ancestor m pb0 h' r -> h' <= h) ->
exists q k, common_loop m fuel (Some pa) (Some pb) = Some (Some q) /\
  ancestor m pa0 k q /\ ancestor m pb0 k q /\
  forall h' r, ancestor m pa0 h' r -> ancestor m pb0 h' r -> h' <= k.
Proof.
revert pa pb h. induction fuel as [|fuel IH]; intros pa pb h Ha Hb Hf Hex Hmax.
{ pose proof Ha as [_ Hh]. apply height_lookup in Hh as (d & Hd & <-).
  pose proof (wf_height m Hwf pa d Hd). lia. }
cbn [common_loop]. case_decide as Heq.
{ injection Heq as <-. exists pa, h. split; [done|]. by split. }
pose proof Ha as [_ Hha]. apply height_lookup in Hha as (da & Hda & Hdah).
pose proof Hb as [_ Hhb]. apply height_lookup in Hhb as (db & Hdb & Hdbh).
rewrite Hda, Hdb. cbn [mbind option_bind].
assert (forall h' r, ancestor m pa0 h' r -> ancestor m pb0 h' r -> h' <= h - 1) as Hmax'.
{ intros h' r Har Hbr. pose proof (Hmax h' r Har Hbr).
  destruct (decide (h' = h)) as [->|]; [|lia]. exfalso. apply Heq. f_equal.
  rewrite (ancestor_unique m Hwf pa0 h pa r Ha Har). symmetry.
  by apply (ancestor_unique m Hwf pb0 h pb r). }
assert (0 < h) as Hpos.
{ destruct Hex as (h0 & r & Har & Hbr). pose proof (Hmax' h0 r Har Hbr).
  pose proof Har as [_ Hhr]. apply height_lookup in Hhr as (d & Hd & <-).
  pose proof (wf_height m Hwf r d Hd). lia. }
destruct (positive_parent m Hwf pa da Hda ltac:(lia)) as (qa & ca & Hqa & Hca & Hcah).
destruct (positive_parent m Hwf pb db Hdb ltac:(lia)) as (qb & cb & Hqb & Hcb & Hcbh).
rewrite Hqa, Hqb. apply (IH qa qb (h - 1)); [| |lia|done|done].
- eapply ancestor_trans; [exact Ha|]. rewrite <- Hdah. by apply parent_ancestor.
- eapply ancestor_trans; [exact Hb|]. rewrite <- Hdbh. by apply parent_ancestor.
Qed.

(** [LastCommonAncestor] returns the highest common ancestor. *)
Lemma LastCommonAncestor_spec pa pb ba bb :
m !! pa = Some ba -> m !! pb = Some bb ->
(exists h r, ancestor m pa h r /\ ancestor m pb h r) ->
exists q k, LastCommonAncestor m pa pb = Some (Some q) /\
  ancestor m pa k q /\ ancestor m pb k q /\
  forall h' r, ancestor m pa h' r -> ancestor m pb h' r -> h' <= k.
Proof.
intros Ha Hb Hex. unfold LastCommonAncestor. rewrite Ha, Hb. cbn [mbind option_bind].
pose proof (wf_height m Hwf pa ba Ha). pose proof (wf_height m Hwf pb bb Hb).
assert (forall h' r, ancestor m pa h' r -> ancestor m pb h' r -> h' <= Z.min (nHeight ba) (nHeight bb)) as Hmax.
{ intros h' r H1 H2. pose proof (ancestor_range m Hwf pa ba h' r Ha H1).
  pose proof (ancestor_range m Hwf pb bb h' r Hb H2). lia. }
rewrite !Z.gtb_ltb. destruct (Z.ltb_spec (nHeight bb) (nHeight ba)).
- destruct (GetAncestor_Some m Hwf pa ba (nHeight bb) Ha ltac:(lia)) as (q & d & -> & Hq & _).
  cbn [mbind option_bind]. apply common_loop_spec with (nHeight bb); auto using ancestor_self; [lia|].
  intros h' r Hu Hv. pose proof (Hmax h' r Hu Hv). lia.
- destruct (Z.ltb_spec (nHeight ba) (nHeight bb)).
  + destruct (GetAncestor_Some m Hwf pb bb (nHeight ba) Hb ltac:(lia)) as (q & d & -> & Hq & _).
    cbn [mbind option_bind]. apply common_loop_spec with (nHeight ba); auto using ancestor_self; [lia|].
    intros h' r Hu Hv. pose proof (Hmax h' r Hu Hv). lia.
  + cbn [mbind option_bind]. apply common_loop_spec with (nHeight ba); auto using ancestor_self; [|lia|].
    * replace (nHeight ba) with (nHeight bb) by lia. by apply ancestor_self.
    * intros h' r Hu Hv. pose proof (Hmax h' r Hu Hv). lia.
Qed.

(** ** Locators: the heights that [GetLocator] visits *)

Fixpoint locator_heights (fuel : nat) (nStep nHave h : Z) : list Z :=
if h =? 0 then [0]
else match fuel with
     | O => []
     | S fuel => h :: locator_heights fuel (if nHave + 1 >? 10 then nStep * 2 else nStep)
                        (nHave + 1) (Z.max (h - nStep) 0)
     end.

Definition hash_at (p : ptr) (hash : uint256) (h : Z) : Prop :=
exists r b, ancestor m p h r /\ m !! r = Some b /\ phashBlock b = hash.

Lemma GetLocator_loop_spec c t p0 fuel nStep nHave h p :
chain_of m c t -> ancestor m p0 h p -> h <= Z.of_nat fuel -> 0 < nStep ->
exists l, GetLocator_loop m c fuel nStep nHave (Some p) = Some l /\
  Forall2 (hash_at p0) l (locator_heights fuel nStep nHave h).
Proof.
intros Hc. revert nStep nHave h p. induction fuel as [|fuel IH]; intros nStep nHave h p Hp Hf Hs;
  pose proof Hp as [_ Hh]; apply height_lookup in Hh as (d & Hd & Hdh);
  pose proof (wf_height m Hwf p d Hd); cbn [GetLocator_loop locator_heights];
  rewrite Hd; cbn [mbind option_bind]; rewrite Hdh; destruct (Z.eqb_spec h 0) as [->|Hne]; try lia;
  try (exists [phashBlock d]; split; [done|]; repeat constructor; by exists p, d).
rewrite (Contains_spec c p d Hd). cbn [mbind option_bind].
assert (exists q, (if bool_decide (chain_at c (nHeight d) = Some p)
    then Some (chain_at c (Z.max (h - nStep) 0)) else GetAncestor m p (Z.max (h - nStep) 0)) = Some (Some q) /\
    ancestor m p (Z.max (h - nStep) 0) q) as (q & -> & Hq).
{ case_bool_decide as Hin.
  - rewrite Hdh in Hin.
    destruct (chain_of_below c t h p Hc Hin ltac:(congruence) (Z.max (h - nStep) 0) ltac:(lia)) as (r & -> & Hr).
    by exists r.
  - destruct (GetAncestor_Some m Hwf p d (Z.max (h - nStep) 0) Hd ltac:(lia)) as (q & e & -> & Hq & _).
    by exists q. }
cbn [mbind option_bind].
destruct (IH (if nHave + 1 >? 10 then nStep * 2 else nStep) (nHave + 1) (Z.max (h - nStep) 0) q)
  as (l & -> & Hl); [by eapply ancestor_trans|lia|case_match; lia|].
exists (phashBlock d :: l). split; [done|]. constructor; [|done]. by exists p, d.
Qed.

Lemma locator_heights_ends fuel nStep nHave h :
0 <= h <= Z.of_nat fuel -> 0 < nStep ->
last (locator_heights fuel nStep nHave h) = Some 0.
Proof.
revert nStep nHave h. induction fuel as [|fuel IH]; intros nStep nHave h Hh Hs;
  cbn [locator_heights]; destruct (Z.eqb_spec h 0) as [->|]; try done; try lia.
rewrite last_cons, IH; [done|lia|case_match; lia].
Qed.

Lemma locator_heights_le fuel nStep nHave h :
0 <= h -> 0 < nStep -> Forall (fun x => 0 <= x <= h) (locator_heights fuel nStep nHave h).
Proof.
revert nStep nHave h. induction fuel as [|fuel IH]; intros nStep nHave h Hh Hs;
  cbn [locator_heights]; destruct (Z.eqb_spec h 0) as [->|]; repeat constructor; try lia.
eapply Forall_impl; [apply IH; [lia|case_match; lia]|]. cbn. intros. lia.
Qed.

Lemma locator_heights_decreasing fuel nStep nHave h :
0 <= h -> 0 < nStep -> StronglySorted Z.gt (locator_heights fuel nStep nHave h).
Proof.
revert nStep nHave h. induction fuel as [|fuel IH]; intros nStep nHave h Hh Hs;
  cbn [locator_heights]; destruct (Z.eqb_spec h 0) as [->|]; repeat constructor.
- apply IH; [lia|case_match; lia].
- eapply Forall_impl; [apply locator_heights_le; [lia|case_match; lia]|]. cbn. intros. lia.
Qed.
End chain.
End chain_facts.

(** ** A concrete index for the witnesses: two branches on one block *)

Module chain_example.
Definition entry (hash : Z) (q : option ptr) (h : Z) : CBlockIndex :=
  set_links q h None (CBlockIndex_of_header (le_digits 8 32 hash)
    {| hdr_nVersion := 4; hdr_hashPrevBlock := uint256_null; hdr_hashMerkleRoot := uint256_null;
       hdr_nTime := 1000 + h; hdr_nBits := 0x207fffff; hdr_nNonce := uint256_null; hdr_nSolution := [] |}).

Definition index : index_map :=
  <[4%positive := entry 4 (Some 2%positive) 2]>
  (<[3%positive := entry 3 (Some 2%positive) 2]>
  (<[2%positive := entry 2 (Some 1%positive) 1]>
  (<[1%positive := entry 1 None 0]> ∅))).

Lemma index_ok : index_wf index.
Proof.
  repeat (apply chain_facts.index_wf_insert; [|reflexivity|reflexivity|try (eexists; split; reflexivity); try reflexivity]).
  split; intros ? ?; rewrite lookup_empty; discriminate.
Qed.

Definition GetHash (h : CBlockHeader) : uint256 := le_digits 8 32 (hdr_nTime h).
Definition header (t : Z) (prev : uint256) : CBlockHeader :=
  {| hdr_nVersion := 4; hdr_hashPrevBlock := prev; hdr_hashMerkleRoot := uint256_null;
     hdr_nTime := t; hdr_nBits := 0x207fffff; hdr_nNonce := uint256_null; hdr_nSolution := [] |}.
Definition empty_tree : BlockTree :=
  {| heap := ∅; mapBlockIndex := ∅; pindexBestHeader := None; setDirtyBlockIndex := ∅ |}.

Lemma empty_tree_wf : chain_facts.tree_wf empty_tree.
Proof.
  split; cbn [empty_tree heap mapBlockIndex pindexBestHeader].
  - split; intros ? ?; rewrite lookup_empty; discriminate.
  - intros h p. rewrite lookup_empty. split; [discriminate|]. intros (b & Hb & _).
    by rewrite lookup_empty in Hb.
  - intros p b. by rewrite lookup_empty.
  - intros p b. by rewrite lookup_empty.
  - done.
Qed.
End chain_example.

(** ** Properties *)

(** In a well-formed block index the skip-list search [GetAncestor] always
    terminates without failing its assertion; it returns [nullptr] exactly
    for a height outside [0 .. nHeight], and otherwise the one block of that
    height that [pprev] steps reach. *)
Lemma GetAncestor_correct (m : index_map) (p : ptr) (b : CBlockIndex) (h : Z) :
  index_wf m -> m !! p = Some b ->
  if decide (0 <= h <= nHeight b)
  then exists r, GetAncestor m p h = Some (Some r) /\ ancestor m p h r /\
         forall r', ancestor m p h r' -> r' = r
  else GetAncestor m p h = Some None.
Proof.
  intros Hwf Hp. case_decide as Hh.
  - destruct (chain_facts.GetAncestor_Some m Hwf p b h Hp Hh) as (r & c & H1 & H2 & _).
    exists r. split; [done|]. split; [done|]. intros r' Hr'.
    by apply (chain_facts.ancestor_unique m Hwf p h).
  - pose proof (chain_facts.GetAncestor_spec m Hwf p b h Hp) as H. rewrite Z.gtb_ltb in H.
    destruct (Z.ltb_spec (nHeight b) h), (Z.ltb_spec h 0); cbn [orb] in H; try done. lia.
Qed.

(** [AddToBlockIndex] keeps the whole invariant of the block tree (links
    and skip pointers, agreement of the hash map with the heap, accumulated
    work modulo 2^256, maximal times), and a best header of maximal work: it
    returns the known entry of a known header unchanged, and otherwise adds
    one entry below the header's predecessor without touching the others. *)
Theorem AddToBlockIndex_correct (GetHash : CBlockHeader -> uint256) (st : BlockTree) (block : CBlockHeader) :
  chain_facts.tree_wf st -> chain_facts.header_ok GetHash block ->
  exists st' p, AddToBlockIndex GetHash st block = Some (st', p) /\ chain_facts.tree_wf st' /\
    (chain_facts.heaviest st -> chain_facts.heaviest st') /\
    mapBlockIndex st' !! GetHash block = Some p /\
    match mapBlockIndex st !! GetHash block with
    | Some q => p = q /\ st' = st
    | None => exists b, heap st !! p = None /\ heap st' = <[p := b]> (heap st) /\
                pprev b = mapBlockIndex st !! hdr_hashPrevBlock block /\
                nBits b = hdr_nBits block /\ nTime b = hdr_nTime block
    end.
Proof.
  intros Hwf Hok. destruct (mapBlockIndex st !! GetHash block) as [q|] eqn:Hq.
  - exists st, q. unfold AddToBlockIndex. by rewrite Hq.
  - destruct (chain_facts.AddToBlockIndex_new GetHash st block Hwf Hok Hq)
      as (st' & p & b & H1 & H2 & H3 & H4 & H5 & H6 & H7 & H8 & _).
    exists st', p. split; [done|]. split; [done|].
    split; [intros Hh; by apply (chain_facts.AddToBlockIndex_heaviest GetHash st block st' p)|].
    split; [by rewrite H5, lookup_insert_eq|]. by exists b.
Qed.

Lemma AddToBlockIndex_correct_witness :
  chain_facts.tree_wf chain_example.empty_tree /\
  exists st p, AddToBlockIndex chain_example.GetHash chain_example.empty_tree
                 (chain_example.header 1000 uint256_null) = Some (st, p) /\
    chain_facts.tree_wf st.
Proof.
  split; [exact chain_example.empty_tree_wf|].
  destruct (AddToBlockIndex_correct chain_example.GetHash chain_example.empty_tree
    (chain_example.header 1000 uint256_null) chain_example.empty_tree_wf) as (st & p & H1 & H2 & _).
  { split; [unfold in_range; cbn; lia|]. intros H. vm_compute in H. discriminate H. }
  exists st, p. split; [exact H1|exact H2].
Defined.

(** [GetLocator] terminates on every block of a well-formed index and
    returns the hashes of its ancestors at strictly decreasing heights, from
    the block itself down to the genesis block, whichever of the chain index
    and the skip list serves each step. *)
Lemma GetLocator_correct (m : index_map) (c : CChain) (tip : option ptr) (p : ptr) (b : CBlockIndex) :
  index_wf m -> chain_facts.chain_of m c tip -> m !! p = Some b ->
  exists l hs, GetLocator m c (Some p) = Some l /\ Forall2 (chain_facts.hash_at m p) l hs /\
    StronglySorted Z.gt hs /\ hd_error hs = Some (nHeight b) /\ last hs = Some 0.
Proof.
  intros Hwf Hc Hp. pose proof (wf_height m Hwf p b Hp) as Hh.
  destruct (chain_facts.GetLocator_loop_spec m Hwf c tip p (Z.to_nat (nHeight b)) 1 0 (nHeight b) p)
    as (l & H1 & H2); [done|by apply chain_facts.ancestor_self|lia|lia|].
  exists l, (chain_facts.locator_heights (Z.to_nat (nHeight b)) 1 0 (nHeight b)).
  split; [unfold GetLocator; by rewrite Hp|]. split; [done|].
  split; [apply chain_facts.locator_heights_decreasing; lia|].
  split; [|apply chain_facts.locator_heights_ends; lia].
  destruct (decide (nHeight b = 0)) as [->|Hne]; [done|].
  destruct (Z.to_nat (nHeight b)) as [|n] eqn:Hn; [lia|]. cbn [chain_facts.locator_heights].
  by rewrite (proj2 (Z.eqb_neq _ _) Hne).
Qed.

(** C23: The walks over the index and the chain terminate with the right
    blocks.  The skip-list search [GetAncestor] never fails its assertion; it
    returns [nullptr] exactly for a height outside [0 .. nHeight], and otherwise
    the one block of that height that [pprev] steps reach.  [SetTip] turns a
    chain of any previous tip into exactly the chain of the new tip, although it
    stops as soon as it meets a block that is already in place.  [FindFork] returns the highest ancestor of a block that lies on the
    chain and [nullptr] exactly when there is none; [LastCommonAncestor] returns
    the highest common ancestor of two blocks that have one; and [GetLocator]
    returns the hashes of the ancestors of a block at strictly decreasing
    heights, from the block itself down to the genesis block, whichever of the
    chain and the skip list serves each step. *)
Theorem chain_walks_correct (m : index_map) (c : CChain) :
  index_wf m ->
  (forall p b h, m !! p = Some b ->
     if decide (0 <= h <= nHeight b)
     then exists r, GetAncestor m p h = Some (Some r) /\ ancestor m p h r /\
            forall r', ancestor m p h r' -> r' = r
     else GetAncestor m p h = Some None) /\
  (forall oldtip newtip, chain_facts.chain_of m c oldtip -> (forall p, newtip = Some p -> m !! p <> None) ->
     exists c', SetTip m c newtip = Some c' /\ chain_facts.chain_of m c' newtip) /\
  (forall pa ba, m !! pa = Some ba ->
     exists res, FindFork m c (Some pa) = Some res /\
       match res with
       | Some q => exists h, ancestor m pa h q /\ chain_at c h = Some q /\
           forall h' r, ancestor m pa h' r -> chain_at c h' = Some r -> h' <= h
       | None => forall h' r, ancestor m pa h' r -> chain_at c h' <> Some r
       end) /\
  (forall pa pb ba bb, m !! pa = Some ba -> m !! pb = Some bb ->
     (exists h r, ancestor m pa h r /\ ancestor m pb h r) ->
     exists q k, LastCommonAncestor m pa pb = Some (Some q) /\ ancestor m pa k q /\ ancestor m pb k q /\
       forall h' r, ancestor m pa h' r -> ancestor m pb h' r -> h' <= k) /\
  (forall tip p b, chain_facts.chain_of m c tip -> m !! p = Some b ->
     exists l hs, GetLocator m c (Some p) = Some l /\ Forall2 (chain_facts.hash_at m p) l hs /\
       StronglySorted Z.gt hs /\ hd_error hs = Some (nHeight b) /\ last hs = Some 0).
Proof.
  intros Hwf. split; [|split; [|split; [|split]]].
  - intros p b h Hb. by apply GetAncestor_correct.
  - by apply chain_facts.SetTip_spec.
  - intros pa ba Ha. by apply chain_facts.FindFork_spec with ba.
  - intros pa pb ba bb Ha Hb Hex. by apply chain_facts.LastCommonAncestor_spec with ba bb.
  - intros tip p b. by apply GetLocator_correct.
Qed.

Lemma chain_walks_correct_witness :
  (exists q k, LastCommonAncestor chain_example.index 3 4 = Some (Some q) /\ q = 2%positive /\
     ancestor chain_example.index 3 k q) /\
  exists l hs, GetLocator chain_example.index [] (Some 4%positive) = Some l /\
    Forall2 (chain_facts.hash_at chain_example.index 4) l hs /\ hd_error hs = Some 2.
Proof.
  destruct (chain_walks_correct chain_example.index [] chain_example.index_ok) as (_ & _ & _ & H2 & H3). split.
  - destruct (H2 3%positive 4%positive _ _ eq_refl eq_refl) as (q & k & Hq & Hk & _).
    { exists 1, 2%positive. split; (split; [|reflexivity]); apply rtc_once; eexists; split; reflexivity. }
    exists q, k. split; [exact Hq|]. split; [|exact Hk]. vm_compute in Hq. congruence.
  - destruct (H3 None 4%positive _ eq_refl eq_refl) as (l & hs & Hl & Hf & _ & Hh & _).
    exists l, hs. split; [exact Hl|]. split; [exact Hf|exact Hh].
Defined.
