(* ===== verification/Params.v ===== *)
(** * Consensus parameters ([consensus/params.h])

    The record [Consensus::Params].  The authorization key is kept as the two
    operations the code uses of it, because the signature scheme is not part
    of this file. *)

From S2P Require Import Prelude Uint256.

Record BIP9Deployment := {
  bit : Z;
  nStartTime : Z;
  nTimeout : Z;
}.

Definition NO_TIMEOUT : Z := 2 ^ 63 - 1.
Definition ALWAYS_ACTIVE : Z := -1.

(** [enum DeploymentPos]: the index of a deployment. *)
Definition DEPLOYMENT_TESTDUMMY : nat := 0.
Definition MAX_VERSION_BITS_DEPLOYMENTS : nat := 1.

Record CPubKey := {
  IsFullyValid : bool;
  Verify : uint256 -> bytes -> bool;
}.

Record Params := {
  hashGenesisBlock : uint256;
  nSubsidyHalvingInterval : Z;
  nRuleChangeActivationThreshold : Z;
  nMinerConfirmationWindow : Z;
  vDeployments : list BIP9Deployment;
  powLimit : uint256;
  fPowAllowMinDifficultyBlocks : bool;
  fPowNoRetargeting : bool;
  nPowTargetSpacing : Z;
  nPowTargetTimespan : Z;
  nMinimumChainWork : uint256;
  defaultAssumeValid : uint256;
  authorizationForkHeight : Z;
  authorizationKey : CPubKey;
}.

(** [int64_t] division truncates towards zero. *)
Definition DifficultyAdjustmentInterval (p : Params) : Z :=
  Z.quot (nPowTargetTimespan p) (nPowTargetSpacing p).
