(* ===== verification/Pow.v ===== *)
(** * Proof of work and difficulty retargeting ([pow.cpp])

    [GetNextWorkRequired], [CalculateNextWorkRequired] and
    [CheckProofOfWork].  The retarget multiplies in a 512-bit integer of
    boost::multiprecision; the two conversions between that type and text
    belong to boost and are the interface [cpp_int_io]. *)

From S2P Require Import Prelude ArithUint256 Uint256 Chain Params.
Import hex base_blob base_uint arith_uint256.

(** ** The text conversions of boost::multiprecision::uint512_t *)

Class cpp_int_io := {
  (** [uint512_t(const std::string&)] *)
  of_string : bytes -> Z;
  (** [std::hex << std::showbase << n] *)
  to_hex_string : Z -> bytes;
}.

(** A hexadecimal numeral with the [0x] prefix, from its nibbles, least
    significant first. *)
Definition hex_numeral (ds : list Z) : bytes := 48 :: 120 :: map hexmap (reverse ds).

Class cpp_int_io_laws `{cpp_int_io} : Prop := {
  of_string_hex : forall ds, limbs_ok 4 ds -> of_string (hex_numeral ds) = le_val 4 ds;
  to_hex_string_hex : forall z, 0 <= z < 2 ^ 512 ->
    exists ds, to_hex_string z = hex_numeral ds /\ limbs_ok 4 ds /\ le_val 4 ds = z;
}.

(** ** Definitions *)

(** [while (pindex->pprev && pindex->nHeight % interval != 0 &&
    pindex->nBits == nProofOfWorkLimit) pindex = pindex->pprev;] *)
Fixpoint last_non_special (m : index_map) (interval limit : Z) (fuel : nat) (p : ptr) : option CBlockIndex :=
  b ← m !! p;
  match pprev b with
  | Some q =>
      if negb (Z.rem (nHeight b) interval =? 0) && (nBits b =? limit)
      then match fuel with O => None | S fuel => last_non_special m interval limit fuel q end
      else Some b
  | None => Some b
  end.

Section pow.
Context `{cpp_int_io}.

Definition UintToCpp512 (n : uint256) : Z := of_string (48 :: 120 :: GetHex n).

(** Unsigned 512-bit arithmetic is unchecked: it wraps around. *)
Abbreviation u512 := (wrap 512).

Definition CalculateNextWorkRequired (m : index_map) (pindexLast : ptr)
    (nFirstBlockTime : Z) (params : Params) : option Z :=
  last ← m !! pindexLast;
  if fPowNoRetargeting params then Some (nBits last)
  else
    let nActualTimespan := GetBlockTime last - nFirstBlockTime in
    let nActualTimespan :=
      if nActualTimespan <? Z.quot (nPowTargetTimespan params) 4
      then Z.quot (nPowTargetTimespan params) 4 else nActualTimespan in
    let nActualTimespan :=
      if nActualTimespan >? nPowTargetTimespan params * 4
      then nPowTargetTimespan params * 4 else nActualTimespan in
    let bnPowLimit := UintToCpp512 (powLimit params) in
    nProofOfWorkLimit ← GetCompact (UintToArith256 (powLimit params)) false;
    oldBits ← (if nHeight last >? 51840
            then b ← last_non_special m (DifficultyAdjustmentInterval params)
                       nProofOfWorkLimit (Z.to_nat (nHeight last)) pindexLast;
                 Some (nBits b)
            else Some (nBits last));
    let bnNewtmp := (SetCompact oldBits).1.1 in
    let bnNew := UintToCpp512 (ArithToUint256 bnNewtmp) in
    let bnNew := u512 (bnNew * nActualTimespan) in
    let bnNew := bnNew / nPowTargetTimespan params in
    let bnNew := if bnNew >? bnPowLimit then bnPowLimit else bnNew in
    GetCompact (UintToArith256 (uint256S (to_hex_string bnNew))) false.

Definition GetNextWorkRequired (m : index_map) (pindexLast : ptr)
    (pblock : CBlockHeader) (params : Params) : option Z :=
  last ← m !! pindexLast;
  let interval := DifficultyAdjustmentInterval params in
  if negb (Z.rem (nHeight last + 1) interval =? 0) then
    nProofOfWorkLimit ← GetCompact (UintToArith256 (powLimit params)) false;
    if nHeight last <? 60500 then
      if fPowAllowMinDifficultyBlocks params then
        if hdr_nTime pblock >? GetBlockTime last + nPowTargetSpacing params * 2
        then Some nProofOfWorkLimit
        else nBits <$> last_non_special m interval nProofOfWorkLimit (Z.to_nat (nHeight last)) pindexLast
      else Some (nBits last)
    else nBits <$> last_non_special m interval nProofOfWorkLimit (Z.to_nat (nHeight last)) pindexLast
  else
    let nHeightFirst := nHeight last - (interval - 1) in
    if negb (nHeightFirst >=? 0) then None
    else
      pindexFirst ← GetAncestor m pindexLast nHeightFirst;
      first ← pindexFirst;
      b ← m !! first;
      CalculateNextWorkRequired m pindexLast (GetBlockTime b) params.
End pow.

Definition CheckProofOfWork (hash : uint256) (nBits : Z) (params : Params) : bool :=
  let '(bnTarget, fNegative, fOverflow) := SetCompact nBits in
  if fNegative || EqualTo bnTarget 0 || fOverflow
     || gtb W bnTarget (UintToArith256 (powLimit params))
  then false
  else if gtb W (UintToArith256 hash) bnTarget then false
  else true.

(** ** Hexadecimal numerals and blobs *)

Module pow_facts.
Import chain_facts.

Lemma hexmap_digit d : in_range 4 d -> HexDigit (hexmap d) = d /\ (d =? -1) = false.
Proof.
intros Hd.
assert (((HexDigit (hexmap d) =? d) && negb (d =? -1) || negb (d <? 16)) = true) as H.
{ apply (byte_forall (fun d => (HexDigit (hexmap d) =? d) && negb (d =? -1) || negb (d <? 16)));
    [by vm_compute|unfold in_range in *; lia]. }
unfold in_range in Hd. rewrite (proj2 (Z.ltb_lt d 16)) in H by lia. cbn [negb] in H.
by rewrite orb_false_r, andb_true_iff, Z.eqb_eq, negb_true_iff in H.
Qed.

Lemma hex_digits_map ds : limbs_ok 4 ds -> hex_digits (map hexmap ds) = ds.
Proof.
induction 1 as [|d ds Hd Hds IH]; [done|]. cbn [map hex_digits].
destruct (hexmap_digit d Hd) as [-> ->]. by rewrite IH.
Qed.

(** The filling loop of [SetHex] computes the value of the digits. *)
Lemma fill_spec n ds :
limbs_ok 4 ds ->
bytes_ok (fill n ds) /\ length (fill n ds) = n /\
le_val 8 (fill n ds) = le_val 4 ds mod 2 ^ (8 * Z.of_nat n).
Proof.
assert (forall k, bytes_ok (replicate k 0) /\ le_val 8 (replicate k 0) = 0) as Hz.
{ intros k. split; [apply Forall_replicate; unfold in_range; lia|].
  induction k; cbn [replicate le_val]; [done|lia]. }
revert ds. induction n as [|n IH]; intros ds Hds.
{ cbn [fill length le_val]. by rewrite Z.mod_1_r. }
rewrite pow2_mul_succ by lia. destruct Hds as [|d0 ds Hd0 Hds]; [|destruct Hds as [|d1 ds Hd1 Hds]];
  unfold in_range in *; cbn [fill length le_val].
- destruct (Hz (S n)) as [Hz1 Hz2]. rewrite Hz2, length_replicate. by split.
- destruct (Hz n) as [Hz1 Hz2]. split; [constructor; [unfold in_range; lia|done]|].
  cbn [le_val length]. rewrite length_replicate, Hz2. split; [done|].
  rewrite Z.mod_small; [ring|]. assert (0 < 2 ^ (8 * Z.of_nat n)) by lia. nia.
- destruct (IH ds Hds) as (I1 & I2 & I3). cbn [le_val length].
  rewrite Z.shiftl_mul_pow2, (wrap_small 8 (d1 * 2 ^ 4)) by (unfold in_range; lia).
  rewrite <- Z.shiftl_mul_pow2, lor_shiftl_add by (unfold in_range; lia).
  split; [constructor; [unfold in_range; lia|done]|]. split; [lia|].
  rewrite I3, digit_cons_mod by lia. f_equal. ring.
Qed.

Lemma uint256S_numeral ds :
limbs_ok 4 ds -> uint256_wf (uint256S (hex_numeral ds)) /\
le_val 8 (uint256S (hex_numeral ds)) = le_val 4 ds mod 2 ^ 256.
Proof.
intros Hds. unfold uint256S, SetHex, hex_numeral.
change (skip_0x (skip_spaces (48 :: 120 :: map hexmap (reverse ds)))) with (map hexmap (reverse ds)).
rewrite hex_digits_map by by apply Forall_reverse. rewrite reverse_involutive.
destruct (fill_spec 32 ds Hds) as (F1 & F2 & F3). by split; [split|].
Qed.

(** The nibbles of a blob, least significant first. *)
Definition nibbles (b : bytes) : list Z := concat (map (fun v => [Z.land v 15; Z.shiftr v 4]) b).

Lemma nibbles_spec b : bytes_ok b -> limbs_ok 4 (nibbles b) /\ le_val 4 (nibbles b) = le_val 8 b.
Proof.
induction 1 as [|v b Hv Hb [I1 I2]]; [by split|].
assert (Z.land v 15 = v mod 16) as Hlo by (change 15 with (Z.ones 4); by apply Z.land_ones).
assert (Z.shiftr v 4 = v / 16) as Hhi by (by rewrite Z.shiftr_div_pow2 by lia).
unfold in_range in Hv. unfold nibbles in *. cbn [map concat app le_val]. rewrite Hlo, Hhi, I2. split.
- repeat constructor; try done; dlia.
- dlia.
Qed.

Lemma GetHex_numeral b : 48 :: 120 :: GetHex b = hex_numeral (nibbles b).
Proof.
unfold hex_numeral, GetHex, HexStr. do 2 f_equal. induction b as [|v b IH]; [done|].
unfold nibbles in *. cbn [map concat]. rewrite reverse_cons, map_app, concat_app, IH.
rewrite reverse_app, map_app. done.
Qed.

Section pow.
Context `{!cpp_int_io} `{!cpp_int_io_laws}.

Lemma UintToCpp512_spec n : bytes_ok n -> UintToCpp512 n = le_val 8 n.
Proof.
intros Hn. unfold UintToCpp512. rewrite GetHex_numeral.
destruct (nibbles_spec n Hn) as [H1 H2]. by rewrite of_string_hex.
Qed.

(** Writing a 256-bit number in hexadecimal and reading it back. *)
Lemma reparse_spec z :
0 <= z < 2 ^ 256 ->
wf W (UintToArith256 (uint256S (to_hex_string z))) /\
val (UintToArith256 (uint256S (to_hex_string z))) = z.
Proof.
intros Hz. destruct (to_hex_string_hex z) as (ds & -> & Hds & Hv).
{ split; [lia|]. assert (2 ^ 256 < 2 ^ 512) by lia. lia. }
destruct (uint256S_numeral ds Hds) as [Hw He].
destruct (arith_conv.UintToArith256_spec _ Hw) as [Hw' He']. split; [done|].
rewrite He', He, Hv. by apply Z.mod_small.
Qed.

(** A block that is passed over: mined at minimum difficulty, and neither the
    first of the chain nor the first of an interval. *)
Definition special (interval limit : Z) (c : CBlockIndex) : Prop :=
is_Some (pprev c) /\ Z.rem (nHeight c) interval <> 0 /\ nBits c = limit.

(** [q] is the last block, from [p] downwards, that is not passed over. *)
Record last_normal (m : index_map) (interval limit : Z) (p q : ptr) (c : CBlockIndex) : Prop := {
  ln_ancestor : ancestor m p (nHeight c) q;
  ln_normal : ~ special interval limit c;
  ln_above : forall h r d, ancestor m p h r -> nHeight c < h -> m !! r = Some d -> special interval limit d;
}.

Lemma last_normal_self m interval limit p b :
index_wf m -> m !! p = Some b -> ~ special interval limit b -> last_normal m interval limit p p b.
Proof.
intros Hwf Hp Hs. split; [by apply ancestor_self|done|]. intros h r d Hr Hh _.
pose proof (ancestor_range m Hwf p b h r Hp Hr). lia.
Qed.

Lemma last_non_special_spec m interval limit fuel p b :
index_wf m -> m !! p = Some b -> nHeight b <= Z.of_nat fuel ->
exists q c, last_non_special m interval limit fuel p = Some c /\ m !! q = Some c /\ last_normal m interval limit p q c.
Proof.
intros Hwf. revert p b. induction fuel as [|fuel IH]; intros p b Hp Hf; cbn [last_non_special];
  rewrite Hp; cbn [mbind option_bind];
  (destruct (pprev b) as [q|] eqn:Hq;
   [|exists p, b; split_and!; [done..|]; apply last_normal_self; [done..|]; intros [[? ?] _]; congruence]);
  destruct (wf_parent m Hwf p b q Hp Hq) as (c & Hc & ?);
  pose proof (wf_height m Hwf q c Hc); try lia.
destruct (Z.eqb_spec (Z.rem (nHeight b) interval) 0); cbn [negb andb].
{ exists p, b. split_and!; [done..|]. apply last_normal_self; [done..|]. by intros (_ & ? & _). }
destruct (Z.eqb_spec (nBits b) limit).
2:{ exists p, b. split_and!; [done..|]. apply last_normal_self; [done..|]. by intros (_ & _ & ?). }
destruct (IH q c Hc ltac:(lia)) as (r & d & Hr1 & Hr2 & [Hr3 Hr4 Hr5]). exists r, d. split_and!; [done..|]. split; [|done|].
- eapply ancestor_trans; [by apply (parent_ancestor m Hwf p b q)|done].
- intros h x y Hx Hlt Hy. destruct (ancestor_cases m p b h x Hp Hx) as [->|(q' & Hq' & Hx')].
  + assert (y = b) as -> by congruence. split; [by exists q|done].
  + assert (q' = q) as -> by congruence. by apply (Hr5 h x y).
Qed.

(** The parameters the retarget relies on. *)
Definition params_ok (params : Params) : Prop :=
uint256_wf (powLimit params) /\ 4 <= nPowTargetTimespan params < 2 ^ 60 /\
0 < nPowTargetSpacing params <= nPowTargetTimespan params.

Definition pow_limit (params : Params) : Z := le_val 8 (powLimit params).

Lemma powLimit_arith params : params_ok params ->
wf W (UintToArith256 (powLimit params)) /\ val (UintToArith256 (powLimit params)) = pow_limit params /\
0 <= pow_limit params < 2 ^ 256.
Proof.
intros [Hw _]. destruct (arith_conv.UintToArith256_spec _ Hw) as [H1 H2].
split; [done|]. split; [done|]. unfold pow_limit. rewrite <- H2. by apply (val_bound (WIDTH := W)).
Qed.

(** The measured time span, limited to a factor of four. *)
Definition clamp (timespan actual : Z) : Z := Z.min (timespan * 4) (Z.max (timespan / 4) actual).

(** The retarget as one formula on integers. *)
Definition retarget (params : Params) (old actual : Z) : Z :=
Z.min (pow_limit params)
  (compact_value old mod 2 ^ 256 * clamp (nPowTargetTimespan params) actual
   / nPowTargetTimespan params).

Lemma retarget_range params old actual :
params_ok params -> 0 <= retarget params old actual < 2 ^ 256.
Proof.
intros Hok. destruct (powLimit_arith params Hok) as (_ & _ & Hl). destruct Hok as (_ & Ht & _).
unfold retarget. pose proof (Z.mod_pos_bound (compact_value old) (2 ^ 256) ltac:(lia)).
assert (0 <= clamp (nPowTargetTimespan params) actual).
{ unfold clamp. assert (0 <= nPowTargetTimespan params / 4) by dlia. lia. }
assert (0 <= compact_value old mod 2 ^ 256 * clamp (nPowTargetTimespan params) actual
   / nPowTargetTimespan params) by (apply Z.div_pos; nia). lia.
Qed.

Lemma retarget_steps params bits span :
params_ok params -> in_range 32 bits -> 0 <= span <= nPowTargetTimespan params * 4 ->
let bnNew := wrap 512 (UintToCpp512 (ArithToUint256 (SetCompact bits).1.1) * span)
             / nPowTargetTimespan params in
let bnLimit := UintToCpp512 (powLimit params) in
(if bnNew >? bnLimit then bnLimit else bnNew) =
  Z.min (pow_limit params) (compact_value bits mod 2 ^ 256 * span / nPowTargetTimespan params).
Proof.
intros Hok Hbits Hspan. cbn zeta. pose proof (SetCompact_spec bits Hbits) as Hs.
destruct (SetCompact bits) as [[t neg] ovf]. destruct Hs as ([Hl Hw] & Hv & _). cbn [fst].
destruct (arith_conv.ArithToUint256_spec t Hw) as (A1 & A2 & A3).
destruct Hok as ([_ Hp] & Ht & _).
rewrite !UintToCpp512_spec, A3, Hv by done.
pose proof (Z.mod_pos_bound (compact_value bits) (2 ^ 256) ltac:(lia)) as Hb.
rewrite wrap_small.
2:{ unfold in_range. split; [nia|]. assert (2 ^ 256 * 2 ^ 62 < 2 ^ 512) by lia. nia. }
unfold pow_limit. rewrite Z.gtb_ltb. bcases; lia.
Qed.

Lemma clamp_steps timespan actual :
4 <= timespan ->
(let a := if actual <? Z.quot timespan 4 then Z.quot timespan 4 else actual in
 if a >? timespan * 4 then timespan * 4 else a) = clamp timespan actual.
Proof.
intros Ht. cbn zeta. unfold clamp. rewrite Z.quot_div_nonneg, Z.gtb_ltb by lia.
assert (timespan / 4 <= timespan * 4) by dlia.
destruct (Z.ltb_spec actual (timespan / 4)); bcases; lia.
Qed.

Lemma CalculateNextWorkRequired_spec m p b first params :
index_wf m -> m !! p = Some b -> params_ok params -> fPowNoRetargeting params = false ->
(forall q c, m !! q = Some c -> in_range 32 (nBits c)) ->
exists q c, m !! q = Some c /\ ancestor m p (nHeight c) q /\
  (nHeight b <= 51840 -> c = b) /\
  (51840 < nHeight b -> last_normal m (DifficultyAdjustmentInterval params) (compact_of (pow_limit params)) p q c) /\
  CalculateNextWorkRequired m p first params =
    Some (compact_of (retarget params (nBits c) (GetBlockTime b - first))).
Proof.
intros Hwf Hp Hok Hre Hbits. unfold CalculateNextWorkRequired. rewrite Hp. cbn [mbind option_bind].
rewrite Hre. destruct (powLimit_arith params Hok) as (L1 & L2 & L3).
rewrite GetCompact_spec by done. cbn [mbind option_bind andb]. rewrite L2, Z.add_0_r.
pose proof (proj1 (proj2 Hok)) as Ht.
rewrite (clamp_steps _ (GetBlockTime b - first)) by lia.
assert (forall bits, in_range 32 bits ->
  GetCompact (UintToArith256 (uint256S (to_hex_string
    (if wrap 512 (UintToCpp512 (ArithToUint256 (SetCompact bits).1.1) *
           clamp (nPowTargetTimespan params) (GetBlockTime b - first))
         / nPowTargetTimespan params >? UintToCpp512 (powLimit params)
     then UintToCpp512 (powLimit params)
     else wrap 512 (UintToCpp512 (ArithToUint256 (SetCompact bits).1.1) *
           clamp (nPowTargetTimespan params) (GetBlockTime b - first))
         / nPowTargetTimespan params)))) false
  = Some (compact_of (retarget params bits (GetBlockTime b - first)))) as Hcore.
{ intros bits Hb. rewrite retarget_steps by first [done | unfold clamp;
    assert (0 <= nPowTargetTimespan params / 4) by dlia; lia].
  change (Z.min (pow_limit params) _) with (retarget params bits (GetBlockTime b - first)).
  pose proof (retarget_range params bits (GetBlockTime b - first) Hok) as Hr.
  destruct (reparse_spec _ Hr) as [R1 R2].
  rewrite GetCompact_spec by done. cbn [andb]. by rewrite R2, Z.add_0_r. }
rewrite Z.gtb_ltb. destruct (Z.ltb_spec 51840 (nHeight b)) as [Hh|Hh].
- pose proof (wf_height m Hwf p b Hp).
  destruct (last_non_special_spec m (DifficultyAdjustmentInterval params)
    (compact_of (pow_limit params)) (Z.to_nat (nHeight b)) p b Hwf Hp ltac:(lia))
    as (q & c & -> & Hc & Hn).
  cbn [mbind option_bind]. exists q, c. split; [done|]. split; [apply Hn|]. split; [lia|]. split; [done|].
  apply Hcore. by apply (Hbits q).
- cbn [mbind option_bind]. exists p, b. split; [done|]. split; [by apply ancestor_self|].
  split; [done|]. split; [lia|]. apply Hcore. by apply (Hbits p).
Qed.
End pow.

(** ** The proof-of-work test *)

Lemma CheckProofOfWork_spec hash bits params :
uint256_wf hash -> uint256_wf (powLimit params) -> in_range 32 bits ->
CheckProofOfWork hash bits params =
  match target_of bits with
  | Some t => (t <=? le_val 8 (powLimit params)) && (le_val 8 hash <=? t)
  | None => false
  end.
Proof.
intros Hh Hl Hb. unfold CheckProofOfWork, target_of. pose proof (SetCompact_spec bits Hb) as Hs.
destruct (SetCompact bits) as [[t neg] ovf]. destruct Hs as (Hw & Hv & -> & ->).
destruct (arith_conv.UintToArith256_spec _ Hl) as [L1 L2].
destruct (arith_conv.UintToArith256_spec _ Hh) as [H1 H2].
rewrite (EqualTo_val (WIDTH := W)) by (first [done | lia | unfold in_range; lia]).
rewrite !gtb_val, L2, H2 by done.
destruct (negb (compact_value bits =? 0) && Z.testbit bits 23); cbn [orb]; [done|].
destruct (Z.leb_spec (2 ^ 256) (compact_value bits)) as [Hov|Hov]; cbn [orb].
{ by rewrite orb_true_r. }
assert (0 <= compact_value bits) as H0.
{ unfold compact_value. apply Z.div_pos; [|lia].
  assert (0 <= mantissa bits) by (apply Z.mod_pos_bound; lia).
  assert (0 <= 256 ^ exponent bits) by (apply Z.pow_nonneg; lia). nia. }
rewrite Hv, Z.mod_small by lia. rewrite orb_false_r.
destruct (Z.eqb_spec (compact_value bits) 0); cbn [orb]; [done|].
bcases; reflexivity.
Qed.
End pow_facts.

(** ** A concrete [cpp_int_io] for the witnesses *)

Module pow_example.
Definition of_string (s : bytes) : Z := le_val 4 (reverse (hex_digits (drop 2 s))).
#[export] Instance io : cpp_int_io :=
  { of_string := of_string; to_hex_string z := hex_numeral (le_digits 4 128 z) }.

#[export] Instance io_laws : cpp_int_io_laws.
Proof.
  split.
  - intros ds Hds. change (le_val 4 (reverse (hex_digits (map hexmap (reverse ds)))) = le_val 4 ds).
    rewrite pow_facts.hex_digits_map by by apply Forall_reverse. by rewrite reverse_involutive.
  - intros z Hz. exists (le_digits 4 128 z). split; [done|].
    split; [apply le_digits_ok; lia|]. rewrite le_val_digits by lia. by apply Z.mod_small.
Qed.

Definition params : Params := {|
  hashGenesisBlock := uint256_null; nSubsidyHalvingInterval := 840000;
  nRuleChangeActivationThreshold := 108; nMinerConfirmationWindow := 144; vDeployments := [];
  powLimit := le_digits 8 32 (2 ^ 255 - 1); fPowAllowMinDifficultyBlocks := false;
  fPowNoRetargeting := false; nPowTargetSpacing := 600; nPowTargetTimespan := 1200;
  nMinimumChainWork := uint256_null; defaultAssumeValid := uint256_null;
  authorizationForkHeight := 0; authorizationKey := {| IsFullyValid := false; Verify _ _ := false |} |}.

Lemma params_ok : pow_facts.params_ok params.
Proof.
  split; [split; [apply length_le_digits|apply le_digits_ok; lia]|]. cbn. lia.
Qed.

Lemma bits_ok q c : chain_example.index !! q = Some c -> in_range 32 (nBits c).
Proof.
  unfold chain_example.index. intros H.
  repeat (apply lookup_insert_Some in H as [[<- <-]|[_ H]]; [by unfold in_range; cbn; lia|]).
  by rewrite lookup_empty in H.
Qed.
End pow_example.

(** ** Properties *)

Section properties.
Context `{!cpp_int_io} `{!cpp_int_io_laws}.

(** The retarget of a well-formed index never fails; it scales the
    target of the last block (or, above height 51840, of the last block
    that was not mined at minimum difficulty) by the measured time span
    clamped to a factor of four, without losing bits in the intermediate
    512-bit product, and the target it encodes never exceeds the
    proof-of-work limit nor four times the old target. *)
Lemma CalculateNextWorkRequired_correct (m : index_map) (p : ptr) (b : CBlockIndex)
    (first : Z) (params : Params) :
  index_wf m -> m !! p = Some b -> pow_facts.params_ok params -> fPowNoRetargeting params = false ->
  (forall q c, m !! q = Some c -> in_range 32 (nBits c)) ->
  exists q c r, m !! q = Some c /\ ancestor m p (nHeight c) q /\ (nHeight b <= 51840 -> c = b) /\
    (51840 < nHeight b ->
     pow_facts.last_normal m (DifficultyAdjustmentInterval params) (compact_of (pow_facts.pow_limit params)) p q c) /\
    CalculateNextWorkRequired m p first params = Some r /\
    r = compact_of (pow_facts.retarget params (nBits c) (GetBlockTime b - first)) /\
    compact_value r <= pow_facts.pow_limit params /\
    compact_value r <= 4 * (compact_value (nBits c) mod 2 ^ 256).
Proof.
  intros Hwf Hp Hok Hre Hbits.
  destruct (pow_facts.CalculateNextWorkRequired_spec m p b first params Hwf Hp Hok Hre Hbits)
    as (q & c & Hq & Ha & Hb & Hn & ->).
  pose proof (pow_facts.retarget_range params (nBits c) (GetBlockTime b - first) Hok) as Hr.
  set (z := pow_facts.retarget params (nBits c) (GetBlockTime b - first)) in *.
  destruct (compact_roundtrip z ltac:(lia)) as [Hle _].
  exists q, c, (compact_of z). repeat (split; [done|]).
  pose proof (proj1 (proj2 Hok)) as Ht.
  pose proof (Z.mod_pos_bound (compact_value (nBits c)) (2 ^ 256) ltac:(lia)).
  assert (z <= pow_facts.pow_limit params /\ z <= 4 * (compact_value (nBits c) mod 2 ^ 256)) as [? ?];
    [|split; lia].
  unfold z, pow_facts.retarget. split; [lia|].
  assert (compact_value (nBits c) mod 2 ^ 256 *
    pow_facts.clamp (nPowTargetTimespan params) (GetBlockTime b - first) / nPowTargetTimespan params
    <= 4 * (compact_value (nBits c) mod 2 ^ 256)); [|lia].
  apply Z.div_le_upper_bound; [lia|]. unfold pow_facts.clamp. nia.
Qed.

Lemma GetNextWorkRequired_spec (m : index_map) (p : ptr) (b : CBlockIndex)
    (pblock : CBlockHeader) (params : Params) :
  index_wf m -> m !! p = Some b -> pow_facts.params_ok params ->
  (forall q c, m !! q = Some c -> in_range 32 (nBits c)) ->
  let interval := DifficultyAdjustmentInterval params in
  exists r, GetNextWorkRequired m p pblock params = Some r /\
    if decide ((nHeight b + 1) mod interval = 0)
    then exists f d, ancestor m p (nHeight b + 1 - interval) f /\ m !! f = Some d /\
           CalculateNextWorkRequired m p (GetBlockTime d) params = Some r
    else (r = compact_of (pow_facts.pow_limit params) /\
            fPowAllowMinDifficultyBlocks params = true /\ nHeight b < 60500 /\
            nTime b + nPowTargetSpacing params * 2 < hdr_nTime pblock) \/
         (exists q c, ancestor m p (nHeight c) q /\ m !! q = Some c /\ r = nBits c /\
            if (60500 <=? nHeight b) || fPowAllowMinDifficultyBlocks params
            then pow_facts.last_normal m interval (compact_of (pow_facts.pow_limit params)) p q c else c = b).
Proof.
  intros Hwf Hp Hok Hbits. cbn zeta.
  pose proof (wf_height m Hwf p b Hp) as Hh. destruct (pow_facts.powLimit_arith params Hok) as (L1 & L2 & _).
  assert (1 <= DifficultyAdjustmentInterval params) as Hi.
  { destruct Hok as (_ & ? & ?). unfold DifficultyAdjustmentInterval.
    rewrite Z.quot_div_nonneg by lia. apply Z.div_le_lower_bound; lia. }
  unfold GetNextWorkRequired. rewrite Hp. cbn [mbind option_bind].
  set (interval := DifficultyAdjustmentInterval params) in *.
  rewrite Z.rem_mod_nonneg by lia. rewrite GetCompact_spec by done. cbn [andb mbind option_bind].
  rewrite Z.add_0_r, L2.
  destruct (pow_facts.last_non_special_spec m interval (compact_of (pow_facts.pow_limit params))
    (Z.to_nat (nHeight b)) p b Hwf Hp ltac:(lia)) as (q & c & Hwalk & Hc & Hn).
  case_decide as Hd.
  - rewrite Hd. cbn [Z.eqb negb]. rewrite Z.geb_leb.
    assert (interval <= nHeight b + 1) as Hle.
    { apply Z.mod_divide in Hd; [|lia]. by apply Z.divide_pos_le in Hd; [|lia]. }
    rewrite (proj2 (Z.leb_le _ _)) by lia. cbn [negb].
    destruct (chain_facts.GetAncestor_Some m Hwf p b (nHeight b - (interval - 1)) Hp ltac:(lia))
      as (f & d & -> & Hf & Hfd & _).
    cbn [mbind option_bind]. rewrite Hfd. cbn [mbind option_bind].
    destruct (fPowNoRetargeting params) eqn:Hre.
    + exists (nBits b). unfold CalculateNextWorkRequired. rewrite Hp. cbn [mbind option_bind]. rewrite Hre.
      split; [done|]. exists f, d. by replace (nHeight b + 1 - interval) with (nHeight b - (interval - 1)) by lia.
    + destruct (pow_facts.CalculateNextWorkRequired_spec m p b (GetBlockTime d) params Hwf Hp Hok Hre Hbits)
        as (? & ? & _ & _ & _ & _ & Hcalc).
      eexists. split; [exact Hcalc|]. exists f, d.
      by replace (nHeight b + 1 - interval) with (nHeight b - (interval - 1)) by lia.
  - rewrite (proj2 (Z.eqb_neq _ _) Hd). cbn [negb].
    destruct (Z.ltb_spec (nHeight b) 60500);
      [rewrite (proj2 (Z.leb_gt _ _)) by lia; destruct (fPowAllowMinDifficultyBlocks params);
       [rewrite Z.gtb_ltb; destruct (Z.ltb_spec (GetBlockTime b + nPowTargetSpacing params * 2) (hdr_nTime pblock))|]|
       rewrite (proj2 (Z.leb_le _ _)) by lia].
    + eexists. split; [done|]. left. by repeat split.
    + rewrite Hwalk. eexists. split; [done|]. right. exists q, c. split; [apply Hn|done].
    + eexists. split; [done|]. right. exists p, b. split; [by apply chain_facts.ancestor_self|done].
    + rewrite Hwalk. eexists. split; [done|]. right. exists q, c. split; [apply Hn|done].
Qed.

(** C22: The difficulty rules.  On a block of a well-formed index
    [GetNextWorkRequired] never fails: off a retarget boundary it returns the
    limit, where the network lets late blocks be mined at minimum difficulty, or
    the [nBits] of the block or, from height 60500 on and on such a network, of
    the last block that was not mined at minimum difficulty; and on a boundary
    the retarget over the interval that ends at the block.  The retarget scales
    the target of the block (or, above height 51840, of the last block that was
    not mined at minimum difficulty) by the measured time span clamped to a
    factor of four, without losing bits in the intermediate 512-bit product, and
    the target it encodes never exceeds the proof-of-work limit nor four times
    the old one.  The last block not mined at minimum difficulty is the one
    ([last_normal]) below which nothing is looked at and above which every block
    has the limit as its [nBits]; the first block of the chain and of an interval
    also end the search. *)
Theorem difficulty_correct (m : index_map) (p : ptr) (b : CBlockIndex) (params : Params) :
  index_wf m -> m !! p = Some b -> pow_facts.params_ok params ->
  (forall q c, m !! q = Some c -> in_range 32 (nBits c)) ->
  (forall pblock, let interval := DifficultyAdjustmentInterval params in
   exists r, GetNextWorkRequired m p pblock params = Some r /\
    if decide ((nHeight b + 1) mod interval = 0)
    then exists f d, ancestor m p (nHeight b + 1 - interval) f /\ m !! f = Some d /\
           CalculateNextWorkRequired m p (GetBlockTime d) params = Some r
    else (r = compact_of (pow_facts.pow_limit params) /\
            fPowAllowMinDifficultyBlocks params = true /\ nHeight b < 60500 /\
            nTime b + nPowTargetSpacing params * 2 < hdr_nTime pblock) \/
         (exists q c, ancestor m p (nHeight c) q /\ m !! q = Some c /\ r = nBits c /\
            if (60500 <=? nHeight b) || fPowAllowMinDifficultyBlocks params
            then pow_facts.last_normal m interval (compact_of (pow_facts.pow_limit params)) p q c else c = b)) /\
  (fPowNoRetargeting params = false -> forall first,
   exists q c r, m !! q = Some c /\ ancestor m p (nHeight c) q /\ (nHeight b <= 51840 -> c = b) /\
    (51840 < nHeight b ->
     pow_facts.last_normal m (DifficultyAdjustmentInterval params) (compact_of (pow_facts.pow_limit params)) p q c) /\
    CalculateNextWorkRequired m p first params = Some r /\
    r = compact_of (pow_facts.retarget params (nBits c) (GetBlockTime b - first)) /\
    compact_value r <= pow_facts.pow_limit params /\
    compact_value r <= 4 * (compact_value (nBits c) mod 2 ^ 256)).
Proof.
  intros Hwf Hp Hok Hbits. split.
  - intros pblock. by apply GetNextWorkRequired_spec.
  - intros Hre first. by apply CalculateNextWorkRequired_correct.
Qed.
End properties.

#[local] Existing Instance pow_example.io.
#[local] Existing Instance pow_example.io_laws.

Lemma difficulty_correct_witness :
  (exists r, GetNextWorkRequired chain_example.index 4 (chain_example.header 2000 uint256_null)
               pow_example.params = Some r) /\
  exists r, CalculateNextWorkRequired chain_example.index 4 900 pow_example.params = Some r /\
    compact_value r <= pow_facts.pow_limit pow_example.params.
Proof.
  destruct (difficulty_correct chain_example.index 4 _ pow_example.params
    chain_example.index_ok eq_refl pow_example.params_ok pow_example.bits_ok) as [H1 H2]. split.
  - destruct (H1 (chain_example.header 2000 uint256_null)) as (r & Hr & _). exists r. exact Hr.
  - destruct (H2 eq_refl 900) as (q & c & r & _ & _ & _ & _ & Hr & _ & Hl & _). exists r. split; [exact Hr|exact Hl].
Defined.

(** [CheckProofOfWork] accepts a hash exactly when [nBits] encodes a
    positive target that fits 256 bits and is not above the limit, and the
    hash, read as a little-endian number, is not above the target; and the work
    that [GetBlockProof] counts for a block is [2^256 / (target + 1)], computed
    within 256 bits, and zero for a negative, overflowing or zero target. *)
Theorem CheckProofOfWork_correct (hash : uint256) (bits : Z) (params : Params) :
  uint256_wf hash -> uint256_wf (powLimit params) -> in_range 32 bits ->
  (CheckProofOfWork hash bits params = true <->
   exists t, chain_facts.target_of bits = Some t /\ t <= le_val 8 (powLimit params) /\ le_val 8 hash <= t) /\
  exists w, GetBlockProof bits = Some w /\ base_uint.wf 8 w /\
    base_uint.val w = match chain_facts.target_of bits with Some t => 2 ^ 256 / (t + 1) | None => 0 end.
Proof.
  intros Hh Hl Hb. split; [|by apply chain_facts.GetBlockProof_spec]. rewrite pow_facts.CheckProofOfWork_spec by done.
  destruct (chain_facts.target_of bits) as [t|].
  - rewrite andb_true_iff, !Z.leb_le. split; [intros [? ?]; by exists t|]. intros (t' & [= <-] & ? & ?). done.
  - split; [done|]. by intros (? & ? & _).
Qed.

Lemma CheckProofOfWork_correct_witness :
  uint256_wf (le_digits 8 32 5) /\ CheckProofOfWork (le_digits 8 32 5) 0x207fffff pow_example.params = true.
Proof.
  assert (uint256_wf (le_digits 8 32 5)) as Hh by (split; [apply length_le_digits|apply le_digits_ok; lia]).
  split; [exact Hh|].
  apply (fun H => proj1 (CheckProofOfWork_correct _ 0x207fffff pow_example.params Hh (proj1 pow_example.params_ok) H)).
  - unfold in_range; lia.
  - eexists. split; [reflexivity|]. split; vm_compute; intros H; discriminate H.
Defined.
