(* ===== verification/VersionBits.v ===== *)
(** * BIP9 version bits ([versionbits.h], [versionbits.cpp])

    The threshold state machine of soft-fork deployments.  The abstract class
    [AbstractThresholdConditionChecker] is the typeclass
    [ThresholdConditionChecker]; the cache, a [std::map] keyed by possibly
    null block pointers, is a [gmap] passed through every operation.  The
    specification is the relation [bip9] of module [versionbits_facts], which
    knows neither the cache nor the walk. *)

From S2P Require Import Prelude Uint256 Chain Params.

Definition VERSIONBITS_LAST_OLD_BLOCK_VERSION : Z := 4.
Definition VERSIONBITS_TOP_BITS : Z := 0x20000000.
(** An [int32_t] constant: the top bit makes it negative. *)
Definition VERSIONBITS_TOP_MASK : Z := i32 0xE0000000.
Definition VERSIONBITS_NUM_BITS : Z := 29.

Inductive ThresholdState :=
  | THRESHOLD_DEFINED
  | THRESHOLD_STARTED
  | THRESHOLD_LOCKED_IN
  | THRESHOLD_ACTIVE
  | THRESHOLD_FAILED.

#[export] Instance ThresholdState_eq_dec : EqDecision ThresholdState.
Proof. solve_decision. Defined.

Abbreviation ThresholdConditionCache := (gmap (option ptr) ThresholdState).

Record BIP9Stats := {
  period : Z;
  threshold : Z;
  elapsed : Z;
  count : Z;
  possible : bool;
}.

(** The virtual functions of [AbstractThresholdConditionChecker]; [Condition]
    reads the block index and fails on a null pointer. *)
Class ThresholdConditionChecker := {
  Condition : index_map -> ptr -> Params -> option bool;
  BeginTime : Params -> Z;
  EndTime : Params -> Z;
  Period : Params -> Z;
  Threshold : Params -> Z;
}.

(** What a checker promises: its condition is defined on every block. *)
Class ThresholdConditionLaws `(ThresholdConditionChecker) : Prop :=
  Condition_total : forall m p b params, m !! p = Some b -> is_Some (Condition m p params).

Section checker.
Context {C : ThresholdConditionChecker} (m : index_map) (params : Params).

(** The counting loop of the state [THRESHOLD_STARTED]; [None] is a null
    pointer reaching [Condition] or [pprev]. *)
Fixpoint count_loop (n : nat) (pindexCount : option ptr) (count : Z) : option Z :=
  match n with
  | O => Some count
  | S n =>
      p ← pindexCount;
      signals ← Condition m p params;
      b ← m !! p;
      count_loop n (pprev b) (if (signals : bool) then count + 1 else count)
  end.

(** The [switch] of [GetStateFor]. *)
Definition stateNext (pindexPrev : ptr) (state : ThresholdState) : option ThresholdState :=
  match state with
  | THRESHOLD_DEFINED =>
      t ← GetMedianTimePast m pindexPrev;
      Some (if t >=? EndTime params then THRESHOLD_FAILED
            else if t >=? BeginTime params then THRESHOLD_STARTED
            else state)
  | THRESHOLD_STARTED =>
      t ← GetMedianTimePast m pindexPrev;
      if t >=? EndTime params then Some THRESHOLD_FAILED
      else count ← count_loop (Z.to_nat (Period params)) (Some pindexPrev) 0;
           Some (if count >=? Threshold params then THRESHOLD_LOCKED_IN else state)
  | THRESHOLD_LOCKED_IN => Some THRESHOLD_ACTIVE
  | THRESHOLD_FAILED | THRESHOLD_ACTIVE => Some state
  end.

(** The backward walk; the head of [vToCompute] is the back of the vector.
    Each turn lowers the height by [Period]. *)
Fixpoint walk_back (fuel : nat) (pindexPrev : option ptr) (vToCompute : list ptr)
    (cache : ThresholdConditionCache) : option (option ptr * list ptr * ThresholdConditionCache) :=
  match fuel with
  | O => None
  | S fuel =>
      match cache !! pindexPrev, pindexPrev with
      | Some _, _ => Some (pindexPrev, vToCompute, cache)
      | None, None => Some (None, vToCompute, <[None := THRESHOLD_DEFINED]> cache)
      | None, Some p =>
          t ← GetMedianTimePast m p;
          if t <? BeginTime params
          then Some (Some p, vToCompute, <[Some p := THRESHOLD_DEFINED]> cache)
          else b ← m !! p;
               q ← GetAncestor m p (nHeight b - Period params);
               walk_back fuel q (p :: vToCompute) cache
      end
  end.

(** The forward walk. *)
Fixpoint walk_forward (vToCompute : list ptr) (state : ThresholdState)
    (cache : ThresholdConditionCache) : option (ThresholdState * ThresholdConditionCache) :=
  match vToCompute with
  | [] => Some (state, cache)
  | p :: vToCompute =>
      next ← stateNext p state;
      walk_forward vToCompute next (<[Some p := next]> cache)
  end.

(** The last block of the period before the one that follows [p]; [%]
    truncates towards zero. *)
Definition period_end (p : ptr) : option (option ptr) :=
  b ← m !! p; GetAncestor m p (nHeight b - Z.rem (nHeight b + 1) (Period params)).

Definition GetStateFor (pindexPrev : option ptr) (cache : ThresholdConditionCache)
    : option (ThresholdState * ThresholdConditionCache) :=
  if BeginTime params =? ALWAYS_ACTIVE then Some (THRESHOLD_ACTIVE, cache)
  else
    pindexPrev ← match pindexPrev with Some p => period_end p | None => Some None end;
    fuel ← match pindexPrev with
           | Some p => b ← m !! p; Some (Z.to_nat (nHeight b) + 2)%nat
           | None => Some 1%nat
           end;
    '(pindexPrev, vToCompute, cache) ← walk_back fuel pindexPrev [] cache;
    state ← cache !! pindexPrev;
    walk_forward vToCompute state cache.

(** The loop of [GetStateStatisticsFor] from [currentIndex] back to the height
    [h] of the end of the previous period. *)
Fixpoint statistics_loop (fuel : nat) (h : Z) (currentIndex : option ptr) (count : Z) : option Z :=
  p ← currentIndex;
  b ← m !! p;
  if h =? nHeight b then Some count
  else match fuel with
       | O => None
       | S fuel =>
           signals ← Condition m p params;
           statistics_loop fuel h (pprev b) (if (signals : bool) then count + 1 else count)
       end.

(** [None] includes the null pointer [pindexEndOfPrevPeriod] of the first
    period, which the code dereferences. *)
Definition GetStateStatisticsFor (pindex : option ptr) : option BIP9Stats :=
  let period_ := Period params in
  let threshold_ := Threshold params in
  match pindex with
  | None => Some {| period := period_; threshold := threshold_; elapsed := 0; count := 0; possible := false |}
  | Some p =>
      b ← m !! p;
      pindexEndOfPrevPeriod ← period_end p;
      e ← pindexEndOfPrevPeriod;
      be ← m !! e;
      let elapsed_ := nHeight b - nHeight be in
      count_ ← statistics_loop (Z.to_nat elapsed_) (nHeight be) (Some p) 0;
      Some {| period := period_; threshold := threshold_; elapsed := elapsed_; count := count_;
              possible := period_ - threshold_ >=? elapsed_ - count_ |}
  end.

(** The loop of [GetStateSinceHeightFor]. *)
Fixpoint since_loop (fuel : nat) (initialState : ThresholdState) (p : ptr)
    (cache : ThresholdConditionCache) : option (ptr * ThresholdConditionCache) :=
  b ← m !! p;
  previousPeriodParent ← GetAncestor m p (nHeight b - Period params);
  match previousPeriodParent with
  | None => Some (p, cache)
  | Some q =>
      '(state, cache) ← GetStateFor (Some q) cache;
      if decide (state = initialState)
      then match fuel with
           | O => None
           | S fuel => since_loop fuel initialState q cache
           end
      else Some (p, cache)
  end.

Definition GetStateSinceHeightFor (pindexPrev : option ptr) (cache : ThresholdConditionCache)
    : option (Z * ThresholdConditionCache) :=
  if BeginTime params =? ALWAYS_ACTIVE then Some (0, cache)
  else
    '(initialState, cache) ← GetStateFor pindexPrev cache;
    if decide (initialState = THRESHOLD_DEFINED) then Some (0, cache)
    else
      p ← pindexPrev;
      pindexPrev ← period_end p;
      p ← pindexPrev;
      b ← m !! p;
      '(p, cache) ← since_loop (Z.to_nat (nHeight b)) initialState p cache;
      b ← m !! p;
      Some (nHeight b + 1, cache).
End checker.

(** ** [VersionBitsConditionChecker]

    A deployment position is an index of [vDeployments]; the enumeration has
    no value outside the array. *)

Definition deployment (params : Params) (id : nat) : BIP9Deployment :=
  nth id (vDeployments params) {| bit := 0; nStartTime := 0; nTimeout := 0 |}.

Definition Mask (id : nat) (params : Params) : Z := u32 (Z.shiftl 1 (bit (deployment params id))).

(** [nVersion] is an [int32_t]: the comparison with the mask of a deployment
    is done on its 32-bit unsigned value. *)
Definition version_signals (id : nat) (params : Params) (nVersion : Z) : bool :=
  (Z.land nVersion VERSIONBITS_TOP_MASK =? VERSIONBITS_TOP_BITS) &&
  negb (Z.land (u32 nVersion) (Mask id params) =? 0).

Definition VersionBitsConditionChecker (id : nat) : ThresholdConditionChecker := {|
  Condition m p params := b ← m !! p; Some (version_signals id params (nVersion b));
  BeginTime params := nStartTime (deployment params id);
  EndTime params := nTimeout (deployment params id);
  Period params := i32 (nMinerConfirmationWindow params);
  Threshold params := i32 (nRuleChangeActivationThreshold params);
|}.

#[export] Instance VersionBitsConditionLaws id : ThresholdConditionLaws (VersionBitsConditionChecker id).
Proof. intros m p b params Hp. cbn. rewrite Hp. cbn. by eexists. Qed.

(** [VersionBitsCache]: a cache for each deployment. *)
Abbreviation VersionBitsCache := (list ThresholdConditionCache).

Definition VersionBitsState (m : index_map) (pindexPrev : option ptr) (params : Params) (pos : nat)
    (cache : VersionBitsCache) : option (ThresholdState * VersionBitsCache) :=
  c ← cache !! pos;
  '(s, c) ← @GetStateFor (VersionBitsConditionChecker pos) m params pindexPrev c;
  Some (s, <[pos := c]> cache).

Definition VersionBitsStatistics (m : index_map) (pindexPrev : option ptr) (params : Params) (pos : nat)
    : option BIP9Stats :=
  @GetStateStatisticsFor (VersionBitsConditionChecker pos) m params pindexPrev.

Definition VersionBitsStateSinceHeight (m : index_map) (pindexPrev : option ptr) (params : Params) (pos : nat)
    (cache : VersionBitsCache) : option (Z * VersionBitsCache) :=
  c ← cache !! pos;
  '(h, c) ← @GetStateSinceHeightFor (VersionBitsConditionChecker pos) m params pindexPrev c;
  Some (h, <[pos := c]> cache).

Definition VersionBitsMask (params : Params) (pos : nat) : Z := Mask pos params.

Definition Clear (cache : VersionBitsCache) : VersionBitsCache :=
  replicate MAX_VERSION_BITS_DEPLOYMENTS ∅.

(** [ComputeBlockVersion] ([validation.cpp]): the version of a new block
    signals every deployment that is started or locked in.  [nVersion |= mask]
    converts back to [int32_t]. *)
Fixpoint ComputeBlockVersion_loop (m : index_map) (pindexPrev : option ptr) (params : Params)
    (n i : nat) (nVersion : Z) (cache : VersionBitsCache) : option (Z * VersionBitsCache) :=
  match n with
  | O => Some (nVersion, cache)
  | S n =>
      '(state, cache) ← VersionBitsState m pindexPrev params i cache;
      let nVersion :=
        if decide (state = THRESHOLD_LOCKED_IN \/ state = THRESHOLD_STARTED)
        then i32 (Z.lor (u32 nVersion) (VersionBitsMask params i)) else nVersion in
      ComputeBlockVersion_loop m pindexPrev params n (S i) nVersion cache
  end.

Definition ComputeBlockVersion (m : index_map) (pindexPrev : option ptr) (params : Params)
    (cache : VersionBitsCache) : option (Z * VersionBitsCache) :=
  ComputeBlockVersion_loop m pindexPrev params MAX_VERSION_BITS_DEPLOYMENTS 0 VERSIONBITS_TOP_BITS cache.

(** ** Median times

    The times of a block's successors keep its median time past from
    decreasing, when every block is later than the median of its parent. *)

Module median_facts.

Definition count_lt (v : Z) (l : list Z) : nat := length (filter (fun x => x < v) l).

Lemma count_lt_app v l k : count_lt v (l ++ k) = (count_lt v l + count_lt v k)%nat.
Proof. unfold count_lt. by rewrite filter_app, length_app. Qed.

Lemma count_lt_le v l : (count_lt v l <= length l)%nat.
Proof. apply length_filter. Qed.

Lemma count_lt_take v l n : (count_lt v (take n l) <= count_lt v l)%nat.
Proof. rewrite <- (take_drop n l) at 2. rewrite count_lt_app. lia. Qed.

Lemma count_lt_none v l : Forall (fun x => v <= x) l -> count_lt v l = 0%nat.
Proof.
intros H. induction H as [|x l Hx _ IH]; [done|]. unfold count_lt in *.
rewrite filter_cons_False by lia. done.
Qed.

Lemma count_lt_all v l : Forall (fun x => x < v) l -> count_lt v l = length l.
Proof.
intros H. induction H as [|x l Hx _ IH]; [done|]. unfold count_lt in *.
rewrite filter_cons_True by lia. cbn. lia.
Qed.

Lemma sorted_split s k x : StronglySorted Z.le s -> s !! k = Some x ->
Forall (fun y => y <= x) (take (S k) s) /\ Forall (fun y => x <= y) (drop k s).
Proof.
intros Hs. revert k. induction Hs as [|y s Hs IH Hy]; intros k Hk; [done|].
destruct k as [|k]; cbn [lookup list_lookup] in Hk.
- simplify_eq. cbn. split; [by repeat constructor|]. constructor; [lia|done].
- apply IH in Hk as Hk'. destruct Hk' as [H1 H2]. cbn [take drop]. split; [|done].
  constructor; [|done]. eapply Forall_lookup_1 in Hk; [|exact Hy]. done.
Qed.

Lemma merge_sort_strong l : StronglySorted Z.le (merge_sort Z.le l).
Proof. apply (StronglySorted_merge_sort Z.le). Qed.

Lemma merge_sort_count v l : count_lt v (merge_sort Z.le l) = count_lt v l.
Proof. unfold count_lt. by rewrite (merge_sort_Permutation Z.le l). Qed.

(** The element of index [k] of the sorted list is at least [v] exactly when
    at most [k] elements are less than [v]. *)
Lemma sorted_nth_ge v l k x : merge_sort Z.le l !! k = Some x ->
(v <= x <-> (count_lt v l <= k)%nat).
Proof.
intros Hk. rewrite <- merge_sort_count.
destruct (sorted_split _ k x (merge_sort_strong l) Hk) as [H1 H2]. split.
- intros Hv. rewrite <- (take_drop k (merge_sort Z.le l)), count_lt_app.
  rewrite (count_lt_none v (drop k _)) by (eapply Forall_impl; [exact H2|]; cbn; lia).
  pose proof (count_lt_le v (take k (merge_sort Z.le l))). rewrite length_take in *. lia.
- intros Hc. destruct (Z.le_gt_cases v x) as [|Hlt]; [done|].
  apply lookup_lt_Some in Hk as Hlen.
  assert (S k <= count_lt v (merge_sort Z.le l))%nat; [|lia].
  rewrite <- (take_drop (S k) (merge_sort Z.le l)), count_lt_app.
  rewrite count_lt_all by (eapply Forall_impl; [exact H1|]; cbn; lia).
  rewrite length_take. lia.
Qed.

Definition median (l : list Z) : option Z := merge_sort Z.le l !! Nat.div2 (length l).

Lemma median_is_Some l : l <> [] -> is_Some (median l).
Proof.
intros Hl. apply lookup_lt_is_Some. rewrite (Permutation_length (merge_sort_Permutation Z.le l)).
destruct l; [done|]. apply Nat.lt_div2. cbn. lia.
Qed.

(** A window that drops its oldest element and gains a time above the median
    has a median that is not lower. *)
Lemma median_window l n t x y : median l = Some x -> x < t ->
length l = S n \/ (length l <= n)%nat -> median (t :: take n l) = Some y -> x <= y.
Proof.
unfold median. intros Hx Ht Hn Hy. apply (sorted_nth_ge x _ _ _ Hy).
assert (count_lt x l <= Nat.div2 (length l))%nat as Hc by (apply (sorted_nth_ge x _ _ _ Hx); lia).
change (t :: take n l) with ([t] ++ take n l). rewrite count_lt_app.
rewrite (count_lt_none x [t]) by (constructor; [lia|done]).
pose proof (count_lt_take x l n) as H1. cbn [length app]. rewrite length_take.
transitivity (Nat.div2 (length l)); [lia|]. apply Nat.div2_le_mono. lia.
Qed.

Section times.
Context (m : index_map) (Hwf : index_wf m).

Lemma past_times_defined n p b : m !! p = Some b -> is_Some (past_times m n (Some p)).
Proof.
revert p b. induction n as [|n IH]; intros p b Hp; [by eexists|].
cbn [past_times]. rewrite Hp. cbn [mbind option_bind].
destruct (pprev b) as [q|] eqn:Hq.
- destruct (wf_parent m Hwf p b q Hp Hq) as (c & Hc & _).
  destruct (IH q c Hc) as [l ->]. by eexists.
- destruct n; by eexists.
Qed.

Lemma past_times_take n k pp l : past_times m n pp = Some l -> (k <= n)%nat ->
past_times m k pp = Some (take k l).
Proof.
revert k pp l. induction n as [|n IH]; intros k pp l Hl Hk.
- assert (k = 0%nat) as -> by lia. done.
- destruct k as [|k]; [done|]. cbn [past_times] in *. destruct pp as [p|]; [|by simplify_eq].
  destruct (m !! p) as [b|]; [|done]. cbn [mbind option_bind] in *.
  destruct (past_times m n (pprev b)) as [r|] eqn:Hr; [|done]. cbn in Hl. simplify_eq.
  rewrite (IH k _ r Hr) by lia. done.
Qed.

Lemma past_times_length n pp l : past_times m n pp = Some l -> (length l <= n)%nat.
Proof.
revert pp l. induction n as [|n IH]; intros pp l Hl; cbn [past_times] in Hl; [by simplify_eq|].
destruct pp as [p|]; [|simplify_eq; cbn; lia].
destruct (m !! p) as [b|]; [|done]. cbn [mbind option_bind] in *.
destruct (past_times m n (pprev b)) as [r|] eqn:Hr; [|done]. cbn in Hl. simplify_eq.
apply IH in Hr. cbn. lia.
Qed.

Lemma GetMedianTimePast_defined p b : m !! p = Some b -> is_Some (GetMedianTimePast m p).
Proof.
intros Hp. destruct (past_times_defined nMedianTimeSpan p b Hp) as [l Hl].
unfold GetMedianTimePast. rewrite Hl. cbn [mbind option_bind]. apply median_is_Some.
change (past_times m nMedianTimeSpan (Some p)) with
  (b ← m !! p; rest ← past_times m 10 (pprev b); Some (GetBlockTime b :: rest)) in Hl.
rewrite Hp in Hl. cbn [mbind option_bind] in Hl.
destruct (past_times m 10 (pprev b)); [|done]. by injection Hl as <-.
Qed.

(** The rule [time-too-old] of [ContextualCheckBlockHeader]. *)
Definition times_increase : Prop := forall p b q t,
  m !! p = Some b -> pprev b = Some q -> GetMedianTimePast m q = Some t -> t < nTime b.

Lemma median_monotone_parent p b q t t' : times_increase ->
m !! p = Some b -> pprev b = Some q ->
GetMedianTimePast m q = Some t -> GetMedianTimePast m p = Some t' -> t <= t'.
Proof.
intros Hinc Hp Hq Ht Ht'. pose proof (Hinc p b q t Hp Hq Ht) as Hlt.
unfold GetMedianTimePast in Ht, Ht'.
destruct (past_times m nMedianTimeSpan (Some q)) as [l|] eqn:Hl; [|done].
cbn [mbind option_bind] in Ht. change nMedianTimeSpan with 11%nat in Ht', Hl.
change (past_times m 11 (Some p)) with
  (b ← m !! p; rest ← past_times m 10 (pprev b); Some (GetBlockTime b :: rest)) in Ht'.
rewrite Hp in Ht'. cbn [mbind option_bind] in Ht'. rewrite Hq in Ht'.
rewrite (past_times_take 11 10 _ l Hl) in Ht' by lia. cbn [mbind option_bind] in Ht'.
pose proof (past_times_length 11 _ l Hl).
apply (median_window l 10 (GetBlockTime b) t t'); [exact Ht|exact Hlt|lia|exact Ht'].
Qed.

Lemma median_monotone p h r t t' : times_increase -> ancestor m p h r ->
GetMedianTimePast m r = Some t -> GetMedianTimePast m p = Some t' -> t <= t'.
Proof.
intros Hinc [Hr _] Ht. revert t'. induction Hr as [p|p q r Hpq Hqr IH]; intros t' Ht'.
- replace t' with t by congruence. lia.
- destruct Hpq as (b & Hp & Hq).
  destruct (wf_parent m Hwf p b q Hp Hq) as (c & Hc & _).
  destruct (GetMedianTimePast_defined q c Hc) as [u Hu].
  pose proof (median_monotone_parent p b q u t' Hinc Hp Hq Hu Ht').
  pose proof (IH Ht u Hu). lia.
Qed.
End times.
End median_facts.

(** ** Specification: the state machine of BIP9 *)

Module versionbits_facts.
Import chain_facts median_facts.

Section bip9.
Context `{C : ThresholdConditionChecker} (m : index_map) (params : Params).
Implicit Types p r : ptr.

Abbreviation P := (Period params).

(** The last [n] blocks of the chain that ends at [p], newest first. *)
Definition last_blocks (p : ptr) (n : Z) (ps : list ptr) : Prop :=
exists h, height m p = Some h /\ Forall2 (fun i q => ancestor m p (h - i) q) (seqZ 0 n) ps.

Definition signalling (ps : list ptr) : Z :=
Z.of_nat (length (filter (fun q => Condition m q params = Some true) ps)).

(** The transitions at the last block [p] of a period. *)
Inductive bip9_step (p : ptr) : ThresholdState -> ThresholdState -> Prop :=
| step_wait t : GetMedianTimePast m p = Some t -> t < BeginTime params -> t < EndTime params ->
    bip9_step p THRESHOLD_DEFINED THRESHOLD_DEFINED
| step_start t : GetMedianTimePast m p = Some t -> BeginTime params <= t -> t < EndTime params ->
    bip9_step p THRESHOLD_DEFINED THRESHOLD_STARTED
| step_timeout s t : s = THRESHOLD_DEFINED \/ s = THRESHOLD_STARTED ->
    GetMedianTimePast m p = Some t -> EndTime params <= t -> bip9_step p s THRESHOLD_FAILED
| step_lock_in t ps : GetMedianTimePast m p = Some t -> t < EndTime params ->
    last_blocks p P ps -> Threshold params <= signalling ps ->
    bip9_step p THRESHOLD_STARTED THRESHOLD_LOCKED_IN
| step_continue t ps : GetMedianTimePast m p = Some t -> t < EndTime params ->
    last_blocks p P ps -> signalling ps < Threshold params ->
    bip9_step p THRESHOLD_STARTED THRESHOLD_STARTED
| step_activate : bip9_step p THRESHOLD_LOCKED_IN THRESHOLD_ACTIVE
| step_final s : s = THRESHOLD_ACTIVE \/ s = THRESHOLD_FAILED -> bip9_step p s s.

(** [prev_end p q]: the period that [p] ends begins after [q]. *)
Definition prev_end (p : ptr) (q : option ptr) : Prop :=
exists h, height m p = Some h /\ (h + 1) mod P = 0 /\
  match q with Some q => ancestor m p (h - P) q | None => h - P < 0 end.

(** [bip9 q s]: the deployment is in state [s] in the period after the block
    [q], the last of its period, or in the first period. *)
Inductive bip9 : option ptr -> ThresholdState -> Prop :=
| bip9_genesis : bip9 None THRESHOLD_DEFINED
| bip9_period p q s s' : prev_end p q -> bip9 q s -> bip9_step p s s' -> bip9 (Some p) s'.

(** The period of the block that follows [pindexPrev] begins after [q]. *)
Definition after (pindexPrev q : option ptr) : Prop :=
match pindexPrev with
| None => q = None
| Some p => exists h, height m p = Some h /\
    match q with
    | Some q => ancestor m p (h - (h + 1) mod P) q
    | None => h - (h + 1) mod P < 0
    end
end.

(** The state of the block that follows [pindexPrev]. *)
Definition state_after (pindexPrev : option ptr) (s : ThresholdState) : Prop :=
exists q, after pindexPrev q /\ bip9 q s.

Definition cache_ok (cache : ThresholdConditionCache) : Prop :=
forall q s, cache !! q = Some s -> bip9 q s.

Context (Hwf : index_wf m) (Hlaws : ThresholdConditionLaws C) (HP : 0 < P).

Lemma height_nonneg p h : height m p = Some h -> 0 <= h.
Proof. intros (b & Hb & <-)%height_lookup. by apply (wf_height m Hwf p b). Qed.

Lemma last_blocks_det p n ps ps' : last_blocks p n ps -> last_blocks p n ps' -> ps = ps'.
Proof.
intros (h & Hh & H1) (h' & Hh' & H2). assert (h' = h) as -> by congruence. revert ps' H2.
induction H1 as [|i q l ps Hq _ IH]; intros ps' H2; inversion H2 as [|? q' ? ps2]; subst; [done|].
f_equal; [by apply (ancestor_unique m Hwf p (h - i))|by apply IH].
Qed.

Lemma bip9_step_det p s s1 s2 : bip9_step p s s1 -> bip9_step p s s2 -> s1 = s2.
Proof.
intros H1 H2. destruct H1; inversion H2; subst; intuition (simplify_eq; try lia; try done).
all: match goal with
     | A : last_blocks ?r ?n ?x, B : last_blocks ?r ?n ?y |- _ =>
         pose proof (last_blocks_det r n x y A B); subst; lia
     end.
Qed.

Lemma prev_end_det p q1 q2 : prev_end p q1 -> prev_end p q2 -> q1 = q2.
Proof.
intros (h & Hh & _ & H1) (h' & Hh' & _ & H2). assert (h' = h) as -> by congruence.
destruct q1 as [q1|], q2 as [q2|]; try done.
- f_equal. by apply (ancestor_unique m Hwf p (h - P)).
- apply height_lookup in Hh as (b & Hb & ?). pose proof (ancestor_range m Hwf p b _ _ Hb H1). lia.
- apply height_lookup in Hh as (b & Hb & ?). pose proof (ancestor_range m Hwf p b _ _ Hb H2). lia.
Qed.

Lemma bip9_det q s s' : bip9 q s -> bip9 q s' -> s = s'.
Proof.
intros H1. revert s'. induction H1 as [|p q s s1 Hq _ IH Hs]; intros s' H2; inversion H2; subst; [done|].
match goal with A : prev_end p ?x, B : bip9 ?x _ |- _ =>
  pose proof (prev_end_det p q x Hq A); subst; pose proof (IH _ B); subst end.
by apply (bip9_step_det p _ s1 s') in Hs.
Qed.

Lemma after_det pp q1 q2 : after pp q1 -> after pp q2 -> q1 = q2.
Proof.
destruct pp as [p|]; cbn; [|congruence]. intros (h & Hh & H1) (h' & Hh' & H2). assert (h' = h) as -> by congruence.
destruct q1 as [q1|], q2 as [q2|]; try done.
- f_equal. by apply (ancestor_unique m Hwf p (h - (h + 1) mod P)).
- apply height_lookup in Hh as (b & Hb & ?). pose proof (ancestor_range m Hwf p b _ _ Hb H1). lia.
- apply height_lookup in Hh as (b & Hb & ?). pose proof (ancestor_range m Hwf p b _ _ Hb H2). lia.
Qed.

Lemma state_after_det pp s s' : state_after pp s -> state_after pp s' -> s = s'.
Proof.
intros (q & Hq & Hs) (q' & Hq' & Hs'). rewrite (after_det pp q q' Hq Hq') in Hs. by apply (bip9_det q').
Qed.

(** The counting loop counts the signalling blocks of the period. *)
Lemma count_loop_spec n p b c : m !! p = Some b -> Z.of_nat n <= nHeight b + 1 ->
exists ps, Forall2 (fun i q => ancestor m p (nHeight b - i) q) (seqZ 0 (Z.of_nat n)) ps /\
  count_loop m params n (Some p) c = Some (c + signalling ps).
Proof.
revert p b c. induction n as [|n IH]; intros p b c Hp Hn.
{ exists []. split; [by constructor|]. cbn. f_equal. unfold signalling. cbn. lia. }
destruct (Hlaws m p b params Hp) as [x Hx].
rewrite seqZ_cons by lia. cbn [count_loop mbind option_bind]. rewrite Hx. cbn [mbind option_bind].
rewrite Hp. cbn [mbind option_bind].
assert (forall ps, (if x then c + 1 else c) + signalling ps = c + signalling (p :: ps)) as Hcount.
{ intros ps. unfold signalling. destruct x.
  - rewrite filter_cons_True by done. cbn [length]. lia.
  - rewrite filter_cons_False by congruence. lia. }
assert (ancestor m p (nHeight b - 0) p) as Hself by (rewrite Z.sub_0_r; by apply ancestor_self).
destruct (decide (n = 0%nat)) as [->|Hn0].
{ exists [p]. split; [constructor; [done|]; by constructor|]. rewrite <- Hcount. cbn [count_loop signalling].
  f_equal. unfold signalling. cbn. lia. }
destruct (positive_parent m Hwf p b Hp ltac:(lia)) as (q & d & Hq & Hd & Hh). rewrite Hq.
destruct (IH q d (if x then c + 1 else c) Hd ltac:(lia)) as (ps & Hps & ->).
exists (p :: ps). split; [|by rewrite Hcount]. constructor; [done|].
replace (Z.pred (Z.of_nat (S n))) with (Z.of_nat n) by lia.
change (Z.succ 0) with (0 + 1). rewrite <- (fmap_add_seqZ 1 0), Forall2_fmap_l.
eapply Forall2_impl; [exact Hps|]. cbn. intros i r [Hr Hhr]. split.
- apply rtc_l with q; [|done]. by exists b.
- rewrite Hhr. f_equal. lia.
Qed.

Lemma period_full p h : height m p = Some h -> (h + 1) mod P = 0 -> P <= h + 1.
Proof.
intros Hh Hm. pose proof (height_nonneg p h Hh).
apply Z.mod_divide in Hm; [|lia]. apply Z.divide_pos_le; [lia|done].
Qed.

(** The [switch] follows the transitions. *)
Lemma stateNext_spec p q s : prev_end p q -> exists s', stateNext m params p s = Some s' /\ bip9_step p s s'.
Proof.
intros (h & Hh & Hm & _). pose proof (period_full p h Hh Hm) as Hfull.
apply height_lookup in Hh as (b & Hp & Hb).
destruct (GetMedianTimePast_defined m Hwf p b Hp) as [t Ht].
destruct s; cbn [stateNext]; try (eexists; split; [done|constructor; by auto]).
- rewrite Ht. cbn [mbind option_bind]. rewrite !Z.geb_leb.
  destruct (Z.leb_spec (EndTime params) t).
  { eexists. split; [done|]. by apply step_timeout with t; [auto|..]. }
  destruct (Z.leb_spec (BeginTime params) t).
  { eexists. split; [done|]. by apply step_start with t. }
  eexists. split; [done|]. by apply step_wait with t.
- rewrite Ht. cbn [mbind option_bind]. rewrite !Z.geb_leb.
  destruct (Z.leb_spec (EndTime params) t).
  { eexists. split; [done|]. by apply step_timeout with t; [auto|..]. }
  destruct (count_loop_spec (Z.to_nat P) p b 0 Hp ltac:(lia)) as (ps & Hps & ->).
  rewrite Z2Nat.id in Hps by lia.
  assert (last_blocks p P ps) as Hlast by (exists (nHeight b); split; [apply height_lookup; by exists b|done]).
  cbn [mbind option_bind]. rewrite !Z.geb_leb, Z.add_0_l.
  destruct (Z.leb_spec (Threshold params) (signalling ps)).
  + eexists. split; [done|]. by apply step_lock_in with t ps.
  + eexists. split; [done|]. by apply step_continue with t ps.
Qed.

Lemma GetAncestor_cases p b h : m !! p = Some b -> h <= nHeight b ->
exists q, GetAncestor m p h = Some q /\
  match q with Some q => ancestor m p h q /\ 0 <= h | None => h < 0 end.
Proof.
intros Hp Hh. destruct (Z.lt_ge_cases h 0).
- exists None. split; [|done]. unfold GetAncestor. rewrite Hp. cbn [mbind option_bind].
  rewrite Z.gtb_ltb, (proj2 (Z.ltb_ge _ _)) by lia. by rewrite (proj2 (Z.ltb_lt h 0)).
- destruct (GetAncestor_Some m Hwf p b h Hp) as (r & c & ? & ? & _); [lia|]. by exists (Some r).
Qed.

Lemma period_end_spec p b : m !! p = Some b -> exists q, period_end m params p = Some q /\ after (Some p) q.
Proof.
intros Hp. pose proof (wf_height m Hwf p b Hp). unfold period_end. rewrite Hp. cbn [mbind option_bind].
rewrite Z.rem_mod_nonneg by lia.
destruct (GetAncestor_cases p b (nHeight b - (nHeight b + 1) mod P) Hp) as (q & -> & Hq).
{ pose proof (Z.mod_pos_bound (nHeight b + 1) P HP). lia. }
exists q. split; [done|]. exists (nHeight b). split; [apply height_lookup; by exists b|].
destruct q; [by destruct Hq|done].
Qed.

(** The state is defined for every block of the index. *)
Lemma prev_end_exists p b : m !! p = Some b -> (nHeight b + 1) mod P = 0 ->
exists q, GetAncestor m p (nHeight b - P) = Some q /\ prev_end p q.
Proof.
intros Hp Hm. destruct (GetAncestor_cases p b (nHeight b - P) Hp) as (q & Hg & Hq); [lia|].
exists q. split; [done|]. exists (nHeight b). split; [apply height_lookup; by exists b|].
split; [done|]. destruct q; [by destruct Hq|done].
Qed.

Lemma prev_end_aligned p q r : prev_end p q -> q = Some r ->
exists c, m !! r = Some c /\ (nHeight c + 1) mod P = 0.
Proof.
intros (h & Hh & Hm & Ha) ->. destruct Ha as [_ Hr]. apply height_lookup in Hr as (c & Hc & Hch).
exists c. split; [done|]. rewrite Hch.
replace (h - P + 1) with (h + 1 + (-1) * P) by lia. by rewrite Z.mod_add by lia.
Qed.

(** The shortcut of the backward walk: a period that ends before the start
    time is in the first state, because median times do not decrease. *)
Lemma early_defined p b t : times_increase m -> BeginTime params <= EndTime params ->
m !! p = Some b -> (nHeight b + 1) mod P = 0 ->
GetMedianTimePast m p = Some t -> t < BeginTime params -> bip9 (Some p) THRESHOLD_DEFINED.
Proof.
intros Hinc Hbe. revert p b t.
enough (forall n p b t, (Z.to_nat (nHeight b) < n)%nat -> m !! p = Some b -> (nHeight b + 1) mod P = 0 ->
  GetMedianTimePast m p = Some t -> t < BeginTime params -> bip9 (Some p) THRESHOLD_DEFINED) as H.
{ intros p b t. by apply (H (S (Z.to_nat (nHeight b)))); lia. }
induction n as [|n IH]; intros p b t Hn Hp Hm Ht Hlt; [lia|].
destruct (prev_end_exists p b Hp Hm) as (q & _ & Hq).
apply bip9_period with q THRESHOLD_DEFINED; [done| |by apply step_wait with t; [..|lia]].
destruct q as [q|]; [|constructor].
destruct (prev_end_aligned p _ q Hq eq_refl) as (c & Hc & Hcm).
destruct Hq as (h & Hh & _ & Hanc). pose proof Hanc as [_ Hqh].
apply height_lookup in Hh as (b' & Hb' & <-). assert (b' = b) as -> by congruence.
apply height_lookup in Hqh as (c' & Hc' & Hch). assert (c' = c) as -> by congruence.
destruct (GetMedianTimePast_defined m Hwf q c Hc) as [u Hu].
pose proof (median_monotone m Hwf p _ q u t Hinc Hanc Hu Ht).
pose proof (wf_height m Hwf q c Hc). apply (IH q c u); [lia|done..|lia].
Qed.

(** [linked q l]: the blocks of [l] end successive periods, the first after [q]. *)
Fixpoint linked (q : option ptr) (l : list ptr) : Prop :=
match l with
| [] => True
| p :: l => prev_end p q /\ linked (Some p) l
end.

Definition end_of (q : option ptr) (l : list ptr) : option ptr :=
match last l with Some p => Some p | None => q end.

Lemma end_of_cons q p l : end_of q (p :: l) = end_of (Some p) l.
Proof. unfold end_of. rewrite last_cons. by destruct (last l). Qed.

Definition aligned (q : option ptr) : Prop :=
match q with Some p => exists b, m !! p = Some b /\ (nHeight b + 1) mod P = 0 | None => True end.

Definition turns (q : option ptr) : nat :=
match q with Some p => match m !! p with Some b => Z.to_nat (nHeight b) + 2 | None => 1 end | None => 1 end.

Lemma cache_ok_insert cache q s : cache_ok cache -> bip9 q s -> cache_ok (<[q := s]> cache).
Proof. intros Hc Hs q' s' [[<- <-]|[_ H]]%lookup_insert_Some; [done|by apply Hc]. Qed.

Lemma walk_back_spec fuel q l cache : times_increase m -> BeginTime params <= EndTime params ->
aligned q -> (turns q <= fuel)%nat -> linked q l -> cache_ok cache ->
exists q' l' cache' s, walk_back m params fuel q l cache = Some (q', l', cache') /\
  linked q' l' /\ end_of q' l' = end_of q l /\ cache_ok cache' /\ cache' !! q' = Some s.
Proof.
intros Hinc Hbe. revert q l cache. induction fuel as [|fuel IH]; intros q l cache Ha Hf Hl Hc.
{ destruct q as [p|]; cbn in Hf; [destruct (m !! p)|]; lia. }
cbn [walk_back]. destruct (cache !! q) as [s|] eqn:Hq; [by exists q, l, cache, s|].
destruct q as [p|].
2:{ exists None, l, (<[None := THRESHOLD_DEFINED]> cache), THRESHOLD_DEFINED. do 3 (split; [done|]).
  split; [apply cache_ok_insert; [done|constructor]|by rewrite lookup_insert_eq]. }
destruct Ha as (b & Hp & Hm). destruct (GetMedianTimePast_defined m Hwf p b Hp) as [t Ht].
rewrite Ht. cbn [mbind option_bind]. destruct (Z.ltb_spec t (BeginTime params)) as [Hlt|_].
{ exists (Some p), l, (<[Some p := THRESHOLD_DEFINED]> cache), THRESHOLD_DEFINED. do 3 (split; [done|]).
  split; [apply cache_ok_insert; [done|by apply early_defined with b t]|by rewrite lookup_insert_eq]. }
rewrite Hp. cbn [mbind option_bind]. destruct (prev_end_exists p b Hp Hm) as (q & -> & Hpe).
cbn [mbind option_bind].
destruct (IH q (p :: l) cache) as (q' & l' & cache' & s & H1 & H2 & H3 & H4 & H5); [| |by split|done|].
- destruct q as [q|]; [|done]. destruct (prev_end_aligned p _ q Hpe eq_refl) as (c & ? & ?). by exists c.
- pose proof (wf_height m Hwf p b Hp). cbn in Hf. rewrite Hp in Hf. destruct q as [q|]; cbn; [|lia].
  destruct Hpe as (h & Hh & _ & [_ Hqh]). apply height_lookup in Hh as (b' & Hb' & <-).
  apply height_lookup in Hqh as (c & Hc' & Hch). rewrite Hc'. assert (b' = b) as -> by congruence.
  pose proof (wf_height m Hwf q c Hc'). lia.
- exists q', l', cache', s. rewrite end_of_cons in H3. by repeat split.
Qed.

Lemma walk_forward_spec l q s cache : linked q l -> bip9 q s -> cache_ok cache ->
exists s' cache', walk_forward m params l s cache = Some (s', cache') /\
  bip9 (end_of q l) s' /\ cache_ok cache'.
Proof.
revert q s cache. induction l as [|p l IH]; intros q s cache Hl Hs Hc.
{ by exists s, cache. }
destruct Hl as [Hpe Hl]. destruct (stateNext_spec p q s Hpe) as (s' & Hn & Hstep).
cbn [walk_forward]. rewrite Hn. cbn [mbind option_bind]. rewrite end_of_cons.
assert (bip9 (Some p) s') as Hs' by (by apply bip9_period with q s).
apply IH; [done..|]. by apply cache_ok_insert.
Qed.

(** [GetStateFor] computes the state of BIP9 from any correct cache. *)
Lemma GetStateFor_spec pindexPrev cache :
times_increase m -> BeginTime params <= EndTime params -> BeginTime params <> ALWAYS_ACTIVE ->
(forall p, pindexPrev = Some p -> m !! p <> None) -> cache_ok cache ->
exists s cache', GetStateFor m params pindexPrev cache = Some (s, cache') /\
  state_after pindexPrev s /\ cache_ok cache'.
Proof.
intros Hinc Hbe Hna Hp Hc. unfold GetStateFor. rewrite (proj2 (Z.eqb_neq _ _) Hna).
assert (exists q, (match pindexPrev with Some p => period_end m params p | None => Some None end) = Some q
  /\ after pindexPrev q /\ aligned q) as (q & -> & Hq & Ha).
{ destruct pindexPrev as [p|]; [|by exists None].
  destruct (m !! p) as [b|] eqn:Hb; [|by destruct (Hp p eq_refl)].
  destruct (period_end_spec p b Hb) as (q & Hq & Haf). exists q. split; [done|]. split; [done|].
  destruct q as [q|]; [|done]. destruct Haf as (h & Hh & [_ Hqh]).
  apply height_lookup in Hqh as (c & ? & Hch). exists c. split; [done|]. rewrite Hch.
  replace (h - (h + 1) mod P + 1) with ((h + 1) - (h + 1) mod P) by lia.
  rewrite Zminus_mod_idemp_r, Z.sub_diag. by apply Z.mod_0_l; lia. }
cbn [mbind option_bind].
assert ((match q with Some p => b ← m !! p; Some (Z.to_nat (nHeight b) + 2)%nat | None => Some 1%nat end)
  = Some (turns q)) as ->.
{ destruct q as [q|]; [|done]. destruct Ha as (b & Hb & _). unfold turns. by rewrite Hb. }
cbn [mbind option_bind].
destruct (walk_back_spec (turns q) q [] cache Hinc Hbe Ha (le_n _) I Hc)
  as (q' & l & cache1 & s & -> & Hl & Hend & Hc1 & Hs).
cbn [mbind option_bind]. rewrite Hs. cbn [mbind option_bind].
destruct (walk_forward_spec l q' s cache1 Hl (Hc1 _ _ Hs) Hc1) as (s' & cache' & -> & Hs' & Hc').
exists s', cache'. split; [done|]. split; [|done]. exists q. split; [done|]. by rewrite Hend in Hs'.
Qed.

Lemma after_aligned p b : m !! p = Some b -> (nHeight b + 1) mod P = 0 -> after (Some p) (Some p).
Proof.
intros Hp Hm. exists (nHeight b). split; [apply height_lookup; by exists b|].
rewrite Hm, Z.sub_0_r. by apply ancestor_self.
Qed.

Lemma state_after_aligned p b s : m !! p = Some b -> (nHeight b + 1) mod P = 0 ->
state_after (Some p) s -> bip9 (Some p) s.
Proof.
intros Hp Hm (q & Hq & Hs). by rewrite (after_det _ _ _ Hq (after_aligned p b Hp Hm)) in Hs.
Qed.

(** One step back to a period in the same state [s]. *)
Definition same_state (s : ThresholdState) (p r : ptr) : Prop := prev_end p (Some r) /\ bip9 (Some r) s.

(** [r] ends the period that precedes the first one in the state [s]. *)
Definition state_begins (s : ThresholdState) (p r : ptr) : Prop :=
rtc (same_state s) p r /\ exists q s', prev_end r q /\ bip9 q s' /\ s' <> s.

Lemma since_loop_spec fuel s p b cache :
times_increase m -> BeginTime params <= EndTime params -> BeginTime params <> ALWAYS_ACTIVE ->
s <> THRESHOLD_DEFINED -> m !! p = Some b -> (nHeight b + 1) mod P = 0 -> (Z.to_nat (nHeight b) <= fuel)%nat ->
cache_ok cache ->
exists r cache', since_loop m params fuel s p cache = Some (r, cache') /\ state_begins s p r /\
  is_Some (m !! r) /\ cache_ok cache'.
Proof.
intros Hinc Hbe Hna Hs. revert p b cache. induction fuel as [|fuel IH]; intros p b cache Hp Hm Hf Hc.
all: destruct (prev_end_exists p b Hp Hm) as (q & Hg & Hpe).
all: cbn [since_loop]; rewrite Hp; cbn [mbind option_bind]; rewrite Hg; cbn [mbind option_bind].
all: destruct q as [q|]; [|exists p, cache; split; [done|]; split; [|by split; [eexists|]];
  split; [done|]; exists None, THRESHOLD_DEFINED; split; [done|]; split; [constructor|congruence]].
all: destruct (prev_end_aligned p _ q Hpe eq_refl) as (c & Hq & Hqm).
all: destruct (GetStateFor_spec (Some q) cache) as (s' & cache1 & -> & Hs' & Hc1);
  [done..|intros ? [= <-]; congruence|done|].
all: apply (state_after_aligned q c s' Hq Hqm) in Hs'.
all: cbn [mbind option_bind]; case_decide as Heq;
  [|exists p, cache1; split; [done|]; split; [|by split; [eexists|]];
    split; [done|]; by exists (Some q), s'].
all: pose proof Hpe as (h & Hh & _ & [_ Hqh]); pose proof (wf_height m Hwf q c Hq).
all: apply height_lookup in Hh as (b' & Hb' & <-); assert (b' = b) as -> by congruence.
all: apply height_lookup in Hqh as (c' & Hc' & Hch); assert (c' = c) as -> by congruence.
{ lia. }
destruct (IH q c cache1 Hq Hqm ltac:(lia) Hc1) as (r & cache' & H1 & [H2 H2'] & H3).
exists r, cache'. split; [done|]. split; [|done]. split; [|done].
apply rtc_l with q; [|done]. split; [done|by rewrite Heq in Hs'].
Qed.

Lemma GetStateSinceHeightFor_spec pindexPrev cache :
times_increase m -> BeginTime params <= EndTime params -> BeginTime params <> ALWAYS_ACTIVE ->
(forall p, pindexPrev = Some p -> m !! p <> None) -> cache_ok cache ->
exists s h cache', GetStateSinceHeightFor m params pindexPrev cache = Some (h, cache') /\
  cache_ok cache' /\ state_after pindexPrev s /\
  if decide (s = THRESHOLD_DEFINED) then h = 0
  else exists p r b, after pindexPrev (Some p) /\ state_begins s p r /\ m !! r = Some b /\ h = nHeight b + 1.
Proof.
intros Hinc Hbe Hna Hp Hc. unfold GetStateSinceHeightFor. rewrite (proj2 (Z.eqb_neq _ _) Hna).
destruct (GetStateFor_spec pindexPrev cache) as (s & cache1 & -> & Hs & Hc1); [done..|].
cbn [mbind option_bind]. destruct (decide (s = THRESHOLD_DEFINED)) as [Hd|Hd].
{ exists s, 0, cache1. split; [done|]. split; [done|]. split; [done|]. by rewrite decide_True. }
assert (exists p q b, pindexPrev = Some p /\ period_end m params p = Some (Some q) /\
  after (Some p) (Some q) /\ m !! q = Some b /\ (nHeight b + 1) mod P = 0) as (p & q & b & -> & Hpe & Haf & Hq & Hm).
{ destruct Hs as (q & Haf & Hq). destruct q as [q|]; [|inversion Hq; congruence].
  destruct pindexPrev as [p|]; [|done]. destruct (m !! p) as [b|] eqn:Hb; [|by destruct (Hp p eq_refl)].
  destruct (period_end_spec p b Hb) as (q' & Hpe & Haf').
  rewrite (after_det _ _ _ Haf' Haf) in Hpe. inversion Hq as [|? q0 ? ? Hpre]; subst.
  destruct Hpre as (h & Hh & Hm & _). apply height_lookup in Hh as (c & Hc' & <-). by exists p, q, c. }
cbn [mbind option_bind]. rewrite Hpe. cbn [mbind option_bind]. rewrite Hq. cbn [mbind option_bind].
destruct (since_loop_spec (Z.to_nat (nHeight b)) s q b cache1) as (r & cache' & -> & Hr & [d Hrd] & Hc'); [done..|].
cbn [mbind option_bind]. rewrite Hrd. cbn [mbind option_bind].
exists s, (nHeight d + 1), cache'. split; [done|]. split; [done|]. split; [done|].
rewrite decide_False by done. by exists q, r, d.
Qed.

(** *** Statistics *)

Lemma statistics_loop_spec n p b c : m !! p = Some b -> Z.of_nat n <= nHeight b ->
exists ps, Forall2 (fun i q => ancestor m p (nHeight b - i) q) (seqZ 0 (Z.of_nat n)) ps /\
  statistics_loop m params n (nHeight b - Z.of_nat n) (Some p) c = Some (c + signalling ps).
Proof.
intros Hp Hn. destruct (count_loop_spec n p b c Hp ltac:(lia)) as (ps & Hps & Hcnt).
exists ps. split; [done|]. rewrite <- Hcnt. clear ps Hps Hcnt.
revert p b c Hp Hn. induction n as [|n IH]; intros p b c Hp Hn.
{ cbn. rewrite Hp. cbn [mbind option_bind]. by rewrite Z.sub_0_r, Z.eqb_refl. }
destruct (Hlaws m p b params Hp) as [x Hx].
destruct (positive_parent m Hwf p b Hp ltac:(lia)) as (q & d & Hq & Hd & Hh).
cbn [statistics_loop count_loop mbind option_bind]. rewrite Hp. cbn [mbind option_bind].
rewrite (proj2 (Z.eqb_neq _ _)) by lia. rewrite Hx. cbn [mbind option_bind]. rewrite Hq.
replace (nHeight b - Z.of_nat (S n)) with (nHeight d - Z.of_nat n) by lia. apply IH; [done|lia].
Qed.

Lemma GetStateStatisticsFor_spec p b k : m !! p = Some b -> k = (nHeight b + 1) mod P ->
if decide (k <= nHeight b)
then exists ps, last_blocks p k ps /\
  GetStateStatisticsFor m params (Some p) =
    Some {| period := P; threshold := Threshold params; elapsed := k; count := signalling ps;
            possible := P - Threshold params >=? k - signalling ps |}
else GetStateStatisticsFor m params (Some p) = None.
Proof.
intros Hp Hk. pose proof (wf_height m Hwf p b Hp). pose proof (Z.mod_pos_bound (nHeight b + 1) P HP).
unfold GetStateStatisticsFor, period_end. rewrite Hp. cbn [mbind option_bind].
rewrite Z.rem_mod_nonneg by lia. rewrite <- Hk in *.
destruct (GetAncestor_cases p b (nHeight b - k) Hp ltac:(lia)) as (q & -> & Hq). cbn [mbind option_bind].
case_decide as Hle; destruct q as [q|]; [|lia| |done]; [|lia].
destruct Hq as [[_ Hqh] _]. apply height_lookup in Hqh as (c & Hc & Hch). cbn [mbind option_bind].
rewrite Hc. cbn [mbind option_bind]. rewrite Hch.
replace (nHeight b - (nHeight b - k)) with k by lia.
destruct (statistics_loop_spec (Z.to_nat k) p b 0 Hp ltac:(lia)) as (ps & Hps & Hl).
rewrite Z2Nat.id in Hps, Hl by lia. rewrite Hl. cbn [mbind option_bind]. exists ps.
split; [exists (nHeight b); split; [apply height_lookup; by exists b|done]|]. by rewrite Z.add_0_l.
Qed.
End bip9.
End versionbits_facts.

(** ** The version of a new block *)

Definition mask_signals (k : Z) : bool :=
  let mask := u32 (Z.shiftl 1 k) in
  let v := i32 (Z.lor (u32 VERSIONBITS_TOP_BITS) mask) in
  (Z.land v VERSIONBITS_TOP_MASK =? VERSIONBITS_TOP_BITS) && negb (Z.land (u32 v) mask =? 0) &&
  (Z.land (u32 VERSIONBITS_TOP_BITS) mask =? 0).

Lemma mask_signals_all k : 0 <= k < VERSIONBITS_NUM_BITS -> mask_signals k = true.
Proof.
  intros Hk. assert (forallb mask_signals (seqZ 0 VERSIONBITS_NUM_BITS) = true) as H by by vm_compute.
  rewrite forallb_forall in H. apply H. apply list_elem_of_In. by apply elem_of_seqZ.
Qed.

Lemma signals_mask id params : 0 <= bit (deployment params id) < VERSIONBITS_NUM_BITS ->
  version_signals id params (i32 (Z.lor (u32 VERSIONBITS_TOP_BITS) (Mask id params))) = true /\
  version_signals id params VERSIONBITS_TOP_BITS = false.
Proof.
  intros Hk. pose proof (mask_signals_all _ Hk) as H. unfold mask_signals in H.
  apply andb_true_iff in H as [H1 H2]. unfold version_signals, Mask. split; [exact H1|].
  rewrite H2. by rewrite andb_false_r.
Qed.

(** ** A concrete deployment for the witnesses *)

Module versionbits_example.
Definition params : Params := {|
  hashGenesisBlock := uint256_null; nSubsidyHalvingInterval := 150;
  nRuleChangeActivationThreshold := 1; nMinerConfirmationWindow := 2;
  vDeployments := [{| bit := 28; nStartTime := 0; nTimeout := NO_TIMEOUT |}];
  powLimit := le_digits 8 32 (2 ^ 255 - 1); fPowAllowMinDifficultyBlocks := false;
  fPowNoRetargeting := false; nPowTargetSpacing := 600; nPowTargetTimespan := 1200;
  nMinimumChainWork := uint256_null; defaultAssumeValid := uint256_null;
  authorizationForkHeight := 0; authorizationKey := {| IsFullyValid := false; Verify _ _ := false |} |}.

Definition checker : ThresholdConditionChecker := VersionBitsConditionChecker DEPLOYMENT_TESTDUMMY.

Lemma times_ok : median_facts.times_increase chain_example.index.
Proof.
  intros p b q t Hp. unfold chain_example.index in Hp.
  repeat (apply lookup_insert_Some in Hp as [[<- <-]|[_ Hp]];
    [intros [= <-] Ht; vm_compute in Ht; injection Ht as <-; cbn; lia|]).
  by rewrite lookup_empty in Hp.
Qed.

Lemma cache_empty_ok : versionbits_facts.cache_ok (C := checker) chain_example.index params ∅.
Proof. intros q s. by rewrite lookup_empty. Qed.
End versionbits_example.

(** ** Properties *)

(** [GetStateFor] computes the state that the BIP9 state machine has
    reached for the block after [pindexPrev], from any cache whose entries
    are right and leaving such a cache: neither what is cached nor the
    shortcut for periods that end before the start time can change the
    answer, the walk terminates, and no null pointer or assertion fails.  A
    deployment that is always active needs no walk. *)
Lemma GetStateFor_correct {C : ThresholdConditionChecker} (m : index_map) (params : Params)
    (pindexPrev : option ptr) (cache : ThresholdConditionCache) :
  index_wf m -> median_facts.times_increase m -> ThresholdConditionLaws C ->
  0 < Period params -> BeginTime params <= EndTime params ->
  (forall p, pindexPrev = Some p -> m !! p <> None) ->
  versionbits_facts.cache_ok m params cache ->
  exists s cache', GetStateFor m params pindexPrev cache = Some (s, cache') /\
    versionbits_facts.cache_ok m params cache' /\
    if decide (BeginTime params = ALWAYS_ACTIVE) then s = THRESHOLD_ACTIVE /\ cache' = cache
    else forall s', versionbits_facts.state_after m params pindexPrev s' <-> s' = s.
Proof.
  intros Hwf Hinc Hlaws HP Hbe Hp Hc. case_decide as Hna.
  - exists THRESHOLD_ACTIVE, cache. split; [|done]. unfold GetStateFor. by rewrite (proj2 (Z.eqb_eq _ _) Hna).
  - destruct (versionbits_facts.GetStateFor_spec m params Hwf Hlaws HP pindexPrev cache)
      as (s & cache' & H1 & H2 & H3); [done..|].
    exists s, cache'. split; [done|]. split; [done|]. intros s'. split; [|by intros ->].
    intros H. by apply (versionbits_facts.state_after_det m params Hwf pindexPrev).
Qed.

(** [GetStateSinceHeightFor] terminates and returns the height of the
    first block of the period in which the current state began: every period
    from there on has the same state and the period before has another one;
    the result is 0 in the initial state. *)
Lemma GetStateSinceHeightFor_correct {C : ThresholdConditionChecker} (m : index_map) (params : Params)
    (pindexPrev : option ptr) (cache : ThresholdConditionCache) :
  index_wf m -> median_facts.times_increase m -> ThresholdConditionLaws C ->
  0 < Period params -> BeginTime params <= EndTime params -> BeginTime params <> ALWAYS_ACTIVE ->
  (forall p, pindexPrev = Some p -> m !! p <> None) ->
  versionbits_facts.cache_ok m params cache ->
  exists s h cache', GetStateSinceHeightFor m params pindexPrev cache = Some (h, cache') /\
    versionbits_facts.cache_ok m params cache' /\
    versionbits_facts.state_after m params pindexPrev s /\
    if decide (s = THRESHOLD_DEFINED) then h = 0
    else exists p r b, versionbits_facts.after m params pindexPrev (Some p) /\
           versionbits_facts.state_begins m params s p r /\ m !! r = Some b /\ h = nHeight b + 1.
Proof. intros Hwf Hinc Hlaws HP Hbe Hna. by apply versionbits_facts.GetStateSinceHeightFor_spec. Qed.

(** C40: The threshold state machine implements BIP9.  On a well-formed index
    whose median times do not decrease, with any correct cache,
    [GetStateFor] terminates with the one state that the transition rules of
    BIP9, applied from the genesis period on, give for the period, and leaves
    a correct cache; [GetStateSinceHeightFor] gives the height of the first
    block of the first period in which the state has been the same since. *)
Theorem threshold_states_correct {C : ThresholdConditionChecker} (m : index_map) (params : Params)
    (pindexPrev : option ptr) (cache : ThresholdConditionCache) :
  index_wf m -> median_facts.times_increase m -> ThresholdConditionLaws C ->
  0 < Period params -> BeginTime params <= EndTime params ->
  (forall p, pindexPrev = Some p -> m !! p <> None) ->
  versionbits_facts.cache_ok m params cache ->
  (exists s cache', GetStateFor m params pindexPrev cache = Some (s, cache') /\
     versionbits_facts.cache_ok m params cache' /\
     if decide (BeginTime params = ALWAYS_ACTIVE) then s = THRESHOLD_ACTIVE /\ cache' = cache
     else forall s', versionbits_facts.state_after m params pindexPrev s' <-> s' = s) /\
  (BeginTime params <> ALWAYS_ACTIVE ->
   exists s h cache', GetStateSinceHeightFor m params pindexPrev cache = Some (h, cache') /\
     versionbits_facts.cache_ok m params cache' /\
     versionbits_facts.state_after m params pindexPrev s /\
     if decide (s = THRESHOLD_DEFINED) then h = 0
     else exists p r b, versionbits_facts.after m params pindexPrev (Some p) /\
            versionbits_facts.state_begins m params s p r /\ m !! r = Some b /\ h = nHeight b + 1).
Proof. intros. split; [by apply GetStateFor_correct|]. intros. by apply GetStateSinceHeightFor_correct. Qed.

Lemma threshold_states_correct_witness :
  (exists s cache, GetStateFor (C := versionbits_example.checker) chain_example.index
      versionbits_example.params (Some 3%positive) ∅ = Some (s, cache) /\ s = THRESHOLD_STARTED) /\
  exists h cache, GetStateSinceHeightFor (C := versionbits_example.checker) chain_example.index
      versionbits_example.params (Some 3%positive) ∅ = Some (h, cache) /\ h = 2.
Proof.
  destruct (threshold_states_correct (C := versionbits_example.checker) chain_example.index
    versionbits_example.params (Some 3%positive) ∅ chain_example.index_ok versionbits_example.times_ok
    (VersionBitsConditionLaws _)) as [(s & cache & H1 & _) H2].
  { reflexivity. }
  { vm_compute. discriminate. }
  { intros p [= <-]. discriminate. }
  { exact versionbits_example.cache_empty_ok. }
  split.
  - exists s, cache. split; [exact H1|]. vm_compute in H1. injection H1 as <- _. reflexivity.
  - destruct H2 as (s' & h & cache' & H2 & _); [vm_compute; discriminate|].
    exists h, cache'. split; [exact H2|]. vm_compute in H2. injection H2 as <- _. reflexivity.
Defined.

(** [GetStateStatisticsFor] counts the signalling blocks of the current
    period up to [pindex]; in the first period, before a whole period has
    passed, it dereferences a null pointer. *)
Lemma GetStateStatisticsFor_correct {C : ThresholdConditionChecker} (m : index_map) (params : Params)
    (p : ptr) (b : CBlockIndex) (k : Z) :
  index_wf m -> ThresholdConditionLaws C -> 0 < Period params ->
  m !! p = Some b -> k = (nHeight b + 1) mod Period params ->
  if decide (k <= nHeight b)
  then exists ps, versionbits_facts.last_blocks m p k ps /\
    GetStateStatisticsFor m params (Some p) =
      Some {| period := Period params; threshold := Threshold params; elapsed := k;
              count := versionbits_facts.signalling m params ps;
              possible := Period params - Threshold params >=? k - versionbits_facts.signalling m params ps |}
  else GetStateStatisticsFor m params (Some p) = None.
Proof. intros Hwf Hlaws HP. by apply versionbits_facts.GetStateStatisticsFor_spec. Qed.

(** [ComputeBlockVersion] gives the new block a version that signals the
    deployment exactly when BIP9 has it started or locked in. *)
Lemma ComputeBlockVersion_correct (m : index_map) (params : Params) (pindexPrev : option ptr)
    (cache : VersionBitsCache) (c : ThresholdConditionCache) :
  let C := VersionBitsConditionChecker DEPLOYMENT_TESTDUMMY in
  index_wf m -> median_facts.times_increase m ->
  0 < @Period C params -> @BeginTime C params <= @EndTime C params -> @BeginTime C params <> ALWAYS_ACTIVE ->
  0 <= bit (deployment params DEPLOYMENT_TESTDUMMY) < VERSIONBITS_NUM_BITS ->
  (forall p, pindexPrev = Some p -> m !! p <> None) ->
  cache !! DEPLOYMENT_TESTDUMMY = Some c -> versionbits_facts.cache_ok (C := C) m params c ->
  exists v cache' s, ComputeBlockVersion m pindexPrev params cache = Some (v, cache') /\
    versionbits_facts.state_after (C := C) m params pindexPrev s /\
    (version_signals DEPLOYMENT_TESTDUMMY params v = true <-> s = THRESHOLD_STARTED \/ s = THRESHOLD_LOCKED_IN).
Proof.
  intros C Hwf Hinc HP Hbe Hna Hbit Hp Hc Hok.
  destruct (versionbits_facts.GetStateFor_spec m params Hwf (VersionBitsConditionLaws _) HP pindexPrev c)
    as (s & c' & H1 & H2 & _); [done..|].
  destruct (signals_mask _ _ Hbit) as [Hon Hoff].
  unfold ComputeBlockVersion, MAX_VERSION_BITS_DEPLOYMENTS, ComputeBlockVersion_loop, VersionBitsState.
  unfold DEPLOYMENT_TESTDUMMY in *. rewrite Hc. cbn [mbind option_bind]. rewrite H1. cbn [mbind option_bind].
  eexists _, _, s. split; [reflexivity|]. split; [exact H2|]. case_decide as Hs.
  - unfold VersionBitsMask. rewrite Hon. naive_solver.
  - rewrite Hoff. naive_solver.
Qed.

(** What miners and users are told about deployments.
    [GetStateStatisticsFor] counts the signalling blocks of the current period
    up to [pindex]; in the first period, before a whole period has passed, it
    dereferences a null pointer.  [ComputeBlockVersion] gives the new block a
    version that signals the deployment exactly when BIP9 has it started or
    locked in. *)
Theorem deployment_reports_correct (m : index_map) (params : Params) :
  index_wf m ->
  (forall (C : ThresholdConditionChecker) p b k,
     ThresholdConditionLaws C -> 0 < Period params -> m !! p = Some b -> k = (nHeight b + 1) mod Period params ->
     if decide (k <= nHeight b)
     then exists ps, versionbits_facts.last_blocks m p k ps /\
       GetStateStatisticsFor m params (Some p) =
         Some {| period := Period params; threshold := Threshold params; elapsed := k;
                 count := versionbits_facts.signalling m params ps;
                 possible := Period params - Threshold params >=? k - versionbits_facts.signalling m params ps |}
     else GetStateStatisticsFor m params (Some p) = None) /\
  (let C := VersionBitsConditionChecker DEPLOYMENT_TESTDUMMY in
   forall (pindexPrev : option ptr) (cache : VersionBitsCache) (c : ThresholdConditionCache),
     median_facts.times_increase m ->
     0 < @Period C params -> @BeginTime C params <= @EndTime C params -> @BeginTime C params <> ALWAYS_ACTIVE ->
     0 <= bit (deployment params DEPLOYMENT_TESTDUMMY) < VERSIONBITS_NUM_BITS ->
     (forall p, pindexPrev = Some p -> m !! p <> None) ->
     cache !! DEPLOYMENT_TESTDUMMY = Some c -> versionbits_facts.cache_ok (C := C) m params c ->
     exists v cache' s, ComputeBlockVersion m pindexPrev params cache = Some (v, cache') /\
       versionbits_facts.state_after (C := C) m params pindexPrev s /\
       (version_signals DEPLOYMENT_TESTDUMMY params v = true <-> s = THRESHOLD_STARTED \/ s = THRESHOLD_LOCKED_IN)).
Proof.
  intros Hwf. split.
  - intros C p b k Hlaws HP. by apply GetStateStatisticsFor_correct.
  - intros C pindexPrev cache c. by apply ComputeBlockVersion_correct.
Qed.

Lemma deployment_reports_correct_witness :
  GetStateStatisticsFor (C := versionbits_example.checker) chain_example.index
    versionbits_example.params (Some 1%positive) = None /\
  exists v cache', ComputeBlockVersion chain_example.index (Some 3%positive) versionbits_example.params [∅] =
    Some (v, cache') /\ v = 0x30000000.
Proof.
  destruct (deployment_reports_correct chain_example.index versionbits_example.params chain_example.index_ok)
    as [H1 H2]. split.
  - exact (H1 versionbits_example.checker 1%positive _ 1 (VersionBitsConditionLaws _) eq_refl eq_refl eq_refl).
  - destruct (H2 (Some 3%positive) [∅] ∅ versionbits_example.times_ok) as (v & cache & s & H3 & _).
    { reflexivity. }
    { vm_compute. discriminate. }
    { vm_compute. discriminate. }
    { cbn. unfold VERSIONBITS_NUM_BITS. lia. }
    { intros p [= <-]. discriminate. }
    { reflexivity. }
    { exact versionbits_example.cache_empty_ok. }
    exists v, cache. split; [exact H3|]. vm_compute in H3. injection H3 as <- _. reflexivity.
Defined.
