(* ===== verification/Hash.v ===== *)
(** * Hashes ([hash.h])

    The three hash functions that consensus uses as an interface, and the two
    composed hashes of the program over it.  What the program does with hashes
    is verified for any functions of the right sizes; [Crypto] gives the
    instance that the program runs with. *)

From S2P Require Import Prelude.

(** A message to its digest: [Reset], [Write] and [Finalize] at once. *)
Class HashFunctions := {
  CRIPEMD160 : bytes -> bytes;
  CSHA1 : bytes -> bytes;
  CSHA3_256 : bytes -> bytes;
}.

(** The sizes of the digests. *)
Class HashLaws `(HashFunctions) : Prop := {
  length_RIPEMD160 : forall m, length (CRIPEMD160 m) = 20%nat;
  length_SHA1 : forall m, length (CSHA1 m) = 20%nat;
  length_SHA3_256 : forall m, length (CSHA3_256 m) = 32%nat;
  bytes_RIPEMD160 : forall m, bytes_ok (CRIPEMD160 m);
  bytes_SHA1 : forall m, bytes_ok (CSHA1 m);
  bytes_SHA3_256 : forall m, bytes_ok (CSHA3_256 m);
}.

Section hash.
Context `{Hs : HashFunctions}.

(** Double SHA3-256, and RIPEMD-160 of SHA3-256. *)
Definition CHash256 (m : bytes) : bytes := CSHA3_256 (CSHA3_256 m).
Definition CHash160 (m : bytes) : bytes := CRIPEMD160 (CSHA3_256 m).

(** [Hash] of two ranges: of their concatenation. *)
Definition Hash2 (a b : bytes) : bytes := CHash256 (a ++ b).

Context `{HL : !HashLaws Hs}.

Lemma length_Hash160 m : length (CHash160 m) = 20%nat.
Proof. apply length_RIPEMD160. Qed.
Lemma length_Hash256 m : length (CHash256 m) = 32%nat.
Proof. apply length_SHA3_256. Qed.
Lemma bytes_Hash160 m : bytes_ok (CHash160 m).
Proof. apply bytes_RIPEMD160. Qed.
Lemma bytes_Hash256 m : bytes_ok (CHash256 m).
Proof. apply bytes_SHA3_256. Qed.
End hash.
