(* ===== verification/Crypto.v ===== *)
(** * The hash functions as the rest of the program uses them

    The hashers of [crypto/] as the instance of [HashFunctions] that the
    program runs with; HMAC over SHA-256 and SHA-512
    ([crypto/hmac_sha256.cpp], [crypto/hmac_sha512.cpp]) and [BIP32Hash] of
    [hash.cpp]. *)

From S2P Require Import Prelude Uint256 Blocks Sha3 MdHash Sha1 Ripemd160 Sha2 Hash.

(** ** The hash functions

    A new hasher, one [Write] and [Finalize].  Its buffer starts with any
    bytes; [SHA3_256_correct] and the lemmas [_correct] of the hashers say that
    they do not matter. *)

#[export] Instance crypto_functions : HashFunctions := {|
  CRIPEMD160 m := CRIPEMD160_Finalize (CRIPEMD160_Write (make_CRIPEMD160 (replicate 64 0)) m);
  CSHA1 m := CSHA1_Finalize (CSHA1_Write (make_CSHA1 (replicate 64 0)) m);
  CSHA3_256 m :=
    snd (sha3_256.CSHA3_256_Finalize (sha3_256.CSHA3_256_Write (sha3_256.make_CSHA3_256 (replicate 144 0) 0) m));
|}.

(** [CHash256] and [CHash160] of [hash.h], on the hasher they keep. *)
Definition CHash256_Finalize (sha : sha3_256.CSHA3_256) : bytes :=
  let '(sha, buf) := sha3_256.CSHA3_256_Finalize sha in
  snd (sha3_256.CSHA3_256_Finalize (sha3_256.CSHA3_256_Write (sha3_256.CSHA3_256_Reset sha) buf)).
Definition CHash160_Finalize (rb : bytes) (sha : sha3_256.CSHA3_256) : bytes :=
  let '(_, buf) := sha3_256.CSHA3_256_Finalize sha in
  CRIPEMD160_Finalize (CRIPEMD160_Write (make_CRIPEMD160 rb) buf).

(** ** HMAC *)

Record hmac := { outer : hasher; inner : hasher }.

(** The two classes differ in their hasher, whose block has [n] bytes and
    whose digest has [size]. *)
Section hmac.
#[local] Open Scope words_scope.
Context (make : bytes -> hasher) (write : hasher -> bytes -> hasher) (finalize : hasher -> bytes) (n size : nat).

(** [bo], [bi] and [bt] are what the buffers of the hashers start with. *)
Definition make_hmac (bo bi bt : bytes) (key : bytes) : hmac :=
  let rkey :=
    if (length key <=? n)%nat then key ++ replicate (n - length key) 0
    else finalize (write (make bt) key) ++ replicate (n - size) 0 in
  let rkey := map (fun x => x ⊕ 0x5c) rkey in
  let outer := write (make bo) rkey in
  let rkey := map (fun x => x ⊕ (0x5c ⊕ 0x36)) rkey in
  {| outer := outer; inner := write (make bi) rkey |}.
Definition hmac_Write (h : hmac) (data : bytes) : hmac := {| outer := outer h; inner := write (inner h) data |}.
Definition hmac_Finalize (h : hmac) : bytes :=
  let temp := finalize (inner h) in
  finalize (write (outer h) temp).
End hmac.

Definition make_CHMAC_SHA256 := make_hmac make_CSHA256 CSHA256_Write CSHA256_Finalize 64 32.
Definition CHMAC_SHA256_Write := hmac_Write CSHA256_Write.
Definition CHMAC_SHA256_Finalize := hmac_Finalize CSHA256_Write CSHA256_Finalize.
Definition make_CHMAC_SHA512 := make_hmac make_CSHA512 CSHA512_Write CSHA512_Finalize 128 64.
Definition CHMAC_SHA512_Write := hmac_Write CSHA512_Write.
Definition CHMAC_SHA512_Finalize := hmac_Finalize CSHA512_Write CSHA512_Finalize.

(** [BIP32Hash]. *)
Definition BIP32Hash (bo bi bt : bytes) (chainCode : bytes) (nChild : Z) (data : bytes) : bytes :=
  let num := [Z.land (Z.shiftr nChild 24) 0xFF; Z.land (Z.shiftr nChild 16) 0xFF;
              Z.land (Z.shiftr nChild 8) 0xFF; Z.land (Z.shiftr nChild 0) 0xFF] in
  CHMAC_SHA512_Finalize (CHMAC_SHA512_Write (CHMAC_SHA512_Write (make_CHMAC_SHA512 bo bi bt chainCode) data) num).

(** HMAC of RFC 2104 over a hash function [H] with blocks of [n] bytes. *)
Definition HMAC (H : bytes -> bytes) (n : nat) (key text : bytes) : bytes :=
  let K := if (length key <=? n)%nat then key else H key in
  let K := K ++ replicate (n - length K) 0 in
  H (map (fun x => Z.lxor x 0x5c) K ++ H (map (fun x => Z.lxor x 0x36) K ++ text)).

(** ** Facts *)

Module crypto_facts.

Section hmac.
Context (make : bytes -> hasher) (write : hasher -> bytes -> hasher) (finalize : hasher -> bytes) (n size : nat).
Context (H : bytes -> bytes) (Hsize : forall m, length (H m) = size).
Context (Hcorrect : forall buf chunks, length buf = n -> finalize (foldl write (make buf) chunks) = H (concat chunks)).

Lemma hmac_correct bo bi bt key chunks :
  length bo = n -> length bi = n -> length bt = n ->
  hmac_Finalize write finalize (foldl (hmac_Write write) (make_hmac make write finalize n size bo bi bt key) chunks)
  = HMAC H n key (concat chunks).
Proof.
  intros Ho Hi Ht.
  assert (forall h, foldl (hmac_Write write) h chunks = {| outer := outer h; inner := foldl write (inner h) chunks |}) as Hw.
  { induction chunks as [|d chunks' IH]; intros [o i]; [done|]. cbn [foldl]. by rewrite IH. }
  rewrite Hw. unfold hmac_Finalize, HMAC, make_hmac. cbn [outer inner].
  pose proof (Hcorrect bt [key] Ht) as Hk. cbn [foldl concat] in Hk. rewrite app_nil_r in Hk. rewrite Hk. clear Hk.
  set (K := if (length key <=? n)%nat then key ++ replicate (n - length key) 0 else H key ++ replicate (n - size) 0).
  assert ((if (length key <=? n)%nat then key else H key)
    ++ replicate (n - length (if (length key <=? n)%nat then key else H key)) 0 = K) as ->.
  { unfold K. destruct (length key <=? n)%nat; [done|]. by rewrite Hsize. }
  rewrite map_map, (map_ext (fun x => Z.lxor (Z.lxor x 0x5c) (Z.lxor 0x5c 0x36)) (fun x => Z.lxor x 0x36)).
  2:{ intros x. cbn beta. rewrite Z.lxor_assoc. f_equal. }
  pose proof (fun k => Hcorrect bi (k :: chunks) Hi) as Hin. cbn [foldl concat] in Hin. rewrite Hin.
  pose proof (fun k m => Hcorrect bo [k; m] Ho) as Hout. cbn [foldl concat] in Hout. rewrite Hout. by rewrite app_nil_r.
Qed.
End hmac.

(** *** Digests are strings of bytes of the right length *)

Lemma length_concat_words write (k : nat) l :
  (forall z : Z, length (write z : bytes) = k) -> length (concat (map write l)) = (k * length l)%nat.
Proof.
  intros Hw. induction l as [|x l IH]; cbn [map concat length]; [lia|]. rewrite length_app, Hw, IH. lia.
Qed.

Lemma bytes_concat_words write l : (forall z : Z, bytes_ok (write z)) -> bytes_ok (concat (map write l)).
Proof. intros Hw. apply Forall_concat, Forall_map, Forall_true. done. Qed.

Lemma length_md transform s n ws sl msg k :
  (forall s b, length s = k -> length (transform s b) = k) -> length s = k ->
  length (merkle_damgard transform s n ws sl msg) = k.
Proof. intros Ht Hs. unfold merkle_damgard, absorbed. by apply (blocks_facts.fold_blocks_invariant _ _ (fun s => length s = k)). Qed.

Lemma bytes_BE n z : bytes_ok (reverse (le_digits 8 n z)).
Proof. apply Forall_reverse. by apply le_digits_ok. Qed.
Lemma length_BE n z : length (reverse (le_digits 8 n z)) = n.
Proof. by rewrite length_reverse, length_le_digits. Qed.

Lemma length_SHA1_digest m : length (fips180_1.SHA1 m) = 20%nat.
Proof.
  unfold fips180_1.SHA1. rewrite (length_concat_words _ 4) by (intros; apply length_BE).
  rewrite (length_md _ _ _ _ _ _ 5); [done| |done]. intros s b. apply sha1_facts.sha1_compress_length.
Qed.

Lemma length_RIPEMD160_digest m : length (rmd160.RIPEMD160 m) = 20%nat.
Proof.
  unfold rmd160.RIPEMD160. rewrite (length_concat_words _ 4) by (intros; apply length_le_digits).
  rewrite (length_md _ _ _ _ _ _ 5); [done| |done]. intros s b. apply ripemd160_facts.rmd_compress_length.
Qed.

Lemma length_SHA256_digest m : length (fips180_2.SHA256 m) = 32%nat.
Proof.
  unfold fips180_2.SHA256. rewrite (length_concat_words _ 4) by (intros; apply length_BE).
  rewrite (length_md _ _ _ _ _ _ 8); [done| |done]. intros s b. apply sha2_facts.compress256_length.
Qed.

Lemma length_SHA512_digest m : length (fips180_2.SHA512 m) = 64%nat.
Proof.
  unfold fips180_2.SHA512. rewrite (length_concat_words _ 8) by (intros; apply length_BE).
  rewrite (length_md _ _ _ _ _ _ 8); [done| |done]. intros s b. apply sha2_facts.compress512_length.
Qed.

Lemma length_SHA3_digest m : length (fips202.SHA3_256 m) = 32%nat.
Proof.
  unfold fips202.SHA3_256. rewrite length_take, (length_concat_words _ 8) by (intros; apply length_le_digits).
  assert (length (absorbed fips202.absorb 136 (replicate 25 0) (m ++ fips202.pad (length m))) = 25%nat) as ->; [|done].
  unfold absorbed. apply (blocks_facts.fold_blocks_invariant _ _ (fun s => length s = 25%nat)); [|done].
  apply sha3_facts.length_absorb.
Qed.

(** The hash functions of the instance are those of the standards. *)
Lemma CSHA1_spec m : CSHA1 m = fips180_1.SHA1 m.
Proof.
  pose proof (sha1_facts.SHA1_correct (replicate 64 0) [m] eq_refl) as H. cbn [foldl concat] in H.
  by rewrite app_nil_r in H.
Qed.
Lemma CRIPEMD160_spec m : CRIPEMD160 m = rmd160.RIPEMD160 m.
Proof.
  pose proof (ripemd160_facts.RIPEMD160_correct (replicate 64 0) [m] eq_refl) as H. cbn [foldl concat] in H.
  by rewrite app_nil_r in H.
Qed.
Lemma CSHA3_256_spec m : CSHA3_256 m = fips202.SHA3_256 m.
Proof.
  assert (sha3_facts.hashed (foldl sha3_256.CSHA3_256_Write (sha3_256.make_CSHA3_256 (replicate 144 0) 0) [m]) ([] ++ concat [m])) as H.
  { apply sha3_facts.sha3_Writes_ok. apply blocks_facts.buffered_new; [lia|]. cbn. lia. }
  cbn [foldl concat app] in H. rewrite app_nil_r in H. apply (sha3_facts.sha3_Finalize_ok _ _ H).
Qed.
End crypto_facts.

#[export] Instance crypto_laws : HashLaws crypto_functions.
Proof.
  split; intros m.
  - rewrite crypto_facts.CRIPEMD160_spec. apply crypto_facts.length_RIPEMD160_digest.
  - rewrite crypto_facts.CSHA1_spec. apply crypto_facts.length_SHA1_digest.
  - rewrite crypto_facts.CSHA3_256_spec. apply crypto_facts.length_SHA3_digest.
  - rewrite crypto_facts.CRIPEMD160_spec. apply crypto_facts.bytes_concat_words. intros z. by apply le_digits_ok.
  - rewrite crypto_facts.CSHA1_spec. apply crypto_facts.bytes_concat_words. intros z. apply crypto_facts.bytes_BE.
  - rewrite crypto_facts.CSHA3_256_spec. apply Forall_take, crypto_facts.bytes_concat_words. intros z. by apply le_digits_ok.
Qed.

(** ** Properties *)

(** C19: whatever the buffers of the hashers held, and however the message is
    cut into writes, SHA3-256, SHA-1, RIPEMD-160, SHA-256 and SHA-512 are the
    functions of their standards, SHA3-256 also after a reset; CHash256 and
    CHash160 are what the rest of the program is verified with; the HMAC classes
    compute HMAC of RFC 2104 over them, and BIP32Hash is HMAC-SHA512 of the data
    followed by the child number.  The rounds that the code writes out, with
    registers that rotate and message words that overwrite each other, are the
    loops of the standards. *)
Theorem hashers_correct :
  (forall m total chunks, length m = 144%nat ->
     snd (sha3_256.CSHA3_256_Finalize (foldl sha3_256.CSHA3_256_Write (sha3_256.make_CSHA3_256 m total) chunks))
     = fips202.SHA3_256 (concat chunks)) /\
  (forall h chunks,
     snd (sha3_256.CSHA3_256_Finalize (foldl sha3_256.CSHA3_256_Write (sha3_256.CSHA3_256_Reset h) chunks))
     = fips202.SHA3_256 (concat chunks)) /\
  (forall m total rb chunks, length m = 144%nat -> length rb = 64%nat ->
     let sha := foldl sha3_256.CSHA3_256_Write (sha3_256.make_CSHA3_256 m total) chunks in
     CHash256_Finalize sha = CHash256 (concat chunks) /\ CHash160_Finalize rb sha = CHash160 (concat chunks)) /\
  (forall buf chunks, length buf = 64%nat ->
     CSHA1_Finalize (foldl CSHA1_Write (make_CSHA1 buf) chunks) = fips180_1.SHA1 (concat chunks) /\
     CRIPEMD160_Finalize (foldl CRIPEMD160_Write (make_CRIPEMD160 buf) chunks) = rmd160.RIPEMD160 (concat chunks) /\
     CSHA256_Finalize (foldl CSHA256_Write (make_CSHA256 buf) chunks) = fips180_2.SHA256 (concat chunks)) /\
  (forall buf chunks, length buf = 128%nat ->
     CSHA512_Finalize (foldl CSHA512_Write (make_CSHA512 buf) chunks) = fips180_2.SHA512 (concat chunks)) /\
  (forall bo bi bt key chunks, length bo = 64%nat -> length bi = 64%nat -> length bt = 64%nat ->
     CHMAC_SHA256_Finalize (foldl CHMAC_SHA256_Write (make_CHMAC_SHA256 bo bi bt key) chunks)
     = HMAC fips180_2.SHA256 64 key (concat chunks)) /\
  (forall bo bi bt key chunks, length bo = 128%nat -> length bi = 128%nat -> length bt = 128%nat ->
     CHMAC_SHA512_Finalize (foldl CHMAC_SHA512_Write (make_CHMAC_SHA512 bo bi bt key) chunks)
     = HMAC fips180_2.SHA512 128 key (concat chunks)) /\
  (forall bo bi bt chainCode nChild data, length bo = 128%nat -> length bi = 128%nat -> length bt = 128%nat ->
     BIP32Hash bo bi bt chainCode nChild data
     = HMAC fips180_2.SHA512 128 chainCode (data ++ common.WriteBE32 nChild)).
Proof.
  assert (forall bo bi bt key chunks, length bo = 128%nat -> length bi = 128%nat -> length bt = 128%nat ->
     CHMAC_SHA512_Finalize (foldl CHMAC_SHA512_Write (make_CHMAC_SHA512 bo bi bt key) chunks)
     = HMAC fips180_2.SHA512 128 key (concat chunks)) as H512.
  { apply crypto_facts.hmac_correct; [apply crypto_facts.length_SHA512_digest|apply sha2_facts.SHA512_correct]. }
  split_and!.
  - apply SHA3_256_correct.
  - apply SHA3_256_correct.
  - intros m total rb chunks Hm Hr sha. unfold CHash256_Finalize, CHash160_Finalize, CHash256, CHash160.
    pose proof (proj1 SHA3_256_correct m total chunks Hm) as Hs. fold sha in Hs.
    destruct (sha3_256.CSHA3_256_Finalize sha) as [sha' buf]. cbn [snd] in Hs. subst buf.
    rewrite !crypto_facts.CSHA3_256_spec, crypto_facts.CRIPEMD160_spec. split.
    + pose proof (proj1 (proj2 SHA3_256_correct) sha' [fips202.SHA3_256 (concat chunks)]) as H.
      cbn [foldl concat] in H. by rewrite app_nil_r in H.
    + pose proof (ripemd160_facts.RIPEMD160_correct rb [fips202.SHA3_256 (concat chunks)] Hr) as H.
      cbn [foldl concat] in H. by rewrite app_nil_r in H.
  - intros buf chunks Hb. split_and!;
      [by apply sha1_facts.SHA1_correct|by apply ripemd160_facts.RIPEMD160_correct|by apply sha2_facts.SHA256_correct].
  - apply sha2_facts.SHA512_correct.
  - apply crypto_facts.hmac_correct; [apply crypto_facts.length_SHA256_digest|apply sha2_facts.SHA256_correct].
  - apply H512.
  - intros bo bi bt cc nChild data Ho Hi Ht. unfold BIP32Hash.
    pose proof (H512 bo bi bt cc [data; common.WriteBE32 nChild] Ho Hi Ht) as H. cbn [foldl concat] in H.
    rewrite app_nil_r in H. rewrite <- H. do 2 f_equal. rewrite !land_ff. unfold common.WriteBE32.
    cbn [le_digits reverse rev_append]. unfold reverse. cbn [rev_append]. rewrite !Z.shiftr_shiftr by lia.
    by rewrite Z.shiftr_0_r.
Qed.

Lemma hashers_correct_witness :
  CHMAC_SHA256_Finalize (foldl CHMAC_SHA256_Write
    (make_CHMAC_SHA256 (replicate 64 1) (replicate 64 2) (replicate 64 3) [75; 101; 121]) [[97]; [98; 99]])
  = HMAC fips180_2.SHA256 64 [75; 101; 121] [97; 98; 99].
Proof.
  exact (proj1 (proj2 (proj2 (proj2 (proj2 (proj2 hashers_correct))))) (replicate 64 1) (replicate 64 2) (replicate 64 3) [75; 101; 121]
    [[97]; [98; 99]] eq_refl eq_refl eq_refl).
Defined.
