(* ===== verification/Script.v ===== *)
(** * Scripts ([script/script.h], [script/script.cpp])

    Opcodes, script numbers, and the operations of [CScript].  A script is
    the list of its bytes; an iterator into a script is the rest of the
    script from there, so that [CScript(pc, pend)] is the iterator itself.
    Every loop over a script consumes at least one byte a turn, and the
    length of the script is its fuel. *)

From S2P Require Import Prelude ArithUint256 Uint256.
Import common.

Abbreviation valtype := bytes.

Definition MAX_SCRIPT_ELEMENT_SIZE : Z := 520.
Definition MAX_OPS_PER_SCRIPT : Z := 201.
Definition MAX_PUBKEYS_PER_MULTISIG : Z := 20.
Definition MAX_SCRIPT_SIZE : Z := 10000.
Definition MAX_STACK_SIZE : Z := 1000.
Definition LOCKTIME_THRESHOLD : Z := 500000000.

(** [enum opcodetype]: an opcode is any byte; these are the named ones. *)
Definition OP_0 : Z := 0x00.
Definition OP_FALSE : Z := OP_0.
Definition OP_PUSHDATA1 : Z := 0x4c.
Definition OP_PUSHDATA2 : Z := 0x4d.
Definition OP_PUSHDATA4 : Z := 0x4e.
Definition OP_1NEGATE : Z := 0x4f.
Definition OP_RESERVED : Z := 0x50.
Definition OP_1 : Z := 0x51.
Definition OP_TRUE : Z := OP_1.
Definition OP_2 : Z := 0x52.
Definition OP_3 : Z := 0x53.
Definition OP_4 : Z := 0x54.
Definition OP_5 : Z := 0x55.
Definition OP_6 : Z := 0x56.
Definition OP_7 : Z := 0x57.
Definition OP_8 : Z := 0x58.
Definition OP_9 : Z := 0x59.
Definition OP_10 : Z := 0x5a.
Definition OP_11 : Z := 0x5b.
Definition OP_12 : Z := 0x5c.
Definition OP_13 : Z := 0x5d.
Definition OP_14 : Z := 0x5e.
Definition OP_15 : Z := 0x5f.
Definition OP_16 : Z := 0x60.
Definition OP_NOP : Z := 0x61.
Definition OP_VER : Z := 0x62.
Definition OP_IF : Z := 0x63.
Definition OP_NOTIF : Z := 0x64.
Definition OP_VERIF : Z := 0x65.
Definition OP_VERNOTIF : Z := 0x66.
Definition OP_ELSE : Z := 0x67.
Definition OP_ENDIF : Z := 0x68.
Definition OP_VERIFY : Z := 0x69.
Definition OP_RETURN : Z := 0x6a.
Definition OP_TOALTSTACK : Z := 0x6b.
Definition OP_FROMALTSTACK : Z := 0x6c.
Definition OP_2DROP : Z := 0x6d.
Definition OP_2DUP : Z := 0x6e.
Definition OP_3DUP : Z := 0x6f.
Definition OP_2OVER : Z := 0x70.
Definition OP_2ROT : Z := 0x71.
Definition OP_2SWAP : Z := 0x72.
Definition OP_IFDUP : Z := 0x73.
Definition OP_DEPTH : Z := 0x74.
Definition OP_DROP : Z := 0x75.
Definition OP_DUP : Z := 0x76.
Definition OP_NIP : Z := 0x77.
Definition OP_OVER : Z := 0x78.
Definition OP_PICK : Z := 0x79.
Definition OP_ROLL : Z := 0x7a.
Definition OP_ROT : Z := 0x7b.
Definition OP_SWAP : Z := 0x7c.
Definition OP_TUCK : Z := 0x7d.
Definition OP_CAT : Z := 0x7e.
Definition OP_SUBSTR : Z := 0x7f.
Definition OP_LEFT : Z := 0x80.
Definition OP_RIGHT : Z := 0x81.
Definition OP_SIZE : Z := 0x82.
Definition OP_INVERT : Z := 0x83.
Definition OP_AND : Z := 0x84.
Definition OP_OR : Z := 0x85.
Definition OP_XOR : Z := 0x86.
Definition OP_EQUAL : Z := 0x87.
Definition OP_EQUALVERIFY : Z := 0x88.
Definition OP_RESERVED1 : Z := 0x89.
Definition OP_RESERVED2 : Z := 0x8a.
Definition OP_1ADD : Z := 0x8b.
Definition OP_1SUB : Z := 0x8c.
Definition OP_2MUL : Z := 0x8d.
Definition OP_2DIV : Z := 0x8e.
Definition OP_NEGATE : Z := 0x8f.
Definition OP_ABS : Z := 0x90.
Definition OP_NOT : Z := 0x91.
Definition OP_0NOTEQUAL : Z := 0x92.
Definition OP_ADD : Z := 0x93.
Definition OP_SUB : Z := 0x94.
Definition OP_MUL : Z := 0x95.
Definition OP_DIV : Z := 0x96.
Definition OP_MOD : Z := 0x97.
Definition OP_LSHIFT : Z := 0x98.
Definition OP_RSHIFT : Z := 0x99.
Definition OP_BOOLAND : Z := 0x9a.
Definition OP_BOOLOR : Z := 0x9b.
Definition OP_NUMEQUAL : Z := 0x9c.
Definition OP_NUMEQUALVERIFY : Z := 0x9d.
Definition OP_NUMNOTEQUAL : Z := 0x9e.
Definition OP_LESSTHAN : Z := 0x9f.
Definition OP_GREATERTHAN : Z := 0xa0.
Definition OP_LESSTHANOREQUAL : Z := 0xa1.
Definition OP_GREATERTHANOREQUAL : Z := 0xa2.
Definition OP_MIN : Z := 0xa3.
Definition OP_MAX : Z := 0xa4.
Definition OP_WITHIN : Z := 0xa5.
Definition OP_RIPEMD160 : Z := 0xa6.
Definition OP_SHA1 : Z := 0xa7.
Definition OP_SHA256 : Z := 0xa8.
Definition OP_HASH160 : Z := 0xa9.
Definition OP_HASH256 : Z := 0xaa.
Definition OP_CODESEPARATOR : Z := 0xab.
Definition OP_CHECKSIG : Z := 0xac.
Definition OP_CHECKSIGVERIFY : Z := 0xad.
Definition OP_CHECKMULTISIG : Z := 0xae.
Definition OP_CHECKMULTISIGVERIFY : Z := 0xaf.
Definition OP_NOP1 : Z := 0xb0.
Definition OP_CHECKLOCKTIMEVERIFY : Z := 0xb1.
Definition OP_NOP2 : Z := OP_CHECKLOCKTIMEVERIFY.
Definition OP_CHECKSEQUENCEVERIFY : Z := 0xb2.
Definition OP_NOP3 : Z := OP_CHECKSEQUENCEVERIFY.
Definition OP_NOP4 : Z := 0xb3.
Definition OP_NOP5 : Z := 0xb4.
Definition OP_NOP6 : Z := 0xb5.
Definition OP_NOP7 : Z := 0xb6.
Definition OP_NOP8 : Z := 0xb7.
Definition OP_NOP9 : Z := 0xb8.
Definition OP_NOP10 : Z := 0xb9.
Definition OP_SMALLINTEGER : Z := 0xfa.
Definition OP_PUBKEYS : Z := 0xfb.
Definition OP_PUBKEYHASH : Z := 0xfd.
Definition OP_PUBKEY : Z := 0xfe.
Definition OP_INVALIDOPCODE : Z := 0xff.

Definition MAX_OPCODE : Z := OP_NOP10.

(** ** [CScriptNum]

    The number is the [int64_t] member [m_value]. *)

Module CScriptNum.
Definition nDefaultMaxNumSize : Z := 4.
Definition int64_min : Z := - 2 ^ 63.
Definition int64_max : Z := 2 ^ 63 - 1.

(** [set_vch]: the shifted bytes are collected in an [int64_t], and the mask
    of the sign bit is computed in [uint64_t]. *)
Fixpoint set_vch_loop (vch : valtype) (i result : Z) : Z :=
  match vch with
  | [] => result
  | b :: vch => set_vch_loop vch (i + 1) (Z.lor result (i64 (Z.shiftl b (8 * i))))
  end.

Definition set_vch (vch : valtype) : Z :=
  match last vch with
  | None => 0
  | Some back =>
      let result := set_vch_loop vch 0 0 in
      let size := Z.of_nat (length vch) in
      if negb (Z.land back 0x80 =? 0)
      then i64 (- i64 (Z.land (u64 result) (Z.lnot (u64 (Z.shiftl 0x80 (8 * (size - 1)))))))
      else result
  end.

(** The encoding test of the constructor. *)
Definition minimal (vch : valtype) : bool :=
  match last vch with
  | None => true
  | Some back =>
      let size := length vch in
      negb ((Z.land back 0x7f =? 0) &&
            ((Z.of_nat size <=? 1) || (Z.land (nth (size - 2) vch 0) 0x80 =? 0)))
  end.

(** [CScriptNum(vch, fRequireMinimal, nMaxNumSize)]; [None] is the exception
    [scriptnum_error]. *)
Definition of_vch (vch : valtype) (fRequireMinimal : bool) (nMaxNumSize : Z) : option Z :=
  if Z.of_nat (length vch) >? nMaxNumSize then None
  else if fRequireMinimal && negb (minimal vch) then None
  else Some (set_vch vch).

(** [operator+] and [operator-] add [int64_t]; the compound assignments
    assert that the result is in range, [None] otherwise. *)
Definition add (a b : Z) : Z := i64 (a + b).
Definition sub (a b : Z) : Z := i64 (a - b).
Definition and_ (a b : Z) : Z := Z.land a b.
Definition neg (a : Z) : option Z := if a =? int64_min then None else Some (- a).
Definition add_assign (a rhs : Z) : option Z :=
  if (rhs =? 0) || ((rhs >? 0) && (a <=? int64_max - rhs)) || ((rhs <? 0) && (a >=? int64_min - rhs))
  then Some (a + rhs) else None.
Definition sub_assign (a rhs : Z) : option Z :=
  if (rhs =? 0) || ((rhs >? 0) && (a >=? int64_min + rhs)) || ((rhs <? 0) && (a <=? int64_max + rhs))
  then Some (a - rhs) else None.

Definition getint (a : Z) : Z :=
  if a >? 2 ^ 31 - 1 then 2 ^ 31 - 1 else if a <? - 2 ^ 31 then - 2 ^ 31 else a.

(** [serialize]; eight turns exhaust a [uint64_t]. *)
Fixpoint serialize_loop (fuel : nat) (absvalue : Z) : valtype :=
  match fuel with
  | O => []
  | S fuel =>
      if absvalue =? 0 then [] else Z.land absvalue 0xff :: serialize_loop fuel (Z.shiftr absvalue 8)
  end.

Definition serialize (value : Z) : valtype :=
  if value =? 0 then []
  else
    let neg := value <? 0 in
    let absvalue := u64 (if neg then i64 (- value) else value) in
    let result := serialize_loop 8 absvalue in
    let back := default 0 (last result) in
    if negb (Z.land back 0x80 =? 0) then result ++ [if neg then 0x80 else 0]
    else if neg then take (length result - 1) result ++ [Z.lor back 0x80]
    else result.

Definition getvch (a : Z) : valtype := serialize a.
End CScriptNum.

(** ** [CScript] *)

Module CScript.

(** [GetOp2]: the opcode, its immediate operand, and the iterator after it.
    A failed call leaves the iterator at [GetOp2_failed]. *)
Definition GetOp2 (pc : bytes) : option (Z * valtype * bytes) :=
  match pc with
  | [] => None
  | opcode :: pc =>
      if opcode <=? OP_PUSHDATA4 then
        '(nSize, pc) ←
          (if opcode <? OP_PUSHDATA1 then Some (opcode, pc)
           else if opcode =? OP_PUSHDATA1 then
             match pc with n :: pc => Some (n, pc) | [] => None end
           else if opcode =? OP_PUSHDATA2 then
             if (length pc <? 2)%nat then None else Some (ReadLE16 pc, drop 2 pc)
           else
             if (length pc <? 4)%nat then None else Some (ReadLE32 pc, drop 4 pc));
        if u32 (Z.of_nat (length pc)) <? nSize then None
        else Some (opcode, take (Z.to_nat nSize) pc, drop (Z.to_nat nSize) pc)
      else Some (opcode, [], pc)
  end.

Definition GetOp2_failed (pc : bytes) : bytes :=
  match pc with
  | [] => []
  | opcode :: pc =>
      if opcode <? OP_PUSHDATA1 then pc
      else if opcode =? OP_PUSHDATA1 then drop 1 pc
      else if opcode =? OP_PUSHDATA2 then if (length pc <? 2)%nat then pc else drop 2 pc
      else if opcode =? OP_PUSHDATA4 then if (length pc <? 4)%nat then pc else drop 4 pc
      else pc
  end.

(** [operator<<]. *)
Definition push_opcode (s : bytes) (opcode : Z) : option bytes :=
  if (opcode <? 0) || (opcode >? 0xff) then None else Some (s ++ [opcode]).

Definition push_data (s : bytes) (b : valtype) : bytes :=
  let size := Z.of_nat (length b) in
  let s :=
    if size <? OP_PUSHDATA1 then s ++ [u8 size]
    else if size <=? 0xff then s ++ [OP_PUSHDATA1; u8 size]
    else if size <=? 0xffff then s ++ OP_PUSHDATA2 :: WriteLE16 (u16 size)
    else s ++ OP_PUSHDATA4 :: WriteLE32 (u32 size) in
  s ++ b.

Definition push_int64 (s : bytes) (n : Z) : bytes :=
  if (n =? -1) || ((n >=? 1) && (n <=? 16)) then s ++ [u8 (n + (OP_1 - 1))]
  else if n =? 0 then s ++ [OP_0]
  else push_data s (CScriptNum.serialize n).

(** [DecodeOP_N], [EncodeOP_N]; [None] is the failed assertion. *)
Definition DecodeOP_N (opcode : Z) : option Z :=
  if opcode =? OP_0 then Some 0
  else if (opcode >=? OP_1) && (opcode <=? OP_16) then Some (opcode - (OP_1 - 1)) else None.
Definition EncodeOP_N (n : Z) : option Z :=
  if negb ((n >=? 0) && (n <=? 16)) then None
  else if n =? 0 then Some OP_0 else Some (OP_1 + n - 1).

(** [FindAndDelete]: the inner loop, the outer loop, and the new script with
    the number of deletions. *)
Definition starts_with (b pc : bytes) : bool := bool_decide (take (length b) pc = b).

Fixpoint delete_loop (fuel : nat) (b pc : bytes) (nFound : Z) : bytes * Z :=
  if (length b <=? length pc)%nat && starts_with b pc then
    match fuel with
    | O => (pc, nFound)
    | S fuel => delete_loop fuel b (drop (length b) pc) (nFound + 1)
    end
  else (pc, nFound).

Fixpoint FindAndDelete_loop (fuel : nat) (b pc pc2 result : bytes) (nFound : Z) : bytes * bytes * Z :=
  let result := result ++ take (length pc2 - length pc) pc2 in
  let '(pc, nFound) := delete_loop (length pc) b pc nFound in
  match fuel, GetOp2 pc with
  | S fuel, Some (_, _, pc') => FindAndDelete_loop fuel b pc' pc result nFound
  | _, _ => (result, pc, nFound)
  end.

Definition FindAndDelete (script b : bytes) : bytes * Z :=
  match b with
  | [] => (script, 0)
  | _ =>
      let '(result, pc2, nFound) := FindAndDelete_loop (length script) b script script [] 0 in
      if nFound >? 0 then (result ++ pc2, nFound) else (script, nFound)
  end.

Fixpoint Find_loop (fuel : nat) (op : Z) (pc : bytes) (nFound : Z) : Z :=
  match fuel, GetOp2 pc with
  | S fuel, Some (opcode, _, pc) => Find_loop fuel op pc (if opcode =? op then nFound + 1 else nFound)
  | _, _ => nFound
  end.
Definition Find (op : Z) (script : bytes) : Z := Find_loop (length script) op script 0.

(** [GetSigOpCount(bool)]. *)
Fixpoint GetSigOpCount_loop (fuel : nat) (fAccurate : bool) (pc : bytes) (lastOpcode n : Z) : Z :=
  match fuel, GetOp2 pc with
  | S fuel, Some (opcode, _, pc) =>
      let n :=
        if (opcode =? OP_CHECKSIG) || (opcode =? OP_CHECKSIGVERIFY) then u32 (n + 1)
        else if (opcode =? OP_CHECKMULTISIG) || (opcode =? OP_CHECKMULTISIGVERIFY) then
          if fAccurate && (lastOpcode >=? OP_1) && (lastOpcode <=? OP_16)
          then u32 (n + default 0 (DecodeOP_N lastOpcode))
          else u32 (n + MAX_PUBKEYS_PER_MULTISIG)
        else n in
      GetSigOpCount_loop fuel fAccurate pc opcode n
  | _, _ => n
  end.
Definition GetSigOpCount (fAccurate : bool) (script : bytes) : Z :=
  GetSigOpCount_loop (length script) fAccurate script OP_INVALIDOPCODE 0.

Definition byte_at (script : bytes) (i : nat) : Z := nth i script 0.

Definition IsPayToScriptHash (script : bytes) : bool :=
  (length script =? 23)%nat && (byte_at script 0 =? OP_HASH160) && (byte_at script 1 =? 0x14)
  && (byte_at script 22 =? OP_EQUAL).

Definition IsPayToWitnessScriptHash (script : bytes) : bool :=
  (length script =? 34)%nat && (byte_at script 0 =? OP_0) && (byte_at script 1 =? 0x20).

(** [IsWitnessProgram]: the version and the program. *)
Definition IsWitnessProgram (script : bytes) : option (Z * valtype) :=
  let size := Z.of_nat (length script) in
  if (size <? 4) || (size >? 42) then None
  else if negb (byte_at script 0 =? OP_0) && ((byte_at script 0 <? OP_1) || (byte_at script 0 >? OP_16)) then None
  else if byte_at script 1 + 2 =? size then
    version ← DecodeOP_N (byte_at script 0);
    Some (version, drop 2 script)
  else None.

(** The operand of the last push of [scriptSig]; [None] when an opcode is
    malformed or not a push. *)
Fixpoint last_push_loop (fuel : nat) (pc : bytes) (vData : valtype) : option valtype :=
  match fuel, pc with
  | S fuel, _ :: _ =>
      '(opcode, vData, pc) ← GetOp2 pc;
      if opcode >? OP_16 then None else last_push_loop fuel pc vData
  | _, _ => Some vData
  end.

(** [GetSigOpCount(const CScript& scriptSig)]. *)
Definition GetSigOpCount_p2sh (script scriptSig : bytes) : Z :=
  if negb (IsPayToScriptHash script) then GetSigOpCount true script
  else match last_push_loop (length scriptSig) scriptSig [] with
       | None => 0
       | Some vData => GetSigOpCount true vData
       end.

Fixpoint IsPushOnly_loop (fuel : nat) (pc : bytes) : bool :=
  match fuel, pc with
  | S fuel, _ :: _ =>
      match GetOp2 pc with
      | None => false
      | Some (opcode, _, pc) => if opcode >? OP_16 then false else IsPushOnly_loop fuel pc
      end
  | _, _ => true
  end.
Definition IsPushOnly (script : bytes) : bool := IsPushOnly_loop (length script) script.

Fixpoint HasValidOps_loop (fuel : nat) (it : bytes) : bool :=
  match fuel, it with
  | S fuel, _ :: _ =>
      match GetOp2 it with
      | None => false
      | Some (opcode, item, it) =>
          if (opcode >? MAX_OPCODE) || (Z.of_nat (length item) >? MAX_SCRIPT_ELEMENT_SIZE) then false
          else HasValidOps_loop fuel it
      end
  | _, _ => true
  end.
Definition HasValidOps (script : bytes) : bool := HasValidOps_loop (length script) script.

Definition IsUnspendable (script : bytes) : bool :=
  ((0 <? length script)%nat && (byte_at script 0 =? OP_RETURN)) || (Z.of_nat (length script) >? MAX_SCRIPT_SIZE).
End CScript.

(** [CScriptWitness] is its stack. *)
Abbreviation CScriptWitness := (list valtype).

(** ** Facts about script numbers *)

Module scriptnum_facts.
Import CScriptNum.

(** The number a byte string stands for: sign and magnitude, little-endian. *)
Definition num_value (vch : valtype) : Z :=
  let m := le_val 8 vch in
  let sign := 2 ^ (8 * Z.of_nat (length vch) - 1) in
  match vch with
  | [] => 0
  | _ => if sign <=? m then - (m - sign) else m
  end.

Lemma num_value_nonempty vch : vch <> [] ->
  num_value vch = if 2 ^ (8 * Z.of_nat (length vch) - 1) <=? le_val 8 vch
                  then - (le_val 8 vch - 2 ^ (8 * Z.of_nat (length vch) - 1)) else le_val 8 vch.
Proof. by destruct vch. Qed.

Lemma set_vch_loop_spec vch k r :
  bytes_ok vch -> 0 <= k -> k + Z.of_nat (length vch) <= 8 -> 0 <= r < 2 ^ (8 * k) ->
  r < 2 ^ 63 -> set_vch_loop vch k r = i64 (r + 2 ^ (8 * k) * le_val 8 vch).
Proof.
  intros Hb. revert k r. induction Hb as [|b vch Hb Hvch IH]; intros k r Hk Hlen Hr Hr63; cbn [set_vch_loop le_val].
  { rewrite Z.mul_0_r, Z.add_0_r. symmetry. apply swrap_small; lia. }
  cbn [length] in Hlen. unfold in_range in Hb.
  assert (2 ^ (8 * (k + 1)) = 256 * 2 ^ (8 * k)) as Hp.
  { replace (8 * (k + 1)) with (8 + 8 * k) by lia. by rewrite Z.pow_add_r by lia. }
  destruct (decide (b * 2 ^ (8 * k) < 2 ^ 63)) as [Hlt|Hge].
  - rewrite swrap_small; [|lia|rewrite Z.shiftl_mul_pow2 by lia; change (64 - 1) with 63; nia].
    rewrite lor_shiftl_add by (unfold in_range; lia).
    rewrite IH; [f_equal; rewrite Hp; ring|lia|lia|rewrite Hp; nia|].
    destruct (decide (k = 7)) as [->|]; [change (8 * 7) with 56 in *; lia|].
    assert (2 ^ (8 * (k + 1)) <= 2 ^ 56) by (apply Z.pow_le_mono_r; lia).
    assert (r + b * 2 ^ (8 * k) < 2 ^ (8 * (k + 1))) by (rewrite Hp; nia). lia.
  - assert (k = 7) as ->.
    { destruct (decide (k <= 6)); [|lia]. exfalso. apply Hge.
      assert (2 ^ (8 * k) <= 2 ^ 48) by (apply Z.pow_le_mono_r; lia). nia. }
    destruct vch; [|cbn [length] in Hlen; lia]. change (8 * 7) with 56 in *. cbn [le_val].
    assert (i64 (Z.shiftl b 56) = Z.shiftl (b - 256) 56) as ->.
    { rewrite !Z.shiftl_mul_pow2 by lia. unfold swrap, wrap. rewrite Z.mod_small by lia.
      destruct (Z.ltb_spec (b * 2 ^ 56) (2 ^ (64 - 1))); lia. }
    rewrite lor_shiftl_add by (unfold in_range; lia). cbn [set_vch_loop].
    unfold swrap, wrap. rewrite Z.mod_small by lia.
    destruct (Z.ltb_spec (r + 2 ^ 56 * (b + 2 ^ 8 * 0)) (2 ^ (64 - 1))); lia.
Qed.

Lemma land_80 back : in_range 8 back -> negb (Z.land back 0x80 =? 0) = (128 <=? back).
Proof.
  intros Hb. unfold in_range in Hb. change (128 <=? back) with (2 ^ 7 <=? back). change 0x80 with (2 ^ 7).
  rewrite <- (testbit_top back 7) by lia. destruct (Z.testbit back 7) eqn:Hbit.
  - assert (Z.testbit (Z.land back (2 ^ 7)) 7 = true) as H by (by rewrite Z.land_spec, Hbit).
    destruct (Z.eqb_spec (Z.land back (2 ^ 7)) 0) as [He|]; [by rewrite He in H|done].
  - assert (Z.land back (2 ^ 7) = 0) as ->; [|done].
    apply Z.bits_inj'. intros n Hn. rewrite Z.land_spec, Z.bits_0, Z.pow2_bits_eqb by lia.
    destruct (Z.eqb_spec 7 n) as [<-|]; [by rewrite Hbit|apply andb_false_r].
Qed.

Lemma land_7f back : Z.land back 0x7f = back mod 128.
Proof. change 0x7f with (Z.ones 7). by rewrite Z.land_ones by lia. Qed.

(** The top byte of a string decides its sign. *)
Lemma sign_snoc l back : bytes_ok l -> in_range 8 back ->
  (2 ^ (8 * Z.of_nat (length (l ++ [back])) - 1) <=? le_val 8 (l ++ [back])) = (128 <=? back).
Proof.
  intros Hl Hb. unfold in_range in Hb. pose proof (le_val_bound 8 l ltac:(lia) Hl).
  rewrite length_app, le_val_snoc. cbn [length].
  replace (8 * Z.of_nat (length l + 1) - 1) with (7 + 8 * Z.of_nat (length l)) by lia.
  rewrite Z.pow_add_r by lia. set (M := 2 ^ (8 * Z.of_nat (length l))) in *.
  destruct (Z.leb_spec 128 back); [apply Z.leb_le|apply Z.leb_gt]; nia.
Qed.

Lemma num_value_snoc l back : bytes_ok l -> in_range 8 back ->
  num_value (l ++ [back]) =
    if 128 <=? back then - (le_val 8 l + 2 ^ (8 * Z.of_nat (length l)) * (back - 128))
    else le_val 8 l + 2 ^ (8 * Z.of_nat (length l)) * back.
Proof.
  intros Hl Hb. rewrite num_value_nonempty by (by destruct l). rewrite sign_snoc by done. rewrite le_val_snoc, length_app. cbn [length].
  replace (8 * Z.of_nat (length l + 1) - 1) with (7 + 8 * Z.of_nat (length l)) by lia.
  rewrite Z.pow_add_r by lia. destruct (128 <=? back); [|done]. change (2 ^ 7) with 128. ring.
Qed.

Lemma clear_bit m k : 0 <= k -> 2 ^ k <= m < 2 ^ (k + 1) -> Z.land m (Z.lnot (2 ^ k)) = m - 2 ^ k.
Proof.
  intros Hk Hm. rewrite <- Z.ldiff_land, <- Z.sub_nocarry_ldiff; [done|].
  apply Z.bits_inj'. intros n Hn. rewrite Z.ldiff_spec, Z.bits_0, Z.pow2_bits_eqb by lia.
  destruct (Z.eqb_spec k n) as [<-|]; [|done].
  rewrite testbit_top by lia. rewrite (proj2 (Z.leb_le _ _)) by lia. done.
Qed.

Lemma set_vch_spec vch : bytes_ok vch -> (length vch <= 8)%nat -> set_vch vch = num_value vch.
Proof.
  intros Hb Hlen. unfold set_vch. destruct vch as [|back l _] using rev_ind; [done|].
  rewrite last_snoc. apply Forall_app in Hb as [Hl Hback]. apply Forall_cons_1 in Hback as [Hback _].
  rewrite length_app in *. cbn [length] in *.
  assert (bytes_ok (l ++ [back])) as Hall by (apply Forall_app; split; [done|by constructor]).
  rewrite set_vch_loop_spec; [|done|lia|rewrite length_app; cbn; lia|lia|lia].
  change (2 ^ (8 * 0)) with 1. rewrite Z.mul_1_l, Z.add_0_l.
  pose proof (le_val_bound 8 _ ltac:(lia) Hall) as Hm. rewrite length_app in Hm. cbn [length] in Hm.
  set (m := le_val 8 (l ++ [back])) in *. set (n := Z.of_nat (length l + 1)) in *.
  assert (2 ^ (8 * n) <= 2 ^ 64) as H64 by (apply Z.pow_le_mono_r; lia).
  assert (0 < 2 ^ (8 * n - 1) /\ 2 ^ (8 * n) = 2 * 2 ^ (8 * n - 1)) as [Hpos Hdouble].
  { split; [apply Z.pow_pos_nonneg; lia|]. rewrite <- Z.pow_succ_r by lia. f_equal. lia. }
  rewrite land_80 by done. rewrite <- (sign_snoc l back Hl Hback).
  rewrite length_app. cbn [length]. fold n. fold m.
  assert (num_value (l ++ [back]) = if 2 ^ (8 * n - 1) <=? m then - (m - 2 ^ (8 * n - 1)) else m) as ->.
  { rewrite num_value_nonempty by (by destruct l). rewrite length_app. done. }
  assert (2 ^ (8 * n - 1) <= 2 ^ 63) by (apply Z.pow_le_mono_r; lia).
  destruct (Z.leb_spec (2 ^ (8 * n - 1)) m) as [Hs|Hs]; [|apply swrap_small; lia].
  assert (u64 (i64 m) = m) as ->.
  { unfold swrap, wrap. rewrite (Z.mod_small m) by lia.
    destruct (Z.ltb_spec m (2 ^ (64 - 1))); [by apply Z.mod_small; lia|].
    symmetry. apply (Z.mod_unique _ _ (-1)); lia. }
  rewrite Z.shiftl_mul_pow2 by lia.
  assert (128 * 2 ^ (8 * (n - 1)) = 2 ^ (8 * n - 1)) as ->.
  { change 128 with (2 ^ 7). rewrite <- Z.pow_add_r by lia. f_equal. lia. }
  rewrite wrap_small by (unfold in_range; lia).
  rewrite clear_bit by (rewrite ?Z.sub_add; lia).
  assert (m - 2 ^ (8 * n - 1) < 2 ^ 63) by lia.
  rewrite (swrap_small 64 (m - _)) by lia. by rewrite swrap_small by lia.
Qed.

(** The magnitude: the sign bit of the top byte left out. *)
Lemma num_value_abs l back : bytes_ok l -> in_range 8 back ->
  Z.abs (num_value (l ++ [back])) = le_val 8 l + 2 ^ (8 * Z.of_nat (length l)) * (back mod 128).
Proof.
  intros Hl Hb. rewrite num_value_snoc by done. unfold in_range in Hb.
  pose proof (le_val_bound 8 l ltac:(lia) Hl). set (M := 2 ^ (8 * Z.of_nat (length l))) in *.
  destruct (Z.leb_spec 128 back).
  - replace (back mod 128) with (back - 128) by (apply (Z.mod_unique _ _ 1); lia). nia.
  - rewrite Z.mod_small by lia. nia.
Qed.

Lemma minimal_snoc l back : in_range 8 back ->
  minimal (l ++ [back]) = negb ((back mod 128 =? 0) && match last l with Some c => c <? 128 | None => true end)
  \/ exists c, last l = Some c /\ ~ in_range 8 c.
Proof.
  intros Hb. unfold minimal. rewrite last_snoc, land_7f, length_app. cbn [length].
  destruct l as [|c l _] using rev_ind; [by left|]. rewrite last_snoc.
  destruct (decide (in_range 8 c)) as [Hc|]; [left|right; by exists c].
  rewrite length_app. cbn [length]. rewrite (proj2 (Z.leb_gt _ _)) by lia. cbn [orb].
  replace (length l + 1 + 1 - 2)%nat with (length l) by lia.
  rewrite <- app_assoc. rewrite app_nth2, Nat.sub_diag by lia. cbn [nth app].
  f_equal. f_equal. pose proof (land_80 c Hc) as H. destruct (Z.land c 128 =? 0); cbn in H.
  - symmetry. apply Z.ltb_lt. symmetry in H. by apply Z.leb_gt in H.
  - symmetry. apply Z.ltb_ge. symmetry in H. by apply Z.leb_le in H.
Qed.

Lemma minimal_magnitude vch : bytes_ok vch -> vch <> [] -> minimal vch = true ->
  1 <= Z.abs (num_value vch) /\ 2 ^ (8 * (Z.of_nat (length vch) - 1) - 1) <= Z.abs (num_value vch).
Proof.
  intros Hb Hne Hmin. destruct vch as [|back l _] using rev_ind; [done|]. clear Hne.
  apply Forall_app in Hb as [Hl Hback]. apply Forall_cons_1 in Hback as [Hback _].
  rewrite num_value_abs by done. rewrite length_app. cbn [length].
  replace (Z.of_nat (length l + 1) - 1) with (Z.of_nat (length l)) by lia.
  pose proof (le_val_bound 8 l ltac:(lia) Hl). pose proof (Z.mod_pos_bound back 128 ltac:(lia)).
  assert (2 ^ (8 * Z.of_nat (length l) - 1) <= 2 ^ (8 * Z.of_nat (length l))) by (apply Z.pow_le_mono_r; lia).
  destruct (minimal_snoc l back Hback) as [Hm|(c & Hc & Hbad)].
  2:{ exfalso. apply Hbad. destruct l as [|d l' _] using rev_ind; [done|]. rewrite last_snoc in Hc.
      apply Forall_app in Hl as [_ Hd]. apply Forall_cons_1 in Hd as [Hd _]. by simplify_eq. }
  rewrite Hmin in Hm. set (M := 2 ^ (8 * Z.of_nat (length l))) in *.
  destruct (Z.eqb_spec (back mod 128) 0) as [Hz|]; [|split; nia].
  destruct l as [|c l' _] using rev_ind; [done|]. rewrite last_snoc in Hm. cbn [andb] in Hm.
  symmetry in Hm. apply negb_true_iff, Z.ltb_ge in Hm. rewrite Hz, Z.mul_0_r, Z.add_0_r.
  apply Forall_app in Hl as [Hl' _]. pose proof (le_val_bound 8 l' ltac:(lia) Hl').
  rewrite le_val_snoc, length_app. cbn [length].
  replace (8 * Z.of_nat (length l' + 1) - 1) with (7 + 8 * Z.of_nat (length l')) by lia.
  rewrite Z.pow_add_r by lia. change (2 ^ 7) with 128.
  set (N := 2 ^ (8 * Z.of_nat (length l'))) in *. assert (1 <= N) by lia. split; nia.
Qed.

Lemma num_value_bound vch : bytes_ok vch -> vch <> [] ->
  Z.abs (num_value vch) < 2 ^ (8 * Z.of_nat (length vch) - 1).
Proof.
  intros Hb Hne. destruct vch as [|back l _] using rev_ind; [done|].
  apply Forall_app in Hb as [Hl Hback]. apply Forall_cons_1 in Hback as [Hback _].
  rewrite num_value_abs by done. rewrite length_app. cbn [length].
  replace (8 * Z.of_nat (length l + 1) - 1) with (7 + 8 * Z.of_nat (length l)) by lia.
  rewrite Z.pow_add_r by lia. pose proof (le_val_bound 8 l ltac:(lia) Hl).
  pose proof (Z.mod_pos_bound back 128 ltac:(lia)). change (2 ^ 7) with 128.
  set (M := 2 ^ (8 * Z.of_nat (length l))) in *. nia.
Qed.

(** A minimal string is determined by its number. *)
Lemma minimal_inj v1 v2 : bytes_ok v1 -> bytes_ok v2 -> minimal v1 = true -> minimal v2 = true ->
  num_value v1 = num_value v2 -> v1 = v2.
Proof.
  intros H1 H2 M1 M2 He.
  destruct (decide (v1 = [])) as [->|N1], (decide (v2 = [])) as [->|N2]; [done|..].
  { pose proof (minimal_magnitude v2 H2 N2 M2). rewrite <- He in *. cbn in *. lia. }
  { pose proof (minimal_magnitude v1 H1 N1 M1). rewrite He in *. cbn in *. lia. }
  destruct (minimal_magnitude v1 H1 N1 M1) as [P1 L1]. destruct (minimal_magnitude v2 H2 N2 M2) as [P2 L2].
  pose proof (num_value_bound v1 H1 N1) as U1. pose proof (num_value_bound v2 H2 N2) as U2.
  assert (forall n k : Z, 2 ^ (8 * (n - 1) - 1) <= Z.abs (num_value v2) ->
    Z.abs (num_value v2) < 2 ^ (8 * k - 1) -> 1 <= k -> n <= k) as Hlen.
  { intros n k Ha Hb Hk. destruct (Z.le_gt_cases n k) as [|Hgt]; [done|].
    assert (2 ^ (8 * k - 1) <= 2 ^ (8 * (n - 1) - 1)) by (apply Z.pow_le_mono_r; lia). lia. }
  rewrite He in *.
  assert (0 < length v1)%nat by (by destruct v1; cbn; [|lia]).
  assert (0 < length v2)%nat by (by destruct v2; cbn; [|lia]).
  assert (length v1 = length v2) as Hn.
  { pose proof (Hlen _ _ L1 U2 ltac:(lia)). pose proof (Hlen _ _ L2 U1 ltac:(lia)). lia. }
  apply (le_val_inj 8); [lia|done..|]. rewrite (num_value_nonempty v1) in He by done.
  rewrite (num_value_nonempty v2) in P1, He by done. rewrite Hn in *.
  pose proof (le_val_bound 8 v1 ltac:(lia) H1). pose proof (le_val_bound 8 v2 ltac:(lia) H2).
  set (s := 2 ^ (8 * Z.of_nat (length v2) - 1)) in *.
  destruct (Z.leb_spec s (le_val 8 v1)), (Z.leb_spec s (le_val 8 v2)); lia.
Qed.

Lemma serialize_loop_spec fuel a : 0 <= a < 2 ^ (8 * Z.of_nat fuel) ->
  let r := serialize_loop fuel a in
  bytes_ok r /\ le_val 8 r = a /\ (length r <= fuel)%nat /\
  (a <> 0 -> exists l back, r = l ++ [back] /\ back <> 0).
Proof.
  revert a. induction fuel as [|fuel IH]; intros a Ha r; subst r; cbn [serialize_loop].
  { change (2 ^ (8 * Z.of_nat 0)) with 1 in Ha. assert (a = 0) as -> by lia. by repeat split. }
  destruct (Z.eqb_spec a 0) as [->|Hne].
  { split; [done|]. split; [done|]. split; [cbn; lia|done]. }
  rewrite pow2_mul_succ in Ha by lia. rewrite land_ff, Z.shiftr_div_pow2 by lia.
  assert (0 <= a / 2 ^ 8 < 2 ^ (8 * Z.of_nat fuel)) as Hd.
  { split; [apply Z.div_pos; lia|]. apply Z.div_lt_upper_bound; lia. }
  destruct (IH _ Hd) as (H1 & H2 & H3 & H4). cbn [le_val length].
  split; [constructor; [by apply wrap_range|done]|]. split.
  { rewrite H2. unfold wrap. pose proof (Z.div_mod a (2 ^ 8)). lia. }
  split; [lia|]. intros _. destruct (decide (a / 2 ^ 8 = 0)) as [H0|Hn0].
  - rewrite H0. exists [], (u8 a). split; [|].
    + by destruct fuel.
    + unfold wrap. pose proof (Z.div_mod a (2 ^ 8)). lia.
  - destruct (H4 Hn0) as (l & back & -> & ?). by exists (u8 a :: l), back.
Qed.

Lemma lor_80 back : in_range 8 back -> back < 128 -> Z.lor back 0x80 = back + 128.
Proof.
  intros Hb Hlt. unfold in_range in Hb. change (Z.lor back 0x80) with (Z.lor back (Z.shiftl 1 7)).
  rewrite lor_shiftl_add by (unfold in_range; lia). lia.
Qed.

Lemma serialize_spec v : - 2 ^ 63 < v < 2 ^ 63 ->
  bytes_ok (serialize v) /\ num_value (serialize v) = v /\ minimal (serialize v) = true.
Proof.
  intros Hv. unfold serialize. destruct (Z.eqb_spec v 0) as [->|Hne]; [by repeat constructor|].
  assert (u64 (if v <? 0 then i64 (- v) else v) = Z.abs v) as ->.
  { destruct (Z.ltb_spec v 0); [rewrite swrap_small by lia|]; rewrite wrap_small; unfold in_range; lia. }
  destruct (serialize_loop_spec 8 (Z.abs v)) as (Hb & Hval & Hlen & Hsn); [change (8 * Z.of_nat 8) with 64; lia|].
  destruct Hsn as (l & back & Hr & Hback0); [lia|]. rewrite Hr in *. rewrite last_snoc. change (default 0 (Some back)) with back.
  apply Forall_app in Hb as [Hl Hback]. apply Forall_cons_1 in Hback as [Hback _].
  assert (bytes_ok (l ++ [back])) as Hall by (apply Forall_app; split; [done|by constructor]).
  assert (forall x, in_range 8 x -> bytes_ok (l ++ [x])) as Hsnoc
    by (intros; apply Forall_app; split; [done|by constructor]).
  pose proof Hback as Hback'. unfold in_range in Hback'.
  rewrite land_80 by done. rewrite le_val_snoc in Hval. destruct (Z.leb_spec 128 back).
  - assert (in_range 8 (if v <? 0 then 128 else 0)) as Hx by (unfold in_range; bcases).
    split; [apply Forall_app; split; [done|by constructor]|]. split.
    + rewrite num_value_snoc by done. rewrite le_val_snoc, Hval.
      destruct (Z.ltb_spec v 0); cbn [Z.leb]; rewrite ?Z.mul_0_r; cbn; lia.
    + destruct (minimal_snoc (l ++ [back]) (if v <? 0 then 128 else 0) Hx) as [->|(c & Hc & Hbad)].
      * rewrite last_snoc, (proj2 (Z.ltb_ge back 128)) by lia. by rewrite andb_false_r.
      * rewrite last_snoc in Hc. by simplify_eq.
  - assert (forall x, in_range 8 x -> x mod 128 <> 0 -> minimal (l ++ [x]) = true) as Hmin.
    { intros x Hx Hx0. destruct (minimal_snoc l x Hx) as [->|(c & Hc & Hbad)].
      - by rewrite (proj2 (Z.eqb_neq _ _) Hx0).
      - exfalso. apply Hbad. destruct l as [|d l' _] using rev_ind; [done|]. rewrite last_snoc in Hc.
        apply Forall_app in Hl as [_ Hd]. apply Forall_cons_1 in Hd as [Hd _]. by simplify_eq. }
    destruct (Z.ltb_spec v 0).
    + rewrite lor_80, length_app by done. cbn [length]. rewrite Nat.add_sub, take_app_length.
      assert (in_range 8 (back + 128)) as Hx by (unfold in_range; lia).
      split; [by apply Hsnoc|]. split.
      * rewrite num_value_snoc by done. rewrite (proj2 (Z.leb_le _ _)) by lia.
        replace (back + 128 - 128) with back by lia. lia.
      * apply Hmin; [done|]. rewrite <- (Z.mod_unique (back + 128) 128 1 back) by lia. done.
    + split; [done|]. split; [|by apply Hmin; [|rewrite Z.mod_small by lia]].
      rewrite num_value_snoc by done. rewrite (proj2 (Z.leb_gt _ _)) by lia. lia.
Qed.

Lemma serialize_length v k : - 2 ^ 63 < v < 2 ^ 63 -> 1 <= k -> Z.abs v < 2 ^ (8 * k - 1) ->
  Z.of_nat (length (serialize v)) <= k.
Proof.
  intros Hv Hk Hlt. destruct (serialize_spec v Hv) as (Hb & Hval & Hmin).
  destruct (decide (serialize v = [])) as [->|Hne]; [cbn; lia|].
  destruct (minimal_magnitude _ Hb Hne Hmin) as [_ Hm]. rewrite Hval in Hm.
  destruct (Z.le_gt_cases (Z.of_nat (length (serialize v))) k) as [|Hgt]; [done|].
  assert (2 ^ (8 * k - 1) <= 2 ^ (8 * (Z.of_nat (length (serialize v)) - 1) - 1)) by (apply Z.pow_le_mono_r; lia).
  lia.
Qed.

(** [of_vch] on strings of up to eight bytes. *)
Lemma of_vch_Some vch req n a : bytes_ok vch -> n <= 8 -> of_vch vch req n = Some a ->
  a = num_value vch /\ Z.of_nat (length vch) <= n /\ (req = true -> minimal vch = true).
Proof.
  intros Hb Hn. unfold of_vch. rewrite Z.gtb_ltb. destruct (Z.ltb_spec n (Z.of_nat (length vch))); [done|].
  destruct (req && negb (minimal vch)) eqn:He; [done|]. intros [= <-].
  split; [by apply set_vch_spec; [|lia]|]. split; [lia|]. intros ->. cbn in He. by apply negb_false_iff in He.
Qed.

Lemma of_vch_range vch req n a : bytes_ok vch -> 1 <= n <= 8 -> of_vch vch req n = Some a ->
  Z.abs a < 2 ^ (8 * n - 1).
Proof.
  intros Hb Hn (-> & Hlen & _)%of_vch_Some; [|done|lia].
  destruct (decide (vch = [])) as [->|Hne]; [cbn; lia|].
  pose proof (num_value_bound vch Hb Hne).
  assert (2 ^ (8 * Z.of_nat (length vch) - 1) <= 2 ^ (8 * n - 1)) by (apply Z.pow_le_mono_r; lia). lia.
Qed.
End scriptnum_facts.

(** ** Facts about the operations of [CScript] *)

Module script_facts.
Import CScript.

(** [GetOp2] consumes at least one byte and leaves a suffix. *)
Lemma GetOp2_suffix pc op d pc' : GetOp2 pc = Some (op, d, pc') ->
  exists u, pc = op :: u ++ pc' /\ exists u', u = u' ++ d.
Proof.
  destruct pc as [|o pc]; [done|]. cbn [GetOp2]. destruct (o <=? OP_PUSHDATA4).
  2:{ intros [= <- <- <-]. exists []. split; [done|by exists []]. }
  intros H. match type of H with (?m ≫= _) = _ => destruct m as [[n r]|] eqn:Hn; [|done] end.
  cbn [mbind option_bind] in H. case_match; [done|]. simplify_eq.
  assert (exists h, pc = h ++ r) as (h & ->).
  { repeat case_match; simplify_eq; [by exists []|by eexists [_]|..];
      eexists; symmetry; apply take_drop. }
  exists (h ++ take (Z.to_nat n) r). rewrite <- app_assoc, take_drop. split; [done|by exists h].
Qed.

Lemma GetOp2_shorter pc op d pc' : GetOp2 pc = Some (op, d, pc') -> (length pc' < length pc)%nat.
Proof. intros (u & -> & _)%GetOp2_suffix. cbn. rewrite length_app. lia. Qed.

Lemma GetOp2_bytes pc op d pc' : bytes_ok pc -> GetOp2 pc = Some (op, d, pc') ->
  in_range 8 op /\ bytes_ok d /\ bytes_ok pc'.
Proof.
  intros Hb (u & -> & u' & ->)%GetOp2_suffix. apply Forall_cons in Hb as [Ho Hb].
  apply Forall_app in Hb as [Hu Hp]. apply Forall_app in Hu as [_ Hd]. done.
Qed.

(** Only the pushes have an operand. *)
Lemma GetOp2_operand pc op d pc' : GetOp2 pc = Some (op, d, pc') -> OP_PUSHDATA4 < op -> d = [].
Proof.
  destruct pc as [|o pc]; [done|]. cbn [GetOp2]. destruct (Z.leb_spec o OP_PUSHDATA4).
  - intros Hg. match type of Hg with (?m ≫= _) = _ => destruct m as [[n r]|]; [|done] end.
    cbn [mbind option_bind] in Hg. case_match; [done|]. simplify_eq. lia.
  - by intros [= <- <- <-].
Qed.

Lemma le_digits_1 w z : le_digits w 1 z = [wrap w z].
Proof. done. Qed.

(** The opcode that [push_data] writes. *)
Definition push_opcode_of (b : valtype) : Z :=
  let size := Z.of_nat (length b) in
  if size <? OP_PUSHDATA1 then size else if size <=? 0xff then OP_PUSHDATA1
  else if size <=? 0xffff then OP_PUSHDATA2 else OP_PUSHDATA4.

Lemma push_data_app s b : push_data s b = s ++ push_data [] b.
Proof. unfold push_data. by repeat case_match; rewrite <- ?app_assoc. Qed.

Lemma ReadLE_Write k z r : 0 <= z < 2 ^ (8 * Z.of_nat k) -> le_val 8 (take k (le_digits 8 k z ++ r)) = z.
Proof.
  intros Hz. rewrite take_app_length' by by rewrite length_le_digits.
  rewrite le_val_digits by lia. by apply Z.mod_small.
Qed.

(** A pushed string is read back. *)
Lemma GetOp2_push b r : Z.of_nat (length (b ++ r)) < 2 ^ 32 ->
  GetOp2 (push_data [] b ++ r) = Some (push_opcode_of b, b, r).
Proof.
  rewrite length_app. intros Hlen. unfold push_data, push_opcode_of. set (size := Z.of_nat (length b)).
  assert (forall (o : Z), (if u32 (Z.of_nat (length (b ++ r))) <? size then None
    else Some (o, take (Z.to_nat size) (b ++ r), drop (Z.to_nat size) (b ++ r))) = Some (o, b, r)) as Hfin.
  { intros o. rewrite wrap_small by (unfold in_range; rewrite length_app; lia).
    rewrite length_app, (proj2 (Z.ltb_ge _ _)) by lia. unfold size. rewrite Nat2Z.id.
    by rewrite take_app_length, drop_app_length. }
  destruct (Z.ltb_spec size OP_PUSHDATA1) as [H1|H1]; unfold OP_PUSHDATA1 in H1.
  - rewrite wrap_small by (unfold in_range; lia). cbn [app GetOp2].
    rewrite (proj2 (Z.leb_le size OP_PUSHDATA4)) by (unfold OP_PUSHDATA4; lia).
    rewrite (proj2 (Z.ltb_lt size OP_PUSHDATA1)) by (unfold OP_PUSHDATA1; lia). cbn [mbind option_bind].
    apply Hfin.
  - destruct (Z.leb_spec size 0xff); [|destruct (Z.leb_spec size 0xffff)].
    + rewrite wrap_small by (unfold in_range; lia). cbn [app]. cbn -[Z.to_nat Z.of_nat]. apply Hfin.
    + rewrite wrap_small by (unfold in_range; lia). cbn [app].
      change (GetOp2 (OP_PUSHDATA2 :: (WriteLE16 size ++ b) ++ r)) with
        ('(n, pc) ← (if (length ((WriteLE16 size ++ b) ++ r) <? 2)%nat then None
           else Some (ReadLE16 ((WriteLE16 size ++ b) ++ r), drop 2 ((WriteLE16 size ++ b) ++ r)));
         if u32 (Z.of_nat (length pc)) <? n then None
         else Some (OP_PUSHDATA2, take (Z.to_nat n) pc, drop (Z.to_nat n) pc)).
      rewrite <- app_assoc. unfold ReadLE16, WriteLE16. rewrite ReadLE_Write by (change (8 * Z.of_nat 2) with 16; lia).
      rewrite length_app, length_le_digits, drop_app_length' by by rewrite length_le_digits.
      cbn [Nat.add Nat.ltb Nat.leb mbind option_bind]. apply Hfin.
    + rewrite wrap_small by (unfold in_range; lia). cbn [app].
      change (GetOp2 (OP_PUSHDATA4 :: (WriteLE32 size ++ b) ++ r)) with
        ('(n, pc) ← (if (length ((WriteLE32 size ++ b) ++ r) <? 4)%nat then None
           else Some (ReadLE32 ((WriteLE32 size ++ b) ++ r), drop 4 ((WriteLE32 size ++ b) ++ r)));
         if u32 (Z.of_nat (length pc)) <? n then None
         else Some (OP_PUSHDATA4, take (Z.to_nat n) pc, drop (Z.to_nat n) pc)).
      rewrite <- app_assoc. unfold ReadLE32, WriteLE32. rewrite ReadLE_Write by (change (8 * Z.of_nat 4) with 32; lia).
      rewrite length_app, length_le_digits, drop_app_length' by by rewrite length_le_digits.
      cbn [Nat.add Nat.ltb Nat.leb mbind option_bind]. apply Hfin.
Qed.

(** *** Deletion

    [deleted b pc r n]: removing every occurrence of [b] that begins at an
    instruction of [pc] leaves [r] after [n] removals. *)
Inductive deleted (b : bytes) : bytes -> bytes -> Z -> Prop :=
  | deleted_here pc r n : deleted b pc r n -> deleted b (b ++ pc) r (n + 1)
  | deleted_next pc u pc' op d r n : starts_with b pc = false ->
      GetOp2 pc = Some (op, d, pc') -> pc = u ++ pc' -> deleted b pc' r n -> deleted b pc (u ++ r) n
  | deleted_end pc : starts_with b pc = false -> GetOp2 pc = None -> deleted b pc pc 0.

Lemma starts_with_app b pc : starts_with b pc = true -> exists r, pc = b ++ r.
Proof. unfold starts_with. intros H%bool_decide_eq_true. exists (drop (length b) pc). by rewrite <- H at 1; rewrite take_drop. Qed.

Lemma delete_loop_spec fuel b pc n : b <> [] -> (length pc <= fuel)%nat ->
  let '(pc', n') := delete_loop fuel b pc n in
  starts_with b pc' = false /\ (length pc' <= length pc)%nat /\ n <= n' /\
  forall r k, deleted b pc' r k -> deleted b pc r (k + (n' - n)).
Proof.
  intros Hb. revert pc n. induction fuel as [|fuel IH]; intros pc n Hf.
  { destruct pc; [|cbn in Hf; lia]. cbn. destruct b; [done|]. cbn. split; [done|]. split; [lia|]. split; [lia|].
    intros r k. by rewrite Z.sub_diag, Z.add_0_r. }
  cbn [delete_loop]. destruct (length b <=? length pc)%nat eqn:Hle; cbn [andb].
  2:{ assert (starts_with b pc = false) as Hs.
      { unfold starts_with. apply bool_decide_eq_false. intros H. apply Nat.leb_gt in Hle.
        apply (f_equal length) in H. rewrite length_take in H. lia. }
      split; [done|]. split; [lia|]. split; [lia|]. intros r k. by rewrite Z.sub_diag, Z.add_0_r. }
  destruct (starts_with b pc) eqn:Hs.
  2:{ split; [done|]. split; [lia|]. split; [lia|]. intros r k. by rewrite Z.sub_diag, Z.add_0_r. }
  destruct (starts_with_app b pc Hs) as (rest & ->). rewrite drop_app_length.
  assert (0 < length b)%nat by (by destruct b; cbn; [|lia]). rewrite length_app in *.
  specialize (IH rest (n + 1) ltac:(lia)). destruct (delete_loop fuel b rest (n + 1)) as [pc' n'].
  destruct IH as (H1 & H2 & H3 & H4). split; [done|]. split; [lia|]. split; [lia|].
  intros r k Hr. replace (k + (n' - n)) with (k + (n' - (n + 1)) + 1) by lia. constructor. by apply H4.
Qed.

Lemma FindAndDelete_loop_spec fuel b pc pc2 result n : b <> [] -> (length pc <= fuel)%nat ->
  (exists u, pc2 = u ++ pc) ->
  let '(result', pc', n') := FindAndDelete_loop fuel b pc pc2 result n in
  n <= n' /\ exists r, deleted b pc r (n' - n) /\
    result' ++ pc' = result ++ take (length pc2 - length pc) pc2 ++ r.
Proof.
  intros Hb. revert pc pc2 result n. induction fuel as [|fuel IH]; intros pc pc2 result n Hf (u & ->).
  all: cbn [FindAndDelete_loop]; pose proof (delete_loop_spec (length pc) b pc n Hb (le_n _)) as Hd;
    destruct (delete_loop (length pc) b pc n) as [pc1 n1]; destruct Hd as (Hs & Hlen & Hn & Hdel).
  { destruct pc1; [|cbn in *; lia]. split; [done|]. exists []. rewrite <- app_assoc. split; [|done].
    specialize (Hdel [] 0). rewrite Z.add_0_l in Hdel. apply Hdel. by constructor. }
  destruct (GetOp2 pc1) as [[[op d] pc']|] eqn:Hop.
  2:{ split; [done|]. exists pc1. rewrite <- app_assoc. split; [|done].
      specialize (Hdel pc1 0). rewrite Z.add_0_l in Hdel. apply Hdel. by constructor. }
  destruct (GetOp2_suffix _ _ _ _ Hop) as (w & Hw & _). pose proof (GetOp2_shorter _ _ _ _ Hop).
  specialize (IH pc' pc1 (result ++ take (length (u ++ pc) - length pc) (u ++ pc)) n1 ltac:(lia)).
  destruct (FindAndDelete_loop fuel b pc' pc1 _ n1) as [[result' pc''] n'].
  destruct IH as (Hn' & r & Hr & He); [by exists (op :: w)|]. split; [lia|].
  exists (take (length pc1 - length pc') pc1 ++ r). rewrite <- app_assoc in He. split; [|exact He].
  replace (n' - n) with (n' - n1 + (n1 - n)) by lia. apply Hdel.
  apply deleted_next with pc' op d; [done|done| |done].
  subst pc1. change (op :: w ++ pc') with ((op :: w) ++ pc'). rewrite length_app, Nat.add_sub.
  by rewrite take_app_length.
Qed.

Lemma deleted_none b pc r : deleted b pc r 0 -> r = pc.
Proof.
  intros H. assert (forall n, deleted b pc r n -> 0 <= n /\ (n = 0 -> r = pc)) as Hg.
  { clear H. intros n H. induction H as [pc r n _ [? _]|pc u pc' op d r n _ _ -> _ [? IH]|]; [lia| |done].
    split; [done|]. intros Hn. by rewrite (IH Hn). }
  by apply (Hg 0).
Qed.

Lemma deleted_length b pc r n : deleted b pc r n ->
  Z.of_nat (length r) + n * Z.of_nat (length b) = Z.of_nat (length pc).
Proof. induction 1; subst; rewrite ?length_app in *; lia. Qed.

(** *** Signature operations *)

Lemma GetSigOpCount_loop_bounds fuel pc last n m : Z.of_nat (length pc) * 20 < 2 ^ 32 ->
  0 <= n -> n <= m -> m + Z.of_nat (length pc) * 20 < 2 ^ 32 ->
  let a := GetSigOpCount_loop fuel true pc last n in
  let b := GetSigOpCount_loop fuel false pc last m in
  n <= a /\ a <= b /\ b <= m + Z.of_nat (length pc) * 20.
Proof.
  revert pc last n m. induction fuel as [|fuel IH]; intros pc last n m Hl Hn Hm Hb; [cbn; lia|].
  cbn [GetSigOpCount_loop]. destruct (GetOp2 pc) as [[[op d] pc']|] eqn:Hop; [|cbn; lia].
  pose proof (GetOp2_shorter _ _ _ _ Hop) as Hlt. cbn [andb].
  assert (forall x y : Z, n <= x -> x <= y -> y <= m + 20 ->
    n <= GetSigOpCount_loop fuel true pc' op x /\
    GetSigOpCount_loop fuel true pc' op x <= GetSigOpCount_loop fuel false pc' op y /\
    GetSigOpCount_loop fuel false pc' op y <= m + Z.of_nat (length pc) * 20) as Hstep.
  { intros x y Hx Hxy Hy. destruct (IH pc' op x y) as (? & ? & ?); lia. }
  unfold MAX_PUBKEYS_PER_MULTISIG.
  destruct ((op =? OP_CHECKSIG) || (op =? OP_CHECKSIGVERIFY)).
  { rewrite !wrap_small by (unfold in_range; lia). apply Hstep; lia. }
  destruct ((op =? OP_CHECKMULTISIG) || (op =? OP_CHECKMULTISIGVERIFY)); [|by apply Hstep; lia].
  rewrite (wrap_small 32 (m + 20)) by (unfold in_range; lia).
  destruct ((last >=? OP_1) && (last <=? OP_16)) eqn:Hlast.
  - unfold DecodeOP_N. rewrite Hlast. unfold OP_0, OP_1, OP_16 in *.
    destruct (Z.eqb_spec last 0) as [->|]; [done|].
    apply andb_true_iff in Hlast as [H1 H2]. apply Z.leb_le in H2. apply Z.geb_le in H1. cbn [default from_option id].
    rewrite wrap_small by (unfold in_range, id; lia). apply Hstep; unfold id; lia.
  - rewrite wrap_small by (unfold in_range; lia). apply Hstep; lia.
Qed.

Lemma IsPushOnly_sigops fuel pc last n acc : IsPushOnly_loop fuel pc = true ->
  GetSigOpCount_loop fuel acc pc last n = n.
Proof.
  revert pc last n. induction fuel as [|fuel IH]; intros pc last n H; [done|].
  cbn [IsPushOnly_loop GetSigOpCount_loop] in *. destruct pc as [|x pc]; [done|].
  destruct (GetOp2 (x :: pc)) as [[[op d] pc']|]; [|done].
  rewrite Z.gtb_ltb in H. destruct (Z.ltb_spec OP_16 op) as [|Hle]; [done|].
  rewrite !(proj2 (Z.eqb_neq _ _)) by
    (unfold OP_16, OP_CHECKSIG, OP_CHECKSIGVERIFY, OP_CHECKMULTISIG, OP_CHECKMULTISIGVERIFY in *; lia).
  by apply IH.
Qed.
End script_facts.

(** ** Properties *)

(** a script number in (-2^63, 2^63) is serialised minimally, in [k]
    bytes when its magnitude is below [2^(8k-1)], and read back; a string of
    at most [n <= 8] bytes that the constructor accepts is a number of that
    range, and with the minimality test it is the one serialisation of its
    number. *)
Theorem CScriptNum_roundtrip :
  (forall v k, - 2 ^ 63 < v < 2 ^ 63 -> 1 <= k <= 8 -> Z.abs v < 2 ^ (8 * k - 1) ->
     CScriptNum.of_vch (CScriptNum.serialize v) true k = Some v) /\
  (forall vch req n a, bytes_ok vch -> 1 <= n <= 8 -> CScriptNum.of_vch vch req n = Some a ->
     Z.abs a < 2 ^ (8 * n - 1) /\ (req = true -> CScriptNum.serialize a = vch)).
Proof.
  split.
  - intros v k Hv Hk Hlt. destruct (scriptnum_facts.serialize_spec v Hv) as (Hb & Hval & Hmin).
    pose proof (scriptnum_facts.serialize_length v k Hv ltac:(lia) Hlt). unfold CScriptNum.of_vch.
    rewrite Z.gtb_ltb, (proj2 (Z.ltb_ge _ _)) by lia. rewrite Hmin. cbn [negb andb].
    by rewrite scriptnum_facts.set_vch_spec, Hval by (first [done | lia]).
  - intros vch req n a Hb Hn Ha. pose proof (scriptnum_facts.of_vch_range vch req n a Hb Hn Ha) as Hr.
    split; [done|]. intros ->. apply scriptnum_facts.of_vch_Some in Ha as (-> & _ & Hmin); [|done|lia].
    assert (2 ^ (8 * n - 1) <= 2 ^ 63) by (apply Z.pow_le_mono_r; lia).
    destruct (scriptnum_facts.serialize_spec (scriptnum_facts.num_value vch)) as (Hb' & Hval & Hmin'); [lia|].
    apply scriptnum_facts.minimal_inj; auto.
Qed.

Lemma CScriptNum_roundtrip_witness :
  CScriptNum.of_vch (CScriptNum.serialize (-255)) true 4 = Some (-255) /\ CScriptNum.serialize (-255) = [0xff; 0x80].
Proof. split; [apply CScriptNum_roundtrip; lia|reflexivity]. Defined.

(** [GetOp2] reads back what [operator<<] wrote, whatever its length
    class, and always consumes a non-empty prefix that begins with the opcode
    and ends with the operand. *)
Lemma GetOp_push_roundtrip (s b r : bytes) :
  Z.of_nat (length (b ++ r)) < 2 ^ 32 ->
  (exists p op, CScript.push_data s b = s ++ p /\ CScript.GetOp2 (p ++ r) = Some (op, b, r)) /\
  (forall pc op d pc', CScript.GetOp2 pc = Some (op, d, pc') -> exists u, pc = op :: u ++ d ++ pc').
Proof.
  intros Hlen. split.
  - exists (CScript.push_data [] b), (script_facts.push_opcode_of b).
    split; [apply script_facts.push_data_app|by apply script_facts.GetOp2_push].
  - intros pc op d pc' (u & -> & u' & ->)%script_facts.GetOp2_suffix. exists u'. by rewrite <- app_assoc.
Qed.

(** [FindAndDelete] removes exactly the occurrences of [b] that begin at
    an instruction boundary of the script and counts them, whatever follows
    the last complete instruction; the bytes removed are accounted for. *)
Lemma FindAndDelete_correct (script b : bytes) :
  b <> [] ->
  exists r n, CScript.FindAndDelete script b = (r, n) /\ script_facts.deleted b script r n /\
    0 <= n /\ Z.of_nat (length r) + n * Z.of_nat (length b) = Z.of_nat (length script).
Proof.
  intros Hb. unfold CScript.FindAndDelete. destruct b as [|x b']; [done|]. set (b := x :: b') in *.
  pose proof (script_facts.FindAndDelete_loop_spec (length script) b script script [] 0 Hb (le_n _)
    (ex_intro _ [] eq_refl)) as H.
  destruct (CScript.FindAndDelete_loop (length script) b script script [] 0) as [[result pc2] n].
  destruct H as (Hn & r & Hr & He). rewrite Nat.sub_diag in He. cbn [take app] in He. rewrite Z.sub_0_r in Hr.
  pose proof (script_facts.deleted_length _ _ _ _ Hr) as Hlen. rewrite Z.gtb_ltb.
  destruct (Z.ltb_spec 0 n); [by exists r, n; rewrite He|].
  assert (n = 0) as -> by lia. pose proof (script_facts.deleted_none _ _ _ Hr) as ->.
  by exists script, 0.
Qed.

(** For a script below 200 megabytes the accurate count of signature
    operations is at most the legacy count, which is at most twenty for each
    byte, without wrapping around; a script of pushes has none. *)
Lemma GetSigOpCount_bounds (script : bytes) :
  Z.of_nat (length script) * 20 < 2 ^ 32 ->
  0 <= CScript.GetSigOpCount true script <= CScript.GetSigOpCount false script /\
  CScript.GetSigOpCount false script <= Z.of_nat (length script) * MAX_PUBKEYS_PER_MULTISIG /\
  (CScript.IsPushOnly script = true -> CScript.GetSigOpCount false script = 0).
Proof.
  intros Hlen. unfold CScript.GetSigOpCount.
  destruct (script_facts.GetSigOpCount_loop_bounds (length script) script OP_INVALIDOPCODE 0 0)
    as (? & ? & ?); [lia..|].
  unfold MAX_PUBKEYS_PER_MULTISIG. split; [lia|]. split; [lia|].
  by apply script_facts.IsPushOnly_sigops.
Qed.

(** Scripts as sequences of instructions.  What the pushing operators
    write, [GetOp] reads back, and an instruction read is at least one byte
    and followed by the rest of the script.  [FindAndDelete] removes exactly
    the occurrences of [b] that begin at an instruction boundary and counts
    them, whatever follows the last complete instruction.  The count of
    signature operations is at most 20 for each byte, smaller when accurate,
    and 0 for a script that only pushes. *)
Theorem script_instructions_correct (script b r : bytes) :
  (Z.of_nat (length (b ++ r)) < 2 ^ 32 ->
     exists p op, CScript.push_data script b = script ++ p /\ CScript.GetOp2 (p ++ r) = Some (op, b, r)) /\
  (forall pc op d pc', CScript.GetOp2 pc = Some (op, d, pc') -> exists u, pc = op :: u ++ d ++ pc') /\
  (b <> [] ->
     exists r' n, CScript.FindAndDelete script b = (r', n) /\ script_facts.deleted b script r' n /\
       0 <= n /\ Z.of_nat (length r') + n * Z.of_nat (length b) = Z.of_nat (length script)) /\
  (Z.of_nat (length script) * 20 < 2 ^ 32 ->
     0 <= CScript.GetSigOpCount true script <= CScript.GetSigOpCount false script /\
     CScript.GetSigOpCount false script <= Z.of_nat (length script) * MAX_PUBKEYS_PER_MULTISIG /\
     (CScript.IsPushOnly script = true -> CScript.GetSigOpCount false script = 0)).
Proof.
  split; [apply GetOp_push_roundtrip|]. split; [by apply (GetOp_push_roundtrip [] [] [])|].
  split; [apply FindAndDelete_correct|apply GetSigOpCount_bounds].
Qed.

Lemma script_instructions_correct_witness :
  (exists p op, CScript.push_data [OP_DUP] [7; 8] = [OP_DUP] ++ p /\
     CScript.GetOp2 (p ++ [OP_EQUAL]) = Some (op, [7; 8], [OP_EQUAL])) /\
  (exists r n, CScript.FindAndDelete [OP_DUP; 1; 7; 1; 7; OP_EQUAL; 2; 1; 7] [1; 7] = (r, n) /\
     r = [OP_DUP; OP_EQUAL; 2; 1; 7] /\ n = 2) /\
  CScript.GetSigOpCount true [OP_2; OP_CHECKMULTISIG] <= CScript.GetSigOpCount false [OP_2; OP_CHECKMULTISIG].
Proof.
  split; [exact (proj1 (script_instructions_correct [OP_DUP] [7; 8] [OP_EQUAL]) ltac:(reflexivity))|]. split.
  - destruct (proj1 (proj2 (proj2 (script_instructions_correct [OP_DUP; 1; 7; 1; 7; OP_EQUAL; 2; 1; 7] [1; 7] []))))
      as (r & n & H & _); [discriminate|].
    exists r, n. split; [exact H|]. vm_compute in H. injection H as <- <-. split; reflexivity.
  - exact (proj2 (proj1 (proj2 (proj2 (proj2 (script_instructions_correct [OP_2; OP_CHECKMULTISIG] [] []))) ltac:(reflexivity)))).
Defined.

