(* ===== verification/Interpreter.v ===== *)
(** * The script interpreter ([script/interpreter.h], [script/interpreter.cpp])

    [EvalScript], [VerifyScript] and the signature-operation count of
    witnesses.  A [std::vector] used as a stack is the list with its back
    first: [stacktop(-i)] is the element of index [i - 1].  A computation
    that returns [false] through [set_error], throws or fails an assertion is
    an [Err] of [failure]; [EvalScript] turns what it catches into
    [SCRIPT_ERR_UNKNOWN_ERROR].  The signature checker and the hash functions
    are the typeclasses [BaseSignatureChecker] and [HashFunctions]. *)

From S2P Require Import Prelude ArithUint256 Uint256 Hash Script.
Import CScript.

(** [script_error.h]. *)
Inductive ScriptError :=
  | SCRIPT_ERR_OK
  | SCRIPT_ERR_UNKNOWN_ERROR
  | SCRIPT_ERR_EVAL_FALSE
  | SCRIPT_ERR_OP_RETURN
  | SCRIPT_ERR_SCRIPT_SIZE
  | SCRIPT_ERR_PUSH_SIZE
  | SCRIPT_ERR_OP_COUNT
  | SCRIPT_ERR_STACK_SIZE
  | SCRIPT_ERR_SIG_COUNT
  | SCRIPT_ERR_PUBKEY_COUNT
  | SCRIPT_ERR_VERIFY
  | SCRIPT_ERR_EQUALVERIFY
  | SCRIPT_ERR_CHECKMULTISIGVERIFY
  | SCRIPT_ERR_CHECKSIGVERIFY
  | SCRIPT_ERR_NUMEQUALVERIFY
  | SCRIPT_ERR_BAD_OPCODE
  | SCRIPT_ERR_DISABLED_OPCODE
  | SCRIPT_ERR_INVALID_STACK_OPERATION
  | SCRIPT_ERR_INVALID_ALTSTACK_OPERATION
  | SCRIPT_ERR_UNBALANCED_CONDITIONAL
  | SCRIPT_ERR_NEGATIVE_LOCKTIME
  | SCRIPT_ERR_UNSATISFIED_LOCKTIME
  | SCRIPT_ERR_SIG_HASHTYPE
  | SCRIPT_ERR_MINIMALDATA
  | SCRIPT_ERR_SIG_PUSHONLY
  | SCRIPT_ERR_SIG_HIGH_S
  | SCRIPT_ERR_SIG_NULLDUMMY
  | SCRIPT_ERR_PUBKEYTYPE
  | SCRIPT_ERR_CLEANSTACK
  | SCRIPT_ERR_MINIMALIF
  | SCRIPT_ERR_SIG_NULLFAIL
  | SCRIPT_ERR_DISCOURAGE_UPGRADABLE_NOPS
  | SCRIPT_ERR_DISCOURAGE_UPGRADABLE_WITNESS_PROGRAM
  | SCRIPT_ERR_WITNESS_PROGRAM_WRONG_LENGTH
  | SCRIPT_ERR_WITNESS_PROGRAM_WITNESS_EMPTY
  | SCRIPT_ERR_WITNESS_PROGRAM_MISMATCH
  | SCRIPT_ERR_WITNESS_MALLEATED
  | SCRIPT_ERR_WITNESS_MALLEATED_P2SH
  | SCRIPT_ERR_WITNESS_UNEXPECTED
  | SCRIPT_ERR_WITNESS_PUBKEYTYPE
  | SCRIPT_ERR_ERROR_COUNT.

#[export] Instance ScriptError_eq_dec : EqDecision ScriptError.
Proof. solve_decision. Defined.

(** How a computation stops: [set_error], a [scriptnum_error] exception, an
    exception of [vector::at] or of [popstack], a failed [assert].  The last
    one is not of the code: the model ran out of turns. *)
Inductive failure :=
  | script_error (e : ScriptError)
  | scriptnum_error
  | out_of_range
  | popstack_empty
  | assertion_failed
  | fuel_exhausted.

Abbreviation res := (result failure).

(** Signature hash types and script verification flags. *)
Definition SIGHASH_ALL : Z := 1.
Definition SIGHASH_NONE : Z := 2.
Definition SIGHASH_SINGLE : Z := 3.
Definition SIGHASH_ANYONECANPAY : Z := 0x80.

Definition SCRIPT_VERIFY_NONE : Z := 0.
Definition SCRIPT_VERIFY_P2SH : Z := Z.shiftl 1 0.
Definition SCRIPT_VERIFY_STRICTENC : Z := Z.shiftl 1 1.
Definition SCRIPT_VERIFY_NULLDUMMY : Z := Z.shiftl 1 4.
Definition SCRIPT_VERIFY_SIGPUSHONLY : Z := Z.shiftl 1 5.
Definition SCRIPT_VERIFY_MINIMALDATA : Z := Z.shiftl 1 6.
Definition SCRIPT_VERIFY_DISCOURAGE_UPGRADABLE_NOPS : Z := Z.shiftl 1 7.
Definition SCRIPT_VERIFY_CLEANSTACK : Z := Z.shiftl 1 8.
Definition SCRIPT_VERIFY_CHECKLOCKTIMEVERIFY : Z := Z.shiftl 1 9.
Definition SCRIPT_VERIFY_CHECKSEQUENCEVERIFY : Z := Z.shiftl 1 10.
Definition SCRIPT_VERIFY_WITNESS : Z := Z.shiftl 1 11.
Definition SCRIPT_VERIFY_DISCOURAGE_UPGRADABLE_WITNESS_PROGRAM : Z := Z.shiftl 1 12.
Definition SCRIPT_VERIFY_MINIMALIF : Z := Z.shiftl 1 13.
Definition SCRIPT_VERIFY_NULLFAIL : Z := Z.shiftl 1 14.
Definition SCRIPT_VERIFY_WITNESS_PUBKEYTYPE : Z := Z.shiftl 1 15.

(** [(flags & f) != 0]. *)
Definition has (flags f : Z) : bool := negb (Z.land flags f =? 0).

Inductive SigVersion :=
  | SIGVERSION_BASE
  | SIGVERSION_WITNESS_V0.

#[export] Instance SigVersion_eq_dec : EqDecision SigVersion.
Proof. solve_decision. Defined.

(** [CPubKey::PUBLIC_KEY_SIZE] ([pubkey.h]): an ed25519 key. *)
Definition PUBLIC_KEY_SIZE : nat := 32.

(** [CTxIn::SEQUENCE_LOCKTIME_DISABLE_FLAG] ([primitives/transaction.h]). *)
Definition SEQUENCE_LOCKTIME_DISABLE_FLAG : Z := Z.shiftl 1 31.

(** The virtual functions of [BaseSignatureChecker]; an implementation may
    fail an assertion. *)
Class BaseSignatureChecker := {
  CheckSig : valtype -> valtype -> bytes -> SigVersion -> res bool;
  CheckLockTime : Z -> res bool;
  CheckSequence : Z -> res bool;
}.

(** ** Encodings *)

(** False for an empty string, zeros, and a final 0x80 after zeros. *)
Fixpoint CastToBool (vch : valtype) : bool :=
  match vch with
  | [] => false
  | v :: vch =>
      if negb (v =? 0) then
        match vch with [] => negb (v =? 0x80) | _ => true end
      else CastToBool vch
  end.

Definition IsCompressedOrUncompressedPubKey (vchPubKey : valtype) : bool :=
  (length vchPubKey =? PUBLIC_KEY_SIZE)%nat.
Definition IsCompressedPubKey (vchPubKey : valtype) : bool :=
  (length vchPubKey =? PUBLIC_KEY_SIZE)%nat.

Definition IsDefinedHashtypeSignature (vchSig : valtype) : bool :=
  match last vchSig with
  | None => false
  | Some back =>
      let nHashType := u8 (Z.land back (Z.lnot SIGHASH_ANYONECANPAY)) in
      negb ((nHashType <? SIGHASH_ALL) || (nHashType >? SIGHASH_SINGLE))
  end.

Definition CheckSignatureEncoding (vchSig : valtype) (flags : Z) : res unit :=
  match vchSig with
  | [] => Ok ()
  | _ => check (negb (has flags SCRIPT_VERIFY_STRICTENC && negb (IsDefinedHashtypeSignature vchSig)))
           (script_error SCRIPT_ERR_SIG_HASHTYPE)
  end.

Definition CheckPubKeyEncoding (vchPubKey : valtype) (flags : Z) (sigversion : SigVersion) : res unit :=
  check (negb (has flags SCRIPT_VERIFY_STRICTENC && negb (IsCompressedOrUncompressedPubKey vchPubKey)))
    (script_error SCRIPT_ERR_PUBKEYTYPE);;
  check (negb (has flags SCRIPT_VERIFY_WITNESS_PUBKEYTYPE && bool_decide (sigversion = SIGVERSION_WITNESS_V0)
               && negb (IsCompressedPubKey vchPubKey)))
    (script_error SCRIPT_ERR_WITNESS_PUBKEYTYPE).

(** [CheckMinimalPush], for an opcode up to [OP_PUSHDATA4]. *)
Definition CheckMinimalPush (data : valtype) (opcode : Z) : bool :=
  let size := Z.of_nat (length data) in
  let d := nth 0 data 0 in
  if size =? 0 then opcode =? OP_0
  else if (size =? 1) && (d >=? 1) && (d <=? 16) then false
  else if (size =? 1) && (d =? 0x81) then false
  else if size <=? 75 then opcode =? size
  else if size <=? 255 then opcode =? OP_PUSHDATA1
  else if size <=? 65535 then opcode =? OP_PUSHDATA2
  else true.

(** ** Stacks *)

Abbreviation stack_t := (list valtype).

Definition vchFalse : valtype := [].
Definition vchTrue : valtype := [1].
Definition bool_vch (b : bool) : valtype := if b then vchTrue else vchFalse.

(** [stacktop(-i)] and [popstack]. *)
Definition stacktop (stack : stack_t) (i : nat) : res valtype :=
  match stack !! (i - 1)%nat with Some v => Ok v | None => Err out_of_range end.

Definition popstack {A} (stack : list A) : res (list A) :=
  match stack with [] => Err popstack_empty | _ :: stack => Ok stack end.

(** [if (stack.size() < n) return set_error(serror, e)]. *)
Definition need {A} (stack : list A) (n : nat) (e : ScriptError) : res unit :=
  check (n <=? length stack)%nat (script_error e).

Definition need_stack (stack : stack_t) (n : nat) : res unit :=
  need stack n SCRIPT_ERR_INVALID_STACK_OPERATION.

(** [swap(stacktop(-i), stacktop(-j))]. *)
Definition swap_top (stack : stack_t) (i j : nat) : res stack_t :=
  vi ← stacktop stack i;
  vj ← stacktop stack j;
  Ok (<[(i - 1)%nat := vj]> (<[(j - 1)%nat := vi]> stack)).

(** [stack.erase(stack.end() - i)]; the iterator is in range. *)
Definition erase (stack : stack_t) (i : nat) : stack_t := delete (i - 1)%nat stack.

(** [CScriptNum(vch, fRequireMinimal, n)] and [getint]. *)
Definition script_num (vch : valtype) (fRequireMinimal : bool) (n : Z) : res Z :=
  match CScriptNum.of_vch vch fRequireMinimal n with Some a => Ok a | None => Err scriptnum_error end.

Definition asserted {A} (o : option A) : res A :=
  match o with Some a => Ok a | None => Err assertion_failed end.

Definition Z_of_bool (b : bool) : Z := if b then 1 else 0.

(** ** Opcodes

    One definition for each [case] of the [switch] of [EvalScript], on the
    part of the state it touches. *)

Section ops.
Context `{B : BaseSignatureChecker} `{Hs : HashFunctions} (flags : Z) (sigversion : SigVersion).

Definition fRequireMinimal : bool := has flags SCRIPT_VERIFY_MINIMALDATA.

(** [OP_1NEGATE], [OP_1] ... [OP_16]. *)
Definition op_small_int (opcode : Z) (stack : stack_t) : res stack_t :=
  Ok (CScriptNum.getvch (opcode - (OP_1 - 1)) :: stack).

Definition op_checklocktimeverify (stack : stack_t) : res stack_t :=
  if negb (has flags SCRIPT_VERIFY_CHECKLOCKTIMEVERIFY) then Ok stack
  else
    need_stack stack 1;;
    v ← stacktop stack 1;
    nLockTime ← script_num v fRequireMinimal 5;
    check (negb (nLockTime <? 0)) (script_error SCRIPT_ERR_NEGATIVE_LOCKTIME);;
    ok ← CheckLockTime nLockTime;
    check ok (script_error SCRIPT_ERR_UNSATISFIED_LOCKTIME);;
    Ok stack.

Definition op_checksequenceverify (stack : stack_t) : res stack_t :=
  if negb (has flags SCRIPT_VERIFY_CHECKSEQUENCEVERIFY) then Ok stack
  else
    need_stack stack 1;;
    v ← stacktop stack 1;
    nSequence ← script_num v fRequireMinimal 5;
    check (negb (nSequence <? 0)) (script_error SCRIPT_ERR_NEGATIVE_LOCKTIME);;
    if negb (CScriptNum.and_ nSequence SEQUENCE_LOCKTIME_DISABLE_FLAG =? 0) then Ok stack
    else
      ok ← CheckSequence nSequence;
      check ok (script_error SCRIPT_ERR_UNSATISFIED_LOCKTIME);;
      Ok stack.

(** [OP_NOP1], [OP_NOP4] ... [OP_NOP10]. *)
Definition op_upgradable_nop (stack : stack_t) : res stack_t :=
  check (negb (has flags SCRIPT_VERIFY_DISCOURAGE_UPGRADABLE_NOPS))
    (script_error SCRIPT_ERR_DISCOURAGE_UPGRADABLE_NOPS);;
  Ok stack.

(** Conditionals: the back of [vfExec] is its head. *)
Definition op_if (opcode : Z) (fExec : bool) (stack : stack_t) (vfExec : list bool) : res (stack_t * list bool) :=
  if fExec then
    need stack 1 SCRIPT_ERR_UNBALANCED_CONDITIONAL;;
    vch ← stacktop stack 1;
    check (negb (bool_decide (sigversion = SIGVERSION_WITNESS_V0) && has flags SCRIPT_VERIFY_MINIMALIF &&
                 ((1 <? length vch)%nat || ((length vch =? 1)%nat && negb (nth 0 vch 0 =? 1)))))
      (script_error SCRIPT_ERR_MINIMALIF);;
    let fValue := CastToBool vch in
    let fValue := if opcode =? OP_NOTIF then negb fValue else fValue in
    stack ← popstack stack;
    Ok (stack, fValue :: vfExec)
  else Ok (stack, false :: vfExec).

Definition op_else (vfExec : list bool) : res (list bool) :=
  match vfExec with
  | [] => Err (script_error SCRIPT_ERR_UNBALANCED_CONDITIONAL)
  | back :: vfExec => Ok (negb back :: vfExec)
  end.

Definition op_endif (vfExec : list bool) : res (list bool) :=
  match vfExec with
  | [] => Err (script_error SCRIPT_ERR_UNBALANCED_CONDITIONAL)
  | _ :: vfExec => Ok vfExec
  end.

Definition op_verify (stack : stack_t) : res stack_t :=
  need_stack stack 1;;
  v ← stacktop stack 1;
  if CastToBool v then popstack stack else Err (script_error SCRIPT_ERR_VERIFY).

Definition op_toaltstack (stack altstack : stack_t) : res (stack_t * stack_t) :=
  need_stack stack 1;;
  v ← stacktop stack 1;
  stack ← popstack stack;
  Ok (stack, v :: altstack).

Definition op_fromaltstack (stack altstack : stack_t) : res (stack_t * stack_t) :=
  need altstack 1 SCRIPT_ERR_INVALID_ALTSTACK_OPERATION;;
  v ← stacktop altstack 1;
  altstack ← popstack altstack;
  Ok (v :: stack, altstack).

(** Stack operations. *)
Definition op_2drop (stack : stack_t) : res stack_t :=
  need_stack stack 2;;
  stack ← popstack stack;
  popstack stack.

Definition op_2dup (stack : stack_t) : res stack_t :=
  need_stack stack 2;;
  vch1 ← stacktop stack 2;
  vch2 ← stacktop stack 1;
  Ok (vch2 :: vch1 :: stack).

Definition op_3dup (stack : stack_t) : res stack_t :=
  need_stack stack 3;;
  vch1 ← stacktop stack 3;
  vch2 ← stacktop stack 2;
  vch3 ← stacktop stack 1;
  Ok (vch3 :: vch2 :: vch1 :: stack).

Definition op_2over (stack : stack_t) : res stack_t :=
  need_stack stack 4;;
  vch1 ← stacktop stack 4;
  vch2 ← stacktop stack 3;
  Ok (vch2 :: vch1 :: stack).

Definition op_2rot (stack : stack_t) : res stack_t :=
  need_stack stack 6;;
  vch1 ← stacktop stack 6;
  vch2 ← stacktop stack 5;
  Ok (vch2 :: vch1 :: take 4 stack ++ drop 6 stack).

Definition op_2swap (stack : stack_t) : res stack_t :=
  need_stack stack 4;;
  stack ← swap_top stack 4 2;
  swap_top stack 3 1.

Definition op_ifdup (stack : stack_t) : res stack_t :=
  need_stack stack 1;;
  vch ← stacktop stack 1;
  Ok (if CastToBool vch then vch :: stack else stack).

Definition op_depth (stack : stack_t) : res stack_t :=
  Ok (CScriptNum.getvch (Z.of_nat (length stack)) :: stack).

Definition op_drop (stack : stack_t) : res stack_t :=
  need_stack stack 1;; popstack stack.

Definition op_dup (stack : stack_t) : res stack_t :=
  need_stack stack 1;;
  vch ← stacktop stack 1;
  Ok (vch :: stack).

Definition op_nip (stack : stack_t) : res stack_t :=
  need_stack stack 2;; Ok (erase stack 2).

Definition op_over (stack : stack_t) : res stack_t :=
  need_stack stack 2;;
  vch ← stacktop stack 2;
  Ok (vch :: stack).

Definition op_pick_roll (opcode : Z) (stack : stack_t) : res stack_t :=
  need_stack stack 2;;
  v ← stacktop stack 1;
  bn ← script_num v fRequireMinimal CScriptNum.nDefaultMaxNumSize;
  let n := CScriptNum.getint bn in
  stack ← popstack stack;
  check (negb ((n <? 0) || (n >=? Z.of_nat (length stack)))) (script_error SCRIPT_ERR_INVALID_STACK_OPERATION);;
  vch ← stacktop stack (Z.to_nat (n + 1));
  let stack := if opcode =? OP_ROLL then erase stack (Z.to_nat (n + 1)) else stack in
  Ok (vch :: stack).

Definition op_rot (stack : stack_t) : res stack_t :=
  need_stack stack 3;;
  stack ← swap_top stack 3 2;
  swap_top stack 2 1.

Definition op_swap (stack : stack_t) : res stack_t :=
  need_stack stack 2;; swap_top stack 2 1.

Definition op_tuck (stack : stack_t) : res stack_t :=
  need_stack stack 2;;
  vch ← stacktop stack 1;
  Ok (take 2 stack ++ vch :: drop 2 stack).

Definition op_size (stack : stack_t) : res stack_t :=
  need_stack stack 1;;
  v ← stacktop stack 1;
  Ok (CScriptNum.getvch (Z.of_nat (length v)) :: stack).

Definition op_equal (opcode : Z) (stack : stack_t) : res stack_t :=
  need_stack stack 2;;
  vch1 ← stacktop stack 2;
  vch2 ← stacktop stack 1;
  let fEqual := bool_decide (vch1 = vch2) in
  stack ← popstack stack;
  stack ← popstack stack;
  let stack := bool_vch fEqual :: stack in
  if opcode =? OP_EQUALVERIFY then
    if fEqual then popstack stack else Err (script_error SCRIPT_ERR_EQUALVERIFY)
  else Ok stack.

(** The inner [switch] of the unary numeric opcodes. *)
Definition unary (opcode bn : Z) : res Z :=
  if opcode =? OP_1ADD then asserted (CScriptNum.add_assign bn 1)
  else if opcode =? OP_1SUB then asserted (CScriptNum.sub_assign bn 1)
  else if opcode =? OP_NEGATE then asserted (CScriptNum.neg bn)
  else if opcode =? OP_ABS then if bn <? 0 then asserted (CScriptNum.neg bn) else Ok bn
  else if opcode =? OP_NOT then Ok (Z_of_bool (bn =? 0))
  else if opcode =? OP_0NOTEQUAL then Ok (Z_of_bool (negb (bn =? 0)))
  else Err assertion_failed.

Definition op_unary (opcode : Z) (stack : stack_t) : res stack_t :=
  need_stack stack 1;;
  v ← stacktop stack 1;
  bn ← script_num v fRequireMinimal CScriptNum.nDefaultMaxNumSize;
  bn ← unary opcode bn;
  stack ← popstack stack;
  Ok (CScriptNum.getvch bn :: stack).

(** The inner [switch] of the binary numeric opcodes. *)
Definition binary (opcode bn1 bn2 : Z) : res Z :=
  if opcode =? OP_ADD then Ok (CScriptNum.add bn1 bn2)
  else if opcode =? OP_SUB then Ok (CScriptNum.sub bn1 bn2)
  else if opcode =? OP_BOOLAND then Ok (Z_of_bool (negb (bn1 =? 0) && negb (bn2 =? 0)))
  else if opcode =? OP_BOOLOR then Ok (Z_of_bool (negb (bn1 =? 0) || negb (bn2 =? 0)))
  else if opcode =? OP_NUMEQUAL then Ok (Z_of_bool (bn1 =? bn2))
  else if opcode =? OP_NUMEQUALVERIFY then Ok (Z_of_bool (bn1 =? bn2))
  else if opcode =? OP_NUMNOTEQUAL then Ok (Z_of_bool (negb (bn1 =? bn2)))
  else if opcode =? OP_LESSTHAN then Ok (Z_of_bool (bn1 <? bn2))
  else if opcode =? OP_GREATERTHAN then Ok (Z_of_bool (bn1 >? bn2))
  else if opcode =? OP_LESSTHANOREQUAL then Ok (Z_of_bool (bn1 <=? bn2))
  else if opcode =? OP_GREATERTHANOREQUAL then Ok (Z_of_bool (bn1 >=? bn2))
  else if opcode =? OP_MIN then Ok (if bn1 <? bn2 then bn1 else bn2)
  else if opcode =? OP_MAX then Ok (if bn1 >? bn2 then bn1 else bn2)
  else Err assertion_failed.

Definition op_binary (opcode : Z) (stack : stack_t) : res stack_t :=
  need_stack stack 2;;
  v1 ← stacktop stack 2;
  bn1 ← script_num v1 fRequireMinimal CScriptNum.nDefaultMaxNumSize;
  v2 ← stacktop stack 1;
  bn2 ← script_num v2 fRequireMinimal CScriptNum.nDefaultMaxNumSize;
  bn ← binary opcode bn1 bn2;
  stack ← popstack stack;
  stack ← popstack stack;
  let stack := CScriptNum.getvch bn :: stack in
  if opcode =? OP_NUMEQUALVERIFY then
    v ← stacktop stack 1;
    if CastToBool v then popstack stack else Err (script_error SCRIPT_ERR_NUMEQUALVERIFY)
  else Ok stack.

Definition op_within (stack : stack_t) : res stack_t :=
  need_stack stack 3;;
  v1 ← stacktop stack 3;
  bn1 ← script_num v1 fRequireMinimal CScriptNum.nDefaultMaxNumSize;
  v2 ← stacktop stack 2;
  bn2 ← script_num v2 fRequireMinimal CScriptNum.nDefaultMaxNumSize;
  v3 ← stacktop stack 1;
  bn3 ← script_num v3 fRequireMinimal CScriptNum.nDefaultMaxNumSize;
  let fValue := (bn2 <=? bn1) && (bn1 <? bn3) in
  stack ← popstack stack;
  stack ← popstack stack;
  stack ← popstack stack;
  Ok (bool_vch fValue :: stack).

(** The hash opcodes; [OP_SHA256] computes SHA3-256. *)
Definition op_hash (opcode : Z) (stack : stack_t) : res stack_t :=
  need_stack stack 1;;
  vch ← stacktop stack 1;
  let vchHash :=
    if opcode =? OP_RIPEMD160 then CRIPEMD160 vch
    else if opcode =? OP_SHA1 then CSHA1 vch
    else if opcode =? OP_SHA256 then CSHA3_256 vch
    else if opcode =? OP_HASH160 then CHash160 vch
    else CHash256 vch in
  stack ← popstack stack;
  Ok (vchHash :: stack).

(** Removing a signature from the script code of a pre-segwit script. *)
Definition drop_signature (scriptCode : bytes) (vchSig : valtype) : bytes :=
  if bool_decide (sigversion = SIGVERSION_BASE)
  then (FindAndDelete scriptCode (push_data [] vchSig)).1 else scriptCode.

Definition op_checksig (opcode : Z) (pbegincodehash : bytes) (stack : stack_t) : res stack_t :=
  need_stack stack 2;;
  vchSig ← stacktop stack 2;
  vchPubKey ← stacktop stack 1;
  let scriptCode := drop_signature pbegincodehash vchSig in
  CheckSignatureEncoding vchSig flags;;
  CheckPubKeyEncoding vchPubKey flags sigversion;;
  fSuccess ← CheckSig vchSig vchPubKey scriptCode sigversion;
  check (negb (negb fSuccess && has flags SCRIPT_VERIFY_NULLFAIL && (0 <? length vchSig)%nat))
    (script_error SCRIPT_ERR_SIG_NULLFAIL);;
  stack ← popstack stack;
  stack ← popstack stack;
  let stack := bool_vch fSuccess :: stack in
  if opcode =? OP_CHECKSIGVERIFY then
    if fSuccess then popstack stack else Err (script_error SCRIPT_ERR_CHECKSIGVERIFY)
  else Ok stack.
End ops.

(** ** [OP_CHECKMULTISIG]

    The loop over the signatures drops each from the script code; the
    matching loop takes one key a turn, so that [nKeysCount] turns, its
    fuel, leave no signature to match; the last loop removes the arguments. *)

Section multisig.
Context `{B : BaseSignatureChecker} `{Hs : HashFunctions} (flags : Z) (sigversion : SigVersion).

Fixpoint drop_signatures (n : nat) (k isig : nat) (stack : stack_t) (scriptCode : bytes) : res bytes :=
  match n with
  | O => Ok scriptCode
  | S n =>
      vchSig ← stacktop stack (isig + k);
      drop_signatures n (S k) isig stack (drop_signature sigversion scriptCode vchSig)
  end.

Fixpoint multisig_loop (nKeysCount : nat) (stack : stack_t) (scriptCode : bytes)
    (isig ikey nSigsCount : nat) : res bool :=
  match nSigsCount, nKeysCount with
  | O, _ => Ok true
  | _, O => Ok false
  | S nSigs, S nKeys =>
      vchSig ← stacktop stack isig;
      vchPubKey ← stacktop stack ikey;
      CheckSignatureEncoding vchSig flags;;
      CheckPubKeyEncoding vchPubKey flags sigversion;;
      fOk ← CheckSig vchSig vchPubKey scriptCode sigversion;
      let isig := if (fOk : bool) then S isig else isig in
      let nSigsCount := if (fOk : bool) then nSigs else S nSigs in
      if (nKeys <? nSigsCount)%nat then Ok false
      else multisig_loop nKeys stack scriptCode isig (S ikey) nSigsCount
  end.

(** [while (i-- > 1)]: [n] turns. *)
Fixpoint cleanup_loop (n : nat) (fSuccess : bool) (ikey2 : nat) (stack : stack_t) : res stack_t :=
  match n with
  | O => Ok stack
  | S n =>
      (if negb fSuccess && has flags SCRIPT_VERIFY_NULLFAIL && (ikey2 =? 0)%nat
       then v ← stacktop stack 1;
            check (length v =? 0)%nat (script_error SCRIPT_ERR_SIG_NULLFAIL)
       else Ok ());;
      stack ← popstack stack;
      cleanup_loop n fSuccess (ikey2 - 1) stack
  end.

Definition op_checkmultisig (opcode : Z) (pbegincodehash : bytes) (stack : stack_t) (nOpCount : Z)
    : res (stack_t * Z) :=
  need_stack stack 1;;
  v ← stacktop stack 1;
  bn ← script_num v (fRequireMinimal flags) CScriptNum.nDefaultMaxNumSize;
  let nKeysCount := CScriptNum.getint bn in
  check (negb ((nKeysCount <? 0) || (nKeysCount >? MAX_PUBKEYS_PER_MULTISIG))) (script_error SCRIPT_ERR_PUBKEY_COUNT);;
  let nOpCount := nOpCount + nKeysCount in
  check (negb (nOpCount >? MAX_OPS_PER_SCRIPT)) (script_error SCRIPT_ERR_OP_COUNT);;
  let ikey := 2%nat in
  let ikey2 := (Z.to_nat nKeysCount + 2)%nat in
  let i := (2 + Z.to_nat nKeysCount)%nat in
  need_stack stack i;;
  v ← stacktop stack i;
  bn ← script_num v (fRequireMinimal flags) CScriptNum.nDefaultMaxNumSize;
  let nSigsCount := CScriptNum.getint bn in
  check (negb ((nSigsCount <? 0) || (nSigsCount >? nKeysCount))) (script_error SCRIPT_ERR_SIG_COUNT);;
  let isig := S i in
  let i := (isig + Z.to_nat nSigsCount)%nat in
  need_stack stack i;;
  scriptCode ← drop_signatures (Z.to_nat nSigsCount) 0 isig stack pbegincodehash;
  fSuccess ← multisig_loop (Z.to_nat nKeysCount) stack scriptCode isig ikey (Z.to_nat nSigsCount);
  stack ← cleanup_loop (i - 1) fSuccess ikey2 stack;
  need_stack stack 1;;
  v ← stacktop stack 1;
  check (negb (has flags SCRIPT_VERIFY_NULLDUMMY && (0 <? length v)%nat)) (script_error SCRIPT_ERR_SIG_NULLDUMMY);;
  stack ← popstack stack;
  let stack := bool_vch fSuccess :: stack in
  if opcode =? OP_CHECKMULTISIGVERIFY then
    if (fSuccess : bool) then stack ← popstack stack; Ok (stack, nOpCount)
    else Err (script_error SCRIPT_ERR_CHECKMULTISIGVERIFY)
  else Ok (stack, nOpCount).
End multisig.

(** ** [EvalScript] *)

Record eval_state := {
  pc : bytes;
  stack : stack_t;
  altstack : stack_t;
  vfExec : list bool;
  nOpCount : Z;
  pbegincodehash : bytes;
}.

Definition with_stack (st : eval_state) (s : stack_t) : eval_state := {|
  pc := pc st; stack := s; altstack := altstack st; vfExec := vfExec st;
  nOpCount := nOpCount st; pbegincodehash := pbegincodehash st |}.

Definition with_exec (st : eval_state) (s : stack_t) (v : list bool) : eval_state := {|
  pc := pc st; stack := s; altstack := altstack st; vfExec := v;
  nOpCount := nOpCount st; pbegincodehash := pbegincodehash st |}.

Definition with_alt (st : eval_state) (s a : stack_t) : eval_state := {|
  pc := pc st; stack := s; altstack := a; vfExec := vfExec st;
  nOpCount := nOpCount st; pbegincodehash := pbegincodehash st |}.

Definition with_ops (st : eval_state) (s : stack_t) (n : Z) : eval_state := {|
  pc := pc st; stack := s; altstack := altstack st; vfExec := vfExec st;
  nOpCount := n; pbegincodehash := pbegincodehash st |}.

(** [pbegincodehash = pc]. *)
Definition with_codehash (st : eval_state) : eval_state := {|
  pc := pc st; stack := stack st; altstack := altstack st; vfExec := vfExec st;
  nOpCount := nOpCount st; pbegincodehash := pc st |}.

(** An instruction is read: the new iterator and operation count. *)
Definition advance (st : eval_state) (pc' : bytes) (n : Z) : eval_state := {|
  pc := pc'; stack := stack st; altstack := altstack st; vfExec := vfExec st;
  nOpCount := n; pbegincodehash := pbegincodehash st |}.

Definition mem (op : Z) (ops : list Z) : bool := existsb (Z.eqb op) ops.

Definition disabled_opcode (opcode : Z) : bool :=
  mem opcode [OP_CAT; OP_SUBSTR; OP_LEFT; OP_RIGHT; OP_INVERT; OP_AND; OP_OR; OP_XOR; OP_2MUL; OP_2DIV;
              OP_MUL; OP_DIV; OP_MOD; OP_LSHIFT; OP_RSHIFT].

Section eval.
Context `{B : BaseSignatureChecker} `{Hs : HashFunctions} (flags : Z) (sigversion : SigVersion).

(** The cases of the [switch] that touch only the main stack. *)
Definition exec_stack_op (opcode : Z) (stack : stack_t) : option (res stack_t) :=
  if (opcode =? OP_1NEGATE) || ((opcode >=? OP_1) && (opcode <=? OP_16)) then Some (op_small_int opcode stack)
  else if opcode =? OP_NOP then Some (Ok stack)
  else if opcode =? OP_CHECKLOCKTIMEVERIFY then Some (op_checklocktimeverify flags stack)
  else if opcode =? OP_CHECKSEQUENCEVERIFY then Some (op_checksequenceverify flags stack)
  else if mem opcode [OP_NOP1; OP_NOP4; OP_NOP5; OP_NOP6; OP_NOP7; OP_NOP8; OP_NOP9; OP_NOP10]
    then Some (op_upgradable_nop flags stack)
  else if opcode =? OP_VERIFY then Some (op_verify stack)
  else if opcode =? OP_RETURN then Some (Err (script_error SCRIPT_ERR_OP_RETURN))
  else if opcode =? OP_2DROP then Some (op_2drop stack)
  else if opcode =? OP_2DUP then Some (op_2dup stack)
  else if opcode =? OP_3DUP then Some (op_3dup stack)
  else if opcode =? OP_2OVER then Some (op_2over stack)
  else if opcode =? OP_2ROT then Some (op_2rot stack)
  else if opcode =? OP_2SWAP then Some (op_2swap stack)
  else if opcode =? OP_IFDUP then Some (op_ifdup stack)
  else if opcode =? OP_DEPTH then Some (op_depth stack)
  else if opcode =? OP_DROP then Some (op_drop stack)
  else if opcode =? OP_DUP then Some (op_dup stack)
  else if opcode =? OP_NIP then Some (op_nip stack)
  else if opcode =? OP_OVER then Some (op_over stack)
  else if mem opcode [OP_PICK; OP_ROLL] then Some (op_pick_roll flags opcode stack)
  else if opcode =? OP_ROT then Some (op_rot stack)
  else if opcode =? OP_SWAP then Some (op_swap stack)
  else if opcode =? OP_TUCK then Some (op_tuck stack)
  else if opcode =? OP_SIZE then Some (op_size stack)
  else if mem opcode [OP_EQUAL; OP_EQUALVERIFY] then Some (op_equal opcode stack)
  else if mem opcode [OP_1ADD; OP_1SUB; OP_NEGATE; OP_ABS; OP_NOT; OP_0NOTEQUAL]
    then Some (op_unary flags opcode stack)
  else if mem opcode [OP_ADD; OP_SUB; OP_BOOLAND; OP_BOOLOR; OP_NUMEQUAL; OP_NUMEQUALVERIFY; OP_NUMNOTEQUAL;
                      OP_LESSTHAN; OP_GREATERTHAN; OP_LESSTHANOREQUAL; OP_GREATERTHANOREQUAL; OP_MIN; OP_MAX]
    then Some (op_binary flags opcode stack)
  else if opcode =? OP_WITHIN then Some (op_within flags stack)
  else if mem opcode [OP_RIPEMD160; OP_SHA1; OP_SHA256; OP_HASH160; OP_HASH256] then Some (op_hash opcode stack)
  else None.

(** The [switch]. *)
Definition exec_opcode (opcode : Z) (fExec : bool) (st : eval_state) : res eval_state :=
  match exec_stack_op opcode (stack st) with
  | Some r => s ← r; Ok (with_stack st s)
  | None =>
      if mem opcode [OP_IF; OP_NOTIF] then
        '(s, v) ← op_if flags sigversion opcode fExec (stack st) (vfExec st); Ok (with_exec st s v)
      else if opcode =? OP_ELSE then v ← op_else (vfExec st); Ok (with_exec st (stack st) v)
      else if opcode =? OP_ENDIF then v ← op_endif (vfExec st); Ok (with_exec st (stack st) v)
      else if opcode =? OP_TOALTSTACK then
        '(s, a) ← op_toaltstack (stack st) (altstack st); Ok (with_alt st s a)
      else if opcode =? OP_FROMALTSTACK then
        '(s, a) ← op_fromaltstack (stack st) (altstack st); Ok (with_alt st s a)
      else if opcode =? OP_CODESEPARATOR then Ok (with_codehash st)
      else if mem opcode [OP_CHECKSIG; OP_CHECKSIGVERIFY] then
        s ← op_checksig flags sigversion opcode (pbegincodehash st) (stack st); Ok (with_stack st s)
      else if mem opcode [OP_CHECKMULTISIG; OP_CHECKMULTISIGVERIFY] then
        '(s, n) ← op_checkmultisig flags sigversion opcode (pbegincodehash st) (stack st) (nOpCount st);
        Ok (with_ops st s n)
      else Err (script_error SCRIPT_ERR_BAD_OPCODE)
  end.

(** One turn of the loop of [EvalScript]. *)
Definition eval_step (st : eval_state) : res eval_state :=
  let fExec := forallb id (vfExec st) in
  match GetOp2 (pc st) with
  | None => Err (script_error SCRIPT_ERR_BAD_OPCODE)
  | Some (opcode, vchPushValue, pc') =>
      check (negb (Z.of_nat (length vchPushValue) >? MAX_SCRIPT_ELEMENT_SIZE)) (script_error SCRIPT_ERR_PUSH_SIZE);;
      let nOpCount' := if opcode >? OP_16 then nOpCount st + 1 else nOpCount st in
      check (negb ((opcode >? OP_16) && (nOpCount' >? MAX_OPS_PER_SCRIPT))) (script_error SCRIPT_ERR_OP_COUNT);;
      check (negb (disabled_opcode opcode)) (script_error SCRIPT_ERR_DISABLED_OPCODE);;
      let st := advance st pc' nOpCount' in
      st ←
        (if fExec && (opcode <=? OP_PUSHDATA4) then
           check (negb (fRequireMinimal flags && negb (CheckMinimalPush vchPushValue opcode)))
             (script_error SCRIPT_ERR_MINIMALDATA);;
           Ok (with_stack st (vchPushValue :: stack st))
         else if fExec || ((OP_IF <=? opcode) && (opcode <=? OP_ENDIF)) then exec_opcode opcode fExec st
         else Ok st);
      check (negb (Z.of_nat (length (stack st) + length (altstack st)) >? MAX_STACK_SIZE))
        (script_error SCRIPT_ERR_STACK_SIZE);;
      Ok st
  end.

(** Each turn consumes a byte: the length of the script is enough fuel. *)
Fixpoint eval_loop (fuel : nat) (st : eval_state) : res eval_state :=
  match pc st with
  | [] => Ok st
  | _ :: _ =>
      match fuel with
      | O => Err fuel_exhausted
      | S fuel => st ← eval_step st; eval_loop fuel st
      end
  end.

(** [catch (...)]: an assertion is not an exception. *)
Definition catch {A} (m : res A) : res A :=
  match m with
  | Err (scriptnum_error | out_of_range | popstack_empty) => Err (script_error SCRIPT_ERR_UNKNOWN_ERROR)
  | _ => m
  end.

Definition initial_state (script : bytes) (stack : stack_t) : eval_state := {|
  pc := script; stack := stack; altstack := []; vfExec := []; nOpCount := 0; pbegincodehash := script |}.

(** The final stack, or the reason of the failure. *)
Definition EvalScript (stack0 : stack_t) (script : bytes) : res stack_t :=
  check (negb (Z.of_nat (length script) >? MAX_SCRIPT_SIZE)) (script_error SCRIPT_ERR_SCRIPT_SIZE);;
  st ← catch (eval_loop (length script) (initial_state script stack0));
  check (match vfExec st with [] => true | _ => false end) (script_error SCRIPT_ERR_UNBALANCED_CONDITIONAL);;
  Ok (stack st).
End eval.

(** ** [VerifyScript] *)

Section verify.
Context `{B : BaseSignatureChecker} `{Hs : HashFunctions} (flags : Z).

(** [set_error(serror, SCRIPT_ERR_EVAL_FALSE)] on an empty stack or a false top. *)
Definition check_top (stack : stack_t) : res unit :=
  match stack with
  | [] => Err (script_error SCRIPT_ERR_EVAL_FALSE)
  | v :: _ => check (CastToBool v) (script_error SCRIPT_ERR_EVAL_FALSE)
  end.

(** The stack and the script of a witness program of version 0. *)
Definition witness_program_v0 (witness : CScriptWitness) (program : valtype) : res (stack_t * bytes) :=
  if (length program =? 32)%nat then
    match last witness with
    | None => Err (script_error SCRIPT_ERR_WITNESS_PROGRAM_WITNESS_EMPTY)
    | Some scriptPubKey =>
        check (bool_decide (CSHA3_256 scriptPubKey = program)) (script_error SCRIPT_ERR_WITNESS_PROGRAM_MISMATCH);;
        Ok (reverse (take (length witness - 1) witness), scriptPubKey)
    end
  else if (length program =? 20)%nat then
    check (length witness =? 2)%nat (script_error SCRIPT_ERR_WITNESS_PROGRAM_MISMATCH);;
    Ok (reverse witness, push_data [OP_DUP; OP_HASH160] program ++ [OP_EQUALVERIFY; OP_CHECKSIG])
  else Err (script_error SCRIPT_ERR_WITNESS_PROGRAM_WRONG_LENGTH).

Definition VerifyWitnessProgram (witness : CScriptWitness) (witversion : Z) (program : valtype) : res unit :=
  if witversion =? 0 then
    '(stack, scriptPubKey) ← witness_program_v0 witness program;
    check (forallb (fun v => Z.of_nat (length v) <=? MAX_SCRIPT_ELEMENT_SIZE) stack)
      (script_error SCRIPT_ERR_PUSH_SIZE);;
    stack ← EvalScript flags SIGVERSION_WITNESS_V0 stack scriptPubKey;
    check (length stack =? 1)%nat (script_error SCRIPT_ERR_EVAL_FALSE);;
    check_top stack
  else
    check (negb (has flags SCRIPT_VERIFY_DISCOURAGE_UPGRADABLE_WITNESS_PROGRAM))
      (script_error SCRIPT_ERR_DISCOURAGE_UPGRADABLE_WITNESS_PROGRAM).

(** [stack.resize(1)] keeps the bottom of the stack. *)
Definition resize_1 (stack : stack_t) : stack_t := [default [] (last stack)].

(** The part for a witness program in [scriptPubKey]: the new [hadWitness]
    and stack. *)
Definition verify_bare_witness (scriptSig scriptPubKey : bytes) (witness : CScriptWitness) (stack : stack_t)
    : res (bool * stack_t) :=
  if has flags SCRIPT_VERIFY_WITNESS then
    match IsWitnessProgram scriptPubKey with
    | Some (witnessversion, witnessprogram) =>
        check (length scriptSig =? 0)%nat (script_error SCRIPT_ERR_WITNESS_MALLEATED);;
        VerifyWitnessProgram witness witnessversion witnessprogram;;
        Ok (true, resize_1 stack)
    | None => Ok (false, stack)
    end
  else Ok (false, stack).

(** The part for pay-to-script-hash. *)
Definition verify_p2sh (scriptSig scriptPubKey : bytes) (witness : CScriptWitness) (hadWitness : bool)
    (stack stackCopy : stack_t) : res (bool * stack_t) :=
  if has flags SCRIPT_VERIFY_P2SH && IsPayToScriptHash scriptPubKey then
    check (IsPushOnly scriptSig) (script_error SCRIPT_ERR_SIG_PUSHONLY);;
    match stackCopy with
    | [] => Err assertion_failed
    | pubKey2 :: stack =>
        stack ← EvalScript flags SIGVERSION_BASE stack pubKey2;
        check_top stack;;
        if has flags SCRIPT_VERIFY_WITNESS then
          match IsWitnessProgram pubKey2 with
          | Some (witnessversion, witnessprogram) =>
              check (bool_decide (scriptSig = push_data [] pubKey2)) (script_error SCRIPT_ERR_WITNESS_MALLEATED_P2SH);;
              VerifyWitnessProgram witness witnessversion witnessprogram;;
              Ok (true, resize_1 stack)
          | None => Ok (hadWitness, stack)
          end
        else Ok (hadWitness, stack)
    end
  else Ok (hadWitness, stack).

Definition VerifyScript (scriptSig scriptPubKey : bytes) (witness : option CScriptWitness) : res unit :=
  let witness := default [] witness in
  check (negb (has flags SCRIPT_VERIFY_SIGPUSHONLY && negb (IsPushOnly scriptSig)))
    (script_error SCRIPT_ERR_SIG_PUSHONLY);;
  stack ← EvalScript flags SIGVERSION_BASE [] scriptSig;
  let stackCopy := if has flags SCRIPT_VERIFY_P2SH then stack else [] in
  stack ← EvalScript flags SIGVERSION_BASE stack scriptPubKey;
  check_top stack;;
  '(hadWitness, stack) ← verify_bare_witness scriptSig scriptPubKey witness stack;
  '(hadWitness, stack) ← verify_p2sh scriptSig scriptPubKey witness hadWitness stack stackCopy;
  (if has flags SCRIPT_VERIFY_CLEANSTACK then
     check (has flags SCRIPT_VERIFY_P2SH) assertion_failed;;
     check (has flags SCRIPT_VERIFY_WITNESS) assertion_failed;;
     check (length stack =? 1)%nat (script_error SCRIPT_ERR_CLEANSTACK)
   else Ok ());;
  (if has flags SCRIPT_VERIFY_WITNESS then
     check (has flags SCRIPT_VERIFY_P2SH) assertion_failed;;
     check (negb (negb hadWitness && negb (length witness =? 0)%nat)) (script_error SCRIPT_ERR_WITNESS_UNEXPECTED)
   else Ok ()).
End verify.

(** ** Signature operations of witnesses *)

Definition WitnessSigOps (witversion : Z) (witprogram : valtype) (witness : CScriptWitness) : Z :=
  if witversion =? 0 then
    if (length witprogram =? 20)%nat then 1
    else if (length witprogram =? 32)%nat then
      match last witness with Some s => GetSigOpCount true s | None => 0 end
    else 0
  else 0.

(** The operand of the last instruction of a push-only script. *)
Fixpoint last_data (fuel : nat) (pc : bytes) (data : valtype) : valtype :=
  match fuel, pc with
  | S fuel, _ :: _ =>
      match GetOp2 pc with Some (_, data, pc) => last_data fuel pc data | None => data end
  | _, _ => data
  end.

(** [None] is the failed assertion. *)
Definition CountWitnessSigOps (scriptSig scriptPubKey : bytes) (witness : option CScriptWitness) (flags : Z)
    : option Z :=
  if negb (has flags SCRIPT_VERIFY_WITNESS) then Some 0
  else if negb (has flags SCRIPT_VERIFY_P2SH) then None
  else Some
    match IsWitnessProgram scriptPubKey with
    | Some (version, program) => WitnessSigOps version program (default [] witness)
    | None =>
        if IsPayToScriptHash scriptPubKey && IsPushOnly scriptSig then
          match IsWitnessProgram (last_data (length scriptSig) scriptSig []) with
          | Some (version, program) => WitnessSigOps version program (default [] witness)
          | None => 0
          end
        else 0
    end.

(** ** Soft forks: adding flags only rejects more

    [weaker m m']: whatever [m'] returns, [m] returns as well. *)

Module softfork_facts.

Definition weaker {A} (m m' : res A) : Prop := forall a, m' = Ok a -> m = Ok a.

Lemma weaker_refl {A} (m : res A) : weaker m m.
Proof. by intros a. Qed.

Lemma weaker_bind {A B} (m m' : res A) (f f' : A -> res B) :
  weaker m m' -> (forall a, weaker (f a) (f' a)) -> weaker (m ≫= f) (m' ≫= f').
Proof. intros Hm Hf b (a & Ha & Hb)%bind_Ok. apply bind_Ok. exists a. split; [by apply Hm|by apply Hf]. Qed.

Lemma weaker_check b b' (e : failure) : (b' = true -> b = true) -> weaker (check b e) (check b' e).
Proof. intros H u Hu. apply check_Ok in Hu. by apply check_Ok, H. Qed.

Lemma weaker_nothing b (e : failure) (m : res unit) : weaker (Ok ()) (check b e ≫= fun _ => m).
Proof. by intros [] _. Qed.

Lemma weaker_unit (m : res unit) : weaker (Ok ()) m.
Proof. by intros [] _. Qed.

Lemma weaker_catch {A} (m m' : res A) : weaker m m' -> weaker (catch m) (catch m').
Proof. intros H a. destruct m' as [a'|[]]; cbn; try done. intros [= ->]. by rewrite (H a). Qed.

(** [f] is a subset of the flags [g]. *)
Definition subflags (f g : Z) : Prop := Z.land f g = f.

Lemma has_mono f g x : subflags f g -> has f x = true -> has g x = true.
Proof.
  unfold subflags, has. intros Hs H. apply negb_true_iff, Z.eqb_neq in H. apply negb_true_iff, Z.eqb_neq.
  intros H0. apply H. by rewrite <- Hs, <- Z.land_assoc, H0, Z.land_0_r.
Qed.

Section softfork.
Context `{B : BaseSignatureChecker} `{Hs : HashFunctions} (f g : Z) (Hfg : subflags f g).

Lemma has_cases x : has f x = true /\ has g x = true \/ has f x = false.
Proof. destruct (has f x) eqn:Hf; [left; split; [done|by apply (has_mono f)]|by right]. Qed.

Lemma weaker_script_num v n : weaker (script_num v (fRequireMinimal f) n) (script_num v (fRequireMinimal g) n).
Proof.
  unfold script_num, fRequireMinimal, CScriptNum.of_vch. intros a.
  destruct (has_cases SCRIPT_VERIFY_MINIMALDATA) as [[-> ->]| ->]; [done|]. cbn [andb].
  destruct (_ >? n); [done|]. by destruct (_ && _).
Qed.

(** A guard of a flag. *)
Ltac flag_check x := apply weaker_check; destruct (has_cases x) as [[-> ->]| ->];
  rewrite ?andb_false_r; cbn; try done; intros; auto.

Ltac soft := repeat first
  [ apply weaker_refl | apply weaker_script_num | apply weaker_unit
  | apply weaker_bind; [|intros ?] | case_match; try done ].

Lemma weaker_sig_encoding sig : weaker (CheckSignatureEncoding sig f) (CheckSignatureEncoding sig g).
Proof.
  unfold CheckSignatureEncoding. destruct sig; [apply weaker_refl|]. flag_check SCRIPT_VERIFY_STRICTENC.
Qed.

Lemma weaker_key_encoding key sv : weaker (CheckPubKeyEncoding key f sv) (CheckPubKeyEncoding key g sv).
Proof.
  unfold CheckPubKeyEncoding. apply weaker_bind; [|intros _].
  - flag_check SCRIPT_VERIFY_STRICTENC.
  - flag_check SCRIPT_VERIFY_WITNESS_PUBKEYTYPE.
Qed.

Lemma weaker_checklocktimeverify s : weaker (op_checklocktimeverify f s) (op_checklocktimeverify g s).
Proof.
  unfold op_checklocktimeverify. destruct (has_cases SCRIPT_VERIFY_CHECKLOCKTIMEVERIFY) as [[-> ->]| ->].
  - soft.
  - cbn [negb]. intros s'. destruct (has g _); [|done]. cbn [negb]. intros. by inv_ok.
Qed.

Lemma weaker_checksequenceverify s : weaker (op_checksequenceverify f s) (op_checksequenceverify g s).
Proof.
  unfold op_checksequenceverify. destruct (has_cases SCRIPT_VERIFY_CHECKSEQUENCEVERIFY) as [[-> ->]| ->].
  - soft.
  - cbn [negb]. intros s'. destruct (has g _); [|done]. cbn [negb]. intros. inv_ok.
    case_match; by inv_ok.
Qed.

Lemma weaker_if sv op e s v : weaker (op_if f sv op e s v) (op_if g sv op e s v).
Proof.
  unfold op_if. destruct e; [|apply weaker_refl]. soft.
  destruct (bool_decide _); [|cbn; apply weaker_refl]. flag_check SCRIPT_VERIFY_MINIMALIF.
Qed.

Lemma weaker_checksig sv op h s : weaker (op_checksig f sv op h s) (op_checksig g sv op h s).
Proof.
  unfold op_checksig. do 3 (apply weaker_bind; [apply weaker_refl|intros ?]).
  apply weaker_bind; [apply weaker_sig_encoding|intros ?].
  apply weaker_bind; [apply weaker_key_encoding|intros ?].
  apply weaker_bind; [apply weaker_refl|intros b].
  apply weaker_bind; [|intros ?; apply weaker_refl]. destruct b; [apply weaker_refl|].
  flag_check SCRIPT_VERIFY_NULLFAIL.
Qed.

Lemma weaker_multisig_loop sv n s c i k m : weaker (multisig_loop f sv n s c i k m) (multisig_loop g sv n s c i k m).
Proof.
  revert i k m. induction n as [|n IH]; intros i k m; [apply weaker_refl|].
  destruct m as [|m]; [apply weaker_refl|]. cbn [multisig_loop].
  do 2 (apply weaker_bind; [apply weaker_refl|intros ?]).
  apply weaker_bind; [apply weaker_sig_encoding|intros ?].
  apply weaker_bind; [apply weaker_key_encoding|intros ?].
  apply weaker_bind; [apply weaker_refl|intros b]. case_match; [apply weaker_refl|apply IH].
Qed.

Lemma weaker_cleanup_loop n b k s : weaker (cleanup_loop f n b k s) (cleanup_loop g n b k s).
Proof.
  revert k s. induction n as [|n IH]; intros k s; [apply weaker_refl|]. cbn [cleanup_loop].
  apply weaker_bind; [|intros _; apply weaker_bind; [apply weaker_refl|intros; apply IH]].
  destruct (has_cases SCRIPT_VERIFY_NULLFAIL) as [[-> ->]| ->]; [apply weaker_refl|].
  rewrite andb_false_r. apply weaker_unit.
Qed.

Lemma weaker_checkmultisig sv op h s n : weaker (op_checkmultisig f sv op h s n) (op_checkmultisig g sv op h s n).
Proof.
  unfold op_checkmultisig. do 2 (apply weaker_bind; [apply weaker_refl|intros ?]).
  apply weaker_bind; [apply weaker_script_num|intros ?].
  do 4 (apply weaker_bind; [apply weaker_refl|intros ?]).
  apply weaker_bind; [apply weaker_script_num|intros ?].
  do 3 (apply weaker_bind; [apply weaker_refl|intros ?]).
  apply weaker_bind; [apply weaker_multisig_loop|intros ?].
  apply weaker_bind; [apply weaker_cleanup_loop|intros ?].
  do 2 (apply weaker_bind; [apply weaker_refl|intros ?]).
  apply weaker_bind; [|intros; apply weaker_refl]. flag_check SCRIPT_VERIFY_NULLDUMMY.
Qed.

(** The opcodes on the main stack: the same case is taken. *)
Lemma weaker_exec_stack_op op s :
  match exec_stack_op f op s, exec_stack_op g op s with
  | Some m, Some m' => weaker m m'
  | None, None => True
  | _, _ => False
  end.
Proof.
  unfold exec_stack_op.
  repeat match goal with |- context [if ?b then Some _ else _] => destruct b end; try done.
  all: try apply weaker_refl.
  - apply weaker_checklocktimeverify.
  - apply weaker_checksequenceverify.
  - apply weaker_bind; [|intros; apply weaker_refl]. flag_check SCRIPT_VERIFY_DISCOURAGE_UPGRADABLE_NOPS.
  - unfold op_pick_roll. soft.
  - unfold op_unary. soft.
  - unfold op_binary. soft.
  - unfold op_within. soft.
Qed.

Lemma weaker_exec_opcode sv op e st : weaker (exec_opcode f sv op e st) (exec_opcode g sv op e st).
Proof.
  unfold exec_opcode. pose proof (weaker_exec_stack_op op (stack st)) as Hexec.
  destruct (exec_stack_op f op (stack st)), (exec_stack_op g op (stack st)); try done.
  { apply weaker_bind; [done|intros; apply weaker_refl]. }
  repeat match goal with |- context [if ?b then _ else _] => destruct b end; try apply weaker_refl.
  - apply weaker_bind; [apply weaker_if|intros []; apply weaker_refl].
  - apply weaker_bind; [apply weaker_checksig|intros; apply weaker_refl].
  - apply weaker_bind; [apply weaker_checkmultisig|intros []; apply weaker_refl].
Qed.

Lemma weaker_eval_step sv st : weaker (eval_step f sv st) (eval_step g sv st).
Proof.
  unfold eval_step. destruct (GetOp2 (pc st)) as [[[op d] pc']|]; [|apply weaker_refl].
  do 3 (apply weaker_bind; [apply weaker_refl|intros ?]).
  apply weaker_bind; [|intros; apply weaker_refl].
  destruct (_ && _); [|destruct (_ || _); [apply weaker_exec_opcode|apply weaker_refl]].
  apply weaker_bind; [|intros; apply weaker_refl]. unfold fRequireMinimal. flag_check SCRIPT_VERIFY_MINIMALDATA.
Qed.

Lemma weaker_eval_loop sv n st : weaker (eval_loop f sv n st) (eval_loop g sv n st).
Proof.
  revert st. induction n as [|n IH]; intros st; [apply weaker_refl|]. cbn [eval_loop].
  destruct (pc st); [apply weaker_refl|]. apply weaker_bind; [apply weaker_eval_step|intros; apply IH].
Qed.

Lemma weaker_EvalScript sv s c : weaker (EvalScript f sv s c) (EvalScript g sv s c).
Proof.
  unfold EvalScript. apply weaker_bind; [apply weaker_refl|intros ?].
  apply weaker_bind; [|intros; apply weaker_refl]. apply weaker_catch, weaker_eval_loop.
Qed.

Lemma weaker_witness_program w v p : weaker (VerifyWitnessProgram f w v p) (VerifyWitnessProgram g w v p).
Proof.
  unfold VerifyWitnessProgram. destruct (v =? 0).
  - apply weaker_bind; [apply weaker_refl|intros [s c]]. apply weaker_bind; [apply weaker_refl|intros _].
    apply weaker_bind; [apply weaker_EvalScript|intros; apply weaker_refl].
  - flag_check SCRIPT_VERIFY_DISCOURAGE_UPGRADABLE_WITNESS_PROGRAM.
Qed.

Lemma weaker_bare_witness a b w s : has f SCRIPT_VERIFY_WITNESS = true ->
  weaker (verify_bare_witness f a b w s) (verify_bare_witness g a b w s).
Proof.
  intros Hf. unfold verify_bare_witness. rewrite Hf, (has_mono f g _ Hfg Hf).
  destruct (IsWitnessProgram b) as [[v p]|]; [|apply weaker_refl].
  apply weaker_bind; [apply weaker_refl|intros _].
  apply weaker_bind; [apply weaker_witness_program|intros; apply weaker_refl].
Qed.

Lemma weaker_p2sh a b w h s c : has f SCRIPT_VERIFY_WITNESS = true -> has f SCRIPT_VERIFY_P2SH = true ->
  weaker (verify_p2sh f a b w h s c) (verify_p2sh g a b w h s c).
Proof.
  intros Hf Hp. unfold verify_p2sh. rewrite Hf, (has_mono f g _ Hfg Hf), Hp, (has_mono f g _ Hfg Hp).
  destruct (true && _); [|apply weaker_refl]. apply weaker_bind; [apply weaker_refl|intros _].
  destruct c as [|k c]; [apply weaker_refl|]. apply weaker_bind; [apply weaker_EvalScript|intros s'].
  apply weaker_bind; [apply weaker_refl|intros _].
  destruct (IsWitnessProgram k) as [[v p]|]; [|apply weaker_refl].
  apply weaker_bind; [apply weaker_refl|intros _].
  apply weaker_bind; [apply weaker_witness_program|intros; apply weaker_refl].
Qed.

(** Without the witness flag, the pay-to-script-hash part only has to pass. *)
Lemma p2sh_without_witness a b w h h' s s' c r : has f SCRIPT_VERIFY_WITNESS = false ->
  (has f SCRIPT_VERIFY_P2SH = true -> has g SCRIPT_VERIFY_P2SH = true) ->
  verify_p2sh g a b w h' s' (if has g SCRIPT_VERIFY_P2SH then c else []) = Ok r ->
  exists r', verify_p2sh f a b w h s (if has f SCRIPT_VERIFY_P2SH then c else []) = Ok r'.
Proof.
  intros Hf Hp Hg. unfold verify_p2sh in *. rewrite Hf.
  destruct (has f SCRIPT_VERIFY_P2SH); [|by eexists]. rewrite Hp in Hg by done. cbn [andb] in *.
  destruct (IsPayToScriptHash b); [|by eexists].
  apply bind_Ok in Hg as ([] & Hpush & Hg). rewrite Hpush. cbn [mbind result_bind].
  destruct c as [|k c]; [done|]. apply bind_Ok in Hg as (s1 & He & Hg).
  rewrite (weaker_EvalScript _ _ _ _ He). cbn [mbind result_bind].
  apply bind_Ok in Hg as ([] & Ht & _). rewrite Ht. by eexists.
Qed.

(** The flags that the final assertions of [VerifyScript] accept. *)
Definition flags_ok (x : Z) : Prop :=
  (has x SCRIPT_VERIFY_WITNESS = true -> has x SCRIPT_VERIFY_P2SH = true) /\
  (has x SCRIPT_VERIFY_CLEANSTACK = true -> has x SCRIPT_VERIFY_WITNESS = true).

Lemma weaker_VerifyScript a b w : flags_ok f -> weaker (VerifyScript f a b w) (VerifyScript g a b w).
Proof.
  intros [Hwp Hcw]. unfold VerifyScript. set (wit := default [] w).
  apply weaker_bind; [flag_check SCRIPT_VERIFY_SIGPUSHONLY|intros _].
  apply weaker_bind; [apply weaker_EvalScript|intros s].
  apply weaker_bind; [apply weaker_EvalScript|intros s'].
  apply weaker_bind; [apply weaker_refl|intros _].
  destruct (has f SCRIPT_VERIFY_WITNESS) eqn:Hw.
  - rewrite (has_mono f g _ Hfg Hw), (Hwp eq_refl), (has_mono f g _ Hfg (Hwp eq_refl)).
    apply weaker_bind; [by apply weaker_bare_witness|intros [h1 s1]].
    apply weaker_bind; [apply weaker_p2sh; auto|intros [h2 s2]].
    apply weaker_bind; [|intros; apply weaker_refl].
    destruct (has_cases SCRIPT_VERIFY_CLEANSTACK) as [[-> ->]| ->]; [apply weaker_refl|apply weaker_unit].
  - intros u Hg. apply bind_Ok in Hg as ([h1 s1] & _ & Hg). apply bind_Ok in Hg as (r & Hp & _).
    apply (p2sh_without_witness _ _ _ false _ s') in Hp as [[h2 s2] Hp]; [|done|by apply has_mono].
    unfold verify_bare_witness. rewrite Hw. cbn [mbind result_bind]. rewrite Hp. cbn [mbind result_bind].
    destruct (has f SCRIPT_VERIFY_CLEANSTACK); [by specialize (Hcw eq_refl)|]. by destruct u.
Qed.
End softfork.
End softfork_facts.

(** ** Safety: the guards are enough

    [wp m Q]: the computation either returns a value satisfying [Q] or stops
    by [set_error] or [scriptnum_error]; it never leaves a vector, pops an
    empty stack or fails an assertion. *)

Module safety_facts.

Definition wp {A} (m : res A) (Q : A -> Prop) : Prop :=
  match m with
  | Ok a => Q a
  | Err (script_error _ | scriptnum_error) => True
  | Err _ => False
  end.

Lemma wp_bind {A B} (m : res A) (f : A -> res B) Q : wp m (fun a => wp (f a) Q) -> wp (m ≫= f) Q.
Proof. by destruct m. Qed.

Lemma wp_mono {A} (m : res A) (P Q : A -> Prop) : wp m P -> (forall a, P a -> Q a) -> wp m Q.
Proof. destruct m as [a|[]]; cbn; auto. Qed.

Lemma wp_check b e (Q : unit -> Prop) : (b = true -> Q ()) -> wp (check b (script_error e)) Q.
Proof. destruct b; cbn; auto. Qed.

Lemma wp_need {A} (s : list A) n e (Q : unit -> Prop) : ((n <= length s)%nat -> Q ()) -> wp (need s n e) Q.
Proof. intros H. apply wp_check. intros Hn%Nat.leb_le. auto. Qed.

Lemma wp_stacktop s i (Q : valtype -> Prop) : (1 <= i <= length s)%nat -> (forall v, v ∈ s -> Q v) ->
  wp (stacktop s i) Q.
Proof.
  intros Hi HQ. unfold stacktop. destruct (lookup_lt_is_Some_2 s (i - 1)) as [v Hv]; [lia|].
  rewrite Hv. apply HQ. by apply list_elem_of_lookup_2 in Hv.
Qed.

Lemma wp_popstack {A} (s : list A) (Q : list A -> Prop) : (1 <= length s)%nat -> Q (tail s) -> wp (popstack s) Q.
Proof. intros Hs HQ. destruct s; [cbn in Hs; lia|exact HQ]. Qed.

Lemma wp_script_num v r n (Q : Z -> Prop) : (forall a, CScriptNum.of_vch v r n = Some a -> Q a) ->
  wp (script_num v r n) Q.
Proof. intros HQ. unfold script_num. destruct (CScriptNum.of_vch v r n); cbn; auto. Qed.

Lemma length_tail {A} (l : list A) : length (tail l) = (length l - 1)%nat.
Proof. by destruct l; cbn; [|rewrite Nat.sub_0_r]. Qed.

(** *** Stack elements *)

(** An element holds bytes and fits the limit. *)
Definition elem_ok (v : valtype) : Prop := bytes_ok v /\ Z.of_nat (length v) <= MAX_SCRIPT_ELEMENT_SIZE.
Abbreviation stack_ok := (Forall elem_ok).

Lemma elem_ok_in s v : stack_ok s -> v ∈ s -> elem_ok v.
Proof. by rewrite Forall_forall; auto. Qed.

Lemma stack_ok_tail s : stack_ok s -> stack_ok (tail s).
Proof. by destruct 1. Qed.

Lemma elem_ok_small v : bytes_ok v -> (length v <= 32)%nat -> elem_ok v.
Proof. intros. split; [done|]. unfold MAX_SCRIPT_ELEMENT_SIZE. lia. Qed.

Lemma serialize_loop_ok n a : bytes_ok (CScriptNum.serialize_loop n a) /\ (length (CScriptNum.serialize_loop n a) <= n)%nat.
Proof.
  revert a. induction n as [|n IH]; intros a; cbn [CScriptNum.serialize_loop]; [by split|].
  destruct (a =? 0); [by split; [|cbn; lia]|]. destruct (IH (Z.shiftr a 8)).
  split; [constructor; [rewrite land_ff; by apply wrap_range|done]|cbn; lia].
Qed.

Lemma getvch_ok a : elem_ok (CScriptNum.getvch a).
Proof.
  unfold CScriptNum.getvch, CScriptNum.serialize. destruct (a =? 0); [apply elem_ok_small; [done|cbn; lia]|].
  set (r := CScriptNum.serialize_loop 8 _). assert (bytes_ok r /\ (length r <= 8)%nat) as [Hr Hl] by apply serialize_loop_ok. clearbody r.
  assert (in_range 8 (default 0 (last r))) as Hd.
  { destruct r as [|b r _] using rev_ind; [by unfold in_range; cbn; lia|]. rewrite last_snoc.
    apply Forall_app in Hr as [_ Hb]. by apply Forall_cons_1 in Hb as [Hb _]. }
  case_match; [|case_match; [|apply elem_ok_small; [done|lia]]]; apply elem_ok_small.
  - apply Forall_app. split; [done|]. constructor; [by case_match|done].
  - rewrite length_app. cbn. lia.
  - apply Forall_app. split; [by apply Forall_take|]. constructor; [apply in_range_lor; [lia|done|by unfold in_range; lia]|done].
  - rewrite length_app, length_take. cbn. lia.
Qed.

Lemma bool_vch_ok b : elem_ok (bool_vch b).
Proof. destruct b; apply elem_ok_small; cbn; try lia; [|done]. by repeat constructor. Qed.

Create HintDb stack_ok discriminated.
#[local] Hint Resolve getvch_ok bool_vch_ok stack_ok_tail elem_ok_in : stack_ok.

Section safe.
Context `{B : BaseSignatureChecker} `{Hs : HashFunctions} {HL : HashLaws Hs} (flags : Z).

(** Steps shared by the proofs of the single opcodes. *)
Ltac wp_step :=
  match goal with
  | |- wp (_ ≫= _) _ => apply wp_bind
  | |- wp (need_stack _ _) _ => apply wp_need; intros ?
  | |- wp (need _ _ _) _ => apply wp_need; intros ?
  | |- wp (check _ (script_error _)) _ => apply wp_check; intros ?
  | |- wp (stacktop _ _) _ => apply wp_stacktop; [rewrite ?length_tail; lia|intros ? ?]
  | |- wp (popstack _) _ => apply wp_popstack; [rewrite ?length_tail; cbn [length]; lia|cbn [tail]]
  | |- wp (script_num _ _ _) _ => apply wp_script_num; intros ? ?
  | |- wp (Ok _) _ => cbn [wp]
  | |- wp (Err (script_error _)) _ => exact I
  | |- wp (if ?b then _ else _) _ => destruct b eqn:?
  end.
Ltac wp_op := repeat wp_step; repeat first [apply Forall_cons; split]; eauto 6 with stack_ok nocore.

Lemma swap_top_ok s i j (Q : stack_t -> Prop) : stack_ok s -> (1 <= i <= length s)%nat -> (1 <= j <= length s)%nat ->
  (forall s', stack_ok s' -> length s' = length s -> Q s') -> wp (swap_top s i j) Q.
Proof.
  intros Hs' Hi Hj HQ. unfold swap_top. wp_step. apply wp_stacktop; [lia|]. intros vi Hvi. wp_step.
  apply wp_stacktop; [lia|]. intros vj Hvj. cbn [wp]. apply HQ; [|by rewrite !length_insert].
  apply Forall_insert; [apply Forall_insert; [done|]|]; by eapply elem_ok_in.
Qed.

Lemma unary_ok op bn (Q : Z -> Prop) : mem op [OP_1ADD; OP_1SUB; OP_NEGATE; OP_ABS; OP_NOT; OP_0NOTEQUAL] = true ->
  Z.abs bn < 2 ^ 31 -> (forall a, Q a) -> wp (unary op bn) Q.
Proof.
  intros Hop Hb HQ. unfold unary, CScriptNum.add_assign, CScriptNum.sub_assign, CScriptNum.neg.
  unfold CScriptNum.int64_min, CScriptNum.int64_max.
  destruct (op =? OP_1ADD) eqn:H1. { rewrite (proj2 (Z.leb_le bn _)) by lia. apply HQ. }
  destruct (op =? OP_1SUB) eqn:H2. { rewrite Z.geb_leb, (proj2 (Z.leb_le _ bn)) by lia. apply HQ. }
  destruct (op =? OP_NEGATE) eqn:H3. { rewrite (proj2 (Z.eqb_neq _ _)) by lia. apply HQ. }
  destruct (op =? OP_ABS) eqn:H4.
  { destruct (bn <? 0); [rewrite (proj2 (Z.eqb_neq _ _)) by lia|]; apply HQ. }
  destruct (op =? OP_NOT) eqn:H5; [apply HQ|]. destruct (op =? OP_0NOTEQUAL) eqn:H6; [apply HQ|].
  unfold mem in Hop. cbn [existsb] in Hop. by rewrite H1, H2, H3, H4, H5, H6 in Hop.
Qed.

Lemma binary_ok op a b (Q : Z -> Prop) :
  mem op [OP_ADD; OP_SUB; OP_BOOLAND; OP_BOOLOR; OP_NUMEQUAL; OP_NUMEQUALVERIFY; OP_NUMNOTEQUAL;
          OP_LESSTHAN; OP_GREATERTHAN; OP_LESSTHANOREQUAL; OP_GREATERTHANOREQUAL; OP_MIN; OP_MAX] = true ->
  (forall r, Q r) -> wp (binary op a b) Q.
Proof.
  intros Hop HQ. unfold binary. unfold mem in Hop. cbn [existsb] in Hop.
  repeat match goal with |- wp (if ?x then _ else _) _ => destruct x; [by apply HQ|] end. done.
Qed.

Lemma num4_range v r a : elem_ok v -> CScriptNum.of_vch v r CScriptNum.nDefaultMaxNumSize = Some a -> Z.abs a < 2 ^ 31.
Proof.
  intros [Hv _] Ha. apply scriptnum_facts.of_vch_range in Ha; [|done|by unfold CScriptNum.nDefaultMaxNumSize].
  exact Ha.
Qed.

Lemma getint_small a : Z.abs a < 2 ^ 31 -> CScriptNum.getint a = a.
Proof. intros Ha. unfold CScriptNum.getint. bcases. Qed.

(** What a checker promises: its functions return. *)
Class SignatureCheckerLaws : Prop := {
  CheckSig_ok : forall sig key code sv, exists b, CheckSig sig key code sv = Ok b;
  CheckLockTime_ok : forall n, exists b, CheckLockTime n = Ok b;
  CheckSequence_ok : forall n, exists b, CheckSequence n = Ok b;
}.
Context {CL : SignatureCheckerLaws}.

Lemma wp_CheckSig sig key code sv (Q : bool -> Prop) : (forall b, Q b) -> wp (CheckSig sig key code sv) Q.
Proof. intros HQ. destruct (CheckSig_ok sig key code sv) as [b ->]. apply HQ. Qed.

Lemma wp_sig_encoding sig (Q : unit -> Prop) : Q () -> wp (CheckSignatureEncoding sig flags) Q.
Proof. intros HQ. destruct sig; [exact HQ|]. by apply wp_check. Qed.

Lemma wp_key_encoding key sv (Q : unit -> Prop) : Q () -> wp (CheckPubKeyEncoding key flags sv) Q.
Proof. intros HQ. unfold CheckPubKeyEncoding. wp_step. apply wp_check. intros _. by apply wp_check. Qed.

Lemma safe_checklocktimeverify s : stack_ok s -> wp (op_checklocktimeverify flags s) stack_ok.
Proof.
  intros Hok. unfold op_checklocktimeverify. repeat wp_step; try done.
  destruct (CheckLockTime_ok a) as [b ->]. cbn [wp]. by repeat wp_step.
Qed.

Lemma safe_checksequenceverify s : stack_ok s -> wp (op_checksequenceverify flags s) stack_ok.
Proof.
  intros Hok. unfold op_checksequenceverify. repeat wp_step; try done.
  destruct (CheckSequence_ok a) as [b ->]. cbn [wp]. by repeat wp_step.
Qed.

Lemma safe_pick_roll op s : stack_ok s -> wp (op_pick_roll flags op s) stack_ok.
Proof.
  intros Hok. unfold op_pick_roll. wp_step. wp_step. wp_step. wp_step. wp_step. wp_step.
  assert (Z.abs a < 2 ^ 31) as Ha by (eapply num4_range; [|eassumption]; eauto with stack_ok nocore).
  rewrite getint_small by done. wp_step. wp_step. wp_step. wp_step.
  match goal with H : negb (_ || _) = true |- _ => apply negb_true_iff, orb_false_iff in H as [Hlo Hhi] end.
  rewrite Z.geb_leb in Hhi. apply Z.ltb_ge in Hlo. apply Z.leb_gt in Hhi. rewrite length_tail in Hhi.
  wp_step. apply wp_stacktop; [rewrite length_tail; lia|]. intros w Hw. cbn [wp].
  apply Forall_cons. split; [by eapply elem_ok_in; [apply stack_ok_tail|]|].
  destruct (op =? OP_ROLL); [apply Forall_delete|]; by apply stack_ok_tail.
Qed.

Lemma safe_unary op s : stack_ok s ->
  mem op [OP_1ADD; OP_1SUB; OP_NEGATE; OP_ABS; OP_NOT; OP_0NOTEQUAL] = true -> wp (op_unary flags op s) stack_ok.
Proof.
  intros Hok Hop. unfold op_unary. wp_step. wp_step. wp_step. wp_step. wp_step. wp_step. wp_step.
  apply unary_ok; [done|eapply num4_range; [|eassumption]; eauto with stack_ok nocore|]. intros r. wp_op.
Qed.

Lemma safe_binary op s : stack_ok s ->
  mem op [OP_ADD; OP_SUB; OP_BOOLAND; OP_BOOLOR; OP_NUMEQUAL; OP_NUMEQUALVERIFY; OP_NUMNOTEQUAL;
          OP_LESSTHAN; OP_GREATERTHAN; OP_LESSTHANOREQUAL; OP_GREATERTHANOREQUAL; OP_MIN; OP_MAX] = true ->
  wp (op_binary flags op s) stack_ok.
Proof.
  intros Hok Hop. unfold op_binary. do 11 wp_step. apply binary_ok; [done|]. intros r.
  repeat wp_step; try (apply Forall_cons; split); eauto with stack_ok nocore.
  apply wp_stacktop; [cbn; lia|]. intros w Hw. repeat wp_step; eauto with stack_ok nocore.
Qed.

Lemma safe_hash op s : stack_ok s -> wp (op_hash op s) stack_ok.
Proof.
  intros Hok. unfold op_hash. do 6 wp_step. apply Forall_cons. split; [|by apply stack_ok_tail].
  repeat match goal with |- context [if ?b then _ else _] => destruct b end; apply elem_ok_small;
    first [by eauto using bytes_RIPEMD160, bytes_SHA1, bytes_SHA3_256, bytes_Hash160, bytes_Hash256 | idtac];
    rewrite ?length_RIPEMD160, ?length_SHA1, ?length_SHA3_256, ?length_Hash160, ?length_Hash256; lia.
Qed.

Lemma mem_true op ops : mem op ops = true <-> In op ops.
Proof.
  unfold mem. rewrite existsb_exists. split; [intros (x & Hx & ->%Z.eqb_eq); done|].
  intros Hin. exists op. by rewrite Z.eqb_refl.
Qed.

Lemma safe_stack_op op s m : stack_ok s -> exec_stack_op flags op s = Some m -> wp m stack_ok.
Proof.
  intros Hok. unfold exec_stack_op.
  repeat match goal with |- (if ?b then _ else _) = Some _ -> _ =>
    let E := fresh "E" in destruct b eqn:E; [|clear E] end; intros [= <-];
    try exact I; try exact Hok; try done.
  - apply Forall_cons. split; [apply getvch_ok|done].
  - by apply safe_checklocktimeverify.
  - by apply safe_checksequenceverify.
  - unfold op_upgradable_nop. by wp_op.
  - unfold op_verify. by wp_op.
  - unfold op_2drop. wp_op.
  - unfold op_2dup. wp_op.
  - unfold op_3dup. wp_op.
  - unfold op_2over. wp_op.
  - unfold op_2rot. wp_op. apply Forall_app. split; [by apply Forall_take|by apply Forall_drop].
  - unfold op_2swap. wp_step. wp_step. wp_step. apply swap_top_ok; [done|lia..|]. intros s' H1 H2.
    apply swap_top_ok; [done|lia..|]. done.
  - unfold op_ifdup. wp_op. case_match; [apply Forall_cons; split|]; eauto with stack_ok nocore.
  - apply Forall_cons. split; [apply getvch_ok|done].
  - unfold op_drop. wp_op.
  - unfold op_dup. wp_op.
  - unfold op_nip. wp_op. by apply Forall_delete.
  - unfold op_over. wp_op.
  - by apply safe_pick_roll.
  - unfold op_rot. wp_step. wp_step. wp_step. apply swap_top_ok; [done|lia..|]. intros s' H1 H2.
    apply swap_top_ok; [done|lia..|]. done.
  - unfold op_swap. wp_step. wp_step. apply swap_top_ok; [done|lia..|]. done.
  - unfold op_tuck. wp_op. apply Forall_app. split; [by apply Forall_take|].
    apply Forall_cons. split; [by eauto with stack_ok nocore|by apply Forall_drop].
  - unfold op_size. wp_op.
  - unfold op_equal. wp_op.
  - by apply safe_unary.
  - by apply safe_binary.
  - unfold op_within. wp_op.
  - by apply safe_hash.
Qed.

Lemma safe_if sv op e s v : stack_ok s -> wp (op_if flags sv op e s v) (fun r => stack_ok r.1).
Proof. intros Hok. unfold op_if. destruct e; [|done]. wp_op. Qed.

Lemma safe_checksig sv op h s : stack_ok s -> wp (op_checksig flags sv op h s) stack_ok.
Proof.
  intros Hok. unfold op_checksig. do 6 wp_step. wp_step. apply wp_sig_encoding. wp_step. apply wp_key_encoding.
  wp_step. apply wp_CheckSig. intros b. wp_op.
Qed.

Lemma safe_drop_signatures sv n k isig s code (Q : bytes -> Prop) :
  (1 <= isig)%nat -> (isig + k + n <= S (length s))%nat -> (forall c, Q c) ->
  wp (drop_signatures sv n k isig s code) Q.
Proof.
  intros Hi. revert k code. induction n as [|n IH]; intros k code Hl HQ; [apply HQ|]. cbn [drop_signatures].
  wp_step. apply wp_stacktop; [lia|]. intros v _. apply IH; [lia|done].
Qed.

Lemma safe_multisig_loop sv n s code isig ikey m (Q : bool -> Prop) :
  (1 <= isig)%nat -> (1 <= ikey)%nat -> (isig + m <= S (length s))%nat -> (ikey + n <= S (length s))%nat ->
  (forall b, Q b) -> wp (multisig_loop flags sv n s code isig ikey m) Q.
Proof.
  revert isig ikey m. induction n as [|n IH]; intros isig ikey m H1 H2 H3 H4 HQ; destruct m as [|m]; try apply HQ.
  cbn [multisig_loop]. wp_step. apply wp_stacktop; [lia|]. intros sig _. wp_step. apply wp_stacktop; [lia|].
  intros key _. wp_step. apply wp_sig_encoding. wp_step. apply wp_key_encoding. wp_step. apply wp_CheckSig.
  intros b. case_match; [apply HQ|]. destruct b; apply IH; auto; lia.
Qed.

Lemma safe_cleanup_loop n b k s (Q : stack_t -> Prop) : stack_ok s -> (n <= length s)%nat ->
  (forall s', stack_ok s' -> length s' = (length s - n)%nat -> Q s') -> wp (cleanup_loop flags n b k s) Q.
Proof.
  revert k s. induction n as [|n IH]; intros k s Hok Hn HQ; [apply HQ; [done|lia]|]. cbn [cleanup_loop].
  wp_step. apply wp_mono with (fun _ => True).
  - destruct (_ && _); [|exact I]. wp_step. apply wp_stacktop; [lia|]. intros v _. by apply wp_check.
  - intros _ _. wp_step. wp_step. apply IH; [by apply stack_ok_tail|rewrite length_tail; lia|].
    intros s' Hs' Hlen. apply HQ; [done|]. rewrite length_tail in Hlen. lia.
Qed.

Lemma safe_checkmultisig sv op h s n : stack_ok s -> 0 <= n <= MAX_OPS_PER_SCRIPT ->
  wp (op_checkmultisig flags sv op h s n) (fun r => stack_ok r.1 /\ 0 <= r.2 <= MAX_OPS_PER_SCRIPT).
Proof.
  intros Hok Hn. unfold op_checkmultisig. do 5 wp_step.
  apply wp_script_num. intros a Ha.
  assert (Z.abs a < 2 ^ 31) as Hra by (eapply num4_range; [|eassumption]; eauto with stack_ok nocore).
  rewrite getint_small by done. wp_step. apply wp_check. intros [Hk1 Hk2]%negb_true_iff%orb_false_iff.
  rewrite Z.gtb_ltb in Hk2. apply Z.ltb_ge in Hk1, Hk2.
  wp_step. apply wp_check. intros Hops%negb_true_iff. rewrite Z.gtb_ltb in Hops. apply Z.ltb_ge in Hops.
  do 4 wp_step. apply wp_bind. apply wp_script_num. intros c Hc.
  assert (Z.abs c < 2 ^ 31) as Hrc by (eapply num4_range; [|eassumption]; eauto with stack_ok nocore).
  rewrite (getint_small c) by done. wp_step. apply wp_check. intros [Hs1 Hs2]%negb_true_iff%orb_false_iff.
  rewrite Z.gtb_ltb in Hs2. apply Z.ltb_ge in Hs1, Hs2. do 2 wp_step.
  wp_step. apply safe_drop_signatures; [lia|lia|]. intros code.
  wp_step. apply safe_multisig_loop; [lia..|]. intros b.
  wp_step. apply safe_cleanup_loop; [done|lia|]. intros s' Hs' Hlen.
  repeat wp_step; split; cbn [fst snd]; try lia; try (apply Forall_cons; split); eauto with stack_ok nocore.
Qed.

(** *** The state of the interpreter *)

Record state_ok (st : eval_state) : Prop := {
  ok_pc : bytes_ok (pc st);
  ok_stack : stack_ok (stack st);
  ok_alt : stack_ok (altstack st);
  ok_ops : 0 <= nOpCount st <= MAX_OPS_PER_SCRIPT;
}.

Lemma safe_exec_opcode sv op e st : state_ok st ->
  wp (exec_opcode flags sv op e st) (fun st' => state_ok st' /\ pc st' = pc st).
Proof.
  intros [H1 H2 H3 H4]. unfold exec_opcode.
  destruct (exec_stack_op flags op (stack st)) as [m|] eqn:Hm.
  { apply wp_bind. eapply wp_mono; [by apply (safe_stack_op op (stack st))|]. intros s Hs'. cbn [wp]; by split; [by split|]. }
  repeat match goal with |- wp (if ?b then _ else _) _ => destruct b eqn:? end; try exact I; try (cbn [wp]; by split; [by split|]).
  - apply wp_bind. eapply wp_mono; [by apply safe_if|]. intros [s v] Hs'. cbn [wp]; by split; [by split|].
  - unfold op_else. destruct (vfExec st); [exact I|]. cbn. split; [by split|done].
  - unfold op_endif. destruct (vfExec st); [exact I|]. cbn. split; [by split|done].
  - unfold op_toaltstack. repeat wp_step. split; [|done].
    split; cbn; try done; try (apply Forall_cons; split); eauto with stack_ok nocore.
  - unfold op_fromaltstack. repeat wp_step. split; [|done].
    split; cbn; try done; try (apply Forall_cons; split); eauto with stack_ok nocore.
  - apply wp_bind. eapply wp_mono; [by apply safe_checksig|]. intros s Hs'. cbn [wp]; by split; [by split|].
  - apply wp_bind. eapply wp_mono; [by apply safe_checkmultisig|]. intros [s n] [Hs' Hn]. cbn [wp]; by split; [by split|].
Qed.

Lemma safe_eval_step sv st : state_ok st ->
  wp (eval_step flags sv st) (fun st' => state_ok st' /\ (length (pc st') < length (pc st))%nat /\
    Z.of_nat (length (stack st') + length (altstack st')) <= MAX_STACK_SIZE).
Proof.
  intros [H1 H2 H3 H4]. unfold eval_step. destruct (GetOp2 (pc st)) as [[[op d] pc']|] eqn:Hop; [|exact I].
  destruct (script_facts.GetOp2_bytes _ _ _ _ H1 Hop) as (_ & Hd & Hpc).
  pose proof (script_facts.GetOp2_shorter _ _ _ _ Hop) as Hlt.
  wp_step. apply wp_check. intros Hsize%negb_true_iff. rewrite Z.gtb_ltb in Hsize. apply Z.ltb_ge in Hsize.
  wp_step. apply wp_check. intros Hcount%negb_true_iff.
  wp_step. apply wp_check. intros _. set (n := if op >? OP_16 then nOpCount st + 1 else nOpCount st) in *.
  assert (0 <= n <= MAX_OPS_PER_SCRIPT) as Hn.
  { subst n. destruct (op >? OP_16); [|done]. cbn [andb] in Hcount. rewrite Z.gtb_ltb in Hcount.
    apply Z.ltb_ge in Hcount. lia. } clear Hcount.
  assert (state_ok (advance st pc' n)) as Hadv by by split.
  wp_step. apply wp_mono with (fun st' => state_ok st' /\ pc st' = pc').
  - destruct (_ && _).
    + wp_step. apply wp_check. intros _. cbn [wp]. split; [|done]. destruct Hadv. split; cbn; try done.
      apply Forall_cons. by split.
    + destruct (_ || _); [|done]. eapply wp_mono; [by apply safe_exec_opcode|]. by intros st' [? ?].
  - intros st' [Hst' Hpc']. wp_step. apply wp_check. intros Hsz%negb_true_iff. cbn [wp]. rewrite Hpc'.
    rewrite Z.gtb_ltb in Hsz. apply Z.ltb_ge in Hsz. done.
Qed.

Lemma safe_eval_loop sv n st : state_ok st -> (length (pc st) <= n)%nat ->
  wp (eval_loop flags sv n st) (fun st' => state_ok st' /\ pc st' = [] /\
    (pc st <> [] -> Z.of_nat (length (stack st') + length (altstack st')) <= MAX_STACK_SIZE) /\
    (pc st = [] -> st' = st)).
Proof.
  revert st. induction n as [|n IH]; intros st Hok Hlen.
  { destruct (pc st) eqn:Hpc; [|cbn in Hlen; lia]. cbn. rewrite Hpc. done. }
  cbn [eval_loop]. destruct (pc st) as [|x rest] eqn:Hpc; [cbn; by rewrite Hpc|].
  wp_step. eapply wp_mono; [by apply safe_eval_step|]. intros st' (Hst' & Hlt & Hsz).
  rewrite Hpc in Hlt. cbn in Hlt, Hlen. eapply wp_mono; [apply IH; [done|lia]|].
  intros st'' (H1 & H2 & H3 & H4). split; [done|]. split; [done|]. split; [|done].
  intros _. destruct (decide (pc st' = [])) as [He|Hne]; [by rewrite (H4 He)|by apply H3].
Qed.

Lemma wp_catch {A} (m : res A) Q : wp m Q -> match catch m with Ok a => Q a | Err (script_error _) => True | _ => False end.
Proof. by destruct m as [a|[]]. Qed.

(** The final stack of a script, from a stack of well-formed elements. *)
Lemma EvalScript_safe sv s script : stack_ok s -> bytes_ok script ->
  match EvalScript flags sv s script with
  | Ok s' => stack_ok s' /\ (script <> [] -> Z.of_nat (length s') <= MAX_STACK_SIZE) /\ (script = [] -> s' = s)
  | Err (script_error _) => True
  | Err _ => False
  end.
Proof.
  intros Hs' Hb. unfold EvalScript, check. destruct (negb _); [|exact I]. cbn [mbind result_bind].
  assert (state_ok (initial_state script s)) as H0.
  { by split. }
  pose proof (wp_catch _ _ (safe_eval_loop sv (length script) _ H0 (le_n _))) as Hw.
  destruct (catch _) as [st|[]]; try done. cbn [mbind result_bind]. destruct Hw as (Hst & _ & H1 & H2).
  destruct (vfExec st); cbn [mbind result_bind]; [|exact I]. split; [apply Hst|]. cbn [pc initial_state] in *.
  split; [intros Hne; specialize (H1 Hne); lia|]. intros He. by rewrite (H2 He).
Qed.

(** A turn of the loop, and the states in which the loop is over. *)
Definition turn sv (st st' : eval_state) : Prop := pc st <> [] /\ eval_step flags sv st = Ok st'.
Definition ends sv (st : eval_state) (r : res stack_t) : Prop :=
  match pc st, vfExec st with
  | [], [] => r = Ok (stack st)
  | [], _ :: _ => r = Err (script_error SCRIPT_ERR_UNBALANCED_CONDITIONAL)
  | _ :: _, _ => exists e, eval_step flags sv st = Err e /\ r = catch (Err e)
  end.

Lemma eval_loop_turns sv n st : state_ok st -> (length (pc st) <= n)%nat ->
  exists st', rtc (turn sv) st st' /\
    match eval_loop flags sv n st with
    | Ok st1 => st1 = st' /\ pc st' = []
    | Err e => pc st' <> [] /\ eval_step flags sv st' = Err e
    end.
Proof.
  revert st. induction n as [|n IH]; intros st Hok Hlen.
  { exists st. split; [done|]. destruct (pc st) eqn:Hpc; [|cbn in Hlen; lia]. cbn. by rewrite Hpc. }
  cbn [eval_loop]. destruct (pc st) as [|x rest] eqn:Hpc; [by exists st|].
  assert (pc st <> []) as Hne by by rewrite Hpc. pose proof (safe_eval_step sv st Hok) as Hwp.
  destruct (eval_step flags sv st) as [st1|e] eqn:E; cbn [mbind result_bind]; [|by exists st].
  destruct Hwp as (Hok1 & Hlt & _). rewrite Hpc in Hlt. cbn in Hlt, Hlen. destruct (IH st1 Hok1 ltac:(lia)) as (st' & Hr & Hm).
  exists st'. split; [|done]. by apply rtc_l with st1.
Qed.

(** Without a limit that is passed, the result is that of the state at which
    the loop arrives. *)
Lemma EvalScript_runs sv s script : stack_ok s -> bytes_ok script -> Z.of_nat (length script) <= MAX_SCRIPT_SIZE ->
  exists st', rtc (turn sv) (initial_state script s) st' /\ ends sv st' (EvalScript flags sv s script).
Proof.
  intros Hs' Hb Hl. destruct (eval_loop_turns sv (length script) (initial_state script s)) as (st' & Hr & Hm); [by split|done|].
  exists st'. split; [done|]. unfold EvalScript. rewrite Z.gtb_ltb. destruct (Z.ltb_spec MAX_SCRIPT_SIZE (Z.of_nat (length script))); [lia|].
  cbn [negb check mbind result_bind]. unfold ends. destruct (eval_loop _ _ _ _) as [st1|e].
  - destruct Hm as [-> ->]. cbn [catch mbind result_bind]. by destruct (vfExec st').
  - destruct Hm as [Hne He]. destruct (pc st'); [done|]. exists e. split; [done|]. by destruct e.
Qed.

(** *** [VerifyScript]

    [wps m Q]: a value satisfying [Q], or [set_error]. *)

Definition wps {A} (m : res A) (Q : A -> Prop) : Prop :=
  match m with Ok a => Q a | Err (script_error _) => True | Err _ => False end.

Lemma wps_bind {A C} (m : res A) (f : A -> res C) Q : wps m (fun a => wps (f a) Q) -> wps (m ≫= f) Q.
Proof. by destruct m. Qed.

Lemma wps_check b e (Q : unit -> Prop) : (b = true -> Q ()) -> wps (check b (script_error e)) Q.
Proof. destruct b; cbn; auto. Qed.

Lemma wps_EvalScript sv s script (Q : stack_t -> Prop) : stack_ok s -> bytes_ok script ->
  (forall s', stack_ok s' -> Q s') -> wps (EvalScript flags sv s script) Q.
Proof.
  intros Hs' Hb HQ. pose proof (EvalScript_safe sv s script Hs' Hb) as H. unfold wps.
  destruct (EvalScript _ _ _ _) as [s'|[]]; try done. apply HQ, H.
Qed.

Lemma wps_check_top s (Q : unit -> Prop) : Q () -> wps (check_top s) Q.
Proof. intros HQ. destruct s; [exact I|]. by apply wps_check; intros. Qed.

Lemma push_data_bytes s b : bytes_ok s -> bytes_ok b -> bytes_ok (push_data s b).
Proof.
  intros Hs' Hb. unfold push_data, common.WriteLE16, common.WriteLE32.
  apply Forall_app. split; [|done]. unfold OP_PUSHDATA1, OP_PUSHDATA2, OP_PUSHDATA4.
  repeat case_match; apply Forall_app; (split; [done|]); repeat apply Forall_cons_2; try apply le_digits_ok;
    first [lia | by apply wrap_range | (unfold in_range; lia) | constructor].
Qed.

Lemma witness_program_bytes script v p : bytes_ok script -> IsWitnessProgram script = Some (v, p) -> bytes_ok p.
Proof.
  unfold IsWitnessProgram. intros Hb H. repeat case_match; try done.
  match type of H with (?m ≫= _) = _ => destruct m; [|done] end. cbn [mbind option_bind] in H. simplify_eq.
  by apply Forall_drop.
Qed.

Lemma safe_witness_program w v p : Forall (fun x => bytes_ok x) w -> bytes_ok p ->
  wps (VerifyWitnessProgram flags w v p) (fun _ => True).
Proof.
  intros Hw Hp. unfold VerifyWitnessProgram. destruct (v =? 0); [|by apply wps_check].
  apply wps_bind. unfold wps at 1.
  destruct (witness_program_v0 w p) as [[s c]|e] eqn:Hwp.
  2:{ unfold witness_program_v0, check in Hwp. repeat case_match; cbn in Hwp; by simplify_eq. }
  assert (Forall (fun x => bytes_ok x) s /\ bytes_ok c) as [Hs' Hc].
  { unfold witness_program_v0 in Hwp. repeat case_match; try done; inv_ok.
    - split; [by apply Forall_reverse, Forall_take|]. rewrite Forall_forall in Hw. apply Hw.
      by apply last_Some_elem_of.
    - split; [by apply Forall_reverse|]. apply Forall_app. split; [apply push_data_bytes|]; try done;
        repeat apply Forall_cons_2; try constructor; unfold in_range, OP_DUP, OP_HASH160, OP_EQUALVERIFY, OP_CHECKSIG; lia. }
  apply wps_bind, wps_check. intros Hsz. apply wps_bind, wps_EvalScript; [|done|].
  { rewrite forallb_forall in Hsz. rewrite Forall_forall in *. intros x Hx. split; [by apply Hs'|].
    apply Z.leb_le, Hsz. by apply list_elem_of_In. }
  intros s' _. apply wps_bind, wps_check. intros _. by apply wps_check_top.
Qed.

(** A pay-to-script-hash script cannot succeed on an empty stack. *)
Lemma p2sh_empty_stack script s : IsPayToScriptHash script = true -> EvalScript flags SIGVERSION_BASE [] script <> Ok s.
Proof.
  unfold IsPayToScriptHash. rewrite !andb_true_iff, Nat.eqb_eq, !Z.eqb_eq. intros [[[Hlen H0] _] _].
  destruct script as [|x rest]; [done|]. cbn in H0. subst x. unfold EvalScript. rewrite Hlen. cbn [length].
  change (negb (Z.of_nat 23 >? MAX_SCRIPT_SIZE)) with true. cbn [check mbind result_bind].
  assert (eval_loop flags SIGVERSION_BASE 23 (initial_state (OP_HASH160 :: rest) []) =
    Err (script_error SCRIPT_ERR_INVALID_STACK_OPERATION)) as -> by reflexivity. done.
Qed.

Lemma safe_bare_witness a b w s : Forall (fun x => bytes_ok x) w -> bytes_ok b -> stack_ok s ->
  wps (verify_bare_witness flags a b w s) (fun r => stack_ok r.2).
Proof.
  intros Hw Hb Hs'. unfold verify_bare_witness. destruct (has flags SCRIPT_VERIFY_WITNESS); [|done].
  destruct (IsWitnessProgram b) as [[v p]|] eqn:Hp; [|done].
  apply wps_bind, wps_check. intros _. apply wps_bind.
  pose proof (safe_witness_program w v p Hw (witness_program_bytes _ _ _ Hb Hp)) as Hsafe.
  destruct (VerifyWitnessProgram _ _ _ _) as [|[]]; try done. cbn. constructor; [|done].
  destruct s as [|x s _] using rev_ind; [apply elem_ok_small; [done|cbn; lia]|].
  rewrite last_snoc. apply Forall_app in Hs' as [_ Hx]. by apply Forall_cons_1 in Hx as [Hx _].
Qed.

Lemma safe_p2sh a b w h s c : Forall (fun x => bytes_ok x) w -> stack_ok c -> 
  (has flags SCRIPT_VERIFY_P2SH = true -> IsPayToScriptHash b = true -> c <> []) ->
  wps (verify_p2sh flags a b w h s c) (fun _ => True).
Proof.
  intros Hw Hc Hne. unfold verify_p2sh.
  destruct (has flags SCRIPT_VERIFY_P2SH); cbn [andb]; [|done]. destruct (IsPayToScriptHash b); [|done].
  specialize (Hne eq_refl eq_refl). apply wps_bind, wps_check. intros _.
  destruct c as [|k c]; [done|]. apply Forall_cons in Hc as [[Hk _] Hc].
  apply wps_bind, wps_EvalScript; [done..|]. intros s' _. apply wps_bind, wps_check_top.
  destruct (has flags SCRIPT_VERIFY_WITNESS); [|done].
  destruct (IsWitnessProgram k) as [[v p]|] eqn:Hp; [|done].
  apply wps_bind, wps_check. intros _. apply wps_bind.
  pose proof (safe_witness_program w v p Hw (witness_program_bytes _ _ _ Hk Hp)) as Hsafe.
  by destruct (VerifyWitnessProgram _ _ _ _) as [|[]].
Qed.

(** What is left of [wps] when the flags need not fit together: an assertion
    can fail, but only if they do not. *)
Definition decides {A} (m : res A) : Prop :=
  match m with
  | Ok _ | Err (script_error _) => True
  | Err assertion_failed => ~ softfork_facts.flags_ok flags
  | Err _ => False
  end.

Lemma verdict_bind {A C} (m : res A) (f : A -> res C) Q : wps m Q -> (forall a, Q a -> decides (f a)) -> decides (m ≫= f).
Proof. destruct m as [a|[]]; cbn; auto; done. Qed.

Lemma decides_flags hadWitness (witness : CScriptWitness) (stack : stack_t) :
  decides ((if has flags SCRIPT_VERIFY_CLEANSTACK then
     check (has flags SCRIPT_VERIFY_P2SH) assertion_failed;;
     check (has flags SCRIPT_VERIFY_WITNESS) assertion_failed;;
     check (length stack =? 1)%nat (script_error SCRIPT_ERR_CLEANSTACK)
   else Ok ());;
  (if has flags SCRIPT_VERIFY_WITNESS then
     check (has flags SCRIPT_VERIFY_P2SH) assertion_failed;;
     check (negb (negb hadWitness && negb (length witness =? 0)%nat)) (script_error SCRIPT_ERR_WITNESS_UNEXPECTED)
   else Ok ())).
Proof.
  unfold decides, softfork_facts.flags_ok.
  destruct (has flags SCRIPT_VERIFY_CLEANSTACK), (has flags SCRIPT_VERIFY_P2SH), (has flags SCRIPT_VERIFY_WITNESS);
    cbn [check mbind result_bind]; try (destruct (_ =? 1)%nat; cbn [check mbind result_bind]); try done;
    try (destruct (negb _); cbn [check]; done); intros [? ?]; intuition congruence.
Qed.

Lemma VerifyScript_decides a b w : bytes_ok a -> bytes_ok b -> Forall (fun x => bytes_ok x) (default [] w) ->
  decides (VerifyScript flags a b w).
Proof.
  intros Ha Hb Hw. unfold VerifyScript.
  apply (verdict_bind _ _ (fun _ => True)); [by apply wps_check|]. intros _ _.
  apply (verdict_bind _ _ stack_ok); [by apply wps_EvalScript; [constructor|..]|]. intros s1 H1.
  pose proof (EvalScript_safe SIGVERSION_BASE s1 b H1 Hb) as H2.
  apply (verdict_bind _ _ (fun s2 => stack_ok s2 /\ EvalScript flags SIGVERSION_BASE s1 b = Ok s2)).
  { destruct (EvalScript flags SIGVERSION_BASE s1 b) as [s2|[]]; try done. by destruct H2. }
  clear H2. intros s2 [H2 He]. apply (verdict_bind _ _ (fun _ => True)); [by apply wps_check_top|]. intros _ _.
  apply (verdict_bind _ _ (fun r => stack_ok r.2)); [by apply safe_bare_witness|]. intros [h3 s3] _.
  apply (verdict_bind _ _ (fun _ => True)); [|intros [h4 s4] _; apply decides_flags].
  apply safe_p2sh; [done|case_match; [done|constructor]|]. intros -> Hp Hnil. subst s1. by apply (p2sh_empty_stack b s2 Hp).
Qed.
End safe.
End safety_facts.

(** ** What the opcodes compute *)

Module opcode_facts.

(** The effect of the stack opcodes, as the comments of the code give it:
    the top of the stack comes first. *)
Definition stack_effect (op : Z) (s : stack_t) : option stack_t :=
  if op =? OP_2DROP then match s with _ :: _ :: s => Some s | _ => None end
  else if op =? OP_2DUP then match s with x2 :: x1 :: s => Some (x2 :: x1 :: x2 :: x1 :: s) | _ => None end
  else if op =? OP_3DUP then
    match s with x3 :: x2 :: x1 :: s => Some (x3 :: x2 :: x1 :: x3 :: x2 :: x1 :: s) | _ => None end
  else if op =? OP_2OVER then
    match s with x4 :: x3 :: x2 :: x1 :: s => Some (x2 :: x1 :: x4 :: x3 :: x2 :: x1 :: s) | _ => None end
  else if op =? OP_2ROT then
    match s with
    | x6 :: x5 :: x4 :: x3 :: x2 :: x1 :: s => Some (x2 :: x1 :: x6 :: x5 :: x4 :: x3 :: s)
    | _ => None
    end
  else if op =? OP_2SWAP then
    match s with x4 :: x3 :: x2 :: x1 :: s => Some (x2 :: x1 :: x4 :: x3 :: s) | _ => None end
  else if op =? OP_IFDUP then
    match s with x :: s => Some (if CastToBool x then x :: x :: s else x :: s) | _ => None end
  else if op =? OP_DEPTH then Some (CScriptNum.serialize (Z.of_nat (length s)) :: s)
  else if op =? OP_DROP then match s with _ :: s => Some s | _ => None end
  else if op =? OP_DUP then match s with x :: s => Some (x :: x :: s) | _ => None end
  else if op =? OP_NIP then match s with x2 :: _ :: s => Some (x2 :: s) | _ => None end
  else if op =? OP_OVER then match s with x2 :: x1 :: s => Some (x1 :: x2 :: x1 :: s) | _ => None end
  else if op =? OP_ROT then match s with x3 :: x2 :: x1 :: s => Some (x1 :: x3 :: x2 :: s) | _ => None end
  else if op =? OP_SWAP then match s with x2 :: x1 :: s => Some (x1 :: x2 :: s) | _ => None end
  else if op =? OP_TUCK then match s with x2 :: x1 :: s => Some (x2 :: x1 :: x2 :: s) | _ => None end
  else if op =? OP_SIZE then
    match s with x :: s => Some (CScriptNum.serialize (Z.of_nat (length x)) :: x :: s) | _ => None end
  else if op =? OP_EQUAL then
    match s with x2 :: x1 :: s => Some ((if decide (x1 = x2) then [1] else []) :: s) | _ => None end
  else None.

Definition table_ops : list Z :=
  [OP_2DROP; OP_2DUP; OP_3DUP; OP_2OVER; OP_2ROT; OP_2SWAP; OP_IFDUP; OP_DEPTH; OP_DROP; OP_DUP; OP_NIP; OP_OVER;
   OP_ROT; OP_SWAP; OP_TUCK; OP_SIZE; OP_EQUAL].

Section opcodes.
Context `{B : BaseSignatureChecker} `{Hs : HashFunctions} (flags : Z).

Lemma stack_effect_spec op s : In op table_ops ->
  exec_stack_op flags op s =
    Some (match stack_effect op s with
          | Some s' => Ok s'
          | None => Err (script_error SCRIPT_ERR_INVALID_STACK_OPERATION)
          end).
Proof.
  intros Hin. cbn [table_ops In] in Hin.
  repeat (destruct Hin as [<-|Hin];
    [try (do 6 (destruct s as [|? s]; [reflexivity|]); reflexivity)|]); [|done].
  destruct s as [|x2 [|x1 s]]; try reflexivity.
  change (exec_stack_op flags OP_EQUAL (x2 :: x1 :: s)) with (Some (@Ok failure _ (bool_vch (bool_decide (x1 = x2)) :: s))).
  change (stack_effect OP_EQUAL (x2 :: x1 :: s)) with (Some ((if decide (x1 = x2) then [1] else []) :: s)).
  case_bool_decide; case_decide; done.
Qed.

(** Exact results of the numeric opcodes. *)
Definition unary_spec (op a : Z) : option Z :=
  if op =? OP_1ADD then Some (a + 1) else if op =? OP_1SUB then Some (a - 1)
  else if op =? OP_NEGATE then Some (- a) else if op =? OP_ABS then Some (Z.abs a)
  else if op =? OP_NOT then Some (if decide (a = 0) then 1 else 0)
  else if op =? OP_0NOTEQUAL then Some (if decide (a = 0) then 0 else 1) else None.

Definition binary_spec (op a b : Z) : option Z :=
  let truth (p : bool) := Some (if p then 1 else 0) in
  if op =? OP_ADD then Some (a + b) else if op =? OP_SUB then Some (a - b)
  else if op =? OP_BOOLAND then truth (bool_decide (a <> 0 /\ b <> 0))
  else if op =? OP_BOOLOR then truth (bool_decide (a <> 0 \/ b <> 0))
  else if op =? OP_NUMEQUAL then truth (bool_decide (a = b))
  else if op =? OP_NUMNOTEQUAL then truth (bool_decide (a <> b))
  else if op =? OP_LESSTHAN then truth (bool_decide (a < b))
  else if op =? OP_GREATERTHAN then truth (bool_decide (a > b))
  else if op =? OP_LESSTHANOREQUAL then truth (bool_decide (a <= b))
  else if op =? OP_GREATERTHANOREQUAL then truth (bool_decide (a >= b))
  else if op =? OP_MIN then Some (Z.min a b) else if op =? OP_MAX then Some (Z.max a b) else None.

Lemma unary_exact op a r : Z.abs a < 2 ^ 31 -> unary_spec op a = Some r -> unary op a = Ok r /\ Z.abs r <= 2 ^ 31.
Proof.
  intros Ha Hr. unfold unary_spec, unary in *.
  unfold CScriptNum.add_assign, CScriptNum.sub_assign, CScriptNum.neg, CScriptNum.int64_min, CScriptNum.int64_max.
  destruct (op =? OP_1ADD); [simplify_eq; rewrite (proj2 (Z.leb_le a _)) by lia; split; [done|lia]|].
  destruct (op =? OP_1SUB); [simplify_eq; rewrite Z.geb_leb, (proj2 (Z.leb_le _ a)) by lia; split; [done|lia]|].
  destruct (op =? OP_NEGATE); [simplify_eq; rewrite (proj2 (Z.eqb_neq _ _)) by lia; split; [done|lia]|].
  destruct (op =? OP_ABS).
  { simplify_eq. split; [|lia]. destruct (Z.ltb_spec a 0); [rewrite (proj2 (Z.eqb_neq _ _)) by lia|];
      cbn; f_equal; lia. }
  destruct (op =? OP_NOT); [|destruct (op =? OP_0NOTEQUAL); [|done]]; simplify_eq;
    case_decide; subst; (split; [|lia]); rewrite ?(proj2 (Z.eqb_neq _ _)) by done; done.
Qed.

Lemma binary_exact op a b r : Z.abs a < 2 ^ 31 -> Z.abs b < 2 ^ 31 -> binary_spec op a b = Some r ->
  binary op a b = Ok r /\ Z.abs r < 2 ^ 32 /\ op <> OP_NUMEQUALVERIFY.
Proof.
  intros Ha Hb Hr. unfold binary_spec, binary, CScriptNum.add, CScriptNum.sub in *.
  destruct (decide (op = OP_NUMEQUALVERIFY)) as [->|Hne]; [done|].
  enough (binary op a b = Ok r /\ Z.abs r < 2 ^ 32) as [? ?] by done.
  unfold binary, CScriptNum.add, CScriptNum.sub.
  destruct (op =? OP_ADD); [simplify_eq; rewrite swrap_small by lia; split; [done|lia]|].
  destruct (op =? OP_SUB); [simplify_eq; rewrite swrap_small by lia; split; [done|lia]|].
  rewrite (proj2 (Z.eqb_neq op OP_NUMEQUALVERIFY)) by done.
  repeat match goal with H : (if op =? ?k then _ else _) = Some _ |- _ => destruct (op =? k) end;
    simplify_eq; (split; [f_equal|repeat case_match; lia]).
  all: try (symmetry; case_bool_decide).
  all: repeat match goal with |- context [?x =? ?y] => destruct (Z.eqb_spec x y)
       | |- context [?x <? ?y] => destruct (Z.ltb_spec x y) | |- context [?x <=? ?y] => destruct (Z.leb_spec x y)
       | |- context [?x >? ?y] => rewrite (Z.gtb_ltb x y) | |- context [?x >=? ?y] => rewrite (Z.geb_leb x y) end;
    cbn; lia.
Qed.

(** *** Multiple signatures

    [matching ok sigs keys]: the signatures are valid for some of the keys,
    in the order of the keys. *)
Inductive matching (ok : valtype -> valtype -> bool) : list valtype -> list valtype -> Prop :=
  | matching_nil keys : matching ok [] keys
  | matching_take s k sigs keys : ok s k = true -> matching ok sigs keys -> matching ok (s :: sigs) (k :: keys)
  | matching_skip k sigs keys : matching ok sigs keys -> matching ok sigs (k :: keys).

Lemma matching_length ok sigs keys : matching ok sigs keys -> (length sigs <= length keys)%nat.
Proof. induction 1; cbn; lia. Qed.

Lemma matching_tail ok s sigs keys : matching ok (s :: sigs) keys -> matching ok sigs keys.
Proof.
  intros H. remember (s :: sigs) as l eqn:Hl. induction H as [|x k l keys Hx Hm _|k l keys _ IH]; simplify_eq.
  - by apply matching_skip.
  - apply matching_skip. by apply IH.
Qed.

(** Using the first key that fits is never a mistake. *)
Lemma matching_greedy ok s k sigs keys : ok s k = true ->
  matching ok (s :: sigs) (k :: keys) <-> matching ok sigs keys.
Proof.
  intros Hok. split; [|by apply matching_take]. inversion 1; subst; [done|by eapply matching_tail].
Qed.

Lemma matching_fail ok s k sigs keys : ok s k = false ->
  matching ok (s :: sigs) (k :: keys) <-> matching ok (s :: sigs) keys.
Proof. intros Hok. split; [|by apply matching_skip]. inversion 1; subst; [congruence|done]. Qed.

(** The elements of [l] lie in the stack from position [i] on. *)
Definition at_stack (s : stack_t) (i : nat) (l : list valtype) : Prop :=
  forall j x, l !! j = Some x -> stacktop s (i + j) = Ok x.

Lemma at_stack_cons s i x l : at_stack s i (x :: l) -> stacktop s i = Ok x /\ at_stack s (S i) l.
Proof.
  intros H. split; [rewrite <- (Nat.add_0_r i); by apply H|]. intros j y Hy.
  replace (S i + j)%nat with (i + S j)%nat by lia. by apply H.
Qed.

Lemma at_stack_app pre l post : at_stack (pre ++ l ++ post) (S (length pre)) l.
Proof.
  intros j x Hx. unfold stacktop. replace (S (length pre) + j - 1)%nat with (length pre + j)%nat by lia.
  rewrite lookup_app_r, Nat.add_comm, Nat.add_sub by lia. by rewrite (lookup_app_l_Some l post j x Hx).
Qed.

Lemma drop_signatures_spec sv n k i s sigs code : at_stack s (i + k) sigs -> length sigs = n ->
  drop_signatures sv n k i s code = Ok (fold_left (drop_signature sv) sigs code).
Proof.
  revert k sigs code. induction n as [|n IH]; intros k sigs code Hat Hlen.
  { by destruct sigs. }
  destruct sigs as [|x sigs]; [done|]. apply at_stack_cons in Hat as [Hx Hat]. cbn [drop_signatures].
  rewrite Hx. cbn [mbind result_bind fold_left]. apply IH; [|by injection Hlen].
  by rewrite Nat.add_succ_r.
Qed.

Section multisig.
Context (sv : SigVersion) (ok : valtype -> valtype -> bool).

Lemma multisig_loop_spec n m s code isig ikey sigs keys :
  (forall sig key, CheckSig sig key code sv = Ok (ok sig key)) ->
  Forall (fun x => CheckSignatureEncoding x flags = Ok ()) sigs ->
  Forall (fun x => CheckPubKeyEncoding x flags sv = Ok ()) keys ->
  at_stack s isig sigs -> at_stack s ikey keys -> length sigs = m -> length keys = n -> (m <= n)%nat ->
  exists b, multisig_loop flags sv n s code isig ikey m = Ok b /\ (b = true <-> matching ok sigs keys).
Proof.
  intros Hcheck. revert m isig ikey sigs keys.
  induction n as [|n IH]; intros m isig ikey sigs keys Hse Hke Hsig Hkey Hm Hn Hle.
  { assert (m = 0%nat) as -> by lia. destruct sigs; [|done]. exists true. split; [done|]. split; [constructor|done]. }
  destruct sigs as [|x sigs]; cbn in Hm; subst m.
  { exists true. split; [done|]. split; [constructor|done]. }
  destruct keys as [|k keys]; cbn in Hn; [lia|]. injection Hn as Hn.
  apply at_stack_cons in Hsig as Hsig'. apply at_stack_cons in Hkey as Hkey'.
  destruct Hsig' as [Hx Hsig'], Hkey' as [Hk Hkey'].
  apply Forall_cons in Hse as Hse'. apply Forall_cons in Hke as Hke'.
  destruct Hse' as [Hxe Hse'], Hke' as [Hk' Hke'].
  cbn [multisig_loop]. rewrite Hx, Hk. cbn [mbind result_bind]. rewrite Hxe. cbn [mbind result_bind].
  rewrite Hk'. cbn [mbind result_bind]. rewrite Hcheck. cbn [mbind result_bind].
  destruct (ok x k) eqn:Hok.
  - rewrite (proj2 (Nat.ltb_ge _ _)) by lia.
    destruct (IH (length sigs) (S isig) (S ikey) sigs keys) as (b & H1 & H2); [done..|lia|].
    exists b. split; [done|]. by rewrite matching_greedy.
  - destruct (Nat.ltb_spec n (S (length sigs))) as [Hlt|Hge].
    + exists false. split; [done|]. split; [done|]. rewrite matching_fail by done.
      intros Hm%matching_length. cbn in Hm. lia.
    + destruct (IH (S (length sigs)) isig (S ikey) (x :: sigs) keys) as (b & H1 & H2); [done..|].
      exists b. split; [done|]. by rewrite matching_fail.
Qed.

Lemma cleanup_loop_spec n b k s : (b = true \/ has flags SCRIPT_VERIFY_NULLFAIL = false) ->
  (n <= length s)%nat -> cleanup_loop flags n b k s = Ok (drop n s).
Proof.
  intros Hb. revert k s. induction n as [|n IH]; intros k s Hn; [done|]. cbn [cleanup_loop].
  assert (negb b && has flags SCRIPT_VERIFY_NULLFAIL = false) as -> by (destruct Hb as [->| ->]; [done|by rewrite andb_false_r]).
  destruct s as [|x s]; [cbn in Hn; lia|]. cbn [andb mbind result_bind popstack drop]. apply IH. cbn in Hn. lia.
Qed.

Lemma checkmultisig_spec op h vn vm keys sigs dummy rest nops :
  script_num vn (fRequireMinimal flags) 4 = Ok (Z.of_nat (length keys)) ->
  script_num vm (fRequireMinimal flags) 4 = Ok (Z.of_nat (length sigs)) ->
  Z.of_nat (length keys) <= MAX_PUBKEYS_PER_MULTISIG -> (length sigs <= length keys)%nat ->
  nops + Z.of_nat (length keys) <= MAX_OPS_PER_SCRIPT ->
  (forall sig key, CheckSig sig key (fold_left (drop_signature sv) sigs h) sv = Ok (ok sig key)) ->
  Forall (fun x => CheckSignatureEncoding x flags = Ok ()) sigs ->
  Forall (fun x => CheckPubKeyEncoding x flags sv = Ok ()) keys ->
  has flags SCRIPT_VERIFY_NULLFAIL = false -> (has flags SCRIPT_VERIFY_NULLDUMMY = true -> dummy = []) ->
  op <> OP_CHECKMULTISIGVERIFY ->
  exists b, (b = true <-> matching ok sigs keys) /\
    op_checkmultisig flags sv op h (vn :: keys ++ vm :: sigs ++ dummy :: rest) nops =
      Ok (bool_vch b :: rest, nops + Z.of_nat (length keys)).
Proof.
  intros Hvn Hvm Hkeys Hsigs Hops Hcheck Hse Hke Hnf Hnd Hop.
  set (s := vn :: keys ++ vm :: sigs ++ dummy :: rest).
  assert (length s = (length keys + length sigs + length rest + 3)%nat) as Hlen.
  { unfold s. cbn [length]. rewrite !length_app. cbn [length]. rewrite length_app. cbn [length]. lia. }
  assert (at_stack s 2 keys) as Hk by exact (at_stack_app [vn] keys _).
  assert (at_stack s (2 + length keys) [vm]) as Hm.
  { exact (at_stack_app (vn :: keys) [vm] (sigs ++ dummy :: rest)). }
  assert (at_stack s (S (2 + length keys)) sigs) as Hg.
  { pose proof (at_stack_app (vn :: keys ++ [vm]) sigs (dummy :: rest)) as H.
    cbn [app] in H. rewrite <- app_assoc in H. cbn [app length] in H. rewrite length_app in H. cbn [length] in H.
    by rewrite Nat.add_1_r in H. }
  assert (drop (2 + length keys + length sigs) s = dummy :: rest) as Hdrop.
  { change (drop (1 + length keys + length sigs) (keys ++ vm :: sigs ++ dummy :: rest) = dummy :: rest).
    rewrite drop_app_ge by lia.
    replace (1 + length keys + length sigs - length keys)%nat with (S (length sigs)) by lia.
    cbn [drop]. apply drop_app_length. }
  destruct (multisig_loop_spec (length keys) (length sigs) s (fold_left (drop_signature sv) sigs h)
    (S (2 + length keys)) 2 sigs keys) as (b & Hb & Hmatch); [done..|].
  exists b. split; [done|]. unfold op_checkmultisig, need_stack, need.
  change CScriptNum.nDefaultMaxNumSize with 4. rewrite Hlen.
  rewrite (proj2 (Nat.leb_le 1 _)) by lia. cbn [check mbind result_bind].
  change (stacktop s 1) with (@Ok failure _ vn). cbn [mbind result_bind]. rewrite Hvn. cbn [mbind result_bind].
  unfold MAX_PUBKEYS_PER_MULTISIG, MAX_OPS_PER_SCRIPT in *.
  rewrite (safety_facts.getint_small (Z.of_nat (length keys))) by lia.
  rewrite !Z.gtb_ltb, (proj2 (Z.ltb_ge (Z.of_nat (length keys)) 0)) by lia.
  rewrite (proj2 (Z.ltb_ge 20 _)), (proj2 (Z.ltb_ge 201 _)) by lia. cbn [orb negb check mbind result_bind].
  rewrite Nat2Z.id, (proj2 (Nat.leb_le (2 + length keys) _)) by lia. cbn [check mbind result_bind].
  apply at_stack_cons in Hm as [Hm _]. rewrite Hm. cbn [mbind result_bind]. rewrite Hvm. cbn [mbind result_bind].
  rewrite (safety_facts.getint_small (Z.of_nat (length sigs))) by lia.
  rewrite !Z.gtb_ltb, (proj2 (Z.ltb_ge (Z.of_nat (length sigs)) 0)) by lia.
  rewrite (proj2 (Z.ltb_ge _ (Z.of_nat (length sigs)))) by lia. cbn [orb negb check mbind result_bind].
  rewrite Nat2Z.id, (proj2 (Nat.leb_le (S (2 + length keys) + length sigs) _)) by lia. cbn [check mbind result_bind].
  rewrite (drop_signatures_spec sv (length sigs) 0 _ s sigs) by (first [done | by replace (S (2 + length keys) + 0)%nat with (S (2 + length keys)) by lia]).
  cbn [mbind result_bind]. rewrite Hb. cbn [mbind result_bind].
  rewrite cleanup_loop_spec by (first [by right | lia]). cbn [mbind result_bind].
  replace (S (2 + length keys) + length sigs - 1)%nat with (2 + length keys + length sigs)%nat by lia.
  rewrite Hdrop. cbn [length Nat.leb check mbind result_bind].
  change (stacktop (dummy :: rest) 1) with (@Ok failure _ dummy). cbn [mbind result_bind].
  assert (negb (has flags SCRIPT_VERIFY_NULLDUMMY && (0 <? length dummy)%nat) = true) as ->.
  { destruct (has flags SCRIPT_VERIFY_NULLDUMMY); [by rewrite (Hnd eq_refl)|done]. }
  cbn [check mbind result_bind popstack]. by rewrite (proj2 (Z.eqb_neq _ _) Hop).
Qed.
End multisig.

Definition unary_ops : list Z := [OP_1ADD; OP_1SUB; OP_NEGATE; OP_ABS; OP_NOT; OP_0NOTEQUAL].
Definition binary_ops : list Z :=
  [OP_ADD; OP_SUB; OP_BOOLAND; OP_BOOLOR; OP_NUMEQUAL; OP_NUMNOTEQUAL; OP_LESSTHAN; OP_GREATERTHAN;
   OP_LESSTHANOREQUAL; OP_GREATERTHANOREQUAL; OP_MIN; OP_MAX].

Lemma unary_spec_op op a r : unary_spec op a = Some r -> In op unary_ops.
Proof.
  unfold unary_spec. intros H.
  repeat match type of H with (if op =? ?k then _ else _) = _ => destruct (Z.eqb_spec op k) as [->|]; [by cbn; auto 20|] end.
  done.
Qed.

Lemma binary_spec_op op a b r : binary_spec op a b = Some r -> In op binary_ops.
Proof.
  unfold binary_spec. intros H.
  repeat match type of H with (if op =? ?k then _ else _) = _ => destruct (Z.eqb_spec op k) as [->|]; [by cbn; auto 20|] end.
  done.
Qed.

Lemma exec_unary op s : In op unary_ops -> exec_stack_op flags op s = Some (op_unary flags op s).
Proof. intros Hin. cbn [unary_ops In] in Hin. by repeat (destruct Hin as [<-|Hin]; [reflexivity|]). Qed.

Lemma exec_binary op s : In op binary_ops -> exec_stack_op flags op s = Some (op_binary flags op s).
Proof. intros Hin. cbn [binary_ops In] in Hin. by repeat (destruct Hin as [<-|Hin]; [reflexivity|]). Qed.

Lemma script_num_Some v r n a : CScriptNum.of_vch v r n = Some a -> script_num v r n = Ok a.
Proof. unfold script_num. by intros ->. Qed.

Lemma op_unary_exact op v a r s : bytes_ok v ->
  CScriptNum.of_vch v (fRequireMinimal flags) CScriptNum.nDefaultMaxNumSize = Some a -> unary_spec op a = Some r ->
  op_unary flags op (v :: s) = Ok (CScriptNum.getvch r :: s) /\ Z.abs r <= 2 ^ 31.
Proof.
  intros Hv Ha Hr. pose proof (scriptnum_facts.of_vch_range v _ 4 a Hv ltac:(lia) Ha) as Hra.
  destruct (unary_exact op a r Hra Hr) as [Hu Hb]. split; [|done]. unfold op_unary, need_stack, need.
  cbn [length Nat.leb check mbind result_bind]. change (stacktop (v :: s) 1) with (@Ok failure _ v).
  cbn [mbind result_bind]. rewrite (script_num_Some _ _ _ _ Ha). cbn [mbind result_bind]. rewrite Hu. done.
Qed.

Lemma op_binary_exact op v1 v2 a b r s : bytes_ok v1 -> bytes_ok v2 ->
  CScriptNum.of_vch v1 (fRequireMinimal flags) CScriptNum.nDefaultMaxNumSize = Some a ->
  CScriptNum.of_vch v2 (fRequireMinimal flags) CScriptNum.nDefaultMaxNumSize = Some b ->
  binary_spec op a b = Some r ->
  op_binary flags op (v2 :: v1 :: s) = Ok (CScriptNum.getvch r :: s) /\ Z.abs r < 2 ^ 32.
Proof.
  intros Hv1 Hv2 Ha Hb Hr. pose proof (scriptnum_facts.of_vch_range v1 _ 4 a Hv1 ltac:(lia) Ha) as Hra.
  pose proof (scriptnum_facts.of_vch_range v2 _ 4 b Hv2 ltac:(lia) Hb) as Hrb.
  destruct (binary_exact op a b r Hra Hrb Hr) as (Hu & Hbound & Hne). split; [|done].
  unfold op_binary, need_stack, need. cbn [length Nat.leb check mbind result_bind].
  change (stacktop (v2 :: v1 :: s) 2) with (@Ok failure _ v1). cbn [mbind result_bind].
  rewrite (script_num_Some _ _ _ _ Ha). cbn [mbind result_bind].
  change (stacktop (v2 :: v1 :: s) 1) with (@Ok failure _ v2). cbn [mbind result_bind].
  rewrite (script_num_Some _ _ _ _ Hb). cbn [mbind result_bind]. rewrite Hu. cbn [mbind result_bind popstack].
  by rewrite (proj2 (Z.eqb_neq _ _) Hne).
Qed.

Lemma getvch_readable r : Z.abs r < 2 ^ 39 -> CScriptNum.of_vch (CScriptNum.getvch r) true 5 = Some r.
Proof.
  intros Hr. destruct (scriptnum_facts.serialize_spec r) as (Hb & Hval & Hmin); [lia|].
  pose proof (scriptnum_facts.serialize_length r 5 ltac:(lia) ltac:(lia) Hr). unfold CScriptNum.of_vch, CScriptNum.getvch.
  rewrite Z.gtb_ltb, (proj2 (Z.ltb_ge _ _)), Hmin by lia. cbn [negb andb].
  by rewrite scriptnum_facts.set_vch_spec, Hval by (first [done | lia]).
Qed.
End opcodes.
End opcode_facts.

(** ** Concrete hash functions and a concrete checker for the witnesses *)

Module interpreter_example.
#[export] Instance hashes : HashFunctions := {|
  CRIPEMD160 m := le_digits 8 20 (le_val 8 m);
  CSHA1 m := le_digits 8 20 (le_val 8 m);
  CSHA3_256 m := le_digits 8 32 (le_val 8 m) |}.

#[export] Instance hash_laws : HashLaws hashes.
Proof. split; intros m; first [apply length_le_digits | apply le_digits_ok; lia]. Defined.

(** A signature is valid for the key it repeats. *)
#[export] Instance checker : BaseSignatureChecker := {|
  CheckSig sig key _ _ := Ok (bool_decide (sig = key));
  CheckLockTime n := Ok (n <=? 100);
  CheckSequence n := Ok (n <=? 100) |}.

#[export] Instance checker_laws : safety_facts.SignatureCheckerLaws.
Proof. split; intros; eexists; reflexivity. Defined.
End interpreter_example.

(** ** Properties *)

(** C5: script verification flags are soft forks: whatever [EvalScript] or
    [VerifyScript] accepts under a set of flags, it accepts under every
    subset of them, and [EvalScript] leaves the same stack; for
    [VerifyScript] the smaller set has to satisfy the assertions that
    CLEANSTACK needs WITNESS and WITNESS needs P2SH. *)
Theorem script_flags_soft_fork `{B : BaseSignatureChecker} `{Hs : HashFunctions} (f g : Z) :
  softfork_facts.subflags f g ->
  (forall sv stack script stack', EvalScript g sv stack script = Ok stack' -> EvalScript f sv stack script = Ok stack') /\
  (softfork_facts.flags_ok f -> forall scriptSig scriptPubKey witness,
     VerifyScript g scriptSig scriptPubKey witness = Ok () -> VerifyScript f scriptSig scriptPubKey witness = Ok ()).
Proof.
  intros Hfg. split.
  - intros sv stack script. by apply softfork_facts.weaker_EvalScript.
  - intros Hf a b w. by apply softfork_facts.weaker_VerifyScript.
Qed.

Lemma script_flags_soft_fork_witness :
  EvalScript (B := interpreter_example.checker) (Hs := interpreter_example.hashes) SCRIPT_VERIFY_P2SH SIGVERSION_BASE []
    [OP_2; OP_3; OP_ADD; OP_CHECKLOCKTIMEVERIFY] = Ok [[5]].
Proof.
  apply (proj1 (script_flags_soft_fork (B := interpreter_example.checker) (Hs := interpreter_example.hashes)
    SCRIPT_VERIFY_P2SH (Z.lor SCRIPT_VERIFY_P2SH SCRIPT_VERIFY_CHECKLOCKTIMEVERIFY) eq_refl) SIGVERSION_BASE).
  vm_compute. reflexivity.
Defined.

(** C6: [VerifyScript] always decides: on any byte strings, and with flags
    that fit together (CLEANSTACK only with WITNESS, WITNESS only with P2SH), it
    succeeds or reports a script error; it never throws, indexes or pops outside
    a stack, or fails an assertion, in particular not the one that the stack of
    a pay-to-script-hash spend is not empty.  With other flags the only
    difference is that one of the assertions about them at the end of
    [VerifyScript] can fail. *)
Theorem VerifyScript_safe `{B : BaseSignatureChecker} `{Hs : HashFunctions} {HL : HashLaws Hs}
    {CL : safety_facts.SignatureCheckerLaws} (flags : Z) (scriptSig scriptPubKey : bytes) (witness : option CScriptWitness) :
  bytes_ok scriptSig -> bytes_ok scriptPubKey -> Forall (fun x => bytes_ok x) (default [] witness) ->
  (softfork_facts.flags_ok flags ->
     VerifyScript flags scriptSig scriptPubKey witness = Ok () \/
     exists e, VerifyScript flags scriptSig scriptPubKey witness = Err (script_error e)) /\
  (VerifyScript flags scriptSig scriptPubKey witness = Ok () \/
   (exists e, VerifyScript flags scriptSig scriptPubKey witness = Err (script_error e)) \/
   VerifyScript flags scriptSig scriptPubKey witness = Err assertion_failed /\ ~ softfork_facts.flags_ok flags).
Proof.
  intros Ha Hb Hw. pose proof (safety_facts.VerifyScript_decides flags scriptSig scriptPubKey witness Ha Hb Hw) as H.
  destruct (VerifyScript _ _ _ _) as [[]|[e| | | | |]]; cbn in H; try done; split; eauto; intros ?; by eauto.
Qed.

Lemma VerifyScript_safe_witness :
  let v := VerifyScript (B := interpreter_example.checker) (Hs := interpreter_example.hashes) SCRIPT_VERIFY_P2SH
             [OP_0] [OP_ROLL] None in
  (v = Ok () \/ exists e, v = Err (script_error e)) /\ v = Err (script_error SCRIPT_ERR_INVALID_STACK_OPERATION).
Proof.
  split; [|vm_compute; reflexivity].
  apply (VerifyScript_safe (HL := interpreter_example.hash_laws) (CL := interpreter_example.checker_laws)).
  - decided.
  - decided.
  - decided.
  - split; vm_compute; congruence.
Defined.

(** C24: From a stack of byte strings of at most 520 bytes, [EvalScript]
    always ends, with a stack or an error of scripts (the model has the length
    of the script as fuel, and running out of it is an error of its own, which
    never occurs).  A script of more than 10000 bytes is refused.  Any other is
    run turn by turn ([turn], a call of [eval_step]) until it is read to its end
    or a turn fails: the result is the stack at the end, the error that a
    conditional is left open there, or the error of the failing turn, where
    [catch] turns exceptions into the unknown error.  If it succeeds its stack
    again holds only strings of at most 520 bytes, at most 1000 of them when the
    script is not empty. *)
Theorem EvalScript_limits `{B : BaseSignatureChecker} `{Hs : HashFunctions} {HL : HashLaws Hs}
    {CL : safety_facts.SignatureCheckerLaws} (flags : Z) (sv : SigVersion) (stack0 : stack_t) (script : bytes) :
  Forall safety_facts.elem_ok stack0 -> bytes_ok script ->
  match EvalScript flags sv stack0 script with
  | Ok s => Forall safety_facts.elem_ok s /\ (script <> [] -> Z.of_nat (length s) <= MAX_STACK_SIZE) /\
            (script = [] -> s = stack0)
  | Err (script_error _) => True
  | Err _ => False
  end /\
  if Z.of_nat (length script) <=? MAX_SCRIPT_SIZE
  then exists st, rtc (safety_facts.turn flags sv) (initial_state script stack0) st /\
         safety_facts.ends flags sv st (EvalScript flags sv stack0 script)
  else EvalScript flags sv stack0 script = Err (script_error SCRIPT_ERR_SCRIPT_SIZE).
Proof.
  intros H1 H2. split; [by apply safety_facts.EvalScript_safe|]. destruct (Z.leb_spec (Z.of_nat (length script)) MAX_SCRIPT_SIZE).
  - by apply safety_facts.EvalScript_runs.
  - unfold EvalScript. rewrite Z.gtb_ltb. by destruct (Z.ltb_spec MAX_SCRIPT_SIZE (Z.of_nat (length script))); [|lia].
Qed.

Lemma EvalScript_limits_witness :
  exists s, EvalScript (B := interpreter_example.checker) (Hs := interpreter_example.hashes) 0 SIGVERSION_BASE []
    [OP_1; OP_DUP; OP_HASH160; 1; 7; OP_DEPTH] = Ok s /\ Forall safety_facts.elem_ok s.
Proof.
  pose proof (EvalScript_limits (HL := interpreter_example.hash_laws) (CL := interpreter_example.checker_laws)
    0 SIGVERSION_BASE [] [OP_1; OP_DUP; OP_HASH160; 1; 7; OP_DEPTH] (Forall_nil_2 _)) as H.
  assert (bytes_ok [OP_1; OP_DUP; OP_HASH160; 1; 7; OP_DEPTH]) as Hb
    by decided.
  specialize (H Hb). destruct (EvalScript _ _ _ _) as [s|e] eqn:He.
  - exists s. split; [reflexivity|exact (proj1 (proj1 H))].
  - exfalso. vm_compute in He. discriminate He.
Defined.

(** The index arithmetic of the stack opcodes implements the stack
    pictures of their comments, and a stack that is too short is an error. *)
Lemma stack_opcodes_correct `{B : BaseSignatureChecker} `{Hs : HashFunctions} (flags op : Z) (s : stack_t) :
  In op opcode_facts.table_ops ->
  exec_stack_op flags op s =
    Some (match opcode_facts.stack_effect op s with
          | Some s' => Ok s'
          | None => Err (script_error SCRIPT_ERR_INVALID_STACK_OPERATION)
          end).
Proof. apply opcode_facts.stack_effect_spec. Qed.

(** The numeric opcodes compute with exact integers: operands of at most
    four bytes never overflow the 64-bit arithmetic or fail its assertions,
    and every result can be read back as a number of five bytes. *)
Lemma numeric_opcodes_exact `{B : BaseSignatureChecker} `{Hs : HashFunctions} (flags : Z) (v1 v2 : valtype)
    (a b r : Z) (op : Z) (s : stack_t) :
  bytes_ok v1 -> bytes_ok v2 ->
  CScriptNum.of_vch v1 (fRequireMinimal flags) 4 = Some a ->
  CScriptNum.of_vch v2 (fRequireMinimal flags) 4 = Some b ->
  (opcode_facts.unary_spec op b = Some r ->
     exec_stack_op flags op (v2 :: s) = Some (Ok (CScriptNum.getvch r :: s)) /\
     CScriptNum.of_vch (CScriptNum.getvch r) true 5 = Some r) /\
  (opcode_facts.binary_spec op a b = Some r ->
     exec_stack_op flags op (v2 :: v1 :: s) = Some (Ok (CScriptNum.getvch r :: s)) /\
     CScriptNum.of_vch (CScriptNum.getvch r) true 5 = Some r).
Proof.
  intros Hv1 Hv2 Ha Hb. split; intros Hr.
  - rewrite opcode_facts.exec_unary by by eapply opcode_facts.unary_spec_op.
    destruct (opcode_facts.op_unary_exact flags op v2 b r s Hv2 Hb Hr) as [-> Hbound].
    split; [done|]. apply opcode_facts.getvch_readable. lia.
  - rewrite opcode_facts.exec_binary by by eapply opcode_facts.binary_spec_op.
    destruct (opcode_facts.op_binary_exact flags op v1 v2 a b r s Hv1 Hv2 Ha Hb Hr) as [-> Hbound].
    split; [done|]. apply opcode_facts.getvch_readable. lia.
Qed.

(** The opcodes that compute on the stack.  Every opcode that only moves
    elements has exactly the effect of its line in a table of stack pictures
    and fails exactly when the stack is too short.  The numeric opcodes
    compute with exact integers: operands of at most four bytes never overflow
    the 64-bit arithmetic or fail its assertions, and every result can be read
    back as a number of five bytes. *)
Theorem stack_and_numeric_opcodes_correct `{B : BaseSignatureChecker} `{Hs : HashFunctions} (flags op : Z) (s : stack_t) :
  (In op opcode_facts.table_ops ->
     exec_stack_op flags op s =
       Some (match opcode_facts.stack_effect op s with
             | Some s' => Ok s'
             | None => Err (script_error SCRIPT_ERR_INVALID_STACK_OPERATION)
             end)) /\
  (forall (v1 v2 : valtype) (a b r : Z), bytes_ok v1 -> bytes_ok v2 ->
     CScriptNum.of_vch v1 (fRequireMinimal flags) 4 = Some a ->
     CScriptNum.of_vch v2 (fRequireMinimal flags) 4 = Some b ->
     (opcode_facts.unary_spec op b = Some r ->
        exec_stack_op flags op (v2 :: s) = Some (Ok (CScriptNum.getvch r :: s)) /\
        CScriptNum.of_vch (CScriptNum.getvch r) true 5 = Some r) /\
     (opcode_facts.binary_spec op a b = Some r ->
        exec_stack_op flags op (v2 :: v1 :: s) = Some (Ok (CScriptNum.getvch r :: s)) /\
        CScriptNum.of_vch (CScriptNum.getvch r) true 5 = Some r)).
Proof. split; [apply stack_opcodes_correct|]. intros v1 v2 a b r. by apply numeric_opcodes_exact. Qed.

Lemma stack_and_numeric_opcodes_correct_witness :
  exec_stack_op (B := interpreter_example.checker) (Hs := interpreter_example.hashes) 0 OP_2ROT
    [[6]; [5]; [4]; [3]; [2]; [1]] = Some (Ok [[2]; [1]; [6]; [5]; [4]; [3]]) /\
  exec_stack_op (B := interpreter_example.checker) (Hs := interpreter_example.hashes) 0 OP_ADD
    [[0xff; 0xff; 0xff; 0x7f]; [0xff; 0xff; 0xff; 0x7f]] = Some (Ok [CScriptNum.getvch (2 ^ 32 - 2)]).
Proof.
  split.
  - apply (stack_and_numeric_opcodes_correct (B := interpreter_example.checker) (Hs := interpreter_example.hashes)). cbn. tauto.
  - refine (proj1 (proj2 (proj2 (stack_and_numeric_opcodes_correct (B := interpreter_example.checker)
      (Hs := interpreter_example.hashes) 0 OP_ADD [])
      [0xff; 0xff; 0xff; 0x7f] [0xff; 0xff; 0xff; 0x7f] (2 ^ 31 - 1) (2 ^ 31 - 1) (2 ^ 32 - 2) _ _ _ _) _)).
    + decided.
    + decided.
    + reflexivity.
    + reflexivity.
    + reflexivity.
Defined.

(** [OP_CHECKMULTISIG] decides whether the signatures are valid, in
    order, for some of the keys, although it tries each key once and stops
    early; it removes all its arguments and the extra element below them and
    charges one operation for each key. *)
Theorem checkmultisig_correct `{B : BaseSignatureChecker} `{Hs : HashFunctions} (flags : Z) (sv : SigVersion)
    (ok : valtype -> valtype -> bool) (h : bytes) (vn vm dummy : valtype) (keys sigs rest : stack_t) (nops : Z) :
  script_num vn (fRequireMinimal flags) 4 = Ok (Z.of_nat (length keys)) ->
  script_num vm (fRequireMinimal flags) 4 = Ok (Z.of_nat (length sigs)) ->
  Z.of_nat (length keys) <= MAX_PUBKEYS_PER_MULTISIG -> (length sigs <= length keys)%nat ->
  nops + Z.of_nat (length keys) <= MAX_OPS_PER_SCRIPT ->
  (forall sig key, CheckSig sig key (fold_left (drop_signature sv) sigs h) sv = Ok (ok sig key)) ->
  Forall (fun x => CheckSignatureEncoding x flags = Ok ()) sigs ->
  Forall (fun x => CheckPubKeyEncoding x flags sv = Ok ()) keys ->
  has flags SCRIPT_VERIFY_NULLFAIL = false -> (has flags SCRIPT_VERIFY_NULLDUMMY = true -> dummy = []) ->
  exists b, (b = true <-> opcode_facts.matching ok sigs keys) /\
    op_checkmultisig flags sv OP_CHECKMULTISIG h (vn :: keys ++ vm :: sigs ++ dummy :: rest) nops =
      Ok (bool_vch b :: rest, nops + Z.of_nat (length keys)).
Proof. intros. by apply opcode_facts.checkmultisig_spec. Qed.

Lemma checkmultisig_correct_witness :
  exists b, (b = true <-> opcode_facts.matching (fun s k => bool_decide (s = k)) [[8]; [9]] [[8]; [7]; [9]]) /\
    op_checkmultisig (B := interpreter_example.checker) 0 SIGVERSION_WITNESS_V0 OP_CHECKMULTISIG []
      ([3] :: [[8]; [7]; [9]] ++ [2] :: [[8]; [9]] ++ [] :: []) 0 = Ok ([bool_vch b], 3) /\ b = true.
Proof.
  destruct (checkmultisig_correct (B := interpreter_example.checker) (Hs := interpreter_example.hashes)
    0 SIGVERSION_WITNESS_V0 (fun s k => bool_decide (s = k)) [] [3] [2] [] [[8]; [7]; [9]] [[8]; [9]] [] 0)
    as (b & H1 & H2).
  - reflexivity.
  - reflexivity.
  - vm_compute. discriminate.
  - cbn. lia.
  - vm_compute. discriminate.
  - reflexivity.
  - repeat constructor.
  - repeat constructor.
  - reflexivity.
  - discriminate.
  - exists b. split; [exact H1|]. split; [exact H2|]. vm_compute in H2. destruct b; [reflexivity|discriminate H2].
Defined.
