(* ===== verification/Serialize.v ===== *)
(** * Binary serialisation ([serialize.h])

    A stream that is written is the bytes appended to it; a stream that is
    read is the bytes it still holds, and reading either returns a value with
    the bytes left or throws.  The overloads [Serialize]/[Unserialize] of a
    type are a record [codec]; what a codec promises to the types built from
    it is the class [CodecLaws]: what was written is read back whatever
    follows, and whatever is read without an exception is the one encoding of
    the value read. *)

From S2P Require Import Prelude Uint256.

Definition MAX_SIZE : Z := 0x02000000.

(** The exceptions of the readers; [no_fuel] stands for a loop that has not
    ended, and is shown never to be returned. *)
Inductive io_error :=
  | end_of_data
  | negative_size
  | non_canonical_size
  | size_too_large
  | varint_too_large
  | unknown_transaction_data
  | too_many_undo_records
  | no_fuel.

#[export] Instance io_error_eq_dec : EqDecision io_error.
Proof. solve_decision. Defined.

Abbreviation read_result A := (result io_error (A * bytes)).

(** [CDataStream::read]. *)
Definition read (nSize : Z) (s : bytes) : read_result bytes :=
  if nSize >? Z.of_nat (length s) then Err end_of_data
  else Ok (take (Z.to_nat nSize) s, drop (Z.to_nat nSize) s).

(** The words are converted to the width of the parameter and stored
    little-endian. *)
Definition ser_writedata (width : nat) (obj : Z) : bytes := le_digits 8 width obj.
Definition ser_writedata8 (obj : Z) : bytes := ser_writedata 1 obj.
Definition ser_writedata16 (obj : Z) : bytes := ser_writedata 2 obj.
Definition ser_writedata32 (obj : Z) : bytes := ser_writedata 4 obj.
Definition ser_writedata64 (obj : Z) : bytes := ser_writedata 8 obj.

Definition ser_readdata (width : nat) (s : bytes) : read_result Z :=
  '(obj, s) ← read (Z.of_nat width) s;
  Ok (le_val 8 obj, s).
Definition ser_readdata8 (s : bytes) : read_result Z := ser_readdata 1 s.
Definition ser_readdata16 (s : bytes) : read_result Z := ser_readdata 2 s.
Definition ser_readdata32 (s : bytes) : read_result Z := ser_readdata 4 s.
Definition ser_readdata64 (s : bytes) : read_result Z := ser_readdata 8 s.

(** ** Compact sizes *)

Definition USHRT_MAX : Z := 65535.
Definition UINT_MAX : Z := 4294967295.

Definition GetSizeOfCompactSize (nSize : Z) : Z :=
  if nSize <? 253 then 1
  else if nSize <=? USHRT_MAX then 1 + 2
  else if nSize <=? UINT_MAX then 1 + 4
  else 1 + 8.

Definition WriteCompactSize (nSize : Z) : bytes :=
  if nSize <? 253 then ser_writedata8 nSize
  else if nSize <=? USHRT_MAX then ser_writedata8 253 ++ ser_writedata16 nSize
  else if nSize <=? UINT_MAX then ser_writedata8 254 ++ ser_writedata32 nSize
  else ser_writedata8 255 ++ ser_writedata64 nSize.

Definition ReadCompactSize (s : bytes) : read_result Z :=
  '(chSize, s) ← ser_readdata8 s;
  '(nSizeRet, s) ←
    (if chSize <? 253 then Ok (chSize, s)
     else if chSize =? 253 then
       '(nSizeRet, s) ← ser_readdata16 s;
       if nSizeRet <? 253 then Err non_canonical_size else Ok (nSizeRet, s)
     else if chSize =? 254 then
       '(nSizeRet, s) ← ser_readdata32 s;
       if nSizeRet <? 0x10000 then Err non_canonical_size else Ok (nSizeRet, s)
     else
       '(nSizeRet, s) ← ser_readdata64 s;
       if nSizeRet <? 0x100000000 then Err non_canonical_size else Ok (nSizeRet, s));
  if nSizeRet >? MAX_SIZE then Err size_too_large else Ok (nSizeRet, s).

(** ** Variable-length integers

    [I] is an unsigned type of [w] bits, [w / 8] bytes. *)

Section varint.
Variable w : Z.

Definition max_I : Z := 2 ^ w - 1.

(** [unsigned char tmp[(sizeof(n)*8+6)/7]]. *)
Definition tmp_size : nat := Z.to_nat ((w + 6) / 7).

(** The loop that fills [tmp], from index [len]; [None] is a store beyond the
    array. *)
Fixpoint WriteVarInt_loop (room : nat) (len : nat) (n : Z) : option bytes :=
  match room with
  | O => None
  | S room =>
      let d := Z.lor (Z.land n 0x7F) (if (len =? 0)%nat then 0 else 0x80) in
      if n <=? 0x7F then Some [d]
      else ds ← WriteVarInt_loop room (S len) (Z.shiftr n 7 - 1); Some (d :: ds)
  end.

(** The digits are written from the last one stored. *)
Definition WriteVarInt (n : Z) : option bytes := reverse <$> WriteVarInt_loop tmp_size 0 n.

Fixpoint GetSizeOfVarInt_loop (fuel : nat) (n nRet : Z) : option Z :=
  match fuel with
  | O => None
  | S fuel =>
      let nRet := nRet + 1 in
      if n <=? 0x7F then Some nRet
      else GetSizeOfVarInt_loop fuel (Z.shiftr n 7 - 1) nRet
  end.
Definition GetSizeOfVarInt (n : Z) : option Z := GetSizeOfVarInt_loop tmp_size n 0.

(** Every iteration consumes a byte of the stream. *)
Fixpoint ReadVarInt_loop (s : bytes) (n : Z) : read_result Z :=
  match s with
  | [] => Err end_of_data
  | chData :: s =>
      if n >? Z.shiftr max_I 7 then Err varint_too_large
      else
        let n := Z.lor (Z.shiftl n 7) (Z.land chData 0x7F) in
        if negb (Z.land chData 0x80 =? 0) then
          if n =? max_I then Err varint_too_large else ReadVarInt_loop s (n + 1)
        else Ok (n, s)
  end.
Definition ReadVarInt (s : bytes) : read_result Z := ReadVarInt_loop s 0.
End varint.

(** ** Codecs *)

Record codec (A : Type) := { Serialize : A -> bytes; Unserialize : bytes -> read_result A }.
Arguments Serialize {A} c x.
Arguments Unserialize {A} c s.

Definition uint8_codec : codec Z := {| Serialize := ser_writedata8; Unserialize := ser_readdata8 |}.
Definition uint32_codec : codec Z := {| Serialize := ser_writedata32; Unserialize := ser_readdata32 |}.
Definition uint64_codec : codec Z := {| Serialize := ser_writedata64; Unserialize := ser_readdata64 |}.

(** The signed types convert the word read. *)
Definition int32_codec : codec Z := {|
  Serialize := ser_writedata32;
  Unserialize s := '(a, s) ← ser_readdata32 s; Ok (i32 a, s) |}.
Definition int64_codec : codec Z := {|
  Serialize := ser_writedata64;
  Unserialize s := '(a, s) ← ser_readdata64 s; Ok (i64 a, s) |}.

(** [base_blob<256>]: its bytes. *)
Definition uint256_codec : codec uint256 := {| Serialize h := h; Unserialize := read 32 |}.

(** [while (i < nSize)] of the vectors of bytes ([prevector] and
    [std::vector]): blocks of at most 5000000 bytes. *)
Fixpoint read_blocks (fuel : nat) (nSize i : Z) (v : bytes) (s : bytes) : read_result bytes :=
  if i <? nSize then
    match fuel with
    | O => Err no_fuel
    | S fuel =>
        let blk := Z.min (nSize - i) (1 + 4999999) in
        '(b, s) ← read blk s;
        read_blocks fuel nSize (i + blk) (v ++ b) s
    end
  else Ok (v, s).

Definition bytes_codec : codec bytes := {|
  Serialize v := WriteCompactSize (Z.of_nat (length v)) ++ (if decide (v = []) then [] else v);
  Unserialize s :=
    '(nSize, s) ← ReadCompactSize s;
    read_blocks (S (Z.to_nat (nSize / 5000000))) nSize 0 [] s |}.

(** Vectors of other elements; [chunk] is [5000000 / sizeof(T)]. *)
Section vectors.
Context {A : Type} (chunk : Z) (c : codec A).

(** [for (; i < nMid; i++) Unserialize(is, v[i]);] *)
Fixpoint read_elements (n : nat) (v : list A) (s : bytes) : read_result (list A) :=
  match n with
  | O => Ok (v, s)
  | S n => '(x, s) ← Unserialize c s; read_elements n (v ++ [x]) s
  end.

(** [while (nMid < nSize)]; here [i = v.size() = nMid]. *)
Fixpoint read_chunks (fuel : nat) (nSize nMid : Z) (v : list A) (s : bytes) : read_result (list A) :=
  if nMid <? nSize then
    match fuel with
    | O => Err no_fuel
    | S fuel =>
        let nMid' := u32 (nMid + chunk) in
        let nMid' := if nMid' >? nSize then nSize else nMid' in
        '(v, s) ← read_elements (Z.to_nat (nMid' - nMid)) v s;
        read_chunks fuel nSize nMid' v s
    end
  else Ok (v, s).

Definition vector_codec : codec (list A) := {|
  Serialize v := WriteCompactSize (Z.of_nat (length v)) ++ concat (map (Serialize c) v);
  Unserialize s :=
    '(nSize, s) ← ReadCompactSize s;
    read_chunks (S (Z.to_nat (nSize / chunk))) nSize 0 [] s |}.
End vectors.

(** What a codec promises for the values that satisfy [P]. *)
Class CodecLaws {A} (c : codec A) (P : A -> Prop) : Prop := {
  serialize_ok : forall x, P x -> bytes_ok (Serialize c x);
  unserialize_serialize : forall x s, P x -> Unserialize c (Serialize c x ++ s) = Ok (x, s);
  serialize_unserialize : forall x s s', bytes_ok s -> Unserialize c s = Ok (x, s') ->
    P x /\ s = Serialize c x ++ s';
}.

(** ** Facts *)

Module serialize_facts.

Lemma read_Ok n s b s' :
  0 <= n -> read n s = Ok (b, s') <-> s = b ++ s' /\ Z.of_nat (length b) = n.
Proof.
  intros Hn. unfold read. rewrite Z.gtb_ltb. destruct (Z.ltb_spec (Z.of_nat (length s)) n).
  - split; [done|]. intros [-> Hl]. rewrite length_app in H. lia.
  - split.
    + intros [= <- <-]. rewrite take_drop. split; [done|]. rewrite length_take. lia.
    + intros [-> Hl]. f_equal. f_equal.
      * rewrite take_app_length' by lia. done.
      * rewrite drop_app_length' by lia. done.
Qed.

Lemma read_app b s n : n = Z.of_nat (length b) -> read n (b ++ s) = Ok (b, s).
Proof. intros ->. apply read_Ok; [lia|done]. Qed.

Lemma ser_writedata_ok n x : bytes_ok (ser_writedata n x).
Proof. by apply le_digits_ok. Qed.

Lemma ser_readdata_write n x s :
  ser_readdata n (ser_writedata n x ++ s) = Ok (x mod 2 ^ (8 * Z.of_nat n), s).
Proof.
  unfold ser_readdata, ser_writedata. rewrite read_app by (by rewrite length_le_digits).
  cbn [mbind result_bind]. by rewrite le_val_digits.
Qed.

Lemma ser_readdata_Ok n x s s' :
  bytes_ok s -> ser_readdata n s = Ok (x, s') ->
  in_range (8 * Z.of_nat n) x /\ s = ser_writedata n x ++ s'.
Proof.
  unfold ser_readdata. intros Hs H. apply bind_Ok in H as ([b t] & Hr & [= <- <-]).
  apply read_Ok in Hr as [-> Hl]; [|lia]. apply Forall_app in Hs as [Hb _].
  replace n with (length b) by lia. split.
  - by apply le_val_bound.
  - unfold ser_writedata. by rewrite le_digits_val.
Qed.

(** The words of each width, unsigned. *)
Lemma word_laws n :
  CodecLaws {| Serialize := ser_writedata n; Unserialize := ser_readdata n |} (in_range (8 * Z.of_nat n)).
Proof.
  split; cbn.
  - intros. apply ser_writedata_ok.
  - intros x s Hx. rewrite ser_readdata_write. by rewrite Z.mod_small.
  - intros x s s'. apply ser_readdata_Ok.
Qed.

#[export] Instance uint8_laws : CodecLaws uint8_codec (in_range 8).
Proof. exact (word_laws 1). Qed.
#[export] Instance uint32_laws : CodecLaws uint32_codec (in_range 32).
Proof. exact (word_laws 4). Qed.
#[export] Instance uint64_laws : CodecLaws uint64_codec (in_range 64).
Proof. exact (word_laws 8). Qed.

(** Two's complement. *)
Lemma swrap_range w x : 0 < w -> - 2 ^ (w - 1) <= swrap w x < 2 ^ (w - 1).
Proof.
  intros Hw. unfold swrap. pose proof (wrap_range w x ltac:(lia)) as [H1 H2].
  assert (2 ^ w = 2 * 2 ^ (w - 1)). { rewrite <- Z.pow_succ_r by lia. f_equal. lia. }
  destruct (Z.ltb_spec (wrap w x) (2 ^ (w - 1))); lia.
Qed.

Lemma wrap_swrap w x : 0 < w -> wrap w (swrap w x) = wrap w x.
Proof.
  intros Hw. unfold swrap. destruct (_ <? _); [apply wrap_idemp|].
  unfold wrap. rewrite <- (Z.mod_add _ 1 (2 ^ w)) by lia.
  replace (x mod 2 ^ w - 2 ^ w + 1 * 2 ^ w) with (x mod 2 ^ w) by ring. apply Zmod_mod.
Qed.

Lemma le_digits_wrap w n x : 0 <= w -> le_digits w n (wrap (w * Z.of_nat n) x) = le_digits w n x.
Proof.
  intros Hw. pose proof (le_digits_val w (le_digits w n x) Hw (le_digits_ok w n x Hw)) as H.
  rewrite length_le_digits, le_val_digits in H by done. exact H.
Qed.

Lemma signed_laws n :
  (0 < n)%nat ->
  CodecLaws {| Serialize := ser_writedata n;
               Unserialize s := '(a, s) ← ser_readdata n s; Ok (swrap (8 * Z.of_nat n) a, s) |}
    (fun x => - 2 ^ (8 * Z.of_nat n - 1) <= x < 2 ^ (8 * Z.of_nat n - 1)).
Proof.
  intros Hn. split; cbn [Serialize Unserialize].
  - intros. apply ser_writedata_ok.
  - intros x s Hx. rewrite ser_readdata_write. cbn [mbind result_bind]. f_equal. f_equal.
    etransitivity; [|apply (swrap_small (8 * Z.of_nat n) x); [lia|done]].
    unfold swrap, wrap. by rewrite Zmod_mod.
  - intros x s s' Hs H. apply bind_Ok in H as ([a t] & Hr & [= <- <-]).
    apply ser_readdata_Ok in Hr as [Ha ->]; [|done]. split; [apply swrap_range; lia|].
    f_equal. unfold ser_writedata. rewrite <- (le_digits_wrap 8 n (swrap _ _)) by lia.
    rewrite wrap_swrap by lia. by rewrite wrap_small.
Qed.

Abbreviation int_range w := (fun x => - 2 ^ (w - 1) <= x < 2 ^ (w - 1)).

#[export] Instance int32_laws : CodecLaws int32_codec (int_range 32).
Proof. exact (signed_laws 4 ltac:(lia)). Qed.
#[export] Instance int64_laws : CodecLaws int64_codec (int_range 64).
Proof. exact (signed_laws 8 ltac:(lia)). Qed.

#[export] Instance uint256_laws : CodecLaws uint256_codec uint256_wf.
Proof.
  split; cbn.
  - by intros x [_ H].
  - intros x s [Hl _]. apply read_app. by rewrite Hl.
  - intros x s s' Hs H. apply read_Ok in H as [-> Hl]; [|lia].
    apply Forall_app in Hs as [Hx _]. split; [|done]. split; [lia|done].
Qed.

(** *** Compact sizes *)

Definition compact_codec : codec Z := {| Serialize := WriteCompactSize; Unserialize := ReadCompactSize |}.

Ltac read_word H :=
  apply bind_Ok in H as ([? ?] & ?Hr & H);
  apply ser_readdata_Ok in Hr as [Hr ->]; [|assumption].

Lemma ReadCompactSize_Ok n s s' :
  bytes_ok s -> ReadCompactSize s = Ok (n, s') -> 0 <= n <= MAX_SIZE /\ s = WriteCompactSize n ++ s'.
Proof.
  intros Hs H. unfold ReadCompactSize in H. apply bind_Ok in H as ([c t] & Hc & H).
  apply ser_readdata_Ok in Hc as [Hc ->]; [|done]. apply Forall_app in Hs as [_ Ht].
  apply bind_Ok in H as ([n' t'] & Hn & H).
  destruct (Z.gtb_spec n' MAX_SIZE) as [|Hmax]; [done|]. injection H as -> ->.
  unfold in_range in Hc. change (2 ^ (8 * Z.of_nat 1)) with 256 in Hc.
  assert (forall w x, in_range w x -> 0 <= x) as Hpos by (intros ? ? [? ?]; done).
  unfold WriteCompactSize. destruct (Z.ltb_spec c 253) as [Hlt|Hge].
  { injection Hn as -> ->. split; [lia|]. destruct (Z.ltb_spec n 253); [done|lia]. }
  destruct (Z.eqb_spec c 253) as [->|H3]; [|destruct (Z.eqb_spec c 254) as [->|H4]].
  - read_word Hn. destruct (Z.ltb_spec z 253); [done|]. injection Hn as -> ->.
    unfold in_range in Hr. change (2 ^ (8 * Z.of_nat 2)) with 65536 in Hr. unfold USHRT_MAX.
    destruct (Z.ltb_spec n 253); [lia|]. destruct (Z.leb_spec n 65535); [|lia].
    split; [lia|]. by rewrite <- app_assoc.
  - read_word Hn. destruct (Z.ltb_spec z 0x10000); [done|]. injection Hn as -> ->.
    unfold in_range in Hr. change (2 ^ (8 * Z.of_nat 4)) with 4294967296 in Hr. unfold USHRT_MAX, UINT_MAX.
    destruct (Z.ltb_spec n 253); [lia|]. destruct (Z.leb_spec n 65535); [lia|].
    destruct (Z.leb_spec n 4294967295); [|lia]. split; [lia|]. by rewrite <- app_assoc.
  - read_word Hn. destruct (Z.ltb_spec z 0x100000000); [done|]. injection Hn as -> ->.
    unfold MAX_SIZE in Hmax. lia.
Qed.

Lemma read_write_CompactSize n s :
  0 <= n <= MAX_SIZE -> ReadCompactSize (WriteCompactSize n ++ s) = Ok (n, s).
Proof.
  intros Hn. unfold WriteCompactSize, ReadCompactSize, MAX_SIZE, USHRT_MAX, UINT_MAX in *.
  assert (forall b : bool, b = false -> (if b then Err size_too_large else Ok (n, s)) = Ok (n, s))
    as Hend by by intros ? ->.
  unfold ser_readdata8, ser_readdata16, ser_readdata32, ser_writedata8, ser_writedata16, ser_writedata32.
  bcases.
  - rewrite ser_readdata_write. cbn [mbind result_bind]. rewrite Z.mod_small by (cbn; lia).
    destruct (Z.ltb_spec n 253); [|lia]. cbn [mbind result_bind]. apply Hend. lia.
  - rewrite <- app_assoc, ser_readdata_write. cbn [mbind result_bind].
    change (253 mod _) with 253. cbn [Z.ltb Z.eqb Z.compare Pos.compare Pos.compare_cont Pos.eqb].
    rewrite ser_readdata_write. cbn [mbind result_bind]. rewrite Z.mod_small by (cbn; lia).
    destruct (Z.ltb_spec n 253); [lia|]. cbn [mbind result_bind]. apply Hend. lia.
  - rewrite <- app_assoc, ser_readdata_write. cbn [mbind result_bind].
    change (254 mod _) with 254. cbn [Z.ltb Z.eqb Z.compare Pos.compare Pos.compare_cont Pos.eqb].
    rewrite ser_readdata_write. cbn [mbind result_bind]. rewrite Z.mod_small by (cbn; lia).
    destruct (Z.ltb_spec n 65536); [lia|]. cbn [mbind result_bind]. apply Hend. lia.
Qed.

Lemma WriteCompactSize_ok n : bytes_ok (WriteCompactSize n).
Proof.
  unfold WriteCompactSize, ser_writedata8, ser_writedata16, ser_writedata32, ser_writedata64.
  repeat case_match; rewrite ?Forall_app; auto using ser_writedata_ok.
Qed.

Lemma length_WriteCompactSize n : Z.of_nat (length (WriteCompactSize n)) = GetSizeOfCompactSize n.
Proof.
  unfold WriteCompactSize, GetSizeOfCompactSize, ser_writedata8, ser_writedata16, ser_writedata32, ser_writedata64.
  repeat case_match; by rewrite ?length_app; unfold ser_writedata; rewrite ?length_le_digits.
Qed.

#[export] Instance compact_laws : CodecLaws compact_codec (fun n => 0 <= n <= MAX_SIZE).
Proof.
  split; cbn.
  - intros. apply WriteCompactSize_ok.
  - intros. by apply read_write_CompactSize.
  - intros. by apply ReadCompactSize_Ok.
Qed.

(** *** Vectors *)

Lemma read_plus a b s :
  0 <= a -> 0 <= b ->
  read (a + b) s = '(x, s) ← read a s; '(y, s) ← read b s; Ok (x ++ y, s).
Proof.
  intros Ha Hb. destruct (read a s) as [[x t]|e] eqn:Hr; cbn [mbind result_bind].
  - apply read_Ok in Hr as [-> Hx]; [|done].
    destruct (read b t) as [[y u]|e] eqn:Hr; cbn [mbind result_bind].
    + apply read_Ok in Hr as [-> Hy]; [|done]. apply read_Ok; [lia|].
      rewrite app_assoc, length_app. split; [done|lia].
    + unfold read in *. rewrite Z.gtb_ltb in *. rewrite length_app.
      destruct (Z.ltb_spec (Z.of_nat (length t)) b); [|done]. injection Hr as <-.
      destruct (Z.ltb_spec (Z.of_nat (length x + length t)) (a + b)); [done|lia].
  - unfold read in *. rewrite Z.gtb_ltb in *.
    destruct (Z.ltb_spec (Z.of_nat (length s)) a); [|done]. injection Hr as <-.
    destruct (Z.ltb_spec (Z.of_nat (length s)) (a + b)); [done|lia].
Qed.

Lemma read_0 s : read 0 s = Ok ([], s).
Proof. by apply read_Ok. Qed.

(** Reading in blocks is reading at once. *)
Lemma read_blocks_spec fuel nSize i v s :
  0 <= i <= nSize -> nSize - i <= 5000000 * Z.of_nat fuel ->
  read_blocks fuel nSize i v s = '(b, s) ← read (nSize - i) s; Ok (v ++ b, s).
Proof.
  revert i v s. induction fuel as [|fuel IH]; intros i v s Hi Hf; cbn [read_blocks].
  - destruct (Z.ltb_spec i nSize); [lia|]. replace (nSize - i) with 0 by lia.
    rewrite read_0. cbn [mbind result_bind]. by rewrite app_nil_r.
  - destruct (Z.ltb_spec i nSize).
    2:{ replace (nSize - i) with 0 by lia. rewrite read_0. cbn [mbind result_bind]. by rewrite app_nil_r. }
    set (blk := Z.min _ _).
    replace (nSize - i) with (blk + (nSize - (i + blk))) at 1 by ring.
    rewrite read_plus by lia.
    destruct (read blk s) as [[b t]|]; cbn [mbind result_bind]; [|done].
    rewrite IH by lia.
    destruct (read (nSize - (i + blk)) t) as [[b' t']|]; cbn [mbind result_bind]; [|done].
    by rewrite app_assoc.
Qed.

Lemma bytes_read n s :
  0 <= n -> read_blocks (S (Z.to_nat (n / 5000000))) n 0 [] s = read n s.
Proof.
  intros Hn. rewrite read_blocks_spec; [|lia|dlia]. rewrite Z.sub_0_r.
  by destruct (read n s) as [[? ?]|].
Qed.

#[export] Instance bytes_laws :
  CodecLaws bytes_codec (fun v => bytes_ok v /\ Z.of_nat (length v) <= MAX_SIZE).
Proof.
  assert (forall v : bytes, (if decide (v = []) then [] else v) = v) as Hif.
  { intros v. destruct (decide (v = [])); congruence. }
  split; cbn [Serialize Unserialize bytes_codec vector_codec]; intros v.
  - intros [Hv _]. rewrite Hif. apply Forall_app. auto using WriteCompactSize_ok.
  - intros s [Hv Hl]. rewrite Hif, <- app_assoc, read_write_CompactSize by lia.
    cbn [mbind result_bind]. rewrite bytes_read by lia. by apply read_app.
  - intros s s' Hs H. rewrite Hif. apply bind_Ok in H as ([n t] & Hr & H).
    apply ReadCompactSize_Ok in Hr as [Hn ->]; [|done]. rewrite bytes_read in H by lia.
    apply read_Ok in H as [-> Hl]; [|lia]. apply Forall_app in Hs as [_ Hs].
    apply Forall_app in Hs as [Hs _]. rewrite Hl, app_assoc. split; [|done]. split; [done|lia].
Qed.

Section vectors.
Context {A : Type} (chunk : Z) (c : codec A).

Lemma read_elements_plus n1 n2 v s :
  read_elements c (n1 + n2) v s = '(v, s) ← read_elements c n1 v s; read_elements c n2 v s.
Proof.
  revert v s. induction n1 as [|n1 IH]; intros v s; cbn [Nat.add read_elements]; [done|].
  destruct (Unserialize c s) as [[x t]|]; cbn [mbind result_bind]; [apply IH|done].
Qed.

(** Growing the vector in chunks reads the elements one after the other. *)
Lemma read_chunks_spec fuel nSize nMid v s :
  0 < chunk <= 5000000 -> 0 <= nMid <= nSize -> nSize <= MAX_SIZE ->
  nSize - nMid <= chunk * Z.of_nat fuel ->
  read_chunks chunk c fuel nSize nMid v s = read_elements c (Z.to_nat (nSize - nMid)) v s.
Proof.
  intros Hc. unfold MAX_SIZE. revert nMid v s.
  induction fuel as [|fuel IH]; intros nMid v s Hm Hmax Hf; cbn [read_chunks].
  - destruct (Z.ltb_spec nMid nSize); [lia|]. by replace (nSize - nMid) with 0 by lia.
  - destruct (Z.ltb_spec nMid nSize) as [Hlt|].
    2:{ by replace (nSize - nMid) with 0 by lia. }
    rewrite (wrap_small 32 (nMid + chunk)) by (unfold in_range; pow_literals; lia). cbn zeta.
    set (nMid' := if nMid + chunk >? nSize then nSize else nMid + chunk).
    assert (nMid <= nMid' <= nSize /\ nMid' = Z.min nSize (nMid + chunk)) as [Hm' He].
    { unfold nMid'. rewrite Z.gtb_ltb. destruct (Z.ltb_spec nSize (nMid + chunk)); lia. }
    replace (Z.to_nat (nSize - nMid)) with (Z.to_nat (nMid' - nMid) + Z.to_nat (nSize - nMid'))%nat by lia.
    rewrite read_elements_plus.
    destruct (read_elements c _ v s) as [[v' t]|]; cbn [mbind result_bind]; [|done].
    apply IH; lia.
Qed.

Context {P : A -> Prop} `{!CodecLaws c P}.

Lemma read_elements_app xs v s :
  Forall P xs -> read_elements c (length xs) v (concat (map (Serialize c) xs) ++ s) = Ok (v ++ xs, s).
Proof.
  intros Hxs. revert v. induction Hxs as [|x xs Hx Hxs IH]; intros v; cbn [length read_elements map concat app].
  - by rewrite app_nil_r.
  - rewrite <- app_assoc, unserialize_serialize by done. cbn [mbind result_bind].
    by rewrite IH, <- app_assoc.
Qed.

Lemma read_elements_Ok n v s r s' :
  bytes_ok s -> read_elements c n v s = Ok (r, s') ->
  exists xs, r = v ++ xs /\ length xs = n /\ Forall P xs /\ s = concat (map (Serialize c) xs) ++ s'.
Proof.
  revert v s. induction n as [|n IH]; intros v s Hs H; cbn [read_elements] in H.
  - injection H as -> ->. exists []. rewrite app_nil_r. eauto.
  - apply bind_Ok in H as ([x t] & Hx & H). apply serialize_unserialize in Hx as [Hx ->]; [|done].
    apply Forall_app in Hs as [_ Ht]. apply IH in H as (xs & -> & Hl & Hxs & ->); [|done].
    exists (x :: xs). split; [by rewrite <- app_assoc|]. split; [cbn; congruence|].
    split; [by constructor|]. cbn. by rewrite <- app_assoc.
Qed.

Lemma vector_laws :
  0 < chunk <= 5000000 ->
  CodecLaws (vector_codec chunk c) (fun v => Forall P v /\ Z.of_nat (length v) <= MAX_SIZE).
Proof.
  intros Hc.
  assert (forall n, n <= chunk * Z.of_nat (S (Z.to_nat (n / chunk)))) as Hfuel.
  { intros n. pose proof (Z.mod_pos_bound n chunk ltac:(lia)). pose proof (Z.div_mod n chunk ltac:(lia)). nia. }
  split; cbn [Serialize Unserialize bytes_codec vector_codec]; intros v.
  - intros [Hv _]. apply Forall_app. split; [apply WriteCompactSize_ok|].
    induction Hv; cbn; [done|]. apply Forall_app. split; [by apply serialize_ok|done].
  - intros s [Hv Hl]. rewrite <- app_assoc, read_write_CompactSize by lia. cbn [mbind result_bind].
    rewrite read_chunks_spec by (rewrite ?Z.sub_0_r; try apply Hfuel; lia).
    rewrite Z.sub_0_r, Nat2Z.id.
    by rewrite read_elements_app.
  - intros s s' Hs H. apply bind_Ok in H as ([n t] & Hr & H).
    apply ReadCompactSize_Ok in Hr as [Hn ->]; [|done]. apply Forall_app in Hs as [_ Ht].
    rewrite read_chunks_spec in H by (rewrite ?Z.sub_0_r; try apply Hfuel; lia).
    apply read_elements_Ok in H as (xs & -> & Hl & Hxs & ->); [|done]. cbn [app].
    split; [split; [done|lia]|]. rewrite <- app_assoc. do 2 f_equal. lia.
Qed.
End vectors.

(** *** Variable-length integers *)

(** The digits of [n], last one first; [first] holds for the last digit
    written, the only one without the continuation bit. *)
Inductive digits : bool -> Z -> bytes -> Prop :=
  | digits_last first n :
      0 <= n <= 127 -> digits first n [n + (if first then 0 else 128)]
  | digits_more first n ds :
      127 < n -> digits false (n / 128 - 1) ds ->
      digits first n (n mod 128 + (if first then 0 else 128) :: ds).

Lemma digit_byte x (first : bool) :
  0 <= x <= 127 -> Z.lor x (if first then 0 else 0x80) = x + (if first then 0 else 128).
Proof.
  intros Hx. destruct first; [rewrite Z.lor_0_r; lia|].
  change 0x80 with (Z.shiftl 1 7). rewrite lor_shiftl_add; [done| |lia]. unfold in_range. pow_literals. lia.
Qed.

Lemma land_7F n : Z.land n 0x7F = n mod 128.
Proof. change 0x7F with (Z.ones 7). by rewrite Z.land_ones. Qed.

Lemma shiftr_7 n : Z.shiftr n 7 = n / 128.
Proof. by rewrite Z.shiftr_div_pow2. Qed.

Lemma varint_pow room : 2 ^ (7 * Z.of_nat (S room)) = 128 * 2 ^ (7 * Z.of_nat room).
Proof. rewrite pow2_mul_succ by lia. reflexivity. Qed.

Lemma WriteVarInt_loop_digits room len n :
  (0 < room)%nat -> 0 <= n < 2 ^ (7 * Z.of_nat room) ->
  exists ds, WriteVarInt_loop room len n = Some ds /\ digits (len =? 0)%nat n ds /\
    forall k, GetSizeOfVarInt_loop room n k = Some (k + Z.of_nat (length ds)).
Proof.
  revert len n. induction room as [|room IH]; intros len n Hr Hn; [lia|].
  rewrite varint_pow in Hn. cbn [WriteVarInt_loop GetSizeOfVarInt_loop]. rewrite land_7F, shiftr_7.
  rewrite digit_byte by dlia. destruct (Z.leb_spec n 127).
  - eexists; split; [done|]. split; [|by intros; cbn]. rewrite Z.mod_small by lia. apply digits_last. lia.
  - destruct (IH (S len) (n / 128 - 1)) as (ds & -> & Hds & Hk); [|dlia|].
    { destruct room; [|lia]. change (2 ^ (7 * Z.of_nat 0)) with 1 in Hn. lia. }
    cbn [mbind option_bind]. eexists; split; [done|]. split; [by apply digits_more|].
    intros k. rewrite Hk. cbn [length]. f_equal. lia.
Qed.

Lemma digits_det first n ds ds' : digits first n ds -> digits first n ds' -> ds = ds'.
Proof.
  intros H. revert ds'. induction H; intros ds' H'; inversion H'; subst; try lia; [done|].
  f_equal. auto.
Qed.

Lemma digits_ok first n ds : digits first n ds -> bytes_ok ds.
Proof.
  induction 1; repeat constructor; try done; destruct first; pow_literals; dlia.
Qed.

Section varint.
Context (w : Z) (Hw : 8 <= w).

Lemma varint_room n : in_range w n -> (0 < tmp_size w)%nat /\ 0 <= n < 2 ^ (7 * Z.of_nat (tmp_size w)).
Proof.
  intros [H1 H2]. unfold tmp_size.
  assert (1 <= (w + 6) / 7) by dlia. split; [lia|]. split; [done|].
  eapply Z.lt_le_trans; [exact H2|]. apply Z.pow_le_mono_r; [lia|]. rewrite Z2Nat.id by lia. dlia.
Qed.

(** Reading a digit. *)
Lemma ReadVarInt_step c s n :
  0 <= n -> in_range 8 c ->
  ReadVarInt_loop w (c :: s) n =
    if n >? max_I w / 128 then Err varint_too_large
    else let n := n * 128 + c mod 128 in
         if 128 <=? c then
           if n =? max_I w then Err varint_too_large else ReadVarInt_loop w s (n + 1)
         else Ok (n, s).
Proof.
  intros Hn Hc. cbn [ReadVarInt_loop]. rewrite shiftr_7, land_7F.
  replace (Z.lor (Z.shiftl n 7) (c mod 128)) with (n * 128 + c mod 128).
  2:{ rewrite Z.lor_comm, lor_shiftl_add; [lia| |lia]. unfold in_range. pow_literals. dlia. }
  replace (negb (Z.land c 0x80 =? 0)) with (128 <=? c); [done|].
  replace (128 <=? c) with (Z.testbit c 7).
  2:{ rewrite (testbit_top c 7); [done|lia|]. unfold in_range in Hc. pow_literals. cbn. lia. }
  destruct (Z.eqb_spec (Z.land c 0x80) 0) as [He|He]; cbn [negb].
  - apply (f_equal (fun z => Z.testbit z 7)) in He. rewrite Z.land_spec in He.
    change (Z.testbit 0x80 7) with true in He. by rewrite andb_true_r in He.
  - destruct (Z.testbit c 7) eqn:Ht; [done|]. destruct He.
    apply Z.bits_inj'. intros i Hi. rewrite Z.land_spec, Z.bits_0.
    destruct (decide (i = 7)) as [->|Hne]; [by rewrite Ht|].
    change 0x80 with (2 ^ 7). rewrite Z.pow2_bits_false by lia. apply andb_false_r.
Qed.

Lemma max_I_pos : 0 < max_I w.
Proof. unfold max_I. assert (2 ^ 1 <= 2 ^ w) by (apply Z.pow_le_mono_r; lia). lia. Qed.

Lemma div_le_max n : 0 <= n <= max_I w -> (n / 128 >? max_I w / 128) = false.
Proof. intros. rewrite Z.gtb_ltb. apply Z.ltb_ge. apply Z.div_le_mono; lia. Qed.

Lemma read_continuation first n ds s :
  digits first n ds -> first = false -> 0 <= n < max_I w ->
  ReadVarInt_loop w (reverse ds ++ s) 0 = ReadVarInt_loop w s (n + 1).
Proof.
  intros H. revert s. induction H as [first n Hn|first n ds Hn H IH]; intros s -> Hmax.
  - cbn [reverse rev_append app]. rewrite ReadVarInt_step by (unfold in_range; pow_literals; lia).
    rewrite Z.gtb_ltb. destruct (Z.ltb_spec (max_I w / 128) 0) as [Hneg|_].
    { pose proof (Z.div_pos (max_I w) 128 ltac:(lia) ltac:(lia)). lia. }
    destruct (Z.leb_spec 128 (n + 128)); [|lia]. cbn zeta.
    replace (0 * 128 + (n + 128) mod 128) with n by dlia.
    destruct (Z.eqb_spec n (max_I w)); [lia|done].
  - rewrite reverse_cons, <- app_assoc. cbn [app]. rewrite IH by (done || dlia).
    replace (n / 128 - 1 + 1) with (n / 128) by ring.
    rewrite ReadVarInt_step by (unfold in_range; pow_literals; dlia). rewrite div_le_max by lia. cbn zeta.
    replace (n / 128 * 128 + (n mod 128 + 128) mod 128) with n by dlia.
    destruct (Z.leb_spec 128 (n mod 128 + 128)); [|dlia].
    destruct (Z.eqb_spec n (max_I w)); [lia|done].
Qed.

Lemma read_digits n ds s :
  digits true n ds -> in_range w n -> ReadVarInt w (reverse ds ++ s) = Ok (n, s).
Proof.
  intros H [H1 H2]. unfold ReadVarInt. inversion H as [? ? Hn|? ? ds' Hn Hds]; subst.
  - cbn [reverse rev_append app]. rewrite ReadVarInt_step by (unfold in_range; pow_literals; lia).
    rewrite Z.gtb_ltb. pose proof max_I_pos.
    destruct (Z.ltb_spec (max_I w / 128) 0) as [Hneg|_].
    { pose proof (Z.div_pos (max_I w) 128 ltac:(lia) ltac:(lia)). lia. }
    cbn zeta. destruct (Z.leb_spec 128 (n + 0)); [lia|].
    by replace (0 * 128 + (n + 0) mod 128) with n by dlia.
  - rewrite reverse_cons, <- app_assoc. cbn [app].
    rewrite (read_continuation _ _ _ _ Hds) by (done || unfold max_I; dlia).
    replace (n / 128 - 1 + 1) with (n / 128) by ring.
    rewrite ReadVarInt_step by (unfold in_range; pow_literals; dlia).
    rewrite div_le_max by (unfold max_I; lia). cbn zeta.
    destruct (Z.leb_spec 128 (n mod 128 + 0)); [dlia|].
    by replace (n / 128 * 128 + (n mod 128 + 0) mod 128) with n by dlia.
Qed.

(** The digits already read when the accumulator is [n]. *)
Definition digits_read (n : Z) (pre : bytes) : Prop :=
  (n = 0 /\ pre = []) \/ (0 < n /\ digits false (n - 1) (reverse pre)).

Lemma digits_read_snoc (first : bool) n pre c :
  digits_read n pre -> 0 <= c <= 127 ->
  digits first (n * 128 + c) ((c + (if first then 0 else 128)) :: reverse pre).
Proof.
  intros [[-> ->]|[Hn Hd]] Hc; cbn [reverse rev_append].
  - replace (0 * 128 + c) with c by ring. apply digits_last. lia.
  - replace (c + (if first then 0 else 128)) with ((n * 128 + c) mod 128 + (if first then 0 else 128)).
    2:{ f_equal. dlia. }
    apply digits_more; [lia|]. by replace ((n * 128 + c) / 128) with n by dlia.
Qed.


Lemma accumulator_bound n c :
  0 <= n -> n <= max_I w / 128 -> 0 <= n * 128 + c mod 128 <= max_I w.
Proof.
  unfold max_I. replace (2 ^ w) with (128 * 2 ^ (w - 7)).
  2:{ change 128 with (2 ^ 7). rewrite <- Z.pow_add_r by lia. f_equal. lia. }
  intros. dlia.
Qed.

Lemma ReadVarInt_loop_Ok s n x s' pre :
  bytes_ok s -> 0 <= n -> digits_read n pre -> ReadVarInt_loop w s n = Ok (x, s') ->
  in_range w x /\ exists bs, pre ++ s = bs ++ s' /\ digits true x (reverse bs).
Proof.
  intros Hs. revert n pre. induction Hs as [|c s Hc Hs IH]; intros n pre Hn Hpre H; [done|].
  rewrite ReadVarInt_step in H by done. rewrite Z.gtb_ltb in H.
  destruct (Z.ltb_spec (max_I w / 128) n) as [|Hle]; [done|]. cbn zeta in H.
  pose proof (accumulator_bound n c Hn Hle) as Hb. unfold in_range in Hc. pow_literals.
  destruct (Z.leb_spec 128 c).
  - destruct (Z.eqb_spec (n * 128 + c mod 128) (max_I w)); [done|].
    apply IH with (pre := pre ++ [c]) in H; [by rewrite <- app_assoc in H|lia|].
    right. split; [lia|]. rewrite reverse_snoc.
    pose proof (digits_read_snoc false n pre (c mod 128) Hpre ltac:(dlia)) as Hd.
    replace (n * 128 + c mod 128 + 1 - 1) with (n * 128 + c mod 128) by ring.
    cbn iota in Hd. by replace (c mod 128 + 128) with c in Hd by dlia.
  - injection H as <- <-. split; [unfold in_range, max_I in *; lia|].
    exists (pre ++ [c]). rewrite <- app_assoc. split; [done|]. rewrite reverse_snoc.
    pose proof (digits_read_snoc true n pre (c mod 128) Hpre ltac:(dlia)) as Hd.
    cbn iota in Hd. by replace (c mod 128 + 0) with c in Hd by dlia.
Qed.

Lemma WriteVarInt_digits n :
  in_range w n ->
  exists ds, WriteVarInt w n = Some (reverse ds) /\ digits true n ds /\
    GetSizeOfVarInt w n = Some (Z.of_nat (length ds)).
Proof.
  intros Hn. destruct (varint_room n Hn) as [Hr Hb].
  destruct (WriteVarInt_loop_digits (tmp_size w) 0 n Hr Hb) as (ds & H & Hd & Hk).
  exists ds. unfold WriteVarInt, GetSizeOfVarInt. by rewrite H, Hk.
Qed.
End varint.
End serialize_facts.
Import serialize_facts.

(** The two encodings of sizes and integers are one-to-one and safe.  A
    compact size up to [MAX_SIZE] and a variable-length integer of any
    unsigned type read back as written, whatever follows; the encoder of
    variable-length integers never stores beyond its [tmp] array; the sizes
    that are computed without writing are the lengths written; and a reader
    that does not throw has read the one encoding of an in-range value, so
    that no value has two encodings. *)
Theorem size_encodings_correct (w : Z) (Hw : 8 <= w) :
  (forall n, 0 <= n <= MAX_SIZE ->
     Z.of_nat (length (WriteCompactSize n)) = GetSizeOfCompactSize n /\
     forall s, ReadCompactSize (WriteCompactSize n ++ s) = Ok (n, s)) /\
  (forall s n s', bytes_ok s -> ReadCompactSize s = Ok (n, s') ->
     0 <= n <= MAX_SIZE /\ s = WriteCompactSize n ++ s') /\
  (forall n, in_range w n -> exists bs,
     WriteVarInt w n = Some bs /\ bytes_ok bs /\
     GetSizeOfVarInt w n = Some (Z.of_nat (length bs)) /\
     forall s, ReadVarInt w (bs ++ s) = Ok (n, s)) /\
  (forall s n s', bytes_ok s -> ReadVarInt w s = Ok (n, s') ->
     in_range w n /\ exists bs, WriteVarInt w n = Some bs /\ s = bs ++ s').
Proof.
  split; [|split; [|split]].
  - intros n Hn. split; [apply length_WriteCompactSize|]. intros s. by apply read_write_CompactSize.
  - intros s n s'. apply ReadCompactSize_Ok.
  - intros n Hn. destruct (WriteVarInt_digits w Hw n Hn) as (ds & Hw' & Hd & Hk).
    exists (reverse ds). rewrite length_reverse. split; [done|]. split.
    { apply Forall_reverse. by apply digits_ok in Hd. }
    split; [done|]. intros s. by apply read_digits.
  - intros s n s' Hs H.
    apply (ReadVarInt_loop_Ok w Hw s 0 n s' []) in H as (Hn & bs & He & Hd); [|done|lia|by left].
    split; [done|]. exists bs. split; [|exact He].
    destruct (WriteVarInt_digits w Hw n Hn) as (ds & -> & Hd' & _).
    by rewrite <- (digits_det _ _ _ _ Hd Hd'), reverse_involutive.
Qed.

Lemma size_encodings_correct_witness :
  ReadCompactSize (WriteCompactSize 515 ++ [7]) = Ok (515, [7]) /\
  exists bs, WriteVarInt 32 16512 = Some bs /\ ReadVarInt 32 (bs ++ [1]) = Ok (16512, [1]).
Proof.
  destruct (size_encodings_correct 32 ltac:(lia)) as (H1 & _ & H3 & _). split.
  - apply (H1 515). unfold MAX_SIZE. lia.
  - destruct (H3 16512 ltac:(decided)) as (bs & Hb & _ & _ & Hr). eauto.
Defined.
