(* ===== verification/Transaction.v ===== *)
(** * Transactions ([primitives/transaction.h], [primitives/transaction.cpp], [amount.h])

    The data of a transaction, its two serialisation formats and its hashes.
    The version of a stream carries the flag
    [SERIALIZE_TRANSACTION_NO_WITNESS], which selects the format. *)

From S2P Require Import Prelude Uint256 Hash Script Interpreter Serialize.

(** ** Amounts *)

Abbreviation CAmount := Z.
Definition COIN : CAmount := 100000000.
Definition MAX_MONEY : CAmount := 3800000000 * COIN.
Definition MoneyRange (nValue : CAmount) : bool := (0 <=? nValue) && (nValue <=? MAX_MONEY).

(** ** Data *)

Record COutPoint := { op_hash : uint256; op_n : Z }.

Record CTxIn := {
  prevout : COutPoint;
  scriptSig : bytes;
  nSequence : Z;
  scriptWitness : CScriptWitness;
}.

Record CTxOut := { nValue : CAmount; scriptPubKey : bytes }.

Record CMutableTransaction := {
  vin : list CTxIn;
  vout : list CTxOut;
  tx_nVersion : Z;
  tx_nLockTime : Z;
}.

#[export] Instance COutPoint_eq_dec : EqDecision COutPoint.
Proof. solve_decision. Defined.
#[export] Instance CTxIn_eq_dec : EqDecision CTxIn.
Proof. solve_decision. Defined.
#[export] Instance CTxOut_eq_dec : EqDecision CTxOut.
Proof. solve_decision. Defined.
#[export] Instance CMutableTransaction_eq_dec : EqDecision CMutableTransaction.
Proof. solve_decision. Defined.
#[export] Instance COutPoint_countable : Countable COutPoint.
Proof.
  refine (inj_countable' (fun o => (op_hash o, op_n o)) (fun p => {| op_hash := p.1; op_n := p.2 |}) _).
  by intros [].
Defined.

(** [(uint32_t) -1]. *)
Definition COutPoint_null : COutPoint := {| op_hash := uint256_null; op_n := u32 (-1) |}.
Definition COutPoint_IsNull (o : COutPoint) : bool :=
  base_blob.IsNull (op_hash o) && (op_n o =? u32 (-1)).
Definition COutPoint_lt (a b : COutPoint) : bool :=
  let cmp := base_blob.Compare (op_hash a) (op_hash b) in
  (cmp <? 0) || ((cmp =? 0) && (op_n a <? op_n b)).

Definition SEQUENCE_FINAL : Z := 0xffffffff.
Definition SEQUENCE_LOCKTIME_TYPE_FLAG : Z := Z.shiftl 1 22.
Definition SEQUENCE_LOCKTIME_MASK : Z := 0x0000ffff.
Definition SEQUENCE_LOCKTIME_GRANULARITY : Z := 9.

(** The comparison of inputs ignores the witness. *)
Definition CTxIn_eqb (a b : CTxIn) : bool :=
  bool_decide (prevout a = prevout b) && bool_decide (scriptSig a = scriptSig b) && (nSequence a =? nSequence b).

Definition CTxOut_null : CTxOut := {| nValue := -1; scriptPubKey := [] |}.
Definition CTxOut_IsNull (o : CTxOut) : bool := nValue o =? -1.

Definition CURRENT_VERSION : Z := 2.
Definition CMutableTransaction_empty : CMutableTransaction :=
  {| vin := []; vout := []; tx_nVersion := CURRENT_VERSION; tx_nLockTime := 0 |}.

Definition tx_IsNull (tx : CMutableTransaction) : bool :=
  bool_decide (vin tx = []) && bool_decide (vout tx = []).

Definition IsCoinBase (tx : CMutableTransaction) : bool :=
  match vin tx with [txin] => COutPoint_IsNull (prevout txin) | _ => false end.

Definition HasWitness (tx : CMutableTransaction) : bool :=
  existsb (fun txin => negb (bool_decide (scriptWitness txin = []))) (vin tx).

(** The sum of the outputs; [None] is the exception.  A value that makes the
    [int64_t] addition overflow is itself out of range, which throws. *)
Fixpoint GetValueOut_loop (vout : list CTxOut) (nValueOut : CAmount) : option CAmount :=
  match vout with
  | [] => Some nValueOut
  | tx_out :: vout =>
      let nValueOut := nValueOut + nValue tx_out in
      if negb (MoneyRange (nValue tx_out)) || negb (MoneyRange nValueOut) then None
      else GetValueOut_loop vout nValueOut
  end.
Definition GetValueOut (tx : CMutableTransaction) : option CAmount := GetValueOut_loop (vout tx) 0.

(** ** Serialisation *)

Definition SERIALIZE_TRANSACTION_NO_WITNESS : Z := 0x40000000.

(** The sizes of the element types of the vectors bound how many elements are
    allocated at a time; they are the compiler's. *)
Class Layout := {
  sizeof_CTxIn : Z;
  sizeof_CTxOut : Z;
  sizeof_valtype : Z;
  sizeof_ok : Forall (fun n => 0 < n <= 5000000) [sizeof_CTxIn; sizeof_CTxOut; sizeof_valtype];
}.

Definition outpoint_codec : codec COutPoint := {|
  Serialize o := Serialize uint256_codec (op_hash o) ++ Serialize uint32_codec (op_n o);
  Unserialize s :=
    '(h, s) ← Unserialize uint256_codec s;
    '(n, s) ← Unserialize uint32_codec s;
    Ok ({| op_hash := h; op_n := n |}, s) |}.

(** The witness is written by the transaction; an input that is read starts
    with none. *)
Definition txin_codec : codec CTxIn := {|
  Serialize i :=
    Serialize outpoint_codec (prevout i) ++ Serialize bytes_codec (scriptSig i) ++
    Serialize uint32_codec (nSequence i);
  Unserialize s :=
    '(o, s) ← Unserialize outpoint_codec s;
    '(sig, s) ← Unserialize bytes_codec s;
    '(n, s) ← Unserialize uint32_codec s;
    Ok ({| prevout := o; scriptSig := sig; nSequence := n; scriptWitness := [] |}, s) |}.

Definition txout_codec : codec CTxOut := {|
  Serialize o := Serialize int64_codec (nValue o) ++ Serialize bytes_codec (scriptPubKey o);
  Unserialize s :=
    '(v, s) ← Unserialize int64_codec s;
    '(k, s) ← Unserialize bytes_codec s;
    Ok ({| nValue := v; scriptPubKey := k |}, s) |}.

Section serialisation.
Context `{L : Layout}.

Definition vin_codec : codec (list CTxIn) := vector_codec (5000000 / sizeof_CTxIn) txin_codec.
Definition vout_codec : codec (list CTxOut) := vector_codec (5000000 / sizeof_CTxOut) txout_codec.
Definition stack_codec : codec (list bytes) := vector_codec (5000000 / sizeof_valtype) bytes_codec.

Definition with_witness (w : CScriptWitness) (i : CTxIn) : CTxIn :=
  {| prevout := prevout i; scriptSig := scriptSig i; nSequence := nSequence i; scriptWitness := w |}.

(** [for (i < tx.vin.size()) s >> tx.vin[i].scriptWitness.stack;] *)
Fixpoint read_witnesses (vin : list CTxIn) (s : bytes) : read_result (list CTxIn) :=
  match vin with
  | [] => Ok ([], s)
  | i :: vin =>
      '(w, s) ← Unserialize stack_codec s;
      '(vin, s) ← read_witnesses vin s;
      Ok (with_witness w i :: vin, s)
  end.

Definition allow_witness (version : Z) : bool := negb (has version SERIALIZE_TRANSACTION_NO_WITNESS).

Definition UnserializeTransaction (version : Z) (s : bytes) : read_result CMutableTransaction :=
  let fAllowWitness := allow_witness version in
  '(nVersion, s) ← Unserialize int32_codec s;
  '(vin, s) ← Unserialize vin_codec s;
  '(flags, vin, vout, s) ←
    (if (length vin =? 0)%nat && fAllowWitness then
       '(flags, s) ← Unserialize uint8_codec s;
       if negb (flags =? 0) then
         '(vin, s) ← Unserialize vin_codec s;
         '(vout, s) ← Unserialize vout_codec s;
         Ok (flags, vin, vout, s)
       else Ok (flags, vin, [], s)
     else
       '(vout, s) ← Unserialize vout_codec s;
       Ok (0, vin, vout, s));
  '(flags, vin, s) ←
    (if negb (Z.land flags 1 =? 0) && fAllowWitness then
       '(vin, s) ← read_witnesses vin s;
       Ok (Z.lxor flags 1, vin, s)
     else Ok (flags, vin, s));
  check (flags =? 0) unknown_transaction_data;;
  '(nLockTime, s) ← Unserialize uint32_codec s;
  Ok ({| vin := vin; vout := vout; tx_nVersion := nVersion; tx_nLockTime := nLockTime |}, s).

Definition SerializeTransaction (version : Z) (tx : CMutableTransaction) : bytes :=
  let fAllowWitness := allow_witness version in
  let flags := if fAllowWitness then if HasWitness tx then Z.lor 0 1 else 0 else 0 in
  Serialize int32_codec (tx_nVersion tx) ++
  (if negb (flags =? 0) then Serialize vin_codec [] ++ Serialize uint8_codec flags else []) ++
  Serialize vin_codec (vin tx) ++
  Serialize vout_codec (vout tx) ++
  (if negb (Z.land flags 1 =? 0)
   then concat (map (fun i => Serialize stack_codec (scriptWitness i)) (vin tx)) else []) ++
  Serialize uint32_codec (tx_nLockTime tx).

(** ** Hashes

    A [CHashWriter] hashes the bytes written to it. *)

Context `{Hs : HashFunctions}.

Definition ComputeHash (tx : CMutableTransaction) : uint256 :=
  CHash256 (SerializeTransaction SERIALIZE_TRANSACTION_NO_WITNESS tx).

(** A [CTransaction] is the data with the hash computed when it is built. *)
Record CTransaction := { tx_data :> CMutableTransaction; hash : uint256 }.
Definition MakeTransaction (tx : CMutableTransaction) : CTransaction :=
  {| tx_data := tx; hash := ComputeHash tx |}.
Definition GetHash (tx : CTransaction) : uint256 := hash tx.

Definition GetWitnessHash (tx : CTransaction) : uint256 :=
  if negb (HasWitness tx) then GetHash tx else CHash256 (SerializeTransaction 0 tx).
End serialisation.

(** ** Facts *)

Definition outpoint_ok (o : COutPoint) : Prop := uint256_wf (op_hash o) /\ in_range 32 (op_n o).
Definition script_ok (b : bytes) : Prop := bytes_ok b /\ Z.of_nat (length b) <= MAX_SIZE.
Definition witness_ok (w : CScriptWitness) : Prop :=
  Forall script_ok w /\ Z.of_nat (length w) <= MAX_SIZE.
Definition txin_ok (i : CTxIn) : Prop :=
  outpoint_ok (prevout i) /\ script_ok (scriptSig i) /\ in_range 32 (nSequence i) /\ witness_ok (scriptWitness i).
Definition txout_ok (o : CTxOut) : Prop :=
  - 2 ^ 63 <= nValue o < 2 ^ 63 /\ script_ok (scriptPubKey o).

(** The values of the C++ types, with every vector short enough to be read. *)
Record tx_ok (tx : CMutableTransaction) : Prop := {
  vin_ok : Forall txin_ok (vin tx);
  vin_size : Z.of_nat (length (vin tx)) <= MAX_SIZE;
  vout_ok : Forall txout_ok (vout tx);
  vout_size : Z.of_nat (length (vout tx)) <= MAX_SIZE;
  version_ok : - 2 ^ 31 <= tx_nVersion tx < 2 ^ 31;
  locktime_ok : in_range 32 (tx_nLockTime tx);
}.

(** The transaction without its witness. *)
Definition strip (tx : CMutableTransaction) : CMutableTransaction := {|
  vin := map (with_witness []) (vin tx); vout := vout tx;
  tx_nVersion := tx_nVersion tx; tx_nLockTime := tx_nLockTime tx |}.

Module transaction_facts.
Import serialize_facts.

(** [put] and [get] take one field of a structure through its codec. *)
Ltac put := rewrite <- ?app_assoc; rewrite unserialize_serialize by (auto; done); cbn [mbind result_bind].
Ltac get H Hs :=
  let x := fresh "x" in let t := fresh "t" in let Hx := fresh "Hx" in
  apply bind_Ok in H as ([x t] & Hx & H);
  apply serialize_unserialize in Hx as [Hx ->]; [|assumption];
  apply Forall_app in Hs as [_ Hs].

#[export] Instance outpoint_laws : CodecLaws outpoint_codec outpoint_ok.
Proof.
  split; cbn [Serialize Unserialize outpoint_codec].
  - intros x [H1 H2]. apply Forall_app. split; by apply serialize_ok.
  - intros [h n] s [H1 H2]. put. put. done.
  - intros x s s' Hs H. get H Hs. get H Hs. injection H as <- <-.
    split; [done|]. by rewrite <- app_assoc.
Qed.

#[export] Instance txin_laws : CodecLaws txin_codec (fun i => txin_ok i /\ scriptWitness i = []).
Proof.
  split; cbn [Serialize Unserialize txin_codec].
  - intros x [(H1 & H2 & H3 & _) _]. rewrite !Forall_app. split_and!; by apply serialize_ok.
  - intros [o sig n w] s [(H1 & H2 & H3 & _) [= ->]]. put. put. put. done.
  - intros x s s' Hs H. get H Hs. get H Hs. get H Hs. injection H as <- <-.
    split; [|by rewrite <- !app_assoc]. split; [|done]. by split_and!.
Qed.

#[export] Instance txout_laws : CodecLaws txout_codec txout_ok.
Proof.
  split; cbn [Serialize Unserialize txout_codec].
  - intros x [H1 H2]. rewrite Forall_app. split; by apply serialize_ok.
  - intros [v k] s [H1 H2]. put. put. done.
  - intros x s s' Hs H. get H Hs. get H Hs. injection H as <- <-.
    split; [done|]. by rewrite <- !app_assoc.
Qed.

Section laws.
Context `{L : Layout}.

Lemma chunk_ok n : 0 < n <= 5000000 -> 0 < 5000000 / n <= 5000000.
Proof. intros. dlia. Qed.

Lemma sizeof_bounds :
  0 < sizeof_CTxIn <= 5000000 /\ 0 < sizeof_CTxOut <= 5000000 /\ 0 < sizeof_valtype <= 5000000.
Proof.
  pose proof sizeof_ok as H. apply Forall_cons_1 in H as [H1 H]. apply Forall_cons_1 in H as [H2 H].
  by apply Forall_cons_1 in H as [H3 _].
Qed.

Abbreviation sized P := (fun v => Forall P v /\ Z.of_nat (length v) <= MAX_SIZE).

#[export] Instance vin_laws : CodecLaws vin_codec (sized (fun i => txin_ok i /\ scriptWitness i = [])).
Proof. apply vector_laws; [apply _|]. apply chunk_ok, sizeof_bounds. Qed.
#[export] Instance vout_laws : CodecLaws vout_codec (sized txout_ok).
Proof. apply vector_laws; [apply _|]. apply chunk_ok, sizeof_bounds. Qed.
#[export] Instance stack_laws : CodecLaws stack_codec witness_ok.
Proof.
  apply (vector_laws _ bytes_codec (P := script_ok)). apply chunk_ok, sizeof_bounds.
Qed.

(** The inputs are written without their witness. *)
Lemma Serialize_vin_strip l : Serialize vin_codec (map (with_witness []) l) = Serialize vin_codec l.
Proof.
  cbn. rewrite length_map, map_map. reflexivity.
Qed.

Lemma txin_ok_strip i : txin_ok i -> txin_ok (with_witness [] i) /\ scriptWitness (with_witness [] i) = [].
Proof. intros (H1 & H2 & H3 & _). split; [|done]. by split_and!. Qed.

Lemma vin_strip_ok tx :
  tx_ok tx -> sized (fun i => txin_ok i /\ scriptWitness i = []) (map (with_witness []) (vin tx)).
Proof.
  intros H. split; [|rewrite length_map; apply H]. apply Forall_map.
  eapply Forall_impl; [apply H|]. intros i. apply txin_ok_strip.
Qed.

Lemma read_witnesses_app l s :
  Forall txin_ok l ->
  read_witnesses (map (with_witness []) l) (concat (map (fun i => Serialize stack_codec (scriptWitness i)) l) ++ s)
  = Ok (l, s).
Proof.
  induction 1 as [|i l Hi Hl IH]; cbn [map concat read_witnesses app]; [done|].
  rewrite <- app_assoc. destruct Hi as (_ & _ & _ & Hw).
  rewrite unserialize_serialize by done. cbn [mbind result_bind]. rewrite IH. cbn.
  destruct i; reflexivity.
Qed.

Lemma read_witnesses_Ok l l' s s' :
  bytes_ok s -> Forall (fun i => txin_ok i /\ scriptWitness i = []) l -> read_witnesses l s = Ok (l', s') ->
  Forall txin_ok l' /\ l = map (with_witness []) l' /\
  s = concat (map (fun i => Serialize stack_codec (scriptWitness i)) l') ++ s'.
Proof.
  intros Hs Hl. revert l' s Hs. induction Hl as [|i l [Hi Hiw] Hl IH]; intros l' s Hs H; cbn [read_witnesses] in H.
  - injection H as <- <-. by split_and!.
  - get H Hs. apply bind_Ok in H as ([l'' t'] & Hr & H). injection H as <- <-.
    apply IH in Hr as (Hl'' & -> & ->); [|done]. split; [|split].
    + constructor; [|done]. destruct Hi as (H1 & H2 & H3 & _). by split_and!.
    + cbn [map]. f_equal. destruct i; cbn in *. by subst.
    + cbn [map concat]. by rewrite <- app_assoc.
Qed.

Lemma HasWitness_false tx : HasWitness tx = false <-> map (with_witness []) (vin tx) = vin tx.
Proof.
  unfold HasWitness. induction (vin tx) as [|i l IH]; [done|]. cbn [existsb map].
  rewrite orb_false_iff, IH, negb_false_iff, bool_decide_eq_true. split.
  - intros [Hw ->]. f_equal. destruct i; cbn in *. by subst.
  - intros [= <- Hl]. by rewrite !Hl.
Qed.

Lemma HasWitness_strip tx : HasWitness (strip tx) = false.
Proof. apply HasWitness_false. cbn. by rewrite map_map. Qed.

Lemma strip_nowitness tx : HasWitness tx = false -> strip tx = tx.
Proof. intros H%HasWitness_false. unfold strip. rewrite H. by destruct tx. Qed.

Lemma tx_ok_strip tx : tx_ok tx -> tx_ok (strip tx).
Proof.
  intros H. destruct (vin_strip_ok tx H) as [H1 H2]. split; try apply H; [|done].
  eapply Forall_impl; [exact H1|]. by intros i [? _].
Qed.
End laws.
End transaction_facts.
Import transaction_facts serialize_facts.

Section formats.
Context `{L : Layout}.

Ltac steps :=
  cbn [mbind result_bind Z.eqb negb andb check]; change (Z.land 0 1) with 0; change (Z.land 1 1) with 1; change (Z.lxor 1 1) with 0;
  cbn [mbind result_bind Z.eqb negb andb check].

(** The extended format with [flags = 1], whatever the witnesses. *)
Definition extended (tx : CMutableTransaction) : bytes :=
  Serialize int32_codec (tx_nVersion tx) ++ Serialize vin_codec [] ++ Serialize uint8_codec 1 ++
  Serialize vin_codec (vin tx) ++ Serialize vout_codec (vout tx) ++
  concat (map (fun i => Serialize stack_codec (scriptWitness i)) (vin tx)) ++
  Serialize uint32_codec (tx_nLockTime tx).

Definition basic (tx : CMutableTransaction) : bytes :=
  Serialize int32_codec (tx_nVersion tx) ++ Serialize vin_codec (vin tx) ++
  Serialize vout_codec (vout tx) ++ Serialize uint32_codec (tx_nLockTime tx).

Lemma SerializeTransaction_format version tx :
  SerializeTransaction version tx =
    if allow_witness version && HasWitness tx then extended tx else basic tx.
Proof. unfold SerializeTransaction. by destruct (allow_witness version), (HasWitness tx). Qed.

Lemma basic_strip tx : basic (strip tx) = basic tx.
Proof. unfold basic. cbn [strip vin vout tx_nVersion tx_nLockTime]. by rewrite Serialize_vin_strip. Qed.

Lemma nil_sized : Forall (fun i => txin_ok i /\ scriptWitness i = []) [] /\ Z.of_nat (length (@nil CTxIn)) <= MAX_SIZE.
Proof. by split. Qed.

Lemma unserialize_basic version tx s :
  tx_ok tx -> HasWitness tx = false ->
  allow_witness version = false \/ vin tx <> [] \/ vout tx = [] ->
  UnserializeTransaction version (basic tx ++ s) = Ok (tx, s).
Proof.
  intros H Hw Hcase. pose proof (vin_strip_ok tx H) as Hvin.
  apply HasWitness_false in Hw. rewrite Hw in Hvin.
  pose proof (conj (vout_ok tx H) (vout_size tx H)) as Hvout.
  pose proof (version_ok tx H). pose proof (locktime_ok tx H).
  unfold UnserializeTransaction, basic. put. put.
  destruct ((length (vin tx) =? 0)%nat && allow_witness version) eqn:Hempty.
  - apply andb_true_iff in Hempty as [He Ha]. apply Nat.eqb_eq, nil_length_inv in He.
    assert (vout tx = []) as Hv by (destruct Hcase as [|[|]]; congruence). rewrite Hv.
    change (Serialize vout_codec []) with (Serialize uint8_codec 0).
    put. steps. put. destruct tx; cbn in *; by subst.
  - put. steps. put. by destruct tx.
Qed.

Lemma unserialize_extended version tx s :
  tx_ok tx -> allow_witness version = true -> UnserializeTransaction version (extended tx ++ s) = Ok (tx, s).
Proof.
  intros H Ha. pose proof (vin_strip_ok tx H) as Hvin.
  pose proof (conj (vout_ok tx H) (vout_size tx H)) as Hvout.
  pose proof (version_ok tx H). pose proof (locktime_ok tx H). pose proof nil_sized.
  unfold UnserializeTransaction, extended. rewrite Ha. put. put. cbn [length Nat.eqb andb].
  rewrite <- ?app_assoc, unserialize_serialize by done. steps.
  rewrite <- (Serialize_vin_strip (vin tx)). put. put. steps.
  rewrite <- ?app_assoc, read_witnesses_app by apply H. steps. put. by destruct tx.
Qed.

Lemma plain_inputs (l : list CTxIn) :
  Forall (fun i => txin_ok i /\ scriptWitness i = []) l -> Forall txin_ok l /\ map (with_witness []) l = l.
Proof.
  induction 1 as [|[o sig n w] l [Hi Hw] _ [IH1 IH2]]; [done|]. cbn in Hw. subst.
  split; [by constructor|]. cbn [map]. by rewrite IH2.
Qed.

Lemma lxor_1_0 flags : Z.lxor flags 1 = 0 -> flags = 1.
Proof. apply Z.lxor_eq. Qed.

Lemma UnserializeTransaction_Ok version s tx s' :
  bytes_ok s -> UnserializeTransaction version s = Ok (tx, s') ->
  tx_ok tx /\
  (HasWitness tx = false /\ s = basic tx ++ s' \/ allow_witness version = true /\ s = extended tx ++ s').
Proof.
  intros Hs H. unfold UnserializeTransaction in H.
  get H Hs. rename x into nv, Hx into Hnv. get H Hs. rename x into vin0, Hx into Hvin0.
  apply bind_Ok in H as ([[[flags vins] vouts] t1] & Hbody & H).
  apply bind_Ok in H as ([[flags' vins'] t2] & Hwit & H).
  apply bind_Ok in H as ([] & Hf & H). apply check_Ok, Z.eqb_eq in Hf. subst flags'.
  destruct ((length vin0 =? 0)%nat && allow_witness version) eqn:Hempty.
  - apply andb_true_iff in Hempty as [He Ha]. apply Nat.eqb_eq, nil_length_inv in He as ->.
    rewrite Ha, andb_true_r in Hwit. get Hbody Hs. rename x into fl.
    destruct (Z.eqb_spec fl 0) as [->|Hfl]; cbn [negb] in Hbody.
    + injection Hbody as <- <- <- <-. injection Hwit as <- <-. get H Hs. injection H as <- <-.
      split; [by split|]. left. split; [done|]. unfold basic. cbn [vin vout tx_nVersion tx_nLockTime].
      by rewrite <- !app_assoc.
    + get Hbody Hs. get Hbody Hs. injection Hbody as <- <- <- <-.
      destruct (negb (Z.land fl 1 =? 0)); [|injection Hwit as -> -> ->; done].
      apply bind_Ok in Hwit as ([ws u] & Hr & Hwit). injection Hwit as Hxor ? ?. subst.
      apply lxor_1_0 in Hxor as ->. destruct Hx0 as [Hx0 Hl].
      apply read_witnesses_Ok in Hr as (Hok & -> & ->); [|done|done].
      apply Forall_app in Hs as [_ Hs]. get H Hs. injection H as <- <-.
      rewrite length_map in Hl. split; [destruct Hx1; by split|]. right. split; [done|].
      unfold extended. cbn [vin vout tx_nVersion tx_nLockTime].
      rewrite Serialize_vin_strip. by rewrite <- !app_assoc.
  - get Hbody Hs. injection Hbody as <- <- <- <-. injection Hwit as <- <-. get H Hs. injection H as <- <-.
    destruct Hvin0 as [Hvin0 Hl]. destruct (plain_inputs _ Hvin0) as [H1 H2].
    split; [destruct Hx; by split|]. left. split; [by apply HasWitness_false|].
    unfold basic. cbn [vin vout tx_nVersion tx_nLockTime]. by rewrite <- !app_assoc.
Qed.

Lemma txid_strip `{Hs : HashFunctions} tx : ComputeHash (strip tx) = ComputeHash tx.
Proof. unfold ComputeHash. rewrite !SerializeTransaction_format. by rewrite basic_strip. Qed.
End formats.

(** ** An example *)

Module transaction_example.
#[export] Instance layout : Layout.
Proof. refine {| sizeof_CTxIn := 104; sizeof_CTxOut := 40; sizeof_valtype := 24 |}. decided. Defined.

Definition out (h n : Z) : COutPoint := {| op_hash := le_digits 8 32 h; op_n := n |}.
Definition tx : CMutableTransaction := {|
  vin := [{| prevout := out 1 0; scriptSig := [OP_1]; nSequence := 5; scriptWitness := [[1; 2]] |};
          {| prevout := out 2 7; scriptSig := []; nSequence := SEQUENCE_FINAL; scriptWitness := [] |}];
  vout := [{| nValue := 50 * COIN; scriptPubKey := [OP_2; OP_DROP] |}];
  tx_nVersion := 2; tx_nLockTime := 99 |}.

Lemma tx_is_ok : tx_ok tx.
Proof. split; decided. Defined.
End transaction_example.

(** C29: Serialising and parsing transactions.  The parser returns the very
    transaction that was serialised and leaves what follows it; without the
    witness flag it returns the transaction without its witness; the only
    transactions that the format with witnesses cannot represent have outputs
    but no input.  Conversely whatever the parser accepts is well formed and
    is byte for byte one of its two formats, and the extended one only if the
    stream allows witnesses; and the transaction id does not depend on the
    witness. *)
Theorem transaction_roundtrip `{L : Layout} `{Hs : HashFunctions} (version : Z) (tx : CMutableTransaction) :
  tx_ok tx ->
  (forall s, allow_witness version = false ->
     UnserializeTransaction version (SerializeTransaction version tx ++ s) = Ok (strip tx, s)) /\
  (forall s, allow_witness version = true -> vin tx <> [] \/ vout tx = [] ->
     UnserializeTransaction version (SerializeTransaction version tx ++ s) = Ok (tx, s)) /\
  (forall s tx' s', bytes_ok s -> UnserializeTransaction version s = Ok (tx', s') ->
     tx_ok tx' /\
     (s = SerializeTransaction version tx' ++ s' \/
      allow_witness version = true /\ HasWitness tx' = false /\ s = extended tx' ++ s')) /\
  ComputeHash (strip tx) = ComputeHash tx.
Proof.
  intros Hok. rewrite SerializeTransaction_format. split; [|split; [|split]].
  - intros s Ha. rewrite Ha. cbn [andb]. rewrite <- basic_strip.
    apply unserialize_basic; [by apply tx_ok_strip|by apply HasWitness_strip|by left].
  - intros s Ha Hcase. rewrite Ha. destruct (HasWitness tx) eqn:Hw; cbn [andb].
    + by apply unserialize_extended.
    + apply unserialize_basic; auto.
  - intros s tx' s' Hb H. apply UnserializeTransaction_Ok in H as [Hok' H]; [|done]. split; [done|].
    rewrite SerializeTransaction_format. destruct H as [[-> ->]|[-> ->]].
    + left. by rewrite andb_false_r.
    + destruct (HasWitness tx'); cbn [andb]; auto.
  - apply txid_strip.
Qed.

Lemma transaction_roundtrip_witness :
  UnserializeTransaction (L := transaction_example.layout) 0
    (SerializeTransaction (L := transaction_example.layout) 0 transaction_example.tx ++ [9]) =
  Ok (transaction_example.tx, [9]).
Proof.
  apply (transaction_roundtrip (L := transaction_example.layout) (Hs := interpreter_example.hashes) 0
    transaction_example.tx transaction_example.tx_is_ok); [reflexivity|by left].
Defined.
