(* ===== verification/SigHash.v ===== *)
(** * Signature hashes and the transaction signature checker
    ([script/interpreter.cpp], [script/interpreter.h], [pubkey.h], [pubkey.cpp])

    [SignatureHash] with its in-place serialiser and its cache, and
    [TransactionSignatureChecker], the implementation of the interface that
    the script interpreter calls.  The verification of an ed25519 signature
    is the interface [ed25519]. *)

From S2P Require Import Prelude Uint256 Hash Script Interpreter Serialize Transaction.
Import CScript.

(** ** Signature hashes *)

Record PrecomputedTransactionData := {
  hashPrevouts : uint256;
  hashSequence : uint256;
  hashOutputs : uint256;
  ready : bool;
}.

Definition uint256_one : uint256 := 1 :: replicate 31 0.

Section sighash.
Context `{Hs : HashFunctions}.

(** *** [CTransactionSignatureSerializer] *)

Section serializer.
Variables (txTo : CMutableTransaction) (scriptCode : bytes) (nIn nHashType : Z).

Definition fAnyoneCanPay : bool := has nHashType SIGHASH_ANYONECANPAY.
Definition fHashSingle : bool := Z.land nHashType 0x1f =? SIGHASH_SINGLE.
Definition fHashNone : bool := Z.land nHashType 0x1f =? SIGHASH_NONE.

Fixpoint count_separators (fuel : nat) (it : bytes) (nCodeSeparators : Z) : Z :=
  match fuel, GetOp2 it with
  | S fuel, Some (opcode, _, it) =>
      count_separators fuel it (if opcode =? OP_CODESEPARATOR then u32 (nCodeSeparators + 1) else nCodeSeparators)
  | _, _ => nCodeSeparators
  end.

(** The second loop: the bytes written, [itBegin] and [it] when [GetOp]
    fails. *)
Fixpoint write_script (fuel : nat) (it itBegin written : bytes) : bytes * bytes * bytes :=
  match GetOp2 it with
  | None => (written, itBegin, GetOp2_failed it)
  | Some (opcode, _, it') =>
      match fuel with
      | O => (written, itBegin, it')
      | S fuel =>
          if opcode =? OP_CODESEPARATOR
          then write_script fuel it' it' (written ++ take (length itBegin - length it' - 1) itBegin)
          else write_script fuel it' itBegin written
      end
  end.

Definition SerializeScriptCode : bytes :=
  let nCodeSeparators := count_separators (length scriptCode) scriptCode 0 in
  let '(written, itBegin, it) := write_script (length scriptCode) scriptCode scriptCode [] in
  WriteCompactSize (u32 (Z.of_nat (length scriptCode) - nCodeSeparators)) ++
  written ++ match itBegin with [] => [] | _ => take (length itBegin - length it) itBegin end.

(** [None] is an access beyond [vin] or [vout]. *)
Definition SerializeInput (nInput : Z) : option bytes :=
  let nInput := if fAnyoneCanPay then nIn else nInput in
  txin ← vin txTo !! Z.to_nat nInput;
  Some (Serialize outpoint_codec (prevout txin) ++
        (if negb (nInput =? nIn) then Serialize bytes_codec [] else SerializeScriptCode) ++
        (if negb (nInput =? nIn) && (fHashSingle || fHashNone) then Serialize int32_codec 0
         else Serialize uint32_codec (nSequence txin))).

Definition SerializeOutput (nOutput : Z) : option bytes :=
  if fHashSingle && negb (nOutput =? nIn) then Some (Serialize txout_codec CTxOut_null)
  else Serialize txout_codec <$> vout txTo !! Z.to_nat nOutput.

Definition SerializeForSignature : option bytes :=
  let nInputs := if fAnyoneCanPay then 1 else u32 (Z.of_nat (length (vin txTo))) in
  ins ← mapM SerializeInput (seqZ 0 nInputs);
  let nOutputs := if fHashNone then 0 else if fHashSingle then u32 (nIn + 1) else u32 (Z.of_nat (length (vout txTo))) in
  outs ← mapM SerializeOutput (seqZ 0 nOutputs);
  Some (Serialize int32_codec (tx_nVersion txTo) ++ WriteCompactSize nInputs ++ concat ins ++
        WriteCompactSize nOutputs ++ concat outs ++ Serialize uint32_codec (tx_nLockTime txTo)).
End serializer.

(** *** The hashes of a witness signature *)

Definition GetPrevoutHash (txTo : CMutableTransaction) : uint256 :=
  CHash256 (concat (map (fun txin => Serialize outpoint_codec (prevout txin)) (vin txTo))).
Definition GetSequenceHash (txTo : CMutableTransaction) : uint256 :=
  CHash256 (concat (map (fun txin => Serialize uint32_codec (nSequence txin)) (vin txTo))).
Definition GetOutputsHash (txTo : CMutableTransaction) : uint256 :=
  CHash256 (concat (map (Serialize txout_codec) (vout txTo))).

Definition Precompute (txTo : CMutableTransaction) : PrecomputedTransactionData :=
  if HasWitness txTo then
    {| hashPrevouts := GetPrevoutHash txTo; hashSequence := GetSequenceHash txTo;
       hashOutputs := GetOutputsHash txTo; ready := true |}
  else
    {| hashPrevouts := uint256_null; hashSequence := uint256_null; hashOutputs := uint256_null; ready := false |}.

(** [cacheready ? cache->field : compute]. *)
Definition cached (cache : option PrecomputedTransactionData)
    (field : PrecomputedTransactionData -> uint256) (compute : uint256) : uint256 :=
  match cache with Some c => if ready c then field c else compute | None => compute end.

(** [None] is the failed assertion. *)
Definition SignatureHash (scriptCode : bytes) (txTo : CMutableTransaction) (nIn nHashType : Z)
    (amount : CAmount) (sigversion : SigVersion) (cache : option PrecomputedTransactionData) : option uint256 :=
  if negb (nIn <? Z.of_nat (length (vin txTo))) then None
  else if decide (sigversion = SIGVERSION_WITNESS_V0) then
    let hashPrevouts :=
      if negb (has nHashType SIGHASH_ANYONECANPAY) then cached cache hashPrevouts (GetPrevoutHash txTo)
      else uint256_null in
    let hashSequence :=
      if negb (has nHashType SIGHASH_ANYONECANPAY) && negb (Z.land nHashType 0x1f =? SIGHASH_SINGLE)
         && negb (Z.land nHashType 0x1f =? SIGHASH_NONE)
      then cached cache hashSequence (GetSequenceHash txTo) else uint256_null in
    let hashOutputs :=
      if negb (Z.land nHashType 0x1f =? SIGHASH_SINGLE) && negb (Z.land nHashType 0x1f =? SIGHASH_NONE)
      then cached cache hashOutputs (GetOutputsHash txTo)
      else match vout txTo !! Z.to_nat nIn with
           | Some txout =>
               if Z.land nHashType 0x1f =? SIGHASH_SINGLE then CHash256 (Serialize txout_codec txout) else uint256_null
           | None => uint256_null
           end in
    txin ← vin txTo !! Z.to_nat nIn;
    Some (CHash256 (
      Serialize int32_codec (tx_nVersion txTo) ++
      Serialize uint256_codec hashPrevouts ++
      Serialize uint256_codec hashSequence ++
      Serialize outpoint_codec (prevout txin) ++
      Serialize bytes_codec scriptCode ++
      Serialize int64_codec amount ++
      Serialize uint32_codec (nSequence txin) ++
      Serialize uint256_codec hashOutputs ++
      Serialize uint32_codec (tx_nLockTime txTo) ++
      Serialize int32_codec nHashType))
  else if (Z.land nHashType 0x1f =? SIGHASH_SINGLE) && (Z.of_nat (length (vout txTo)) <=? nIn) then Some uint256_one
  else
    txTmp ← SerializeForSignature txTo scriptCode nIn nHashType;
    Some (CHash256 (txTmp ++ Serialize int32_codec nHashType)).

(** *** The reference of the unit tests ([test/sighash_tests.cpp])

    [SignatureHashOld] edits a copy of the transaction and serialises it. *)

Context `{L : Layout}.

Definition set_scriptSig (sig : bytes) (i : CTxIn) : CTxIn :=
  {| prevout := prevout i; scriptSig := sig; nSequence := nSequence i; scriptWitness := scriptWitness i |}.
Definition set_nSequence (n : Z) (i : CTxIn) : CTxIn :=
  {| prevout := prevout i; scriptSig := scriptSig i; nSequence := n; scriptWitness := scriptWitness i |}.

Definition edited_vin (scriptCode : bytes) (txTo : CMutableTransaction) (nIn : nat) (nHashType : Z) : list CTxIn :=
  let vin := map (set_scriptSig []) (vin txTo) in
  let vin := alter (set_scriptSig (FindAndDelete scriptCode [OP_CODESEPARATOR]).1) nIn vin in
  let vin :=
    if fHashNone nHashType || fHashSingle nHashType
    then imap (fun i txin => if decide (i = nIn) then txin else set_nSequence 0 txin) vin else vin in
  if fAnyoneCanPay nHashType then take 1 (drop nIn vin) else vin.

Definition edited_vout (txTo : CMutableTransaction) (nIn : nat) (nHashType : Z) : list CTxOut :=
  if fHashNone nHashType then []
  else if fHashSingle nHashType
  then imap (fun i txout => if (i <? nIn)%nat then CTxOut_null else txout) (take (nIn + 1) (vout txTo))
  else vout txTo.

Definition SignatureHashOld (scriptCode : bytes) (txTo : CMutableTransaction) (nIn nHashType : Z) : uint256 :=
  if Z.of_nat (length (vin txTo)) <=? nIn then uint256_one
  else if fHashSingle nHashType && (Z.of_nat (length (vout txTo)) <=? nIn) then uint256_one
  else
    let txTmp := {| vin := edited_vin scriptCode txTo (Z.to_nat nIn) nHashType;
                    vout := edited_vout txTo (Z.to_nat nIn) nHashType;
                    tx_nVersion := tx_nVersion txTo; tx_nLockTime := tx_nLockTime txTo |} in
    CHash256 (SerializeTransaction SERIALIZE_TRANSACTION_NO_WITNESS txTmp ++ Serialize int32_codec nHashType).
End sighash.

(** ** The signature checker *)

(** [ed25519_verify(signature, message, message_len, public_key)]: it reads
    64 bytes at [signature] and 32 at [public_key]. *)
Class ed25519 := { ed25519_verify : bytes -> bytes -> bytes -> Z }.

Definition SIGNATURE_SIZE : nat := 64.

(** What the code reads without having written it: the 32 bytes of a
    [CPubKey] that is declared but not set, and the bytes behind the end of a
    vector. *)
Record memory := { uninitialised : bytes; beyond : bytes }.

Section checker.
Context `{Hs : HashFunctions} `{E : ed25519} (mem : memory).

(** [CPubKey(vch)] through [Set]: an array of 32 bytes, left as it is when
    the size does not match. *)
Definition CPubKey_of (vch : valtype) : bytes :=
  if (length vch =? PUBLIC_KEY_SIZE)%nat then vch else uninitialised mem.
Definition CPubKey_size : nat := PUBLIC_KEY_SIZE.
Definition CPubKey_IsValid : bool := (0 <? CPubKey_size)%nat.
Definition CPubKey_Verify (pubkey : bytes) (hash : uint256) (vchSig : bytes) : bool :=
  if negb CPubKey_IsValid then false
  else ed25519_verify (take SIGNATURE_SIZE (vchSig ++ beyond mem)) hash pubkey >? 0.

(** The fields of [TransactionSignatureChecker]. *)
Variables (txTo : CMutableTransaction) (nIn : Z) (amount : CAmount) (txdata : option PrecomputedTransactionData).

Definition VerifySignature (vchSig pubkey : bytes) (sighash : uint256) : bool :=
  CPubKey_Verify pubkey sighash vchSig.

Definition tx_CheckSig (vchSigIn vchPubKey : valtype) (scriptCode : bytes) (sigversion : SigVersion) : res bool :=
  let pubkey := CPubKey_of vchPubKey in
  if negb CPubKey_IsValid then Ok false
  else
    match last vchSigIn with
    | None => Ok false
    | Some nHashType =>
        let vchSig := take (length vchSigIn - 1) vchSigIn in
        sighash ← asserted (SignatureHash scriptCode txTo nIn nHashType amount sigversion txdata);
        if negb (VerifySignature vchSig pubkey sighash) then Ok false else Ok true
    end.

(** [txTo->vin[nIn].nSequence]. *)
Definition input_nSequence : res Z :=
  asserted (nSequence <$> vin txTo !! Z.to_nat nIn).

Definition tx_CheckLockTime (nLockTime : Z) : res bool :=
  let txLockTime := tx_nLockTime txTo in
  if negb (((txLockTime <? LOCKTIME_THRESHOLD) && (nLockTime <? LOCKTIME_THRESHOLD))
           || ((txLockTime >=? LOCKTIME_THRESHOLD) && (nLockTime >=? LOCKTIME_THRESHOLD))) then Ok false
  else if nLockTime >? txLockTime then Ok false
  else
    s ← input_nSequence;
    if SEQUENCE_FINAL =? s then Ok false else Ok true.

Definition tx_CheckSequence (nSequence : Z) : res bool :=
  txToSequence ← input_nSequence;
  if u32 (tx_nVersion txTo) <? 2 then Ok false
  else if has txToSequence SEQUENCE_LOCKTIME_DISABLE_FLAG then Ok false
  else
    let nLockTimeMask := Z.lor SEQUENCE_LOCKTIME_TYPE_FLAG SEQUENCE_LOCKTIME_MASK in
    let txToSequenceMasked := Z.land txToSequence nLockTimeMask in
    let nSequenceMasked := CScriptNum.and_ nSequence nLockTimeMask in
    if negb (((txToSequenceMasked <? SEQUENCE_LOCKTIME_TYPE_FLAG) && (nSequenceMasked <? SEQUENCE_LOCKTIME_TYPE_FLAG))
             || ((txToSequenceMasked >=? SEQUENCE_LOCKTIME_TYPE_FLAG)
                 && (nSequenceMasked >=? SEQUENCE_LOCKTIME_TYPE_FLAG))) then Ok false
    else if nSequenceMasked >? txToSequenceMasked then Ok false
    else Ok true.

Definition TransactionSignatureChecker : BaseSignatureChecker := {|
  CheckSig := tx_CheckSig; CheckLockTime := tx_CheckLockTime; CheckSequence := tx_CheckSequence |}.
End checker.

(** ** Facts *)

Module sighash_facts.
Import script_facts.

Lemma GetOp2_separator pc : GetOp2 (OP_CODESEPARATOR :: pc) = Some (OP_CODESEPARATOR, [], pc).
Proof. reflexivity. Qed.

Lemma GetOp2_failed_suffix pc : exists v, pc = v ++ GetOp2_failed pc.
Proof.
  destruct pc as [|o pc]; [by exists []|]. cbn [GetOp2_failed].
  assert (forall n, exists v, o :: pc = v ++ drop n pc) as Hd.
  { intros n. exists (o :: take n pc). cbn [app]. by rewrite take_drop. }
  repeat case_match; try apply Hd; by exists [o].
Qed.

Lemma not_separator pc op d pc' :
  starts_with [OP_CODESEPARATOR] pc = false -> GetOp2 pc = Some (op, d, pc') -> (op =? OP_CODESEPARATOR) = false.
Proof.
  intros Hs (u & -> & _)%GetOp2_suffix. apply Z.eqb_neq. intros ->.
  unfold starts_with in Hs. apply bool_decide_eq_false in Hs. by apply Hs.
Qed.

Lemma count_separators_spec fuel it r n k :
  (length it <= fuel)%nat -> Z.of_nat (length it) + k < 2 ^ 32 -> 0 <= k -> deleted [OP_CODESEPARATOR] it r n ->
  count_separators fuel it k = k + n.
Proof.
  intros Hf Hlen Hk Hd. revert fuel k Hf Hlen Hk.
  induction Hd as [pc r n Hd IH|pc u pc' op d r n Hs Hop Hpc Hd IH|pc Hs Hop]; intros fuel k Hf Hlen Hk.
  - destruct fuel as [|fuel]; [cbn in Hf; lia|]. cbn [app count_separators]. rewrite GetOp2_separator.
    cbn [app length] in *. rewrite Z.eqb_refl. rewrite wrap_small by (unfold in_range; lia).
    rewrite IH by lia. lia.
  - pose proof (GetOp2_shorter _ _ _ _ Hop). destruct fuel as [|fuel]; [lia|]. cbn [count_separators].
    rewrite Hop, (not_separator _ _ _ _ Hs Hop). apply IH; lia.
  - destruct fuel; cbn [count_separators]; rewrite ?Hop; lia.
Qed.

Lemma write_script_spec fuel it u w r n :
  (length it <= fuel)%nat -> deleted [OP_CODESEPARATOR] it r n ->
  exists w' v e, write_script fuel it (u ++ it) w = (w', v ++ e, e) /\ w' ++ v ++ e = w ++ u ++ r.
Proof.
  intros Hf Hd. revert fuel u w Hf.
  induction Hd as [pc r n Hd IH|pc u' pc' op d r n Hs Hop Hpc Hd IH|pc Hs Hop]; intros fuel u w Hf.
  - destruct fuel as [|fuel]; [cbn in Hf; lia|]. cbn [app write_script]. rewrite GetOp2_separator, Z.eqb_refl.
    cbn [app length] in *. destruct (IH fuel [] (w ++ u)) as (w' & v & e & He & Heq); [lia|].
    exists w', v, e. split; [|by rewrite <- app_assoc in Heq].
    rewrite <- He. cbn [app]. f_equal. f_equal. rewrite length_app. cbn [length].
    replace (length u + S (length pc) - length pc - 1)%nat with (length u) by lia. by rewrite take_app_length.
  - pose proof (GetOp2_shorter _ _ _ _ Hop). destruct fuel as [|fuel]; [lia|]. cbn [write_script].
    rewrite Hop, (not_separator _ _ _ _ Hs Hop).
    destruct (IH fuel (u ++ u') w) as (w' & v & e & He & Heq); [lia|].
    exists w', v, e. split; [|by rewrite <- !app_assoc in Heq].
    rewrite <- He. rewrite Hpc at 1. by rewrite app_assoc.
  - destruct (GetOp2_failed_suffix pc) as (v & Hv). exists w, (u ++ v), (GetOp2_failed pc).
    rewrite <- app_assoc, <- Hv. split; [|done].
    destruct fuel; cbn [write_script]; by rewrite Hop.
Qed.

(** The bytes at the end of a script that [GetOp] never reads: those of an
    incomplete last push. *)
Definition unread (script : bytes) : bytes := (write_script (length script) script script []).2.

(** The in-place serialisation of the script is that of the script without
    its separators, less the bytes that are not read. *)
Lemma SerializeScriptCode_spec script :
  Z.of_nat (length script) < 2 ^ 32 ->
  exists r, (FindAndDelete script [OP_CODESEPARATOR]).1 = r ++ unread script /\
    SerializeScriptCode script = WriteCompactSize (Z.of_nat (length (r ++ unread script))) ++ r.
Proof.
  intros Hlen.
  pose proof (FindAndDelete_loop_spec (length script) [OP_CODESEPARATOR] script script [] 0
    ltac:(done) (le_n _) (ex_intro _ [] eq_refl)) as H.
  unfold FindAndDelete.
  destruct (FindAndDelete_loop _ _ script script [] 0) as [[result pc2] n].
  destruct H as (Hn & r & Hr & He). rewrite Nat.sub_diag in He. cbn [take app] in He. rewrite Z.sub_0_r in Hr.
  assert ((if n >? 0 then (result ++ pc2, n) else (script, n)).1 = r) as ->.
  { rewrite Z.gtb_ltb. destruct (Z.ltb_spec 0 n); [done|]. assert (n = 0) as -> by lia.
    by rewrite (deleted_none _ _ _ Hr). }
  pose proof (deleted_length _ _ _ _ Hr) as Hl. cbn [length] in Hl.
  destruct (write_script_spec (length script) script [] [] r n (le_n _) Hr) as (w' & v & e & Hw & Heq).
  cbn [app] in Hw, Heq. unfold unread, SerializeScriptCode. rewrite Hw. cbn [snd].
  rewrite (count_separators_spec _ _ r n) by (done || lia). exists (w' ++ v).
  rewrite <- app_assoc, Heq. split; [done|].
  rewrite wrap_small by (unfold in_range; lia). f_equal; [f_equal; lia|]. f_equal.
  destruct (v ++ e) as [|x t] eqn:Hve; [by apply app_nil in Hve as [-> ->]|].
  rewrite <- Hve, length_app, Nat.add_sub. by rewrite take_app_length.
Qed.

(** A loop over indices that visits the elements of a list. *)
Lemma mapM_seqZ {A B} (F : Z -> option B) (h : nat -> A -> B) (l : list A) :
  (forall i x, l !! i = Some x -> F (Z.of_nat i) = Some (h i x)) ->
  mapM F (seqZ 0 (Z.of_nat (length l))) = Some (imap h l).
Proof.
  intros HF. apply mapM_Some_2, Forall2_same_length_lookup_2.
  - rewrite length_seqZ, length_imap. lia.
  - intros i z y Hz Hy. rewrite lookup_seqZ in Hz. destruct Hz as [-> Hi].
    rewrite list_lookup_imap in Hy. destruct (l !! i) as [x|] eqn:Hx; [|done].
    injection Hy as <-. rewrite Z.add_0_l. by apply HF.
Qed.

Lemma concat_imap {A B C} (f : B -> list C) (h : nat -> A -> B) l :
  concat (imap (fun i x => f (h i x)) l) = concat (map f (imap h l)).
Proof. f_equal. revert h. induction l as [|x l IH]; intros h; [done|]. cbn. f_equal. apply (IH (h ∘ S)). Qed.

Section old.
Context `{Hs : HashFunctions} `{L : Layout}.
Variables (txTo : CMutableTransaction) (scriptCode : bytes) (nIn : nat) (nHashType : Z).
Hypothesis (Hin : (nIn < length (vin txTo))%nat).
Hypothesis (Hvin : Z.of_nat (length (vin txTo)) < 2 ^ 32) (Hvout : Z.of_nat (length (vout txTo)) < 2 ^ 32).
Hypothesis (Hcode : Z.of_nat (length scriptCode) < 2 ^ 32) (Hunread : unread scriptCode = []).

Abbreviation code := ((FindAndDelete scriptCode [OP_CODESEPARATOR]).1).

Lemma SerializeScriptCode_code : SerializeScriptCode scriptCode = Serialize bytes_codec code.
Proof.
  destruct (SerializeScriptCode_spec scriptCode Hcode) as (r & Hr & ->). rewrite Hr, Hunread, !app_nil_r.
  cbn. f_equal. by destruct (decide (r = [])).
Qed.

(** The input [i] of the edited copy. *)
Definition edited (i : nat) (x : CTxIn) : CTxIn :=
  if decide (i = nIn) then set_scriptSig code x
  else if fHashNone nHashType || fHashSingle nHashType then set_nSequence 0 (set_scriptSig [] x)
  else set_scriptSig [] x.

Lemma edited_vin_imap :
  edited_vin scriptCode txTo nIn nHashType =
    if fAnyoneCanPay nHashType then take 1 (drop nIn (imap edited (vin txTo))) else imap edited (vin txTo).
Proof.
  unfold edited_vin. set (l := if fHashNone nHashType || _ then _ else _).
  assert (l = imap edited (vin txTo)) as ->; [|done]. subst l.
  apply list_eq. intros i. rewrite list_lookup_imap. unfold edited.
  destruct (fHashNone nHashType || fHashSingle nHashType).
  - rewrite list_lookup_imap. destruct (decide (i = nIn)) as [->|Hne].
    + rewrite list_lookup_alter_eq. rewrite list_lookup_fmap. by destruct (vin txTo !! nIn).
    + rewrite list_lookup_alter_ne, list_lookup_fmap by done. by destruct (vin txTo !! i).
  - destruct (decide (i = nIn)) as [->|Hne].
    + rewrite list_lookup_alter_eq, list_lookup_fmap. by destruct (vin txTo !! nIn).
    + rewrite list_lookup_alter_ne, list_lookup_fmap by done. by destruct (vin txTo !! i).
Qed.

Lemma SerializeInput_edited (i j : nat) x :
  j = (if fAnyoneCanPay nHashType then nIn else i) -> vin txTo !! j = Some x ->
  SerializeInput txTo scriptCode (Z.of_nat nIn) nHashType (Z.of_nat i) = Some (Serialize txin_codec (edited j x)).
Proof.
  intros -> Hx. unfold SerializeInput.
  replace (if fAnyoneCanPay nHashType then Z.of_nat nIn else Z.of_nat i)
    with (Z.of_nat (if fAnyoneCanPay nHashType then nIn else i)) by by destruct (fAnyoneCanPay nHashType).
  set (j := if fAnyoneCanPay nHashType then nIn else i) in *. rewrite Nat2Z.id, Hx. cbn [mbind option_bind].
  unfold edited. rewrite orb_comm.
  destruct (decide (j = nIn)) as [->|Hne].
  - rewrite Z.eqb_refl. cbn [negb andb]. by rewrite SerializeScriptCode_code.
  - rewrite (proj2 (Z.eqb_neq _ _)) by lia. cbn [negb andb].
    by destruct (fHashNone nHashType || fHashSingle nHashType).
Qed.

Lemma inputs_edited :
  let nInputs := if fAnyoneCanPay nHashType then 1 else u32 (Z.of_nat (length (vin txTo))) in
  exists ins,
    mapM (SerializeInput txTo scriptCode (Z.of_nat nIn) nHashType) (seqZ 0 nInputs) = Some ins /\
    WriteCompactSize nInputs ++ concat ins = Serialize vin_codec (edited_vin scriptCode txTo nIn nHashType).
Proof.
  cbn zeta. rewrite edited_vin_imap. destruct (fAnyoneCanPay nHashType) eqn:Ha.
  - destruct (lookup_lt_is_Some_2 (vin txTo) nIn Hin) as [x Hx].
    change (seqZ 0 1) with [Z.of_nat 0]. cbn [mapM].
    rewrite (SerializeInput_edited 0 nIn x) by (rewrite ?Ha; done). eexists; split; [reflexivity|].
    assert (imap edited (vin txTo) !! nIn = Some (edited nIn x)) as He by by rewrite list_lookup_imap, Hx.
    rewrite (drop_S _ (edited nIn x)) by done. cbn [take concat Serialize vin_codec vector_codec map].
    reflexivity.
  - rewrite wrap_small by (unfold in_range; lia).
    eexists; split; [apply mapM_seqZ; intros i x Hx; apply SerializeInput_edited; [by rewrite Ha|done]|].
    unfold vin_codec. cbn [Serialize vector_codec]. by rewrite length_imap, concat_imap.
Qed.

Lemma outputs_edited :
  (fHashSingle nHashType = true -> (nIn < length (vout txTo))%nat) ->
  let nOutputs := if fHashNone nHashType then 0 else if fHashSingle nHashType then u32 (Z.of_nat nIn + 1)
                  else u32 (Z.of_nat (length (vout txTo))) in
  exists outs,
    mapM (SerializeOutput txTo (Z.of_nat nIn) nHashType) (seqZ 0 nOutputs) = Some outs /\
    WriteCompactSize nOutputs ++ concat outs = Serialize vout_codec (edited_vout txTo nIn nHashType).
Proof.
  intros Hout. cbn zeta. unfold edited_vout. destruct (fHashNone nHashType) eqn:Hn.
  { exists []. split; [done|]. reflexivity. }
  destruct (fHashSingle nHashType) eqn:Hsg.
  - specialize (Hout eq_refl). rewrite wrap_small by (unfold in_range; lia).
    set (l := take (nIn + 1) (vout txTo)).
    assert (length l = nIn + 1)%nat as Hl by (unfold l; rewrite length_take; lia).
    replace (Z.of_nat nIn + 1) with (Z.of_nat (length l)) by lia. eexists. split.
    + apply (mapM_seqZ _ (fun i x => Serialize txout_codec (if (i <? nIn)%nat then CTxOut_null else x))).
      intros i x Hx. unfold SerializeOutput. rewrite Hsg. cbn [andb].
      pose proof (lookup_lt_Some _ _ _ Hx).
      unfold l in Hx. apply lookup_take_Some in Hx as [Hx Hi]. rewrite Nat2Z.id, Hx.
      destruct (Nat.ltb_spec i nIn).
      * by rewrite (proj2 (Z.eqb_neq _ _)) by lia.
      * by rewrite (proj2 (Z.eqb_eq _ _)) by lia.
    + unfold vout_codec. cbn [Serialize vector_codec]. by rewrite length_imap, concat_imap.
  - rewrite wrap_small by (unfold in_range; lia). eexists. split.
    + apply (mapM_seqZ _ (fun i x => Serialize txout_codec x)).
      intros i x Hx. unfold SerializeOutput. rewrite Hsg. cbn [andb]. by rewrite Nat2Z.id, Hx.
    + unfold vout_codec. cbn [Serialize vector_codec]. do 2 f_equal.
      clear. induction (vout txTo) as [|x l IH]; [done|]. cbn. by f_equal.
Qed.

Lemma SignatureHash_old amount cache :
  SignatureHash scriptCode txTo (Z.of_nat nIn) nHashType amount SIGVERSION_BASE cache =
    Some (SignatureHashOld scriptCode txTo (Z.of_nat nIn) nHashType).
Proof.
  unfold SignatureHash, SignatureHashOld.
  rewrite (proj2 (Z.ltb_lt (Z.of_nat nIn) (Z.of_nat (length (vin txTo))))) by lia.
  rewrite (proj2 (Z.leb_gt (Z.of_nat (length (vin txTo))) (Z.of_nat nIn))) by lia. cbn [negb].
  rewrite decide_False by done. fold (fHashSingle nHashType).
  destruct (fHashSingle nHashType && _) eqn:Hs1; [done|].
  assert (fHashSingle nHashType = true -> (nIn < length (vout txTo))%nat) as Hout.
  { intros Hsg. rewrite Hsg in Hs1. cbn [andb] in Hs1. apply Z.leb_gt in Hs1. lia. }
  unfold SerializeForSignature.
  destruct inputs_edited as (ins & -> & Hins). cbn [mbind option_bind].
  destruct (outputs_edited Hout) as (outs & -> & Houts). cbn [mbind option_bind]. do 3 f_equal.
  rewrite (app_assoc (WriteCompactSize _) (concat ins)), Hins.
  rewrite (app_assoc (WriteCompactSize _) (concat outs)), Houts.
  rewrite Nat2Z.id. unfold SerializeTransaction. change (allow_witness SERIALIZE_TRANSACTION_NO_WITNESS) with false.
  reflexivity.
Qed.
End old.

(** The cache holds what would be computed. *)
Lemma cached_Precompute `{Hs : HashFunctions} txTo field compute :
  (HasWitness txTo = true -> field (Precompute txTo) = compute) ->
  cached (Some (Precompute txTo)) field compute = compute.
Proof. unfold cached, Precompute. destruct (HasWitness txTo); [intros H; by apply H|done]. Qed.

Section checker.
Context `{Hs : HashFunctions} `{E : ed25519} (mem : memory).
Variables (txTo : CMutableTransaction) (nIn : Z) (amount : CAmount) (txdata : option PrecomputedTransactionData).
Hypothesis (Hin : 0 <= nIn < Z.of_nat (length (vin txTo))).
Hypothesis (Hvin : Z.of_nat (length (vin txTo)) < 2 ^ 32).

Lemma vin_lookup : exists x, vin txTo !! Z.to_nat nIn = Some x.
Proof. apply lookup_lt_is_Some_2. lia. Qed.

(** A loop whose body never fails. *)
Lemma mapM_total {A B} (f : A -> option B) l : (forall x, x ∈ l -> is_Some (f x)) -> is_Some (mapM f l).
Proof. intros H. apply mapM_is_Some. apply Forall_forall. exact H. Qed.

Lemma SignatureHash_total scriptCode nHashType sv :
  Z.of_nat (length (vout txTo)) < 2 ^ 32 ->
  is_Some (SignatureHash scriptCode txTo nIn nHashType amount sv txdata).
Proof.
  intros Hvout. destruct vin_lookup as [txin Hx]. unfold SignatureHash.
  rewrite (proj2 (Z.ltb_lt _ _)) by lia. cbn [negb]. destruct (decide _).
  { rewrite Hx. cbn [mbind option_bind]. eauto. }
  fold (fHashSingle nHashType). destruct (fHashSingle nHashType && _) eqn:Hs1; [eauto|].
  unfold SerializeForSignature.
  destruct (mapM_total (SerializeInput txTo scriptCode nIn nHashType)
    (seqZ 0 (if fAnyoneCanPay nHashType then 1 else u32 (Z.of_nat (length (vin txTo)))))) as [ins ->].
  { intros z Hz%elem_of_seqZ. unfold SerializeInput. destruct (fAnyoneCanPay nHashType).
    - rewrite Hx. cbn [mbind option_bind]. eauto.
    - rewrite wrap_small in Hz by (unfold in_range; lia).
      destruct (lookup_lt_is_Some_2 (vin txTo) (Z.to_nat z)) as [y ->]; [lia|]. cbn [mbind option_bind]. eauto. }
  cbn [mbind option_bind].
  match goal with |- context [mapM (SerializeOutput ?a ?b ?c) ?l] =>
    destruct (mapM_total (SerializeOutput a b c) l) as [outs ->] end.
  { intros z Hz%elem_of_seqZ. unfold SerializeOutput.
    destruct (fHashNone nHashType); [lia|]. destruct (fHashSingle nHashType) eqn:Hsg.
    - destruct (Z.eqb_spec z nIn) as [->|]; [|by eauto]. cbn [andb negb] in *. apply Z.leb_gt in Hs1.
      destruct (lookup_lt_is_Some_2 (vout txTo) (Z.to_nat nIn)) as [y ->]; [lia|]. cbn. eauto.
    - rewrite wrap_small in Hz by (unfold in_range; lia). cbn [andb].
      destruct (lookup_lt_is_Some_2 (vout txTo) (Z.to_nat z)) as [y ->]; [lia|]. cbn. eauto. }
  cbn [mbind option_bind]. eauto.
Qed.

(** The checker keeps the promise of the interpreter's interface. *)
Lemma transaction_checker_laws :
  Z.of_nat (length (vout txTo)) < 2 ^ 32 ->
  safety_facts.SignatureCheckerLaws (B := TransactionSignatureChecker mem txTo nIn amount txdata).
Proof.
  intros Hvout. destruct vin_lookup as [txin Hx]. split; cbn.
  - intros sig key code sv. unfold tx_CheckSig. change (negb CPubKey_IsValid) with false. cbn iota.
    destruct (last sig) as [z|]; [|eauto].
    destruct (SignatureHash_total code z sv Hvout) as [h ->]. cbn. match goal with |- context [if ?b then _ else _] => destruct b end; eauto.
  - intros n. unfold tx_CheckLockTime, input_nSequence. rewrite Hx. cbn. repeat case_match; eauto.
  - intros n. unfold tx_CheckSequence, input_nSequence. rewrite Hx. cbn. repeat case_match; eauto.
Qed.
End checker.
End sighash_facts.

(** ** An example *)

Module sighash_example.
Export interpreter_example transaction_example.

(** A signature is its message's first byte, repeated. *)
#[export] Instance verifier : ed25519 := {|
  ed25519_verify sig msg key := if decide (sig = replicate 64 (nth 0 msg 0) /\ key = replicate 32 7) then 1 else 0 |}.

Definition mem0 : memory := {| uninitialised := replicate 32 0; beyond := [] |}.
Definition code : bytes := [OP_CODESEPARATOR; 1; OP_CODESEPARATOR; OP_DUP; OP_CODESEPARATOR].
Definition sighash : uint256 := default [] (SignatureHash code tx 0 SIGHASH_ALL 0 SIGVERSION_BASE None).
Definition sig : bytes := replicate 64 (nth 0 sighash 0).
Definition key : bytes := replicate 32 7.
End sighash_example.

(** ** Properties *)

(** C7: The signature hash.  For an input of the transaction it never fails
    an assertion or reads beyond the inputs or outputs; a precomputed cache
    does not change it; and the hash of a pre-witness signature, which is
    computed by serialising the transaction with changes made on the fly, is
    that of the reference implementation of the unit tests, which edits a copy,
    provided the script code ends with a complete instruction.  In general
    the script written is the script without its separators, less the bytes
    of an incomplete last push, which the length written before still counts. *)
Theorem SignatureHash_correct `{Hs : HashFunctions} `{L : Layout} (txTo : CMutableTransaction)
    (scriptCode : bytes) (nIn nHashType : Z) (amount : CAmount) :
  0 <= nIn < Z.of_nat (length (vin txTo)) ->
  Z.of_nat (length (vin txTo)) < 2 ^ 32 -> Z.of_nat (length (vout txTo)) < 2 ^ 32 ->
  Z.of_nat (length scriptCode) < 2 ^ 32 ->
  (forall sv cache, is_Some (SignatureHash scriptCode txTo nIn nHashType amount sv cache)) /\
  (forall sv, SignatureHash scriptCode txTo nIn nHashType amount sv (Some (Precompute txTo)) =
              SignatureHash scriptCode txTo nIn nHashType amount sv None) /\
  (sighash_facts.unread scriptCode = [] -> forall cache,
     SignatureHash scriptCode txTo nIn nHashType amount SIGVERSION_BASE cache =
     Some (SignatureHashOld scriptCode txTo nIn nHashType)) /\
  (exists r, (FindAndDelete scriptCode [OP_CODESEPARATOR]).1 = r ++ sighash_facts.unread scriptCode /\
     SerializeScriptCode scriptCode =
       WriteCompactSize (Z.of_nat (length (r ++ sighash_facts.unread scriptCode))) ++ r).
Proof.
  intros Hin Hvin Hvout Hcode. split; [|split; [|split]].
  - intros sv cache. by apply sighash_facts.SignatureHash_total.
  - intros sv. unfold SignatureHash.
    rewrite !sighash_facts.cached_Precompute; [reflexivity|..]; unfold Precompute; by intros ->.
  - intros Hu cache. replace nIn with (Z.of_nat (Z.to_nat nIn)) by lia.
    apply sighash_facts.SignatureHash_old; [lia|done..].
  - by apply sighash_facts.SerializeScriptCode_spec.
Qed.

Lemma SignatureHash_correct_witness :
  SignatureHash (Hs := interpreter_example.hashes) sighash_example.code transaction_example.tx 1 SIGHASH_NONE 0 SIGVERSION_BASE None =
  Some (SignatureHashOld (Hs := interpreter_example.hashes) (L := transaction_example.layout)
    sighash_example.code transaction_example.tx 1 SIGHASH_NONE).
Proof.
  apply (SignatureHash_correct (Hs := interpreter_example.hashes) (L := transaction_example.layout)); reflexivity || (cbn; lia).
Defined.

(** C8: Checking a signature.  With a key of 32 bytes and a signature of 64
    bytes followed by its hash type, [CheckSig] says whether the signature
    verifies for the signature hash of that type, and an empty signature is
    refused; with these sizes the outcome does not depend on bytes outside
    the operands.  With other sizes it does: whenever some signature verifies
    for some key, every truncation of that signature is accepted if the
    memory behind it holds the missing bytes, and every key of a wrong size
    is accepted if the uninitialised key object holds the right one. *)
Theorem CheckSig_correct `{Hs : HashFunctions} `{E : ed25519} (mem : memory) (txTo : CMutableTransaction)
    (nIn : Z) (amount : CAmount) (txdata : option PrecomputedTransactionData)
    (scriptCode : bytes) (sv : SigVersion) (sig key : bytes) (nHashType : Z) (sighash : uint256) :
  SignatureHash scriptCode txTo nIn nHashType amount sv txdata = Some sighash ->
  length sig = SIGNATURE_SIZE -> length key = PUBLIC_KEY_SIZE ->
  tx_CheckSig mem txTo nIn amount txdata (sig ++ [nHashType]) key scriptCode sv =
    Ok (ed25519_verify sig sighash key >? 0) /\
  tx_CheckSig mem txTo nIn amount txdata [] key scriptCode sv = Ok false /\
  (ed25519_verify sig sighash key > 0 -> forall m,
     (forall n, beyond m = drop n sig ->
        tx_CheckSig m txTo nIn amount txdata (take n sig ++ [nHashType]) key scriptCode sv = Ok true) /\
     (forall other, length other <> PUBLIC_KEY_SIZE -> uninitialised m = key ->
        tx_CheckSig m txTo nIn amount txdata (sig ++ [nHashType]) other scriptCode sv = Ok true)).
Proof.
  intros Hh Hsig Hkey.
  assert (forall m s k, tx_CheckSig m txTo nIn amount txdata (s ++ [nHashType]) k scriptCode sv =
    Ok (ed25519_verify (take SIGNATURE_SIZE (s ++ beyond m)) sighash (CPubKey_of m k) >? 0)) as Hcheck.
  { intros m s k. unfold tx_CheckSig. change (negb CPubKey_IsValid) with false. cbn iota.
    rewrite last_snoc, Hh, length_app. cbn [length asserted mbind result_bind]. rewrite Nat.add_sub, take_app_length.
    unfold VerifySignature, CPubKey_Verify. change (negb CPubKey_IsValid) with false. cbn iota.
    by destruct (_ >? 0). }
  split; [|split].
  - rewrite Hcheck. unfold CPubKey_of. rewrite Hkey, Nat.eqb_refl. by rewrite <- Hsig, take_app_length.
  - reflexivity.
  - intros Hv m. split.
    + intros n Hm. rewrite Hcheck, Hm, take_drop. unfold CPubKey_of. rewrite Hkey, Nat.eqb_refl.
      rewrite <- Hsig, firstn_all. f_equal. rewrite Z.gtb_ltb. apply Z.ltb_lt. lia.
    + intros other Ho Hm. rewrite Hcheck. unfold CPubKey_of. rewrite (proj2 (Nat.eqb_neq _ _) Ho), Hm.
      rewrite <- Hsig, take_app_length. f_equal. rewrite Z.gtb_ltb. apply Z.ltb_lt. lia.
Qed.

Lemma CheckSig_correct_witness :
  tx_CheckSig (Hs := interpreter_example.hashes) (E := sighash_example.verifier)
    {| uninitialised := sighash_example.key; beyond := [] |} transaction_example.tx 0 0 None
    (sighash_example.sig ++ [SIGHASH_ALL]) [1; 2; 3] sighash_example.code SIGVERSION_BASE = Ok true.
Proof.
  eapply (CheckSig_correct (Hs := interpreter_example.hashes) (E := sighash_example.verifier) sighash_example.mem0
    transaction_example.tx 0 0 None sighash_example.code SIGVERSION_BASE sighash_example.sig sighash_example.key
    SIGHASH_ALL sighash_example.sighash); try reflexivity. discriminate.
Defined.
