(* ===== verification/Coins.v ===== *)
(** * The unspent output cache ([coins.h], [coins.cpp])

    [CCoinsView] is the typeclass of the views; its laws say that a view
    stands for a finite map from outpoints to unspent coins.
    [CCoinsViewCache] is a view over any other view: the instance at the end
    of [coins_facts] shows that it keeps the laws, so that caches stack.  The
    methods that C++ declares [const] but that fill the cache return the new
    state. *)

From S2P Require Import Prelude Uint256 Script Interpreter Serialize Transaction.

(** ** Coins *)

Record Coin := { coin_out : CTxOut; fCoinBase : bool; coin_nHeight : Z }.

#[export] Instance Coin_eq_dec : EqDecision Coin.
Proof. solve_decision. Defined.

(** [Coin(out, nHeight, fCoinBase)]: the height is a field of 31 bits. *)
Definition make_Coin (out : CTxOut) (nHeightIn : Z) (fCoinBaseIn : bool) : Coin :=
  {| coin_out := out; fCoinBase := fCoinBaseIn; coin_nHeight := wrap 31 nHeightIn |}.
(** [Coin()], also what [Clear] leaves. *)
Definition Coin_empty : Coin := {| coin_out := CTxOut_null; fCoinBase := false; coin_nHeight := 0 |}.
Definition Coin_IsSpent (c : Coin) : bool := CTxOut_IsNull (coin_out c).

Record CCoinsCacheEntry := { entry_coin : Coin; entry_flags : Z }.
Definition DIRTY : Z := Z.shiftl 1 0.
Definition FRESH : Z := Z.shiftl 1 1.

Abbreviation CCoinsMap := (gmap COutPoint CCoinsCacheEntry).

(** The failed assertion, the two [std::logic_error]s, and the
    [dbwrapper_error] that a database throws. *)
Inductive coins_error :=
  | adding_spent_coin
  | replacing_unspent_entry
  | fresh_misapplied
  | database_error.

#[export] Instance coins_error_eq_dec : EqDecision coins_error.
Proof. solve_decision. Defined.

(** ** Views *)

(** The virtual functions of [CCoinsView]; [GetCoin] is [None] when it
    returns false.  [BatchWrite] gets the entries in the order of the iteration
    over the map, which it erases as it goes: what comes back is the view, the
    entries that are still in the map, and the result or the exception. *)
Class CCoinsView (V : Type) := {
  GetCoin : V -> COutPoint -> V * option Coin;
  GetBestBlock : V -> V * uint256;
  BatchWrite : V -> list (COutPoint * CCoinsCacheEntry) -> uint256 ->
    V * list (COutPoint * CCoinsCacheEntry) * result coins_error bool;
}.

(** What is not in these files: the order of a salted [unordered_map], and
    the memory that the allocator reserves for a coin. *)
Class CoinsPlatform := {
  iterate : CCoinsMap -> list (COutPoint * CCoinsCacheEntry);
  DynamicMemoryUsage : Coin -> Z;
}.
Class CoinsPlatformLaws `(CoinsPlatform) : Prop := {
  iterate_perm : forall m, iterate m ≡ₚ map_to_list m;
  usage_empty : forall c, scriptPubKey (coin_out c) = [] -> DynamicMemoryUsage c = 0;
}.

(** ** [CCoinsViewCache] *)

Record CCoinsViewCache (V : Type) := {
  view_base : V;
  hashBlock : uint256;
  cacheCoins : CCoinsMap;
  cachedCoinsUsage : Z;
}.
Arguments view_base {V} c.
Arguments hashBlock {V} c.
Arguments cacheCoins {V} c.
Arguments cachedCoinsUsage {V} c.

Section cache.
Context {V : Type} `{CV : CCoinsView V} `{P : CoinsPlatform}.

Definition make_cache (baseIn : V) : CCoinsViewCache V :=
  {| view_base := baseIn; hashBlock := uint256_null; cacheCoins := ∅; cachedCoinsUsage := 0 |}.

Definition set_base (b : V) (c : CCoinsViewCache V) : CCoinsViewCache V :=
  {| view_base := b; hashBlock := hashBlock c; cacheCoins := cacheCoins c; cachedCoinsUsage := cachedCoinsUsage c |}.
Definition set_cache (m : CCoinsMap) (usage : Z) (c : CCoinsViewCache V) : CCoinsViewCache V :=
  {| view_base := view_base c; hashBlock := hashBlock c; cacheCoins := m; cachedCoinsUsage := u64 usage |}.

(** The entry found, in the cache after the call. *)
Definition FetchCoin (c : CCoinsViewCache V) (outpoint : COutPoint) : CCoinsViewCache V * option CCoinsCacheEntry :=
  match cacheCoins c !! outpoint with
  | Some e => (c, Some e)
  | None =>
      let '(b, tmp) := GetCoin (view_base c) outpoint in
      let c := set_base b c in
      match tmp with
      | None => (c, None)
      | Some coin =>
          let e := {| entry_coin := coin; entry_flags := if Coin_IsSpent coin then FRESH else 0 |} in
          (set_cache (<[outpoint := e]> (cacheCoins c)) (cachedCoinsUsage c + DynamicMemoryUsage coin) c, Some e)
      end
  end.

Definition cache_GetCoin (c : CCoinsViewCache V) (outpoint : COutPoint) : CCoinsViewCache V * option Coin :=
  match FetchCoin c outpoint with
  | (c, Some e) => (c, if negb (Coin_IsSpent (entry_coin e)) then Some (entry_coin e) else None)
  | (c, None) => (c, None)
  end.

Definition AddCoin (c : CCoinsViewCache V) (outpoint : COutPoint) (coin : Coin) (possible_overwrite : bool)
    : result coins_error (CCoinsViewCache V) :=
  check (negb (Coin_IsSpent coin)) adding_spent_coin;;
  if CScript.IsUnspendable (scriptPubKey (coin_out coin)) then Ok c
  else
    let '(it, inserted) :=
      match cacheCoins c !! outpoint with
      | Some e => (e, false)
      | None => ({| entry_coin := Coin_empty; entry_flags := 0 |}, true)
      end in
    let usage := if negb inserted then u64 (cachedCoinsUsage c - DynamicMemoryUsage (entry_coin it))
                 else cachedCoinsUsage c in
    fresh ← (if negb possible_overwrite then
               check (Coin_IsSpent (entry_coin it)) replacing_unspent_entry;;
               Ok (negb (has (entry_flags it) DIRTY))
             else Ok false);
    let e := {| entry_coin := coin;
                entry_flags := Z.lor (entry_flags it) (Z.lor DIRTY (if fresh : bool then FRESH else 0)) |} in
    Ok (set_cache (<[outpoint := e]> (cacheCoins c)) (usage + DynamicMemoryUsage coin) c).

(** Whether an entry was found, and the coin moved out. *)
Definition SpendCoin (c : CCoinsViewCache V) (outpoint : COutPoint) : CCoinsViewCache V * option Coin :=
  match FetchCoin c outpoint with
  | (c, None) => (c, None)
  | (c, Some e) =>
      let usage := cachedCoinsUsage c - DynamicMemoryUsage (entry_coin e) in
      if has (entry_flags e) FRESH
      then (set_cache (delete outpoint (cacheCoins c)) usage c, Some (entry_coin e))
      else
        let e' := {| entry_coin := Coin_empty; entry_flags := Z.lor (entry_flags e) DIRTY |} in
        (set_cache (<[outpoint := e']> (cacheCoins c)) usage c, Some (entry_coin e))
  end.

Definition AccessCoin (c : CCoinsViewCache V) (outpoint : COutPoint) : CCoinsViewCache V * Coin :=
  match FetchCoin c outpoint with
  | (c, None) => (c, Coin_empty)
  | (c, Some e) => (c, entry_coin e)
  end.

Definition HaveCoin (c : CCoinsViewCache V) (outpoint : COutPoint) : CCoinsViewCache V * bool :=
  match FetchCoin c outpoint with
  | (c, None) => (c, false)
  | (c, Some e) => (c, negb (Coin_IsSpent (entry_coin e)))
  end.

Definition HaveCoinInCache (c : CCoinsViewCache V) (outpoint : COutPoint) : bool :=
  match cacheCoins c !! outpoint with
  | None => false
  | Some e => negb (Coin_IsSpent (entry_coin e))
  end.

Definition cache_GetBestBlock (c : CCoinsViewCache V) : CCoinsViewCache V * uint256 :=
  if base_blob.IsNull (hashBlock c) then
    let '(b, h) := GetBestBlock (view_base c) in
    ({| view_base := b; hashBlock := h; cacheCoins := cacheCoins c; cachedCoinsUsage := cachedCoinsUsage c |}, h)
  else (c, hashBlock c).

Definition SetBestBlock (c : CCoinsViewCache V) (hashBlockIn : uint256) : CCoinsViewCache V :=
  {| view_base := view_base c; hashBlock := hashBlockIn; cacheCoins := cacheCoins c;
     cachedCoinsUsage := cachedCoinsUsage c |}.

(** One iteration of [BatchWrite]: the entry of the child is [e]. *)
Definition write_entry (c : CCoinsViewCache V) (outpoint : COutPoint) (e : CCoinsCacheEntry)
    : result coins_error (CCoinsViewCache V) :=
  if negb (has (entry_flags e) DIRTY) then Ok c
  else
    match cacheCoins c !! outpoint with
    | None =>
        if negb (has (entry_flags e) FRESH && Coin_IsSpent (entry_coin e)) then
          let flags := Z.lor DIRTY (if has (entry_flags e) FRESH then FRESH else 0) in
          let e' := {| entry_coin := entry_coin e; entry_flags := flags |} in
          Ok (set_cache (<[outpoint := e']> (cacheCoins c)) (cachedCoinsUsage c + DynamicMemoryUsage (entry_coin e)) c)
        else Ok c
    | Some us =>
        check (negb (has (entry_flags e) FRESH && negb (Coin_IsSpent (entry_coin us)))) fresh_misapplied;;
        let usage := cachedCoinsUsage c - DynamicMemoryUsage (entry_coin us) in
        if has (entry_flags us) FRESH && Coin_IsSpent (entry_coin e)
        then Ok (set_cache (delete outpoint (cacheCoins c)) usage c)
        else
          let e' := {| entry_coin := entry_coin e; entry_flags := Z.lor (entry_flags us) DIRTY |} in
          Ok (set_cache (<[outpoint := e']> (cacheCoins c)) (u64 usage + DynamicMemoryUsage (entry_coin e)) c)
    end.

(** The loop of [BatchWrite]; an exception leaves what was not written. *)
Fixpoint write_entries (c : CCoinsViewCache V) (mapCoins : list (COutPoint * CCoinsCacheEntry))
    : CCoinsViewCache V * list (COutPoint * CCoinsCacheEntry) * result coins_error unit :=
  match mapCoins with
  | [] => (c, [], Ok ())
  | (outpoint, e) :: rest =>
      match write_entry c outpoint e with
      | Ok c => write_entries c rest
      | Err x => (c, mapCoins, Err x)
      end
  end.

Definition cache_BatchWrite (c : CCoinsViewCache V) (mapCoins : list (COutPoint * CCoinsCacheEntry))
    (hashBlockIn : uint256) : CCoinsViewCache V * list (COutPoint * CCoinsCacheEntry) * result coins_error bool :=
  match write_entries c mapCoins with
  | (c, rest, Ok _) => (SetBestBlock c hashBlockIn, rest, Ok true)
  | (c, rest, Err x) => (c, rest, Err x)
  end.

(** The cache is cleared whatever the result is, but not after an exception. *)
Definition Flush (c : CCoinsViewCache V) : CCoinsViewCache V * result coins_error bool :=
  match BatchWrite (view_base c) (iterate (cacheCoins c)) (hashBlock c) with
  | (b, _, Ok fOk) => (set_cache ∅ 0 (set_base b c), Ok fOk)
  | (b, rest, Err x) => (set_cache (list_to_map rest) (cachedCoinsUsage c) (set_base b c), Err x)
  end.

Definition Uncache (c : CCoinsViewCache V) (outpoint : COutPoint) : CCoinsViewCache V :=
  match cacheCoins c !! outpoint with
  | Some e =>
      if entry_flags e =? 0
      then set_cache (delete outpoint (cacheCoins c)) (cachedCoinsUsage c - DynamicMemoryUsage (entry_coin e)) c
      else c
  | None => c
  end.

Definition GetCacheSize (c : CCoinsViewCache V) : Z := u32 (Z.of_nat (size (cacheCoins c))).

(** [AddCoins]: the outputs of a transaction, from index [i]. *)
Fixpoint AddCoins_loop (c : CCoinsViewCache V) (txid : uint256) (vout : list CTxOut) (i : Z)
    (nHeight : Z) (fCoinbase check : bool) : result coins_error (CCoinsViewCache V) :=
  match vout with
  | [] => Ok c
  | out :: vout =>
      let o := {| op_hash := txid; op_n := u32 i |} in
      let '(c, overwrite) := if check then HaveCoin c o else (c, fCoinbase) in
      c ← AddCoin c o (make_Coin out nHeight fCoinbase) overwrite;
      AddCoins_loop c txid vout (i + 1) nHeight fCoinbase check
  end.
Definition AddCoins (c : CCoinsViewCache V) (tx : CTransaction) (nHeight : Z) (check : bool) :=
  AddCoins_loop c (GetHash tx) (vout tx) 0 nHeight (IsCoinBase tx) check.

(** [HaveInputs]; the loop stops at the first input missing. *)
Fixpoint HaveInputs_loop (c : CCoinsViewCache V) (vin : list CTxIn) : CCoinsViewCache V * bool :=
  match vin with
  | [] => (c, true)
  | i :: vin =>
      match HaveCoin c (prevout i) with
      | (c, true) => HaveInputs_loop c vin
      | (c, false) => (c, false)
      end
  end.
Definition HaveInputs (c : CCoinsViewCache V) (tx : CMutableTransaction) : CCoinsViewCache V * bool :=
  if negb (IsCoinBase tx) then HaveInputs_loop c (vin tx) else (c, true).

(** The [int64_t] sum of the input values. *)
Fixpoint GetValueIn_loop (c : CCoinsViewCache V) (vin : list CTxIn) (nResult : CAmount) : CCoinsViewCache V * CAmount :=
  match vin with
  | [] => (c, nResult)
  | i :: vin =>
      let '(c, coin) := AccessCoin c (prevout i) in
      GetValueIn_loop c vin (nResult + nValue (coin_out coin))
  end.
Definition GetValueIn (c : CCoinsViewCache V) (tx : CMutableTransaction) : CCoinsViewCache V * CAmount :=
  if IsCoinBase tx then (c, 0) else GetValueIn_loop c (vin tx) 0.

(** A cache is a view. *)
#[export] Instance cache_view : CCoinsView (CCoinsViewCache V) := {|
  GetCoin := cache_GetCoin; GetBestBlock := cache_GetBestBlock; BatchWrite := cache_BatchWrite |}.
End cache.

(** ** What a view promises *)

Abbreviation utxo := (gmap COutPoint Coin).

(** What an entry says about its outpoint. *)
Definition entry_value (e : CCoinsCacheEntry) : option Coin :=
  if Coin_IsSpent (entry_coin e) then None else Some (entry_coin e).

(** Writing the modified entries to a set of coins. *)
Definition apply_entry (o : COutPoint) (e : CCoinsCacheEntry) (m : utxo) : utxo :=
  if has (entry_flags e) DIRTY then partial_alter (fun _ => entry_value e) o m else m.
Definition apply_entries (l : list (COutPoint * CCoinsCacheEntry)) (m : utxo) : utxo :=
  foldl (fun m p => apply_entry p.1 p.2 m) m l.

(** A modified entry marked fresh has no unspent coin below it. *)
Definition fresh_ok (m : utxo) (o : COutPoint) (e : CCoinsCacheEntry) : Prop :=
  has (entry_flags e) DIRTY = true -> has (entry_flags e) FRESH = true -> m !! o = None.

(** A write that works, as it does on a [writable] view, applies the entries
    and sets the best block.  One that fails has written some of the coins and
    not others, and a best block that it did not leave alone is not there:
    [CCoinsViewDB] takes it out in its first batch. *)
Class CoinsViewLaws {V : Type} `(CCoinsView V) := {
  view_ok : V -> Prop;
  coins : V -> utxo;
  best : V -> uint256;
  GetCoin_ok v o v' r : view_ok v -> GetCoin v o = (v', r) ->
    view_ok v' /\ coins v' = coins v /\ best v' = best v /\ r = coins v !! o;
  coins_unspent v o c : view_ok v -> coins v !! o = Some c -> Coin_IsSpent c = false;
  GetBestBlock_ok v v' h : view_ok v -> GetBestBlock v = (v', h) ->
    view_ok v' /\ coins v' = coins v /\ best v' = best v /\ h = best v;
  writable : V -> Prop;
  writable_best v : view_ok v -> writable v -> writable (GetBestBlock v).1;
  BatchWrite_ok v l h v' rest r : view_ok v -> NoDup l.*1 -> (forall o e, (o, e) ∈ l -> fresh_ok (coins v) o e) ->
    BatchWrite v l h = (v', rest, r) ->
    view_ok v' /\ (writable v -> r = Ok true) /\
    if decide (r = Ok true)
    then coins v' = apply_entries l (coins v) /\ (base_blob.IsNull h = false -> best v' = h)
    else (r = Ok false \/ r = Err database_error) /\ rest `suffix_of` l /\
      (forall o, coins v' !! o = coins v !! o \/ coins v' !! o = apply_entries l (coins v) !! o) /\
      (best v' = best v \/ base_blob.IsNull (best v') = true);
}.

Module coins_facts.

Lemma has_lor a b f : has (Z.lor a b) f = has a f || has b f.
Proof.
  unfold has. rewrite Z.land_lor_distr_l.
  destruct (Z.eqb_spec (Z.land a f) 0) as [->|Ha]; [by rewrite Z.lor_0_l|].
  destruct (Z.eqb_spec (Z.lor (Z.land a f) (Z.land b f)) 0) as [H|]; [|done].
  by apply Z.lor_eq_0_iff in H as [? _].
Qed.

Lemma has_0 f : has 0 f = false.
Proof. done. Qed.

Lemma apply_entries_out l m o : o ∉ l.*1 -> apply_entries l m !! o = m !! o.
Proof.
  revert m. induction l as [|[o' e] l IH]; intros m Ho; [done|].
  cbn in Ho. apply not_elem_of_cons in Ho as [Hne Ho]. unfold apply_entries in *. cbn [foldl fst snd].
  rewrite IH by done. unfold apply_entry. destruct (has _ _); [|done].
  by rewrite lookup_partial_alter_ne by done.
Qed.

Lemma apply_entries_in l m o e :
  NoDup l.*1 -> (o, e) ∈ l ->
  apply_entries l m !! o = if has (entry_flags e) DIRTY then entry_value e else m !! o.
Proof.
  revert m. induction l as [|[o' e'] l IH]; intros m Hnd He; [by apply elem_of_nil in He|].
  cbn in Hnd. apply NoDup_cons in Hnd as [Hout Hnd]. unfold apply_entries. cbn [foldl fst snd].
  fold (apply_entries l (apply_entry o' e' m)).
  apply elem_of_cons in He as [[= -> ->]|He].
  - rewrite apply_entries_out by done. unfold apply_entry. destruct (has _ _); [|done].
    by rewrite lookup_partial_alter_eq.
  - rewrite IH by done. destruct (has (entry_flags e) DIRTY); [done|].
    unfold apply_entry. destruct (has (entry_flags e') _); [|done]. rewrite lookup_partial_alter_ne; [done|].
    intros ->. apply Hout. apply list_elem_of_fmap. by exists (o, e).
Qed.

(** The coins of a cache: its entries over the coins of the base. *)
Definition overlay (m : CCoinsMap) (b : utxo) : utxo :=
  merge (fun e c => match e with Some e => entry_value e | None => c end) m b.

Lemma overlay_lookup m b o :
  overlay m b !! o = match m !! o with Some e => entry_value e | None => b !! o end.
Proof. unfold overlay. rewrite lookup_merge. unfold diag_None. by destruct (m !! o), (b !! o). Qed.

Lemma overlay_insert m b o e : overlay (<[o := e]> m) b = partial_alter (fun _ => entry_value e) o (overlay m b).
Proof.
  apply map_eq. intros o'. rewrite overlay_lookup. destruct (decide (o' = o)) as [->|Hne].
  - by rewrite lookup_insert_eq, lookup_partial_alter_eq.
  - by rewrite lookup_insert_ne, lookup_partial_alter_ne, overlay_lookup by done.
Qed.

Lemma overlay_delete m b o : b !! o = None -> overlay (delete o m) b = delete o (overlay m b).
Proof.
  intros Hb. apply map_eq. intros o'. rewrite overlay_lookup. destruct (decide (o' = o)) as [->|Hne].
  - by rewrite !lookup_delete_eq.
  - by rewrite !lookup_delete_ne, overlay_lookup by done.
Qed.

Section cache.
Context {V : Type} `{CV : CCoinsView V} `{P : CoinsPlatform} `{PL : !CoinsPlatformLaws P} `{CL : !CoinsViewLaws CV}.
Implicit Types (c : CCoinsViewCache V) (m : CCoinsMap).

(** *** The memory of the entries *)

Definition total m : Z := map_fold (fun _ e t => DynamicMemoryUsage (entry_coin e) + t) 0 m.

Lemma total_empty : total ∅ = 0.
Proof. apply map_fold_empty. Qed.

Lemma total_insert_new m o e :
  m !! o = None -> total (<[o := e]> m) = DynamicMemoryUsage (entry_coin e) + total m.
Proof. intros H. unfold total. rewrite map_fold_insert_L; [done|intros; lia|done]. Qed.

Lemma total_delete m o e : m !! o = Some e -> total (delete o m) = total m - DynamicMemoryUsage (entry_coin e).
Proof.
  intros H. rewrite <- (insert_delete_id m o e H) at 2. rewrite total_insert_new by apply lookup_delete_eq. lia.
Qed.

Lemma total_insert m o e e' :
  m !! o = Some e ->
  total (<[o := e']> m) = total m - DynamicMemoryUsage (entry_coin e) + DynamicMemoryUsage (entry_coin e').
Proof.
  intros H. rewrite <- insert_delete_eq. rewrite total_insert_new by apply lookup_delete_eq.
  rewrite (total_delete m o e H). lia.
Qed.

(** *** The invariant *)

(** A clean entry repeats the base; nothing is below a fresh one. *)
Definition entry_ok (b : utxo) (o : COutPoint) (e : CCoinsCacheEntry) : Prop :=
  (has (entry_flags e) DIRTY = false -> b !! o = entry_value e) /\
  (has (entry_flags e) FRESH = true -> b !! o = None).

Record cache_ok c : Prop := {
  base_ok : view_ok (view_base c);
  entries_ok : map_Forall (entry_ok (coins (view_base c))) (cacheCoins c);
  usage_ok : cachedCoinsUsage c = u64 (total (cacheCoins c));
}.

Definition cache_coins c : utxo := overlay (cacheCoins c) (coins (view_base c)).
Definition cache_best c : uint256 :=
  if base_blob.IsNull (hashBlock c) then best (view_base c) else hashBlock c.

Lemma cache_coins_unspent c o coin : cache_ok c -> cache_coins c !! o = Some coin -> Coin_IsSpent coin = false.
Proof.
  intros Hc. unfold cache_coins. rewrite overlay_lookup. destruct (cacheCoins c !! o) as [e|].
  - unfold entry_value. by destruct (Coin_IsSpent (entry_coin e)) eqn:?; intros [= <-].
  - apply coins_unspent. apply Hc.
Qed.

Lemma u64_eq_sub a b x : a = u64 b -> u64 (a - x) = u64 (b - x).
Proof. intros ->. unfold wrap. by rewrite Zminus_mod_idemp_l. Qed.

Lemma u64_eq_add a b x : a = u64 b -> u64 (a + x) = u64 (b + x).
Proof. intros ->. apply wrap_add_l. Qed.

(** Storing an entry. *)
Lemma cache_insert_ok c o e usage :
  cache_ok c -> entry_ok (coins (view_base c)) o e ->
  u64 usage = u64 (total (<[o := e]> (cacheCoins c))) ->
  let c' := set_cache (<[o := e]> (cacheCoins c)) usage c in
  cache_ok c' /\ cache_coins c' = partial_alter (fun _ => entry_value e) o (cache_coins c) /\
  cache_best c' = cache_best c.
Proof.
  intros Hc He Hu. cbn. split; [|split; [apply overlay_insert|done]].
  split; cbn; [apply Hc| |done]. apply map_Forall_insert_2; [done|apply Hc].
Qed.

Lemma cache_delete_ok c o usage :
  cache_ok c -> coins (view_base c) !! o = None -> u64 usage = u64 (total (delete o (cacheCoins c))) ->
  let c' := set_cache (delete o (cacheCoins c)) usage c in
  cache_ok c' /\ cache_coins c' = delete o (cache_coins c) /\ cache_best c' = cache_best c.
Proof.
  intros Hc He Hu. cbn. split; [|split; [by apply overlay_delete|done]].
  split; cbn; [apply Hc| |done]. apply map_Forall_delete, Hc.
Qed.

Lemma partial_alter_same {A} (m : gmap COutPoint A) o v : m !! o = v -> partial_alter (fun _ => v) o m = m.
Proof.
  intros H. apply map_eq. intros o'. destruct (decide (o' = o)) as [->|].
  - by rewrite lookup_partial_alter_eq.
  - by rewrite lookup_partial_alter_ne.
Qed.

Lemma FetchCoin_ok c o c' r :
  cache_ok c -> FetchCoin c o = (c', r) ->
  cache_ok c' /\ cache_coins c' = cache_coins c /\ cache_best c' = cache_best c /\
  cacheCoins c' !! o = r /\ cache_coins c !! o = r ≫= entry_value.
Proof.
  intros Hc. unfold FetchCoin, cache_coins at 3. rewrite overlay_lookup.
  destruct (cacheCoins c !! o) as [e|] eqn:Ho; [by intros [= <- <-]|].
  destruct (GetCoin (view_base c) o) as [b tmp] eqn:Hg.
  apply GetCoin_ok in Hg as (Hb & Hcoins & Hbest & ->); [|apply Hc].
  assert (cache_ok (set_base b c)) as Hc'.
  { split; cbn; [done|rewrite Hcoins; apply Hc|apply Hc]. }
  assert (cache_coins (set_base b c) = cache_coins c) as Hcc by (unfold cache_coins; cbn; by rewrite Hcoins).
  assert (cache_best (set_base b c) = cache_best c) as Hcb by (unfold cache_best; cbn; by rewrite Hbest).
  destruct (coins (view_base c) !! o) as [coin|] eqn:Hcoin; [|by intros [= <- <-]].
  pose proof (coins_unspent _ _ _ (base_ok _ Hc) Hcoin) as Hun. rewrite Hun. intros [= <- <-].
  set (e := {| entry_coin := coin; entry_flags := 0 |}).
  assert (entry_value e = Some coin) as Hv by (unfold entry_value; cbn; by rewrite Hun).
  destruct (cache_insert_ok (set_base b c) o e (cachedCoinsUsage (set_base b c) + DynamicMemoryUsage coin)) as (H1 & H2 & H3).
  - done.
  - split; cbn; [intros _; by rewrite Hcoins, Hcoin, Hv|done].
  - cbn. rewrite total_insert_new by done. rewrite (u64_eq_add _ _ _ (usage_ok _ Hc)). f_equal. cbn. lia.
  - change (cacheCoins (set_base b c)) with (cacheCoins c) in *.
    change (cachedCoinsUsage (set_base b c)) with (cachedCoinsUsage c) in *.
    split; [done|]. rewrite H2, H3, Hcc, Hcb. split.
    { apply partial_alter_same. rewrite Hv. unfold cache_coins. by rewrite overlay_lookup, Ho. }
    split; [done|]. cbn. rewrite lookup_insert_eq. by rewrite Hv.
Qed.

Lemma entry_value_Some e coin : entry_value e = Some coin -> coin = entry_coin e /\ Coin_IsSpent coin = false.
Proof. unfold entry_value. destruct (Coin_IsSpent _) eqn:?; [done|]. by intros [= <-]. Qed.

Lemma coin_of_entry c o e :
  cacheCoins c !! o = Some e -> cache_coins c !! o = entry_value e.
Proof. intros H. unfold cache_coins. by rewrite overlay_lookup, H. Qed.

(** *** The operations *)

Lemma cache_GetCoin_ok c o c' r :
  cache_ok c -> cache_GetCoin c o = (c', r) ->
  cache_ok c' /\ cache_coins c' = cache_coins c /\ cache_best c' = cache_best c /\ r = cache_coins c !! o.
Proof.
  intros Hc. unfold cache_GetCoin. destruct (FetchCoin c o) as [c1 [e|]] eqn:Hf;
    apply FetchCoin_ok in Hf as (H1 & H2 & H3 & H4 & H5); try done; intros [= <- <-]; rewrite H5; cbn.
  - unfold entry_value. by destruct (Coin_IsSpent (entry_coin e)).
  - done.
Qed.

Lemma AccessCoin_ok c o c' coin :
  cache_ok c -> AccessCoin c o = (c', coin) ->
  cache_ok c' /\ cache_coins c' = cache_coins c /\ cache_best c' = cache_best c /\
  cache_coins c !! o = if Coin_IsSpent coin then None else Some coin.
Proof.
  intros Hc. unfold AccessCoin. destruct (FetchCoin c o) as [c1 [e|]] eqn:Hf;
    apply FetchCoin_ok in Hf as (H1 & H2 & H3 & H4 & H5); try done; intros [= <- <-]; by rewrite H5.
Qed.

Lemma HaveCoin_ok c o c' b :
  cache_ok c -> HaveCoin c o = (c', b) ->
  cache_ok c' /\ cache_coins c' = cache_coins c /\ cache_best c' = cache_best c /\
  b = bool_decide (is_Some (cache_coins c !! o)).
Proof.
  intros Hc. unfold HaveCoin. destruct (FetchCoin c o) as [c1 [e|]] eqn:Hf;
    apply FetchCoin_ok in Hf as (H1 & H2 & H3 & H4 & H5); try done; intros [= <- <-]; rewrite H5; cbn.
  - unfold entry_value. by destruct (Coin_IsSpent (entry_coin e)).
  - done.
Qed.

Lemma HaveCoinInCache_ok c o : HaveCoinInCache c o = true -> is_Some (cache_coins c !! o).
Proof.
  unfold HaveCoinInCache. destruct (cacheCoins c !! o) as [e|] eqn:He; [|done].
  rewrite (coin_of_entry _ _ _ He). unfold entry_value. destruct (Coin_IsSpent (entry_coin e)); cbn; [done|eauto].
Qed.

Lemma AddCoin_ok c o coin po :
  cache_ok c -> Coin_IsSpent coin = false -> po = true \/ cache_coins c !! o = None ->
  exists c', AddCoin c o coin po = Ok c' /\ cache_ok c' /\ cache_best c' = cache_best c /\
    cache_coins c' = if CScript.IsUnspendable (scriptPubKey (coin_out coin)) then cache_coins c
                     else <[o := coin]> (cache_coins c).
Proof.
  intros Hc Hun Hpo. unfold AddCoin. rewrite Hun. cbn [negb check mbind result_bind].
  destruct (CScript.IsUnspendable _); [by exists c|].
  assert (forall e usage, entry_coin e = coin -> has (entry_flags e) DIRTY = true ->
    (has (entry_flags e) FRESH = true -> coins (view_base c) !! o = None) ->
    u64 usage = u64 (total (<[o := e]> (cacheCoins c))) ->
    exists c', Ok (E := coins_error) (set_cache (<[o := e]> (cacheCoins c)) usage c) = Ok c' /\ cache_ok c' /\
      cache_best c' = cache_best c /\ cache_coins c' = <[o := coin]> (cache_coins c)) as Hput.
  { intros e usage He Hd Hfr Hu.
    destruct (cache_insert_ok c o e usage Hc) as (H1 & H2 & H3); [|done|].
    - split; [congruence|done].
    - eexists; split; [done|]. split; [done|]. split; [done|]. rewrite H2. unfold entry_value. by rewrite He, Hun. }
  destruct (cacheCoins c !! o) as [it|] eqn:Hit; cbn [negb].
  - assert (po = true \/ Coin_IsSpent (entry_coin it) = true) as Hsp.
    { destruct Hpo as [|Hpo]; [by left|right]. rewrite (coin_of_entry _ _ _ Hit) in Hpo.
      unfold entry_value in Hpo. destruct (Coin_IsSpent (entry_coin it)); [done|discriminate]. }
    pose proof (entries_ok _ Hc o it Hit) as [Hclean Hfresh].
    set (fresh := negb po && negb (has (entry_flags it) DIRTY)).
    match goal with |- context [?m ≫= _] => assert (m = Ok fresh) as -> end.
    { unfold fresh. destruct po; [done|]. destruct Hsp as [|Hsp]; [done|]. by rewrite Hsp. }
    cbn [mbind result_bind]. apply Hput; cbn [entry_coin entry_flags].
    + done.
    + rewrite !has_lor. apply orb_true_r.
    + rewrite !has_lor. change (has DIRTY FRESH) with false. cbn [orb]. intros [Hf|Hf]%orb_true_iff; [by apply Hfresh|].
      destruct fresh eqn:Hfr; [|done]. unfold fresh in Hfr. destruct po; [done|]. destruct Hsp as [|Hsp]; [done|].
      cbn [negb andb] in Hfr. apply negb_true_iff in Hfr. rewrite Hclean by done. unfold entry_value. by rewrite Hsp.
    + rewrite (total_insert _ o it) by done. rewrite (u64_eq_sub _ _ _ (usage_ok _ Hc)), wrap_add_l. f_equal.
  - match goal with |- context [?m ≫= _] => assert (m = Ok (negb po)) as -> by by destruct po end.
    cbn [mbind result_bind]. apply Hput; cbn [entry_coin entry_flags].
    + done.
    + rewrite !has_lor. apply orb_true_r.
    + rewrite !has_lor. destruct Hpo as [->|Hpo]; [done|]. intros _.
      unfold cache_coins in Hpo. by rewrite overlay_lookup, Hit in Hpo.
    + rewrite total_insert_new by done. rewrite (u64_eq_add _ _ _ (usage_ok _ Hc)). f_equal. cbn. lia.
Qed.

(** An unspent entry is never replaced by mistake. *)
Lemma AddCoin_guard c o coin :
  Coin_IsSpent coin = false -> CScript.IsUnspendable (scriptPubKey (coin_out coin)) = false ->
  HaveCoinInCache c o = true -> AddCoin c o coin false = Err replacing_unspent_entry.
Proof.
  intros Hun Hs. unfold HaveCoinInCache, AddCoin. rewrite Hun, Hs. cbn [negb check mbind result_bind].
  destruct (cacheCoins c !! o) as [it|]; [|done]. by destruct (Coin_IsSpent (entry_coin it)).
Qed.

Lemma SpendCoin_ok c o c' r :
  cache_ok c -> SpendCoin c o = (c', r) ->
  cache_ok c' /\ cache_coins c' = delete o (cache_coins c) /\ cache_best c' = cache_best c /\
  cache_coins c !! o = (coin ← r; if Coin_IsSpent coin then None else Some coin).
Proof.
  intros Hc. unfold SpendCoin. destruct (FetchCoin c o) as [c1 [e|]] eqn:Hf;
    apply FetchCoin_ok in Hf as (H1 & H2 & H3 & H4 & H5); try done.
  2:{ intros [= <- <-]. rewrite H2, H5. split; [done|]. split; [|done]. by rewrite delete_id. }
  pose proof (entries_ok _ H1 o e H4) as [_ Hfresh].
  pose proof (u64_eq_sub _ _ (DynamicMemoryUsage (entry_coin e)) (usage_ok _ H1)) as Hu.
  destruct (has (entry_flags e) FRESH) eqn:Hfr; intros [= <- <-].
  - destruct (cache_delete_ok c1 o (cachedCoinsUsage c1 - DynamicMemoryUsage (entry_coin e))) as (K1 & K2 & K3);
      [done|by apply Hfresh| |].
    { by rewrite (total_delete _ _ _ H4), Hu. }
    split; [done|]. split; [by rewrite K2, H2|]. split; [by rewrite K3, H3|]. rewrite H5. done.
  - set (e' := {| entry_coin := Coin_empty; entry_flags := Z.lor (entry_flags e) DIRTY |}).
    destruct (cache_insert_ok c1 o e' (cachedCoinsUsage c1 - DynamicMemoryUsage (entry_coin e))) as (K1 & K2 & K3).
    + done.
    + split; cbn; rewrite has_lor; [by rewrite orb_true_r|].
      change (has DIRTY FRESH) with false. by rewrite Hfr.
    + rewrite (total_insert _ _ _ _ H4), Hu. f_equal. cbn.
      rewrite (usage_empty Coin_empty) by done. lia.
    + split; [done|]. split; [by rewrite K2, H2|]. split; [by rewrite K3, H3|]. by rewrite H5.
Qed.

Lemma Uncache_ok c o :
  cache_ok c -> cache_ok (Uncache c o) /\ cache_coins (Uncache c o) = cache_coins c /\
  cache_best (Uncache c o) = cache_best c.
Proof.
  intros Hc. unfold Uncache. destruct (cacheCoins c !! o) as [e|] eqn:He; [|done].
  destruct (Z.eqb_spec (entry_flags e) 0) as [Hz|]; [|done].
  pose proof (entries_ok _ Hc o e He) as [Hclean _]. rewrite Hz in Hclean. specialize (Hclean eq_refl).
  split; [|split; [|done]].
  - split; cbn; [apply Hc|apply map_Forall_delete, Hc|].
    rewrite (total_delete _ _ _ He). apply u64_eq_sub, Hc.
  - apply map_eq. intros o'. unfold cache_coins. rewrite !overlay_lookup. cbn.
    destruct (decide (o' = o)) as [->|]; [by rewrite lookup_delete_eq, He|by rewrite lookup_delete_ne].
Qed.

(** *** Writing a child's entries *)

Lemma write_entry_ok c o e :
  cache_ok c -> fresh_ok (cache_coins c) o e ->
  exists c', write_entry c o e = Ok c' /\ cache_ok c' /\ cache_coins c' = apply_entry o e (cache_coins c).
Proof.
  intros Hc Hfr. unfold write_entry, apply_entry, fresh_ok in *.
  destruct (has (entry_flags e) DIRTY) eqn:Hd; cbn [negb]; [|by exists c]. specialize (Hfr eq_refl).
  destruct (cacheCoins c !! o) as [us|] eqn:Hus.
  - pose proof (entries_ok _ Hc o us Hus) as [_ Hfresh]. rewrite (coin_of_entry _ _ _ Hus) in Hfr.
    assert (negb (has (entry_flags e) FRESH && negb (Coin_IsSpent (entry_coin us))) = true) as ->.
    { destruct (has (entry_flags e) FRESH); [|done]. specialize (Hfr eq_refl). unfold entry_value in Hfr.
      by destruct (Coin_IsSpent (entry_coin us)). }
    cbn [check mbind result_bind].
    pose proof (u64_eq_sub _ _ (DynamicMemoryUsage (entry_coin us)) (usage_ok _ Hc)) as Hu.
    destruct (has (entry_flags us) FRESH && Coin_IsSpent (entry_coin e)) eqn:Hdel.
    + apply andb_true_iff in Hdel as [Hf Hs].
      destruct (cache_delete_ok c o (cachedCoinsUsage c - DynamicMemoryUsage (entry_coin us))) as (K1 & K2 & K3);
        [done|by apply Hfresh|by rewrite (total_delete _ _ _ Hus), Hu|].
      eexists; split; [done|]. split; [done|]. rewrite K2. unfold entry_value. by rewrite Hs.
    + eexists; split; [done|].
      destruct (cache_insert_ok c o {| entry_coin := entry_coin e; entry_flags := Z.lor (entry_flags us) DIRTY |}
        (u64 (cachedCoinsUsage c - DynamicMemoryUsage (entry_coin us)) + DynamicMemoryUsage (entry_coin e)))
        as (K1 & K2 & K3); [done| | |done].
      * split; cbn; rewrite has_lor; [by rewrite orb_true_r|]. change (has DIRTY FRESH) with false.
        by rewrite orb_false_r.
      * rewrite Hu, wrap_add_l. by rewrite (total_insert _ _ _ _ Hus).
  - assert (cache_coins c !! o = coins (view_base c) !! o) as Hco by (unfold cache_coins; by rewrite overlay_lookup, Hus).
    rewrite Hco in Hfr. destruct (has (entry_flags e) FRESH && Coin_IsSpent (entry_coin e)) eqn:Hskip; cbn [negb].
    + apply andb_true_iff in Hskip as [Hf Hs]. exists c. split; [done|]. split; [done|].
      unfold entry_value. rewrite Hs. symmetry. apply partial_alter_same. rewrite Hco. by apply Hfr.
    + eexists; split; [done|].
      match goal with |- context [set_cache (<[o := ?e']> _) ?usage c] =>
        destruct (cache_insert_ok c o e' usage) as (K1 & K2 & K3); [done| | |done] end.
      * split; cbn; rewrite has_lor; [change (has DIRTY DIRTY) with true; done|].
        change (has DIRTY FRESH) with false. cbn [orb]. destruct (has (entry_flags e) FRESH); [auto|done].
      * rewrite total_insert_new by done. rewrite (u64_eq_add _ _ _ (usage_ok _ Hc)). f_equal. cbn. lia.
Qed.

Lemma write_entries_ok c l :
  cache_ok c -> NoDup l.*1 -> (forall o e, (o, e) ∈ l -> fresh_ok (cache_coins c) o e) ->
  exists c', write_entries c l = (c', [], Ok ()) /\ cache_ok c' /\ cache_coins c' = apply_entries l (cache_coins c).
Proof.
  revert c. induction l as [|[o e] l IH]; intros c Hc Hnd Hfr; [by exists c|].
  cbn in Hnd. apply NoDup_cons in Hnd as [Hout Hnd].
  destruct (write_entry_ok c o e Hc) as (c1 & H1 & Hc1 & Hcoins); [apply Hfr; by left|].
  destruct (IH c1 Hc1 Hnd) as (c2 & H2 & Hc2 & Hcoins2).
  - intros o' e' Hin Hd Hf. rewrite Hcoins. unfold apply_entry.
    destruct (has (entry_flags e) DIRTY); [|by apply (Hfr o' e'); [by right| |]].
    rewrite lookup_partial_alter_ne; [by apply (Hfr o' e'); [by right| |]|].
    intros ->. apply Hout. apply list_elem_of_fmap. by exists (o', e').
  - exists c2. cbn [write_entries]. rewrite H1. split; [done|]. split; [done|].
    by rewrite Hcoins2, Hcoins.
Qed.

Lemma SetBestBlock_ok c h :
  cache_ok c -> cache_ok (SetBestBlock c h) /\ cache_coins (SetBestBlock c h) = cache_coins c /\
  (base_blob.IsNull h = false -> cache_best (SetBestBlock c h) = h).
Proof.
  intros Hc. split; [split; apply Hc|]. split; [done|]. intros Hh. unfold cache_best. cbn [SetBestBlock hashBlock view_base]. by rewrite Hh.
Qed.

Lemma cache_BatchWrite_ok c l h :
  cache_ok c -> NoDup l.*1 -> (forall o e, (o, e) ∈ l -> fresh_ok (cache_coins c) o e) ->
  exists c', cache_BatchWrite c l h = (c', [], Ok true) /\ cache_ok c' /\ cache_coins c' = apply_entries l (cache_coins c) /\
    (base_blob.IsNull h = false -> cache_best c' = h).
Proof.
  intros Hc Hnd Hfr. destruct (write_entries_ok c l Hc Hnd Hfr) as (c1 & H1 & Hc1 & Hcoins).
  destruct (SetBestBlock_ok c1 h Hc1) as (K1 & K2 & K3).
  exists (SetBestBlock c1 h). unfold cache_BatchWrite. rewrite H1.
  split; [done|]. split; [done|]. split; [by rewrite K2|done].
Qed.

(** Writing to a cache always works. *)
Lemma cache_BatchWrite_law c l h c' rest r :
  cache_ok c -> NoDup l.*1 -> (forall o e, (o, e) ∈ l -> fresh_ok (cache_coins c) o e) ->
  cache_BatchWrite c l h = (c', rest, r) ->
  cache_ok c' /\ (True -> r = Ok true) /\
  if decide (r = Ok true)
  then cache_coins c' = apply_entries l (cache_coins c) /\ (base_blob.IsNull h = false -> cache_best c' = h)
  else (r = Ok false \/ r = Err database_error) /\ rest `suffix_of` l /\
    (forall o, cache_coins c' !! o = cache_coins c !! o \/ cache_coins c' !! o = apply_entries l (cache_coins c) !! o) /\
    (cache_best c' = cache_best c \/ base_blob.IsNull (cache_best c') = true).
Proof.
  intros Hc Hnd Hfr E. destruct (cache_BatchWrite_ok c l h Hc Hnd Hfr) as (c2 & E2 & H1 & H2 & H3).
  rewrite E in E2. injection E2 as -> -> ->. by rewrite decide_True.
Qed.

Lemma cache_GetBestBlock_ok c c' h :
  cache_ok c -> cache_GetBestBlock c = (c', h) ->
  cache_ok c' /\ cache_coins c' = cache_coins c /\ cache_best c' = cache_best c /\ h = cache_best c.
Proof.
  intros Hc. unfold cache_GetBestBlock, cache_best at 2 3. destruct (base_blob.IsNull (hashBlock c)) eqn:Hn.
  2:{ intros [= <- <-]. unfold cache_best. by rewrite Hn. }
  destruct (GetBestBlock (view_base c)) as [b h'] eqn:Hg.
  apply GetBestBlock_ok in Hg as (Hb & Hcoins & Hbest & ->); [|apply Hc]. intros [= <- <-].
  split; [split; cbn; [done|rewrite Hcoins; apply Hc|apply Hc]|].
  split; [unfold cache_coins; cbn; by rewrite Hcoins|]. split; [|done].
  unfold cache_best. cbn [hashBlock view_base]. rewrite Hbest. by case_match.
Qed.

(** A cache over a lawful view is a lawful view. *)
#[export] Instance cache_laws : CoinsViewLaws (cache_view (V := V)) := {|
  view_ok := cache_ok; coins := cache_coins; best := cache_best;
  GetCoin_ok := cache_GetCoin_ok; coins_unspent := cache_coins_unspent;
  GetBestBlock_ok := cache_GetBestBlock_ok; writable := fun _ => True;
  writable_best := fun _ _ H => H; BatchWrite_ok := cache_BatchWrite_law |}.

Lemma iterate_entries m : NoDup (iterate m).*1 /\ forall o e, (o, e) ∈ iterate m <-> m !! o = Some e.
Proof.
  split.
  - rewrite (iterate_perm m). apply NoDup_fst_map_to_list.
  - intros o e. rewrite (iterate_perm m). apply elem_of_map_to_list.
Qed.

(** What is left of a cache after a flush that failed. *)
Record half_flushed (c c' : CCoinsViewCache V) (r : result coins_error bool) : Prop := {
  hf_result : r = Ok false \/ r = Err database_error;
  hf_cache : cacheCoins c' ⊆ cacheCoins c;
  hf_cleared : r = Ok false -> cacheCoins c' = ∅ /\ cachedCoinsUsage c' = 0;
  hf_hash : hashBlock c' = hashBlock c;
  hf_view : view_ok (view_base c');
  hf_coins : forall o, coins (view_base c') !! o = coins (view_base c) !! o \/ coins (view_base c') !! o = cache_coins c !! o;
  hf_best : best (view_base c') = best (view_base c) \/ base_blob.IsNull (best (view_base c')) = true;
}.

Lemma list_to_map_suffix (m : CCoinsMap) l : l `suffix_of` iterate m -> list_to_map l ⊆ m.
Proof.
  intros [k Hk]. destruct (iterate_entries m) as [Hnd Hin]. rewrite Hk, fmap_app in Hnd. apply NoDup_app in Hnd as (_ & _ & Hnd).
  apply map_subseteq_spec. intros o e He. apply elem_of_list_to_map in He; [|done]. apply Hin. rewrite Hk. apply elem_of_app. by right.
Qed.

(** Writing all entries of a cache to its base. *)
Lemma apply_iterate c : cache_ok c -> apply_entries (iterate (cacheCoins c)) (coins (view_base c)) = cache_coins c.
Proof.
  intros Hc. destruct (iterate_entries (cacheCoins c)) as [Hnd Hin].
  apply map_eq. intros o. unfold cache_coins. rewrite overlay_lookup. destruct (cacheCoins c !! o) as [e|] eqn:He.
  - rewrite (apply_entries_in _ _ o e) by (done || by apply Hin).
    pose proof (entries_ok _ Hc o e He) as [Hclean _].
    destruct (has (entry_flags e) DIRTY); [done|]. by apply Hclean.
  - apply apply_entries_out. intros (x & -> & Hx)%list_elem_of_fmap. destruct x as [o e].
    apply Hin in Hx. cbn in He. congruence.
Qed.

(** Flushing moves the coins of the cache into its base, if that can be
    written. *)
Lemma Flush_ok c c' r :
  cache_ok c -> Flush c = (c', r) ->
  (writable (view_base c) -> r = Ok true) /\
  if decide (r = Ok true)
  then cache_ok c' /\ cacheCoins c' = ∅ /\ cachedCoinsUsage c' = 0 /\
    coins (view_base c') = cache_coins c /\ cache_coins c' = cache_coins c /\
    (base_blob.IsNull (hashBlock c) = false -> best (view_base c') = cache_best c /\ cache_best c' = cache_best c)
  else half_flushed c c' r.
Proof.
  intros Hc. destruct (iterate_entries (cacheCoins c)) as [Hnd Hin]. unfold Flush.
  destruct (BatchWrite (view_base c) (iterate (cacheCoins c)) (hashBlock c)) as [[b rest] x] eqn:Hw.
  assert (forall o e, (o, e) ∈ iterate (cacheCoins c) -> fresh_ok (coins (view_base c)) o e) as Hfr.
  { intros o e He%Hin _ Hf. pose proof (entries_ok _ Hc o e He) as [_ Hfresh]. by apply Hfresh. }
  destruct (BatchWrite_ok _ _ _ _ _ _ (base_ok _ Hc) Hnd Hfr Hw) as (Hb & Hwr & Hcase).
  rewrite (apply_iterate c Hc) in Hcase. destruct x as [fOk|e]; intros [= <- <-]; (split; [done|]).
  - destruct (decide (Ok fOk = Ok true)) as [[= ->]|Hne].
    + destruct Hcase as [Hcc Hbest].
      assert (forall u : utxo, overlay ∅ u = u) as Hov.
      { intros u. apply map_eq. intros o. by rewrite overlay_lookup, lookup_empty. }
      split; [split; cbn; [done|apply map_Forall_empty|by rewrite total_empty]|].
      split; [done|]. split; [done|]. split; [done|]. split; [unfold cache_coins at 1; cbn; by rewrite Hov|].
      intros Hh. specialize (Hbest Hh). unfold cache_best. cbn [set_cache set_base hashBlock view_base]. by rewrite Hh.
    + destruct Hcase as (H1 & H2 & H3 & H4). split; try done. apply map_empty_subseteq.
  - rewrite decide_False in * by done. destruct Hcase as (H1 & H2 & H3 & H4). split; try done.
    cbn [set_cache cacheCoins]. by apply list_to_map_suffix.
Qed.
End cache.
End coins_facts.
Import coins_facts.

(** ** An example: a view that stores its coins in a map *)

Module coins_example.
Definition db : Type := gmap COutPoint Coin * uint256.

#[export] Instance db_view : CCoinsView db := {|
  GetCoin v o := (v, v.1 !! o);
  GetBestBlock v := (v, v.2);
  BatchWrite v l h := ((apply_entries l v.1, h), [], Ok true) |}.

Definition db_ok (v : db) : Prop := map_Forall (fun _ c => Coin_IsSpent c = false) v.1.

Lemma db_write_ok (l : list (COutPoint * CCoinsCacheEntry)) (m : gmap COutPoint Coin) :
  map_Forall (fun _ c => Coin_IsSpent c = false) m ->
  map_Forall (fun _ c => Coin_IsSpent c = false) (apply_entries l m).
Proof.
  revert m. induction l as [|[o e] l IH]; intros m Hm; [done|]. apply IH. unfold apply_entry.
  destruct (has _ _); [|done]. intros o' c. cbn [fst snd]. destruct (decide (o' = o)) as [->|].
  - rewrite lookup_partial_alter_eq. intros Hv. by apply entry_value_Some in Hv as [_ ?].
  - rewrite lookup_partial_alter_ne by done. apply Hm.
Qed.

#[export] Instance db_laws : CoinsViewLaws db_view.
Proof.
  refine {| view_ok := db_ok; coins := fst; best := snd; writable := fun _ => True |}.
  - by intros v o v' r Hv [= <- <-].
  - intros v o c Hv Hc. exact (Hv o c Hc).
  - by intros v v' h Hv [= <- <-].
  - done.
  - intros v l h v' rest r Hv _ _ [= <- <- <-]. split; [by apply db_write_ok|]. by rewrite decide_True.
Defined.

#[export] Instance platform : CoinsPlatform := {|
  iterate := map_to_list; DynamicMemoryUsage c := Z.of_nat (length (scriptPubKey (coin_out c))) |}.
#[export] Instance platform_laws : CoinsPlatformLaws platform.
Proof. split; [done|]. cbn. by intros c ->. Defined.

Definition coin (v : Z) : Coin := make_Coin {| nValue := v; scriptPubKey := [OP_1] |} 7 false.
Definition base : db := ({[transaction_example.out 1 0 := coin 5]}, le_digits 8 32 9).
Definition cache0 : CCoinsViewCache db := make_cache base.

Lemma cache0_ok : cache_ok cache0.
Proof. split; cbn; [apply map_Forall_singleton; reflexivity|apply map_Forall_empty|reflexivity]. Defined.
(** A cache over a cache. *)
Lemma cache1_ok : cache_ok (make_cache cache0).
Proof. split; [exact cache0_ok|apply map_Forall_empty|reflexivity]. Defined.
End coins_example.

(** ** Properties *)

(** C13: The cache implements a finite map of unspent coins.  Over any lawful
    view every operation of a cache in its invariant (clean entries repeat
    the base, nothing unspent lies below a fresh entry, the memory counter is
    the sum over the entries) keeps the invariant and acts on the coins that
    the cache stands for as the map operation it is named after: lookups
    return the coin and change nothing, [AddCoin] stores a spendable coin and
    refuses to replace an unspent cached one, [SpendCoin] removes the coin
    and hands it out, and [Uncache] changes nothing. *)
Theorem cache_operations_correct {V : Type} `{CV : CCoinsView V} `{P : CoinsPlatform}
    `{PL : !CoinsPlatformLaws P} `{CL : !CoinsViewLaws CV} (c : CCoinsViewCache V) (o : COutPoint) :
  cache_ok c ->
  (forall c' r, cache_GetCoin c o = (c', r) ->
     cache_ok c' /\ cache_coins c' = cache_coins c /\ r = cache_coins c !! o) /\
  (forall c' b, HaveCoin c o = (c', b) ->
     cache_ok c' /\ cache_coins c' = cache_coins c /\ b = bool_decide (is_Some (cache_coins c !! o))) /\
  (forall c' coin, AccessCoin c o = (c', coin) ->
     cache_ok c' /\ cache_coins c' = cache_coins c /\
     cache_coins c !! o = if Coin_IsSpent coin then None else Some coin) /\
  (forall coin po, Coin_IsSpent coin = false -> po = true \/ cache_coins c !! o = None ->
     exists c', AddCoin c o coin po = Ok c' /\ cache_ok c' /\
       cache_coins c' = if CScript.IsUnspendable (scriptPubKey (coin_out coin)) then cache_coins c
                        else <[o := coin]> (cache_coins c)) /\
  (forall coin, Coin_IsSpent coin = false -> CScript.IsUnspendable (scriptPubKey (coin_out coin)) = false ->
     HaveCoinInCache c o = true -> AddCoin c o coin false = Err replacing_unspent_entry) /\
  (forall c' r, SpendCoin c o = (c', r) ->
     cache_ok c' /\ cache_coins c' = delete o (cache_coins c) /\
     cache_coins c !! o = (coin ← r; if Coin_IsSpent coin then None else Some coin)) /\
  (cache_ok (Uncache c o) /\ cache_coins (Uncache c o) = cache_coins c).
Proof.
  intros Hc. split_and!.
  - intros c' r H. apply cache_GetCoin_ok in H as (? & ? & ? & ?); done.
  - intros c' b H. apply HaveCoin_ok in H as (? & ? & ? & ?); done.
  - intros c' coin H. apply AccessCoin_ok in H as (? & ? & ? & ?); done.
  - intros coin po H1 H2. destruct (AddCoin_ok c o coin po Hc H1 H2) as (c' & ? & ? & _ & ?). by exists c'.
  - apply AddCoin_guard.
  - intros c' r H. apply SpendCoin_ok in H as (? & ? & ? & ?); done.
  - by apply Uncache_ok.
  - by apply Uncache_ok.
Qed.

Import coins_example.

Lemma cache_operations_correct_witness :
  let o := transaction_example.out 1 0 in
  cache_coins (SpendCoin cache0 o).1 = delete o (cache_coins cache0) /\
  (SpendCoin cache0 o).2 = Some (coin 5).
Proof.
  intros o. split; [|reflexivity].
  eapply (cache_operations_correct cache0 o cache0_ok). apply surjective_pairing.
Defined.

(** C14: Flushing loses nothing.  [Flush] succeeds over a lawful view that can
    be written, whatever the order in which the map is iterated: the base then
    stands for exactly the coins the cache stood for, and the cache is empty and
    stands for them too.  If the write fails, by its result or by an exception
    of the database, the cache is not kept either: it is empty, or what was not
    reached is left in it, every coin of the base is what it was or what the
    cache had, and the best block of the base is the old one or none.  And a
    cache is itself a view that can always be written by such a flush:
    [BatchWrite] applies the modified entries and sets the best block. *)
Theorem Flush_correct {V : Type} `{CV : CCoinsView V} `{P : CoinsPlatform}
    `{PL : !CoinsPlatformLaws P} `{CL : !CoinsViewLaws CV} (c : CCoinsViewCache V) :
  cache_ok c ->
  (exists c' r, Flush c = (c', r) /\ (writable (view_base c) -> r = Ok true) /\
     (r = Ok true -> cache_ok c' /\ cacheCoins c' = ∅ /\ cachedCoinsUsage c' = 0 /\
        coins (view_base c') = cache_coins c /\ cache_coins c' = cache_coins c /\
        (base_blob.IsNull (hashBlock c) = false -> best (view_base c') = hashBlock c)) /\
     (r <> Ok true -> half_flushed c c' r)) /\
  (forall l h, NoDup l.*1 -> (forall o e, (o, e) ∈ l -> fresh_ok (cache_coins c) o e) ->
     exists c', cache_BatchWrite c l h = (c', [], Ok true) /\ cache_ok c' /\
       cache_coins c' = apply_entries l (cache_coins c) /\
       (base_blob.IsNull h = false -> cache_best c' = h)).
Proof.
  intros Hc. split.
  - destruct (Flush c) as [c' r] eqn:E. exists c', r. destruct (Flush_ok c c' r Hc E) as [Hw Hcase].
    split; [done|]. split; [done|]. destruct (decide (r = Ok true)) as [->|Hne]; [|done]. split; [|done]. intros _.
    destruct Hcase as (H2 & H3 & H4 & H5 & H6 & H7). split_and!; try done.
    intros Hh. destruct (H7 Hh) as [-> _]. unfold cache_best. by rewrite Hh.
  - intros l h. by apply cache_BatchWrite_ok.
Qed.

Lemma Flush_correct_witness :
  exists c', Flush (make_cache cache0) = (c', Ok true) /\
    coins (view_base c') = cache_coins (make_cache cache0).
Proof.
  destruct (proj1 (Flush_correct (make_cache cache0) cache1_ok)) as (c' & r & H & Hw & Hok & _).
  specialize (Hw I). subst r. destruct (Hok eq_refl) as (_ & _ & _ & Hc & _).
  exists c'. split; [exact H|exact Hc].
Defined.
