(* ===== verification/TxVerify.v ===== *)
(** * Transaction rules ([consensus/tx_verify.cpp], [consensus/consensus.h],
    [consensus/validation.h])

    The checks on a transaction alone, on the coins it spends, and on its
    absolute and relative lock times.  The functions that look coins up pass
    the cache on, since a lookup may fill it. *)

From S2P Require Import Prelude Uint256 Chain Script Interpreter Serialize Transaction SigHash Coins.

(** ** Constants *)

Definition MAX_BLOCK_WEIGHT : Z := 32000000.
Definition MAX_BLOCK_SIGOPS_COST : Z := 80000.
Definition COINBASE_MATURITY : Z := 100.
Definition WITNESS_SCALE_FACTOR : Z := 4.
Definition LOCKTIME_VERIFY_SEQUENCE : Z := Z.shiftl 1 0.

Definition REJECT_INVALID : Z := 0x10.

(** [state.DoS(level, false, code, reason, corruption)], a failed assertion,
    the exception of [GetValueOut], what the coins cache refuses, and
    [state.Error]. *)
Inductive tx_failure :=
  | DoS (level : Z) (code : Z) (reason : string) (corruption : bool)
  | tx_assertion
  | value_out_of_range
  | coins_failure (e : coins_error)
  | run_time_error (reason : string).

Abbreviation tx_result := (result tx_failure).

Definition invalid (level : Z) (reason : string) : tx_failure := DoS level REJECT_INVALID reason false.

(** ** The transaction alone *)

Section check.
Context `{L : Layout}.

(** [GetSerializeSize] with [SERIALIZE_TRANSACTION_NO_WITNESS]. *)
Definition stripped_size (tx : CMutableTransaction) : Z :=
  Z.of_nat (length (SerializeTransaction SERIALIZE_TRANSACTION_NO_WITNESS tx)).

Fixpoint check_outputs (vout : list CTxOut) (nValueOut : CAmount) : tx_result unit :=
  match vout with
  | [] => Ok ()
  | txout :: vout =>
      check (negb (nValue txout <? 0)) (invalid 100 "bad-txns-vout-negative");;
      check (negb (nValue txout >? MAX_MONEY)) (invalid 100 "bad-txns-vout-toolarge");;
      let nValueOut := nValueOut + nValue txout in
      check (MoneyRange nValueOut) (invalid 100 "bad-txns-txouttotal-toolarge");;
      check_outputs vout nValueOut
  end.

(** [vInOutPoints.insert(txin.prevout).second]. *)
Fixpoint check_duplicates (vin : list CTxIn) (vInOutPoints : gset COutPoint) : tx_result unit :=
  match vin with
  | [] => Ok ()
  | txin :: vin =>
      check (bool_decide (prevout txin ∉ vInOutPoints)) (invalid 100 "bad-txns-inputs-duplicate");;
      check_duplicates vin ({[prevout txin]} ∪ vInOutPoints)
  end.

Definition CheckTransaction (tx : CMutableTransaction) (fCheckDuplicateInputs : bool) : tx_result unit :=
  check (negb (bool_decide (vin tx = []))) (invalid 10 "bad-txns-vin-empty");;
  check (negb (bool_decide (vout tx = []))) (invalid 10 "bad-txns-vout-empty");;
  check (negb (u64 (stripped_size tx * WITNESS_SCALE_FACTOR) >? MAX_BLOCK_WEIGHT)) (invalid 100 "bad-txns-oversize");;
  check_outputs (vout tx) 0;;
  (if fCheckDuplicateInputs then check_duplicates (vin tx) ∅ else Ok ());;
  (if IsCoinBase tx then
     match vin tx with
     | [] => Err tx_assertion
     | txin :: _ =>
         let size := Z.of_nat (length (scriptSig txin)) in
         check (negb ((size <? 2) || (size >? 100))) (invalid 100 "bad-cb-length")
     end
   else check (forallb (fun txin => negb (COutPoint_IsNull (prevout txin))) (vin tx))
          (invalid 10 "bad-txns-prevout-null")).
End check.

(** ** Lock times *)

Definition IsFinalTx (tx : CMutableTransaction) (nBlockHeight nBlockTime : Z) : bool :=
  if tx_nLockTime tx =? 0 then true
  else if tx_nLockTime tx <? (if tx_nLockTime tx <? LOCKTIME_THRESHOLD then nBlockHeight else nBlockTime) then true
  else forallb (fun txin => nSequence txin =? SEQUENCE_FINAL) (vin tx).

(** The loop of [CalculateSequenceLocks]: [prevHeights] as it leaves it, and
    the two minima; [None] is a null pointer. *)
Fixpoint sequence_locks_loop (m : index_map) (block : ptr) (vin : list CTxIn) (prevHeights : list Z)
    (nMinHeight nMinTime : Z) : option (list Z * Z * Z) :=
  match vin, prevHeights with
  | txin :: vin, nCoinHeight :: prevHeights =>
      if has (nSequence txin) SEQUENCE_LOCKTIME_DISABLE_FLAG then
        '(hs, h, t) ← sequence_locks_loop m block vin prevHeights nMinHeight nMinTime;
        Some (0 :: hs, h, t)
      else if has (nSequence txin) SEQUENCE_LOCKTIME_TYPE_FLAG then
        a ← GetAncestor m block (Z.max (nCoinHeight - 1) 0);
        a ← a;
        nCoinTime ← GetMedianTimePast m a;
        let nMinTime := Z.max nMinTime
          (nCoinTime + Z.shiftl (Z.land (nSequence txin) SEQUENCE_LOCKTIME_MASK) SEQUENCE_LOCKTIME_GRANULARITY - 1) in
        '(hs, h, t) ← sequence_locks_loop m block vin prevHeights nMinHeight nMinTime;
        Some (nCoinHeight :: hs, h, t)
      else
        let nMinHeight := Z.max nMinHeight (nCoinHeight + Z.land (nSequence txin) SEQUENCE_LOCKTIME_MASK - 1) in
        '(hs, h, t) ← sequence_locks_loop m block vin prevHeights nMinHeight nMinTime;
        Some (nCoinHeight :: hs, h, t)
  | _, _ => Some ([], nMinHeight, nMinTime)
  end.

Definition CalculateSequenceLocks (m : index_map) (tx : CMutableTransaction) (flags : Z)
    (prevHeights : list Z) (block : ptr) : option (list Z * Z * Z) :=
  if negb (length prevHeights =? length (vin tx))%nat then None
  else
    let fEnforceBIP68 := (u32 (tx_nVersion tx) >=? 2) && has flags LOCKTIME_VERIFY_SEQUENCE in
    if negb fEnforceBIP68 then Some (prevHeights, -1, -1)
    else sequence_locks_loop m block (vin tx) prevHeights (-1) (-1).

Definition EvaluateSequenceLocks (m : index_map) (block : ptr) (nMinHeight nMinTime : Z) : option bool :=
  b ← m !! block;
  q ← pprev b;
  nBlockTime ← GetMedianTimePast m q;
  Some (negb ((nMinHeight >=? nHeight b) || (nMinTime >=? nBlockTime))).

(** The verdict with the heights as they are left. *)
Definition SequenceLocks (m : index_map) (tx : CMutableTransaction) (flags : Z)
    (prevHeights : list Z) (block : ptr) : option (list Z * bool) :=
  '(hs, h, t) ← CalculateSequenceLocks m tx flags prevHeights block;
  ok ← EvaluateSequenceLocks m block h t;
  Some (hs, ok).

(** ** The coins spent *)

Section inputs.
Context {V : Type} `{CV : CCoinsView V} `{P : CoinsPlatform}.

(** The loop of [CheckTxInputs]; the sum of the inputs. *)
Fixpoint check_inputs_loop (inputs : CCoinsViewCache V) (vin : list CTxIn) (nSpendHeight nValueIn : Z)
    : CCoinsViewCache V * tx_result CAmount :=
  match vin with
  | [] => (inputs, Ok nValueIn)
  | txin :: vin =>
      let '(inputs, coin) := AccessCoin inputs (prevout txin) in
      if Coin_IsSpent coin then (inputs, Err tx_assertion)
      else if fCoinBase coin && (nSpendHeight - coin_nHeight coin <? COINBASE_MATURITY)
      then (inputs, Err (invalid 0 "bad-txns-premature-spend-of-coinbase"))
      else
        let nValueIn := nValueIn + nValue (coin_out coin) in
        if negb (MoneyRange (nValue (coin_out coin))) || negb (MoneyRange nValueIn)
        then (inputs, Err (invalid 100 "bad-txns-inputvalues-outofrange"))
        else check_inputs_loop inputs vin nSpendHeight nValueIn
  end.

(** The fee. *)
Definition CheckTxInputs (tx : CMutableTransaction) (inputs : CCoinsViewCache V) (nSpendHeight : Z)
    : CCoinsViewCache V * tx_result CAmount :=
  match HaveInputs inputs tx with
  | (inputs, false) => (inputs, Err (invalid 100 "bad-txns-inputs-missingorspent"))
  | (inputs, true) =>
      let '(inputs, nValueIn) := check_inputs_loop inputs (vin tx) nSpendHeight 0 in
      (inputs,
       nValueIn ← nValueIn;
       value_out ← (match GetValueOut tx with Some v => Ok v | None => Err value_out_of_range end);
       check (negb (nValueIn <? value_out)) (invalid 100 "bad-txns-in-belowout");;
       let txfee_aux := nValueIn - value_out in
       check (MoneyRange txfee_aux) (invalid 100 "bad-txns-fee-outofrange");;
       Ok txfee_aux)
  end.

(** *** Signature operations *)

Definition GetLegacySigOpCount (tx : CMutableTransaction) : Z :=
  let n := foldl (fun n txin => u32 (n + CScript.GetSigOpCount false (scriptSig txin))) 0 (vin tx) in
  foldl (fun n txout => u32 (n + CScript.GetSigOpCount false (scriptPubKey txout))) n (vout tx).

(** [None] is the failed assertion that the coin is unspent. *)
Fixpoint p2sh_sigops_loop (inputs : CCoinsViewCache V) (vin : list CTxIn) (nSigOps : Z)
    : CCoinsViewCache V * option Z :=
  match vin with
  | [] => (inputs, Some nSigOps)
  | txin :: vin =>
      let '(inputs, coin) := AccessCoin inputs (prevout txin) in
      if Coin_IsSpent coin then (inputs, None)
      else
        let script := scriptPubKey (coin_out coin) in
        p2sh_sigops_loop inputs vin
          (if CScript.IsPayToScriptHash script
           then u32 (nSigOps + CScript.GetSigOpCount_p2sh script (scriptSig txin)) else nSigOps)
  end.
Definition GetP2SHSigOpCount (tx : CMutableTransaction) (inputs : CCoinsViewCache V) : CCoinsViewCache V * option Z :=
  if IsCoinBase tx then (inputs, Some 0) else p2sh_sigops_loop inputs (vin tx) 0.

Fixpoint witness_sigops_loop (inputs : CCoinsViewCache V) (vin : list CTxIn) (flags nSigOps : Z)
    : CCoinsViewCache V * option Z :=
  match vin with
  | [] => (inputs, Some nSigOps)
  | txin :: vin =>
      let '(inputs, coin) := AccessCoin inputs (prevout txin) in
      if Coin_IsSpent coin then (inputs, None)
      else
        match CountWitnessSigOps (scriptSig txin) (scriptPubKey (coin_out coin)) (Some (scriptWitness txin)) flags with
        | None => (inputs, None)
        | Some n => witness_sigops_loop inputs vin flags (nSigOps + n)
        end
  end.

Definition GetTransactionSigOpCost (tx : CMutableTransaction) (inputs : CCoinsViewCache V) (flags : Z)
    : CCoinsViewCache V * option Z :=
  let nSigOps := u32 (GetLegacySigOpCount tx * WITNESS_SCALE_FACTOR) in
  if IsCoinBase tx then (inputs, Some nSigOps)
  else
    let '(inputs, p2sh) :=
      if has flags SCRIPT_VERIFY_P2SH then GetP2SHSigOpCount tx inputs else (inputs, Some 0) in
    match p2sh with
    | None => (inputs, None)
    | Some p2sh => witness_sigops_loop inputs (vin tx) flags (nSigOps + u32 (p2sh * WITNESS_SCALE_FACTOR))
    end.
End inputs.

(** ** Facts *)

Module txverify_facts.

Definition total_value (l : list CTxOut) : CAmount := foldr (fun o t => nValue o + t) 0 l.

Lemma MoneyRange_true v : MoneyRange v = true <-> 0 <= v <= MAX_MONEY.
Proof. unfold MoneyRange. rewrite andb_true_iff, !Z.leb_le. done. Qed.

Lemma total_value_nonneg l : Forall (fun o => 0 <= nValue o <= MAX_MONEY) l -> 0 <= total_value l.
Proof. unfold total_value. induction 1; cbn in *; lia. Qed.

(** The outputs pass when their values and their sum are in range. *)
Lemma check_outputs_Ok l n :
  0 <= n -> check_outputs l n = Ok () <->
  Forall (fun o => 0 <= nValue o <= MAX_MONEY) l /\ (l = [] \/ n + total_value l <= MAX_MONEY).
Proof.
  revert n. induction l as [|o l IH]; intros n Hn; cbn [check_outputs total_value foldr].
  { split; [by auto|done]. }
  split.
  - intros H. apply bind_Ok in H as (? & H1%check_Ok & H). apply bind_Ok in H as (? & H2%check_Ok & H).
    apply bind_Ok in H as (? & H3%check_Ok & H).
    rewrite negb_true_iff, Z.ltb_ge in H1. rewrite negb_true_iff, Z.gtb_ltb, Z.ltb_ge in H2.
    apply MoneyRange_true in H3. apply IH in H as [Hl Ht]; [|lia].
    split; [by constructor|]. right. fold (total_value l). destruct Ht as [->|Ht]; cbn in *; lia.
  - intros [Hl Ht]. apply Forall_cons in Hl as [Ho Hl]. pose proof (total_value_nonneg l Hl).
    destruct Ht as [|Ht]; [done|]. fold (total_value l) in Ht.
    rewrite (proj2 (Z.ltb_ge (nValue o) 0)) by lia. rewrite Z.gtb_ltb, (proj2 (Z.ltb_ge MAX_MONEY _)) by lia.
    rewrite (proj2 (MoneyRange_true _)) by lia. cbn [negb check mbind result_bind].
    apply IH; [lia|]. split; [done|]. right. lia.
Qed.

Lemma GetValueOut_loop_total l n :
  0 <= n <= MAX_MONEY -> Forall (fun o => 0 <= nValue o <= MAX_MONEY) l -> n + total_value l <= MAX_MONEY ->
  GetValueOut_loop l n = Some (n + total_value l).
Proof.
  intros Hn Hl. revert n Hn. induction Hl as [|o l Ho Hl IH]; intros n Hn Ht; cbn [GetValueOut_loop total_value foldr] in *.
  { f_equal. lia. }
  fold (total_value l) in *. pose proof (total_value_nonneg l Hl).
  rewrite (proj2 (MoneyRange_true (nValue o))), (proj2 (MoneyRange_true (n + nValue o))) by lia. cbn [negb orb].
  rewrite IH by lia. f_equal. lia.
Qed.

Lemma GetValueOut_loop_Some l n v :
  GetValueOut_loop l n = Some v ->
  Forall (fun o => 0 <= nValue o <= MAX_MONEY) l /\ v = n + total_value l /\ (l = [] \/ 0 <= v <= MAX_MONEY).
Proof.
  revert n. induction l as [|o l IH]; intros n; cbn [GetValueOut_loop total_value foldr].
  { intros [= <-]. split; [done|]. split; [lia|by left]. }
  fold (total_value l). destruct (negb (MoneyRange (nValue o)) || negb (MoneyRange (n + nValue o))) eqn:Hr; [done|].
  apply orb_false_iff in Hr as [H1%negb_false_iff H2%negb_false_iff]. apply MoneyRange_true in H1, H2.
  intros H. apply IH in H as (Hl & -> & Hv). split; [by constructor|]. split; [lia|]. right.
  destruct Hv as [->|Hv]; [cbn; lia|lia].
Qed.

Lemma check_duplicates_Ok l s :
  check_duplicates l s = Ok () <-> NoDup (prevout <$> l) /\ forall o, o ∈ prevout <$> l -> o ∉ s.
Proof.
  revert s. induction l as [|i l IH]; intros s; cbn [check_duplicates fmap list_fmap].
  { split; [|done]. intros _. split; [constructor|]. intros o Ho. by apply elem_of_nil in Ho. }
  rewrite NoDup_cons. setoid_rewrite elem_of_cons. split.
  - intros H. apply bind_Ok in H as (? & Hi%check_Ok & H). apply bool_decide_eq_true in Hi. apply IH in H as [Hnd Ho]. split.
    + split; [|done]. intros Hin. apply (Ho _ Hin), elem_of_union_l. by apply elem_of_singleton_2.
    + intros o [->|Hin]; [done|]. specialize (Ho _ Hin). by apply not_elem_of_union in Ho as [_ ?].
  - intros [[Hi Hnd] Ho]. rewrite bool_decide_eq_true_2 by (apply Ho; by left). cbn [check mbind result_bind].
    apply IH. split; [done|]. intros o Hin. apply not_elem_of_union. split; [|apply Ho; by right].
    apply not_elem_of_singleton. by intros ->.
Qed.

(** *** Inputs *)

Section inputs.
Context {V : Type} `{CV : CCoinsView V} `{P : CoinsPlatform} `{PL : !CoinsPlatformLaws P} `{CL : !CoinsViewLaws CV}.
Implicit Types c : CCoinsViewCache V.
Import coins_facts.

(** The same cache up to what a lookup may have filled in. *)
Definition same c c' : Prop := cache_ok c' /\ cache_coins c' = cache_coins c.

Lemma HaveInputs_loop_ok c l c' b :
  cache_ok c -> HaveInputs_loop c l = (c', b) ->
  same c c' /\ (b = true <-> Forall (fun i => is_Some (cache_coins c !! prevout i)) l).
Proof.
  revert c. induction l as [|i l IH]; intros c Hc H; cbn [HaveInputs_loop] in H.
  { injection H as <- <-. split; [by split|]. split; [intros _; constructor|done]. }
  destruct (HaveCoin c (prevout i)) as [c1 b1] eqn:Hh.
  apply HaveCoin_ok in Hh as (H1 & H2 & _ & Hb1); [|done]. destruct b1.
  - apply IH in H as [[H3 H4] H5]; [|done]. split; [split; [done|congruence]|].
    rewrite H5, Forall_cons, H2. symmetry in Hb1. apply bool_decide_eq_true in Hb1. tauto.
  - injection H as <- <-. split; [done|]. split; [done|]. intros [Hs _]%Forall_cons.
    symmetry in Hb1. by apply bool_decide_eq_false in Hb1.
Qed.

Definition mature (nSpendHeight : Z) (coin : Coin) : Prop :=
  fCoinBase coin = true -> COINBASE_MATURITY <= nSpendHeight - coin_nHeight coin.
Definition total_coins (l : list Coin) : CAmount := total_value (coin_out <$> l).
Definition in_money (coin : Coin) : Prop := 0 <= nValue (coin_out coin) <= MAX_MONEY.

(** The coins of a list of inputs. *)
Definition spent_coins (u : utxo) (l : list CTxIn) (cs : list Coin) : Prop :=
  Forall2 (fun i coin => u !! prevout i = Some coin) l cs.

Lemma spent_coins_det u l cs cs' : spent_coins u l cs -> spent_coins u l cs' -> cs = cs'.
Proof.
  intros H. revert cs'. induction H; intros cs' H'; inversion H'; subst; [done|]. f_equal; [congruence|auto].
Qed.

Lemma check_inputs_loop_ok c l h n c' r :
  cache_ok c -> check_inputs_loop c l h n = (c', r) -> 0 <= n <= MAX_MONEY ->
  forall cs, spent_coins (cache_coins c) l cs ->
  same c c' /\ r <> Err tx_assertion /\
  forall v, r = Ok v <->
    v = n + total_coins cs /\ Forall (mature h) cs /\ Forall in_money cs /\ n + total_coins cs <= MAX_MONEY.
Proof.
  intros Hc H Hn cs Hcs. revert c n Hc H Hn Hcs.
  revert cs. induction l as [|i l IH]; intros cs c n Hc H Hn Hcs; inversion Hcs; subst; cbn [check_inputs_loop] in H.
  { injection H as <- <-. split; [done|]. split; [done|]. intros v. unfold total_coins. cbn. split.
    - intros [= <-]. repeat split; try constructor; lia.
    - intros [-> _]. f_equal. lia. }
  rename y into coin, l' into cs. destruct (AccessCoin c (prevout i)) as [c1 coin'] eqn:Ha.
  apply AccessCoin_ok in Ha as (A1 & A2 & _ & A3); [|done].
  match goal with Hx : cache_coins c !! _ = Some coin |- _ => rename Hx into Hcoin end.
  rewrite Hcoin in A3. destruct (Coin_IsSpent coin') eqn:Hsp; [done|]. injection A3 as ->.
  unfold total_coins. cbn [fmap list_fmap total_value foldr].
  fold (total_value (coin_out <$> cs)). fold (total_coins cs).
  assert (forall e, (c1, Err e) = (c', r) -> e <> tx_assertion ->
    ~ (mature h coin' /\ in_money coin' /\ n + nValue (coin_out coin') <= MAX_MONEY) ->
    same c c' /\ r <> Err tx_assertion /\
    forall v, r = Ok v <-> v = n + (nValue (coin_out coin') + total_coins cs) /\
      Forall (mature h) (coin' :: cs) /\ Forall in_money (coin' :: cs) /\
      n + (nValue (coin_out coin') + total_coins cs) <= MAX_MONEY) as Herr.
  { intros e [= <- <-] He Hbad. split; [done|]. split; [congruence|]. intros v. split; [done|].
    intros (_ & [Hm _]%Forall_cons & [Hi Hr]%Forall_cons & Ht). exfalso. apply Hbad. split; [done|]. split; [done|].
    assert (0 <= total_coins cs); [|lia]. unfold total_coins. apply total_value_nonneg. by apply Forall_fmap. }
  destruct (fCoinBase coin' && (h - coin_nHeight coin' <? COINBASE_MATURITY)) eqn:Hmat.
  { apply (Herr _ H); [done|]. apply andb_true_iff in Hmat as [Hf Hlt%Z.ltb_lt].
    intros [Hm _]. specialize (Hm Hf). lia. }
  destruct (negb (MoneyRange (nValue (coin_out coin'))) || negb (MoneyRange (n + nValue (coin_out coin')))) eqn:Hmr.
  { apply (Herr _ H); [done|]. intros (_ & Hi & Ht). unfold in_money in Hi.
    rewrite (proj2 (MoneyRange_true _)), (proj2 (MoneyRange_true _)) in Hmr by lia. done. }
  apply orb_false_iff in Hmr as [Hm1%negb_false_iff Hm2%negb_false_iff]. apply MoneyRange_true in Hm1, Hm2.
  destruct (IH cs c1 (n + nValue (coin_out coin')) A1 H Hm2) as ((K1 & K2) & K3 & K4).
  { unfold spent_coins. by rewrite A2. }
  split; [split; [done|congruence]|]. split; [done|]. intros v. rewrite K4, !Forall_cons, Z.add_assoc.
  assert (mature h coin') as Hmt.
  { intros Hf. rewrite Hf in Hmat. cbn [andb] in Hmat. by apply Z.ltb_ge in Hmat. }
  unfold in_money at 2. tauto.
Qed.
(** [CheckTxInputs] of a transaction that is no coinbase. *)
Lemma CheckTxInputs_spec (tx : CMutableTransaction) inputs nSpendHeight inputs' (r : tx_result CAmount) :
  cache_ok inputs -> IsCoinBase tx = false -> CheckTxInputs tx inputs nSpendHeight = (inputs', r) ->
  cache_ok inputs' /\ cache_coins inputs' = cache_coins inputs /\ r <> Err tx_assertion /\
  forall fee, r = Ok fee <->
    exists cs out, spent_coins (cache_coins inputs) (vin tx) cs /\ Forall (mature nSpendHeight) cs /\
      Forall in_money cs /\ total_coins cs <= MAX_MONEY /\
      GetValueOut tx = Some out /\ 0 <= fee /\ total_coins cs = out + fee.
Proof.
  intros Hc Hcb H. unfold CheckTxInputs, HaveInputs in H. rewrite Hcb in H. cbn [negb] in H.
  destruct (HaveInputs_loop inputs (vin tx)) as [c1 b] eqn:Hh.
  apply HaveInputs_loop_ok in Hh as ((H1 & H2) & Hb); [|done]. destruct b.
  2:{ injection H as <- <-. split_and!; try done. intros fee. split; [done|].
      intros (cs & out & Hcs & _). enough (false = true) by done. apply Hb. apply Forall_lookup_2. intros i x Hx.
      destruct (Forall2_lookup_l _ _ _ _ _ Hcs Hx) as (coin & _ & ->). eauto. }
  assert (exists cs, spent_coins (cache_coins inputs) (vin tx) cs) as [cs Hcs].
  { clear -Hb. destruct Hb as [Hb _]. specialize (Hb eq_refl). induction Hb as [|i l [coin Hi] Hl [cs IH]].
    - exists []. constructor.
    - exists (coin :: cs). by constructor. }
  destruct (check_inputs_loop c1 (vin tx) nSpendHeight 0) as [c2 rv] eqn:Hl. injection H as <- <-.
  destruct (check_inputs_loop_ok c1 (vin tx) nSpendHeight 0 c2 rv H1 Hl) with (cs := cs) as ((K1 & K2) & K3 & K4).
  { unfold MAX_MONEY, COIN. lia. }
  { by rewrite H2. }
  split; [done|]. split; [congruence|]. split.
  - destruct rv as [v|e]; cbn [mbind result_bind]; [|congruence].
    destruct (GetValueOut tx) as [out|]; cbn [mbind result_bind]; [|done].
    unfold check. by destruct (negb (v <? out)), (MoneyRange (v - out)).
  - intros fee. split.
    + intros H. apply bind_Ok in H as (v & -> & H). destruct (proj1 (K4 v) eq_refl) as (-> & Hm & Hi & Ht).
      destruct (GetValueOut tx) as [out|]; [|done]. cbn [mbind result_bind] in H.
      apply bind_Ok in H as (? & H5%check_Ok & H). apply bind_Ok in H as (? & H6%check_Ok & H). injection H as <-.
      apply MoneyRange_true in H6. exists cs, out. rewrite Z.add_0_l in *. split_and!; try done; lia.
    + intros (cs' & out & Hcs' & Hm & Hi & Ht & Hout & Hfee & Heq).
      rewrite <- (spent_coins_det _ _ _ _ Hcs Hcs') in *.
      rewrite (proj2 (K4 (total_coins cs))) by (split_and!; [lia|done|done|lia]).
      rewrite Hout. cbn [mbind result_bind].
      assert (0 <= out).
      { apply GetValueOut_loop_Some in Hout as (Hv & -> & _). pose proof (total_value_nonneg _ Hv). lia. }
      rewrite (proj2 (Z.ltb_ge _ _)) by lia. cbn [negb check mbind result_bind].
      rewrite (proj2 (MoneyRange_true _)) by lia. cbn [check mbind result_bind]. f_equal. lia.
Qed.

(** *** Lookups change nothing *)

(** An operation that only looks coins up. *)
Definition lookup_only {A} (f : CCoinsViewCache V -> CCoinsViewCache V * A) : Prop :=
  forall c c' r, cache_ok c -> f c = (c', r) -> same c c'.

Lemma lookup_AccessCoin {A} o (g : Coin -> CCoinsViewCache V -> CCoinsViewCache V * A) :
  (forall coin, lookup_only (g coin)) -> lookup_only (fun c => let '(c, coin) := AccessCoin c o in g coin c).
Proof.
  intros Hg c c' r Hc H. cbn beta in H. destruct (AccessCoin c o) as [c1 coin] eqn:Ha.
  apply AccessCoin_ok in Ha as (H1 & H2 & _ & _); [|done]. apply Hg in H as [H3 H4]; [|done].
  split; [done|congruence].
Qed.

Lemma lookup_ret {A} (a : A) : lookup_only (fun c => (c, a)).
Proof. by intros c c' r Hc [= <- <-]. Qed.

Lemma lookup_p2sh_sigops l n : lookup_only (fun c => p2sh_sigops_loop c l n).
Proof.
  revert n. induction l as [|i l IH]; intros n; [apply lookup_ret|]. apply lookup_AccessCoin. intros coin.
  destruct (Coin_IsSpent coin); [apply lookup_ret|apply IH].
Qed.

Lemma lookup_witness_sigops l flags n : lookup_only (fun c => witness_sigops_loop c l flags n).
Proof.
  revert n. induction l as [|i l IH]; intros n; [apply lookup_ret|]. apply lookup_AccessCoin. intros coin.
  destruct (Coin_IsSpent coin); [apply lookup_ret|]. destruct (CountWitnessSigOps _ _ _ _); [apply IH|apply lookup_ret].
Qed.

Lemma lookup_SigOpCost (tx : CMutableTransaction) flags : lookup_only (fun c => GetTransactionSigOpCost tx c flags).
Proof.
  intros c c' r Hc. unfold GetTransactionSigOpCost. destruct (IsCoinBase tx) eqn:Hcb; [by intros [= <- <-]|].
  destruct (if has flags SCRIPT_VERIFY_P2SH then _ else _) as [c1 p] eqn:Hp.
  assert (same c c1) as [H1 H2].
  { destruct (has flags SCRIPT_VERIFY_P2SH); [|by injection Hp as <- <-]. unfold GetP2SHSigOpCount in Hp.
    rewrite Hcb in Hp. by apply lookup_p2sh_sigops in Hp. }
  destruct p as [p|]; [|by intros [= <- <-]]. intros H. apply lookup_witness_sigops in H as [H3 H4]; [|done].
  split; [done|congruence].
Qed.
End inputs.

(** *** Lock times *)

Lemma sequence_locks_loop_bounds m block vin hs h0 t0 hs' h t :
  sequence_locks_loop m block vin hs h0 t0 = Some (hs', h, t) ->
  h0 <= h /\ t0 <= t /\
  forall i txin ch, vin !! i = Some txin -> hs !! i = Some ch ->
    has (nSequence txin) SEQUENCE_LOCKTIME_DISABLE_FLAG = false ->
    if has (nSequence txin) SEQUENCE_LOCKTIME_TYPE_FLAG then
      exists a nCoinTime, GetAncestor m block (Z.max (ch - 1) 0) = Some (Some a) /\
        GetMedianTimePast m a = Some nCoinTime /\
        nCoinTime + Z.shiftl (Z.land (nSequence txin) SEQUENCE_LOCKTIME_MASK) SEQUENCE_LOCKTIME_GRANULARITY - 1 <= t
    else ch + Z.land (nSequence txin) SEQUENCE_LOCKTIME_MASK - 1 <= h.
Proof.
  revert hs h0 t0 hs'. induction vin as [|txin vin IH]; intros hs h0 t0 hs' H.
  { injection H as <- <- <-. split; [lia|]. split; [lia|]. by intros [|i]. }
  destruct hs as [|ch hs]; cbn [sequence_locks_loop] in H.
  { injection H as <- <- <-. split; [lia|]. split; [lia|]. by intros [|i]. }
  destruct (has (nSequence txin) SEQUENCE_LOCKTIME_DISABLE_FLAG) eqn:Hdis.
  - destruct (sequence_locks_loop m block vin hs h0 t0) as [[[hs1 h1] t1]|] eqn:Hr; [|done].
    injection H as <- <- <-. apply IH in Hr as (H1 & H2 & H3). split; [done|]. split; [done|].
    intros [|i] y ch'; cbn; [intros [= <-] _; congruence|apply H3].
  - destruct (has (nSequence txin) SEQUENCE_LOCKTIME_TYPE_FLAG) eqn:Hty.
    + destruct (GetAncestor m block (Z.max (ch - 1) 0)) as [[a|]|] eqn:Ha; try done.
      cbn [mbind option_bind] in H. destruct (GetMedianTimePast m a) as [ct|] eqn:Hct; [|done].
      cbn [mbind option_bind] in H.
      match type of H with context [sequence_locks_loop m block vin hs ?x ?y] =>
        destruct (sequence_locks_loop m block vin hs x y) as [[[hs1 h1] t1]|] eqn:Hr; [|done] end.
      injection H as <- <- <-. apply IH in Hr as (H1 & H2 & H3). split; [lia|]. split; [lia|].
      intros [|i] y ch'; cbn; [|apply H3]. intros [= <-] [= <-] _. rewrite Hty. exists a, ct. split; [done|].
      split; [done|]. lia.
    + match type of H with context [sequence_locks_loop m block vin hs ?x ?y] =>
        destruct (sequence_locks_loop m block vin hs x y) as [[[hs1 h1] t1]|] eqn:Hr; [|done] end.
      injection H as <- <- <-. apply IH in Hr as (H1 & H2 & H3). split; [lia|]. split; [lia|].
      intros [|i] y ch'; cbn; [|apply H3]. intros [= <-] [= <-] _. rewrite Hty. lia.
Qed.

Lemma land_pow2_cases x k : 0 <= k -> Z.land x (2 ^ k) = 0 \/ Z.land x (2 ^ k) = 2 ^ k.
Proof.
  intros Hk. destruct (Z.testbit x k) eqn:Hb; [right|left]; apply Z.bits_inj'; intros i Hi.
  - rewrite Z.land_spec, Z.pow2_bits_eqb by done. destruct (Z.eqb_spec k i) as [->|]; [by rewrite Hb|apply andb_false_r].
  - rewrite Z.land_spec, Z.pow2_bits_eqb, Z.bits_0 by done.
    destruct (Z.eqb_spec k i) as [->|]; [by rewrite Hb|apply andb_false_r].
Qed.

(** The two fields of a relative lock time. *)
Lemma masked x :
  Z.land x (Z.lor SEQUENCE_LOCKTIME_TYPE_FLAG SEQUENCE_LOCKTIME_MASK) =
    (if has x SEQUENCE_LOCKTIME_TYPE_FLAG then SEQUENCE_LOCKTIME_TYPE_FLAG else 0) + Z.land x SEQUENCE_LOCKTIME_MASK /\
  0 <= Z.land x SEQUENCE_LOCKTIME_MASK < SEQUENCE_LOCKTIME_TYPE_FLAG.
Proof.
  split.
  - rewrite Z.land_lor_distr_r, <- Z.add_nocarry_lor.
    + f_equal. unfold has. change SEQUENCE_LOCKTIME_TYPE_FLAG with (2 ^ 22).
      destruct (land_pow2_cases x 22 ltac:(lia)) as [-> | ->]; reflexivity.
    + apply Z.bits_inj'. intros i Hi. rewrite !Z.land_spec, Z.bits_0.
      pose proof (Z.land_spec SEQUENCE_LOCKTIME_TYPE_FLAG SEQUENCE_LOCKTIME_MASK i) as Hm.
      change (Z.land SEQUENCE_LOCKTIME_TYPE_FLAG SEQUENCE_LOCKTIME_MASK) with 0 in Hm. rewrite Z.bits_0 in Hm.
      destruct (Z.testbit x i); cbn [andb]; [|done]. by rewrite <- Hm.
  - change SEQUENCE_LOCKTIME_MASK with (Z.ones 16). rewrite Z.land_ones by lia.
    pose proof (Z.mod_pos_bound x (2 ^ 16) ltac:(lia)). change SEQUENCE_LOCKTIME_TYPE_FLAG with (2 ^ 22).
    assert (2 ^ 16 < 2 ^ 22) by lia. lia.
Qed.

(** What a passed CHECKLOCKTIMEVERIFY or CHECKSEQUENCEVERIFY says about the
    input. *)
Lemma CheckLockTime_true txTo nIn n :
  tx_CheckLockTime txTo nIn n = Ok true ->
  (n < LOCKTIME_THRESHOLD <-> tx_nLockTime txTo < LOCKTIME_THRESHOLD) /\ n <= tx_nLockTime txTo /\
  exists txin, vin txTo !! Z.to_nat nIn = Some txin /\ nSequence txin <> SEQUENCE_FINAL.
Proof.
  unfold tx_CheckLockTime. rewrite !Z.gtb_ltb, !Z.geb_leb.
  destruct (negb _) eqn:Hk; [done|]. apply negb_false_iff in Hk.
  destruct (Z.ltb_spec (tx_nLockTime txTo) n); [done|]. intros H'.
  apply bind_Ok in H' as (s & Hs & H'). unfold input_nSequence in Hs.
  destruct (vin txTo !! Z.to_nat nIn) as [txin|] eqn:Hx; [|done]. injection Hs as <-.
  destruct (Z.eqb_spec SEQUENCE_FINAL (nSequence txin)); [done|].
  split; [|split; [lia|by exists txin]].
  apply orb_true_iff in Hk as [Hk|Hk]; apply andb_true_iff in Hk as [H1 H2];
    rewrite ?Z.ltb_lt, ?Z.leb_le in *; lia.
Qed.

Lemma CheckSequence_true txTo nIn n :
  tx_CheckSequence txTo nIn n = Ok true ->
  2 <= u32 (tx_nVersion txTo) /\
  exists txin, vin txTo !! Z.to_nat nIn = Some txin /\
    has (nSequence txin) SEQUENCE_LOCKTIME_DISABLE_FLAG = false /\
    has (nSequence txin) SEQUENCE_LOCKTIME_TYPE_FLAG = has n SEQUENCE_LOCKTIME_TYPE_FLAG /\
    Z.land n SEQUENCE_LOCKTIME_MASK <= Z.land (nSequence txin) SEQUENCE_LOCKTIME_MASK.
Proof.
  unfold tx_CheckSequence, input_nSequence, CScriptNum.and_. intros H.
  apply bind_Ok in H as (s & Hs & H). destruct (vin txTo !! Z.to_nat nIn) as [txin|] eqn:Hx; [|done].
  injection Hs as <-. destruct (Z.ltb_spec (u32 (tx_nVersion txTo)) 2); [done|]. split; [done|]. exists txin.
  split; [done|]. destruct (has (nSequence txin) SEQUENCE_LOCKTIME_DISABLE_FLAG); [done|]. split; [done|].
  destruct (masked n) as [Hn1 Hn2], (masked (nSequence txin)) as [Hs1 Hs2]. rewrite Hn1, Hs1 in H.
  rewrite !Z.gtb_ltb, !Z.geb_leb in H. destruct (negb _) eqn:Hk; [done|]. apply negb_false_iff in Hk.
  match type of H with (if ?a <? ?b then _ else _) = _ => destruct (Z.ltb_spec a b); [done|] end.
  apply orb_true_iff in Hk as [Hk|Hk]; apply andb_true_iff in Hk as [K1 K2];
    rewrite ?Z.ltb_lt, ?Z.leb_le in *;
    destruct (has (nSequence txin) SEQUENCE_LOCKTIME_TYPE_FLAG), (has n SEQUENCE_LOCKTIME_TYPE_FLAG);
    (split; [done || (exfalso; lia)|lia]).
Qed.

(** *** The rules of [CheckTransaction] *)

(** Success, or a rejection with a code. *)
Definition decides (r : tx_result unit) : Prop :=
  r = Ok () \/ exists level reason, r = Err (DoS level REJECT_INVALID reason false).

Lemma decides_check b level reason : decides (check b (invalid level reason)).
Proof. destruct b; [by left|right; by eexists _, _]. Qed.

Lemma decides_bind r f : decides r -> decides (f ()) -> decides (r ≫= f).
Proof. intros [-> | (level & reason & ->)] Hf; [exact Hf|right; by eexists _, _]. Qed.

Lemma decides_outputs l n : decides (check_outputs l n).
Proof.
  revert n. induction l as [|o l IH]; intros n; [by left|]. cbn [check_outputs].
  repeat (apply decides_bind; [apply decides_check|]). apply IH.
Qed.

Lemma decides_duplicates l s : decides (check_duplicates l s).
Proof.
  revert s. induction l as [|i l IH]; intros s; [by left|]. cbn [check_duplicates].
  apply decides_bind; [apply decides_check|apply IH].
Qed.

Lemma IsCoinBase_vin tx : IsCoinBase tx = true -> exists i, vin tx = [i].
Proof. unfold IsCoinBase. destruct (vin tx) as [|i [|]]; naive_solver. Qed.

Lemma forallb_Forall_false {A} (f : A -> bool) l :
  forallb (fun x => negb (f x)) l = true <-> Forall (fun x => f x = false) l.
Proof. rewrite forallb_forall, Forall_forall. setoid_rewrite negb_true_iff. setoid_rewrite list_elem_of_In. done. Qed.

Section rules.
Context `{L : Layout} (tx : CMutableTransaction) (dup : bool).

Definition accepted : Prop :=
  vin tx <> [] /\ vout tx <> [] /\ u64 (stripped_size tx * WITNESS_SCALE_FACTOR) <= MAX_BLOCK_WEIGHT /\
  Forall (fun o => 0 <= nValue o <= MAX_MONEY) (vout tx) /\ total_value (vout tx) <= MAX_MONEY /\
  (dup = true -> NoDup (prevout <$> vin tx)) /\
  if IsCoinBase tx then Forall (fun i => 2 <= Z.of_nat (length (scriptSig i)) <= 100) (vin tx)
  else Forall (fun i => COutPoint_IsNull (prevout i) = false) (vin tx).

Lemma CheckTransaction_decides : decides (CheckTransaction tx dup).
Proof.
  unfold CheckTransaction. repeat (apply decides_bind; [apply decides_check|]).
  apply decides_bind; [apply decides_outputs|].
  apply decides_bind; [destruct dup; [apply decides_duplicates|by left]|].
  destruct (IsCoinBase tx) eqn:Hcb; [|apply decides_check].
  destruct (IsCoinBase_vin tx Hcb) as [i ->]. apply decides_check.
Qed.

Lemma CheckTransaction_Ok : CheckTransaction tx dup = Ok () <-> accepted.
Proof.
  unfold CheckTransaction, accepted. split.
  - intros H. apply bind_Ok in H as (? & H1%check_Ok & H). apply bind_Ok in H as (? & H2%check_Ok & H).
    apply bind_Ok in H as (? & H3%check_Ok & H). apply bind_Ok in H as ([] & H4 & H).
    apply bind_Ok in H as ([] & H5 & H).
    apply negb_true_iff, bool_decide_eq_false in H1. apply negb_true_iff, bool_decide_eq_false in H2.
    rewrite negb_true_iff, Z.gtb_ltb, Z.ltb_ge in H3. apply check_outputs_Ok in H4 as [H4 H4']; [|lia].
    split_and!; try done.
    + by destruct H4' as [|H4'].
    + intros ->. by apply check_duplicates_Ok in H5 as [? _].
    + destruct (IsCoinBase tx) eqn:Hcb.
      * destruct (IsCoinBase_vin tx Hcb) as [i Hi]. rewrite Hi in *. apply check_Ok, negb_true_iff in H.
        apply orb_false_iff in H as [Ha Hb]. rewrite Z.gtb_ltb in Hb. apply Z.ltb_ge in Ha, Hb. by constructor.
      * apply check_Ok in H. by apply forallb_Forall_false.
  - intros (H1 & H2 & H3 & H4 & H5 & H6 & H7).
    rewrite !bool_decide_eq_false_2 by done. cbn [negb check mbind result_bind].
    rewrite Z.gtb_ltb, (proj2 (Z.ltb_ge _ _)) by done. cbn [negb check mbind result_bind].
    rewrite (proj2 (check_outputs_Ok (vout tx) 0 ltac:(lia))) by auto. cbn [mbind result_bind].
    assert ((if dup then check_duplicates (vin tx) ∅ else Ok ()) = Ok ()) as ->.
    { destruct dup; [|done]. apply check_duplicates_Ok. split; [by apply H6|]. intros. apply not_elem_of_empty. }
    cbn [mbind result_bind]. destruct (IsCoinBase tx) eqn:Hcb.
    + destruct (IsCoinBase_vin tx Hcb) as [i Hi]. rewrite Hi in *. apply Forall_cons_1 in H7 as [H7 _].
      apply check_Ok, negb_true_iff, orb_false_iff. rewrite Z.gtb_ltb, !Z.ltb_ge. lia.
    + apply check_Ok. by apply forallb_Forall_false.
Qed.

Lemma accepted_value_out : accepted -> GetValueOut tx = Some (total_value (vout tx)).
Proof.
  intros (_ & _ & _ & H4 & H5 & _). unfold GetValueOut.
  rewrite GetValueOut_loop_total; [done|unfold MAX_MONEY, COIN; lia|done|lia].
Qed.
End rules.
End txverify_facts.
Import txverify_facts coins_facts.

(** ** Properties *)

(** C15: The context-free rules of a transaction.  [CheckTransaction] accepts
    exactly the transactions that have inputs and outputs, fit the size limit
    without their witness, whose output values and total are amounts of money,
    whose inputs are distinct when it is asked to look, and that spend no null
    outpoint unless they are a coinbase with a script of 2 to 100 bytes.  It
    rejects every other with a code and never fails an assertion; and the sum
    of the outputs of an accepted transaction is defined. *)
Theorem CheckTransaction_correct `{L : Layout} (tx : CMutableTransaction) (fCheckDuplicateInputs : bool) :
  (CheckTransaction tx fCheckDuplicateInputs = Ok () <->
     vin tx <> [] /\ vout tx <> [] /\ u64 (stripped_size tx * WITNESS_SCALE_FACTOR) <= MAX_BLOCK_WEIGHT /\
     Forall (fun o => 0 <= nValue o <= MAX_MONEY) (vout tx) /\ total_value (vout tx) <= MAX_MONEY /\
     (fCheckDuplicateInputs = true -> NoDup (prevout <$> vin tx)) /\
     if IsCoinBase tx then Forall (fun i => 2 <= Z.of_nat (length (scriptSig i)) <= 100) (vin tx)
     else Forall (fun i => COutPoint_IsNull (prevout i) = false) (vin tx)) /\
  (CheckTransaction tx fCheckDuplicateInputs = Ok () \/
   exists level reason, CheckTransaction tx fCheckDuplicateInputs = Err (DoS level REJECT_INVALID reason false)) /\
  (CheckTransaction tx fCheckDuplicateInputs = Ok () -> GetValueOut tx = Some (total_value (vout tx))).
Proof.
  split; [apply CheckTransaction_Ok|]. split; [apply CheckTransaction_decides|].
  intros H%CheckTransaction_Ok. by eapply accepted_value_out.
Qed.

Lemma CheckTransaction_correct_witness :
  CheckTransaction (L := transaction_example.layout) transaction_example.tx true = Ok () /\
  GetValueOut transaction_example.tx = Some (50 * COIN).
Proof.
  assert (CheckTransaction (L := transaction_example.layout) transaction_example.tx true = Ok ()) as H
    by (vm_compute; reflexivity).
  split; [exact H|]. exact (proj2 (proj2 (CheckTransaction_correct transaction_example.tx true)) H).
Defined.

(** C16: Spending coins.  Over any lawful cache, [CheckTxInputs] on a
    transaction that is no coinbase leaves the coins as they are and accepts
    exactly when every input spends an available coin, coinbase coins have
    matured, the coin values and their sum are amounts of money, the outputs
    have a sum, and it is not greater; the fee is then the difference, so that
    no money is created.  It never fails the assertion that a coin is unspent. *)
Theorem CheckTxInputs_correct {V : Type} `{CV : CCoinsView V} `{P : CoinsPlatform} `{PL : !CoinsPlatformLaws P}
    `{CL : !CoinsViewLaws CV} (tx : CMutableTransaction) (inputs : CCoinsViewCache V) (nSpendHeight : Z)
    (inputs' : CCoinsViewCache V) (r : tx_result CAmount) :
  cache_ok inputs -> IsCoinBase tx = false -> CheckTxInputs tx inputs nSpendHeight = (inputs', r) ->
  cache_ok inputs' /\ cache_coins inputs' = cache_coins inputs /\ r <> Err tx_assertion /\
  forall fee, r = Ok fee <->
    exists cs out, spent_coins (cache_coins inputs) (vin tx) cs /\ Forall (mature nSpendHeight) cs /\
      Forall in_money cs /\ total_coins cs <= MAX_MONEY /\
      GetValueOut tx = Some out /\ 0 <= fee /\ total_coins cs = out + fee.
Proof. apply CheckTxInputs_spec. Qed.

Module txverify_example.
Export coins_example.
Definition spend : CMutableTransaction := {|
  vin := [{| prevout := transaction_example.out 1 0; scriptSig := []; nSequence := 5; scriptWitness := [] |}];
  vout := [{| nValue := 3; scriptPubKey := [OP_1] |}]; tx_nVersion := 2; tx_nLockTime := 90 |}.
Definition checked := CheckTxInputs spend cache0 8.

(** Two blocks; the coin spent is in the first. *)
Definition index : index_map :=
  <[2%positive := chain_example.entry 2 (Some 1%positive) 1]> {[1%positive := chain_example.entry 1 None 0]}.
End txverify_example.
Import txverify_example.

Lemma CheckTxInputs_correct_witness : checked.2 = Ok 2 /\ cache_coins checked.1 = cache_coins cache0.
Proof.
  destruct (CheckTxInputs_correct spend cache0 8 checked.1 checked.2 cache0_ok eq_refl (surjective_pairing _))
    as (_ & Hc & _ & Hr).
  split; [|exact Hc]. apply Hr. exists [coin 5], 3.
  split; [repeat constructor|]. split; [repeat constructor; discriminate|]. split; [repeat constructor; discriminate|].
  repeat split; discriminate || reflexivity.
Defined.

(** C17: Time locks are sound: what a script demands with CHECKLOCKTIMEVERIFY
    or CHECKSEQUENCEVERIFY is what the rules for including the transaction
    enforce.  If [CheckLockTime] accepts [n] and the transaction is final in a
    block, the height or the time of that block, whichever kind [n] is, is
    beyond [n].  If [CheckSequence] accepts an enabled [n] and the sequence
    locks of the transaction hold in a block, then that block is at least the
    number of blocks of [n] above the coin spent, or the median time of its
    parent at least the 512-second units of [n] after that of the block before
    the coin. *)
Theorem timelocks_sound (m : index_map) (txTo : CMutableTransaction) (nIn n : Z) :
  (forall nBlockHeight nBlockTime, 0 < nBlockHeight -> tx_CheckLockTime txTo nIn n = Ok true ->
     IsFinalTx txTo nBlockHeight nBlockTime = true ->
     n < if n <? LOCKTIME_THRESHOLD then nBlockHeight else nBlockTime) /\
  (forall flags prevHeights hs block, tx_CheckSequence txTo nIn n = Ok true ->
     has flags LOCKTIME_VERIFY_SEQUENCE = true ->
     SequenceLocks m txTo flags prevHeights block = Some (hs, true) ->
     exists b nCoinHeight, m !! block = Some b /\ prevHeights !! Z.to_nat nIn = Some nCoinHeight /\
       if has n SEQUENCE_LOCKTIME_TYPE_FLAG then
         exists q a nCoinTime nBlockTime,
           pprev b = Some q /\ GetMedianTimePast m q = Some nBlockTime /\
           GetAncestor m block (Z.max (nCoinHeight - 1) 0) = Some (Some a) /\
           GetMedianTimePast m a = Some nCoinTime /\
           nCoinTime + Z.land n SEQUENCE_LOCKTIME_MASK * 512 <= nBlockTime
       else nCoinHeight + Z.land n SEQUENCE_LOCKTIME_MASK <= nHeight b).
Proof.
  split.
  - intros h t Hh (Hkind & Hle & txin & Hx & Hseq)%CheckLockTime_true Hf. unfold IsFinalTx in Hf.
    destruct (Z.eqb_spec (tx_nLockTime txTo) 0) as [Hz|_].
    { rewrite Hz in *. rewrite (proj2 (Z.ltb_lt n LOCKTIME_THRESHOLD)) by (apply Hkind; done). lia. }
    replace (tx_nLockTime txTo <? LOCKTIME_THRESHOLD) with (n <? LOCKTIME_THRESHOLD) in Hf.
    2:{ destruct (Z.ltb_spec n LOCKTIME_THRESHOLD), (Z.ltb_spec (tx_nLockTime txTo) LOCKTIME_THRESHOLD); try done; lia. }
    match type of Hf with (if ?a <? ?b then _ else _) = _ => destruct (Z.ltb_spec a b) as [|_]; [lia|] end.
    exfalso. apply Hseq. apply Z.eqb_eq. revert Hf. rewrite forallb_forall. intros Hf. apply Hf.
    apply list_elem_of_In. by eapply list_elem_of_lookup_2.
  - intros flags ph hs block (Hver & txin & Hx & Hdis & Hty & Hmask)%CheckSequence_true Hfl H.
    unfold SequenceLocks in H. destruct (CalculateSequenceLocks m txTo flags ph block) as [[[hs1 h] t]|] eqn:Hcalc; [|done].
    cbn [mbind option_bind] in H. unfold EvaluateSequenceLocks in H.
    destruct (m !! block) as [b|] eqn:Hb; [|done]. cbn [mbind option_bind] in H.
    destruct (pprev b) as [q|] eqn:Hq; [|done]. cbn [mbind option_bind] in H.
    destruct (GetMedianTimePast m q) as [bt|] eqn:Hbt; [|done]. cbn [mbind option_bind] in H.
    injection H as <- Hok. apply negb_true_iff, orb_false_iff in Hok as [Ho1 Ho2].
    rewrite Z.geb_leb in Ho1, Ho2. apply Z.leb_gt in Ho1, Ho2.
    unfold CalculateSequenceLocks in Hcalc. destruct (length ph =? length (vin txTo))%nat eqn:Hlen; [|done].
    apply Nat.eqb_eq in Hlen. cbn [negb] in Hcalc. rewrite Hfl, Z.geb_leb, (proj2 (Z.leb_le _ _)) in Hcalc by done.
    cbn [andb negb] in Hcalc. apply sequence_locks_loop_bounds in Hcalc as (_ & _ & Hloop).
    destruct (lookup_lt_is_Some_2 ph (Z.to_nat nIn)) as [ch Hch].
    { rewrite Hlen. by eapply lookup_lt_Some. }
    exists b, ch. split; [done|]. split; [done|]. specialize (Hloop _ _ _ Hx Hch Hdis). rewrite Hty in Hloop.
    destruct (has n SEQUENCE_LOCKTIME_TYPE_FLAG); [|lia].
    destruct Hloop as (a & ct & Ha & Hct & Hbound). exists q, a, ct, bt. split_and!; try done.
    unfold SEQUENCE_LOCKTIME_GRANULARITY in Hbound. rewrite Z.shiftl_mul_pow2 in Hbound by lia.
    change (2 ^ 9) with 512 in Hbound. lia.
Qed.

Lemma timelocks_sound_witness :
  50 < (if 50 <? LOCKTIME_THRESHOLD then 91 else 0) /\
  exists b h, index !! 2%positive = Some b /\ [0] !! 0%nat = Some h /\ h + 1 <= nHeight b.
Proof.
  destruct (timelocks_sound index spend 0 50) as [H1 _]. destruct (timelocks_sound index
    {| vin := [{| prevout := transaction_example.out 1 0; scriptSig := []; nSequence := 1; scriptWitness := [] |}];
       vout := []; tx_nVersion := 2; tx_nLockTime := 0 |} 0 1) as [_ H2]. split.
  - apply (H1 91 0); [lia|reflexivity|reflexivity].
  - destruct (H2 LOCKTIME_VERIFY_SEQUENCE [0] [0] 2%positive) as (b & h & Hb & Hh & Hle); [reflexivity..|].
    exists b, h. split; [exact Hb|]. split; [exact Hh|]. exact Hle.
Defined.
