(* ===== verification/Block.v ===== *)
(** * Blocks ([primitives/block.h], [primitives/block.cpp])

    The serialisation of the headers of [Chain] and their hash, and the block
    with its transactions. *)

From S2P Require Import Prelude Uint256 Hash Chain Script Interpreter Serialize Transaction.

Definition header_codec : codec CBlockHeader := {|
  Serialize h :=
    Serialize int32_codec (hdr_nVersion h) ++ Serialize uint256_codec (hdr_hashPrevBlock h) ++
    Serialize uint256_codec (hdr_hashMerkleRoot h) ++ Serialize uint32_codec (hdr_nTime h) ++
    Serialize uint32_codec (hdr_nBits h) ++ Serialize uint256_codec (hdr_nNonce h) ++
    Serialize bytes_codec (hdr_nSolution h);
  Unserialize s :=
    '(nVersion, s) ← Unserialize int32_codec s;
    '(hashPrevBlock, s) ← Unserialize uint256_codec s;
    '(hashMerkleRoot, s) ← Unserialize uint256_codec s;
    '(nTime, s) ← Unserialize uint32_codec s;
    '(nBits, s) ← Unserialize uint32_codec s;
    '(nNonce, s) ← Unserialize uint256_codec s;
    '(nSolution, s) ← Unserialize bytes_codec s;
    Ok ({| hdr_nVersion := nVersion; hdr_hashPrevBlock := hashPrevBlock; hdr_hashMerkleRoot := hashMerkleRoot;
           hdr_nTime := nTime; hdr_nBits := nBits; hdr_nNonce := nNonce; hdr_nSolution := nSolution |}, s) |}.

(** [CEquihashInput]: the header without its nonce and its solution. *)
Definition SerializeEquihashInput (h : CBlockHeader) : bytes :=
  Serialize int32_codec (hdr_nVersion h) ++ Serialize uint256_codec (hdr_hashPrevBlock h) ++
  Serialize uint256_codec (hdr_hashMerkleRoot h) ++ Serialize uint32_codec (hdr_nTime h) ++
  Serialize uint32_codec (hdr_nBits h).

Definition header_SetNull : CBlockHeader := {|
  hdr_nVersion := 0; hdr_hashPrevBlock := uint256_null; hdr_hashMerkleRoot := uint256_null;
  hdr_nTime := 0; hdr_nBits := 0; hdr_nNonce := uint256_null; hdr_nSolution := [] |}.
Definition header_IsNull (h : CBlockHeader) : bool := hdr_nBits h =? 0.

(** [fChecked] is kept in memory only. *)
Record CBlock := { header :> CBlockHeader; vtx : list CTransaction; fChecked : bool }.
Definition block_SetNull : CBlock := {| header := header_SetNull; vtx := []; fChecked := false |}.

Section block.
Context `{Hs : HashFunctions}.

Definition header_GetHash (h : CBlockHeader) : uint256 := CHash256 (Serialize header_codec h).

Context `{L : Layout}.

(** A [CTransactionRef] is read as a new transaction, whose hash is computed
    then; [chunk] is what [vector_codec] needs of the size of the pointers. *)
Definition tx_codec (version : Z) : codec CTransaction := {|
  Serialize (tx : CTransaction) := SerializeTransaction version tx;
  Unserialize s := '(tx, s) ← UnserializeTransaction version s; Ok (MakeTransaction tx, s) |}.

Definition SerializeBlock (version : Z) (b : CBlock) : bytes :=
  Serialize header_codec b ++ WriteCompactSize (Z.of_nat (length (vtx b))) ++
  concat (map (Serialize (tx_codec version)) (vtx b)).

Definition block_codec (chunk version : Z) : codec CBlock := {|
  Serialize := SerializeBlock version;
  Unserialize s :=
    '(h, s) ← Unserialize header_codec s;
    '(vtx, s) ← Unserialize (vector_codec chunk (tx_codec version)) s;
    Ok ({| header := h; vtx := vtx; fChecked := false |}, s) |}.
End block.

(** ** Facts *)

Module block_facts.
Import serialize_facts transaction_facts.

Record header_wf (h : CBlockHeader) : Prop := {
  wf_nVersion : int_range 32 (hdr_nVersion h);
  wf_hashPrevBlock : uint256_wf (hdr_hashPrevBlock h);
  wf_hashMerkleRoot : uint256_wf (hdr_hashMerkleRoot h);
  wf_nTime : in_range 32 (hdr_nTime h);
  wf_nBits : in_range 32 (hdr_nBits h);
  wf_nNonce : uint256_wf (hdr_nNonce h);
  wf_nSolution : bytes_ok (hdr_nSolution h) /\ Z.of_nat (length (hdr_nSolution h)) <= MAX_SIZE;
}.

(** The encoding of a header determines it. *)
#[export] Instance header_laws : CodecLaws header_codec header_wf.
Proof.
  split; cbn [Serialize Unserialize header_codec].
  - intros x []. rewrite !Forall_app. split_and!; by apply serialize_ok.
  - intros [v p r t b n sol] s []; cbn [hdr_nVersion hdr_hashPrevBlock hdr_hashMerkleRoot hdr_nTime hdr_nBits
      hdr_nNonce hdr_nSolution] in *. do 7 put. done.
  - intros x s s' Hs H. do 7 get H Hs. injection H as <- <-. split; [by split|]. by rewrite <- !app_assoc.
Qed.

Section block.
Context `{Hs : HashFunctions} `{L : Layout}.

(** A transaction as [MakeTransaction] builds it and a block carries it. *)
Definition carried (tx : CTransaction) : Prop :=
  tx = MakeTransaction tx /\ tx_ok tx /\ (vin tx <> [] \/ vout tx = []).

Lemma tx_codec_app version tx s :
  allow_witness version = true -> carried tx ->
  Unserialize (tx_codec version) (Serialize (tx_codec version) tx ++ s) = Ok (tx, s).
Proof.
  intros Hv (Hmk & Hok & Hcase). cbn [Serialize Unserialize tx_codec].
  rewrite SerializeTransaction_format, Hv. cbn [andb].
  assert (UnserializeTransaction version ((if HasWitness tx then extended tx else basic tx) ++ s)
    = Ok (tx_data tx, s)) as ->.
  { destruct (HasWitness tx) eqn:Hw; [by apply unserialize_extended|]. apply unserialize_basic; auto. }
  cbn [mbind result_bind]. by rewrite <- Hmk.
Qed.

Lemma read_carried version l v s :
  allow_witness version = true -> Forall carried l ->
  read_elements (tx_codec version) (length l) v (concat (map (Serialize (tx_codec version)) l) ++ s) = Ok (v ++ l, s).
Proof.
  intros Hv Hl. revert v. induction Hl as [|tx l Htx Hl IH]; intros v; cbn [length read_elements map concat].
  { by rewrite app_nil_r. }
  rewrite <- app_assoc, tx_codec_app by done. cbn [mbind result_bind]. by rewrite IH, <- app_assoc.
Qed.

(** A block sent is the block received. *)
Lemma block_codec_app chunk version (b : CBlock) s :
  0 < chunk <= 5000000 -> allow_witness version = true ->
  header_wf b -> Forall carried (vtx b) -> Z.of_nat (length (vtx b)) <= MAX_SIZE ->
  Unserialize (block_codec chunk version) (Serialize (block_codec chunk version) b ++ s) =
  Ok ({| header := b; vtx := vtx b; fChecked := false |}, s).
Proof.
  intros Hc Hv Hh Hl Hmax. cbn [Serialize Unserialize block_codec vector_codec]. unfold SerializeBlock. put.
  rewrite read_write_CompactSize by lia. cbn [mbind result_bind].
  rewrite read_chunks_spec; [|done|lia|done|].
  - rewrite Z.sub_0_r, Nat2Z.id. by rewrite read_carried.
  - rewrite Z.sub_0_r. pose proof (Z.mod_pos_bound (Z.of_nat (length (vtx b))) chunk ltac:(lia)).
    pose proof (Z.div_mod (Z.of_nat (length (vtx b))) chunk ltac:(lia)). nia.
Qed.
End block.
End block_facts.
