(* ===== verification/Merkle.v ===== *)
(** * Merkle trees ([consensus/merkle.h], [consensus/merkle.cpp])

    The constant-space computation of Merkle roots and branches, and its
    verifier.  A level of the tree is a [nat]; the count of leaves is a 32-bit
    integer.  [None] stands for an access out of the bounds of [inner] or a
    shift by 32, which the code can reach beyond 2^31 leaves only. *)

From S2P Require Import Prelude Uint256 Hash Chain Script Interpreter Serialize Transaction Block.

Section merkle.
Context `{Hs : HashFunctions}.

(** [!(count & (((uint32_t)1) << level))]. *)
Definition bit_clear (count : Z) (level : nat) : bool :=
  Z.land count (u32 (Z.shiftl 1 (Z.of_nat level))) =? 0.

(** The block [if (pbranch) { ... }] of both inner loops: [matchh] and the
    branch after it. *)
Definition extend_branch (pbranch : bool) (matchlevel : Z) (level : nat) (inner_level h : uint256)
    (matchh : bool) (branch : list uint256) : bool * list uint256 :=
  if pbranch then
    if matchh then (true, branch ++ [inner_level])
    else if matchlevel =? Z.of_nat level then (true, branch ++ [h])
    else (false, branch)
  else (matchh, branch).

Record walk := {
  w_level : nat;
  w_h : uint256;
  w_matchh : bool;
  w_branch : list uint256;
  w_mutated : bool;
}.

(** [for (level = 0; !(count & (1 << level)); level++)]. *)
Fixpoint combine_loop (fuel : nat) (pbranch : bool) (count : Z) (inner : list uint256) (matchlevel : Z)
    (w : walk) : option walk :=
  match fuel with
  | O => None
  | S fuel =>
      if bit_clear count (w_level w) then
        inner_level ← inner !! w_level w;
        let '(matchh, branch) :=
          extend_branch pbranch matchlevel (w_level w) inner_level (w_h w) (w_matchh w) (w_branch w) in
        combine_loop fuel pbranch count inner matchlevel {|
          w_level := S (w_level w);
          w_h := Hash2 inner_level (w_h w);
          w_matchh := matchh;
          w_branch := branch;
          w_mutated := w_mutated w || bool_decide (inner_level = w_h w) |}
      else Some w
  end.

(** The state between two turns of [while (count < leaves.size())]. *)
Record merkle_state := {
  count : Z;
  inner : list uint256;
  matchlevel : Z;
  pbranch_v : list uint256;
  mutated : bool;
}.

Definition add_leaf (pbranch : bool) (branchpos : Z) (st : merkle_state) (leaf : uint256) : option merkle_state :=
  let matchh := count st =? branchpos in
  let count' := u32 (count st + 1) in
  w ← combine_loop 33 pbranch count' (inner st) (matchlevel st) {|
    w_level := 0; w_h := leaf; w_matchh := matchh; w_branch := pbranch_v st; w_mutated := mutated st |};
  Some {|
    count := count';
    inner := <[w_level w := w_h w]> (inner st);
    matchlevel := if w_matchh w then Z.of_nat (w_level w) else matchlevel st;
    pbranch_v := w_branch w;
    mutated := w_mutated w |}.

Fixpoint add_leaves (pbranch : bool) (branchpos : Z) (st : merkle_state) (leaves : list uint256)
    : option merkle_state :=
  match leaves with
  | [] => Some st
  | leaf :: leaves =>
      st ← add_leaf pbranch branchpos st leaf;
      add_leaves pbranch branchpos st leaves
  end.

(** [while (!(count & (1 << level))) level++;]. *)
Fixpoint lowest_level (fuel : nat) (count : Z) (level : nat) : option nat :=
  match fuel with
  | O => None
  | S fuel => if bit_clear count level then lowest_level fuel count (S level) else Some level
  end.

(** The inner loop of the sweep. *)
Fixpoint carry_loop (fuel : nat) (pbranch : bool) (count : Z) (inner : list uint256) (matchlevel : Z)
    (w : walk) : option walk :=
  match fuel with
  | O => None
  | S fuel =>
      if bit_clear count (w_level w) then
        inner_level ← inner !! w_level w;
        let '(matchh, branch) :=
          extend_branch pbranch matchlevel (w_level w) inner_level (w_h w) (w_matchh w) (w_branch w) in
        carry_loop fuel pbranch count inner matchlevel {|
          w_level := S (w_level w);
          w_h := Hash2 inner_level (w_h w);
          w_matchh := matchh;
          w_branch := branch;
          w_mutated := w_mutated w |}
      else Some w
  end.

(** [while (count != (1 << level))]. *)
Fixpoint sweep (fuel : nat) (pbranch : bool) (count : Z) (inner : list uint256) (matchlevel : Z)
    (w : walk) : option walk :=
  if count =? u32 (Z.shiftl 1 (Z.of_nat (w_level w))) then Some w
  else
    match fuel with
    | O => None
    | S fuel =>
        let branch := if pbranch && w_matchh w then w_branch w ++ [w_h w] else w_branch w in
        let count' := u32 (count + u32 (Z.shiftl 1 (Z.of_nat (w_level w)))) in
        w ← carry_loop 33 pbranch count' inner matchlevel {|
          w_level := S (w_level w);
          w_h := Hash2 (w_h w) (w_h w);
          w_matchh := w_matchh w;
          w_branch := branch;
          w_mutated := w_mutated w |};
        sweep fuel pbranch count' inner matchlevel w
    end.

(** The root, whether a repetition was seen, and the branch, which stays
    empty when [pbranch] is null. *)
Definition MerkleComputation (leaves : list uint256) (branchpos : Z) (pbranch : bool)
    : option (uint256 * bool * list uint256) :=
  if (length leaves =? 0)%nat then Some (uint256_null, false, [])
  else
    st ← add_leaves pbranch branchpos {|
      count := 0; inner := replicate 32 uint256_null; matchlevel := -1; pbranch_v := []; mutated := false |} leaves;
    level ← lowest_level 33 (count st) 0;
    h ← inner st !! level;
    w ← sweep 33 pbranch (count st) (inner st) (matchlevel st) {|
      w_level := level; w_h := h; w_matchh := matchlevel st =? Z.of_nat level;
      w_branch := pbranch_v st; w_mutated := mutated st |};
    Some (w_h w, w_mutated w, w_branch w).

(** The root with the flag [mutated]. *)
Definition ComputeMerkleRoot (leaves : list uint256) : option (uint256 * bool) :=
  '(hash, mutated, _) ← MerkleComputation leaves (u32 (-1)) false;
  Some (hash, mutated).

Definition ComputeMerkleBranch (leaves : list uint256) (position : Z) : option (list uint256) :=
  '(_, _, ret) ← MerkleComputation leaves position true;
  Some ret.

Fixpoint ComputeMerkleRootFromBranch (leaf : uint256) (vMerkleBranch : list uint256) (nIndex : Z) : uint256 :=
  match vMerkleBranch with
  | [] => leaf
  | it :: vMerkleBranch =>
      let hash := if negb (Z.land nIndex 1 =? 0) then Hash2 it leaf else Hash2 leaf it in
      ComputeMerkleRootFromBranch hash vMerkleBranch (Z.shiftr nIndex 1)
  end.

(** ** Blocks *)

Definition BlockMerkleRoot (block : CBlock) : option (uint256 * bool) :=
  ComputeMerkleRoot (GetHash <$> vtx block).

(** [leaves[0].SetNull()] is out of bounds in a block without transactions. *)
Definition BlockWitnessMerkleRoot `{L : Layout} (block : CBlock) : option (uint256 * bool) :=
  match vtx block with
  | [] => None
  | _ :: vtx => ComputeMerkleRoot (uint256_null :: (GetWitnessHash <$> vtx))
  end.

Definition BlockMerkleBranch (block : CBlock) (position : Z) : option (list uint256) :=
  ComputeMerkleBranch (GetHash <$> vtx block) position.
End merkle.

(** ** Facts *)

Module merkle_facts.

Lemma bit_clear_spec c (l : nat) : (l < 32)%nat -> bit_clear c l = negb (Z.odd (c / 2 ^ Z.of_nat l)).
Proof.
  intros Hl. unfold bit_clear. rewrite Z.shiftl_1_l.
  rewrite wrap_small by (split; [lia|apply Z.pow_lt_mono_r; lia]).
  rewrite <- Z.shiftr_div_pow2, <- Z.bit0_odd, Z.shiftr_spec, Z.add_0_l by lia.
  destruct (Z.testbit c (Z.of_nat l)) eqn:Hb; cbn [negb].
  - apply Z.eqb_neq. intros H. apply (f_equal (fun z => Z.testbit z (Z.of_nat l))) in H.
    rewrite Z.land_spec, Z.pow2_bits_true, Z.bits_0, Hb in H by lia. done.
  - apply Z.eqb_eq, Z.bits_inj'. intros i Hi. rewrite Z.land_spec, Z.bits_0.
    destruct (decide (i = Z.of_nat l)) as [->|]; [by rewrite Hb|].
    rewrite Z.pow2_bits_false by lia. apply andb_false_r.
Qed.

Lemma div_pow2_S x (k : nat) : x / 2 ^ Z.of_nat (S k) = x / 2 ^ Z.of_nat k / 2.
Proof. rewrite Nat2Z.inj_succ, Z.pow_succ_r, (Z.mul_comm 2), Z.div_div by lia. done. Qed.

Lemma div_pow2_mono x y (l k : nat) :
  (l <= k)%nat -> x / 2 ^ Z.of_nat l = y / 2 ^ Z.of_nat l -> x / 2 ^ Z.of_nat k = y / 2 ^ Z.of_nat k.
Proof. induction 1 as [|k _ IH]; [done|]. intros H. rewrite !div_pow2_S. by rewrite IH. Qed.

Lemma div_pow2_mul a (l : nat) : 2 ^ Z.of_nat l * a / 2 ^ Z.of_nat l = a.
Proof. rewrite Z.mul_comm. apply Z.div_mul. lia. Qed.

Lemma parity a : a = 2 * (a / 2) + Z.b2z (Z.odd a).
Proof. rewrite <- Z.div2_div. apply Z.div2_odd. Qed.
Lemma odd_half a : Z.odd a = true -> a = 2 * (a / 2) + 1.
Proof. intros H. pose proof (parity a) as P. by rewrite H in P. Qed.
Lemma even_half a : Z.odd a = false -> a = 2 * (a / 2).
Proof. intros H. pose proof (parity a) as P. rewrite H in P. cbn in P. lia. Qed.

Lemma half_add b q : 0 <= q <= 1 -> (2 * b + q) / 2 = b.
Proof. intros. symmetry. apply (Z.div_unique _ _ _ q); lia. Qed.
Lemma half_odd b : (2 * b + 1) / 2 = b.
Proof. by apply half_add. Qed.

Lemma even_pred a : Z.odd (a + 1) = true -> Z.odd a = false.
Proof. rewrite Z.add_1_r, Z.odd_succ, <- Z.negb_odd. by destruct (Z.odd a). Qed.
Lemma odd_pred a : Z.odd (a + 1) = false -> Z.odd a = true.
Proof. rewrite Z.add_1_r, Z.odd_succ, <- Z.negb_odd. by destruct (Z.odd a). Qed.
Lemma half_succ a : Z.odd (a + 1) = true -> (a + 1) / 2 = a / 2.
Proof. intros H%even_pred%even_half. rewrite H at 1. apply half_odd. Qed.

Section tree.
Context `{Hs : HashFunctions} (leaves : list uint256).
Abbreviation n := (Z.of_nat (length leaves)).

(** The number of nodes of a level, and its nodes: the reference the
    computation is compared with. *)
Definition width (k : nat) : Z := (n + 2 ^ Z.of_nat k - 1) / 2 ^ Z.of_nat k.

Fixpoint node (k : nat) (i : Z) : uint256 :=
  match k with
  | O => nth (Z.to_nat i) leaves uint256_null
  | S k => Hash2 (node k (2 * i)) (if 2 * i + 1 <? width k then node k (2 * i + 1) else node k (2 * i))
  end.

Lemma width_0 : width 0 = n.
Proof. unfold width. rewrite Z.pow_0_r, Z.div_1_r. lia. Qed.

Lemma width_S k : width (S k) = (width k + 1) / 2.
Proof.
  unfold width. rewrite Nat2Z.inj_succ, Z.pow_succ_r by lia. set (P := 2 ^ Z.of_nat k).
  assert (0 < P) by (unfold P; lia). rewrite (Z.mul_comm 2), <- Z.div_div by lia.
  replace (n + P * 2 - 1) with (n + P - 1 + 1 * P) by ring. by rewrite Z.div_add by lia.
Qed.

Lemma width_le (k : nat) v : 0 < v -> n <= 2 ^ Z.of_nat k * v -> width k <= v.
Proof.
  intros Hv Hn. unfold width. apply Z.lt_succ_r, Z.div_lt_upper_bound; [lia|].
  rewrite Z.mul_succ_r. lia.
Qed.

Lemma width_gt (k : nat) v : 2 ^ Z.of_nat k * v < n -> v < width k.
Proof.
  intros Hn. unfold width. apply Z.le_succ_l. apply Z.div_le_lower_bound; [lia|]. rewrite Z.mul_succ_r. lia.
Qed.

Lemma width_cover (k : nat) : n <= 2 ^ Z.of_nat k * width k.
Proof.
  unfold width. set (P := 2 ^ Z.of_nat k). assert (0 < P) by (unfold P; lia).
  pose proof (Z.div_mod (n + P - 1) P ltac:(lia)). pose proof (Z.mod_pos_bound (n + P - 1) P ltac:(lia)). lia.
Qed.

Lemma width_exact (k : nat) v : n = 2 ^ Z.of_nat k * v -> width k = v.
Proof.
  intros Hn. unfold width. rewrite Hn.
  replace (2 ^ Z.of_nat k * v + 2 ^ Z.of_nat k - 1) with (2 ^ Z.of_nat k - 1 + v * 2 ^ Z.of_nat k) by ring.
  rewrite Z.div_add by lia. rewrite Z.div_small by lia. lia.
Qed.

(** The two children of a node, and the node above an only child. *)
Lemma node_pair k b : 2 * b + 1 < width k -> Hash2 (node k (2 * b)) (node k (2 * b + 1)) = node (S k) b.
Proof. intros H. cbn [node]. by rewrite (proj2 (Z.ltb_lt _ _) H). Qed.

Lemma node_single k b : width k <= 2 * b + 1 -> Hash2 (node k (2 * b)) (node k (2 * b)) = node (S k) b.
Proof. intros H. cbn [node]. by rewrite (proj2 (Z.ltb_ge _ _) H). Qed.

(** The sibling of the ancestor of leaf [p], itself where there is none, and
    the branch of [p] up to a level. *)
Definition sib (p : Z) (k : nat) : uint256 :=
  let q := p / 2 ^ Z.of_nat k in
  if Z.odd q then node k (q - 1) else if q + 1 <? width k then node k (q + 1) else node k q.
Definition path (p : Z) (l : nat) : list uint256 := sib p <$> seq 0 l.

Lemma path_S p l : path p (S l) = path p l ++ [sib p l].
Proof. unfold path. by rewrite seq_S, fmap_app. Qed.

(** Hashing leaf [p] with its branch gives the ancestor of [p]. *)
Lemma from_branch p (l d : nat) :
  0 <= p -> p < n ->
  ComputeMerkleRootFromBranch (node l (p / 2 ^ Z.of_nat l)) (sib p <$> seq l d) (p / 2 ^ Z.of_nat l)
  = node (l + d) (p / 2 ^ Z.of_nat (l + d)).
Proof.
  intros Hp Hn. revert l. induction d as [|d IH]; intros l; [by rewrite Nat.add_0_r|].
  rewrite <- Nat.add_succ_comm. rewrite <- IH. cbn [seq fmap list_fmap ComputeMerkleRootFromBranch].
  rewrite Z.shiftr_div_pow2 by lia. change (2 ^ 1) with 2. rewrite <- div_pow2_S. f_equal.
  rewrite div_pow2_S. unfold sib. set (q := p / 2 ^ Z.of_nat l).
  assert (q < width l) as Hq.
  { apply width_gt. unfold q. pose proof (Z.mul_div_le p (2 ^ Z.of_nat l) ltac:(lia)). lia. }
  change 1 with (Z.ones 1) at 1. rewrite Z.land_ones by lia. change (2 ^ 1) with 2. rewrite Zmod_odd.
  destruct (Z.odd q) eqn:Ho; cbn [Z.eqb negb].
  - apply odd_half in Ho. rewrite <- (node_pair l (q / 2)) by lia. f_equal; f_equal; lia.
  - apply even_half in Ho. rewrite Ho at 1. destruct (Z.ltb_spec (q + 1) (width l)).
    + rewrite <- (node_pair l (q / 2)) by lia. f_equal; f_equal; lia.
    + rewrite <- (node_single l (q / 2)) by lia. by rewrite <- Ho.
Qed.

(** *** The inner loops *)

(** The entries of [inner] from level [l] on: for every bit of [c] that is
    set, the last node that its level has completed. *)
Definition inner_ok (c : Z) (inner : list uint256) (l : nat) : Prop :=
  length inner = 32%nat /\
  forall k : nat, (l <= k < 32)%nat -> Z.odd (c / 2 ^ Z.of_nat k) = true ->
    inner !! k = Some (node k (c / 2 ^ Z.of_nat k - 1)).

(** Where leaf [p] is, when the nodes up to [c] are in [inner] and [w] is the
    node that ends at [c']: above [w], in [inner], or to come. *)
Definition followed (p c c' : Z) (matchlevel : Z) (l lo : nat) (matchh : bool) (branch : list uint256) : Prop :=
  (matchh = true /\ p / 2 ^ Z.of_nat l = c' / 2 ^ Z.of_nat l - 1 /\ branch = path p l) \/
  (matchh = false /\ exists m : nat, matchlevel = Z.of_nat m /\ (lo <= m < 32)%nat /\
     Z.odd (c / 2 ^ Z.of_nat m) = true /\ p / 2 ^ Z.of_nat m = c / 2 ^ Z.of_nat m - 1 /\ branch = path p m) \/
  (matchh = false /\ matchlevel = -1 /\ branch = [] /\ Z.min c' n <= p).

(** Two nodes that are siblings, both there, end at leaf [c] and are equal. *)
Definition repeats_at (c : Z) (k : nat) : Prop :=
  exists i, 0 <= i /\ (2 * i + 2) * 2 ^ Z.of_nat k = c /\ node k (2 * i) = node k (2 * i + 1).

Lemma repeats_at_pair k b :
  0 <= b -> repeats_at (2 ^ Z.of_nat k * (2 * b + 2)) k <-> node k (2 * b) = node k (2 * b + 1).
Proof.
  intros Hb. split; [|intros H; exists b; split; [done|]; split; [ring|done]].
  intros (i & Hi & He & H). assert (i = b) as -> by nia. done.
Qed.

(** One turn: [inner] holds the left sibling of the node at hand, on the way
    to leaf [p] the branch grows by the sibling. *)
Lemma turn_branch p (l : nat) b matchlevel inner_level matchh branch :
  0 <= b -> 2 * b + 1 < width l -> inner_level = node l (2 * b) ->
  let c := 2 ^ Z.of_nat l * (2 * b + 1) in let c' := 2 ^ Z.of_nat l * (2 * b + 2) in
  followed p c c' matchlevel l l matchh branch ->
  let e := extend_branch true matchlevel l inner_level (node l (2 * b + 1)) matchh branch in
  followed p (2 ^ Z.of_nat (S l) * b) c' matchlevel (S l) (S l) e.1 e.2.
Proof.
  intros Hb Hw -> c c' Hf. cbn zeta.
  assert (c / 2 ^ Z.of_nat l = 2 * b + 1) as Hc by apply div_pow2_mul.
  assert (c' / 2 ^ Z.of_nat l = 2 * b + 2) as Hc' by apply div_pow2_mul.
  assert (c' / 2 ^ Z.of_nat (S l) = b + 1) as Hc1.
  { rewrite div_pow2_S, Hc'. rewrite <- (half_add (b + 1) 0) by lia. f_equal. ring. }
  assert (forall q, p / 2 ^ Z.of_nat l = 2 * b + q -> 0 <= q <= 1 -> p / 2 ^ Z.of_nat (S l) = b) as Hp1.
  { intros q Hq ?. rewrite div_pow2_S, Hq. by apply half_add. }
  unfold extend_branch. destruct Hf as [(-> & Hp & ->)|[(-> & m & -> & Hm & Ho & Hp & ->)|(-> & -> & -> & Hp)]].
  - left. rewrite Hc1. cbn [fst snd]. rewrite path_S. split_and!; [done|rewrite (Hp1 1); lia|].
    do 2 f_equal. unfold sib. rewrite Hp, Hc'. replace (2 * b + 2 - 1) with (1 + 2 * b) by lia.
    rewrite Z.odd_add_mul_2. cbn [Z.odd]. f_equal. lia.
  - destruct (Z.eqb_spec (Z.of_nat m) (Z.of_nat l)) as [He|He]; cbn [fst snd].
    + apply Nat2Z.inj in He as ->. left. rewrite Hc1. split_and!; [done|rewrite (Hp1 0); lia|].
      rewrite path_S. do 2 f_equal. unfold sib. rewrite Hp, Hc. replace (2 * b + 1 - 1) with (0 + 2 * b) by lia.
      rewrite Z.odd_add_mul_2. cbn [Z.odd]. rewrite (proj2 (Z.ltb_lt _ _)) by lia. done.
    + right. left. split; [done|]. exists m.
      assert (2 ^ Z.of_nat (S l) * b / 2 ^ Z.of_nat m = c / 2 ^ Z.of_nat m) as ->.
      { apply (div_pow2_mono _ _ (S l)); [lia|]. by rewrite div_pow2_mul, div_pow2_S, Hc, half_odd. }
      split_and!; try done; lia.
  - destruct (Z.eqb_spec (-1) (Z.of_nat l)); [lia|]. right. right. done.
Qed.

(** The result of an inner loop that starts with the node [a] of level [l]:
    a carry through the set bits of [c] up to the lowest set bit of [c']. *)
Record combined (pb : bool) (p c c' : Z) (matchlevel : Z) (w w' : walk) : Prop := {
  cb_level : (w_level w <= w_level w' < 32)%nat;
  cb_odd : Z.odd (c' / 2 ^ Z.of_nat (w_level w')) = true;
  cb_even : forall k : nat, (w_level w <= k < w_level w')%nat -> Z.odd (c' / 2 ^ Z.of_nat k) = false;
  cb_mul : c' = 2 ^ Z.of_nat (w_level w') * (c' / 2 ^ Z.of_nat (w_level w'));
  cb_above : forall k : nat, (w_level w' < k)%nat -> c' / 2 ^ Z.of_nat k = c / 2 ^ Z.of_nat k;
  cb_h : w_h w' = node (w_level w') (c' / 2 ^ Z.of_nat (w_level w') - 1);
  cb_followed : pb = true -> followed p c' c' matchlevel (w_level w') (S (w_level w')) (w_matchh w') (w_branch w');
  cb_mutated : w_mutated w' = true <->
    w_mutated w = true \/ exists k : nat, (w_level w <= k)%nat /\ repeats_at c' k;
  cb_width : c' / 2 ^ Z.of_nat (w_level w) = width (w_level w) ->
    c' / 2 ^ Z.of_nat (w_level w') = width (w_level w') /\
    (w_level w' = w_level w \/ 1 < width (pred (w_level w')));
}.

Lemma level_bound (l : nat) a : 0 <= a -> 2 ^ Z.of_nat l * (a + 1) <= 2 ^ 31 -> (l <= 31)%nat.
Proof.
  intros Ha H. destruct (le_lt_dec l 31) as [|Hl]; [done|].
  assert (2 ^ 32 <= 2 ^ Z.of_nat l) by (apply Z.pow_le_mono_r; lia). change (2 ^ 32) with (2 * 2 ^ 31) in *. nia.
Qed.

Lemma repeats_odd c (k l : nat) :
  Z.odd (c / 2 ^ Z.of_nat l) = true -> (l <= k)%nat -> ~ repeats_at c k.
Proof.
  intros Ho Hk (i & Hi & Hc & _). replace (Z.of_nat k) with (Z.of_nat l + Z.of_nat (k - l)) in Hc by lia.
  rewrite Z.pow_add_r in Hc by lia.
  assert (c / 2 ^ Z.of_nat l = 0 + 2 * ((i + 1) * 2 ^ Z.of_nat (k - l))) as H.
  { symmetry. apply Z.div_unique_exact; [lia|]. rewrite <- Hc. ring. }
  rewrite H, Z.odd_add_mul_2 in Ho. done.
Qed.

Lemma combine_loop_ok pb p matchlevel inner fuel l a h matchh branch mut :
  let c := 2 ^ Z.of_nat l * a in let c' := 2 ^ Z.of_nat l * (a + 1) in
  let w := {| w_level := l; w_h := h; w_matchh := matchh; w_branch := branch; w_mutated := mut |} in
  0 <= a -> a < width l -> c' <= 2 ^ 31 -> (32 < l + fuel)%nat -> h = node l a -> inner_ok c inner l ->
  (pb = true -> followed p c c' matchlevel l l matchh branch) ->
  exists w', combine_loop fuel pb c' inner matchlevel w = Some w' /\ combined pb p c c' matchlevel w w'.
Proof.
  revert l a h matchh branch mut. induction fuel as [|fuel IH]; intros l a h matchh branch mut c c' w Ha Hw Hmax Hf Hh Hi Hp.
  { apply level_bound in Hmax; lia. }
  assert (l <= 31)%nat as Hl by (apply level_bound in Hmax; lia).
  assert (c' / 2 ^ Z.of_nat l = a + 1) as Hc' by apply div_pow2_mul.
  assert (c / 2 ^ Z.of_nat l = a) as Hc by apply div_pow2_mul.
  unfold w. cbn [combine_loop w_level w_h w_matchh w_branch w_mutated]. rewrite bit_clear_spec, Hc' by lia.
  destruct (Z.odd (a + 1)) eqn:Ho; cbn [negb].
  - eexists. split; [reflexivity|]. split; cbn [w_level w_h w_matchh w_branch w_mutated].
    + lia.
    + by rewrite Hc'.
    + lia.
    + by rewrite Hc'.
    + intros k Hk. apply (div_pow2_mono _ _ (S l)); [lia|]. rewrite !div_pow2_S, Hc, Hc'.
      by apply half_succ.
    + rewrite Hh, Hc'. f_equal. lia.
    + intros Hpb. destruct (Hp Hpb) as [(-> & H1 & ->)|[(-> & m & -> & Hm & Hom & H1 & ->)|(-> & -> & -> & H1)]].
      * by left.
      * assert (m <> l) as Hml by (intros ->; rewrite Hc, even_pred in Hom; done).
        right. left. split; [done|]. exists m.
        assert (c' / 2 ^ Z.of_nat m = c / 2 ^ Z.of_nat m) as ->.
        { apply (div_pow2_mono _ _ (S l)); [lia|]. rewrite !div_pow2_S, Hc, Hc'. by apply half_succ. }
        split_and!; try done; lia.
      * right. by right.
    + split; [auto|]. intros [?|(k & Hk & Hr)]; [done|]. destruct (repeats_odd c' k l); [by rewrite Hc'|done|done].
    + intros Hwd. auto.
  - pose proof (odd_half a (odd_pred a Ho)) as Hb. set (b := a / 2) in *.
    assert (0 <= b) by (unfold b; apply Z.div_pos; lia).
    destruct Hi as [Hil Hi]. pose proof (Hi l ltac:(lia)) as Hin. rewrite Hc in Hin.
    rewrite Hin by by apply odd_pred. cbn [mbind option_bind].
    assert (node l (a - 1) = node l (2 * b)) as -> by (f_equal; lia).
    assert (c = 2 ^ Z.of_nat l * (2 * b + 1)) as Hcb by (unfold c; rewrite Hb; ring).
    assert (c' = 2 ^ Z.of_nat l * (2 * b + 2)) as Hcb' by (unfold c'; rewrite Hb; ring).
    assert (h = node l (2 * b + 1)) as Hhb by (rewrite Hh; f_equal; lia).
    set (e := extend_branch pb matchlevel l (node l (2 * b)) h matchh branch).
    assert (pb = true -> followed p (2 ^ Z.of_nat (S l) * b) c' matchlevel (S l) (S l) e.1 e.2) as Hp'.
    { intros ->. rewrite Hcb'. unfold e. rewrite Hhb. apply turn_branch; [done|lia|done|].
      rewrite <- Hcb, <- Hcb'. by apply Hp. }
    destruct e as [matchh' branch'] eqn:He.
    assert (c' = 2 ^ Z.of_nat (S l) * (b + 1)) as Hcs.
    { rewrite Hcb', Nat2Z.inj_succ, Z.pow_succ_r by lia. ring. }
    assert (forall k : nat, (S l <= k)%nat -> 2 ^ Z.of_nat (S l) * b / 2 ^ Z.of_nat k = c / 2 ^ Z.of_nat k) as Hck.
    { intros k Hk. apply (div_pow2_mono _ _ (S l)); [done|]. by rewrite div_pow2_mul, div_pow2_S, Hc, Hb, half_odd. }
    destruct (IH (S l) b (Hash2 (node l (2 * b)) h) matchh' branch' (mut || bool_decide (node l (2 * b) = h)))
      as (w' & Hr & [G1 G2 G3 G4 G5 G6 G7 G8 G9]); try done.
    + rewrite width_S. apply Z.le_succ_l, Z.div_le_lower_bound; lia.
    + by rewrite <- Hcs.
    + lia.
    + rewrite Hhb. apply node_pair. lia.
    + split; [done|]. intros k Hk. rewrite Hck by lia. apply Hi. lia.
    + by rewrite <- Hcs.
    + rewrite <- Hcs in *. exists w'. split; [done|]. cbn [w_level w_h w_matchh w_branch w_mutated] in *.
      split; cbn [w_level w_h w_matchh w_branch w_mutated]; try done.
      * lia.
      * intros k Hk. destruct (decide (k = l)) as [->|]; [by rewrite Hc'|]. apply G3. lia.
      * intros k Hk. rewrite G5 by done. apply Hck. lia.
      * rewrite G8, orb_true_iff, bool_decide_eq_true, Hhb, <- (repeats_at_pair l b), <- Hcb' by done.
        split; [intros [[?|?]|(k & ? & ?)]|intros [?|(k & Hk & Hrep)]].
        -- auto.
        -- right. exists l. auto.
        -- right. exists k. split; [lia|done].
        -- auto.
        -- destruct (decide (k = l)) as [->|]; [auto|]. right. exists k. split; [lia|done].
      * intros Hwd. rewrite Hc' in Hwd. destruct G9 as [G9 G10].
        { rewrite div_pow2_S, Hc', width_S, <- Hwd, Hb. replace (2 * b + 1 + 1) with (2 * (b + 1) + 0) by ring.
          rewrite half_add by lia. replace (2 * (b + 1) + 0 + 1) with (2 * (b + 1) + 1) by ring. by rewrite half_add by lia. }
        split; [done|]. right. destruct G10 as [-> | ?]; [|done]. cbn [pred]. lia.
Qed.

(** The sweep's inner loop does the same, but for the flag. *)
Lemma carry_combine fuel pb c' inner matchlevel l h matchh branch mut mut' w' :
  combine_loop fuel pb c' inner matchlevel {| w_level := l; w_h := h; w_matchh := matchh; w_branch := branch; w_mutated := mut' |}
    = Some w' ->
  carry_loop fuel pb c' inner matchlevel {| w_level := l; w_h := h; w_matchh := matchh; w_branch := branch; w_mutated := mut |}
    = Some {| w_level := w_level w'; w_h := w_h w'; w_matchh := w_matchh w'; w_branch := w_branch w'; w_mutated := mut |}.
Proof.
  revert l h matchh branch mut'. induction fuel as [|fuel IH]; intros l h matchh branch mut' H; [done|].
  cbn [carry_loop combine_loop w_level w_h w_matchh w_branch w_mutated] in *.
  destruct (bit_clear c' l); [|injection H as <-; done].
  destruct (inner !! l) as [il|]; cbn [mbind option_bind] in *; [|done].
  destruct (extend_branch _ _ _ _ _ _ _) as [m b]. by eapply IH.
Qed.

(** *** The leaves *)

Definition repeats (c : Z) : Prop := exists c0 k, c0 <= c /\ repeats_at c0 k.

(** The state after [c] leaves. *)
Record state_ok (pb : bool) (p c : Z) (st : merkle_state) : Prop := {
  ok_count : count st = c;
  ok_inner : inner_ok c (inner st) 0;
  ok_matchlevel : pb = true ->
    followed p c c (matchlevel st) 0 0 false (pbranch_v st);
  ok_mutated : mutated st = true <-> repeats c;
}.

Lemma followed_div p c c2 c' matchlevel l lo matchh branch :
  (forall m : nat, (lo <= m)%nat -> c / 2 ^ Z.of_nat m = c2 / 2 ^ Z.of_nat m) ->
  followed p c c' matchlevel l lo matchh branch -> followed p c2 c' matchlevel l lo matchh branch.
Proof.
  intros Hd [H|[(H0 & m & H1 & H2 & H3 & H4 & H5)|H]]; [by left| |by right; right].
  right. left. split; [done|]. exists m. rewrite <- (Hd m) by lia. auto.
Qed.

Lemma add_leaf_ok pb p c st leaf :
  0 <= c < n -> n <= 2 ^ 31 -> leaf = node 0 c -> state_ok pb p c st ->
  exists st', add_leaf pb p st leaf = Some st' /\ state_ok pb p (c + 1) st'.
Proof.
  intros Hc Hmax Hleaf [H1 H2 H3 H4]. unfold add_leaf. rewrite H1.
  rewrite wrap_small by (unfold in_range; pow_literals; lia).
  pose proof (combine_loop_ok pb p (matchlevel st) (inner st) 33 0 c leaf (c =? p) (pbranch_v st) (mutated st)) as Hcl.
  cbn zeta in Hcl. change (2 ^ Z.of_nat 0) with 1 in Hcl. rewrite !Z.mul_1_l, width_0 in Hcl.
  destruct Hcl as (w & Hr & [G1 G2 G3 G4 G5 G6 G7 G8 G9]); try done; try lia.
  { intros Hpb. destruct (H3 Hpb) as [(? & _)|[(_ & m & Hm1 & Hm2 & Hm3 & Hm4 & Hm5)|(_ & Hm1 & Hm2 & Hm3)]]; [done| |].
    - destruct (Z.eqb_spec c p) as [->|Hne]; [lia|]. right. left. split; [done|]. by exists m.
    - destruct (Z.eqb_spec c p) as [->|Hne].
      + left. change (2 ^ Z.of_nat 0) with 1. rewrite !Z.div_1_r. split_and!; [done|lia|done].
      + right. right. split_and!; try done. lia. }
  rewrite Hr. cbn [mbind option_bind]. eexists. split; [reflexivity|]. cbn [w_level w_mutated] in *.
  split; cbn [count inner matchlevel pbranch_v mutated].
  - done.
  - destruct H2 as [Hlen Hin]. split; [by rewrite length_insert|]. intros k Hk Ho.
    destruct (decide (k = w_level w)) as [->|Hne].
    + rewrite list_lookup_insert_eq by lia. by rewrite G6.
    + rewrite list_lookup_insert_ne by done. destruct (decide (k < w_level w)%nat).
      * rewrite G3 in Ho by lia. done.
      * rewrite G5 in * by lia. by apply Hin.
  - intros Hpb. destruct (G7 Hpb) as [(-> & Hm1 & ->)|[(-> & m & Hm1 & Hm2 & Hm3 & Hm4 & Hm5)|(-> & Hm1 & Hm2 & Hm3)]].
    + right. left. split; [done|]. exists (w_level w). split_and!; try done; lia.
    + right. left. split; [done|]. exists m. split_and!; try done; lia.
    + right. right. done.
  - rewrite G8, H4. unfold repeats. split.
    + intros [(c0 & k & Hk & Hrep)|(k & Hk & Hrep)]; eexists _, k; (split; [|done]); lia.
    + intros (c0 & k & Hk & Hrep). destruct (decide (c0 = c + 1)) as [->|]; [right|left].
      * exists k. split; [lia|done].
      * exists c0, k. split; [lia|done].
Qed.

Lemma add_leaves_ok pb p c st l :
  leaves = take (Z.to_nat c) leaves ++ l -> 0 <= c <= n -> n <= 2 ^ 31 -> state_ok pb p c st ->
  exists st', add_leaves pb p st l = Some st' /\ state_ok pb p n st'.
Proof.
  revert c st. induction l as [|x l IH]; intros c st Hl Hc Hmax Hst; cbn [add_leaves].
  - exists st. split; [done|]. apply (f_equal length) in Hl. rewrite app_nil_r, length_take in Hl.
    assert (n = c) as Hn by lia. by rewrite Hn in *.
  - pose proof (f_equal length Hl) as Hlen. rewrite length_app, length_take in Hlen. cbn in Hlen.
    destruct (add_leaf_ok pb p c st x) as (st' & -> & Hst'); [lia|done| |done|].
    { cbn [node]. rewrite Hl, app_nth2; rewrite length_take; [|lia].
      replace (Z.to_nat c - _)%nat with 0%nat by lia. done. }
    cbn [mbind option_bind]. apply (IH (c + 1)); [|lia|done|done].
    rewrite Hl at 1. replace (Z.to_nat (c + 1)) with (Z.to_nat c + 1)%nat by lia.
    rewrite Hl at 2. rewrite take_app, length_take.
    rewrite (take_ge (take _ _)) by (rewrite length_take; lia).
    replace (Z.to_nat c + 1 - _)%nat with 1%nat by lia. cbn [take]. by rewrite <- app_assoc.
Qed.

(** *** The sweep *)

(** The height of the tree: the first level with a single node. *)
Definition height (k : nat) : Prop := width k = 1 /\ (k = 0%nat \/ 1 < width (pred k)).

Lemma u32_pow2 (l : nat) : (l < 32)%nat -> u32 (Z.shiftl 1 (Z.of_nat l)) = 2 ^ Z.of_nat l.
Proof.
  intros Hl. rewrite Z.shiftl_1_l. apply wrap_small. split; [lia|]. apply Z.pow_lt_mono_r; lia.
Qed.

(** Rounding an odd multiple of 2^l up keeps it within 2^31. *)
Lemma round_up (l : nat) b :
  0 < b -> 2 ^ Z.of_nat l * (2 * b + 1) <= 2 ^ 31 -> 2 ^ Z.of_nat l * (2 * (b + 1)) <= 2 ^ 31.
Proof.
  intros Hb H. assert (l <= 31)%nat as Hl by (apply (level_bound l (2 * b)); lia).
  assert (2 ^ 31 = 2 ^ Z.of_nat l * 2 ^ Z.of_nat (31 - l)) as He.
  { rewrite <- Z.pow_add_r by lia. f_equal. lia. }
  rewrite He in *. assert (2 * b + 1 <= 2 ^ Z.of_nat (31 - l)) as H1 by nia.
  apply Z.mul_le_mono_nonneg_l; [lia|]. destruct (31 - l)%nat as [|d]; [cbn in H1; lia|].
  rewrite Nat2Z.inj_succ, Z.pow_succ_r in * by lia. lia.
Qed.

Lemma sweep_ok pb p matchlevel inner fuel c l h matchh branch mut :
  (32 < l + fuel)%nat -> c = 2 ^ Z.of_nat l * width l -> Z.odd (width l) = true -> c <= 2 ^ 31 ->
  h = node l (width l - 1) -> inner_ok c inner (S l) -> l = 0%nat \/ 1 < width (pred l) -> 0 < width l ->
  (pb = true -> followed p c c matchlevel l (S l) matchh branch) ->
  exists w', sweep fuel pb c inner matchlevel
      {| w_level := l; w_h := h; w_matchh := matchh; w_branch := branch; w_mutated := mut |} = Some w' /\
    height (w_level w') /\ w_h w' = node (w_level w') 0 /\ w_mutated w' = mut /\
    (pb = true -> 0 <= p < n -> w_branch w' = path p (w_level w')).
Proof.
  revert c l h matchh branch. induction fuel as [|fuel IH]; intros c l h matchh branch Hf Hc Ho Hmax Hh Hi Hmin Hv Hp;
    assert (l <= 31)%nat as Hl by (apply (level_bound l (width l - 1)); lia); [lia|].
  cbn [sweep w_level w_h w_matchh w_branch w_mutated]. rewrite u32_pow2 by lia.
  destruct (Z.eqb_spec c (2 ^ Z.of_nat l)) as [He|Hne].
  - assert (width l = 1) as Hw1 by nia. eexists. split; [reflexivity|].
    cbn [w_level w_h w_matchh w_branch w_mutated]. split; [by split|]. split; [rewrite Hh; f_equal; lia|].
    split; [done|]. intros Hpb Hpn. destruct (Hp Hpb) as [(_ & _ & ->)|[(_ & m & _ & Hm & Hom & _)|(_ & _ & _ & H)]].
    + done.
    + exfalso. rewrite He in Hom. replace (Z.of_nat m) with (Z.of_nat l + Z.of_nat (m - l)) in Hom by lia.
      rewrite Z.div_small in Hom; [done|]. split; [lia|]. apply Z.pow_lt_mono_r; lia.
    + pose proof (width_cover l). lia.
  - pose proof (odd_half _ Ho) as Hb. set (b := width l / 2) in *. assert (0 < b) by nia.
    assert (width (S l) = b + 1) as HwS.
    { rewrite width_S, Hb. replace (2 * b + 1 + 1) with (2 * (b + 1) + 0) by ring. by apply half_add. }
    assert (c + 2 ^ Z.of_nat l = 2 ^ Z.of_nat (S l) * (b + 1)) as Hc'.
    { rewrite Nat2Z.inj_succ, Z.pow_succ_r, Hc, Hb by lia. ring. }
    assert (2 ^ Z.of_nat (S l) * (b + 1) <= 2 ^ 31) as Hmax'.
    { rewrite Nat2Z.inj_succ, Z.pow_succ_r by lia. pose proof (round_up l b). lia. }
    rewrite Hc', wrap_small by (unfold in_range; pow_literals; lia).
    assert (c / 2 ^ Z.of_nat l = 2 * b + 1) as Hcl by (rewrite Hc, Hb; apply div_pow2_mul).
    assert (forall k : nat, (S l <= k)%nat -> c / 2 ^ Z.of_nat k = 2 ^ Z.of_nat (S l) * b / 2 ^ Z.of_nat k) as Hck.
    { intros k Hk. apply (div_pow2_mono _ _ (S l)); [done|]. by rewrite div_pow2_mul, div_pow2_S, Hcl, half_odd. }
    assert (h = node l (2 * b)) as -> by (rewrite Hh; f_equal; lia).
    set (branch' := if pb && matchh then branch ++ [node l (2 * b)] else branch).
    assert (pb = true -> followed p (2 ^ Z.of_nat (S l) * b) (2 ^ Z.of_nat (S l) * (b + 1)) matchlevel (S l) (S l) matchh branch')
      as Hp'.
    { intros Hpb. specialize (Hp Hpb). eapply followed_div; [exact Hck|]. unfold branch'. rewrite Hpb. cbn [andb].
      destruct Hp as [(-> & H1 & ->)|[(-> & m & H1)|(-> & H1 & H2 & H3)]].
      - left. split; [done|]. rewrite div_pow2_mul, div_pow2_S, path_S.
        assert (p / 2 ^ Z.of_nat l = 2 * b) as Hpl by lia.
        split; [rewrite Hpl, <- (Z.add_0_r (2 * b)), half_add; lia|]. do 2 f_equal.
        unfold sib. rewrite Hpl. rewrite <- (Z.add_0_l (2 * b)) at 2. rewrite Z.odd_add_mul_2. cbn [Z.odd].
        by rewrite (proj2 (Z.ltb_ge _ _)) by lia.
      - right. left. split; [done|]. by exists m.
      - right. right. split_and!; try done. pose proof (width_cover l). lia. }
    destruct (combine_loop_ok pb p matchlevel inner 33 (S l) b (Hash2 (node l (2 * b)) (node l (2 * b))) matchh branch' mut)
      as (w' & Hr & [G1 G2 G3 G4 G5 G6 G7 G8 G9]); try done; try lia.
    { apply node_single. lia. }
    { destruct Hi as [Hlen Hi]. split; [done|]. intros k Hk. rewrite <- Hck by lia. apply Hi. lia. }
    cbn [w_level w_h w_matchh w_branch w_mutated] in *. rewrite (carry_combine _ _ _ _ _ _ _ _ _ mut _ _ Hr).
    cbn [mbind option_bind]. set (c' := 2 ^ Z.of_nat (S l) * (b + 1)) in *.
    destruct G9 as [Gw1 Gw2]; [unfold c'; by rewrite div_pow2_mul|].
    apply IH; try done.
    + lia.
    + by rewrite <- Gw1.
    + by rewrite <- Gw1.
    + by rewrite <- Gw1.
    + destruct Hi as [Hlen Hi]. split; [done|]. intros k Hk. rewrite G5, <- Hck by lia. apply Hi. lia.
    + right. destruct Gw2 as [-> |]; [cbn [pred]; lia|done].
    + rewrite <- Gw1. pose proof (width_cover (w_level w')). rewrite G4 in Hmax'. nia.
Qed.

(** *** The whole computation *)

Lemma lowest_level_ok fuel c (l : nat) :
  0 < c <= 2 ^ 31 -> (32 < l + fuel)%nat -> c = 2 ^ Z.of_nat l * (c / 2 ^ Z.of_nat l) ->
  exists l', lowest_level fuel c l = Some l' /\ (l <= l' < 32)%nat /\ Z.odd (c / 2 ^ Z.of_nat l') = true /\
    c = 2 ^ Z.of_nat l' * (c / 2 ^ Z.of_nat l') /\
    (forall k : nat, (l <= k < l')%nat -> Z.odd (c / 2 ^ Z.of_nat k) = false).
Proof.
  intros Hc. revert l. induction fuel as [|fuel IH]; intros l Hf Hd; pose proof (parity (c / 2 ^ Z.of_nat l)) as Hpar;
    assert (l <= 31)%nat as Hl by (apply (level_bound l (c / 2 ^ Z.of_nat l - 1)); nia); [lia|].
  cbn [lowest_level]. rewrite bit_clear_spec by lia.
  destruct (Z.odd (c / 2 ^ Z.of_nat l)) eqn:Ho; cbn [negb Z.b2z] in *.
  - exists l. split_and!; try done; lia.
  - destruct (IH (S l)) as (l' & Hr & H1 & H2 & H3 & H4); [lia| |].
    + rewrite div_pow2_S, Nat2Z.inj_succ, Z.pow_succ_r by lia. nia.
    + exists l'. split_and!; try done; try lia. intros k Hk.
      destruct (decide (k = l)) as [->|]; [done|]. apply H4. lia.
Qed.

Lemma MerkleComputation_ok pb p :
  0 < n <= 2 ^ 31 -> (pb = true -> 0 <= p) ->
  exists H mut branch, MerkleComputation leaves p pb = Some (node H 0, mut, branch) /\ height H /\
    (mut = true <-> repeats n) /\ (pb = true -> p < n -> branch = path p H).
Proof.
  intros Hn Hp. unfold MerkleComputation. destruct (Nat.eqb_spec (length leaves) 0) as [?H0|?H0]; [lia|].
  destruct (add_leaves_ok pb p 0 {| count := 0; inner := replicate 32 uint256_null; matchlevel := -1; pbranch_v := []; mutated := false |} leaves)
    as (st & -> & [H1 [Hlen Hin] H3 H4]); [done|lia|lia| |].
  { split; cbn [count inner matchlevel pbranch_v mutated]; [done| | |].
    - split; [done|]. intros k _ Ho. by rewrite Z.div_0_l in Ho by lia.
    - intros Hpb. specialize (Hp Hpb). right. right. split_and!; try done. lia.
    - split; [done|]. intros (c0 & k & Hc0 & i & Hi & Hc & _). assert (0 < 2 ^ Z.of_nat k) by lia. nia. }
  cbn [mbind option_bind]. rewrite H1.
  destruct (lowest_level_ok 33 n 0) as (l & -> & Hl & Ho & Hd & He); [lia|lia|by rewrite Z.mul_1_l, Z.div_1_r|].
  assert (width l = n / 2 ^ Z.of_nat l) as Hw by by apply width_exact.
  cbn [mbind option_bind]. rewrite Hin by (done || lia). cbn [mbind option_bind].
  destruct (sweep_ok pb p (matchlevel st) (inner st) 33 n l (node l (n / 2 ^ Z.of_nat l - 1))
    (matchlevel st =? Z.of_nat l) (pbranch_v st) (mutated st)) as (w & -> & G1 & G2 & G3 & G4);
    try done; try lia; rewrite ?Hw; try done; try lia.
  - split; [done|]. intros k Hk. apply Hin. lia.
  - destruct l as [|l]; [by left|]. right. cbn [pred].
    pose proof (He l ltac:(lia)) as Hev. rewrite div_pow2_S in Hw.
    assert (n = 2 ^ Z.of_nat l * (n / 2 ^ Z.of_nat l)) as Hdl.
    { rewrite Hd at 1. rewrite div_pow2_S, Nat2Z.inj_succ, Z.pow_succ_r by lia.
      rewrite (even_half _ Hev) at 2. ring. }
    rewrite (width_exact l (n / 2 ^ Z.of_nat l)) by done. apply even_half in Hev.
    assert (0 < n / 2 ^ Z.of_nat l) by nia. lia.
  - intros Hpb. destruct (H3 Hpb) as [(? & _)|[(_ & m & Hm1 & Hm2 & Hm3 & Hm4 & Hm5)|(_ & Hm1 & Hm2 & Hm3)]]; [done| |].
    + rewrite Hm1. destruct (Z.eqb_spec (Z.of_nat m) (Z.of_nat l)) as [Heq|Hneq].
      * apply Nat2Z.inj in Heq as ->. left. done.
      * right. left. split; [done|]. exists m. split_and!; try done; try lia.
        destruct (decide (m < l)%nat); [|lia]. rewrite He in Hm3 by lia. done.
    + rewrite Hm1. destruct (Z.eqb_spec (-1) (Z.of_nat l)); [lia|]. right. right. done.
  - cbn [mbind option_bind]. exists (w_level w), (w_mutated w), (w_branch w). rewrite G2, G3.
    split; [done|]. split; [done|]. split; [done|]. intros Hpb Hpn. apply G4; auto.
Qed.

Lemma height_unique k k' : height k -> height k' -> k = k'.
Proof.
  assert (forall k k', (k <= k')%nat -> width k <= 1 -> width k' <= 1) as Hmono.
  { induction 1 as [|m Hm IH]; [done|]. intros H%IH. rewrite width_S.
    apply (Z.le_trans _ ((1 + 1) / 2)); [apply Z.div_le_mono; lia|done]. }
  intros [H1 H2] [H3 H4]. destruct (Nat.lt_trichotomy k k') as [?|[?|?]]; [|done|]; exfalso.
  - destruct H4 as [|H4]; [lia|]. pose proof (Hmono k (pred k') ltac:(lia) ltac:(lia)). lia.
  - destruct H2 as [|H2]; [lia|]. pose proof (Hmono k' (pred k) ltac:(lia) ltac:(lia)). lia.
Qed.
(** *** Branches are binding *)

(** No two other hashes of 32 bytes hash to a node above the leaves. *)
Definition binding (H : nat) : Prop :=
  forall k i l r, (k < H)%nat -> 0 <= i < width (S k) -> length l = 32%nat -> length r = 32%nat ->
    Hash2 l r = node (S k) i ->
    l = node k (2 * i) /\ r = (if 2 * i + 1 <? width k then node k (2 * i + 1) else node k (2 * i)).

Lemma p_div_width p k : 0 <= p < n -> 0 <= p / 2 ^ Z.of_nat k < width k.
Proof.
  intros Hp. split; [apply Z.div_pos; lia|]. apply width_gt.
  pose proof (Z.mul_div_le p (2 ^ Z.of_nat k) ltac:(lia)). lia.
Qed.

Lemma from_branch_sound `{HL : !HashLaws Hs} p (H l : nat) leaf branch :
  binding H -> 0 <= p < n -> length leaf = 32%nat -> Forall (fun h => length h = 32%nat) branch ->
  (l + length branch)%nat = H ->
  ComputeMerkleRootFromBranch leaf branch (p / 2 ^ Z.of_nat l) = node H (p / 2 ^ Z.of_nat H) ->
  leaf = node l (p / 2 ^ Z.of_nat l).
Proof.
  intros Hb Hp Hlen Hbr. revert l leaf Hlen. induction Hbr as [|h branch Hh Hbr IH]; intros l leaf Hlen Hl Hr.
  { cbn in *. by replace H with l in * by lia. }
  cbn [ComputeMerkleRootFromBranch length] in *. rewrite Z.shiftr_div_pow2 in Hr by lia.
  change (2 ^ 1) with 2 in Hr. rewrite <- div_pow2_S in Hr.
  apply IH in Hr; [|destruct (negb _); apply length_Hash256|lia].
  pose proof (p_div_width p (S l) Hp) as HwS. pose proof (p_div_width p l Hp) as Hw.
  change 1 with (Z.ones 1) in Hr at 1. rewrite Z.land_ones in Hr by lia. change (2 ^ 1) with 2 in Hr. rewrite Zmod_odd in Hr.
  destruct (Z.odd (p / 2 ^ Z.of_nat l)) eqn:Ho; cbn [Z.eqb negb] in Hr; apply Hb in Hr as [H1 H2]; try done; try lia.
  - apply odd_half in Ho. rewrite div_pow2_S in *. rewrite (proj2 (Z.ltb_lt _ _)) in H2 by lia.
    rewrite H2. f_equal. lia.
  - apply even_half in Ho. rewrite div_pow2_S in *. rewrite H1. f_equal. lia.
Qed.
End tree.
End merkle_facts.

(** ** The Merkle root and its branches *)

Import merkle_facts.

(** C30: for up to 2^31 leaves the constant-space computation does not run out
    of its array and returns the root of the tree that is defined level by
    level, where the last node of an odd level is paired with itself; its
    height is the first level with one node.  The flag is set exactly when
    two siblings that both exist are equal somewhere in a complete subtree.
    The branch of a leaf has the height as its length and the verifier
    recomputes the root from it; and as long as no other pair of hashes
    collides with a node, the leaf is the only one that any branch of that
    length proves at its position.  An empty list has the null root. *)
Theorem ComputeMerkleRoot_correct `{Hs : HashFunctions} `{HL : !HashLaws Hs} (leaves : list uint256) (position : Z) :
  ComputeMerkleRoot [] = Some (uint256_null, false) /\
  (0 <= position < Z.of_nat (length leaves) -> Z.of_nat (length leaves) <= 2 ^ 31 ->
   exists H mutated branch,
     height leaves H /\
     ComputeMerkleRoot leaves = Some (node leaves H 0, mutated) /\
     (mutated = true <->
        exists k i, 0 <= i /\ (2 * i + 2) * 2 ^ Z.of_nat k <= Z.of_nat (length leaves) /\
                    node leaves k (2 * i) = node leaves k (2 * i + 1)) /\
     ComputeMerkleBranch leaves position = Some branch /\
     length branch = H /\
     ComputeMerkleRootFromBranch (nth (Z.to_nat position) leaves uint256_null) branch position = node leaves H 0 /\
     (binding leaves H -> forall leaf branch', length leaf = 32%nat -> Forall (fun h => length h = 32%nat) branch' ->
        length branch' = H -> ComputeMerkleRootFromBranch leaf branch' position = node leaves H 0 ->
        leaf = nth (Z.to_nat position) leaves uint256_null)).
Proof.
  split; [done|]. intros Hp Hmax. unfold ComputeMerkleRoot, ComputeMerkleBranch.
  destruct (MerkleComputation_ok leaves false (u32 (-1))) as (H & mut & br & -> & HH & Hmut & _); [lia|done|].
  destruct (MerkleComputation_ok leaves true position) as (H' & mut' & branch & -> & HH' & _ & Hbr); [lia|lia|].
  apply (height_unique leaves H' H) in HH' as ->; [|done]. rewrite Hbr by (done || lia).
  cbn [mbind option_bind]. exists H, mut, (path leaves position H).
  assert (position / 2 ^ Z.of_nat H = 0) as Hroot.
  { pose proof (p_div_width leaves position H Hp). destruct HH. lia. }
  assert (position / 2 ^ Z.of_nat 0 = position) as H0 by apply Z.div_1_r.
  split_and!; try done.
  - rewrite Hmut. unfold repeats, repeats_at. split.
    + intros (c0 & k & Hc & i & Hi & <- & He). eauto.
    + intros (k & i & Hi & Hc & He). eauto 7.
  - unfold path. by rewrite length_fmap, length_seq.
  - pose proof (from_branch leaves position 0 H) as Hb. rewrite Nat.add_0_l, H0, Hroot in Hb. apply Hb; lia.
  - intros Hbind leaf branch' Hl Hbl Hlen Hr. pose proof (from_branch_sound leaves position H 0 leaf branch') as Hb.
    rewrite H0, Hroot in Hb. by apply Hb.
Qed.

(** A block of three transactions, with hash functions for which its nodes
    have no second preimage: the pairs of nodes of this tree are tabulated, a
    digest is its own hash, and all other messages hash to zero. *)
Module merkle_example.
Definition word (z : Z) : uint256 := le_digits 8 32 z.
Definition leaves : list uint256 := [word 11; word 12; word 13].
Definition table (m : bytes) : bytes :=
  if decide (m = word 11 ++ word 12) then word 21
  else if decide (m = word 13 ++ word 13) then word 22
  else if decide (m = word 21 ++ word 22) then word 31
  else if decide (length m = 32%nat /\ bytes_ok m) then m
  else word 0.

#[export] Instance hashes : HashFunctions := {|
  CRIPEMD160 m := le_digits 8 20 (le_val 8 m);
  CSHA1 m := le_digits 8 20 (le_val 8 m);
  CSHA3_256 := table |}.

Lemma table_ok m : length (table m) = 32%nat /\ bytes_ok (table m).
Proof.
  assert (forall z, length (word z) = 32%nat /\ bytes_ok (word z)) as Hw.
  { intros z. split; [apply length_le_digits|apply le_digits_ok; lia]. }
  unfold table. repeat (destruct (decide _); auto).
Qed.

#[export] Instance hash_laws : HashLaws hashes.
Proof.
  split; intros m; first [apply length_le_digits | apply le_digits_ok; lia | apply table_ok].
Defined.

(** Only the tabulated pair of two words hashes to each of the three nodes. *)
Lemma table_inv l r z a b :
  length l = 32%nat -> length r = 32%nat -> Hash2 l r = word z ->
  (z, a, b) ∈ [(21, 11, 12); (22, 13, 13); (31, 21, 22)] -> l = word a /\ r = word b.
Proof.
  intros Hl Hr H Hin. unfold Hash2, CHash256 in H. cbn [CSHA3_256 hashes] in H.
  assert (length (l ++ r) = 64%nat) as Hlen by (rewrite length_app, Hl, Hr; done).
  assert (forall m, length m = 32%nat /\ bytes_ok m -> table m = m) as Hid.
  { intros m [Hm Hok]. unfold table.
    do 3 (destruct (decide _) as [->|]; [rewrite length_app in Hm; discriminate Hm|]).
    by destruct (decide _) as [|[]]. }
  rewrite (Hid (table _)) in H by apply table_ok. unfold table in H.
  assert (forall x y, l ++ r = word x ++ word y -> l = word x /\ r = word y) as Happ.
  { intros x y He. by apply app_inj_1 in He. }
  destruct (decide (l ++ r = word 11 ++ word 12)) as [H1%Happ|];
    [|destruct (decide (l ++ r = word 13 ++ word 13)) as [H1%Happ|];
      [|destruct (decide (l ++ r = word 21 ++ word 22)) as [H1%Happ|]]].
  all: repeat match goal with
    | H : _ ∈ _ :: _ |- _ => apply elem_of_cons in H as [[= -> -> ->]|H]
    | H : _ ∈ [] |- _ => by apply elem_of_nil in H
    end; try done.
  all: destruct (decide _) as [[H5 _]|]; [rewrite H5 in Hlen|]; discriminate.
Qed.

Lemma leaves_binding : binding leaves 2.
Proof.
  intros k i l r Hk Hi Hl Hr H.
  destruct k as [|[|k]]; [| |lia].
  - change (width leaves 1) with 2 in Hi. assert (i = 0 \/ i = 1) as [-> | ->] by lia.
    + apply (table_inv l r 21 11 12) in H; [done..|]. decided.
    + apply (table_inv l r 22 13 13) in H; [done..|]. decided.
  - change (width leaves 2) with 1 in Hi. assert (i = 0) as -> by lia.
    apply (table_inv l r 31 21 22) in H; [done..|]. decided.
Qed.
End merkle_example.

(** The third transaction of three is the only one that a branch of two
    hashes proves at its place. *)
Lemma ComputeMerkleRoot_correct_witness :
  ComputeMerkleRoot (Hs := merkle_example.hashes) merkle_example.leaves = Some (merkle_example.word 31, false) /\
  forall leaf branch, length leaf = 32%nat -> Forall (fun h => length h = 32%nat) branch -> length branch = 2%nat ->
    ComputeMerkleRootFromBranch (Hs := merkle_example.hashes) leaf branch 2 = merkle_example.word 31 ->
    leaf = merkle_example.word 13.
Proof.
  destruct (ComputeMerkleRoot_correct (Hs := merkle_example.hashes) (HL := merkle_example.hash_laws) merkle_example.leaves 2)
    as [_ Hc].
  destruct Hc as (H & mut & branch & HH & _ & _ & _ & _ & _ & Hs); [decided|decided|].
  assert (H = 2%nat) as ->.
  { apply (height_unique merkle_example.leaves); [done|]. vm_compute. auto. }
  split; [vm_compute; reflexivity|]. intros leaf branch' H1 H2 H3 H4.
  apply (Hs merkle_example.leaves_binding leaf branch' H1 H2 H3). rewrite H4. vm_compute. reflexivity.
Defined.
