(* ===== verification/MerkleBlock.v ===== *)
(** * Filtered blocks ([merkleblock.h], [merkleblock.cpp])

    [CPartialMerkleTree]: the bits and hashes that prove to a light client
    that some transactions are in a block, how they are built, transmitted
    and checked, and [CMerkleBlock].  The bloom filter is an interface.
    [None] is a failed assertion or an access out of the bounds of a vector. *)

From S2P Require Import Prelude Uint256 Hash Chain Script Interpreter Serialize Transaction TxVerify Block Merkle.

(** [consensus.h]. *)
Definition MIN_TRANSACTION_WEIGHT : Z := WITNESS_SCALE_FACTOR * 60.

Record CPartialMerkleTree := {
  nTransactions : Z;
  vBits : list bool;
  vHash : list uint256;
  fBad : bool;
}.

Definition CalcTreeWidth (nTransactions : Z) (height : nat) : Z :=
  Z.shiftr (u32 (nTransactions + Z.shiftl 1 (Z.of_nat height) - 1)) (Z.of_nat height).

(** [while (CalcTreeWidth(nHeight) > 1) nHeight++;]. *)
Fixpoint tree_height (fuel : nat) (nTransactions : Z) (nHeight : nat) : option nat :=
  match fuel with
  | O => None
  | S fuel =>
      if CalcTreeWidth nTransactions nHeight >? 1 then tree_height fuel nTransactions (S nHeight)
      else Some nHeight
  end.

Section partial.
Context `{Hs : HashFunctions}.

Fixpoint CalcHash (nTransactions : Z) (height : nat) (pos : Z) (vTxid : list uint256) : option uint256 :=
  if (length vTxid =? 0)%nat then None
  else
    match height with
    | O => vTxid !! Z.to_nat pos
    | S height =>
        hleft ← CalcHash nTransactions height (u32 (pos * 2)) vTxid;
        hright ← (if u32 (pos * 2 + 1) <? CalcTreeWidth nTransactions height
                 then CalcHash nTransactions height (u32 (pos * 2 + 1)) vTxid else Some hleft);
        Some (Hash2 hleft hright)
    end.

(** The loop over the leaves below a node. *)
Definition parent_of_match (nTransactions : Z) (height : nat) (pos : Z) (vMatch : list bool) : option bool :=
  let first := u32 (Z.shiftl pos (Z.of_nat height)) in
  let last := Z.min (u32 (Z.shiftl (u32 (pos + 1)) (Z.of_nat height))) nTransactions in
  foldl (fun acc p => fParentOfMatch ← acc; b ← vMatch !! Z.to_nat p; Some (fParentOfMatch || b))
    (Some false) (seqZ first (last - first)).

(** [vBits] and [vHash] with what the node appends. *)
Fixpoint TraverseAndBuild (nTransactions : Z) (height : nat) (pos : Z) (vTxid : list uint256) (vMatch : list bool)
    (out : list bool * list uint256) : option (list bool * list uint256) :=
  fParentOfMatch ← parent_of_match nTransactions height pos vMatch;
  let vBits := out.1 ++ [fParentOfMatch] in
  match height with
  | O => h ← CalcHash nTransactions O pos vTxid; Some (vBits, out.2 ++ [h])
  | S height' =>
      if negb fParentOfMatch then h ← CalcHash nTransactions height pos vTxid; Some (vBits, out.2 ++ [h])
      else
        out ← TraverseAndBuild nTransactions height' (u32 (pos * 2)) vTxid vMatch (vBits, out.2);
        if u32 (pos * 2 + 1) <? CalcTreeWidth nTransactions height'
        then TraverseAndBuild nTransactions height' (u32 (pos * 2 + 1)) vTxid vMatch out
        else Some out
  end.

(** The constructor. *)
Definition make_partial_tree (vTxid : list uint256) (vMatch : list bool) : option CPartialMerkleTree :=
  let n := u32 (Z.of_nat (length vTxid)) in
  nHeight ← tree_height 33 n 0;
  '(bits, hashes) ← TraverseAndBuild n nHeight 0 vTxid vMatch ([], []);
  Some {| nTransactions := n; vBits := bits; vHash := hashes; fBad := false |}.

Definition empty_partial_tree : CPartialMerkleTree :=
  {| nTransactions := 0; vBits := []; vHash := []; fBad := true |}.

(** The counters, the flag and the two output vectors of an extraction. *)
Record extraction := {
  nBitsUsed : nat;
  nHashUsed : nat;
  x_fBad : bool;
  x_vMatch : list uint256;
  x_vnIndex : list Z;
}.

Definition set_bad (st : extraction) : extraction :=
  {| nBitsUsed := nBitsUsed st; nHashUsed := nHashUsed st; x_fBad := true;
     x_vMatch := x_vMatch st; x_vnIndex := x_vnIndex st |}.

Fixpoint TraverseAndExtract (t : CPartialMerkleTree) (height : nat) (pos : Z) (st : extraction)
    : extraction * uint256 :=
  match vBits t !! nBitsUsed st with
  | None => (set_bad st, uint256_null)
  | Some fParentOfMatch =>
      let st := {| nBitsUsed := S (nBitsUsed st); nHashUsed := nHashUsed st; x_fBad := x_fBad st;
                   x_vMatch := x_vMatch st; x_vnIndex := x_vnIndex st |} in
      let use_hash :=
        match vHash t !! nHashUsed st with
        | None => (set_bad st, uint256_null)
        | Some hash =>
            let leaf := (height =? 0)%nat && fParentOfMatch in
            ({| nBitsUsed := nBitsUsed st; nHashUsed := S (nHashUsed st); x_fBad := x_fBad st;
                x_vMatch := if leaf then x_vMatch st ++ [hash] else x_vMatch st;
                x_vnIndex := if leaf then x_vnIndex st ++ [pos] else x_vnIndex st |}, hash)
        end in
      match height with
      | O => use_hash
      | S height =>
          if negb fParentOfMatch then use_hash
          else
            let '(st, hleft) := TraverseAndExtract t height (u32 (pos * 2)) st in
            let '(st, hright) :=
              if u32 (pos * 2 + 1) <? CalcTreeWidth (nTransactions t) height then
                let '(st, hright) := TraverseAndExtract t height (u32 (pos * 2 + 1)) st in
                (if bool_decide (hright = hleft) then set_bad st else st, hright)
              else (st, hleft) in
            (st, Hash2 hleft hright)
      end
  end.

(** The root, null on failure, with the vectors and the flag as they are
    left; [vnIndex] is what the caller passes. *)
Definition ExtractMatches (t : CPartialMerkleTree) (vnIndex : list Z) : option (uint256 * extraction) :=
  let st := {| nBitsUsed := 0; nHashUsed := 0; x_fBad := fBad t; x_vMatch := []; x_vnIndex := vnIndex |} in
  if nTransactions t =? 0 then Some (uint256_null, st)
  else if nTransactions t >? MAX_BLOCK_WEIGHT / MIN_TRANSACTION_WEIGHT then Some (uint256_null, st)
  else if Z.of_nat (length (vHash t)) >? nTransactions t then Some (uint256_null, st)
  else if (length (vBits t) <? length (vHash t))%nat then Some (uint256_null, st)
  else
    nHeight ← tree_height 33 (nTransactions t) 0;
    let '(st, hashMerkleRoot) := TraverseAndExtract t nHeight 0 st in
    if x_fBad st then Some (uint256_null, st)
    else if negb ((nBitsUsed st + 7) / 8 =? (length (vBits t) + 7) / 8)%nat then Some (uint256_null, st)
    else if negb (nHashUsed st =? length (vHash t))%nat then Some (uint256_null, st)
    else Some (hashMerkleRoot, st).
End partial.

(** ** Serialisation *)

(** [vBytes[p / 8] |= vBits[p] << (p % 8)] for every [p] from [i] on. *)
Fixpoint pack_loop (i : nat) (bits : list bool) (vBytes : bytes) : bytes :=
  match bits with
  | [] => vBytes
  | b :: bits =>
      pack_loop (S i) bits (alter (fun x => Z.lor x (Z.shiftl (Z.b2z b) (Z.of_nat (i mod 8)))) (i / 8)%nat vBytes)
  end.
Definition pack_bits (bits : list bool) : bytes :=
  pack_loop 0 bits (replicate ((length bits + 7) / 8) 0).

Definition unpack_bits (vBytes : bytes) : list bool :=
  (fun p : nat => negb (Z.land (nth (p / 8) vBytes 0) (Z.shiftl 1 (Z.of_nat (p mod 8))) =? 0))
    <$> seq 0 (length vBytes * 8).

(** [std::vector<uint256>]: 5000000 / 32 elements at a time. *)
Definition hashes_codec : codec (list uint256) := vector_codec (5000000 / 32) uint256_codec.

Definition partial_tree_codec : codec CPartialMerkleTree := {|
  Serialize t :=
    Serialize uint32_codec (nTransactions t) ++ Serialize hashes_codec (vHash t) ++
    Serialize bytes_codec (pack_bits (vBits t));
  Unserialize s :=
    '(n, s) ← Unserialize uint32_codec s;
    '(hashes, s) ← Unserialize hashes_codec s;
    '(vBytes, s) ← Unserialize bytes_codec s;
    Ok ({| nTransactions := n; vBits := unpack_bits vBytes; vHash := hashes; fBad := false |}, s) |}.

(** ** [CMerkleBlock] *)

(** [CBloomFilter::IsRelevantAndUpdate]; [None] is a division by zero. *)
Class BloomFilter (F : Type) := { IsRelevantAndUpdate : F -> CTransaction -> option (F * bool) }.

Record CMerkleBlock := {
  mb_header : CBlockHeader;
  mb_txn : CPartialMerkleTree;
  vMatchedTxn : list (Z * uint256);
}.

Section merkle_block.
Context `{Hs : HashFunctions} {F : Type} `{BF : BloomFilter F}.

(** The loop over [block.vtx]: the filter, [vMatch], [vHashes] and
    [vMatchedTxn] from transaction [i] on. *)
Fixpoint match_loop (vtx : list CTransaction) (i : Z) (filter : option F) (txids : option (gset uint256))
    : option (option F * list bool * list uint256 * list (Z * uint256)) :=
  match vtx with
  | [] => Some (filter, [], [], [])
  | tx :: vtx =>
      let hash := GetHash tx in
      let in_txids := match txids with Some s => bool_decide (hash ∈ s) | None => false end in
      '(filter, vMatch, matched) ←
        (if in_txids then Some (filter, true, [])
         else match filter with
              | None => Some (None, false, [])
              | Some f =>
                  '(f, relevant) ← IsRelevantAndUpdate f tx;
                  Some (if (relevant : bool) then (Some f, true, [(i, hash)]) else (Some f, false, []))
              end);
      '(filter, ms, hs, vs) ← match_loop vtx (i + 1) filter txids;
      Some (filter, vMatch :: ms, hash :: hs, matched ++ vs)
  end.

Definition make_CMerkleBlock (block : CBlock) (filter : option F) (txids : option (gset uint256))
    : option (CMerkleBlock * option F) :=
  '(filter, vMatch, vHashes, vMatchedTxn) ← match_loop (vtx block) 0 filter txids;
  txn ← make_partial_tree vHashes vMatch;
  Some ({| mb_header := header block; mb_txn := txn; vMatchedTxn := vMatchedTxn |}, filter).
End merkle_block.

Definition merkle_block_codec : codec CMerkleBlock := {|
  Serialize b := Serialize header_codec (mb_header b) ++ Serialize partial_tree_codec (mb_txn b);
  Unserialize s :=
    '(h, s) ← Unserialize header_codec s;
    '(t, s) ← Unserialize partial_tree_codec s;
    Ok ({| mb_header := h; mb_txn := t; vMatchedTxn := [] |}, s) |}.

(** ** Facts *)

Module merkleblock_facts.
Import serialize_facts merkle_facts.

(** *** The bits of a tree as bytes *)

Lemma length_pack_loop i bits v : length (pack_loop i bits v) = length v.
Proof. revert i v. induction bits as [|b bits IH]; intros i v; cbn [pack_loop]; [done|]. by rewrite IH, length_alter. Qed.

Lemma testbit_b2z_shift b (s : nat) j :
  0 <= j -> Z.testbit (Z.shiftl (Z.b2z b) (Z.of_nat s)) j = b && (j =? Z.of_nat s).
Proof.
  intros Hj. rewrite Z.shiftl_spec by done. destruct (Z.eqb_spec j (Z.of_nat s)) as [->|Hne].
  - rewrite Z.sub_diag, Z.b2z_bit0. by rewrite andb_true_r.
  - rewrite andb_false_r. destruct (Z.lt_ge_cases j (Z.of_nat s)); [apply Z.testbit_neg_r; lia|].
    destruct b; cbn [Z.b2z]; [|apply Z.bits_0]. apply Z.bits_above_log2; [lia|]. cbn. lia.
Qed.

Lemma pack_loop_spec i bits v k (j : nat) :
  (j < 8)%nat -> (i + length bits <= 8 * length v)%nat ->
  (forall q r : nat, (r < 8)%nat -> (i <= 8 * q + r)%nat -> Z.testbit (nth q v 0) (Z.of_nat r) = false) ->
  Z.testbit (nth k (pack_loop i bits v) 0) (Z.of_nat j) =
    if (8 * k + j <? i)%nat then Z.testbit (nth k v 0) (Z.of_nat j) else nth (8 * k + j - i) bits false.
Proof.
  intros Hj. revert i v. induction bits as [|b bits IH]; intros i v Hl Hz; cbn [pack_loop].
  { destruct (Nat.ltb_spec (8 * k + j) i); [done|]. rewrite Hz by lia. by destruct (8 * k + j - i)%nat. }
  pose proof (Nat.div_mod_eq i 8) as Hdm. pose proof (Nat.mod_upper_bound i 8 ltac:(lia)) as Hmod.
  assert (forall q (r : nat), (r < 8)%nat ->
    Z.testbit (nth q (alter (fun x => Z.lor x (Z.shiftl (Z.b2z b) (Z.of_nat (i mod 8)))) (i / 8)%nat v) 0) (Z.of_nat r) =
    Z.testbit (nth q v 0) (Z.of_nat r) || (b && (8 * q + r =? i)%nat)) as Halt.
  { intros q r Hr. rewrite !nth_lookup. destruct (decide (q = i / 8)%nat) as [->|Hq].
    - rewrite list_lookup_alter_eq. cbn [length] in Hl.
      destruct (lookup_lt_is_Some_2 v (i / 8)%nat) as [x Hx]; [lia|]. rewrite Hx. cbn [fmap option_fmap option_map default].
      unfold id. rewrite Z.lor_spec, testbit_b2z_shift by lia. do 2 f_equal.
      destruct (Z.eqb_spec (Z.of_nat r) (Z.of_nat (i mod 8))), (Nat.eqb_spec (8 * (i / 8) + r) i); lia.
    - rewrite list_lookup_alter_ne by done. destruct (Nat.eqb_spec (8 * q + r) i) as [He|]; [lia|].
      by rewrite andb_false_r, orb_false_r. }
  rewrite IH.
  - rewrite Halt by done. destruct (Nat.ltb_spec (8 * k + j) (S i)), (Nat.ltb_spec (8 * k + j) i).
    + destruct (Nat.eqb_spec (8 * k + j) i); [lia|]. by rewrite andb_false_r, orb_false_r.
    + assert (8 * k + j = i)%nat as He by lia. rewrite He, Nat.eqb_refl, Nat.sub_diag, Hz by lia. cbn [nth].
      by rewrite andb_true_r.
    + lia.
    + replace (8 * k + j - i)%nat with (S (8 * k + j - S i)) by lia. done.
  - rewrite length_alter. cbn [length] in Hl. lia.
  - intros q r Hr Hi. rewrite Halt, Hz by lia. destruct (Nat.eqb_spec (8 * q + r) i); [lia|]. by rewrite andb_false_r.
Qed.

Definition packed (bits : list bool) : nat := (length bits + 7) / 8.

Lemma packed_bounds bits : (length bits <= 8 * packed bits < length bits + 8)%nat.
Proof.
  unfold packed. pose proof (Nat.div_mod_eq (length bits + 7) 8).
  pose proof (Nat.mod_upper_bound (length bits + 7) 8 ltac:(lia)). lia.
Qed.

Lemma pack_bits_ok bits : bytes_ok (pack_bits bits) /\ length (pack_bits bits) = packed bits.
Proof.
  unfold pack_bits. rewrite length_pack_loop, length_replicate. split; [|done]. fold (packed bits).
  assert (bytes_ok (replicate (packed bits) 0)) as H.
  { apply Forall_replicate. unfold in_range. lia. }
  revert H. generalize (replicate (packed bits) 0), 0%nat. induction bits as [|b bits IH]; intros v i H; cbn [pack_loop]; [done|].
  apply IH. apply Forall_alter; [done|]. intros x _ Hx. apply in_range_lor; [lia|done|].
  unfold in_range. rewrite Z.shiftl_mul_pow2 by lia.
  assert (0 < 2 ^ Z.of_nat (i mod 8) < 2 ^ 8).
  { split; [lia|]. apply Z.pow_lt_mono_r; [lia|lia|]. pose proof (Nat.mod_upper_bound i 8 ltac:(lia)). lia. }
  destruct b; cbn [Z.b2z]; lia.
Qed.

(** The reader sees the bits that were sent, and less than a byte of zeros. *)
Lemma unpack_pack bits :
  unpack_bits (pack_bits bits) = bits ++ replicate (8 * packed bits - length bits) false.
Proof.
  pose proof (packed_bounds bits) as Hb. destruct (pack_bits_ok bits) as [_ Hl].
  apply list_eq. intros p. unfold unpack_bits. rewrite Hl, list_lookup_fmap.
  destruct (decide (p < packed bits * 8)%nat) as [Hp|Hp].
  - rewrite lookup_seq_lt by done. cbn [fmap option_fmap option_map Nat.add].
    pose proof (Nat.div_mod_eq p 8) as Hdm. pose proof (Nat.mod_upper_bound p 8 ltac:(lia)) as Hmod.
    assert (negb (Z.land (nth (p / 8) (pack_bits bits) 0) (Z.shiftl 1 (Z.of_nat (p mod 8))) =? 0) =
            Z.testbit (nth (p / 8) (pack_bits bits) 0) (Z.of_nat (p mod 8))) as ->.
    { rewrite Z.shiftl_1_l. destruct (Z.testbit _ _) eqn:Ht.
      - apply negb_true_iff, Z.eqb_neq. intros H. apply (f_equal (fun z => Z.testbit z (Z.of_nat (p mod 8)))) in H.
        rewrite Z.land_spec, Z.pow2_bits_true, Z.bits_0, Ht in H by lia. done.
      - apply negb_false_iff, Z.eqb_eq, Z.bits_inj'. intros i Hi. rewrite Z.land_spec, Z.bits_0.
        destruct (decide (i = Z.of_nat (p mod 8))) as [->|]; [by rewrite Ht|].
        rewrite Z.pow2_bits_false by lia. apply andb_false_r. }
    unfold pack_bits. fold (packed bits). rewrite pack_loop_spec; [|done|rewrite length_replicate; lia|].
    + rewrite <- Hdm, Nat.sub_0_r. cbn [Nat.ltb Nat.leb]. destruct (decide (p < length bits)%nat).
      * rewrite lookup_app_l by done. destruct (lookup_lt_is_Some_2 bits p) as [b Hbit]; [done|].
        by rewrite nth_lookup, Hbit.
      * rewrite nth_overflow, lookup_app_r by lia. symmetry. apply lookup_replicate. lia.
    + intros q r _ _. rewrite nth_lookup. destruct (decide (q < packed bits)%nat).
      * rewrite lookup_replicate_2 by done. apply Z.bits_0.
      * rewrite lookup_ge_None_2 by (rewrite length_replicate; lia). apply Z.bits_0.
  - rewrite lookup_seq_ge by lia. symmetry. apply lookup_ge_None. rewrite length_app, length_replicate. lia.
Qed.

(** *** The code's tree is the tree of [Merkle] *)

Section tree.
Context `{Hs : HashFunctions} (leaves : list uint256).
Abbreviation n := (Z.of_nat (length leaves)).
Hypothesis (n_bound : 0 < n <= 2 ^ 31).

Lemma CalcTreeWidth_width h : (h <= 31)%nat -> CalcTreeWidth n h = width leaves h.
Proof.
  intros Hh. unfold CalcTreeWidth, width. rewrite Z.shiftl_1_l.
  assert (0 < 2 ^ Z.of_nat h <= 2 ^ 31) by (split; [lia|apply Z.pow_le_mono_r; lia]).
  rewrite wrap_small by (unfold in_range; pow_literals; lia). by rewrite Z.shiftr_div_pow2 by lia.
Qed.

Lemma height_bound H : height leaves H -> (H <= 31)%nat.
Proof.
  intros [_ [->|H1]]; [lia|]. destruct (le_lt_dec H 31) as [|Hl]; [done|]. exfalso.
  pose proof (width_le leaves (pred H) 1 ltac:(lia)) as Hw.
  assert (2 ^ 31 <= 2 ^ Z.of_nat (pred H)) by (apply Z.pow_le_mono_r; lia). lia.
Qed.

Lemma width_pos k : 0 < width leaves k.
Proof. pose proof (width_cover leaves k). nia. Qed.

Lemma tree_height_ok H fuel h :
  height leaves H -> (h <= H)%nat -> (H < h + fuel)%nat -> tree_height fuel n h = Some H.
Proof.
  intros HH. pose proof (height_bound H HH). destruct HH as [H1 H2].
  revert h. induction fuel as [|fuel IH]; intros h Hh Hf; [lia|]. cbn [tree_height].
  rewrite CalcTreeWidth_width by lia. destruct (Z.gtb_spec (width leaves h) 1) as [Hw|Hw].
  - apply IH; [|lia]. destruct (decide (h = H)) as [->|]; lia.
  - f_equal. apply (height_unique leaves); [|by split]. split; [pose proof (width_pos h); lia|].
    destruct h as [|h]; [by left|right]. cbn [pred]. destruct H2 as [->|H2]; [lia|].
    assert (forall a b, (a <= b)%nat -> width leaves a <= 1 -> width leaves b <= 1) as Hmono.
    { induction 1 as [|m Hm IHm]; [done|]. intros H3%IHm. rewrite width_S.
      apply (Z.le_trans _ ((1 + 1) / 2)); [apply Z.div_le_mono; lia|done]. }
    destruct (Z.lt_ge_cases 1 (width leaves h)); [done|].
    pose proof (Hmono h (pred H) ltac:(lia) ltac:(lia)). lia.
Qed.

(** A position in a level fits a 32-bit integer, and so do its children. *)
Lemma width_max h : width leaves h <= 2 ^ 31.
Proof.
  apply width_le; [lia|]. assert (1 <= 2 ^ Z.of_nat h) by lia. nia.
Qed.

Lemma child_l h pos : 0 <= pos < width leaves (S h) -> u32 (pos * 2) = 2 * pos /\ 0 <= 2 * pos < width leaves h.
Proof.
  intros Hp. pose proof (width_max h). rewrite width_S in Hp.
  assert (2 * pos < width leaves h) by dlia.
  split; [|lia]. rewrite wrap_small; [lia|]. unfold in_range. pow_literals. lia.
Qed.

Lemma child_r h pos : 0 <= pos < width leaves (S h) -> u32 (pos * 2 + 1) = 2 * pos + 1.
Proof.
  intros Hp. pose proof (child_l h pos Hp) as [_ ?]. pose proof (width_max h).
  rewrite wrap_small; [lia|]. unfold in_range. pow_literals. lia.
Qed.

Lemma CalcHash_node h pos :
  (h <= 31)%nat -> 0 <= pos < width leaves h -> CalcHash n h pos leaves = Some (node leaves h pos).
Proof.
  revert pos. induction h as [|h IH]; intros pos Hh Hp; cbn [CalcHash];
    destruct (Nat.eqb_spec (length leaves) 0) as [H0|H0]; try lia.
  - rewrite width_0 in Hp. cbn [node]. rewrite nth_lookup.
    destruct (lookup_lt_is_Some_2 leaves (Z.to_nat pos)) as [x ->]; [lia|done].
  - destruct (child_l h pos Hp) as [-> Hl]. rewrite (child_r h pos Hp), (IH (2 * pos)) by lia. cbn [mbind option_bind].
    rewrite CalcTreeWidth_width by lia. cbn [node].
    destruct (Z.ltb_spec (2 * pos + 1) (width leaves h)); [|done]. by rewrite IH by lia.
Qed.

(** *** Building a tree and extracting from it *)

Section matches.
Context (vMatch : list bool) (vMatch_length : length vMatch = length leaves).

(** The leaves below a node, and the selected ones among them. *)
Definition range (h : nat) (pos : Z) : list Z :=
  let lo := pos * 2 ^ Z.of_nat h in seqZ lo (Z.min n ((pos + 1) * 2 ^ Z.of_nat h) - lo).
Definition selected (p : Z) : bool := nth (Z.to_nat p) vMatch false.
Definition matched (h : nat) (pos : Z) : list Z := List.filter selected (range h pos).

Lemma range_0 pos : 0 <= pos < n -> range 0 pos = [pos].
Proof.
  intros Hp. unfold range. change (2 ^ Z.of_nat 0) with 1. rewrite !Z.mul_1_r, Z.min_r by lia.
  replace (pos + 1 - pos) with 1 by ring. done.
Qed.

Lemma range_pair h pos :
  0 <= pos -> 2 * pos + 1 < width leaves h -> range (S h) pos = range h (2 * pos) ++ range h (2 * pos + 1).
Proof.
  intros Hp Hw. assert (2 ^ Z.of_nat h * (2 * pos + 1) < n) as Hn.
  { apply Z.lt_nge. intros H. apply width_le in H; lia. }
  unfold range. rewrite Nat2Z.inj_succ, Z.pow_succ_r by lia. set (P := 2 ^ Z.of_nat h) in *.
  assert (0 < P) by (unfold P; lia).
  rewrite (Z.min_r n ((2 * pos + 1) * P)) by lia.
  replace ((2 * pos + 1) * P - 2 * pos * P) with P by ring.
  replace ((pos + 1) * (2 * P)) with ((2 * pos + 1 + 1) * P) by ring. replace (pos * (2 * P)) with (2 * pos * P) by ring.
  replace (Z.min n ((2 * pos + 1 + 1) * P) - 2 * pos * P)
    with (P + (Z.min n ((2 * pos + 1 + 1) * P) - (2 * pos + 1) * P)) by ring.
  rewrite seqZ_app by lia. do 2 f_equal; lia.
Qed.

Lemma range_single h pos :
  0 <= pos -> width leaves h <= 2 * pos + 1 -> range (S h) pos = range h (2 * pos).
Proof.
  intros Hp Hw. pose proof (width_cover leaves h) as Hn.
  unfold range. rewrite Nat2Z.inj_succ, Z.pow_succ_r by lia. set (P := 2 ^ Z.of_nat h) in *.
  assert (0 < P) by (unfold P; lia). assert (n <= (2 * pos + 1) * P) by nia.
  rewrite !Z.min_l by nia. f_equal; lia.
Qed.

Lemma range_nonempty h pos : 0 <= pos < width leaves h -> (0 < length (range h pos))%nat.
Proof.
  intros Hp. assert (2 ^ Z.of_nat h * pos < n) as Hn.
  { destruct (decide (pos = 0)) as [->|]; [lia|]. apply Z.lt_nge. intros H. apply width_le in H; lia. }
  unfold range. rewrite length_seqZ. lia.
Qed.

Lemma foldl_matches l b :
  Forall (fun p => 0 <= p < n) l ->
  foldl (fun acc p => fParentOfMatch ← acc; b ← vMatch !! Z.to_nat p; Some (fParentOfMatch || b)) (Some b) l
  = Some (b || existsb selected l).
Proof.
  intros Hl. revert b. induction Hl as [|p l Hp Hl IH]; intros b; cbn [foldl existsb]; [by rewrite orb_false_r|].
  unfold selected at 1. rewrite nth_lookup. destruct (lookup_lt_is_Some_2 vMatch (Z.to_nat p)) as [m ->]; [lia|].
  cbn [mbind option_bind default]. by rewrite IH, orb_assoc.
Qed.

Lemma parent_of_match_ok h pos :
  (h <= 31)%nat -> 0 <= pos < width leaves h ->
  parent_of_match n h pos vMatch = Some (existsb selected (range h pos)).
Proof.
  intros Hh Hp. pose proof (width_max h) as Hmax. pose proof (range_nonempty h pos Hp) as Hr.
  assert (0 < 2 ^ Z.of_nat h <= 2 ^ 31) by (split; [lia|apply Z.pow_le_mono_r; lia]).
  unfold range in Hr. rewrite length_seqZ in Hr.
  assert (0 <= pos * 2 ^ Z.of_nat h < n) as Hlo by nia.
  unfold parent_of_match. rewrite (wrap_small 32 (pos + 1)) by (unfold in_range; pow_literals; lia).
  rewrite !Z.shiftl_mul_pow2 by lia. rewrite !wrap_small by (unfold in_range; pow_literals; lia).
  rewrite Z.min_comm. rewrite foldl_matches; [done|].
  apply Forall_forall. intros p Hin. apply elem_of_seqZ in Hin. lia.
Qed.

Lemma existsb_filter {A} (f : A -> bool) l : existsb f l = false -> List.filter f l = [].
Proof.
  induction l as [|x l IH]; cbn; [done|]. intros [Hx Hl]%orb_false_iff. rewrite Hx. by apply IH.
Qed.

Definition leaf (p : Z) : uint256 := nth (Z.to_nat p) leaves uint256_null.

(** What an extraction has done after a node of [nb] bits and [nh] hashes
    with the selected leaves [ps]. *)
Definition advance (st : extraction) (nb nh : nat) (ps : list Z) : extraction := {|
  nBitsUsed := nBitsUsed st + nb; nHashUsed := nHashUsed st + nh; x_fBad := x_fBad st;
  x_vMatch := x_vMatch st ++ (leaf <$> ps); x_vnIndex := x_vnIndex st ++ ps |}.

Lemma advance_advance st nb1 nh1 ps1 nb2 nh2 ps2 :
  advance (advance st nb1 nh1 ps1) nb2 nh2 ps2 = advance st (nb1 + nb2) (nh1 + nh2) (ps1 ++ ps2).
Proof. unfold advance. cbn. by rewrite !Nat.add_assoc, <- !app_assoc, fmap_app. Qed.

(** A node as the builder writes it: it appends [bs] and [hs], and the
    extraction that finds them consumes them and returns the node. *)
Definition written (h : nat) (pos : Z) (bs : list bool) (hs : list uint256) : Prop :=
  (forall out, TraverseAndBuild n h pos leaves vMatch out = Some (out.1 ++ bs, out.2 ++ hs)) /\
  (0 < length hs <= length (range h pos))%nat /\ (length hs <= length bs <= length (range h pos) * S h)%nat /\
  Forall (fun x => exists k i, x = node leaves k i) hs /\
  forall t st b1 h1, nTransactions t = n ->
    drop (nBitsUsed st) (vBits t) = bs ++ b1 -> drop (nHashUsed st) (vHash t) = hs ++ h1 ->
    TraverseAndExtract t h pos st = (advance st (length bs) (length hs) (matched h pos), node leaves h pos).

Lemma drop_lookup_0 {A} i (l : list A) x l' : drop i l = x :: l' -> l !! i = Some x /\ drop (S i) l = l'.
Proof.
  intros H. split.
  - rewrite <- (Nat.add_0_r i), <- lookup_drop, H. done.
  - replace (S i) with (i + 1)%nat by lia. by rewrite <- drop_drop, H.
Qed.

Lemma written_hash h pos :
  (h <= 31)%nat -> 0 <= pos < width leaves h -> h = 0%nat \/ existsb selected (range h pos) = false ->
  written h pos [existsb selected (range h pos)] [node leaves h pos].
Proof.
  intros Hh Hp Hcase. set (f := existsb selected (range h pos)).
  pose proof (parent_of_match_ok h pos Hh Hp) as Hm. pose proof (CalcHash_node h pos Hh Hp) as Hc.
  split; [|split; [cbn; pose proof (range_nonempty h pos Hp); lia|split; [cbn [length]; pose proof (range_nonempty h pos Hp); nia|split; [by repeat econstructor|]]]].
  - intros out. destruct h as [|h]; unfold TraverseAndBuild; fold TraverseAndBuild; rewrite Hm;
      cbn [mbind option_bind]; [by rewrite Hc|].
    destruct Hcase as [|Hf]; [done|]. rewrite Hf. cbn [negb]. rewrite Hc. cbn. subst f. by rewrite Hf.
  - intros t st b1 h1 Hn Hb Hhs. cbn [app] in *.
    apply drop_lookup_0 in Hb as [Hb _]. apply drop_lookup_0 in Hhs as [Hhs _].
    destruct h as [|h]; cbn [TraverseAndExtract]; rewrite Hb; cbn [nHashUsed nBitsUsed x_fBad x_vMatch x_vnIndex].
    + rewrite Hhs. cbn [Nat.eqb andb]. unfold advance, matched. subst f. rewrite width_0 in Hp.
      rewrite range_0 in * by done. cbn [existsb List.filter]. rewrite orb_false_r.
      cbn [length]. rewrite !Nat.add_1_r. destruct (selected pos); cbn; by rewrite ?app_nil_r.
    + destruct Hcase as [|Hf]; [done|]. subst f. rewrite Hf in *. cbn [negb]. rewrite Hhs. cbn [Nat.eqb andb].
      unfold advance, matched. rewrite existsb_filter by done. cbn. by rewrite !Nat.add_1_r, !app_nil_r.
Qed.

(** No two siblings are equal. *)
Definition distinct_siblings : Prop :=
  forall k i, 0 <= i -> 2 * i + 1 < width leaves k -> node leaves k (2 * i) <> node leaves k (2 * i + 1).

Lemma written_pair h pos bs1 hs1 bs2 hs2 :
  distinct_siblings -> (S h <= 31)%nat -> 0 <= pos < width leaves (S h) ->
  existsb selected (range (S h) pos) = true -> 2 * pos + 1 < width leaves h ->
  written h (2 * pos) bs1 hs1 -> written h (2 * pos + 1) bs2 hs2 ->
  written (S h) pos (true :: bs1 ++ bs2) (hs1 ++ hs2).
Proof.
  intros Hd Hh Hp Hf Hw (B1 & L1 & C1 & N1 & E1) (B2 & L2 & C2 & N2 & E2).
  destruct (child_l h pos Hp) as [Hl _]. pose proof (child_r h pos Hp) as Hr.
  assert ((u32 (pos * 2 + 1) <? CalcTreeWidth n h) = true) as Hlt.
  { rewrite Hr, CalcTreeWidth_width by lia. by apply Z.ltb_lt. }
  split; [|split; [|split; [|split]]].
  - intros out. cbn [TraverseAndBuild]. rewrite parent_of_match_ok by done. rewrite Hf. cbn [mbind option_bind negb].
    rewrite Hl, B1. cbn [mbind option_bind fst snd]. rewrite Hlt, Hr, B2. cbn [fst snd]. by rewrite <- !app_assoc.
  - rewrite range_pair, !length_app by lia. lia.
  - rewrite range_pair, !length_app by lia. cbn [length]. rewrite length_app. nia.
  - by apply Forall_app.
  - intros t st b1 h1 Hn Hb Hhs. cbn [app] in Hb. rewrite <- app_assoc in Hb, Hhs.
    apply drop_lookup_0 in Hb as [Hb0 Hb]. cbn [TraverseAndExtract]. rewrite Hb0.
    cbn [nHashUsed nBitsUsed x_fBad x_vMatch x_vnIndex negb]. rewrite Hl, Hn, Hlt, Hr.
    rewrite (E1 t _ (bs2 ++ b1) (hs2 ++ h1)) by done.
    rewrite (E2 t _ b1 h1); [|done| |].
    + rewrite bool_decide_eq_false_2 by (apply not_eq_sym, Hd; lia). rewrite advance_advance.
      rewrite node_pair by done. f_equal. unfold advance, matched. cbn [nHashUsed nBitsUsed x_fBad x_vMatch x_vnIndex].
      rewrite range_pair, List.filter_app, !fmap_app by lia. cbn [length]. rewrite !length_app.
      f_equal; lia.
    + unfold advance. cbn [nBitsUsed]. by rewrite <- drop_drop, Hb, drop_app_length.
    + unfold advance. cbn [nHashUsed]. by rewrite <- drop_drop, Hhs, drop_app_length.
Qed.

Lemma written_single h pos bs1 hs1 :
  (S h <= 31)%nat -> 0 <= pos < width leaves (S h) ->
  existsb selected (range (S h) pos) = true -> width leaves h <= 2 * pos + 1 ->
  written h (2 * pos) bs1 hs1 -> written (S h) pos (true :: bs1) hs1.
Proof.
  intros Hh Hp Hf Hw (B1 & L1 & C1 & N1 & E1).
  destruct (child_l h pos Hp) as [Hl _]. pose proof (child_r h pos Hp) as Hr.
  assert ((u32 (pos * 2 + 1) <? CalcTreeWidth n h) = false) as Hlt.
  { rewrite Hr, CalcTreeWidth_width by lia. by apply Z.ltb_ge. }
  split; [|split; [|split; [|split]]].
  - intros out. cbn [TraverseAndBuild]. rewrite parent_of_match_ok by done. rewrite Hf. cbn [mbind option_bind negb].
    rewrite Hl, B1. cbn [mbind option_bind fst snd]. rewrite Hlt. by rewrite <- !app_assoc.
  - by rewrite range_single by lia.
  - rewrite range_single by lia. cbn [length]. nia.
  - done.
  - intros t st b1 h1 Hn Hb Hhs. cbn [app] in Hb.
    apply drop_lookup_0 in Hb as [Hb0 Hb]. cbn [TraverseAndExtract]. rewrite Hb0.
    cbn [nHashUsed nBitsUsed x_fBad x_vMatch x_vnIndex negb]. rewrite Hl, Hn, Hlt.
    rewrite (E1 t _ b1 h1) by done. rewrite node_single by done. f_equal.
    unfold advance, matched. rewrite range_single by lia. cbn [nHashUsed nBitsUsed x_fBad x_vMatch x_vnIndex length].
    f_equal; lia.
Qed.

Lemma written_node h pos :
  distinct_siblings -> (h <= 31)%nat -> 0 <= pos < width leaves h -> exists bs hs, written h pos bs hs.
Proof.
  intros Hd. revert pos. induction h as [|h IH]; intros pos Hh Hp.
  { eexists _, _. apply written_hash; auto. }
  destruct (existsb selected (range (S h) pos)) eqn:Hf.
  2:{ eexists _, _. apply written_hash; auto. }
  destruct (child_l h pos Hp) as [_ Hl]. destruct (IH (2 * pos)) as (bs1 & hs1 & H1); [lia|done|].
  destruct (Z.lt_ge_cases (2 * pos + 1) (width leaves h)) as [Hw|Hw].
  - destruct (IH (2 * pos + 1)) as (bs2 & hs2 & H2); [lia|lia|].
    eexists _, _. by apply (written_pair h pos bs1 hs1 bs2 hs2).
  - eexists _, _. by apply (written_single h pos bs1 hs1).
Qed.

(** The root node covers all leaves. *)
Lemma range_root H : height leaves H -> range H 0 = seqZ 0 n.
Proof.
  intros [H1 _]. pose proof (width_cover leaves H) as Hc. rewrite H1 in Hc.
  unfold range. rewrite Z.mul_0_l, Z.sub_0_r, Z.min_l by lia. done.
Qed.

(** What an honest node builds: the tree of the block and the receiver's
    extraction from it, with padding after the bits. *)
Lemma built_extracts H :
  distinct_siblings -> height leaves H -> n <= MAX_BLOCK_WEIGHT / MIN_TRANSACTION_WEIGHT ->
  exists t, make_partial_tree leaves vMatch = Some t /\ nTransactions t = n /\ fBad t = false /\
    Forall (fun h => exists k i, h = node leaves k i) (vHash t) /\
    Z.of_nat (length (vHash t)) <= n /\ Z.of_nat (length (vBits t)) <= n * 32 /\
    (forall pad vnIndex, ((length (vBits t) + pad + 7) / 8 = (length (vBits t) + 7) / 8)%nat ->
     exists st, ExtractMatches {| nTransactions := n; vBits := vBits t ++ replicate pad false; vHash := vHash t; fBad := false |} vnIndex
       = Some (node leaves H 0, st) /\ x_fBad st = false /\
       x_vMatch st = leaf <$> List.filter selected (seqZ 0 n) /\
       x_vnIndex st = vnIndex ++ List.filter selected (seqZ 0 n)).
Proof.
  intros Hd HH Hmax. pose proof (height_bound H HH) as HH31. pose proof HH as [Hw1 _].
  destruct (written_node H 0 Hd HH31) as (bs & hs & B & L & C & N & E); [lia|].
  rewrite (range_root H HH), length_seqZ in L, C.
  assert (u32 n = n) as Hn by (apply wrap_small; unfold in_range; pow_literals; lia).
  assert (tree_height 33 n 0 = Some H) as Hth by (apply tree_height_ok; [done|lia|lia]).
  unfold make_partial_tree. rewrite Hn, Hth. cbn [mbind option_bind]. rewrite B. cbn [fst snd app mbind option_bind].
  eexists. split; [reflexivity|]. cbn [nTransactions vBits vHash fBad]. split; [done|]. split; [done|]. split; [done|].
  split; [lia|]. split; [nia|]. intros pad vnIndex Hmod. unfold ExtractMatches. cbn [nTransactions vBits vHash fBad].
  destruct (Z.eqb_spec n 0) as [?G1|?G1]; [lia|].
  destruct (Z.gtb_spec n (MAX_BLOCK_WEIGHT / MIN_TRANSACTION_WEIGHT)) as [?G2|?G2]; [lia|].
  destruct (Z.gtb_spec (Z.of_nat (length hs)) n) as [?G3|?G3]; [lia|].
  rewrite length_app, length_replicate. destruct (Nat.ltb_spec (length bs + pad) (length hs)) as [?G4|?G4]; [lia|].
  rewrite Hth. cbn [mbind option_bind]. erewrite E; [|done|done|by rewrite drop_0, app_nil_r].
  unfold advance. cbn [nHashUsed nBitsUsed x_fBad x_vMatch x_vnIndex Nat.add].
  rewrite Hmod.
  rewrite !Nat.eqb_refl. cbn [negb]. eexists. split; [reflexivity|]. cbn [x_fBad x_vMatch x_vnIndex].
  unfold matched. by rewrite (range_root H HH).
Qed.
End matches.

(** *** Any tree that a peer sends *)

Section sound.
Context `{HL : !HashLaws Hs} (t : CPartialMerkleTree) (H : nat).
Hypothesis (t_n : nTransactions t = n).
Hypothesis (t_hashes : Forall (fun h => length h = 32%nat) (vHash t)).
Hypothesis (H_bound : (H <= 31)%nat).
Hypothesis (block_binding : binding leaves H).

Definition proved (m : uint256) (i : Z) : Prop := 0 <= i < n /\ m = nth (Z.to_nat i) leaves uint256_null.

(** What an extraction appends, right if the node is the block's. *)
Definition sound (h : nat) (pos : Z) (st st' : extraction) (r : uint256) : Prop :=
  length r = 32%nat /\ (x_fBad st = true -> x_fBad st' = true) /\
  exists ms ixs, x_vMatch st' = x_vMatch st ++ ms /\ x_vnIndex st' = x_vnIndex st ++ ixs /\
    (x_fBad st' = false -> r = node leaves h pos -> Forall2 proved ms ixs).

Lemma sound_nothing h pos st st' r :
  length r = 32%nat -> (x_fBad st = true -> x_fBad st' = true) ->
  x_vMatch st' = x_vMatch st -> x_vnIndex st' = x_vnIndex st -> sound h pos st st' r.
Proof. intros Hr Hb Hm Hi. split; [done|]. split; [done|]. exists [], []. by rewrite !app_nil_r. Qed.

Lemma extract_hash_sound h pos st st' r (f : bool) :
  0 <= pos < width leaves h ->
  (match vHash t !! nHashUsed st with
   | None => (set_bad st, uint256_null)
   | Some hash =>
       let leaf := (h =? 0)%nat && f in
       ({| nBitsUsed := nBitsUsed st; nHashUsed := S (nHashUsed st); x_fBad := x_fBad st;
           x_vMatch := if leaf then x_vMatch st ++ [hash] else x_vMatch st;
           x_vnIndex := if leaf then x_vnIndex st ++ [pos] else x_vnIndex st |}, hash)
   end) = (st', r) -> sound h pos st st' r.
Proof.
  intros Hp Hx. destruct (vHash t !! nHashUsed st) as [hash|] eqn:Hh; injection Hx as <- <-.
  2:{ by apply sound_nothing. }
  assert (length hash = 32%nat) as Hl by (by eapply (Forall_lookup_1 _ _ _ _ t_hashes)).
  destruct (Nat.eqb_spec h 0) as [->|Hne]; [destruct f|]; cbn [andb].
  - split; [done|]. split; [done|]. exists [hash], [pos]. split_and!; try done. cbn [node]. intros _ ->.
    rewrite width_0 in Hp. constructor; [by split|constructor].
  - by apply sound_nothing.
  - by apply sound_nothing.
Qed.

Lemma extract_sound h pos st st' r :
  (h <= H)%nat -> 0 <= pos < width leaves h -> TraverseAndExtract t h pos st = (st', r) -> sound h pos st st' r.
Proof.
  revert pos st st' r. induction h as [|h IH]; intros pos st st' r Hh Hp Hx; cbn [TraverseAndExtract] in Hx;
    (destruct (vBits t !! nBitsUsed st) as [f|] eqn:Hbit; [|injection Hx as <- <-; by apply sound_nothing]).
  { by apply (extract_hash_sound 0 pos _ st' r f) in Hx. }
  destruct f; cbn [negb] in Hx; [|by apply (extract_hash_sound (S h) pos _ st' r false) in Hx].
  destruct (child_l h pos Hp) as [Hl Hlw]. rewrite Hl, (child_r h pos Hp), t_n, CalcTreeWidth_width in Hx by lia.
  destruct (TraverseAndExtract t h (2 * pos) _) as [st1 hl] eqn:H1.
  apply IH in H1 as (Hl1 & Hb1 & ms1 & ix1 & Hm1 & Hi1 & Hs1); [|lia|done].
  cbn [x_vMatch x_vnIndex x_fBad] in *.
  destruct (Z.ltb_spec (2 * pos + 1) (width leaves h)) as [Hw|Hw].
  - destruct (TraverseAndExtract t h (2 * pos + 1) st1) as [st2 hr] eqn:H2.
    apply IH in H2 as (Hl2 & Hb2 & ms2 & ix2 & Hm2 & Hi2 & Hs2); [|lia|lia].
    injection Hx as <- <-. split; [apply length_Hash256|].
    assert (forall b : bool, x_vMatch (if b then set_bad st2 else st2) = x_vMatch st2 /\
      x_vnIndex (if b then set_bad st2 else st2) = x_vnIndex st2 /\
      (x_fBad (if b then set_bad st2 else st2) = false -> x_fBad st2 = false)) as Hset by by intros [].
    destruct (Hset (bool_decide (hr = hl))) as (E1 & E2 & E3). split.
    { intros Hb. destruct (x_fBad (if bool_decide (hr = hl) then set_bad st2 else st2)) eqn:Hf; [done|]. specialize (E3 eq_refl). rewrite <- E3. auto. }
    exists (ms1 ++ ms2), (ix1 ++ ix2). rewrite E1, E2, Hm2, Hm1, Hi2, Hi1, <- !app_assoc.
    split_and!; try done. intros Hf Hnode. apply E3 in Hf. apply block_binding in Hnode as [N1 N2]; try done.
    rewrite (proj2 (Z.ltb_lt _ _) Hw) in N2. apply Forall2_app; [|by apply Hs2].
    apply Hs1; [|done]. destruct (x_fBad st1) eqn:Hf1; [|done]. specialize (Hb2 eq_refl). congruence.
  - injection Hx as <- <-. split; [apply length_Hash256|]. split; [done|]. exists ms1, ix1.
    split_and!; try done. intros Hf Hnode. apply block_binding in Hnode as [N1 N2]; try done. by apply Hs1.
Qed.
End sound.

Lemma height_exists : exists H, height leaves H.
Proof. destruct (MerkleComputation_ok leaves false 0) as (H & _ & _ & _ & HH & _); [done|done|eauto]. Qed.

Lemma node_wf `{HL : !HashLaws Hs} k i : Forall uint256_wf leaves -> uint256_wf (node leaves k i).
Proof.
  intros Hl. destruct k; cbn [node]; [|by split; [apply length_Hash256|apply bytes_Hash256]].
  rewrite nth_lookup. destruct (leaves !! _) as [x|] eqn:Hx; cbn [default].
  - by eapply Forall_lookup_1.
  - by split; [|apply Forall_replicate; unfold in_range; lia].
Qed.
End tree.


(** *** Transmission *)

Import transaction_facts.

#[export] Instance hashes_laws :
  CodecLaws hashes_codec (fun v => Forall uint256_wf v /\ Z.of_nat (length v) <= MAX_SIZE).
Proof. apply (vector_laws _ uint256_codec (P := uint256_wf)). decided. Qed.

Lemma partial_tree_codec_app t s :
  in_range 32 (nTransactions t) -> Forall uint256_wf (vHash t) -> Z.of_nat (length (vHash t)) <= MAX_SIZE ->
  Z.of_nat (packed (vBits t)) <= MAX_SIZE ->
  Unserialize partial_tree_codec (Serialize partial_tree_codec t ++ s) =
  Ok ({| nTransactions := nTransactions t;
         vBits := vBits t ++ replicate (8 * packed (vBits t) - length (vBits t)) false;
         vHash := vHash t; fBad := false |}, s).
Proof.
  intros Hn Hh Hl Hb. destruct (pack_bits_ok (vBits t)) as [Hok Hlen]. rewrite <- Hlen in Hb.
  cbn [Serialize Unserialize partial_tree_codec]. put. put. put. by rewrite unpack_pack.
Qed.
End merkleblock_facts.

Import merkle_facts merkleblock_facts.

(** a partial Merkle tree that is built for the transactions of a block
    and some selection of them, sent to a peer and read back, yields the root
    that [ComputeMerkleRoot] gives the block, and exactly the selected
    transactions with their positions, in order.  The block has at most
    MAX_BLOCK_WEIGHT / MIN_TRANSACTION_WEIGHT transactions and no two
    siblings of its tree are equal, which the extraction refuses. *)
Theorem partial_tree_roundtrip `{Hs : HashFunctions} `{HL : !HashLaws Hs} (leaves : list uint256) (vMatch : list bool)
    (vnIndex : list Z) (s : bytes) :
  0 < Z.of_nat (length leaves) <= MAX_BLOCK_WEIGHT / MIN_TRANSACTION_WEIGHT ->
  length vMatch = length leaves -> Forall uint256_wf leaves -> distinct_siblings leaves ->
  exists t t' root mutated st,
    make_partial_tree leaves vMatch = Some t /\
    Unserialize partial_tree_codec (Serialize partial_tree_codec t ++ s) = Ok (t', s) /\
    ComputeMerkleRoot leaves = Some (root, mutated) /\
    ExtractMatches t' vnIndex = Some (root, st) /\ x_fBad st = false /\
    let positions := List.filter (fun p => nth (Z.to_nat p) vMatch false) (seqZ 0 (Z.of_nat (length leaves))) in
    x_vMatch st = (fun p => nth (Z.to_nat p) leaves uint256_null) <$> positions /\
    x_vnIndex st = vnIndex ++ positions.
Proof.
  intros Hn Hm Hwf Hd. change (MAX_BLOCK_WEIGHT / MIN_TRANSACTION_WEIGHT) with 133333 in *.
  assert (0 < Z.of_nat (length leaves) <= 2 ^ 31) as Hn31 by (pow_literals; lia).
  unfold ComputeMerkleRoot. destruct (MerkleComputation_ok leaves false (u32 (-1))) as (H & mut & br & -> & HH & _ & _); [done|done|].
  cbn [mbind option_bind].
  destruct (built_extracts leaves Hn31 vMatch Hm H Hd HH) as (t & -> & Ht & _ & Hnodes & Hlh & Hlb & Hex).
  { change (MAX_BLOCK_WEIGHT / MIN_TRANSACTION_WEIGHT) with 133333. lia. }
  pose proof (packed_bounds (vBits t)) as Hp.
  destruct (Hex (8 * packed (vBits t) - length (vBits t))%nat vnIndex) as (st & Hst & Hbad & H1 & H2).
  { fold (packed (vBits t)). replace (length (vBits t) + _ + 7)%nat with (7 + packed (vBits t) * 8)%nat by lia.
    rewrite Nat.div_add by lia. done. }
  eexists t, _, (node leaves H 0), mut, st. split; [done|]. split; [apply partial_tree_codec_app|].
  - rewrite Ht. unfold in_range. pow_literals. lia.
  - eapply Forall_impl; [exact Hnodes|]. intros x (k & i & ->). by apply node_wf.
  - unfold MAX_SIZE. lia.
  - unfold MAX_SIZE. lia.
  - rewrite Ht. split_and!; try done.
Qed.

(** The last two of three transactions. *)
Module merkleblock_example.
Export merkle_example.
Definition tree : option CPartialMerkleTree :=
  make_partial_tree (Hs := hashes) leaves [false; true; true].

Lemma leaves_distinct : distinct_siblings (Hs := hashes) leaves.
Proof.
  assert (forall k, (2 <= k)%nat -> width leaves k <= 1) as Hw.
  { induction 1 as [|k Hk IH]; [by vm_compute|]. rewrite width_S.
    apply (Z.le_trans _ ((1 + 1) / 2)); [apply Z.div_le_mono; lia|done]. }
  intros k i Hi Hk. destruct k as [|[|k]].
  - change (width leaves 0) with 3 in Hk. assert (i = 0) as -> by lia. decided.
  - change (width leaves 1) with 2 in Hk. assert (i = 0) as -> by lia. decided.
  - specialize (Hw (S (S k)) ltac:(lia)). lia.
Qed.
End merkleblock_example.

Lemma partial_tree_roundtrip_witness :
  exists t t' root mutated st,
    merkleblock_example.tree = Some t /\
    Unserialize partial_tree_codec (Serialize partial_tree_codec t ++ [7]) = Ok (t', [7]) /\
    ComputeMerkleRoot (Hs := merkle_example.hashes) merkle_example.leaves = Some (root, mutated) /\
    ExtractMatches (Hs := merkle_example.hashes) t' [] = Some (root, st) /\
    x_vMatch st = [merkle_example.word 12; merkle_example.word 13] /\ x_vnIndex st = [1; 2].
Proof.
  destruct (partial_tree_roundtrip (Hs := merkle_example.hashes) (HL := merkle_example.hash_laws) merkle_example.leaves
    [false; true; true] [] [7]) as (t & t' & root & mutated & st & H1 & H2 & H3 & H4 & _ & H5 & H6);
    [decided|done| |apply merkleblock_example.leaves_distinct|].
  - repeat (apply Forall_cons; split; [split; [apply length_le_digits|apply le_digits_ok; lia]|]). done.
  - exists t, t', root, mutated, st. split; [exact H1|]. split; [exact H2|]. split; [exact H3|]. split; [exact H4|].
    rewrite H5, H6. split; reflexivity.
Defined.

(** C31: whatever partial tree a peer sends, the extraction from it ends with
    an answer; and if the answer is the block's Merkle root, which is not
    null, then every transaction it reports is the one at the reported
    position of the block.  The tree must state the number of transactions of
    the block, which the peer can get wrong, and no other pair of hashes may
    collide with a node of the block's tree. *)
Theorem ExtractMatches_sound `{Hs : HashFunctions} `{HL : !HashLaws Hs} (leaves : list uint256) (t : CPartialMerkleTree)
    (vnIndex : list Z) :
  0 <= nTransactions t -> Forall (fun h => length h = 32%nat) (vHash t) ->
  (exists root st, ExtractMatches t vnIndex = Some (root, st)) /\
  forall root mutated st,
    nTransactions t = Z.of_nat (length leaves) -> (forall H, height leaves H -> binding leaves H) ->
    ComputeMerkleRoot leaves = Some (root, mutated) -> root <> uint256_null ->
    ExtractMatches t vnIndex = Some (root, st) ->
    exists positions, x_vnIndex st = vnIndex ++ positions /\
      Forall2 (fun txid p => 0 <= p < Z.of_nat (length leaves) /\ txid = nth (Z.to_nat p) leaves uint256_null)
        (x_vMatch st) positions.
Proof.
  intros Hpos Hh. unfold ExtractMatches.
  destruct (Z.eqb_spec (nTransactions t) 0) as [?G1|?G1].
  { split; [eauto|]. intros root mutated st _ _ _ Hr [= <- _]. done. }
  destruct (Z.gtb_spec (nTransactions t) (MAX_BLOCK_WEIGHT / MIN_TRANSACTION_WEIGHT)) as [?G2|?G2].
  { split; [eauto|]. intros root mutated st _ _ _ Hr [= <- _]. done. }
  change (MAX_BLOCK_WEIGHT / MIN_TRANSACTION_WEIGHT) with 133333 in *.
  assert (forall leaves : list uint256, nTransactions t = Z.of_nat (length leaves) ->
    exists H, height leaves H /\ (H <= 31)%nat /\ tree_height 33 (nTransactions t) 0 = Some H) as Hheight.
  { intros ls Hls. assert (0 < Z.of_nat (length ls) <= 2 ^ 31) as Hb by (pow_literals; lia).
    destruct (height_exists ls Hb) as [H HH]. exists H. split; [done|].
    pose proof (height_bound ls Hb H HH). split; [done|]. rewrite Hls. apply tree_height_ok; [done|done|lia|lia]. }
  destruct (Z.gtb_spec (Z.of_nat (length (vHash t))) (nTransactions t)) as [?G3|?G3].
  { split; [eauto|]. intros root mutated st _ _ _ Hr [= <- _]. done. }
  destruct (Nat.ltb_spec (length (vBits t)) (length (vHash t))) as [?G4|?G4].
  { split; [eauto|]. intros root mutated st _ _ _ Hr [= <- _]. done. }
  split.
  - destruct (Hheight (replicate (Z.to_nat (nTransactions t)) uint256_null)) as (H & _ & _ & ->).
    { rewrite length_replicate. lia. }
    cbn [mbind option_bind]. destruct (TraverseAndExtract t H 0 _) as [st r].
    repeat match goal with |- context [if ?b then _ else _] => destruct b end; eauto.
  - intros root mutated st Hn Hbind Hroot Hnull Hx.
    destruct (Hheight leaves Hn) as (H & HH & H31 & Hth). rewrite Hth in Hx. cbn [mbind option_bind] in Hx.
    assert (0 < Z.of_nat (length leaves) <= 2 ^ 31) as Hb by (pow_literals; lia).
    assert (root = node leaves H 0) as ->.
    { unfold ComputeMerkleRoot in Hroot.
      destruct (MerkleComputation_ok leaves false (u32 (-1))) as (H' & mut & br & Hm & HH' & _); [done|done|].
      rewrite Hm in Hroot. cbn [mbind option_bind] in Hroot. injection Hroot as <- _.
      by rewrite (height_unique leaves H' H HH' HH). }
    destruct (TraverseAndExtract t H 0 _) as [st' r] eqn:Htr.
    apply (extract_sound leaves Hb t H) in Htr as (_ & _ & ms & ixs & Hms & Hixs & Hpr); [|done|done|done|by apply Hbind|done|].
    2:{ destruct HH as [-> _]. lia. }
    destruct (x_fBad st') eqn:Hbad; [injection Hx as Hr _; by rewrite <- Hr in Hnull|].
    repeat match type of Hx with context [if ?b then _ else _] => destruct b end;
      injection Hx as Hr <-; try (by rewrite <- Hr in Hnull).
    exists ixs. split; [done|]. rewrite Hms. cbn [x_vMatch app]. by apply Hpr.
Qed.

(** What the receiver reports of the tree of the example. *)
Lemma ExtractMatches_sound_witness :
  exists t st, merkleblock_example.tree = Some t /\
    ExtractMatches (Hs := merkle_example.hashes) t [] = Some (merkle_example.word 31, st) /\
    exists positions, x_vnIndex st = positions /\
      Forall2 (fun txid p => 0 <= p < 3 /\ txid = nth (Z.to_nat p) merkle_example.leaves uint256_null)
        (x_vMatch st) positions.
Proof.
  destruct merkleblock_example.tree as [t|] eqn:Ht; [|vm_compute in Ht; discriminate Ht].
  assert (t = {| nTransactions := 3; vBits := [true; true; false; true; true; true];
                 vHash := [merkle_example.word 11; merkle_example.word 12; merkle_example.word 13]; fBad := false |}) as He.
  { vm_compute in Ht. by injection Ht as <-. }
  destruct (ExtractMatches (Hs := merkle_example.hashes) t []) as [[root st]|] eqn:Hx; [|subst t; vm_compute in Hx; discriminate Hx].
  assert (root = merkle_example.word 31) as -> by (subst t; vm_compute in Hx; by injection Hx as <- _).
  exists t, st. split; [done|]. split; [done|].
  destruct (ExtractMatches_sound (Hs := merkle_example.hashes) (HL := merkle_example.hash_laws) merkle_example.leaves t [])
    as [_ Hs]; [by subst t|subst t; repeat constructor|].
  destruct (Hs (merkle_example.word 31) false st) as (positions & Hp & Hf); [by subst t| |vm_compute; reflexivity|decided|done|].
  - intros H HH. rewrite (height_unique merkle_example.leaves H 2 HH) by (split; [reflexivity|right; reflexivity]).
    apply merkle_example.leaves_binding.
  - exists positions. split; [exact Hp|exact Hf].
Defined.
