(* ===== verification/BlockCheck.v ===== *)
(** * The checks on a block ([validation.cpp], [pow.cpp], [checkpoints.cpp])

    [CheckBlock] and its parts, the witness commitment, and the checks that
    depend on the headers before the block.  The verification of Equihash
    solutions is an interface. *)

From S2P Require Import Prelude ArithUint256 Uint256 Hash Chain Params Pow Script Interpreter Serialize Transaction.
From S2P Require Import SigHash Coins TxVerify Block Merkle.

(** [EhIsValidSolution] on the hash state that has read the first argument. *)
Class Equihash := { EhIsValidSolution : bytes -> bytes -> bool }.

(** [chain.h]. *)
Definition MAX_FUTURE_BLOCK_TIME : Z := 2 * 60 * 60.
Definition LOCKTIME_MEDIAN_TIME_PAST : Z := Z.shiftl 1 1.
(** [consensus/validation.h]. *)
Definition REJECT_CHECKPOINT : Z := 0x43.

Definition corrupt (reason : string) : tx_failure := DoS 100 REJECT_INVALID reason true.

Section checks.
Context `{Hs : HashFunctions} `{L : Layout} `{IO : cpp_int_io} `{Eh : Equihash}.

(** ** Headers *)

Definition CheckEquihashSolution (pblock : CBlockHeader) : bool :=
  EhIsValidSolution (SerializeEquihashInput pblock ++ Serialize uint256_codec (hdr_nNonce pblock)) (hdr_nSolution pblock).

Definition CheckBlockHeader (block : CBlockHeader) (params : Params) (fCheckPOW : bool) : tx_result unit :=
  check (negb (fCheckPOW && negb (CheckEquihashSolution block))) (invalid 100 "invalid-solution");;
  check (negb (fCheckPOW && negb (CheckProofOfWork (header_GetHash block) (hdr_nBits block) params)))
    (invalid 50 "high-hash").

(** [MapCheckpoints] is ordered by height; the last one known first. *)
Definition GetLastCheckpoint (mapBlockIndex : gmap uint256 ptr) (mapCheckpoints : list (Z * uint256)) : option ptr :=
  foldr (fun i found => match mapBlockIndex !! i.2 with Some p => Some p | None => found end) None
    (reverse mapCheckpoints).

Definition ContextualCheckBlockHeader (m : index_map) (mapBlockIndex : gmap uint256 ptr)
    (fCheckpointsEnabled : bool) (mapCheckpoints : list (Z * uint256)) (block : CBlockHeader) (params : Params)
    (pindexPrev : ptr) (nAdjustedTime : Z) : option (tx_result unit) :=
  prev ← m !! pindexPrev;
  let height := nHeight prev + 1 in
  required ← GetNextWorkRequired m pindexPrev block params;
  if hdr_nBits block >? required then Some (Err (invalid 100 "bad-diffbits"))
  else
    before ← (if fCheckpointsEnabled then
                match GetLastCheckpoint mapBlockIndex mapCheckpoints with
                | None => Some false
                | Some p => c ← m !! p; Some (height <? nHeight c)
                end
              else Some false);
    if (before : bool) then Some (Err (DoS 100 REJECT_CHECKPOINT "bad-fork-prior-to-checkpoint" false))
    else
      mtp ← GetMedianTimePast m pindexPrev;
      Some (check (negb (hdr_nTime block <=? mtp)) (invalid 0 "time-too-old");;
            check (negb (hdr_nTime block >? nAdjustedTime + MAX_FUTURE_BLOCK_TIME)) (invalid 0 "time-too-new")).

(** ** The miner's authorization

    [coinbase_auth] is the part of [CheckBlock] and [CheckAuthorization] that
    they write twice: the 64 bytes that follow the height and the time in the
    coinbase, checked against the hash of the coinbase outputs. *)
Definition authorization_required (tipHeight : option Z) (params : Params) : bool :=
  match tipHeight with
  | None => false
  | Some h => negb (authorizationForkHeight params <=? 0) && negb (h + 1 <? authorizationForkHeight params)
  end && IsFullyValid (authorizationKey params).

Definition coinbase_auth (coinbase : CMutableTransaction) (nHeight nTime : Z) (params : Params) : option bool :=
  txin ← vin coinbase !! O;
  let scriptSig := scriptSig txin in
  if (length scriptSig <? 65)%nat then Some false
  else
    let pc := drop (length (CScript.push_int64 [] nHeight) + length (CScript.push_int64 [] nTime)) scriptSig in
    match CScript.GetOp2 pc with
    | None => Some false
    | Some (opcode, sig, _) =>
        if negb (opcode =? 64) then Some false
        else
          let hash := CHash256 (concat (map (Serialize txout_codec) (vout coinbase))) in
          Some (Verify (authorizationKey params) hash sig)
    end.

Definition CheckAuthorization (block : CBlock) (tipHeight : option Z) (params : Params) : option bool :=
  if negb (authorization_required tipHeight params) then Some true
  else
    match vtx block with
    | coinbase :: _ =>
        if negb (IsCoinBase coinbase) then Some false
        else coinbase_auth coinbase (default 0 tipHeight + 1) (hdr_nTime block) params
    | [] => Some false
    end.

(** ** [CheckBlock] *)

Definition check_merkle_root (block : CBlock) : tx_result unit :=
  '(hashMerkleRoot2, mutated) ← match BlockMerkleRoot block with Some r => Ok r | None => Err tx_assertion end;
  check (bool_decide (hdr_hashMerkleRoot block = hashMerkleRoot2)) (corrupt "bad-txnmrklroot");;
  check (negb mutated) (corrupt "bad-txns-duplicate").

Definition check_size (block : CBlock) : tx_result unit :=
  let n := Z.of_nat (length (vtx block)) in
  let stripped := Z.of_nat (length (SerializeBlock SERIALIZE_TRANSACTION_NO_WITNESS block)) in
  check (negb ((n =? 0) || (u64 (n * WITNESS_SCALE_FACTOR) >? MAX_BLOCK_WEIGHT)
               || (u64 (stripped * WITNESS_SCALE_FACTOR) >? MAX_BLOCK_WEIGHT))) (invalid 100 "bad-blk-length").

Definition check_coinbase (block : CBlock) : tx_result unit :=
  match vtx block with
  | [] => Err (invalid 100 "bad-cb-missing")
  | coinbase :: rest =>
      check (IsCoinBase coinbase) (invalid 100 "bad-cb-missing");;
      check (forallb (fun tx : CTransaction => negb (IsCoinBase tx)) rest) (invalid 100 "bad-cb-multiple")
  end.

Definition check_auth (block : CBlock) (tipHeight : option Z) (params : Params) (fCheckPOW : bool) : tx_result unit :=
  if authorization_required tipHeight params && fCheckPOW then
    match vtx block with
    | [] => Err tx_assertion
    | coinbase :: _ =>
        match coinbase_auth coinbase (default 0 tipHeight + 1) (hdr_nTime block) params with
        | None => Err tx_assertion
        | Some ok => check ok (invalid 100 "bad-coinbase-scriptsig")
        end
    end
  else Ok ().

(** [CheckTransaction(tx, state, false)] on every transaction: a failure
    keeps its level, code and reason. *)
Fixpoint check_transactions (vtx : list CTransaction) : tx_result unit :=
  match vtx with
  | [] => Ok ()
  | tx :: vtx => CheckTransaction tx false;; check_transactions vtx
  end.

Definition legacy_sigops (vtx : list CTransaction) : Z :=
  foldl (fun nSigOps (tx : CTransaction) => u32 (nSigOps + GetLegacySigOpCount tx)) 0 vtx.

(** The block with the flag [fChecked] as it is left. *)
Definition CheckBlock (block : CBlock) (tipHeight : option Z) (params : Params) (fCheckPOW fCheckMerkleRoot : bool)
    : tx_result CBlock :=
  if fChecked block then Ok block
  else
    CheckBlockHeader block params fCheckPOW;;
    (if fCheckMerkleRoot then check_merkle_root block else Ok ());;
    check_size block;;
    check_coinbase block;;
    check_auth block tipHeight params fCheckPOW;;
    check_transactions (vtx block);;
    check (negb (u32 (legacy_sigops (vtx block) * WITNESS_SCALE_FACTOR) >? MAX_BLOCK_SIGOPS_COST))
      (invalid 100 "bad-blk-sigops");;
    Ok {| header := header block; vtx := vtx block;
          fChecked := if fCheckPOW && fCheckMerkleRoot then true else fChecked block |}.

(** ** Witness commitments *)

Definition IsWitnessEnabled : bool := true.

Definition commitment_header : bytes := [OP_RETURN; 0x24; 0xaa; 0x21; 0xa9; 0xed].

Definition is_commitment (out : CTxOut) : bool :=
  (38 <=? length (scriptPubKey out))%nat && bool_decide (take 6 (scriptPubKey out) = commitment_header).

(** The last output that is a commitment, -1 if there is none. *)
Fixpoint commitment_loop (vout : list CTxOut) (o commitpos : Z) : Z :=
  match vout with
  | [] => commitpos
  | out :: vout => commitment_loop vout (o + 1) (if is_commitment out then o else commitpos)
  end.
Definition GetWitnessCommitmentIndex (block : CBlock) : Z :=
  match vtx block with
  | [] => -1
  | coinbase :: _ => commitment_loop (vout coinbase) 0 (-1)
  end.

Definition set_first_witness (w : CScriptWitness) (tx : CMutableTransaction) : option CMutableTransaction :=
  match vin tx with
  | [] => None
  | i :: vin => Some {| vin := with_witness w i :: vin; vout := vout tx;
                        tx_nVersion := tx_nVersion tx; tx_nLockTime := tx_nLockTime tx |}
  end.

Definition with_coinbase (tx : CTransaction) (block : CBlock) : CBlock :=
  {| header := header block; vtx := tx :: drop 1 (vtx block); fChecked := fChecked block |}.

(** [None] is an access to a transaction or an input that is not there. *)
Definition UpdateUncommittedBlockStructures (block : CBlock) : option CBlock :=
  let commitpos := GetWitnessCommitmentIndex block in
  let nonce := replicate 32 0 in
  match vtx block with
  | coinbase :: _ =>
      if negb (commitpos =? -1) && IsWitnessEnabled && negb (HasWitness coinbase) then
        tx ← set_first_witness [nonce] coinbase;
        Some (with_coinbase (MakeTransaction tx) block)
      else Some block
  | [] => Some block
  end.

Definition commitment_script (witnessroot nonce : bytes) : bytes := commitment_header ++ Hash2 witnessroot nonce.

(** The block and the commitment added, if any. *)
Definition GenerateCoinbaseCommitment (block : CBlock) : option (CBlock * bytes) :=
  let commitpos := GetWitnessCommitmentIndex block in
  let ret := replicate 32 0 in
  '(block, commitment) ←
    (if commitpos =? -1 then
       '(witnessroot, _) ← BlockWitnessMerkleRoot block;
       coinbase ← head (vtx block);
       let coinbase := tx_data coinbase in
       let out := {| nValue := 0; scriptPubKey := commitment_script witnessroot ret |} in
       let tx := {| vin := vin coinbase; vout := vout coinbase ++ [out];
                    tx_nVersion := tx_nVersion coinbase; tx_nLockTime := tx_nLockTime coinbase |} in
       Some (with_coinbase (MakeTransaction tx) block, scriptPubKey out)
     else Some (block, []));
  block ← UpdateUncommittedBlockStructures block;
  Some (block, commitment).

(** ** [ContextualCheckBlock] *)

Definition GetBlockWeight (block : CBlock) : Z :=
  u64 (Z.of_nat (length (SerializeBlock SERIALIZE_TRANSACTION_NO_WITNESS block)) * (WITNESS_SCALE_FACTOR - 1) +
       Z.of_nat (length (SerializeBlock 0 block))).

(** Whether the block commits to its witnesses. *)
Definition check_commitment (block : CBlock) : tx_result bool :=
  let commitpos := GetWitnessCommitmentIndex block in
  if negb (commitpos =? -1) then
    '(hashWitness, _) ← match BlockWitnessMerkleRoot block with Some r => Ok r | None => Err tx_assertion end;
    match vtx block with
    | [] => Err tx_assertion
    | coinbase :: _ =>
        match vin coinbase, vout coinbase !! Z.to_nat commitpos with
        | txin :: _, Some out =>
            match scriptWitness txin with
            | [nonce] =>
                check (length nonce =? 32)%nat (corrupt "bad-witness-nonce-size");;
                check (bool_decide (Hash2 hashWitness nonce = take 32 (drop 6 (scriptPubKey out))))
                  (corrupt "bad-witness-merkle-match");;
                Ok true
            | _ => Err (corrupt "bad-witness-nonce-size")
            end
        | _, _ => Err tx_assertion
        end
    end
  else Ok false.

Definition check_coinbase_height (block : CBlock) (nHeight : Z) : tx_result unit :=
  let expect := CScript.push_int64 [] nHeight in
  match vtx block with
  | coinbase :: _ =>
      match vin coinbase with
      | txin :: _ =>
          check (negb ((length (scriptSig txin) <? length expect)%nat
                       || negb (bool_decide (expect = take (length expect) (scriptSig txin)))))
            (invalid 100 "bad-cb-height")
      | [] => Err tx_assertion
      end
  | [] => Err tx_assertion
  end.

(** [None] is the null pointer of a block without a predecessor, which the
    median time is taken of. *)
Definition ContextualCheckBlock (m : index_map) (block : CBlock) (pindexPrev : option ptr) : option (tx_result unit) :=
  p ← pindexPrev;
  prev ← m !! p;
  let height := nHeight prev + 1 in
  let nLockTimeFlags := Z.lor 0 LOCKTIME_MEDIAN_TIME_PAST in
  mtp ← GetMedianTimePast m p;
  let nLockTimeCutoff := if has nLockTimeFlags LOCKTIME_MEDIAN_TIME_PAST then mtp else hdr_nTime block in
  Some (
    check (forallb (fun tx : CTransaction => IsFinalTx tx height nLockTimeCutoff) (vtx block))
      (invalid 10 "bad-txns-nonfinal");;
    check_coinbase_height block height;;
    fHaveWitness ← check_commitment block;
    check (fHaveWitness || forallb (fun tx : CTransaction => negb (HasWitness tx)) (vtx block))
      (corrupt "unexpected-witness");;
    check (negb (GetBlockWeight block >? MAX_BLOCK_WEIGHT)) (invalid 100 "bad-blk-weight")).
End checks.

(** ** Facts *)

Module blockcheck_facts.
Import arith_uint256 chain_facts txverify_facts.

(** *** Targets *)

(** A compact number without sign whose mantissa uses its high byte or the
    bit below the sign: what [GetCompact] returns. *)
Definition normal (c : Z) : Prop := 2 ^ 15 <= mantissa c /\ Z.testbit c 23 = false.

Lemma compact_low c : 0 <= c -> Z.testbit c 23 = false -> c mod 2 ^ 24 = mantissa c.
Proof.
  intros Hc Hs. unfold mantissa. apply Z.bits_inj'. intros i Hi.
  destruct (Z.lt_ge_cases i 24) as [H24|H24].
  - rewrite Z.mod_pow2_bits_low by done. destruct (decide (i = 23)) as [->|].
    + by rewrite Z.mod_pow2_bits_high by lia.
    + by rewrite Z.mod_pow2_bits_low by lia.
  - by rewrite !Z.mod_pow2_bits_high by lia.
Qed.

(** Comparing a compact number with a normal one compares the targets. *)
Lemma compact_value_mono a b : 0 <= a <= b -> normal b -> compact_value a <= compact_value b.
Proof.
  intros Hab [Hm Hs]. unfold compact_value. apply Z.div_le_mono; [lia|].
  assert (0 <= mantissa a < 2 ^ 23) as Ha by (apply Z.mod_pos_bound; lia).
  assert (0 <= exponent a <= exponent b) as He by (split; [apply Z.div_pos; lia|apply Z.div_le_mono; lia]).
  destruct (decide (exponent a = exponent b)) as [Heq|Hne].
  - rewrite Heq. apply Z.mul_le_mono_nonneg_r; [apply Z.pow_nonneg; lia|].
    pose proof (compact_low b ltac:(lia) Hs) as Hb. pose proof (Z.div_mod a (2 ^ 24) ltac:(lia)) as Da.
    pose proof (Z.div_mod b (2 ^ 24) ltac:(lia)) as Db. unfold exponent in Heq.
    pose proof (Z.mod_pos_bound a (2 ^ 24) ltac:(lia)).
    assert (a mod 2 ^ 24 <= mantissa b) as Hle by lia.
    rewrite <- Hb in *. assert (a mod 2 ^ 24 < 2 ^ 23) by (rewrite Hb in Hle; pose proof (Z.mod_pos_bound b (2 ^ 23) ltac:(lia)); unfold mantissa in Hle; lia).
    assert (mantissa a = a mod 2 ^ 24) as ->; [|done]. unfold mantissa.
    rewrite <- (Z.mod_small (a mod 2 ^ 24) (2 ^ 23)) by lia. symmetry.
    replace (2 ^ 24) with (2 ^ 23 * 2) by reflexivity. rewrite Z.rem_mul_r by lia.
    rewrite (Z.mul_comm (2 ^ 23)), Z.mod_add by lia. apply Z.mod_mod. lia.
  - replace (exponent b) with (exponent a + 1 + (exponent b - exponent a - 1)) by lia.
    rewrite !Z.pow_add_r by lia. assert (0 < 256 ^ exponent a) by (apply Z.pow_pos_nonneg; lia).
    assert (0 < 256 ^ (exponent b - exponent a - 1)) by (apply Z.pow_pos_nonneg; lia).
    change (256 ^ 1) with 256. assert (mantissa a <= 256 * mantissa b) by lia.
    transitivity (256 * mantissa b * 256 ^ exponent a); [nia|].
    assert (0 <= mantissa b * 256 ^ exponent a * 256) by nia. nia.
Qed.

(** *** Median times *)

Lemma past_times_total m p b n :
  index_wf m -> m !! p = Some b -> exists l, past_times m n (Some p) = Some l /\ ((0 < n)%nat -> l <> []).
Proof.
  intros Hwf. revert p b. induction n as [|n IH]; intros p b Hp; [exists []; split; [done|lia]|].
  cbn [past_times]. rewrite Hp. cbn [mbind option_bind].
  assert (exists rest, past_times m n (pprev b) = Some rest) as [rest ->].
  { destruct (pprev b) as [q|] eqn:Hq; [|destruct n; by eexists].
    destruct (wf_parent m Hwf p b q Hp Hq) as (c & Hc & _). destruct (IH q c Hc) as (l & -> & _). by eexists. }
  eexists. split; [done|]. done.
Qed.

Lemma GetMedianTimePast_total m p b : index_wf m -> m !! p = Some b -> is_Some (GetMedianTimePast m p).
Proof.
  intros Hwf Hp. unfold GetMedianTimePast. destruct (past_times_total m p b nMedianTimeSpan Hwf Hp) as (l & -> & Hl).
  cbn [mbind option_bind]. apply lookup_lt_is_Some. rewrite (Permutation_length (merge_sort_Permutation _ l)).
  specialize (Hl ltac:(unfold nMedianTimeSpan; lia)). destruct l as [|x l]; [done|]. apply Nat.lt_div2. cbn. lia.
Qed.

(** *** Headers *)

Section header.
Context `{Hs : HashFunctions} `{HL : !HashLaws Hs} `{L : Layout} `{IO : cpp_int_io} `{Eh : Equihash}.

(** The last known checkpoint, if there is one and it is looked at, is not
    above the new block. *)
Definition past_checkpoint (m : index_map) (mapBlockIndex : gmap uint256 ptr) (enabled : bool)
    (checkpoints : list (Z * uint256)) (height : Z) : Prop :=
  enabled = true -> forall q c, GetLastCheckpoint mapBlockIndex checkpoints = Some q -> m !! q = Some c -> nHeight c <= height.

Lemma ContextualCheckBlockHeader_ok m mapBlockIndex enabled checkpoints block params p prev required mtp now :
  m !! p = Some prev -> GetNextWorkRequired m p block params = Some required -> GetMedianTimePast m p = Some mtp ->
  (forall h q, mapBlockIndex !! h = Some q -> is_Some (m !! q)) ->
  exists r, ContextualCheckBlockHeader m mapBlockIndex enabled checkpoints block params p now = Some r /\
    (r = Ok () <-> hdr_nBits block <= required /\
       past_checkpoint m mapBlockIndex enabled checkpoints (nHeight prev + 1) /\
       mtp < hdr_nTime block <= now + MAX_FUTURE_BLOCK_TIME).
Proof.
  intros Hp Hreq Hmtp Hmap. unfold ContextualCheckBlockHeader. rewrite Hp. cbn [mbind option_bind]. rewrite Hreq.
  cbn [mbind option_bind]. rewrite Z.gtb_ltb. destruct (Z.ltb_spec required (hdr_nBits block)) as [Hlt|Hle].
  { eexists. split; [done|]. split; [done|lia]. }
  assert (exists before, (if enabled then match GetLastCheckpoint mapBlockIndex checkpoints with
      | None => Some false | Some q => c ← m !! q; Some (nHeight prev + 1 <? nHeight c) end else Some false) = Some before /\
    (before = false <-> past_checkpoint m mapBlockIndex enabled checkpoints (nHeight prev + 1))) as (before & -> & Hb).
  { unfold past_checkpoint. destruct enabled; [|by exists false].
    destruct (GetLastCheckpoint mapBlockIndex checkpoints) as [q|] eqn:Hq; [|by exists false].
    assert (is_Some (m !! q)) as [c Hc].
    { unfold GetLastCheckpoint in Hq. induction (reverse checkpoints) as [|x l IH]; [done|]. cbn [foldr] in Hq.
      destruct (mapBlockIndex !! x.2) eqn:Hx; [injection Hq as <-; by eapply Hmap|by apply IH]. }
    rewrite Hc. cbn [mbind option_bind]. eexists. split; [done|]. rewrite Z.ltb_ge. split; [|by eauto].
    intros Hle' _ q' c' [= <-] Hc'. congruence. }
  cbn [mbind option_bind]. destruct before.
  { eexists. split; [done|]. split; [done|]. intros (_ & H & _). by apply Hb in H. }
  rewrite Hmtp. cbn [mbind option_bind]. eexists. split; [done|].
  assert (past_checkpoint m mapBlockIndex enabled checkpoints (nHeight prev + 1)) by by apply Hb.
  rewrite Z.gtb_ltb. split.
  - intros H0. apply bind_Ok in H0 as (? & H1%check_Ok & H2%check_Ok). rewrite negb_true_iff in H1, H2.
    apply Z.leb_gt in H1. apply Z.ltb_ge in H2. done.
  - intros (_ & _ & H1 & H2). rewrite (proj2 (Z.leb_gt _ _)), (proj2 (Z.ltb_ge _ _)) by lia. done.
Qed.

Lemma header_hash_wf h : uint256_wf (header_GetHash h).
Proof. split; [apply length_Hash256|apply bytes_Hash256]. Qed.

Lemma CheckBlockHeader_pow block params :
  uint256_wf (powLimit params) -> in_range 32 (hdr_nBits block) ->
  CheckBlockHeader block params true = Ok () ->
  CheckEquihashSolution block = true /\
  exists t, target_of (hdr_nBits block) = Some t /\ t <= le_val 8 (powLimit params) /\ le_val 8 (header_GetHash block) <= t.
Proof.
  intros Hl Hb H. unfold CheckBlockHeader in H. apply bind_Ok in H as (? & H1%check_Ok & H2%check_Ok).
  cbn [andb] in H1, H2. rewrite negb_involutive in H1, H2. split; [done|].
  rewrite pow_facts.CheckProofOfWork_spec in H2 by (apply header_hash_wf || done).
  destruct (target_of (hdr_nBits block)) as [t|]; [|done]. apply andb_true_iff in H2 as [H2 H3].
  apply Z.leb_le in H2, H3. by exists t.
Qed.

Lemma target_of_value c t : target_of c = Some t -> t = compact_value c.
Proof. unfold target_of. case_match; [done|]. by intros [= <-]. Qed.
End header.

(** *** Witness commitments *)

Section witness.
Context `{Hs : HashFunctions} `{HL : !HashLaws Hs} `{L : Layout}.

Lemma commitment_loop_spec vout o pos :
  (commitment_loop vout o pos = pos /\ Forall (fun out => is_commitment out = false) vout) \/
  exists i out, commitment_loop vout o pos = o + Z.of_nat i /\ vout !! i = Some out /\ is_commitment out = true.
Proof.
  revert o pos. induction vout as [|out vout IH]; intros o pos; cbn [commitment_loop]; [by left|].
  destruct (IH (o + 1) (if is_commitment out then o else pos)) as [[-> Hf]|(i & out' & -> & Hi & Hc)].
  - destruct (is_commitment out) eqn:Hc; [|by left; split; [|constructor]].
    right. exists 0%nat, out. split; [lia|done].
  - right. exists (S i), out'. split; [lia|done].
Qed.

Lemma commitment_loop_last vout out o pos :
  is_commitment out = true -> commitment_loop (vout ++ [out]) o pos = o + Z.of_nat (length vout).
Proof.
  intros Hc. revert o pos. induction vout as [|x vout IH]; intros o pos; cbn [app commitment_loop length].
  - rewrite Hc. lia.
  - rewrite IH. lia.
Qed.

(** The block carries a commitment to the witness root and a nonce. *)
Definition commits (block : CBlock) (root : uint256) : Prop :=
  exists cb rest i l nonce out,
    vtx block = cb :: rest /\ vin cb = i :: l /\ scriptWitness i = [nonce] /\ length nonce = 32%nat /\
    0 <= GetWitnessCommitmentIndex block /\ vout cb !! Z.to_nat (GetWitnessCommitmentIndex block) = Some out /\
    take 38 (scriptPubKey out) = commitment_script root nonce.

Lemma is_commitment_script root nonce : length (Hash2 root nonce) = 32%nat ->
  is_commitment {| nValue := 0; scriptPubKey := commitment_script root nonce |} = true.
Proof.
  intros Hl. unfold is_commitment, commitment_script. cbn [scriptPubKey]. rewrite length_app, Hl. cbn [length commitment_header Nat.add Nat.leb andb].
  by rewrite take_app_length' by done.
Qed.

Lemma commitment_parts (s : bytes) root nonce :
  length (Hash2 root nonce) = 32%nat -> (38 <=? length s)%nat && bool_decide (take 6 s = commitment_header) = true ->
  Hash2 root nonce = take 32 (drop 6 s) <-> take 38 s = commitment_script root nonce.
Proof.
  intros Hl [_ Hh%bool_decide_eq_true]%andb_true_iff. unfold commitment_script.
  replace (take 38 s) with (take 6 s ++ take 32 (drop 6 s)).
  - rewrite Hh. split; [by intros ->|]. intros H. by apply app_inv_head in H.
  - rewrite take_drop_commute. cbn [Nat.add]. replace (take 6 s) with (take 6 (take 38 s)) by by rewrite take_take. by rewrite take_drop.
Qed.

(** [check_commitment] on a block whose first transaction has an input. *)
Lemma check_commitment_ok (block : CBlock) (cb : CTransaction) rest i l root mut :
  vtx block = cb :: rest -> vin cb = i :: l -> BlockWitnessMerkleRoot block = Some (root, mut) ->
  check_commitment block = Ok true /\ commits block root \/
  check_commitment block = Ok false /\ Forall (fun out => is_commitment out = false) (vout cb) \/
  exists reason, check_commitment block = Err (corrupt reason) /\ ~ commits block root /\
    ~ Forall (fun out => is_commitment out = false) (vout cb).
Proof.
  intros Hv Hi Hr. unfold check_commitment, commits. rewrite Hr, Hv. unfold GetWitnessCommitmentIndex. rewrite Hv.
  destruct (commitment_loop_spec (vout cb) 0 (-1)) as [[-> Hf]|(k & out & -> & Hk & Hc)].
  { right; left. done. }
  rewrite Z.add_0_l. rewrite (proj2 (Z.eqb_neq _ _)) by lia. cbn [negb mbind result_bind]. rewrite Nat2Z.id, Hk, Hi.
  assert (~ Forall (fun out => is_commitment out = false) (vout cb)) as Hnf.
  { intros Hf. rewrite Forall_lookup in Hf. specialize (Hf _ _ Hk). congruence. }
  assert (forall nonce, (length nonce = 32%nat /\ take 38 (scriptPubKey out) = commitment_script root nonce <->
    length nonce = 32%nat /\ Hash2 root nonce = take 32 (drop 6 (scriptPubKey out)))) as Hiff.
  { intros nonce. rewrite commitment_parts; [done|apply length_Hash256|exact Hc]. }
  destruct (scriptWitness i) as [|nonce [|? ?]] eqn:Hw.
  - right; right. eexists. split; [done|]. split; [|done].
    intros (cb' & rest' & i' & l' & nonce' & out' & [= <- <-] & Hi' & Hw' & _). rewrite Hi in Hi'. injection Hi' as <- <-. congruence.
  - assert ((exists cb' rest' i' l' nonce' out', cb :: rest = cb' :: rest' /\ vin cb' = i' :: l' /\
      scriptWitness i' = [nonce'] /\ length nonce' = 32%nat /\ 0 <= Z.of_nat k /\ vout cb' !! k = Some out' /\
      take 38 (scriptPubKey out') = commitment_script root nonce') <->
      length nonce = 32%nat /\ Hash2 root nonce = take 32 (drop 6 (scriptPubKey out))) as Hcom.
    { rewrite <- Hiff. split.
      - intros (cb' & rest' & i' & l' & nonce' & out' & [= <- <-] & Hi' & Hw' & Hn & _ & Hk' & Ht).
        rewrite Hi in Hi'. injection Hi' as <- <-. rewrite Hw in Hw'. injection Hw' as <-. rewrite Hk in Hk'.
        injection Hk' as <-. done.
      - intros [Hn Ht]. exists cb, rest, i, l, nonce, out. split_and!; try done. lia. }
    destruct (Nat.eqb_spec (length nonce) 32) as [Hn|Hn]; cbn [check mbind result_bind].
    + destruct (bool_decide (Hash2 root nonce = take 32 (drop 6 (scriptPubKey out)))) eqn:Hh; cbn [check mbind result_bind].
      * left. split; [done|]. apply Hcom. by apply bool_decide_eq_true in Hh.
      * right; right. eexists. split; [done|]. split; [|done]. rewrite Hcom. apply bool_decide_eq_false in Hh. by intros [_ ?].
    + right; right. eexists. split; [done|]. split; [|done]. rewrite Hcom. by intros [? _].
  - right; right. eexists. split; [done|]. split; [|done].
    intros (cb' & rest' & i' & l' & nonce' & out' & [= <- <-] & Hi' & Hw' & _). rewrite Hi in Hi'. injection Hi' as <- <-. congruence.
Qed.

Lemma BlockWitnessMerkleRoot_total (block : CBlock) :
  0 < Z.of_nat (length (vtx block)) <= 2 ^ 31 -> is_Some (BlockWitnessMerkleRoot block).
Proof.
  intros Hn. unfold BlockWitnessMerkleRoot. destruct (vtx block) as [|cb rest]; [cbn in Hn; lia|].
  unfold ComputeMerkleRoot.
  destruct (merkle_facts.MerkleComputation_ok (uint256_null :: (GetWitnessHash <$> rest)) false (u32 (-1)))
    as (H & mut & branch & -> & _); [|done|by eexists].
  cbn [length] in *. rewrite length_fmap. lia.
Qed.

(** What [GenerateCoinbaseCommitment] makes of a coinbase. *)
Definition committed_coinbase (cb : CMutableTransaction) (i : CTxIn) (l : list CTxIn) (root : uint256) : CTransaction :=
  let nonce := replicate 32 0 in
  MakeTransaction {| vin := with_witness [nonce] i :: l;
    vout := vout cb ++ [{| nValue := 0; scriptPubKey := commitment_script root nonce |}];
    tx_nVersion := tx_nVersion cb; tx_nLockTime := tx_nLockTime cb |}.

Lemma GenerateCoinbaseCommitment_ok (block : CBlock) (cb : CTransaction) rest i l root mut :
  vtx block = cb :: rest -> vin cb = i :: l -> HasWitness cb = false ->
  GetWitnessCommitmentIndex block = -1 -> BlockWitnessMerkleRoot block = Some (root, mut) ->
  GenerateCoinbaseCommitment block =
    Some ({| header := header block; vtx := committed_coinbase cb i l root :: rest; fChecked := fChecked block |},
          commitment_script root (replicate 32 0)).
Proof.
  intros Hv Hi Hw Hidx Hr. unfold GenerateCoinbaseCommitment. rewrite Hidx, Z.eqb_refl, Hr, Hv.
  cbn [mbind option_bind head scriptPubKey]. unfold UpdateUncommittedBlockStructures, with_coinbase.
  cbn [vtx drop header fChecked]. rewrite Hv. cbn [drop GetWitnessCommitmentIndex vtx MakeTransaction tx_data vout].
  unfold GetWitnessCommitmentIndex. cbn [vtx tx_data vout MakeTransaction].
  rewrite commitment_loop_last by (apply is_commitment_script, length_Hash256).
  rewrite (proj2 (Z.eqb_neq _ _)) by lia. cbn [negb IsWitnessEnabled andb].
  unfold HasWitness in *. cbn [vin]. rewrite Hw. cbn [negb set_first_witness vin]. rewrite Hi.
  cbn [mbind option_bind]. done.
Qed.

Lemma committed_commits (block : CBlock) (cb : CTransaction) rest i l root mut :
  vtx block = cb :: rest -> BlockWitnessMerkleRoot block = Some (root, mut) ->
  let block' := {| header := header block; vtx := committed_coinbase cb i l root :: rest; fChecked := fChecked block |} in
  BlockWitnessMerkleRoot block' = Some (root, mut) /\ check_commitment block' = Ok true /\ commits block' root.
Proof.
  intros Hv Hr. cbn zeta. set (block' := {| header := _; vtx := _; fChecked := _ |}).
  assert (BlockWitnessMerkleRoot block' = Some (root, mut)) as Hr' by (rewrite <- Hr; unfold BlockWitnessMerkleRoot; by rewrite Hv).
  split; [done|].
  set (out := {| nValue := 0; scriptPubKey := commitment_script root (replicate 32 0) |}).
  assert (is_commitment out = true) as Hc by (apply is_commitment_script, length_Hash256).
  assert (commits block' root) as Hcom.
  { assert (GetWitnessCommitmentIndex block' = Z.of_nat (length (vout cb))) as Hidx.
    { unfold GetWitnessCommitmentIndex. cbn [vtx block' committed_coinbase MakeTransaction tx_data vout].
      rewrite commitment_loop_last by done. lia. }
    exists (committed_coinbase cb i l root), rest, (with_witness [replicate 32 0] i), l, (replicate 32 0), out.
    split_and!; try done; [rewrite Hidx; lia| |].
    - rewrite Hidx, Nat2Z.id. cbn [committed_coinbase MakeTransaction tx_data vout]. by apply list_lookup_middle.
    - apply take_ge. cbn [out scriptPubKey]. unfold commitment_script, Hash2. rewrite length_app, length_Hash256. done. }
  split; [|done].
  destruct (check_commitment_ok block' _ rest _ l root mut eq_refl eq_refl Hr') as [[? _]|[[_ Hf]|(? & _ & Hn & _)]]; [done| |done].
  exfalso. cbn [committed_coinbase MakeTransaction tx_data vout] in Hf. apply Forall_app in Hf as [_ Hf].
  apply Forall_cons_1 in Hf as [Hf _]. change (is_commitment out = false) in Hf. congruence.
Qed.

(** *** [ContextualCheckBlock] *)

Definition block_rules (block : CBlock) (cb : CTransaction) (i : CTxIn) (root : uint256) (height mtp : Z) : Prop :=
  Forall (fun tx : CTransaction => IsFinalTx tx height mtp = true) (vtx block) /\
  CScript.push_int64 [] height `prefix_of` scriptSig i /\
  (commits block root \/ Forall (fun out => is_commitment out = false) (vout cb) /\
     Forall (fun tx : CTransaction => HasWitness tx = false) (vtx block)) /\
  GetBlockWeight block <= MAX_BLOCK_WEIGHT.

Lemma check_coinbase_height_ok (block : CBlock) (cb : CTransaction) rest i l height :
  vtx block = cb :: rest -> vin cb = i :: l ->
  check_coinbase_height block height = Ok () <-> CScript.push_int64 [] height `prefix_of` scriptSig i.
Proof.
  intros Hv Hi. unfold check_coinbase_height. rewrite Hv, Hi, check_Ok, negb_true_iff, orb_false_iff, negb_false_iff.
  rewrite Nat.ltb_ge, bool_decide_eq_true. set (e := CScript.push_int64 [] height). split.
  - intros [_ H]. exists (drop (length e) (scriptSig i)). rewrite H at 1. by rewrite take_drop.
  - intros [k Hk]. rewrite Hk. split; [rewrite length_app; lia|]. by rewrite take_app_length.
Qed.

Lemma forallb_Forall {A} (f : A -> bool) l : forallb f l = true <-> Forall (fun x => f x = true) l.
Proof. rewrite forallb_forall, Forall_forall. by setoid_rewrite list_elem_of_In. Qed.

Lemma no_assertion_bind {A B} (x : tx_result A) (f : A -> tx_result B) :
  x <> Err tx_assertion -> (forall a, x = Ok a -> f a <> Err tx_assertion) -> x ≫= f <> Err tx_assertion.
Proof. destruct x; cbn; [by intros _ H; apply H|congruence]. Qed.
Lemma no_assertion_check b e : e <> tx_assertion -> (check b e : tx_result unit) <> Err tx_assertion.
Proof. destruct b; cbn; congruence. Qed.

Lemma ContextualCheckBlock_ok m (block : CBlock) (cb : CTransaction) rest i l p prev mtp root mut :
  vtx block = cb :: rest -> vin cb = i :: l -> BlockWitnessMerkleRoot block = Some (root, mut) ->
  m !! p = Some prev -> GetMedianTimePast m p = Some mtp ->
  exists r, ContextualCheckBlock m block (Some p) = Some r /\ r <> Err tx_assertion /\
    (r = Ok () <-> block_rules block cb i root (nHeight prev + 1) mtp).
Proof.
  intros Hv Hi Hr Hp Hmtp. unfold ContextualCheckBlock. cbn [mbind option_bind]. rewrite Hp. cbn [mbind option_bind].
  rewrite Hmtp. cbn [mbind option_bind]. eexists. split; [done|]. split.
  { repeat (apply no_assertion_bind; [|intros ? _]); try by apply no_assertion_check.
    - unfold check_coinbase_height. rewrite Hv, Hi. by apply no_assertion_check.
    - by destruct (check_commitment_ok block cb rest i l root mut Hv Hi Hr) as [[-> _]|[[-> _]|(? & -> & _)]]. }
  change (has (Z.lor 0 LOCKTIME_MEDIAN_TIME_PAST) LOCKTIME_MEDIAN_TIME_PAST) with true. cbn iota.
  unfold block_rules. rewrite <- (check_coinbase_height_ok block cb rest i l (nHeight prev + 1) Hv Hi).
  rewrite <- forallb_Forall. pose proof (forallb_Forall_false (fun tx : CTransaction => HasWitness tx) (vtx block)) as Hnw.
  pose proof (check_commitment_ok block cb rest i l root mut Hv Hi Hr) as Hcc. split.
  - intros H. apply bind_Ok in H as (? & H1%check_Ok & H). apply bind_Ok in H as ([] & H2 & H).
    apply bind_Ok in H as (fh & H3 & H). apply bind_Ok in H as (? & H4%check_Ok & H5%check_Ok).
    rewrite negb_true_iff, Z.gtb_ltb, Z.ltb_ge in H5. split; [done|]. split; [done|]. split; [|done].
    rewrite H3 in Hcc. destruct Hcc as [[[= ->] Hc]|[[[= ->] Hf]|(? & [=] & _)]]; [by left|right].
    split; [done|]. cbn [orb] in H4. by apply Hnw.
  - intros (H1 & H2 & H3 & H4). rewrite H1, H2. cbn [check mbind result_bind].
    assert (negb (GetBlockWeight block >? MAX_BLOCK_WEIGHT) = true) as ->.
    { rewrite Z.gtb_ltb, negb_true_iff. by apply Z.ltb_ge. }
    destruct H3 as [H3|[H3 H3']].
    + destruct Hcc as [[-> _]|[[_ Hf]|(? & _ & Hn & _)]]; [done| |done]. exfalso.
      destruct H3 as (cb' & rest' & i' & l' & nonce & out & Hv' & _ & _ & _ & Hidx & Hk & _).
      unfold GetWitnessCommitmentIndex in Hidx. rewrite Hv in *. 
      destruct (commitment_loop_spec (vout cb) 0 (-1)) as [[He _]|(k & o & _ & Hk' & Hc')]; [lia|].
      rewrite Forall_lookup in Hf. specialize (Hf _ _ Hk'). congruence.
    + destruct Hcc as [[_ Hc]|[[-> _]|(? & _ & _ & Hn)]]; [| |done].
      * exfalso. destruct Hc as (cb' & rest' & i' & l' & nonce & out & Hv' & _ & _ & _ & Hidx & _).
        unfold GetWitnessCommitmentIndex in Hidx. rewrite Hv in *.
        destruct (commitment_loop_spec (vout cb) 0 (-1)) as [[He _]|(k & o & _ & Hk' & Hc')]; [lia|].
        rewrite Forall_lookup in H3. specialize (H3 _ _ Hk'). congruence.
      * cbn [mbind result_bind orb]. by rewrite (proj2 Hnw H3').
Qed.
End witness.
End blockcheck_facts.

(** ** An example *)

Module blockcheck_example.
Export pow_example transaction_example.
#[export] Instance hashes : HashFunctions := interpreter_example.hashes.
#[export] Instance hash_laws : HashLaws hashes := interpreter_example.hash_laws.
#[export] Instance equihash : Equihash := {| EhIsValidSolution _ _ := true |}.

Definition header : CBlockHeader := chain_example.header 2000 (le_digits 8 32 4).
Definition coinbase : CTransaction := MakeTransaction {|
  vin := [{| prevout := COutPoint_null; scriptSig := [OP_3; OP_0]; nSequence := SEQUENCE_FINAL; scriptWitness := [] |}];
  vout := [{| nValue := 7; scriptPubKey := [OP_1] |}]; tx_nVersion := 1; tx_nLockTime := 0 |}.
(** A block with a transaction that has a witness. *)
Definition block : CBlock := {| Block.header := header; vtx := [coinbase; MakeTransaction tx]; fChecked := false |}.
End blockcheck_example.
Import blockcheck_facts.

(** ** Properties *)

(** C20: The rules for a new header.  On a well-formed index
    [ContextualCheckBlockHeader] always decides, and it accepts exactly the
    headers whose [nBits] is, as a number, not above what
    [GetNextWorkRequired] asks, that are not below the last known checkpoint,
    and whose time is after the median of the last eleven blocks and at most
    two hours ahead.  With the proof of work checked, the hash of an accepted
    header is not above the limit, and if what [GetNextWorkRequired] asks is a
    compact number as [GetCompact] makes them ([normal]: the mantissa uses its
    high byte or the bit below the sign, and the sign bit is clear), the
    comparison of the numbers is one of targets: the hash is not above the
    target required.  For other numbers it is not
    ([easier_target_accepted]). *)
Theorem ContextualCheckBlockHeader_correct `{Hs : HashFunctions} `{HL : !HashLaws Hs} `{IO : cpp_int_io}
    `{IOL : !cpp_int_io_laws} `{Eh : Equihash} (m : index_map) (mapBlockIndex : gmap uint256 ptr) (fCheckpointsEnabled : bool)
    (mapCheckpoints : list (Z * uint256)) (block : CBlockHeader) (params : Params) (p : ptr) (prev : CBlockIndex)
    (nAdjustedTime : Z) :
  index_wf m -> m !! p = Some prev -> pow_facts.params_ok params ->
  (forall q c, m !! q = Some c -> in_range 32 (nBits c)) -> (forall h q, mapBlockIndex !! h = Some q -> is_Some (m !! q)) ->
  in_range 32 (hdr_nBits block) ->
  exists required mtp r,
    GetNextWorkRequired m p block params = Some required /\ GetMedianTimePast m p = Some mtp /\
    ContextualCheckBlockHeader m mapBlockIndex fCheckpointsEnabled mapCheckpoints block params p nAdjustedTime = Some r /\
    (r = Ok () <-> hdr_nBits block <= required /\
       past_checkpoint m mapBlockIndex fCheckpointsEnabled mapCheckpoints (nHeight prev + 1) /\
       mtp < hdr_nTime block <= nAdjustedTime + MAX_FUTURE_BLOCK_TIME) /\
    (r = Ok () -> CheckBlockHeader block params true = Ok () ->
       CheckEquihashSolution block = true /\ le_val 8 (header_GetHash block) <= le_val 8 (powLimit params) /\
       (normal required -> le_val 8 (header_GetHash block) <= arith_uint256.compact_value required)).
Proof.
  intros Hwf Hp Hok Hbits Hmap Hb.
  destruct (GetNextWorkRequired_spec m p prev block params Hwf Hp Hok Hbits) as (required & Hreq & _).
  destruct (GetMedianTimePast_total m p prev Hwf Hp) as [mtp Hmtp].
  destruct (ContextualCheckBlockHeader_ok m mapBlockIndex fCheckpointsEnabled mapCheckpoints block params p prev required
    mtp nAdjustedTime Hp Hreq Hmtp Hmap) as (r & Hr & Hiff).
  exists required, mtp, r. split_and!; try done.
  intros Hacc Hpow. destruct (proj1 Hiff Hacc) as [Hle _]. unfold in_range in Hb.
  destruct (CheckBlockHeader_pow block params (proj1 Hok) Hb Hpow) as (He & t & Ht & Hlim & Hh).
  apply target_of_value in Ht. split; [done|]. split; [lia|]. intros Hnorm.
  pose proof (compact_value_mono (hdr_nBits block) required ltac:(lia) Hnorm). lia.
Qed.

Lemma ContextualCheckBlockHeader_correct_witness :
  exists required, GetNextWorkRequired (H := pow_example.io) chain_example.index 4 blockcheck_example.header pow_example.params = Some required /\
    ContextualCheckBlockHeader (IO := pow_example.io) chain_example.index ∅ true [] blockcheck_example.header
      pow_example.params 4%positive 3000 = Some (Ok ()).
Proof.
  destruct (ContextualCheckBlockHeader_correct (Hs := blockcheck_example.hashes) (HL := blockcheck_example.hash_laws)
    (IO := pow_example.io) (IOL := pow_example.io_laws) (Eh := blockcheck_example.equihash) chain_example.index ∅ true []
    blockcheck_example.header pow_example.params 4%positive _ 3000
    chain_example.index_ok eq_refl pow_example.params_ok pow_example.bits_ok)
    as (required & mtp & r & H1 & H2 & H3 & H4 & _).
  - intros h q H. rewrite lookup_empty in H. discriminate H.
  - unfold in_range. cbn. lia.
  - exists required. split; [exact H1|]. rewrite H3. f_equal. apply H4. vm_compute in H1, H2.
    injection H1 as <-. injection H2 as <-. split; [vm_compute; discriminate|]. split; [|split; [reflexivity|vm_compute; discriminate]].
    intros _ q c H. vm_compute in H. discriminate H.
Defined.

(** The tip has a compact number whose mantissa begins with a zero byte.  A
    header whose number is smaller is accepted although its target is eight
    times as large. *)
Lemma easier_target_accepted :
  let io := pow_example.io in
  let bits n := {| hdr_nVersion := 4; hdr_hashPrevBlock := uint256_null; hdr_hashMerkleRoot := uint256_null; hdr_nTime := 1002;
     hdr_nBits := n; hdr_nNonce := uint256_null; hdr_nSolution := [] |} in
  let tip := set_links (Some 2%positive) 2 None (CBlockIndex_of_header (le_digits 8 32 4) (bits 0x1f000fff)) in
  let m := <[4%positive := tip]> chain_example.index in
  let block := {| hdr_nVersion := 4; hdr_hashPrevBlock := le_digits 8 32 4; hdr_hashMerkleRoot := uint256_null; hdr_nTime := 2000;
     hdr_nBits := 0x1e7fffff; hdr_nNonce := uint256_null; hdr_nSolution := [] |} in
  GetNextWorkRequired (H := io) m 4 block pow_example.params = Some 0x1f000fff /\
  ContextualCheckBlockHeader (IO := io) m ∅ true [] block pow_example.params 4%positive 3000 = Some (Ok ()) /\
  7 * arith_uint256.compact_value 0x1f000fff < arith_uint256.compact_value (hdr_nBits block) <=
    le_val 8 (powLimit pow_example.params).
Proof. split; [vm_compute; reflexivity|]. split; [vm_compute; reflexivity|]. vm_compute. by split. Qed.

(** C21: The rules for a block at its place.  For a block that has a
    predecessor, and whose coinbase has an input, [ContextualCheckBlock] always
    decides: it reads nothing that is not there, such as the nonce of an empty
    witness, and fails no assertion.  It accepts exactly
    when every transaction is final at the height and the median time of the
    predecessor, the script of the coinbase begins with the height, the block
    commits to its witnesses with a nonce of 32 bytes or has no commitment
    output and no witness, and the weight is within the limit.  For a block
    without predecessor it dereferences a null pointer.  What
    [GenerateCoinbaseCommitment] adds to a block whose coinbase has no
    witness and no commitment satisfies the rule. *)
Theorem ContextualCheckBlock_correct `{Hs : HashFunctions} `{HL : !HashLaws Hs} `{L : Layout}
    (m : index_map) (block : CBlock) (cb : CTransaction) (rest : list CTransaction) (i : CTxIn) (l : list CTxIn) :
  index_wf m -> vtx block = cb :: rest -> vin cb = i :: l -> Z.of_nat (length (vtx block)) <= 2 ^ 31 ->
  ContextualCheckBlock m block None = None /\
  exists root mut, BlockWitnessMerkleRoot block = Some (root, mut) /\
    (forall p prev, m !! p = Some prev -> exists mtp r,
       GetMedianTimePast m p = Some mtp /\ ContextualCheckBlock m block (Some p) = Some r /\ r <> Err tx_assertion /\
       (r = Ok () <->
          Forall (fun tx : CTransaction => IsFinalTx tx (nHeight prev + 1) mtp = true) (vtx block) /\
          CScript.push_int64 [] (nHeight prev + 1) `prefix_of` scriptSig i /\
          (commits block root \/ Forall (fun out => is_commitment out = false) (vout cb) /\
             Forall (fun tx : CTransaction => HasWitness tx = false) (vtx block)) /\
          GetBlockWeight block <= MAX_BLOCK_WEIGHT)) /\
    (HasWitness cb = false -> GetWitnessCommitmentIndex block = -1 ->
       exists block' commitment, GenerateCoinbaseCommitment block = Some (block', commitment) /\
         length commitment = 38%nat /\ drop 1 (vtx block') = rest /\
         BlockWitnessMerkleRoot block' = Some (root, mut) /\ check_commitment block' = Ok true /\ commits block' root).
Proof.
  intros Hwf Hv Hi Hn. split; [done|].
  destruct (BlockWitnessMerkleRoot_total block) as [[root mut] Hr]; [rewrite Hv in *; cbn [length] in *; lia|].
  exists root, mut. split; [done|]. split.
  - intros p prev Hp. destruct (GetMedianTimePast_total m p prev Hwf Hp) as [mtp Hmtp].
    destruct (ContextualCheckBlock_ok m block cb rest i l p prev mtp root mut) as (r & H1 & H2 & H3); try done.
    exists mtp, r. done.
  - intros Hw Hidx. eexists _, _. split; [by eapply GenerateCoinbaseCommitment_ok|].
    split; [unfold commitment_script, Hash2; by rewrite length_app, length_Hash256|]. split; [done|].
    by eapply committed_commits.
Qed.

Import blockcheck_example.

Lemma ContextualCheckBlock_correct_witness :
  ContextualCheckBlock chain_example.index block None = None /\
  exists block' commitment, GenerateCoinbaseCommitment block = Some (block', commitment) /\ check_commitment block' = Ok true.
Proof.
  destruct (ContextualCheckBlock_correct chain_example.index block coinbase [MakeTransaction tx] _ [] chain_example.index_ok
    eq_refl eq_refl) as (H1 & root & mut & _ & _ & H2).
  - vm_compute. discriminate.
  - split; [exact H1|]. destruct (H2 eq_refl eq_refl) as (block' & c & H3 & _ & _ & _ & H4 & _).
    exists block', c. split; [exact H3|exact H4].
Defined.
