(* ===== verification/ChainState.v ===== *)
(** * The state of the best chain ([CChainState] of [validation.cpp])

    The part of [CChainState] that concerns block indexes: which blocks are
    candidates for the tip, which wait for their predecessors, which failed.
    The coins follow in [Coins] and [Validation].  [setBlockIndexCandidates]
    is an ordered set ([StdSet]) whose comparison reads the heap; a multimap is
    the list of its pairs, in the order of insertion; [g_failed_blocks] is
    ordered by address.  The display of warnings and the log are left out. *)

From S2P Require Import Prelude ArithUint256 Uint256 StdSet Chain BlockCheck.
Import base_uint arith_uint256.

(** ** Block indexes *)

(** [CBlockIndexWorkComparator]: least work first, then latest received. *)
Definition work_less (m : index_map) (pa pb : ptr) : bool :=
  match m !! pa, m !! pb with
  | Some a, Some b =>
      if gtb W (nChainWork a) (nChainWork b) then false
      else if ltb W (nChainWork a) (nChainWork b) then true
      else if nSequenceId a <? nSequenceId b then false
      else if nSequenceId a >? nSequenceId b then true
      else if (pa <? pb)%positive then false
      else if (pb <? pa)%positive then true
      else false
  | _, _ => false
  end.

(** [BLOCK_OPT_WITNESS], and [nStatus |= s]. *)
Definition BLOCK_OPT_WITNESS : Z := 128.
Definition add_status (s : Z) (b : CBlockIndex) : CBlockIndex := set_nStatus (Z.lor (nStatus b) s) b.
Definition clear_status (s : Z) (b : CBlockIndex) : CBlockIndex := set_nStatus (Z.land (nStatus b) (Z.lnot s)) b.

(** The fields that [ReceivedBlockTransactions] sets first. *)
Definition set_data (tx chaintx file pos undo status : Z) (b : CBlockIndex) : CBlockIndex := {|
  phashBlock := phashBlock b; pprev := pprev b; pskip := pskip b; nHeight := nHeight b;
  nFile := file; nDataPos := pos; nUndoPos := undo;
  nChainWork := nChainWork b; nTx := tx; nChainTx := chaintx; nStatus := status;
  nVersion := nVersion b; hashMerkleRoot := hashMerkleRoot b; nTime := nTime b;
  nBits := nBits b; nNonce := nNonce b; nSolution := nSolution b;
  nSequenceId := nSequenceId b; nTimeMax := nTimeMax b |}.

Definition set_linked (chaintx seq : Z) (b : CBlockIndex) : CBlockIndex := {|
  phashBlock := phashBlock b; pprev := pprev b; pskip := pskip b; nHeight := nHeight b;
  nFile := nFile b; nDataPos := nDataPos b; nUndoPos := nUndoPos b;
  nChainWork := nChainWork b; nTx := nTx b; nChainTx := chaintx; nStatus := nStatus b;
  nVersion := nVersion b; hashMerkleRoot := hashMerkleRoot b; nTime := nTime b;
  nBits := nBits b; nNonce := nNonce b; nSolution := nSolution b;
  nSequenceId := seq; nTimeMax := nTimeMax b |}.

(** [CDiskBlockPos]. *)
Record CDiskBlockPos := { pos_nFile : Z; pos_nPos : Z }.

(** ** The state *)

Record CChainState := {
  tree : BlockTree;
  chainActive : CChain;
  setBlockIndexCandidates : list ptr;
  mapBlocksUnlinked : list (option ptr * ptr);
  g_failed_blocks : list ptr;
  pindexBestInvalid : option ptr;
  nBlockSequenceId : Z;
  nBlockReverseSequenceId : Z;
  nLastPreciousChainwork : list Z;
  pindexBestForkTip : option ptr;
  pindexBestForkBase : option ptr;
  latchToFalse : bool;
  fLargeWorkForkFound : bool;
  fLargeWorkInvalidChainFound : bool;
}.

(** The settings and the clock, which stands still during an operation. *)
Record environment := {
  fImporting : bool;
  fReindex : bool;
  GetTime : Z;
  nMaxTipAge : Z;
  nMinimumChainWork : list Z;
}.

Definition index_of (st : CChainState) : index_map := heap (tree st).
Definition block_at (st : CChainState) (p : ptr) : option CBlockIndex := index_of st !! p.

(** *** Writing the fields *)

Definition set_tree (t : BlockTree) (st : CChainState) : CChainState := {|
  tree := t; chainActive := chainActive st; setBlockIndexCandidates := setBlockIndexCandidates st;
  mapBlocksUnlinked := mapBlocksUnlinked st; g_failed_blocks := g_failed_blocks st;
  pindexBestInvalid := pindexBestInvalid st; nBlockSequenceId := nBlockSequenceId st;
  nBlockReverseSequenceId := nBlockReverseSequenceId st; nLastPreciousChainwork := nLastPreciousChainwork st;
  pindexBestForkTip := pindexBestForkTip st; pindexBestForkBase := pindexBestForkBase st;
  latchToFalse := latchToFalse st; fLargeWorkForkFound := fLargeWorkForkFound st;
  fLargeWorkInvalidChainFound := fLargeWorkInvalidChainFound st |}.

Definition set_sets (c : CChain) (cand : list ptr) (unlinked : list (option ptr * ptr)) (failed : list ptr)
    (st : CChainState) : CChainState := {|
  tree := tree st; chainActive := c; setBlockIndexCandidates := cand;
  mapBlocksUnlinked := unlinked; g_failed_blocks := failed;
  pindexBestInvalid := pindexBestInvalid st; nBlockSequenceId := nBlockSequenceId st;
  nBlockReverseSequenceId := nBlockReverseSequenceId st; nLastPreciousChainwork := nLastPreciousChainwork st;
  pindexBestForkTip := pindexBestForkTip st; pindexBestForkBase := pindexBestForkBase st;
  latchToFalse := latchToFalse st; fLargeWorkForkFound := fLargeWorkForkFound st;
  fLargeWorkInvalidChainFound := fLargeWorkInvalidChainFound st |}.

Definition set_counters (seq rev : Z) (precious : list Z) (st : CChainState) : CChainState := {|
  tree := tree st; chainActive := chainActive st; setBlockIndexCandidates := setBlockIndexCandidates st;
  mapBlocksUnlinked := mapBlocksUnlinked st; g_failed_blocks := g_failed_blocks st;
  pindexBestInvalid := pindexBestInvalid st; nBlockSequenceId := seq;
  nBlockReverseSequenceId := rev; nLastPreciousChainwork := precious;
  pindexBestForkTip := pindexBestForkTip st; pindexBestForkBase := pindexBestForkBase st;
  latchToFalse := latchToFalse st; fLargeWorkForkFound := fLargeWorkForkFound st;
  fLargeWorkInvalidChainFound := fLargeWorkInvalidChainFound st |}.

Definition set_warnings (bad ftip fbase : option ptr) (latch ffound fbad : bool) (st : CChainState) : CChainState := {|
  tree := tree st; chainActive := chainActive st; setBlockIndexCandidates := setBlockIndexCandidates st;
  mapBlocksUnlinked := mapBlocksUnlinked st; g_failed_blocks := g_failed_blocks st;
  pindexBestInvalid := bad; nBlockSequenceId := nBlockSequenceId st;
  nBlockReverseSequenceId := nBlockReverseSequenceId st; nLastPreciousChainwork := nLastPreciousChainwork st;
  pindexBestForkTip := ftip; pindexBestForkBase := fbase;
  latchToFalse := latch; fLargeWorkForkFound := ffound; fLargeWorkInvalidChainFound := fbad |}.

Definition set_best_invalid (bad : option ptr) (st : CChainState) : CChainState :=
  set_warnings bad (pindexBestForkTip st) (pindexBestForkBase st) (latchToFalse st) (fLargeWorkForkFound st)
    (fLargeWorkInvalidChainFound st) st.
Definition set_latch (st : CChainState) : CChainState :=
  set_warnings (pindexBestInvalid st) (pindexBestForkTip st) (pindexBestForkBase st) true (fLargeWorkForkFound st)
    (fLargeWorkInvalidChainFound st) st.
Definition set_fork (ftip fbase : option ptr) (st : CChainState) : CChainState :=
  set_warnings (pindexBestInvalid st) ftip fbase (latchToFalse st) (fLargeWorkForkFound st)
    (fLargeWorkInvalidChainFound st) st.
Definition set_large_work (ffound fbad : bool) (st : CChainState) : CChainState :=
  set_warnings (pindexBestInvalid st) (pindexBestForkTip st) (pindexBestForkBase st) (latchToFalse st) ffound fbad st.

Definition set_chain (c : CChain) (st : CChainState) : CChainState :=
  set_sets c (setBlockIndexCandidates st) (mapBlocksUnlinked st) (g_failed_blocks st) st.
Definition set_candidates (cand : list ptr) (st : CChainState) : CChainState :=
  set_sets (chainActive st) cand (mapBlocksUnlinked st) (g_failed_blocks st) st.
Definition set_unlinked (u : list (option ptr * ptr)) (st : CChainState) : CChainState :=
  set_sets (chainActive st) (setBlockIndexCandidates st) u (g_failed_blocks st) st.
Definition set_failed (f : list ptr) (st : CChainState) : CChainState :=
  set_sets (chainActive st) (setBlockIndexCandidates st) (mapBlocksUnlinked st) f st.

Definition set_heap (hp : index_map) (st : CChainState) : CChainState :=
  set_tree {| heap := hp; mapBlockIndex := mapBlockIndex (tree st);
              pindexBestHeader := pindexBestHeader (tree st);
              setDirtyBlockIndex := setDirtyBlockIndex (tree st) |} st.

(** Writing to the object that [p] points to, and the sets. *)
Definition update (p : ptr) (f : CBlockIndex -> CBlockIndex) (st : CChainState) : CChainState :=
  set_heap (alter f p (index_of st)) st.
Definition dirty (p : ptr) (st : CChainState) : CChainState :=
  set_tree {| heap := heap (tree st); mapBlockIndex := mapBlockIndex (tree st);
              pindexBestHeader := pindexBestHeader (tree st);
              setDirtyBlockIndex := {[p]} ∪ setDirtyBlockIndex (tree st) |} st.
Definition insert_candidate (p : ptr) (st : CChainState) : CChainState :=
  set_candidates (set_insert (work_less (index_of st)) p (setBlockIndexCandidates st)) st.
Definition erase_candidate (p : ptr) (st : CChainState) : CChainState :=
  set_candidates (set_erase (work_less (index_of st)) p (setBlockIndexCandidates st)) st.
Definition insert_failed (p : ptr) (st : CChainState) : CChainState :=
  set_failed (set_insert Pos.ltb p (g_failed_blocks st)) st.
Definition erase_failed (p : ptr) (st : CChainState) : CChainState :=
  set_failed (set_erase Pos.ltb p (g_failed_blocks st)) st.

(** [nStatus & BLOCK_FAILED_MASK] and [nStatus & BLOCK_HAVE_DATA]. *)
Definition failed (b : CBlockIndex) : bool := negb (Z.land (nStatus b) BLOCK_FAILED_MASK =? 0).
Definition have_data (b : CBlockIndex) : bool := negb (Z.land (nStatus b) BLOCK_HAVE_DATA =? 0).

(** ** Warnings about forks *)

Definition IsInitialBlockDownload (env : environment) (st : CChainState) : option (CChainState * bool) :=
  if latchToFalse st then Some (st, false)
  else if fImporting env || fReindex env then Some (st, true)
  else
    match Tip (chainActive st) with
    | None => Some (st, true)
    | Some t =>
        b ← block_at st t;
        if ltb W (nChainWork b) (nMinimumChainWork env) then Some (st, true)
        else if GetBlockTime b <? GetTime env - nMaxTipAge env then Some (st, true)
        else Some (set_latch st, false)
    end.

(** A null pointer passes, and a work that exceeds that of the block it points to. *)
Definition more_work_than (st : CChainState) (b : CBlockIndex) (q : option ptr) : option bool :=
  match q with
  | None => Some true
  | Some q => c ← block_at st q; Some (gtb W (nChainWork b) (nChainWork c))
  end.

Definition CheckForkWarningConditions (env : environment) (st : CChainState) : option CChainState :=
  '(st, ibd) ← IsInitialBlockDownload env st;
  if (ibd : bool) then Some st
  else
    tip ← match pindexBestForkTip st with
          | None => Some None
          | Some f => b ← block_at st f;
                      Some (if Height (chainActive st) - nHeight b >=? 72 then None else Some f)
          end;
    let st := set_fork tip (pindexBestForkBase st) st in
    warn ← match tip, pindexBestInvalid st with
           | Some _, _ => Some true
           | None, None => Some false
           | None, Some bad =>
               bb ← block_at st bad;
               t ← Tip (chainActive st); bt ← block_at st t;
               proof ← GetBlockProof (nBits bt);
               Some (gtb W (nChainWork bb) (add (nChainWork bt) (mul32 proof 6)))
           end;
    Some (if (warn : bool) then
            match tip, pindexBestForkBase st with
            | Some _, Some _ => set_large_work true (fLargeWorkInvalidChainFound st) st
            | _, _ => set_large_work (fLargeWorkForkFound st) true st
            end
          else set_large_work false false st).

(** [while (plonger && plonger->nHeight > h)]. *)
Fixpoint shorten (m : index_map) (fuel : nat) (h : Z) (plonger : option ptr) : option (option ptr) :=
  match plonger with
  | None => Some None
  | Some q =>
      c ← m !! q;
      if nHeight c >? h then match fuel with O => None | S fuel => shorten m fuel h (pprev c) end
      else Some (Some q)
  end.

Fixpoint fork_loop (m : index_map) (fuel : nat) (pfork plonger : option ptr) : option (option ptr) :=
  match pfork with
  | None => Some None
  | Some f =>
      if decide (plonger = Some f) then Some (Some f)
      else
        b ← m !! f;
        n ← match plonger with None => Some O | Some q => c ← m !! q; Some (Z.to_nat (nHeight c)) end;
        plonger ← shorten m n (nHeight b) plonger;
        if decide (plonger = Some f) then Some (Some f)
        else match fuel with O => None | S fuel => fork_loop m fuel (pprev b) plonger end
  end.

Definition CheckForkWarningConditionsOnNewFork (env : environment) (pindexNewForkTip : ptr) (st : CChainState)
    : option CChainState :=
  b ← block_at st pindexNewForkTip;
  pfork ← fork_loop (index_of st) (S (Z.to_nat (nHeight b))) (Some pindexNewForkTip) (Tip (chainActive st));
  st ← match pfork with
       | None => Some st
       | Some f =>
           bf ← block_at st f;
           higher ← match pindexBestForkTip st with
                    | None => Some true
                    | Some t => bt ← block_at st t; Some (nHeight b >? nHeight bt)
                    end;
           proof ← GetBlockProof (nBits bf);
           Some (if higher && gtb W (sub (nChainWork b) (nChainWork bf)) (mul32 proof 7)
                      && (Height (chainActive st) - nHeight b <? 72)
                 then set_fork (Some pindexNewForkTip) (Some f) st else st)
       end;
  CheckForkWarningConditions env st.

Definition InvalidChainFound (env : environment) (pindexNew : ptr) (st : CChainState) : option CChainState :=
  b ← block_at st pindexNew;
  more ← more_work_than st b (pindexBestInvalid st);
  let st := if (more : bool) then set_best_invalid (Some pindexNew) st else st in
  _ ← Tip (chainActive st);
  CheckForkWarningConditions env st.

(** For a failure without corruption; otherwise nothing is done. *)
Definition InvalidBlockFound (env : environment) (pindex : ptr) (corruption : bool) (st : CChainState)
    : option CChainState :=
  if negb corruption then
    let st := update pindex (add_status BLOCK_FAILED_VALID) st in
    let st := insert_failed pindex st in
    let st := dirty pindex st in
    let st := erase_candidate pindex st in
    InvalidChainFound env pindex st
  else Some st.

(** ** Candidates for the tip *)

(** [ReceivedBlockTransactions]: a block of the queue, then what waits for it.
    [range] is what [mapBlocksUnlinked] holds for it. *)
Definition link_block (pindex : ptr) (st : CChainState) : option CChainState :=
  b ← block_at st pindex;
  before ← match pprev b with None => Some 0 | Some q => c ← block_at st q; Some (nChainTx c) end;
  let st := update pindex (set_linked (u32 (before + nTx b)) (nBlockSequenceId st)) st in
  let st := set_counters (i32 (nBlockSequenceId st + 1)) (nBlockReverseSequenceId st) (nLastPreciousChainwork st) st in
  Some (match Tip (chainActive st) with
        | None => insert_candidate pindex st
        | Some t => if negb (work_less (index_of st) pindex t) then insert_candidate pindex st else st
        end).

Definition waiting_for (q : option ptr) (u : list (option ptr * ptr)) : list ptr :=
  (filter (fun e => e.1 = q) u).*2.
Definition stop_waiting (q : option ptr) (u : list (option ptr * ptr)) : list (option ptr * ptr) :=
  filter (fun e => e.1 <> q) u.

Fixpoint link_queue (fuel : nat) (queue : list ptr) (st : CChainState) : option CChainState :=
  match queue with
  | [] => Some st
  | pindex :: queue =>
      match fuel with
      | O => None
      | S fuel =>
          st ← link_block pindex st;
          link_queue fuel (queue ++ waiting_for (Some pindex) (mapBlocksUnlinked st))
            (set_unlinked (stop_waiting (Some pindex) (mapBlocksUnlinked st)) st)
      end
  end.

Definition ReceivedBlockTransactions (vtx_size : Z) (pindexNew : ptr) (pos : CDiskBlockPos) (st : CChainState)
    : option CChainState :=
  b ← block_at st pindexNew;
  let b := set_data (u32 vtx_size) 0 (pos_nFile pos) (pos_nPos pos) 0
             (Z.lor (nStatus b) BLOCK_HAVE_DATA) b in
  let b := if IsWitnessEnabled then add_status BLOCK_OPT_WITNESS b else b in
  '(b, _) ← RaiseValidity b BLOCK_VALID_TRANSACTIONS;
  let st := update pindexNew (fun _ => b) st in
  let st := dirty pindexNew st in
  linked ← match pprev b with None => Some true | Some q => c ← block_at st q; Some (negb (nChainTx c =? 0)) end;
  if (linked : bool) then link_queue (S (length (mapBlocksUnlinked st))) [pindexNew] st
  else
    match pprev b with
    | None => Some st
    | Some q =>
        c ← block_at st q;
        valid ← IsValid c BLOCK_VALID_TREE;
        Some (if (valid : bool) then set_unlinked (mapBlocksUnlinked st ++ [(Some q, pindexNew)]) st else st)
    end.

(** [FindMostWorkChain]: the inner loop takes the blocks from [pindexFailed]
    down to above [pindexTest] out of the candidates. *)
Fixpoint remove_chain (fuel : nat) (pindexTest pindexFailed : ptr) (fFailedChain : bool) (st : CChainState)
    : option CChainState :=
  if decide (pindexTest = pindexFailed) then Some st
  else
    match fuel with
    | O => None
    | S fuel =>
        b ← block_at st pindexFailed;
        let st := if fFailedChain then update pindexFailed (add_status BLOCK_FAILED_CHILD) st
                  else set_unlinked (mapBlocksUnlinked st ++ [(pprev b, pindexFailed)]) st in
        let st := erase_candidate pindexFailed st in
        q ← pprev b;
        remove_chain fuel pindexTest q fFailedChain st
    end.

(** The walk from the candidate to the active chain; true is [fInvalidAncestor]. *)
Fixpoint test_chain (fuel : nat) (pindexNew : ptr) (pindexTest : option ptr) (st : CChainState)
    : option (CChainState * bool) :=
  match pindexTest with
  | None => Some (st, false)
  | Some t =>
      inside ← Contains (index_of st) (chainActive st) t;
      if (inside : bool) then Some (st, false)
      else
        b ← block_at st t;
        if negb (negb (nChainTx b =? 0) || (nHeight b =? 0)) then None
        else
          let fFailedChain := failed b in
          let fMissingData := negb (have_data b) in
          if fFailedChain || fMissingData then
            new ← block_at st pindexNew;
            more ← (if fFailedChain then more_work_than st new (pindexBestInvalid st) else Some false);
            let st := if (more : bool) then set_best_invalid (Some pindexNew) st else st in
            st ← remove_chain (Z.to_nat (nHeight new - nHeight b)) t pindexNew fFailedChain st;
            Some (erase_candidate t st, true)
          else match fuel with O => None | S fuel => test_chain fuel pindexNew (pprev b) st end
  end.

Fixpoint find_loop (fuel : nat) (st : CChainState) : option (CChainState * option ptr) :=
  match last (setBlockIndexCandidates st) with
  | None => Some (st, None)
  | Some pindexNew =>
      b ← block_at st pindexNew;
      '(st, fInvalidAncestor) ← test_chain (S (Z.to_nat (nHeight b))) pindexNew (Some pindexNew) st;
      if negb fInvalidAncestor then Some (st, Some pindexNew)
      else match fuel with O => None | S fuel => find_loop fuel st end
  end.

(** Every turn takes a block out of the candidates. *)
Definition FindMostWorkChain (st : CChainState) : option (CChainState * option ptr) :=
  find_loop (length (setBlockIndexCandidates st)) st.

Definition PruneBlockIndexCandidates (st : CChainState) : option CChainState :=
  cand ← match setBlockIndexCandidates st with
         | [] => Some []
         | _ => t ← Tip (chainActive st); Some (erase_below (work_less (index_of st)) t (setBlockIndexCandidates st))
         end;
  match cand with [] => None | _ => Some (set_candidates cand st) end.

(** ** Manual changes *)

(** What is not in these files: the order of the hash table [mapBlockIndex]. *)
Class IndexPlatform := { iterate_index : gmap uint256 ptr -> list (uint256 * ptr) }.
Class IndexPlatformLaws `(IndexPlatform) : Prop := { iterate_index_perm : forall m, iterate_index m ≡ₚ map_to_list m }.

Section manual.
Context `{IP : IndexPlatform}.

(** The end of [InvalidateBlock]: the blocks that are as good as the tip. *)
Fixpoint readd_candidates (l : list ptr) (st : CChainState) : option CChainState :=
  match l with
  | [] => Some st
  | p :: l =>
      b ← block_at st p;
      valid ← IsValid b BLOCK_VALID_TRANSACTIONS;
      if valid && negb (nChainTx b =? 0) then
        t ← Tip (chainActive st);
        readd_candidates l (if negb (work_less (index_of st) p t) then insert_candidate p st else st)
      else readd_candidates l st
  end.

Fixpoint reset_descendants (l : list ptr) (pindex : ptr) (nHeight' : Z) (st : CChainState) : option CChainState :=
  match l with
  | [] => Some st
  | p :: l =>
      b ← block_at st p;
      valid ← IsValid b BLOCK_VALID_TRANSACTIONS;
      reset ← (if negb valid then a ← GetAncestor (index_of st) p nHeight'; Some (bool_decide (a = Some pindex))
               else Some false);
      if (reset : bool) then
        let st := update p (clear_status BLOCK_FAILED_MASK) st in
        let st := dirty p st in
        b ← block_at st p;
        valid ← IsValid b BLOCK_VALID_TRANSACTIONS;
        st ← (if valid && negb (nChainTx b =? 0) then
                t ← Tip (chainActive st);
                Some (if work_less (index_of st) t p then insert_candidate p st else st)
              else Some st);
        let st := if bool_decide (pindexBestInvalid st = Some p) then set_best_invalid None st else st in
        reset_descendants l pindex nHeight' (erase_failed p st)
      else reset_descendants l pindex nHeight' st
  end.

Fixpoint reset_ancestors (fuel : nat) (pindex : option ptr) (st : CChainState) : option CChainState :=
  match pindex with
  | None => Some st
  | Some p =>
      b ← block_at st p;
      let st := if failed b then dirty p (update p (clear_status BLOCK_FAILED_MASK) st) else st in
      match fuel with O => None | S fuel => reset_ancestors fuel (pprev b) st end
  end.

Definition ResetBlockFailureFlags (pindex : ptr) (st : CChainState) : option CChainState :=
  b ← block_at st pindex;
  st ← reset_descendants (iterate_index (mapBlockIndex (tree st))).*2 pindex (nHeight b) st;
  reset_ancestors (S (Z.to_nat (nHeight b))) (Some pindex) st.
End manual.

Definition UnloadCandidates (st : CChainState) : CChainState :=
  let st := set_counters 1 (nBlockReverseSequenceId st) (nLastPreciousChainwork st) st in
  set_candidates [] (set_failed [] st).

(** ** Facts *)

Module chainstate_facts.
Import chain_facts stdset_facts.

(** *** The order of the candidates *)

Definition works_ok (m : index_map) : Prop := forall p b, m !! p = Some b -> wf W (nChainWork b).

(** More work, or the same work received earlier, or the same with a lower
    address. *)
Definition better (a b : CBlockIndex) (pa pb : ptr) : Prop :=
  val (nChainWork b) < val (nChainWork a) \/
  (val (nChainWork a) = val (nChainWork b) /\
   (nSequenceId a < nSequenceId b \/ (nSequenceId a = nSequenceId b /\ (pa < pb)%positive))).

Section order.
Context (m : index_map) (Hw : works_ok m).

Lemma work_less_spec p q a b :
  m !! p = Some a -> m !! q = Some b -> work_less m p q = true <-> better b a q p.
Proof using Hw.
  intros Hp Hq. unfold work_less, better. rewrite Hp, Hq, gtb_val, ltb_val by eauto.
  destruct (Pos.ltb_spec p q), (Pos.ltb_spec q p); bcases; split; try done; intros; try lia; naive_solver lia.
Qed.

Lemma work_less_order : strict_order (work_less m) (fun p => is_Some (m !! p)).
Proof using Hw.
  split.
  - intros p [a Hp]. destruct (work_less m p p) eqn:E; [|done].
    apply (work_less_spec p p a a) in E; [|done..]. unfold better in E. lia.
  - intros p q r [a Hp] [b Hq] [c Hr]. rewrite (work_less_spec p q a b), (work_less_spec q r b c),
      (work_less_spec p r a c) by done. unfold better. lia.
  - intros p q [a Hp] [b Hq] E1 E2. destruct (decide (p = q)); [done|exfalso].
    assert (~ better b a q p) by (rewrite <- work_less_spec by done; congruence).
    assert (~ better a b p q) by (rewrite <- work_less_spec by done; congruence).
    unfold better in *. lia.
Qed.
End order.

(** The comparison reads only the work and the sequence ids. *)
Lemma work_less_agree m m' p q :
  (forall r, r = p \/ r = q -> (fun b => (nChainWork b, nSequenceId b)) <$> m' !! r
                               = (fun b => (nChainWork b, nSequenceId b)) <$> m !! r) ->
  work_less m' p q = work_less m p q.
Proof.
  intros H. pose proof (H p (or_introl eq_refl)) as Hp. pose proof (H q (or_intror eq_refl)) as Hq.
  unfold work_less. destruct (m !! p), (m' !! p), (m !! q), (m' !! q); cbn in Hp, Hq; try discriminate Hp; try discriminate Hq; try done.
  injection Hp as -> ->. by injection Hq as -> ->.
Qed.

(** *** Changes that keep the structure of the index

    [core] is a block index without the fields that change after it has been
    added; [strip] leaves out only the status and
    the position of the undo data. *)

Definition strip (b : CBlockIndex) : CBlockIndex := set_data (nTx b) (nChainTx b) (nFile b) (nDataPos b) 0 0 b.
Definition core (b : CBlockIndex) : CBlockIndex := set_linked 0 0 (set_data 0 0 0 0 0 0 b).
Definition same_but_status (m m' : index_map) : Prop := forall p, strip <$> m' !! p = strip <$> m !! p.
Definition same_core (m m' : index_map) : Prop := forall p, core <$> m' !! p = core <$> m !! p.

Lemma strip_add s b : strip (add_status s b) = strip b.
Proof. done. Qed.
Lemma strip_eq b b' : strip b = strip b' -> nSequenceId b = nSequenceId b' /\ nChainTx b = nChainTx b' /\ nTx b = nTx b'.
Proof. intros E. exact (conj (f_equal nSequenceId E) (conj (f_equal nChainTx E) (f_equal nTx E))). Qed.
Lemma strip_core b b' : strip b = strip b' -> core b = core b'.
Proof. intros E. exact (f_equal core E). Qed.
Lemma core_eq b b' : core b = core b' ->
  pprev b = pprev b' /\ nHeight b = nHeight b' /\ pskip b = pskip b' /\ nChainWork b = nChainWork b' /\
  phashBlock b = phashBlock b' /\ nBits b = nBits b' /\ nTime b = nTime b' /\ nTimeMax b = nTimeMax b'.
Proof.
  intros E. exact (conj (f_equal pprev E) (conj (f_equal nHeight E) (conj (f_equal pskip E) (conj (f_equal nChainWork E)
    (conj (f_equal phashBlock E) (conj (f_equal nBits E) (conj (f_equal nTime E) (f_equal nTimeMax E)))))))).
Qed.

Lemma same_but_status_sym m m' : same_but_status m m' -> same_but_status m' m.
Proof. intros H p. by rewrite H. Qed.
Lemma same_core_sym m m' : same_core m m' -> same_core m' m.
Proof. intros H p. by rewrite H. Qed.
Lemma same_core_trans m1 m2 m3 : same_core m1 m2 -> same_core m2 m3 -> same_core m1 m3.
Proof. intros H1 H2 p. by rewrite H2. Qed.

Lemma same_but_status_lookup m m' p b :
  same_but_status m m' -> m !! p = Some b -> exists b', m' !! p = Some b' /\ strip b' = strip b.
Proof.
  intros H Hp. specialize (H p). rewrite Hp in H. destruct (m' !! p) as [b'|]; [|done].
  exists b'. split; [done|]. exact (inj Some _ _ H).
Qed.
Lemma same_core_lookup m m' p b :
  same_core m m' -> m !! p = Some b -> exists b', m' !! p = Some b' /\ core b' = core b.
Proof.
  intros H Hp. specialize (H p). rewrite Hp in H. destruct (m' !! p) as [b'|]; [|done].
  exists b'. split; [done|]. exact (inj Some _ _ H).
Qed.

Lemma same_but_status_core m m' : same_but_status m m' -> same_core m m'.
Proof.
  intros H p. specialize (H p). destruct (m !! p), (m' !! p); cbn in *; try done.
  f_equal. by apply strip_core, (inj Some).
Qed.

Lemma same_core_alter m p f : (forall b, core (f b) = core b) -> same_core m (alter f p m).
Proof.
  intros Hf q. destruct (decide (q = p)) as [->|Hne].
  - rewrite lookup_alter_eq. destruct (m !! p); cbn; [|done]. by rewrite Hf.
  - by rewrite lookup_alter_ne.
Qed.

Section core.
Context (m m' : index_map) (H : same_core m m').

Lemma core_links : links m' = links m.
Proof using H.
  apply map_eq. intros p. unfold links. rewrite !lookup_fmap. specialize (H p).
  destruct (m !! p) as [b|], (m' !! p) as [b'|]; cbn in *; try done.
  apply (inj Some) in H. by destruct (core_eq _ _ H) as (-> & -> & _).
Qed.

Lemma core_parent p q : parent m p q <-> parent m' p q.
Proof using H. split; apply links_parent; [by rewrite core_links|apply core_links]. Qed.

Lemma core_rtc p q : rtc (parent m) p q <-> rtc (parent m') p q.
Proof using H. split; intros Hr; (induction Hr; [done|]; econstructor; [by apply core_parent|done]). Qed.

Lemma core_index_wf : index_wf m -> index_wf m'.
Proof using H.
  intros Hwf. apply (index_wf_links m); [by rewrite core_links|done|].
  intros p b s Hp Hs. destruct (same_core_lookup m' m p b) as (c & Hc & E); [by apply same_core_sym|done|].
  destruct (core_eq _ _ E) as (E1 & E2 & E3 & _). rewrite <- E2. apply (wf_skip m Hwf p c); [done|congruence].
Qed.

Lemma core_works : works_ok m -> works_ok m'.
Proof using H.
  intros Hw p b Hp. destruct (same_core_lookup m' m p b) as (c & Hc & E); [by apply same_core_sym|done|].
  destruct (core_eq _ _ E) as (_ & _ & _ & <- & _). eauto.
Qed.

Lemma core_chain_of c t : chain_of m c t -> chain_of m' c t.
Proof using H.
  destruct t as [t|]; [|done]. intros (b & Hb & Hl & Ha).
  destruct (same_core_lookup m m' t b H Hb) as (b' & Hb' & E). destruct (core_eq _ _ E) as (_ & Eh & _).
  exists b'. rewrite Eh. split_and!; [done|done|]. intros h Hh. destruct (Ha h Hh) as (r & H1 & H2).
  exists r. split; [done|]. apply (links_ancestor m m'); [by rewrite core_links|done].
Qed.

Lemma core_tree_wf map best dirty dirty' :
  tree_wf {| heap := m; mapBlockIndex := map; pindexBestHeader := best; setDirtyBlockIndex := dirty |} ->
  tree_wf {| heap := m'; mapBlockIndex := map; pindexBestHeader := best; setDirtyBlockIndex := dirty' |}.
Proof using H.
  intros Ht. pose proof (same_core_sym _ _ H) as H'.
  assert (forall b b', core b' = core b -> parent_work m' b' = parent_work m b) as Hpw.
  { intros b b' E. unfold parent_work. destruct (core_eq _ _ E) as (-> & _). destruct (pprev b) as [q|]; [|done].
    specialize (H q). destruct (m !! q), (m' !! q); cbn in *; try done. apply (inj Some) in H.
    by destruct (core_eq _ _ H) as (_ & _ & _ & -> & _). }
  split; cbn [heap mapBlockIndex pindexBestHeader].
  - apply core_index_wf, Ht.
  - intros h p. rewrite (tw_map _ Ht h p). cbn [heap]. split; intros (b & Hb & <-).
    + destruct (same_core_lookup _ _ p b H Hb) as (b' & ? & E). exists b'. split; [done|]. by apply core_eq in E as (_&_&_&_&->&_).
    + destruct (same_core_lookup _ _ p b H' Hb) as (b' & ? & E). exists b'. split; [done|]. by apply core_eq in E as (_&_&_&_&->&_).
  - intros p b' Hb'. destruct (same_core_lookup _ _ p b' H' Hb') as (b & Hb & E).
    destruct (tw_work _ Ht p b Hb) as (W1 & w & W2 & W3). cbn [heap] in W3.
    rewrite (Hpw b b') by done. apply core_eq in E as (_&_&_&Ew&_&Eb&_). rewrite <- Ew, <- Eb. split; [done|by exists w].
  - intros p b' Hb'. destruct (same_core_lookup _ _ p b' H' Hb') as (b & Hb & E).
    destruct (tw_time _ Ht p b Hb) as [T1 T2]. apply core_eq in E as (Ep&_&_&_&_&_&Et&Em). split; [lia|].
    intros q c' Hq Hc'. destruct (same_core_lookup _ _ q c' H' Hc') as (c & Hc & Ec).
    apply core_eq in Ec as (_&_&_&_&_&_&_&Ecm). rewrite <- Ecm, <- Em. apply (T2 q c); [congruence|done].
  - intros p Hp. destruct (tw_best _ Ht p Hp) as [b Hb]. destruct (same_core_lookup _ _ p b H Hb) as (b' & Hb' & _). by exists b'.
Qed.
End core.

Lemma status_work_less m m' p q : same_but_status m m' -> work_less m' p q = work_less m p q.
Proof.
  intros H. apply work_less_agree. intros r _. specialize (H r).
  destruct (m !! r), (m' !! r); cbn in *; try done. apply (inj Some) in H as E.
  destruct (strip_eq _ _ E) as (-> & _). by destruct (core_eq _ _ (strip_core _ _ E)) as (_ & _ & _ & -> & _).
Qed.

(** *** Status bits *)

Lemma land_bit s k : 0 <= k -> negb (Z.land s (2 ^ k) =? 0) = Z.testbit s k.
Proof.
  intros Hk. assert (Z.testbit (Z.land s (2 ^ k)) k = Z.testbit s k) as Hb.
  { rewrite Z.land_spec, Z.pow2_bits_true by done. apply andb_true_r. }
  destruct (Z.eqb_spec (Z.land s (2 ^ k)) 0) as [E|E]; cbn [negb].
  - rewrite <- Hb, E. symmetry. apply Z.bits_0.
  - destruct (Z.testbit s k) eqn:Es; [done|exfalso]. apply E, Z.bits_inj'. intros i Hi. rewrite Z.bits_0.
    destruct (decide (i = k)) as [->|]; [done|]. by rewrite Z.land_spec, Z.pow2_bits_false, andb_false_r by done.
Qed.

Lemma have_data_bit b : have_data b = Z.testbit (nStatus b) 3.
Proof. apply (land_bit _ 3). lia. Qed.

Lemma failed_bits b : failed b = Z.testbit (nStatus b) 5 || Z.testbit (nStatus b) 6.
Proof.
  rewrite <- !land_bit by lia. unfold failed. change BLOCK_FAILED_MASK with (Z.lor (2 ^ 5) (2 ^ 6)).
  rewrite Z.land_lor_distr_r. destruct (Z.eqb_spec (Z.land (nStatus b) (2 ^ 5)) 0) as [->|E1]; [done|].
  cbn [negb orb]. apply negb_true_iff, Z.eqb_neq. by intros [E _]%Z.lor_eq_0_iff.
Qed.

Lemma failed_add b : failed (add_status BLOCK_FAILED_CHILD b) = true.
Proof. rewrite failed_bits. cbn [add_status nStatus set_nStatus]. rewrite !Z.lor_spec. by rewrite !orb_true_r. Qed.

Lemma have_data_add s b : have_data b = true -> have_data (add_status s b) = true.
Proof. rewrite !have_data_bit. cbn [add_status nStatus set_nStatus]. rewrite Z.lor_spec. by intros ->. Qed.

(** *** The search for the most work *)

(** [p] can become the tip: the blocks from [p] down to the active chain have
    not failed and their data is there. *)
Definition usable (m : index_map) (c : CChain) (p : ptr) : Prop :=
  forall r b, rtc (parent m) p r -> m !! r = Some b -> chain_at c (nHeight b) <> Some r ->
    failed b = false /\ have_data b = true.

(** The invariant that the search relies on. *)
Record candidates_ok (st : CChainState) : Prop := {
  co_index : index_wf (index_of st);
  co_works : works_ok (index_of st);
  co_chain : chain_of (index_of st) (chainActive st) (Tip (chainActive st));
  co_sorted : sorted (work_less (index_of st)) (setBlockIndexCandidates st);
  co_linked : forall p, p ∈ setBlockIndexCandidates st -> exists b, index_of st !! p = Some b /\ nChainTx b <> 0;
  co_parents : forall p b q, index_of st !! p = Some b -> nChainTx b <> 0 -> pprev b = Some q ->
    exists c, index_of st !! q = Some c /\ nChainTx c <> 0;
  co_invalid : forall q, pindexBestInvalid st = Some q -> is_Some (index_of st !! q);
}.

(** What the search does to the state: it takes blocks that are not usable out
    of the candidates, and marks some of them. *)
Record pruned (st st' : CChainState) : Prop := {
  pr_index : forall p b, index_of st !! p = Some b -> exists b', index_of st' !! p = Some b' /\
    (b' = b \/ (~ usable (index_of st) (chainActive st) p /\ b' = add_status BLOCK_FAILED_CHILD b));
  pr_dom : forall p, index_of st !! p = None -> index_of st' !! p = None;
  pr_chain : chainActive st' = chainActive st;
  pr_sub : forall p, p ∈ setBlockIndexCandidates st' -> p ∈ setBlockIndexCandidates st;
  pr_kept : forall p, p ∈ setBlockIndexCandidates st -> usable (index_of st) (chainActive st) p ->
    p ∈ setBlockIndexCandidates st';
  pr_failed : g_failed_blocks st' = g_failed_blocks st;
  pr_maps : mapBlockIndex (tree st') = mapBlockIndex (tree st) /\ pindexBestHeader (tree st') = pindexBestHeader (tree st);
  pr_counters : nBlockSequenceId st' = nBlockSequenceId st /\ nBlockReverseSequenceId st' = nBlockReverseSequenceId st
    /\ nLastPreciousChainwork st' = nLastPreciousChainwork st;
  pr_forks : pindexBestForkTip st' = pindexBestForkTip st /\ pindexBestForkBase st' = pindexBestForkBase st;
  pr_unlinked : (forall p b, index_of st !! p = Some b -> nChainTx b <> 0 -> have_data b = true) ->
    mapBlocksUnlinked st' = mapBlocksUnlinked st;
}.

Lemma pruned_status st st' : pruned st st' -> same_but_status (index_of st) (index_of st').
Proof.
  intros H p. destruct (index_of st !! p) as [b|] eqn:E; [|by rewrite (pr_dom _ _ H p E)].
  destruct (pr_index _ _ H p b E) as (b' & -> & [->|[_ ->]]); done.
Qed.

Lemma usable_parent m c p q b :
  m !! p = Some b -> pprev b = Some q -> usable m c p -> usable m c q.
Proof. intros Hp Hq H r d Hr. apply H. apply (rtc_l _ p q); [by exists b|done]. Qed.

Lemma pruned_usable st st' p : pruned st st' ->
  usable (index_of st') (chainActive st') p <-> usable (index_of st) (chainActive st) p.
Proof.
  intros H. pose proof (pruned_status _ _ H) as Hs. rewrite (pr_chain _ _ H). split.
  - intros Hu r b Hr Hb Hoff. apply (core_rtc _ _ (same_but_status_core _ _ Hs)) in Hr.
    destruct (pr_index _ _ H r b Hb) as (b' & Hb' & [->|[_ ->]]); [by apply (Hu r)|].
    destruct (Hu r _ Hr Hb' Hoff) as [Hf _]. by rewrite failed_add in Hf.
  - intros Hu r b' Hr Hb' Hoff. apply (core_rtc _ _ (same_but_status_core _ _ Hs)) in Hr.
    destruct (same_but_status_lookup _ _ r b' (same_but_status_sym _ _ Hs) Hb') as (b & Hb & E).
    destruct (core_eq _ _ (strip_core _ _ E)) as (_ & Eh & _).
    destruct (pr_index _ _ H r b Hb) as (b'' & Hb'' & [->|[Hn ->]]).
    + replace b' with b in * by congruence. by apply (Hu r).
    + exfalso. apply Hn. intros r' d Hr'. apply Hu. by etrans.
Qed.

Lemma pruned_refl st : pruned st st.
Proof. split; try done. intros p b Hp. exists b. auto. Qed.

Lemma add_status_idemp s b : add_status s (add_status s b) = add_status s b.
Proof. unfold add_status. cbn [nStatus set_nStatus]. by rewrite <- Z.lor_assoc, Z.lor_diag. Qed.

Lemma pruned_trans st1 st2 st3 : pruned st1 st2 -> pruned st2 st3 -> pruned st1 st3.
Proof.
  intros H1 H2. pose proof (fun p => pruned_usable st1 st2 p H1) as Hu. split.
  - intros p b Hp. destruct (pr_index _ _ H1 p b Hp) as (b1 & Hp1 & E1).
    destruct (pr_index _ _ H2 p b1 Hp1) as (b2 & Hp2 & E2). exists b2. split; [done|].
    rewrite Hu in E2. destruct E1 as [->|[? ->]], E2 as [->|[? ->]]; auto.
    right. by rewrite add_status_idemp.
  - intros p Hp. by apply (pr_dom _ _ H2), (pr_dom _ _ H1).
  - by rewrite (pr_chain _ _ H2), (pr_chain _ _ H1).
  - intros p Hp. by apply (pr_sub _ _ H1), (pr_sub _ _ H2).
  - intros p Hp Hup. apply (pr_kept _ _ H2); [by apply (pr_kept _ _ H1)|by apply Hu].
  - by rewrite (pr_failed _ _ H2), (pr_failed _ _ H1).
  - destruct (pr_maps _ _ H1), (pr_maps _ _ H2). split; congruence.
  - destruct (pr_counters _ _ H1) as (?&?&?), (pr_counters _ _ H2) as (?&?&?). split_and!; congruence.
  - destruct (pr_forks _ _ H1), (pr_forks _ _ H2). split; congruence.
  - intros Hd. rewrite (pr_unlinked _ _ H2); [by apply (pr_unlinked _ _ H1)|].
    intros p b2 Hp2 Hn. destruct (same_but_status_lookup _ _ p b2 (same_but_status_sym _ _ (pruned_status _ _ H1)) Hp2)
      as (b & Hb & E). destruct (strip_eq _ _ E) as (_ & Et & _).
    pose proof (Hd p b Hb ltac:(congruence)) as Hdb.
    destruct (pr_index _ _ H1 p b Hb) as (b' & Hb' & [->|[_ ->]]).
    + congruence.
    + replace b2 with (add_status BLOCK_FAILED_CHILD b) by congruence. by apply have_data_add.
Qed.

Lemma candidates_in st : candidates_ok st ->
  Forall (fun p => is_Some (index_of st !! p)) (setBlockIndexCandidates st).
Proof. intros H. apply Forall_forall. intros p Hp. destruct (co_linked _ H p Hp) as (b & ? & _). by exists b. Qed.

Lemma candidates_order st : candidates_ok st -> strict_order (work_less (index_of st)) (fun p => is_Some (index_of st !! p)).
Proof. intros H. apply work_less_order, H. Qed.

Lemma candidates_ok_pruned st st' :
  candidates_ok st -> pruned st st' -> sorted (work_less (index_of st)) (setBlockIndexCandidates st') ->
  (forall q, pindexBestInvalid st' = Some q -> is_Some (index_of st' !! q)) -> candidates_ok st'.
Proof.
  intros H Hp Hs Hi. pose proof (pruned_status _ _ Hp) as Hst. pose proof (same_but_status_core _ _ Hst) as Hc.
  assert (forall p b', index_of st' !! p = Some b' -> exists b, index_of st !! p = Some b /\ strip b = strip b') as Hback.
  { intros p b' Hb'. apply (same_but_status_lookup _ _ p b' (same_but_status_sym _ _ Hst) Hb'). }
  split; [..|done].
  - apply (core_index_wf _ _ Hc), H.
  - apply (core_works _ _ Hc), H.
  - rewrite (pr_chain _ _ Hp). apply (core_chain_of _ _ Hc), H.
  - apply (sorted_agree (work_less (index_of st))); [|done]. intros x y _ _. by apply status_work_less.
  - intros p Hin. apply (pr_sub _ _ Hp) in Hin. destruct (co_linked _ H p Hin) as (b & Hb & Hn).
    destruct (same_but_status_lookup _ _ p b Hst Hb) as (b' & Hb' & E). exists b'.
    by destruct (strip_eq _ _ E) as (_ & -> & _).
  - intros p b' q Hb' Hn Hq. destruct (Hback p b' Hb') as (b & Hb & E).
    destruct (strip_eq _ _ E) as (_ & Et & _). destruct (core_eq _ _ (strip_core _ _ E)) as (Eq & _).
    destruct (co_parents _ H p b q Hb) as (c & Hcq & Hcn); [congruence..|].
    destruct (same_but_status_lookup _ _ q c Hst Hcq) as (c' & Hc' & Ec). exists c'.
    by destruct (strip_eq _ _ Ec) as (_ & -> & _).
Qed.

Lemma pruned_invalid st st' : pruned st st' -> pindexBestInvalid st' = pindexBestInvalid st ->
  candidates_ok st -> forall q, pindexBestInvalid st' = Some q -> is_Some (index_of st' !! q).
Proof.
  intros Hp E H q Hq. rewrite E in Hq. destruct (co_invalid _ H q Hq) as [b Hb].
  destruct (pr_index _ _ Hp q b Hb) as (b' & ? & _). by exists b'.
Qed.

(** The steps of the search. *)
Lemma elem_of_erase st p q : candidates_ok st -> is_Some (index_of st !! p) ->
  q ∈ setBlockIndexCandidates (erase_candidate p st) <-> q <> p /\ q ∈ setBlockIndexCandidates st.
Proof.
  intros H Hp. apply (elem_of_set_erase _ _ (candidates_order st H)); [by apply candidates_in|done|apply H].
Qed.

Lemma erase_unusable st p :
  candidates_ok st -> is_Some (index_of st !! p) -> ~ usable (index_of st) (chainActive st) p ->
  pruned st (erase_candidate p st) /\ candidates_ok (erase_candidate p st) /\
  p ∉ setBlockIndexCandidates (erase_candidate p st).
Proof.
  intros H Hp Hu.
  assert (pruned st (erase_candidate p st)) as Hpr.
  { split; try done.
    - intros r b Hr. exists b. auto.
    - intros r Hr. by apply elem_of_erase in Hr as [_ Hr].
    - intros r Hr Hur. apply elem_of_erase; [done..|]. split; [by intros ->|done]. }
  split; [done|]. split.
  - apply (candidates_ok_pruned st); [done|done|by apply set_erase_sorted, H|by apply (pruned_invalid st)].
  - rewrite elem_of_erase by done. tauto.
Qed.

Lemma mark_unusable st p :
  candidates_ok st -> ~ usable (index_of st) (chainActive st) p ->
  pruned st (update p (add_status BLOCK_FAILED_CHILD) st) /\
  candidates_ok (update p (add_status BLOCK_FAILED_CHILD) st).
Proof.
  intros H Hu. assert (pruned st (update p (add_status BLOCK_FAILED_CHILD) st)) as Hpr.
  { split; try done.
    - intros r b Hr. cbn. destruct (decide (r = p)) as [->|].
      + rewrite lookup_alter_eq, Hr. eexists. split; [done|]. by right.
      + rewrite lookup_alter_ne by done. exists b. auto.
    - intros r Hr. cbn. destruct (decide (r = p)) as [->|]; [by rewrite lookup_alter_eq, Hr|by rewrite lookup_alter_ne]. }
  split; [done|]. apply (candidates_ok_pruned st); [done|done|apply H|by apply (pruned_invalid st)].
Qed.

Lemma best_invalid_pruned st p :
  candidates_ok st -> is_Some (index_of st !! p) ->
  pruned st (set_best_invalid (Some p) st) /\ candidates_ok (set_best_invalid (Some p) st).
Proof.
  intros H Hp. assert (pruned st (set_best_invalid (Some p) st)) as Hpr.
  { split; try done. intros r b Hr. exists b. auto. }
  split; [done|]. apply (candidates_ok_pruned st); [done|done|apply H|]. by intros q [= <-].
Qed.

Lemma more_work_total st b q :
  (forall r, q = Some r -> is_Some (index_of st !! r)) -> exists v, more_work_than st b q = Some v.
Proof.
  intros H. destruct q as [q|]; [|by eexists]. destruct (H q eq_refl) as [c Hc]. cbn. unfold block_at.
  rewrite Hc. by eexists.
Qed.

Lemma remove_chain_spec fuel st t bt f bf ff :
  candidates_ok st -> index_of st !! t = Some bt -> chain_at (chainActive st) (nHeight bt) <> Some t ->
  failed bt = true \/ have_data bt = false ->
  (ff = false -> have_data bt = false /\ nChainTx bt <> 0) ->
  rtc (parent (index_of st)) f t -> index_of st !! f = Some bf -> nHeight bf - nHeight bt <= Z.of_nat fuel ->
  exists st', remove_chain fuel t f ff st = Some st' /\ pruned st st' /\ candidates_ok st' /\
    index_of st' !! t = Some bt /\ (f <> t -> f ∉ setBlockIndexCandidates st').
Proof.
  revert st f bf. induction fuel as [|fuel IH]; intros st f bf H Ht Hoff Hbad Hff Hr Hf Hn; cbn [remove_chain].
  all: destruct (decide (t = f)) as [<-|Hne]; [exists st; split_and!; [done|apply pruned_refl|done|done|done]|].
  - exfalso. destruct (rtc_height _ (co_index _ H) f t (nHeight bf) Hr) as (h & Hh & Hle & He).
    { unfold height. by rewrite Hf. }
    unfold height in Hh. rewrite Ht in Hh. injection Hh as <-. apply Hne. symmetry. apply He. lia.
  - unfold block_at. rewrite Hf. cbn [mbind option_bind].
    destruct Hr as [f|f q t (bf' & Hf' & Hq) Hr]; [done|]. replace bf' with bf in * by congruence. clear bf' Hf'.
    destruct (wf_parent _ (co_index _ H) f bf q Hf Hq) as (bq & Hbq & Eh).
    assert (~ usable (index_of st) (chainActive st) f) as Hu.
    { intros Hu. assert (rtc (parent (index_of st)) f t) as Hft by (apply (rtc_l _ f q); [by exists bf|done]).
      destruct (Hu t bt Hft Ht Hoff). destruct Hbad; congruence. }
    set (st1 := if ff then _ else _).
    assert (pruned st st1 /\ candidates_ok st1 /\ index_of st1 !! t = Some bt /\ is_Some (index_of st1 !! q)) as (P1 & C1 & T1 & Q1).
    { subst st1. destruct ff.
      - destruct (mark_unusable st f H Hu) as [? ?]. split_and!; [done|done| |].
        + cbn. by rewrite lookup_alter_ne by congruence.
        + assert (q <> f). { intros ->. rewrite Hf in Hbq. injection Hbq as <-. lia. }
          cbn. rewrite lookup_alter_ne by congruence. by exists bq.
      - destruct (Hff eq_refl) as [Hd Hl].
        assert (pruned st (set_unlinked (mapBlocksUnlinked st ++ [(pprev bf, f)]) st)) as Hp.
        { split; try done; [intros r b Hr'; exists b; auto|]. intros Hall. rewrite (Hall t bt) in Hd; done. }
        split_and!; [done| |done|by exists bq].
        apply (candidates_ok_pruned st); [done|done|apply H|by apply (pruned_invalid st)]. }
    rewrite Hq. cbn [mbind option_bind].
    assert (is_Some (index_of st1 !! f)) as F1. { destruct (pr_index _ _ P1 f bf Hf) as (b' & ? & _). by exists b'. }
    assert (~ usable (index_of st1) (chainActive st1) f) as Hu1 by by rewrite (pruned_usable st st1).
    destruct (erase_unusable st1 f C1 F1 Hu1) as (P2 & C2 & N2).
    destruct Q1 as [bq1 Hq1].
    destruct (same_but_status_lookup _ _ q bq (pruned_status _ _ P1) Hbq) as (bq' & Hbq' & Eq).
    replace bq' with bq1 in * by congruence. destruct (core_eq _ _ (strip_core _ _ Eq)) as (_ & Ehq & _).
    destruct (IH (erase_candidate f st1) q bq1) as (st' & Hst' & P3 & C3 & T3 & N3); [done|done| |done|done| |done| |].
    + cbn. by rewrite (pr_chain _ _ P1).
    + by apply (core_rtc _ _ (same_but_status_core _ _ (pruned_status _ _ P1))).
    + lia.
    + exists st'. split_and!; [done| |done|done|].
      * apply (pruned_trans _ st1); [done|]. by apply (pruned_trans _ (erase_candidate f st1)).
      * intros _ Hin. by apply N2, (pr_sub _ _ P3).
Qed.

Lemma usable_step m c t b :
  m !! t = Some b -> failed b = false -> have_data b = true ->
  (forall q, pprev b = Some q -> usable m c q) -> usable m c t.
Proof.
  intros Ht Hf Hd Hq r d Hr Hd' Hoff. destruct Hr as [t|t q r (b' & Hb' & Hq') Hr].
  - by replace d with b in * by congruence.
  - replace b' with b in * by congruence. by apply (Hq q Hq' r).
Qed.

Lemma usable_active m c tip t b :
  index_wf m -> chain_of m c tip -> m !! t = Some b -> chain_at c (nHeight b) = Some t -> usable m c t.
Proof.
  intros Hwf Hc Ht Hin r d Hr Hd Hoff. exfalso. apply Hoff.
  pose proof (wf_height m Hwf r d Hd) as Hd0.
  destruct (rtc_height m Hwf t r (nHeight b) Hr) as (h & Hh & Hle & _); [unfold height; by rewrite Ht|].
  unfold height in Hh. rewrite Hd in Hh. injection Hh as <-.
  destruct (chain_of_below m Hwf c tip (nHeight b) t Hc Hin ltac:(congruence) (nHeight d)) as (r' & Hr' & Ha); [lia|].
  rewrite Hr'. f_equal. apply (ancestor_unique m Hwf t (nHeight d)); [done|]. split; [done|]. unfold height. by rewrite Hd.
Qed.

Lemma test_chain_spec fuel st new bn t bt :
  candidates_ok st -> new ∈ setBlockIndexCandidates st -> index_of st !! new = Some bn ->
  rtc (parent (index_of st)) new t -> index_of st !! t = Some bt -> nChainTx bt <> 0 ->
  (usable (index_of st) (chainActive st) t -> usable (index_of st) (chainActive st) new) ->
  nHeight bt < Z.of_nat fuel ->
  exists st' flag, test_chain fuel new (Some t) st = Some (st', flag) /\
    if (flag : bool) then pruned st st' /\ candidates_ok st' /\ new ∉ setBlockIndexCandidates st' /\
      ~ usable (index_of st) (chainActive st) new
    else st' = st /\ usable (index_of st) (chainActive st) new.
Proof.
  revert t bt. induction fuel as [|fuel IH]; intros t bt H Hin Hn Hr Ht Hl Hu Hf.
  { pose proof (wf_height _ (co_index _ H) t bt Ht). lia. }
  cbn [test_chain]. rewrite (Contains_spec _ _ _ _ Ht). cbn [mbind option_bind]. case_bool_decide as Hact.
  { exists st, false. split; [done|]. split; [done|]. apply Hu, (usable_active _ _ _ t bt (co_index _ H) (co_chain _ H)); done. }
  unfold block_at. rewrite Ht. cbn [mbind option_bind]. rewrite (proj2 (Z.eqb_neq _ _) Hl). cbn [negb orb].
  destruct (failed bt || negb (have_data bt)) eqn:Ebad.
  - assert (failed bt = true \/ have_data bt = false) as Hbad by (apply orb_prop in Ebad as [?|?%negb_true_iff]; auto).
    assert (~ usable (index_of st) (chainActive st) t) as Hnt.
    { intros Hut. destruct (Hut t bt ltac:(done) Ht Hact). destruct Hbad; congruence. }
    assert (~ usable (index_of st) (chainActive st) new) as Hnu.
    { intros Hnew. apply Hnt. intros r d Hr'. apply Hnew. by etrans. }
    rewrite Hn. cbn [mbind option_bind].
    assert (exists more : bool, (if failed bt then more_work_than st bn (pindexBestInvalid st) else Some false) = Some more)
      as (more & ->).
    { destruct (failed bt); [|by eexists]. apply more_work_total, H. }
    cbn [mbind option_bind]. set (st1 := if more then _ else _).
    assert (pruned st st1 /\ candidates_ok st1 /\ index_of st1 = index_of st /\ chainActive st1 = chainActive st)
      as (P1 & C1 & E1 & E2).
    { subst st1. destruct more; [|by split_and!; [apply pruned_refl|..]].
      destruct (best_invalid_pruned st new H ltac:(by exists bn)). by split_and!. }
    destruct (remove_chain_spec (Z.to_nat (nHeight bn - nHeight bt)) st1 t bt new bn (failed bt))
      as (st2 & -> & P2 & C2 & T2 & N2); rewrite ?E1, ?E2; try done; try lia.
    { intros Hfl. rewrite Hfl in Hbad. by destruct Hbad. }
    cbn [mbind option_bind].
    assert (pruned st st2) as P12 by by apply (pruned_trans _ st1).
    destruct (erase_unusable st2 t C2 ltac:(by exists bt)) as (P3 & C3 & N3); [by rewrite (pruned_usable st st2)|].
    exists (erase_candidate t st2), true. split; [done|]. split_and!; [by apply (pruned_trans _ st2)|done| |done].
    destruct (decide (new = t)) as [->|Hne]; [done|]. intros Hin3. by apply (N2 Hne), (pr_sub _ _ P3).
  - apply orb_false_elim in Ebad as [Efail Edata%negb_false_iff]. destruct (pprev bt) as [q|] eqn:Hq.
    + destruct (wf_parent _ (co_index _ H) t bt q Ht Hq) as (c & Hc & Eh).
      destruct (co_parents _ H t bt q Ht Hl Hq) as (c' & Hc' & Hcn). replace c' with c in * by congruence.
      apply (IH q c); try done; [| |lia].
      * eapply rtc_r; [done|]. by exists bt.
      * intros Huq. apply Hu. apply (usable_step _ _ t bt); try done. rewrite Hq. by intros q' [= <-].
    + exists st, false. destruct fuel; cbn [test_chain]; (split; [done|]; split; [done|]).
      all: apply Hu, (usable_step _ _ t bt); [done..|]. all: rewrite Hq; intros q' [=].
Qed.

Lemma find_loop_spec fuel st :
  candidates_ok st -> (length (setBlockIndexCandidates st) <= fuel)%nat ->
  exists st' r, find_loop fuel st = Some (st', r) /\ pruned st st' /\ candidates_ok st' /\
    r = last (setBlockIndexCandidates st') /\ forall p, r = Some p -> usable (index_of st) (chainActive st) p.
Proof.
  revert st. induction fuel as [|fuel IH]; intros st H Hlen; cbn [find_loop].
  all: destruct (last (setBlockIndexCandidates st)) as [new|] eqn:El;
    [|exists st, None; split_and!; [done|apply pruned_refl|done|done|done]].
  { destruct (setBlockIndexCandidates st); [done|cbn in Hlen; lia]. }
  pose proof (last_Some_elem_of _ _ El) as Hin. destruct (co_linked _ H new Hin) as (b & Hb & Hl).
  unfold block_at. rewrite Hb. cbn [mbind option_bind].
  destruct (test_chain_spec (S (Z.to_nat (nHeight b))) st new b new b) as (st1 & flag & -> & Hflag); try done; [lia|].
  cbn [mbind option_bind]. destruct flag; cbn [negb].
  - destruct Hflag as (P1 & C1 & N1 & Hnu).
    assert (length (setBlockIndexCandidates st1) < length (setBlockIndexCandidates st))%nat as Hlt.
    { assert (new :: setBlockIndexCandidates st1 ⊆+ setBlockIndexCandidates st) as Hsub.
      { apply NoDup_submseteq.
        - constructor; [done|].
          apply (sorted_NoDup _ _ (candidates_order st1 C1)); [by apply candidates_in|apply C1].
        - intros x Hx. apply elem_of_cons in Hx as [->|Hx]; [done|]. by apply (pr_sub _ _ P1). }
      apply submseteq_length in Hsub. cbn in Hsub. lia. }
    destruct (IH st1 C1) as (st' & r & -> & P2 & C2 & Er & Hr); [lia|].
    exists st', r. split_and!; [done|by apply (pruned_trans _ st1)|done|done|].
    intros p Hp. by apply (pruned_usable st st1), Hr.
  - destruct Hflag as [-> Hu]. exists st, (Some new). split_and!; [done|apply pruned_refl|done|done|]. by intros p [= <-].
Qed.

(** *** The invariant *)

(** The number of transactions of a chain, without bound. *)
Inductive path_txs (m : index_map) : ptr -> Z -> Prop :=
  | path_genesis p b : m !! p = Some b -> pprev b = None -> path_txs m p (nTx b)
  | path_step p b q n : m !! p = Some b -> pprev b = Some q -> path_txs m q n -> path_txs m p (n + nTx b).

(** All blocks from [p] down have their data and have not failed. *)
Definition valid (m : index_map) (p : ptr) : Prop :=
  forall r b, rtc (parent m) p r -> m !! r = Some b -> failed b = false /\ have_data b = true.

Record chain_wf (st : CChainState) : Prop := {
  cw_tree : tree_wf (tree st);
  cw_cand : candidates_ok st;
  cw_active : forall t, Tip (chainActive st) = Some t ->
    valid (index_of st) t /\ exists b, index_of st !! t = Some b /\ nChainTx b <> 0;
  cw_data : forall p b, index_of st !! p = Some b -> 0 <= nTx b /\ (have_data b = true <-> nTx b <> 0);
  cw_txs : forall p b, index_of st !! p = Some b -> nChainTx b <> 0 ->
    nTx b <> 0 /\ path_txs (index_of st) p (nChainTx b);
  cw_unlinked : NoDup (mapBlocksUnlinked st).*2 /\
    forall o p, (o, p) ∈ mapBlocksUnlinked st ->
      exists b q, index_of st !! p = Some b /\ pprev b = o /\ o = Some q /\ nTx b <> 0 /\ nChainTx b = 0;
  cw_failed : sorted Pos.ltb (g_failed_blocks st) /\
    forall p, p ∈ g_failed_blocks st -> exists b, index_of st !! p = Some b /\ Z.testbit (nStatus b) 5 = true;
  cw_forks : forall q, pindexBestForkTip st = Some q \/ pindexBestForkBase st = Some q -> is_Some (index_of st !! q);
}.

(** No branch has 2^32 transactions ([nChainTx] is 32 bits wide, and zero
    means that a predecessor is missing). *)
Definition txs_bounded (m : index_map) : Prop := forall p n, path_txs m p n -> n < 2 ^ 32.

Lemma path_txs_det m p n1 n2 : path_txs m p n1 -> path_txs m p n2 -> n1 = n2.
Proof. intros H. revert n2. induction H; intros n2 H2; inversion H2; subst; simplify_eq; auto. f_equal; auto. Qed.

Lemma path_txs_core m m' p n :
  same_core m m' -> (forall r b b', m !! r = Some b -> m' !! r = Some b' -> nTx b' = nTx b) ->
  path_txs m p n -> path_txs m' p n.
Proof.
  intros H Ht Hp. induction Hp as [p b Hb Hq|p b q n Hb Hq Hp IH];
    destruct (same_core_lookup _ _ p b H Hb) as (b' & Hb' & E); rewrite <- (Ht p b b' Hb Hb');
    destruct (core_eq _ _ E) as (Eq & _).
  - apply path_genesis; [done|congruence].
  - eapply path_step; [done|by rewrite Eq|done].
Qed.

(** An active block is valid, and being usable is being valid. *)
Lemma active_rtc m c tip t p b :
  index_wf m -> chain_of m c tip -> tip = Some t -> m !! p = Some b -> chain_at c (nHeight b) = Some p ->
  rtc (parent m) t p.
Proof.
  intros Hwf Hc -> Hp Hin. destruct Hc as (bt & Hbt & Hl & Ha).
  destruct (Ha (nHeight b)) as (r & Hr & Hra); [pose proof (chain_at_range _ _ _ Hin); lia|].
  rewrite Hin in Hr. injection Hr as <-. apply Hra.
Qed.

Lemma valid_rtc m p q : valid m p -> rtc (parent m) p q -> valid m q.
Proof. intros Hv Hr r b Hr'. apply Hv. by etrans. Qed.

Lemma active_valid st p b : chain_wf st -> index_of st !! p = Some b ->
  chain_at (chainActive st) (nHeight b) = Some p -> valid (index_of st) p.
Proof.
  intros H Hp Hin. destruct (Tip (chainActive st)) as [t|] eqn:Et.
  - apply (valid_rtc _ t); [by apply (cw_active _ H)|].
    apply (active_rtc _ (chainActive st) (Some t) t p b); [apply (cw_cand _ H)| |done..].
    rewrite <- Et. apply (cw_cand _ H).
  - pose proof (co_chain _ (cw_cand _ H)) as Hc. rewrite Et in Hc. cbn in Hc. rewrite Hc in Hin.
    apply chain_at_range in Hin. change (Z.of_nat (length [])) with 0 in Hin. lia.
Qed.

Lemma usable_valid st p : chain_wf st ->
  usable (index_of st) (chainActive st) p <-> valid (index_of st) p.
Proof.
  intros H. split; [|by intros Hv r b Hr Hb _; apply (Hv r b)].
  intros Hu r b Hr Hb. destruct (decide (chain_at (chainActive st) (nHeight b) = Some r)) as [Hin|Hoff].
  - by apply (active_valid st r b H Hb Hin r).
  - by apply (Hu r b).
Qed.

(** A change of status that leaves the active chain alone. *)
Record status_step (st st' : CChainState) : Prop := {
  ss_status : same_but_status (index_of st) (index_of st');
  ss_bits : forall p b b', index_of st !! p = Some b -> index_of st' !! p = Some b' ->
    have_data b' = have_data b /\ (Z.testbit (nStatus b) 5 = true -> Z.testbit (nStatus b') 5 = true) /\
    (failed b = true -> failed b' = true);
  ss_active : forall p b b', index_of st !! p = Some b -> chain_at (chainActive st) (nHeight b) = Some p ->
    index_of st' !! p = Some b' -> failed b' = failed b;
  ss_chain : chainActive st' = chainActive st;
  ss_unlinked : mapBlocksUnlinked st' = mapBlocksUnlinked st;
  ss_maps : mapBlockIndex (tree st') = mapBlockIndex (tree st) /\ pindexBestHeader (tree st') = pindexBestHeader (tree st);
  ss_cand : sorted (work_less (index_of st)) (setBlockIndexCandidates st') /\
    forall p, p ∈ setBlockIndexCandidates st' -> p ∈ setBlockIndexCandidates st;
  ss_failed : sorted Pos.ltb (g_failed_blocks st') /\
    forall p, p ∈ g_failed_blocks st' -> p ∈ g_failed_blocks st \/
      exists b', index_of st' !! p = Some b' /\ Z.testbit (nStatus b') 5 = true;
  ss_ptrs : forall q, pindexBestInvalid st' = Some q \/ pindexBestForkTip st' = Some q \/ pindexBestForkBase st' = Some q ->
    is_Some (index_of st !! q);
}.

Lemma chain_wf_status st st' : chain_wf st -> status_step st st' -> chain_wf st'.
Proof.
  intros H S. pose proof (ss_status _ _ S) as Hst. pose proof (same_but_status_core _ _ Hst) as Hc.
  pose proof (same_but_status_sym _ _ Hst) as Hst'.
  assert (forall q, is_Some (index_of st !! q) -> is_Some (index_of st' !! q)) as Hdom.
  { intros q [b Hb]. destruct (same_but_status_lookup _ _ q b Hst Hb) as (b' & ? & _). by exists b'. }
  assert (forall p b', index_of st' !! p = Some b' -> exists b, index_of st !! p = Some b /\ strip b = strip b') as Hback.
  { intros p b' Hb'. apply (same_but_status_lookup _ _ p b' Hst' Hb'). }
  split.
  - destruct (ss_maps _ _ S) as [E1 E2]. destruct (tree st') as [hp map best dirty] eqn:Et. cbn in E1, E2. subst.
    replace hp with (index_of st') by (unfold index_of; by rewrite Et).
    apply (core_tree_wf (index_of st) _ Hc _ _ (setDirtyBlockIndex (tree st))).
    replace {| heap := index_of st; mapBlockIndex := _; pindexBestHeader := _; setDirtyBlockIndex := _ |} with (tree st)
      by (unfold index_of; by destruct (tree st)). apply H.
  - destruct (ss_cand _ _ S) as [S1 S2]. split.
    + apply (core_index_wf _ _ Hc), (cw_cand _ H).
    + apply (core_works _ _ Hc), (cw_cand _ H).
    + rewrite (ss_chain _ _ S). apply (core_chain_of _ _ Hc), (cw_cand _ H).
    + apply (sorted_agree (work_less (index_of st))); [|done]. intros x y _ _. by apply status_work_less.
    + intros p Hp. destruct (co_linked _ (cw_cand _ H) p (S2 p Hp)) as (b & Hb & Hn).
      destruct (same_but_status_lookup _ _ p b Hst Hb) as (b' & Hb' & E). exists b'.
      by destruct (strip_eq _ _ E) as (_ & -> & _).
    + intros p b' q Hb' Hn Hq. destruct (Hback p b' Hb') as (b & Hb & E).
      destruct (strip_eq _ _ E) as (_ & Et & _). destruct (core_eq _ _ (strip_core _ _ E)) as (Eq & _).
      destruct (co_parents _ (cw_cand _ H) p b q Hb) as (c & Hcq & Hcn); [congruence..|].
      destruct (same_but_status_lookup _ _ q c Hst Hcq) as (c' & Hc' & Ec). exists c'.
      by destruct (strip_eq _ _ Ec) as (_ & -> & _).
    + intros q Hq. apply Hdom, (ss_ptrs _ _ S). auto.
  - rewrite (ss_chain _ _ S). intros t Ht. destruct (cw_active _ H t Ht) as [Hv (b & Hb & Hn)]. split.
    + intros r d' Hr Hd'. apply (core_rtc _ _ Hc) in Hr. destruct (Hback r d' Hd') as (d & Hd & E).
      pose proof (co_chain _ (cw_cand _ H)) as Hch. rewrite Ht in Hch. destruct Hch as (bt & Hbt & Hl & Ha).
      destruct (rtc_height _ (co_index _ (cw_cand _ H)) t r (nHeight bt) Hr) as (h & Hh & Hle & _).
      { unfold height. by rewrite Hbt. }
      unfold height in Hh. rewrite Hd in Hh. injection Hh as <-.
      pose proof (wf_height _ (co_index _ (cw_cand _ H)) r d Hd).
      destruct (Ha (nHeight d) ltac:(lia)) as (r' & Hr' & Hra).
      assert (r' = r) as ->.
      { apply (ancestor_unique _ (co_index _ (cw_cand _ H)) t (nHeight d)); [done|]. split; [done|].
        unfold height. by rewrite Hd. }
      rewrite (ss_active _ _ S r d d' Hd Hr' Hd'). destruct (ss_bits _ _ S r d d' Hd Hd') as (-> & _). by apply (Hv r d).
    + destruct (same_but_status_lookup _ _ t b Hst Hb) as (b' & Hb' & E). exists b'.
      by destruct (strip_eq _ _ E) as (_ & -> & _).
  - intros p b' Hb'. destruct (Hback p b' Hb') as (b & Hb & E). destruct (strip_eq _ _ E) as (_ & _ & <-).
    destruct (ss_bits _ _ S p b b' Hb Hb') as (-> & _). exact (cw_data _ H p b Hb).
  - intros p b' Hb' Hn. destruct (Hback p b' Hb') as (b & Hb & E). destruct (strip_eq _ _ E) as (_ & E1 & <-).
    rewrite <- E1 in *. destruct (cw_txs _ H p b Hb Hn) as [? Hp]. split; [done|].
    apply (path_txs_core (index_of st)); [done| |done]. intros r d d' Hd Hd'.
    destruct (Hback r d' Hd') as (d2 & Hd2 & Ed). replace d2 with d in * by congruence.
    by destruct (strip_eq _ _ Ed) as (_ & _ & ->).
  - rewrite (ss_unlinked _ _ S). destruct (cw_unlinked _ H) as [U1 U2]. split; [done|]. intros o p Hop.
    destruct (U2 o p Hop) as (b & q & Hb & E1 & E2 & E3 & E4).
    destruct (same_but_status_lookup _ _ p b Hst Hb) as (b' & Hb' & E). exists b', q.
    destruct (strip_eq _ _ E) as (_ & -> & ->). by destruct (core_eq _ _ (strip_core _ _ E)) as (-> & _).
  - destruct (ss_failed _ _ S) as [F1 F2]. split; [done|]. intros p Hp. destruct (F2 p Hp) as [Hp'|]; [|done].
    destruct (cw_failed _ H) as [_ F3]. destruct (F3 p Hp') as (b & Hb & Hbit).
    destruct (same_but_status_lookup _ _ p b Hst Hb) as (b' & Hb' & E). exists b'. split; [done|].
    by apply (ss_bits _ _ S p b b').
  - intros q Hq. apply Hdom, (ss_ptrs _ _ S). tauto.
Qed.

(** Every valid block that is as good as [base] is a candidate. *)
Definition complete (st : CChainState) (base : option ptr) : Prop :=
  forall p b, index_of st !! p = Some b -> nChainTx b <> 0 -> valid (index_of st) p ->
    (forall t, base = Some t -> work_less (index_of st) p t = false) -> p ∈ setBlockIndexCandidates st.

Lemma pruned_step st st' : chain_wf st -> candidates_ok st' -> pruned st st' -> status_step st st'.
Proof.
  intros H C P. pose proof (pruned_status _ _ P) as Hst. split.
  - done.
  - intros p b b' Hb Hb'. destruct (pr_index _ _ P p b Hb) as (b2 & Hb2 & [->|[_ ->]]);
      (rewrite Hb' in Hb2; injection Hb2 as ->); [done|].
    split; [|split; [|by rewrite failed_add]]; rewrite ?have_data_bit; cbn [add_status set_nStatus nStatus]; rewrite !Z.lor_spec.
    + change (Z.testbit BLOCK_FAILED_CHILD 3) with false. apply orb_false_r.
    + by intros ->.
  - intros p b b' Hb Hin Hb'. destruct (pr_index _ _ P p b Hb) as (b2 & Hb2 & [->|[Hu _]]); [congruence|].
    exfalso. apply Hu, (usable_active _ _ (Tip (chainActive st)) p b); [apply H| |done..]. apply (cw_cand _ H).
  - apply P.
  - apply (pr_unlinked _ _ P). intros p b Hb Hn. destruct (cw_txs _ H p b Hb Hn) as [Ht _].
    by apply (cw_data _ H p b Hb).
  - apply P.
  - split; [|apply P]. apply (sorted_agree (work_less (index_of st'))); [|apply C].
    intros x y _ _. symmetry. by apply status_work_less.
  - rewrite (pr_failed _ _ P). split; [apply H|]. by left.
  - destruct (pr_forks _ _ P) as [-> ->]. intros q [Hq|Hq]; [|by apply (cw_forks _ H)].
    destruct (co_invalid _ C q Hq) as [b' Hb'].
    destruct (same_but_status_lookup _ _ q b' (same_but_status_sym _ _ Hst) Hb') as (b & ? & _). by exists b.
Qed.

Lemma pruned_valid st st' p : chain_wf st -> chain_wf st' -> pruned st st' ->
  valid (index_of st') p <-> valid (index_of st) p.
Proof. intros H H' P. rewrite <- !usable_valid by done. by apply pruned_usable. Qed.

Lemma pruned_complete st st' base : chain_wf st -> chain_wf st' -> pruned st st' ->
  complete st base -> complete st' base.
Proof.
  intros H H' P Hco p b' Hb' Hn Hv Hbase. pose proof (pruned_status _ _ P) as Hst.
  destruct (same_but_status_lookup _ _ p b' (same_but_status_sym _ _ Hst) Hb') as (b & Hb & E).
  destruct (strip_eq _ _ E) as (_ & E1 & _). apply (pruned_valid st st') in Hv; [|done..].
  apply (pr_kept _ _ P); [|by apply usable_valid]. apply (Hco p b); [done|congruence|done|].
  intros t Ht. rewrite <- (status_work_less _ _ _ _ Hst). by apply Hbase.
Qed.

(** [FindMostWorkChain] on a well-formed state. *)
Lemma FindMostWorkChain_wf st base : chain_wf st -> complete st base ->
  exists st' r, FindMostWorkChain st = Some (st', r) /\ chain_wf st' /\ complete st' base /\ pruned st st' /\
    r = last (setBlockIndexCandidates st') /\ (forall p, r = Some p -> valid (index_of st) p).
Proof.
  intros H Hco. unfold FindMostWorkChain.
  destruct (find_loop_spec (length (setBlockIndexCandidates st)) st (cw_cand _ H)) as (st' & r & -> & P & C & Er & Hr); [done|].
  assert (chain_wf st') as H' by by apply (chain_wf_status st), pruned_step.
  exists st', r. split_and!; [done|done|by apply (pruned_complete st)|done|done|].
  intros p Hp. by apply usable_valid, Hr.
Qed.

(** The candidates are complete down to [base], which is a linked block not
    worse than the tip: the tip itself between two activations, the tip of before
    while blocks are being disconnected. *)
Record based (st : CChainState) (base : option ptr) : Prop := {
  bs_complete : complete st base;
  bs_linked : forall u, base = Some u -> exists b, index_of st !! u = Some b /\ nChainTx b <> 0;
  bs_below : forall t, Tip (chainActive st) = Some t -> exists u, base = Some u /\ work_less (index_of st) u t = false;
}.

Lemma FindMostWorkChain_based st : chain_wf st -> based st (Tip (chainActive st)) ->
  exists st' r, FindMostWorkChain st = Some (st', r) /\ chain_wf st' /\ based st' (Tip (chainActive st)) /\ pruned st st' /\
    (forall p, r = Some p -> valid (index_of st) p /\ exists b, index_of st !! p = Some b /\ nChainTx b <> 0) /\
    (forall q b, index_of st !! q = Some b -> nChainTx b <> 0 -> valid (index_of st) q ->
       exists p, r = Some p /\ (q = p \/ work_less (index_of st) q p = true)).
Proof.
  intros H [B1 B2 B3]. destruct (FindMostWorkChain_wf st _ H B1) as (st' & r & E & W & Co & P & Er & Hv).
  pose proof (pruned_status _ _ P) as Hst. pose proof (work_less_order _ (co_works _ (cw_cand _ H))) as O.
  exists st', r. split; [done|]. split; [done|]. split; [|split; [done|split]].
  - split; [done| |rewrite (pr_chain _ _ P); intros t Ht; destruct (B3 t Ht) as (u & Hu & Hl); exists u;
      by rewrite (status_work_less _ _ _ _ Hst)].
    intros u Hu. destruct (B2 u Hu) as (b & Hb & Hn). destruct (same_but_status_lookup _ _ u b Hst Hb) as (b' & Hb' & E').
    exists b'. by destruct (strip_eq _ _ E') as (_ & -> & _).
  - intros p Hp. split; [by apply Hv|]. rewrite Hp in Er. symmetry in Er. apply last_Some_elem_of in Er.
    by apply (co_linked _ (cw_cand _ H)), P.
  - assert (forall q, q ∈ setBlockIndexCandidates st -> valid (index_of st) q ->
      exists p, r = Some p /\ (q = p \/ work_less (index_of st) q p = true)) as Hin.
    { intros q Hq Hvq. apply (pr_kept _ _ P) in Hq; [|by apply usable_valid].
      destruct (last (setBlockIndexCandidates st')) as [p|] eqn:El; [|apply last_None in El; rewrite El in Hq; by apply elem_of_nil in Hq].
      exists p. split; [done|]. rewrite <- (status_work_less _ _ _ _ Hst).
      apply (sorted_last _ (setBlockIndexCandidates st')); [apply W|done|done]. }
    intros q b Hb Hn Hvq. destruct (Tip (chainActive st)) as [t|] eqn:Et.
    2: { apply Hin; [|done]. by apply (B1 q b). }
    destruct (work_less (index_of st) q t) eqn:El.
    2: { apply Hin; [|done]. apply (B1 q b); [done..|]. by intros ? [= <-]. }
    destruct (cw_active _ H t Et) as [Hvt (bt & Hbt & Hnt)].
    destruct (Hin t) as (p & -> & Hp); [|done|].
    { apply (B1 t bt); [done..|]. intros ? [= <-]. apply (so_irrefl _ _ O). by exists bt. }
    exists p. split; [done|]. right. destruct Hp as [<-|Hp]; [done|].
    apply (so_trans _ _ O q t p); [by exists b|by exists bt| |done|done].
    destruct (index_of st !! p) as [c|] eqn:Ep; [by exists c|]. unfold work_less in Hp. by rewrite Ep, Hbt in Hp.
Qed.

(** *** Warnings *)

(** Everything but the fields that the warnings use. *)
Record same_but_warnings (st st' : CChainState) : Prop := {
  sw_tree : tree st' = tree st;
  sw_chain : chainActive st' = chainActive st;
  sw_cand : setBlockIndexCandidates st' = setBlockIndexCandidates st;
  sw_unlinked : mapBlocksUnlinked st' = mapBlocksUnlinked st;
  sw_failed : g_failed_blocks st' = g_failed_blocks st;
  sw_counters : nBlockSequenceId st' = nBlockSequenceId st /\ nBlockReverseSequenceId st' = nBlockReverseSequenceId st /\
    nLastPreciousChainwork st' = nLastPreciousChainwork st;
  sw_ptrs : forall q, pindexBestInvalid st' = Some q \/ pindexBestForkTip st' = Some q \/ pindexBestForkBase st' = Some q ->
    is_Some (index_of st !! q);
}.

Definition ptrs_ok (st : CChainState) : Prop :=
  forall q, pindexBestInvalid st = Some q \/ pindexBestForkTip st = Some q \/ pindexBestForkBase st = Some q ->
    is_Some (index_of st !! q).

Lemma chain_wf_ptrs st : chain_wf st -> ptrs_ok st.
Proof. intros H q [Hq|Hq]; [by apply (co_invalid _ (cw_cand _ H))|by apply (cw_forks _ H)]. Qed.

Lemma warnings_refl st : ptrs_ok st -> same_but_warnings st st.
Proof. by split. Qed.

Lemma warnings_trans st1 st2 st3 : same_but_warnings st1 st2 -> same_but_warnings st2 st3 -> same_but_warnings st1 st3.
Proof.
  intros H1 H2. destruct (sw_counters _ _ H1) as (?&?&?), (sw_counters _ _ H2) as (?&?&?).
  split; [rewrite (sw_tree _ _ H2); apply H1|rewrite (sw_chain _ _ H2); apply H1|rewrite (sw_cand _ _ H2); apply H1
    |rewrite (sw_unlinked _ _ H2); apply H1|rewrite (sw_failed _ _ H2); apply H1|split_and!; congruence|].
  intros q Hq. unfold index_of. rewrite <- (sw_tree _ _ H1). by apply (sw_ptrs _ _ H2).
Qed.

Lemma warnings_ptrs st st' : same_but_warnings st st' -> ptrs_ok st'.
Proof. intros H q Hq. unfold index_of. rewrite (sw_tree _ _ H). by apply (sw_ptrs _ _ H). Qed.

Lemma warnings_step st st' : chain_wf st -> same_but_warnings st st' -> status_step st st'.
Proof.
  intros H S. assert (index_of st' = index_of st) as E by (unfold index_of; by rewrite (sw_tree _ _ S)).
  split; rewrite ?E.
  - by intros p.
  - intros p b b' Hb Hb'. by replace b' with b by congruence.
  - intros. congruence.
  - apply S.
  - apply S.
  - by rewrite (sw_tree _ _ S).
  - rewrite (sw_cand _ _ S). split; [apply (cw_cand _ H)|done].
  - rewrite (sw_failed _ _ S). split; [apply H|]. by left.
  - apply S.
Qed.

Lemma chain_wf_warnings st st' : chain_wf st -> same_but_warnings st st' -> chain_wf st'.
Proof. intros H S. by apply (chain_wf_status st), warnings_step. Qed.

Lemma tip_lookup st t : chain_wf st -> Tip (chainActive st) = Some t -> exists b, index_of st !! t = Some b.
Proof. intros H Ht. destruct (cw_active _ H t Ht) as [_ (b & Hb & _)]. by exists b. Qed.

Lemma IsInitialBlockDownload_total env st : chain_wf st ->
  exists st' v, IsInitialBlockDownload env st = Some (st', v) /\ same_but_warnings st st'.
Proof.
  intros H. pose proof (warnings_refl st (chain_wf_ptrs st H)) as Hr. unfold IsInitialBlockDownload.
  destruct (latchToFalse st); [by eexists _, _|]. destruct (fImporting env || fReindex env); [by eexists _, _|].
  destruct (Tip (chainActive st)) as [t|] eqn:Et; [|by eexists _, _].
  destruct (tip_lookup st t H Et) as (b & Hb). unfold block_at. rewrite Hb. cbn [mbind option_bind].
  destruct (ltb _ _ _); [by eexists _, _|]. destruct (_ <? _); [by eexists _, _|].
  eexists _, _. split; [done|]. destruct Hr. by split.
Qed.

Lemma block_proof st p b : chain_wf st -> index_of st !! p = Some b -> exists w, GetBlockProof (nBits b) = Some w.
Proof. intros H Hb. destruct (tw_work _ (cw_tree _ H) p b Hb) as (_ & w & Hw & _). by exists w. Qed.

Lemma large_work_ok a b st : ptrs_ok st -> same_but_warnings st (set_large_work a b st).
Proof. by split. Qed.

Lemma CheckForkWarningConditions_total env st : chain_wf st -> Tip (chainActive st) <> None ->
  exists st', CheckForkWarningConditions env st = Some st' /\ same_but_warnings st st'.
Proof.
  intros H0 Htip. unfold CheckForkWarningConditions.
  destruct (IsInitialBlockDownload_total env st H0) as (st1 & v & -> & S1). cbn [mbind option_bind].
  destruct v; [by exists st1|]. pose proof (chain_wf_warnings _ _ H0 S1) as H. rewrite <- (sw_chain _ _ S1) in Htip.
  assert (exists f, match pindexBestForkTip st1 with
    | None => Some None
    | Some f => b ← block_at st1 f; Some (if Height (chainActive st1) - nHeight b >=? 72 then None else Some f)
    end = Some f /\ forall q, f = Some q -> is_Some (index_of st1 !! q)) as (f & -> & Hf).
  { destruct (pindexBestForkTip st1) as [f|] eqn:Ef; [|by exists None].
    destruct (cw_forks _ H f (or_introl Ef)) as [b Hb]. unfold block_at. rewrite Hb. cbn [mbind option_bind].
    eexists. split; [done|]. intros q. destruct (_ >=? _); [done|]. intros [= <-]. by exists b. }
  cbn [mbind option_bind]. set (st2 := set_fork f _ st1).
  assert (same_but_warnings st1 st2) as S2.
  { destruct (warnings_refl _ (chain_wf_ptrs _ H)). split; try done. cbn. intros q [Hq|[Hq|Hq]]; [|by apply Hf|]; auto. }
  assert (exists w : bool, match f, pindexBestInvalid st2 with
    | Some _, _ => Some true
    | None, None => Some false
    | None, Some bad => bb ← block_at st2 bad; t ← Tip (chainActive st2); bt ← block_at st2 t;
        proof ← GetBlockProof (nBits bt); Some (gtb W (nChainWork bb) (add (nChainWork bt) (mul32 proof 6)))
    end = Some w) as (w & ->).
  { destruct f; [by eexists|]. destruct (pindexBestInvalid st2) as [bad|] eqn:Eb; [|by eexists].
    destruct (co_invalid _ (cw_cand _ H) bad Eb) as [bb Hbb]. unfold block_at. change (index_of st2) with (index_of st1).
    rewrite Hbb. cbn [mbind option_bind].
    change (chainActive st2) with (chainActive st1). destruct (Tip (chainActive st1)) as [t|] eqn:Et; [|done].
    destruct (tip_lookup _ t H Et) as (b & Hb). cbn [mbind option_bind].
    rewrite Hb. cbn [mbind option_bind]. destruct (block_proof _ t b H Hb) as (w & ->). by eexists. }
  cbn [mbind option_bind]. eexists. split; [done|]. apply (warnings_trans _ st1); [done|]. apply (warnings_trans _ st2); [done|].
  destruct w; [destruct f, (pindexBestForkBase st2)|]; by apply large_work_ok, (warnings_ptrs st1).
Qed.

Lemma shorten_total m fuel h q : index_wf m -> 0 <= h ->
  (forall r, q = Some r -> exists c, m !! r = Some c /\ nHeight c <= Z.of_nat fuel) ->
  exists r, shorten m fuel h q = Some r /\ forall p, r = Some p -> is_Some (m !! p).
Proof.
  intros Hwf Hh. revert q. induction fuel as [|fuel IH]; intros q Hq; destruct q as [q|]; cbn [shorten]; try (by exists None).
  all: destruct (Hq q eq_refl) as (c & Hc & Hle); rewrite Hc; cbn [mbind option_bind]; rewrite Z.gtb_ltb;
    destruct (Z.ltb_spec h (nHeight c)) as [Hlt|Hge]; [|exists (Some q); split; [done|]; intros p [= <-]; by exists c].
  - lia.
  - apply IH. intros r Hr. destruct (wf_parent m Hwf q c r Hc Hr) as (d & Hd & ?). exists d. split; [done|lia].
Qed.

Lemma fork_loop_total m fuel pf pl : index_wf m ->
  (forall r, pf = Some r -> exists b, m !! r = Some b /\ nHeight b < Z.of_nat fuel) ->
  (forall r, pl = Some r -> is_Some (m !! r)) ->
  exists r, fork_loop m fuel pf pl = Some r /\ forall p, r = Some p -> is_Some (m !! p).
Proof.
  intros Hwf. revert pf pl. induction fuel as [|fuel IH]; intros pf pl Hf Hl; destruct pf as [f|]; cbn [fork_loop];
    try (by exists None).
  { destruct (Hf f eq_refl) as (b & Hb & Hle). pose proof (wf_height m Hwf f b Hb). lia. }
  destruct (Hf f eq_refl) as (b & Hb & Hle).
  case_decide; [exists (Some f); split; [done|]; intros p [= <-]; by exists b|].
  rewrite Hb. cbn [mbind option_bind].
  assert (exists n, match pl with None => Some O | Some q => c ← m !! q; Some (Z.to_nat (nHeight c)) end = Some n /\
    forall r, pl = Some r -> exists c, m !! r = Some c /\ nHeight c <= Z.of_nat n) as (n & -> & Hn).
  { destruct pl as [q|]; [|by exists O]. destruct (Hl q eq_refl) as [c Hc]. rewrite Hc. eexists. split; [done|].
    intros r [= <-]. exists c. split; [done|lia]. }
  cbn [mbind option_bind].
  destruct (shorten_total m n (nHeight b) pl Hwf (wf_height m Hwf f b Hb) Hn) as (r & -> & Hr). cbn [mbind option_bind].
  case_decide; [exists (Some f); split; [done|]; intros p [= <-]; by exists b|].
  apply IH; [|done]. intros q Hq. destruct (wf_parent m Hwf f b q Hb Hq) as (c & Hc & ?). exists c. split; [done|lia].
Qed.

Lemma CheckForkWarningConditionsOnNewFork_total env p st :
  chain_wf st -> Tip (chainActive st) <> None -> is_Some (index_of st !! p) ->
  exists st', CheckForkWarningConditionsOnNewFork env p st = Some st' /\ same_but_warnings st st'.
Proof.
  intros H Htip [b Hb]. unfold CheckForkWarningConditionsOnNewFork, block_at. rewrite Hb. cbn [mbind option_bind].
  pose proof (co_index _ (cw_cand _ H)) as Hwf.
  destruct (fork_loop_total (index_of st) (S (Z.to_nat (nHeight b))) (Some p) (Tip (chainActive st)) Hwf) as (r & -> & Hr).
  { intros r [= <-]. exists b. split; [done|lia]. }
  { intros r Hr. destruct (tip_lookup st r H Hr) as (c & ?). by exists c. }
  cbn [mbind option_bind].
  assert (forall st1, same_but_warnings st st1 -> exists st',
    CheckForkWarningConditions env st1 = Some st' /\ same_but_warnings st st') as Hend.
  { intros st1 S1. destruct (CheckForkWarningConditions_total env st1) as (st2 & ? & S2);
      [by apply (chain_wf_warnings st)|by rewrite (sw_chain _ _ S1)|].
    exists st2. split; [done|]. by apply (warnings_trans _ st1). }
  pose proof (warnings_refl st (chain_wf_ptrs st H)) as Hrefl.
  destruct r as [f|]; [|by apply Hend]. destruct (Hr f eq_refl) as [bf Hbf]. rewrite Hbf. cbn [mbind option_bind].
  assert (exists v, match pindexBestForkTip st with
    | None => Some true | Some t => bt ← index_of st !! t; Some (nHeight b >? nHeight bt) end = Some v) as (v & ->).
  { destruct (pindexBestForkTip st) as [t|] eqn:Et; [|by eexists].
    destruct (cw_forks _ H t (or_introl Et)) as [bt ->]. by eexists. }
  cbn [mbind option_bind]. destruct (block_proof st f bf H Hbf) as (w & ->). cbn [mbind option_bind]. apply Hend.
  destruct (_ && _); [|done]. split; try done. cbn. intros q [Hq|[[= <-]|[= <-]]]; [|by exists b|by exists bf].
  apply (chain_wf_ptrs st H). auto.
Qed.

Lemma InvalidChainFound_total env p st :
  chain_wf st -> Tip (chainActive st) <> None -> is_Some (index_of st !! p) ->
  exists st', InvalidChainFound env p st = Some st' /\ same_but_warnings st st'.
Proof.
  intros H Htip [b Hb]. unfold InvalidChainFound, block_at. rewrite Hb. cbn [mbind option_bind].
  destruct (more_work_total st b (pindexBestInvalid st)) as (v & ->); [by apply (co_invalid _ (cw_cand _ H))|].
  cbn [mbind option_bind]. set (st1 := if v then _ else _).
  assert (same_but_warnings st st1) as S1.
  { pose proof (chain_wf_ptrs st H) as Hp. subst st1. destruct v; [|by apply warnings_refl]. split; try done. cbn.
    intros q [[= <-]|Hq]; [by exists b|]. apply Hp. auto. }
  rewrite (sw_chain _ _ S1). destruct (Tip (chainActive st)) as [t|] eqn:Et; [|done]. cbn [mbind option_bind].
  destruct (CheckForkWarningConditions_total env st1) as (st2 & -> & S2);
    [by apply (chain_wf_warnings st)|by rewrite (sw_chain _ _ S1), Et|].
  exists st2. split; [done|]. by apply (warnings_trans _ st1).
Qed.

(** *** Marking a block as failed *)

Lemma ltb_order : strict_order Pos.ltb (fun _ => True).
Proof.
  split.
  - intros x _. apply Pos.ltb_irrefl.
  - intros x y z _ _ _. rewrite !Pos.ltb_lt. lia.
  - intros x y _ _. rewrite !Pos.ltb_ge. lia.
Qed.

Lemma elem_of_insert_failed p l q : q ∈ set_insert Pos.ltb p l <-> q = p \/ q ∈ l.
Proof. apply (elem_of_set_insert _ _ ltb_order); [by apply Forall_true|done]. Qed.

(** The part of [InvalidBlockFound] before the warnings. *)
Definition mark_failed (p : ptr) (st : CChainState) : CChainState :=
  erase_candidate p (dirty p (insert_failed p (update p (add_status BLOCK_FAILED_VALID) st))).

Lemma mark_failed_step st p b :
  chain_wf st -> index_of st !! p = Some b -> chain_at (chainActive st) (nHeight b) <> Some p ->
  status_step st (mark_failed p st).
Proof.
  intros H Hp Hoff. assert (same_but_status (index_of st) (alter (add_status BLOCK_FAILED_VALID) p (index_of st))) as Hst.
  { intros q. destruct (decide (q = p)) as [->|]; [by rewrite lookup_alter_eq, Hp|by rewrite lookup_alter_ne]. }
  split; cbn -[Z.testbit]; try done.
  - intros q c c' Hc. destruct (decide (q = p)) as [->|]; [|rewrite lookup_alter_ne by done; intros; by simplify_eq].
    rewrite lookup_alter_eq, Hc. intros [= <-]. rewrite !have_data_bit, !failed_bits. cbn [add_status set_nStatus nStatus].
    rewrite !Z.lor_spec. change (Z.testbit BLOCK_FAILED_VALID 3) with false. rewrite orb_false_r.
    split; [done|]. change (Z.testbit BLOCK_FAILED_VALID 5) with true. by rewrite !orb_true_r.
  - intros q c c' Hc Hin. rewrite lookup_alter_ne; [congruence|]. intros ->. by replace c with b in * by congruence.
  - split.
    + apply (sorted_sublist _ _ _ (set_erase_sublist _ _ _)), (cw_cand _ H).
    + intros q Hq. apply (elem_of_sublist _ _ _ Hq), set_erase_sublist.
  - split; [apply (set_insert_sorted _ _ ltb_order); [by apply Forall_true|done|apply H]|].
    intros q Hq. apply elem_of_insert_failed in Hq as [->|]; [right|by left]. rewrite lookup_alter_eq, Hp.
    eexists. split; [done|]. cbn [add_status set_nStatus nStatus]. rewrite Z.lor_spec. apply orb_true_r.
  - apply (chain_wf_ptrs _ H).
Qed.

Lemma mark_failed_spec st p b base :
  chain_wf st -> complete st base -> index_of st !! p = Some b -> chain_at (chainActive st) (nHeight b) <> Some p ->
  chain_wf (mark_failed p st) /\ complete (mark_failed p st) base /\ ~ valid (index_of (mark_failed p st)) p /\
  (forall q, valid (index_of (mark_failed p st)) q -> valid (index_of st) q).
Proof.
  intros H Hco Hp Hoff. pose proof (mark_failed_step st p b H Hp Hoff) as S.
  pose proof (chain_wf_status _ _ H S) as H'. pose proof (same_but_status_core _ _ (ss_status _ _ S)) as Hc.
  assert (index_of (mark_failed p st) !! p = Some (add_status BLOCK_FAILED_VALID b)) as Hp'.
  { cbn. by rewrite lookup_alter_eq, Hp. }
  assert (forall q, valid (index_of (mark_failed p st)) q -> ~ rtc (parent (index_of st)) q p) as Hnot.
  { intros q Hv Hr. destruct (Hv p _ (proj1 (core_rtc _ _ Hc q p) Hr) Hp') as [Hf _].
    rewrite failed_bits in Hf. cbn [add_status set_nStatus nStatus] in Hf. rewrite !Z.lor_spec in Hf.
    change (Z.testbit BLOCK_FAILED_VALID 5) with true in Hf. by rewrite orb_true_r in Hf. }
  assert (forall q, valid (index_of (mark_failed p st)) q -> valid (index_of st) q) as Hval.
  { intros q Hv r d Hr Hd. apply (Hv r d); [by apply (core_rtc _ _ Hc)|]. cbn. rewrite lookup_alter_ne; [done|].
    intros <-. by apply (Hnot q Hv). }
  split_and!; [done| | |done].
  - intros q d' Hd' Hn Hv Hbase. pose proof (Hnot q Hv) as Hq.
    assert (q <> p) as Hqp by (by intros ->; apply Hq).
    cbn in Hd'. rewrite lookup_alter_ne in Hd' by done.
    assert (q ∈ setBlockIndexCandidates st) as Hin.
    { apply (Hco q d'); [done|done|by apply Hval|]. intros t Ht.
      rewrite <- (status_work_less _ _ _ _ (ss_status _ _ S)). by apply Hbase. }
    change (q ∈ set_erase (work_less (index_of (mark_failed p st))) p (setBlockIndexCandidates st)).
    apply (elem_of_set_erase _ _ (work_less_order _ (co_works _ (cw_cand _ H')))).
    + apply Forall_forall. intros r Hr. destruct (co_linked _ (cw_cand _ H) r Hr) as (c & Hc' & _).
      destruct (same_but_status_lookup _ _ r c (ss_status _ _ S) Hc') as (c' & ? & _). by exists c'.
    + by eexists.
    + apply (sorted_agree (work_less (index_of st))); [|apply (cw_cand _ H)].
      intros x y _ _. apply status_work_less, S.
    + done.
  - intros Hv. by apply (Hnot p Hv).
Qed.

Lemma InvalidBlockFound_spec env st p b base :
  chain_wf st -> complete st base -> Tip (chainActive st) <> None ->
  index_of st !! p = Some b -> chain_at (chainActive st) (nHeight b) <> Some p ->
  exists st', InvalidBlockFound env p false st = Some st' /\ same_but_warnings (mark_failed p st) st' /\
    chain_wf st' /\ complete st' base.
Proof.
  intros H Hco Htip Hp Hoff. destruct (mark_failed_spec st p b base H Hco Hp Hoff) as (H1 & Hco1 & _ & _).
  unfold InvalidBlockFound. cbn [negb]. fold (mark_failed p st).
  destruct (InvalidChainFound_total env p (mark_failed p st) H1) as (st' & E & S).
  { done. }
  { cbn. rewrite lookup_alter_eq, Hp. by eexists. }
  change (InvalidChainFound env p (mark_failed p st) = Some st') in E. exists st'. split; [exact E|].
  split; [done|]. split; [by apply (chain_wf_warnings _ _ H1)|].
  intros q c. unfold index_of. rewrite (sw_tree _ _ S), (sw_cand _ _ S). apply Hco1.
Qed.

(** *** Linking blocks *)

Lemma valid_agree m m' p :
  (forall q, links m' !! q = links m !! q) ->
  (forall q b b', m !! q = Some b -> m' !! q = Some b' -> nStatus b' = nStatus b) ->
  valid m p -> valid m' p.
Proof.
  intros Hl Hs Hv r d' Hr Hd'. assert (links m' = links m) as E by by apply map_eq.
  destruct (links_lookup m' m r d' E Hd') as (d & Hd & _). destruct (Hv r d) as [H1 H2]; [|done|].
  - clear Hd Hd' Hv. induction Hr as [|x y z Hxy Hyz IH]; [done|]. eapply rtc_l; [|exact IH]. by apply (links_parent m').
  - unfold failed, have_data in *. by rewrite (Hs r d d').
Qed.

Record unlinked_block (st : CChainState) (p : ptr) (b : CBlockIndex) : Prop := {
  ub_lookup : index_of st !! p = Some b;
  ub_tx : nTx b <> 0;
  ub_chain : nChainTx b = 0;
  ub_parent : forall q, pprev b = Some q -> exists c, index_of st !! q = Some c /\ nChainTx c <> 0;
}.

Lemma not_active_unlinked st p b : chain_wf st -> index_of st !! p = Some b -> nChainTx b = 0 ->
  forall t, Tip (chainActive st) = Some t -> ~ rtc (parent (index_of st)) t p.
Proof.
  intros H Hp Hn t Ht Hr. destruct (cw_active _ H t Ht) as [_ (bt & Hbt & Hl)].
  revert bt Hbt Hl. clear Ht. induction Hr as [x|x y z (bx & Hx & Hy) Hyz IH]; intros bt Hbt Hl.
  - congruence.
  - replace bx with bt in * by congruence. destruct (co_parents _ (cw_cand _ H) x bt y Hbt Hl Hy) as (c & Hc & Hcn).
    by apply (IH Hp c).
Qed.

Lemma path_txs_nonneg m p n : (forall p b, m !! p = Some b -> 0 <= nTx b) -> path_txs m p n -> 0 <= n.
Proof. intros H Hp. induction Hp as [p b Hb|p b q n Hb]; [by apply (H p)|]. specialize (H p b Hb). lia. Qed.

(** Putting a linked block among the candidates. *)
Lemma elem_of_insert_candidate st p q : candidates_ok st -> is_Some (index_of st !! p) ->
  q ∈ setBlockIndexCandidates (insert_candidate p st) <-> q = p \/ q ∈ setBlockIndexCandidates st.
Proof. intros H Hp. apply (elem_of_set_insert _ _ (candidates_order st H)); [by apply candidates_in|done]. Qed.

Lemma chain_wf_candidates st cand : chain_wf st -> sorted (work_less (index_of st)) cand ->
  (forall p, p ∈ cand -> exists b, index_of st !! p = Some b /\ nChainTx b <> 0) -> chain_wf (set_candidates cand st).
Proof. intros [H1 [C1 C2 C3 C4 C5 C6 C7] H3 H4 H5 H6 H7 H8] Hs Hl. by split; [|split|..]. Qed.

Lemma insert_candidate_wf st p b : chain_wf st -> index_of st !! p = Some b -> nChainTx b <> 0 ->
  chain_wf (insert_candidate p st).
Proof.
  intros H Hp Hn. apply chain_wf_candidates; [done| |].
  - apply (set_insert_sorted _ _ (candidates_order st (cw_cand _ H))); [apply candidates_in, H|by exists b|apply (cw_cand _ H)].
  - intros q Hq. apply (elem_of_insert_candidate st p q (cw_cand _ H)) in Hq as [->|Hq]; [by exists b|by apply (cw_cand _ H)|by exists b].
Qed.

(** Linking a block: its count of transactions and its sequence id. *)
Lemma link_update_wf st st1 p b n seq :
  chain_wf st -> unlinked_block st p b -> p ∉ (mapBlocksUnlinked st).*2 -> n <> 0 -> path_txs (index_of st) p n ->
  index_of st1 = <[p := set_linked n seq b]> (index_of st) ->
  mapBlockIndex (tree st1) = mapBlockIndex (tree st) -> pindexBestHeader (tree st1) = pindexBestHeader (tree st) ->
  chainActive st1 = chainActive st -> setBlockIndexCandidates st1 = setBlockIndexCandidates st ->
  mapBlocksUnlinked st1 = mapBlocksUnlinked st -> g_failed_blocks st1 = g_failed_blocks st ->
  pindexBestInvalid st1 = pindexBestInvalid st -> pindexBestForkTip st1 = pindexBestForkTip st ->
  pindexBestForkBase st1 = pindexBestForkBase st ->
  chain_wf st1 /\ (forall q, valid (index_of st1) q <-> valid (index_of st) q) /\
  (forall x y, x <> p -> y <> p -> work_less (index_of st1) x y = work_less (index_of st) x y).
Proof.
  intros H [Hp Htx Hl Hpar] Hu Hn Hpath E1 E2 E3 E4 E5 E6 E7 E8 E9 E10.
  set (b' := set_linked n seq b) in *.
  assert (same_core (index_of st) (index_of st1)) as Hc.
  { intros q. rewrite E1. destruct (decide (q = p)) as [->|]; [by rewrite lookup_insert_eq, Hp|by rewrite lookup_insert_ne]. }
  assert (forall x y, x <> p -> y <> p -> work_less (index_of st1) x y = work_less (index_of st) x y) as Hw.
  { intros x y Hx Hy. apply work_less_agree. intros r [->| ->]; by rewrite E1, lookup_insert_ne. }
  assert (forall q c1, index_of st1 !! q = Some c1 -> exists c, index_of st !! q = Some c /\ nTx c1 = nTx c /\ nStatus c1 = nStatus c /\
    ((q = p /\ nChainTx c1 = n) \/ (q <> p /\ c1 = c))) as Hback.
  { intros q c1. rewrite E1. destruct (decide (q = p)) as [->|].
    - rewrite lookup_insert_eq. intros [= <-]. exists b. split_and!; auto.
    - rewrite lookup_insert_ne by done. intros Hq. exists c1. split_and!; auto. }
  assert (forall q c, index_of st !! q = Some c -> exists c1, index_of st1 !! q = Some c1 /\ nStatus c1 = nStatus c /\
    (nChainTx c <> 0 -> nChainTx c1 <> 0)) as Hfwd.
  { intros q c Hq. rewrite E1. destruct (decide (q = p)) as [->|].
    - rewrite lookup_insert_eq. exists b'. replace c with b by congruence. done.
    - rewrite lookup_insert_ne by done. by exists c. }
  assert (p ∉ setBlockIndexCandidates st) as Hpc.
  { intros Hin. destruct (co_linked _ (cw_cand _ H) p Hin) as (c & Hc1 & Hc2). congruence. }
  assert (forall q, valid (index_of st) q -> valid (index_of st1) q) as Hv.
  { intros q. apply valid_agree; [intros r; by rewrite (core_links _ _ Hc)|].
    intros r c c1 Hr Hr1. destruct (Hback r c1 Hr1) as (c' & Hc' & _ & Hs & _). congruence. }
  split; [|split; [|done]].
  2:{ intros q. split; [|apply Hv]. apply valid_agree; [intros r; by rewrite (core_links _ _ Hc)|].
      intros r c1 c Hr1 Hr. destruct (Hback r c1 Hr1) as (c' & Hc' & _ & Hs & _). congruence. }
  split.
  - destruct (tree st1) as [hp map best dirty] eqn:Et. cbn in E2, E3. subst map best.
    replace hp with (index_of st1) by (unfold index_of; by rewrite Et).
    apply (core_tree_wf (index_of st) _ Hc _ _ (setDirtyBlockIndex (tree st))).
    unfold index_of. pose proof (cw_tree _ H). by destruct (tree st).
  - split; rewrite ?E4, ?E5, ?E8.
    + apply (core_index_wf _ _ Hc), (cw_cand _ H).
    + apply (core_works _ _ Hc), (cw_cand _ H).
    + apply (core_chain_of _ _ Hc), (cw_cand _ H).
    + apply (sorted_agree (work_less (index_of st))); [|apply (cw_cand _ H)]. intros x y Hx Hy. apply Hw; congruence.
    + intros q Hq. destruct (co_linked _ (cw_cand _ H) q Hq) as (c & Hcq & Hcn).
      destruct (Hfwd q c Hcq) as (c1 & Hc1 & _ & Hn1). exists c1. auto.
    + intros q c1 r Hq1 Hcn Hr. destruct (Hback q c1 Hq1) as (c & Hcq & _ & _ & Hcase).
      assert (pprev c = Some r) as Hr'.
      { destruct (same_core_lookup _ _ q c Hc Hcq) as (c1' & Hc1' & Ec). replace c1' with c1 in Ec by congruence.
        destruct (core_eq _ _ Ec) as (Ep & _). congruence. }
      assert (exists d, index_of st !! r = Some d /\ nChainTx d <> 0) as (d & Hd & Hdn).
      { destruct Hcase as [[-> _]|[_ ->]]; [|by apply (co_parents _ (cw_cand _ H) q c)].
        apply Hpar. by replace b with c by congruence. }
      destruct (Hfwd r d Hd) as (d1 & Hd1 & _ & Hdn1). exists d1. auto.
    + intros q Hq. destruct (co_invalid _ (cw_cand _ H) q Hq) as [c Hcq]. destruct (Hfwd q c Hcq) as (c1 & ? & _). by exists c1.
  - rewrite E4. intros t Ht. destruct (cw_active _ H t Ht) as [Hvt (c & Hct & Hcn)]. split; [by apply Hv|].
    destruct (Hfwd t c Hct) as (c1 & ? & _ & ?). exists c1. auto.
  - intros q c1 Hq1. destruct (Hback q c1 Hq1) as (c & Hcq & E & Es & _). unfold have_data. rewrite E, Es.
    exact (cw_data _ H q c Hcq).
  - intros q c1 Hq1 Hcn. destruct (Hback q c1 Hq1) as (c & Hcq & E & _ & Hcase).
    assert (forall k, path_txs (index_of st) q k -> path_txs (index_of st1) q k) as Hpt.
    { intros k. apply path_txs_core; [done|]. intros r d d1 Hr Hr1. destruct (Hback r d1 Hr1) as (d' & Hd' & E' & _). congruence. }
    destruct Hcase as [[-> E']|[_ ->]].
    + rewrite E', E. replace c with b by congruence. auto.
    + destruct (cw_txs _ H q c Hcq Hcn). auto.
  - rewrite E6. destruct (cw_unlinked _ H) as [U1 U2]. split; [done|]. intros o q Hoq.
    destruct (U2 o q Hoq) as (c & r & Hcq & Hrest). exists c, r.
    rewrite E1, lookup_insert_ne; [done|]. intros ->. apply Hu. apply list_elem_of_fmap. by exists (o, q).
  - rewrite E7. destruct (cw_failed _ H) as [F1 F2]. split; [done|]. intros q Hq. destruct (F2 q Hq) as (c & Hcq & Hbit).
    destruct (Hfwd q c Hcq) as (c1 & ? & Es & _). exists c1. by rewrite Es.
  - rewrite E9, E10. intros q Hq. destruct (cw_forks _ H q Hq) as [c Hcq]. destruct (Hfwd q c Hcq) as (c1 & ? & _). by exists c1.
Qed.

(** Not being worse carries over to something that is not better. *)
Lemma not_less_trans m p u t :
  works_ok m -> is_Some (m !! p) -> is_Some (m !! u) -> is_Some (m !! t) ->
  work_less m p u = false -> work_less m u t = false -> work_less m p t = false.
Proof.
  intros Hw Hp Hu Ht E1 E2. pose proof (work_less_order m Hw) as O.
  destruct (work_less m p t) eqn:E3; [|done]. destruct (work_less m u p) eqn:E4.
  - by rewrite (so_trans _ _ O u p t) in E2.
  - assert (p = u) as -> by by apply (so_total _ _ O). congruence.
Qed.

Lemma link_block_spec st p b base :
  chain_wf st -> based st base -> txs_bounded (index_of st) ->
  unlinked_block st p b -> p ∉ (mapBlocksUnlinked st).*2 ->
  exists st' n, link_block p st = Some st' /\ chain_wf st' /\ based st' base /\
    index_of st' = <[p := set_linked n (nBlockSequenceId st) b]> (index_of st) /\ n <> 0 /\
    chainActive st' = chainActive st /\ mapBlocksUnlinked st' = mapBlocksUnlinked st.
Proof.
  intros H Hba Hbd Hub Hu. pose proof Hub as [Hp Htx Hl Hpar]. unfold link_block, block_at. rewrite Hp. cbn [mbind option_bind].
  destruct (cw_data _ H p b Hp) as [Htx0 Hdata].
  assert (exists before, match pprev b with None => Some 0 | Some q => c ← index_of st !! q; Some (nChainTx c) end = Some before /\
    0 <= before /\ path_txs (index_of st) p (before + nTx b)) as (before & -> & Hb0 & Hpath).
  { destruct (pprev b) as [q|] eqn:Hq.
    - destruct (Hpar q eq_refl) as (c & Hc & Hcn). rewrite Hc. cbn [mbind option_bind].
      destruct (cw_txs _ H q c Hc Hcn) as [_ Hpt]. eexists. split; [done|]. split.
      + apply (path_txs_nonneg (index_of st) q); [|done]. intros r d Hd. by apply (cw_data _ H r d).
      + by eapply path_step.
    - exists 0. split; [done|]. split; [done|]. by apply path_genesis. }
  cbn [mbind option_bind]. pose proof (Hbd p _ Hpath) as Hlt. rewrite (wrap_small 32) by (unfold in_range; lia).
  set (n := before + nTx b). assert (n <> 0) as Hn by lia. set (st1 := set_counters _ _ _ _).
  assert (index_of st1 = <[p := set_linked n (nBlockSequenceId st) b]> (index_of st)) as E1.
  { cbn. apply map_eq. intros q. destruct (decide (q = p)) as [->|Hne].
    - by rewrite lookup_alter_eq, lookup_insert_eq, Hp.
    - by rewrite lookup_alter_ne, lookup_insert_ne by done. }
  destruct (link_update_wf st st1 p b n (nBlockSequenceId st)) as (H1 & Hv & Hw); try done.
  assert (index_of st1 !! p = Some (set_linked n (nBlockSequenceId st) b)) as Hp1 by by rewrite E1, lookup_insert_eq.
  pose proof (insert_candidate_wf st1 p _ H1 Hp1 Hn) as H2.
  assert (forall u, base = Some u -> u <> p /\ is_Some (index_of st !! u)) as Hbase.
  { intros u Hbu. destruct (bs_linked _ _ Hba u Hbu) as (c & Hc & Hcn). split; [congruence|by exists c]. }
  assert (forall t, Tip (chainActive st) = Some t -> t <> p) as Htip.
  { intros t Ht ->. by apply (not_active_unlinked st p b H Hp Hl p Ht). }
  set (st2 := match Tip (chainActive st1) with None => _ | Some t => _ end).
  assert (st2 = insert_candidate p st1 \/ (st2 = st1 /\ exists u, base = Some u /\ work_less (index_of st1) p u = true)) as Hst2.
  { subst st2. change (chainActive st1) with (chainActive st). destruct (Tip (chainActive st)) as [t|] eqn:Et; [|by left].
    destruct (work_less (index_of st1) p t) eqn:E; [right|by left]. split; [done|].
    destruct (bs_below _ _ Hba t Et) as (u & Hbu & Hut). exists u. split; [done|].
    destruct (work_less (index_of st1) p u) eqn:E'; [done|].
    destruct (Hbase u Hbu) as [Hup [c Hcu]]. pose proof (Htip t eq_refl) as Htp. destruct (tip_lookup _ _ H Et) as (d & Hd).
    rewrite (not_less_trans (index_of st1) p u t) in E; [done|apply (cw_cand _ H1)|by eexists| | |done|by rewrite Hw].
    - rewrite E1, lookup_insert_ne by done. by exists c.
    - rewrite E1, lookup_insert_ne by done. by exists d. }
  assert (chain_wf st2 /\ index_of st2 = index_of st1 /\ chainActive st2 = chainActive st /\
    mapBlocksUnlinked st2 = mapBlocksUnlinked st) as (W2 & I2 & A2 & U2).
  { by destruct Hst2 as [->|[-> _]]. }
  exists st2, n. split; [done|]. split; [done|]. split; [|by rewrite I2].
  split.
  - intros q d. rewrite I2. intros Hq Hdn Hvq Hbq. apply Hv in Hvq. destruct (decide (q = p)) as [->|Hqp].
    + destruct Hst2 as [->|[_ (u & Hbu & Hlu)]]; [|by rewrite (Hbq u Hbu) in Hlu].
      apply elem_of_insert_candidate; [apply H1|by eexists|by left].
    + assert (q ∈ setBlockIndexCandidates st) as Hin.
      { rewrite E1, lookup_insert_ne in Hq by done. apply (bs_complete _ _ Hba q d); [done..|]. intros u Hbu.
        rewrite <- Hw; [by apply Hbq|done|by apply Hbase]. }
      destruct Hst2 as [->|[-> _]]; [|done]. apply elem_of_insert_candidate; [apply H1|by eexists|by right].
  - intros u Hbu. destruct (bs_linked _ _ Hba u Hbu) as (c & Hc & Hcn). exists c.
    rewrite I2, E1, lookup_insert_ne; [done|]. by apply not_eq_sym, Hbase.
  - rewrite A2, I2. intros t Ht. destruct (bs_below _ _ Hba t Ht) as (u & Hbu & Hlu). exists u. split; [done|].
    rewrite Hw; [done|by apply Hbase|by apply Htip].
Qed.

Lemma waiting_perm o u : (waiting_for o u ++ (stop_waiting o u).*2) ≡ₚ u.*2.
Proof.
  unfold waiting_for, stop_waiting. induction u as [|e u IH]; [done|]. rewrite !filter_cons.
  destruct (decide (e.1 = o)), (decide (e.1 <> o)); try tauto; cbn [fmap list_fmap app].
  - by rewrite IH.
  - rewrite <- Permutation_middle. by rewrite IH.
Qed.

Lemma chain_wf_unlinked st u : chain_wf st -> NoDup u.*2 -> (forall e, e ∈ u -> e ∈ mapBlocksUnlinked st) ->
  chain_wf (set_unlinked u st).
Proof.
  intros [H1 [C1 C2 C3 C4 C5 C6 C7] H3 H4 H5 [H61 H62] H7 H8] Hn Hs. split; try done.
  split; [done|]. intros o p Hop. by apply (H62 o p), Hs.
Qed.

(** What linking does to the index. *)
Record linking (m m' : index_map) : Prop := {
  li_core : same_core m m';
  li_data : forall p b b', m !! p = Some b -> m' !! p = Some b' -> nTx b' = nTx b /\ nStatus b' = nStatus b;
  li_linked : forall p b, m !! p = Some b -> nChainTx b <> 0 -> m' !! p = Some b;
}.

Lemma linking_trans m1 m2 m3 : linking m1 m2 -> linking m2 m3 -> linking m1 m3.
Proof.
  intros [C1 D1 L1] [C2 D2 L2]. split; [by eapply same_core_trans| |auto].
  intros p b b3 Hb Hb3. destruct (same_core_lookup _ _ p b C1 Hb) as (b2 & Hb2 & _).
  destruct (D1 p b b2 Hb Hb2), (D2 p b2 b3 Hb2 Hb3). split; congruence.
Qed.

Lemma linking_one m p b n seq : m !! p = Some b -> nChainTx b = 0 -> linking m (<[p := set_linked n seq b]> m).
Proof.
  intros Hp Hl. split.
  - intros q. destruct (decide (q = p)) as [->|]; [by rewrite lookup_insert_eq, Hp|by rewrite lookup_insert_ne].
  - intros q c c' Hq. destruct (decide (q = p)) as [->|].
    + rewrite lookup_insert_eq. intros [= <-]. by replace c with b by congruence.
    + rewrite lookup_insert_ne by done. intros. by simplify_eq.
  - intros q c Hq Hn. rewrite lookup_insert_ne; [done|]. intros <-. congruence.
Qed.

Lemma linking_bounded m m' : linking m m' -> txs_bounded m -> txs_bounded m'.
Proof.
  intros L H p n Hp. apply (H p). apply (path_txs_core m'); [by apply same_core_sym, L| |done].
  intros r b' b Hb' Hb. symmetry. by apply (li_data _ _ L r b b').
Qed.

Lemma link_queue_spec fuel queue st base :
  chain_wf st -> based st base -> txs_bounded (index_of st) ->
  NoDup (queue ++ (mapBlocksUnlinked st).*2) -> (forall p, p ∈ queue -> exists b, unlinked_block st p b) ->
  (length queue + length (mapBlocksUnlinked st) <= fuel)%nat ->
  exists st', link_queue fuel queue st = Some st' /\ chain_wf st' /\ based st' base /\
    linking (index_of st) (index_of st') /\ chainActive st' = chainActive st /\
    forall p, p ∈ queue -> exists b, index_of st' !! p = Some b /\ nChainTx b <> 0.
Proof.
  revert queue st. induction fuel as [|fuel IH]; intros queue st H Hba Hbd Hnd Hq Hf; destruct queue as [|p queue];
    cbn [link_queue length] in *; [| lia | |].
  1, 2: exists st; split_and!; try done; [|intros p Hp; by apply elem_of_nil in Hp].
  1, 2: split; [done|intros; by simplify_eq|done].
  destruct (Hq p ltac:(left)) as (b & Hub). cbn [app] in Hnd. apply NoDup_cons in Hnd as [Hp Hnd].
  rewrite elem_of_app in Hp.
  destruct (link_block_spec st p b base H Hba Hbd Hub) as (st1 & n & -> & W1 & B1 & I1 & Hn & A1 & U1); [tauto|].
  cbn [mbind option_bind]. pose proof (linking_one (index_of st) p b n (nBlockSequenceId st) (ub_lookup _ _ _ Hub) (ub_chain _ _ _ Hub)) as L1.
  rewrite <- I1 in L1. rewrite U1.
  set (u := mapBlocksUnlinked st) in *. set (st2 := set_unlinked (stop_waiting (Some p) u) st1).
  pose proof (waiting_perm (Some p) u) as Hperm.
  assert (chain_wf st2) as W2.
  { apply chain_wf_unlinked; [done| |].
    - apply NoDup_app in Hnd as (_ & _ & Hnd). rewrite <- Hperm in Hnd. by apply NoDup_app in Hnd as (_ & _ & ?).
    - intros e He. rewrite U1. unfold stop_waiting in He. by apply list_elem_of_filter in He as [_ He]. }
  assert (based st2 base) as B2 by by destruct B1.
  assert (index_of st1 !! p = Some (set_linked n (nBlockSequenceId st) b)) as Hp1 by by rewrite I1, lookup_insert_eq.
  destruct (IH (queue ++ waiting_for (Some p) u) st2 W2 B2) as (st' & E & W' & B' & L' & A' & Hall).
  - by apply (linking_bounded (index_of st)).
  - change (mapBlocksUnlinked st2) with (stop_waiting (Some p) u). by rewrite <- app_assoc, Hperm.
  - intros q Hqin. apply elem_of_app in Hqin as [Hqin|Hqin].
    + destruct (Hq q ltac:(by right)) as (c & [Hc1 Hc2 Hc3 Hc4]). exists c. split; [|done|done|].
      * change (index_of st2) with (index_of st1). rewrite I1, lookup_insert_ne; [done|]. intros ->. tauto.
      * intros r Hr. destruct (Hc4 r Hr) as (d & Hd & Hdn). exists d. split; [by apply (li_linked _ _ L1)|done].
    + unfold waiting_for in Hqin. apply list_elem_of_fmap in Hqin as ([o q'] & -> & He).
      apply list_elem_of_filter in He as [Ho He]. cbn in Ho. subst o.
      destruct (cw_unlinked _ H) as [_ U2]. destruct (U2 _ _ He) as (c & r & Hc & Hc1 & _ & Hc2 & Hc3).
      exists c. split; [|done|done|].
      * change (index_of st2) with (index_of st1). rewrite I1, lookup_insert_ne; [done|]. intros E. apply Hp. right. apply list_elem_of_fmap. by exists (Some p, q').
      * intros r2. rewrite Hc1. intros [= <-]. by eexists.
  - change (mapBlocksUnlinked st2) with (stop_waiting (Some p) u). rewrite length_app.
    apply Permutation_length in Hperm. rewrite length_app, !length_fmap in Hperm. lia.
  - exists st'. split; [done|]. split; [done|]. split; [done|]. split; [by apply (linking_trans _ (index_of st1))|].
    split; [by rewrite A'|]. intros q Hqin. apply elem_of_cons in Hqin as [->|Hqin].
    + eexists. split; [apply (li_linked _ _ L'); [exact Hp1|done]|done].
    + apply Hall. apply elem_of_app. by left.
Qed.

Lemma valid_level n : 0 <= n <= 7 -> Z.land n (Z.lnot BLOCK_VALID_MASK) = 0.
Proof.
  intros Hn. change BLOCK_VALID_MASK with 7.
  assert (n = 0 \/ n = 1 \/ n = 2 \/ n = 3 \/ n = 4 \/ n = 5 \/ n = 6 \/ n = 7) as Hc by lia.
  repeat destruct Hc as [->|Hc]; try done. by subst.
Qed.

Lemma IsValid_spec b n : 0 <= n <= 7 ->
  IsValid b n = Some (negb (failed b) && (n <=? Z.land (nStatus b) BLOCK_VALID_MASK)).
Proof. intros Hn. unfold IsValid, failed. rewrite valid_level by done. cbn [negb Z.eqb]. by destruct (_ =? 0). Qed.

(** [RaiseValidity] touches the three lowest bits of the status. *)
Lemma RaiseValidity_spec b n : 0 <= n <= 7 ->
  exists s r, RaiseValidity b n = Some (set_nStatus s b, r) /\ forall k, 3 <= k -> Z.testbit s k = Z.testbit (nStatus b) k.
Proof.
  intros Hn. unfold RaiseValidity. rewrite valid_level by done. change BLOCK_VALID_MASK with 7. cbn [negb Z.eqb].
  assert (set_nStatus (nStatus b) b = b) as Hb by by destruct b.
  destruct (negb _); [exists (nStatus b), false; by rewrite Hb|]. destruct (_ <? n).
  - eexists _, _. split; [done|]. intros k Hk. rewrite Z.lor_spec, Z.land_spec, Z.lnot_spec by lia.
    rewrite (in_range_testbit 3 7 k), (in_range_testbit 3 n k) by (unfold in_range; lia).
    by rewrite andb_true_r, orb_false_r.
  - exists (nStatus b), false. by rewrite Hb.
Qed.

(** The data of a block that is not linked arrives. *)
Lemma receive_update_wf st st1 p b b1 :
  chain_wf st -> index_of st !! p = Some b -> have_data b = false ->
  core b1 = core b -> nSequenceId b1 = nSequenceId b -> nChainTx b1 = 0 -> 0 < nTx b1 -> have_data b1 = true ->
  (Z.testbit (nStatus b) 5 = true -> Z.testbit (nStatus b1) 5 = true) ->
  index_of st1 = <[p := b1]> (index_of st) ->
  mapBlockIndex (tree st1) = mapBlockIndex (tree st) -> pindexBestHeader (tree st1) = pindexBestHeader (tree st) ->
  chainActive st1 = chainActive st -> setBlockIndexCandidates st1 = setBlockIndexCandidates st ->
  mapBlocksUnlinked st1 = mapBlocksUnlinked st -> g_failed_blocks st1 = g_failed_blocks st ->
  pindexBestInvalid st1 = pindexBestInvalid st -> pindexBestForkTip st1 = pindexBestForkTip st ->
  pindexBestForkBase st1 = pindexBestForkBase st ->
  chain_wf st1 /\ (forall base, based st base -> based st1 base) /\ p ∉ (mapBlocksUnlinked st).*2.
Proof.
  intros H Hp Hnd Hcore Hseq Hl1 Htx1 Hd1 Hbit E1 E2 E3 E4 E5 E6 E7 E8 E9 E10.
  assert (nTx b = 0) as Htx.
  { destruct (cw_data _ H p b Hp) as [_ Hd]. destruct (decide (nTx b = 0)); [done|]. by rewrite (proj2 Hd) in Hnd. }
  assert (nChainTx b = 0) as Hl.
  { destruct (decide (nChainTx b = 0)); [done|]. by destruct (cw_txs _ H p b Hp). }
  assert (same_core (index_of st) (index_of st1)) as Hc.
  { intros q. rewrite E1. destruct (decide (q = p)) as [->|]; [rewrite lookup_insert_eq, Hp; cbn; congruence|by rewrite lookup_insert_ne]. }
  assert (forall x y, work_less (index_of st1) x y = work_less (index_of st) x y) as Hw.
  { intros x y. apply work_less_agree. intros r _. rewrite E1. destruct (decide (r = p)) as [->|]; [|by rewrite lookup_insert_ne].
    rewrite lookup_insert_eq, Hp. cbn. rewrite Hseq. by destruct (core_eq _ _ Hcore) as (_ & _ & _ & -> & _). }
  assert (forall q c, index_of st !! q = Some c -> nChainTx c <> 0 -> index_of st1 !! q = Some c) as Hfwd.
  { intros q c Hq Hn. rewrite E1, lookup_insert_ne; [done|]. intros <-. congruence. }
  assert (forall q c, index_of st1 !! q = Some c -> nChainTx c <> 0 -> index_of st !! q = Some c) as Hback.
  { intros q c Hq Hn. rewrite E1 in Hq. destruct (decide (q = p)) as [->|]; [rewrite lookup_insert_eq in Hq|by rewrite lookup_insert_ne in Hq].
    injection Hq as <-. done. }
  assert (forall q c, index_of st !! q = Some c -> nChainTx c <> 0 -> forall r d, rtc (parent (index_of st)) q r ->
    index_of st !! r = Some d -> nChainTx d <> 0) as Hlin.
  { intros q c Hq Hn r d Hr. revert c Hq Hn. induction Hr as [x|x y z (cx & Hx & Hy) Hyz IH]; intros c Hq Hn Hd; [congruence|].
    replace cx with c in * by congruence. destruct (co_parents _ (cw_cand _ H) x c y Hq Hn Hy) as (cy & Hcy & Hcn). by apply (IH cy). }
  assert (p ∉ (mapBlocksUnlinked st).*2) as Hpu.
  { intros Hin. apply list_elem_of_fmap in Hin as ([o q] & -> & Hin). destruct (cw_unlinked _ H) as [_ U2].
    destruct (U2 o _ Hin) as (c & r & Hc' & _ & _ & Ht & _). cbn in Hp. congruence. }
  assert (forall q c, index_of st !! q = Some c -> nChainTx c <> 0 ->
    valid (index_of st1) q <-> valid (index_of st) q) as Hv.
  { intros q c Hq Hn. split; intros Hvq r d Hr Hd.
    - apply (Hvq r d); [by apply (core_rtc _ _ Hc)|]. apply Hfwd; [done|]. by apply (Hlin q c Hq Hn r).
    - apply (core_rtc _ _ Hc) in Hr. destruct (same_core_lookup _ _ r d (same_core_sym _ _ Hc) Hd) as (d' & Hd' & _).
      rewrite (Hfwd r d' Hd') in Hd by (by apply (Hlin q c Hq Hn r)). injection Hd as <-. by apply (Hvq r). }
  split; [|split; [|done]].
  2:{ intros base [B1 B2 B3]. split.
      - intros q c Hq Hn Hvq Hb. rewrite E5. apply Hback in Hq; [|done]. apply (B1 q c); [done|done|by apply (Hv q c)|].
        intros t Ht. rewrite <- Hw. by apply Hb.
      - intros u Hu. destruct (B2 u Hu) as (c & Hcu & Hn). exists c. auto.
      - rewrite E4. intros t Ht. destruct (B3 t Ht) as (u & Hu & Hlu). exists u. by rewrite Hw. }
  split.
  - destruct (tree st1) as [hp map best dirty] eqn:Et. cbn in E2, E3. subst map best.
    replace hp with (index_of st1) by (unfold index_of; by rewrite Et).
    apply (core_tree_wf (index_of st) _ Hc _ _ (setDirtyBlockIndex (tree st))).
    unfold index_of. pose proof (cw_tree _ H). by destruct (tree st).
  - split; rewrite ?E4, ?E5, ?E8.
    + apply (core_index_wf _ _ Hc), (cw_cand _ H).
    + apply (core_works _ _ Hc), (cw_cand _ H).
    + apply (core_chain_of _ _ Hc), (cw_cand _ H).
    + apply (sorted_agree (work_less (index_of st))); [|apply (cw_cand _ H)]. intros x y _ _. apply Hw.
    + intros q Hq. destruct (co_linked _ (cw_cand _ H) q Hq) as (c & Hcq & Hcn). exists c. auto.
    + intros q c r Hq Hcn Hr. destruct (co_parents _ (cw_cand _ H) q c r (Hback q c Hq Hcn) Hcn Hr) as (d & Hd & Hdn).
      exists d. auto.
    + intros q Hq. destruct (co_invalid _ (cw_cand _ H) q Hq) as [c Hcq].
      destruct (same_core_lookup _ _ q c Hc Hcq) as (c1 & ? & _). by exists c1.
  - rewrite E4. intros t Ht. destruct (cw_active _ H t Ht) as [Hvt (c & Hct & Hcn)].
    split; [by apply (Hv t c)|]. exists c. auto.
  - intros q c Hq. rewrite E1 in Hq. apply lookup_insert_Some in Hq as [[<- <-]|[_ Hq]].
    + split; [lia|]. split; [lia|done].
    + exact (cw_data _ H q c Hq).
  - intros q c Hq Hcn. apply Hback in Hq; [|done]. destruct (cw_txs _ H q c Hq Hcn) as [? Hpt]. split; [done|].
    assert (forall k, path_txs (index_of st) q k -> path_txs (index_of st1) q k) as Hgo; [|by apply Hgo].
    clear Hpt. intros k Hk. revert c Hq Hcn H0. induction Hk as [x d Hd Hdp|x d y k Hd Hdp Hk IH]; intros c Hq Hcn Hct;
      replace d with c in * by congruence.
    + apply path_genesis; [by apply Hfwd|done].
    + apply (path_step _ x c y); [by apply Hfwd|done|].
      destruct (co_parents _ (cw_cand _ H) x c y Hq Hcn Hdp) as (e & He & Hen).
      apply (IH e He Hen). by destruct (cw_txs _ H y e He Hen).
  - rewrite E6. destruct (cw_unlinked _ H) as [U1 U2]. split; [done|]. intros o q Hoq.
    destruct (U2 o q Hoq) as (c & r & Hcq & Hrest). exists c, r.
    rewrite E1, lookup_insert_ne; [done|]. intros ->. apply Hpu. apply list_elem_of_fmap. by exists (o, q).
  - rewrite E7. destruct (cw_failed _ H) as [F1 F2]. split; [done|]. intros q Hq. destruct (F2 q Hq) as (c & Hcq & Hb).
    rewrite E1. destruct (decide (q = p)) as [->|]; [|rewrite lookup_insert_ne by done; by exists c].
    rewrite lookup_insert_eq. exists b1. split; [done|]. apply Hbit. congruence.
  - rewrite E9, E10. intros q Hq. destruct (cw_forks _ H q Hq) as [c Hcq].
    destruct (same_core_lookup _ _ q c Hc Hcq) as (c1 & ? & _). by exists c1.
Qed.

Lemma chain_wf_dirty st p : chain_wf st -> chain_wf (dirty p st).
Proof.
  intros [H1 [C1 C2 C3 C4 C5 C6 C7] H3 H4 H5 H6 H7 H8]. split; try done.
  apply (core_tree_wf (index_of st) (index_of st)) with (dirty := setDirtyBlockIndex (tree st)); [done|].
  unfold index_of. by destruct (tree st).
Qed.

Lemma ReceivedBlockTransactions_spec st p b size pos base :
  chain_wf st -> based st base -> index_of st !! p = Some b -> have_data b = false -> 0 < size < 2 ^ 32 ->
  txs_bounded (alter (set_data size 0 0 0 0 0) p (index_of st)) ->
  exists st' b', ReceivedBlockTransactions size p pos st = Some st' /\ chain_wf st' /\ based st' base /\
    chainActive st' = chainActive st /\ same_core (index_of st) (index_of st') /\
    index_of st' !! p = Some b' /\ nTx b' = size /\ have_data b' = true /\
    (forall k, k <> 3 -> k <> 7 -> 3 <= k -> Z.testbit (nStatus b') k = Z.testbit (nStatus b) k) /\
    (nChainTx b' <> 0 <-> forall q, pprev b = Some q -> exists c, index_of st !! q = Some c /\ nChainTx c <> 0) /\
    (forall q c, q <> p -> index_of st !! q = Some c -> exists c', index_of st' !! q = Some c' /\
       nTx c' = nTx c /\ nStatus c' = nStatus c).
Proof.
  intros H Hba Hp Hnd Hsize Hbd. unfold ReceivedBlockTransactions, block_at. rewrite Hp. cbn [mbind option_bind].
  rewrite (wrap_small 32) by (unfold in_range; lia). change IsWitnessEnabled with true. cbn beta iota.
  set (b0 := add_status BLOCK_OPT_WITNESS _).
  destruct (RaiseValidity_spec b0 BLOCK_VALID_TRANSACTIONS) as (s & r & -> & Hs); [unfold BLOCK_VALID_TRANSACTIONS; lia|].
  cbn [mbind option_bind]. set (b1 := set_nStatus s b0).
  assert (forall k, 3 <= k -> Z.testbit (nStatus b1) k = Z.testbit (nStatus b) k || (k =? 3) || (k =? 7)) as Hbits.
  { intros k Hk. cbn [b1 set_nStatus nStatus]. rewrite Hs by done. cbn [b0 add_status set_nStatus nStatus set_data].
    rewrite !Z.lor_spec. change BLOCK_HAVE_DATA with (2 ^ 3). change BLOCK_OPT_WITNESS with (2 ^ 7).
    rewrite !Z.pow2_bits_eqb by lia. by rewrite (Z.eqb_sym 3), (Z.eqb_sym 7). }
  set (st1 := dirty p (update p (fun _ => b1) st)).
  assert (index_of st1 = <[p := b1]> (index_of st)) as E1.
  { cbn. apply map_eq. intros q. destruct (decide (q = p)) as [->|Hne].
    - by rewrite lookup_alter_eq, lookup_insert_eq, Hp.
    - by rewrite lookup_alter_ne, lookup_insert_ne by done. }
  assert (have_data b1 = true) as Hd1 by (rewrite have_data_bit, Hbits by lia; by rewrite orb_true_r).
  destruct (receive_update_wf st st1 p b b1 H Hp Hnd) as (H1 & B1 & Hpu); try done; [cbn; lia| |].
  { rewrite Hbits by lia. by intros ->. }
  specialize (B1 base Hba).
  assert (index_of st1 !! p = Some b1) as Hp1 by by rewrite E1, lookup_insert_eq.
  assert (txs_bounded (index_of st1)) as Hbd1.
  { intros q n Hq. apply (Hbd q n). apply (path_txs_core (index_of st1)); [| |done].
    - intros x. rewrite E1. destruct (decide (x = p)) as [->|].
      + by rewrite lookup_insert_eq, lookup_alter_eq, Hp.
      + by rewrite lookup_insert_ne, lookup_alter_ne.
    - intros x c c'. rewrite E1. destruct (decide (x = p)) as [->|].
      + rewrite lookup_insert_eq, lookup_alter_eq, Hp. by intros [= <-] [= <-].
      + rewrite lookup_insert_ne, lookup_alter_ne by done. intros. by simplify_eq. }
  change (pprev b1) with (pprev b).
  assert (forall q c, q <> p -> index_of st !! q = Some c -> index_of st1 !! q = Some c) as Hother.
  { intros q c Hq Hc. by rewrite E1, lookup_insert_ne. }
  assert (forall q, pprev b = Some q -> q <> p /\ is_Some (index_of st !! q)) as Hparent.
  { intros q Hq. destruct (wf_parent _ (co_index _ (cw_cand _ H)) p b q Hp Hq) as (c & Hc & Hh).
    split; [|by exists c]. intros ->. replace c with b in * by congruence. lia. }
  assert (same_core (index_of st) (index_of st1)) as Hc1.
  { intros q. rewrite E1. destruct (decide (q = p)) as [->|]; [by rewrite lookup_insert_eq, Hp|by rewrite lookup_insert_ne]. }
  assert (exists v : bool, match pprev b with None => Some true
      | Some q => c ← index_of st1 !! q; Some (negb (nChainTx c =? 0)) end = Some v /\
    (v = true <-> forall q, pprev b = Some q -> exists c, index_of st !! q = Some c /\ nChainTx c <> 0)) as (v & Ev & Hv).
  { destruct (pprev b) as [q|]; [|by exists true]. destruct (Hparent q eq_refl) as [Hqp [c Hc]].
    rewrite (Hother q c Hqp Hc). cbn [mbind option_bind]. eexists. split; [done|]. rewrite negb_true_iff, Z.eqb_neq. split.
    - intros Hn q' [= <-]. by exists c.
    - intros Hq. destruct (Hq q eq_refl) as (c' & Hc' & Hn). by replace c with c' by congruence. }
  rewrite Ev. cbn [mbind option_bind]. destruct v.
  - assert (unlinked_block st1 p b1) as Hub.
    { split; [done|cbn; lia|done|]. intros q Hq. destruct (Hparent q Hq) as [Hqp _].
      destruct (proj1 Hv eq_refl q Hq) as (c & Hc & Hn). exists c. auto. }
    destruct (link_queue_spec (S (length (mapBlocksUnlinked st1))) [p] st1 base) as (st' & -> & W' & B' & L' & A' & Hall); try done.
    { cbn [app]. constructor; [done|]. apply (cw_unlinked _ H1). }
    { intros q Hq. apply list_elem_of_singleton in Hq as ->. by exists b1. }
    destruct (Hall p ltac:(left)) as (b' & Hb' & Hn'). exists st', b'.
    destruct (li_data _ _ L' p b1 b' Hp1 Hb') as [Et Es]. unfold have_data. rewrite Et, Es.
    split_and!; try done.
    + apply (same_core_trans _ (index_of st1)); [done|apply L'].
    + intros k ? ? ?. rewrite Hbits by done. rewrite (proj2 (Z.eqb_neq k 3)), (proj2 (Z.eqb_neq k 7)) by done. by rewrite !orb_false_r.
    + split; [intros _; by apply Hv|done].
    + intros q c Hq Hc. pose proof (Hother q c Hq Hc) as Hq1.
      destruct (same_core_lookup _ _ q c (li_core _ _ L') Hq1) as (c' & Hc' & _). exists c'.
      split; [done|]. by apply (li_data _ _ L' q).
  - assert (exists q, pprev b = Some q) as (q & Hq).
    { destruct (pprev b) as [q|]; [by exists q|]. assert (false = true) by by apply Hv. done. }
    rewrite Hq in *. destruct (Hparent q eq_refl) as [Hqp [c Hc]]. rewrite (Hother q c Hqp Hc). cbn [mbind option_bind].
    rewrite IsValid_spec by (unfold BLOCK_VALID_TREE; lia). cbn [mbind option_bind]. set (valid_parent := negb _ && _).
    assert (forall st', st' = st1 \/ st' = set_unlinked (mapBlocksUnlinked st1 ++ [(Some q, p)]) st1 ->
      chain_wf st' /\ based st' base /\ chainActive st' = chainActive st /\ same_core (index_of st) (index_of st') /\
      index_of st' = index_of st1) as Hst.
    { intros st' [->| ->]; [done|]. split_and!; try done; [|by destruct B1].
      destruct H1 as [H11 [C1 C2 C3 C4 C5 C6 C7] H13 H14 H15 [H161 H162] H17 H18]. split; try done. split.
      - cbn. rewrite fmap_app. apply NoDup_app. split; [done|]. split; [|by apply NoDup_singleton].
        intros x Hx Hx'. apply list_elem_of_singleton in Hx'. cbn in Hx'. by subst x.
      - cbn. intros o x. rewrite elem_of_app, list_elem_of_singleton. intros [Hox|[= -> ->]]; [by apply H162|].
        exists b1, q. split_and!; try done. cbn. lia. }
    set (st' := if valid_parent then _ else _). exists st', b1. split; [done|].
    destruct (Hst st') as (W' & B' & A' & C' & I'); [subst st'; destruct valid_parent; auto|].
    rewrite I'. split_and!; try done.
    + intros k ? ? ?. rewrite Hbits by done. rewrite (proj2 (Z.eqb_neq k 3)), (proj2 (Z.eqb_neq k 7)) by done. by rewrite !orb_false_r.
    + split; [done|]. intros Hall. by apply Hv in Hall.
    + intros x d Hx Hd. exists d. auto.
Qed.

Lemma PruneBlockIndexCandidates_spec st t m base :
  chain_wf st -> based st base -> Tip (chainActive st) = Some t -> m ∈ setBlockIndexCandidates st ->
  work_less (index_of st) m t = false ->
  exists cand, PruneBlockIndexCandidates st = Some (set_candidates cand st) /\ chain_wf (set_candidates cand st) /\
    based (set_candidates cand st) base /\
    forall p, p ∈ cand <-> p ∈ setBlockIndexCandidates st /\ work_less (index_of st) p t = false.
Proof.
  intros H Hba Ht Hm Hml. destruct (tip_lookup st t H Ht) as (bt & Hbt).
  pose proof (fun p => erase_below_spec _ _ (candidates_order st (cw_cand _ H)) t _ p (candidates_in st (cw_cand _ H))
    ltac:(by exists bt) (co_sorted _ (cw_cand _ H))) as Hin.
  set (cand := erase_below (work_less (index_of st)) t (setBlockIndexCandidates st)) in *.
  exists cand. split; [|split; [|split; [|done]]].
  - unfold PruneBlockIndexCandidates. rewrite Ht. cbn [mbind option_bind]. fold cand.
    assert (m ∈ cand) as Hmc by by apply Hin.
    destruct (setBlockIndexCandidates st) as [|x l] eqn:E; [by apply elem_of_nil in Hm|].
    cbn [mbind option_bind]. by destruct cand; [apply elem_of_nil in Hmc|].
  - apply chain_wf_candidates; [done|apply erase_below_sorted, (cw_cand _ H)|].
    intros p Hp. apply Hin in Hp as [Hp _]. by apply (cw_cand _ H).
  - destruct Hba as [B1 B2 B3]. split; [|done|done]. intros p b Hp Hn Hv Hb. cbn in Hp, Hv, Hb. cbn. apply Hin.
    split; [by apply (B1 p b)|]. destruct (B3 t Ht) as (u & Hu & Hut). destruct (B2 u Hu) as (bu & Hbu & _).
    apply (not_less_trans _ p u t); [apply (cw_cand _ H)|by exists b|by exists bu|by exists bt|by apply Hb|done].
Qed.

(** Another active chain. *)
Lemma chain_wf_chain st c tip : chain_wf st -> chain_of (index_of st) c tip ->
  (forall t, tip = Some t -> valid (index_of st) t /\ exists b, index_of st !! t = Some b /\ nChainTx b <> 0) ->
  Tip c = tip -> chain_wf (set_chain c st).
Proof.
  intros [H1 [C1 C2 C3 C4 C5 C6 C7] H3 H4 H5 H6 H7 H8] Hc Ht <-. by split; [|split|..].
Qed.

(** *** Going on

    [evolves] is what validation does to the index: blocks fail, none is
    added or gets its data. *)
Record evolves (m m' : index_map) : Prop := {
  ev_status : same_but_status m m';
  ev_bits : forall p b b', m !! p = Some b -> m' !! p = Some b' ->
    have_data b' = have_data b /\ (Z.testbit (nStatus b) 5 = true -> Z.testbit (nStatus b') 5 = true) /\
    (failed b = true -> failed b' = true);
}.

Lemma evolves_refl m : evolves m m.
Proof. split; [by intros p|]. intros. by simplify_eq. Qed.

Lemma evolves_trans m1 m2 m3 : evolves m1 m2 -> evolves m2 m3 -> evolves m1 m3.
Proof.
  intros [S1 B1] [S2 B2]. split; [intros p; by rewrite S2|]. intros p b b3 Hb Hb3.
  destruct (same_but_status_lookup _ _ p b S1 Hb) as (b2 & Hb2 & _).
  destruct (B1 p b b2 Hb Hb2) as (?&?&?), (B2 p b2 b3 Hb2 Hb3) as (?&?&?). split_and!; [congruence|auto|auto].
Qed.

Lemma step_evolves st st' : status_step st st' -> evolves (index_of st) (index_of st').
Proof. intros S. split; apply S. Qed.

Lemma evolves_valid m m' p : evolves m m' -> valid m' p -> valid m p.
Proof.
  intros [S B] Hv r b Hr Hb. destruct (same_but_status_lookup _ _ r b S Hb) as (b' & Hb' & _).
  destruct (B r b b' Hb Hb') as (E & _ & Hf). destruct (Hv r b') as [F D]; [|done|].
  - by apply (core_rtc _ _ (same_but_status_core _ _ S)).
  - rewrite E in D. split; [|done]. destruct (failed b) eqn:E'; [|done]. by rewrite Hf in F.
Qed.

(** The blocks that validation has not refused. *)
Definition unfailed (m : index_map) : gset ptr := dom (filter (fun e => Z.testbit (nStatus e.2) 5 = false) m).

Lemma elem_of_unfailed m p : p ∈ unfailed m <-> exists b, m !! p = Some b /\ Z.testbit (nStatus b) 5 = false.
Proof.
  unfold unfailed. rewrite elem_of_dom. split.
  - intros [b Hb]. apply map_lookup_filter_Some in Hb as [? ?]. by exists b.
  - intros (b & ? & ?). exists b. by apply map_lookup_filter_Some.
Qed.

Lemma evolves_unfailed m m' : evolves m m' -> unfailed m' ⊆ unfailed m.
Proof.
  intros [S B] p. rewrite !elem_of_unfailed. intros (b' & Hb' & Hbit).
  destruct (same_but_status_lookup _ _ p b' (same_but_status_sym _ _ S) Hb') as (b & Hb & _).
  exists b. split; [done|]. destruct (B p b b' Hb Hb') as (_ & Hm & _).
  destruct (Z.testbit (nStatus b) 5); [|done]. by rewrite Hm in Hbit.
Qed.
(** *** The first state *)

(** Headers without data: nothing is active and nothing is a candidate. *)
Definition headers_only (t : BlockTree) : CChainState := {|
  tree := t; chainActive := []; setBlockIndexCandidates := []; mapBlocksUnlinked := []; g_failed_blocks := [];
  pindexBestInvalid := None; nBlockSequenceId := 1; nBlockReverseSequenceId := -1; nLastPreciousChainwork := replicate 8 0;
  pindexBestForkTip := None; pindexBestForkBase := None; latchToFalse := false; fLargeWorkForkFound := false;
  fLargeWorkInvalidChainFound := false |}.

Lemma headers_only_wf t : tree_wf t ->
  (forall p b, heap t !! p = Some b -> nTx b = 0 /\ nChainTx b = 0 /\ have_data b = false) ->
  chain_wf (headers_only t) /\ based (headers_only t) None.
Proof.
  intros Ht Hno. split; [split|]; try done.
  - split; try done; cbn.
    + apply Ht.
    + intros p b Hb. by apply (tw_work _ Ht p b).
    + constructor.
    + intros p Hp. by apply elem_of_nil in Hp.
    + intros p b q Hb Hn. destruct (Hno p b Hb) as (_ & ? & _). done.
  - intros p b Hb. destruct (Hno p b Hb) as (-> & _ & ->). split; [lia|done].
  - intros p b Hb Hn. destruct (Hno p b Hb) as (_ & ? & _). done.
  - split; [constructor|]. intros o p Hp. by apply elem_of_nil in Hp.
  - split; [constructor|]. intros p Hp. by apply elem_of_nil in Hp.
  - intros q [|]; done.
  - split; try done. intros p b Hb Hn. destruct (Hno p b Hb) as (_ & ? & _). done.
Qed.

(** A bound on the transactions of each block and on the heights bounds the
    totals. *)
Lemma txs_bounded_of m K H : index_wf m -> 0 <= K -> (forall p b, m !! p = Some b -> nTx b <= K /\ nHeight b <= H) ->
  (H + 1) * K < 2 ^ 32 -> txs_bounded m.
Proof.
  intros Hwf HK Hall Hlt p n Hp.
  assert (forall p n, path_txs m p n -> exists b, m !! p = Some b /\ n <= (nHeight b + 1) * K) as Hb.
  { clear p n Hp. induction 1 as [p b Hb Hq|p b q n Hb Hq Hp (c & Hc & IH)]; exists b; (split; [done|]).
    - rewrite (wf_genesis m Hwf p b Hb Hq). destruct (Hall p b Hb). lia.
    - destruct (wf_parent m Hwf p b q Hb Hq) as (c' & Hc' & E). replace c' with c in * by congruence.
      destruct (Hall p b Hb). nia. }
  destruct (Hb p n Hp) as (b & Hbp & Hn). destruct (Hall p b Hbp). nia.
Qed.
End chainstate_facts.

(** ** An example: a fork *)

Module chainstate_example.
Import chain_facts chainstate_facts chain_example.

(** The header of time [t], whose hash is [t], below that of time [prev]. *)
Definition add_header (t : Z) (prev : uint256) (st : BlockTree) : BlockTree :=
  match AddToBlockIndex GetHash st (header t prev) with Some (st, _) => st | None => st end.

(** One block on the genesis block, and two more on another one. *)
Definition tree4 : BlockTree :=
  add_header 1003 (le_digits 8 32 1002)
  (add_header 1002 (le_digits 8 32 1000)
  (add_header 1001 (le_digits 8 32 1000)
  (add_header 1000 uint256_null empty_tree))).

Definition position : CDiskBlockPos := {| pos_nFile := 0; pos_nPos := 8 |}.
Definition receive (p : ptr) (st : CChainState) : CChainState := default st (ReceivedBlockTransactions 1 p position st).

Definition received0 : CChainState := headers_only tree4.
Definition received1 : CChainState := receive 1 received0.
(** The last one before its parent. *)
Definition received3 : CChainState := receive 4 (receive 2 received1).
Definition received4 : CChainState := receive 3 received3.

Lemma add_header_wf t prev st : in_range 32 (hdr_nBits (header t prev)) -> le_digits 8 32 t <> prev -> tree_wf st ->
  tree_wf (add_header t prev st).
Proof.
  intros Hb Hne H. unfold add_header. destruct (mapBlockIndex st !! GetHash (header t prev)) as [q|] eqn:E.
  - unfold AddToBlockIndex. by rewrite E.
  - destruct (AddToBlockIndex_new GetHash st (header t prev) H (conj Hb Hne) E) as (st' & p & b & -> & W & _). exact W.
Qed.

Lemma tree4_wf : tree_wf tree4.
Proof.
  unfold tree4. do 4 (apply add_header_wf; [unfold in_range; cbn; lia|by intros H; vm_compute in H|]). exact empty_tree_wf.
Qed.

(** A check of every block of an index. *)
Definition every (f : CBlockIndex -> bool) (m : index_map) : bool := forallb (fun e => f e.2) (map_to_list m).

Lemma every_spec f m p b : every f m = true -> m !! p = Some b -> f b = true.
Proof.
  unfold every. rewrite forallb_forall. intros H Hb. apply (H (p, b)). apply list_elem_of_In. by apply elem_of_map_to_list.
Qed.

Lemma received0_wf : chain_wf received0 /\ based received0 None.
Proof.
  apply headers_only_wf; [exact tree4_wf|]. intros p b Hb.
  pose proof (every_spec (fun b => (nTx b =? 0) && (nChainTx b =? 0) && negb (have_data b)) (heap tree4) p b
    ltac:(vm_compute; reflexivity) Hb) as H.
  apply andb_prop in H as [H H3]. apply andb_prop in H as [H1 H2]. apply Z.eqb_eq in H1, H2. apply negb_true_iff in H3. auto.
Qed.

Lemma receive_wf p st b : chain_wf st -> based st None -> index_of st !! p = Some b -> have_data b = false ->
  every (fun b => (nTx b <=? 1) && (nHeight b <=? 2)) (index_of st) = true ->
  chain_wf (receive p st) /\ based (receive p st) None.
Proof.
  intros H B Hb Hd Hev. unfold receive.
  destruct (ReceivedBlockTransactions_spec st p b 1 position None H B Hb Hd) as (st' & b' & -> & W & B' & _); [lia| |done].
  apply (txs_bounded_of _ 1 2); [| lia | |lia].
  - apply (core_index_wf (index_of st)); [|apply (cw_cand _ H)]. by apply same_core_alter.
  - intros q c Hq. destruct (decide (q = p)) as [->|Hne].
    + rewrite lookup_alter_eq, Hb in Hq. cbn in Hq. injection Hq as <-. cbn [set_data nTx nHeight].
      pose proof (every_spec _ _ p b Hev Hb) as E. cbn beta in E. apply andb_prop in E as [E1 E2].
      apply Z.leb_le in E1, E2. lia.
    + rewrite lookup_alter_ne in Hq by done. pose proof (every_spec _ _ q c Hev Hq) as E. cbn beta in E. apply andb_prop in E as [E1 E2].
      apply Z.leb_le in E1, E2. lia.
Qed.

Lemma received_wf : (chain_wf received1 /\ based received1 None) /\ (chain_wf received3 /\ based received3 None) /\
  chain_wf received4 /\ based received4 None.
Proof.
  assert (chain_wf received1 /\ based received1 None) as [W1 B1].
  { eapply receive_wf; [apply received0_wf..|vm_compute; reflexivity| |]; vm_compute; reflexivity. }
  assert (chain_wf received3 /\ based received3 None) as [W3 B3].
  { assert (chain_wf (receive 2 received1) /\ based (receive 2 received1) None) as [W2 B2]
      by (eapply receive_wf; [exact W1|exact B1|vm_compute; reflexivity| |]; vm_compute; reflexivity).
    eapply receive_wf; [exact W2|exact B2|vm_compute; reflexivity| |]; vm_compute; reflexivity. }
  split; [done|]. split; [done|].
  eapply receive_wf; [exact W3|exact B3|vm_compute; reflexivity| |]; vm_compute; reflexivity.
Qed.

(** The genesis block active, and the block 3 then refused. *)
#[export] Instance platform : IndexPlatform := {| iterate_index := map_to_list |}.
#[export] Instance platform_laws : IndexPlatformLaws platform.
Proof. done. Qed.
Definition env : environment :=
  {| fImporting := false; fReindex := false; GetTime := 2000; nMaxTipAge := 86400; nMinimumChainWork := replicate 8 0 |}.
Definition active1 : CChainState := set_chain [Some 1%positive] (receive 2 received1).
Definition refused3 : CChainState := default active1 (InvalidBlockFound env 3 false active1).
(** The child of a refused block arrives, then the refusal is taken back,
    then the block itself arrives. *)
Definition orphaned : CChainState := receive 4 refused3.
Definition reconsidered : CChainState := default orphaned (ResetBlockFailureFlags 3 orphaned).
Definition resolved : CChainState := receive 3 reconsidered.
End chainstate_example.

(** ** Properties *)

(** [FindMostWorkChain] on a well-formed state, whose candidates are all the
    valid blocks as good as the tip, ends without failing an assertion and
    returns the block with the most work (the older one if two have the same)
    among all the blocks of the index whose data, and that of their ancestors,
    is there and has not been found invalid; it returns null only if there is
    none.  It leaves the state well formed and the candidates complete, and
    marks no block that could become the tip. *)
Theorem FindMostWorkChain_correct (st : CChainState) :
  chainstate_facts.chain_wf st -> chainstate_facts.based st (Tip (chainActive st)) ->
  exists st' r, FindMostWorkChain st = Some (st', r) /\
    chainstate_facts.chain_wf st' /\ chainstate_facts.based st' (Tip (chainActive st')) /\
    chainActive st' = chainActive st /\
    (forall p, chainstate_facts.valid (index_of st) p -> index_of st' !! p = index_of st !! p) /\
    (forall p, r = Some p -> chainstate_facts.valid (index_of st) p /\
       exists b, index_of st !! p = Some b /\ nChainTx b <> 0) /\
    (forall q b, index_of st !! q = Some b -> nChainTx b <> 0 -> chainstate_facts.valid (index_of st) q ->
       exists p, r = Some p /\ (q = p \/ work_less (index_of st) q p = true)).
Proof.
  intros H B. destruct (chainstate_facts.FindMostWorkChain_based st H B) as (st' & r & E & W & B' & P & Hr & Hbest).
  exists st', r. split_and!; [done|done|by rewrite (chainstate_facts.pr_chain _ _ P)|apply P| |done|done].
  intros p Hv. destruct (index_of st !! p) as [b|] eqn:Hb; [|by apply (chainstate_facts.pr_dom _ _ P)].
  destruct (chainstate_facts.pr_index _ _ P p b Hb) as (b' & Hb' & [->|[Hu _]]); [done|].
  exfalso. by apply Hu, chainstate_facts.usable_valid.
Qed.

Lemma FindMostWorkChain_correct_witness :
  exists st', FindMostWorkChain chainstate_example.received4 = Some (st', Some 4%positive) /\ chainstate_facts.chain_wf st'.
Proof.
  destruct (FindMostWorkChain_correct chainstate_example.received4
    (proj1 (proj2 (proj2 chainstate_example.received_wf))) (proj2 (proj2 (proj2 chainstate_example.received_wf))))
    as (st' & r & E & W & _).
  exists st'. split; [|exact W].
  assert (snd <$> FindMostWorkChain chainstate_example.received4 = Some (Some 4%positive)) as Er by (vm_compute; reflexivity).
  rewrite E in Er. cbn in Er. injection Er as ->. exact E.
Defined.

(** [ReceivedBlockTransactions] on a well-formed state, for a block of the
    index whose data was missing, ends without failing an assertion and keeps
    the state well formed and the candidates complete, if no branch reaches
    2^32 transactions.  The block now has its data and its number of
    transactions; it is linked at once if and only if its parent is, and the
    links and the work of all blocks are as before. *)
Theorem ReceivedBlockTransactions_correct (st : CChainState) (p : ptr) (b : CBlockIndex) (size : Z) (pos : CDiskBlockPos) :
  chainstate_facts.chain_wf st -> chainstate_facts.based st (Tip (chainActive st)) ->
  index_of st !! p = Some b -> have_data b = false -> 0 < size < 2 ^ 32 ->
  chainstate_facts.txs_bounded (alter (set_data size 0 0 0 0 0) p (index_of st)) ->
  exists st' b', ReceivedBlockTransactions size p pos st = Some st' /\
    chainstate_facts.chain_wf st' /\ chainstate_facts.based st' (Tip (chainActive st')) /\
    chainActive st' = chainActive st /\ chainstate_facts.same_core (index_of st) (index_of st') /\
    index_of st' !! p = Some b' /\ nTx b' = size /\ have_data b' = true /\ failed b' = failed b /\
    (nChainTx b' <> 0 <-> forall q, pprev b = Some q -> exists c, index_of st !! q = Some c /\ nChainTx c <> 0).
Proof.
  intros H B Hp Hd Hs Ht.
  destruct (chainstate_facts.ReceivedBlockTransactions_spec st p b size pos _ H B Hp Hd Hs Ht)
    as (st' & b' & E & W & B' & Ec & Hc & Hb' & Hn & Hd' & Hbits & Hl & _).
  exists st', b'. rewrite Ec. split_and!; try done.
  rewrite !chainstate_facts.failed_bits, !Hbits by lia. done.
Qed.

Lemma ReceivedBlockTransactions_correct_witness :
  exists st' b', ReceivedBlockTransactions 1 1 chainstate_example.position chainstate_example.received0 = Some st' /\
    index_of st' !! 1%positive = Some b' /\ nTx b' = 1 /\ nChainTx b' <> 0.
Proof.
  destruct (index_of chainstate_example.received0 !! 1%positive) as [b|] eqn:Hb; [|vm_compute in Hb; discriminate Hb].
  assert (have_data b = false /\ pprev b = None) as [Hd Hpar]
    by (vm_compute in Hb; injection Hb as <-; split; vm_compute; reflexivity).
  destruct (ReceivedBlockTransactions_correct chainstate_example.received0 1 b 1 chainstate_example.position
    (proj1 chainstate_example.received0_wf) (proj2 chainstate_example.received0_wf) Hb Hd ltac:(lia))
    as (st' & b' & E & _ & _ & _ & _ & Hb' & Hn & _ & _ & Hl).
  - apply (chainstate_facts.txs_bounded_of _ 1 2); [| lia | |lia].
    + apply (chainstate_facts.core_index_wf (index_of chainstate_example.received0));
        [by apply chainstate_facts.same_core_alter|exact (chain_facts.tw_index _ chainstate_example.tree4_wf)].
    + intros q c Hq. apply (chainstate_example.every_spec (fun b => (nTx b <=? 1) && (nHeight b <=? 2)) _ q c) in Hq;
        [|vm_compute; reflexivity]. apply andb_prop in Hq as [E1 E2]. apply Z.leb_le in E1, E2. split; [exact E1|exact E2].
  - exists st', b'. split; [exact E|]. split; [exact Hb'|]. split; [exact Hn|]. apply Hl. intros q Hq. congruence.
Defined.

(** a block that arrives while its parent counts as invalid is lost when the
    parent is reconsidered.  In the example the block 3 was refused before its
    data came, its child 4 arrived, [ResetBlockFailureFlags] cleared 3, and 3
    arrived: all the data from 4 down to the genesis block is there and nothing
    has failed, but 4 has not been linked, waits for nothing, and is not a
    candidate, although it has more work than every candidate.  Without the
    refusal the same blocks make it a candidate. *)
Theorem reconsidered_child_is_lost :
  let st := chainstate_example.resolved in
  (exists b, index_of st !! 4%positive = Some b /\ nTx b = 1 /\ nChainTx b = 0) /\
  chainstate_facts.valid (index_of st) 4 /\ mapBlocksUnlinked st = [] /\
  (4%positive ∉ setBlockIndexCandidates st) /\
  (forall p, p ∈ setBlockIndexCandidates st -> work_less (index_of st) p 4 = true) /\
  4%positive ∈ setBlockIndexCandidates chainstate_example.received4.
Proof.
  cbn zeta. assert (setBlockIndexCandidates chainstate_example.resolved = [1; 3; 2]%positive) as Ec by (vm_compute; reflexivity).
  rewrite Ec. split; [eexists; split; [vm_compute; reflexivity|split; reflexivity]|]. split.
  - intros r b _ Hr. apply (chainstate_example.every_spec (fun b => negb (failed b) && have_data b)) in Hr;
      [|vm_compute; reflexivity]. apply andb_prop in Hr as [E1 E2].
    exact (conj (proj1 (negb_true_iff _) E1) E2).
  - split; [vm_compute; reflexivity|]. split.
    { rewrite !elem_of_cons. intros [H|[H|[H|H]]]; [discriminate H..|destruct (not_elem_of_nil _ H)]. }
    split.
    + intros p Hp. rewrite !elem_of_cons in Hp.
      destruct Hp as [->|[->|[->|Hp]]]; [vm_compute; reflexivity..|destruct (not_elem_of_nil _ Hp)].
    + assert (setBlockIndexCandidates chainstate_example.received4 = [1; 3; 2; 4]%positive) as -> by (vm_compute; reflexivity).
      rewrite !elem_of_cons. do 3 right. left. reflexivity.
Qed.
