(* ===== verification/Activation.v ===== *)
(** * Choosing the best chain ([ActivateBestChain] of [validation.cpp])

    [ActivateBestChainStep] and [ActivateBestChain], and the manual changes
    [PreciousBlock] and [InvalidateBlock], over the interface [ChainTip]: what
    connects and disconnects one block.  What the code does there to the coins
    is [ConnectBlock] and [DisconnectBlock] of [Validation].  A state is a [CChainState] with the rest of the node, of
    any type [X].  The callbacks of the validation interface are left out. *)

From S2P Require Import Prelude ArithUint256 Uint256 StdSet Chain Interpreter Serialize Transaction Coins TxVerify Block.
From S2P Require Import BlockCheck ChainState.
Import base_uint arith_uint256.

(** A failed assertion or an exception, or not enough fuel. *)
Inductive crash := aborted | out_of_fuel.

Definition or_abort {A} (o : option A) : result crash A := match o with Some a => Ok a | None => Err aborted end.

(** [CValidationState::IsInvalid] and [CorruptionPossible] of a failure. *)
Definition IsInvalid (e : tx_failure) : bool := match e with DoS _ _ _ _ => true | _ => false end.
Definition CorruptionPossible (e : tx_failure) : bool := match e with DoS _ _ _ c => c | _ => false end.

Inductive FlushStateMode := FLUSH_STATE_NONE | FLUSH_STATE_IF_NEEDED | FLUSH_STATE_PERIODIC | FLUSH_STATE_ALWAYS.

(** What the activation asks of the rest of the node.  [B] is a block in
    memory.  The disconnected transactions and the memory pool are in [X]. *)
Class ChainTip (X B : Type) := {
  block_hash : B -> uint256;
  ConnectTip : environment -> ptr -> option B -> CChainState * X -> result crash ((CChainState * X) * tx_result unit);
  DisconnectTip : environment -> CChainState * X -> result crash ((CChainState * X) * tx_result unit);
  UpdateMempoolForReorg : bool -> CChainState -> X -> X;
  FlushStateToDisk : FlushStateMode -> CChainState * X -> result crash ((CChainState * X) * tx_result unit);
  ShutdownRequested : CChainState -> X -> bool;
}.

Section activation.
Context {X B : Type} `{CT : ChainTip X B} (env : environment).
Abbreviation node := (CChainState * X)%type.

(** [while (Tip() && Tip() != pindexFork) DisconnectTip], with
    [fBlocksDisconnected]. *)
Fixpoint disconnect_loop (fuel : nat) (pindexFork : option ptr) (fBlocksDisconnected : bool) (n : node)
    : result crash (node * tx_result bool) :=
  match Tip (chainActive n.1) with
  | None => Ok (n, Ok fBlocksDisconnected)
  | Some t =>
      if decide (Some t = pindexFork) then Ok (n, Ok fBlocksDisconnected)
      else
        match fuel with
        | O => Err out_of_fuel
        | S fuel =>
            '(n, r) ← DisconnectTip env n;
            match r with
            | Err e => Ok ((n.1, UpdateMempoolForReorg false n.1 n.2), Err e)
            | Ok _ => disconnect_loop fuel pindexFork true n
            end
        end
  end.

(** How a batch of blocks to connect ends: all connected, in a better position
    than before, an invalid block. *)
Inductive batch := batch_connected | batch_better | batch_invalid.

(** The blocks to connect, from the lowest, with the first of them for the
    warning. *)
Fixpoint connect_batch (l : list ptr) (pindexMostWork : ptr) (pblock : option B) (pindexOldTip : option ptr) (first : ptr)
    (n : node) : result crash (node * tx_result batch) :=
  match l with
  | [] => Ok (n, Ok batch_connected)
  | pindexConnect :: l =>
      '(n, r) ← ConnectTip env pindexConnect (if decide (pindexConnect = pindexMostWork) then pblock else None) n;
      match r with
      | Err e =>
          if IsInvalid e then
            st ← (if negb (CorruptionPossible e) then or_abort (InvalidChainFound env first n.1) else Ok n.1);
            Ok ((st, n.2), Ok batch_invalid)
          else Ok ((n.1, UpdateMempoolForReorg false n.1 n.2), Err e)
      | Ok _ =>
          st ← or_abort (PruneBlockIndexCandidates n.1);
          better ← or_abort (match pindexOldTip with
                             | None => Some true
                             | Some o => bo ← block_at st o; t ← Tip (chainActive st); bt ← block_at st t;
                                         Some (gtb W (nChainWork bt) (nChainWork bo))
                             end);
          if (better : bool) then Ok ((st, n.2), Ok batch_better)
          else connect_batch l pindexMostWork pblock pindexOldTip first (st, n.2)
      end
  end.

(** [vpindexToConnect]: from [pindexIter] down to above [nHeight]. *)
Fixpoint gather (m : index_map) (fuel : nat) (nHeight' : Z) (pindexIter : option ptr) : result crash (list ptr) :=
  match pindexIter with
  | None => Ok []
  | Some p =>
      b ← or_abort (m !! p);
      if nHeight b =? nHeight' then Ok []
      else match fuel with
           | O => Err out_of_fuel
           | S fuel => l ← gather m fuel nHeight' (pprev b); Ok (p :: l)
           end
  end.

(** The loop over the batches of 32; [last] is [vpindexToConnect.back()] of the
    last batch. *)
Fixpoint connect_loop (fuel : nat) (nHeight' : Z) (pindexMostWork : ptr) (pblock : option B) (pindexOldTip : option ptr)
    (last' : option ptr) (n : node) : result crash (node * tx_result (bool * option ptr)) :=
  most ← or_abort (block_at n.1 pindexMostWork);
  if nHeight' =? nHeight most then Ok (n, Ok (false, last'))
  else
    match fuel with
    | O => Err out_of_fuel
    | S fuel =>
        let nTargetHeight := Z.min (nHeight' + 32) (nHeight most) in
        pindexIter ← or_abort (GetAncestor (index_of n.1) pindexMostWork nTargetHeight);
        v ← gather (index_of n.1) (Z.to_nat (nTargetHeight + 1)) nHeight' pindexIter;
        match last v with
        | None => connect_loop fuel nTargetHeight pindexMostWork pblock pindexOldTip None n
        | Some first =>
            '(n, r) ← connect_batch (reverse v) pindexMostWork pblock pindexOldTip first n;
            match r with
            | Err e => Ok (n, Err e)
            | Ok batch_connected => connect_loop fuel nTargetHeight pindexMostWork pblock pindexOldTip (Some first) n
            | Ok batch_better => Ok (n, Ok (false, Some first))
            | Ok batch_invalid => Ok (n, Ok (true, Some first))
            end
        end
    end.

(** The result is [fInvalidFound]. *)
Definition ActivateBestChainStep (pindexMostWork : ptr) (pblock : option B) (n : node)
    : result crash (node * tx_result bool) :=
  let pindexOldTip := Tip (chainActive n.1) in
  pindexFork ← or_abort (FindFork (index_of n.1) (chainActive n.1) (Some pindexMostWork));
  '(n, r) ← disconnect_loop (length (chainActive n.1)) pindexFork false n;
  match r with
  | Err e => Ok (n, Err e)
  | Ok fBlocksDisconnected =>
      h ← or_abort (match pindexFork with None => Some (-1) | Some f => b ← block_at n.1 f; Some (nHeight b) end);
      most ← or_abort (block_at n.1 pindexMostWork);
      '(n, r) ← connect_loop (Z.to_nat (nHeight most - h)) h pindexMostWork pblock pindexOldTip None n;
      match r with
      | Err e => Ok (n, Err e)
      | Ok (fInvalidFound, last') =>
          let x := if (fBlocksDisconnected : bool) then UpdateMempoolForReorg true n.1 n.2 else n.2 in
          st ← (if (fInvalidFound : bool) then
                  l ← or_abort last'; or_abort (CheckForkWarningConditionsOnNewFork env l n.1)
                else or_abort (CheckForkWarningConditions env n.1));
          Ok ((st, x), Ok fInvalidFound)
      end
  end.

(** The loop of [ActivateBestChain]; [pindexMostWork] is kept between turns. *)
Fixpoint activate_loop (fuel : nat) (pindexMostWork : option ptr) (pblock : option B) (n : node)
    : result crash (node * tx_result bool) :=
  '(st, pindexMostWork) ← (match pindexMostWork with
                           | None => or_abort (FindMostWorkChain n.1)
                           | Some p => Ok (n.1, Some p)
                           end);
  let n := (st, n.2) in
  match pindexMostWork with
  | None => Ok (n, Ok false)
  | Some most =>
      if decide (Tip (chainActive n.1) = Some most) then Ok (n, Ok false)
      else
        b ← or_abort (block_at n.1 most);
        let pblock' := match pblock with
                       | Some blk => if decide (block_hash blk = phashBlock b) then pblock else None
                       | None => None
                       end in
        '(n, r) ← ActivateBestChainStep most pblock' n;
        match r with
        | Err e => Ok (n, Err e)
        | Ok fInvalidFound =>
            let pindexMostWork := if (fInvalidFound : bool) then None else Some most in
            '(st, _) ← or_abort (IsInitialBlockDownload env n.1);
            let n := (st, n.2) in
            if ShutdownRequested n.1 n.2 then Ok (n, Ok true)
            else if decide (Tip (chainActive n.1) = pindexMostWork) then Ok (n, Ok true)
            else match fuel with O => Err out_of_fuel | S fuel => activate_loop fuel pindexMostWork pblock n end
        end
  end.

(** When there is nothing to do, the state is not written to disk. *)
Definition ActivateBestChain (fuel : nat) (pblock : option B) (n : node) : result crash (node * tx_result unit) :=
  '(n, r) ← activate_loop fuel None pblock n;
  match r with
  | Err e => Ok (n, Err e)
  | Ok false => Ok (n, Ok ())
  | Ok true => FlushStateToDisk FLUSH_STATE_PERIODIC n
  end.

(** ** Manual changes *)

Definition INT32_MIN : Z := -0x80000000.

(** The part of [PreciousBlock] before the activation; false if there is
    nothing to do. *)
Definition make_precious (pindex : ptr) (st : CChainState) : option (CChainState * bool) :=
  b ← block_at st pindex;
  t ← Tip (chainActive st); bt ← block_at st t;
  if ltb W (nChainWork b) (nChainWork bt) then Some (st, false)
  else
    let rev := if gtb W (nChainWork bt) (nLastPreciousChainwork st) then -1 else nBlockReverseSequenceId st in
    let st := erase_candidate pindex (set_counters (nBlockSequenceId st) rev (nChainWork bt) st) in
    let st := update pindex (fun b => set_linked (nChainTx b) rev b) st in
    let st := set_counters (nBlockSequenceId st) (if rev >? INT32_MIN then rev - 1 else rev) (nLastPreciousChainwork st) st in
    valid ← IsValid b BLOCK_VALID_TRANSACTIONS;
    if valid && negb (nChainTx b =? 0) then
      st ← PruneBlockIndexCandidates (insert_candidate pindex st);
      Some (st, true)
    else Some (st, true).

Definition PreciousBlock (fuel : nat) (pindex : ptr) (n : node) : result crash (node * tx_result unit) :=
  '(st, go) ← or_abort (make_precious pindex n.1);
  if (go : bool) then ActivateBestChain fuel None (st, n.2) else Ok ((st, n.2), Ok ()).

(** [while (chainActive.Contains(pindex)) DisconnectTip]; the result is
    [pindex_was_in_chain]. *)
Fixpoint disconnect_while (fuel : nat) (pindex : ptr) (was : bool) (n : node) : result crash (node * tx_result bool) :=
  inside ← or_abort (Contains (index_of n.1) (chainActive n.1) pindex);
  if (inside : bool) then
    match fuel with
    | O => Err out_of_fuel
    | S fuel =>
        '(n, r) ← DisconnectTip env n;
        match r with
        | Err e => Ok ((n.1, UpdateMempoolForReorg false n.1 n.2), Err e)
        | Ok _ => disconnect_while fuel pindex true n
        end
    end
  else Ok (n, Ok was).

Fixpoint mark_descendants (fuel : nat) (invalid_walk_tip : option ptr) (pindex : ptr) (st : CChainState)
    : result crash CChainState :=
  if decide (invalid_walk_tip = Some pindex) then Ok st
  else
    match fuel with
    | O => Err out_of_fuel
    | S fuel =>
        p ← or_abort invalid_walk_tip;
        b ← or_abort (block_at st p);
        let st := erase_candidate p (dirty p (update p (add_status BLOCK_FAILED_CHILD) st)) in
        mark_descendants fuel (pprev b) pindex st
    end.

Definition InvalidateBlock `{IP : IndexPlatform} (pindex : ptr) (n : node) : result crash (node * tx_result unit) :=
  let invalid_walk_tip := Tip (chainActive n.1) in
  let fuel := length (chainActive n.1) in
  '(n, r) ← disconnect_while fuel pindex false n;
  match r with
  | Err e => Ok (n, Err e)
  | Ok was =>
      st ← (if (was : bool) then mark_descendants fuel invalid_walk_tip pindex n.1 else Ok n.1);
      _ ← or_abort (block_at st pindex);
      let st := update pindex (add_status BLOCK_FAILED_VALID) st in
      let st := insert_failed pindex (erase_candidate pindex (dirty pindex st)) in
      let x := UpdateMempoolForReorg true st n.2 in
      st ← or_abort (readd_candidates (iterate_index (mapBlockIndex (tree st))).*2 st);
      st ← or_abort (InvalidChainFound env pindex st);
      Ok ((st, x), Ok ())
  end.
End activation.

(** ** What connecting and disconnecting promise *)

Module activation_facts.
Import chain_facts stdset_facts chainstate_facts.

(** The blocks that are to be written to disk may differ. *)
Record same_but_dirty (st st' : CChainState) : Prop := {
  sd_index : index_of st' = index_of st;
  sd_maps : mapBlockIndex (tree st') = mapBlockIndex (tree st) /\ pindexBestHeader (tree st') = pindexBestHeader (tree st);
  sd_chain : chainActive st' = chainActive st;
  sd_cand : setBlockIndexCandidates st' = setBlockIndexCandidates st;
  sd_unlinked : mapBlocksUnlinked st' = mapBlocksUnlinked st;
  sd_failed : g_failed_blocks st' = g_failed_blocks st;
  sd_invalid : pindexBestInvalid st' = pindexBestInvalid st;
  sd_forks : pindexBestForkTip st' = pindexBestForkTip st /\ pindexBestForkBase st' = pindexBestForkBase st;
}.

(** [p] has become the tip: nothing else changes but what is known of the
    validity of blocks, none of which fails. *)
Record tip_changed (st st' : CChainState) (tip : option ptr) : Prop := {
  tc_chain : SetTip (index_of st') (chainActive st) tip = Some (chainActive st');
  tc_evolves : evolves (index_of st) (index_of st');
  tc_steady : forall q b b', index_of st !! q = Some b -> index_of st' !! q = Some b' -> failed b' = failed b;
  tc_maps : mapBlockIndex (tree st') = mapBlockIndex (tree st) /\ pindexBestHeader (tree st') = pindexBestHeader (tree st);
  tc_cand : setBlockIndexCandidates st' = setBlockIndexCandidates st;
  tc_unlinked : mapBlocksUnlinked st' = mapBlocksUnlinked st;
  tc_failed : g_failed_blocks st' = g_failed_blocks st;
  tc_invalid : pindexBestInvalid st' = pindexBestInvalid st;
  tc_forks : pindexBestForkTip st' = pindexBestForkTip st /\ pindexBestForkBase st' = pindexBestForkBase st;
}.

Class ChainTipLaws {X B : Type} `(CT : ChainTip X B) (env : environment) := {
  tip_ok : CChainState -> X -> Prop;
  tip_ok_stable st st' x : tip_ok st x -> chainActive st' = chainActive st ->
    same_core (index_of st) (index_of st') -> tip_ok st' x;
  ConnectTip_law st x p b blk : chain_wf st -> tip_ok st x -> index_of st !! p = Some b ->
    pprev b = Tip (chainActive st) -> nChainTx b <> 0 -> valid (index_of st) p ->
    (forall k, blk = Some k -> block_hash k = phashBlock b) ->
    match ConnectTip env p blk (st, x) with
    | Err aborted => True
    | Err out_of_fuel => False
    | Ok ((st', x'), Ok _) => tip_changed st st' (Some p) /\ tip_ok st' x'
    | Ok ((st', x'), Err e) =>
        if IsInvalid e then InvalidBlockFound env p (CorruptionPossible e) st = Some st' /\ tip_ok st' x'
        else chain_wf st'
    end;
  DisconnectTip_law st x t b : chain_wf st -> tip_ok st x -> Tip (chainActive st) = Some t -> index_of st !! t = Some b ->
    match DisconnectTip env (st, x) with
    | Err aborted => True
    | Err out_of_fuel => False
    | Ok ((st', x'), Ok _) => tip_changed st st' (pprev b) /\ index_of st' = index_of st /\ tip_ok st' x'
    | Ok ((st', x'), Err e) => chain_wf st'
    end;
  UpdateMempool_law b st x : tip_ok st x -> tip_ok st (UpdateMempoolForReorg b st x);
  FlushStateToDisk_law mode st x : tip_ok st x ->
    match FlushStateToDisk mode (st, x) with
    | Err aborted => True
    | Err out_of_fuel => False
    | Ok ((st', x'), Ok _) => same_but_dirty st st' /\ tip_ok st' x'
    | Ok ((st', x'), Err e) => same_but_dirty st st'
    end;
}.

(** *** Changing the tip *)

Lemma chain_wf_same_but_dirty st st' : chain_wf st -> same_but_dirty st st' -> chain_wf st'.
Proof.
  intros H S. apply (chain_wf_status st); [done|].
  split; rewrite ?(sd_index _ _ S), ?(sd_cand _ _ S), ?(sd_failed _ _ S), ?(sd_invalid _ _ S);
    try (by apply S); try done.
  - intros p b b' Hb Hb'. by replace b' with b by congruence.
  - intros. congruence.
  - split; [apply (cw_cand _ H)|done].
  - split; [apply H|]. by left.
  - destruct (sd_forks _ _ S) as [-> ->]. apply (chain_wf_ptrs _ H).
Qed.

Lemma Tip_chain_of m c t : index_wf m -> chain_of m c t -> Tip c = t.
Proof.
  intros Hwf. destruct t as [t|]; [|by intros ->]. intros (b & Hb & Hl & Ha). pose proof (wf_height m Hwf t b Hb) as Hh.
  destruct (Ha (nHeight b)) as (r & Hr & Hra); [lia|].
  rewrite <- (ancestor_unique m Hwf t (nHeight b) t r (ancestor_self m t b Hb) Hra) in Hr.
  unfold Tip, chain_at in *. rewrite last_lookup. replace (Nat.pred (length c)) with (Z.to_nat (nHeight b)) by lia.
  by destruct ((nHeight b <? 0) || (nHeight b >=? Z.of_nat (length c))).
Qed.

(** The new tip as a block of the index. *)
Lemma tip_changed_spec st st' tip :
  chain_wf st -> tip_changed st st' tip ->
  (forall t, tip = Some t -> valid (index_of st) t /\ exists b, index_of st !! t = Some b /\ nChainTx b <> 0) ->
  chain_wf st' /\ Tip (chainActive st') = tip.
Proof.
  intros H T Ht. pose proof (ev_status _ _ (tc_evolves _ _ _ T)) as Hst. pose proof (same_but_status_core _ _ Hst) as Hc.
  assert (index_wf (index_of st')) as Hwf by (apply (core_index_wf _ _ Hc), (cw_cand _ H)).
  assert (chain_of (index_of st') (chainActive st) (Tip (chainActive st))) as Hco by (apply (core_chain_of _ _ Hc), (cw_cand _ H)).
  destruct (SetTip_spec (index_of st') Hwf (chainActive st) (Tip (chainActive st)) tip Hco) as (c' & Ec & Hc').
  { intros p ->. destruct (Ht p eq_refl) as [_ (b & Hb & _)].
    destruct (same_but_status_lookup _ _ p b Hst Hb) as (b' & -> & _). done. }
  rewrite (tc_chain _ _ _ T) in Ec. injection Ec as <-. pose proof (Tip_chain_of _ _ _ Hwf Hc') as Htip.
  (* the state with the old chain *)
  set (st1 := set_chain (chainActive st) st').
  assert (status_step st st1) as S.
  { split.
    - done.
    - intros p b b' Hb Hb'. by apply (ev_bits _ _ (tc_evolves _ _ _ T) p b b').
    - intros p b b' Hb _ Hb'. by apply (tc_steady _ _ _ T p b b').
    - done.
    - apply T.
    - apply T.
    - change (setBlockIndexCandidates st1) with (setBlockIndexCandidates st'). rewrite (tc_cand _ _ _ T).
      split; [apply (cw_cand _ H)|done].
    - change (g_failed_blocks st1) with (g_failed_blocks st'). rewrite (tc_failed _ _ _ T). split; [apply H|]. by left.
    - change (pindexBestInvalid st1) with (pindexBestInvalid st'). change (pindexBestForkTip st1) with (pindexBestForkTip st').
      change (pindexBestForkBase st1) with (pindexBestForkBase st').
      rewrite (tc_invalid _ _ _ T). destruct (tc_forks _ _ _ T) as [-> ->]. apply (chain_wf_ptrs _ H). }
  pose proof (chain_wf_status _ _ H S) as H1.
  split; [|done]. replace st' with (set_chain (chainActive st') st1) by by destruct st'.
  apply (chain_wf_chain st1 (chainActive st') tip H1); [done| |done].
  intros t ->. destruct (Ht t eq_refl) as [Hv (b & Hb & Hn)].
  destruct (same_but_status_lookup _ _ t b Hst Hb) as (b' & Hb' & E). split.
  - intros r d' Hr Hd'. apply (core_rtc _ _ Hc) in Hr.
    destruct (same_but_status_lookup _ _ r d' (same_but_status_sym _ _ Hst) Hd') as (d & Hd & _).
    change (index_of st1) with (index_of st') in Hd'.
    rewrite (tc_steady _ _ _ T r d d' Hd Hd'). destruct (ev_bits _ _ (tc_evolves _ _ _ T) r d d' Hd Hd') as (-> & _). by apply (Hv r d).
  - exists b'. split; [done|]. by destruct (strip_eq _ _ E) as (_ & -> & _).
Qed.

(** Work grows along every chain: no proof of work is zero, and no total
    exceeds 2^256. *)
Definition work_increases (m : index_map) : Prop :=
  forall p b q c, m !! p = Some b -> pprev b = Some q -> m !! q = Some c -> val (nChainWork c) < val (nChainWork b).

Lemma work_increases_core m m' : same_core m m' -> work_increases m -> work_increases m'.
Proof.
  intros Hc Hw p b' q c' Hb' Hq Hc'. pose proof (same_core_sym _ _ Hc) as Hc2.
  destruct (same_core_lookup _ _ p b' Hc2 Hb') as (b & Hb & E1), (same_core_lookup _ _ q c' Hc2 Hc') as (c & Hcq & E2).
  destruct (core_eq _ _ E1) as (Ep & _ & _ & <- & _), (core_eq _ _ E2) as (_ & _ & _ & <- & _).
  apply (Hw p b q c); congruence.
Qed.

Section order.
Context (m : index_map) (Hwf : index_wf m) (Hw : works_ok m) (Hinc : work_increases m).

Lemma less_ancestor p q : is_Some (m !! p) -> rtc (parent m) p q -> q = p \/ work_less m q p = true.
Proof using Hwf Hw Hinc.
  intros [b Hb] Hr. revert b Hb. induction Hr as [p|p q r (b' & Hb' & Hq) Hqr IH]; intros b Hb; [by left|right].
  replace b' with b in * by congruence. destruct (wf_parent m Hwf p b q Hb Hq) as (c & Hc & _).
  pose proof (Hinc p b q c Hb Hq Hc) as Hlt.
  assert (work_less m q p = true) as Hqp by (apply (work_less_spec m Hw q p c b Hc Hb); by left).
  destruct (IH c Hc) as [->|Hrq]; [done|].
  assert (is_Some (m !! r)) as Hr'.
  { destruct (m !! r) eqn:E; [by eexists|]. unfold work_less in Hrq. by rewrite E in Hrq. }
  by apply (so_trans _ _ (work_less_order m Hw) r q p); [|by exists c|by exists b|..].
Qed.

Lemma not_less_ancestor p q : is_Some (m !! p) -> is_Some (m !! q) -> rtc (parent m) p q -> work_less m p q = false.
Proof using Hwf Hw Hinc.
  intros Hp Hq Hr. destruct (less_ancestor p q Hp Hr) as [->|Hl].
  - by apply (so_irrefl _ _ (work_less_order m Hw)).
  - by apply (so_asym _ _ (work_less_order m Hw) q p).
Qed.
End order.

Section loops.
Context {X B : Type} `{CT : ChainTip X B} (env : environment) `{CL : !ChainTipLaws CT env}.
Abbreviation node := (CChainState * X)%type.

(** [ok]: the blocks that the rules accept. *)
Context (ok : ptr -> Prop).

(** Whether a block is accepted is a property of the block, not of the
    attempt, and no block is refused for a corruption. *)
Definition consistent : Prop :=
  forall p b blk n n' r, chain_wf n.1 -> tip_ok n.1 n.2 -> index_of n.1 !! p = Some b -> pprev b = Tip (chainActive n.1) ->
    ConnectTip env p blk n = Ok (n', r) ->
    match r with Ok _ => ok p | Err e => IsInvalid e = true -> ~ ok p /\ CorruptionPossible e = false end.

(** The tip and the base have been accepted with all their ancestors. *)
Definition sound (m : index_map) (tip base : option ptr) : Prop :=
  forall u, tip = Some u \/ base = Some u -> valid m u /\ forall r, rtc (parent m) u r -> ok r.

Lemma sound_evolves m m' tip base : same_core m m' ->
  (forall u, valid m u -> (forall r, rtc (parent m) u r -> ok r) -> valid m' u) -> sound m tip base -> sound m' tip base.
Proof using.
  intros Hc Hv Hs u Hu. destruct (Hs u Hu) as [H1 H2]. split; [by apply Hv|]. intros r Hr. by apply H2, (core_rtc _ _ Hc).
Qed.

(** The invariant of the loops. *)
Record good (base : option ptr) (n : node) : Prop := {
  go_wf : chain_wf n.1;
  go_based : based n.1 base;
  go_tip : tip_ok n.1 n.2;
  go_work : work_increases (index_of n.1);
  go_sound : sound (index_of n.1) (Tip (chainActive n.1)) base;
}.

(** A computation ends in [Q], in a failure that leaves a well-formed state, or
    by aborting. *)
Definition returns {A} (r : result crash (node * tx_result A)) (Q : node -> A -> Prop) : Prop :=
  match r with
  | Err aborted => True
  | Err out_of_fuel => False
  | Ok (n, Err e) => chain_wf n.1
  | Ok (n, Ok a) => Q n a
  end.

Lemma returns_or_abort {A C} (o : option C) (k : C -> result crash (node * tx_result A)) Q :
  (forall c, o = Some c -> returns (k c) Q) -> returns (c ← or_abort o; k c) Q.
Proof. destruct o as [c|]; cbn; [|done]. intros H. by apply H. Qed.

Lemma tip_block n t : chain_wf n -> Tip (chainActive n) = Some t ->
  exists b, index_of n !! t = Some b /\ nChainTx b <> 0 /\ valid (index_of n) t.
Proof. intros H Ht. destruct (cw_active _ H t Ht) as [Hv (b & Hb & Hn)]. by exists b. Qed.

Lemma active_length st : chain_wf st ->
  match Tip (chainActive st) with
  | None => length (chainActive st) = O
  | Some t => exists b, index_of st !! t = Some b /\ Z.of_nat (length (chainActive st)) = nHeight b + 1
  end.
Proof.
  intros H. pose proof (co_chain _ (cw_cand _ H)) as Hc. destruct (Tip (chainActive st)) as [t|].
  - destruct Hc as (b & Hb & Hl & _). by exists b.
  - cbn in Hc. by rewrite Hc.
Qed.

Lemma disconnect_loop_spec fuel fork fl n base :
  good base n -> (forall f, fork = Some f -> exists t, Tip (chainActive n.1) = Some t /\ rtc (parent (index_of n.1)) t f) ->
  (length (chainActive n.1) <= fuel)%nat ->
  returns (disconnect_loop env fuel fork fl n) (fun n' _ =>
    good base n' /\ Tip (chainActive n'.1) = fork /\ index_of n'.1 = index_of n.1 /\
    setBlockIndexCandidates n'.1 = setBlockIndexCandidates n.1).
Proof using CL.
  revert fl n. induction fuel as [|fuel IH]; intros fl n G Hfork Hlen; cbn [disconnect_loop];
    pose proof (active_length n.1 (go_wf _ _ G)) as Hal; destruct (Tip (chainActive n.1)) as [t|] eqn:Et.
  - destruct Hal as (b & Hb & Hl). pose proof (wf_height _ (co_index _ (cw_cand _ (go_wf _ _ G))) t b Hb). lia.
  - cbn. destruct fork as [f|]; [by destruct (Hfork f eq_refl) as (? & ? & _)|done].
  - destruct (decide (Some t = fork)) as [E|Hne]; [cbn; by rewrite Et|].
    destruct (tip_block n.1 t (go_wf _ _ G) Et) as (b & Hb & Hn & Hv).
    pose proof (DisconnectTip_law n.1 n.2 t b (go_wf _ _ G) (go_tip _ _ G) Et Hb) as Hlaw.
    rewrite <- surjective_pairing in Hlaw.
    destruct (DisconnectTip env n) as [[[st' x'] [u|e]]|[]]; cbn; try done.
    destruct Hlaw as (T & Ei & Ht').
    assert (forall q, pprev b = Some q -> valid (index_of n.1) q /\ exists c, index_of n.1 !! q = Some c /\ nChainTx c <> 0) as Hq.
    { intros q Hq. split; [|by apply (co_parents _ (cw_cand _ (go_wf _ _ G)) t b q)].
      apply (valid_rtc _ t); [done|]. apply rtc_once. by exists b. }
    destruct (tip_changed_spec n.1 st' (pprev b) (go_wf _ _ G) T Hq) as [W' Tip'].
    assert (good base (st', x')) as G'.
    { split; cbn; [done| |done|rewrite Ei; apply G|].
      2: { rewrite Ei, Tip'. intros u' Hu'. destruct Hu' as [Hu'|Hu']; [|by apply (go_sound _ _ G); right].
           split; [by apply Hq|]. intros r Hr. apply (go_sound _ _ G t); [by left|]. apply (rtc_l _ _ u'); [by exists b|done]. }
      destruct (go_based _ _ G) as [B1 B2 B3]. split; rewrite ?Ei.
      - intros p c Hp Hpn Hpv Hpb. rewrite Ei in *. rewrite (tc_cand _ _ _ T). by apply (B1 p c).
      - done.
      - intros q Hq'. rewrite Tip' in Hq'. destruct (Hq q Hq') as [_ (c & Hc & _)]. destruct (B3 t Et) as (u' & Hu' & Hut).
        exists u'. split; [done|]. destruct (B2 u' Hu') as (d & Hd & _).
        pose proof (cw_cand _ (go_wf _ _ G)) as Hcand.
        apply (not_less_trans _ u' t q); [apply Hcand|by exists d|by exists b|by exists c|done|].
        apply not_less_ancestor; [apply Hcand|apply Hcand|apply G|by exists b|by exists c|]. apply rtc_once. by exists b. }
    pose proof (IH true (st', x') G') as IH'. cbn [fst] in IH'. rewrite Ei, (tc_cand _ _ _ T) in IH'. apply IH'.
    + intros f Hf. destruct (Hfork f Hf) as (t' & [= <-] & Hr). rewrite Tip'.
      destruct Hr as [x|x y z (b' & Hb' & Hy) Hr]; [congruence|].
      replace b' with b in * by congruence. by exists y.
    + pose proof (active_length st' W') as Hal'. rewrite Tip' in Hal'. destruct Hal as (b' & Hb' & Hl).
      replace b' with b in * by congruence.
      destruct (pprev b) as [q|] eqn:Hpq; [|cbn; lia]. destruct Hal' as (c & Hc & Hl').
      destruct (wf_parent _ (co_index _ (cw_cand _ (go_wf _ _ G))) t b q Hb Hpq) as (c' & Hc' & Hh).
      rewrite Ei in Hc. replace c' with c in * by congruence. cbn. lia.
  - cbn. destruct fork as [f|]; [by destruct (Hfork f eq_refl) as (? & ? & _)|done].
Qed.

(** *** Paths upwards *)

Fixpoint linked_path (m : index_map) (t : option ptr) (l : list ptr) : Prop :=
  match l with
  | [] => True
  | p :: l => (exists b, m !! p = Some b /\ pprev b = t) /\ linked_path m (Some p) l
  end.
Definition path_end (t : option ptr) (l : list ptr) : option ptr := match last l with Some p => Some p | None => t end.

Lemma path_end_snoc t l p : path_end t (l ++ [p]) = Some p.
Proof. unfold path_end. by rewrite last_snoc. Qed.

Lemma path_end_cons t p l : path_end t (p :: l) = path_end (Some p) l.
Proof. unfold path_end. rewrite last_cons. by destruct (last l). Qed.

Lemma linked_path_snoc m t l p :
  linked_path m t (l ++ [p]) <-> linked_path m t l /\ exists b, m !! p = Some b /\ pprev b = path_end t l.
Proof.
  revert t. induction l as [|q l IH]; intros t; cbn [app linked_path]; [tauto|].
  rewrite IH, path_end_cons. tauto.
Qed.

Lemma linked_path_core m m' t l : same_core m m' -> linked_path m t l -> linked_path m' t l.
Proof.
  intros Hc. revert t. induction l as [|p l IH]; intros t; cbn [linked_path]; [done|]. intros [(b & Hb & Hp) Hl].
  split; [|auto]. destruct (same_core_lookup _ _ p b Hc Hb) as (b' & Hb' & E). exists b'. split; [done|].
  destruct (core_eq _ _ E) as (-> & _). done.
Qed.

Lemma gather_spec m fuel h p b : index_wf m -> m !! p = Some b -> -1 <= h <= nHeight b -> nHeight b - h <= Z.of_nat fuel ->
  exists l a, gather m fuel h (Some p) = Ok l /\ linked_path m a (reverse l) /\ path_end a (reverse l) = Some p /\
    match a with None => h = -1 | Some a => ancestor m p h a end /\
    (forall q, q ∈ l -> rtc (parent m) p q /\ exists c, m !! q = Some c /\ h < nHeight c).
Proof.
  intros Hwf. revert p b. induction fuel as [|fuel IH]; intros p b Hp Hh Hf; cbn [gather]; rewrite Hp; cbn [or_abort mbind result_bind].
  all: destruct (Z.eqb_spec (nHeight b) h) as [E|E].
  1, 3: exists [], (Some p); split_and!; [done|done|done|rewrite <- E; by apply ancestor_self|intros q Hq; by apply elem_of_nil in Hq].
  - lia.
  - destruct (pprev b) as [q|] eqn:Hq.
    + destruct (wf_parent m Hwf p b q Hp Hq) as (c & Hc & Hhc). pose proof (wf_height m Hwf q c Hc).
      destruct (IH q c Hc) as (l & a & -> & L & E' & Ha & Hl); [lia..|]. exists (p :: l), a. cbn [mbind result_bind].
      assert (rtc (parent m) p q) as Hpq by (apply rtc_once; by exists b).
      rewrite reverse_cons, linked_path_snoc, path_end_snoc. split_and!; [done|done| |done| |].
      * exists b. by rewrite Hq.
      * destruct a as [a|]; [|done]. destruct Ha as [Ha1 Ha2]. split; [by etrans|done].
      * intros r Hr. apply elem_of_cons in Hr as [->|Hr]; [split; [done|]; exists b; split; [done|lia]|].
        destruct (Hl r Hr) as [Hqr Hc']. split; [by etrans|done].
    + pose proof (wf_genesis m Hwf p b Hp Hq). destruct fuel; cbn [gather mbind result_bind];
        (exists [p], None; split_and!; [done| |done|lia|intros r ->%list_elem_of_singleton; split; [done|exists b; split; [done|lia]]]);
        cbn [reverse rev_append linked_path]; (split; [by exists b|done]).
Qed.

(** *** The base *)

Definition le_base (m : index_map) (b1 b2 : option ptr) : Prop :=
  forall u, b1 = Some u -> exists u', b2 = Some u' /\ work_less m u' u = false.

Definition linked_base (m : index_map) (base : option ptr) : Prop :=
  forall u, base = Some u -> exists b, m !! u = Some b /\ nChainTx b <> 0.

Lemma le_base_refl m base : works_ok m -> linked_base m base -> le_base m base base.
Proof.
  intros Hw Hl u Hu. exists u. split; [done|]. destruct (Hl u Hu) as (b & Hb & _).
  apply (so_irrefl _ _ (work_less_order m Hw)). by exists b.
Qed.

Lemma le_base_trans m b1 b2 b3 : works_ok m -> linked_base m b1 -> linked_base m b2 -> linked_base m b3 ->
  le_base m b1 b2 -> le_base m b2 b3 -> le_base m b1 b3.
Proof.
  intros Hw L1 L2 L3 H1 H2 u Hu. destruct (H1 u Hu) as (u2 & Hu2 & E2). destruct (H2 u2 Hu2) as (u3 & Hu3 & E3).
  exists u3. split; [done|]. destruct (L1 u Hu) as (c1 & ? & _), (L2 u2 Hu2) as (c2 & ? & _), (L3 u3 Hu3) as (c3 & ? & _).
  by apply (not_less_trans m u3 u2 u); [done|by eexists..|done|done].
Qed.

(** Moving the base up to the tip. *)
Lemma rebase st base t : chain_wf st -> complete st base -> linked_base (index_of st) base -> Tip (chainActive st) = Some t ->
  exists base', based st base' /\ le_base (index_of st) base base' /\ (base' = base \/ base' = Some t).
Proof.
  intros H Hco Hl Ht. destruct (tip_block st t H Ht) as (bt & Hbt & Hnt & _).
  pose proof (cw_cand _ H) as C. pose proof (work_less_order _ (co_works _ C)) as O.
  assert (forall u, base = Some u -> work_less (index_of st) u t = true -> based st (Some t) /\ le_base (index_of st) base (Some t)) as Hup.
  { intros u Hu Hlt. destruct (Hl u Hu) as (bu & Hbu & Hnu). split.
    - split.
      + intros p b Hp Hn Hv Hb. apply (Hco p b Hp Hn Hv). intros u' Hu'. replace u' with u by congruence.
        apply (not_less_trans _ p t u); [apply C|by exists b|by exists bt|by exists bu|by apply Hb|].
        apply (so_asym _ _ O u t); [by exists bu|by exists bt|done].
      + intros u' [= <-]. by exists bt.
      + intros t' Ht'. exists t. split; [done|]. replace t' with t by congruence. apply (so_irrefl _ _ O). by exists bt.
    - intros u' Hu'. exists t. split; [done|]. replace u' with u by congruence.
      apply (so_asym _ _ O u t); [by exists bu|by exists bt|done]. }
  destruct base as [u|].
  - destruct (work_less (index_of st) u t) eqn:E; [exists (Some t); destruct (Hup u eq_refl E); auto|].
    exists (Some u). split; [|split; [by apply le_base_refl; [apply C|]|by left]]. split; [done|done|].
    intros t' Ht'. exists u. split; [done|]. congruence.
  - exists (Some t). split; [|split; [done|by right]]. split.
    + intros p b Hp Hn Hv _. by apply (Hco p b).
    + intros u' [= <-]. by exists bt.
    + intros t' Ht'. exists t. split; [done|]. replace t' with t by congruence. apply (so_irrefl _ _ O). by exists bt.
Qed.

(** *** Connecting *)

Definition steady (m m' : index_map) : Prop :=
  forall q b b', m !! q = Some b -> m' !! q = Some b' -> failed b' = failed b.

Lemma steady_trans m1 m2 m3 : evolves m1 m2 -> steady m1 m2 -> steady m2 m3 -> steady m1 m3.
Proof.
  intros Hev H1 H2 q b b3 Hb Hb3. destruct (same_but_status_lookup _ _ q b (ev_status _ _ Hev) Hb) as (b2 & Hb2 & _).
  rewrite (H2 q b2 b3), (H1 q b b2); done.
Qed.

Lemma steady_valid m m' q : evolves m m' -> steady m m' -> valid m q -> valid m' q.
Proof.
  intros [S Bits] St Hv r b' Hr Hb'. destruct (same_but_status_lookup _ _ r b' (same_but_status_sym _ _ S) Hb') as (b & Hb & _).
  rewrite (St r b b' Hb Hb'). destruct (Bits r b b' Hb Hb') as (-> & _). apply (Hv r b); [|done].
  by apply (core_rtc _ _ (same_but_status_core _ _ S)).
Qed.

(** A block on the way to [most]. *)
Record step_to (m : index_map) (most p : ptr) : Prop := {
  st_valid : valid m p;
  st_linked : exists b, m !! p = Some b /\ nChainTx b <> 0;
  st_below : rtc (parent m) most p;
}.

Lemma step_to_evolves m m' most p : evolves m m' -> steady m m' -> step_to m most p -> step_to m' most p.
Proof.
  intros Hev Hst [Hv (b & Hb & Hn) Hr]. split.
  - by apply (steady_valid m).
  - destruct (same_but_status_lookup _ _ p b (ev_status _ _ Hev) Hb) as (b' & Hb' & E). exists b'.
    by destruct (strip_eq _ _ E) as (_ & -> & _).
  - by apply (core_rtc _ _ (same_but_status_core _ _ (ev_status _ _ Hev))).
Qed.

Lemma tip_changed_complete st st' tip base : tip_changed st st' tip -> complete st base -> complete st' base.
Proof.
  intros T Hco p b' Hb' Hn Hv Hb. pose proof (ev_status _ _ (tc_evolves _ _ _ T)) as Hst. rewrite (tc_cand _ _ _ T).
  destruct (same_but_status_lookup _ _ p b' (same_but_status_sym _ _ Hst) Hb') as (b & Hbp & E).
  destruct (strip_eq _ _ E) as (_ & E1 & _).
  apply (Hco p b); [done|congruence|by apply (evolves_valid _ _ _ (tc_evolves _ _ _ T))|].
  intros u Hu. rewrite <- (status_work_less _ _ _ _ Hst). by apply Hb.
Qed.

Lemma linked_base_evolves m m' base : same_but_status m m' -> linked_base m base -> linked_base m' base.
Proof.
  intros Hst Hl u Hu. destruct (Hl u Hu) as (b & Hb & Hn). destruct (same_but_status_lookup _ _ u b Hst Hb) as (b' & Hb' & E).
  exists b'. by destruct (strip_eq _ _ E) as (_ & -> & _).
Qed.

Lemma le_base_evolves m m' b1 b2 : same_but_status m m' -> le_base m b1 b2 <-> le_base m' b1 b2.
Proof. intros Hst. unfold le_base. by setoid_rewrite (status_work_less _ _ _ _ Hst). Qed.

Lemma good_warnings base st st' x : good base (st, x) -> same_but_warnings st st' -> good base (st', x).
Proof.
  intros [G1 [B1 B2 B3] G3 G4 G5] S. assert (index_of st' = index_of st) as Ei by (unfold index_of; by rewrite (sw_tree _ _ S)).
  split; cbn [fst snd] in *.
  - by apply (chain_wf_warnings st).
  - split; rewrite ?(sw_chain _ _ S), ?Ei; [|done|done]. intros p b. rewrite Ei, (sw_cand _ _ S). apply B1.
  - apply (tip_ok_stable st); [done|apply S|by rewrite Ei].
  - by rewrite Ei.
  - by rewrite Ei, (sw_chain _ _ S).
Qed.

(** No block becomes a candidate. *)
Definition shrinks (st st' : CChainState) : Prop :=
  forall p, p ∈ setBlockIndexCandidates st' -> p ∈ setBlockIndexCandidates st.

(** One block connected, and the worse candidates forgotten. *)
Lemma connected_spec st x st' x' p b most base :
  good base (st, x) -> tip_changed st st' (Some p) -> tip_ok st' x' -> step_to (index_of st) most p ->
  index_of st !! p = Some b -> pprev b = Tip (chainActive st) -> ok p ->
  is_Some (index_of st !! most) -> most ∈ setBlockIndexCandidates st ->
  exists st2 base', PruneBlockIndexCandidates st' = Some st2 /\ good base' (st2, x') /\ le_base (index_of st) base base' /\
    Tip (chainActive st2) = Some p /\ most ∈ setBlockIndexCandidates st2 /\ index_of st2 = index_of st' /\
    evolves (index_of st) (index_of st2) /\ steady (index_of st) (index_of st2) /\ shrinks st st2.
Proof using CL.
  intros G T Hok [Hv (b2 & Hb & Hn) Hr] Hb2 Hpar Hokp [bm Hbm] Hin. replace b2 with b in * by congruence. clear b2 Hb2.
  pose proof (tc_evolves _ _ _ T) as Hev. pose proof (ev_status _ _ Hev) as Hst. pose proof (same_but_status_core _ _ Hst) as Hc.
  destruct (tip_changed_spec st st' (Some p) (go_wf _ _ G) T) as [W' Tip']; [intros t [= <-]; split; [done|by exists b]|].
  destruct (rebase st' base p) as (base' & B' & Hle & Hor); [done| | |done|].
  { apply (tip_changed_complete st _ (Some p)); [done|exact (bs_complete _ _ (go_based _ _ G))]. }
  { apply (linked_base_evolves (index_of st)); [done|exact (bs_linked _ _ (go_based _ _ G))]. }
  assert (work_increases (index_of st')) as Hinc by (apply (work_increases_core _ _ Hc), G).
  destruct (same_but_status_lookup _ _ p b Hst Hb) as (b' & Hb' & _).
  destruct (same_but_status_lookup _ _ most bm Hst Hbm) as (bm' & Hbm' & _).
  assert (work_less (index_of st') most p = false) as Hless.
  { apply not_less_ancestor; [apply (cw_cand _ W')|apply (cw_cand _ W')|done|by exists bm'|by exists b'|].
    by apply (core_rtc _ _ Hc). }
  destruct (PruneBlockIndexCandidates_spec st' p most base' W' B' Tip') as (cand & Ep & W2 & B2 & Hcand); [by rewrite (tc_cand _ _ _ T)|done|].
  exists (set_candidates cand st'), base'. split; [done|]. split.
  { split; cbn [fst snd]; [done|done|by apply (tip_ok_stable st')|done|].
    change (index_of (set_candidates cand st')) with (index_of st'). change (chainActive (set_candidates cand st')) with (chainActive st'). rewrite Tip'.
    apply (sound_evolves (index_of st)); [done|intros u Hu _; by apply (steady_valid (index_of st)); [|intros q c c'; apply (tc_steady _ _ _ T)|]|].
    assert (forall r, rtc (parent (index_of st)) p r -> ok r) as Hall.
    { intros r Hpr. destruct Hpr as [|y z w (b2 & Hb2 & Hz) Hzw]; [done|]. replace b2 with b in * by congruence.
      apply (go_sound _ _ G z); [left; cbn; congruence|done]. }
    pose proof (go_sound _ _ G) as Hs. intros u Hu.
    assert (u = p \/ base = Some u) as Hu'.
    { destruct Hu as [Hu|Hu]; [left; congruence|]. destruct Hor as [->| ->]; [by right|left; congruence]. }
    destruct Hu' as [->|Hu']; [done|].
    apply Hs. by right. }
  split; [by apply (le_base_evolves _ _ _ _ Hst)|]. split; [done|]. split; [apply Hcand; by rewrite (tc_cand _ _ _ T)|].
  split; [done|]. split; [done|]. split; [intros q c c'; apply (tc_steady _ _ _ T)|].
  intros q Hq. apply Hcand in Hq as [Hq _]. by rewrite (tc_cand _ _ _ T) in Hq.
Qed.

Lemma InvalidBlockFound_tip p st st' : InvalidBlockFound env p false st = Some st' -> Tip (chainActive st) <> None.
Proof.
  unfold InvalidBlockFound. cbn [negb]. fold (mark_failed p st). unfold InvalidChainFound. intros E Ht.
  destruct (block_at (mark_failed p st) p) as [b|]; cbn in E; [|done].
  destruct (more_work_than _ _ _) as [v|]; cbn in E; [|done].
  assert (chainActive (if v then set_best_invalid (Some p) (mark_failed p st) else mark_failed p st) = chainActive st) as Ec by by destruct v.
  rewrite Ec, Ht in E. done.
Qed.

(** A block that turns out to be invalid. *)
Lemma invalid_spec st x x' st' p b base :
  good base (st, x) -> ~ ok p -> index_of st !! p = Some b -> pprev b = Tip (chainActive st) -> valid (index_of st) p ->
  InvalidBlockFound env p false st = Some st' -> tip_ok st' x' ->
  good base (st', x') /\ evolves (index_of st) (index_of st') /\ Tip (chainActive st') = Tip (chainActive st) /\
  p ∈ unfailed (index_of st) /\ p ∉ unfailed (index_of st') /\ shrinks st st'.
Proof using CL.
  intros G Hbad Hb Hpar Hv E Hok. pose proof (InvalidBlockFound_tip p st st' E) as Htip. pose proof (go_wf _ _ G) as H. cbn [fst] in H.
  assert (chain_at (chainActive st) (nHeight b) <> Some p) as Hoff.
  { intros Hin. apply chain_at_range in Hin. pose proof (active_length st H) as Hal.
    destruct (Tip (chainActive st)) as [t|]; [|done]. destruct Hal as (bt & Hbt & Hl).
    destruct (wf_parent _ (co_index _ (cw_cand _ H)) p b t Hb Hpar) as (c & Hc & Hh). replace c with bt in * by congruence. lia. }
  destruct (InvalidBlockFound_spec env st p b base H (bs_complete _ _ (go_based _ _ G)) Htip Hb Hoff) as (st2 & E2 & S & W2 & Co2).
  rewrite E in E2. injection E2 as <-.
  pose proof (mark_failed_step st p b H Hb Hoff) as M. pose proof (step_evolves _ _ M) as Hev0.
  assert (index_of st' = index_of (mark_failed p st)) as Ei by (unfold index_of; by rewrite (sw_tree _ _ S)).
  assert (evolves (index_of st) (index_of st')) as Hev by by rewrite Ei.
  pose proof (ev_status _ _ Hev) as Hst.
  assert (chainActive st' = chainActive st) as Ec by (rewrite (sw_chain _ _ S); apply M).
  split; [|split; [done|split; [by rewrite Ec|split]]].
  - split; cbn; [done| |done|by apply (work_increases_core _ _ (same_but_status_core _ _ Hst)), G|].
    2: { rewrite Ec. apply (sound_evolves (index_of st)); [by apply same_but_status_core| |apply G].
         intros u Hu Hall r c Hr Hc. assert (r <> p) as Hrp.
         { intros ->. apply Hbad, Hall. by apply (core_rtc _ _ (same_but_status_core _ _ Hst)). }
         rewrite Ei in Hc. cbn in Hc. rewrite lookup_alter_ne in Hc by done. apply (Hu r c); [|done].
         by apply (core_rtc _ _ (same_but_status_core _ _ Hst)). }
    destruct (go_based _ _ G) as [B1 B2 B3]. cbn [fst] in *. split; [done| |].
    + by apply (linked_base_evolves (index_of st)).
    + rewrite Ec. intros t Ht. destruct (B3 t Ht) as (u & Hu & Hl). exists u. by rewrite (status_work_less _ _ _ _ Hst).
  - apply elem_of_unfailed. exists b. split; [done|]. destruct (Hv p b) as [Hf _]; [done|done|].
    rewrite failed_bits in Hf. by apply orb_false_elim in Hf as [? _].
  - split; [|intros q Hq; rewrite (sw_cand _ _ S) in Hq; by apply M].
    rewrite Ei, elem_of_unfailed. intros (c & Hc & Hbit). cbn in Hc. rewrite lookup_alter_eq, Hb in Hc. injection Hc as <-.
    cbn [add_status set_nStatus nStatus] in Hbit. rewrite Z.lor_spec in Hbit. by rewrite orb_true_r in Hbit.
Qed.

Definition blk_ok (m : index_map) (most : ptr) (blk : option B) : Prop :=
  forall k b, blk = Some k -> m !! most = Some b -> block_hash k = phashBlock b.

Lemma blk_ok_core m m' most blk : same_core m m' -> blk_ok m most blk -> blk_ok m' most blk.
Proof.
  intros Hc Hk k b' Hblk Hb'. destruct (same_core_lookup _ _ most b' (same_core_sym _ _ Hc) Hb') as (b & Hb & E).
  destruct (core_eq _ _ E) as (_ & _ & _ & _ & <- & _). by apply Hk.
Qed.

Lemma evolves_some m m' p : evolves m m' -> is_Some (m !! p) -> is_Some (m' !! p).
Proof.
  intros Hev [b Hb]. destruct (same_but_status_lookup _ _ p b (ev_status _ _ Hev) Hb) as (b' & ? & _). by exists b'.
Qed.

(** How a batch, and later the whole loop, leaves the node. *)
Record progress (base : option ptr) (n n' : node) : Prop := {
  pg_good : exists base', good base' n' /\ le_base (index_of n.1) base base';
  pg_evolves : evolves (index_of n.1) (index_of n'.1);
  pg_shrinks : shrinks n.1 n'.1;
}.
Definition still_going (most : ptr) (n n' : node) : Prop :=
  most ∈ setBlockIndexCandidates n'.1 /\ steady (index_of n.1) (index_of n'.1).
Definition one_failed (n n' : node) : Prop :=
  Tip (chainActive n'.1) <> None /\ exists p, p ∈ unfailed (index_of n.1) /\ p ∉ unfailed (index_of n'.1).

Lemma one_failed_evolves n1 n2 n3 : evolves (index_of n1.1) (index_of n2.1) -> one_failed n2 n3 -> one_failed n1 n3.
Proof. intros Hev (Ht & p & H1 & H2). split; [done|]. exists p. split; [by apply (evolves_unfailed _ _ Hev)|done]. Qed.

Lemma progress_refl base n : good base n -> progress base n n.
Proof.
  intros G. split; [|apply evolves_refl|by intros p]. exists base. split; [done|].
  apply le_base_refl; [apply (cw_cand _ (go_wf _ _ G))|exact (bs_linked _ _ (go_based _ _ G))].
Qed.

Lemma progress_trans base base2 n1 n2 n3 :
  good base n1 -> good base2 n2 -> le_base (index_of n1.1) base base2 -> evolves (index_of n1.1) (index_of n2.1) -> shrinks n1.1 n2.1 ->
  progress base2 n2 n3 -> progress base n1 n3.
Proof.
  intros G1 G2 Hle Hev Hs [(base3 & G3 & Hle3) Hev3 Hs3].
  split; [|by apply (evolves_trans _ (index_of n2.1))|by intros p Hp; apply Hs, Hs3].
  exists base3. split; [done|]. pose proof (ev_status _ _ Hev) as S2. pose proof (ev_status _ _ Hev3) as S3.
  apply (le_base_trans _ base base2 base3); [apply (cw_cand _ (go_wf _ _ G1))|exact (bs_linked _ _ (go_based _ _ G1))| | |done|].
  - apply (linked_base_evolves (index_of n2.1)); [by apply same_but_status_sym|exact (bs_linked _ _ (go_based _ _ G2))].
  - apply (linked_base_evolves (index_of n3.1)); [|exact (bs_linked _ _ (go_based _ _ G3))].
    apply same_but_status_sym. intros q. by rewrite S3.
  - by apply (le_base_evolves _ _ _ _ S2).
Qed.

Lemma connect_batch_spec l most blk old first n base :
  consistent -> good base n -> linked_path (index_of n.1) (Tip (chainActive n.1)) l ->
  (forall p, p ∈ l -> step_to (index_of n.1) most p) -> is_Some (index_of n.1 !! most) ->
  most ∈ setBlockIndexCandidates n.1 -> blk_ok (index_of n.1) most blk -> is_Some (index_of n.1 !! first) ->
  returns (connect_batch env l most blk old first n) (fun n' r => progress base n n' /\
    match r with
    | batch_connected => Tip (chainActive n'.1) = path_end (Tip (chainActive n.1)) l /\ still_going most n n'
    | batch_better => (exists p, p ∈ l /\ Tip (chainActive n'.1) = Some p) /\ still_going most n n'
    | batch_invalid => one_failed n n'
    end).
Proof using CL.
  intros Hcf. revert n base. induction l as [|p l IH]; intros n base G Hpath Hl Hmost Hin Hblk Hfirst; cbn [connect_batch].
  { cbn. split; [by apply progress_refl|].
    split; [done|]. split; [done|]. intros q b b'. congruence. }
  destruct Hpath as [(b & Hb & Hpar) Hpath]. pose proof (Hl p ltac:(left)) as Hstep. pose proof Hstep as [Hv (b2 & Hb2 & Hn) Hr].
  replace b2 with b in * by congruence. clear b2 Hb2.
  set (blk' := if decide (p = most) then blk else None).
  pose proof (ConnectTip_law n.1 n.2 p b blk' (go_wf _ _ G) (go_tip _ _ G) Hb Hpar Hn Hv) as Hlaw.
  rewrite <- surjective_pairing in Hlaw.
  specialize (Hlaw ltac:(intros k Hk; unfold blk' in Hk; case_decide; [subst; by apply Hblk|done])).
  destruct (ConnectTip env p blk' n) as [[[st' x'] [u|e]]|[]] eqn:Ect; cbn [mbind result_bind]; [| |done|done];
    pose proof (Hcf _ _ _ _ _ _ (go_wf _ _ G) (go_tip _ _ G) Hb Hpar Ect) as Hokp; cbn in Hokp.
  - destruct Hlaw as [T Hok]. rewrite (surjective_pairing n) in G.
    destruct (connected_spec n.1 n.2 st' x' p b most base G T Hok Hstep Hb Hpar Hokp Hmost Hin) as
      (st2 & base' & Ep & G2 & Hle & Htip2 & Hin2 & Ei & Hev & Hst & Hshr).
    cbn [fst]. rewrite Ep. cbn [or_abort mbind result_bind].
    apply returns_or_abort. intros [|] _.
    + cbn. rewrite <- surjective_pairing in G. split; [split; [by exists base'|done|done]|].
      split; [exists p; split; [left|done]|done].
    + cbn [snd]. specialize (IH (st2, x') base' G2). cbn [fst] in IH. rewrite Htip2 in IH.
      pose proof (same_but_status_core _ _ (ev_status _ _ Hev)) as Hc.
      assert (returns (connect_batch env l most blk old first (st2, x')) (fun n' r => progress base' (st2, x') n' /\
        match r with
        | batch_connected => Tip (chainActive n'.1) = path_end (Some p) l /\ still_going most (st2, x') n'
        | batch_better => (exists p, p ∈ l /\ Tip (chainActive n'.1) = Some p) /\ still_going most (st2, x') n'
        | batch_invalid => one_failed (st2, x') n'
        end)) as H.
      { apply IH; [by apply (linked_path_core (index_of n.1))| |by apply (evolves_some (index_of n.1))|done
          |by apply (blk_ok_core (index_of n.1))|by apply (evolves_some (index_of n.1))].
        intros q Hq. apply (step_to_evolves (index_of n.1)); [done|done|]. apply Hl. by right. }
      destruct (connect_batch env l most blk old first (st2, x')) as [[n' [r|e]]|[]]; cbn in H |- *; [|done..].
      destruct H as [Hpg Hcase]. rewrite <- surjective_pairing in G.
      split; [by apply (progress_trans base base' n (st2, x') n')|].
      assert (forall n'', still_going most (st2, x') n'' -> still_going most n n'') as Hgo.
      { intros n'' [H1 H2]. split; [done|]. by apply (steady_trans _ (index_of st2)). }
      destruct r.
      * rewrite path_end_cons. destruct Hcase. auto.
      * destruct Hcase as [(q & Hq & Ht) Hs]. split; [exists q; split; [by right|done]|auto].
      * by apply (one_failed_evolves n (st2, x') n').
  - destruct (IsInvalid e) eqn:Einv; [|done]. destruct (Hokp eq_refl) as [Hbad Ecp]. rewrite Ecp in Hlaw. destruct Hlaw as [Einvalid Hok].
    rewrite Ecp. cbn [negb fst snd]. rewrite (surjective_pairing n) in G.
    destruct (invalid_spec n.1 n.2 x' st' p b base G Hbad Hb Hpar Hv Einvalid Hok) as (G2 & Hev & Htip & Hu1 & Hu2 & Hshr).
    pose proof (InvalidBlockFound_tip _ _ _ Einvalid) as Hne.
    destruct (InvalidChainFound_total env first st') as (st2 & E2 & S2);
      [apply G2|by rewrite Htip|by apply (evolves_some (index_of n.1))|].
    rewrite E2. cbn. assert (index_of st2 = index_of st') as Ei by (unfold index_of; by rewrite (sw_tree _ _ S2)).
    split; [split|].
    + exists base. split; [by apply (good_warnings base st')|].
      apply le_base_refl; [apply (cw_cand _ (go_wf _ _ G))|exact (bs_linked _ _ (go_based _ _ G))].
    + cbn. by rewrite Ei.
    + intros q Hq. apply Hshr. cbn in Hq. by rewrite (sw_cand _ _ S2) in Hq.
    + split; [cbn; by rewrite (sw_chain _ _ S2), Htip|]. exists p. split; [done|]. cbn. by rewrite Ei.
Qed.

Definition tip_at (m : index_map) (most : ptr) (h : Z) (tip : option ptr) : Prop :=
  match tip with None => h = -1 | Some t => ancestor m most h t end.

Lemma tip_at_range m most b h tip : index_wf m -> m !! most = Some b -> tip_at m most h tip -> -1 <= h <= nHeight b.
Proof.
  intros Hwf Hb Ht. destruct tip as [t|]; cbn in Ht.
  - pose proof (ancestor_range m Hwf most b h t Hb Ht). lia.
  - subst. pose proof (wf_height m Hwf most b Hb). lia.
Qed.

Lemma linked_rtc st p q : candidates_ok st -> (exists b, index_of st !! p = Some b /\ nChainTx b <> 0) ->
  rtc (parent (index_of st)) p q -> exists c, index_of st !! q = Some c /\ nChainTx c <> 0.
Proof.
  intros C Hp Hr. induction Hr as [|x y z (bx & Hx & Hy) Hyz IH]; [done|]. apply IH.
  destruct Hp as (b & Hb & Hn). replace bx with b in * by congruence. by apply (co_parents _ C x b y).
Qed.

Lemma connect_loop_spec fuel h most blk old last' n base bm :
  consistent -> good base n -> index_of n.1 !! most = Some bm -> step_to (index_of n.1) most most ->
  most ∈ setBlockIndexCandidates n.1 -> blk_ok (index_of n.1) most blk ->
  tip_at (index_of n.1) most h (Tip (chainActive n.1)) -> nHeight bm - h <= Z.of_nat fuel ->
  returns (connect_loop env fuel h most blk old last' n) (fun n' r => progress base n n' /\
    match r with
    | (true, f) => one_failed n n' /\ exists p, f = Some p /\ is_Some (index_of n'.1 !! p)
    | (false, _) => still_going most n n' /\ exists t h', Tip (chainActive n'.1) = Some t /\
        ancestor (index_of n'.1) most h' t /\ (t = most \/ h < h')
    end).
Proof using CL.
  intros Hcf. revert h last' n base bm. induction fuel as [|fuel IH]; intros h last' n base bm G Hbm Hst Hin Hblk Htip Hf;
    pose proof (co_index _ (cw_cand _ (go_wf _ _ G))) as Hwf; pose proof (tip_at_range _ _ _ _ _ Hwf Hbm Htip) as Hrange;
    cbn [connect_loop]; unfold block_at; rewrite Hbm; cbn [or_abort mbind result_bind]; destruct (Z.eqb_spec h (nHeight bm)) as [E|E].
  1, 3: cbn; split; [by apply progress_refl|].
  1, 2: destruct (Tip (chainActive n.1)) as [t|] eqn:Et; [|cbn in Htip; pose proof (wf_height _ Hwf most bm Hbm); lia].
  1, 2: split; [split; [done|intros q b b'; congruence]|]; exists t, h; split; [done|]; split; [done|]; left;
      apply (ancestor_unique _ Hwf most h); [done|rewrite E; by apply ancestor_self].
  - lia.
  - set (target := Z.min (h + 32) (nHeight bm)).
    destruct (GetAncestor_Some _ Hwf most bm target Hbm) as (p & bp & Ega & Ha & Hbp & _); [lia|].
    rewrite Ega. cbn [or_abort mbind result_bind].
    pose proof (ancestor_below _ _ _ _ Ha bp Hbp) as Hhp.
    destruct (gather_spec (index_of n.1) (Z.to_nat (target + 1)) h p bp Hwf Hbp) as (v & a & Ev & Hpath & Hend & Hat & Hv); [lia..|].
    rewrite Ev. cbn [mbind result_bind].
    assert (a = Tip (chainActive n.1)) as ->.
    { destruct a as [a|], (Tip (chainActive n.1)) as [t|] eqn:Et; cbn in Htip.
      - f_equal. apply (ancestor_unique _ Hwf most h); [by apply (ancestor_trans _ _ target p)|done].
      - subst h. pose proof (ancestor_range _ Hwf p bp (-1) a Hbp Hat). lia.
      - subst h. pose proof (ancestor_range _ Hwf most bm (-1) t Hbm Htip). lia.
      - done. }
    destruct (last v) as [first|] eqn:Elast.
    2:{ exfalso. apply last_None in Elast. subst v. cbn in Hend. unfold path_end in Hend. cbn in Hend.
        rewrite Hend in Htip. cbn in Htip. pose proof (ancestor_below _ _ _ _ Htip bp Hbp). lia. }
    assert (forall q, q ∈ reverse v -> step_to (index_of n.1) most q) as Hsteps.
    { intros q Hq. rewrite elem_of_reverse in Hq. destruct (Hv q Hq) as [Hpq _]. destruct Hst as [Hval Hlk _].
      assert (rtc (parent (index_of n.1)) most q) as Hr by (etrans; [apply Ha|done]).
      split; [by apply (valid_rtc _ most)|by apply (linked_rtc n.1 most q (cw_cand _ (go_wf _ _ G)))|done]. }
    assert (is_Some (index_of n.1 !! first)) as Hfirst.
    { destruct (Hsteps first) as [_ (c & Hc & _) _]; [|by exists c]. rewrite elem_of_reverse. by apply last_Some_elem_of. }
    pose proof (connect_batch_spec (reverse v) most blk old first n base Hcf G Hpath Hsteps ltac:(by exists bm) Hin Hblk Hfirst) as Hb.
    destruct (connect_batch env (reverse v) most blk old first n) as [[n2 [r|e]]|[]]; cbn in Hb |- *; [|done..].
    destruct Hb as [Hpg Hcase]. pose proof Hpg as [(base2 & G2 & Hle) Hev Hshr].
    pose proof (same_but_status_core _ _ (ev_status _ _ Hev)) as Hc.
    destruct r.
    + destruct Hcase as [Ht2 Hgo]. rewrite Hend in Ht2. pose proof Hgo as [Hin2 Hst2].
      destruct (same_but_status_lookup _ _ most bm (ev_status _ _ Hev) Hbm) as (bm2 & Hbm2 & Ebm).
      destruct (core_eq _ _ (strip_core _ _ Ebm)) as (_ & Ehm & _).
      assert (ancestor (index_of n2.1) most target p) as Ha2 by (apply (links_ancestor (index_of n.1)); [by rewrite (core_links _ _ Hc)|done]).
      pose proof (IH target (Some first) n2 base2 bm2 G2 Hbm2) as IH'.
      rewrite Ht2, Ehm in IH'. specialize (IH' ltac:(by apply (step_to_evolves (index_of n.1))) Hin2 ltac:(by apply (blk_ok_core (index_of n.1))) Ha2 ltac:(lia)).
      destruct (connect_loop env fuel target most blk old (Some first) n2) as [[n3 [[fi f]|e]]|[]]; cbn in IH' |- *; [|done..].
      destruct IH' as [Hpg3 Hcase3]. split; [by apply (progress_trans base base2 n n2 n3)|]. destruct fi.
      * destruct Hcase3 as [Hone Hf3]. split; [|done]. by apply (one_failed_evolves n n2 n3).
      * destruct Hcase3 as [[Hin3 Hst3] (t & h' & Ht & Hat' & Hor)]. split; [split; [done|by apply (steady_trans _ (index_of n2.1))]|].
        exists t, h'. split; [done|]. split; [done|]. destruct Hor; [by left|right; lia].
    + destruct Hcase as [(q & Hq & Ht2) Hgo]. split; [done|]. split; [done|].
      pose proof (Hsteps q Hq) as [_ (bq & Hbq & _) Hrq].
      destruct (same_but_status_lookup _ _ q bq (ev_status _ _ Hev) Hbq) as (bq2 & Hbq2 & Ebq).
      destruct (core_eq _ _ (strip_core _ _ Ebq)) as (_ & Ehq & _).
      exists q, (nHeight bq). split; [done|]. split.
      * split; [by apply (core_rtc _ _ Hc)|]. unfold height. by rewrite Hbq2, <- Ehq.
      * right. rewrite elem_of_reverse in Hq. destruct (Hv q Hq) as [_ (c & Hcq & Hlt)]. by replace bq with c by congruence.
    + split; [done|]. split; [done|]. exists first. split; [done|]. by apply (evolves_some (index_of n.1)).
Qed.

Lemma FindFork_tip n most bm base : good base n -> index_of n.1 !! most = Some bm ->
  exists fork h, FindFork (index_of n.1) (chainActive n.1) (Some most) = Some fork /\ tip_at (index_of n.1) most h fork /\
    (forall f, fork = Some f -> exists t, Tip (chainActive n.1) = Some t /\ rtc (parent (index_of n.1)) t f) /\
    forall t0 h0, Tip (chainActive n.1) = Some t0 -> ancestor (index_of n.1) most h0 t0 -> h = h0.
Proof.
  intros G Hbm. pose proof (go_wf _ _ G) as W. pose proof (cw_cand _ W) as C. pose proof (co_index _ C) as Hwf.
  destruct (FindFork_spec _ Hwf (chainActive n.1) most bm Hbm) as (fork & Ef & Hf).
  assert (forall t0 h0, Tip (chainActive n.1) = Some t0 -> ancestor (index_of n.1) most h0 t0 ->
    chain_at (chainActive n.1) h0 = Some t0 /\ forall h r, chain_at (chainActive n.1) h = Some r -> h <= h0) as Htop.
  { intros t0 h0 Ht0 Ha0. pose proof (co_chain _ C) as Hc. rewrite Ht0 in Hc. destruct Hc as (b0 & Hb0 & Hl & Hanc).
    pose proof (ancestor_below _ _ _ _ Ha0 b0 Hb0) as Hh. pose proof (wf_height _ Hwf t0 b0 Hb0).
    destruct (Hanc h0 ltac:(lia)) as (r & Hr & Hra). split.
    - rewrite Hr. f_equal. rewrite <- Hh in Hra. by apply (ancestor_unique _ Hwf t0 (nHeight b0)); [|apply ancestor_self].
    - intros h r' Hr'. apply chain_at_range in Hr'. lia. }
  destruct fork as [f|].
  - destruct Hf as (h & Ha & Hin & Hmax). exists (Some f), h. split; [done|]. split; [done|]. split.
    + intros f' [= <-]. destruct (Tip (chainActive n.1)) as [t|] eqn:Et.
      * exists t. split; [done|]. destruct Ha as [_ Hh]. apply height_lookup in Hh as (bf & Hbf & Hhf).
        apply (active_rtc _ (chainActive n.1) (Some t) t f bf); [done|rewrite <- Et; apply C|done|done|by rewrite Hhf].
      * pose proof (co_chain _ C) as Hc. rewrite Et in Hc. cbn in Hc. rewrite Hc in Hin.
        apply chain_at_range in Hin. cbn in Hin. lia.
    + intros t0 h0 Ht0 Ha0. destruct (Htop t0 h0 Ht0 Ha0) as [Hc0 Hle]. pose proof (Hle h f Hin). pose proof (Hmax h0 t0 Ha0 Hc0). lia.
  - exists None, (-1). split; [done|]. split; [done|]. split; [done|]. intros t0 h0 Ht0 Ha0.
    destruct (Htop t0 h0 Ht0 Ha0) as [Hc0 _]. by destruct (Hf h0 t0 Ha0).
Qed.

Lemma ActivateBestChainStep_spec most blk n base :
  consistent -> good base n -> step_to (index_of n.1) most most ->
  most ∈ setBlockIndexCandidates n.1 -> blk_ok (index_of n.1) most blk ->
  returns (ActivateBestChainStep env most blk n) (fun n' r => progress base n n' /\
    if (r : bool) then one_failed n n'
    else still_going most n n' /\ exists t h', Tip (chainActive n'.1) = Some t /\ ancestor (index_of n'.1) most h' t /\
      (t = most \/ forall t0 h0, Tip (chainActive n.1) = Some t0 -> ancestor (index_of n.1) most h0 t0 -> h0 < h')).
Proof using CL.
  intros Hcf G Hst Hin Hblk. pose proof Hst as [_ (bm & Hbm & _) _].
  destruct (FindFork_tip n most bm base G Hbm) as (fork & h & Ef & Htip & Hft & Hh0).
  unfold ActivateBestChainStep. rewrite Ef. cbn [or_abort mbind result_bind].
  pose proof (disconnect_loop_spec (length (chainActive n.1)) fork false n base G Hft ltac:(done)) as Hd.
  destruct (disconnect_loop env _ fork false n) as [[n1 [fd|e]]|[]]; cbn [returns] in Hd; cbn [mbind result_bind]; [|done..].
  destruct Hd as (G1 & Ht1 & Ei1 & Ec1).
  assert (exists h', match fork with None => Some (-1) | Some f => b ← block_at n1.1 f; Some (nHeight b) end = Some h' /\ h' = h) as (h' & -> & ->).
  { unfold block_at. rewrite Ei1. destruct fork as [f|]; cbn in Htip; [|by exists (-1)].
    destruct Htip as [_ Hh]. apply height_lookup in Hh as (b & Hb & Eh). rewrite Hb. by exists h; cbn; rewrite Eh. }
  cbn [or_abort mbind result_bind]. unfold block_at. rewrite Ei1, Hbm. cbn [or_abort mbind result_bind].
  pose proof (tip_at_range _ _ _ _ _ (co_index _ (cw_cand _ (go_wf _ _ G))) Hbm Htip) as Hrange.
  pose proof (connect_loop_spec (Z.to_nat (nHeight bm - h)) h most blk (Tip (chainActive n.1)) None n1 base bm Hcf G1) as Hc.
  rewrite Ei1, Ec1, Ht1 in Hc. specialize (Hc Hbm Hst Hin Hblk Htip ltac:(lia)).
  destruct (connect_loop env _ h most blk _ None n1) as [[n2 [[fi f]|e]]|[]]; cbn [returns] in Hc; cbn [mbind result_bind]; [|done..].
  destruct Hc as [[(base' & G2 & Hle) Hev Hshr] Hcase]. rewrite Ei1 in Hev, Hle.
  set (x := if fd then _ else _).
  assert (good base' (n2.1, x)) as G3.
  { destruct G2 as [W2 B2 T2 I2 S2]. split; cbn; try done. subst x. destruct fd; [by apply UpdateMempool_law|done]. }
  assert (forall st, same_but_warnings n2.1 st -> progress base n (st, x) /\ index_of st = index_of n2.1 /\
    chainActive st = chainActive n2.1 /\ setBlockIndexCandidates st = setBlockIndexCandidates n2.1) as Hend.
  { intros st S. assert (index_of st = index_of n2.1) as Ei by (unfold index_of; by rewrite (sw_tree _ _ S)).
    split_and!; [|done|apply S|apply S]. split; [|cbn; by rewrite Ei|].
    2: { intros p Hp. cbn in Hp. rewrite (sw_cand _ _ S) in Hp. apply Hshr in Hp. by rewrite Ec1 in Hp. }
    exists base'. split; [by apply (good_warnings base' n2.1)|done]. }
  assert (forall st, same_but_warnings n2.1 st -> still_going most n1 n2 -> still_going most n (st, x)) as Hgo.
  { intros st S [H1 H2]. destruct (Hend st S) as (_ & Ei & _ & Ec). split; cbn; [by rewrite Ec|]. rewrite Ei, <- Ei1. done. }
  destruct fi; cbn [mbind result_bind].
  - destruct Hcase as [(Htn & q & Hq1 & Hq2) (p & -> & Hp)]. cbn [or_abort mbind result_bind].
    destruct (CheckForkWarningConditionsOnNewFork_total env p n2.1) as (st & -> & S); [apply G2|done|done|].
    cbn. destruct (Hend st S) as (Hpg & Ei & Ech & _). split; [done|]. split; [cbn; by rewrite Ech|].
    exists q. cbn. rewrite Ei, <- Ei1. done.
  - destruct Hcase as [Hsg (t & h2 & Ht & Ha & Hor)].
    destruct (CheckForkWarningConditions_total env n2.1) as (st & -> & S); [apply G2|by rewrite Ht|].
    cbn. destruct (Hend st S) as (Hpg & Ei & Ech & _). split; [done|]. split; [by apply Hgo|].
    exists t, h2. cbn. rewrite Ech, Ei. split; [done|]. split; [done|]. destruct Hor as [|Hlt]; [by left|right].
    intros t0 h0 Ht0 Ha0. by rewrite <- (Hh0 t0 h0 Ht0 Ha0).
Qed.

(** *** Until there is nothing better *)

(** The target that is kept between turns: the best candidate. *)
Record target_ok (n : node) (most : ptr) : Prop := {
  ta_step : step_to (index_of n.1) most most;
  ta_in : most ∈ setBlockIndexCandidates n.1;
  ta_best : forall p, p ∈ setBlockIndexCandidates n.1 -> work_less (index_of n.1) most p = false;
}.

Lemma target_progress base most n n' :
  target_ok n most -> progress base n n' -> still_going most n n' -> target_ok n' most.
Proof.
  intros [Hs Hi Hb] [_ Hev Hshr] [Hin Hst]. split.
  - by apply (step_to_evolves (index_of n.1)).
  - done.
  - intros p Hp. rewrite (status_work_less _ _ _ _ (ev_status _ _ Hev)). by apply Hb, Hshr.
Qed.

Lemma select_spec base n : good base n ->
  exists st r, FindMostWorkChain n.1 = Some (st, r) /\ good base (st, n.2) /\
    evolves (index_of n.1) (index_of st) /\ chainActive st = chainActive n.1 /\ shrinks n.1 st /\
    (forall most, r = Some most -> target_ok (st, n.2) most) /\ (r = None -> setBlockIndexCandidates st = []).
Proof using CL.
  intros G. destruct (FindMostWorkChain_wf n.1 base (go_wf _ _ G) (bs_complete _ _ (go_based _ _ G)))
    as (st & r & E & W & Co & P & Er & Hv).
  exists st, r. split; [done|]. pose proof (pruned_step _ _ (go_wf _ _ G) (cw_cand _ W) P) as S.
  pose proof (step_evolves _ _ S) as Hev. pose proof (same_but_status_core _ _ (ev_status _ _ Hev)) as Hc.
  split.
  { destruct (go_based _ _ G) as [_ B2 B3]. split; cbn; [done| |by apply (tip_ok_stable n.1); [apply G|apply P|]|
      by apply (work_increases_core (index_of n.1)), G|].
    2: { rewrite (pr_chain _ _ P). apply (sound_evolves (index_of n.1)); [done| |apply G].
         intros u Hu _. by apply (pruned_valid n.1 st); [apply G|..]. }
    split; [done|by apply (linked_base_evolves (index_of n.1)); [apply Hev|exact B2]|].
    rewrite (pr_chain _ _ P). intros t Ht. destruct (B3 t Ht) as (u & Hu & Hl). exists u.
    by rewrite (status_work_less _ _ _ _ (ev_status _ _ Hev)). }
  split; [done|]. split; [apply P|]. split; [exact (pr_sub _ _ P)|]. split; [|by intros ->; apply last_None; congruence].
  intros most ->. pose proof (cw_cand _ W) as C. symmetry in Er. split; cbn.
  - split; [|apply C; by apply last_Some_elem_of|done].
    apply (pruned_valid n.1 st); [apply G|done|done|]. by apply Hv.
  - by apply last_Some_elem_of.
  - intros p Hp. pose proof (work_less_order _ (co_works _ C)) as O.
    pose proof (candidates_in _ C) as Hall. rewrite Forall_forall in Hall.
    destruct (sorted_last (work_less (index_of st)) (setBlockIndexCandidates st) most p) as [->|Hl]; [apply C|done|done| |].
    + apply (so_irrefl _ _ O). by apply Hall, last_Some_elem_of.
    + apply (so_asym _ _ O p most); [by apply Hall|by apply Hall, last_Some_elem_of|done].
Qed.

(** The tip is as good as every candidate. *)
Definition best_reached (n : node) : Prop :=
  forall p, p ∈ setBlockIndexCandidates n.1 -> exists t, Tip (chainActive n.1) = Some t /\ work_less (index_of n.1) t p = false.

Lemma best_valid base n u : good base n -> best_reached n -> base = Some u ->
  exists t, Tip (chainActive n.1) = Some t /\ work_less (index_of n.1) t u = false.
Proof.
  intros G Hb Hu. apply Hb. destruct (bs_linked _ _ (go_based _ _ G) u Hu) as (c & Hc & Hn).
  apply (bs_complete _ _ (go_based _ _ G) u c Hc Hn); [apply (go_sound _ _ G); by right|].
  intros t Ht. replace t with u by congruence. apply (so_irrefl _ _ (work_less_order _ (co_works _ (cw_cand _ (go_wf _ _ G))))).
  by exists c.
Qed.

(** The tip has the most work of all blocks that are complete and have not
    failed. *)
Definition best_tip (st : CChainState) : Prop :=
  forall p b, index_of st !! p = Some b -> nChainTx b <> 0 -> valid (index_of st) p ->
  exists t, Tip (chainActive st) = Some t /\ work_less (index_of st) t p = false.

Lemma best_reached_tip base n : good base n -> best_reached n ->
  best_tip n.1 /\ good (Tip (chainActive n.1)) n.
Proof.
  intros G Hb. pose proof (cw_cand _ (go_wf _ _ G)) as C. pose proof (work_less_order _ (co_works _ C)) as O.
  assert (forall u, base = Some u -> is_Some (index_of n.1 !! u)) as Hbase.
  { intros u Hu. destruct (bs_linked _ _ (go_based _ _ G) u Hu) as (c & Hc & _). by exists c. }
  assert (forall t, Tip (chainActive n.1) = Some t -> is_Some (index_of n.1 !! t)) as Htip.
  { intros t Ht. destruct (tip_block n.1 t (go_wf _ _ G) Ht) as (c & Hc & _). by exists c. }
  split.
  - intros p b Hp Hn Hv. assert (p ∈ setBlockIndexCandidates n.1 \/ exists u, base = Some u /\ work_less (index_of n.1) p u = true) as Hor.
    { destruct base as [u|]; [destruct (work_less (index_of n.1) p u) eqn:E; [right; by exists u|]|];
        left; apply (bs_complete _ _ (go_based _ _ G) p b); try done. by intros t [= <-]. }
    destruct Hor as [Hin|(u & Hu & Hl)]; [by apply Hb|].
    destruct (best_valid base n u G Hb Hu) as (t & Ht & Htu). exists t. split; [done|].
    apply (not_less_trans _ t u p); [apply C|by apply Htip|by apply Hbase|by exists b|done|].
    apply (so_asym _ _ O p u); [by exists b|by apply Hbase|done].
  - destruct G as [G1 [B1 B2 B3] G3 G4 G5]. split; try done.
    + split.
      * intros p b Hp Hn Hv Ht. apply (B1 p b Hp Hn Hv). intros u Hu.
        destruct (best_valid base n u (Build_good _ _ G1 (Build_based _ _ B1 B2 B3) G3 G4 G5) Hb Hu) as (t & Ht' & Htu).
        apply (not_less_trans _ p t u); [apply C|by exists b|by apply Htip|by apply Hbase|by apply Ht|done].
      * intros u Hu. destruct (tip_block n.1 u G1 Hu) as (c & Hc & Hn & _). by exists c.
      * intros t Ht. exists t. split; [done|]. apply (so_irrefl _ _ O). by apply Htip.
    + intros u Hu. apply G5. left. by destruct Hu.
Qed.

Lemma good_dirty base st st' x : good base (st, x) -> same_but_dirty st st' -> tip_ok st' x -> good base (st', x).
Proof.
  intros [G1 [B1 B2 B3] G3 G4 G5] S T. split; cbn [fst snd] in *; rewrite ?(sd_index _ _ S), ?(sd_chain _ _ S); [..|done|done].
  - by apply (chain_wf_same_but_dirty st).
  - split; rewrite ?(sd_index _ _ S), ?(sd_chain _ _ S); [|done|done].
    intros p b. rewrite (sd_index _ _ S), (sd_cand _ _ S). apply B1.
  - done.
Qed.

Lemma warnings_progress base n st x : good base n -> good base (st, x) -> same_but_warnings n.1 st -> progress base n (st, x).
Proof.
  intros G G' S. assert (index_of st = index_of n.1) as Ei by (unfold index_of; by rewrite (sw_tree _ _ S)).
  split; [|cbn; rewrite Ei; apply evolves_refl|intros p; cbn; by rewrite (sw_cand _ _ S)].
  exists base. split; [done|]. apply le_base_refl; [apply (cw_cand _ (go_wf _ _ G))|exact (bs_linked _ _ (go_based _ _ G))].
Qed.

(** The turns left until [most] is the tip or has failed. *)
Definition turns (H : Z) (n : node) (most : option ptr) (d : Z) : Prop :=
  match most with
  | None => d = H + 1
  | Some p => exists b, index_of n.1 !! p = Some b /\
      (nHeight b + 1 <= d \/ exists t h, Tip (chainActive n.1) = Some t /\ ancestor (index_of n.1) p h t /\ nHeight b - h <= d)
  end.

Lemma turns_nonneg H n most d base : good base n -> 0 <= H + 1 -> turns H n most d -> 0 <= d.
Proof.
  intros G HH. destruct most as [p|]; cbn; [|lia]. intros (b & Hb & Hor). pose proof (co_index _ (cw_cand _ (go_wf _ _ G))) as Hwf.
  destruct Hor as [Hd|(t & h & _ & Ha & Hd)]; [pose proof (wf_height _ Hwf p b Hb)|pose proof (ancestor_range _ Hwf p b h t Hb Ha)]; lia.
Qed.

(** A turn that neither fails nor reaches [most] comes closer to it. *)
Lemma turns_step H n n' most d t h' base : good base n -> evolves (index_of n.1) (index_of n'.1) -> turns H n (Some most) d ->
  Tip (chainActive n'.1) = Some t -> ancestor (index_of n'.1) most h' t ->
  (forall t0 h0, Tip (chainActive n.1) = Some t0 -> ancestor (index_of n.1) most h0 t0 -> h0 < h') ->
  turns H n' (Some most) (d - 1).
Proof.
  intros G Hev (b & Hb & Hor) Ht Ha Hlt. pose proof (ev_status _ _ Hev) as Hst. pose proof (same_but_status_core _ _ Hst) as Hc.
  destruct (same_but_status_lookup _ _ most b Hst Hb) as (b' & Hb' & E).
  destruct (core_eq _ _ (strip_core _ _ E)) as (_ & Eh & _). exists b'. split; [done|]. right. exists t, h'.
  split; [done|]. split; [done|].
  assert (0 <= h') as Hh'.
  { assert (index_wf (index_of n'.1)) as Hwf' by (apply (core_index_wf _ _ Hc), (cw_cand _ (go_wf _ _ G))).
    pose proof (ancestor_range _ Hwf' most b' h' t Hb' Ha). lia. }
  destruct Hor as [Hd|(t0 & h0 & Ht0 & Ha0 & Hd)]; [lia|]. pose proof (Hlt t0 h0 Ht0 Ha0). lia.
Qed.

Definition loop_post (base : option ptr) (n n' : node) (r : bool) : Prop :=
  progress base n n' /\ ((forall st x, ShutdownRequested st x = false) -> best_reached n').

(** One turn of the loop with its target, up to the decision to go on. *)
Lemma turn_spec most blk n base : consistent -> good base n -> target_ok n most ->
  blk_ok (index_of n.1) most blk ->
  returns ('(n, r) ← ActivateBestChainStep env most blk n;
           match r with
           | Err e => Ok (n, Err e)
           | Ok f => '(st, _) ← or_abort (IsInitialBlockDownload env n.1); Ok ((st, n.2), Ok f)
           end)
    (fun n' r => progress base n n' /\
      if (r : bool) then one_failed n n'
      else target_ok n' most /\ exists t h', Tip (chainActive n'.1) = Some t /\ ancestor (index_of n'.1) most h' t /\
        (t = most \/ forall t0 h0, Tip (chainActive n.1) = Some t0 -> ancestor (index_of n.1) most h0 t0 -> h0 < h')).
Proof using CL.
  intros Hcf G Ta Hblk. pose proof (ActivateBestChainStep_spec most blk n base Hcf G (ta_step _ _ Ta) (ta_in _ _ Ta) Hblk) as Hs.
  destruct (ActivateBestChainStep env most blk n) as [[n1 [f|e]]|[]]; cbn [returns] in Hs; cbn [mbind result_bind]; try done.
  destruct Hs as [Hpg Hcase]. pose proof Hpg as [(base1 & G1 & Hle) Hev Hshr].
  destruct (IsInitialBlockDownload_total env n1.1 (go_wf _ _ G1)) as (st & v & -> & S). cbn.
  rewrite (surjective_pairing n1) in G1. pose proof (good_warnings base1 n1.1 st n1.2 G1 S) as G2.
  rewrite <- surjective_pairing in G1.
  assert (index_of st = index_of n1.1) as Ei by (unfold index_of; by rewrite (sw_tree _ _ S)).
  split; [by apply (progress_trans base base1 n n1), warnings_progress|]. destruct f.
  - destruct Hcase as (Ht & p & Hp). split; [cbn; by rewrite (sw_chain _ _ S)|]. exists p. cbn. by rewrite Ei.
  - destruct Hcase as (Hsg & t & h' & Ht). cbn. rewrite Ei, (sw_chain _ _ S). split; [|by exists t, h'].
    destruct (target_progress base most n n1 Ta Hpg Hsg) as [T1 T2 T3]. split; cbn; rewrite ?Ei, ?(sw_cand _ _ S); done.
Qed.

(** One turn, with what follows it. *)
Definition turn (fuel : nat) (most : ptr) (pblock : option B) (n : node) : result crash (node * tx_result bool) :=
  if decide (Tip (chainActive n.1) = Some most) then Ok (n, Ok false)
  else
    b ← or_abort (block_at n.1 most);
    let pblock' := match pblock with
                   | Some blk => if decide (block_hash blk = phashBlock b) then pblock else None
                   | None => None
                   end in
    '(n, r) ← ActivateBestChainStep env most pblock' n;
    match r with
    | Err e => Ok (n, Err e)
    | Ok fInvalidFound =>
        let pindexMostWork := if (fInvalidFound : bool) then None else Some most in
        '(st, _) ← or_abort (IsInitialBlockDownload env n.1);
        let n := (st, n.2) in
        if ShutdownRequested n.1 n.2 then Ok (n, Ok true)
        else if decide (Tip (chainActive n.1) = pindexMostWork) then Ok (n, Ok true)
        else match fuel with O => Err out_of_fuel | S fuel => activate_loop env fuel pindexMostWork pblock n end
    end.

Lemma activate_loop_eq fuel most pblock n :
  activate_loop env fuel most pblock n =
  match most with
  | Some p => turn fuel p pblock (n.1, n.2)
  | None => '(st, r) ← or_abort (FindMostWorkChain n.1);
            match r with None => Ok ((st, n.2), Ok false) | Some p => turn fuel p pblock (st, n.2) end
  end.
Proof. destruct fuel, most as [p|]; [done|by cbn; destruct (FindMostWorkChain n.1) as [[st [p|]]|]|done|
  by cbn; destruct (FindMostWorkChain n.1) as [[st [p|]]|]]. Qed.

Definition loop_ends (blk : option B) (fuel : nat) : Prop :=
  forall H s most n base d, good base n -> (forall p b, index_of n.1 !! p = Some b -> nHeight b <= H) -> 0 <= H + 1 ->
  (size (unfailed (index_of n.1)) <= s)%nat -> turns H n most d -> (forall p, most = Some p -> target_ok n p) ->
  Z.of_nat s * (H + 2) + d <= Z.of_nat fuel -> returns (activate_loop env fuel most blk n) (loop_post base n).

Lemma turn_ends fuel H s most blk n base d : consistent -> (forall f, (f < fuel)%nat -> loop_ends blk f) -> good base n ->
  (forall p b, index_of n.1 !! p = Some b -> nHeight b <= H) -> 0 <= H + 1 ->
  (size (unfailed (index_of n.1)) <= s)%nat -> turns H n (Some most) d -> target_ok n most ->
  Z.of_nat s * (H + 2) + d <= Z.of_nat fuel -> returns (turn fuel most blk n) (loop_post base n).
Proof using CL.
  intros Hcf IH G Hh HH Hs Hd Ta Hf. unfold turn. destruct (decide (Tip (chainActive n.1) = Some most)) as [Et|Hne].
  { cbn. split; [by apply progress_refl|]. intros _ p Hp. exists most. split; [done|by apply Ta]. }
  destruct (ta_step _ _ Ta) as [_ (bm & Hbm & _) _]. unfold block_at. rewrite Hbm. cbn [or_abort mbind result_bind].
  set (blk' := match blk with None => None | _ => _ end).
  pose proof (turn_spec most blk' n base Hcf G Ta) as Ht.
  specialize (Ht ltac:(intros k b Hk Hb; replace b with bm by congruence; unfold blk' in Hk;
    destruct blk as [k'|]; [case_decide; congruence|done])).
  destruct (ActivateBestChainStep env most blk' n) as [[n1 [f|e]]|[]]; cbn [mbind result_bind] in Ht |- *; try done.
  destruct (IsInitialBlockDownload env n1.1) as [[st v]|]; cbn [or_abort mbind result_bind returns] in Ht |- *; [|done].
  destruct Ht as [Hpg Hcase]. set (n2 := (st, n1.2)) in *.
  destruct (ShutdownRequested (n2.1) (n2.2)) eqn:Esd; [cbn; split; [done|]; intros Hno; by rewrite Hno in Esd|].
  pose proof Hpg as [(base2 & G2 & Hle) Hev Hshr]. pose proof (ev_status _ _ Hev) as Hst.
  assert (forall p b, index_of n2.1 !! p = Some b -> nHeight b <= H) as Hh2.
  { intros p b Hb. destruct (same_but_status_lookup _ _ p b (same_but_status_sym _ _ Hst) Hb) as (c & Hc & E).
    destruct (core_eq _ _ (strip_core _ _ E)) as (_ & Eh & _). rewrite <- Eh in *. by apply (Hh p c) in Hc. }
  pose proof (evolves_unfailed _ _ Hev) as Hsub.
  assert (forall (mo : option ptr) s' d', (s' <= s)%nat -> (size (unfailed (index_of n2.1)) <= s')%nat -> turns H n2 mo d' ->
    (forall p, mo = Some p -> target_ok n2 p) -> Tip (chainActive n2.1) <> mo ->
    Z.of_nat s' * (H + 2) + d' < Z.of_nat s * (H + 2) + d ->
    returns (if decide (Tip (chainActive n2.1) = mo) then Ok (n2, Ok true)
             else match fuel with O => Err out_of_fuel | S fuel => activate_loop env fuel mo blk n2 end) (loop_post base n)) as Hgo.
  { intros mo s' d' Hle' Hs' Hd' Hta' Hne' Hlt. rewrite decide_False by done.
    pose proof (turns_nonneg H n2 mo d' base2 G2 HH Hd'). destruct fuel as [|fuel]; [nia|].
    pose proof (IH fuel ltac:(lia) H s' mo n2 base2 d' G2 Hh2 HH Hs' Hd' Hta' ltac:(lia)) as Hr.
    destruct (activate_loop env fuel mo blk n2) as [[n3 [r|e]]|[]]; try done.
    destruct Hr as [Hpg3 Hb3]. split; [|done]. by apply (progress_trans base base2 n n2 n3). }
  destruct f.
  - destruct Hcase as (Htn & p & Hp1 & Hp2).
    assert (size (unfailed (index_of n2.1)) < size (unfailed (index_of n.1)))%nat as Hlt by (apply subset_size; set_solver).
    apply (Hgo None (pred s) (H + 1)); [lia|lia|done|done|done|].
    pose proof (turns_nonneg H n (Some most) d base G HH Hd). replace (Z.of_nat s) with (Z.of_nat (pred s) + 1) by lia. lia.
  - destruct Hcase as (Ta2 & t & h' & Ht2 & Ha & Hor).
    destruct (decide (t = most)) as [->|Htm].
    { rewrite decide_True by done. cbn. split; [done|]. intros _ p Hp. exists most. split; [done|by apply Ta2]. }
    apply (Hgo (Some most) s (d - 1)); [done|apply subseteq_size in Hsub; lia| |by intros p [= <-]|congruence|lia].
    destruct Hor as [->|Hlt]; [done|]. by apply (turns_step H n n2 most d t h' base).
Qed.

(** The loop ends: a turn without failure comes closer to its target, and each
    failure is for good. *)
Lemma activate_loop_spec fuel blk : consistent -> loop_ends blk fuel.
Proof using CL.
  intros Hcf. induction fuel as [fuel IH] using lt_wf_ind. intros H s most n base d G Hh HH Hs Hd Hta Hf.
  rewrite activate_loop_eq. destruct most as [p|].
  - rewrite <- surjective_pairing. apply (turn_ends fuel H s p blk n base d); auto.
  - destruct (select_spec base n G) as (st & r & -> & G2 & Hev & Ech & Hshr & Hta2 & Hnone). cbn [or_abort mbind result_bind].
    assert (progress base n (st, n.2)) as Hpg.
    { split; [|done|done]. exists base. split; [done|].
      apply le_base_refl; [apply (cw_cand _ (go_wf _ _ G))|exact (bs_linked _ _ (go_based _ _ G))]. }
    destruct r as [p|].
    2: { cbn. split; [done|]. intros _ q Hq. cbn in Hq. rewrite Hnone in Hq by done. by apply elem_of_nil in Hq. }
    pose proof (ev_status _ _ Hev) as Hst. pose proof (evolves_unfailed _ _ Hev) as Hsub. apply subseteq_size in Hsub.
    specialize (Hta2 p eq_refl). destruct (ta_step _ _ Hta2) as [_ (bp & Hbp & _) _]. cbn in Hbp.
    assert (forall q b, index_of st !! q = Some b -> nHeight b <= H) as Hh2.
    { intros q b Hb. destruct (same_but_status_lookup _ _ q b (same_but_status_sym _ _ Hst) Hb) as (c & Hc & E).
      destruct (core_eq _ _ (strip_core _ _ E)) as (_ & Eh & _). rewrite <- Eh in *. by apply (Hh q c) in Hc. }
    pose proof (turn_ends fuel H s p blk (st, n.2) base (H + 1) Hcf IH G2 Hh2 HH) as Ht. cbn [fst snd] in Ht.
    specialize (Ht ltac:(lia) ltac:(exists bp; split; [done|]; left; pose proof (Hh2 p bp Hbp); lia) Hta2 ltac:(cbn in Hd; lia)).
    destruct (turn fuel p blk (st, n.2)) as [[n3 [r|e]]|[]]; try done.
    destruct Ht as [Hpg3 Hb3]. split; [|done]. apply (progress_trans base base n (st, n.2) n3); try done.
    apply le_base_refl; [apply (cw_cand _ (go_wf _ _ G))|exact (bs_linked _ _ (go_based _ _ G))].
Qed.

Lemma ActivateBestChain_spec H fuel blk n : consistent -> good (Tip (chainActive n.1)) n ->
  (forall p b, index_of n.1 !! p = Some b -> nHeight b <= H) -> 0 <= H + 1 ->
  Z.of_nat (S (size (unfailed (index_of n.1)))) * (H + 2) <= Z.of_nat fuel ->
  returns (ActivateBestChain env fuel blk n) (fun n' _ => evolves (index_of n.1) (index_of n'.1) /\ chain_wf n'.1 /\
    ((forall st x, ShutdownRequested st x = false) ->
      good (Tip (chainActive n'.1)) n' /\ best_tip n'.1 /\
      forall t, Tip (chainActive n.1) = Some t -> exists t', Tip (chainActive n'.1) = Some t' /\ work_less (index_of n'.1) t' t = false)).
Proof using CL.
  intros Hcf G Hh HH Hf. unfold ActivateBestChain.
  pose proof (activate_loop_spec fuel blk Hcf H (size (unfailed (index_of n.1))) None n _ (H + 1) G Hh HH) as Hl.
  specialize (Hl ltac:(lia) eq_refl ltac:(done) ltac:(lia)).
  destruct (activate_loop env fuel None blk n) as [[n1 [r|e]]|[]]; cbn [mbind result_bind returns] in Hl |- *; try done.
  destruct Hl as [[(base & G1 & Hle) Hev _] Hb].
  assert (forall n2, good base n2 -> index_of n2.1 = index_of n1.1 -> chainActive n2.1 = chainActive n1.1 ->
    setBlockIndexCandidates n2.1 = setBlockIndexCandidates n1.1 ->
    evolves (index_of n.1) (index_of n2.1) /\ chain_wf n2.1 /\ ((forall st x, ShutdownRequested st x = false) ->
      good (Tip (chainActive n2.1)) n2 /\ best_tip n2.1 /\
      forall t, Tip (chainActive n.1) = Some t -> exists t', Tip (chainActive n2.1) = Some t' /\ work_less (index_of n2.1) t' t = false)) as Hend.
  { intros n2 G2 Ei Ech Ecand. rewrite Ei. split; [done|]. split; [apply G2|]. intros Hno. specialize (Hb Hno).
    assert (best_reached n2) as Hb2 by (unfold best_reached; by rewrite Ei, Ech, Ecand).
    destruct (best_reached_tip base n2 G2 Hb2) as [Hbt Gt]. split; [done|]. split; [done|]. intros t Ht.
    destruct (Hle t Ht) as (u & Hu & Hut). destruct (best_valid base n2 u G2 Hb2 Hu) as (t' & Ht' & Htu).
    exists t'. split; [done|]. rewrite Ei in *. pose proof (cw_cand _ (go_wf _ _ G1)) as C.
    destruct (tip_block n.1 t (go_wf _ _ G) Ht) as (c & Hc & _).
    apply (not_less_trans _ t' u t); [apply C| | |by apply (evolves_some (index_of n.1)); [|exists c]|done|].
    + destruct (tip_block n2.1 t' (go_wf _ _ G2) Ht') as (c' & Hc' & _). rewrite Ei in Hc'. by exists c'.
    + destruct (bs_linked _ _ (go_based _ _ G1) u Hu) as (c' & Hc' & _). by exists c'.
    + by rewrite (status_work_less _ _ _ _ (ev_status _ _ Hev)). }
  destruct r; [|by apply Hend].
  pose proof (FlushStateToDisk_law FLUSH_STATE_PERIODIC n1.1 n1.2 (go_tip _ _ G1)) as Hfl.
  rewrite <- surjective_pairing in Hfl.
  destruct (FlushStateToDisk FLUSH_STATE_PERIODIC n1) as [[[st x] [u|e]]|[]]; cbn [returns]; try done.
  - destruct Hfl as [S T]. apply Hend; [|apply S|apply S|apply S]. destruct G1 as [W B1 T1 I1 S1].
    apply (good_dirty base n1.1 st x); [|done|done]. split; try done.
    apply (tip_ok_stable st); [done|symmetry; apply S|]. by rewrite (sd_index _ _ S).
  - by apply (chain_wf_same_but_dirty n1.1), Hfl; apply G1.
Qed.
End loops.
End activation_facts.

(** ** An example: a node that knows which blocks are bad *)

Module activation_example.
Import chain_facts chainstate_facts activation_facts.
Export chainstate_example.

Section ideal.
Context (bad : ptr -> bool).

Definition ideal_connect (env : environment) (p : ptr) (blk : option unit) (n : CChainState * unit)
    : result crash ((CChainState * unit) * tx_result unit) :=
  if bad p then
    st ← or_abort (InvalidBlockFound env p false n.1);
    Ok ((st, n.2), Err (invalid 100 "bad"))
  else
    c ← or_abort (SetTip (index_of n.1) (chainActive n.1) (Some p));
    Ok ((set_chain c n.1, n.2), Ok ()).

Definition ideal_disconnect (env : environment) (n : CChainState * unit) : result crash ((CChainState * unit) * tx_result unit) :=
  t ← or_abort (Tip (chainActive n.1));
  b ← or_abort (block_at n.1 t);
  c ← or_abort (SetTip (index_of n.1) (chainActive n.1) (pprev b));
  Ok ((set_chain c n.1, n.2), Ok ()).

#[export] Instance ideal : ChainTip unit unit := {|
  block_hash := fun _ => uint256_null;
  ConnectTip := ideal_connect;
  DisconnectTip := ideal_disconnect;
  UpdateMempoolForReorg := fun _ _ x => x;
  FlushStateToDisk := fun _ n => Ok (n, Ok ());
  ShutdownRequested := fun _ _ => false;
|}.

Lemma set_chain_changed st c tip : SetTip (index_of st) (chainActive st) tip = Some c -> tip_changed st (set_chain c st) tip.
Proof.
  intros E. split; try done; [apply evolves_refl|]. intros q b b' Hb Hb'.
  change (index_of (set_chain c st)) with (index_of st) in Hb'. congruence.
Qed.

#[export] Instance ideal_laws env : ChainTipLaws ideal env.
Proof.
  refine {| tip_ok := fun _ _ => True |}; try done.
  - intros st x p b blk _ _ _ _ _ _ _. cbn. unfold ideal_connect. cbn [fst snd]. destruct (bad p).
    + destruct (InvalidBlockFound env p false st) as [st'|] eqn:E; [|done]. done.
    + destruct (SetTip _ _ _) as [c|] eqn:E; [|done]. cbn. split; [by apply set_chain_changed|done].
  - intros st x t b _ _ Ht Hb. cbn. unfold ideal_disconnect, block_at. cbn [fst snd]. rewrite Ht. cbn [or_abort mbind result_bind].
    rewrite Hb. cbn [or_abort mbind result_bind]. destruct (SetTip _ _ _) as [c|] eqn:E; [|done].
    cbn. split; [by apply set_chain_changed|done].
Defined.

(** The same, but a bad block is found damaged, as [CheckBlock] in
    [ConnectBlock] finds one whose data does not have the Merkle root. *)
Definition damaged_connect (env : environment) (p : ptr) (blk : option unit) (n : CChainState * unit)
    : result crash ((CChainState * unit) * tx_result unit) :=
  if bad p then
    st ← or_abort (InvalidBlockFound env p true n.1);
    Ok ((st, n.2), Err (corrupt "bad-txnmrklroot"))
  else ideal_connect env p blk n.

Definition damaged : ChainTip unit unit := {|
  block_hash := fun _ => uint256_null;
  ConnectTip := damaged_connect;
  DisconnectTip := ideal_disconnect;
  UpdateMempoolForReorg := fun _ _ x => x;
  FlushStateToDisk := fun _ n => Ok (n, Ok ());
  ShutdownRequested := fun _ _ => false;
|}.

Definition damaged_laws env : ChainTipLaws damaged env.
Proof.
  refine {| tip_ok := fun _ _ => True |}; try done.
  - intros st x p b blk H1 H2 H3 H4 H5 H6 H7. pose proof (ConnectTip_law (ChainTipLaws := ideal_laws env) st x p b blk H1 I H3 H4 H5 H6 H7) as H.
    cbn in *. unfold damaged_connect. destruct (bad p); [|done]. cbn [fst snd].
    by destruct (InvalidBlockFound env p true st) as [st'|] eqn:E.
  - intros st x t b H1 _ H3 H4. exact (DisconnectTip_law (ChainTipLaws := ideal_laws env) st x t b H1 I H3 H4).
Defined.
End ideal.

Definition lookup_index (m : index_map) (q : ptr) : option CBlockIndex := m !! q.

(** The tip of the best branch is bad. *)
Definition bad4 (p : ptr) : bool := bool_decide (p = 4%positive).

Definition work_check (m : index_map) (b : CBlockIndex) : bool :=
  match pprev b with
  | None => true
  | Some q => match m !! q with Some c => val (nChainWork c) <? val (nChainWork b) | None => true end
  end.

Lemma work_increases_of m : every (work_check m) m = true -> work_increases m.
Proof.
  intros H p b q c Hb Hq Hc. pose proof (every_spec _ m p b H Hb) as E. unfold work_check in E. rewrite Hq, Hc in E. by apply Z.ltb_lt.
Qed.

Lemma start_good : good (CT := ideal bad4) env (fun p => bad4 p = false) (Tip (chainActive received4)) (received4, ()).
Proof.
  assert (Tip (chainActive received4) = None) as E by (vm_compute; reflexivity). rewrite E.
  split; cbn [fst snd]; [apply received_wf|apply received_wf|exact I|apply work_increases_of; vm_compute; reflexivity|].
  rewrite E. intros u [Hu|Hu]; discriminate Hu.
Qed.

(** One turn of the loop that is not the last: the target of the next turn and
    its node. *)
Definition one_turn {X B} (CT : ChainTip X B) (most : option ptr) (n : CChainState * X)
    : result crash (option (option ptr * (CChainState * X))) :=
  '(st, most) ← (match most with None => or_abort (FindMostWorkChain n.1) | Some p => Ok (n.1, Some p) end);
  match most with
  | None => Ok None
  | Some p =>
      if decide (Tip (chainActive st) = Some p) then Ok None
      else
        _ ← or_abort (block_at st p);
        '(n, r) ← ActivateBestChainStep env p None (st, n.2);
        match r with
        | Err _ => Ok None
        | Ok f =>
            '(st, _) ← or_abort (IsInitialBlockDownload env n.1);
            let most := if (f : bool) then None else Some p in
            if ShutdownRequested st n.2 || bool_decide (Tip (chainActive st) = most) then Ok None else Ok (Some (most, (st, n.2)))
        end
  end.

Lemma one_turn_loop {X B} (CT : ChainTip X B) fuel most n most' n' : one_turn CT most n = Ok (Some (most', n')) ->
  activate_loop env (S fuel) most None n = activate_loop env fuel most' None n'.
Proof.
  unfold one_turn. cbn [activate_loop].
  destruct (match most with None => _ | Some p => _ end) as [[st [p|]]|]; cbn [mbind result_bind]; [|done|done].
  cbn [fst snd]. destruct (decide (Tip (chainActive st) = Some p)); [done|].
  destruct (block_at st p); cbn [or_abort mbind result_bind]; [|done].
  destruct (ActivateBestChainStep env p None (st, n.2)) as [[n1 [f|e]]|]; cbn [mbind result_bind]; [|done|done].
  destruct (IsInitialBlockDownload env n1.1) as [[st2 v]|]; cbn [or_abort mbind result_bind]; [|done]. cbn [fst snd].
  destruct (ShutdownRequested st2 n1.2); cbn [orb]; [done|].
  destruct f; (destruct (decide _) as [E|E]; [by rewrite bool_decide_true by done|]); rewrite bool_decide_false by done;
    by intros [= <- <-].
Qed.

Definition next (most : option ptr) (n : CChainState * unit) : option ptr * (CChainState * unit) :=
  match one_turn (damaged bad4) most n with Ok (Some r) => r | _ => (most, n) end.

(** The first two blocks are connected; the damaged one is refused, and stays
    the candidate with the most work. *)
Definition stuck : CChainState * unit := (next (Some 4%positive) (next None (received4, ())).2).2.

Lemma damaged_turns :
  one_turn (damaged bad4) None (received4, ()) = Ok (Some (Some 4%positive, (next None (received4, ())).2)) /\
  one_turn (damaged bad4) (Some 4%positive) (next None (received4, ())).2 = Ok (Some (Some 4%positive, stuck)) /\
  one_turn (damaged bad4) (Some 4%positive) stuck = Ok (Some (None, stuck)) /\
  one_turn (damaged bad4) None stuck = Ok (Some (None, stuck)).
Proof. split_and!; vm_compute; reflexivity. Qed.

Lemma stuck_loops fuel : activate_loop (CT := damaged bad4) env fuel None None stuck = Err out_of_fuel.
Proof.
  induction fuel as [|fuel IH]; [vm_compute; reflexivity|].
  by rewrite (one_turn_loop _ _ _ _ _ _ (proj2 (proj2 (proj2 damaged_turns)))).
Qed.

Lemma damaged_block_loops fuel : ActivateBestChain (CT := damaged bad4) env fuel None (received4, ()) = Err out_of_fuel.
Proof.
  destruct damaged_turns as (H1 & H2 & H3 & _). unfold ActivateBestChain.
  assert (activate_loop (CT := damaged bad4) env fuel None None (received4, ()) = Err out_of_fuel) as ->; [|done].
  do 3 (destruct fuel as [|fuel]; [vm_compute; reflexivity|]).
  rewrite (one_turn_loop _ _ _ _ _ _ H1), (one_turn_loop _ _ _ _ _ _ H2), (one_turn_loop _ _ _ _ _ _ H3). apply stuck_loops.
Qed.
End activation_example.

(** ** Properties *)

(** C9: [ActivateBestChain] ends, whatever blocks the rules refuse on the way, and
    if no shutdown is asked for the tip it ends with has the most work of all
    blocks of the index whose data is there, with that of all ancestors, and
    that have not been found invalid; it is at least as good as the tip of
    before.  This holds from a well-formed state with complete candidates, which
    it leaves again, for any implementation of [ConnectTip], [DisconnectTip] and
    [FlushStateToDisk] with the laws [ChainTipLaws] that is [consistent]: whether
    a block is accepted does not depend on the attempt, and no refusal says that
    the block may only be corrupted ([CorruptionPossible]).  A turn of the loop
    per height and per block that can fail is enough fuel.  An error of the
    system or a failed assertion can end it early, and a shutdown that was asked
    for.  A block that is refused as possibly corrupted is not marked, so that it
    is chosen again: then no fuel is enough ([damaged_block_loops]). *)
Theorem ActivateBestChain_correct {X B : Type} `{CT : ChainTip X B} (env : environment) `{CL : !activation_facts.ChainTipLaws CT env}
    (ok : ptr -> Prop) (H : Z) (fuel : nat) (pblock : option B) (st : CChainState) (x : X) :
  activation_facts.consistent env ok ->
  activation_facts.good env ok (Tip (chainActive st)) (st, x) ->
  (forall p b, index_of st !! p = Some b -> nHeight b <= H) -> 0 <= H + 1 ->
  Z.of_nat (S (size (chainstate_facts.unfailed (index_of st)))) * (H + 2) <= Z.of_nat fuel ->
  match ActivateBestChain env fuel pblock (st, x) with
  | Err e => e = aborted
  | Ok ((st', x'), Err _) => chainstate_facts.chain_wf st'
  | Ok ((st', x'), Ok _) =>
      chainstate_facts.chain_wf st' /\ chainstate_facts.evolves (index_of st) (index_of st') /\
      ((forall st x, ShutdownRequested st x = false) ->
        activation_facts.good env ok (Tip (chainActive st')) (st', x') /\
        (forall p b, index_of st' !! p = Some b -> nChainTx b <> 0 -> chainstate_facts.valid (index_of st') p ->
           exists t, Tip (chainActive st') = Some t /\ work_less (index_of st') t p = false) /\
        (forall t, Tip (chainActive st) = Some t ->
           exists t', Tip (chainActive st') = Some t' /\ work_less (index_of st') t' t = false))
  end.
Proof.
  intros Hc G Hh HH Hf. pose proof (activation_facts.ActivateBestChain_spec env ok H fuel pblock (st, x) Hc G Hh HH Hf) as Hr.
  destruct (ActivateBestChain env fuel pblock (st, x)) as [[[st' x'] [u|e]]|[]]; cbn in Hr; [|done|done|done].
  destruct Hr as (H1 & H2 & H3). auto.
Qed.

Lemma ActivateBestChain_correct_witness :
  exists st', ActivateBestChain (CT := activation_example.ideal activation_example.bad4) chainstate_example.env 20 None
    (chainstate_example.received4, ()) = Ok ((st', ()), Ok ()) /\
  Tip (chainActive st') = Some 2%positive /\
  forall p b, index_of st' !! p = Some b -> nChainTx b <> 0 -> chainstate_facts.valid (index_of st') p ->
    work_less (index_of st') 2 p = false.
Proof.
  pose proof (ActivateBestChain_correct (CT := activation_example.ideal activation_example.bad4)
    (CL := activation_example.ideal_laws activation_example.bad4 chainstate_example.env) chainstate_example.env
    (fun p => activation_example.bad4 p = false) 2 20 None chainstate_example.received4 ()) as Hr.
  assert (exists st', ActivateBestChain (CT := activation_example.ideal activation_example.bad4) chainstate_example.env 20 None
    (chainstate_example.received4, ()) = Ok ((st', ()), Ok ()) /\ Tip (chainActive st') = Some 2%positive) as (st' & E & Et)
    by (eexists; split; vm_compute; reflexivity).
  exists st'. split; [exact E|]. split; [exact Et|]. rewrite E in Hr.
  destruct Hr as (_ & _ & Hr).
  - intros p b blk n n' r _ _ _ _ E'. cbn in E'. unfold activation_example.ideal_connect in E'.
    destruct (activation_example.bad4 p) eqn:Eb.
    + destruct (InvalidBlockFound _ p false n.1); [|discriminate E']. cbn in E'. injection E' as <- <-. intros _.
      split; [intros E2; discriminate E2|reflexivity].
    + destruct (SetTip _ _ _); [|discriminate E']. cbn in E'. injection E' as <- <-. reflexivity.
  - exact activation_example.start_good.
  - intros p b Hb. apply (chainstate_example.every_spec (fun b => nHeight b <=? 2)) in Hb; [|vm_compute; reflexivity].
    apply Z.leb_le, Hb.
  - lia.
  - vm_compute. discriminate.
  - destruct (Hr (fun _ _ => eq_refl)) as (_ & Hb & _). intros p b Hp Hn Hv. destruct (Hb p b Hp Hn Hv) as (t & Ht & Hl).
    rewrite Et in Ht. injection Ht as <-. exact Hl.
Defined.
