(* ===== verification/Undo.v ===== *)
(** * Applying a transaction to the coins and undoing it ([validation.cpp],
    [undo.h], [coins.cpp])

    [UpdateCoins] spends the inputs of a transaction, keeps what it spent,
    and adds the outputs; [DisconnectBlock] takes the outputs of a block back
    and restores its inputs from the undo data. *)

From S2P Require Import Prelude Uint256 Hash Chain Script Interpreter Serialize Transaction SigHash Coins TxVerify Block.

(** [undo.h]: [CTxUndo] holds a coin for every input, [CBlockUndo] a
    [CTxUndo] for every transaction but the coinbase. *)
Record CTxUndo := { vprevout : list Coin }.
Record CBlockUndo := { vtxundo : list CTxUndo }.

Inductive DisconnectResult := DISCONNECT_OK | DISCONNECT_UNCLEAN | DISCONNECT_FAILED.

#[export] Instance DisconnectResult_eq_dec : EqDecision DisconnectResult.
Proof. solve_decision. Defined.

Definition MIN_TRANSACTION_OUTPUT_WEIGHT : Z :=
  WITNESS_SCALE_FACTOR * Z.of_nat (length (Serialize txout_codec CTxOut_null)).
Definition MAX_OUTPUTS_PER_BLOCK : Z := MAX_BLOCK_WEIGHT / MIN_TRANSACTION_OUTPUT_WEIGHT.

(** The exceptions and assertions of the cache as failures of the caller. *)
Definition of_coins {A} (r : result coins_error A) : tx_result A :=
  match r with Ok a => Ok a | Err e => Err (coins_failure e) end.

Section undo.
Context {V : Type} `{CV : CCoinsView V} `{P : CoinsPlatform}.

(** ** Applying *)

(** The loop over the inputs: the coins that [SpendCoin] moved out. *)
Fixpoint spend_inputs (inputs : CCoinsViewCache V) (vin : list CTxIn) : tx_result (CCoinsViewCache V * list Coin) :=
  match vin with
  | [] => Ok (inputs, [])
  | txin :: vin =>
      match SpendCoin inputs (prevout txin) with
      | (_, None) => Err tx_assertion
      | (inputs, Some coin) =>
          '(inputs, vprevout) ← spend_inputs inputs vin;
          Ok (inputs, coin :: vprevout)
      end
  end.

Definition UpdateCoins (tx : CTransaction) (inputs : CCoinsViewCache V) (nHeight : Z)
    : tx_result (CCoinsViewCache V * CTxUndo) :=
  '(inputs, vprevout) ← (if negb (IsCoinBase tx) then spend_inputs inputs (vin tx) else Ok (inputs, []));
  inputs ← of_coins (AddCoins inputs tx nHeight false);
  Ok (inputs, {| vprevout := vprevout |}).

(** ** Undoing *)

(** [AccessByTxid]: the first unspent output of a transaction. *)
Fixpoint AccessByTxid_loop (fuel : nat) (view : CCoinsViewCache V) (txid : uint256) (n : Z)
    : CCoinsViewCache V * Coin :=
  match fuel with
  | O => (view, Coin_empty)
  | S fuel =>
      let '(view, alternate) := AccessCoin view {| op_hash := txid; op_n := n |} in
      if negb (Coin_IsSpent alternate) then (view, alternate) else AccessByTxid_loop fuel view txid (n + 1)
  end.
Definition AccessByTxid (view : CCoinsViewCache V) (txid : uint256) : CCoinsViewCache V * Coin :=
  AccessByTxid_loop (Z.to_nat MAX_OUTPUTS_PER_BLOCK) view txid 0.

Definition ApplyTxInUndo (undo : Coin) (view : CCoinsViewCache V) (out : COutPoint)
    : tx_result (CCoinsViewCache V * DisconnectResult) :=
  let '(view, have) := HaveCoin view out in
  let fClean := negb have in
  let '(view, undo) :=
    if coin_nHeight undo =? 0 then
      let '(view, alternate) := AccessByTxid view (op_hash out) in
      if negb (Coin_IsSpent alternate)
      then (view, Some {| coin_out := coin_out undo; fCoinBase := fCoinBase alternate;
                          coin_nHeight := coin_nHeight alternate |})
      else (view, None)
    else (view, Some undo) in
  match undo with
  | None => Ok (view, DISCONNECT_FAILED)
  | Some undo =>
      view ← of_coins (AddCoin view out undo (negb fClean));
      Ok (view, if fClean then DISCONNECT_OK else DISCONNECT_UNCLEAN)
  end.

(** The loop over the outputs, from index [o]. *)
Fixpoint take_outputs (view : CCoinsViewCache V) (hash : uint256) (vout : list CTxOut) (o : Z)
    (nHeight : Z) (is_coinbase fClean : bool) : CCoinsViewCache V * bool :=
  match vout with
  | [] => (view, fClean)
  | txout :: vout =>
      if negb (CScript.IsUnspendable (scriptPubKey txout)) then
        let '(view, coin) := SpendCoin view {| op_hash := hash; op_n := u32 o |} in
        let matches := match coin with
                       | None => false
                       | Some coin => bool_decide (txout = coin_out coin) && (nHeight =? coin_nHeight coin)
                                      && Bool.eqb is_coinbase (fCoinBase coin)
                       end in
        take_outputs view hash vout (o + 1) nHeight is_coinbase (if matches then fClean else false)
      else take_outputs view hash vout (o + 1) nHeight is_coinbase fClean
  end.

(** The loop over the inputs, last one first. *)
Fixpoint restore_inputs (view : CCoinsViewCache V) (l : list (CTxIn * Coin)) (fClean : bool)
    : tx_result (CCoinsViewCache V * DisconnectResult) :=
  match l with
  | [] => Ok (view, if fClean then DISCONNECT_OK else DISCONNECT_UNCLEAN)
  | (txin, undo) :: l =>
      '(view, res) ← ApplyTxInUndo undo view (prevout txin);
      if decide (res = DISCONNECT_FAILED) then Ok (view, DISCONNECT_FAILED)
      else restore_inputs view l (fClean && bool_decide (res <> DISCONNECT_UNCLEAN))
  end.

(** The loop over the transactions, last one first, with the undo data of all
    but the coinbase. *)
Fixpoint disconnect_txs (view : CCoinsViewCache V) (l : list (CTransaction * option CTxUndo)) (nHeight : Z)
    (fClean : bool) : tx_result (CCoinsViewCache V * DisconnectResult) :=
  match l with
  | [] => Ok (view, if fClean then DISCONNECT_OK else DISCONNECT_UNCLEAN)
  | (tx, txundo) :: l =>
      let '(view, fClean) := take_outputs view (GetHash tx) (vout tx) 0 nHeight (IsCoinBase tx) fClean in
      match txundo with
      | None => disconnect_txs view l nHeight fClean
      | Some txundo =>
          if negb (length (vprevout txundo) =? length (vin tx))%nat then Ok (view, DISCONNECT_FAILED)
          else
            '(view, res) ← restore_inputs view (reverse (zip (vin tx) (vprevout txundo))) fClean;
            match res with
            | DISCONNECT_FAILED => Ok (view, DISCONNECT_FAILED)
            | DISCONNECT_OK => disconnect_txs view l nHeight true
            | DISCONNECT_UNCLEAN => disconnect_txs view l nHeight false
            end
      end
  end.

(** [blockUndo] is what [UndoReadFromDisk] read; [None] also stands for the
    pointer of an index that is not there. *)
Definition DisconnectBlock (m : index_map) (block : CBlock) (blockUndo : option CBlockUndo) (pindex : CBlockIndex)
    (view : CCoinsViewCache V) : option (tx_result (CCoinsViewCache V * DisconnectResult)) :=
  match blockUndo with
  | None => Some (Ok (view, DISCONNECT_FAILED))
  | Some blockUndo =>
      if negb (length (vtxundo blockUndo) + 1 =? length (vtx block))%nat then Some (Ok (view, DISCONNECT_FAILED))
      else
        prevHash ← match pprev pindex with None => Some uint256_null | Some q => phashBlock <$> m !! q end;
        Some (
          '(view, res) ← disconnect_txs view (reverse (zip (vtx block) (None :: (Some <$> vtxundo blockUndo))))
                           (nHeight pindex) true;
          match res with
          | DISCONNECT_FAILED => Ok (view, DISCONNECT_FAILED)
          | _ => Ok (SetBestBlock view prevHash, res)
          end)
  end.
End undo.

(** ** Facts *)

Module undo_facts.
Import coins_facts txverify_facts.

Abbreviation prevouts l := (prevout <$> l).

(** The coins after spending a list of outpoints, and after adding the
    outputs of a transaction. *)
Definition without (u : utxo) (l : list COutPoint) : utxo := foldr delete u l.

Fixpoint add_outputs (u : utxo) (txid : uint256) (vout : list CTxOut) (i nHeight : Z) (fCoinbase : bool) : utxo :=
  match vout with
  | [] => u
  | out :: vout =>
      let u := if CScript.IsUnspendable (scriptPubKey out) then u
               else <[{| op_hash := txid; op_n := u32 i |} := make_Coin out nHeight fCoinbase]> u in
      add_outputs u txid vout (i + 1) nHeight fCoinbase
  end.

Lemma without_lookup u l o : without u l !! o = if decide (o ∈ l) then None else u !! o.
Proof.
  unfold without. induction l as [|x l IH]; cbn [foldr].
  - destruct (decide (o ∈ [])) as [H|]; [by apply elem_of_nil in H|done].
  - destruct (decide (o = x)) as [->|Hne].
    + rewrite lookup_delete_eq, decide_True; [done|]. apply list_elem_of_here.
    + rewrite lookup_delete_ne, IH by congruence. destruct (decide (o ∈ l)) as [Hl|Hl].
      * rewrite decide_True; [done|]. by apply list_elem_of_further.
      * rewrite decide_False; [done|]. by intros [|]%elem_of_cons.
Qed.

Lemma without_delete u o l : without (delete o u) l = without u (o :: l).
Proof.
  apply map_eq. intros o'. rewrite !without_lookup. destruct (decide (o' = o)) as [->|Hne].
  - rewrite lookup_delete_eq, (decide_True (P := o ∈ o :: l)) by apply list_elem_of_here. by destruct (decide _).
  - rewrite lookup_delete_ne by congruence. destruct (decide (o' ∈ l)) as [Hl|Hl].
    + rewrite decide_True; [done|]. by apply list_elem_of_further.
    + rewrite decide_False; [done|]. by intros [|]%elem_of_cons.
Qed.

(** What a transaction does to the coins: it takes its inputs away and puts
    its outputs. *)
Definition spends (tx : CTransaction) : list COutPoint := if IsCoinBase tx then [] else prevouts (vin tx).
Definition apply_tx (h : Z) (u : utxo) (tx : CTransaction) : utxo :=
  add_outputs (without u (spends tx)) (GetHash tx) (vout tx) 0 h (IsCoinBase tx).

(** The coins that a transaction spends. *)
Definition tx_coins (u : utxo) (tx : CTransaction) (cs : list Coin) : Prop :=
  if IsCoinBase tx then cs = [] else spent_coins u (vin tx) cs.

(** Transactions applied one after another, with the coins each spent. *)
Inductive applied (h : Z) : utxo -> list (CTransaction * list Coin) -> utxo -> Prop :=
  | applied_nil u : applied h u [] u
  | applied_cons u tx cs l u' :
      tx_coins u tx cs -> applied h (apply_tx h u tx) l u' -> applied h u ((tx, cs) :: l) u'.

(** A transaction that can be applied: it spends no outpoint twice, its
    outputs are no null outputs and their outpoints are new. *)
Definition new_outputs (u : utxo) (tx : CTransaction) : Prop := forall j, u !! {| op_hash := GetHash tx; op_n := j |} = None.
Definition outputs_ok (tx : CTransaction) : Prop :=
  Forall (fun o => CTxOut_IsNull o = false) (vout tx) /\ Z.of_nat (length (vout tx)) <= 2 ^ 32.
Definition fits (tx : CTransaction) : Prop := NoDup (spends tx) /\ outputs_ok tx.
(** The identifiers of a list of transactions are new. *)
Definition fresh_ids (u : utxo) (txs : list CTransaction) : Prop :=
  NoDup (GetHash <$> txs) /\ Forall (new_outputs u) txs.

Lemma spent_coins_delete u o l cs : o ∉ prevouts l -> spent_coins u l cs -> spent_coins (delete o u) l cs.
Proof.
  intros Ho H. induction H as [|i coin l cs Hi H IH]; [constructor|]. cbn in Ho. apply not_elem_of_cons in Ho as [Hne Ho].
  constructor; [by rewrite lookup_delete_ne by congruence|by apply IH].
Qed.

Section undo.
Context {V : Type} `{CV : CCoinsView V} `{P : CoinsPlatform} `{PL : !CoinsPlatformLaws P} `{CL : !CoinsViewLaws CV}.
Implicit Types c : CCoinsViewCache V.

(** Inputs that are there, each once, are spent. *)
Lemma spend_inputs_ok c l cs :
  cache_ok c -> spent_coins (cache_coins c) l cs -> NoDup (prevouts l) ->
  exists c', spend_inputs c l = Ok (c', cs) /\ cache_ok c' /\ cache_best c' = cache_best c /\
    cache_coins c' = without (cache_coins c) (prevouts l).
Proof.
  intros Hc Hcs. revert c Hc Hcs. revert cs. induction l as [|i l IH]; intros cs c Hc Hcs Hnd;
    inversion Hcs as [|? coin ? cs' Hcoin Hcs']; subst; cbn [spend_inputs fmap list_fmap] in *; [by exists c|].
  apply NoDup_cons in Hnd as [Hi Hnd].
  destruct (SpendCoin c (prevout i)) as [c1 r] eqn:Hs. apply SpendCoin_ok in Hs as (H1 & H2 & H3 & H4); [|done].
  rewrite Hcoin in H4. destruct r as [coin'|]; cbn [mbind option_bind] in H4; [|done].
  destruct (Coin_IsSpent coin') eqn:Hsp; [done|]. injection H4 as <-.
  destruct (IH cs' c1) as (c2 & -> & K1 & K2 & K3); [done| |done|].
  - rewrite H2. by apply spent_coins_delete.
  - cbn [mbind result_bind]. exists c2. split; [done|]. split; [done|]. split; [congruence|].
    by rewrite K3, H2, without_delete.
Qed.

(** Outputs that overwrite nothing, or those of a coinbase, are added. *)
Lemma AddCoins_loop_ok c txid vout i h cb :
  cache_ok c -> Forall (fun o => CTxOut_IsNull o = false) vout ->
  0 <= i -> i + Z.of_nat (length vout) <= 2 ^ 32 ->
  cb = true \/ (forall j, i <= j < i + Z.of_nat (length vout) -> cache_coins c !! {| op_hash := txid; op_n := j |} = None) ->
  exists c', AddCoins_loop c txid vout i h cb false = Ok c' /\ cache_ok c' /\ cache_best c' = cache_best c /\
    cache_coins c' = add_outputs (cache_coins c) txid vout i h cb.
Proof.
  intros Hc Hv. revert c i Hc. induction Hv as [|out vout Hout Hv IH]; intros c i Hc Hi Hl Hfresh;
    cbn [AddCoins_loop add_outputs]; [by exists c|]. cbn [length] in Hl, Hfresh.
  rewrite (wrap_small 32) by (unfold in_range; lia).
  destruct (AddCoin_ok c {| op_hash := txid; op_n := i |} (make_Coin out h cb) cb) as (c1 & -> & H1 & H2 & H3);
    [done|done|destruct Hfresh as [|Hfresh]; [by left|right; apply Hfresh; lia]|].
  cbn [mbind result_bind]. destruct (IH c1 (i + 1)) as (c2 & -> & K1 & K2 & K3); [done|lia|lia| |].
  - destruct Hfresh as [|Hfresh]; [by left|right]. intros j Hj. rewrite H3.
    destruct (CScript.IsUnspendable _); [apply Hfresh; lia|].
    rewrite lookup_insert_ne by (intros [= ->]; lia). apply Hfresh. lia.
  - exists c2. split; [done|]. split; [done|]. split; [congruence|]. rewrite K3, H3. done.
Qed.

Lemma AddCoins_loop_fresh u txid vout i h cb o :
  0 <= i -> i + Z.of_nat (length vout) <= 2 ^ 32 -> op_hash o <> txid \/ op_n o < i ->
  add_outputs u txid vout i h cb !! o = u !! o.
Proof.
  revert u i. induction vout as [|out vout IH]; intros u i Hi Hl Ho; [done|]. cbn [add_outputs length] in *.
  rewrite IH; [|lia|lia|destruct Ho; [by left|right; lia]]. destruct (CScript.IsUnspendable _); [done|].
  rewrite lookup_insert_ne; [done|]. intros <-. cbn in Ho. rewrite wrap_small in Ho by (unfold in_range; lia).
  destruct Ho; [done|lia].
Qed.

Lemma add_outputs_insert u txid vout i h cb o coin :
  0 <= i -> i + Z.of_nat (length vout) <= 2 ^ 32 -> op_hash o = txid -> op_n o < i ->
  add_outputs (<[o := coin]> u) txid vout i h cb = <[o := coin]> (add_outputs u txid vout i h cb).
Proof.
  revert u i. induction vout as [|out vout IH]; intros u i Hi Hl Ho Hn; [done|]. cbn [add_outputs length] in *.
  destruct (CScript.IsUnspendable _); [apply IH; lia || done|].
  rewrite insert_insert_ne; [apply IH; lia || done|]. intros <-. cbn in Hn.
  rewrite wrap_small in Hn by (unfold in_range; lia). lia.
Qed.

(** Taking the outputs back. *)
Lemma take_outputs_ok c u txid vout i h cb :
  cache_ok c -> Forall (fun o => CTxOut_IsNull o = false) vout -> in_range 31 h ->
  0 <= i -> i + Z.of_nat (length vout) <= 2 ^ 32 ->
  (forall j, i <= j < i + Z.of_nat (length vout) -> u !! {| op_hash := txid; op_n := j |} = None) ->
  cache_coins c = add_outputs u txid vout i h cb ->
  exists c', take_outputs c txid vout i h cb true = (c', true) /\ cache_ok c' /\ cache_coins c' = u.
Proof.
  intros Hc Hv Hh. revert c u i Hc. induction Hv as [|out vout Hout Hv IH]; intros c u i Hc Hi Hl Hfresh Hcoins;
    cbn [take_outputs add_outputs] in *; [by exists c|]. cbn [length] in Hl, Hfresh.
  destruct (CScript.IsUnspendable _) eqn:Hsp; cbn [negb].
  { apply (IH c u (i + 1)); try done; [lia|lia|]. intros j Hj. apply Hfresh. lia. }
  rewrite (wrap_small 32) in * by (unfold in_range; lia). set (o := {| op_hash := txid; op_n := i |}) in *.
  destruct (SpendCoin c o) as [c1 r] eqn:Hs. apply SpendCoin_ok in Hs as (H1 & H2 & _ & H4); [|done].
  rewrite Hcoins in H2, H4.
  assert (add_outputs (<[o := make_Coin out h cb]> u) txid vout (i + 1) h cb =
    <[o := make_Coin out h cb]> (add_outputs u txid vout (i + 1) h cb)) as Hins by (apply add_outputs_insert; cbn; lia || done).
  rewrite Hins in H2, H4. rewrite lookup_insert_eq in H4. destruct r as [coin|]; cbn [mbind option_bind] in H4; [|done].
  destruct (Coin_IsSpent coin) eqn:?; [done|]. injection H4 as <-. cbn [make_Coin coin_out coin_nHeight fCoinBase].
  rewrite bool_decide_eq_true_2, (wrap_small 31), Z.eqb_refl, eqb_reflx by done. cbn [andb].
  apply (IH c1 u (i + 1)); [done|lia|lia| |].
  - intros j Hj. apply Hfresh. lia.
  - rewrite H2. apply delete_insert_id. rewrite AddCoins_loop_fresh by (cbn; lia). apply Hfresh. lia.
Qed.

(** [UpdateCoins] implements [apply_tx]. *)
Lemma UpdateCoins_ok c (tx : CTransaction) h cs :
  cache_ok c -> fits tx -> new_outputs (cache_coins c) tx -> tx_coins (cache_coins c) tx cs ->
  exists c', UpdateCoins tx c h = Ok (c', {| vprevout := cs |}) /\ cache_ok c' /\ cache_best c' = cache_best c /\
    cache_coins c' = apply_tx h (cache_coins c) tx.
Proof.
  unfold fits, tx_coins, apply_tx, spends, UpdateCoins, AddCoins.
  intros Hc [Hnd [Hv Hl]] Hnew Hcs. destruct (IsCoinBase tx) eqn:Hcb; cbn [negb mbind result_bind].
  - subst cs. destruct (AddCoins_loop_ok c (GetHash tx) (vout tx) 0 h true) as (c' & -> & ?); [done|done|lia|lia|by left|].
    by exists c'.
  - destruct (spend_inputs_ok c (vin tx) cs) as (c1 & -> & H1 & H2 & H3); [done..|]. cbn [mbind result_bind].
    destruct (AddCoins_loop_ok c1 (GetHash tx) (vout tx) 0 h false) as (c' & -> & K1 & K2 & K3); [done|done|lia|lia| |].
    { right. intros j _. rewrite H3, without_lookup. by destruct (decide _). }
    cbn [of_coins mbind result_bind]. exists c'. split; [done|]. split; [done|]. split; [congruence|]. by rewrite K3, H3.
Qed.

Lemma apply_tx_other h u (tx : CTransaction) o :
  outputs_ok tx -> op_hash o <> GetHash tx -> u !! o = None -> apply_tx h u tx !! o = None.
Proof.
  intros [_ Hl] Ho Hu. unfold apply_tx. rewrite AddCoins_loop_fresh by (lia || by left).
  rewrite without_lookup. by destruct (decide _).
Qed.

Lemma fresh_ids_cons h u (tx : CTransaction) l :
  outputs_ok tx -> fresh_ids u (tx :: l) -> new_outputs u tx /\ fresh_ids (apply_tx h u tx) l.
Proof.
  intros Hok [Hnd Hf]. cbn in Hnd. apply NoDup_cons in Hnd as [Hx Hnd]. apply Forall_cons in Hf as [Hn Hf].
  split; [done|]. split; [done|]. rewrite Forall_forall in *. intros t Ht j.
  apply apply_tx_other; [done| |by apply Hf]. cbn. intros Heq. apply Hx. rewrite <- Heq.
  apply list_elem_of_fmap. by exists t.
Qed.

(** *** Undoing *)

(** Coins that the undo data can restore: their height is known. *)
Definition restorable (coin : Coin) : Prop :=
  coin_nHeight coin <> 0 /\ Coin_IsSpent coin = false /\ CScript.IsUnspendable (scriptPubKey (coin_out coin)) = false.

Lemma ApplyTxInUndo_ok c o coin :
  cache_ok c -> restorable coin -> cache_coins c !! o = None ->
  exists c', ApplyTxInUndo coin c o = Ok (c', DISCONNECT_OK) /\ cache_ok c' /\
    cache_coins c' = <[o := coin]> (cache_coins c).
Proof.
  intros Hc (Hh & Hsp & Hun) Ho. unfold ApplyTxInUndo. destruct (HaveCoin c o) as [c1 b] eqn:Hv.
  apply HaveCoin_ok in Hv as (H1 & H2 & _ & ->); [|done]. rewrite Ho. rewrite bool_decide_eq_false_2 by (by intros [? ?]).
  rewrite (proj2 (Z.eqb_neq _ 0)) by done. cbn [negb].
  destruct (AddCoin_ok c1 o coin false) as (c2 & -> & K1 & _ & K3); [done|done|right; by rewrite H2|].
  cbn [of_coins mbind result_bind]. exists c2. split; [done|]. split; [done|]. by rewrite K3, Hun, H2.
Qed.

Lemma restore_inputs_ok c u l cs rest :
  cache_ok c -> spent_coins u l cs -> NoDup (prevouts l) -> Forall restorable cs ->
  cache_coins c = without u (prevouts l) ->
  exists c', restore_inputs c (reverse (zip l cs) ++ rest) true = restore_inputs c' rest true /\
    cache_ok c' /\ cache_coins c' = u.
Proof.
  intros Hc Hcs. revert u rest Hcs. revert cs. induction l as [|i l IH]; intros cs u rest Hcs Hnd Hr Hu;
    inversion Hcs as [|? coin ? cs' Hcoin Hcs']; subst; cbn [zip zip_with fmap list_fmap] in *; [by exists c|].
  apply NoDup_cons in Hnd as [Hi Hnd]. apply Forall_cons in Hr as [Hr1 Hr]. rewrite reverse_cons, <- app_assoc.
  destruct (IH cs' (delete (prevout i) u) ([(i, coin)] ++ rest)) as (c1 & -> & H1 & H2);
    [by apply spent_coins_delete|done|done|by rewrite without_delete|].
  cbn [app restore_inputs]. destruct (ApplyTxInUndo_ok c1 (prevout i) coin) as (c2 & -> & K1 & K2);
    [done|done|by rewrite H2, lookup_delete_eq|].
  cbn [mbind result_bind]. rewrite decide_False by done. rewrite bool_decide_eq_true_2 by done. cbn [andb].
  exists c2. split; [done|]. split; [done|]. rewrite K2, H2. by apply insert_delete_id.
Qed.

(** Applying a transaction above the genesis block leaves coins that can be
    restored. *)
Lemma add_outputs_all (Q : Coin -> Prop) u txid vout i h cb :
  map_Forall (fun _ => Q) u ->
  Forall (fun o => CScript.IsUnspendable (scriptPubKey o) = false -> Q (make_Coin o h cb)) vout ->
  map_Forall (fun _ => Q) (add_outputs u txid vout i h cb).
Proof.
  intros Hu Hv. revert u i Hu. induction Hv as [|o vout Ho Hv IH]; intros u i Hu; [done|]. cbn [add_outputs].
  apply IH. destruct (CScript.IsUnspendable _); [done|]. apply map_Forall_insert_2; auto.
Qed.

Lemma without_all (Q : Coin -> Prop) u l : map_Forall (fun _ => Q) u -> map_Forall (fun _ => Q) (without u l).
Proof. intros Hu o coin. rewrite without_lookup. destruct (decide _); [done|]. apply Hu. Qed.

Lemma apply_tx_all (Q : Coin -> Prop) h u (tx : CTransaction) :
  map_Forall (fun _ => Q) u ->
  Forall (fun o => CScript.IsUnspendable (scriptPubKey o) = false -> Q (make_Coin o h (IsCoinBase tx))) (vout tx) ->
  map_Forall (fun _ => Q) (apply_tx h u tx).
Proof. intros Hu Hv. apply add_outputs_all; [by apply without_all|done]. Qed.

Lemma apply_tx_restorable h u (tx : CTransaction) :
  0 < h < 2 ^ 31 -> outputs_ok tx -> map_Forall (fun _ => restorable) u -> map_Forall (fun _ => restorable) (apply_tx h u tx).
Proof.
  intros Hh [Hv _] Hu. apply apply_tx_all; [done|]. eapply Forall_impl; [exact Hv|]. intros o Ho Hsp.
  split; [|done]. cbn. rewrite wrap_small by (unfold in_range; lia). lia.
Qed.

Lemma spent_coins_all (Q : Coin -> Prop) u l cs : map_Forall (fun _ => Q) u -> spent_coins u l cs -> Forall Q cs.
Proof. intros Hu H. induction H; constructor; eauto. Qed.

(** The undo data of a transaction that is no coinbase. *)
Definition undo_entry (p : CTransaction * list Coin) : CTransaction * option CTxUndo :=
  (p.1, if IsCoinBase p.1 then None else Some {| vprevout := p.2 |}).

Lemma disconnect_txs_ok c h u l u' rest :
  0 < h < 2 ^ 31 -> applied h u l u' -> cache_ok c -> cache_coins c = u' ->
  fresh_ids u l.*1 -> Forall fits l.*1 -> map_Forall (fun _ => restorable) u ->
  exists c', disconnect_txs c (reverse (undo_entry <$> l) ++ rest) h true = disconnect_txs c' rest h true /\
    cache_ok c' /\ cache_coins c' = u.
Proof.
  intros Hh H. revert c rest. induction H as [u|u tx cs l u' Hcs Hap IH]; intros c rest Hc Hu Hfr Hft Hre; [by exists c|].
  cbn [fmap list_fmap fst] in Hfr, Hft. apply Forall_cons in Hft as [[Hnd Hok] Hft].
  destruct (fresh_ids_cons h u tx l.*1 Hok Hfr) as [Hnew Hfr'].
  change (fmap undo_entry ((tx, cs) :: l)) with (undo_entry (tx, cs) :: (undo_entry <$> l)).
  rewrite reverse_cons, <- app_assoc.
  destruct (IH c ([undo_entry (tx, cs)] ++ rest)) as (c1 & -> & H1 & H2); try done.
  { by apply apply_tx_restorable. }
  unfold undo_entry. cbn [fst snd app disconnect_txs]. destruct Hok as [Hv Hl].
  destruct (take_outputs_ok c1 (without u (spends tx)) (GetHash tx) (vout tx) 0 h (IsCoinBase tx))
    as (c2 & -> & K1 & K2); [done|done|unfold in_range; lia|lia|lia| |done|].
  { intros j _. rewrite without_lookup. by destruct (decide _). }
  unfold tx_coins, spends in *. destruct (IsCoinBase tx); [by exists c2|]. cbn [vprevout].
  rewrite (Forall2_length _ _ _ Hcs), Nat.eqb_refl. cbn [negb].
  destruct (restore_inputs_ok c2 u (vin tx) cs []) as (c3 & Hr & L1 & L2);
    [done|done|done|by eapply spent_coins_all|done|].
  rewrite app_nil_r in Hr. rewrite Hr. cbn [restore_inputs mbind result_bind]. by exists c3.
Qed.

(** *** Coins of height 0 *)

Lemma AccessByTxid_loop_none fuel c txid i :
  cache_ok c -> (forall j, cache_coins c !! {| op_hash := txid; op_n := j |} = None) ->
  exists c' a, AccessByTxid_loop fuel c txid i = (c', a) /\ Coin_IsSpent a = true.
Proof.
  revert c i. induction fuel as [|fuel IH]; intros c i Hc Hn; cbn [AccessByTxid_loop]; [by eexists _, _|].
  destruct (AccessCoin c _) as [c1 a] eqn:Ha. apply AccessCoin_ok in Ha as (H1 & H2 & _ & H3); [|done].
  rewrite Hn in H3. destruct (Coin_IsSpent a) eqn:Hs; [|done]. cbn [negb]. apply IH; [done|]. by rewrite H2.
Qed.

Lemma ApplyTxInUndo_height_0 c o coin :
  cache_ok c -> coin_nHeight coin = 0 -> (forall j, cache_coins c !! {| op_hash := op_hash o; op_n := j |} = None) ->
  exists c', ApplyTxInUndo coin c o = Ok (c', DISCONNECT_FAILED).
Proof.
  intros Hc Hh Hn. unfold ApplyTxInUndo. destruct (HaveCoin c o) as [c1 b] eqn:Hv.
  apply HaveCoin_ok in Hv as (H1 & H2 & _ & _); [|done]. rewrite Hh, Z.eqb_refl. unfold AccessByTxid.
  destruct (AccessByTxid_loop_none (Z.to_nat MAX_OUTPUTS_PER_BLOCK) c1 (op_hash o) 0) as (c2 & a & -> & ->);
    [done|by rewrite H2|]. cbn [negb]. by exists c2.
Qed.

(** *** Disconnecting a block *)

Definition block_undo (l : list (CTransaction * list Coin)) : CBlockUndo :=
  {| vtxundo := (fun p => {| vprevout := p.2 |}) <$> l |}.

Lemma undo_entries (l : list (CTransaction * list Coin)) :
  Forall (fun tx : CTransaction => IsCoinBase tx = false) l.*1 ->
  zip l.*1 (Some <$> vtxundo (block_undo l)) = undo_entry <$> l.
Proof.
  induction l as [|[tx cs] l IH]; intros H; [done|]. cbn in H. apply Forall_cons in H as [Htx H].
  cbn [fmap list_fmap zip zip_with fst snd block_undo vtxundo] in *.
  unfold undo_entry at 1. cbn [fst snd]. rewrite Htx. f_equal. by apply IH.
Qed.

(** The data that [ConnectBlock] keeps takes a block back, from whatever cache
    stands for the coins after it. *)
Lemma DisconnectBlock_ok m (block : CBlock) (cb : CTransaction) l b prevHash c u u' :
  vtx block = cb :: l.*1 -> IsCoinBase cb = true -> Forall (fun tx : CTransaction => IsCoinBase tx = false) l.*1 ->
  applied (nHeight b) u ((cb, []) :: l) u' -> 0 < nHeight b < 2 ^ 31 ->
  match pprev b with None => Some uint256_null | Some q => phashBlock <$> m !! q end = Some prevHash ->
  cache_ok c -> cache_coins c = u' -> fresh_ids u (vtx block) -> Forall fits (vtx block) ->
  map_Forall (fun _ => restorable) u ->
  exists c', DisconnectBlock m block (Some (block_undo l)) b c = Some (Ok (c', DISCONNECT_OK)) /\
    cache_ok c' /\ cache_coins c' = u /\ hashBlock c' = prevHash.
Proof.
  intros Hvtx Hcb Hrest Hap Hh Hp Hc Hu Hfr Hft Hre. unfold DisconnectBlock.
  assert (length (vtxundo (block_undo l)) + 1 = length (vtx block))%nat as ->.
  { rewrite Hvtx. cbn [block_undo vtxundo length]. rewrite !length_fmap. lia. }
  rewrite Nat.eqb_refl, Hp. cbn [negb mbind option_bind]. rewrite Hvtx. cbn [zip zip_with].
  change (zip_with pair l.*1 (Some <$> vtxundo (block_undo l))) with (zip l.*1 (Some <$> vtxundo (block_undo l))).
  rewrite undo_entries by done.
  assert ((cb, None) :: (undo_entry <$> l) = undo_entry <$> ((cb, []) :: l)) as ->.
  { cbn [fmap list_fmap]. unfold undo_entry at 2. cbn [fst snd]. by rewrite Hcb. }
  rewrite Hvtx in Hfr, Hft.
  destruct (disconnect_txs_ok c (nHeight b) u ((cb, []) :: l) u' []) as (c1 & Hd & H1 & H2); try done.
  rewrite app_nil_r in Hd. rewrite Hd. cbn [disconnect_txs mbind result_bind].
  destruct (SetBestBlock_ok c1 prevHash H1) as (K1 & K2 & _).
  exists (SetBestBlock c1 prevHash). split; [done|]. split; [done|]. by rewrite K2.
Qed.
End undo.
End undo_facts.
