(* ===== verification/Compress.v ===== *)
(** * The forms of data on disk ([compressor.h], [compressor.cpp], [undo.h], [coins.h], [chain.h])

    Amounts, scripts and coins are compressed in the coins database and in the
    undo files; the index database holds a [CDiskBlockIndex] for each block.
    These readers accept more than the writers write, so the class
    [ForwardLaws] asks less of a codec than [CodecLaws]. *)

From S2P Require Import Prelude Uint256 Chain Script Interpreter Serialize Transaction Coins TxVerify Block Undo.
Import CScript.

(** ** Amounts

    [n] is a [uint64_t]. *)

(** [while (((n % 10) == 0) && e < 9)], as many times as [left']; the zeros
    removed. *)
Fixpoint strip_tens (left' : nat) (n e : Z) : Z * Z :=
  match left' with
  | O => (n, e)
  | S left' => if n mod 10 =? 0 then strip_tens left' (n / 10) (e + 1) else (n, e)
  end.

Definition CompressAmount (n : Z) : Z :=
  if n =? 0 then 0
  else
    let '(n, e) := strip_tens 9 n 0 in
    if e <? 9 then
      let d := n mod 10 in
      let n := n / 10 in
      u64 (1 + (n * 9 + d - 1) * 10 + e)
    else u64 (1 + (n - 1) * 10 + 9).

Fixpoint scale_tens (e : nat) (n : Z) : Z :=
  match e with O => n | S e => scale_tens e (u64 (n * 10)) end.

Definition DecompressAmount (x : Z) : Z :=
  if x =? 0 then 0
  else
    let x := x - 1 in
    let e := x mod 10 in
    let x := x / 10 in
    let n := if e <? 9 then let d := x mod 9 + 1 in let x := x / 9 in u64 (x * 10 + d)
             else u64 (x + 1) in
    scale_tens (Z.to_nat e) n.

(** ** Scripts *)

Definition nSpecialScripts : Z := 6.

(** The bytes that the three forms keep. *)
Definition IsToKeyID (script : bytes) : option bytes :=
  if (length script =? 25)%nat && (byte_at script 0 =? OP_DUP) && (byte_at script 1 =? OP_HASH160)
     && (byte_at script 2 =? 20) && (byte_at script 23 =? OP_EQUALVERIFY) && (byte_at script 24 =? OP_CHECKSIG)
  then Some (take 20 (drop 3 script)) else None.
Definition IsToScriptID (script : bytes) : option bytes :=
  if (length script =? 23)%nat && (byte_at script 0 =? OP_HASH160) && (byte_at script 1 =? 20)
     && (byte_at script 22 =? OP_EQUAL)
  then Some (take 20 (drop 2 script)) else None.
Definition IsToPubKey (script : bytes) : option bytes :=
  if (length script =? PUBLIC_KEY_SIZE + 2)%nat && (byte_at script 0 =? Z.of_nat PUBLIC_KEY_SIZE)
     && (byte_at script (PUBLIC_KEY_SIZE + 1) =? OP_CHECKSIG)
  then Some (take PUBLIC_KEY_SIZE (drop 1 script)) else None.

Definition Compress (script : bytes) : option bytes :=
  match IsToKeyID script with
  | Some keyID => Some (0x00 :: keyID)
  | None =>
      match IsToScriptID script with
      | Some scriptID => Some (0x01 :: scriptID)
      | None =>
          match IsToPubKey script with
          | Some pubkey => Some (0x02 :: pubkey)
          | None => None
          end
      end
  end.

Definition GetSpecialSize (nSize : Z) : Z :=
  if (nSize =? 0) || (nSize =? 1) then 20
  else if nSize =? 2 then Z.of_nat PUBLIC_KEY_SIZE
  else 0.

(** The script, which keeps its contents when the size is none of these. *)
Definition Decompress (nSize : Z) (input : bytes) (script : bytes) : bytes :=
  if nSize =? 0x00 then [OP_DUP; OP_HASH160; 20] ++ take 20 input ++ [OP_EQUALVERIFY; OP_CHECKSIG]
  else if nSize =? 0x01 then [OP_HASH160; 20] ++ take 20 input ++ [OP_EQUAL]
  else if nSize =? 0x02 then [Z.of_nat PUBLIC_KEY_SIZE] ++ take PUBLIC_KEY_SIZE input ++ [OP_CHECKSIG]
  else script.

(** The streams a script is read from: [CDataStream], which the database fills,
    and [CAutoFile] with [CHashVerifier] on it.  Their [ignore] takes an [int]
    and a [size_t]; it is called with an unsigned int. *)
Inductive stream_kind := data_stream | file_stream.
#[export] Instance stream_kind_eq_dec : EqDecision stream_kind.
Proof. solve_decision. Defined.

Definition ignore (k : stream_kind) (nSize : Z) (s : bytes) : result io_error bytes :=
  match k with
  | data_stream => check (negb (i32 nSize <? 0)) negative_size;; '(_, s) ← read (i32 nSize) s; Ok s
  | file_stream => '(_, s) ← read nSize s; Ok s
  end.

(** [CScriptCompressor]; the script read into is empty.  An unsigned integer
    of [w] bits always fits its buffer ([serialize_facts]). *)
Definition write_varint (w n : Z) : bytes := default [] (WriteVarInt w n).

Definition script_compressor (k : stream_kind) : codec bytes := {|
  Serialize script :=
    match Compress script with
    | Some compr => compr
    | None => write_varint 32 (u32 (Z.of_nat (length script) + nSpecialScripts)) ++ script
    end;
  Unserialize s :=
    '(nSize, s) ← ReadVarInt 32 s;
    if nSize <? nSpecialScripts then
      '(vch, s) ← read (GetSpecialSize nSize) s;
      Ok (Decompress nSize vch [], s)
    else
      let nSize := nSize - nSpecialScripts in
      if nSize >? MAX_SCRIPT_SIZE then s ← ignore k nSize s; Ok ([OP_RETURN], s)
      else read nSize s |}.

(** [CTxOutCompressor]. *)
Definition txout_compressor (k : stream_kind) : codec CTxOut := {|
  Serialize o := write_varint 64 (CompressAmount (u64 (nValue o))) ++ Serialize (script_compressor k) (scriptPubKey o);
  Unserialize s :=
    '(nVal, s) ← ReadVarInt 64 s;
    '(script, s) ← Unserialize (script_compressor k) s;
    Ok ({| nValue := i64 (DecompressAmount nVal); scriptPubKey := script |}, s) |}.

(** ** Coins and undo records *)

(** The height and the flag share a number; a height has 31 bits. *)
Definition coin_code (c : Coin) : Z := coin_nHeight c * 2 + (if fCoinBase c then 1 else 0).

Definition coin_codec : codec Coin := {|
  Serialize c := write_varint 32 (u32 (coin_code c)) ++ Serialize (txout_compressor data_stream) (coin_out c);
  Unserialize s :=
    '(code, s) ← ReadVarInt 32 s;
    '(out, s) ← Unserialize (txout_compressor data_stream) s;
    Ok ({| coin_out := out; fCoinBase := negb (Z.land code 1 =? 0); coin_nHeight := Z.shiftr code 1 |}, s) |}.

(** [TxInUndoSerializer] and [TxInUndoDeserializer]: between them a version
    that is no longer used, an [int] when it is read. *)
Definition tx_in_undo_codec : codec Coin := {|
  Serialize c :=
    write_varint 32 (coin_code c) ++ (if 0 <? coin_nHeight c then Serialize uint8_codec 0 else []) ++
    Serialize (txout_compressor file_stream) (coin_out c);
  Unserialize s :=
    '(nCode, s) ← ReadVarInt 32 s;
    let nHeight := nCode / 2 in
    let fCoinBase := negb (Z.land nCode 1 =? 0) in
    s ← (if 0 <? nHeight then '(_, s) ← ReadVarInt 31 s; Ok s else Ok s);
    '(out, s) ← Unserialize (txout_compressor file_stream) s;
    Ok ({| coin_out := out; fCoinBase := fCoinBase; coin_nHeight := nHeight |}, s) |}.

(** [GetSerializeSize(CTxIn())] is 41. *)
Definition MIN_TRANSACTION_INPUT_WEIGHT : Z := WITNESS_SCALE_FACTOR * 41.
Definition MAX_INPUTS_PER_BLOCK : Z := MAX_BLOCK_WEIGHT / MIN_TRANSACTION_INPUT_WEIGHT.

Definition tx_undo_codec : codec CTxUndo := {|
  Serialize u := WriteCompactSize (Z.of_nat (length (vprevout u))) ++ concat (map (Serialize tx_in_undo_codec) (vprevout u));
  Unserialize s :=
    '(count, s) ← ReadCompactSize s;
    check (negb (count >? MAX_INPUTS_PER_BLOCK)) too_many_undo_records;;
    '(l, s) ← read_elements tx_in_undo_codec (Z.to_nat count) [] s;
    Ok ({| vprevout := l |}, s) |}.

(** [chunk] is 5000000 over the size of a [CTxUndo]. *)
Definition block_undo_codec (chunk : Z) : codec CBlockUndo := {|
  Serialize u := Serialize (vector_codec chunk tx_undo_codec) (vtxundo u);
  Unserialize s := '(l, s) ← Unserialize (vector_codec chunk tx_undo_codec) s; Ok ({| vtxundo := l |}, s) |}.

(** ** The block index on disk *)

Record CDiskBlockIndex := {
  di_nHeight : Z; di_nStatus : Z; di_nTx : Z; di_nFile : Z; di_nDataPos : Z; di_nUndoPos : Z;
  di_header : CBlockHeader;
}.

(** [CDiskBlockIndex(pindex)]: the header with the hash of the predecessor. *)
Definition make_disk_index (m : index_map) (b : CBlockIndex) : option CDiskBlockIndex :=
  hashPrev ← match pprev b with None => Some uint256_null | Some q => phashBlock <$> m !! q end;
  Some {| di_nHeight := nHeight b; di_nStatus := nStatus b; di_nTx := nTx b; di_nFile := nFile b;
          di_nDataPos := nDataPos b; di_nUndoPos := nUndoPos b;
          di_header := {| hdr_nVersion := nVersion b; hdr_hashPrevBlock := hashPrev; hdr_hashMerkleRoot := hashMerkleRoot b;
                          hdr_nTime := nTime b; hdr_nBits := nBits b; hdr_nNonce := nNonce b; hdr_nSolution := nSolution b |} |}.

Definition stored (status flag : Z) : bool := negb (Z.land status flag =? 0).

(** A field that is there only under a condition, zero otherwise. *)
Definition field_if (c : bool) (n : Z) : bytes := if c then write_varint 32 n else [].
Definition read_field_if (c : bool) (w : Z) (s : bytes) : read_result Z := if c then ReadVarInt w s else Ok (0, s).

(** [version] is that of the stream; [int] fields are read with 31 bits. *)
Definition disk_index_codec (version : Z) : codec CDiskBlockIndex := {|
  Serialize i :=
    let data := stored (di_nStatus i) BLOCK_HAVE_DATA in
    let undo := stored (di_nStatus i) BLOCK_HAVE_UNDO in
    write_varint 32 version ++ write_varint 32 (di_nHeight i) ++ write_varint 32 (di_nStatus i) ++
    write_varint 32 (di_nTx i) ++ field_if (data || undo) (di_nFile i) ++ field_if data (di_nDataPos i) ++
    field_if undo (di_nUndoPos i) ++ Serialize header_codec (di_header i);
  Unserialize s :=
    '(_, s) ← ReadVarInt 31 s;
    '(nHeight, s) ← ReadVarInt 31 s;
    '(nStatus, s) ← ReadVarInt 32 s;
    '(nTx, s) ← ReadVarInt 32 s;
    let data := stored nStatus BLOCK_HAVE_DATA in
    let undo := stored nStatus BLOCK_HAVE_UNDO in
    '(nFile, s) ← read_field_if (data || undo) 31 s;
    '(nDataPos, s) ← read_field_if data 32 s;
    '(nUndoPos, s) ← read_field_if undo 32 s;
    '(h, s) ← Unserialize header_codec s;
    Ok ({| di_nHeight := nHeight; di_nStatus := nStatus; di_nTx := nTx; di_nFile := nFile;
           di_nDataPos := nDataPos; di_nUndoPos := nUndoPos; di_header := h |}, s) |}.

(** ** Facts *)

(** What was written is read back, whatever follows. *)
Class ForwardLaws {A} (c : codec A) (P : A -> Prop) : Prop := {
  forward_ok : forall x, P x -> bytes_ok (Serialize c x);
  forward_read : forall x s, P x -> Unserialize c (Serialize c x ++ s) = Ok (x, s);
}.

Module compress_facts.
Import serialize_facts transaction_facts block_facts.

(** *** Amounts *)

Lemma strip_tens_spec k n e : 0 < n ->
  let '(n', e') := strip_tens k n e in
  n = n' * 10 ^ (e' - e) /\ 0 < n' /\ e <= e' <= e + Z.of_nat k /\ (e' < e + Z.of_nat k -> n' mod 10 <> 0).
Proof.
  revert n e. induction k as [|k IH]; intros n e Hn; cbn [strip_tens].
  - rewrite Z.sub_diag. split_and!; lia.
  - destruct (Z.eqb_spec (n mod 10) 0) as [E|E].
    + specialize (IH (n / 10) (e + 1) ltac:(dlia)). destruct (strip_tens k (n / 10) (e + 1)) as [n' e'].
      destruct IH as (H1 & H2 & H3 & H4). split_and!; [|done|lia..|intros; apply H4; lia].
      replace (e' - e) with (Z.succ (e' - (e + 1))) by lia. rewrite Z.pow_succ_r by lia.
      transitivity (10 * (n / 10)); [dlia|]. rewrite H1. ring.
    + rewrite Z.sub_diag. split_and!; [lia..|done].
Qed.

Lemma scale_tens_spec e n : 0 <= n -> n * 10 ^ Z.of_nat e < 2 ^ 64 -> scale_tens e n = n * 10 ^ Z.of_nat e.
Proof.
  revert n. induction e as [|e IH]; intros n Hn Hlt; cbn [scale_tens]; [lia|].
  rewrite Nat2Z.inj_succ, Z.pow_succ_r in * by lia. assert (0 < 10 ^ Z.of_nat e) by (apply Z.pow_pos_nonneg; lia).
  rewrite (wrap_small 64) by (unfold in_range; nia). rewrite IH by nia. ring.
Qed.

Lemma DecompressAmount_Compress n : 0 <= n < 2 ^ 60 ->
  in_range 64 (CompressAmount n) /\ DecompressAmount (CompressAmount n) = n.
Proof.
  intros Hn. unfold CompressAmount. destruct (Z.eqb_spec n 0) as [->|Hn0]; [done|].
  pose proof (strip_tens_spec 9 n 0 ltac:(lia)) as H. destruct (strip_tens 9 n 0) as [n' e].
  rewrite Z.sub_0_r in H. destruct H as (E & Hn' & He & Hd). change (0 + Z.of_nat 9) with 9 in *.
  assert (0 < 10 ^ e) as Hpow by (apply Z.pow_pos_nonneg; lia). assert (n' <= n) as Hle by (rewrite E; clear -Hpow Hn'; nia). pow_literals.
  assert (scale_tens (Z.to_nat e) n' = n) as Hscale.
  { rewrite scale_tens_spec; rewrite ?Z2Nat.id by lia; [done|lia|pow_literals; lia]. }
  destruct (Z.ltb_spec e 9) as [Hlt|Hge].
  - specialize (Hd Hlt). pose proof (Z.mod_pos_bound n' 10 ltac:(lia)). pose proof (Z.div_mod n' 10 ltac:(lia)) as Hdm.
    set (x := 1 + (n' / 10 * 9 + n' mod 10 - 1) * 10 + e).
    assert (0 <= n' / 10) by (apply Z.div_pos; lia).
    assert (0 < x < 2 ^ 64) as Hx by (pow_literals; unfold x; lia).
    rewrite (wrap_small 64) by (unfold in_range; lia). split; [unfold in_range; lia|].
    unfold DecompressAmount. destruct (Z.eqb_spec x 0); [lia|]. cbn zeta.
    assert ((x - 1) mod 10 = e) as -> by (unfold x; replace (1 + _ + e - 1) with (e + (n' / 10 * 9 + n' mod 10 - 1) * 10) by ring;
      rewrite Z.mod_add by lia; apply Z.mod_small; lia).
    assert ((x - 1) / 10 = n' / 10 * 9 + n' mod 10 - 1) as -> by (unfold x;
      replace (1 + _ + e - 1) with (e + (n' / 10 * 9 + n' mod 10 - 1) * 10) by ring; rewrite Z.div_add, Z.div_small by lia; lia).
    destruct (Z.ltb_spec e 9); [|lia].
    assert ((n' / 10 * 9 + n' mod 10 - 1) mod 9 = n' mod 10 - 1) as ->.
    { replace (n' / 10 * 9 + n' mod 10 - 1) with (n' mod 10 - 1 + n' / 10 * 9) by ring. rewrite Z.mod_add by lia.
      apply Z.mod_small. lia. }
    assert ((n' / 10 * 9 + n' mod 10 - 1) / 9 = n' / 10) as ->.
    { replace (n' / 10 * 9 + n' mod 10 - 1) with (n' mod 10 - 1 + n' / 10 * 9) by ring. rewrite Z.div_add by lia.
      rewrite Z.div_small by lia. lia. }
    replace (n' / 10 * 10 + (n' mod 10 - 1 + 1)) with n' by lia.
    rewrite (wrap_small 64) by (unfold in_range; pow_literals; lia). done.
  - assert (e = 9) as -> by lia. set (x := 1 + (n' - 1) * 10 + 9).
    assert (0 < x < 2 ^ 64) as Hx by (pow_literals; unfold x; lia).
    rewrite (wrap_small 64) by (unfold in_range; lia). split; [unfold in_range; lia|].
    unfold DecompressAmount. destruct (Z.eqb_spec x 0); [lia|]. cbn zeta.
    replace (x - 1) with (9 + (n' - 1) * 10) by (unfold x; ring). rewrite Z.mod_add, Z.div_add by lia.
    change (9 mod 10) with 9. change (9 / 10) with 0. cbn [Z.ltb Z.compare Pos.compare Pos.compare_cont].
    replace (0 + (n' - 1) + 1) with n' by ring. rewrite (wrap_small 64) by (unfold in_range; pow_literals; lia). done.
Qed.

(** *** Numbers *)

Lemma write_varint_read w w' n s : 8 <= w -> 8 <= w' -> in_range w n -> in_range w' n ->
  ReadVarInt w' (write_varint w n ++ s) = Ok (n, s).
Proof.
  intros Hw Hw' Hn Hn'. unfold write_varint. destruct (WriteVarInt_digits w Hw n Hn) as (ds & -> & Hd & _).
  cbn [default]. by apply read_digits.
Qed.

Lemma write_varint_ok w n : 8 <= w -> in_range w n -> bytes_ok (write_varint w n).
Proof.
  intros Hw Hn. unfold write_varint. destruct (WriteVarInt_digits w Hw n Hn) as (ds & -> & Hd & _).
  cbn [default]. apply Forall_reverse. by apply digits_ok in Hd.
Qed.

(** *** Scripts *)

Lemma IsToKeyID_spec script id : IsToKeyID script = Some id ->
  script = [OP_DUP; OP_HASH160; 20] ++ id ++ [OP_EQUALVERIFY; OP_CHECKSIG] /\ length id = 20%nat.
Proof.
  unfold IsToKeyID. destruct (_ && _) eqn:E; [|done]. intros [= <-]. repeat (apply andb_prop in E as [E ?H]).
  apply Nat.eqb_eq in E. repeat match goal with H : (_ =? _) = true |- _ => apply Z.eqb_eq in H end.
  do 25 (destruct script as [|? script]; [done|]). destruct script; [|done]. unfold byte_at in *. cbn in *. by subst.
Qed.

Lemma IsToScriptID_spec script id : IsToScriptID script = Some id ->
  script = [OP_HASH160; 20] ++ id ++ [OP_EQUAL] /\ length id = 20%nat.
Proof.
  unfold IsToScriptID. destruct (_ && _) eqn:E; [|done]. intros [= <-]. repeat (apply andb_prop in E as [E ?H]).
  apply Nat.eqb_eq in E. repeat match goal with H : (_ =? _) = true |- _ => apply Z.eqb_eq in H end.
  do 23 (destruct script as [|? script]; [done|]). destruct script; [|done]. unfold byte_at in *. cbn in *. by subst.
Qed.

Lemma IsToPubKey_spec script key : IsToPubKey script = Some key ->
  script = [Z.of_nat PUBLIC_KEY_SIZE] ++ key ++ [OP_CHECKSIG] /\ length key = PUBLIC_KEY_SIZE.
Proof.
  unfold IsToPubKey. destruct (_ && _) eqn:E; [|done]. intros [= <-]. repeat (apply andb_prop in E as [E ?H]).
  apply Nat.eqb_eq in E. repeat match goal with H : (_ =? _) = true |- _ => apply Z.eqb_eq in H end.
  do 34 (destruct script as [|? script]; [done|]). destruct script; [|done]. unfold byte_at in *. cbn in *. by subst.
Qed.

(** The compressed forms are those of the sizes below [nSpecialScripts]. *)
Lemma Compress_spec script compr : Compress script = Some compr ->
  exists k d, compr = k :: d /\ 0 <= k < 3 /\ Z.of_nat (length d) = GetSpecialSize k /\ Decompress k d [] = script /\
    (bytes_ok script -> bytes_ok d).
Proof.
  unfold Compress. destruct (IsToKeyID script) as [id|] eqn:E1.
  { intros [= <-]. apply IsToKeyID_spec in E1 as [E Hl]. exists 0, id. split_and!; try done.
    - unfold GetSpecialSize. cbn. lia.
    - unfold Decompress. cbn [Z.eqb]. rewrite take_ge by lia. by rewrite E.
    - rewrite E, !Forall_app. tauto. }
  destruct (IsToScriptID script) as [id|] eqn:E2.
  { intros [= <-]. apply IsToScriptID_spec in E2 as [E Hl]. exists 1, id. split_and!; try done.
    - unfold GetSpecialSize. cbn. lia.
    - unfold Decompress. cbn [Z.eqb Pos.eqb]. rewrite take_ge by lia. by rewrite E.
    - rewrite E, !Forall_app. tauto. }
  destruct (IsToPubKey script) as [key|] eqn:E3; [|done].
  intros [= <-]. apply IsToPubKey_spec in E3 as [E Hl]. exists 2, key. split_and!; try done.
  - unfold GetSpecialSize. cbn. lia.
  - unfold Decompress. cbn [Z.eqb Pos.eqb]. rewrite take_ge by lia. by rewrite E.
  - rewrite E, !Forall_app. tauto.
Qed.

Lemma ReadVarInt_small k s : 0 <= k < 128 -> ReadVarInt 32 (k :: s) = Ok (k, s).
Proof.
  intros Hk. unfold ReadVarInt. rewrite ReadVarInt_step by (lia || (unfold in_range; pow_literals; lia)).
  rewrite Z.gtb_ltb. destruct (Z.ltb_spec (max_I 32 / 128) 0) as [H|_]; [vm_compute in H; discriminate H|]. cbn zeta.
  destruct (Z.leb_spec 128 k); [lia|]. do 2 f_equal. dlia.
Qed.

(** The scripts that can be spent. *)
Definition short_script (b : bytes) : Prop := bytes_ok b /\ Z.of_nat (length b) <= MAX_SCRIPT_SIZE.

#[export] Instance script_forward k : ForwardLaws (script_compressor k) short_script.
Proof.
  assert (forall b : bytes, Z.of_nat (length b) <= MAX_SCRIPT_SIZE -> in_range 32 (Z.of_nat (length b) + nSpecialScripts)) as Hr.
  { unfold MAX_SCRIPT_SIZE, nSpecialScripts, in_range. intros b Hb. pow_literals. lia. }
  rename k into kind. split; cbn [Serialize Unserialize script_compressor]; intros x.
  - intros [Hb Hl]. destruct (Compress x) as [compr|] eqn:E.
    + apply Compress_spec in E as (k & d & -> & Hk & _ & _ & Hd). constructor; [unfold in_range; pow_literals; lia|by apply Hd].
    + rewrite (wrap_small 32) by by apply Hr. apply Forall_app. split; [|done]. apply write_varint_ok; [lia|by apply Hr].
  - intros s [Hb Hl]. destruct (Compress x) as [compr|] eqn:E.
    + apply Compress_spec in E as (k & d & -> & Hk & Hd & Hx & _). cbn [app]. rewrite ReadVarInt_small by lia.
      cbn [mbind result_bind]. unfold nSpecialScripts. destruct (Z.ltb_spec k 6); [|lia].
      rewrite read_app by done. cbn [mbind result_bind]. by rewrite Hx.
    + rewrite (wrap_small 32) by by apply Hr. rewrite <- app_assoc, write_varint_read by (lia || by apply Hr).
      cbn [mbind result_bind]. destruct (Z.ltb_spec (Z.of_nat (length x) + nSpecialScripts) nSpecialScripts); [lia|].
      replace (Z.of_nat (length x) + nSpecialScripts - nSpecialScripts) with (Z.of_nat (length x)) by ring.
      rewrite Z.gtb_ltb. destruct (Z.ltb_spec MAX_SCRIPT_SIZE (Z.of_nat (length x))); [lia|]. by apply read_app.
Qed.

(** [fput] takes one field through its codec. *)
Ltac fput := rewrite <- ?app_assoc; rewrite forward_read by done; cbn [mbind result_bind].
Ltac vput := rewrite <- ?app_assoc; rewrite write_varint_read by (lia || assumption); cbn [mbind result_bind].

(** *** Outputs, coins and undo records *)

Definition money_out (o : CTxOut) : Prop := 0 <= nValue o <= MAX_MONEY /\ short_script (scriptPubKey o).

Lemma money_bound v : 0 <= v <= MAX_MONEY -> 0 <= v < 2 ^ 60.
Proof. unfold MAX_MONEY, COIN. pow_literals. lia. Qed.

#[export] Instance txout_forward k : ForwardLaws (txout_compressor k) money_out.
Proof.
  split; cbn [Serialize Unserialize txout_compressor].
  - intros o [Hv Hs]. apply money_bound in Hv. destruct (DecompressAmount_Compress (nValue o) Hv) as [Hr _].
    rewrite (wrap_small 64) by (unfold in_range; pow_literals; lia).
    apply Forall_app. split; [by apply write_varint_ok|by apply forward_ok].
  - intros [v b] s [Hv Hs]. cbn [nValue scriptPubKey] in *. apply money_bound in Hv.
    destruct (DecompressAmount_Compress v Hv) as [Hr Hd].
    rewrite (wrap_small 64) by (unfold in_range; pow_literals; lia). vput. fput. rewrite Hd.
    rewrite (swrap_small 64) by (lia || (pow_literals; lia)). done.
Qed.

Definition coin_ok (c : Coin) : Prop := money_out (coin_out c) /\ 0 <= coin_nHeight c < 2 ^ 30.

Lemma coin_code_ok c : coin_ok c -> in_range 31 (coin_code c) /\ coin_code c / 2 = coin_nHeight c /\
  negb (Z.land (coin_code c) 1 =? 0) = fCoinBase c.
Proof.
  intros [_ Hh]. unfold coin_code, in_range. pow_literals.
  replace (Z.land _ 1) with ((coin_nHeight c * 2 + (if fCoinBase c then 1 else 0)) mod 2)
    by (symmetry; apply (Z.land_ones _ 1); lia).
  destruct (fCoinBase c); (split; [dlia|split; [dlia|]]).
  - rewrite Z.add_comm, Z.mod_add by lia. done.
  - rewrite Z.add_comm, Z.mod_add by lia. done.
Qed.

#[export] Instance coin_forward : ForwardLaws coin_codec coin_ok.
Proof.
  split; cbn [Serialize Unserialize coin_codec].
  - intros c H. destruct (coin_code_ok c H) as (Hr & _). unfold in_range in Hr. pow_literals.
    rewrite (wrap_small 32) by (unfold in_range; pow_literals; lia). apply Forall_app.
    split; [apply write_varint_ok; [lia|unfold in_range; pow_literals; lia]|by apply forward_ok, H].
  - intros [o b h] s H. destruct (coin_code_ok _ H) as (Hr & Hq & Hb). unfold in_range in Hr.
    assert (in_range 32 (coin_code {| coin_out := o; fCoinBase := b; coin_nHeight := h |})) as Hr32 by (unfold in_range; pow_literals; lia).
    rewrite (wrap_small 32) by done. vput. destruct H as [Ho _]. cbn [coin_out] in *. fput.
    rewrite Hb. rewrite Z.shiftr_div_pow2 by lia. change (2 ^ 1) with 2. by rewrite Hq.
Qed.

#[export] Instance tx_in_undo_forward : ForwardLaws tx_in_undo_codec coin_ok.
Proof.
  split; cbn [Serialize Unserialize tx_in_undo_codec].
  - intros c H. destruct (coin_code_ok c H) as (Hr & _). unfold in_range in Hr. pow_literals.
    rewrite !Forall_app. split_and!; [apply write_varint_ok; [lia|unfold in_range; pow_literals; lia]| |by apply forward_ok, H].
    destruct (_ <? _); [apply ser_writedata_ok|done].
  - intros [o b h] s H. destruct (coin_code_ok _ H) as (Hr & Hq & Hb). unfold in_range in Hr.
    assert (in_range 32 (coin_code {| coin_out := o; fCoinBase := b; coin_nHeight := h |})) as Hr32 by (unfold in_range; pow_literals; lia).
    vput. rewrite Hq, Hb. destruct H as [Ho _]. cbn [coin_out coin_nHeight fCoinBase] in *. destruct (Z.ltb_spec 0 h).
    + change (Serialize uint8_codec 0) with (write_varint 32 0).
      rewrite write_varint_read by (lia || (unfold in_range; pow_literals; lia)). cbn [mbind result_bind]. fput. done.
    + cbn [app mbind result_bind]. fput. done.
Qed.

(** *** Vectors *)

Lemma forward_elements {A} (c : codec A) P `{!ForwardLaws c P} xs v s : Forall P xs ->
  read_elements c (length xs) v (concat (map (Serialize c) xs) ++ s) = Ok (v ++ xs, s).
Proof.
  intros Hxs. revert v. induction Hxs as [|x xs Hx Hxs IH]; intros v; cbn [length read_elements map concat].
  - by rewrite app_nil_r.
  - fput. by rewrite IH, <- app_assoc.
Qed.

Lemma forward_bytes {A} (c : codec A) P `{!ForwardLaws c P} xs : Forall P xs -> bytes_ok (concat (map (Serialize c) xs)).
Proof. induction 1; cbn; [done|]. apply Forall_app. split; [by apply forward_ok|done]. Qed.

#[export] Instance tx_undo_forward : ForwardLaws tx_undo_codec
  (fun u => Forall coin_ok (vprevout u) /\ Z.of_nat (length (vprevout u)) <= MAX_INPUTS_PER_BLOCK).
Proof.
  assert (MAX_INPUTS_PER_BLOCK = 195121) as E by reflexivity.
  split; cbn [Serialize Unserialize tx_undo_codec].
  - intros u [Hc Hl]. apply Forall_app. split; [apply WriteCompactSize_ok|by eapply forward_bytes; [apply _|]].
  - intros [l] s [Hc Hl]. cbn [vprevout] in *. rewrite <- app_assoc, read_write_CompactSize by (unfold MAX_SIZE; lia).
    cbn [mbind result_bind]. rewrite Z.gtb_ltb. destruct (Z.ltb_spec MAX_INPUTS_PER_BLOCK (Z.of_nat (length l))); [lia|].
    cbn [negb mbind result_bind]. rewrite Nat2Z.id. erewrite forward_elements; [done|apply _|done].
Qed.

Lemma block_undo_forward chunk : 0 < chunk <= 5000000 -> ForwardLaws (block_undo_codec chunk)
  (fun u => Forall (fun t => Forall coin_ok (vprevout t) /\ Z.of_nat (length (vprevout t)) <= MAX_INPUTS_PER_BLOCK) (vtxundo u)
            /\ Z.of_nat (length (vtxundo u)) <= MAX_SIZE).
Proof.
  intros Hc. split; cbn [Serialize Unserialize block_undo_codec vector_codec].
  - intros u [Hu _]. apply Forall_app. split; [apply WriteCompactSize_ok|by eapply forward_bytes; [apply _|]].
  - intros [l] s [Hu Hl]. cbn [vtxundo] in *. rewrite <- app_assoc, read_write_CompactSize by lia. cbn [mbind result_bind].
    rewrite read_chunks_spec; [|done|lia|done|].
    + rewrite Z.sub_0_r, Nat2Z.id. by erewrite forward_elements; [|apply _|].
    + rewrite Z.sub_0_r. pose proof (Z.mod_pos_bound (Z.of_nat (length l)) chunk ltac:(lia)).
      pose proof (Z.div_mod (Z.of_nat (length l)) chunk ltac:(lia)). nia.
Qed.

(** *** The index on disk *)

(** The positions that are not stored are zero. *)
Record disk_index_ok (i : CDiskBlockIndex) : Prop := {
  do_height : in_range 31 (di_nHeight i);
  do_status : in_range 32 (di_nStatus i);
  do_tx : in_range 32 (di_nTx i);
  do_file : in_range 31 (di_nFile i) /\
    (stored (di_nStatus i) BLOCK_HAVE_DATA || stored (di_nStatus i) BLOCK_HAVE_UNDO = false -> di_nFile i = 0);
  do_data : in_range 32 (di_nDataPos i) /\ (stored (di_nStatus i) BLOCK_HAVE_DATA = false -> di_nDataPos i = 0);
  do_undo : in_range 32 (di_nUndoPos i) /\ (stored (di_nStatus i) BLOCK_HAVE_UNDO = false -> di_nUndoPos i = 0);
  do_header : header_wf (di_header i);
}.

Lemma read_field c w n s : 8 <= w -> in_range 32 n -> in_range w n -> (c = false -> n = 0) ->
  read_field_if c w (field_if c n ++ s) = Ok (n, s).
Proof.
  intros Hw H32 Hn Hc. destruct c; cbn [read_field_if field_if app]; [by apply write_varint_read|by rewrite Hc].
Qed.

Lemma in_range_31 n : in_range 31 n -> in_range 32 n.
Proof. unfold in_range. pow_literals. lia. Qed.

Lemma disk_index_forward version : in_range 31 version -> ForwardLaws (disk_index_codec version) disk_index_ok.
Proof.
  intros Hv. assert (forall c n, in_range 32 n -> bytes_ok (field_if c n)) as Hf
    by (intros [] n Hn; [by apply write_varint_ok|done]).
  split; cbn [Serialize Unserialize disk_index_codec]; cbn zeta.
  - intros i [H1 H2 H3 [H4 _] [H5 _] [H6 _] H7]. rewrite !Forall_app.
    pose proof (in_range_31 _ H1). pose proof (in_range_31 _ H4). pose proof (in_range_31 _ Hv).
    split_and!; [by apply write_varint_ok..|by apply Hf|by apply Hf|by apply Hf|by apply serialize_ok].
  - intros [h st tx file dp up hd] s [H1 H2 H3 [H4 E4] [H5 E5] [H6 E6] H7]; cbn [di_nHeight di_nStatus di_nTx di_nFile
      di_nDataPos di_nUndoPos di_header] in *. rewrite <- !app_assoc.
    rewrite write_varint_read by (lia || done || by apply in_range_31). cbn [mbind result_bind].
    rewrite write_varint_read by (lia || done || by apply in_range_31). cbn [mbind result_bind].
    rewrite write_varint_read by (lia || done). cbn [mbind result_bind].
    rewrite write_varint_read by (lia || done). cbn [mbind result_bind].
    rewrite read_field by (lia || done || by apply in_range_31). cbn [mbind result_bind].
    rewrite read_field by (lia || done). cbn [mbind result_bind].
    rewrite read_field by (lia || done). cbn [mbind result_bind].
    rewrite unserialize_serialize by done. done.
Qed.

Lemma ignore_app k (b s : bytes) : in_range 32 (Z.of_nat (length b)) ->
  ignore k (Z.of_nat (length b)) (b ++ s) =
    if decide (k = data_stream /\ 2 ^ 31 <= Z.of_nat (length b)) then Err negative_size else Ok s.
Proof.
  unfold in_range. intros Hl. destruct k; cbn [ignore].
  - destruct (decide (2 ^ 31 <= Z.of_nat (length b))) as [H|H].
    + rewrite decide_True by done. assert (i32 (Z.of_nat (length b)) < 0) as Hneg.
      { unfold swrap. rewrite wrap_small by done. cbn zeta. change (2 ^ (32 - 1)) with (2 ^ 31).
        destruct (Z.ltb_spec (Z.of_nat (length b)) (2 ^ 31)); lia. }
      by rewrite (proj2 (Z.ltb_lt _ _) Hneg).
    + rewrite decide_False by tauto. rewrite (swrap_small 32) by (lia || (pow_literals; lia)).
      rewrite (proj2 (Z.ltb_ge _ _)) by lia. cbn [negb check mbind result_bind]. by rewrite read_app.
  - rewrite decide_False by naive_solver. by rewrite read_app.
Qed.

(** A script that is too long to be spent is not kept. *)
Lemma long_script_read k b s : MAX_SCRIPT_SIZE < Z.of_nat (length b) < 2 ^ 32 - 6 ->
  Unserialize (script_compressor k) (Serialize (script_compressor k) b ++ s) =
    if decide (k = data_stream /\ 2 ^ 31 <= Z.of_nat (length b)) then Err negative_size else Ok ([OP_RETURN], s).
Proof.
  intros Hl. cbn [Serialize Unserialize script_compressor]. destruct (Compress b) as [compr|] eqn:E.
  - exfalso. unfold MAX_SCRIPT_SIZE, Compress in *. destruct (IsToKeyID b) as [id|] eqn:E1.
    { apply IsToKeyID_spec in E1 as [-> Hi]. rewrite !length_app, Hi in Hl. cbn in Hl. lia. }
    destruct (IsToScriptID b) as [id|] eqn:E2.
    { apply IsToScriptID_spec in E2 as [-> Hi]. rewrite !length_app, Hi in Hl. cbn in Hl. lia. }
    destruct (IsToPubKey b) as [key|] eqn:E3; [|done].
    apply IsToPubKey_spec in E3 as [-> Hi]. rewrite !length_app, Hi in Hl. cbn in Hl. lia.
  - unfold nSpecialScripts, MAX_SCRIPT_SIZE in *.
    assert (in_range 32 (Z.of_nat (length b) + 6)) by (unfold in_range; pow_literals; lia).
    rewrite (wrap_small 32) by done. vput. destruct (Z.ltb_spec (Z.of_nat (length b) + 6) 6); [lia|].
    replace (Z.of_nat (length b) + 6 - 6) with (Z.of_nat (length b)) by ring.
    rewrite Z.gtb_ltb. destruct (Z.ltb_spec 10000 (Z.of_nat (length b))); [|lia]. rewrite ignore_app by (unfold in_range; lia).
    by destruct (decide _).
Qed.
End compress_facts.

Section properties.
Import serialize_facts transaction_facts block_facts compress_facts.

(** C28: What the coins database, the undo files and the index database hold
    is read back as it was written, whatever follows it: every amount below
    2^60, with no loss in [uint64_t]; every script that can be spent, in 21
    bytes for the two hash templates and in 33 for a public key; coins; the
    undo records of a block; the entry of the index, when the positions that
    its status says are not there are zero.  A script longer than
    [MAX_SCRIPT_SIZE], whose length with the six special sizes fits an unsigned
    int, is read back as [OP_RETURN], so that a coin no one can spend stays one,
    except that a [CDataStream], which coins are read from, throws for one of
    2^31 bytes or more. *)
Theorem compact_forms_roundtrip (chunk version : Z) :
  0 < chunk <= 5000000 -> in_range 31 version ->
  (forall n, 0 <= n < 2 ^ 60 -> in_range 64 (CompressAmount n) /\ DecompressAmount (CompressAmount n) = n) /\
  (forall k b s, short_script b -> Unserialize (script_compressor k) (Serialize (script_compressor k) b ++ s) = Ok (b, s)) /\
  (forall k b s, MAX_SCRIPT_SIZE < Z.of_nat (length b) < 2 ^ 32 - 6 ->
    Unserialize (script_compressor k) (Serialize (script_compressor k) b ++ s) =
      if decide (k = data_stream /\ 2 ^ 31 <= Z.of_nat (length b)) then Err negative_size else Ok ([OP_RETURN], s)) /\
  (forall k id, length id = 20%nat ->
    length (Serialize (script_compressor k) ([OP_DUP; OP_HASH160; 20] ++ id ++ [OP_EQUALVERIFY; OP_CHECKSIG])) = 21%nat /\
    length (Serialize (script_compressor k) ([OP_HASH160; 20] ++ id ++ [OP_EQUAL])) = 21%nat) /\
  (forall k key, length key = PUBLIC_KEY_SIZE ->
    length (Serialize (script_compressor k) ([Z.of_nat PUBLIC_KEY_SIZE] ++ key ++ [OP_CHECKSIG])) = 33%nat) /\
  (forall c s, coin_ok c -> Unserialize coin_codec (Serialize coin_codec c ++ s) = Ok (c, s)) /\
  (forall u s, Forall (fun t => Forall coin_ok (vprevout t) /\ Z.of_nat (length (vprevout t)) <= MAX_INPUTS_PER_BLOCK) (vtxundo u) ->
    Z.of_nat (length (vtxundo u)) <= MAX_SIZE ->
    Unserialize (block_undo_codec chunk) (Serialize (block_undo_codec chunk) u ++ s) = Ok (u, s)) /\
  (forall i s, disk_index_ok i ->
    Unserialize (disk_index_codec version) (Serialize (disk_index_codec version) i ++ s) = Ok (i, s)).
Proof.
  intros Hc Hv. pose proof (block_undo_forward chunk Hc). pose proof (disk_index_forward version Hv).
  split; [apply DecompressAmount_Compress|]. split; [intros k; apply script_forward|]. split; [apply long_script_read|].
  split; [|split]; [..|split; [apply coin_forward|split; [|apply forward_read]]].
  - intros k id Hl. do 20 (destruct id as [|? id]; [done|]). destruct id; [|done]. split; reflexivity.
  - intros k key Hl. do 32 (destruct key as [|? key]; [done|]). destruct key; [|done]. reflexivity.
  - intros u s H1 H2. by apply forward_read.
Qed.

(** A coin of 50 with a script of a public-key hash, as the only undo record
    of a block. *)
Definition compress_example_coin : Coin :=
  {| coin_out := {| nValue := 50 * COIN; scriptPubKey := [OP_DUP; OP_HASH160; 20] ++ replicate 20 7 ++ [OP_EQUALVERIFY; OP_CHECKSIG] |};
     fCoinBase := true; coin_nHeight := 120891 |}.

Lemma compact_forms_roundtrip_witness :
  CompressAmount (50 * COIN) = 50 /\
  Unserialize coin_codec (Serialize coin_codec compress_example_coin ++ [1]) = Ok (compress_example_coin, [1]) /\
  Unserialize (block_undo_codec 5) (Serialize (block_undo_codec 5) {| vtxundo := [{| vprevout := [compress_example_coin] |}] |} ++ [])
  = Ok ({| vtxundo := [{| vprevout := [compress_example_coin] |}] |}, []).
Proof.
  assert (coin_ok compress_example_coin) as Hc.
  { split; [split; [|split]|]; try decided; vm_compute; split; done || discriminate. }
  split; [vm_compute; reflexivity|].
  destruct (compact_forms_roundtrip 5 70015) as (_ & _ & _ & _ & _ & Hcoin & Hundo & _); [lia|decided|].
  split; [apply Hcoin, Hc|apply Hundo].
  - constructor; [|constructor]. split; [constructor; [exact Hc|constructor]|]. vm_compute. discriminate.
  - vm_compute. discriminate.
Defined.
End properties.
