(* ===== verification/BlockFiles.v ===== *)
(** * The block and undo files ([validation.cpp], [chain.h], [util.cpp])

    Blocks and undo data are appended to numbered files; [CBlockFileInfo] says
    how much of each is used.  The files are lists of bytes, with the calls of
    C and POSIX that the code makes (reading, writing behind the end, which
    leaves zeros, truncating, allocating); which calls work is up to the class
    [FilePlatform].  Locks and the log are left out. *)

From S2P Require Import Prelude Uint256 Hash Chain Params Pow Script Interpreter Serialize Transaction Coins TxVerify Block BlockCheck ChainState Undo Compress.

(** ** Positions and statistics *)

Inductive file_kind := BLK | REV.
#[export] Instance file_kind_eq_dec : EqDecision file_kind.
Proof. solve_decision. Defined.
#[export] Instance file_kind_countable : Countable file_kind.
Proof.
  refine (inj_countable' (fun k => match k with BLK => true | REV => false end)
    (fun b => match b with true => BLK | false => REV end) _). by intros [].
Defined.

Definition MAX_BLOCKFILE_SIZE : Z := 0x8000000.
Definition BLOCKFILE_CHUNK_SIZE : Z := 0x1000000.
Definition UNDOFILE_CHUNK_SIZE : Z := 0x100000.
Definition MIN_BLOCKS_TO_KEEP : Z := 288.
Definition nMinDiskSpace : Z := 52428800.

Record CBlockFileInfo := {
  info_nBlocks : Z; info_nSize : Z; info_nUndoSize : Z;
  info_nHeightFirst : Z; info_nHeightLast : Z; info_nTimeFirst : Z; info_nTimeLast : Z;
}.

#[export] Instance file_info_eq_dec : EqDecision CBlockFileInfo.
Proof. solve_decision. Defined.

Definition info_SetNull : CBlockFileInfo := {|
  info_nBlocks := 0; info_nSize := 0; info_nUndoSize := 0; info_nHeightFirst := 0; info_nHeightLast := 0;
  info_nTimeFirst := 0; info_nTimeLast := 0 |}.

(** A height is an [unsigned int] here, a time a [uint64_t]. *)
Definition AddBlock (nHeightIn nTimeIn : Z) (i : CBlockFileInfo) : CBlockFileInfo := {|
  info_nBlocks := u32 (info_nBlocks i + 1);
  info_nSize := info_nSize i; info_nUndoSize := info_nUndoSize i;
  info_nHeightFirst := if (info_nBlocks i =? 0) || (info_nHeightFirst i >? nHeightIn) then nHeightIn else info_nHeightFirst i;
  info_nHeightLast := if nHeightIn >? info_nHeightLast i then nHeightIn else info_nHeightLast i;
  info_nTimeFirst := if (info_nBlocks i =? 0) || (info_nTimeFirst i >? nTimeIn) then nTimeIn else info_nTimeFirst i;
  info_nTimeLast := if nTimeIn >? info_nTimeLast i then nTimeIn else info_nTimeLast i |}.

Definition set_info_nSize (n : Z) (i : CBlockFileInfo) : CBlockFileInfo := {|
  info_nBlocks := info_nBlocks i; info_nSize := n; info_nUndoSize := info_nUndoSize i;
  info_nHeightFirst := info_nHeightFirst i; info_nHeightLast := info_nHeightLast i;
  info_nTimeFirst := info_nTimeFirst i; info_nTimeLast := info_nTimeLast i |}.
Definition set_info_nUndoSize (n : Z) (i : CBlockFileInfo) : CBlockFileInfo := {|
  info_nBlocks := info_nBlocks i; info_nSize := info_nSize i; info_nUndoSize := n;
  info_nHeightFirst := info_nHeightFirst i; info_nHeightLast := info_nHeightLast i;
  info_nTimeFirst := info_nTimeFirst i; info_nTimeLast := info_nTimeLast i |}.

Definition file_info_codec : codec CBlockFileInfo := {|
  Serialize i :=
    write_varint 32 (info_nBlocks i) ++ write_varint 32 (info_nSize i) ++ write_varint 32 (info_nUndoSize i) ++
    write_varint 32 (info_nHeightFirst i) ++ write_varint 32 (info_nHeightLast i) ++
    write_varint 64 (info_nTimeFirst i) ++ write_varint 64 (info_nTimeLast i);
  Unserialize s :=
    '(blocks, s) ← ReadVarInt 32 s; '(size, s) ← ReadVarInt 32 s; '(undo, s) ← ReadVarInt 32 s;
    '(hfirst, s) ← ReadVarInt 32 s; '(hlast, s) ← ReadVarInt 32 s;
    '(tfirst, s) ← ReadVarInt 64 s; '(tlast, s) ← ReadVarInt 64 s;
    Ok ({| info_nBlocks := blocks; info_nSize := size; info_nUndoSize := undo; info_nHeightFirst := hfirst;
           info_nHeightLast := hlast; info_nTimeFirst := tfirst; info_nTimeLast := tlast |}, s) |}.

Definition pos_SetNull : CDiskBlockPos := {| pos_nFile := -1; pos_nPos := 0 |}.
Definition pos_IsNull (p : CDiskBlockPos) : bool := pos_nFile p =? -1.

(** An [int] and an [unsigned int]; what is written is never null. *)
Definition pos_codec : codec CDiskBlockPos := {|
  Serialize p := write_varint 31 (pos_nFile p) ++ write_varint 32 (pos_nPos p);
  Unserialize s :=
    '(f, s) ← ReadVarInt 31 s; '(p, s) ← ReadVarInt 32 s;
    Ok ({| pos_nFile := f; pos_nPos := p |}, s) |}.

(** [CBlockIndex::GetBlockPos] and [GetUndoPos]. *)
Definition GetBlockPos (b : CBlockIndex) : CDiskBlockPos :=
  if stored (nStatus b) BLOCK_HAVE_DATA then {| pos_nFile := nFile b; pos_nPos := nDataPos b |} else pos_SetNull.
Definition GetUndoPos (b : CBlockIndex) : CDiskBlockPos :=
  if stored (nStatus b) BLOCK_HAVE_UNDO then {| pos_nFile := nFile b; pos_nPos := nUndoPos b |} else pos_SetNull.

(** ** Files *)

Abbreviation file_key := (file_kind * Z)%type.
Abbreviation file_store := (gmap file_key bytes).

(** What the operating system does when it is called: whether [fopen] with
    [rb] or [rb+] works on a file that exists, whether it does with [wb+],
    whether [fseek] and [ftell] do, how many of the bytes given [fwrite]
    writes, whether [posix_fallocate] and [ftruncate] work, and the space that
    is left. *)
Class FilePlatform := {
  fopen_existing : file_key -> bool;
  fopen_create : file_key -> bool;
  fseek_works : bool;
  ftell_works : bool;
  fwrite_count : bytes -> nat;
  allocate_works : bool;
  ftruncate_works : bool;
  space_available : Z;
}.

Definition write_at (f : bytes) (off : nat) (d : bytes) : bytes :=
  take off (resize (off `max` length f) 0 f) ++ d ++ drop (off + length d) f.

(** The files, their statistics and the flags that these functions set. *)
Record block_files := {
  vinfoBlockFile : list CBlockFileInfo;
  nLastBlockFile : Z;
  setDirtyFileInfo : gset Z;
  fCheckForPruning : bool;
  fRequestShutdown : bool;
  files : file_store;
}.

(** [-prune]. *)
Record prune_settings := { fPruneMode : bool; nPruneTarget : Z }.

Definition set_infos (v : list CBlockFileInfo) (last : Z) (dirty : gset Z) (st : block_files) : block_files := {|
  vinfoBlockFile := v; nLastBlockFile := last; setDirtyFileInfo := dirty;
  fCheckForPruning := fCheckForPruning st; fRequestShutdown := fRequestShutdown st; files := files st |}.
Definition set_flags (prune shutdown : bool) (st : block_files) : block_files := {|
  vinfoBlockFile := vinfoBlockFile st; nLastBlockFile := nLastBlockFile st; setDirtyFileInfo := setDirtyFileInfo st;
  fCheckForPruning := prune; fRequestShutdown := shutdown; files := files st |}.
Definition set_files (fs : file_store) (st : block_files) : block_files := {|
  vinfoBlockFile := vinfoBlockFile st; nLastBlockFile := nLastBlockFile st; setDirtyFileInfo := setDirtyFileInfo st;
  fCheckForPruning := fCheckForPruning st; fRequestShutdown := fRequestShutdown st; files := fs |}.

(** [AbortNode]: the node is asked to stop. *)
Definition AbortNode (st : block_files) : block_files := set_flags (fCheckForPruning st) true st.

Definition info_at (st : block_files) (f : Z) : option CBlockFileInfo :=
  if f <? 0 then None else vinfoBlockFile st !! Z.to_nat f.

Section files.
Context `{FP : FilePlatform}.

(** [OpenDiskFile]; a stream is a file and a position in it.  When [rb+]
    fails, whatever the reason, the file is opened with [wb+], which empties
    it. *)
Definition OpenDiskFile (pos : CDiskBlockPos) (k : file_kind) (fReadOnly : bool) (fs : file_store)
    : file_store * option (file_key * nat) :=
  if pos_IsNull pos then (fs, None)
  else
    let key := (k, pos_nFile pos) in
    let '(fs, opened) :=
      if bool_decide (is_Some (fs !! key)) && fopen_existing key then (fs, true)
      else if negb fReadOnly && fopen_create key then (<[key := []]> fs, true)
      else (fs, false) in
    if opened && ((pos_nPos pos =? 0) || fseek_works) then (fs, Some (key, Z.to_nat (pos_nPos pos))) else (fs, None).

(** [fwrite] on a stream, and whether all was written. *)
Definition fwrite (stream : file_key * nat) (d : bytes) (fs : file_store) : file_store * bool :=
  let '(key, off) := stream in
  (alter (fun f => write_at f off (take (fwrite_count d) d)) key fs, (length d <=? fwrite_count d)%nat).

(** [posix_fallocate]: at least so long, and [ftruncate]: exactly. *)
Definition AllocateFileRange (key : file_key) (offset len : Z) (fs : file_store) : file_store :=
  if allocate_works then alter (fun f => resize (Z.to_nat (offset + len) `max` length f) 0 f) key fs else fs.
Definition TruncateFile (key : file_key) (len : Z) (fs : file_store) : file_store :=
  if ftruncate_works then alter (resize (Z.to_nat len) 0) key fs else fs.

Definition CheckDiskSpace (nAdditionalBytes : Z) (st : block_files) : block_files * bool :=
  if space_available <? u64 (nMinDiskSpace + nAdditionalBytes) then (AbortNode st, false) else (st, true).

(** [FlushBlockFile]: the file that was written last, and its undo file. *)
Definition finish_file (k : file_kind) (fFinalize : bool) (len : Z) (last : Z) (fs : file_store) : file_store :=
  match OpenDiskFile {| pos_nFile := last; pos_nPos := 0 |} k false fs with
  | (fs, Some (key, _)) => if fFinalize then TruncateFile key len fs else fs
  | (fs, None) => fs
  end.

Definition FlushBlockFile (fFinalize : bool) (st : block_files) : option block_files :=
  i ← (if fFinalize then info_at st (nLastBlockFile st) else Some info_SetNull);
  let fs := finish_file BLK fFinalize (info_nSize i) (nLastBlockFile st) (files st) in
  Some (set_files (finish_file REV fFinalize (info_nUndoSize i) (nLastBlockFile st) fs) st).

(** ** Finding a place *)

Definition resize_infos (n : Z) (v : list CBlockFileInfo) : list CBlockFileInfo :=
  if Z.of_nat (length v) <=? n then resize (Z.to_nat (n + 1)) info_SetNull v else v.

Fixpoint find_file (fuel : nat) (v : list CBlockFileInfo) (nFile nAddSize : Z) : option (list CBlockFileInfo * Z) :=
  i ← v !! Z.to_nat nFile;
  if u32 (info_nSize i + nAddSize) >=? MAX_BLOCKFILE_SIZE then
    match fuel with
    | O => None
    | S fuel => let nFile := u32 (nFile + 1) in find_file fuel (resize_infos nFile v) nFile nAddSize
    end
  else Some (v, nFile).

Definition chunks (size n : Z) : Z := u32 (n + size - 1) / size.

(** More chunks than before are allocated in advance, if there is space. *)
Definition preallocate (cfg : prune_settings) (k : file_kind) (chunk : Z) (pos : CDiskBlockPos) (newsize : Z)
    (st : block_files) : block_files * bool :=
  let nOldChunks := chunks chunk (pos_nPos pos) in
  let nNewChunks := chunks chunk newsize in
  if nNewChunks >? nOldChunks then
    let st := if fPruneMode cfg then set_flags true (fRequestShutdown st) st else st in
    let len := u32 (u32 (nNewChunks * chunk) - pos_nPos pos) in
    let '(st, space) := CheckDiskSpace len st in
    if (space : bool) then
      match OpenDiskFile pos k false (files st) with
      | (fs, Some (key, _)) => (set_files (AllocateFileRange key (pos_nPos pos) len fs) st, true)
      | (fs, None) => (set_files fs st, true)
      end
    else (st, false)
  else (st, true).

(** The file that was written last is closed when another one is used. *)
Definition enter_file (nFile : Z) (fKnown : bool) (st : block_files) : option block_files :=
  if negb (i32 nFile =? nLastBlockFile st) then
    st ← FlushBlockFile (negb fKnown) st;
    Some (set_infos (vinfoBlockFile st) (i32 nFile) (setDirtyFileInfo st) st)
  else Some st.

(** [FindBlockPos] changes its argument [pos] and returns whether it found a
    place.  [None] is a file that is not in [vinfoBlockFile]. *)
Definition FindBlockPos (cfg : prune_settings) (pos : CDiskBlockPos) (nAddSize nHeight nTime : Z) (fKnown : bool)
    (st : block_files) : option (block_files * CDiskBlockPos * bool) :=
  let nFile := if fKnown then u32 (pos_nFile pos) else u32 (nLastBlockFile st) in
  let v := resize_infos nFile (vinfoBlockFile st) in
  '(v, nFile, pos) ←
    (if negb fKnown then
       '(v, nFile) ← find_file (S (length v)) v nFile nAddSize;
       i ← v !! Z.to_nat nFile;
       Some (v, nFile, {| pos_nFile := nFile; pos_nPos := info_nSize i |})
     else Some (v, nFile, pos));
  let st := set_infos v (nLastBlockFile st) (setDirtyFileInfo st) st in
  st ← enter_file nFile fKnown st;
  i ← vinfoBlockFile st !! Z.to_nat nFile;
  let i := AddBlock nHeight nTime i in
  let i := if fKnown then set_info_nSize (Z.max (u32 (pos_nPos pos + nAddSize)) (info_nSize i)) i
           else set_info_nSize (u32 (info_nSize i + nAddSize)) i in
  let st := set_infos (<[Z.to_nat nFile := i]> (vinfoBlockFile st)) (nLastBlockFile st) (setDirtyFileInfo st) st in
  let '(st, space) := if negb fKnown then preallocate cfg BLK BLOCKFILE_CHUNK_SIZE pos (info_nSize i) st else (st, true) in
  if (space : bool) then
    Some (set_infos (vinfoBlockFile st) (nLastBlockFile st) ({[nFile]} ∪ setDirtyFileInfo st) st, pos, true)
  else Some (st, pos, false).

Definition FindUndoPos (cfg : prune_settings) (nFile nAddSize : Z) (st : block_files)
    : option (block_files * CDiskBlockPos * bool) :=
  i ← info_at st nFile;
  let pos := {| pos_nFile := nFile; pos_nPos := info_nUndoSize i |} in
  let nNewSize := u32 (info_nUndoSize i + nAddSize) in
  let st := set_infos (<[Z.to_nat nFile := set_info_nUndoSize nNewSize i]> (vinfoBlockFile st)) (nLastBlockFile st)
              ({[nFile]} ∪ setDirtyFileInfo st) st in
  let '(st, space) := preallocate cfg REV UNDOFILE_CHUNK_SIZE pos nNewSize st in
  Some (st, pos, space).

(** ** Writing and reading *)

(** [io_exception] is a [std::ios_base::failure] that the function throws. *)
Inductive disk_error :=
  | OpenFailed
  | TellFailed
  | io_exception
  | ReadFailed (e : io_error)
  | BadSolution
  | BadProofOfWork
  | HashMismatch
  | NoUndoData
  | ChecksumMismatch.
#[export] Instance disk_error_eq_dec : EqDecision disk_error.
Proof. solve_decision. Defined.

Context `{Hs : HashFunctions} `{L : Layout} `{Eh : Equihash}.
(** [CLIENT_VERSION], and the chunks of the readers of vectors. *)
Context (version block_chunk undo_chunk : Z).

Definition block_bytes (b : CBlock) : bytes := Serialize (block_codec block_chunk version) b.
Definition undo_bytes (u : CBlockUndo) : bytes := Serialize (block_undo_codec undo_chunk) u.

(** The header of a record, then [tail] at the place that is returned. *)
Definition append_record (k : file_kind) (messageStart : bytes) (pos : CDiskBlockPos) (nSize : Z) (data : bytes)
    (fs : file_store) : file_store * result disk_error CDiskBlockPos :=
  match OpenDiskFile pos k false fs with
  | (fs, None) => (fs, Err OpenFailed)
  | (fs, Some (key, off)) =>
      let '(fs, ok) := fwrite (key, off) (messageStart ++ ser_writedata32 (u32 nSize)) fs in
      if negb ok then (fs, Err io_exception)
      else if negb ftell_works then (fs, Err TellFailed)
      else
        let fileOutPos := (off + length messageStart + 4)%nat in
        let '(fs, ok) := fwrite (key, fileOutPos) data fs in
        if negb ok then (fs, Err io_exception)
        else (fs, Ok {| pos_nFile := pos_nFile pos; pos_nPos := u32 (Z.of_nat fileOutPos) |})
  end.

Definition WriteBlockToDisk (block : CBlock) (pos : CDiskBlockPos) (messageStart : bytes) (fs : file_store) :=
  append_record BLK messageStart pos (Z.of_nat (length (block_bytes block))) (block_bytes block) fs.

(** The undo data are followed by a hash of them and of [hashBlock]. *)
Definition undo_checksum (hashBlock : uint256) (data : bytes) : uint256 := CHash256 (hashBlock ++ data).

Definition UndoWriteToDisk (blockundo : CBlockUndo) (pos : CDiskBlockPos) (hashBlock : uint256) (messageStart : bytes)
    (fs : file_store) :=
  append_record REV messageStart pos (Z.of_nat (length (undo_bytes blockundo)))
    (undo_bytes blockundo ++ undo_checksum hashBlock (undo_bytes blockundo)) fs.

(** A file opened at a position to be read: what follows there. *)
Definition open_to_read (pos : CDiskBlockPos) (k : file_kind) (fs : file_store) : result disk_error bytes :=
  match OpenDiskFile pos k true fs with
  | (fs, Some (key, off)) => match fs !! key with Some f => Ok (drop off f) | None => Err OpenFailed end
  | (_, None) => Err OpenFailed
  end.

Definition ReadBlockFromDisk_pos (params : Params) (pos : CDiskBlockPos) (fs : file_store) : result disk_error CBlock :=
  s ← open_to_read pos BLK fs;
  match Unserialize (block_codec block_chunk version) s with
  | Err e => Err (ReadFailed e)
  | Ok (block, _) =>
      check (CheckEquihashSolution block) BadSolution;;
      check (CheckProofOfWork (header_GetHash block) (hdr_nBits block) params) BadProofOfWork;;
      Ok block
  end.

Definition ReadBlockFromDisk (params : Params) (b : CBlockIndex) (fs : file_store) : result disk_error CBlock :=
  ReadBlockFromDisk_pos params (GetBlockPos b) fs ≫= fun block : CBlock =>
  check (bool_decide (header_GetHash block = phashBlock b)) HashMismatch;;
  Ok block.

(** [CHashVerifier] hashes the bytes that were consumed. *)
Definition UndoReadFromDisk (hashPrev : uint256) (b : CBlockIndex) (fs : file_store) : result disk_error CBlockUndo :=
  if pos_IsNull (GetUndoPos b) then Err NoUndoData
  else
    s ← open_to_read (GetUndoPos b) REV fs;
    match Unserialize (block_undo_codec undo_chunk) s with
    | Err e => Err (ReadFailed e)
    | Ok (blockundo, rest) =>
        match read 32 rest with
        | Err e => Err (ReadFailed e)
        | Ok (hashChecksum, _) =>
            check (bool_decide (hashChecksum = undo_checksum hashPrev (take (length s - length rest) s))) ChecksumMismatch;;
            Ok blockundo
        end
    end.

(** [dbp] is where the block is already; an exception goes through. *)
Definition SaveBlockToDisk (cfg : prune_settings) (block : CBlock) (nHeight : Z) (messageStart : bytes)
    (dbp : option CDiskBlockPos) (st : block_files) : option (block_files * result disk_error CDiskBlockPos) :=
  let nBlockSize := u32 (Z.of_nat (length (block_bytes block))) in
  let blockPos := default pos_SetNull dbp in
  let known := bool_decide (is_Some dbp) in
  '(st, blockPos, found) ←
    FindBlockPos cfg blockPos (u32 (nBlockSize + 8)) (u32 nHeight) (hdr_nTime block) known st;
  if negb (found : bool) then Some (st, Ok pos_SetNull)
  else if known then Some (st, Ok blockPos)
  else
    let '(fs, r) := WriteBlockToDisk block blockPos messageStart (files st) in
    let st := set_files fs st in
    Some (match r with
          | Ok pos => (st, Ok pos)
          | Err io_exception => (st, Err io_exception)
          | Err _ => (AbortNode st, Ok pos_SetNull)
          end).

(** The part of [WriteUndoDataForBlock] that writes: the position, unless it
    fails or throws. *)
Definition SaveUndoToDisk (cfg : prune_settings) (blockundo : CBlockUndo) (nFile : Z) (hashPrev : uint256)
    (messageStart : bytes) (st : block_files) : option (block_files * result disk_error (option CDiskBlockPos)) :=
  '(st, pos, found) ← FindUndoPos cfg nFile (u32 (Z.of_nat (length (undo_bytes blockundo)) + 40)) st;
  if negb (found : bool) then Some (st, Ok None)
  else
    let '(fs, r) := UndoWriteToDisk blockundo pos hashPrev messageStart (files st) in
    let st := set_files fs st in
    Some (match r with
          | Ok pos => (st, Ok (Some pos))
          | Err io_exception => (st, Err io_exception)
          | Err _ => (AbortNode st, Ok None)
          end).
End files.

(** ** Pruning *)

Section pruning.

(** [CalculateCurrentUsage]; each sum of two is computed in 32 bits. *)
Definition CalculateCurrentUsage (st : block_files) : Z :=
  foldl (fun retval file => u64 (retval + u32 (info_nSize file + info_nUndoSize file))) 0 (vinfoBlockFile st).

Definition forget_data (b : CBlockIndex) : CBlockIndex :=
  set_data (nTx b) (nChainTx b) 0 0 0
    (Z.land (Z.land (nStatus b) (Z.lnot BLOCK_HAVE_DATA)) (Z.lnot BLOCK_HAVE_UNDO)) b.

(** What [PruneOneBlockFile] does with an entry of [mapBlockIndex]. *)
Definition prune_entry (fileNumber : Z) (st : CChainState) (pindex : ptr) : option CChainState :=
  b ← block_at st pindex;
  Some (if nFile b =? fileNumber then
          let st := dirty pindex (update pindex forget_data st) in
          set_unlinked (filter (fun e => e <> (pprev b, pindex)) (mapBlocksUnlinked st)) st
        else st).

Fixpoint prune_entries (fileNumber : Z) (l : list ptr) (st : CChainState) : option CChainState :=
  match l with
  | [] => Some st
  | p :: l => st ← prune_entry fileNumber st p; prune_entries fileNumber l st
  end.

Definition PruneOneBlockFile (fileNumber : Z) (st : CChainState) (bf : block_files) : option (CChainState * block_files) :=
  st ← prune_entries fileNumber (map snd (map_to_list (mapBlockIndex (tree st)))) st;
  _ ← info_at bf fileNumber;
  Some (st, set_infos (<[Z.to_nat fileNumber := info_SetNull]> (vinfoBlockFile bf)) (nLastBlockFile bf)
              ({[fileNumber]} ∪ setDirtyFileInfo bf) bf).

(** [fs::remove] of both files; one that is not there is no error. *)
Definition UnlinkPrunedFiles (setFilesToPrune : list Z) (bf : block_files) : block_files :=
  set_files (foldl (fun fs f => delete (REV, f) (delete (BLK, f) fs)) (files bf) setFilesToPrune) bf.

(** One turn of the loop of [FindFilesToPruneManual]. *)
Definition prune_manual_step (nLastBlockWeCanPrune : Z) (s : CChainState * block_files * list Z) (fileNumber : Z)
    : option (CChainState * block_files * list Z) :=
  let '(st, bf, pruned) := s in
  i ← info_at bf fileNumber;
  if (info_nSize i =? 0) || (info_nHeightLast i >? nLastBlockWeCanPrune) then Some (st, bf, pruned)
  else '(st, bf) ← PruneOneBlockFile fileNumber st bf; Some (st, bf, pruned ++ [fileNumber]).

(** The tip's height is an [int], [MIN_BLOCKS_TO_KEEP] is unsigned. *)
Definition FindFilesToPruneManual (cfg : prune_settings) (nManualPruneHeight : Z) (st : CChainState) (bf : block_files)
    : option (CChainState * block_files * list Z) :=
  if negb (fPruneMode cfg && (nManualPruneHeight >? 0)) then None
  else
    match Tip (chainActive st) with
    | None => Some (st, bf, [])
    | Some t =>
        b ← block_at st t;
        let nLastBlockWeCanPrune := Z.min (u32 nManualPruneHeight) (u32 (u32 (nHeight b) - MIN_BLOCKS_TO_KEEP)) in
        foldl (fun s f => s ≫= fun s => prune_manual_step nLastBlockWeCanPrune s f)
          (Some (st, bf, [])) (seqZ 0 (nLastBlockFile bf))
    end.

(** [FindFilesToPrune] stops at the first file at which enough is pruned. *)
Fixpoint prune_loop (nPruneTarget nBuffer nLastBlockWeCanPrune : Z) (l : list Z) (nCurrentUsage : Z)
    (st : CChainState) (bf : block_files) (pruned : list Z) : option (CChainState * block_files * list Z * Z) :=
  match l with
  | [] => Some (st, bf, pruned, nCurrentUsage)
  | fileNumber :: l =>
      i ← info_at bf fileNumber;
      let nBytesToPrune := u32 (info_nSize i + info_nUndoSize i) in
      let go := prune_loop nPruneTarget nBuffer nLastBlockWeCanPrune l in
      if info_nSize i =? 0 then go nCurrentUsage st bf pruned
      else if u64 (nCurrentUsage + nBuffer) <? nPruneTarget then Some (st, bf, pruned, nCurrentUsage)
      else if info_nHeightLast i >? nLastBlockWeCanPrune then go nCurrentUsage st bf pruned
      else
        '(st, bf) ← PruneOneBlockFile fileNumber st bf;
        go (u64 (nCurrentUsage - nBytesToPrune)) st bf (pruned ++ [fileNumber])
  end.

Definition FindFilesToPrune (cfg : prune_settings) (nPruneAfterHeight : Z) (st : CChainState) (bf : block_files)
    : option (CChainState * block_files * list Z) :=
  match Tip (chainActive st) with
  | None => Some (st, bf, [])
  | Some t =>
      if nPruneTarget cfg =? 0 then Some (st, bf, [])
      else
        b ← block_at st t;
        if u64 (nHeight b) <=? nPruneAfterHeight then Some (st, bf, [])
        else
          let nLastBlockWeCanPrune := u32 (u32 (nHeight b) - MIN_BLOCKS_TO_KEEP) in
          let nCurrentUsage := CalculateCurrentUsage bf in
          let nBuffer := BLOCKFILE_CHUNK_SIZE + UNDOFILE_CHUNK_SIZE in
          if u64 (nCurrentUsage + nBuffer) >=? nPruneTarget cfg then
            '(r, _) ← prune_loop (nPruneTarget cfg) nBuffer nLastBlockWeCanPrune (seqZ 0 (nLastBlockFile bf))
                        nCurrentUsage st bf [];
            Some r
          else Some (st, bf, [])
  end.
End pruning.

(** ** Facts *)

(** A file that cannot be opened is not emptied either. *)
Class FilePlatformLaws `(FilePlatform) : Prop := {
  open_safe : forall key, fopen_existing key = false -> fopen_create key = false;
}.

Module block_files_facts.
Import serialize_facts transaction_facts block_facts compress_facts.

(** *** Bytes of a file *)

Definition holds (f : bytes) (start : nat) (d : bytes) : Prop :=
  forall i x, d !! i = Some x -> f !! (start + i)%nat = Some x.

Lemma holds_drop f start d : holds f start d -> exists rest, drop start f = d ++ rest.
Proof.
  intros H. exists (drop (start + length d) f). apply list_eq. intros i. rewrite lookup_drop.
  destruct (d !! i) as [x|] eqn:E.
  - rewrite lookup_app_l by (by eapply lookup_lt_Some). rewrite E. by apply H.
  - apply lookup_ge_None in E. rewrite lookup_app_r, lookup_drop by done. f_equal. lia.
Qed.

Lemma holds_take f start d n : holds f start d -> holds f start (take n d).
Proof. intros H i x Hi. apply H. apply lookup_take_Some in Hi. tauto. Qed.

Lemma holds_app f start a b : holds f start a -> holds f (start + length a) b -> holds f start (a ++ b).
Proof.
  intros Ha Hb i x H. apply lookup_app_Some in H as [H|[Hl H]]; [by apply Ha|].
  apply Hb in H. by replace (start + length a + (i - length a))%nat with (start + i)%nat in H by lia.
Qed.

Lemma write_at_old f off d j x : f !! j = Some x -> (j < off)%nat \/ (off + length d <= j)%nat ->
  write_at f off d !! j = Some x.
Proof.
  intros Hj Hd. pose proof (lookup_lt_Some _ _ _ Hj) as Hl. unfold write_at.
  assert (length (take off (resize (off `max` length f) 0 f)) = off) as Hlen by (rewrite length_take, length_resize; lia).
  destruct Hd as [Hd|Hd].
  - rewrite lookup_app_l by lia. rewrite lookup_take_lt by lia. rewrite lookup_resize by lia. done.
  - rewrite lookup_app_r, lookup_app_r by lia. rewrite Hlen, lookup_drop. rewrite <- Hj. f_equal. lia.
Qed.

Lemma write_at_new f off d : holds (write_at f off d) off d.
Proof.
  intros i x Hi. unfold write_at.
  assert (length (take off (resize (off `max` length f) 0 f)) = off) as Hlen by (rewrite length_take, length_resize; lia).
  rewrite lookup_app_r by lia. rewrite lookup_app_l by (rewrite Hlen; apply lookup_lt_Some in Hi; lia).
  rewrite <- Hi. f_equal. lia.
Qed.

(** *** Stores that keep what is below a limit *)

Abbreviation limits := (file_key -> nat).

Definition preserves (lim : limits) (fs fs' : file_store) : Prop :=
  forall key f, fs !! key = Some f -> exists f', fs' !! key = Some f' /\
    forall j x, (j < lim key)%nat -> f !! j = Some x -> f' !! j = Some x.

#[export] Instance preserves_preorder lim : PreOrder (preserves lim).
Proof.
  split; [intros fs key f H; by exists f|].
  intros a b c Hab Hbc key f Hf. destruct (Hab _ _ Hf) as (g & Hg & H1). destruct (Hbc _ _ Hg) as (h & Hh & H2).
  exists h. split; [done|]. intros j x Hj Hx. apply H2; [done|]. by apply H1.
Qed.

Lemma preserves_weaken (lim lim' : limits) fs fs' : (forall key, (lim key <= lim' key)%nat) -> preserves lim' fs fs' -> preserves lim fs fs'.
Proof.
  intros Hl H key f Hf. destruct (H _ _ Hf) as (g & Hg & H1). exists g. split; [done|].
  intros j x Hj Hx. apply H1; [|done]. specialize (Hl key). lia.
Qed.

(** One file changes. *)
Lemma preserves_alter lim key g fs :
  (forall f j x, (j < lim key)%nat -> f !! j = Some x -> g f !! j = Some x) -> preserves lim fs (alter g key fs).
Proof.
  intros H k f Hf. destruct (decide (k = key)) as [->|Hk].
  - exists (g f). split; [by rewrite lookup_alter_eq, Hf|]. intros. by apply H.
  - exists f. split; [by rewrite lookup_alter_ne|done].
Qed.

Section platform.
Context `{FP : FilePlatform} `{FL : !FilePlatformLaws FP}.

Lemma OpenDiskFile_spec lim pos k ro fs : preserves lim fs (OpenDiskFile pos k ro fs).1 /\
  (forall key off, (OpenDiskFile pos k ro fs).2 = Some (key, off) ->
    key = (k, pos_nFile pos) /\ off = Z.to_nat (pos_nPos pos) /\ is_Some ((OpenDiskFile pos k ro fs).1 !! key)).
Proof.
  unfold OpenDiskFile. destruct (pos_IsNull pos); [by split|]. set (key := (k, pos_nFile pos)).
  destruct (bool_decide (is_Some (fs !! key)) && fopen_existing key) eqn:E1.
  - apply andb_prop in E1 as [E1 _]. apply bool_decide_eq_true in E1.
    destruct (true && _); cbn; (split; [done|]); intros ?? [=]; by subst.
  - destruct (negb ro && fopen_create key) eqn:E2.
    + assert (preserves lim fs (<[key:=[]]> fs)) as Hp.
      { apply andb_prop in E2 as [_ E2]. intros q f Hf. destruct (decide (q = key)) as [->|Hq].
        - rewrite bool_decide_true in E1 by eauto. cbn in E1. apply open_safe in E1. congruence.
        - exists f. by rewrite lookup_insert_ne by done. }
      destruct (true && _); cbn; (split; [done|]); intros ?? [=]. subst. split_and!; [done..|]. by rewrite lookup_insert_eq.
    + destruct (false && _) eqn:E3; [discriminate E3|]. by split.
Qed.

Lemma fwrite_spec (lim : limits) key off d fs : (lim key <= off)%nat -> preserves lim fs (fwrite (key, off) d fs).1 /\
  (is_Some (fs !! key) -> is_Some ((fwrite (key, off) d fs).1 !! key)) /\
  ((fwrite (key, off) d fs).2 = true -> is_Some (fs !! key) ->
     exists f, (fwrite (key, off) d fs).1 !! key = Some f /\ holds f off d).
Proof.
  intros Hl. unfold fwrite. cbn [fst snd]. split_and!.
  - apply preserves_alter. intros f j x Hj Hx. apply write_at_old; [done|lia].
  - intros [f Hf]. rewrite lookup_alter_eq, Hf. by eexists.
  - intros Hn [f Hf]. apply Nat.leb_le in Hn. rewrite lookup_alter_eq, Hf. eexists. split; [done|].
    rewrite take_ge by done. apply write_at_new.
Qed.

Lemma allocate_spec lim key off len fs : preserves lim fs (AllocateFileRange key off len fs).
Proof.
  unfold AllocateFileRange. destruct allocate_works; [|done]. apply preserves_alter. intros f j x Hj Hx.
  pose proof (lookup_lt_Some _ _ _ Hx). by rewrite lookup_resize by lia.
Qed.

Lemma truncate_spec (lim : limits) key len fs : (lim key <= Z.to_nat len)%nat -> preserves lim fs (TruncateFile key len fs).
Proof.
  intros Hl. unfold TruncateFile. destruct ftruncate_works; [|done]. apply preserves_alter. intros f j x Hj Hx.
  pose proof (lookup_lt_Some _ _ _ Hx). by rewrite lookup_resize by lia.
Qed.

Lemma finish_spec (lim : limits) k fin len last fs : (fin = true -> lim (k, last) <= Z.to_nat len)%nat -> 
  preserves lim fs (finish_file k fin len last fs).
Proof.
  intros Hl. unfold finish_file. set (pos := {| pos_nFile := last; pos_nPos := 0 |}).
  destruct (OpenDiskFile_spec lim pos k false fs) as [Hp Hk]. destruct (OpenDiskFile pos k false fs) as [fs' [[key off]|]]; [|done].
  cbn [fst snd] in *. destruct (Hk key off eq_refl) as (-> & _). destruct fin; [|done]. etrans; [exact Hp|].
  apply truncate_spec. by apply Hl.
Qed.

(** A record is there when it could be written, and the rest is kept. *)
Lemma append_record_spec (lim : limits) k ms pos nSize data fs : (lim (k, pos_nFile pos) <= Z.to_nat (pos_nPos pos))%nat ->
  let r := append_record k ms pos nSize data fs in
  preserves lim fs r.1 /\
  forall p, r.2 = Ok p ->
    pos_nFile p = pos_nFile pos /\
    exists off, off = (Z.to_nat (pos_nPos pos) + length ms + 4)%nat /\ pos_nPos p = u32 (Z.of_nat off) /\
    exists f, r.1 !! (k, pos_nFile pos) = Some f /\ holds f off data.
Proof.
  intros Hl. cbn zeta. unfold append_record.
  destruct (OpenDiskFile_spec lim pos k false fs) as [Hp Hk].
  destruct (OpenDiskFile pos k false fs) as [fs1 [[key off]|]]; cbn [fst snd] in *; [|by split].
  destruct (Hk key off eq_refl) as (-> & -> & Hex). set (key := (k, pos_nFile pos)) in *.
  set (d1 := ms ++ ser_writedata32 (u32 nSize)).
  destruct (fwrite_spec lim key (Z.to_nat (pos_nPos pos)) d1 fs1 Hl) as (Hp1 & Hex1 & _).
  destruct (fwrite (key, Z.to_nat (pos_nPos pos)) d1 fs1) as [fs2 ok1] eqn:E1; cbn [fst snd] in *.
  destruct ok1; cbn [negb]; [|split; [by etrans|done]].
  destruct ftell_works; cbn [negb]; [|split; [by etrans|done]].
  set (off2 := (Z.to_nat (pos_nPos pos) + length ms + 4)%nat).
  destruct (fwrite_spec lim key off2 data fs2 ltac:(unfold off2; lia)) as (Hp2 & _ & Hh).
  destruct (fwrite (key, off2) data fs2) as [fs3 ok2] eqn:E2; cbn [fst snd] in *.
  assert (preserves lim fs fs3) as Hall by (etrans; [exact Hp|]; by etrans).
  destruct ok2; cbn [negb fst snd]; split; [done| |done..]. intros p [= <-]. split; [done|]. exists off2.
  split_and!; [done..|]. apply Hh; [done|]. by apply Hex1.
Qed.

(** *** Statistics *)

(** How much of a file is used. *)
Definition size_of (k : file_kind) (i : CBlockFileInfo) : nat :=
  Z.to_nat (match k with BLK => info_nSize i | REV => info_nUndoSize i end).
Definition used_in (v : list CBlockFileInfo) (key : file_key) : nat :=
  if key.2 <? 0 then O else match v !! Z.to_nat key.2 with Some i => size_of key.1 i | None => O end.
Definition used (st : block_files) : limits := used_in (vinfoBlockFile st).

Definition info_ok (i : CBlockFileInfo) : Prop := 0 <= info_nSize i < MAX_BLOCKFILE_SIZE /\ in_range 32 (info_nUndoSize i).

(** [nLastBlockFile] is an [int]. *)
Record files_wf (st : block_files) : Prop := {
  fw_infos : Forall info_ok (vinfoBlockFile st);
  fw_last : 0 <= nLastBlockFile st <= Z.of_nat (length (vinfoBlockFile st));
}.

(** The statistics of a file allow for a block of height [h] in it. *)
Definition covers (st : block_files) (f h : Z) : Prop :=
  exists i, info_at st f = Some i /\ h <= info_nHeightLast i.

(** What is used stays as it is, and stays used. *)
Definition grows (st st' : block_files) : Prop :=
  preserves (used st) (files st) (files st') /\ (forall key, (used st key <= used st' key)%nat) /\
  forall f h, covers st f h -> covers st' f h.

#[export] Instance grows_preorder : PreOrder grows.
Proof.
  split; [intros a; unfold grows; by split_and!|]. intros a b c (H1 & L1 & C1) (H2 & L2 & C2). unfold grows. split_and!.
  - etrans; [exact H1|]. by eapply preserves_weaken; [|exact H2].
  - intros key. specialize (L1 key). specialize (L2 key). lia.
  - auto.
Qed.

(** A step that leaves the statistics alone. *)
Lemma grows_files st fs : preserves (used st) (files st) fs -> grows st (set_files fs st).
Proof. intros Hp. split; [done|]. split; [done|auto]. Qed.

Lemma grows_same st st' : vinfoBlockFile st' = vinfoBlockFile st -> preserves (used st) (files st) (files st') -> grows st st'.
Proof. intros Hv Hp. unfold grows, covers, info_at, used. by rewrite Hv. Qed.

(** A step that leaves the files alone. *)
Lemma grows_infos v last dirty st :
  (forall key, (used st key <= used_in v key)%nat) ->
  (forall f i, vinfoBlockFile st !! f = Some i -> exists i', v !! f = Some i' /\ info_nHeightLast i <= info_nHeightLast i') ->
  grows st (set_infos v last dirty st).
Proof.
  intros Hu Hh. unfold grows. split_and!; [done|exact Hu|]. intros f h (i & Hi & Hl). unfold covers, info_at in *. cbn [vinfoBlockFile set_infos].
  destruct (f <? 0); [done|]. destruct (Hh _ _ Hi) as (i' & Hi' & Hl'). exists i'. split; [done|lia].
Qed.

(** [d] is in the used part of a file. *)
Definition recorded (st : block_files) (key : file_key) (start : nat) (d : bytes) : Prop :=
  (start + length d <= used st key)%nat /\ exists f, files st !! key = Some f /\ holds f start d.

Lemma recorded_grows st st' key start d : grows st st' -> recorded st key start d -> recorded st' key start d.
Proof.
  intros (Hp & Hu & _) [Hl (f & Hf & Hh)]. destruct (Hp _ _ Hf) as (f' & Hf' & Hk). split; [specialize (Hu key); lia|].
  exists f'. split; [done|]. intros i x Hi. apply Hk; [|by apply Hh]. apply lookup_lt_Some in Hi. lia.
Qed.

Lemma used_resize n v key : used_in (resize_infos n v) key = used_in v key.
Proof.
  unfold used_in, resize_infos. destruct (Z.leb_spec (Z.of_nat (length v)) n) as [Hn|]; [|done].
  destruct (key.2 <? 0); [done|]. destruct (v !! Z.to_nat key.2) as [i|] eqn:E.
  - rewrite lookup_resize, E; [done|apply lookup_lt_Some in E; lia|by eapply lookup_lt_Some].
  - apply lookup_ge_None in E. destruct (decide (Z.to_nat key.2 < Z.to_nat (n + 1))%nat) as [Hl|Hl].
    + rewrite lookup_resize_new by lia. by destruct key.1.
    + by rewrite lookup_resize_old by lia.
Qed.

Lemma infos_resize n v : Forall info_ok v -> Forall info_ok (resize_infos n v).
Proof. intros H. unfold resize_infos. case_match; [|done]. apply Forall_resize; [|done]. by split. Qed.

Lemma length_resize_infos n v : 0 <= n -> Z.of_nat (length (resize_infos n v)) = Z.of_nat (length v) `max` (n + 1).
Proof. intros Hn. unfold resize_infos. case_match eqn:E; [|lia]. rewrite length_resize. lia. Qed.

Lemma lookup_resize_infos n v (f : nat) i : v !! f = Some i -> resize_infos n v !! f = Some i.
Proof. intros Hi. pose proof (lookup_lt_Some _ _ _ Hi). unfold resize_infos. case_match eqn:E; [|done]. by rewrite lookup_resize by lia. Qed.

Lemma used_insert v f i i' key : 0 <= f -> v !! Z.to_nat f = Some i ->
  used_in (<[Z.to_nat f := i']> v) key = if bool_decide (key.2 = f) then size_of key.1 i' else used_in v key.
Proof.
  intros Hf Hi. unfold used_in. destruct (Z.ltb_spec key.2 0) as [|Hk]; [case_bool_decide; [lia|done]|].
  case_bool_decide as Hkf.
  - rewrite Hkf, list_lookup_insert_eq by (by eapply lookup_lt_Some). done.
  - rewrite list_lookup_insert_ne by lia. done.
Qed.

(** The search for a file ends at the latest at a new one. *)
Lemma find_file_spec fuel v nFile nAddSize :
  Forall info_ok v -> 0 <= nAddSize < MAX_BLOCKFILE_SIZE -> 0 <= nFile < Z.of_nat (length v) ->
  (length v - Z.to_nat nFile + Nat.b2n (bool_decide (v !! Z.to_nat nFile <> Some info_SetNull)) <= S fuel)%nat ->
  Z.of_nat (length v) + 1 < 2 ^ 32 ->
  exists v' f i, find_file fuel v nFile nAddSize = Some (v', f) /\ v' !! Z.to_nat f = Some i /\
    (forall key, used_in v' key = used_in v key) /\ (forall f i, v !! f = Some i -> v' !! f = Some i) /\
    Forall info_ok v' /\ (length v <= length v' <= S (length v))%nat /\
    nFile <= f < Z.of_nat (length v') /\ info_nSize i + nAddSize < MAX_BLOCKFILE_SIZE.
Proof.
  revert v nFile. induction fuel as [|fuel IH]; intros v nFile Hv Hadd Hf Hfuel Hlen; cbn [find_file];
    (destruct (v !! Z.to_nat nFile) as [i|] eqn:Ei; [|apply lookup_ge_None in Ei; lia]); cbn [mbind option_bind];
    pose proof (Forall_lookup_1 _ _ _ _ Hv Ei) as [Hs _]; unfold MAX_BLOCKFILE_SIZE in *;
    rewrite (wrap_small 32) by (unfold in_range; pow_literals; lia);
    rewrite Z.geb_leb; destruct (Z.leb_spec 0x8000000 (info_nSize i + nAddSize)) as [Hge|Hlt];
    try (exists v, nFile, i; split_and!; done || lia).
  - exfalso. assert (i <> info_SetNull) as Hn by (intros ->; cbn in Hge; lia).
    rewrite bool_decide_true in Hfuel by congruence. cbn in Hfuel. apply lookup_lt_Some in Ei. lia.
  - assert (i <> info_SetNull) as Hn by (intros ->; cbn in Hge; lia).
    rewrite bool_decide_true in Hfuel by congruence. cbn [Nat.b2n] in Hfuel.
    rewrite (wrap_small 32) by (unfold in_range; pow_literals; lia).
    pose proof (length_resize_infos (nFile + 1) v ltac:(lia)) as Hl.
    assert (length v <= length (resize_infos (nFile + 1) v) <= S (length v))%nat as Hl' by lia.
    assert (Z.of_nat (length v) = nFile + 1 -> resize_infos (nFile + 1) v !! Z.to_nat (nFile + 1) = Some info_SetNull) as Hnew.
    { intros Hl2. unfold resize_infos. rewrite (proj2 (Z.leb_le _ _)) by lia. rewrite lookup_resize_new by lia. done. }
    destruct (decide (Z.of_nat (length v) = nFile + 1)) as [Hend|Hend].
    + specialize (Hnew Hend). exists (resize_infos (nFile + 1) v), (nFile + 1), info_SetNull. split_and!; try done; try lia.
      * destruct fuel; cbn [find_file]; rewrite Hnew; cbn [mbind option_bind info_nSize info_SetNull];
          rewrite (wrap_small 32) by (unfold in_range; pow_literals; lia);
          rewrite Z.geb_leb; case Z.leb_spec; intros; unfold MAX_BLOCKFILE_SIZE in *; (lia || done).
      * intros key. apply used_resize.
      * intros f k Hk. by apply lookup_resize_infos.
      * by apply infos_resize.
      * cbn. lia.
    + assert (resize_infos (nFile + 1) v = v) as -> by (unfold resize_infos; by rewrite (proj2 (Z.leb_gt _ _)) by lia).
      destruct (IH v (nFile + 1)) as (v' & f & j & H1 & H2 & H3 & H4 & H5 & H6 & H7 & H8); [done|done|lia| |done|].
      { destruct (bool_decide _); cbn; lia. }
      unfold MAX_BLOCKFILE_SIZE in H8. exists v', f, j. split_and!; (done || lia).
Qed.

(** *** The operations *)

Lemma FlushBlockFile_spec fin st : (fin = true -> is_Some (info_at st (nLastBlockFile st))) ->
  exists fs, FlushBlockFile fin st = Some (set_files fs st) /\ preserves (used st) (files st) fs.
Proof.
  intros Hi. unfold FlushBlockFile. set (last := nLastBlockFile st) in *.
  assert (exists i, (if fin then info_at st last else Some info_SetNull) = Some i /\
    (fin = true -> used st (BLK, last) <= Z.to_nat (info_nSize i) /\ used st (REV, last) <= Z.to_nat (info_nUndoSize i))%nat)
    as (i & -> & Hu).
  { destruct fin; [|by eexists]. destruct (Hi eq_refl) as [i Ei]. exists i. split; [done|]. intros _.
    unfold used, used_in, info_at in *. cbn [fst snd]. destruct (last <? 0); [done|]. rewrite Ei. unfold size_of. lia. }
  cbn [mbind option_bind]. eexists. split; [reflexivity|].
  etrans; apply finish_spec; intros Hf; destruct (Hu Hf); lia.
Qed.

(** The space that no request of these functions exceeds. *)
Definition ample_space : Prop := 2 ^ 33 <= space_available.

Lemma preallocate_spec (lim : limits) cfg k chunk pos n st :
  let r := preallocate cfg k chunk pos n st in
  vinfoBlockFile r.1 = vinfoBlockFile st /\ nLastBlockFile r.1 = nLastBlockFile st /\
  preserves lim (files st) (files r.1) /\ (ample_space -> r.2 = true).
Proof.
  cbn zeta. unfold preallocate, CheckDiskSpace. destruct (_ >? _); [|done].
  set (st1 := if fPruneMode cfg then _ else st). set (len := u32 (_ - pos_nPos pos)).
  assert (vinfoBlockFile st1 = vinfoBlockFile st /\ nLastBlockFile st1 = nLastBlockFile st /\ files st1 = files st) as (Hv & Hl & Hf)
    by (unfold st1; by destruct (fPruneMode cfg)).
  destruct (Z.ltb_spec space_available (u64 (nMinDiskSpace + len))) as [Hlt|_]; cbn [fst snd vinfoBlockFile nLastBlockFile files AbortNode set_flags].
  - rewrite Hf. split_and!; [done..|]. unfold ample_space. intros Ha. exfalso.
    pose proof (wrap_range 32 (u32 (chunks chunk n * chunk) - pos_nPos pos) ltac:(lia)) as Hr. fold len in Hr.
    unfold in_range, nMinDiskSpace in *. rewrite (wrap_small 64) in Hlt by (unfold in_range; pow_literals; lia). pow_literals. lia.
  - destruct (OpenDiskFile_spec lim pos k false (files st1)) as [Hp _].
    destruct (OpenDiskFile pos k false (files st1)) as [fs [[key off]|]]; cbn [fst snd files set_files vinfoBlockFile nLastBlockFile] in *;
      (split_and!; [done..| |done]); rewrite <- Hf; [|done]. etrans; [exact Hp|apply allocate_spec].
Qed.

Definition few_files (st : block_files) : Prop := Z.of_nat (length (vinfoBlockFile st)) + 2 < 2 ^ 31.

Lemma enter_file_spec f st : 0 <= f < 2 ^ 31 -> 0 <= nLastBlockFile st < Z.of_nat (length (vinfoBlockFile st)) ->
  exists st', enter_file f false st = Some st' /\ vinfoBlockFile st' = vinfoBlockFile st /\ nLastBlockFile st' = f /\ grows st st'.
Proof.
  intros Hf Hl. unfold enter_file. rewrite (swrap_small 32) by lia.
  destruct (Z.eqb_spec f (nLastBlockFile st)) as [->|Hne]; cbn [negb]; [by exists st|].
  destruct (FlushBlockFile_spec true st) as (fs & -> & Hp).
  { intros _. unfold info_at. rewrite (proj2 (Z.ltb_ge _ _)) by lia. apply lookup_lt_is_Some. lia. }
  cbn [mbind option_bind]. eexists. split; [reflexivity|]. split_and!; [done..|]. by apply grows_same.
Qed.

(** The statistics of one file go up. *)
Lemma grows_insert f i i' last dirty st : vinfoBlockFile st !! Z.to_nat f = Some i -> 0 <= f ->
  (size_of BLK i <= size_of BLK i')%nat -> (size_of REV i <= size_of REV i')%nat ->
  info_nHeightLast i <= info_nHeightLast i' ->
  grows st (set_infos (<[Z.to_nat f := i']> (vinfoBlockFile st)) last dirty st).
Proof.
  intros Hi Hf HB HR Hh. apply grows_infos.
  - intros [k g]. rewrite (used_insert _ f i) by done. cbn [fst snd]. case_bool_decide as E; [|done]. subst g.
    unfold used, used_in. cbn [fst snd]. rewrite (proj2 (Z.ltb_ge _ _)) by lia. rewrite Hi. by destruct k.
  - intros g j Hj. destruct (decide (g = Z.to_nat f)) as [->|Hg].
    + rewrite list_lookup_insert_eq by (by eapply lookup_lt_Some). exists i'. split; [done|]. by simplify_eq.
    + rewrite list_lookup_insert_ne by done. exists j. split; [done|lia].
Qed.

Lemma height_AddBlock nHeight nTime i :
  nHeight <= info_nHeightLast (AddBlock nHeight nTime i) /\ info_nHeightLast i <= info_nHeightLast (AddBlock nHeight nTime i).
Proof. cbn. rewrite Z.gtb_ltb. destruct (Z.ltb_spec (info_nHeightLast i) nHeight); lia. Qed.

(** The place that is found was not used, and is now. *)
Lemma FindBlockPos_spec cfg pos0 nAddSize nHeight nTime st :
  files_wf st -> few_files st -> 0 <= nAddSize < MAX_BLOCKFILE_SIZE ->
  exists st' pos ok, FindBlockPos cfg pos0 nAddSize nHeight nTime false st = Some (st', pos, ok) /\
    grows st st' /\ files_wf st' /\ 0 <= pos_nFile pos < 2 ^ 31 /\ 0 <= pos_nPos pos /\ pos_nPos pos + nAddSize < MAX_BLOCKFILE_SIZE /\
    used st (BLK, pos_nFile pos) = Z.to_nat (pos_nPos pos) /\
    used st' (BLK, pos_nFile pos) = Z.to_nat (pos_nPos pos + nAddSize) /\
    covers st' (pos_nFile pos) nHeight /\ (ample_space -> ok = true).
Proof.
  intros [Hinfos Hlast] Hfew Hadd. unfold few_files in Hfew. pow_literals.
  unfold FindBlockPos. cbn [negb]. rewrite (wrap_small 32) by (unfold in_range; pow_literals; lia).
  set (last := nLastBlockFile st) in *. set (v := resize_infos last (vinfoBlockFile st)).
  pose proof (length_resize_infos last (vinfoBlockFile st) ltac:(lia)) as Hlv. fold v in Hlv.
  destruct (find_file_spec (S (length v)) v last nAddSize) as (v1 & f & i & -> & Hi & Hu1 & Hv1 & Hok1 & Hl1 & Hf & Hsize);
    [by apply infos_resize|done|lia|destruct (bool_decide _); cbn; lia|pow_literals; lia|].
  cbn [mbind option_bind]. rewrite Hi. cbn [mbind option_bind].
  set (st1 := set_infos v1 last (setDirtyFileInfo st) st).
  assert (forall key, used_in v1 key = used st key) as Hused by (intros key; rewrite Hu1; apply used_resize).
  assert (grows st st1) as G1.
  { apply grows_infos; [intros key; by rewrite Hused|]. intros g j Hj. exists j. split; [|lia]. apply Hv1. by apply lookup_resize_infos. }
  destruct (enter_file_spec f st1) as (st2 & -> & Hv2 & Hn2 & G2); [cbn; pow_literals; lia..|].
  change (vinfoBlockFile st1) with v1 in Hv2.
  cbn [mbind option_bind]. rewrite Hv2, Hi. cbn [mbind option_bind].
  set (i' := AddBlock nHeight nTime i). change (info_nSize i') with (info_nSize i).
  pose proof (Forall_lookup_1 _ _ _ _ Hok1 Hi) as [Hs Hus].
  rewrite (wrap_small 32) by (unfold in_range, MAX_BLOCKFILE_SIZE in *; pow_literals; lia).
  set (i2 := set_info_nSize (info_nSize i + nAddSize) i'). set (v3 := <[Z.to_nat f:=i2]> v1).
  set (st3 := set_infos v3 (nLastBlockFile st2) (setDirtyFileInfo st2) st2).
  assert (0 <= f) as Hf0 by lia.
  assert (forall key, used_in v3 key = if bool_decide (key.2 = f) then size_of key.1 i2 else used st key) as Hu3
    by (intros key; unfold v3; rewrite (used_insert v1 f i) by done; by rewrite Hused).
  assert (used st (BLK, f) = Z.to_nat (info_nSize i) /\ used st (REV, f) = Z.to_nat (info_nUndoSize i)) as [HuB HuR].
  { rewrite <- !Hused. unfold used_in. cbn [fst snd]. rewrite (proj2 (Z.ltb_ge _ _)) by lia. by rewrite Hi. }
  pose proof (height_AddBlock nHeight nTime i) as [Hh1 Hh2]. fold i' in Hh1, Hh2.
  change (info_nHeightLast i') with (info_nHeightLast i2) in Hh1, Hh2.
  assert (grows st2 st3) as G3 by (unfold st3, v3; rewrite <- Hv2;
    apply (grows_insert f i); [by rewrite Hv2|lia|unfold i2, i', size_of; cbn; lia|unfold i2, i', size_of; cbn; lia|done]).
  set (pos := {| pos_nFile := f; pos_nPos := info_nSize i |}).
  destruct (preallocate_spec (used st3) cfg BLK BLOCKFILE_CHUNK_SIZE pos (info_nSize i2) st3) as (Hv4 & Hn4 & Hp4 & Hok4).
  destruct (preallocate cfg BLK BLOCKFILE_CHUNK_SIZE pos (info_nSize i2) st3) as [st4 ok]; cbn [fst snd] in *.
  assert (grows st st4) as G4 by (etrans; [exact G1|etrans; [exact G2|etrans; [exact G3|by apply grows_same]]]).
  exists (if ok then set_infos (vinfoBlockFile st4) (nLastBlockFile st4) ({[f]} ∪ setDirtyFileInfo st4) st4 else st4), pos, ok.
  split; [by destruct ok|]. assert (forall P : block_files -> Prop,
    (forall st', vinfoBlockFile st' = v3 -> nLastBlockFile st' = f -> grows st st' -> P st') ->
    P (if ok then set_infos (vinfoBlockFile st4) (nLastBlockFile st4) ({[f]} ∪ setDirtyFileInfo st4) st4 else st4)) as Hcase.
  { intros P HP. change (nLastBlockFile st3) with (nLastBlockFile st2) in Hn4. rewrite Hn2 in Hn4.
    destruct ok; apply HP; done. }
  apply Hcase. intros st' Hv' Hn' G'. cbn [pos pos_nFile pos_nPos]. split_and!; try done; try lia; try (pow_literals; lia).
  - split; [|rewrite Hn', Hv'; unfold v3; rewrite length_insert; lia]. rewrite Hv'. apply Forall_insert; [done|]. split; [cbn; lia|done].
  - unfold used. rewrite Hv', Hu3. cbn [fst snd]. rewrite bool_decide_true by done. done.
  - exists i2. split; [|done]. unfold info_at. rewrite (proj2 (Z.ltb_ge _ _)) by lia. rewrite Hv'. unfold v3.
    apply list_lookup_insert_eq. by eapply lookup_lt_Some.
Qed.

Lemma FindUndoPos_spec cfg f nAddSize i st :
  files_wf st -> info_at st f = Some i -> 0 <= nAddSize -> info_nUndoSize i + nAddSize < 2 ^ 32 ->
  exists st' ok, FindUndoPos cfg f nAddSize st = Some (st', {| pos_nFile := f; pos_nPos := info_nUndoSize i |}, ok) /\
    grows st st' /\ files_wf st' /\ 0 <= info_nUndoSize i /\
    used st (REV, f) = Z.to_nat (info_nUndoSize i) /\
    used st' (REV, f) = Z.to_nat (info_nUndoSize i + nAddSize) /\ (ample_space -> ok = true).
Proof.
  intros [Hinfos Hlast] Hi Hadd Hsum. unfold FindUndoPos. rewrite Hi. cbn [mbind option_bind].
  assert (0 <= f /\ vinfoBlockFile st !! Z.to_nat f = Some i) as [Hf Hv].
  { unfold info_at in Hi. destruct (Z.ltb_spec f 0); [done|]. by split. }
  pose proof (Forall_lookup_1 _ _ _ _ Hinfos Hv) as [Hs [Hu _]].
  rewrite (wrap_small 32) by (unfold in_range; pow_literals; lia).
  set (i' := set_info_nUndoSize (info_nUndoSize i + nAddSize) i).
  set (st1 := set_infos (<[Z.to_nat f:=i']> (vinfoBlockFile st)) (nLastBlockFile st) ({[f]} ∪ setDirtyFileInfo st) st).
  assert (grows st st1) as G1 by (apply (grows_insert f i); try done; unfold i', size_of; cbn; lia).
  set (pos := {| pos_nFile := f; pos_nPos := info_nUndoSize i |}).
  destruct (preallocate_spec (used st1) cfg REV UNDOFILE_CHUNK_SIZE pos (info_nUndoSize i + nAddSize) st1) as (Hv2 & Hn2 & Hp2 & Hok2).
  destruct (preallocate cfg REV UNDOFILE_CHUNK_SIZE pos (info_nUndoSize i + nAddSize) st1) as [st2 ok]; cbn [fst snd] in *.
  exists st2, ok. split; [done|].
  assert (forall k, used_in (<[Z.to_nat f:=i']> (vinfoBlockFile st)) (k, f) = size_of k i') as Hnew
    by (intros k; rewrite (used_insert _ f i) by done; cbn [fst snd]; by rewrite bool_decide_true).
  assert (used st (REV, f) = Z.to_nat (info_nUndoSize i)) as Hold.
  { unfold used, used_in. cbn [fst snd]. rewrite (proj2 (Z.ltb_ge _ _)) by lia. by rewrite Hv. }
  split_and!; try done.
  - etrans; [exact G1|by apply grows_same].
  - split; rewrite Hv2; [|rewrite Hn2; cbn; by rewrite length_insert]. apply Forall_insert; [done|].
    split; [done|]. unfold in_range, i'. cbn. lia.
  - unfold used. rewrite Hv2. apply Hnew.
Qed.

Lemma grows_append st st1 k ms pos nSize data :
  grows st st1 -> used st (k, pos_nFile pos) = Z.to_nat (pos_nPos pos) ->
  let r := append_record k ms pos nSize data (files st1) in
  grows st (set_files r.1 st1) /\ forall p, r.2 = Ok p ->
    pos_nFile p = pos_nFile pos /\ pos_nPos p = u32 (Z.of_nat (Z.to_nat (pos_nPos pos) + length ms + 4)) /\
    exists f, r.1 !! (k, pos_nFile pos) = Some f /\ holds f (Z.to_nat (pos_nPos pos) + length ms + 4) data.
Proof.
  intros (Hp & Hu & Hc) Hpos. destruct (append_record_spec (used st) k ms pos nSize data (files st1)) as [Hp1 Hr];
    [by rewrite Hpos|]. cbn zeta. split.
  - split; [|split; [exact Hu|exact Hc]]. cbn [files set_files]. by etrans.
  - intros p Hok. destruct (Hr p Hok) as (H1 & off & -> & H2 & H3). split_and!; done.
Qed.

Lemma files_wf_set fs st : files_wf st -> files_wf (set_files fs st).
Proof. by intros []. Qed.
Lemma files_wf_abort st : files_wf st -> files_wf (AbortNode st).
Proof. by intros []. Qed.
Lemma grows_abort st st' : grows st st' -> grows st (AbortNode st').
Proof. done. Qed.
#[local] Hint Resolve files_wf_set files_wf_abort grows_abort : core.

(** Everything works, and there is enough space. *)
Record platform_works : Prop := {
  pw_existing : forall key, fopen_existing key = true;
  pw_create : forall key, fopen_create key = true;
  pw_seek : fseek_works = true;
  pw_tell : ftell_works = true;
  pw_write : forall d, (length d <= fwrite_count d)%nat;
  pw_space : ample_space;
}.

Lemma open_works k pos fs : platform_works -> 0 <= pos_nFile pos ->
  exists fs', OpenDiskFile pos k false fs = (fs', Some ((k, pos_nFile pos), Z.to_nat (pos_nPos pos))).
Proof.
  intros [He Hc Hs _ _ _] Hf. unfold OpenDiskFile, pos_IsNull. destruct (Z.eqb_spec (pos_nFile pos) (-1)); [lia|].
  rewrite He, Hc, Hs, !orb_true_r, andb_true_r. destruct (bool_decide _); cbn; by eexists.
Qed.

Lemma append_works k ms pos nSize data fs : platform_works -> 0 <= pos_nFile pos ->
  exists p, (append_record k ms pos nSize data fs).2 = Ok p.
Proof.
  intros W Hf. unfold append_record. destruct (open_works k pos fs W Hf) as [fs' ->]. unfold fwrite.
  destruct W as [_ _ _ Ht Hw _]. rewrite (proj2 (Nat.leb_le _ _)) by apply Hw. cbn [negb]. rewrite Ht. cbn [negb].
  rewrite (proj2 (Nat.leb_le _ _)) by apply Hw. cbn [negb snd]. by eexists.
Qed.

Section blocks.
Context `{Hs : HashFunctions} `{L : Layout} `{Eh : Equihash} (version block_chunk undo_chunk : Z).

Abbreviation save_block := (SaveBlockToDisk version block_chunk).
Abbreviation save_undo := (SaveUndoToDisk undo_chunk).
Abbreviation bbytes := (block_bytes version block_chunk).
Abbreviation ubytes := (undo_bytes undo_chunk).

(** Saving a block: whatever happens, what was recorded stays. *)
Lemma SaveBlockToDisk_spec cfg block nHeight ms st :
  files_wf st -> few_files st -> length ms = 4%nat -> in_range 32 nHeight ->
  Z.of_nat (length (bbytes block)) + 8 < MAX_BLOCKFILE_SIZE ->
  exists st' r, save_block cfg block nHeight ms None st = Some (st', r) /\ grows st st' /\ files_wf st' /\
    (forall pos, r = Ok pos -> pos_IsNull pos = false ->
      0 <= pos_nFile pos < 2 ^ 31 /\ 8 <= pos_nPos pos < MAX_BLOCKFILE_SIZE /\ covers st' (pos_nFile pos) nHeight /\
      (used st (BLK, pos_nFile pos) < Z.to_nat (pos_nPos pos))%nat /\
      recorded st' (BLK, pos_nFile pos) (Z.to_nat (pos_nPos pos)) (bbytes block)) /\
    (platform_works -> exists pos, r = Ok pos /\ pos_IsNull pos = false).
Proof.
  intros Hwf Hfew Hms Hh Hsize. unfold SaveBlockToDisk. cbn [default]. change (bool_decide (is_Some None)) with false.
  pose proof Hsize as Hsize'. unfold MAX_BLOCKFILE_SIZE in Hsize'.
  rewrite (wrap_small 32 nHeight), (wrap_small 32 (Z.of_nat _)), (wrap_small 32 (Z.of_nat _ + 8))
    by (done || (unfold in_range; pow_literals; lia)).
  set (n := Z.of_nat (length (bbytes block)) + 8) in *.
  destruct (FindBlockPos_spec cfg pos_SetNull n nHeight (hdr_nTime block) st Hwf Hfew) as
    (st1 & pos & ok & -> & G1 & W1 & Hf & Hp0 & Hp1 & Hu0 & Hu1 & Hc & Hok); [lia|].
  cbn [mbind option_bind]. destruct ok; cbn [negb].
  2:{ exists st1, (Ok pos_SetNull). split_and!; try done; [by intros p [= <-]|]. intros W. by specialize (Hok (pw_space W)). }
  unfold WriteBlockToDisk. pose proof (grows_append st st1 BLK ms pos (Z.of_nat (length (bbytes block))) (bbytes block) G1 Hu0) as [G2 Hr].
  pose proof (append_works BLK ms pos (Z.of_nat (length (bbytes block))) (bbytes block) (files st1)) as Hwork.
  destruct (append_record BLK ms pos (Z.of_nat (length (bbytes block))) (bbytes block) (files st1)) as [fs r]; cbn [fst snd] in *.
  destruct r as [p|e].
  - exists (set_files fs st1), (Ok p). split_and!; auto; [|intros _].
    + intros p' [= <-] _. destruct (Hr p eq_refl) as (-> & -> & f & Hfs & Hholds). rewrite Hms in *.
      set (start := (Z.to_nat (pos_nPos pos) + 4 + 4)%nat) in *.
      rewrite (wrap_small 32) by (unfold in_range, MAX_BLOCKFILE_SIZE in *; pow_literals; lia).
      rewrite Nat2Z.id. split_and!; try done; try lia. split; [|by exists f].
      change (used (set_files fs st1)) with (used st1). rewrite Hu1. lia.
    + exists p. split; [done|]. destruct (Hr p eq_refl) as (E & _). unfold pos_IsNull. rewrite E. apply Z.eqb_neq. lia.
  - destruct (decide (e = io_exception)) as [->|He].
    + exists (set_files fs st1), (Err io_exception). split_and!; auto; [done|]. intros W. by destruct (Hwork W ltac:(lia)).
    + exists (AbortNode (set_files fs st1)), (Ok pos_SetNull). split_and!; auto.
      * destruct e; done.
      * by intros ? [= <-].
      * intros W. by destruct (Hwork W ltac:(lia)).
Qed.

Lemma SaveUndoToDisk_spec cfg u f hashPrev ms i st :
  files_wf st -> length ms = 4%nat -> info_at st f = Some i ->
  info_nUndoSize i + Z.of_nat (length (ubytes u)) + 40 < 2 ^ 32 ->
  length (undo_checksum hashPrev (ubytes u)) = 32%nat ->
  exists st' r, save_undo cfg u f hashPrev ms st = Some (st', r) /\ grows st st' /\ files_wf st' /\
    (forall pos, r = Ok (Some pos) ->
      pos_nFile pos = f /\ in_range 32 (pos_nPos pos) /\ (used st (REV, f) < Z.to_nat (pos_nPos pos))%nat /\
      recorded st' (REV, f) (Z.to_nat (pos_nPos pos)) (ubytes u ++ undo_checksum hashPrev (ubytes u))) /\
    (platform_works -> exists pos, r = Ok (Some pos)).
Proof.
  intros Hwf Hms Hi Hsum Hck. unfold SaveUndoToDisk.
  assert (0 <= f) as Hf by (unfold info_at in Hi; destruct (Z.ltb_spec f 0); done).
  assert (0 <= info_nUndoSize i) as Hi0.
  { unfold info_at in Hi. destruct (f <? 0); [done|]. by apply (Forall_lookup_1 _ _ _ _ (fw_infos _ Hwf)) in Hi as [_ [? _]]. }
  rewrite (wrap_small 32) by (unfold in_range; lia).
  set (n := Z.of_nat (length (ubytes u)) + 40) in *.
  destruct (FindUndoPos_spec cfg f n i st Hwf Hi) as (st1 & ok & -> & G1 & W1 & _ & Hu0 & Hu1 & Hok); [lia..|].
  cbn [mbind option_bind]. destruct ok; cbn [negb].
  2:{ exists st1, (Ok None). split_and!; try done. intros W. by specialize (Hok (pw_space W)). }
  set (pos := {| pos_nFile := f; pos_nPos := info_nUndoSize i |}). set (d := ubytes u ++ undo_checksum hashPrev (ubytes u)).
  unfold UndoWriteToDisk. fold d. pose proof (grows_append st st1 REV ms pos (Z.of_nat (length (ubytes u))) d G1 Hu0) as [G2 Hr].
  pose proof (append_works REV ms pos (Z.of_nat (length (ubytes u))) d (files st1)) as Hwork.
  destruct (append_record REV ms pos (Z.of_nat (length (ubytes u))) d (files st1)) as [fs r]; cbn [fst snd] in *.
  destruct r as [p|e].
  - exists (set_files fs st1), (Ok (Some p)). split_and!; auto; [|by intros _; exists p].
    intros p' [= <-]. destruct (Hr p eq_refl) as (-> & -> & g & Hfs & Hholds). rewrite Hms in *.
    cbn [pos pos_nFile pos_nPos] in *. set (start := (Z.to_nat (info_nUndoSize i) + 4 + 4)%nat) in *.
    rewrite (wrap_small 32) by (unfold in_range; lia).
    rewrite Nat2Z.id. split_and!; [done|unfold in_range; lia|lia|]. split; [|by exists g].
    change (used (set_files fs st1)) with (used st1). rewrite Hu1. unfold d. rewrite length_app, Hck. lia.
  - destruct (decide (e = io_exception)) as [->|He].
    + exists (set_files fs st1), (Err io_exception). split_and!; auto; [done|]. intros W. by destruct (Hwork W ltac:(done)).
    + exists (AbortNode (set_files fs st1)), (Ok None). split_and!; auto.
      * destruct e; done.
      * done.
      * intros W. by destruct (Hwork W ltac:(done)).
Qed.
End blocks.
End platform.
End block_files_facts.

(** ** What is saved can be read *)

Section readable.
Import serialize_facts transaction_facts block_facts compress_facts block_files_facts.
Context `{Hs : HashFunctions} `{HL : !HashLaws Hs} `{L : Layout} `{Eh : Equihash} (version block_chunk undo_chunk : Z).

(** A file that exists can be read. *)
Definition reading_works (FP : FilePlatform) : Prop := (forall key, fopen_existing key = true) /\ fseek_works = true.

Lemma open_to_read_spec {FP : FilePlatform} k f start d st : reading_works FP -> 0 <= f -> 0 <= start ->
  recorded st (k, f) (Z.to_nat start) d ->
  exists rest, open_to_read {| pos_nFile := f; pos_nPos := start |} k (files st) = Ok (d ++ rest).
Proof.
  intros [He Hseek] Hf Hst [_ (c & Hc & Hh)]. destruct (holds_drop _ _ _ Hh) as [rest Hr]. exists rest.
  unfold open_to_read, OpenDiskFile, pos_IsNull. cbn [pos_nFile pos_nPos]. destruct (Z.eqb_spec f (-1)); [lia|].
  rewrite bool_decide_true by eauto. rewrite He, Hseek, orb_true_r. cbn [andb]. by rewrite Hc, Hr.
Qed.

(** A block that [ReadBlockFromDisk] lets pass. *)
Record storable (params : Params) (block : CBlock) : Prop := {
  sb_header : header_wf block;
  sb_vtx : Forall carried (vtx block);
  sb_count : Z.of_nat (length (vtx block)) <= MAX_SIZE;
  sb_size : Z.of_nat (length (block_bytes version block_chunk block)) + 8 < MAX_BLOCKFILE_SIZE;
  sb_solution : CheckEquihashSolution block = true;
  sb_work : CheckProofOfWork (header_GetHash block) (hdr_nBits block) params = true;
}.

Definition undo_ok (u : CBlockUndo) : Prop :=
  Forall (fun t => Forall coin_ok (vprevout t) /\ Z.of_nat (length (vprevout t)) <= MAX_INPUTS_PER_BLOCK) (vtxundo u) /\
  Z.of_nat (length (vtxundo u)) <= MAX_SIZE.

Lemma read_recorded_block {FP : FilePlatform} params block pos b st : 0 < block_chunk <= 5000000 -> allow_witness version = true ->
  reading_works FP -> storable params block -> 0 <= pos_nFile pos -> 0 <= pos_nPos pos ->
  recorded st (BLK, pos_nFile pos) (Z.to_nat (pos_nPos pos)) (block_bytes version block_chunk block) ->
  GetBlockPos b = pos -> phashBlock b = header_GetHash block ->
  ReadBlockFromDisk version block_chunk params b (files st) = Ok {| header := block; vtx := vtx block; fChecked := false |}.
Proof.
  intros Hc Hver Hrw [H1 H2 H3 _ H5 H6] Hf Hp Hrec Hpos Hhash. unfold ReadBlockFromDisk, ReadBlockFromDisk_pos. rewrite Hpos.
  destruct pos as [f start]. cbn [pos_nFile pos_nPos] in *.
  destruct (open_to_read_spec BLK f start _ st Hrw Hf Hp Hrec) as [rest ->]. cbn [mbind result_bind].
  unfold block_bytes. rewrite block_codec_app by done.
  cbn [header]. rewrite H5. cbn [check mbind result_bind]. rewrite H6. cbn [check mbind result_bind header].
  by rewrite bool_decide_true.
Qed.

Lemma read_recorded_undo {FP : FilePlatform} u hashPrev pos b st : 0 < undo_chunk <= 5000000 ->
  reading_works FP -> undo_ok u -> 0 <= pos_nFile pos -> 0 <= pos_nPos pos ->
  recorded st (REV, pos_nFile pos) (Z.to_nat (pos_nPos pos))
    (undo_bytes undo_chunk u ++ undo_checksum hashPrev (undo_bytes undo_chunk u)) ->
  GetUndoPos b = pos -> UndoReadFromDisk undo_chunk hashPrev b (files st) = Ok u.
Proof.
  intros Hc Hrw Hu Hf Hp Hrec Hpos. unfold UndoReadFromDisk. rewrite Hpos. destruct pos as [f start]. cbn [pos_nFile pos_nPos] in *.
  unfold pos_IsNull. cbn [pos_nFile]. destruct (Z.eqb_spec f (-1)); [lia|].
  destruct (open_to_read_spec REV f start _ st Hrw Hf Hp Hrec) as [rest ->]. cbn [mbind result_bind].
  pose proof (block_undo_forward undo_chunk Hc) as Hcodec. rewrite <- app_assoc. unfold undo_bytes at 1.
  rewrite forward_read by done. rewrite read_app by (unfold undo_checksum; rewrite length_Hash256; done).
  rewrite length_app. replace (_ + length _ - length _)%nat with (length (undo_bytes undo_chunk u)) by lia.
  rewrite take_app_length. by rewrite bool_decide_true.
Qed.

(** Anything that happens to the files between a write and a read, short of
    pruning. *)
Inductive disk_step : block_files -> block_files -> Prop :=
  | step_block FP (FL : FilePlatformLaws FP) cfg block nHeight ms st st' r :
      few_files st -> length ms = 4%nat -> in_range 32 nHeight ->
      Z.of_nat (length (block_bytes version block_chunk block)) + 8 < MAX_BLOCKFILE_SIZE ->
      SaveBlockToDisk version block_chunk cfg block nHeight ms None st = Some (st', r) -> disk_step st st'
  | step_undo FP (FL : FilePlatformLaws FP) cfg u f hashPrev ms i st st' r :
      length ms = 4%nat -> info_at st f = Some i ->
      info_nUndoSize i + Z.of_nat (length (undo_bytes undo_chunk u)) + 40 < 2 ^ 32 ->
      SaveUndoToDisk undo_chunk cfg u f hashPrev ms st = Some (st', r) -> disk_step st st'
  | step_flush FP (FL : FilePlatformLaws FP) fFinalize st st' :
      FlushBlockFile fFinalize st = Some st' -> disk_step st st'.

Lemma disk_step_grows st st' : files_wf st -> disk_step st st' -> files_wf st' /\ grows st st'.
Proof.
  intros Hwf. destruct 1 as [FP FL cfg block h ms st st' r H1 H2 H3 H4 E|FP FL cfg u f hp ms i st st' r H1 H2 H3 E|FP FL fin st st' E].
  - destruct (SaveBlockToDisk_spec version block_chunk cfg block h ms st Hwf H1 H2 H3 H4) as (s & r' & E' & Hg & Hw & _).
    rewrite E in E'. by simplify_eq.
  - destruct (SaveUndoToDisk_spec undo_chunk cfg u f hp ms i st Hwf H1 H2 H3) as (s & r' & E' & Hg & Hw & _);
      [apply length_Hash256|]. rewrite E in E'. by simplify_eq.
  - assert (fin = true -> is_Some (info_at st (nLastBlockFile st))) as Hi.
    { intros ->. unfold FlushBlockFile in E. destruct (info_at st (nLastBlockFile st)); [by eexists|done]. }
    destruct (FlushBlockFile_spec fin st Hi) as (fs & E' & Hp). rewrite E in E'. simplify_eq.
    split; [by destruct Hwf|by apply grows_same].
Qed.

Lemma disk_steps_grow st st' : files_wf st -> rtc disk_step st st' -> files_wf st' /\ grows st st'.
Proof.
  intros Hwf H. revert Hwf. induction H as [|a b c Hab _ IH]; intros Hwf; [by split|].
  destruct (disk_step_grows _ _ Hwf Hab) as [Hb Hg]. destruct (IH Hb) as [Hc Hg']. split; [done|by etrans].
Qed.

(** C25: What is saved can be read back.  From any well-formed state
    [SaveBlockToDisk] and [SaveUndoToDisk] always end, whatever the calls of
    the system do, and keep the state well-formed.  The place they choose was
    not in use; no file of blocks reaches [MAX_BLOCKFILE_SIZE].  The block, or
    the undo data with its checksum, is read back from the position returned,
    after any number of further writes, failed writes and flushes of the
    files; and when the system's calls work and there is space, the position
    returned is not null.  The one assumption on the system is that a file
    that cannot be opened cannot be created either. *)
Theorem saved_data_readable `{FL : FilePlatformLaws} (cfg : prune_settings) (params : Params) (block : CBlock) (nHeight : Z)
    (u : CBlockUndo) (hashPrev : uint256) (messageStart : bytes) (st : block_files) :
  0 < block_chunk <= 5000000 -> 0 < undo_chunk <= 5000000 -> allow_witness version = true ->
  files_wf st -> length messageStart = 4%nat ->
  (few_files st -> in_range 32 nHeight -> storable params block ->
    exists st' r, SaveBlockToDisk version block_chunk cfg block nHeight messageStart None st = Some (st', r) /\ files_wf st' /\
      (platform_works -> exists pos, r = Ok pos /\ pos_IsNull pos = false) /\
      forall pos, r = Ok pos -> pos_IsNull pos = false ->
        (used st (BLK, pos_nFile pos) < Z.to_nat (pos_nPos pos))%nat /\
        (used st' (BLK, pos_nFile pos) < Z.to_nat MAX_BLOCKFILE_SIZE)%nat /\ covers st' (pos_nFile pos) nHeight /\
        forall FP' st'' b, reading_works FP' -> rtc disk_step st' st'' ->
          GetBlockPos b = pos -> phashBlock b = header_GetHash block ->
          ReadBlockFromDisk version block_chunk params b (files st'') =
          Ok {| header := block; vtx := vtx block; fChecked := false |}) /\
  (forall f i, info_at st f = Some i -> undo_ok u ->
    info_nUndoSize i + Z.of_nat (length (undo_bytes undo_chunk u)) + 40 < 2 ^ 32 ->
    exists st' r, SaveUndoToDisk undo_chunk cfg u f hashPrev messageStart st = Some (st', r) /\ files_wf st' /\
      (platform_works -> exists pos, r = Ok (Some pos)) /\
      forall pos, r = Ok (Some pos) ->
        (used st (REV, f) < Z.to_nat (pos_nPos pos))%nat /\
        forall FP' st'' b, reading_works FP' -> rtc disk_step st' st'' -> GetUndoPos b = pos ->
          UndoReadFromDisk undo_chunk hashPrev b (files st'') = Ok u).
Proof.
  intros Hbc Huc Hver Hwf Hms. split.
  - intros Hfew Hh Hblk.
    destruct (SaveBlockToDisk_spec version block_chunk cfg block nHeight messageStart st Hwf Hfew Hms Hh (sb_size _ _ Hblk))
      as (st' & r & E & Hg & Hw & Hpos & Hworks).
    exists st', r. split_and!; try done. intros pos -> Hnn. destruct (Hpos pos eq_refl Hnn) as (H1 & H2 & H3 & H4 & H5).
    split_and!; [done| |done|].
    { unfold used, used_in. cbn [fst snd]. unfold MAX_BLOCKFILE_SIZE. case_match; [lia|].
      destruct (vinfoBlockFile st' !! Z.to_nat (pos_nFile pos)) as [i|] eqn:Ei; [|lia].
      apply (Forall_lookup_1 _ _ _ _ (fw_infos _ Hw)) in Ei as [Hi _]. unfold size_of, MAX_BLOCKFILE_SIZE in *. lia. }
    intros FP' st'' b Hrw Hsteps Hp Hhash. destruct (disk_steps_grow _ _ Hw Hsteps) as [_ Hg'].
    eapply (read_recorded_block _ _ pos); [done..|lia|lia|by eapply recorded_grows|done|done].
  - intros f i Hi Hu Hsum.
    destruct (SaveUndoToDisk_spec undo_chunk cfg u f hashPrev messageStart i st Hwf Hms Hi Hsum (length_Hash256 _))
      as (st' & r & E & Hg & Hw & Hpos & Hworks).
    exists st', r. split_and!; try done. intros pos ->. destruct (Hpos pos eq_refl) as (H1 & [H2 _] & H3 & H4).
    split; [done|]. intros FP' st'' b Hrw Hsteps Hp. destruct (disk_steps_grow _ _ Hw Hsteps) as [_ Hg'].
    assert (0 <= f) by (unfold info_at in Hi; destruct (Z.ltb_spec f 0); done).
    eapply (read_recorded_undo _ _ pos); [done..|lia|lia|rewrite H1; by eapply recorded_grows|done].
Qed.
End readable.

(** ** What pruning keeps *)

Module pruning_facts.
Import block_files_facts.

Definition entries (st : CChainState) : list ptr := map snd (map_to_list (mapBlockIndex (tree st))).

Lemma forget_twice b : forget_data (forget_data b) = forget_data b.
Proof. unfold forget_data, set_data. cbn. f_equal. apply Z.bits_inj'. intros n Hn. rewrite !Z.land_spec.
  by destruct (Z.testbit (nStatus b) n), (Z.testbit (Z.lnot BLOCK_HAVE_DATA) n), (Z.testbit (Z.lnot BLOCK_HAVE_UNDO) n). Qed.

(** The entries of [l] whose data are in a file of [F] have lost them. *)
Definition lost (l : list ptr) (F : list Z) (p : ptr) (b : CBlockIndex) : bool :=
  bool_decide (p ∈ l) && bool_decide (nFile b ∈ F).
Record index_pruned (l : list ptr) (F : list Z) (st st' : CChainState) : Prop := {
  ip_chain : chainActive st' = chainActive st;
  ip_map : mapBlockIndex (tree st') = mapBlockIndex (tree st);
  ip_blocks : forall p, block_at st' p = (fun b => if lost l F p b then forget_data b else b) <$> block_at st p;
  ip_unlinked : forall e, e ∈ mapBlocksUnlinked st' <->
    e ∈ mapBlocksUnlinked st /\ ~ (exists b, block_at st e.2 = Some b /\ lost l F e.2 b = true /\ e.1 = pprev b);
  ip_dirty : forall p, p ∈ setDirtyBlockIndex (tree st') <->
    p ∈ setDirtyBlockIndex (tree st) \/ exists b, block_at st p = Some b /\ lost l F p b = true;
}.

Lemma index_pruned_none l st : index_pruned l [] st st.
Proof.
  assert (forall p b, lost l [] p b = false) as Hl.
  { intros p b. unfold lost. rewrite (bool_decide_false (nFile b ∈ [])) by apply not_elem_of_nil. apply andb_false_r. }
  split; try done.
  - intros p. destruct (block_at st p) as [b|]; [|done]. cbn. by rewrite Hl.
  - intros e. split; [|tauto]. intros He. split; [done|]. intros (b & _ & Hb & _). by rewrite Hl in Hb.
  - intros p. split; [by left|]. intros [?|(b & _ & Hb)]; [done|]. by rewrite Hl in Hb.
Qed.

Lemma block_at_update p q f st : block_at (update p f st) q = if decide (q = p) then f <$> block_at st q else block_at st q.
Proof.
  unfold block_at, index_of. cbn. case_decide as E; [subst; apply lookup_alter_eq|]. by apply lookup_alter_ne.
Qed.

Lemma prune_entry_spec f p st : is_Some (block_at st p) -> exists st', prune_entry f st p = Some st' /\ index_pruned [p] [f] st st'.
Proof.
  intros [b Hb]. unfold prune_entry. rewrite Hb. cbn [mbind option_bind]. eexists. split; [reflexivity|].
  assert (forall q c, block_at st q = Some c -> lost [p] [f] q c = bool_decide (q = p) && (nFile c =? f)) as Hl.
  { intros q c _. unfold lost. f_equal; [|].
    - apply bool_decide_ext. by rewrite list_elem_of_singleton.
    - destruct (Z.eqb_spec (nFile c) f) as [->|E];
        [apply bool_decide_true|apply bool_decide_false]; by rewrite list_elem_of_singleton. }
  destruct (Z.eqb_spec (nFile b) f) as [Hf|Hf].
  - split; [done..| | |].
    + intros q. match goal with |- block_at ?s q = _ => change (block_at s q) with (block_at (update p forget_data st) q) end. rewrite block_at_update.
      destruct (block_at st q) as [c|] eqn:Hc; [|by case_decide]. cbn [fmap option_fmap option_map]. rewrite (Hl q c Hc).
      case_decide as E; [|by rewrite bool_decide_false]. subst q. assert (c = b) as -> by congruence.
      rewrite bool_decide_true by done. cbn [andb]. by rewrite (proj2 (Z.eqb_eq _ _)).
    + intros [q e]. cbn [mapBlocksUnlinked set_unlinked set_sets]. rewrite list_elem_of_filter. cbn [fst snd].
      split; intros [H1 H2].
      * split; [done|]. intros (c & Hc & Hlost & ->). rewrite (Hl _ _ Hc) in Hlost. apply andb_prop in Hlost as [He _].
        apply bool_decide_eq_true in He. subst e. congruence.
      * split; [|done]. intros [= -> ->]. apply H2. exists b. split_and!; [done| |done]. rewrite (Hl _ _ Hb), bool_decide_true by done.
        by rewrite (proj2 (Z.eqb_eq _ _)).
    + intros q. cbn [tree set_unlinked set_sets dirty set_tree setDirtyBlockIndex update set_heap].
      rewrite elem_of_union, elem_of_singleton. split.
      * intros [->|?]; [right|by left]. exists b. split; [done|]. rewrite (Hl _ _ Hb), bool_decide_true by done.
        by rewrite (proj2 (Z.eqb_eq _ _)).
      * intros [?|(c & Hc & Hlost)]; [by right|left]. rewrite (Hl _ _ Hc) in Hlost. apply andb_prop in Hlost as [He _].
        by apply bool_decide_eq_true in He.
  - assert (forall q c, block_at st q = Some c -> lost [p] [f] q c = false) as Hno.
    { intros q c Hc. rewrite (Hl q c Hc). case_bool_decide as E; [|done]. subst q. assert (c = b) as -> by congruence.
      by rewrite (proj2 (Z.eqb_neq _ _)). }
    split; [done..| | |].
    + intros q. destruct (block_at st q) as [c|] eqn:Hc; [|done]. cbn. by rewrite (Hno q c Hc).
    + intros e. split; [|tauto]. intros He. split; [done|]. intros (c & Hc & Hlost & _). by rewrite (Hno _ _ Hc) in Hlost.
    + intros q. split; [by left|]. intros [?|(c & Hc & Hlost)]; [done|]. by rewrite (Hno _ _ Hc) in Hlost.
Qed.

(** Two steps, for more entries or for more files. *)
Lemma index_pruned_trans l1 F1 l2 F2 l F st st1 st2 :
  (forall p b b', block_at st p = Some b -> b' = (if lost l1 F1 p b then forget_data b else b) ->
     lost l F p b = true <-> lost l1 F1 p b = true \/ lost l2 F2 p b' = true) ->
  index_pruned l1 F1 st st1 -> index_pruned l2 F2 st1 st2 -> index_pruned l F st st2.
Proof.
  intros Hl [A1 A2 A3 A4 A5] [B1 B2 B3 B4 B5].
  assert (forall p b, block_at st p = Some b ->
    block_at st1 p = Some (if lost l1 F1 p b then forget_data b else b)) as Hst1 by (intros p b Hb; by rewrite A3, Hb).
  split; [congruence|congruence| | |].
  - intros p. rewrite B3. destruct (block_at st p) as [b|] eqn:Hb; [|by rewrite A3, Hb]. rewrite (Hst1 p b Hb). cbn [fmap option_fmap option_map].
    specialize (Hl p b _ Hb eq_refl). f_equal.
    destruct (lost l1 F1 p b), (lost l2 F2 p _), (lost l F p b); try done; rewrite ?forget_twice; try done; exfalso; naive_solver.
  - intros e. rewrite B4, A4. destruct (block_at st e.2) as [b|] eqn:Hb.
    + specialize (Hl e.2 b _ Hb eq_refl). rewrite (Hst1 _ _ Hb). split.
      * intros [[H1 H2] H3]. split; [done|]. intros (c & [= <-] & Hlost & He). apply Hl in Hlost as [Hlost|Hlost].
        { apply H2. by exists b. }
        apply H3. eexists. split_and!; [done|done|]. rewrite He. by case_match.
      * intros [H1 H2]. split; [split; [done|]|].
        { intros (c & [= <-] & Hlost & He). apply H2. exists b. split_and!; [done|apply Hl; by left|done]. }
        intros (c & [= <-] & Hlost & He). apply H2. exists b. split_and!; [done|apply Hl; by right|]. rewrite He. by case_match.
    + rewrite A3, Hb. naive_solver.
  - intros p. rewrite B5, A5. destruct (block_at st p) as [b|] eqn:Hb; [|rewrite A3, Hb; naive_solver].
    specialize (Hl p b _ Hb eq_refl). rewrite (Hst1 p b Hb). naive_solver.
Qed.

Lemma lost_cases l F p b : lost l F p b = true <-> p ∈ l /\ nFile b ∈ F.
Proof. unfold lost. by rewrite andb_true_iff, !bool_decide_eq_true. Qed.

Lemma prune_entries_spec f l st : Forall (fun p => is_Some (block_at st p)) l ->
  exists st', prune_entries f l st = Some st' /\ index_pruned l [f] st st'.
Proof.
  revert st. induction l as [|p l IH]; intros st Hl; cbn [prune_entries].
  - exists st. split; [done|]. destruct (index_pruned_none [] st). by split.
  - apply Forall_cons in Hl as [Hp Hl]. destruct (prune_entry_spec f p st Hp) as (st1 & -> & P1). cbn [mbind option_bind].
    destruct (IH st1) as (st2 & -> & P2).
    { eapply Forall_impl; [exact Hl|]. intros q Hq. rewrite (ip_blocks _ _ _ _ P1). by apply fmap_is_Some. }
    exists st2. split; [done|]. eapply index_pruned_trans; [|exact P1|exact P2]. cbn beta.
    intros q b b' _ ->. destruct (lost [p] [f] q b) eqn:E.
    + apply lost_cases in E as [->%list_elem_of_singleton E2]. split; [by left|]. intros _. apply lost_cases. split; [left|done].
    + rewrite !lost_cases. split.
      * intros [[->|H1]%elem_of_cons H2]; [|by right]. exfalso. enough (lost [p] [f] p b = true) by congruence.
        apply lost_cases. split; [by apply list_elem_of_singleton|done].
      * intros [?|[H1 H2]]; [done|]. split; [by right|done].
Qed.

(** The files: their statistics are cleared. *)
Record infos_pruned (F : list Z) (bf bf' : block_files) : Prop := {
  fp_last : nLastBlockFile bf' = nLastBlockFile bf;
  fp_files : files bf' = files bf;
  fp_infos : forall g, info_at bf' g = if decide (g ∈ F) then Some info_SetNull else info_at bf g;
  fp_dirty : forall g, g ∈ setDirtyFileInfo bf' <-> g ∈ setDirtyFileInfo bf \/ g ∈ F;
  fp_flags : fCheckForPruning bf' = fCheckForPruning bf /\ fRequestShutdown bf' = fRequestShutdown bf;
}.

Definition bytes_of (i : CBlockFileInfo) : Z := info_nSize i + info_nUndoSize i.
Definition total (v : list CBlockFileInfo) : Z := foldr (fun i t => bytes_of i + t) 0 v.

Lemma total_clear v f i : v !! f = Some i -> total (<[f := info_SetNull]> v) = total v - bytes_of i.
Proof.
  revert f. induction v as [|j v IH]; intros [|f] H; [done..| |]; cbn in *.
  - injection H as ->. unfold bytes_of. cbn. lia.
  - unfold total in IH. rewrite IH by done. lia.
Qed.

Definition sizes_ok (v : list CBlockFileInfo) : Prop := Forall (fun i => 0 <= info_nSize i /\ 0 <= bytes_of i < 2 ^ 32) v.

Lemma total_bound v f i : sizes_ok v -> v !! f = Some i -> 0 <= bytes_of i <= total v.
Proof.
  intros Hv. revert f. induction Hv as [|j v Hj Hv IH]; intros [|f] H; [done..| |]; cbn in *.
  - injection H as ->. assert (0 <= total v); [|unfold total in *; lia]. clear -Hv. induction Hv; cbn; [done|unfold total in *; lia].
  - specialize (IH f H). unfold total in *. lia.
Qed.

Lemma total_nonneg v : sizes_ok v -> 0 <= total v.
Proof. induction 1; cbn; [done|unfold total in *; lia]. Qed.

Lemma CalculateCurrentUsage_total bf : sizes_ok (vinfoBlockFile bf) -> total (vinfoBlockFile bf) < 2 ^ 64 ->
  CalculateCurrentUsage bf = total (vinfoBlockFile bf).
Proof.
  unfold CalculateCurrentUsage. intros Hv.
  assert (forall a, 0 <= a -> a + total (vinfoBlockFile bf) < 2 ^ 64 ->
    foldl (fun retval file => u64 (retval + u32 (info_nSize file + info_nUndoSize file))) a (vinfoBlockFile bf)
    = a + total (vinfoBlockFile bf)) as Hg.
  { induction Hv as [|i v Hi Hv IH]; intros a Ha Hb; cbn [foldl total foldr]; [lia|]. cbn [total foldr] in Hb. fold (total v) in *.
    pose proof (total_nonneg v Hv). unfold bytes_of in *.
    rewrite (wrap_small 32) by (unfold in_range; lia). rewrite (wrap_small 64) by (unfold in_range; lia).
    rewrite IH by lia. lia. }
  intros Hb. by rewrite Hg.
Qed.

Definition infos_there (bf : block_files) (l : list Z) : Prop := Forall (fun f => is_Some (info_at bf f)) l.

Lemma PruneOneBlockFile_spec f i st bf : Forall (fun p => is_Some (block_at st p)) (entries st) -> info_at bf f = Some i ->
  exists st' bf', PruneOneBlockFile f st bf = Some (st', bf') /\ index_pruned (entries st) [f] st st' /\ infos_pruned [f] bf bf' /\
    total (vinfoBlockFile bf') = total (vinfoBlockFile bf) - bytes_of i /\
    (sizes_ok (vinfoBlockFile bf) -> sizes_ok (vinfoBlockFile bf')).
Proof.
  intros He Hi. unfold PruneOneBlockFile. destruct (prune_entries_spec f (entries st) st He) as (st' & E & Hp).
  unfold entries in E. rewrite E. cbn [mbind option_bind]. rewrite Hi. cbn [mbind option_bind].
  eexists _, _. split; [reflexivity|]. split; [done|].
  assert (0 <= f /\ vinfoBlockFile bf !! Z.to_nat f = Some i) as [Hf Hv].
  { unfold info_at in Hi. destruct (Z.ltb_spec f 0); [done|]. by split. }
  split_and!.
  - split; [done..| | |done]; [|intros g; cbn [setDirtyFileInfo set_infos]; rewrite elem_of_union, elem_of_singleton,
      list_elem_of_singleton; tauto].
    intros g. unfold info_at. cbn [vinfoBlockFile set_infos]. destruct (Z.ltb_spec g 0).
    + rewrite decide_False; [done|]. rewrite list_elem_of_singleton. lia.
    + destruct (decide (g = f)) as [->|Hg].
      * rewrite decide_True by by apply list_elem_of_singleton. apply list_lookup_insert_eq. by eapply lookup_lt_Some.
      * rewrite decide_False by by rewrite list_elem_of_singleton. apply list_lookup_insert_ne. lia.
  - by apply total_clear.
  - intros Hs. apply Forall_insert; [done|]. unfold bytes_of. cbn. lia.
Qed.

Lemma index_pruned_files l f F st st1 st2 : index_pruned l [f] st st1 -> index_pruned l F st1 st2 -> index_pruned l (f :: F) st st2.
Proof.
  intros P1 P2. eapply index_pruned_trans; [|exact P1|exact P2]. cbn beta. intros q b b' _ ->.
  destruct (lost l [f] q b) eqn:E.
  - split; [by left|]. intros _. apply lost_cases in E as [E1 E2%list_elem_of_singleton]. apply lost_cases. split; [done|rewrite E2; left].
  - rewrite !lost_cases. split.
    + intros [H1 [H2|H2]%elem_of_cons]; [|by right]. exfalso. enough (lost l [f] q b = true) by congruence.
      apply lost_cases. split; [done|by apply list_elem_of_singleton].
    + intros [?|[H1 H2]]; [done|]. split; [done|by right].
Qed.

Lemma infos_pruned_files f F bf bf1 bf2 : infos_pruned [f] bf bf1 -> infos_pruned F bf1 bf2 -> infos_pruned (f :: F) bf bf2.
Proof.
  intros [A1 A2 A3 A4 [A5 A6]] [B1 B2 B3 B4 [B5 B6]]. split; [congruence..| | |split; congruence].
  2:{ intros g. rewrite B4, A4, !elem_of_cons. pose proof (not_elem_of_nil g). tauto. }
  intros g. rewrite B3, A3.
  destruct (decide (g ∈ F)) as [H|H].
  - rewrite decide_True; [done|by right].
  - destruct (decide (g ∈ [f])) as [H1|H1]; destruct (decide (g ∈ f :: F)) as [H2|H2]; try done; exfalso.
    + apply list_elem_of_singleton in H1 as ->. apply H2. left.
    + apply elem_of_cons in H2 as [->|H2]; [|done]. apply H1. by apply list_elem_of_singleton.
Qed.

(** What a run of either loop over the files [l] does. *)
Record pruning_run (limit : Z) (l F : list Z) (st st' : CChainState) (bf bf' : block_files) : Prop := {
  pr_index : index_pruned (entries st) F st st';
  pr_infos : infos_pruned F bf bf';
  pr_old : Forall (fun f => f ∈ l /\ exists i, info_at bf f = Some i /\ info_nSize i <> 0 /\ info_nHeightLast i <= limit) F;
}.

Lemma entries_there st st' l F : index_pruned l F st st' -> Forall (fun p => is_Some (block_at st p)) (entries st) ->
  Forall (fun p => is_Some (block_at st' p)) (entries st') /\ entries st' = entries st.
Proof.
  intros [_ Hm Hb _ _] He. assert (entries st' = entries st) as E by (unfold entries; by rewrite Hm). split; [|done]. rewrite E.
  eapply Forall_impl; [exact He|]. intros p Hp. cbn. rewrite Hb. by apply fmap_is_Some.
Qed.

Lemma pruning_run_none limit l st bf : pruning_run limit l [] st st bf bf.
Proof.
  split; [apply index_pruned_none| |constructor]. split; [done..| | |done].
  - intros g. by rewrite decide_False by apply not_elem_of_nil.
  - intros g. split; [by left|]. intros [?|?%not_elem_of_nil]; done.
Qed.

Lemma pruning_run_skip limit f l F st st' bf bf' : pruning_run limit l F st st' bf bf' -> pruning_run limit (f :: l) F st st' bf bf'.
Proof. intros [H1 H2 H3]. split; [done..|]. eapply Forall_impl; [exact H3|]. intros g [Hg Hi]. split; [by right|done]. Qed.

Lemma pruning_run_prune limit f l F st st1 st2 bf bf1 bf2 i : f ∉ l ->
  index_pruned (entries st) [f] st st1 -> infos_pruned [f] bf bf1 -> info_at bf f = Some i -> info_nSize i <> 0 ->
  info_nHeightLast i <= limit -> entries st1 = entries st ->
  pruning_run limit l F st1 st2 bf1 bf2 -> pruning_run limit (f :: l) (f :: F) st st2 bf bf2.
Proof.
  intros Hf P1 I1 Hi Hs Hh He [P2 I2 Hold]. split.
  - rewrite He in P2. by eapply index_pruned_files.
  - by eapply infos_pruned_files.
  - constructor; [split; [left|by exists i]|]. eapply Forall_impl; [exact Hold|]. intros g [Hg (j & Hj & Hj2)].
    split; [by right|]. exists j. split; [|done]. rewrite (fp_infos _ _ _ I1) in Hj.
    rewrite decide_False in Hj; [done|]. rewrite list_elem_of_singleton. by intros ->.
Qed.

Lemma infos_there_after f l bf bf1 : infos_pruned [f] bf bf1 -> infos_there bf l -> infos_there bf1 l.
Proof.
  intros [_ _ Hi _ _] Hl. eapply Forall_impl; [exact Hl|]. intros g Hg. cbn. rewrite Hi. by case_decide.
Qed.

Lemma prune_loop_spec target buffer limit l st bf pruned :
  NoDup l -> infos_there bf l -> Forall (fun p => is_Some (block_at st p)) (entries st) -> sizes_ok (vinfoBlockFile bf) ->
  0 <= buffer -> total (vinfoBlockFile bf) + buffer < 2 ^ 64 ->
  exists st' bf' F u, prune_loop target buffer limit l (total (vinfoBlockFile bf)) st bf pruned = Some (st', bf', pruned ++ F, u) /\
    pruning_run limit l F st st' bf bf' /\
    (total (vinfoBlockFile bf') + buffer < target \/
     forall f i, f ∈ l -> info_at bf' f = Some i -> info_nSize i = 0 \/ limit < info_nHeightLast i).
Proof.
  revert st bf pruned. induction l as [|f l IH]; intros st bf pruned Hnd Hl He Hs Hb Ht; cbn [prune_loop].
  { exists st, bf, [], (total (vinfoBlockFile bf)). rewrite app_nil_r. split; [done|]. split; [apply pruning_run_none|].
    right. intros f i Hf. by apply not_elem_of_nil in Hf. }
  apply NoDup_cons in Hnd as [Hf Hnd]. apply Forall_cons in Hl as [[i Hi] Hl]. rewrite Hi. cbn [mbind option_bind].
  assert (vinfoBlockFile bf !! Z.to_nat f = Some i) as Hv by (unfold info_at in Hi; by destruct (f <? 0)).
  assert (forall st' bf' F, pruning_run limit l F st st' bf bf' -> (info_nSize i = 0 \/ limit < info_nHeightLast i) ->
    (total (vinfoBlockFile bf') + buffer < target \/
     forall g j, g ∈ l -> info_at bf' g = Some j -> info_nSize j = 0 \/ limit < info_nHeightLast j) ->
    total (vinfoBlockFile bf') + buffer < target \/
     forall g j, g ∈ f :: l -> info_at bf' g = Some j -> info_nSize j = 0 \/ limit < info_nHeightLast j) as Hkeep.
  { intros st' bf' F Hrun Hcase [Hdone|Hrest]; [by left|right]. intros g j [->|Hg]%elem_of_cons Hj; [|by apply (Hrest g)].
    rewrite (fp_infos _ _ _ (pr_infos _ _ _ _ _ _ _ Hrun)) in Hj. case_decide; simplify_eq; [by left|done]. }
  destruct (Z.eqb_spec (info_nSize i) 0) as [Hz|Hz].
  { destruct (IH st bf pruned Hnd Hl He Hs Hb Ht) as (st' & bf' & F & u & -> & Hrun & Hend). exists st', bf', F, u.
    split; [done|]. split; [by apply pruning_run_skip|]. eapply Hkeep; eauto. }
  pose proof (total_nonneg _ Hs). rewrite (wrap_small 64) by (unfold in_range; lia).
  destruct (Z.ltb_spec (total (vinfoBlockFile bf) + buffer) target) as [Hd|Hd].
  { exists st, bf, [], (total (vinfoBlockFile bf)). rewrite app_nil_r. split; [done|]. split; [apply pruning_run_none|by left]. }
  rewrite Z.gtb_ltb. destruct (Z.ltb_spec limit (info_nHeightLast i)) as [Hh|Hh].
  { destruct (IH st bf pruned Hnd Hl He Hs Hb Ht) as (st' & bf' & F & u & -> & Hrun & Hend). exists st', bf', F, u.
    split; [done|]. split; [by apply pruning_run_skip|]. eapply Hkeep; eauto. }
  destruct (PruneOneBlockFile_spec f i st bf He Hi) as (st1 & bf1 & -> & P1 & I1 & T1 & S1). cbn [mbind option_bind].
  pose proof (total_bound _ _ _ Hs Hv) as Hti. pose proof (Forall_lookup_1 _ _ _ _ Hs Hv) as [_ Hbi].
  change (info_nSize i + info_nUndoSize i) with (bytes_of i). rewrite (wrap_small 32) by done.
  rewrite (wrap_small 64) by (unfold in_range; lia). rewrite <- T1.
  destruct (entries_there _ _ _ _ P1 He) as [He1 Ee].
  destruct (IH st1 bf1 (pruned ++ [f]) Hnd) as (st' & bf' & F & u & -> & Hrun & Hend);
    [by eapply infos_there_after|done|by apply S1|done|rewrite T1; lia|].
  exists st', bf', (f :: F), u. rewrite <- app_assoc. split; [done|].
  assert (pruning_run limit (f :: l) (f :: F) st st' bf bf') as Hrun' by by eapply pruning_run_prune.
  split; [done|]. destruct Hend as [?|Hrest]; [by left|right].
  intros g j [->|Hg]%elem_of_cons Hj; [|by apply (Hrest g)].
  rewrite (fp_infos _ _ _ (pr_infos _ _ _ _ _ _ _ Hrun')) in Hj. rewrite decide_True in Hj by left. simplify_eq. by left.
Qed.

Lemma prune_manual_spec limit l st bf pruned :
  NoDup l -> infos_there bf l -> Forall (fun p => is_Some (block_at st p)) (entries st) ->
  exists st' bf' F,
    foldl (fun s f => s ≫= fun s => prune_manual_step limit s f) (Some (st, bf, pruned)) l = Some (st', bf', pruned ++ F) /\
    pruning_run limit l F st st' bf bf'.
Proof.
  revert st bf pruned. induction l as [|f l IH]; intros st bf pruned Hnd Hl He; cbn [foldl].
  { exists st, bf, []. rewrite app_nil_r. split; [done|apply pruning_run_none]. }
  apply NoDup_cons in Hnd as [Hf Hnd]. apply Forall_cons in Hl as [[i Hi] Hl]. cbn [mbind option_bind].
  unfold prune_manual_step at 2. rewrite Hi. cbn [mbind option_bind].
  destruct ((info_nSize i =? 0) || (info_nHeightLast i >? limit)) eqn:E.
  - destruct (IH st bf pruned Hnd Hl He) as (st' & bf' & F & -> & Hrun). exists st', bf', F. split; [done|by apply pruning_run_skip].
  - apply orb_false_iff in E as [E1%Z.eqb_neq E2]. rewrite Z.gtb_ltb in E2. apply Z.ltb_ge in E2.
    destruct (PruneOneBlockFile_spec f i st bf He Hi) as (st1 & bf1 & -> & P1 & I1 & _). cbn [mbind option_bind].
    destruct (entries_there _ _ _ _ P1 He) as [He1 Ee].
    destruct (IH st1 bf1 (pruned ++ [f]) Hnd) as (st' & bf' & F & -> & Hrun); [by eapply infos_there_after|done|].
    exists st', bf', (f :: F). rewrite <- app_assoc. split; [done|]. by eapply pruning_run_prune.
Qed.

(** Every entry with data says in which file they are, and the statistics of
    that file allow for its height. *)
Definition data_covered (st : CChainState) (bf : block_files) : Prop :=
  forall p b, p ∈ entries st -> block_at st p = Some b -> have_data b = true -> covers bf (nFile b) (nHeight b).

Lemma forget_no_data b : have_data (forget_data b) = false.
Proof.
  unfold have_data, forget_data, set_data. cbn [nStatus]. apply negb_false_iff, Z.eqb_eq. apply Z.bits_inj'. intros n Hn.
  rewrite !Z.land_spec, Z.lnot_spec, Z.bits_0 by done. by destruct (Z.testbit BLOCK_HAVE_DATA n); rewrite ?andb_false_r.
Qed.

(** What both ways of pruning promise about the blocks. *)
Lemma pruning_run_keeps limit l F st st' bf bf' : data_covered st bf -> pruning_run limit l F st st' bf bf' ->
  (forall p b, p ∈ entries st -> block_at st p = Some b -> have_data b = true -> limit < nHeight b -> block_at st' p = Some b) /\
  (forall p b, p ∈ entries st -> block_at st' p = Some b -> have_data b = true -> nFile b ∉ F) /\
  data_covered st' bf'.
Proof.
  intros Hcov [[_ Hm Hb _ _] [_ _ Hi _ _] Hold].
  assert (forall p b, p ∈ entries st -> block_at st' p = Some b -> have_data b = true -> block_at st p = Some b /\ nFile b ∉ F) as Hback.
  { intros p b Hp. rewrite Hb. destruct (block_at st p) as [c|]; [|done]. cbn. intros [= <-] Hd.
    destruct (lost (entries st) F p c) eqn:E; [by rewrite forget_no_data in Hd|]. split; [done|].
    intros HF. enough (lost (entries st) F p c = true) by congruence. by apply lost_cases. }
  split_and!.
  - intros p b Hp Hpb Hd Hl. rewrite Hb, Hpb. cbn. destruct (lost (entries st) F p b) eqn:E; [|done]. exfalso.
    apply lost_cases in E as [_ E]. rewrite Forall_forall in Hold. destruct (Hold _ E) as (_ & i & Hii & _ & Hh).
    destruct (Hcov p b Hp Hpb Hd) as (j & Hj & Hj2). assert (i = j) as -> by congruence. lia.
  - intros p b Hp Hpb Hd. by apply (Hback p b).
  - intros p b Hp Hpb Hd. assert (entries st' = entries st) as Ee by (unfold entries; by rewrite Hm). rewrite Ee in Hp.
    destruct (Hback p b Hp Hpb Hd) as [H1 H2]. destruct (Hcov p b Hp H1 Hd) as (j & Hj & Hj2). exists j. split; [|done].
    rewrite Hi. by rewrite decide_False.
Qed.
End pruning_facts.

Section pruning_correct.
Import block_files_facts pruning_facts.

(** Pruning.  When the tip is higher than [PruneAfterHeight], which is at
    least 288, [FindFilesToPrune] always ends; no block within 288 of the tip
    loses its data; every other file it chose is older than the file being
    written, is cleared, and no entry refers to it any more, so that the files
    that [UnlinkPrunedFiles] then removes are not missed; and afterwards
    either the files fit under the target, or no file that is left is old
    enough.  The command [FindFilesToPruneManual] keeps the same blocks, and
    those above the height it is given. *)
Theorem pruning_correct (cfg : prune_settings) (after height : Z) (st : CChainState) (bf : block_files) (t : ptr) (b : CBlockIndex) :
  Tip (chainActive st) = Some t -> block_at st t = Some b -> 0 <= nHeight b < 2 ^ 31 ->
  MIN_BLOCKS_TO_KEEP <= after < nHeight b -> 0 < nPruneTarget cfg ->
  nLastBlockFile bf <= Z.of_nat (length (vinfoBlockFile bf)) -> sizes_ok (vinfoBlockFile bf) -> total (vinfoBlockFile bf) < 2 ^ 63 ->
  Forall (fun p => is_Some (block_at st p)) (entries st) -> data_covered st bf ->
  (exists st' bf' F, FindFilesToPrune cfg after st bf = Some (st', bf', F) /\
    Forall (fun f => 0 <= f < nLastBlockFile bf) F /\ index_pruned (entries st) F st st' /\ infos_pruned F bf bf' /\
    data_covered st' bf' /\
    (forall p c, p ∈ entries st -> block_at st p = Some c -> have_data c = true -> nHeight b - MIN_BLOCKS_TO_KEEP < nHeight c ->
      block_at st' p = Some c) /\
    (forall p c, p ∈ entries st -> block_at st' p = Some c -> have_data c = true -> nFile c ∉ F) /\
    (total (vinfoBlockFile bf') + (BLOCKFILE_CHUNK_SIZE + UNDOFILE_CHUNK_SIZE) < nPruneTarget cfg \/
     forall f i, 0 <= f < nLastBlockFile bf -> info_at bf' f = Some i ->
       info_nSize i = 0 \/ nHeight b - MIN_BLOCKS_TO_KEEP < info_nHeightLast i)) /\
  (fPruneMode cfg = true -> 0 < height < 2 ^ 31 ->
   exists st' bf' F, FindFilesToPruneManual cfg height st bf = Some (st', bf', F) /\
    Forall (fun f => 0 <= f < nLastBlockFile bf) F /\ index_pruned (entries st) F st st' /\ infos_pruned F bf bf' /\
    data_covered st' bf' /\
    (forall p c, p ∈ entries st -> block_at st p = Some c -> have_data c = true ->
      nHeight b - MIN_BLOCKS_TO_KEEP < nHeight c \/ height < nHeight c -> block_at st' p = Some c) /\
    (forall p c, p ∈ entries st -> block_at st' p = Some c -> have_data c = true -> nFile c ∉ F)).
Proof.
  intros Ht Hb Hh Hafter Htarget Hlast Hs Htot He Hcov. set (l := seqZ 0 (nLastBlockFile bf)).
  assert (NoDup l) as Hnd by apply NoDup_seqZ.
  assert (infos_there bf l) as Hl.
  { apply Forall_forall. intros f Hf%elem_of_seqZ. unfold info_at. rewrite (proj2 (Z.ltb_ge _ _)) by lia.
    apply lookup_lt_is_Some. lia. }
  assert (forall limit F st' bf', pruning_run limit l F st st' bf bf' -> Forall (fun f => 0 <= f < nLastBlockFile bf) F) as HF.
  { intros limit F st' bf' [_ _ Hold]. eapply Forall_impl; [exact Hold|]. intros f [Hf%elem_of_seqZ _]. cbn. lia. }
  pose proof (total_nonneg _ Hs). unfold MIN_BLOCKS_TO_KEEP in *. pow_literals.
  assert (u32 (u32 (nHeight b) - 288) = nHeight b - 288) as Hlim.
  { rewrite (wrap_small 32 (nHeight b)) by (unfold in_range; pow_literals; lia). apply wrap_small. unfold in_range. pow_literals. lia. }
  split.
  - unfold FindFilesToPrune. rewrite Ht. destruct (Z.eqb_spec (nPruneTarget cfg) 0); [lia|]. rewrite Hb. cbn [mbind option_bind].
    rewrite (wrap_small 64) by (unfold in_range; pow_literals; lia). rewrite (proj2 (Z.leb_gt _ _)) by lia.
    unfold MIN_BLOCKS_TO_KEEP. rewrite Hlim.
    rewrite CalculateCurrentUsage_total by (done || (pow_literals; lia)). set (buffer := BLOCKFILE_CHUNK_SIZE + UNDOFILE_CHUNK_SIZE).
    assert (buffer = 17825792) as Hbuf by reflexivity.
    rewrite (wrap_small 64) by (unfold in_range; pow_literals; lia). rewrite Z.geb_leb.
    destruct (Z.leb_spec (nPruneTarget cfg) (total (vinfoBlockFile bf) + buffer)) as [Hge|Hlt].
    + destruct (prune_loop_spec (nPruneTarget cfg) buffer (nHeight b - 288) l st bf [] Hnd Hl He Hs) as
        (st' & bf' & F & u & E & Hrun & Hend); [lia|pow_literals; lia|]. fold l. rewrite E. cbn [mbind option_bind app].
      destruct (pruning_run_keeps _ _ _ _ _ _ _ Hcov Hrun) as (K1 & K2 & K3).
      exists st', bf', F. split; [done|]. split; [by eapply HF|]. destruct Hrun as [H1 H2 _].
      split_and!; try done. destruct Hend as [Hend|Hend]; [by left|right]. intros f i Hf. apply Hend. apply elem_of_seqZ. lia.
    + pose proof (pruning_run_none (nHeight b - 288) l st bf) as Hrun.
      destruct (pruning_run_keeps _ _ _ _ _ _ _ Hcov Hrun) as (K1 & K2 & K3). destruct Hrun as [H1 H2 _].
      exists st, bf, []. split_and!; try done. by left.
  - intros Hmode Hheight. unfold FindFilesToPruneManual. rewrite Hmode, Z.gtb_ltb, (proj2 (Z.ltb_lt _ _)) by lia. cbn [andb negb].
    rewrite Ht, Hb. cbn [mbind option_bind]. unfold MIN_BLOCKS_TO_KEEP. rewrite Hlim.
    rewrite (wrap_small 32 height) by (unfold in_range; pow_literals; lia).
    destruct (prune_manual_spec (Z.min height (nHeight b - 288)) l st bf [] Hnd Hl He) as (st' & bf' & F & E & Hrun).
    fold l. rewrite E. cbn [app]. destruct (pruning_run_keeps _ _ _ _ _ _ _ Hcov Hrun) as (K1 & K2 & K3).
    exists st', bf', F. split; [done|]. split; [by eapply HF|]. destruct Hrun as [H1 H2 _]. split_and!; try done.
    intros p c Hp Hc Hd Hor. apply K1; [done..|lia].
Qed.
End pruning_correct.

Section codecs.
Import compress_facts.

(** The statistics and the positions on disk. *)
Record info_storable (i : CBlockFileInfo) : Prop := {
  is_small : Forall (in_range 32) [info_nBlocks i; info_nSize i; info_nUndoSize i; info_nHeightFirst i; info_nHeightLast i];
  is_times : Forall (in_range 64) [info_nTimeFirst i; info_nTimeLast i];
}.

#[export] Instance file_info_forward : ForwardLaws file_info_codec info_storable.
Proof.
  split; cbn [Serialize Unserialize file_info_codec].
  - intros i [H32 H64]. rewrite !Forall_app. repeat (apply Forall_cons in H32 as [? H32]). repeat (apply Forall_cons in H64 as [? H64]).
    split_and!; by apply write_varint_ok.
  - intros i s [H32 H64].
    repeat (apply Forall_cons in H32 as [? H32]). repeat (apply Forall_cons in H64 as [? H64]). do 7 vput. by destruct i.
Qed.

#[export] Instance pos_forward : ForwardLaws pos_codec (fun p => in_range 31 (pos_nFile p) /\ in_range 32 (pos_nPos p)).
Proof.
  split; cbn [Serialize Unserialize pos_codec].
  - intros p [H1 H2]. rewrite Forall_app. split; by apply write_varint_ok.
  - intros p s [H1 H2]. do 2 vput. by destruct p.
Qed.
End codecs.

(** A system on which everything works, a node that starts with no files, and
    the second case of the theorem for the block that is saved first. *)
Module block_files_example.
Export blockcheck_example.
Import transaction_facts block_facts compress_facts block_files_facts.

#[export] Instance ideal : FilePlatform := {|
  fopen_existing _ := true; fopen_create _ := true; fseek_works := true; ftell_works := true; fwrite_count d := length d;
  allocate_works := true; ftruncate_works := true; space_available := 2 ^ 40 |}.
#[export] Instance ideal_laws : FilePlatformLaws ideal.
Proof. by split. Qed.
Lemma ideal_works : platform_works.
Proof. split; done. Qed.
Lemma ideal_reads : reading_works ideal.
Proof. done. Qed.

Definition no_files : block_files := {|
  vinfoBlockFile := []; nLastBlockFile := 0; setDirtyFileInfo := ∅; fCheckForPruning := false; fRequestShutdown := false;
  files := ∅ |}.
Lemma no_files_wf : files_wf no_files.
Proof. by split. Qed.

Definition settings : prune_settings := {| fPruneMode := true; nPruneTarget := 550 * 1024 * 1024 |}.
Definition magic : bytes := [0xf9; 0xbe; 0xb4; 0xd9].

Lemma header_ok : header_wf block.
Proof. split; try decided; vm_compute; split; done || discriminate. Qed.

Lemma carried_ok : Forall carried (vtx block).
Proof.
  constructor; [|constructor; [|constructor]].
  - split; [reflexivity|]. split; [|left; discriminate]. split; decided.
  - split; [reflexivity|]. split; [exact tx_is_ok|left; discriminate].
Qed.

Lemma block_storable : storable (L := _) 0 5000000 params block.
Proof.
  split; [exact header_ok|exact carried_ok| | | |]; try (vm_compute; done || discriminate).
Qed.
End block_files_example.
Import block_files_facts block_files_example.

Lemma saved_data_readable_witness :
  exists st' pos, SaveBlockToDisk 0 5000000 settings block 7 magic None no_files = Some (st', Ok pos) /\
    forall b, GetBlockPos b = pos -> phashBlock b = header_GetHash block ->
      ReadBlockFromDisk 0 5000000 params b (files st') = Ok block.
Proof.
  destruct (saved_data_readable 0 5000000 5000000 settings params block 7 {| vtxundo := [] |} uint256_null magic no_files)
    as [H _]; [lia|lia|reflexivity|exact no_files_wf|reflexivity|].
  destruct (H ltac:(vm_compute; reflexivity) ltac:(decided) block_storable) as (st' & r & E & _ & Hw & Hr).
  destruct (Hw ideal_works) as (pos & -> & Hnn). destruct (Hr pos eq_refl Hnn) as (_ & _ & _ & Hread).
  exists st', pos. split; [exact E|]. intros b Hp Hh. exact (Hread ideal st' b ideal_reads (rtc_refl _ st') Hp Hh).
Defined.

(** The fallback of [OpenDiskFile] to [wb+]: when [rb+] fails on a file that
    is there, for want of a file descriptor say, and the next call works, the
    blocks in it are lost. *)
Lemma reopening_empties_file :
  let unlucky := {| fopen_existing _ := false; fopen_create _ := true; fseek_works := true; ftell_works := true;
                    fwrite_count d := length d; allocate_works := true; ftruncate_works := true; space_available := 2 ^ 40 |} in
  (OpenDiskFile (FP := unlucky) {| pos_nFile := 0; pos_nPos := 0 |} BLK false {[ (BLK, 0) := [1; 2; 3] ]}).1
  = {[ (BLK, 0) := [] ]}.
Proof. vm_compute. reflexivity. Qed.

(** A chain of height 1000 whose blocks at heights 5 and 1000 are in two
    files that are far too large together. *)
Module pruning_example.
Export block_files_example.

Definition stored_at (file h : Z) (b : CBlockIndex) : CBlockIndex :=
  set_data 1 1 file 8 0 (Z.lor BLOCK_VALID_SCRIPTS BLOCK_HAVE_DATA) (set_links (pprev b) h None b).
Definition old_block : CBlockIndex := stored_at 0 5 (chain_example.entry 1 None 5).
Definition tip_block : CBlockIndex := stored_at 1 1000 (chain_example.entry 2 (Some 1%positive) 1000).
Definition chain : CChainState := set_chain [Some 1%positive; Some 2%positive] (chainstate_facts.headers_only {|
  heap := <[2%positive := tip_block]> {[ 1%positive := old_block ]};
  mapBlockIndex := <[phashBlock tip_block := 2%positive]> {[ phashBlock old_block := 1%positive ]};
  pindexBestHeader := None; setDirtyBlockIndex := ∅ |}).
Definition info (size h : Z) : CBlockFileInfo := {|
  info_nBlocks := 1; info_nSize := size; info_nUndoSize := 5; info_nHeightFirst := h; info_nHeightLast := h;
  info_nTimeFirst := 7; info_nTimeLast := 7 |}.
Definition two_files : block_files := {|
  vinfoBlockFile := [info 0x7f00000 5; info 0x6000000 1000]; nLastBlockFile := 1; setDirtyFileInfo := ∅;
  fCheckForPruning := true; fRequestShutdown := false; files := {[ (BLK, 0) := [1]; (BLK, 1) := [2] ]} |}.
Definition settings1 : prune_settings := {| fPruneMode := true; nPruneTarget := 0x8000000 |}.
End pruning_example.
Import block_files_facts pruning_facts pruning_example.

Lemma pruning_correct_witness :
  exists st' bf' F, FindFilesToPrune settings1 300 chain two_files = Some (st', bf', F) /\ F = [0] /\
    block_at st' 2%positive = Some tip_block /\ block_at st' 1%positive = Some (forget_data old_block) /\
    total (vinfoBlockFile bf') + (BLOCKFILE_CHUNK_SIZE + UNDOFILE_CHUNK_SIZE) < nPruneTarget settings1.
Proof.
  assert (forall p, p ∈ entries chain -> p = 2%positive \/ p = 1%positive) as Hcases.
  { intros p Hp. vm_compute in Hp. apply elem_of_cons in Hp as [->|Hp]; [by right|].
    apply elem_of_cons in Hp as [->|Hp]; [by left|]. by apply not_elem_of_nil in Hp. }
  destruct (pruning_correct settings1 300 300 chain two_files 2%positive tip_block) as
    [(st' & bf' & F & E & _ & H1 & _ & _ & H2 & _ & H3) _].
  - vm_compute. reflexivity.
  - vm_compute. reflexivity.
  - cbn. lia.
  - unfold MIN_BLOCKS_TO_KEEP. cbn. lia.
  - cbn. lia.
  - cbn. lia.
  - repeat constructor; vm_compute; discriminate.
  - vm_compute. reflexivity.
  - apply Forall_forall. intros p Hp. destruct (Hcases p Hp) as [-> | ->]; vm_compute; eexists; reflexivity.
  - intros p b Hp Hb _. destruct (Hcases p Hp) as [-> | ->]; vm_compute in Hb; injection Hb as <-;
      (eexists; split; [vm_compute; reflexivity|vm_compute; discriminate]).
  - exists st', bf', F. split; [exact E|].
    assert (option_map (fun r => (r.2, total (vinfoBlockFile r.1.2))) (FindFilesToPrune settings1 300 chain two_files)
      = Some ([0], 0x6000005)) as E2 by (vm_compute; reflexivity).
    rewrite E in E2. injection E2 as -> ET. split; [reflexivity|]. split.
    + apply (H2 2%positive); [vm_compute; right; left|vm_compute; reflexivity..].
    + split; [|rewrite ET; vm_compute; reflexivity]. rewrite (ip_blocks _ _ _ _ H1). vm_compute. reflexivity.
Defined.
