(* ===== verification/BlockDb.v ===== *)
(** * The index database and the flush of the node's state ([txdb.cpp], [validation.cpp])

    [pblocktree] is a LevelDB database of three kinds of keys; a batch is
    written as a whole or not at all, and whether it is comes from the class
    [FlushPlatform].  [FlushStateToDisk] writes what has changed of the index
    and of the statistics, removes pruned files and flushes the coins.  The
    locks, the wallet's [SetBestChain] and the log are left out. *)

From S2P Require Import Prelude ArithUint256 Uint256 Hash Chain Params Script Interpreter Serialize Transaction Coins TxVerify Block ChainState Activation Compress BlockFiles.
Import base_uint.

(** ** [CBlockTreeDB] *)

Record CBlockTreeDB := {
  db_block_files : gmap Z CBlockFileInfo;
  db_last_block : option Z;
  db_block_index : gmap uint256 CDiskBlockIndex;
  db_pruned : bool;
}.

Definition WriteFlag_pruned (db : CBlockTreeDB) : CBlockTreeDB := {|
  db_block_files := db_block_files db; db_last_block := db_last_block db; db_block_index := db_block_index db;
  db_pruned := true |}.

(** The batch: the statistics of files, the last file, the entries. *)
Definition WriteBatchSync (fileInfo : list (Z * CBlockFileInfo)) (nLastFile : Z) (blockinfo : list (uint256 * CDiskBlockIndex))
    (db : CBlockTreeDB) : CBlockTreeDB := {|
  db_block_files := foldl (fun m e => <[e.1 := e.2]> m) (db_block_files db) fileInfo;
  db_last_block := Some nLastFile;
  db_block_index := foldl (fun m e => <[e.1 := e.2]> m) (db_block_index db) blockinfo;
  db_pruned := db_pruned db |}.

Definition ReadBlockFileInfo (nFile : Z) (db : CBlockTreeDB) : option CBlockFileInfo := db_block_files db !! nFile.

(** ** [FlushStateToDisk] *)

Definition DATABASE_WRITE_INTERVAL : Z := 60 * 60.
Definition DATABASE_FLUSH_INTERVAL : Z := 24 * 60 * 60.
Definition MAX_BLOCK_COINSDB_USAGE : Z := 10.

(** The times are the static variables of the function; the sizes and the
    times stay far from the limits of [int64_t]. *)
Record disk_state (V : Type) := {
  ds_files : block_files;
  ds_db : CBlockTreeDB;
  pcoinsTip : CCoinsViewCache V;
  fHavePruned : bool;
  nLastWrite : Z;
  nLastFlush : Z;
  nLastSetChain : Z;
}.
Arguments ds_files {V} d.
Arguments ds_db {V} d.
Arguments pcoinsTip {V} d.
Arguments fHavePruned {V} d.
Arguments nLastWrite {V} d.
Arguments nLastFlush {V} d.
Arguments nLastSetChain {V} d.

Definition set_disk {V} (fs : block_files) (db : CBlockTreeDB) (coins : CCoinsViewCache V) (pruned : bool) (ds : disk_state V)
    : disk_state V := {|
  ds_files := fs; ds_db := db; pcoinsTip := coins; fHavePruned := pruned;
  nLastWrite := nLastWrite ds; nLastFlush := nLastFlush ds; nLastSetChain := nLastSetChain ds |}.
Definition set_times {V} (write flush setchain : Z) (ds : disk_state V) : disk_state V := {|
  ds_files := ds_files ds; ds_db := ds_db ds; pcoinsTip := pcoinsTip ds; fHavePruned := fHavePruned ds;
  nLastWrite := write; nLastFlush := flush; nLastSetChain := setchain |}.
Definition abort_disk {V} (ds : disk_state V) : disk_state V :=
  set_disk (AbortNode (ds_files ds)) (ds_db ds) (pcoinsTip ds) (fHavePruned ds) ds.

Record flush_settings := {
  fl_prune : prune_settings;
  fl_pruneAfterHeight : Z;
  nCoinCacheUsage : Z;
  nMempoolSizeMax : Z;
}.

(** The clock, the memory that the map of the coins takes, and whether writes
    to the index database succeed. *)
Class FlushPlatform := {
  GetTimeMicros : Z;
  map_usage : CCoinsMap -> Z;
  flag_write_works : bool;
  batch_write_works : bool;
}.

Section flush.
Context {V : Type} `{CV : CCoinsView V} `{P : CoinsPlatform} `{FP : FilePlatform} `{LP : FlushPlatform}.

(** What is dirty, as it is now; [None] is a pointer that leads nowhere. *)
Fixpoint collect {A B} (f : A -> option B) (l : list A) : option (list B) :=
  match l with [] => Some [] | a :: l => b ← f a; l ← collect f l; Some (b :: l) end.

Definition dirty_file (bf : block_files) (f : Z) : option (Z * CBlockFileInfo) := i ← info_at bf f; Some (f, i).
Definition dirty_block (m : index_map) (p : ptr) : option (uint256 * CDiskBlockIndex) :=
  b ← m !! p; d ← make_disk_index m b; Some (phashBlock b, d).

(** Whether there is something to prune, and if so what. *)
Definition choose_pruned (cfg : flush_settings) (fReindex : bool) (nManualPruneHeight : Z) (st : CChainState) (bf : block_files)
    : option (CChainState * block_files * list Z) :=
  if fPruneMode (fl_prune cfg) && (fCheckForPruning bf || (nManualPruneHeight >? 0)) && negb fReindex then
    if nManualPruneHeight >? 0 then FindFilesToPruneManual (fl_prune cfg) nManualPruneHeight st bf
    else
      '(st, bf, files) ← FindFilesToPrune (fl_prune cfg) (fl_pruneAfterHeight cfg) st bf;
      Some (st, set_flags false (fRequestShutdown bf) bf, files)
  else Some (st, bf, []).

(** The conditions of a full flush and of a write of the index. *)
Definition full_flush (cfg : flush_settings) (mode : FlushStateMode) (nMempoolUsage : Z) (fFlushForPrune : bool)
    (ds : disk_state V) : bool :=
  let nNow := GetTimeMicros in
  let cacheSize := map_usage (cacheCoins (pcoinsTip ds)) + cachedCoinsUsage (pcoinsTip ds) in
  let nTotalSpace := nCoinCacheUsage cfg + Z.max (nMempoolSizeMax cfg - nMempoolUsage) 0 in
  let periodic := match mode with FLUSH_STATE_PERIODIC => true | _ => false end in
  let fCacheLarge := periodic && (cacheSize >? Z.max (Z.quot (9 * nTotalSpace) 10)
                                                (nTotalSpace - MAX_BLOCK_COINSDB_USAGE * 1024 * 1024)) in
  let fCacheCritical := match mode with FLUSH_STATE_IF_NEEDED => true | _ => false end && (cacheSize >? nTotalSpace) in
  let fPeriodicFlush := periodic && (nNow >? nLastFlush ds + DATABASE_FLUSH_INTERVAL * 1000000) in
  match mode with FLUSH_STATE_ALWAYS => true | _ => false end || fCacheLarge || fCacheCritical || fPeriodicFlush || fFlushForPrune.

Definition periodic_write (mode : FlushStateMode) (ds : disk_state V) : bool :=
  match mode with FLUSH_STATE_PERIODIC => true | _ => false end &&
  (GetTimeMicros >? nLastWrite ds + DATABASE_WRITE_INTERVAL * 1000000).

Definition clear_dirty (st : CChainState) : CChainState :=
  set_tree {| heap := heap (tree st); mapBlockIndex := mapBlockIndex (tree st);
              pindexBestHeader := pindexBestHeader (tree st); setDirtyBlockIndex := ∅ |} st.

(** The index is written after the block files and before files are removed;
    the dirty sets are emptied first. *)
Definition write_index (pruned : list Z) (st : CChainState) (ds : disk_state V) : option (CChainState * disk_state V * bool) :=
  let '(bf, space) := CheckDiskSpace 0 (ds_files ds) in
  let ds := set_disk bf (ds_db ds) (pcoinsTip ds) (fHavePruned ds) ds in
  if negb space then Some (st, ds, false)
  else
    bf ← FlushBlockFile false bf;
    vFiles ← collect (dirty_file bf) (elements (setDirtyFileInfo bf));
    let bf := set_infos (vinfoBlockFile bf) (nLastBlockFile bf) ∅ bf in
    vBlocks ← collect (dirty_block (index_of st)) (elements (setDirtyBlockIndex (tree st)));
    let st := clear_dirty st in
    let ds := set_disk bf (ds_db ds) (pcoinsTip ds) (fHavePruned ds) ds in
    if negb batch_write_works then Some (st, abort_disk ds, false)
    else
      let db := WriteBatchSync vFiles (nLastBlockFile bf) vBlocks (ds_db ds) in
      let bf := UnlinkPrunedFiles pruned bf in
      let ds := set_disk bf db (pcoinsTip ds) (fHavePruned ds) ds in
      Some (st, set_times GetTimeMicros (nLastFlush ds) (nLastSetChain ds) ds, true).

(** The product with [GetCacheSize] is an [unsigned int].  A flush that fails
    leaves the cache that it has emptied; [None] is a [std::logic_error], which
    nothing catches. *)
Definition flush_coins (ds : disk_state V) : option (disk_state V * bool) :=
  let '(coins, best) := cache_GetBestBlock (pcoinsTip ds) in
  let ds := set_disk (ds_files ds) (ds_db ds) coins (fHavePruned ds) ds in
  if base_blob.IsNull best then Some (ds, true)
  else
    let '(bf, space) := CheckDiskSpace (u32 (48 * 2 * 2 * GetCacheSize coins)) (ds_files ds) in
    let ds := set_disk bf (ds_db ds) coins (fHavePruned ds) ds in
    if negb space then Some (ds, false)
    else
      let '(coins, r) := Flush coins in
      let ds := set_disk (ds_files ds) (ds_db ds) coins (fHavePruned ds) ds in
      match r with
      | Ok true => Some (set_times (nLastWrite ds) GetTimeMicros (nLastSetChain ds) ds, true)
      | Ok false | Err database_error => Some (abort_disk ds, false)
      | Err _ => None
      end.

Definition FlushStateToDisk (cfg : flush_settings) (fReindex : bool) (nMempoolUsage : Z) (mode : FlushStateMode)
    (nManualPruneHeight : Z) (st : CChainState) (ds : disk_state V) : option (CChainState * disk_state V * bool) :=
  '(st, bf, pruned) ← choose_pruned cfg fReindex nManualPruneHeight st (ds_files ds);
  let ds := set_disk bf (ds_db ds) (pcoinsTip ds) (fHavePruned ds) ds in
  let fFlushForPrune := negb (bool_decide (pruned = [])) in
  if fFlushForPrune && negb (fHavePruned ds) && negb flag_write_works then Some (st, abort_disk ds, false)
  else
    let ds := if fFlushForPrune && negb (fHavePruned ds) then set_disk bf (WriteFlag_pruned (ds_db ds)) (pcoinsTip ds) true ds
              else ds in
    let nNow := GetTimeMicros in
    let first t := if t =? 0 then nNow else t in
    let ds := set_times (first (nLastWrite ds)) (first (nLastFlush ds)) (first (nLastSetChain ds)) ds in
    let fDoFullFlush := full_flush cfg mode nMempoolUsage fFlushForPrune ds in
    '(st, ds, ok) ← (if fDoFullFlush || periodic_write mode ds then write_index pruned st ds else Some (st, ds, true));
    if negb (ok : bool) then Some (st, ds, false)
    else
      '(ds, ok) ← (if fDoFullFlush then flush_coins ds else Some (ds, true));
      if negb (ok : bool) then Some (st, ds, false)
      else
        let late := match mode with FLUSH_STATE_ALWAYS | FLUSH_STATE_PERIODIC => true | _ => false end &&
                    (nNow >? nLastSetChain ds + DATABASE_WRITE_INTERVAL * 1000000) in
        Some (st, if fDoFullFlush || late then set_times (nLastWrite ds) (nLastFlush ds) nNow ds else ds, true).
End flush.

(** ** Facts *)

Module blockdb_facts.
Import chain_facts block_files_facts pruning_facts compress_facts coins_facts.

(** *** What pruning did, when it ended *)

Record pruned_by (F : list Z) (st st' : CChainState) (bf bf' : block_files) : Prop := {
  pb_index : index_pruned (entries st) F st st';
  pb_infos : infos_pruned F bf bf';
}.

Lemma pruned_by_none st bf : pruned_by [] st st bf bf.
Proof. by destruct (pruning_run_none 0 [] st bf) as [H1 H2 _]. Qed.

Lemma pruned_by_entries F st st' bf bf' : pruned_by F st st' bf bf' -> entries st' = entries st.
Proof. intros [[_ Hm _ _ _] _]. unfold entries. by rewrite Hm. Qed.

Lemma pruned_by_cons f F st st1 st2 bf bf1 bf2 : pruned_by [f] st st1 bf bf1 -> pruned_by F st1 st2 bf1 bf2 ->
  pruned_by (f :: F) st st2 bf bf2.
Proof.
  intros P1 [P2 I2]. rewrite (pruned_by_entries _ _ _ _ _ P1) in P2. destruct P1 as [P1 I1].
  split; [by eapply index_pruned_files|by eapply infos_pruned_files].
Qed.

Lemma prune_entries_there f l st st' : prune_entries f l st = Some st' -> Forall (fun p => is_Some (block_at st p)) l.
Proof.
  revert st. induction l as [|p l IH]; intros st H; [constructor|]. cbn [prune_entries] in H.
  destruct (prune_entry f st p) as [st1|] eqn:E; [|done]. cbn [mbind option_bind] in H.
  assert (is_Some (block_at st p)) as Hp.
  { unfold prune_entry in E. destruct (block_at st p); [by eexists|done]. }
  constructor; [done|]. destruct (prune_entry_spec f p st Hp) as (st1' & E' & P1). rewrite E in E'. simplify_eq.
  eapply Forall_impl; [exact (IH _ H)|]. intros q Hq. cbn in Hq. rewrite (ip_blocks _ _ _ _ P1) in Hq. by apply fmap_is_Some in Hq.
Qed.

Lemma PruneOneBlockFile_inv f st bf st' bf' : PruneOneBlockFile f st bf = Some (st', bf') -> pruned_by [f] st st' bf bf'.
Proof.
  intros H. pose proof H as H'. unfold PruneOneBlockFile in H.
  destruct (prune_entries f _ st) as [st1|] eqn:E; [|done]. cbn [mbind option_bind] in H. apply prune_entries_there in E.
  destruct (info_at bf f) as [i|] eqn:Ei; [|done].
  destruct (PruneOneBlockFile_spec f i st bf E Ei) as (st2 & bf2 & E2 & P & I & _). rewrite H' in E2. simplify_eq. by split.
Qed.

Lemma prune_loop_inv target buffer limit l u st bf pruned st' bf' pruned' u' :
  prune_loop target buffer limit l u st bf pruned = Some (st', bf', pruned', u') ->
  exists F, pruned' = pruned ++ F /\ pruned_by F st st' bf bf'.
Proof.
  revert u st bf pruned. induction l as [|f l IH]; intros u st bf pruned; cbn [prune_loop].
  { intros [= <- <- <- <-]. exists []. rewrite app_nil_r. split; [done|apply pruned_by_none]. }
  destruct (info_at bf f) as [i|]; [|done]. cbn [mbind option_bind].
  destruct (_ =? 0); [apply IH|]. destruct (_ <? _).
  { intros [= <- <- <- <-]. exists []. rewrite app_nil_r. split; [done|apply pruned_by_none]. }
  destruct (_ >? _); [apply IH|]. destruct (PruneOneBlockFile f st bf) as [[st1 bf1]|] eqn:E; [|done]. cbn [mbind option_bind].
  intros H. apply IH in H as (F & -> & P). exists (f :: F). rewrite <- app_assoc. split; [done|].
  eapply pruned_by_cons; [by apply PruneOneBlockFile_inv|done].
Qed.

Lemma prune_manual_inv limit l st bf pruned st' bf' pruned' :
  foldl (fun s f => s ≫= fun s => prune_manual_step limit s f) (Some (st, bf, pruned)) l = Some (st', bf', pruned') ->
  exists F, pruned' = pruned ++ F /\ pruned_by F st st' bf bf'.
Proof.
  revert st bf pruned. induction l as [|f l IH]; intros st bf pruned; cbn [foldl].
  { intros [= <- <- <-]. exists []. rewrite app_nil_r. split; [done|apply pruned_by_none]. }
  cbn [mbind option_bind]. unfold prune_manual_step at 2.
  assert (forall l, foldl (fun s f => s ≫= fun s => prune_manual_step limit s f) None l = None) as Hnone
    by (intros l'; induction l'; done).
  destruct (info_at bf f) as [i|]; cbn [mbind option_bind]; [|by rewrite Hnone]. destruct (_ || _); [apply IH|].
  destruct (PruneOneBlockFile f st bf) as [[st1 bf1]|] eqn:E; cbn [mbind option_bind]; [|by rewrite Hnone].
  intros H. apply IH in H as (F & -> & P). exists (f :: F). rewrite <- app_assoc. split; [done|].
  eapply pruned_by_cons; [by apply PruneOneBlockFile_inv|done].
Qed.

(** The flags of the files apart. *)
Record choice (F : list Z) (st st' : CChainState) (bf bf' : block_files) : Prop := {
  ch_index : index_pruned (entries st) F st st';
  ch_infos : forall g, info_at bf' g = if decide (g ∈ F) then Some info_SetNull else info_at bf g;
  ch_last : nLastBlockFile bf' = nLastBlockFile bf;
  ch_files : files bf' = files bf;
  ch_dirty : forall g, g ∈ setDirtyFileInfo bf' <-> g ∈ setDirtyFileInfo bf \/ g ∈ F;
}.

Lemma choose_pruned_inv cfg fReindex h st bf st' bf' F :
  choose_pruned cfg fReindex h st bf = Some (st', bf', F) -> choice F st st' bf bf'.
Proof.
  assert (forall st' bf' b, pruned_by F st st' bf bf' -> choice F st st' bf (set_flags b (fRequestShutdown bf') bf')) as Hc
    by (intros s f b [P [H1 H2 H3 H4 _]]; by split).
  assert (forall st' bf', pruned_by F st st' bf bf' -> choice F st st' bf bf') as Hc' by (intros s f [P [H1 H2 H3 H4 _]]; by split).
  unfold choose_pruned. destruct (_ && _); [|intros [= <- <- <-]; apply Hc', pruned_by_none]. destruct (_ >? _).
  - unfold FindFilesToPruneManual. destruct (negb _); [done|]. destruct (Tip _); [|intros [= <- <- <-]; apply Hc', pruned_by_none].
    destruct (block_at st p) as [b|]; [|done]. cbn [mbind option_bind]. intros H. apply prune_manual_inv in H as (F' & -> & P).
    by apply Hc'.
  - destruct (FindFilesToPrune _ _ st bf) as [[[st1 bf1] F1]|] eqn:E; [|done]. cbn [mbind option_bind]. intros [= <- <- <-].
    apply Hc. unfold FindFilesToPrune in E. destruct (Tip _) as [t|]; [|injection E as <- <- <-; apply pruned_by_none].
    destruct (_ =? 0); [injection E as <- <- <-; apply pruned_by_none|].
    destruct (block_at st t) as [b|]; [|done]. cbn [mbind option_bind] in E.
    destruct (_ <=? _); [injection E as <- <- <-; apply pruned_by_none|].
    destruct (_ >=? _); [|injection E as <- <- <-; apply pruned_by_none].
    destruct (prune_loop _ _ _ _ _ _ _ _) as [[[[s f] pr] u]|] eqn:E2; [|done]. cbn [mbind option_bind] in E.
    injection E as <- <- <-. apply prune_loop_inv in E2 as (F' & -> & P). exact P.
Qed.

(** *** Batches *)

Lemma collect_spec {A B} (f : A -> option B) l r : collect f l = Some r ->
  (forall a, a ∈ l -> exists b, f a = Some b /\ b ∈ r) /\ (forall b, b ∈ r -> exists a, a ∈ l /\ f a = Some b).
Proof.
  revert r. induction l as [|a l IH]; intros r; cbn [collect].
  { intros [= <-]. split; intros x Hx; by apply not_elem_of_nil in Hx. }
  destruct (f a) as [b|] eqn:E; [|done]. cbn [mbind option_bind]. destruct (collect f l) as [r'|]; [|done]. intros [= <-].
  destruct (IH r' eq_refl) as [H1 H2]. split.
  - intros x [->|Hx]%elem_of_cons; [exists b; split; [done|left]|]. destruct (H1 x Hx) as (y & Hy & Hr). exists y. split; [done|by right].
  - intros y [->|Hy]%elem_of_cons; [exists a; split; [left|done]|]. destruct (H2 y Hy) as (x & Hx & Hf). exists x. split; [by right|done].
Qed.

Section batch.
Context {K : Type} `{Countable K} {A : Type}.
Implicit Types (l : list (K * A)) (m : gmap K A).

Abbreviation put_all := (foldl (fun (m : gmap K A) (e : K * A) => <[e.1 := e.2]> m)).

Lemma put_all_out m l k : (forall v, (k, v) ∉ l) -> put_all m l !! k = m !! k.
Proof.
  revert m. induction l as [|[k' v] l IH]; intros m Hl; [done|]. cbn [foldl]. rewrite IH.
  - apply lookup_insert_ne. cbn [fst]. intros ->. apply (Hl v). left.
  - intros v' Hv. apply (Hl v'). by right.
Qed.

Lemma put_all_in m l k v : (forall v', (k, v') ∈ l -> v' = v) -> (k, v) ∈ l -> put_all m l !! k = Some v.
Proof.
  revert m. induction l as [|[k' v'] l IH]; intros m Hu Hin; [by apply not_elem_of_nil in Hin|]. cbn [foldl].
  destruct (decide (k ∈ l.*1)) as [Hw|Hno].
  - apply list_elem_of_fmap in Hw as ([k2 w] & -> & Hw). cbn [fst] in *.
    apply IH; [|by rewrite <- (Hu w ltac:(by right))]. intros x Hx. apply Hu. by right.
  - assert (forall x, (k, x) ∉ l) as Hn by (intros x Hx; apply Hno; apply list_elem_of_fmap; by exists (k, x)).
    apply elem_of_cons in Hin as [[= -> ->]|Hin]; [|by apply Hn in Hin].
    rewrite put_all_out by done. apply lookup_insert_eq.
Qed.
End batch.

Section disk.
Context {V : Type} `{CV : CCoinsView V} `{CL : !CoinsViewLaws CV} `{P : CoinsPlatform} `{PL : !CoinsPlatformLaws P}
  `{FP : FilePlatform} `{FL : !FilePlatformLaws FP} `{LP : FlushPlatform}.
Implicit Types (st : CChainState) (ds : disk_state V).

(** What a restart finds: every entry of the index that says that a block is
    on disk names a file that is there, and the block that the coins belong
    to has an entry. *)
Record crash_safe ds : Prop := {
  cs_data : forall h d, db_block_index (ds_db ds) !! h = Some d -> stored (di_nStatus d) BLOCK_HAVE_DATA = true ->
    is_Some (files (ds_files ds) !! (BLK, di_nFile d));
  cs_best : base_blob.IsNull (best (view_base (pcoinsTip ds))) = false ->
    is_Some (db_block_index (ds_db ds) !! best (view_base (pcoinsTip ds)));
}.

(** The index in memory: the database has all of it that is not dirty. *)
Record disk_wf st ds : Prop := {
  dw_map : forall h p, mapBlockIndex (tree st) !! h = Some p -> exists b, block_at st p = Some b /\ phashBlock b = h;
  dw_dirty : forall p, p ∈ setDirtyBlockIndex (tree st) ->
    exists b, block_at st p = Some b /\ mapBlockIndex (tree st) !! phashBlock b = Some p;
  dw_prev : forall p b q, block_at st p = Some b -> pprev b = Some q -> is_Some (block_at st q);
  dw_infos : forall f, f ∈ setDirtyFileInfo (ds_files ds) -> is_Some (info_at (ds_files ds) f);
  dw_index : forall h p b, mapBlockIndex (tree st) !! h = Some p -> block_at st p = Some b -> p ∉ setDirtyBlockIndex (tree st) ->
    db_block_index (ds_db ds) !! h = make_disk_index (index_of st) b;
  dw_files : forall f i, info_at (ds_files ds) f = Some i -> f ∉ setDirtyFileInfo (ds_files ds) ->
    default info_SetNull (db_block_files (ds_db ds) !! f) = i;
  dw_stats : forall f, is_Some (db_block_files (ds_db ds) !! f) -> is_Some (info_at (ds_files ds) f);
  dw_known : forall h d, db_block_index (ds_db ds) !! h = Some d -> is_Some (mapBlockIndex (tree st) !! h);
  dw_data : forall h p b, mapBlockIndex (tree st) !! h = Some p -> block_at st p = Some b -> have_data b = true ->
    is_Some (files (ds_files ds) !! (BLK, nFile b));
  dw_coins : cache_ok (pcoinsTip ds);
  dw_best : base_blob.IsNull (cache_best (pcoinsTip ds)) = false -> is_Some (mapBlockIndex (tree st) !! cache_best (pcoinsTip ds));
}.

Lemma make_disk_index_total st ds p b : disk_wf st ds -> block_at st p = Some b -> is_Some (make_disk_index (index_of st) b).
Proof.
  intros W Hb. unfold make_disk_index. destruct (pprev b) as [q|] eqn:E; [|by eexists].
  destruct (dw_prev _ _ W p b q Hb E) as [c Hc]. unfold block_at in Hc. rewrite Hc. by eexists.
Qed.

Lemma make_disk_index_fields m b d : make_disk_index m b = Some d -> di_nStatus d = nStatus b /\ di_nFile d = nFile b.
Proof. unfold make_disk_index. destruct (match pprev b with Some _ => _ | None => _ end); [|done]. cbn. by intros [= <-]. Qed.

(** Only flags and files that the index does not name change. *)
Lemma disk_wf_files st ds bf : disk_wf st ds -> vinfoBlockFile bf = vinfoBlockFile (ds_files ds) ->
  setDirtyFileInfo bf = setDirtyFileInfo (ds_files ds) ->
  (forall f, is_Some (files (ds_files ds) !! (BLK, f)) -> is_Some (files bf !! (BLK, f))) ->
  disk_wf st (set_disk bf (ds_db ds) (pcoinsTip ds) (fHavePruned ds) ds).
Proof.
  intros [H1 H2 H3 H4 H5 H6 H6' H7 H8 H9 H10] Hv Hd Hf. split; try done; cbn [ds_files ds_db pcoinsTip set_disk]; unfold info_at in *.
  - intros f. rewrite Hd, Hv. apply H4.
  - intros f i. rewrite Hd, Hv. apply H6.
  - intros f. rewrite Hv. apply H6'.
  - intros h p b Hh Hp Hb. apply Hf. by apply (H8 h p).
Qed.

Lemma disk_wf_times st ds a b c : disk_wf st ds -> disk_wf st (set_times a b c ds).
Proof. by intros []. Qed.
Lemma crash_safe_times ds a b c : crash_safe ds -> crash_safe (set_times a b c ds).
Proof. by intros []. Qed.
Lemma crash_safe_files ds bf : crash_safe ds ->
  (forall f, is_Some (files (ds_files ds) !! (BLK, f)) -> is_Some (files bf !! (BLK, f))) ->
  crash_safe (set_disk bf (ds_db ds) (pcoinsTip ds) (fHavePruned ds) ds).
Proof. intros [H1 H2] Hf. split; [|done]. intros h d Hd Hs. apply Hf. by apply (H1 h). Qed.

Lemma CheckDiskSpace_same n bf bf' ok : CheckDiskSpace n bf = (bf', ok) ->
  vinfoBlockFile bf' = vinfoBlockFile bf /\ setDirtyFileInfo bf' = setDirtyFileInfo bf /\ files bf' = files bf /\
  nLastBlockFile bf' = nLastBlockFile bf.
Proof. unfold CheckDiskSpace. destruct (_ <? _); by intros [= <- <-]. Qed.

Lemma CheckDiskSpace_ample n bf : ample_space -> in_range 32 n -> CheckDiskSpace n bf = (bf, true).
Proof.
  unfold ample_space, CheckDiskSpace, nMinDiskSpace, in_range. intros Ha Hn. pow_literals.
  rewrite wrap_small by (unfold in_range; pow_literals; lia). destruct (Z.ltb_spec space_available (52428800 + n)); [lia|done].
Qed.

Lemma UnlinkPrunedFiles_spec l bf : 
  (forall key, files (UnlinkPrunedFiles l bf) !! key = if decide (key.2 ∈ l) then None else files bf !! key) /\
  vinfoBlockFile (UnlinkPrunedFiles l bf) = vinfoBlockFile bf /\ setDirtyFileInfo (UnlinkPrunedFiles l bf) = setDirtyFileInfo bf.
Proof.
  split; [|done]. intros key. unfold UnlinkPrunedFiles. cbn [files set_files]. generalize (files bf).
  induction l as [|f l IH]; intros fs; cbn [foldl].
  { by rewrite decide_False by apply not_elem_of_nil. }
  rewrite IH. destruct (decide (key.2 ∈ l)) as [Hl|Hl].
  - rewrite decide_True; [done|by right].
  - destruct (decide (key.2 = f)) as [<-|Hf].
    + rewrite decide_True by left. destruct key as [[] g]; cbn [snd].
      * rewrite lookup_delete_ne by done. apply lookup_delete_eq.
      * apply lookup_delete_eq.
    + rewrite decide_False by (rewrite elem_of_cons; tauto). rewrite !lookup_delete_ne; [done|intros <-; by apply Hf..].
Qed.

(** The batch brings the database up to date. *)
Lemma batch_index st ds vBlocks vFiles last h p b : disk_wf st ds ->
  collect (dirty_block (index_of st)) (elements (setDirtyBlockIndex (tree st))) = Some vBlocks ->
  mapBlockIndex (tree st) !! h = Some p -> block_at st p = Some b ->
  db_block_index (WriteBatchSync vFiles last vBlocks (ds_db ds)) !! h = make_disk_index (index_of st) b.
Proof.
  intros W Hcol Hh Hb. apply collect_spec in Hcol as [H1 H2]. cbn [db_block_index WriteBatchSync].
  destruct (dw_map _ _ W h p Hh) as (b' & Hb' & Hph). assert (b' = b) as -> by congruence.
  assert (forall h' d, (h', d) ∈ vBlocks -> exists q c, q ∈ setDirtyBlockIndex (tree st) /\ block_at st q = Some c /\
    phashBlock c = h' /\ make_disk_index (index_of st) c = Some d /\ mapBlockIndex (tree st) !! h' = Some q) as Hin.
  { intros h' d Hd. destruct (H2 _ Hd) as (q & Hq & Hf). apply elem_of_elements in Hq.
    destruct (dw_dirty _ _ W q Hq) as (c & Hc & Hm). unfold dirty_block in Hf. unfold block_at in Hc. rewrite Hc in Hf.
    cbn [mbind option_bind] in Hf. destruct (make_disk_index (index_of st) c) as [d'|] eqn:Ed; [|done]. cbn in Hf. simplify_eq.
    by exists q, c. }
  destruct (make_disk_index_total st ds p b W Hb) as [d Hd].
  destruct (decide (p ∈ setDirtyBlockIndex (tree st))) as [Hp|Hp].
  - rewrite Hd. apply put_all_in.
    + intros d' Hd'. destruct (Hin _ _ Hd') as (q & c & _ & Hc & _ & Hdc & Hq). assert (q = p) as -> by congruence. congruence.
    + destruct (H1 p ltac:(by apply elem_of_elements)) as ([h' d'] & Hf & Hr). unfold dirty_block in Hf. unfold block_at in Hb.
      rewrite Hb in Hf. cbn [mbind option_bind] in Hf. rewrite Hd in Hf. cbn in Hf. simplify_eq. done.
  - rewrite put_all_out; [by apply (dw_index _ _ W h p b)|]. intros d' Hd'. destruct (Hin _ _ Hd') as (q & c & Hq & _ & _ & _ & Hm).
    congruence.
Qed.

Lemma batch_known st ds vBlocks vFiles last h d : disk_wf st ds ->
  collect (dirty_block (index_of st)) (elements (setDirtyBlockIndex (tree st))) = Some vBlocks ->
  db_block_index (WriteBatchSync vFiles last vBlocks (ds_db ds)) !! h = Some d -> is_Some (mapBlockIndex (tree st) !! h).
Proof.
  intros W Hcol Hd. apply collect_spec in Hcol as [_ H2]. cbn [db_block_index WriteBatchSync] in Hd.
  destruct (decide (h ∈ vBlocks.*1)) as [Hw|Hno].
  - apply list_elem_of_fmap in Hw as ([h2 w] & -> & Hw). destruct (H2 _ Hw) as (q & Hq & Hf). apply elem_of_elements in Hq.
    destruct (dw_dirty _ _ W q Hq) as (c & Hc & Hm). unfold dirty_block in Hf. unfold block_at in Hc. rewrite Hc in Hf.
    cbn [mbind option_bind] in Hf. destruct (make_disk_index (index_of st) c); [|done]. cbn in Hf. simplify_eq. by exists q.
  - rewrite put_all_out in Hd; [by apply (dw_known _ _ W h d)|]. intros x Hx. apply Hno. apply list_elem_of_fmap. by exists (h, x).
Qed.

Lemma batch_files st ds vFiles vBlocks last bf f i : disk_wf st ds -> vinfoBlockFile bf = vinfoBlockFile (ds_files ds) ->
  setDirtyFileInfo bf = setDirtyFileInfo (ds_files ds) ->
  collect (dirty_file bf) (elements (setDirtyFileInfo bf)) = Some vFiles -> info_at bf f = Some i ->
  default info_SetNull (db_block_files (WriteBatchSync vFiles last vBlocks (ds_db ds)) !! f) = i.
Proof.
  intros W Hv Hd Hcol Hi. apply collect_spec in Hcol as [H1 H2]. cbn [db_block_files WriteBatchSync].
  assert (forall g j, (g, j) ∈ vFiles -> g ∈ setDirtyFileInfo bf /\ info_at bf g = Some j) as Hin.
  { intros g j Hj. destruct (H2 _ Hj) as (x & Hx & Hf). apply elem_of_elements in Hx. unfold dirty_file in Hf.
    destruct (info_at bf x) eqn:E; [|done]. cbn in Hf. by simplify_eq. }
  destruct (decide (f ∈ setDirtyFileInfo bf)) as [Hf|Hf].
  - rewrite (put_all_in _ _ _ i); [done|intros j Hj; apply Hin in Hj as [_ Hj]; congruence|].
    destruct (H1 f ltac:(by apply elem_of_elements)) as (x & Hx & Hr). unfold dirty_file in Hx. rewrite Hi in Hx. cbn in Hx. by simplify_eq.
  - rewrite put_all_out; [|intros j Hj; by apply Hin in Hj as [? _]]. apply (dw_files _ _ W); [|by rewrite <- Hd].
    unfold info_at in *. by rewrite <- Hv.
Qed.

Lemma batch_stats st ds vFiles vBlocks last bf f : disk_wf st ds -> vinfoBlockFile bf = vinfoBlockFile (ds_files ds) ->
  collect (dirty_file bf) (elements (setDirtyFileInfo bf)) = Some vFiles ->
  is_Some (db_block_files (WriteBatchSync vFiles last vBlocks (ds_db ds)) !! f) -> is_Some (info_at bf f).
Proof.
  intros W Hv Hcol Hf. apply collect_spec in Hcol as [_ H2]. cbn [db_block_files WriteBatchSync] in Hf.
  destruct (decide (f ∈ vFiles.*1)) as [Hw|Hno].
  - apply list_elem_of_fmap in Hw as ([g i] & -> & Hw). destruct (H2 _ Hw) as (x & _ & Hx). unfold dirty_file in Hx.
    destruct (info_at bf x) eqn:E; [|done]. cbn in Hx. simplify_eq. cbn. by rewrite E.
  - rewrite put_all_out in Hf; [|intros x Hx; apply Hno; apply list_elem_of_fmap; by exists (f, x)].
    apply (dw_stats _ _ W) in Hf. unfold info_at in *. by rewrite Hv.
Qed.

(** Nothing is left that is not in the database. *)
Definition all_written st ds : Prop := setDirtyBlockIndex (tree st) = ∅ /\ setDirtyFileInfo (ds_files ds) = ∅ /\
  db_last_block (ds_db ds) = Some (nLastBlockFile (ds_files ds)).

Lemma write_index_spec pruned st ds st' ds' ok : disk_wf st ds -> crash_safe ds ->
  (forall h p b, mapBlockIndex (tree st) !! h = Some p -> block_at st p = Some b -> have_data b = true -> nFile b ∉ pruned) ->
  write_index pruned st ds = Some (st', ds', ok) ->
  crash_safe ds' /\ pcoinsTip ds' = pcoinsTip ds /\ index_of st' = index_of st /\ mapBlockIndex (tree st') = mapBlockIndex (tree st) /\
  (ok = true -> disk_wf st' ds' /\ all_written st' ds') /\ (batch_write_works = true -> disk_wf st' ds').
Proof.
  intros W S Hpr. unfold write_index. destruct (CheckDiskSpace 0 (ds_files ds)) as [bf space] eqn:Esp.
  apply CheckDiskSpace_same in Esp as (Hv & Hd & Hf & Hl).
  assert (disk_wf st (set_disk bf (ds_db ds) (pcoinsTip ds) (fHavePruned ds) ds)) as W1 by (apply disk_wf_files; [done..|by rewrite Hf]).
  assert (crash_safe (set_disk bf (ds_db ds) (pcoinsTip ds) (fHavePruned ds) ds)) as S1 by (apply crash_safe_files; [done|by rewrite Hf]).
  destruct space; cbn [negb]; [|intros [= <- <- <-]; by split_and!].
  destruct (FlushBlockFile_spec false bf) as (fs & -> & Hp); [done|]. cbn [mbind option_bind].
  destruct (collect (dirty_file (set_files fs bf)) _) as [vFiles|] eqn:EF; [|done]. cbn [mbind option_bind].
  destruct (collect (dirty_block (index_of st)) _) as [vBlocks|] eqn:EB; [|done]. cbn [mbind option_bind].
  assert (forall f, is_Some (files (ds_files ds) !! (BLK, f)) -> is_Some (fs !! (BLK, f))) as Hkeep.
  { intros f [c Hc]. rewrite <- Hf in Hc. destruct (Hp _ _ Hc) as (c' & -> & _). by eexists. }
  set (bf2 := set_infos (vinfoBlockFile (set_files fs bf)) (nLastBlockFile (set_files fs bf)) ∅ (set_files fs bf)).
  destruct batch_write_works eqn:Ew; cbn [negb].
  2:{ intros [= <- <- <-]. split_and!; try done. apply (crash_safe_files ds (AbortNode bf2)); [done|]. exact Hkeep. }
  set (db := WriteBatchSync vFiles (nLastBlockFile bf2) vBlocks (ds_db ds)).
  destruct (UnlinkPrunedFiles_spec pruned bf2) as (U1 & U2 & U3).
  intros [= <- <- <-].
  assert (forall h p b d, mapBlockIndex (tree st) !! h = Some p -> block_at st p = Some b -> db_block_index db !! h = Some d ->
    di_nStatus d = nStatus b /\ di_nFile d = nFile b) as Hentry.
  { intros h p b d Hh Hb Hdd. apply make_disk_index_fields with (m := index_of st). rewrite <- Hdd. symmetry. by eapply batch_index. }
  assert (forall h p b, mapBlockIndex (tree st) !! h = Some p -> block_at st p = Some b -> have_data b = true ->
    is_Some (files (UnlinkPrunedFiles pruned bf2) !! (BLK, nFile b))) as Hfiles.
  { intros h p b Hh Hb Hhd. rewrite U1. cbn [snd]. rewrite decide_False by by eapply Hpr. apply Hkeep. by eapply (dw_data _ _ W). }
  assert (disk_wf (clear_dirty st) (set_times GetTimeMicros (nLastFlush ds) (nLastSetChain ds)
    (set_disk (UnlinkPrunedFiles pruned bf2) db (pcoinsTip ds) (fHavePruned ds) ds))) as W2.
  { destruct W as [A1 A2 A3 A4 A5 A6 A6' A7 A8 A9 A10]. assert (disk_wf st ds) as W by by split.
    split; cbn [ds_files ds_db pcoinsTip set_disk set_times clear_dirty tree set_tree mapBlockIndex setDirtyBlockIndex]; try done.
    - intros h p b Hh Hb _. exact (batch_index st ds vBlocks vFiles _ h p b W EB Hh Hb).
    - intros f i Hi _. eapply (batch_files st ds _ _ _ (set_files fs bf)); try done.
    - intros f Hfs. apply (batch_stats st ds vFiles vBlocks (nLastBlockFile bf2) (set_files fs bf)); done.
    - intros h d. apply (batch_known st ds); done. }
  split_and!; try done.
  apply crash_safe_times. split; cbn [ds_files ds_db pcoinsTip set_disk].
  - intros h d Hd1 Hd2. destruct (batch_known st ds _ _ _ h d W EB Hd1) as [p Hp1]. destruct (dw_map _ _ W h p Hp1) as (b & Hb & _).
    destruct (Hentry h p b d Hp1 Hb Hd1) as [E1 E2]. rewrite E2. eapply Hfiles; [done..|]. unfold have_data. by rewrite <- E1.
  - intros Hn. destruct (cs_best _ S Hn) as [d Hd1]. destruct (dw_known _ _ W _ _ Hd1) as [p Hp1].
    destruct (dw_map _ _ W _ p Hp1) as (b & Hb & _). rewrite (batch_index st ds _ _ _ _ p b W EB Hp1 Hb).
    by eapply make_disk_index_total.
Qed.

(** *** Pruning keeps the index *)

Lemma elem_entries st h p : mapBlockIndex (tree st) !! h = Some p -> p ∈ entries st.
Proof.
  intros H. unfold entries. apply list_elem_of_fmap. exists (h, p). split; [done|]. by apply elem_of_map_to_list.
Qed.
Lemma entries_elem st p : p ∈ entries st -> exists h, mapBlockIndex (tree st) !! h = Some p.
Proof.
  unfold entries. intros H. apply list_elem_of_fmap in H as ([h q] & -> & H). exists h. by apply elem_of_map_to_list in H.
Qed.

Lemma make_disk_index_ext m m' b : (forall q, phashBlock <$> m !! q = phashBlock <$> m' !! q) ->
  make_disk_index m b = make_disk_index m' b.
Proof. intros H. unfold make_disk_index. destruct (pprev b) as [q|]; [|done]. by rewrite H. Qed.

Lemma make_disk_index_ext_parent m m' b : (forall q, pprev b = Some q -> phashBlock <$> m !! q = phashBlock <$> m' !! q) ->
  make_disk_index m b = make_disk_index m' b.
Proof. intros H. unfold make_disk_index. destruct (pprev b) as [q|]; [|done]. by rewrite H. Qed.

Lemma choice_wf F st st1 ds bf : choice F st st1 (ds_files ds) bf -> disk_wf st ds ->
  disk_wf st1 (set_disk bf (ds_db ds) (pcoinsTip ds) (fHavePruned ds) ds) /\
  (forall h p b, mapBlockIndex (tree st1) !! h = Some p -> block_at st1 p = Some b -> have_data b = true ->
     nFile b ∉ F /\ block_at st p = Some b).
Proof.
  intros [[Hch Hm Hb Hu Hd] Hi Hl Hf Hdf] W.
  assert (forall h p b, mapBlockIndex (tree st) !! h = Some p -> block_at st1 p = Some b -> have_data b = true ->
     nFile b ∉ F /\ block_at st p = Some b) as Hback.
  { intros h p b Hp. rewrite Hb. destruct (block_at st p) as [c|]; [|done]. cbn. intros [= <-] Hhd.
    destruct (lost (entries st) F p c) eqn:E; [by rewrite forget_no_data in Hhd|]. split; [|done].
    intros HF. enough (lost (entries st) F p c = true) by congruence. apply lost_cases. split; [by eapply elem_entries|done]. }
  assert (forall p b, block_at st1 p = Some b -> exists c, block_at st p = Some c /\ phashBlock b = phashBlock c /\ pprev b = pprev c) as Hold.
  { intros p b. rewrite Hb. destruct (block_at st p) as [c|]; [|done]. cbn. intros [= <-]. exists c. by destruct (lost _ _ _ _). }
  split; [|intros h p b; rewrite Hm; apply Hback].
  split; cbn [ds_files ds_db pcoinsTip set_disk]; rewrite ?Hm.
  - intros h p Hp. destruct (dw_map _ _ W h p Hp) as (b & E & Eh). rewrite Hb, E. eexists. split; [reflexivity|]. by destruct (lost _ _ _ _).
  - intros p [Hp|(b & E & Hlost)]%Hd.
    + destruct (dw_dirty _ _ W p Hp) as (b & E & Eh). rewrite Hb, E. eexists. split; [reflexivity|]. by destruct (lost _ _ _ _).
    + rewrite Hb, E. eexists. split; [reflexivity|]. rewrite Hlost. change (phashBlock (forget_data b)) with (phashBlock b).
      apply lost_cases in Hlost as [Hp _]. destruct (entries_elem _ _ Hp) as [h Hh].
      destruct (dw_map _ _ W h p Hh) as (b' & E' & <-). congruence.
  - intros p b q E Eq. destruct (Hold p b E) as (c & Ec & _ & Ep). rewrite Ep in Eq. rewrite Hb. apply fmap_is_Some.
    by apply (dw_prev _ _ W p c).
  - intros f [Hfd|Hfd]%Hdf; rewrite Hi; (case_decide; [by eexists|]); [by apply (dw_infos _ _ W)|done].
  - intros h p b Hp E Hnd. assert (block_at st p = Some b) as E0.
    { rewrite Hb in E. destruct (block_at st p) as [c|] eqn:Ec; [|done]. cbn in E. injection E as <-.
      destruct (lost (entries st) F p c) eqn:El; [|done]. exfalso. apply Hnd, Hd. right. by exists c. }
    rewrite (dw_index _ _ W h p b Hp E0) by (intros Hp'; apply Hnd, Hd; by left).
    apply make_disk_index_ext. intros q. fold (block_at st q) (block_at st1 q). change (heap (tree st) !! q) with (block_at st q).
    change (index_of st1 !! q) with (block_at st1 q). change (index_of st !! q) with (block_at st q). rewrite Hb.
    destruct (block_at st q); [|done]. cbn. by destruct (lost _ _ _ _).
  - intros f i Ei Hnd. assert (f ∉ F) as HF by (intros HF; apply Hnd, Hdf; by right). rewrite Hi, decide_False in Ei by done.
    apply (dw_files _ _ W); [done|]. intros Hfd. apply Hnd, Hdf. by left.
  - intros f Hfs. rewrite Hi. case_decide; [by eexists|]. by apply (dw_stats _ _ W).
  - apply (dw_known _ _ W).
  - intros h p b Hp E Hhd. destruct (Hback h p b Hp E Hhd) as [_ E0]. rewrite Hf. by apply (dw_data _ _ W h p).
  - apply (dw_coins _ _ W).
  - apply (dw_best _ _ W).
Qed.

(** *** The coins *)

Lemma disk_wf_coins st ds c : disk_wf st ds -> cache_ok c -> cache_best c = cache_best (pcoinsTip ds) ->
  disk_wf st (set_disk (ds_files ds) (ds_db ds) c (fHavePruned ds) ds).
Proof. intros [] Hc Hb. split; try done. cbn. by rewrite Hb. Qed.

Lemma GetBestBlock_base c c' h : cache_ok c -> cache_GetBestBlock c = (c', h) ->
  cacheCoins c' = cacheCoins c /\ coins (view_base c') = coins (view_base c) /\ best (view_base c') = best (view_base c) /\
  (base_blob.IsNull h = false -> hashBlock c' = h) /\ (writable (view_base c) -> writable (view_base c')).
Proof.
  intros Hc. unfold cache_GetBestBlock. destruct (base_blob.IsNull (hashBlock c)) eqn:En; [|by intros [= <- <-]].
  pose proof (writable_best _ (base_ok _ Hc)) as Hw.
  destruct (GetBestBlock (view_base c)) as [b h'] eqn:Eb. apply GetBestBlock_ok in Eb as (_ & Hcs & Hbest & ->); [|apply Hc].
  intros [= <- <-]. done.
Qed.

Definition same_coins (c c' : CCoinsViewCache V) : Prop :=
  cache_coins c' = cache_coins c /\ cache_best c' = cache_best c.

(** The write of the coins failed: the node is asked to stop, and of the cache
    [c] there is left what [half_flushed] says. *)
Record coins_lost c ds' : Prop := {
  cl_abort : fRequestShutdown (ds_files ds') = true;
  cl_cache : cacheCoins (pcoinsTip ds') ⊆ cacheCoins c;
  cl_hash : hashBlock (pcoinsTip ds') = cache_best c;
  cl_view : view_ok (view_base (pcoinsTip ds'));
  cl_coins : forall o, coins (view_base (pcoinsTip ds')) !! o = coins (view_base c) !! o \/
    coins (view_base (pcoinsTip ds')) !! o = cache_coins c !! o;
  cl_best : best (view_base (pcoinsTip ds')) = best (view_base c) \/ base_blob.IsNull (best (view_base (pcoinsTip ds'))) = true;
}.

(** What comes back from the flush of the cache [c]. *)
Definition coins_flushed c st ds' (ok : bool) : Prop :=
  crash_safe ds' /\ all_written st ds' /\
  ((disk_wf st ds' /\ same_coins c (pcoinsTip ds')) \/
   (ok = false /\ ~ writable (view_base c) /\ coins_lost c ds')) /\
  (ok = true -> disk_wf st ds' /\ (base_blob.IsNull (cache_best c) = false ->
     cacheCoins (pcoinsTip ds') = ∅ /\ coins (view_base (pcoinsTip ds')) = cache_coins c /\
     best (view_base (pcoinsTip ds')) = cache_best c)) /\
  (ample_space -> writable (view_base c) -> ok = true).

(** [GetBestBlock] changes only what the cache remembers. *)
Lemma GetBestBlock_step st ds c h : disk_wf st ds -> crash_safe ds -> all_written st ds -> cache_GetBestBlock (pcoinsTip ds) = (c, h) ->
  forall bf space n, CheckDiskSpace n (ds_files ds) = (bf, space) ->
  let ds' := set_disk bf (ds_db ds) c (fHavePruned ds) ds in
  disk_wf st ds' /\ crash_safe ds' /\ all_written st ds' /\ same_coins (pcoinsTip ds) c.
Proof.
  intros W S A Eg bf space n Esp. destruct (cache_GetBestBlock_ok _ _ _ (dw_coins _ _ W) Eg) as (K1 & K2 & K3 & ->).
  destruct (GetBestBlock_base _ _ _ (dw_coins _ _ W) Eg) as (_ & _ & Kb & _).
  apply CheckDiskSpace_same in Esp as (Hv & Hd & Hf & Hl). split_and!.
  - apply (disk_wf_files st (set_disk (ds_files ds) (ds_db ds) c (fHavePruned ds) ds)); [by apply disk_wf_coins|done|done|].
    cbn [ds_files set_disk]. by rewrite Hf.
  - destruct S as [S1 S2]. split; cbn [ds_files ds_db pcoinsTip set_disk]; [by rewrite Hf|by rewrite Kb].
  - destruct A as (A1 & A2 & A3). split; [done|]. cbn [ds_files ds_db set_disk]. by rewrite Hd, Hl.
  - done.
Qed.

Lemma flush_coins_spec st ds : disk_wf st ds -> crash_safe ds -> all_written st ds ->
  exists ds' ok, flush_coins ds = Some (ds', ok) /\ coins_flushed (pcoinsTip ds) st ds' ok.
Proof.
  intros W S A. unfold flush_coins. destruct (cache_GetBestBlock (pcoinsTip ds)) as [c h] eqn:Eg.
  pose proof (GetBestBlock_step st ds c h W S A Eg) as Step.
  destruct (cache_GetBestBlock_ok _ _ _ (dw_coins _ _ W) Eg) as (K1 & K2 & K3 & ->).
  destruct (GetBestBlock_base _ _ _ (dw_coins _ _ W) Eg) as (Kc & Kv & Kb & Kh & Hw').
  destruct (base_blob.IsNull (cache_best (pcoinsTip ds))) eqn:En.
  { eexists _, true. split; [reflexivity|]. unfold coins_flushed. rewrite En.
    pose proof (disk_wf_coins st ds c W K1 K3). split_and!; try done; [|by left].
    destruct S as [S1 S2]. split; [done|]. cbn. by rewrite Kb. }
  destruct (CheckDiskSpace _ _) as [bf space] eqn:Esp. cbn [ds_files set_disk] in Esp.
  destruct (Step _ _ _ Esp) as (W2 & S2 & A2 & SC). destruct space; cbn [negb].
  2:{ eexists _, false. split; [reflexivity|]. split_and!; try done; [by left|]. intros Ha.
      by rewrite CheckDiskSpace_ample in Esp by (done || apply wrap_range; lia). }
  destruct (Flush c) as [c' r] eqn:EF. destruct (Flush_ok c c' r K1 EF) as [Hw Hcase].
  destruct (decide (r = Ok true)) as [->|Hne].
  - destruct Hcase as (F1 & F2 & F3 & F4 & F5 & F6). specialize (F6 ltac:(by rewrite (Kh eq_refl))) as [F6 F7].
    pose proof (disk_wf_coins st _ c' W2 F1 ltac:(cbn [pcoinsTip set_disk]; congruence)) as W3.
    eexists _, true. split; [reflexivity|]. split_and!; try done.
    + apply crash_safe_times. destruct S2 as [S2a S2b]. split; [done|]. cbn. rewrite F6, K3. intros _.
      destruct (dw_best _ _ W En) as [p Hp]. destruct (dw_map _ _ W _ p Hp) as (b & Hb & _).
      rewrite (dw_index _ _ W _ p b Hp Hb); [by eapply make_disk_index_total|]. rewrite (proj1 A). apply not_elem_of_empty.
    + left. split; [by apply disk_wf_times|]. split; cbn; congruence.
    + intros _. split; [by apply disk_wf_times|]. intros _. cbn. split_and!; congruence.
  - destruct Hcase as [Hr H2 _ H4 H5 H6 H7].
    assert (coins_lost (pcoinsTip ds) (abort_disk (set_disk bf (ds_db ds) c' (fHavePruned ds) ds))) as L.
    { split; cbn [abort_disk set_disk pcoinsTip]; [done|by rewrite <- Kc|rewrite H4; by apply Kh|done| |].
      - intros o. rewrite <- Kv, <- K2. apply H6.
      - by rewrite <- Kb. }
    exists (abort_disk (set_disk bf (ds_db ds) c' (fHavePruned ds) ds)), false.
    split; [by destruct Hr as [-> | ->]|]. split_and!; try done.
    + destruct S2 as [S2a S2b]. split; [done|]. cbn [abort_disk set_disk pcoinsTip ds_db]. intros Hn. destruct H7 as [E|E]; [|congruence]. rewrite E in *. by apply S2b.
    + right. split; [done|]. split; [|done]. intros Hx. by apply Hne, Hw, Hw'.
    + intros _ Hx. by destruct Hne; apply Hw, Hw'.
Qed.

(** *** The whole flush *)

Lemma collect_total {A B} (f : A -> option B) l : (forall a, a ∈ l -> is_Some (f a)) -> is_Some (collect f l).
Proof.
  induction l as [|a l IH]; intros H; cbn [collect]; [by eexists|].
  destruct (H a ltac:(left)) as [b ->]. cbn [mbind option_bind]. destruct IH as [r ->]; [intros x Hx; apply H; by right|].
  by eexists.
Qed.

Lemma write_index_total pruned st ds : disk_wf st ds -> exists st' ds' ok, write_index pruned st ds = Some (st', ds', ok) /\
  (batch_write_works = true -> ample_space -> ok = true) /\ index_of st' = index_of st /\ pcoinsTip ds' = pcoinsTip ds.
Proof.
  intros W. unfold write_index. destruct (CheckDiskSpace 0 (ds_files ds)) as [bf space] eqn:Esp.
  pose proof Esp as Esp'. apply CheckDiskSpace_same in Esp as (Hv & Hd & Hf & Hl).
  destruct space; cbn [negb].
  2:{ eexists _, _, _. split; [reflexivity|]. split; [|done]. intros _ Ha. by rewrite CheckDiskSpace_ample in Esp' by (done || (split; [lia|reflexivity])). }
  destruct (FlushBlockFile_spec false bf) as (fs & -> & Hp); [done|]. cbn [mbind option_bind].
  destruct (collect_total (dirty_file (set_files fs bf)) (elements (setDirtyFileInfo (set_files fs bf)))) as [vFiles ->].
  { intros f Hfd. apply elem_of_elements in Hfd. cbn [setDirtyFileInfo set_files] in Hfd. rewrite Hd in Hfd.
    destruct (dw_infos _ _ W f Hfd) as [i Hi]. unfold dirty_file, info_at in *. cbn [vinfoBlockFile set_files].
    rewrite Hv, Hi. by eexists. }
  cbn [mbind option_bind].
  destruct (collect_total (dirty_block (index_of st)) (elements (setDirtyBlockIndex (tree st)))) as [vBlocks ->].
  { intros p Hpd. apply elem_of_elements in Hpd. destruct (dw_dirty _ _ W p Hpd) as (b & Hb & _).
    destruct (make_disk_index_total st ds p b W Hb) as [d Hdd]. unfold dirty_block. unfold block_at in Hb. rewrite Hb.
    cbn [mbind option_bind]. rewrite Hdd. by eexists. }
  cbn [mbind option_bind]. destruct batch_write_works; cbn [negb]; eexists _, _, _; (split; [reflexivity|done]).
Qed.

Lemma no_prune_choice cfg fReindex h st bf : fPruneMode (fl_prune cfg) = false ->
  choose_pruned cfg fReindex h st bf = Some (st, bf, []).
Proof. intros E. unfold choose_pruned. by rewrite E. Qed.

Lemma FlushStateToDisk_spec cfg fReindex usage mode h st ds st' ds' ok : disk_wf st ds -> crash_safe ds ->
  FlushStateToDisk cfg fReindex usage mode h st ds = Some (st', ds', ok) ->
  crash_safe ds' /\
  ((same_coins (pcoinsTip ds) (pcoinsTip ds') /\ (batch_write_works = true \/ ok = true -> disk_wf st' ds')) \/
   (ok = false /\ ~ writable (view_base (pcoinsTip ds)) /\ coins_lost (pcoinsTip ds) ds' /\ all_written st' ds')) /\
  (mode = FLUSH_STATE_ALWAYS -> ok = true -> all_written st' ds' /\
     (base_blob.IsNull (cache_best (pcoinsTip ds)) = false ->
      coins (view_base (pcoinsTip ds')) = cache_coins (pcoinsTip ds) /\ best (view_base (pcoinsTip ds')) = cache_best (pcoinsTip ds))).
Proof.
  intros W S. unfold FlushStateToDisk, same_coins. destruct (choose_pruned _ _ _ _ _) as [[[st1 bf] F]|] eqn:EC; [|done].
  cbn [mbind option_bind]. pose proof (choose_pruned_inv _ _ _ _ _ _ _ _ EC) as C.
  destruct (choice_wf F st st1 ds bf C W) as [W1 Hnot].
  pose proof (crash_safe_files ds bf S ltac:(by rewrite (ch_files _ _ _ _ _ C))) as S1.
  destruct (_ && _ && negb flag_write_works).
  { intros [= <- <- <-]. split_and!; [by destruct S1| |done]. left. split; [done|intros _; by destruct W1]. }
  set (ds2 := if _ && _ then _ else _).
  assert (disk_wf st1 ds2 /\ crash_safe ds2 /\ pcoinsTip ds2 = pcoinsTip ds) as (W2 & S2 & E2)
    by (unfold ds2; destruct (_ && _); [split_and!; [by destruct W1|by destruct S1|done]|done]).
  set (ds3 := set_times _ _ _ ds2).
  assert (disk_wf st1 ds3 /\ crash_safe ds3 /\ pcoinsTip ds3 = pcoinsTip ds) as (W3 & S3 & E3)
    by (split_and!; [by apply disk_wf_times|by apply crash_safe_times|done]).
  assert (forall h p b, mapBlockIndex (tree st1) !! h = Some p -> block_at st1 p = Some b -> have_data b = true -> nFile b ∉ F) as HF
    by (intros x p b H1 H2 H3; by apply (Hnot x p b)).
  set (full := full_flush cfg mode usage _ ds3).
  assert (mode = FLUSH_STATE_ALWAYS -> full = true) as Halways by (intros ->; done).
  assert (exists st4 ds4 ok4, (if full || periodic_write mode ds3 then write_index F st1 ds3 else Some (st1, ds3, true)) = Some (st4, ds4, ok4) /\
    crash_safe ds4 /\ pcoinsTip ds4 = pcoinsTip ds /\ (batch_write_works = true \/ ok4 = true -> disk_wf st4 ds4) /\
    (full = true -> ok4 = true -> all_written st4 ds4)) as (st4 & ds4 & ok4 & -> & S4 & E4 & W4 & A4).
  { destruct (full || periodic_write mode ds3) eqn:Ef.
    - destruct (write_index_total F st1 ds3 W3) as (st4 & ds4 & ok4 & Ew & _). exists st4, ds4, ok4. split; [done|].
      destruct (write_index_spec F st1 ds3 st4 ds4 ok4 W3 S3 HF Ew) as (K1 & K2 & _ & _ & K3 & K4).
      split_and!; [done|congruence| |]; [intros [?|?]; [by apply K4|by apply K3]|intros _ ?; by apply K3].
    - apply orb_false_iff in Ef as [Ef _]. exists st1, ds3, true. split_and!; done || congruence. }
  cbn [mbind option_bind]. destruct ok4; cbn [negb].
  2:{ intros [= <- <- <-]. rewrite E4. split_and!; try done. by left. }
  specialize (W4 ltac:(by right)). destruct full eqn:Ef.
  - destruct (flush_coins_spec st4 ds4 W4 S4 (A4 eq_refl eq_refl)) as (ds5 & ok5 & -> & K1 & K2 & K3 & K4 & _).
    rewrite E4 in *. cbn [mbind option_bind]. destruct ok5; cbn [negb orb]; intros [= <- <- <-].
    + destruct (K4 eq_refl) as [W5 K5]. split_and!; [by apply crash_safe_times| |].
      * left. destruct K3 as [[_ K3]|[? _]]; [|done]. split; [done|]. intros _. by apply disk_wf_times.
      * intros _ _. split; [done|]. intros Hb. by apply K5.
    + split_and!; [done| |done]. destruct K3 as [[K3 K3']|(_ & K3 & K3')]; [by left|by right].
  - cbn [mbind option_bind negb orb]. intros [= <- <- <-].
    match goal with |- context [if ?c then set_times _ _ _ ds4 else ds4] => destruct c end; cbn [set_times pcoinsTip]; rewrite ?E4;
      (split_and!; [done || by apply crash_safe_times| |by intros Hm; specialize (Halways Hm)]);
      left; (split; [done|intros _; done || by apply disk_wf_times]).
Qed.

(** Without pruning every flush ends, and it succeeds if there is space and the
    database takes the batch. *)
Lemma FlushStateToDisk_total cfg fReindex usage mode h st ds : disk_wf st ds -> crash_safe ds -> fPruneMode (fl_prune cfg) = false ->
  exists st' ds' ok, FlushStateToDisk cfg fReindex usage mode h st ds = Some (st', ds', ok) /\ index_of st' = index_of st /\
    (batch_write_works = true -> ample_space -> writable (view_base (pcoinsTip ds)) -> ok = true).
Proof.
  intros W S Hno. unfold FlushStateToDisk. rewrite no_prune_choice by done. cbn [mbind option_bind].
  rewrite bool_decide_true by done. cbn [negb andb].
  match goal with |- context [write_index [] st ?d] => set (ds3 := d) end.
  assert (disk_wf st ds3) as W3 by by destruct W. assert (crash_safe ds3) as S3 by by destruct S.
  destruct (write_index_total [] st ds3 W3) as (st4 & ds4 & ok4 & Ew & Hok & Hi & E4).
  destruct (write_index_spec [] st ds3 st4 ds4 ok4 W3 S3 ltac:(intros; apply not_elem_of_nil) Ew) as (S4 & _ & _ & _ & K & _).
  destruct (full_flush _ _ _ _ _) eqn:Ef; cbn [orb].
  - rewrite Ew. cbn [mbind option_bind]. destruct ok4; cbn [negb].
    2:{ eexists _, _, _. split; [reflexivity|]. split; [done|]. intros Hb Ha. by rewrite Hok in * by done. }
    destruct (K eq_refl) as [W4 A4]. destruct (flush_coins_spec st4 ds4 W4 S4 A4) as (ds5 & ok5 & -> & _ & _ & _ & _ & K7).
    rewrite E4 in K7. cbn [mbind option_bind].
    destruct ok5; cbn [negb]; eexists _, _, _; (split; [reflexivity|done]) || (split; [reflexivity|]; split; [done|]; intros _ Ha Hx; by apply K7).
  - destruct (periodic_write _ _).
    + rewrite Ew. cbn [mbind option_bind]. destruct ok4; cbn [negb]; eexists _, _, _; split; [reflexivity|done|reflexivity|].
      split; [done|]. intros Hb Ha. by rewrite Hok in * by done.
    + cbn [mbind option_bind negb]. eexists _, _, _. by split; [reflexivity|].
Qed.
End disk.
End blockdb_facts.

(** ** Properties *)

Import coins_facts block_files_facts blockdb_facts.

(** C26: Flushing never leaves a database that disagrees with the block files.
    From a state whose index, statistics and coins belong together, a flush of
    any kind, whatever write of it fails, keeps every entry of the stored index
    that claims a block pointing at a file that is there (so pruned files are
    removed only after the index has forgotten them), and keeps an entry for the
    block that the stored coins belong to, if they belong to one.  The coins
    that the node sees do not change unless the coin database refuses the write;
    memory and database still belong together if the flush succeeds or the
    index batch is written.  If the coin database refuses, the flush fails, the
    node is asked to stop and the index is written, but the cache is not kept:
    what is left of it in memory is a part of it, each stored coin is the old one
    or that of the cache, and the stored best block is the old one or none.  A
    full flush that succeeds leaves nothing dirty and the stored coins and best
    block equal to those of the cache.  Without pruning every flush ends, and it
    succeeds if both databases take the writes and there is space. *)
Theorem FlushStateToDisk_safe {V : Type} `{CV : CCoinsView V} `{CL : !CoinsViewLaws CV} `{P : CoinsPlatform}
    `{PL : !CoinsPlatformLaws P} `{FP : FilePlatform} `{FL : !FilePlatformLaws FP} `{LP : FlushPlatform}
    (cfg : flush_settings) (fReindex : bool) (usage : Z) (mode : FlushStateMode) (h : Z) (st : CChainState) (ds : disk_state V) :
  disk_wf st ds -> crash_safe ds ->
  (forall st' ds' ok, FlushStateToDisk cfg fReindex usage mode h st ds = Some (st', ds', ok) ->
     crash_safe ds' /\
     ((same_coins (pcoinsTip ds) (pcoinsTip ds') /\ (batch_write_works = true \/ ok = true -> disk_wf st' ds')) \/
      (ok = false /\ ~ writable (view_base (pcoinsTip ds)) /\ coins_lost (pcoinsTip ds) ds' /\ all_written st' ds')) /\
     (mode = FLUSH_STATE_ALWAYS -> ok = true -> all_written st' ds' /\
        (base_blob.IsNull (cache_best (pcoinsTip ds)) = false ->
         coins (view_base (pcoinsTip ds')) = cache_coins (pcoinsTip ds) /\
         best (view_base (pcoinsTip ds')) = cache_best (pcoinsTip ds)))) /\
  (fPruneMode (fl_prune cfg) = false ->
     exists st' ds' ok, FlushStateToDisk cfg fReindex usage mode h st ds = Some (st', ds', ok) /\ index_of st' = index_of st /\
       (batch_write_works = true -> ample_space -> writable (view_base (pcoinsTip ds)) -> ok = true)).
Proof. intros W S. split; [intros st' ds' ok; by apply FlushStateToDisk_spec|by apply FlushStateToDisk_total]. Qed.

(** One block of the index, not written yet, and coins that belong to it. *)
Module blockdb_example.
Export coins_example block_files_example.

#[export] Instance good_disk : FlushPlatform := {|
  GetTimeMicros := 1000000; map_usage _ := 0; flag_write_works := true; batch_write_works := true |}.
Definition bad_disk : FlushPlatform := {|
  GetTimeMicros := 1000000; map_usage _ := 0; flag_write_works := true; batch_write_works := false |}.

Definition block1 : CBlockIndex := chain_example.entry 1 None 5.
Definition node : CChainState := chainstate_facts.headers_only {|
  heap := {[ 1%positive := block1 ]}; mapBlockIndex := {[ phashBlock block1 := 1%positive ]};
  pindexBestHeader := None; setDirtyBlockIndex := {[ 1%positive ]} |}.
Definition empty_db : CBlockTreeDB := {|
  db_block_files := ∅; db_last_block := None; db_block_index := ∅; db_pruned := false |}.
Definition coins0 : coins_example.db := (∅, uint256_null).
Definition disk : disk_state coins_example.db := {|
  ds_files := no_files; ds_db := empty_db; pcoinsTip := SetBestBlock (make_cache coins0) (phashBlock block1); fHavePruned := false;
  nLastWrite := 0; nLastFlush := 0; nLastSetChain := 0 |}.
Definition cfg : flush_settings := {|
  fl_prune := {| fPruneMode := false; nPruneTarget := 0 |}; fl_pruneAfterHeight := 1000; nCoinCacheUsage := 1000000;
  nMempoolSizeMax := 1000 |}.

Lemma disk_ok : disk_wf node disk.
Proof.
  assert (forall h p, mapBlockIndex (tree node) !! h = Some p -> h = phashBlock block1 /\ p = 1%positive) as Hm
    by (intros h p Hp; cbn [mapBlockIndex tree node chainstate_facts.headers_only] in Hp; by apply lookup_singleton_Some in Hp as [<- <-]).
  assert (forall p b, block_at node p = Some b -> p = 1%positive /\ b = block1) as Hb
    by (intros p b Hp; unfold block_at, index_of in Hp; cbn [heap tree node chainstate_facts.headers_only] in Hp; by apply lookup_singleton_Some in Hp as [<- <-]).
  split.
  - intros h p [-> ->]%Hm. exists block1. split; reflexivity.
  - intros p Hp. cbn [setDirtyBlockIndex tree node chainstate_facts.headers_only] in Hp. apply elem_of_singleton in Hp as ->. exists block1. split; [reflexivity|]. apply lookup_singleton_eq.
  - intros p b q [-> ->]%Hb Hq. discriminate Hq.
  - intros f Hf. by apply not_elem_of_empty in Hf.
  - intros h p b [-> ->]%Hm _ Hn. exfalso. apply Hn. cbn [setDirtyBlockIndex tree node chainstate_facts.headers_only]. by apply elem_of_singleton.
  - intros f i Hi. unfold info_at in Hi. cbn [vinfoBlockFile ds_files disk no_files] in Hi. destruct (f <? 0); [discriminate Hi|]. rewrite lookup_nil in Hi. discriminate Hi.
  - intros f [i Hi]. cbn [db_block_files ds_db disk empty_db] in Hi. rewrite lookup_empty in Hi. discriminate Hi.
  - intros h d Hd. cbn [db_block_index ds_db disk empty_db] in Hd. rewrite lookup_empty in Hd. discriminate Hd.
  - intros h p b _ [-> ->]%Hb Hd. vm_compute in Hd. discriminate Hd.
  - split; cbn; [apply map_Forall_empty|apply map_Forall_empty|reflexivity].
  - intros _. exists 1%positive. apply lookup_singleton_eq.
Defined.
Lemma disk_safe : crash_safe disk.
Proof. split; [intros h d Hd; cbn [db_block_index ds_db disk empty_db] in Hd; rewrite lookup_empty in Hd; discriminate Hd|intros Hn; vm_compute in Hn; discriminate Hn]. Defined.
End blockdb_example.
Import blockdb_example.

Lemma FlushStateToDisk_safe_witness : exists st' ds',
  FlushStateToDisk cfg false 0 FLUSH_STATE_ALWAYS 0 node disk = Some (st', ds', true) /\ crash_safe ds' /\ all_written st' ds' /\
  best (view_base (pcoinsTip ds')) = phashBlock block1.
Proof.
  destruct (FlushStateToDisk_safe cfg false 0 FLUSH_STATE_ALWAYS 0 node disk disk_ok disk_safe) as [H1 H2].
  destruct (H2 eq_refl) as (st' & ds' & ok & E & _ & Hok).
  assert (ok = true) as -> by (apply Hok; [reflexivity|unfold ample_space; vm_compute; discriminate|exact I]).
  exists st', ds'. destruct (H1 st' ds' true E) as (S & _ & A). destruct (A eq_refl eq_refl) as [A1 A2].
  split; [exact E|]. split; [exact S|]. split; [exact A1|]. apply A2. vm_compute. reflexivity.
Defined.

(** The dirty sets are emptied before the batch is written, so what a failed
    batch held is not written again: the flush at the end of the node, if
    it succeeds, stores coins for a block that the stored index does not
    have. *)
Lemma lost_dirty_entries : exists st1 ds1 st2 ds2,
  FlushStateToDisk (LP := bad_disk) cfg false 0 FLUSH_STATE_ALWAYS 0 node disk = Some (st1, ds1, false) /\
  FlushStateToDisk cfg false 0 FLUSH_STATE_ALWAYS 0 st1 ds1 = Some (st2, ds2, true) /\
  best (view_base (pcoinsTip ds2)) = phashBlock block1 /\ db_block_index (ds_db ds2) !! phashBlock block1 = None.
Proof. eexists _, _, _, _. split; [vm_compute; reflexivity|]. split; [vm_compute; reflexivity|]. split; vm_compute; reflexivity. Qed.

(** A coin database that refuses one batch, because the disk is full for a
    while, after the loop of [BatchWrite] has erased the entries it put there. *)
Module flaky_example.
Definition flaky : Type := coins_example.db * bool.

#[export] Instance flaky_view : CCoinsView flaky := {|
  GetCoin v o := (v, v.1.1 !! o);
  GetBestBlock v := (v, v.1.2);
  BatchWrite v l h :=
    let '(d, fails) := v in
    if fails : bool then ((d, false), [], Err database_error) else (((apply_entries l d.1, h), false), [], Ok true) |}.

#[export] Instance flaky_laws : CoinsViewLaws flaky_view.
Proof.
  refine {| view_ok v := db_ok v.1; coins v := v.1.1; best v := v.1.2; writable v := v.2 = false |}.
  - by intros v o v' r Hv [= <- <-].
  - intros v o c Hv Hc. exact (Hv o c Hc).
  - by intros v v' h Hv [= <- <-].
  - done.
  - intros [v []] l h v' rest r Hv _ _ [= <- <- <-]; (split; [done || by apply db_write_ok|]).
    + rewrite decide_False by done. split; [done|]. split_and!; [by right|apply suffix_nil|by left|by left].
    + by rewrite decide_True.
Defined.

Definition fresh_coin : CCoinsCacheEntry := {| entry_coin := coins_example.coin 5; entry_flags := Z.lor DIRTY FRESH |}.
Definition full_disk : disk_state flaky := {|
  ds_files := no_files; ds_db := empty_db;
  pcoinsTip := set_cache {[transaction_example.out 1 0 := fresh_coin]} 1 (SetBestBlock (make_cache (coins0, true)) (phashBlock block1));
  fHavePruned := false; nLastWrite := 0; nLastFlush := 0; nLastSetChain := 0 |}.
End flaky_example.

(** [Flush] clears the cache whether or not the write worked, and [BatchWrite]
    of the database erases the entries before they are written.  The flush at
    the end of the node, if the database takes writes again, then stores the
    best block without its coins. *)
Import flaky_example.
Lemma lost_coins : exists st1 (ds1 : disk_state flaky) st2 (ds2 : disk_state flaky),
  FlushStateToDisk cfg false 0 FLUSH_STATE_ALWAYS 0 node full_disk = Some (st1, ds1, false) /\
  FlushStateToDisk cfg false 0 FLUSH_STATE_ALWAYS 0 st1 ds1 = Some (st2, ds2, true) /\
  cache_best (pcoinsTip full_disk) = phashBlock block1 /\ is_Some (cache_coins (pcoinsTip full_disk) !! transaction_example.out 1 0) /\
  best (view_base (pcoinsTip ds2)) = phashBlock block1 /\ coins (view_base (pcoinsTip ds2)) = ∅ /\ cache_coins (pcoinsTip ds2) = ∅.
Proof.
  eexists _, _, _, _. split; [vm_compute; reflexivity|]. split; [vm_compute; reflexivity|]. split_and!; try (vm_compute; reflexivity).
  vm_compute. by eexists.
Qed.

(** The space that the coins need is computed in 32 bits. *)
Lemma cache_space_wraps (c : CCoinsViewCache coins_example.db) : Z.of_nat (size (cacheCoins c)) = 22369622 ->
  u32 (48 * 2 * 2 * GetCacheSize c) = 128 /\ 48 * 2 * 2 * Z.of_nat (size (cacheCoins c)) = 4294967424.
Proof. unfold GetCacheSize. intros ->. split; reflexivity. Qed.
