(* ===== verification/Accept.v ===== *)
(** * Accepting headers and blocks ([validation.cpp])

    What happens to a header or a block that arrives: [AcceptBlockHeader],
    [ProcessNewBlockHeaders], [AcceptBlock] and [ProcessNewBlock], which put
    together the checks ([BlockCheck]), the index ([ChainState]), the files
    ([BlockFiles]), the database ([BlockDb]) and the activation ([Activation]).
    [CheckBlockIndex], a check for debugging, the locks, the relay of new blocks
    and the notifications of the interface are left out.  [None] is a failed
    assertion or a dereferenced null pointer. *)

From S2P Require Import Prelude ArithUint256 Uint256 StdSet Hash Chain Params Pow Script Interpreter Serialize Transaction Coins TxVerify Block Merkle BlockCheck ChainState Activation Undo Compress BlockFiles BlockDb.
Import base_uint arith_uint256.

(** The parameters of the network, the settings, and the clock. *)
Record accept_settings := {
  consensus : Params;
  fCheckpointsEnabled : bool;
  mapCheckpoints : list (Z * uint256);
  GetAdjustedTime : Z;
  pchMessageStart : bytes;
  flushing : flush_settings;
  nMempoolUsage : Z;
  setting : environment;
}.

Section accept.
Context `{Hs : HashFunctions} `{L : Layout} `{IO : cpp_int_io} `{Eh : Equihash} `{FP : FilePlatform} `{LP : FlushPlatform}
  `{P : CoinsPlatform} {V : Type} `{CV : CCoinsView V}.
(** [CLIENT_VERSION], and the chunks of the readers of vectors. *)
Context (version block_chunk : Z) (cfg : accept_settings).

(** ** Headers *)

(** [while (invalid_walk != failedit)]. *)
Fixpoint mark_walk (fuel : nat) (invalid_walk failedit : ptr) (st : CChainState) : option CChainState :=
  if decide (invalid_walk = failedit) then Some st
  else
    match fuel with
    | O => None
    | S fuel =>
        b ← block_at st invalid_walk;
        let st := dirty invalid_walk (update invalid_walk (add_status BLOCK_FAILED_CHILD) st) in
        q ← pprev b;
        mark_walk fuel q failedit st
    end.

(** The loop over [g_failed_blocks]; true if one of them is an ancestor of
    [pindexPrev]. *)
Fixpoint check_failed_ancestors (l : list ptr) (pindexPrev : ptr) (st : CChainState) : option (CChainState * bool) :=
  match l with
  | [] => Some (st, false)
  | failedit :: l =>
      f ← block_at st failedit;
      a ← GetAncestor (index_of st) pindexPrev (nHeight f);
      if decide (a = Some failedit) then
        if Z.land (nStatus f) BLOCK_FAILED_VALID =? 0 then None
        else
          prev ← block_at st pindexPrev;
          st ← mark_walk (Z.to_nat (nHeight prev)) pindexPrev failedit st;
          Some (st, true)
      else check_failed_ancestors l pindexPrev st
  end.

(** The pointer is [*ppindex]. *)
Definition AcceptBlockHeader (block : CBlockHeader) (st : CChainState) : option (CChainState * option ptr * tx_result unit) :=
  let hash := header_GetHash block in
  let add st := '(t, pindex) ← AddToBlockIndex header_GetHash (tree st) block; Some (set_tree t st, Some pindex, Ok ()) in
  if decide (hash = hashGenesisBlock (consensus cfg)) then add st
  else
    match mapBlockIndex (tree st) !! hash with
    | Some pindex =>
        b ← block_at st pindex;
        Some (st, Some pindex, if failed b then Err (DoS 0 0 "duplicate" false) else Ok ())
    | None =>
        match CheckBlockHeader block (consensus cfg) true with
        | Err e => Some (st, None, Err e)
        | Ok _ =>
            match mapBlockIndex (tree st) !! hdr_hashPrevBlock block with
            | None => Some (st, None, Err (DoS 10 0 "prev-blk-not-found" false))
            | Some pindexPrev =>
                prev ← block_at st pindexPrev;
                if failed prev then Some (st, None, Err (invalid 100 "bad-prevblk"))
                else
                  r ← ContextualCheckBlockHeader (index_of st) (mapBlockIndex (tree st)) (fCheckpointsEnabled cfg)
                        (mapCheckpoints cfg) block (consensus cfg) pindexPrev (GetAdjustedTime cfg);
                  match r with
                  | Err e => Some (st, None, Err e)
                  | Ok _ =>
                      valid ← IsValid prev BLOCK_VALID_SCRIPTS;
                      '(st, bad) ← (if negb valid then check_failed_ancestors (g_failed_blocks st) pindexPrev st
                                    else Some (st, false));
                      if (bad : bool) then Some (st, None, Err (invalid 100 "bad-prevblk")) else add st
                  end
            end
        end
    end.

(** [*ppindex] and [*first_invalid] come with the result. *)
Fixpoint ProcessNewBlockHeaders (headers : list CBlockHeader) (ppindex : option ptr) (st : CChainState)
    : option (CChainState * option ptr * option CBlockHeader * tx_result unit) :=
  match headers with
  | [] => Some (st, ppindex, None, Ok ())
  | header :: headers =>
      '(st, pindex, r) ← AcceptBlockHeader header st;
      match r with
      | Err e => Some (st, ppindex, Some header, Err e)
      | Ok _ => ProcessNewBlockHeaders headers pindex st
      end
  end.

(** ** Blocks *)

(** What [AcceptBlock] leaves in [*ppindex], in [*fNewBlock] and in the block,
    and what it returns. *)
Record outcome := {
  out_index : option ptr;
  out_new : bool;
  out_block : CBlock;
  out_result : tx_result unit;
}.

(** [nHeight > int(chainActive.Height() + MIN_BLOCKS_TO_KEEP)], with an
    [unsigned int] in the sum. *)
Definition too_far_ahead (st : CChainState) (b : CBlockIndex) : bool :=
  nHeight b >? i32 (u32 (Height (chainActive st) + MIN_BLOCKS_TO_KEEP)).

Definition more_or_same_work (st : CChainState) (b : CBlockIndex) : option bool :=
  match Tip (chainActive st) with
  | None => Some true
  | Some t => bt ← block_at st t; Some (negb (ltb W (nChainWork b) (nChainWork bt)))
  end.

(** Whether a block that was not asked for is dropped. *)
Definition unwanted (st : CChainState) (b : CBlockIndex) (fHasMoreOrSameWork : bool) : bool :=
  negb (nTx b =? 0) || negb fHasMoreOrSameWork || too_far_ahead st b ||
  ltb W (nChainWork b) (nMinimumChainWork (setting cfg)).

Definition tip_height (st : CChainState) : option (option Z) :=
  match Tip (chainActive st) with None => Some None | Some t => b ← block_at st t; Some (Some (nHeight b)) end.

(** Both checks, the second only if the first succeeds; the block comes back
    with its [fChecked]. *)
Definition check_arrived (block : CBlock) (pprev : option ptr) (st : CChainState) : option (CBlock * tx_result unit) :=
  h ← tip_height st;
  match CheckBlock block h (consensus cfg) true true with
  | Err e => Some (block, Err e)
  | Ok block => r ← ContextualCheckBlock (index_of st) block pprev; Some (block, r)
  end.

(** A failure marks the block, unless the data may have been damaged. *)
Definition mark_refused (e : tx_failure) (pindex : ptr) (st : CChainState) : CChainState :=
  if IsInvalid e && negb (CorruptionPossible e) then
    dirty pindex (update pindex (add_status BLOCK_FAILED_VALID) st)
  else st.

(** The block is written, the index learns of it, and files are pruned when
    that is due. *)
Definition store_block (block : CBlock) (pindex : ptr) (dbp : option CDiskBlockPos) (st : CChainState) (ds : disk_state V)
    : option (CChainState * disk_state V * tx_result unit) :=
  b ← block_at st pindex;
  '(bf, r) ← SaveBlockToDisk version block_chunk (fl_prune (flushing cfg)) block (nHeight b) (pchMessageStart cfg) dbp (ds_files ds);
  let ds := set_disk bf (ds_db ds) (pcoinsTip ds) (fHavePruned ds) ds in
  match r with
  | Err _ => Some (st, abort_disk ds, Err (run_time_error "System error"))
  | Ok blockPos =>
      if pos_IsNull blockPos then Some (st, ds, Err (run_time_error "Failed to find position to write new block to disk"))
      else
        st ← ReceivedBlockTransactions (Z.of_nat (length (vtx block))) pindex blockPos st;
        if fCheckForPruning (ds_files ds) then
          '(st, ds, _) ← FlushStateToDisk (flushing cfg) (fReindex (setting cfg)) (nMempoolUsage cfg) FLUSH_STATE_NONE 0 st ds;
          Some (st, ds, Ok ())
        else Some (st, ds, Ok ())
  end.

Definition AcceptBlock (block : CBlock) (fRequested : bool) (dbp : option CDiskBlockPos) (st : CChainState) (ds : disk_state V)
    : option (CChainState * disk_state V * outcome) :=
  '(st, pindex, r) ← AcceptBlockHeader block st;
  let out is_new block r := {| out_index := pindex; out_new := is_new; out_block := block; out_result := r |} in
  match r with
  | Err e => Some (st, ds, out false block (Err e))
  | Ok _ =>
      p ← pindex;
      b ← block_at st p;
      fHasMoreOrSameWork ← more_or_same_work st b;
      if have_data b then Some (st, ds, out false block (Ok ()))
      else if negb fRequested && unwanted st b fHasMoreOrSameWork then Some (st, ds, out false block (Ok ()))
      else
        '(block, r) ← check_arrived block (pprev b) st;
        match r with
        | Err e => Some (mark_refused e p st, ds, out true block (Err e))
        | Ok _ =>
            '(st, _) ← IsInitialBlockDownload (setting cfg) st;
            '(st, ds, r) ← store_block block p dbp st ds;
            Some (st, ds, out true block r)
        end
  end.


(** ** The whole way of a block *)

(** The disk as a part of the rest of the node. *)
Context {X : Type} `{CT : ChainTip X CBlock} (get_disk : X -> disk_state V) (put_disk : disk_state V -> X -> X).

End accept.

(** ** Facts *)

Module accept_facts.
Import chain_facts stdset_facts chainstate_facts blockcheck_facts block_files_facts blockdb_facts.

(** *** A new entry of the index *)

Section extend.
Context (m : index_map) (p : ptr) (b : CBlockIndex) (Hp : m !! p = None) (Hwf : index_wf m).
Abbreviation m' := (<[p := b]> m).

Lemma old_lookup q c : m !! q = Some c -> m' !! q = Some c.
Proof using Hp. intros H. rewrite lookup_insert_ne; [done|congruence]. Qed.

Lemma old_parent q r : is_Some (m !! q) -> parent m' q r <-> parent m q r.
Proof using Hp. intros [c Hc]. unfold parent. by rewrite (old_lookup q c Hc), Hc. Qed.

Lemma old_rtc q r : rtc (parent m) q r -> rtc (parent m') q r.
Proof using Hp.
  induction 1 as [q|q x r Hqx _ IH]; [done|]. eapply rtc_l; [|done]. apply old_parent; [|done].
  destruct Hqx as (c & -> & _). by eexists.
Qed.

Lemma new_rtc q r : is_Some (m !! q) -> rtc (parent m') q r -> rtc (parent m) q r /\ is_Some (m !! r).
Proof using Hp Hwf.
  intros Hq H. induction H as [q|q x r Hqx _ IH]; [done|]. apply old_parent in Hqx; [|done].
  assert (is_Some (m !! x)) as Hx.
  { destruct Hqx as (c & Hc & Hx). destruct (wf_parent m Hwf q c x Hc Hx) as (d & -> & _). by eexists. }
  destruct (IH Hx) as [H1 H2]. split; [by eapply rtc_l|done].
Qed.

Lemma old_ancestor q h r : ancestor m q h r -> ancestor m' q h r.
Proof using Hp.
  intros [H1 H2]. split; [by apply old_rtc|]. apply height_lookup in H2 as (d & Hd & <-). unfold height.
  by rewrite (old_lookup r d Hd).
Qed.

Lemma old_valid q : is_Some (m !! q) -> valid m' q <-> valid m q.
Proof using Hp Hwf.
  intros Hq. split; intros Hv r d Hr Hd.
  - apply (Hv r d); [by apply old_rtc|by apply old_lookup].
  - destruct (new_rtc q r Hq Hr) as [Hr' [d' Hd']]. rewrite (old_lookup r d' Hd') in Hd. simplify_eq. by apply (Hv r).
Qed.

Lemma old_path_txs q n : path_txs m q n -> path_txs m' q n.
Proof using Hp.
  induction 1 as [q c Hc Hq|q c r n Hc Hq _ IH]; [apply path_genesis|eapply path_step]; try done; by apply old_lookup.
Qed.

Lemma old_chain c t : chain_of m c t -> chain_of m' c t.
Proof using Hp.
  destruct t as [t|]; [|done]. intros (bt & Hbt & Hl & Ha). exists bt. split; [by apply old_lookup|]. split; [done|].
  intros h Hh. destruct (Ha h Hh) as (r & H1 & H2). exists r. split; [done|by apply old_ancestor].
Qed.

Lemma old_work_less x y : is_Some (m !! x) -> is_Some (m !! y) -> work_less m' x y = work_less m x y.
Proof using Hp. intros [c Hc] [d Hd]. unfold work_less. by rewrite (old_lookup x c Hc), (old_lookup y d Hd), Hc, Hd. Qed.
End extend.

(** [st'] is [st] with one more entry, which has no data. *)
Record entry_added (st st' : CChainState) (p : ptr) (b : CBlockIndex) : Prop := {
  ea_new : index_of st !! p = None;
  ea_index : index_of st' = <[p := b]> (index_of st);
  ea_tree : tree_wf (tree st');
  ea_rest : st' = set_tree (tree st') st;
  ea_nTx : nTx b = 0;
  ea_nChainTx : nChainTx b = 0;
  ea_status : nStatus b = BLOCK_VALID_TREE;
}.

Lemma entry_added_wf st st' p b : chain_wf st -> entry_added st st' p b -> chain_wf st'.
Proof.
  intros H [Hp Ei Ht Er Hn Hc Hs]. pose proof (co_index _ (cw_cand _ H)) as Hwf.
  assert (forall q c, index_of st !! q = Some c -> index_of st' !! q = Some c) as Hold
    by (intros q c Hq; rewrite Ei; by apply old_lookup).
  assert (forall q c, index_of st' !! q = Some c -> q = p /\ c = b \/ index_of st !! q = Some c) as Hnew
    by (intros q c; rewrite Ei, lookup_insert_Some; intros [[-> ->]|[_ Hq]]; auto).
  assert (have_data b = false) as Hd by (unfold have_data; by rewrite Hs).
  rewrite Er in *. split; cbn [set_tree chainActive g_failed_blocks mapBlocksUnlinked pindexBestForkTip pindexBestForkBase].
  - done.
  - split; cbn [set_tree chainActive setBlockIndexCandidates pindexBestInvalid].
    + exact (tw_index _ Ht).
    + intros q c Hq. by apply (tw_work _ Ht q c).
    + rewrite Ei. apply old_chain; [done|]. apply (cw_cand _ H).
    + rewrite Ei. apply (sorted_agree (work_less (index_of st))); [|apply (cw_cand _ H)].
      intros x y Hx Hy. pose proof (proj1 (Forall_forall _ _) (candidates_in _ (cw_cand _ H))) as Hin.
      apply old_work_less; [done|by apply Hin..].
    + intros q Hq. destruct (co_linked _ (cw_cand _ H) q Hq) as (c & Hqc & ?). exists c. auto.
    + intros q c r [[-> ->]|Hq]%Hnew Hnz Hr; [done|].
      destruct (co_parents _ (cw_cand _ H) q c r Hq Hnz Hr) as (d & Hd1 & ?). exists d. auto.
    + intros q Hq. destruct (co_invalid _ (cw_cand _ H) q Hq) as [c Hqc]. exists c. auto.
  - intros t Htip. destruct (cw_active _ H t Htip) as [Hv (c & Hqc & Hnz)]. split.
    + rewrite Ei. apply old_valid; [done..|by eexists|done].
    + exists c. auto.
  - intros q c [[-> ->]|Hq]%Hnew; [|by apply (cw_data _ H q)]. rewrite Hn, Hd. split; [lia|done].
  - intros q c [[-> ->]|Hq]%Hnew Hnz; [done|]. destruct (cw_txs _ H q c Hq Hnz) as [? Hpt]. split; [done|].
    rewrite Ei. by apply old_path_txs.
  - destruct (cw_unlinked _ H) as [U1 U2]. split; [done|]. intros o q Hoq.
    destruct (U2 o q Hoq) as (c & r & Hqc & ?). exists c, r. split; [auto|done].
  - destruct (cw_failed _ H) as [F1 F2]. split; [done|]. intros q Hq. destruct (F2 q Hq) as (c & Hqc & ?). exists c. auto.
  - intros q Hq. destruct (cw_forks _ H q Hq) as [c Hqc]. exists c. auto.
Qed.

Lemma entry_added_based st st' p b base : chain_wf st -> entry_added st st' p b -> based st base -> based st' base.
Proof.
  intros H [Hp Ei Ht Er Hn Hc Hs] [B1 B2 B3]. pose proof (co_index _ (cw_cand _ H)) as Hwf. split.
  - intros q c Hq Hnz Hv Hb. rewrite Ei in *. apply lookup_insert_Some in Hq as [[<- <-]|[_ Hq]]; [done|].
    rewrite Er. cbn [set_tree setBlockIndexCandidates]. apply (B1 q c Hq Hnz).
    + eapply old_valid; [done..|by eexists|exact Hv].
    + intros t Ht'. destruct (B2 t Ht') as (d & Hd & _). specialize (Hb t Ht').
      rewrite old_work_less in Hb by (done || by eexists). done.
  - intros u Hu. destruct (B2 u Hu) as (d & Hd & ?). exists d. rewrite Ei. split; [by apply old_lookup|done].
  - intros t Ht'. rewrite Er in Ht'. cbn [set_tree chainActive] in Ht'. destruct (B3 t Ht') as (u & Hu & Hl). exists u. split; [done|].
    rewrite Ei. destruct (B2 u Hu) as (d & Hd & _). destruct (cw_active _ H t Ht') as [_ (c & Hqc & _)].
    rewrite old_work_less by (done || by eexists). done.
Qed.

(** *** The index and the database *)

(** What was in the index keeps its place, and what the database does not
    have, or has otherwise, is marked to be written. *)
Record index_grows (st st' : CChainState) : Prop := {
  ig_map : forall h p, mapBlockIndex (tree st) !! h = Some p -> mapBlockIndex (tree st') !! h = Some p;
  ig_kept : forall r b, block_at st r = Some b -> exists b', block_at st' r = Some b' /\
    phashBlock b' = phashBlock b /\ pprev b' = pprev b /\
    (r ∉ setDirtyBlockIndex (tree st') -> forall m, make_disk_index m b' = make_disk_index m b);
  ig_new : forall r, block_at st r = None -> is_Some (block_at st' r) -> r ∈ setDirtyBlockIndex (tree st');
  ig_dirty : setDirtyBlockIndex (tree st) ⊆ setDirtyBlockIndex (tree st');
  ig_known : forall r, r ∈ setDirtyBlockIndex (tree st') -> r ∈ setDirtyBlockIndex (tree st) \/ is_Some (block_at st' r);
}.

Lemma index_grows_refl st : index_grows st st.
Proof. split; [done| | |done|by left]; [intros r b Hb; by exists b|]. intros r ->. by intros [? ?]. Qed.

Lemma index_grows_trans st1 st2 st3 : index_grows st1 st2 -> index_grows st2 st3 -> index_grows st1 st3.
Proof.
  intros [M1 K1 N1 D1 Q1] [M2 K2 N2 D2 Q2]. split; [auto| | |by etrans|].
  - intros r b Hb. destruct (K1 r b Hb) as (b2 & Hb2 & E1 & E2 & E3). destruct (K2 r b2 Hb2) as (b3 & Hb3 & F1 & F2 & F3).
    exists b3. split_and!; [done|congruence|congruence|]. intros Hr m. rewrite F3 by done. apply E3. auto.
  - intros r Hr Hr3. destruct (block_at st2 r) eqn:E; [|by apply N2]. apply D2, N1; [done|]. by rewrite E.
  - intros r [Hr|Hr]%Q2; [|by right]. apply Q1 in Hr as [Hr|[b Hb]]; [by left|right].
    destruct (K2 r b Hb) as (b' & Hb' & _). by exists b'.
Qed.

(** Writing to a block that is then marked. *)
Lemma index_grows_update st p f : (forall b, phashBlock (f b) = phashBlock b /\ pprev (f b) = pprev b) ->
  is_Some (block_at st p) -> index_grows st (dirty p (update p f st)).
Proof.
  intros Hf Hp. assert (forall r, block_at (dirty p (update p f st)) r = if decide (r = p) then f <$> block_at st r else block_at st r) as Hat.
  { intros r. unfold block_at, index_of. cbn. case_decide as E; [subst; apply lookup_alter_eq|by apply lookup_alter_ne]. }
  split; [done| | |cbn; set_solver|].
  - intros r b Hb. rewrite Hat, Hb. case_decide as E; cbn [fmap option_fmap option_map].
    + exists (f b). split; [done|]. destruct (Hf b) as [-> ->]. split_and!; [done..|]. intros Hr. exfalso. apply Hr. cbn. set_solver.
    + by exists b.
  - intros r Hr. rewrite Hat, Hr. case_decide; cbn; by intros [? ?].
  - intros r [Hr%elem_of_singleton|Hr]%elem_of_union; [|by left]. right. rewrite Hat, Hr, decide_True by done. by apply fmap_is_Some.
Qed.

Section disk.
Context {V : Type} `{CV : CCoinsView V} `{CL : !CoinsViewLaws CV} `{P : CoinsPlatform} `{PL : !CoinsPlatformLaws P}.
Implicit Types (st : CChainState) (ds : disk_state V).

Lemma disk_wf_grows st st' ds : disk_wf st ds -> tree_wf (tree st) -> tree_wf (tree st') -> index_grows st st' ->
  (forall p b, block_at st' p = Some b -> have_data b = true -> is_Some (files (ds_files ds) !! (BLK, nFile b))) ->
  disk_wf st' ds.
Proof.
  intros [H1 H2 H3 H4 H5 H6 H7 H8 H9 H10 H11] T T' [M K N D Q] Hdata. split; try done.
  - intros h p Hp. by apply (tw_map _ T').
  - intros p Hp. assert (is_Some (block_at st' p)) as [b Hb].
    { apply Q in Hp as [Hp|]; [|done]. destruct (H2 p Hp) as (b & Hb & _). destruct (K p b Hb) as (b' & ? & _). by exists b'. }
    exists b. split; [done|]. apply (tw_map _ T'). by exists b.
  - intros p b q Hb Hq. destruct (wf_parent _ (tw_index _ T') p b q Hb Hq) as (c & Hc & _). by exists c.
  - intros h p b' Hp Hb' Hnd. destruct (block_at st p) as [b|] eqn:Hb.
    2:{ exfalso. apply Hnd, N; [done|]. by exists b'. }
    destruct (K p b Hb) as (b2 & Hb2 & E1 & E2 & E3). rewrite Hb' in Hb2. injection Hb2 as <-.
    apply (tw_map _ T') in Hp as (b2 & Hb2 & <-). assert (b2 = b') as -> by (unfold block_at, index_of in Hb'; congruence).
    rewrite E1 in *. assert (mapBlockIndex (tree st) !! phashBlock b = Some p) as Hm by (apply (tw_map _ T); by exists b).
    rewrite (H5 _ p b Hm Hb) by (intros Hd; by apply Hnd, D). rewrite (E3 Hnd). apply make_disk_index_ext_parent.
    intros q Hq. destruct (H3 p b q Hb Hq) as [c Hc]. destruct (K q c Hc) as (c' & Hc' & F1 & _).
    unfold block_at in *. rewrite Hc, Hc'. cbn. by rewrite F1.
  - intros h d Hd. destruct (H8 h d Hd) as [p Hp]. exists p. by apply M.
  - intros h p b Hp Hb Hd. by apply (Hdata p b).
  - intros Hn. destruct (H11 Hn) as [p Hp]. exists p. by apply M.
Qed.
End disk.

(** *** The statistics of the files *)

Definition null_ext (v v' : list CBlockFileInfo) : Prop :=
  (forall f i, v !! f = Some i -> v' !! f = Some i) /\
  (forall f i, v' !! f = Some i -> default info_SetNull (v !! f) = i).

Lemma null_ext_refl v : null_ext v v.
Proof. split; [done|]. by intros f i ->. Qed.

Lemma null_ext_trans v1 v2 v3 : null_ext v1 v2 -> null_ext v2 v3 -> null_ext v1 v3.
Proof.
  intros [A1 B1] [A2 B2]. split; [auto|]. intros f i Hf. specialize (B2 f i Hf).
  destruct (v2 !! f) as [j|] eqn:E; cbn in B2; [subst; by apply B1|].
  destruct (v1 !! f) as [j|] eqn:E1; [|done]. apply A1 in E1. congruence.
Qed.

Lemma null_ext_resize n v : null_ext v (resize_infos n v).
Proof.
  split; [intros f i; apply lookup_resize_infos|]. intros f i. unfold resize_infos.
  destruct (Z.leb_spec (Z.of_nat (length v)) n); [|by intros ->]. destruct (decide (f < length v)%nat) as [Hl|Hl].
  - rewrite lookup_resize by lia. by intros ->.
  - destruct (decide (f < Z.to_nat (n + 1))%nat); [|by rewrite lookup_resize_old by lia].
    rewrite lookup_resize_new by lia. intros [= <-]. by rewrite lookup_ge_None_2 by lia.
Qed.

Lemma find_file_ext fuel v nFile n v' f : find_file fuel v nFile n = Some (v', f) -> null_ext v v' /\ is_Some (v' !! Z.to_nat f).
Proof.
  revert v nFile. induction fuel as [|fuel IH]; intros v nFile; cbn [find_file];
    (destruct (v !! Z.to_nat nFile) as [i|] eqn:E; [|done]); cbn [mbind option_bind]; (destruct (_ >=? _)); try done.
  1, 3: intros [= <- <-]; split; [apply null_ext_refl|by eexists].
  intros H. apply IH in H as [H1 H2]. split; [|done]. eapply null_ext_trans; [apply null_ext_resize|done].
Qed.

Record stats_step (f : Z) (bf bf' : block_files) : Prop := {
  sp_dirty : setDirtyFileInfo bf' = {[f]} ∪ setDirtyFileInfo bf;
  sp_file : is_Some (info_at bf' f);
  sp_old : forall g, is_Some (info_at bf g) -> is_Some (info_at bf' g);
  sp_clean : forall g i, g <> f -> info_at bf' g = Some i -> default info_SetNull (info_at bf g) = i;
}.

Section saving.
Context `{FP : FilePlatform}.

Lemma preallocate_same cfg k chunk pos n bf bf' ok : preallocate cfg k chunk pos n bf = (bf', ok) ->
  vinfoBlockFile bf' = vinfoBlockFile bf /\ setDirtyFileInfo bf' = setDirtyFileInfo bf /\
  (fPruneMode cfg = false -> fCheckForPruning bf' = fCheckForPruning bf).
Proof.
  unfold preallocate. destruct (_ >? _); [|by intros [= <- <-]]. unfold CheckDiskSpace.
  destruct (_ <? _).
  - intros [= <- <-]. by destruct (fPruneMode cfg).
  - destruct (OpenDiskFile _ _ _ _) as [fs [[key off]|]]; intros [= <- <-]; by destruct (fPruneMode cfg).
Qed.

Lemma FindBlockPos_stats cfg pos0 n h t bf bf' pos : 0 <= pos_nFile pos -> FindBlockPos cfg pos0 n h t false bf = Some (bf', pos, true) ->
  stats_step (pos_nFile pos) bf bf' /\ (fPruneMode cfg = false -> fCheckForPruning bf' = fCheckForPruning bf).
Proof.
  intros Hpos. unfold FindBlockPos. cbn [negb]. set (v := resize_infos _ _).
  destruct (find_file _ v _ n) as [[v1 f]|] eqn:Ef; [|done]. apply find_file_ext in Ef as [Hext Hf].
  cbn [mbind option_bind]. destruct (v1 !! Z.to_nat f) as [i|] eqn:Ei; [|done]. cbn [mbind option_bind].
  set (bf1 := set_infos v1 (nLastBlockFile bf) (setDirtyFileInfo bf) bf).
  destruct (enter_file f false bf1) as [bf2|] eqn:Ee; [|done]. cbn [mbind option_bind].
  assert (vinfoBlockFile bf2 = v1 /\ setDirtyFileInfo bf2 = setDirtyFileInfo bf /\ fCheckForPruning bf2 = fCheckForPruning bf) as (V2 & D2 & F2).
  { unfold enter_file in Ee. destruct (negb _); [|by injection Ee as <-]. unfold FlushBlockFile in Ee.
    destruct (if negb false then _ else _); [|done]. cbn [mbind option_bind] in Ee. by injection Ee as <-. }
  rewrite V2, Ei. cbn [mbind option_bind]. set (i2 := set_info_nSize _ _).
  destruct (preallocate _ _ _ _ _ _) as [bf4 ok] eqn:Ep. apply preallocate_same in Ep as (V4 & D4 & F4). cbn in V4, D4, F4.
  destruct ok; [|done]. intros [= <- <-]. cbn [pos_nFile] in *.
  assert (null_ext (vinfoBlockFile bf) v1) as Hn by (eapply null_ext_trans; [apply null_ext_resize|done]).
  split; [|intros Hno; cbn; by rewrite F4, F2]. split; cbn [setDirtyFileInfo set_infos]; unfold info_at; cbn [vinfoBlockFile set_infos].
  - by rewrite D4, D2.
  - rewrite (proj2 (Z.ltb_ge _ _)) by lia. rewrite V4, list_lookup_insert_eq; [by eexists|]. by eapply lookup_lt_Some.
  - intros g. destruct (g <? 0); [done|]. intros [j Hj]. rewrite V4. apply lookup_lt_is_Some. rewrite length_insert.
    apply (proj1 Hn) in Hj. by eapply lookup_lt_Some.
  - intros g j Hg. destruct (Z.ltb_spec g 0); [done|]. rewrite V4, list_lookup_insert_ne by lia. apply Hn.
Qed.

Lemma SaveBlockToDisk_stats `{Hs : HashFunctions} `{L : Layout} version chunk cfg block h ms bf bf' r pos :
  SaveBlockToDisk version chunk cfg block h ms None bf = Some (bf', r) -> r = Ok pos -> pos_IsNull pos = false -> 0 <= pos_nFile pos ->
  stats_step (pos_nFile pos) bf bf' /\ (fPruneMode cfg = false -> fCheckForPruning bf' = fCheckForPruning bf).
Proof.
  unfold SaveBlockToDisk. cbn [default]. change (bool_decide (is_Some None)) with false.
  destruct (FindBlockPos _ _ _ _ _ _ _) as [[[bf1 pos1] ok]|] eqn:E; [|done]. cbn [mbind option_bind].
  destruct ok; cbn [negb].
  2:{ by intros [= <- <-] [= <-]. }
  destruct (WriteBlockToDisk _ _ _ _ _ _) as [fs rw] eqn:Ew. intros H Hr Hnn Hpos.
  assert (exists p, rw = Ok p) as [p ->] by (destruct rw as [p|[]]; simplify_eq/=; by eexists).
  simplify_eq. assert (pos_nFile pos1 = pos_nFile pos) as Hp.
  { unfold WriteBlockToDisk, append_record in Ew. destruct (OpenDiskFile _ _ _ _) as [fs1 [[key off]|]]; [|done].
    destruct (fwrite _ _ _) as [fs2 ok2]. destruct (negb ok2); [done|]. destruct (negb _); [done|].
    destruct (fwrite _ _ _) as [fs3 ok3]. destruct (negb ok3); by simplify_eq. }
  apply FindBlockPos_stats in E as [S F]; [|lia]. rewrite Hp in S. split; [|done]. by destruct S.
Qed.
End saving.

Lemma disk_wf_stats {V : Type} `{CV : CCoinsView V} `{CL : !CoinsViewLaws CV} `{P : CoinsPlatform} `{PL : !CoinsPlatformLaws P}
    st (ds : disk_state V) f bf : disk_wf st ds -> stats_step f (ds_files ds) bf ->
  (forall g, is_Some (files (ds_files ds) !! (BLK, g)) -> is_Some (files bf !! (BLK, g))) ->
  disk_wf st (set_disk bf (ds_db ds) (pcoinsTip ds) (fHavePruned ds) ds).
Proof.
  intros [H1 H2 H3 H4 H5 H6 H7 H8 H9 H10 H11] [D F O C] Hk. split; try done; cbn [ds_files ds_db set_disk].
  - intros g. rewrite D, elem_of_union, elem_of_singleton. intros [->|Hg]; [done|by apply O, H4].
  - intros g i Hi Hg. rewrite D, elem_of_union, elem_of_singleton in Hg. assert (g <> f) as Hgf by tauto.
    specialize (C g i Hgf Hi). destruct (info_at (ds_files ds) g) as [j|] eqn:E; cbn in C; subst.
    + apply H6; [done|tauto].
    + destruct (db_block_files (ds_db ds) !! g) eqn:Ed; [|done]. destruct (H7 g) as [j Hj]; [by rewrite Ed|]. congruence.
  - intros g Hg. by apply O, H7.
  - intros h p b Hh Hp Hb. by apply Hk, (H9 h p).
Qed.

(** *** Descendants of failed blocks *)

Lemma GetAncestor_is m q f bf : index_wf m -> is_Some (m !! q) -> m !! f = Some bf ->
  exists a, GetAncestor m q (nHeight bf) = Some a /\ (a = Some f <-> rtc (parent m) q f).
Proof.
  intros Hwf [bq Hq] Hf. pose proof (GetAncestor_spec m Hwf q bq (nHeight bf) Hq) as H. rewrite Z.gtb_ltb in H.
  pose proof (wf_height m Hwf f bf Hf).
  assert (height m f = Some (nHeight bf)) as Hhf by (unfold height; by rewrite Hf).
  destruct (Z.ltb_spec (nHeight bq) (nHeight bf)), (Z.ltb_spec (nHeight bf) 0); cbn [orb] in H; try lia.
  - exists None. split; [done|]. split; [done|]. intros Hr.
    destruct (ancestor_range m Hwf q bq (nHeight bf) f Hq) as [? ?]; [by split|]. lia.
  - destruct H as (r & Er & Ha). exists (Some r). split; [done|]. split.
    + intros [= ->]. by destruct Ha.
    + intros Hr. f_equal. apply (ancestor_unique m Hwf q (nHeight bf)); [done|by split].
Qed.

Lemma mark_walk_spec fuel q f bq bf st : chain_wf st -> index_of st !! q = Some bq -> index_of st !! f = Some bf ->
  failed bf = true -> rtc (parent (index_of st)) q f -> nHeight bq <= Z.of_nat fuel ->
  exists st', mark_walk fuel q f st = Some st' /\ pruned st st' /\ chain_wf st' /\ index_grows st st' /\
    exists b', index_of st' !! q = Some b' /\ failed b' = true.
Proof.
  revert q bq st. induction fuel as [|fuel IH]; intros q bq st H Hq Hf Hfail Hr Hfuel; cbn [mark_walk].
  - case_decide as E; [|exfalso].
    + subst q. exists st. split_and!; [done|apply pruned_refl|done|apply index_grows_refl|by exists bf].
    + pose proof (wf_height _ (co_index _ (cw_cand _ H)) q bq Hq).
      destruct (rtc_height _ (co_index _ (cw_cand _ H)) q f (nHeight bq) Hr) as (h & Hh & Hle & He);
        [unfold height; by rewrite Hq|]. unfold height in Hh. rewrite Hf in Hh. injection Hh as <-.
      pose proof (wf_height _ (co_index _ (cw_cand _ H)) f bf Hf). apply E, He. lia.
  - case_decide as E.
    + subst q. exists st. split_and!; [done|apply pruned_refl|done|apply index_grows_refl|by exists bf].
    + unfold block_at. rewrite Hq. cbn [mbind option_bind].
      destruct Hr as [|q x f Hqx Hr]; [done|]. destruct Hqx as (c & Hc & Hx). rewrite Hq in Hc. injection Hc as <-. rewrite Hx.
      cbn [mbind option_bind].
      assert (~ usable (index_of st) (chainActive st) q) as Hu.
      { rewrite usable_valid by done. intros Hv. destruct (Hv f bf) as [Hnf _]; [|done|congruence].
        eapply rtc_l; [by exists bq|done]. }
      destruct (mark_unusable st q (cw_cand _ H) Hu) as [P1 C1].
      assert (chain_wf (update q (add_status BLOCK_FAILED_CHILD) st)) as W1
        by by apply (chain_wf_status st), pruned_step.
      set (st1 := dirty q (update q (add_status BLOCK_FAILED_CHILD) st)).
      assert (chain_wf st1) as W2 by by apply chain_wf_dirty.
      assert (pruned st st1) as P2 by by destruct P1.
      assert (index_grows st st1) as G2 by (apply index_grows_update; [done|by exists bq]).
      assert (index_of st1 !! q = Some (add_status BLOCK_FAILED_CHILD bq)) as Hq1.
      { unfold st1, index_of. cbn. rewrite lookup_alter_eq. change (heap (tree st) !! q) with (index_of st !! q). by rewrite Hq. }
      destruct (wf_parent _ (co_index _ (cw_cand _ H)) q bq x Hq Hx) as (cx & Hcx & Hhx).
      assert (x <> q) as Hxq by (intros ->; assert (cx = bq) by congruence; subst; lia).
      assert (forall r, r <> q -> index_of st1 !! r = index_of st !! r) as Hother.
      { intros r Hne. unfold st1, index_of. cbn. by rewrite lookup_alter_ne. }
      assert (f <> q) as Hfq by congruence.
      destruct (IH x cx st1 W2) as (st' & E' & P3 & W3 & G3 & _);
        [by rewrite Hother|by rewrite Hother|done| |lia|].
      { apply (core_rtc (index_of st)); [|done]. apply same_but_status_core, (pruned_status _ _ P2). }
      exists st'. split; [exact E'|]. split; [by eapply pruned_trans|]. split; [done|].
      split; [by eapply index_grows_trans|]. destruct (pr_index _ _ P3 q _ Hq1) as (b' & Hb' & [->|[_ ->]]).
      * eexists. split; [exact Hb'|]. apply failed_add.
      * eexists. split; [exact Hb'|]. apply failed_add.
Qed.

Lemma check_failed_ancestors_spec l q bq st : chain_wf st -> index_of st !! q = Some bq ->
  (forall f, f ∈ l -> f ∈ g_failed_blocks st) ->
  exists st' bad, check_failed_ancestors l q st = Some (st', bad) /\ pruned st st' /\ chain_wf st' /\ index_grows st st' /\
    (bad = true <-> exists f, f ∈ l /\ rtc (parent (index_of st)) q f) /\ (bad = false -> st' = st) /\
    (bad = true -> exists b', index_of st' !! q = Some b' /\ failed b' = true).
Proof.
  intros H Hq. induction l as [|f l IH]; intros Hl; cbn [check_failed_ancestors].
  { exists st, false. split_and!; try done; [apply pruned_refl|apply index_grows_refl|]. split; [done|].
    intros (f & Hf & _). by apply not_elem_of_nil in Hf. }
  destruct (cw_failed _ H) as [_ F]. destruct (F f (Hl f ltac:(left))) as (bf & Hf & Hbit). unfold block_at. rewrite Hf.
  cbn [mbind option_bind].
  destruct (GetAncestor_is (index_of st) q f bf (co_index _ (cw_cand _ H))) as (a & -> & Ha); [by eexists|done|].
  cbn [mbind option_bind]. case_decide as E.
  - apply Ha in E. destruct (Z.land (nStatus bf) BLOCK_FAILED_VALID =? 0) eqn:E0.
    { exfalso. pose proof (land_bit (nStatus bf) 5 ltac:(lia)) as Hb5. change (2 ^ 5) with BLOCK_FAILED_VALID in Hb5.
      rewrite E0, Hbit in Hb5. done. }
    rewrite Hq. cbn [mbind option_bind].
    pose proof (wf_height _ (co_index _ (cw_cand _ H)) q bq Hq).
    destruct (mark_walk_spec (Z.to_nat (nHeight bq)) q f bq bf st H Hq Hf) as (st' & -> & P & W & G & Hb');
      [by rewrite failed_bits, Hbit|done|lia|].
    cbn [mbind option_bind]. exists st', true. split_and!; try done. split; [|done]. intros _. exists f. split; [left|done].
  - destruct IH as (st' & bad & -> & P & W & G & Hbad & Hs & Hb'); [intros x Hx; apply Hl; by right|].
    exists st', bad. split_and!; try done. rewrite Hbad. split.
    + intros (x & Hx & Hr). exists x. split; [by right|done].
    + intros (x & [->|Hx]%elem_of_cons & Hr); [|by exists x]. exfalso. by apply E, Ha.
Qed.

Lemma pruned_based st st' base : chain_wf st -> chain_wf st' -> pruned st st' -> based st base -> based st' base.
Proof.
  intros W W' P [B1 B2 B3]. pose proof (pruned_status _ _ P) as Hst. split.
  - by apply (pruned_complete st).
  - intros u Hu. destruct (B2 u Hu) as (b & Hb & Hn). destruct (same_but_status_lookup _ _ u b Hst Hb) as (b' & Hb' & E).
    exists b'. split; [done|]. by destruct (strip_eq _ _ E) as (_ & -> & _).
  - intros t Ht. rewrite (pr_chain _ _ P) in Ht. destruct (B3 t Ht) as (u & Hu & Hl). exists u. split; [done|].
    by rewrite (status_work_less _ _ _ _ Hst).
Qed.

(** *** Headers *)

Section header.
Context `{Hs : HashFunctions} `{HL : !HashLaws Hs} `{L : Layout} `{IO : cpp_int_io} `{IOL : !cpp_int_io_laws} `{Eh : Equihash}.
Context (cfg : accept_settings).

Definition bits_ok (m : index_map) : Prop := forall q c, m !! q = Some c -> in_range 32 (nBits c).

(** The block of a header, other than the genesis block, that may be added. *)
Definition acceptable (block : CBlockHeader) (st : CChainState) : Prop :=
  CheckBlockHeader block (consensus cfg) true = Ok () /\
  exists q c, mapBlockIndex (tree st) !! hdr_hashPrevBlock block = Some q /\ index_of st !! q = Some c /\ failed c = false /\
    ContextualCheckBlockHeader (index_of st) (mapBlockIndex (tree st)) (fCheckpointsEnabled cfg) (mapCheckpoints cfg) block
      (consensus cfg) q (GetAdjustedTime cfg) = Some (Ok ()) /\
    (IsValid c BLOCK_VALID_SCRIPTS = Some true \/ forall f, f ∈ g_failed_blocks st -> ~ rtc (parent (index_of st)) q f).

Lemma add_spec block st : chain_wf st -> chain_facts.header_ok header_GetHash block ->
  mapBlockIndex (tree st) !! header_GetHash block = None ->
  exists t p b, AddToBlockIndex header_GetHash (tree st) block = Some (t, p) /\ entry_added st (set_tree t st) p b /\
    mapBlockIndex t = <[header_GetHash block := p]> (mapBlockIndex (tree st)) /\
    pprev b = mapBlockIndex (tree st) !! hdr_hashPrevBlock block /\ nBits b = hdr_nBits block /\ nTime b = hdr_nTime block /\
    phashBlock b = header_GetHash block.
Proof.
  intros H Hok Hnew. destruct (AddToBlockIndex_new header_GetHash (tree st) block (cw_tree _ H) Hok Hnew)
    as (t & p & b & E & T & Hp & Hh & Hm & Hq & Ht & Hb & Hph & Hst & Hn & Hc).
  exists t, p, b. split_and!; try done.
Qed.

Lemma added_dirty GetHash t block t' p : mapBlockIndex t !! GetHash block = None ->
  AddToBlockIndex GetHash t block = Some (t', p) -> setDirtyBlockIndex t' = {[p]} ∪ setDirtyBlockIndex t.
Proof.
  intros Hnew. unfold AddToBlockIndex. rewrite Hnew. intros E.
  repeat match type of E with (?o ≫= _) = Some _ => destruct o as [?|]; [cbn [mbind option_bind] in E|discriminate E]
         | (let '(_, _) := ?x in _) = _ => destruct x end.
  by injection E as <- <-.
Qed.

Lemma index_grows_added st st' p b : entry_added st st' p b ->
  (exists h, mapBlockIndex (tree st) !! h = None /\ mapBlockIndex (tree st') = <[h := p]> (mapBlockIndex (tree st))) ->
  setDirtyBlockIndex (tree st') = {[p]} ∪ setDirtyBlockIndex (tree st) -> index_grows st st'.
Proof.
  intros [Hp Ei Ht Er Hn Hc Hst] (h & Hh & Em) Ed. rewrite Er. split; cbn [set_tree tree]; rewrite ?Ed.
  - intros h' q Hq. rewrite Em, lookup_insert_ne by congruence. done.
  - intros r c Hr. exists c. split; [|done]. unfold block_at in *. change (index_of (set_tree (tree st') st)) with (index_of st').
    rewrite Ei. by apply old_lookup.
  - intros r Hr [c Hrc]. unfold block_at in *. change (index_of (set_tree (tree st') st)) with (index_of st') in Hrc. rewrite Ei in Hrc.
    apply lookup_insert_Some in Hrc as [[<- _]|[_ Hrc]]; [set_solver|congruence].
  - set_solver.
  - intros r [Hr%elem_of_singleton|Hr]%elem_of_union; [|by left]. right. unfold block_at.
    change (index_of (set_tree (tree st') st)) with (index_of st'). rewrite Ei, Hr, lookup_insert_eq. by eexists.
Qed.

(** Only the genesis block has no predecessor. *)
Definition rooted (st : CChainState) : Prop :=
  forall p b, index_of st !! p = Some b -> pprev b = None -> phashBlock b = hashGenesisBlock (consensus cfg).

Definition data_kept (st st' : CChainState) : Prop := forall p b', index_of st' !! p = Some b' -> have_data b' = true ->
  exists b, index_of st !! p = Some b /\ have_data b = true /\ nFile b' = nFile b.

(** What an accepted header leaves as it was. *)
Record header_step (st st' : CChainState) (base : option ptr) : Prop := {
  hs_wf : chain_wf st';
  hs_based : based st' base;
  hs_bits : bits_ok (index_of st');
  hs_rooted : rooted st';
  hs_grows : index_grows st st';
  hs_chain : chainActive st' = chainActive st;
  hs_data : data_kept st st';
}.

Lemma header_step_refl st base : chain_wf st -> based st base -> bits_ok (index_of st) -> rooted st -> header_step st st base.
Proof. intros. split; try done; [apply index_grows_refl|]. intros p b' Hb Hd. by exists b'. Qed.

Lemma header_step_pruned st st' base : chain_wf st -> based st base -> bits_ok (index_of st) -> rooted st ->
  pruned st st' -> chain_wf st' -> index_grows st st' -> header_step st st' base.
Proof.
  intros W B Hb Hr P W' G. pose proof (pruned_status _ _ P) as Hst.
  assert (forall p b', index_of st' !! p = Some b' -> exists b, index_of st !! p = Some b /\
    (b' = b \/ b' = add_status BLOCK_FAILED_CHILD b)) as Hback.
  { intros p b' Hp. destruct (index_of st !! p) as [b|] eqn:E; [|by rewrite (pr_dom _ _ P p E) in Hp].
    destruct (pr_index _ _ P p b E) as (b2 & E2 & Hc). rewrite Hp in E2. injection E2 as <-. exists b. split; [done|]. tauto. }
  split; try done.
  - by apply (pruned_based st).
  - intros p b' Hp. destruct (Hback p b' Hp) as (b & E & [->| ->]); by apply (Hb p b).
  - intros p b' Hp Hq. destruct (Hback p b' Hp) as (b & E & [->| ->]); by apply (Hr p b).
  - apply P.
  - intros p b' Hp Hd. destruct (Hback p b' Hp) as (b & E & [->| ->]); exists b; [done|]. split; [done|]. split; [|done].
    rewrite have_data_bit in *. cbn [add_status nStatus set_nStatus] in Hd. rewrite Z.lor_spec in Hd.
    change (Z.testbit BLOCK_FAILED_CHILD 3) with false in Hd. by rewrite orb_false_r in Hd.
Qed.

Lemma header_step_added st st' p b base : chain_wf st -> based st base -> bits_ok (index_of st) -> rooted st ->
  entry_added st st' p b -> index_grows st st' -> in_range 32 (nBits b) ->
  (pprev b = None -> phashBlock b = hashGenesisBlock (consensus cfg)) -> header_step st st' base.
Proof.
  intros W B Hb Hr A G Hbits Hroot. pose proof (ea_index _ _ _ _ A) as Ei. split; try done.
  - by eapply entry_added_wf.
  - by eapply entry_added_based.
  - intros q c. rewrite Ei, lookup_insert_Some. intros [[<- <-]|[_ Hq]]; [done|by apply (Hb q)].
  - intros q c. rewrite Ei, lookup_insert_Some. intros [[<- <-]|[_ Hq]]; [done|by apply (Hr q)].
  - by rewrite (ea_rest _ _ _ _ A).
  - intros q c. rewrite Ei, lookup_insert_Some. intros [[<- <-]|[_ Hq]] Hd; [|by exists c].
    unfold have_data in Hd. by rewrite (ea_status _ _ _ _ A) in Hd.
Qed.

Record header_added (block : CBlockHeader) (st st' : CChainState) (p : ptr) (b : CBlockIndex) : Prop := {
  ha_entry : entry_added st st' p b;
  ha_map : mapBlockIndex (tree st') = <[header_GetHash block := p]> (mapBlockIndex (tree st));
  ha_prev : pprev b = mapBlockIndex (tree st) !! hdr_hashPrevBlock block;
  ha_hash : phashBlock b = header_GetHash block;
  ha_bits : nBits b = hdr_nBits block;
  ha_time : nTime b = hdr_nTime block;
}.

Lemma add_step block st base : chain_wf st -> based st base -> bits_ok (index_of st) -> rooted st ->
  chain_facts.header_ok header_GetHash block -> mapBlockIndex (tree st) !! header_GetHash block = None ->
  (header_GetHash block = hashGenesisBlock (consensus cfg) \/ mapBlockIndex (tree st) !! hdr_hashPrevBlock block <> None) ->
  exists t p b, AddToBlockIndex header_GetHash (tree st) block = Some (t, p) /\ header_added block st (set_tree t st) p b /\
    header_step st (set_tree t st) base.
Proof.
  intros W B Hb Hr Hok Hnew Hroot. destruct (add_spec block st W Hok Hnew) as (t & p & b & E & A & Hm & Hq & Hbits & Ht & Hh).
  exists t, p, b. split; [done|]. split; [by split|]. apply (header_step_added _ _ p b); try done.
  - apply (index_grows_added _ _ p b A); [by exists (header_GetHash block)|]. by eapply added_dirty.
  - rewrite Hbits. apply Hok.
  - rewrite Hq, Hh. destruct Hroot; [done|]. by intros ?.
Qed.

(** What the result says. *)
Definition header_verdict (block : CBlockHeader) (st st' : CChainState) (o : option ptr) (r : tx_result unit) : Prop :=
  match mapBlockIndex (tree st) !! header_GetHash block with
  | Some p => st' = st /\ o = Some p /\
      (r = Ok () <-> header_GetHash block = hashGenesisBlock (consensus cfg) \/ exists b, index_of st !! p = Some b /\ failed b = false)
  | None =>
      (r = Ok () <-> header_GetHash block = hashGenesisBlock (consensus cfg) \/ acceptable block st) /\
      (r = Ok () -> exists p b, o = Some p /\ header_added block st st' p b) /\
      (r <> Ok () -> o = None /\ pruned st st')
  end.

Lemma AcceptBlockHeader_spec block st base : chain_wf st -> based st base -> bits_ok (index_of st) -> rooted st ->
  pow_facts.params_ok (consensus cfg) -> chain_facts.header_ok header_GetHash block ->
  exists st' o r, AcceptBlockHeader cfg block st = Some (st', o, r) /\ header_step st st' base /\ header_verdict block st st' o r.
Proof.
  intros W B Hbits Hroot Hpar Hok. unfold AcceptBlockHeader, header_verdict.
  destruct (decide (header_GetHash block = hashGenesisBlock (consensus cfg))) as [Eg|Eg].
  - destruct (mapBlockIndex (tree st) !! header_GetHash block) as [p|] eqn:Hm.
    + unfold AddToBlockIndex. rewrite Hm. cbn [mbind option_bind]. replace (set_tree (tree st) st) with st by by destruct st.
      exists st, (Some p), (Ok ()). split; [done|]. split; [by apply header_step_refl|]. split_and!; try done. split; [by left|done].
    + destruct (add_step block st base W B Hbits Hroot Hok Hm ltac:(by left)) as (t & p & b & -> & A & S).
      cbn [mbind option_bind]. exists (set_tree t st), (Some p), (Ok ()). split; [done|]. split; [done|].
      split; [|by split; [intros _; by exists p, b|]]. split; [by left|done].
  - assert (forall (r : tx_result unit) st', pruned st st' -> chain_wf st' -> index_grows st st' -> r <> Ok () -> ~ acceptable block st ->
      header_step st st' base /\ (r = Ok () <-> header_GetHash block = hashGenesisBlock (consensus cfg) \/ acceptable block st) /\
      (r = Ok () -> exists p b, @None ptr = Some p /\ header_added block st st' p b) /\
      (r <> Ok () -> @None ptr = None /\ pruned st st')) as Hrefuse.
    { intros r st' P W' G Hr Hna. split; [by apply header_step_pruned|]. split_and!; try done. split; [done|]. by intros []. }
    pose proof (fun r => Hrefuse r st (pruned_refl st) W (index_grows_refl st)) as Hrefuse0.
    destruct (mapBlockIndex (tree st) !! header_GetHash block) as [p|] eqn:Hm.
    + destruct (proj1 (tw_map _ (cw_tree _ W) _ p) Hm) as (b & Hb & _). unfold block_at, index_of. rewrite Hb. cbn [mbind option_bind].
      exists st, (Some p). eexists. split; [done|]. split; [by apply header_step_refl|]. split_and!; [done..|].
      destruct (failed b) eqn:Ef; (split; [|intros [?|(b' & Hb' & Hf)]]); try done; [congruence|].
      intros _. right. by exists b.
    + destruct (CheckBlockHeader block (consensus cfg) true) as [[]|e] eqn:Ec.
      2:{ exists st, None, (Err e). split; [done|]. apply Hrefuse0; [done|]. intros [? _]. congruence. }
      destruct (mapBlockIndex (tree st) !! hdr_hashPrevBlock block) as [q|] eqn:Hq.
      2:{ eexists st, None, _. split; [done|]. apply Hrefuse0; [done|]. intros (_ & q & c & ? & _). congruence. }
      destruct (proj1 (tw_map _ (cw_tree _ W) _ q) Hq) as (c & Hc & _). change (heap (tree st)) with (index_of st) in Hc.
      unfold block_at. rewrite Hc. cbn [mbind option_bind]. destruct (failed c) eqn:Ef.
      { eexists st, None, _. split; [done|]. apply Hrefuse0; [done|]. intros (_ & q' & c' & ? & ? & ? & _). congruence. }
      destruct (GetNextWorkRequired_spec (index_of st) q c block (consensus cfg) (co_index _ (cw_cand _ W)) Hc Hpar Hbits)
        as (required & Hreq & _).
      destruct (GetMedianTimePast_total (index_of st) q c (co_index _ (cw_cand _ W)) Hc) as [mtp Hmtp].
      destruct (ContextualCheckBlockHeader_ok (index_of st) (mapBlockIndex (tree st)) (fCheckpointsEnabled cfg) (mapCheckpoints cfg)
        block (consensus cfg) q c required mtp (GetAdjustedTime cfg) Hc Hreq Hmtp) as (r & Er & _).
      { intros h x Hx. apply (tw_map _ (cw_tree _ W)) in Hx as (d & ? & _). by exists d. }
      rewrite Er. cbn [mbind option_bind]. destruct r as [[]|e].
      2:{ exists st, None, (Err e). split; [done|]. apply Hrefuse0; [done|].
          intros (_ & q' & c' & E1 & E2 & _ & E3 & _). assert (q' = q) as -> by congruence. congruence. }
      rewrite IsValid_spec by (unfold BLOCK_VALID_SCRIPTS; lia). cbn [mbind option_bind]. set (valid := negb (failed c) && _).
      assert (forall st1, index_of st1 = index_of st -> st1 = st ->
        (IsValid c BLOCK_VALID_SCRIPTS = Some true \/ forall f, f ∈ g_failed_blocks st -> ~ rtc (parent (index_of st)) q f) ->
        exists st' o (r : tx_result unit), ('(t, pindex) ← AddToBlockIndex header_GetHash (tree st1) block; Some (set_tree t st1, Some pindex, Ok ()))
            = Some (st', o, r) /\
          header_step st st' base /\ (r = Ok () <-> header_GetHash block = hashGenesisBlock (consensus cfg) \/ acceptable block st) /\
          (r = Ok () -> exists p b, o = Some p /\ header_added block st st' p b) /\ (r <> Ok () -> o = None /\ pruned st st')) as Hadd.
      { intros st1 _ -> Hclean. destruct (add_step block st base W B Hbits Hroot Hok Hm) as (t & p & b & -> & A & S); [right; congruence|].
        cbn [mbind option_bind]. exists (set_tree t st), (Some p), (Ok ()). split; [done|]. split; [done|]. split_and!.
        - split; [intros _; right|done]. split; [done|]. by exists q, c.
        - intros _. by exists p, b.
        - done. }
      destruct valid eqn:Ev; cbn [negb].
      * cbn [mbind option_bind]. apply Hadd; [done..|left]. rewrite IsValid_spec by (unfold BLOCK_VALID_SCRIPTS; lia). by rewrite <- Ev.
      * destruct (check_failed_ancestors_spec (g_failed_blocks st) q c st W Hc ltac:(done)) as (st1 & bad & -> & P & W1 & G & Hbad & Hsame & _).
        cbn [mbind option_bind]. destruct bad.
        -- eexists st1, None, _. split; [done|]. apply Hrefuse; [done..|].
           intros (_ & q' & c' & E1 & E2 & _ & _ & Hcl). assert (q' = q) as -> by congruence. assert (c' = c) as -> by congruence.
           destruct Hcl as [Hcl|Hcl].
           ++ rewrite IsValid_spec in Hcl by (unfold BLOCK_VALID_SCRIPTS; lia). unfold valid in Ev. congruence.
           ++ destruct (proj1 Hbad eq_refl) as (f & Hf & Hr). by apply (Hcl f).
        -- apply Hadd; [by rewrite (Hsame eq_refl)|by apply Hsame|right]. intros f Hf Hr.
           assert (false = true) by (apply Hbad; by exists f). done.
Qed.

(** Under the two conditions a new header has no failed ancestor. *)
Lemma accepted_unfailed block st st' o r : chain_wf st -> header_verdict block st st' o r ->
  (forall f b, index_of st !! f = Some b -> failed b = true -> f ∈ g_failed_blocks st) ->
  (forall q c, index_of st !! q = Some c -> IsValid c BLOCK_VALID_SCRIPTS = Some true ->
     forall f b, rtc (parent (index_of st)) q f -> index_of st !! f = Some b -> failed b = false) ->
  r = Ok () -> header_GetHash block <> hashGenesisBlock (consensus cfg) -> mapBlockIndex (tree st) !! header_GetHash block = None ->
  forall p, o = Some p -> forall f b, rtc (parent (index_of st')) p f -> index_of st' !! f = Some b -> failed b = false.
Proof.
  intros W V Hlist Hclean -> Hg Hnew p -> f b Hr Hf. unfold header_verdict in V. rewrite Hnew in V.
  destruct V as (V1 & V2 & _). destruct (proj1 V1 eq_refl) as [|(_ & q & c & Hq & Hc & _ & _ & Hv)]; [done|].
  destruct (V2 eq_refl) as (p' & bp & [= <-] & A). pose proof (ha_entry _ _ _ _ _ A) as E.
  pose proof (ea_index _ _ _ _ E) as Ei. rewrite Ei in Hr, Hf.
  apply rtc_inv in Hr as [<-|(x & (d & Hd & Hx) & Hr)].
  - rewrite lookup_insert_eq in Hf. injection Hf as <-. by rewrite failed_bits, (ea_status _ _ _ _ E).
  - rewrite lookup_insert_eq in Hd. injection Hd as <-. rewrite (ha_prev _ _ _ _ _ A), Hq in Hx. injection Hx as <-.
    destruct (new_rtc (index_of st) p bp (ea_new _ _ _ _ E) (co_index _ (cw_cand _ W)) q f) as [Hr' [b' Hb']]; [by eexists|done|].
    rewrite (old_lookup _ _ _ (ea_new _ _ _ _ E) f b' Hb') in Hf. injection Hf as <-.
    destruct Hv as [Hv|Hv]; [by apply (Hclean q c Hc Hv f)|]. destruct (failed b') eqn:Ef; [|done].
    exfalso. by apply (Hv f (Hlist f b' Hb' Ef)).
Qed.

Lemma header_step_trans st1 st2 st3 base : header_step st1 st2 base -> header_step st2 st3 base -> header_step st1 st3 base.
Proof.
  intros [] []. split; try done; [by eapply index_grows_trans|congruence|].
  intros p b3 Hb3 Hd. destruct (hs_data1 p b3 Hb3 Hd) as (b2 & Hb2 & Hd2 & ->). by apply hs_data0.
Qed.

Lemma ProcessNewBlockHeaders_spec headers ppindex st base : chain_wf st -> based st base -> bits_ok (index_of st) -> rooted st ->
  pow_facts.params_ok (consensus cfg) -> Forall (chain_facts.header_ok header_GetHash) headers ->
  exists st' o first_invalid r, ProcessNewBlockHeaders cfg headers ppindex st = Some (st', o, first_invalid, r) /\
    header_step st st' base /\ (first_invalid = None <-> r = Ok ()) /\
    forall h, first_invalid = Some h -> exists l1 l2 st1 o1 o2 st2 e, headers = l1 ++ h :: l2 /\
      ProcessNewBlockHeaders cfg l1 ppindex st = Some (st1, o1, None, Ok ()) /\
      AcceptBlockHeader cfg h st1 = Some (st2, o2, Err e) /\ r = Err e /\ st' = st2.
Proof.
  intros W B Hb Hr Hp Hall. revert ppindex st W B Hb Hr.
  induction Hall as [|x l Hx _ IH]; intros ppindex st W B Hb Hr; cbn [ProcessNewBlockHeaders].
  { exists st, ppindex, None, (Ok ()). split; [done|]. split; [by apply header_step_refl|]. by split. }
  destruct (AcceptBlockHeader_spec x st base W B Hb Hr Hp Hx) as (st1 & o1 & r1 & E1 & S1 & _). rewrite E1. cbn [mbind option_bind].
  destruct r1 as [[]|e].
  - destruct (IH o1 st1) as (st' & o & i & r & E & S & Hi & Hbad); [apply S1..|]. exists st', o, i, r. split; [done|].
    split; [by eapply header_step_trans|]. split; [done|]. intros h Hh.
    destruct (Hbad h Hh) as (l1 & l2 & st2 & o2 & o3 & st3 & e & -> & E2 & E3 & -> & ->).
    exists (x :: l1), l2, st2, o2, o3, st3, e. split_and!; try done. cbn [ProcessNewBlockHeaders]. by rewrite E1.
  - exists st1, ppindex, (Some x), (Err e). split; [done|]. split; [done|]. split; [done|]. intros h [= <-].
    exists [], l, st, ppindex, o1, st1, e. by split_and!.
Qed.
End header.

(** *** Blocks *)

(** Linking changes only what is not written to the database. *)
Record only_links (st st' : CChainState) : Prop := {
  ol_index : forall q, set_linked 0 0 <$> block_at st' q = set_linked 0 0 <$> block_at st q;
  ol_map : mapBlockIndex (tree st') = mapBlockIndex (tree st);
  ol_dirty : setDirtyBlockIndex (tree st') = setDirtyBlockIndex (tree st);
}.

Lemma only_links_refl st : only_links st st.
Proof. done. Qed.
Lemma only_links_trans st1 st2 st3 : only_links st1 st2 -> only_links st2 st3 -> only_links st1 st3.
Proof. intros [A1 B1 C1] [A2 B2 C2]. split; [intros q; by rewrite A2|congruence..]. Qed.
Lemma only_links_same st st' : tree st' = tree st -> only_links st st'.
Proof. intros E. split; [intros q; unfold block_at, index_of|..]; by rewrite E. Qed.

Lemma link_block_links p st st' : link_block p st = Some st' -> only_links st st'.
Proof.
  unfold link_block. destruct (block_at st p) as [b|] eqn:Eb; [|done]. cbn [mbind option_bind].
  destruct (match pprev b with Some _ => _ | None => _ end) as [n|]; [|done]. cbn [mbind option_bind].
  set (st1 := update p _ st). assert (only_links st st1) as L1.
  { split; [|done..]. intros q. unfold st1, block_at, index_of. cbn. destruct (decide (q = p)) as [->|Hq].
    - rewrite lookup_alter_eq. change (heap (tree st) !! p) with (index_of st !! p). by destruct (index_of st !! p).
    - by rewrite lookup_alter_ne. }
  set (st2 := set_counters _ _ _ st1). 
  intros [= <-]. eapply only_links_trans; [exact L1|]. apply only_links_same.
  case_match; [case_match|]; done.
Qed.

Lemma link_queue_links fuel queue st st' : link_queue fuel queue st = Some st' -> only_links st st'.
Proof.
  revert queue st. induction fuel as [|fuel IH]; intros [|p queue] st; cbn [link_queue]; try done; try (intros [= <-]; apply only_links_refl).
  destruct (link_block p st) as [st1|] eqn:E; [|done]. cbn [mbind option_bind]. intros H. apply IH in H.
  eapply only_links_trans; [by apply (link_block_links p)|]. eapply only_links_trans; [|exact H]. by apply only_links_same.
Qed.

Lemma ReceivedBlockTransactions_disk n p pos st st' b : block_at st p = Some b ->
  ReceivedBlockTransactions n p pos st = Some st' ->
  exists b1, only_links (dirty p (update p (fun _ => b1) st)) st' /\ phashBlock b1 = phashBlock b /\ pprev b1 = pprev b /\
    nFile b1 = pos_nFile pos /\ nDataPos b1 = pos_nPos pos.
Proof.
  intros Hb. unfold ReceivedBlockTransactions. rewrite Hb. cbn [mbind option_bind]. change IsWitnessEnabled with true. cbn beta iota.
  set (b0 := add_status BLOCK_OPT_WITNESS _).
  destruct (RaiseValidity_spec b0 BLOCK_VALID_TRANSACTIONS) as (s & r & -> & _); [unfold BLOCK_VALID_TRANSACTIONS; lia|].
  cbn [mbind option_bind]. set (b1 := set_nStatus s b0). set (st1 := dirty p (update p (fun _ => b1) st)).
  intros H. exists b1. split; [|by split_and!].
  fold st1. assert (forall u, only_links st1 (set_unlinked u st1)) as Hu by (intros u; by apply only_links_same).
  destruct (pprev b1) as [q|]; [|cbn [mbind option_bind] in H; by apply link_queue_links in H].
  destruct (block_at st1 q) as [c|]; [|done]. cbn [mbind option_bind] in H.
  destruct (negb _); [by apply link_queue_links in H|]. destruct (IsValid _ _) as [v|]; [|done]. cbn [mbind option_bind] in H.
  destruct v; simplify_eq; [apply Hu|apply only_links_refl].
Qed.

Lemma only_links_at st st' q b' : only_links st st' -> block_at st' q = Some b' -> exists b, block_at st q = Some b /\
  phashBlock b' = phashBlock b /\ pprev b' = pprev b /\ nStatus b' = nStatus b /\ nFile b' = nFile b /\ nDataPos b' = nDataPos b /\
  nBits b' = nBits b /\ forall m, make_disk_index m b' = make_disk_index m b.
Proof.
  intros L Hb'. pose proof (ol_index _ _ L q) as E. rewrite Hb' in E. destruct (block_at st q) as [b|]; [|done].
  exists b. split; [done|]. apply (inj Some) in E.
  split_and!; [exact (f_equal phashBlock E)|exact (f_equal pprev E)|exact (f_equal nStatus E)|exact (f_equal nFile E)|
    exact (f_equal nDataPos E)|exact (f_equal nBits E)|intros m; exact (f_equal (make_disk_index m) E)].
Qed.

Lemma only_links_at' st st' q b : only_links st st' -> block_at st q = Some b -> is_Some (block_at st' q).
Proof. intros L Hb. pose proof (ol_index _ _ L q) as E. rewrite Hb in E. by destruct (block_at st' q). Qed.

Lemma index_grows_received n p pos st st' b : block_at st p = Some b ->
  ReceivedBlockTransactions n p pos st = Some st' ->
  index_grows st st' /\ (forall q b', block_at st' q = Some b' -> exists c, block_at st q = Some c /\
     phashBlock b' = phashBlock c /\ pprev b' = pprev c /\ (q <> p -> nStatus b' = nStatus c /\ nFile b' = nFile c)) /\
  exists b', block_at st' p = Some b' /\ nFile b' = pos_nFile pos /\ nDataPos b' = pos_nPos pos.
Proof.
  intros Hb H. destruct (ReceivedBlockTransactions_disk n p pos st st' b Hb H) as (b1 & L & E1 & E2 & E3 & E4).
  set (st1 := dirty p (update p (fun _ => b1) st)) in *.
  assert (forall q, block_at st1 q = if decide (q = p) then Some b1 else block_at st q) as Hat.
  { intros q. unfold st1, block_at, index_of. cbn. case_decide as E; [subst; rewrite lookup_alter_eq|by apply lookup_alter_ne].
    change (index_of st !! p) with (block_at st p). by rewrite Hb. }
  split; [|split].
  - split.
    + intros h q. by rewrite (ol_map _ _ L).
    + intros r c Hc. assert (exists c1, block_at st1 r = Some c1 /\ phashBlock c1 = phashBlock c /\ pprev c1 = pprev c /\
        (r <> p -> c1 = c)) as (c1 & Hc1 & F1 & F2 & F3).
      { rewrite Hat. case_decide as E; [exists b1; subst; split_and!; try done; congruence|by exists c]. }
      destruct (only_links_at' _ _ r c1 L Hc1) as [c' Hc']. exists c'. split; [done|].
      destruct (only_links_at _ _ r c' L Hc') as (c2 & Hc2 & G1 & G2 & _ & _ & _ & _ & G3). assert (c2 = c1) as -> by congruence.
      split_and!; [congruence..|]. rewrite (ol_dirty _ _ L). intros Hr. rewrite F3 in * by (intros ->; apply Hr; cbn; set_solver).
      done.
    + intros r Hr [c' Hc']. destruct (only_links_at _ _ r c' L Hc') as (c & Hc & _). rewrite Hat in Hc. case_decide as E; [|congruence].
      subst. congruence.
    + rewrite (ol_dirty _ _ L). cbn. set_solver.
    + intros r. rewrite (ol_dirty _ _ L). cbn. intros [->%elem_of_singleton|Hr]%elem_of_union; [|by left]. right.
      apply (only_links_at' _ _ p b1 L). rewrite Hat. by rewrite decide_True.
  - intros q b' Hb'. destruct (only_links_at _ _ q b' L Hb') as (c & Hc & F1 & F2 & F3 & F4 & _). rewrite Hat in Hc.
    case_decide as E.
    + subst. injection Hc as <-. exists b. split_and!; [done|congruence..|done].
    + exists c. split_and!; [done..|]. by split.
  - destruct (only_links_at' _ _ p b1 L) as [b' Hb']; [rewrite Hat; by rewrite decide_True|]. exists b'. split; [done|].
    destruct (only_links_at _ _ p b' L Hb') as (c & Hc & _ & _ & _ & F4 & F5 & _). rewrite Hat, decide_True in Hc by done.
    injection Hc as <-. split; congruence.
Qed.

Lemma status_based st st' base : status_step st st' -> setBlockIndexCandidates st' = setBlockIndexCandidates st ->
  based st base -> based st' base.
Proof.
  intros S Ec [B1 B2 B3]. pose proof (ss_status _ _ S) as Hst. split.
  - intros p b' Hb' Hn Hv Hbase. destruct (same_but_status_lookup _ _ p b' (same_but_status_sym _ _ Hst) Hb') as (b & Hb & E).
    destruct (strip_eq _ _ E) as (_ & E1 & _). rewrite Ec. apply (B1 p b); [done|congruence| |].
    + by apply (evolves_valid _ _ _ (step_evolves _ _ S)).
    + intros t Ht. rewrite <- (status_work_less _ _ _ _ Hst). by apply Hbase.
  - intros u Hu. destruct (B2 u Hu) as (b & Hb & Hn). destruct (same_but_status_lookup _ _ u b Hst Hb) as (b' & Hb' & E).
    exists b'. split; [done|]. by destruct (strip_eq _ _ E) as (_ & -> & _).
  - intros t Ht. rewrite (ss_chain _ _ S) in Ht. destruct (B3 t Ht) as (u & Hu & Hl). exists u. split; [done|].
    by rewrite (status_work_less _ _ _ _ Hst).
Qed.

Lemma set_failed_step st p b : chain_wf st -> index_of st !! p = Some b -> have_data b = false ->
  status_step st (dirty p (update p (add_status BLOCK_FAILED_VALID) st)).
Proof.
  intros H Hp Hd. assert (chain_at (chainActive st) (nHeight b) <> Some p) as Hoff.
  { intros Hin. destruct (active_valid st p b H Hp Hin p b) as [_ ?]; [done..|congruence]. }
  destruct (mark_failed_step st p b H Hp Hoff) as [S1 S2 S3 S4 S5 S6 _ _ S9].
  split; try done; [split; [apply (cw_cand _ H)|done]|]. destruct (cw_failed _ H) as [F1 F2]. split; [done|by left].
Qed.

Lemma refused_step cfg e p b st base : chain_wf st -> based st base -> bits_ok (index_of st) -> rooted cfg st ->
  index_of st !! p = Some b -> have_data b = false -> header_step cfg st (mark_refused e p st) base.
Proof.
  intros H B Hbits Hroot Hp Hd. unfold mark_refused. destruct (_ && _); [|by apply header_step_refl].
  pose proof (set_failed_step st p b H Hp Hd) as S. set (st' := dirty p _) in *.
  assert (forall q c', index_of st' !! q = Some c' -> exists c, index_of st !! q = Some c /\
    (c' = c \/ q = p /\ c' = add_status BLOCK_FAILED_VALID c)) as Hback.
  { intros q c'. unfold st', index_of. cbn. destruct (decide (q = p)) as [->|]; [|rewrite lookup_alter_ne by done; intros Hq; exists c'; auto].
    rewrite lookup_alter_eq. change (heap (tree st) !! p) with (index_of st !! p). change (index_of st !! p) with (heap (tree st) !! p).
    unfold index_of in Hp. rewrite Hp. intros [= <-]. exists b. auto. }
  split.
  - by apply (chain_wf_status st).
  - by apply (status_based st).
  - intros q c' Hq. destruct (Hback q c' Hq) as (c & Hc & [->|[_ ->]]); by apply (Hbits q c).
  - intros q c' Hq Hn. destruct (Hback q c' Hq) as (c & Hc & [->|[_ ->]]); by apply (Hroot q c).
  - apply index_grows_update; [done|by exists b].
  - done.
  - intros q c' Hq Hd'. destruct (Hback q c' Hq) as (c & Hc & [->|[-> ->]]); [by exists c|]. exfalso.
    assert (c = b) as -> by congruence. rewrite have_data_bit in Hd, Hd'. cbn [add_status nStatus set_nStatus] in Hd'.
    rewrite Z.lor_spec, Hd in Hd'. done.
Qed.

Lemma header_step_warnings cfg st st' base : chain_wf st -> based st base -> bits_ok (index_of st) -> rooted cfg st ->
  same_but_warnings st st' -> header_step cfg st st' base.
Proof.
  intros W B Hb Hr S. pose proof (sw_tree _ _ S) as Et. assert (index_of st' = index_of st) as Ei by (unfold index_of; by rewrite Et).
  assert (forall r, block_at st' r = block_at st r) as Hat by (intros r; unfold block_at; by rewrite Ei).
  split; [by apply (chain_wf_warnings st)| |by rewrite Ei| | |by apply (sw_chain _ _ S)|].
  - apply (status_based st); [by apply warnings_step|apply S|done].
  - intros q c. rewrite Ei. apply Hr.
  - split; rewrite ?Et; [done| | |done|].
    + intros r b Hrb. exists b. by rewrite Hat.
    + intros r Hn. rewrite Hat, Hn. by intros [? ?].
    + intros r Hd. by left.
  - intros q c. rewrite Ei. intros Hq Hd. by exists c.
Qed.

Section blocks.
Context `{Hs : HashFunctions} `{HL : !HashLaws Hs} `{L : Layout} `{IO : cpp_int_io} `{IOL : !cpp_int_io_laws} `{Eh : Equihash}
  `{FP : FilePlatform} `{FL : !FilePlatformLaws FP} `{LP : FlushPlatform} `{P : CoinsPlatform} `{PL : !CoinsPlatformLaws P}
  {V : Type} `{CV : CCoinsView V} `{CL : !CoinsViewLaws CV}.
Context (version block_chunk : Z) (cfg : accept_settings).
Implicit Types (st : CChainState) (ds : disk_state V).

(** The invariant of a node that does not prune. *)
Record node_ok st ds (base : option ptr) : Prop := {
  nk_wf : chain_wf st;
  nk_based : based st base;
  nk_bits : bits_ok (index_of st);
  nk_rooted : rooted cfg st;
  nk_disk : disk_wf st ds;
  nk_safe : crash_safe ds;
  nk_files : files_wf (ds_files ds);
  nk_unpruned : fCheckForPruning (ds_files ds) = false;
}.

Lemma node_header_step st st' ds base : node_ok st ds base -> header_step cfg st st' base -> node_ok st' ds base.
Proof.
  intros [N1 N2 N3 N4 N5 N6 N7 N8] [S1 S2 S3 S4 S5 S6 S7]. split; try done.
  apply (disk_wf_grows st); [done|apply N1|apply S1|done|].
  intros p b' Hb' Hd. destruct (S7 p b' Hb' Hd) as (b & Hb & Hd' & ->).
  apply (dw_data _ _ N5 (phashBlock b) p b); [|done..]. apply (tw_map _ (cw_tree _ N1)). by exists b.
Qed.

(** A block on disk, which can be read whatever is written later. *)
Definition on_disk (block : CBlock) (b : CBlockIndex) ds : Prop :=
  forall FP' bf, reading_works FP' -> rtc (disk_step version block_chunk block_chunk) (ds_files ds) bf ->
    ReadBlockFromDisk version block_chunk (consensus cfg) b (files bf) =
    Ok {| header := block; vtx := vtx block; fChecked := false |}.

Lemma store_block_spec (block : CBlock) p b st ds base : node_ok st ds base ->
  0 < block_chunk <= 5000000 -> allow_witness version = true -> fPruneMode (fl_prune (flushing cfg)) = false ->
  length (pchMessageStart cfg) = 4%nat -> few_files (ds_files ds) ->
  index_of st !! p = Some b -> have_data b = false -> in_range 32 (nHeight b) -> phashBlock b = header_GetHash block ->
  storable version block_chunk (consensus cfg) block -> vtx block <> [] ->
  txs_bounded (alter (set_data (Z.of_nat (length (vtx block))) 0 0 0 0 0) p (index_of st)) ->
  exists st' ds' r, store_block version block_chunk cfg block p None st ds = Some (st', ds', r) /\
    chain_wf st' /\ based st' base /\ crash_safe ds' /\ chainActive st' = chainActive st /\ pcoinsTip ds' = pcoinsTip ds /\
    (platform_works -> r = Ok ()) /\ (forall e, r = Err e -> st' = st /\ IsInvalid e = false) /\
    index_grows st st' /\ same_core (index_of st) (index_of st') /\
    (r = Ok () -> node_ok st' ds' base /\ exists b', index_of st' !! p = Some b' /\ have_data b' = true /\
       nTx b' = Z.of_nat (length (vtx block)) /\ failed b' = failed b /\ on_disk block b' ds').
Proof.
  intros N Hchunk Hver Hprune Hms Hfew Hp Hd Hh Hhash Hst Hne Htx. destruct N as [N1 N2 N3 N4 N5 N6 N7 N8].
  unfold store_block, block_at. rewrite Hp. cbn [mbind option_bind].
  destruct (SaveBlockToDisk_spec version block_chunk (fl_prune (flushing cfg)) block (nHeight b) (pchMessageStart cfg) (ds_files ds))
    as (bf & r & E & G & W & Hpos & Hwork); [done..|apply Hst|].
  rewrite E. cbn [mbind option_bind].
  assert (forall f, is_Some (files (ds_files ds) !! (BLK, f)) -> is_Some (files bf !! (BLK, f))) as Hkeep.
  { intros f [c Hc]. destruct (proj1 G _ _ Hc) as (c' & -> & _). by eexists. }
  pose proof (crash_safe_files ds bf N6 Hkeep) as S1.
  destruct r as [pos|e].
  2:{ eexists st, _, _. split; [reflexivity|]. split_and!; try done; [by destruct S1| |by intros e' [= <-]|apply index_grows_refl].
      intros Hw. destruct (Hwork Hw) as (? & ? & _). done. }
  destruct (pos_IsNull pos) eqn:Enull.
  { eexists st, _, _. split; [reflexivity|]. split_and!; try done; [|by intros e' [= <-]|apply index_grows_refl].
    intros Hw. destruct (Hwork Hw) as (pos' & [= <-] & ?). congruence. }
  destruct (Hpos pos eq_refl Enull) as (Hf & Hp8 & Hcov & Hused & Hrec).
  destruct (SaveBlockToDisk_stats _ _ _ _ _ _ _ _ _ pos E eq_refl Enull ltac:(lia)) as [Hstats Hflag].
  assert (0 < Z.of_nat (length (vtx block)) < 2 ^ 32) as Hlen.
  { destruct (vtx block) as [|tx l] eqn:Ev; [done|]. pose proof (sb_count _ _ _ _ Hst) as Hc. rewrite Ev in Hc.
    unfold MAX_SIZE in Hc. pow_literals. cbn [length] in *. lia. }
  destruct (ReceivedBlockTransactions_spec st p b _ pos base N1 N2 Hp Hd Hlen Htx)
    as (st' & b' & Er & W' & B' & Ec & Hcore & Hb' & Hn & Hd' & Hbits & _ & Hothers).
  destruct (index_grows_received _ _ _ _ _ _ Hp Er) as (Gr & Hback & b2 & Hb2 & F1 & F2).
  rewrite Er. cbn [mbind option_bind]. cbn [ds_files set_disk]. rewrite Hflag, N8 by done.
  exists st', (set_disk bf (ds_db ds) (pcoinsTip ds) (fHavePruned ds) ds), (Ok ()). split; [done|].
  split_and!; try done. intros _.
  assert (b2 = b') as -> by (unfold block_at in Hb2; congruence).
  pose proof (disk_wf_stats st ds _ bf N5 Hstats Hkeep) as D1.
  split.
  - split; try done.
    + intros q c' Hq. destruct (same_core_lookup _ _ q c' (same_core_sym _ _ Hcore) Hq) as (c & Hc & Eq).
      apply (f_equal nBits) in Eq. cbn in Eq. rewrite <- Eq. by apply (N3 q).
    + intros q c' Hq Hnil. destruct (Hback q c' Hq) as (c & Hc & -> & E2 & _). apply (N4 q c Hc). congruence.
    + apply (disk_wf_grows st); [done|apply N1|apply W'|done|]. intros q c' Hq Hdq. cbn [ds_files set_disk].
      destruct (decide (q = p)) as [->|Hqp].
      * assert (c' = b') as -> by (unfold block_at in Hq; congruence). rewrite F1. destruct Hrec as [_ (f & Hfs & _)]. rewrite Hfs. by eexists.
      * destruct (Hback q c' Hq) as (c & Hc & Ehash & _ & Es). destruct (Es Hqp) as [Es1 ->]. apply Hkeep.
        apply (dw_data _ _ N5 (phashBlock c) q c); [|done|by rewrite have_data_bit, <- Es1, <- have_data_bit].
        apply (tw_map _ (cw_tree _ N1)). by exists c.
    + cbn. by rewrite Hflag, N8.
  - exists b'. split; [done|]. split; [done|]. split; [done|]. split.
    { rewrite !failed_bits, !Hbits by lia. done. }
    intros FP' bf' Hread Hsteps. cbn [ds_files set_disk] in Hsteps.
    destruct (disk_steps_grow version block_chunk block_chunk bf bf' W Hsteps) as [_ Gf].
    apply (read_recorded_block version block_chunk (consensus cfg) block pos b' bf'); try done; try lia.
    + by eapply recorded_grows.
    + unfold GetBlockPos. change (stored (nStatus b') BLOCK_HAVE_DATA) with (have_data b'). rewrite Hd', F1, F2. by destruct pos.
    + destruct (Hback p b' Hb') as (c & Hc & -> & _). assert (c = b) as -> by (unfold block_at in Hc; congruence). done.
Qed.

Lemma mark_refused_core e p st : same_core (index_of st) (index_of (mark_refused e p st)).
Proof. unfold mark_refused. destruct (IsInvalid e && _); [by apply same_core_alter|done]. Qed.

Lemma tip_height_total st : chain_wf st -> exists h, tip_height st = Some h.
Proof.
  intros H. unfold tip_height. destruct (Tip (chainActive st)) as [t|] eqn:Et; [|by eexists].
  destruct (tip_lookup st t H Et) as [b Hb]. unfold block_at. rewrite Hb. by eexists.
Qed.

Lemma more_or_same_work_total st b : chain_wf st -> exists v, more_or_same_work st b = Some v.
Proof.
  intros H. unfold more_or_same_work. destruct (Tip (chainActive st)) as [t|] eqn:Et; [|by eexists].
  destruct (tip_lookup st t H Et) as [bt Hb]. unfold block_at. rewrite Hb. by eexists.
Qed.

Lemma ContextualCheckBlock_total m (block : CBlock) q c : index_wf m -> m !! q = Some c -> exists r, ContextualCheckBlock m block (Some q) = Some r.
Proof.
  intros Hwf Hq. unfold ContextualCheckBlock. cbn [mbind option_bind]. rewrite Hq. cbn [mbind option_bind].
  destruct (GetMedianTimePast_total m q c Hwf Hq) as [t ->]. cbn [mbind option_bind]. by eexists.
Qed.

Lemma CheckBlock_out (block : CBlock) h fPOW fMerkle block' : CheckBlock block h (consensus cfg) fPOW fMerkle = Ok block' ->
  header block' = header block /\ vtx block' = vtx block /\ (fChecked block = false -> vtx block <> []).
Proof.
  unfold CheckBlock. destruct (fChecked block) eqn:Ef; [by intros [= <-]|]. intros H.
  apply bind_Ok in H as (? & _ & H). apply bind_Ok in H as (? & _ & H). apply bind_Ok in H as (? & _ & H).
  apply bind_Ok in H as (? & Hcb & H). apply bind_Ok in H as (? & _ & H). apply bind_Ok in H as (? & _ & H).
  apply bind_Ok in H as (? & _ & H). injection H as <-. split_and!; [done..|]. intros _. unfold check_coinbase in Hcb. by destruct (vtx block).
Qed.


Record settings_ok : Prop := {
  so_chunk : 0 < block_chunk <= 5000000;
  so_version : allow_witness version = true;
  so_prune : fPruneMode (fl_prune (flushing cfg)) = false;
  so_magic : length (pchMessageStart cfg) = 4%nat;
  so_params : pow_facts.params_ok (consensus cfg);
}.

(** A block in memory as it is read from a message: its fields have their
    widths, and its hashes are those of its transactions. *)
Record formed (block : CBlock) : Prop := {
  fm_header : block_facts.header_wf block;
  fm_vtx : Forall block_facts.carried (vtx block);
  fm_size : Z.of_nat (length (SerializeBlock 0 block)) < 2 ^ 60;
}.

(** A block that is not the genesis block, with room for it in the counters.
    If [fChecked] is set, then [CheckBlock] has set it. *)
Record arriving (block : CBlock) st ds : Prop := {
  av_files : few_files (ds_files ds);
  av_header : chain_facts.header_ok header_GetHash block;
  av_hash : header_GetHash block <> hashGenesisBlock (consensus cfg);
  av_formed : formed block;
  av_checked : fChecked block = true -> exists h,
    CheckBlock {| header := block; vtx := vtx block; fChecked := false |} h (consensus cfg) true true = Ok block;
  av_heights : forall p b, index_of st !! p = Some b -> nHeight b < 2 ^ 31 - 1;
  av_txs : forall st1 p, AcceptBlockHeader cfg block st = Some (st1, Some p, Ok ()) ->
    txs_bounded (alter (set_data (Z.of_nat (length (vtx block))) 0 0 0 0 0) p (index_of st1));
}.

(** The weight limit bounds the block in the file. *)
Lemma stripped_tx_shorter (tx : CMutableTransaction) :
  (length (SerializeTransaction SERIALIZE_TRANSACTION_NO_WITNESS tx) <= length (SerializeTransaction 0 tx))%nat.
Proof.
  unfold SerializeTransaction. change (allow_witness SERIALIZE_TRANSACTION_NO_WITNESS) with false. change (allow_witness 0) with true.
  destruct (HasWitness tx); rewrite !length_app; change (negb (Z.land 0 1 =? 0)) with false;
    change (negb (0 =? 0)) with false; cbn [length]; lia.
Qed.

Lemma stripped_shorter (block : CBlock) :
  (length (SerializeBlock SERIALIZE_TRANSACTION_NO_WITNESS block) <= length (SerializeBlock 0 block))%nat.
Proof.
  unfold SerializeBlock. rewrite !length_app. apply Nat.add_le_mono_l, Nat.add_le_mono_l.
  induction (vtx block) as [|tx l IH]; cbn [map concat]; [done|]. rewrite !length_app. apply Nat.add_le_mono; [|done].
  apply stripped_tx_shorter.
Qed.

Lemma count_size (block : CBlock) : (length (vtx block) <= length (SerializeBlock 0 block))%nat.
Proof.
  unfold SerializeBlock. rewrite !length_app. assert (length (vtx block) <= length (concat (map (Serialize (tx_codec 0)) (vtx block))))%nat; [|lia].
  induction (vtx block) as [|tx l IH]; cbn [map concat length]; [done|]. rewrite length_app.
  assert (1 <= length (Serialize (tx_codec 0) tx))%nat; [|lia]. cbn [Serialize tx_codec]. unfold SerializeTransaction.
  rewrite length_app. cbn. lia.
Qed.

Lemma weighed_size (block : CBlock) : allow_witness version = true -> Z.of_nat (length (SerializeBlock 0 block)) < 2 ^ 60 ->
  GetBlockWeight block <= MAX_BLOCK_WEIGHT ->
  block_bytes version block_chunk block = SerializeBlock 0 block /\ Z.of_nat (length (SerializeBlock 0 block)) <= MAX_BLOCK_WEIGHT.
Proof.
  intros Hv Hl. unfold GetBlockWeight. pose proof (stripped_shorter block).
  rewrite (wrap_small 64) by (unfold in_range, WITNESS_SCALE_FACTOR; pow_literals; lia). unfold WITNESS_SCALE_FACTOR. intros Hw.
  split; [|lia]. unfold block_bytes. cbn [Serialize block_codec]. unfold SerializeBlock. do 3 f_equal. apply map_ext. intros tx.
  cbn [Serialize tx_codec]. unfold SerializeTransaction. by rewrite Hv.
Qed.

(** What the checks let pass can be stored and read back. *)
Lemma CheckBlock_passed (block : CBlock) h block' : fChecked block = false ->
  CheckBlock block h (consensus cfg) true true = Ok block' ->
  CheckEquihashSolution block = true /\ CheckProofOfWork (header_GetHash block) (hdr_nBits block) (consensus cfg) = true /\
  check_size block = Ok () /\ vtx block <> [].
Proof.
  unfold CheckBlock. intros ->. intros H. apply bind_Ok in H as ([] & Hh & H). apply bind_Ok in H as (? & _ & H).
  apply bind_Ok in H as ([] & Hsz & H). apply bind_Ok in H as (? & Hcb & _).
  unfold CheckBlockHeader in Hh. apply bind_Ok in Hh as (? & H1%check_Ok & H2%check_Ok). cbn [andb] in H1, H2.
  rewrite negb_involutive in H1, H2. split_and!; [done..|]. unfold check_coinbase in Hcb. by destruct (vtx block).
Qed.

Lemma arrived_passed (block : CBlock) st ds h blk : arriving block st ds -> CheckBlock block h (consensus cfg) true true = Ok blk ->
  header blk = header block /\ vtx blk = vtx block /\ vtx block <> [] /\ check_size block = Ok () /\
  CheckEquihashSolution block = true /\ CheckProofOfWork (header_GetHash block) (hdr_nBits block) (consensus cfg) = true.
Proof.
  intros A H. destruct (CheckBlock_out block h true true blk H) as (E1 & E2 & _). split; [done|]. split; [done|].
  destruct (fChecked block) eqn:Ef.
  - destruct (av_checked _ _ _ A Ef) as [h0 H0]. apply CheckBlock_passed in H0 as (? & ? & ? & ?); [|done]. done.
  - apply CheckBlock_passed in H as (? & ? & ? & ?); [|done]. done.
Qed.

Lemma arrived_storable (block : CBlock) st ds st1 q blk : allow_witness version = true -> arriving block st ds ->
  check_arrived cfg block q st1 = Some (blk, Ok ()) ->
  header blk = header block /\ vtx blk = vtx block /\ vtx block <> [] /\ storable version block_chunk (consensus cfg) block.
Proof.
  intros Hv A H. unfold check_arrived in H. destruct (tip_height st1) as [h|]; [|done]. cbn [mbind option_bind] in H.
  destruct (CheckBlock block h (consensus cfg) true true) as [blk'|e] eqn:E; [|done].
  destruct (ContextualCheckBlock (index_of st1) blk' q) as [r|] eqn:Ec; [|done]. cbn [mbind option_bind] in H. injection H as -> ->.
  destruct (arrived_passed block st ds h blk A E) as (E1 & E2 & E3 & _ & E5 & E6). split_and!; [done..|].
  assert (GetBlockWeight block <= MAX_BLOCK_WEIGHT) as Hw.
  { unfold ContextualCheckBlock in Ec. destruct q as [q|]; [|done]. cbn [mbind option_bind] in Ec.
    destruct (index_of st1 !! q); [|done]. cbn [mbind option_bind] in Ec. destruct (GetMedianTimePast _ _); [|done].
    cbn [mbind option_bind] in Ec. injection Ec as Ec. apply bind_Ok in Ec as (? & _ & Ec). apply bind_Ok in Ec as (? & _ & Ec).
    apply bind_Ok in Ec as (? & _ & Ec). apply bind_Ok in Ec as (? & _ & Ec%check_Ok).
    rewrite negb_true_iff, Z.gtb_ltb, Z.ltb_ge in Ec. unfold GetBlockWeight, SerializeBlock in *. by rewrite E1, E2 in Ec. }
  destruct (av_formed _ _ _ A) as [F1 F2 F3]. destruct (weighed_size block Hv F3 Hw) as [Eb Hl]. pose proof (count_size block).
  unfold MAX_BLOCK_WEIGHT in Hl. split; rewrite ?Eb; unfold MAX_SIZE, MAX_BLOCKFILE_SIZE; try done; lia.
Qed.

(** The entry of an accepted header. *)
Lemma accepted_entry (block : CBlock) st st1 po base : chain_wf st -> header_step cfg st st1 base -> header_verdict cfg block st st1 po (Ok ()) ->
  header_GetHash block <> hashGenesisBlock (consensus cfg) -> (forall p b, index_of st !! p = Some b -> nHeight b < 2 ^ 31 - 1) ->
  exists p b q c, po = Some p /\ mapBlockIndex (tree st1) !! header_GetHash block = Some p /\ index_of st1 !! p = Some b /\
    phashBlock b = header_GetHash block /\ failed b = false /\ pprev b = Some q /\ index_of st1 !! q = Some c /\ 0 <= nHeight b < 2 ^ 31.
Proof.
  intros W S Hv Hg Hh. pose proof (cw_tree _ (hs_wf _ _ _ _ S)) as T1. pose proof (tw_index _ T1) as Hwf1.
  assert (exists p b, po = Some p /\ mapBlockIndex (tree st1) !! header_GetHash block = Some p /\ index_of st1 !! p = Some b /\
    phashBlock b = header_GetHash block /\ failed b = false /\
    (nHeight b < 2 ^ 31 - 1 \/ exists q, pprev b = Some q /\ forall c, index_of st1 !! q = Some c -> nHeight c < 2 ^ 31 - 1))
    as (p & b & -> & Hm & Hb & Hph & Hf & Hle).
  { unfold header_verdict in Hv. destruct (mapBlockIndex (tree st) !! header_GetHash block) as [p|] eqn:Hm.
    - destruct Hv as (-> & -> & Hv). destruct (proj1 Hv eq_refl) as [|(b & Hb & Hf)]; [done|].
      apply (tw_map _ T1) in Hm as Hm'. destruct Hm' as (b' & Hb' & Hph). assert (b' = b) as -> by (unfold index_of in Hb; congruence).
      exists p, b. split_and!; try done. left. by apply (Hh p).
    - destruct Hv as (Hv1 & Hv2 & _). destruct (proj1 Hv1 eq_refl) as [|(_ & q & c & Hq & Hc & _)]; [done|].
      destruct (Hv2 eq_refl) as (p & b & -> & A). pose proof (ha_entry _ _ _ _ _ A) as E. exists p, b.
      assert (index_of st1 !! p = Some b) as Hb by (rewrite (ea_index _ _ _ _ E); apply lookup_insert_eq).
      split_and!; try done; [rewrite (ha_map _ _ _ _ _ A); apply lookup_insert_eq|apply A| |].
      + rewrite failed_bits, (ea_status _ _ _ _ E). done.
      + right. exists q. rewrite (ha_prev _ _ _ _ _ A), Hq. split; [done|]. intros c'. rewrite (ea_index _ _ _ _ E).
        rewrite lookup_insert_ne by (intros <-; rewrite (ea_new _ _ _ _ E) in Hc; done). apply Hh. }
  destruct (pprev b) as [q|] eqn:Eq; [|by destruct Hg; rewrite <- Hph; apply (hs_rooted _ _ _ _ S p b)].
  destruct (wf_parent _ Hwf1 p b q Hb Eq) as (c & Hc & Hhc). pose proof (wf_height _ Hwf1 p b Hb).
  exists p, b, q, c. split_and!; try done. destruct Hle as [Hle|(q' & [= <-] & Hle)]; [lia|]. specialize (Hle c Hc). lia.
Qed.

(** Whether the block is looked at. *)
Definition dropped (fRequested : bool) st (b : CBlockIndex) : Prop :=
  have_data b = true \/ fRequested = false /\ exists v, more_or_same_work st b = Some v /\ unwanted cfg st b v = true.

Definition stored_as (block : CBlock) st' ds' (p : ptr) : Prop :=
  exists b', index_of st' !! p = Some b' /\ have_data b' = true /\ failed b' = false /\
    nTx b' = Z.of_nat (length (vtx block)) /\ on_disk block b' ds'.

Lemma storable_same (b b' : CBlock) : header b' = header b -> vtx b' = vtx b ->
  storable version block_chunk (consensus cfg) b -> storable version block_chunk (consensus cfg) b'.
Proof. destruct b, b'. cbn. intros -> ->. by intros []. Qed.

Lemma AcceptBlock_spec (block : CBlock) fRequested st ds base : node_ok st ds base -> settings_ok -> arriving block st ds ->
  exists st1 po r1 st' ds' o, AcceptBlockHeader cfg block st = Some (st1, po, r1) /\ header_step cfg st st1 base /\
    header_verdict cfg block st st1 po r1 /\ AcceptBlock version block_chunk cfg block fRequested None st ds = Some (st', ds', o) /\
    chain_wf st' /\ based st' base /\ crash_safe ds' /\ chainActive st' = chainActive st /\ pcoinsTip ds' = pcoinsTip ds /\
    index_grows st st' /\ same_core (index_of st1) (index_of st') /\ out_index o = po /\
    match r1 with
    | Err e => st' = st1 /\ ds' = ds /\ node_ok st' ds' base /\ out_new o = false /\ out_result o = Err e
    | Ok _ => exists p b, po = Some p /\ index_of st1 !! p = Some b /\ mapBlockIndex (tree st1) !! header_GetHash block = Some p /\
        (out_new o = false -> st' = st1 /\ ds' = ds /\ node_ok st' ds' base /\ out_result o = Ok () /\ dropped fRequested st1 b) /\
        (out_new o = true -> ~ dropped fRequested st1 b /\ exists blk rc, check_arrived cfg block (pprev b) st1 = Some (blk, rc) /\
           match rc with
           | Err e => st' = mark_refused e p st1 /\ ds' = ds /\ node_ok st' ds' base /\ out_result o = Err e
           | Ok _ => out_block o = blk /\ (platform_works -> out_result o = Ok ()) /\
               (forall e, out_result o = Err e -> index_of st' = index_of st1 /\ IsInvalid e = false) /\
               (out_result o = Ok () -> node_ok st' ds' base /\ stored_as block st' ds' p)
           end)
    end.
Proof.
  intros N [So1 So2 So3 So4 So5] A. pose proof A as [A1 A2 A3 _ _ A6 A7].
  destruct (AcceptBlockHeader_spec cfg block st base) as (st1 & po & r1 & E1 & S1 & V1); [apply N..|done|done|].
  pose proof (node_header_step _ _ _ _ N S1) as N1. exists st1, po, r1. unfold AcceptBlock. rewrite E1. cbn [mbind option_bind].
  destruct r1 as [[]|e].
  2:{ eexists st1, ds, _. split_and!; try done; try apply N1; apply S1. }
  destruct (accepted_entry block st st1 po base (nk_wf _ _ _ N) S1 V1 A3 A6) as (p & b & q & c & -> & Hm & Hb & Hph & Hf & Hq & Hc & Hh).
  cbn [mbind option_bind]. unfold block_at at 1. rewrite Hb. cbn [mbind option_bind].
  destruct (more_or_same_work_total st1 b (nk_wf _ _ _ N1)) as [v Hv]. rewrite Hv. cbn [mbind option_bind].
  assert (forall o, out_index o = Some p -> out_new o = false -> out_result o = Ok () -> dropped fRequested st1 b ->
    exists st' ds' o', Some (st1, ds, o) = Some (st', ds', o') /\
      chain_wf st' /\ based st' base /\ crash_safe ds' /\ chainActive st' = chainActive st /\ pcoinsTip ds' = pcoinsTip ds /\
      index_grows st st' /\ same_core (index_of st1) (index_of st') /\ out_index o' = Some p /\ exists p' b', Some p = Some p' /\ index_of st1 !! p' = Some b' /\
        mapBlockIndex (tree st1) !! header_GetHash block = Some p' /\
        (out_new o' = false -> st' = st1 /\ ds' = ds /\ node_ok st' ds' base /\ out_result o' = Ok () /\ dropped fRequested st1 b') /\
        (out_new o' = true -> ~ dropped fRequested st1 b' /\ exists blk rc, check_arrived cfg block (pprev b') st1 = Some (blk, rc) /\
           match rc with
           | Err e => st' = mark_refused e p' st1 /\ ds' = ds /\ node_ok st' ds' base /\ out_result o' = Err e
           | Ok _ => out_block o' = blk /\ (platform_works -> out_result o' = Ok ()) /\
               (forall e, out_result o' = Err e -> index_of st' = index_of st1 /\ IsInvalid e = false) /\
               (out_result o' = Ok () -> node_ok st' ds' base /\ stored_as block st' ds' p')
           end)) as Hdrop.
  { intros o Ho1 Ho2 Ho3 Hd. exists st1, ds, o. split_and!; try done; try apply N1; [apply S1..|]. exists p, b.
    split_and!; try done; congruence. }
  destruct (have_data b) eqn:Ed.
  { destruct (Hdrop {| out_index := Some p; out_new := false; out_block := block; out_result := Ok () |}) as (st' & ds' & o & H);
      [done..|by left|]. by exists st', ds', o. }
  destruct (negb fRequested && unwanted cfg st1 b v) eqn:Eu.
  { apply andb_prop in Eu as [Eu1 Eu2]. apply negb_true_iff in Eu1.
    destruct (Hdrop {| out_index := Some p; out_new := false; out_block := block; out_result := Ok () |}) as (st' & ds' & o & H);
      [done..|right; split; [done|by exists v]|]. by exists st', ds', o. }
  assert (~ dropped fRequested st1 b) as Hnd.
  { intros [?|(-> & v' & Hv' & Hun)]; [congruence|]. assert (v' = v) as -> by congruence. by rewrite Hun in Eu. }
  assert (exists blk rc, check_arrived cfg block (pprev b) st1 = Some (blk, rc)) as (blk & rc & Ec).
  { unfold check_arrived. destruct (tip_height_total st1 (nk_wf _ _ _ N1)) as [h ->]. cbn [mbind option_bind].
    destruct (CheckBlock block h (consensus cfg) true true) as [blk|e] eqn:Ecb; [|by eexists _, _].
    destruct (ContextualCheckBlock_total (index_of st1) blk q c) as [r Er]; [apply (nk_wf _ _ _ N1)|done|]. rewrite Hq, Er.
    cbn [mbind option_bind]. by exists blk, r. }
  rewrite Ec. cbn [mbind option_bind]. destruct rc as [[]|e].
  - destruct (arrived_storable block st ds st1 (pprev b) blk So2 A Ec) as (F1 & F2 & F3 & Hst0).
    pose proof (storable_same block blk F1 F2 Hst0) as Hst.
    destruct (IsInitialBlockDownload_total (setting cfg) st1 (nk_wf _ _ _ N1)) as (st2 & ibd & Eibd & Sw). rewrite Eibd.
    cbn [mbind option_bind]. assert (index_of st2 = index_of st1) as Ei by (unfold index_of; by rewrite (sw_tree _ _ Sw)).
    pose proof (header_step_warnings cfg st1 st2 base (nk_wf _ _ _ N1) (nk_based _ _ _ N1) (nk_bits _ _ _ N1) (nk_rooted _ _ _ N1) Sw) as S2.
    pose proof (node_header_step _ _ _ _ N1 S2) as N2.
    destruct (store_block_spec blk p b st2 ds base N2) as (st' & ds' & r & Es & W' & B' & C' & Ca & Ct & Hw & Hbad & Gr & Hcore & Hgood);
      try done; [by rewrite Ei|unfold in_range; pow_literals; lia|by rewrite F1|by rewrite F2|rewrite F2, Ei; by apply A7|].
    rewrite Ei in Hcore.
    rewrite Es. cbn [mbind option_bind]. eexists st', ds', _. split_and!; try done;
      [rewrite Ca, (sw_chain _ _ Sw); apply S1|eapply index_grows_trans; [apply S1|by eapply index_grows_trans; [apply S2|]]|].
    exists p, b. split_and!; try done. cbn [out_new out_result out_block]. intros _. split; [done|]. exists blk, (Ok ()).
    split_and!; try done; [intros e He; destruct (Hbad e He) as [-> ?]; done|].
    intros Hr. destruct (Hgood Hr) as (N' & b' & Hb' & Hd' & Hn & Hf' & Hod). split; [done|]. exists b'.
    rewrite F2 in Hn. split_and!; try done; [congruence|]. unfold on_disk in *. by rewrite <- F1, <- F2.
  - pose proof (refused_step cfg e p b st1 base (nk_wf _ _ _ N1) (nk_based _ _ _ N1) (nk_bits _ _ _ N1) (nk_rooted _ _ _ N1) Hb Ed) as S2.
    pose proof (node_header_step _ _ _ _ N1 S2) as N2.
    eexists (mark_refused e p st1), ds, _. split_and!; try done; try apply N2; [rewrite (hs_chain _ _ _ _ S2); apply S1|eapply index_grows_trans; [apply S1|apply S2]|apply mark_refused_core|].
    exists p, b. split_and!; try done. cbn [out_new out_result out_block]. intros _. split; [done|]. by exists blk, (Err e).
Qed.

(** The genesis block has no predecessor to check it against. *)
Lemma genesis_arrives (block : CBlock) fRequested st ds base : node_ok st ds base ->
  header_GetHash block = hashGenesisBlock (consensus cfg) -> chain_facts.header_ok header_GetHash block ->
  mapBlockIndex (tree st) !! hdr_hashPrevBlock block = None ->
  (forall p b, mapBlockIndex (tree st) !! header_GetHash block = Some p -> index_of st !! p = Some b -> pprev b = None) ->
  exists st1 p b h v, AcceptBlockHeader cfg block st = Some (st1, Some p, Ok ()) /\ index_of st1 !! p = Some b /\
    tip_height st1 = Some h /\ more_or_same_work st1 b = Some v /\
    AcceptBlock version block_chunk cfg block fRequested None st ds =
      if have_data b || negb fRequested && unwanted cfg st1 b v
      then Some (st1, ds, {| out_index := Some p; out_new := false; out_block := block; out_result := Ok () |})
      else match CheckBlock block h (consensus cfg) true true with
           | Err e => Some (mark_refused e p st1, ds, {| out_index := Some p; out_new := true; out_block := block; out_result := Err e |})
           | Ok _ => None
           end.
Proof.
  intros N Hg Hok Hnull Hprev.
  assert (exists st1 p b, AcceptBlockHeader cfg block st = Some (st1, Some p, Ok ()) /\ index_of st1 !! p = Some b /\ pprev b = None /\
    chain_wf st1) as (st1 & p & b & E1 & Hb & Hq & W1).
  { destruct (mapBlockIndex (tree st) !! header_GetHash block) as [p|] eqn:Hm.
    - apply (tw_map _ (cw_tree _ (nk_wf _ _ _ N))) in Hm as Hm'. destruct Hm' as (b & Hb & _). exists st, p, b.
      split; [|split_and!; [done|by apply (Hprev p)|apply N]]. unfold AcceptBlockHeader, AddToBlockIndex. rewrite decide_True by done.
      rewrite Hm. cbn [mbind option_bind]. by destruct st.
    - destruct (add_step cfg block st base (nk_wf _ _ _ N) (nk_based _ _ _ N) (nk_bits _ _ _ N) (nk_rooted _ _ _ N) Hok Hm ltac:(by left))
        as (t & p & b & Ea & A & S1). exists (set_tree t st), p, b. unfold AcceptBlockHeader. rewrite decide_True by done. rewrite Ea.
      split; [done|]. split; [rewrite (ea_index _ _ _ _ (ha_entry _ _ _ _ _ A)); apply lookup_insert_eq|].
      split; [by rewrite (ha_prev _ _ _ _ _ A)|apply S1]. }
  destruct (tip_height_total st1 W1) as [h Hh]. destruct (more_or_same_work_total st1 b W1) as [v Hv].
  exists st1, p, b, h, v. split_and!; try done. unfold AcceptBlock. rewrite E1. cbn [mbind option_bind]. unfold block_at at 1.
  rewrite Hb. cbn [mbind option_bind]. rewrite Hv. cbn [mbind option_bind]. destruct (have_data b); [done|]. cbn [orb].
  destruct (negb fRequested && unwanted cfg st1 b v); [done|]. unfold check_arrived. rewrite Hh. cbn [mbind option_bind].
  destruct (CheckBlock block h (consensus cfg) true true) as [blk|e]; [|done]. by rewrite Hq.
Qed.


Lemma tip_height_step st st1 base : chain_wf st -> header_step cfg st st1 base -> tip_height st1 = tip_height st.
Proof.
  intros W S. unfold tip_height. rewrite (hs_chain _ _ _ _ S). destruct (Tip (chainActive st)) as [t|] eqn:Et; [|done].
  destruct (tip_lookup st t W Et) as [b Hb]. pose proof (co_chain _ (cw_cand _ W)) as Hc. rewrite Et in Hc.
  destruct Hc as (b' & Hb' & Hl & _). pose proof (co_chain _ (cw_cand _ (hs_wf _ _ _ _ S))) as Hc1.
  rewrite (hs_chain _ _ _ _ S), Et in Hc1. destruct Hc1 as (b1 & Hb1 & Hl1 & _). unfold block_at. rewrite Hb', Hb1.
  cbn [mbind option_bind]. do 2 f_equal. lia.
Qed.

Lemma mark_refused_at (block : CBlock) e p b st st1 po base : chain_wf st -> header_step cfg st st1 base ->
  header_verdict cfg block st st1 po (Ok ()) -> header_GetHash block <> hashGenesisBlock (consensus cfg) ->
  (forall p b, index_of st !! p = Some b -> nHeight b < 2 ^ 31 - 1) -> po = Some p -> index_of st1 !! p = Some b -> IsInvalid e = true ->
  exists b', index_of (mark_refused e p st1) !! p = Some b' /\ failed b' = negb (CorruptionPossible e).
Proof.
  intros W S Hver Hg Hh -> Hb Hinv.
  destruct (accepted_entry block st st1 (Some p) base W S Hver Hg Hh) as (p' & b' & _ & _ & [= <-] & _ & Hb' & _ & Hf & _).
  assert (b' = b) as -> by congruence. unfold mark_refused. rewrite Hinv. cbn [andb].
  destruct (CorruptionPossible e); cbn [negb]; [by exists b|]. exists (add_status BLOCK_FAILED_VALID b).
  unfold index_of in *. cbn. rewrite lookup_alter_eq. unfold index_of. rewrite Hb. split; [done|].
  rewrite failed_bits. cbn [add_status nStatus set_nStatus]. rewrite Z.lor_spec.
  change (Z.testbit BLOCK_FAILED_VALID 5) with true. by rewrite orb_true_r.
Qed.
End blocks.
End accept_facts.

(** ** What accepting asks of the rest of the node *)

(** The disk is a part of the rest, and what [ConnectTip] and [DisconnectTip]
    rely on does not depend on entries being added and blocks stored. *)
Class DiskPart {X V : Type} `{CV : CCoinsView V} `{CT : ChainTip X CBlock} (env : environment)
    `{TL : !activation_facts.ChainTipLaws CT env} (get_disk : X -> disk_state V) (put_disk : disk_state V -> X -> X) : Prop := {
  get_put : forall ds x, get_disk (put_disk ds x) = ds;
  tip_ok_accepted : forall st st' x ds, chainstate_facts.chain_wf st' -> activation_facts.tip_ok st x ->
    chainActive st' = chainActive st -> accept_facts.index_grows st st' -> pcoinsTip ds = pcoinsTip (get_disk x) ->
    activation_facts.tip_ok st' (put_disk ds x);
}.

Section whole.
Import chain_facts stdset_facts chainstate_facts activation_facts block_files_facts blockdb_facts accept_facts.
Context `{Hs : HashFunctions} `{HL : !HashLaws Hs} `{L : Layout} `{IO : cpp_int_io} `{IOL : !cpp_int_io_laws} `{Eh : Equihash}
  `{FP : FilePlatform} `{FL : !FilePlatformLaws FP} `{LP : FlushPlatform} `{P : CoinsPlatform} `{PL : !CoinsPlatformLaws P}
  {V : Type} `{CV : CCoinsView V} `{CL : !CoinsViewLaws CV}.
Context (version block_chunk : Z) (cfg : accept_settings).
Context {X : Type} `{CT : ChainTip X CBlock} `{TL : !ChainTipLaws CT (setting cfg)}
  (get_disk : X -> disk_state V) (put_disk : disk_state V -> X -> X) `{DP : !DiskPart (setting cfg) get_disk put_disk}.




End whole.

(** ** Properties *)

Import chain_facts stdset_facts chainstate_facts blockcheck_facts block_files_facts blockdb_facts accept_facts.

(** C12: Which headers are taken.  On a well-formed node [AcceptBlockHeader] always
    ends, never fails its assertion, and keeps the invariant of the index, of
    the candidates and of what the database still has to learn; the active
    chain and the data of blocks stay as they are.  A known header changes
    nothing and is answered by whether its block has failed.  A new header is
    accepted exactly if it has its proof of work and its predecessor is known,
    has not failed, lets it pass the contextual rules, and is valid itself or
    has no ancestor among [g_failed_blocks]; it is then one new entry below its
    predecessor.  A refused one adds nothing: all that changes is that
    descendants of failed blocks, none of which can become the tip, are
    marked.  If all failed blocks are in [g_failed_blocks], and none below a
    valid one, then a new header is never built on a failed block.  Of a list
    of headers [ProcessNewBlockHeaders] takes those before the first that is
    refused. *)
Theorem AcceptBlockHeader_correct `{Hs : HashFunctions} `{HL : !HashLaws Hs} `{IO : cpp_int_io} `{IOL : !cpp_int_io_laws}
    `{Eh : Equihash} (cfg : accept_settings) (st : CChainState) (base : option ptr) (headers : list CBlockHeader) :
  chain_wf st -> based st base -> bits_ok (index_of st) -> rooted cfg st -> pow_facts.params_ok (consensus cfg) ->
  Forall (chain_facts.header_ok header_GetHash) headers ->
  (forall block, block ∈ headers ->
    exists st' o r, AcceptBlockHeader cfg block st = Some (st', o, r) /\ header_step cfg st st' base /\
      header_verdict cfg block st st' o r /\
      ((forall f b, index_of st !! f = Some b -> failed b = true -> f ∈ g_failed_blocks st) ->
       (forall q c, index_of st !! q = Some c -> IsValid c BLOCK_VALID_SCRIPTS = Some true ->
          forall f b, rtc (parent (index_of st)) q f -> index_of st !! f = Some b -> failed b = false) ->
       r = Ok () -> header_GetHash block <> hashGenesisBlock (consensus cfg) -> mapBlockIndex (tree st) !! header_GetHash block = None ->
       forall p, o = Some p -> forall f b, rtc (parent (index_of st')) p f -> index_of st' !! f = Some b -> failed b = false)) /\
  exists st' o first_invalid r, ProcessNewBlockHeaders cfg headers None st = Some (st', o, first_invalid, r) /\
    header_step cfg st st' base /\ (first_invalid = None <-> r = Ok ()) /\
    forall h, first_invalid = Some h -> exists l1 l2 st1 o1 o2 st2 e, headers = l1 ++ h :: l2 /\
      ProcessNewBlockHeaders cfg l1 None st = Some (st1, o1, None, Ok ()) /\
      AcceptBlockHeader cfg h st1 = Some (st2, o2, Err e) /\ r = Err e /\ st' = st2.
Proof.
  intros W B Hb Hr Hp Hall. split.
  - intros block Hin. rewrite Forall_forall in Hall.
    destruct (AcceptBlockHeader_spec cfg block st base W B Hb Hr Hp (Hall block Hin)) as (st' & o & r & E & S & V).
    exists st', o, r. split_and!; [done..|]. intros Hlist Hclean. by apply (accepted_unfailed cfg block st st' o r).
  - destruct (ProcessNewBlockHeaders_spec cfg headers None st base W B Hb Hr Hp Hall) as (st' & o & i & r & E & S & H1 & H2).
    by exists st', o, i, r.
Qed.

(** C11: The way of a block into the node.  Take a well-formed node that does not
    prune, and a block as it is read from a message ([arriving]: fields of their
    widths, counters with room for it).  If it is not the genesis block,
    [AcceptBlock] always ends, whatever check refuses it and whatever call of
    the system fails; it leaves a well-formed index with complete candidates and
    the same active chain, and a database that the node can start from.  If it
    reports a new block and no error, then the block passed [CheckBlock] at the
    height of the tip and [ContextualCheckBlock], its entry counts its
    transactions and has data, and [ReadBlockFromDisk] finds this block through
    the entry after any number of later writes and flushes; memory, statistics,
    files and database still belong together.  Without a new block nothing on
    disk changes.  A verdict against the block marks its entry as failed exactly
    if the data cannot have been damaged on the way.  If the disk works, a block
    that is wanted and passes its checks is stored.  The genesis block, whose
    entry has no predecessor, is dropped if its data is there or if it is
    unwanted; otherwise it is marked if [CheckBlock] refuses it, and if not, the
    null pointer is dereferenced ([None]). *)
Theorem AcceptBlock_correct `{Hs : HashFunctions} `{HL : !HashLaws Hs} `{L : Layout} `{IO : cpp_int_io} `{IOL : !cpp_int_io_laws}
    `{Eh : Equihash} `{FP : FilePlatform} `{FL : !FilePlatformLaws FP} `{LP : FlushPlatform} `{P : CoinsPlatform}
    `{PL : !CoinsPlatformLaws P} {V : Type} `{CV : CCoinsView V} `{CL : !CoinsViewLaws CV} (version block_chunk : Z)
    (cfg : accept_settings) (block : CBlock) (fRequested : bool) (st : CChainState) (ds : disk_state V) (base : option ptr) :
  node_ok cfg st ds base -> settings_ok version block_chunk cfg ->
  (arriving cfg block st ds ->
  exists st' ds' o, AcceptBlock version block_chunk cfg block fRequested None st ds = Some (st', ds', o) /\
    chain_wf st' /\ based st' base /\ crash_safe ds' /\ chainActive st' = chainActive st /\ pcoinsTip ds' = pcoinsTip ds /\
    (out_result o = Ok () -> node_ok cfg st' ds' base) /\
    (out_new o = false -> ds' = ds) /\
    (out_new o = true -> out_result o = Ok () -> exists p h st1 b, out_index o = Some p /\
       tip_height st = Some h /\ CheckBlock block h (consensus cfg) true true = Ok (out_block o) /\
       AcceptBlockHeader cfg block st = Some (st1, Some p, Ok ()) /\ index_of st1 !! p = Some b /\
       ContextualCheckBlock (index_of st1) (out_block o) (pprev b) = Some (Ok ()) /\
       stored_as version block_chunk cfg block st' ds' p) /\
    (forall e, out_new o = true -> out_result o = Err e -> IsInvalid e = true ->
       node_ok cfg st' ds' base /\ ds' = ds /\ exists p b, out_index o = Some p /\ index_of st' !! p = Some b /\
         failed b = negb (CorruptionPossible e)) /\
    (forall st1 p b blk, AcceptBlockHeader cfg block st = Some (st1, Some p, Ok ()) -> index_of st1 !! p = Some b ->
       ~ dropped cfg fRequested st1 b -> check_arrived cfg block (pprev b) st1 = Some (blk, Ok ()) -> platform_works ->
       out_new o = true /\ out_result o = Ok ())) /\
  (header_GetHash block = hashGenesisBlock (consensus cfg) -> chain_facts.header_ok header_GetHash block ->
   mapBlockIndex (tree st) !! hdr_hashPrevBlock block = None ->
   (forall p b, mapBlockIndex (tree st) !! header_GetHash block = Some p -> index_of st !! p = Some b -> pprev b = None) ->
   exists st1 p b h v, AcceptBlockHeader cfg block st = Some (st1, Some p, Ok ()) /\ index_of st1 !! p = Some b /\
     tip_height st1 = Some h /\ more_or_same_work st1 b = Some v /\
     AcceptBlock version block_chunk cfg block fRequested None st ds =
       if have_data b || negb fRequested && unwanted cfg st1 b v
       then Some (st1, ds, {| out_index := Some p; out_new := false; out_block := block; out_result := Ok () |})
       else match CheckBlock block h (consensus cfg) true true with
            | Err e => Some (mark_refused e p st1, ds, {| out_index := Some p; out_new := true; out_block := block; out_result := Err e |})
            | Ok _ => None
            end).
Proof.
  intros N So. split; [|by apply (genesis_arrives version block_chunk cfg block fRequested st ds base)].
  intros A. destruct (AcceptBlock_spec version block_chunk cfg block fRequested st ds base N So A)
    as (st1 & po & r1 & st' & ds' & o & E1 & S1 & V1 & E & W & B & C & Ca & Ct & _ & _ & Ho & Hcase).
  exists st', ds', o. split_and!; try done.
  - intros Hok. destruct r1 as [[]|e]; [|by destruct Hcase as (_ & _ & ? & _)].
    destruct Hcase as (p & b & _ & _ & _ & H0 & H1). destruct (out_new o) eqn:En; [|by destruct (H0 eq_refl) as (_ & _ & ? & _)].
    destruct (H1 eq_refl) as (_ & blk & rc & _ & Hrc). destruct rc as [[]|e]; [|by destruct Hrc as (_ & _ & ? & _)].
    by apply Hrc.
  - intros En. destruct r1 as [[]|e]; [|by destruct Hcase as (_ & ? & _)].
    destruct Hcase as (p & b & _ & _ & _ & H0 & _). by destruct (H0 En) as (_ & ? & _).
  - intros En Hok. destruct r1 as [[]|e]; [|destruct Hcase as (_ & _ & _ & ? & _); congruence].
    destruct Hcase as (p & b & -> & Hb & _ & _ & H1). destruct (H1 En) as (_ & blk & rc & Ec & Hrc).
    destruct rc as [[]|e]; [|destruct Hrc as (_ & _ & _ & ?); congruence]. destruct Hrc as (Hblk & _ & _ & Hst).
    unfold check_arrived in Ec. rewrite (tip_height_step cfg st st1 base (nk_wf _ _ _ _ N) S1) in Ec.
    destruct (tip_height st) as [h|]; [|done]. cbn [mbind option_bind] in Ec.
    destruct (CheckBlock block h (consensus cfg) true true) as [blk'|e] eqn:Ecb; [|done].
    destruct (ContextualCheckBlock (index_of st1) blk' (pprev b)) as [r|] eqn:Ecc; [|done]. cbn [mbind option_bind] in Ec.
    injection Ec as -> ->. subst blk. exists p, h, st1, b. split_and!; try done. by apply Hst.
  - intros e En He Hinv. destruct r1 as [[]|e']; [|destruct Hcase as (_ & _ & _ & ? & _); congruence].
    destruct Hcase as (p & b & -> & Hb & Hm & _ & H1). destruct (H1 En) as (Hnd & blk & rc & Ec & Hrc).
    destruct rc as [[]|e'].
    + exfalso. destruct Hrc as (_ & _ & Hbad & _). destruct (Hbad e He). congruence.
    + destruct Hrc as (-> & -> & N' & He'). assert (e' = e) as -> by congruence. split; [done|]. split; [done|].
      exists p. destruct (mark_refused_at cfg block e p b st st1 (Some p) base (nk_wf _ _ _ _ N) S1 V1 (av_hash _ _ _ _ A)
        (av_heights _ _ _ _ A) eq_refl Hb Hinv) as (b2 & ? & ?). by exists b2.
  - intros st2 p b blk E2 Hb Hnd Hc Hw. rewrite E1 in E2. injection E2 as -> -> ->.
    destruct Hcase as (p' & b' & [= <-] & Hb' & _ & H0 & H1). assert (b' = b) as -> by congruence.
    destruct (out_new o) eqn:En; [|by destruct (H0 eq_refl) as (_ & _ & _ & _ & ?)]. split; [done|].
    destruct (H1 eq_refl) as (_ & blk' & rc & Ec & Hrc). rewrite Hc in Ec. injection Ec as <- <-. by apply Hrc.
Qed.

(** A node that has only the header of its genesis block, and the next block. *)
Module accept_example.
Export coins_example block_files_example blockdb_example.
Import chainstate_example.

Definition root : uint256 := le_digits 8 32 4.
Definition params_for (genesis : uint256) (fork : Z) (key : bool) : Params := {|
  hashGenesisBlock := genesis; nSubsidyHalvingInterval := 840000;
  nRuleChangeActivationThreshold := 108; nMinerConfirmationWindow := 144; vDeployments := [];
  powLimit := powLimit pow_example.params; fPowAllowMinDifficultyBlocks := false; fPowNoRetargeting := false;
  nPowTargetSpacing := 600; nPowTargetTimespan := 1200;
  Params.nMinimumChainWork := uint256_null; defaultAssumeValid := uint256_null;
  authorizationForkHeight := fork; authorizationKey := {| IsFullyValid := key; Verify _ _ := true |} |}.
Definition params1 : Z -> bool -> Params := params_for root.
Definition settings_for (params : Params) : accept_settings := {|
  consensus := params; fCheckpointsEnabled := false; mapCheckpoints := []; GetAdjustedTime := 3000; pchMessageStart := magic;
  flushing := cfg; nMempoolUsage := 0; setting := chainstate_example.env |}.
Definition setup : accept_settings := settings_for (params1 0 false).

Definition tree1 : BlockTree := add_header 4 uint256_null chain_example.empty_tree.
Definition node1 : CChainState := headers_only tree1.
Definition coinbase1 : CTransaction := MakeTransaction {|
  vin := [{| prevout := COutPoint_null; scriptSig := [OP_1; OP_0]; nSequence := SEQUENCE_FINAL; scriptWitness := [] |}];
  vout := [{| nValue := 7; scriptPubKey := [OP_1] |}]; tx_nVersion := 1; tx_nLockTime := 0 |}.
Definition block_in (time : Z) (prev : uint256) (cb : CTransaction) : CBlock :=
  let b merkle := {| Block.header := {| hdr_nVersion := 4; hdr_hashPrevBlock := prev; hdr_hashMerkleRoot := merkle;
                       hdr_nTime := time; hdr_nBits := 0x207fffff; hdr_nNonce := uint256_null; hdr_nSolution := [] |};
                     vtx := [cb]; fChecked := false |} in
  b (from_option fst uint256_null (BlockMerkleRoot (b uint256_null))).
Definition block_on : uint256 -> CTransaction -> CBlock := block_in 2000.
Definition first_block : CBlock := block_on root coinbase1.
Definition disk1 : disk_state coins_example.db := {|
  ds_files := no_files; ds_db := empty_db; pcoinsTip := make_cache coins0; fHavePruned := false;
  nLastWrite := 0; nLastFlush := 0; nLastSetChain := 0 |}.

Lemma tree1_wf : chain_facts.tree_wf tree1.
Proof. unfold tree1. apply add_header_wf; [unfold in_range; cbn; lia|by intros H; vm_compute in H|exact chain_example.empty_tree_wf]. Qed.

Lemma tree1_entry : exists p b, heap tree1 = {[ p := b ]} /\ mapBlockIndex tree1 = {[ root := p ]} /\
  setDirtyBlockIndex tree1 = {[p]} /\ pprev b = None /\ phashBlock b = root /\ nBits b = 0x207fffff /\
  nStatus b = BLOCK_VALID_TREE /\ nTx b = 0 /\ nChainTx b = 0.
Proof.
  assert (chain_facts.header_ok chain_example.GetHash (chain_example.header 4 uint256_null)) as Hok
    by (split; [unfold in_range; cbn; lia|by intros H; vm_compute in H]).
  destruct (AddToBlockIndex_new chain_example.GetHash chain_example.empty_tree _ chain_example.empty_tree_wf Hok eq_refl)
    as (t & p & b & E & _ & _ & Hh & Hm & Hq & _ & Hb & Hph & Hs & Hn & Hc).
  pose proof (added_dirty _ chain_example.empty_tree _ t p (lookup_empty _) E) as Hd.
  exists p, b. unfold tree1, add_header. rewrite E, Hh, Hm, Hd. split_and!; try done. apply union_empty_r_L.
Qed.

Lemma node1_at p b : index_of node1 !! p = Some b ->
  mapBlockIndex tree1 = {[ root := p ]} /\ setDirtyBlockIndex tree1 = {[p]} /\ pprev b = None /\ phashBlock b = root /\
  nBits b = 0x207fffff /\ nStatus b = BLOCK_VALID_TREE /\ nTx b = 0 /\ nChainTx b = 0.
Proof.
  intros H. destruct tree1_entry as (q & c & Hh & Hm & Hd & Hrest). unfold node1, index_of in H. cbn [tree headers_only] in H.
  rewrite Hh in H. apply lookup_singleton_Some in H as [<- <-]. done.
Qed.

Lemma node1_wf : chain_wf node1 /\ based node1 None.
Proof.
  apply headers_only_wf; [exact tree1_wf|]. intros p b Hb. destruct (node1_at p b Hb) as (_ & _ & _ & _ & _ & Hs & Hn & Hc).
  split; [exact Hn|]. split; [exact Hc|]. unfold have_data. rewrite Hs. reflexivity.
Qed.

Lemma disk1_ok : disk_wf node1 disk1.
Proof.
  split.
  - intros h p Hp. by apply (tw_map _ tree1_wf).
  - intros p Hp. destruct tree1_entry as (q & c & Hh & Hm & Hd & _ & Hph & _). cbn [setDirtyBlockIndex tree node1 headers_only] in Hp.
    rewrite Hd in Hp. apply elem_of_singleton in Hp as ->. exists c. unfold block_at, index_of. cbn [heap tree node1 headers_only mapBlockIndex].
    rewrite Hh, Hm, Hph. split; apply lookup_singleton_eq.
  - intros p b q Hb Hq. destruct (node1_at p b Hb) as (_ & _ & Hn & _). congruence.
  - intros f Hf. by apply not_elem_of_empty in Hf.
  - intros h p b _ Hb Hn. exfalso. apply Hn. destruct (node1_at p b Hb) as (_ & Hd & _). cbn [setDirtyBlockIndex tree node1 headers_only].
    rewrite Hd. by apply elem_of_singleton.
  - intros f i Hi. unfold info_at in Hi. cbn [vinfoBlockFile ds_files disk1 no_files] in Hi. destruct (f <? 0); [discriminate Hi|].
    rewrite lookup_nil in Hi. discriminate Hi.
  - intros f [i Hi]. cbn [db_block_files ds_db disk1 empty_db] in Hi. rewrite lookup_empty in Hi. discriminate Hi.
  - intros h d Hd. cbn [db_block_index ds_db disk1 empty_db] in Hd. rewrite lookup_empty in Hd. discriminate Hd.
  - intros h p b _ Hb Hd. destruct (node1_at p b Hb) as (_ & _ & _ & _ & _ & Hs & _). unfold have_data in Hd. rewrite Hs in Hd. discriminate Hd.
  - split; cbn; [apply map_Forall_empty|apply map_Forall_empty|reflexivity].
  - intros Hn. vm_compute in Hn. discriminate Hn.
Qed.

Lemma bits1 : accept_facts.bits_ok (index_of node1).
Proof. intros p b Hb. destruct (node1_at p b Hb) as (_ & _ & _ & _ & -> & _). unfold in_range. pow_literals. lia. Qed.

Lemma rooted1 fork key : rooted (settings_for (params1 fork key)) node1.
Proof. intros p b Hb _. by destruct (node1_at p b Hb) as (_ & _ & _ & -> & _). Qed.

Lemma params1_ok fork key : pow_facts.params_ok (params1 fork key).
Proof. split; [exact (proj1 pow_example.params_ok)|]. cbn. lia. Qed.

Lemma node1_ok : node_ok setup node1 disk1 None.
Proof.
  split; [apply node1_wf|apply node1_wf|exact bits1|apply rooted1|exact disk1_ok| |exact no_files_wf|reflexivity].
  split; [|intros Hn; vm_compute in Hn; discriminate Hn].
  intros h d Hd. cbn [db_block_index ds_db disk1 empty_db] in Hd. rewrite lookup_empty in Hd. discriminate Hd.
Qed.

Lemma setup_ok : settings_ok 0 5000000 setup.
Proof. split; [lia|reflexivity|reflexivity|reflexivity|apply params1_ok]. Qed.

Lemma first_header_ok : chain_facts.header_ok header_GetHash first_block.
Proof. split; [vm_compute; split; [discriminate|reflexivity]|by intros H; vm_compute in H]. Qed.

(** One block of one transaction stored above entries of at most one. *)
Lemma few_txs (m : index_map) p : index_wf m -> chainstate_example.every (fun b => (nTx b <=? 1) && (nHeight b <=? 1)) m = true ->
  txs_bounded (alter (set_data 1 0 0 0 0 0) p m).
Proof.
  intros Hwf Hev. apply (txs_bounded_of _ 1 1); [|lia| |lia].
  { apply (core_index_wf m); [by apply same_core_alter|done]. }
  intros q c Hq. destruct (decide (q = p)) as [->|Hne].
  - rewrite lookup_alter_eq in Hq. destruct (m !! p) as [d|] eqn:Hd; [|discriminate Hq]. injection Hq as <-.
    apply (chainstate_example.every_spec _ _ _ _ Hev) in Hd. apply andb_prop in Hd as [_ Hd]. apply Z.leb_le in Hd.
    cbn [set_data nTx nHeight]. lia.
  - rewrite lookup_alter_ne in Hq by done. apply (chainstate_example.every_spec _ _ _ _ Hev) in Hq.
    apply andb_prop in Hq as [Hq1 Hq2]. apply Z.leb_le in Hq1, Hq2. lia.
Qed.

(** The block after its header, and what the checks say. *)
Lemma first_accepted : exists st1 b blk, AcceptBlockHeader setup first_block node1 = Some (st1, Some 2%positive, Ok ()) /\
  index_of st1 !! 2%positive = Some b /\ have_data b = false /\ check_arrived setup first_block (pprev b) st1 = Some (blk, Ok ()) /\
  chainstate_example.every (fun b => (nTx b <=? 1) && (nHeight b <=? 1)) (index_of st1) = true.
Proof.
  destruct (AcceptBlockHeader setup first_block node1) as [[[st1 o] r]|] eqn:E; [|vm_compute in E; discriminate E].
  assert ((fun x => (x.1.2, x.2)) <$> AcceptBlockHeader setup first_block node1 = Some (Some 2%positive, Ok ())) as Eo by (vm_compute; reflexivity).
  assert (match AcceptBlockHeader setup first_block node1 with
          | Some (st1, _, _) =>
              match index_of st1 !! 2%positive with
              | Some b => match check_arrived setup first_block (pprev b) st1 with
                          | Some (_, Ok _) => negb (have_data b) && chainstate_example.every (fun b => (nTx b <=? 1) && (nHeight b <=? 1)) (index_of st1)
                          | _ => false
                          end
              | None => false
              end
          | None => false
          end = true) as Ec by (vm_compute; reflexivity).
  rewrite E in Eo, Ec. cbn in Eo. injection Eo as -> ->. destruct (index_of st1 !! 2%positive) as [b|] eqn:Hb; [|discriminate Ec].
  destruct (check_arrived setup first_block (pprev b) st1) as [[blk [[]|e]]|] eqn:Ek; [|discriminate Ec|discriminate Ec].
  apply andb_prop in Ec as [Ed Ev]. apply negb_true_iff in Ed. exists st1, b, blk. by split_and!.
Qed.

Lemma first_arriving : arriving setup first_block node1 disk1.
Proof.
  split.
  - vm_compute. reflexivity.
  - exact first_header_ok.
  - by intros H; vm_compute in H.
  - split; [| |vm_compute; reflexivity].
    + split; try decided; vm_compute; split; done || discriminate.
    + constructor; [|constructor]. split; [reflexivity|]. split; [|left; discriminate]. split; decided.
  - discriminate.
  - intros p b Hb. pose proof (wf_genesis _ (tw_index _ tree1_wf) p b Hb) as Hh. rewrite Hh; [pow_literals; lia|].
    by destruct (node1_at p b Hb) as (_ & _ & ? & _).
  - intros st1 p E. destruct first_accepted as (st2 & b & blk & E2 & _ & _ & _ & Hev). rewrite E in E2. injection E2 as <- ->.
    destruct (AcceptBlockHeader_spec setup first_block node1 None) as (st3 & o & r & E3 & S & _);
      [apply node1_wf..|exact bits1|apply rooted1|apply params1_ok|exact first_header_ok|].
    rewrite E in E3. injection E3 as <- <- <-.
    apply few_txs; [apply (cw_cand _ (hs_wf _ _ _ _ S))|exact Hev].
Qed.

(** A node that connects every block, and holds nothing but its disk. *)
Definition plain_connect (env : environment) (p : ptr) (blk : option CBlock) (n : CChainState * disk_state coins_example.db)
    : result crash ((CChainState * disk_state coins_example.db) * tx_result unit) :=
  c ← or_abort (SetTip (index_of n.1) (chainActive n.1) (Some p));
  Ok ((set_chain c n.1, n.2), Ok ()).
Definition plain_disconnect (env : environment) (n : CChainState * disk_state coins_example.db)
    : result crash ((CChainState * disk_state coins_example.db) * tx_result unit) :=
  t ← or_abort (Tip (chainActive n.1));
  b ← or_abort (block_at n.1 t);
  c ← or_abort (SetTip (index_of n.1) (chainActive n.1) (pprev b));
  Ok ((set_chain c n.1, n.2), Ok ()).
#[export] Instance plain : ChainTip (disk_state coins_example.db) CBlock := {|
  block_hash := fun b : CBlock => header_GetHash b;
  ConnectTip := plain_connect;
  DisconnectTip := plain_disconnect;
  UpdateMempoolForReorg := fun _ _ x => x;
  Activation.FlushStateToDisk := fun _ n => Ok (n, Ok ());
  ShutdownRequested := fun _ _ => false;
|}.

#[export] Instance plain_laws env : activation_facts.ChainTipLaws plain env.
Proof.
  refine {| activation_facts.tip_ok := fun _ _ => True |}; try done.
  - intros st x p b blk _ _ _ _ _ _ _. cbn. unfold plain_connect. cbn [fst snd].
    destruct (SetTip _ _ _) as [c|] eqn:E; [|done]. cbn. split; [by apply activation_example.set_chain_changed|done].
  - intros st x t b _ _ Ht Hb. cbn. unfold plain_disconnect, block_at. cbn [fst snd]. rewrite Ht. cbn [or_abort mbind result_bind].
    rewrite Hb. cbn [or_abort mbind result_bind]. destruct (SetTip _ _ _) as [c|] eqn:E; [|done].
    cbn. split; [by apply activation_example.set_chain_changed|done].
Defined.

#[export] Instance plain_disk env : DiskPart env (fun x => x) (fun ds _ => ds).
Proof. by split. Qed.



Definition genesis : CBlock := block_in 1000 uint256_null coinbase1.













End accept_example.
Import accept_example.


Lemma AcceptBlock_correct_witness : exists st' ds' o,
  AcceptBlock 0 5000000 setup first_block true None node1 disk1 = Some (st', ds', o) /\ out_new o = true /\ out_result o = Ok () /\
  exists b, index_of st' !! 2%positive = Some b /\ nTx b = 1 /\
    ReadBlockFromDisk 0 5000000 (consensus setup) b (files (ds_files ds')) = Ok first_block.
Proof.
  destruct (proj1 (AcceptBlock_correct 0 5000000 setup first_block true node1 disk1 None node1_ok setup_ok) first_arriving)
    as (st' & ds' & o & E & _ & _ & _ & _ & _ & _ & _ & Hnew & _ & Hlive).
  destruct first_accepted as (st1 & b & blk & E1 & Hb & Hd & Hc & _).
  assert (~ dropped setup true st1 b) as Hnd by (intros [Hx|[Hx _]]; [rewrite Hd in Hx; discriminate Hx|discriminate Hx]).
  destruct (Hlive st1 2%positive b blk E1 Hb Hnd Hc ideal_works) as [Ho1 Ho2].
  exists st', ds', o. split; [exact E|]. split; [exact Ho1|]. split; [exact Ho2|].
  destruct (Hnew Ho1 Ho2) as (p & h & st2 & b2 & _ & _ & _ & E2 & _ & _ & b' & Hb' & _ & _ & Hn & Hr).
  rewrite E1 in E2. injection E2 as <- <-. exists b'. split; [exact Hb'|]. split; [exact Hn|].
  exact (Hr ideal (ds_files ds') ideal_reads (rtc_refl _ _)).
Defined.

Lemma AcceptBlockHeader_correct_witness : exists st' o, AcceptBlockHeader setup first_block node1 = Some (st', o, Ok ()) /\ chain_wf st'.
Proof.
  destruct (AcceptBlockHeader_correct setup node1 None [Block.header first_block] (proj1 node1_wf) (proj2 node1_wf) bits1
    (rooted1 0 false) (params1_ok 0 false)) as [H _].
  - constructor; [exact first_header_ok|constructor].
  - destruct (H first_block) as (st' & o & r & E & S & _); [left|].
    destruct first_accepted as (st1 & b & blk & E1 & _). rewrite E in E1. injection E1 as -> -> ->.
    exists st1, (Some 2%positive). split; [exact E|]. exact (hs_wf _ _ _ _ S).
Defined.

(** ** What the node decides differently in different orders *)

(** Whether the coinbase has to be signed follows the height of the tip when
    the block is checked, not that of the block: a block that is accepted while
    the tip is low is refused once the tip is high. *)
Lemma late_block_refused `{Hs : HashFunctions} `{L : Layout} `{Eh : Equihash} (block : CBlock) (params : Params) (low high : option Z)
    (cb : CTransaction) (rest : list CTransaction) (i : CTxIn) (l : list CTxIn) (block' : CBlock) :
  fChecked block = false -> authorization_required low params = false -> authorization_required high params = true ->
  vtx block = cb :: rest -> vin cb = i :: l -> (length (scriptSig i) < 65)%nat ->
  CheckBlock block low params true true = Ok block' ->
  CheckBlock block high params true true = Err (invalid 100 "bad-coinbase-scriptsig").
Proof.
  intros Hf Hlow Hhigh Hv Hi Hlen. unfold CheckBlock. rewrite Hf. intros H.
  apply bind_Ok in H as (? & E1 & H). apply bind_Ok in H as (? & E2 & H). apply bind_Ok in H as (? & E3 & H).
  apply bind_Ok in H as (? & E4 & _). rewrite E1. cbn [mbind result_bind]. rewrite E2. cbn [mbind result_bind].
  rewrite E3. cbn [mbind result_bind]. rewrite E4. cbn [mbind result_bind]. unfold check_auth. rewrite Hhigh, Hv. cbn [andb].
  unfold coinbase_auth. rewrite Hi. cbn [mbind option_bind lookup list_lookup]. by rewrite (proj2 (Nat.ltb_lt _ _) Hlen).
Qed.

(** A network with the change at height 2, and its first block. *)
Lemma late_block_refused_example :
  is_Some (match CheckBlock first_block (Some 0) (params1 2 true) true true with Ok b => Some b | Err _ => None end) /\
  CheckBlock first_block (Some 1) (params1 2 true) true true = Err (invalid 100 "bad-coinbase-scriptsig").
Proof. split; [eexists|]; vm_compute; reflexivity. Qed.

(** A block that fails its checks in [AcceptBlock] is not entered in
    [g_failed_blocks], so that headers below its known children are accepted;
    they would not be if it had been refused in [ConnectBlock]. *)
Lemma unlisted_failure :
  let st := mark_refused (invalid 100 "bad-blk-length") 3 chainstate_example.active1 in
  let header := block_on (le_digits 8 32 1003) coinbase1 in
  (failed <$> block_at st 3%positive) = Some true /\ (pprev <$> block_at st 4%positive) = Some (Some 3%positive) /\
  (snd <$> AcceptBlockHeader setup header st) = Some (Ok ()) /\
  (snd <$> AcceptBlockHeader setup header chainstate_example.refused3) = Some (Err (invalid 100 "bad-prevblk")).
Proof. split_and!; vm_compute; reflexivity. Qed.

(** [ResetBlockFailureFlags] clears the flags of ancestors but leaves them in
    [g_failed_blocks]: after a descendant of an invalid block has been
    reconsidered, the assertion of [AcceptBlockHeader] fails for the next
    header on it. *)
Lemma reconsidered_ancestor_asserts : exists st,
  ResetBlockFailureFlags (IP := chainstate_example.platform) 4 chainstate_example.refused3 = Some st /\
  AcceptBlockHeader setup (block_on (le_digits 8 32 1003) coinbase1) st = None.
Proof.
  destruct (ResetBlockFailureFlags (IP := chainstate_example.platform) 4 chainstate_example.refused3) as [st|] eqn:E;
    [|vm_compute in E; discriminate E].
  exists st. split; [reflexivity|].
  assert ((st ← ResetBlockFailureFlags (IP := chainstate_example.platform) 4 chainstate_example.refused3;
    AcceptBlockHeader setup (block_on (le_digits 8 32 1003) coinbase1) st) = None) as Ea by (vm_compute; reflexivity).
  rewrite E in Ea. exact Ea.
Qed.
