(* ===== verification/LoadIndex.v ===== *)
(** * Loading the block index at the start ([txdb.cpp], [validation.cpp])

    [LoadBlockIndexGuts] makes the entries of the database into block indexes,
    which are linked by the hashes of their predecessors; [LoadBlockIndex] goes
    over them by height and computes what the database does not hold, the
    candidates for the tip included; [LoadBlockIndexDB] adds the statistics of
    the files, and [LoadChainTip] finds the tip that the coins belong to.  The
    flags of the transaction index and of a reindex, interruptions and the log
    are left out; every value of the database can be read. *)

From S2P Require Import Prelude ArithUint256 Uint256 StdSet Hash Chain Params Pow Script Interpreter Serialize Transaction Coins TxVerify Block Merkle BlockCheck ChainState Activation Compress BlockFiles BlockDb Accept.
Import base_uint arith_uint256.

(** The order in which the cursor of the database comes to the entries. *)
Class LoadPlatform := { seek_entries : gmap uint256 CDiskBlockIndex -> list (uint256 * CDiskBlockIndex) }.
Class LoadPlatformLaws `(LoadPlatform) : Prop := { seek_entries_perm : forall m, seek_entries m ≡ₚ map_to_list m }.

Section load.
Context `{Hs : HashFunctions} `{IP : IndexPlatform} `{DP : LoadPlatform} `{FP : FilePlatform}.
Context (params : Params).

(** ** Entries *)

(** [CBlockIndex()], with the key of [mapBlockIndex] as its hash. *)
Definition blank (hash : uint256) : CBlockIndex :=
  CBlockIndex_of_header hash {|
    hdr_nVersion := 0; hdr_hashPrevBlock := uint256_null; hdr_hashMerkleRoot := uint256_null;
    hdr_nTime := 0; hdr_nBits := 0; hdr_nNonce := uint256_null; hdr_nSolution := [] |}.

Definition InsertBlockIndex (hash : uint256) (t : BlockTree) : BlockTree * option ptr :=
  if base_blob.IsNull hash then (t, None)
  else
    match mapBlockIndex t !! hash with
    | Some p => (t, Some p)
    | None =>
        let p := fresh (dom (heap t)) in
        ({| heap := <[p := blank hash]> (heap t); mapBlockIndex := <[hash := p]> (mapBlockIndex t);
            pindexBestHeader := pindexBestHeader t; setDirtyBlockIndex := setDirtyBlockIndex t |}, Some p)
    end.

(** What [LoadBlockIndexGuts] sets. *)
Definition fill (d : CDiskBlockIndex) (prev : option ptr) (b : CBlockIndex) : CBlockIndex := {|
  phashBlock := phashBlock b; pprev := prev; pskip := pskip b; nHeight := di_nHeight d;
  nFile := di_nFile d; nDataPos := di_nDataPos d; nUndoPos := di_nUndoPos d;
  nChainWork := nChainWork b; nTx := di_nTx d; nChainTx := nChainTx b; nStatus := di_nStatus d;
  nVersion := hdr_nVersion (di_header d); hashMerkleRoot := hdr_hashMerkleRoot (di_header d);
  nTime := hdr_nTime (di_header d); nBits := hdr_nBits (di_header d); nNonce := hdr_nNonce (di_header d);
  nSolution := hdr_nSolution (di_header d); nSequenceId := nSequenceId b; nTimeMax := nTimeMax b |}.

(** [CDiskBlockIndex::GetBlockHash]; the key of the entry is not looked at. *)
Fixpoint LoadBlockIndexGuts (l : list (uint256 * CDiskBlockIndex)) (t : BlockTree) : option (BlockTree * bool) :=
  match l with
  | [] => Some (t, true)
  | (_, diskindex) :: l =>
      let '(t, pindexNew) := InsertBlockIndex (header_GetHash (di_header diskindex)) t in
      let '(t, prev) := InsertBlockIndex (hdr_hashPrevBlock (di_header diskindex)) t in
      p ← pindexNew;
      b ← heap t !! p;
      let b := fill diskindex prev b in
      let t := {| heap := <[p := b]> (heap t); mapBlockIndex := mapBlockIndex t;
                  pindexBestHeader := pindexBestHeader t; setDirtyBlockIndex := setDirtyBlockIndex t |} in
      if negb (CheckProofOfWork (phashBlock b) (nBits b) params) then Some (t, false)
      else LoadBlockIndexGuts l t
  end.

(** ** What follows from the predecessors *)

(** [std::pair<int, CBlockIndex*>], ordered by [operator<]. *)
Definition pair_le (x y : Z * ptr) : Prop := x.1 < y.1 \/ (x.1 = y.1 /\ (x.2 <= y.2)%positive).
#[export] Instance pair_le_dec : RelDecision pair_le.
Proof. intros x y. unfold pair_le. apply _. Defined.

(** [nChainTx]: the own transactions if those of all ancestors are there;
    true if the block waits for its predecessor. *)
Definition chain_txs (b : CBlockIndex) (prev : option CBlockIndex) : Z * bool :=
  if nTx b >? 0 then
    match prev with
    | Some c => if negb (nChainTx c =? 0) then (u32 (nChainTx c + nTx b), false) else (0, true)
    | None => (nTx b, false)
    end
  else (nChainTx b, false).

(** One turn of the loop over [vSortedByHeight]. *)
Definition load_entry (p : ptr) (st : CChainState) : option CChainState :=
  b ← block_at st p;
  prev ← match pprev b with None => Some None | Some q => c ← block_at st q; Some (Some c) end;
  proof ← GetBlockProof (nBits b);
  let work := add (from_option nChainWork (of_u64 W 0) prev) proof in
  let tmax := from_option (fun c => Z.max (nTimeMax c) (nTime b)) (nTime b) prev in
  let '(txs, waits) := chain_txs b prev in
  let b := set_linked txs (nSequenceId b) (set_totals tmax work b) in
  let st := if waits then set_unlinked (mapBlocksUnlinked st ++ [(pprev b, p)]) st else st in
  let fails := negb (failed b) && from_option failed false prev in
  let b := if fails then add_status BLOCK_FAILED_CHILD b else b in
  let st := update p (fun _ => b) st in
  let st := if fails then dirty p st else st in
  candidate ← IsValid b BLOCK_VALID_TRANSACTIONS;
  let st := if candidate && (negb (nChainTx b =? 0) || bool_decide (pprev b = None)) then insert_candidate p st else st in
  worse ← (if failed b then more_work_than st b (pindexBestInvalid st) else Some false);
  let st := if (worse : bool) then set_best_invalid (Some p) st else st in
  skip ← BuildSkip (index_of st) b;
  let st := update p (set_links (pprev b) (nHeight b) skip) st in
  header ← IsValid b BLOCK_VALID_TREE;
  Some (if header && from_option (fun h => work_less (index_of st) h p) true (pindexBestHeader (tree st))
        then set_tree {| heap := heap (tree st); mapBlockIndex := mapBlockIndex (tree st);
                         pindexBestHeader := Some p; setDirtyBlockIndex := setDirtyBlockIndex (tree st) |} st
        else st).

Fixpoint load_entries (l : list ptr) (st : CChainState) : option CChainState :=
  match l with [] => Some st | p :: l => st ← load_entry p st; load_entries l st end.

Fixpoint with_heights (m : index_map) (l : list (uint256 * ptr)) : option (list (Z * ptr)) :=
  match l with [] => Some [] | (_, p) :: l => b ← m !! p; l ← with_heights m l; Some ((nHeight b, p) :: l) end.

Definition LoadBlockIndex (db : gmap uint256 CDiskBlockIndex) (st : CChainState) : option (CChainState * bool) :=
  '(t, ok) ← LoadBlockIndexGuts (seek_entries db) (tree st);
  let st := set_tree t st in
  if negb ok then Some (st, false)
  else
    vSortedByHeight ← with_heights (index_of st) (iterate_index (mapBlockIndex (tree st)));
    st ← load_entries (merge_sort pair_le vSortedByHeight).*2 st;
    Some (st, true).

(** ** Files *)

(** The second loop, which ends with the first file that has no entry. *)
Fixpoint more_infos (fuel : nat) (nFile : Z) (db : CBlockTreeDB) (v : list CBlockFileInfo) : option (list CBlockFileInfo) :=
  match ReadBlockFileInfo nFile db with
  | None => Some v
  | Some info => match fuel with O => None | S fuel => more_infos fuel (nFile + 1) db (v ++ [info]) end
  end.

Definition load_infos (db : CBlockTreeDB) (bf : block_files) : option block_files :=
  let last := default (nLastBlockFile bf) (db_last_block db) in
  let v := resize (Z.to_nat (last + 1)) info_SetNull (vinfoBlockFile bf) in
  let v := imap (fun k info => default info (ReadBlockFileInfo (Z.of_nat k) db)) v in
  _ ← v !! Z.to_nat last;
  v ← more_infos (size (db_block_files db)) (last + 1) db v;
  Some (set_infos v last (setDirtyFileInfo bf) bf).

(** [setBlkDataFiles], and whether all of them can be opened. *)
Fixpoint data_files (m : index_map) (l : list (uint256 * ptr)) : option (gset Z) :=
  match l with
  | [] => Some ∅
  | (_, p) :: l => b ← m !! p; s ← data_files m l; Some (if have_data b then {[nFile b]} ∪ s else s)
  end.
Definition can_open (fs : file_store) (f : Z) : bool :=
  bool_decide (is_Some (OpenDiskFile {| pos_nFile := f; pos_nPos := 0 |} BLK true fs).2).

Context {V : Type} `{CV : CCoinsView V}.

Definition LoadBlockIndexDB (st : CChainState) (ds : disk_state V) : option (CChainState * disk_state V * bool) :=
  '(st, ok) ← LoadBlockIndex (db_block_index (ds_db ds)) st;
  if negb ok then Some (st, ds, false)
  else
    bf ← load_infos (ds_db ds) (ds_files ds);
    setBlkDataFiles ← data_files (index_of st) (iterate_index (mapBlockIndex (tree st)));
    let ds := set_disk bf (ds_db ds) (pcoinsTip ds) (fHavePruned ds) ds in
    if negb (forallb (can_open (files bf)) (elements setBlkDataFiles)) then Some (st, ds, false)
    else Some (st, set_disk bf (ds_db ds) (pcoinsTip ds) (fHavePruned ds || db_pruned (ds_db ds)) ds, true).

(** ** The tip *)

Context {X : Type} `{CT : ChainTip X CBlock} (get_coins : X -> CCoinsViewCache V) (put_coins : CCoinsViewCache V -> X -> X).

(** [pcoinsTip->GetBestBlock()], which may ask the database. *)
Definition best_of_coins (n : CChainState * X) : (CChainState * X) * uint256 :=
  let '(c, h) := cache_GetBestBlock (get_coins n.2) in ((n.1, put_coins c n.2), h).

Definition LoadChainTip (env : environment) (fuel : nat) (n : CChainState * X) : result crash ((CChainState * X) * bool) :=
  let '(n, best) := best_of_coins n in
  tip ← or_abort (match Tip (chainActive n.1) with None => Some None | Some t => b ← block_at n.1 t; Some (Some b) end);
  if bool_decide (phashBlock <$> tip = Some best) then Ok (n, true)
  else
    '(n, ok) ← (if base_blob.IsNull best && bool_decide (size (mapBlockIndex (tree n.1)) = 1%nat) then
                  '(n, r) ← ActivateBestChain env fuel None n;
                  Ok (n, match r with Ok _ => true | Err _ => false end)
                else Ok (n, true));
    if negb (ok : bool) then Ok (n, false)
    else
      let '(n, best) := best_of_coins n in
      match mapBlockIndex (tree n.1) !! best with
      | None => Ok (n, false)
      | Some p =>
          c ← or_abort (SetTip (index_of n.1) (chainActive n.1) (Some p));
          st ← or_abort (PruneBlockIndexCandidates (set_chain c n.1));
          Ok ((st, n.2), true)
      end.
End load.

(** ** Facts *)

Module loadindex_facts.
Import chain_facts stdset_facts chainstate_facts coins_facts activation_facts block_files_facts blockdb_facts.

(** *** The entries *)

Section guts.
Context `{Hs : HashFunctions} (params : Params) (db : gmap uint256 CDiskBlockIndex).

(** What a database must hold: entries under the hash of their header, with
    proof of work, none without that of its predecessor. *)
Record entries_ok : Prop := {
  eo_hash : forall h d, db !! h = Some d -> header_GetHash (di_header d) = h /\ base_blob.IsNull h = false;
  eo_prev : forall h d, db !! h = Some d -> base_blob.IsNull (hdr_hashPrevBlock (di_header d)) = false ->
    is_Some (db !! hdr_hashPrevBlock (di_header d));
  eo_work : forall h d, db !! h = Some d -> CheckProofOfWork h (hdr_nBits (di_header d)) params = true;
}.

Definition prev_of (t : BlockTree) (d : CDiskBlockIndex) : option ptr :=
  if base_blob.IsNull (hdr_hashPrevBlock (di_header d)) then None else mapBlockIndex t !! hdr_hashPrevBlock (di_header d).

(** The tree while the entries of [D] have been read. *)
Record reading (D : list uint256) (t : BlockTree) : Prop := {
  rd_map : forall h p, mapBlockIndex t !! h = Some p <-> exists b, heap t !! p = Some b /\ phashBlock b = h;
  rd_known : forall h p, mapBlockIndex t !! h = Some p -> is_Some (db !! h);
  rd_done : forall h d, h ∈ D -> db !! h = Some d -> exists p, mapBlockIndex t !! h = Some p /\
    heap t !! p = Some (fill d (prev_of t d) (blank h)) /\
    (base_blob.IsNull (hdr_hashPrevBlock (di_header d)) = false -> is_Some (prev_of t d));
  rd_blank : forall h p, mapBlockIndex t !! h = Some p -> h ∉ D -> heap t !! p = Some (blank h);
  rd_rest : pindexBestHeader t = None /\ setDirtyBlockIndex t = ∅;
}.

Definition no_tree : BlockTree :=
  {| heap := ∅; mapBlockIndex := ∅; pindexBestHeader := None; setDirtyBlockIndex := ∅ |}.

Lemma reading_empty : reading [] no_tree.
Proof.
  split; try done; cbn [mapBlockIndex heap no_tree].
  - intros h p. rewrite lookup_empty. split; [done|]. intros (b & Hb & _). by rewrite lookup_empty in Hb.
  - intros h d Hin. by apply not_elem_of_nil in Hin.
Qed.

Lemma map_inj D t h h' p : reading D t -> mapBlockIndex t !! h = Some p -> mapBlockIndex t !! h' = Some p -> h = h'.
Proof. intros R H1 H2. apply (rd_map _ _ R) in H1 as (b & Hb & <-). apply (rd_map _ _ R) in H2 as (b' & Hb' & <-). congruence. Qed.

Lemma InsertBlockIndex_spec D t h : reading D t -> is_Some (db !! h) -> base_blob.IsNull h = false ->
  (forall x d, db !! x = Some d -> x ∈ D -> is_Some (mapBlockIndex t !! x)) ->
  exists t' p, InsertBlockIndex h t = (t', Some p) /\ reading D t' /\ mapBlockIndex t' !! h = Some p /\
    forall x q, mapBlockIndex t !! x = Some q -> mapBlockIndex t' !! x = Some q.
Proof.
  intros R Hk Hn Hd. unfold InsertBlockIndex. rewrite Hn. destruct (mapBlockIndex t !! h) as [p|] eqn:E; [by exists t, p|].
  set (p := fresh (dom (heap t))). assert (heap t !! p = None) as Hp by (apply not_elem_of_dom, is_fresh).
  assert (forall x q, mapBlockIndex t !! x = Some q -> x <> h /\ q <> p) as Hne.
  { intros x q Hx. split; [congruence|]. intros ->. apply (rd_map _ _ R) in Hx as (b & Hb & _). congruence. }
  eexists _, p. split; [done|]. cbn [mapBlockIndex]. split; [|split; [apply lookup_insert_eq|]].
  2:{ intros x q Hx. destruct (Hne x q Hx). by rewrite lookup_insert_ne. }
  split; cbn [mapBlockIndex heap pindexBestHeader setDirtyBlockIndex].
  - intros x q. rewrite lookup_insert_Some, (rd_map _ _ R). split.
    + intros [[<- <-]|[Hx (b & Hb & Hbx)]]; [exists (blank h); by rewrite lookup_insert_eq|].
      exists b. rewrite lookup_insert_ne; [done|congruence].
    + intros (b & [[<- <-]|[Hq Hb]]%lookup_insert_Some & Hbx); [by left|]. right. split; [|by exists b].
      intros <-. assert (mapBlockIndex t !! h = Some q) by (apply (rd_map _ _ R); by exists b). congruence.
  - intros x q [[<- _]|[_ Hx]]%lookup_insert_Some; [done|]. by apply (rd_known _ _ R x q).
  - intros x d Hx Hdx. destruct (rd_done _ _ R x d Hx Hdx) as (q & Hq & Hb & Hpr). destruct (Hne x q Hq) as [? ?].
    exists q. rewrite lookup_insert_ne by done. split; [done|]. rewrite lookup_insert_ne by done.
    assert (prev_of {| heap := <[p := blank h]> (heap t); mapBlockIndex := <[h := p]> (mapBlockIndex t);
      pindexBestHeader := pindexBestHeader t; setDirtyBlockIndex := setDirtyBlockIndex t |} d = prev_of t d) as ->; [|done].
    unfold prev_of in *. cbn [mapBlockIndex]. destruct (base_blob.IsNull (hdr_hashPrevBlock (di_header d))); [done|].
    destruct (Hpr eq_refl) as [r Hr].
    destruct (Hne _ r Hr). by rewrite lookup_insert_ne.
  - intros x q [[<- <-]|[Hx Hq]]%lookup_insert_Some Hd'; [apply lookup_insert_eq|]. destruct (Hne x q Hq).
    rewrite lookup_insert_ne by done. by apply (rd_blank _ _ R).
  - apply R.
Qed.

(** One entry. *)
Lemma fill_entry_spec D t h d p : reading D t -> db !! h = Some d -> h ∉ D -> mapBlockIndex t !! h = Some p ->
  (base_blob.IsNull (hdr_hashPrevBlock (di_header d)) = false -> is_Some (prev_of t d)) ->
  reading (h :: D) {| heap := <[p := fill d (prev_of t d) (blank h)]> (heap t); mapBlockIndex := mapBlockIndex t;
                      pindexBestHeader := pindexBestHeader t; setDirtyBlockIndex := setDirtyBlockIndex t |}.
Proof.
  intros R Hd Hnew Hp Hpr. pose proof (rd_blank _ _ R h p Hp Hnew) as Hb.
  assert (forall x q, mapBlockIndex t !! x = Some q -> x <> h -> q <> p) as Hne.
  { intros x q Hq Hx ->. by destruct Hx; apply (map_inj D t x h p). }
  split; cbn [mapBlockIndex heap pindexBestHeader setDirtyBlockIndex].
  - intros x q. rewrite (rd_map _ _ R). split; intros (b & Hbq & Hbx).
    + destruct (decide (q = p)) as [->|?]; [|exists b; by rewrite lookup_insert_ne]. eexists. rewrite lookup_insert_eq.
      split; [done|]. replace b with (blank h) in Hbx by congruence. done.
    + apply lookup_insert_Some in Hbq as [[<- <-]|[? ?]]; [by exists (blank h)|by exists b].
  - apply R.
  - intros x e [->|Hx]%elem_of_cons He.
    + assert (e = d) as -> by congruence. exists p. rewrite lookup_insert_eq. done.
    + destruct (decide (x = h)) as [->|Hxh]; [done|]. destruct (rd_done _ _ R x e Hx He) as (q & Hq & Hbq & Hprq).
      exists q. rewrite lookup_insert_ne by (apply not_eq_sym; by apply (Hne x)). done.
  - intros x q Hq Hx. apply not_elem_of_cons in Hx as [Hxh Hx].
    rewrite lookup_insert_ne by (apply not_eq_sym; by apply (Hne x)). by apply (rd_blank _ _ R).
  - apply R.
Qed.

Lemma LoadBlockIndexGuts_spec l D t : entries_ok -> reading D t -> NoDup l.*1 ->
  (forall h d, (h, d) ∈ l -> db !! h = Some d /\ h ∉ D) ->
  exists t', LoadBlockIndexGuts params l t = Some (t', true) /\ reading (reverse l.*1 ++ D) t'.
Proof.
  intros [E1 E2 E3]. revert D t. induction l as [|[h d] l IH]; intros D t R Hnd Hl; [by exists t|].
  cbn [fmap list_fmap fst] in Hnd. apply NoDup_cons in Hnd as [Hh Hnd]. cbn [LoadBlockIndexGuts].
  destruct (Hl h d ltac:(left)) as [Hd HD]. destruct (E1 h d Hd) as [-> Hnull].
  assert (forall D t x e, reading D t -> db !! x = Some e -> x ∈ D -> is_Some (mapBlockIndex t !! x)) as Hthere.
  { intros D' t' x e R' He Hx. destruct (rd_done _ _ R' x e Hx He) as (q & Hq & _). by exists q. }
  destruct (InsertBlockIndex_spec D t h R ltac:(by exists d) Hnull ltac:(intros x e; by apply Hthere)) as (t1 & p & -> & R1 & Hp & _).
  assert (exists t2, InsertBlockIndex (hdr_hashPrevBlock (di_header d)) t1 = (t2, prev_of t2 d) /\ reading D t2 /\
    mapBlockIndex t2 !! h = Some p /\
    (base_blob.IsNull (hdr_hashPrevBlock (di_header d)) = false -> is_Some (prev_of t2 d))) as (t2 & -> & R2 & Hp2 & Hpr).
  { unfold prev_of. destruct (base_blob.IsNull (hdr_hashPrevBlock (di_header d))) eqn:En.
    - exists t1. unfold InsertBlockIndex. rewrite En. by split_and!.
    - destruct (InsertBlockIndex_spec D t1 _ R1 (E2 h d Hd En) En ltac:(intros x e; by apply Hthere)) as (t2 & q & -> & R2 & Hq & Hk).
      exists t2. rewrite Hq. split; [done|]. split; [done|]. split; [by apply Hk|done]. }
  cbn [mbind option_bind]. rewrite (rd_blank _ _ R2 h p Hp2 HD). cbn [mbind option_bind].
  change (phashBlock (fill d (prev_of t2 d) (blank h))) with h.
  change (nBits (fill d (prev_of t2 d) (blank h))) with (hdr_nBits (di_header d)). rewrite (E3 h d Hd). cbn [negb].
  destruct (IH (h :: D) _ (fill_entry_spec D t2 h d p R2 Hd HD Hp2 Hpr) Hnd) as (t' & Et & R').
  - intros x e Hx. destruct (Hl x e ltac:(by right)) as [? ?]. split; [done|]. apply not_elem_of_cons. split; [|done].
    intros ->. apply Hh, list_elem_of_fmap. by exists (h, e).
  - exists t'. split; [done|]. cbn [fmap list_fmap fst]. rewrite reverse_cons, <- app_assoc. exact R'.
Qed.
End guts.

(** *** The loop over the heights *)

(** A block index without what the loop computes; the flag of a failed ancestor
    is all that the loop adds to the status. *)
Definition unloaded (b : CBlockIndex) : CBlockIndex :=
  set_nStatus 0 (set_totals 0 [] (set_linked 0 (nSequenceId b) (set_links (pprev b) (nHeight b) None b))).

Lemma unloaded_eq b b' : unloaded b = unloaded b' ->
  pprev b = pprev b' /\ nHeight b = nHeight b' /\ phashBlock b = phashBlock b' /\ nBits b = nBits b' /\ nTime b = nTime b' /\
  nTx b = nTx b' /\ nSequenceId b = nSequenceId b' /\ nFile b = nFile b'.
Proof.
  intros E. exact (conj (f_equal pprev E) (conj (f_equal nHeight E) (conj (f_equal phashBlock E) (conj (f_equal nBits E)
    (conj (f_equal nTime E) (conj (f_equal nTx E) (conj (f_equal nSequenceId E) (f_equal nFile E)))))))).
Qed.

Definition same_unloaded (m m' : index_map) : Prop := forall p, unloaded <$> m' !! p = unloaded <$> m !! p.

Lemma same_unloaded_lookup m m' p b : same_unloaded m m' -> m !! p = Some b ->
  exists b', m' !! p = Some b' /\ unloaded b' = unloaded b.
Proof. intros H Hp. specialize (H p). rewrite Hp in H. destruct (m' !! p) as [b'|]; [|done]. exists b'. split; [done|]. exact (inj Some _ _ H). Qed.
Lemma same_unloaded_sym m m' : same_unloaded m m' -> same_unloaded m' m.
Proof. intros H p. by rewrite H. Qed.

Lemma same_unloaded_links m m' : same_unloaded m m' -> links m = links m'.
Proof.
  intros H. apply map_eq. intros p. unfold links. rewrite !lookup_fmap. specialize (H p).
  destruct (m !! p) as [b|], (m' !! p) as [b'|]; cbn in *; try done. apply (inj Some), unloaded_eq in H as (-> & -> & _). done.
Qed.

Lemma IsValid_level b n : 0 <= n <= 7 -> n = Z.land n BLOCK_VALID_MASK ->
  IsValid b n = Some (negb (failed b) && (n <=? Z.land (nStatus b) BLOCK_VALID_MASK)).
Proof.
  intros Hn Hl. unfold IsValid, failed. assert (Z.land n (Z.lnot BLOCK_VALID_MASK) = 0) as ->.
  { rewrite Hl, <- Z.land_assoc. change (Z.land BLOCK_VALID_MASK (Z.lnot BLOCK_VALID_MASK)) with 0. apply Z.land_0_r. }
  cbn [negb Z.eqb]. by destruct (negb _).
Qed.

Definition parent_at (m : index_map) (b : CBlockIndex) : option CBlockIndex := q ← pprev b; m !! q.

Lemma parent_work_at m b : parent_work m b = from_option (fun c => val (nChainWork c)) 0 (parent_at m b).
Proof. unfold parent_work, parent_at. destruct (pprev b) as [q|]; [|done]. cbn. by destruct (m !! q). Qed.

(** Induction from the predecessor. *)
Lemma index_ind (m : index_map) (P : ptr -> CBlockIndex -> Prop) : index_wf m ->
  (forall p b, m !! p = Some b -> (forall q c, pprev b = Some q -> m !! q = Some c -> P q c) -> P p b) ->
  forall p b, m !! p = Some b -> P p b.
Proof.
  intros Hwf Hstep. assert (forall n p b, m !! p = Some b -> (Z.to_nat (nHeight b) < n)%nat -> P p b) as H.
  { induction n as [|n IH]; intros p b Hb Hn; [lia|]. apply Hstep; [done|]. intros q c Hq Hc. apply IH; [done|].
    destruct (wf_parent m Hwf p b q Hb Hq) as (c' & Hc' & Hh). assert (c' = c) as -> by congruence.
    pose proof (wf_height m Hwf q c Hc). lia. }
  intros p b Hb. by apply (H (S (Z.to_nat (nHeight b))) p b Hb); lia.
Qed.

Lemma parent_at_lookup m p b q : index_wf m -> m !! p = Some b -> pprev b = Some q ->
  exists c, m !! q = Some c /\ parent_at m b = Some c.
Proof. intros Hwf Hb Hq. destruct (wf_parent m Hwf p b q Hb Hq) as (c & Hc & _). exists c. split; [done|]. unfold parent_at. rewrite Hq. exact Hc. Qed.

Lemma path_txs_unloaded m m' p n : same_unloaded m m' -> path_txs m p n -> path_txs m' p n.
Proof.
  intros H Hp. induction Hp as [p b Hb Hq|p b q n Hb Hq Hp IH];
    destruct (same_unloaded_lookup _ _ p b H Hb) as (b' & Hb' & E); apply unloaded_eq in E as (Eq & _ & _ & _ & _ & <- & _).
  - apply path_genesis; [done|congruence].
  - eapply path_step; [done| |done]. congruence.
Qed.

Lemma parent_unloaded m m' p q : same_unloaded m m' -> parent m p q -> parent m' p q.
Proof. intros H. apply links_parent. by apply same_unloaded_links. Qed.
Lemma rtc_unloaded m m' p q : same_unloaded m m' -> rtc (parent m) p q -> rtc (parent m') p q.
Proof. intros H Hr. induction Hr as [|x y z Hxy _ IH]; [done|]. eapply rtc_l; [by apply (parent_unloaded m)|done]. Qed.

(** The index as the database gives it. *)
Record raw_ok (m : index_map) : Prop := {
  ro_index : index_wf m;
  ro_raw : forall p b, m !! p = Some b -> pskip b = None /\ nChainWork b = zero W /\ nChainTx b = 0 /\ nSequenceId b = 0;
  ro_bits : forall p b, m !! p = Some b -> in_range 32 (nBits b);
  ro_data : forall p b, m !! p = Some b -> 0 <= nTx b /\ (have_data b = true <-> nTx b <> 0);
  ro_level : forall p b, m !! p = Some b -> failed b = false ->
    (have_data b = true <-> 3 <= Z.land (nStatus b) BLOCK_VALID_MASK);
  ro_txs : txs_bounded m;
}.

Section second.
Context (t1 : BlockTree) (Hraw : raw_ok (heap t1))
  (Hmap : forall h p, mapBlockIndex t1 !! h = Some p <-> exists b, heap t1 !! p = Some b /\ phashBlock b = h).
Abbreviation m1 := (heap t1).

(** What the loop has made of the entry [p]. *)
Record entry_loaded (m : index_map) (p : ptr) (b : CBlockIndex) : Prop := {
  el_work : wf W (nChainWork b) /\ exists w, GetBlockProof (nBits b) = Some w /\
    val (nChainWork b) = (parent_work m b + val w) mod 2 ^ 256;
  el_time : nTime b <= nTimeMax b /\ forall c, parent_at m b = Some c -> nTimeMax c <= nTimeMax b;
  el_txs : nChainTx b = if nTx b =? 0 then 0 else
    match parent_at m b with None => nTx b | Some c => if nChainTx c =? 0 then 0 else u32 (nChainTx c + nTx b) end;
  el_skip : forall s, pskip b = Some s -> 0 < nHeight b /\ ancestor m1 p (GetSkipHeight (nHeight b)) s;
  el_status : exists b1, m1 !! p = Some b1 /\
    nStatus b = if negb (failed b1) && from_option failed false (parent_at m b)
                then Z.lor (nStatus b1) BLOCK_FAILED_CHILD else nStatus b1;
}.

Definition candidate (b : CBlockIndex) : Prop :=
  failed b = false /\ 3 <= Z.land (nStatus b) BLOCK_VALID_MASK /\ (nChainTx b <> 0 \/ pprev b = None).

(** The state after the entries of [D]. *)
Record loading (D : list ptr) (st : CChainState) : Prop := {
  lg_same : same_unloaded m1 (index_of st);
  lg_new : forall p, p ∉ D -> index_of st !! p = m1 !! p;
  lg_done : forall p b, index_of st !! p = Some b -> p ∈ D -> entry_loaded (index_of st) p b;
  lg_closed : forall p q, p ∈ D -> parent m1 p q -> q ∈ D;
  lg_map : mapBlockIndex (tree st) = mapBlockIndex t1;
  lg_best : forall p, pindexBestHeader (tree st) = Some p -> is_Some (index_of st !! p);
  lg_cand : sorted (work_less (index_of st)) (setBlockIndexCandidates st) /\
    forall p, p ∈ setBlockIndexCandidates st <-> p ∈ D /\ exists b, index_of st !! p = Some b /\ candidate b;
  lg_unlinked : NoDup (mapBlocksUnlinked st).*2 /\ forall o p, (o, p) ∈ mapBlocksUnlinked st -> p ∈ D /\
    exists b q, index_of st !! p = Some b /\ pprev b = o /\ o = Some q /\ nTx b <> 0 /\ nChainTx b = 0;
  lg_invalid : forall q, pindexBestInvalid st = Some q -> is_Some (index_of st !! q);
  lg_rest : chainActive st = [] /\ g_failed_blocks st = [] /\ pindexBestForkTip st = None /\ pindexBestForkBase st = None;
}.

Lemma loading_wf m : same_unloaded m1 m ->
  (forall p b s, m !! p = Some b -> pskip b = Some s -> 0 < nHeight b /\ ancestor m1 p (GetSkipHeight (nHeight b)) s) -> index_wf m.
Proof. intros H Hs. apply (index_wf_links m1); [by apply same_unloaded_links|by apply Hraw|done]. Qed.

Lemma loading_skip D st p b s : loading D st -> index_of st !! p = Some b -> pskip b = Some s ->
  0 < nHeight b /\ ancestor m1 p (GetSkipHeight (nHeight b)) s.
Proof.
  intros L Hb Hs. destruct (decide (p ∈ D)) as [Hin|Hout]; [by apply (el_skip _ _ _ (lg_done _ _ L p b Hb Hin))|].
  rewrite (lg_new _ _ L p Hout) in Hb. destruct (ro_raw _ Hraw p b Hb) as [E _]. congruence.
Qed.

Lemma loading_works D st : loading D st -> works_ok (index_of st).
Proof.
  intros L p b Hb. destruct (decide (p ∈ D)) as [Hin|Hout]; [apply (lg_done _ _ L p b Hb Hin)|].
  rewrite (lg_new _ _ L p Hout) in Hb. destruct (ro_raw _ Hraw p b Hb) as (_ & -> & _). apply wf_zero.
Qed.

Lemma update_at p f st b : block_at st p = Some b -> index_of (update p f st) = <[p := f b]> (index_of st).
Proof.
  intros Hb. apply map_eq. intros q. cbn. destruct (decide (q = p)) as [->|Hq].
  - unfold block_at, index_of in *. by rewrite lookup_alter_eq, Hb, lookup_insert_eq.
  - by rewrite lookup_alter_ne, lookup_insert_ne by done.
Qed.

(** The entry after the loop, its skip pointer apart. *)
Definition totals (b : CBlockIndex) (c : option CBlockIndex) (w : list Z) : CBlockIndex :=
  set_linked (chain_txs b c).1 (nSequenceId b) (set_totals (from_option (fun c => Z.max (nTimeMax c) (nTime b)) (nTime b) c)
    (add (from_option nChainWork (of_u64 W 0) c) w) b).
Definition loaded (b : CBlockIndex) (c : option CBlockIndex) (w : list Z) : CBlockIndex :=
  if negb (failed b) && from_option failed false c then add_status BLOCK_FAILED_CHILD (totals b c w) else totals b c w.
Definition candidateb (b : CBlockIndex) : bool :=
  (negb (failed b) && (BLOCK_VALID_TRANSACTIONS <=? Z.land (nStatus b) BLOCK_VALID_MASK)) && (negb (nChainTx b =? 0) || bool_decide (pprev b = None)).

Lemma candidateb_spec b : candidateb b = true <-> candidate b.
Proof.
  unfold candidateb, candidate. change BLOCK_VALID_TRANSACTIONS with 3. rewrite !andb_true_iff, orb_true_iff, !negb_true_iff, Z.leb_le, Z.eqb_neq, bool_decide_eq_true. tauto.
Qed.

Lemma loaded_fields b c w : pprev (loaded b c w) = pprev b /\ nHeight (loaded b c w) = nHeight b /\ pskip (loaded b c w) = pskip b /\
  nSequenceId (loaded b c w) = nSequenceId b /\ unloaded (loaded b c w) = unloaded b /\ nBits (loaded b c w) = nBits b /\
  nTime (loaded b c w) = nTime b /\ nTx (loaded b c w) = nTx b.
Proof. unfold loaded. by destruct (negb _ && _). Qed.

Record entry_step (st st' : CChainState) (p : ptr) (b3 : CBlockIndex) (cand : list ptr) (waits : bool) : Prop := {
  es_index : index_of st' = <[p := b3]> (index_of st);
  es_map : mapBlockIndex (tree st') = mapBlockIndex (tree st);
  es_best : pindexBestHeader (tree st') = pindexBestHeader (tree st) \/ pindexBestHeader (tree st') = Some p;
  es_cand : setBlockIndexCandidates st' = cand;
  es_unlinked : mapBlocksUnlinked st' = if waits then mapBlocksUnlinked st ++ [(pprev b3, p)] else mapBlocksUnlinked st;
  es_invalid : pindexBestInvalid st' = pindexBestInvalid st \/ pindexBestInvalid st' = Some p;
  es_rest : chainActive st' = chainActive st /\ g_failed_blocks st' = g_failed_blocks st /\
    pindexBestForkTip st' = pindexBestForkTip st /\ pindexBestForkBase st' = pindexBestForkBase st;
}.

Lemma load_entry_step D st p b c w : loading D st -> p ∉ D -> index_of st !! p = Some b ->
  (forall q, pprev b = Some q -> is_Some (index_of st !! q)) -> c = parent_at (index_of st) b -> GetBlockProof (nBits b) = Some w ->
  let b2 := loaded b c w in let m2 := <[p := b2]> (index_of st) in
  exists st' skip, load_entry p st = Some st' /\
    entry_step st st' p (set_links (pprev b) (nHeight b) skip b2)
      (if candidateb b2 then set_insert (work_less m2) p (setBlockIndexCandidates st) else setBlockIndexCandidates st) (chain_txs b c).2 /\
    (forall s, skip = Some s -> 0 < nHeight b /\ ancestor m1 p (GetSkipHeight (nHeight b)) s).
Proof.
  intros L Hp Hb Hpr Hc Hw b2 m2. destruct (loaded_fields b c w) as (F1 & F2 & F3 & F4 & F5 & F6 & F7 & F8). fold b2 in F1, F2, F3, F4, F5, F6, F7, F8.
  assert (m1 !! p = Some b) as Hb1 by (rewrite <- (lg_new _ _ L p Hp); done).
  destruct (ro_raw _ Hraw p b Hb1) as (Hnoskip & _).
  assert (same_unloaded m1 m2) as Hsame.
  { intros q. unfold m2. destruct (decide (q = p)) as [->|Hq]; [by rewrite lookup_insert_eq, Hb1; cbn; rewrite F5|].
    rewrite lookup_insert_ne by done. apply L. }
  assert (index_wf m2) as Hwf2.
  { apply loading_wf; [done|]. intros q e s [[<- <-]|[Hq He]]%lookup_insert_Some Hs; [congruence|]. by apply (loading_skip D st). }
  assert (exists skip, BuildSkip m2 b2 = Some skip /\ forall s, skip = Some s -> 0 < nHeight b /\ ancestor m1 p (GetSkipHeight (nHeight b)) s)
    as (skip & Hskip & Hanc).
  { unfold BuildSkip. rewrite F1, F2, F3. destruct (pprev b) as [q|] eqn:Eq; [|exists None; rewrite Hnoskip; by split].
    assert (m2 !! p = Some b2) as Hm2 by apply lookup_insert_eq.
    destruct (wf_parent m2 Hwf2 p b2 q Hm2) as (d & Hd & Hdh); [congruence|]. rewrite F2 in Hdh.
    pose proof (wf_height m2 Hwf2 q d Hd) as Hd0. pose proof (GetSkipHeight_range (nHeight b) ltac:(lia)) as Hr.
    destruct (GetAncestor_Some m2 Hwf2 q d (GetSkipHeight (nHeight b)) Hd) as (s & e & -> & Ha & _); [lia|].
    eexists. split; [done|]. intros s' [= <-]. split; [lia|].
    apply (links_ancestor m2); [symmetry; by apply same_unloaded_links|].
    eapply ancestor_trans; [|exact Ha]. split; [apply rtc_once; exists b2; by rewrite F1|]. unfold height. rewrite Hd. done. }
  unfold load_entry, block_at. rewrite Hb. cbn [mbind option_bind].
  assert ((match pprev b with None => Some None | Some q => c ← index_of st !! q; Some (Some c) end) = Some c) as ->.
  { rewrite Hc. unfold parent_at. destruct (pprev b) as [q|]; [|done]. destruct (Hpr q eq_refl) as [d Hd]. cbn. by rewrite Hd. }
  cbn [mbind option_bind]. rewrite Hw. cbn [mbind option_bind].
  rewrite (surjective_pairing (chain_txs b c)). cbn beta iota. cbn [fst snd].
  fold (totals b c w). change (failed (totals b c w)) with (failed b). fold (loaded b c w). fold b2.
  set (st1 := if (chain_txs b c).2 then _ else st).
  assert (index_of st1 = index_of st) as Ei1 by (by subst st1; destruct (chain_txs b c).2).
  assert (index_of (update p (fun _ => b2) st1) = m2) as Ei2.
  { unfold m2. rewrite <- Ei1. apply (update_at p (fun _ => b2) st1 b). unfold block_at. by rewrite Ei1. }
  set (st2 := if negb (failed b) && _ then _ else _).
  assert (index_of st2 = m2 /\ mapBlockIndex (tree st2) = mapBlockIndex (tree st) /\
    pindexBestHeader (tree st2) = pindexBestHeader (tree st) /\ setBlockIndexCandidates st2 = setBlockIndexCandidates st /\
    mapBlocksUnlinked st2 = (if (chain_txs b c).2 then mapBlocksUnlinked st ++ [(pprev b2, p)] else mapBlocksUnlinked st) /\
    pindexBestInvalid st2 = pindexBestInvalid st /\ chainActive st2 = chainActive st /\ g_failed_blocks st2 = g_failed_blocks st /\
    pindexBestForkTip st2 = pindexBestForkTip st /\ pindexBestForkBase st2 = pindexBestForkBase st)
    as (G1 & G2 & G3 & G4 & G5 & G6 & G7 & G8 & G9 & G10).
  { rewrite F1. subst st2. destruct (negb (failed b) && _); cbn; rewrite ?Ei2; subst st1; destruct (chain_txs b c).2; by split_and!. }
  clearbody st2. rewrite (IsValid_level b2 BLOCK_VALID_TRANSACTIONS) by done. cbn [mbind option_bind]. fold (candidateb b2).
  set (st3 := if candidateb b2 then insert_candidate p st2 else st2).
  assert (index_of st3 = m2 /\ tree st3 = tree st2 /\ mapBlocksUnlinked st3 = mapBlocksUnlinked st2 /\
    pindexBestInvalid st3 = pindexBestInvalid st /\ chainActive st3 = chainActive st /\ g_failed_blocks st3 = g_failed_blocks st /\
    pindexBestForkTip st3 = pindexBestForkTip st /\ pindexBestForkBase st3 = pindexBestForkBase st /\
    setBlockIndexCandidates st3 =
      if candidateb b2 then set_insert (work_less m2) p (setBlockIndexCandidates st) else setBlockIndexCandidates st)
    as (K1 & K2 & K3 & K4 & K5 & K6 & K7 & K8 & K9).
  { subst st3. destruct (candidateb b2); [|by split_and!]. split_and!; try done. cbn. by rewrite G1, G4. }
  clearbody st3.
  assert (exists v, (if failed b2 then more_work_than st3 b2 (pindexBestInvalid st3) else Some false) = Some v) as [v ->].
  { destruct (failed b2); [|by eexists]. unfold more_work_than, block_at. rewrite K4, K1.
    destruct (pindexBestInvalid st) as [q|] eqn:Eq; [|by eexists]. destruct (lg_invalid _ _ L q Eq) as [d Hd].
    assert (is_Some (m2 !! q)) as [d' ->]; [|by eexists]. unfold m2. apply lookup_insert_is_Some'. right. by exists d. }
  cbn [mbind option_bind]. set (st4 := if v then _ else st3).
  assert (index_of st4 = m2 /\ tree st4 = tree st2 /\ mapBlocksUnlinked st4 = mapBlocksUnlinked st2 /\
    setBlockIndexCandidates st4 = setBlockIndexCandidates st3 /\
    (pindexBestInvalid st4 = pindexBestInvalid st \/ pindexBestInvalid st4 = Some p) /\
    chainActive st4 = chainActive st /\ g_failed_blocks st4 = g_failed_blocks st /\
    pindexBestForkTip st4 = pindexBestForkTip st /\ pindexBestForkBase st4 = pindexBestForkBase st)
    as (J1 & J2 & J3 & J4 & J5 & J6 & J7 & J8 & J9) by (subst st4; destruct v; split_and!; auto).
  clearbody st4. rewrite J1, Hskip. cbn [mbind option_bind]. rewrite (IsValid_level b2 BLOCK_VALID_TREE) by done. cbn [mbind option_bind].
  set (st5 := update p _ st4). assert (index_of st5 = <[p := set_links (pprev b) (nHeight b) skip b2]> (index_of st)) as Ei5.
  { unfold st5. rewrite (update_at p _ st4 b2) by (unfold block_at; rewrite J1; apply lookup_insert_eq).
    rewrite J1, F1, F2. unfold m2. apply insert_insert_eq. }
  eexists _, skip. split; [reflexivity|]. split; [|done].
  rewrite F1 in G5. destruct (negb (failed b2) && _ && _); split; try done; cbn;
    rewrite ?J2, ?J3, ?J4, ?G2, ?G3, ?K3, ?G5, ?K9; auto; rewrite J2, G3; auto.
Qed.

(** The frame: an entry only depends on its predecessor. *)
Lemma parent_at_insert m p b3 e : (forall q, pprev e = Some q -> q <> p) -> parent_at (<[p := b3]> m) e = parent_at m e.
Proof. intros H. unfold parent_at. destruct (pprev e) as [q|]; [|done]. cbn. by rewrite lookup_insert_ne by (apply not_eq_sym, H; done). Qed.

Lemma entry_loaded_insert m p b3 r e : (forall q, pprev e = Some q -> q <> p) -> entry_loaded m r e -> entry_loaded (<[p := b3]> m) r e.
Proof.
  intros H [E1 E2 E3 E4 E5]. pose proof (parent_at_insert m p b3 e H) as Ep.
  split; try done; rewrite ?parent_work_at, ?Ep; try done. by rewrite <- parent_work_at.
Qed.

(** The new entry. *)
Lemma entry_loaded_new m p b c w skip : m1 !! p = Some b -> c = parent_at m b -> (forall q, pprev b = Some q -> q <> p) -> works_ok m ->
  GetBlockProof (nBits b) = Some w -> wf W w ->
  (forall s, skip = Some s -> 0 < nHeight b /\ ancestor m1 p (GetSkipHeight (nHeight b)) s) ->
  let b3 := set_links (pprev b) (nHeight b) skip (loaded b c w) in entry_loaded (<[p := b3]> m) p b3.
Proof.
  intros Hb -> Hne Hw Hp Hww Hskip b3. destruct (ro_raw _ Hraw p b Hb) as (_ & _ & Htx0 & _). destruct (ro_data _ Hraw p b Hb) as [Htx _].
  assert (parent_at (<[p := b3]> m) b3 = parent_at m b) as Ep.
  { rewrite parent_at_insert by done. done. }
  assert (wf W (from_option nChainWork (of_u64 W 0) (parent_at m b)) /\
    val (from_option nChainWork (of_u64 W 0) (parent_at m b)) = parent_work m b) as [Hcw Hcv].
  { rewrite parent_work_at. unfold parent_at. destruct (pprev b) as [q|]; cbn; [|split; [apply wf_of_u64; lia|done]].
    destruct (m !! q) as [d|] eqn:Hd; cbn; [split; [by apply (Hw q)|done]|split; [apply wf_of_u64; lia|done]]. }
  assert (nChainWork b3 = add (from_option nChainWork (of_u64 W 0) (parent_at m b)) w /\ nBits b3 = nBits b /\ nTime b3 = nTime b /\
    nTx b3 = nTx b /\ nChainTx b3 = (chain_txs b (parent_at m b)).1 /\
    nTimeMax b3 = from_option (fun c => Z.max (nTimeMax c) (nTime b)) (nTime b) (parent_at m b)) as (F1 & F2 & F3 & F4 & F5 & F6)
    by (unfold b3, loaded; by destruct (negb _ && _)).
  split.
  - rewrite F1, F2. split; [by apply (wf_add (WIDTH := W))|]. exists w. split; [done|].
    rewrite (val_add (WIDTH := W)), Hcv by done. rewrite !parent_work_at, Ep. done.
  - rewrite F3, F6, Ep. destruct (parent_at m b) as [d|]; cbn; [split; [lia|]; intros ? [= <-]; lia|split; [lia|done]].
  - rewrite F5, F4, Ep. unfold chain_txs. rewrite Z.gtb_ltb. destruct (Z.ltb_spec 0 (nTx b)), (Z.eqb_spec (nTx b) 0); try lia.
    + destruct (parent_at m b) as [d|]; [|done]. by destruct (nChainTx d =? 0).
    + done.
  - done.
  - exists b. split; [done|]. rewrite Ep. unfold b3, loaded. by destruct (negb _ && _).
Qed.

Lemma loading_closed_ne D st p r e q : loading D st -> p ∉ D -> r ∈ D -> index_of st !! r = Some e -> pprev e = Some q -> q <> p.
Proof.
  intros L Hp Hr He Hq ->. apply Hp, (lg_closed _ _ L r p Hr).
  destruct (same_unloaded_lookup _ _ r e (same_unloaded_sym _ _ (lg_same _ _ L)) He) as (e1 & He1 & Eu).
  exists e1. split; [done|]. apply unloaded_eq in Eu as (-> & _). done.
Qed.

Lemma candidates_insert D st p b2 b3 : loading D st -> p ∉ D -> wf W (nChainWork b2) -> nChainWork b3 = nChainWork b2 ->
  nSequenceId b3 = nSequenceId b2 ->
  let l := if candidateb b2 then set_insert (work_less (<[p := b2]> (index_of st))) p (setBlockIndexCandidates st)
           else setBlockIndexCandidates st in
  sorted (work_less (<[p := b3]> (index_of st))) l /\
  forall x, x ∈ l <-> (x = p /\ candidateb b2 = true) \/ x ∈ setBlockIndexCandidates st.
Proof.
  intros L Hp Hw Ew Es l. destruct (lg_cand _ _ L) as [Hs Hin].
  assert (forall x, x ∈ setBlockIndexCandidates st -> x <> p /\ is_Some (index_of st !! x)) as Hold.
  { intros x Hx. apply Hin in Hx as (Hx & e & He & _). split; [congruence|by exists e]. }
  set (m2 := <[p := b2]> (index_of st)) in *. set (m3 := <[p := b3]> (index_of st)).
  assert (forall x y, work_less m3 x y = work_less m2 x y) as Hag.
  { intros x y. apply work_less_agree. intros r _. unfold m2, m3. destruct (decide (r = p)) as [->|Hr];
      [rewrite !lookup_insert_eq; cbn; by rewrite Ew, Es|by rewrite !lookup_insert_ne]. }
  assert (sorted (work_less m2) (setBlockIndexCandidates st)) as Hs2.
  { apply (sorted_agree (work_less (index_of st))); [|done]. intros x y Hx Hy. apply work_less_agree.
    intros r [->| ->]; unfold m2; rewrite lookup_insert_ne; try done; apply not_eq_sym; by apply Hold. }
  assert (works_ok m2) as Hw2.
  { intros x e [[<- <-]|[_ He]]%lookup_insert_Some; [done|]. by apply (loading_works D st L x). }
  pose proof (work_less_order m2 Hw2) as O.
  assert (Forall (fun x => is_Some (m2 !! x)) (setBlockIndexCandidates st)) as Hall.
  { apply Forall_forall. intros x Hx. destruct (Hold x Hx). unfold m2. by rewrite lookup_insert_ne by done. }
  assert (is_Some (m2 !! p)) as Hp2 by (unfold m2; by rewrite lookup_insert_eq).
  split.
  - apply (sorted_agree (work_less m2)); [done|]. subst l. destruct (candidateb b2); [|done]. by apply (set_insert_sorted _ _ O).
  - intros x. subst l. destruct (candidateb b2); [rewrite (elem_of_set_insert _ _ O) by done|]; naive_solver.
Qed.

Lemma load_entry_loading D st p b : loading D st -> p ∉ D -> m1 !! p = Some b -> (forall q, pprev b = Some q -> q ∈ D) ->
  exists st', load_entry p st = Some st' /\ loading (p :: D) st'.
Proof.
  intros L Hp Hb1 Hpar. assert (index_of st !! p = Some b) as Hb by (by rewrite (lg_new _ _ L p Hp)).
  assert (forall q, pprev b = Some q -> q <> p) as Hne by (intros q Hq ->; by apply Hp, Hpar).
  assert (forall q, pprev b = Some q -> is_Some (index_of st !! q)) as Hpr.
  { intros q Hq. destruct (wf_parent _ (ro_index _ Hraw) p b q Hb1 Hq) as (d & Hd & _).
    destruct (same_unloaded_lookup _ _ q d (lg_same _ _ L) Hd) as (d' & Hd' & _). by exists d'. }
  destruct (GetBlockProof_spec (nBits b)) as (w & Hw & Hww & _); [by apply (ro_bits _ Hraw p)|].
  set (c := parent_at (index_of st) b).
  destruct (load_entry_step D st p b c w L Hp Hb Hpr eq_refl Hw) as (st' & skip & E & S & Hskip).
  exists st'. split; [done|]. set (b2 := loaded b c w) in *. set (b3 := set_links (pprev b) (nHeight b) skip b2) in *.
  destruct S as [S1 S2 S3 S4 S5 S6 (S7 & S8 & S9 & S10)].
  pose proof (entry_loaded_new (index_of st) p b c w skip Hb1 eq_refl Hne (loading_works D st L) Hw Hww Hskip) as Hnew.
  change (entry_loaded (<[p := b3]> (index_of st)) p b3) in Hnew.
  destruct (loaded_fields b c w) as (F1 & F2 & F3 & F4 & F5 & F6 & F7 & F8).
  assert (unloaded b3 = unloaded b) as Eun by (unfold b3, b2, loaded; by destruct (negb _ && _)).
  assert (forall q, is_Some (index_of st !! q) -> is_Some (<[p := b3]> (index_of st) !! q)) as Hdom
    by (intros q Hq; apply lookup_insert_is_Some'; by right).
  assert (forall r e, r ∈ D -> index_of st !! r = Some e -> r <> p /\ <[p := b3]> (index_of st) !! r = Some e) as Hkeep.
  { intros r e Hr He. assert (r <> p) by congruence. by rewrite lookup_insert_ne. }
  split; rewrite ?S1, ?S2; try done.
  - intros q. destruct (decide (q = p)) as [->|Hq]; [by rewrite lookup_insert_eq, Hb1; cbn; rewrite Eun|].
    rewrite lookup_insert_ne by done. apply L.
  - intros q Hq. apply not_elem_of_cons in Hq as [Hqp Hq]. rewrite lookup_insert_ne by done. by apply L.
  - intros r e Hr [->|Hin]%elem_of_cons; [by rewrite lookup_insert_eq in Hr; injection Hr as <-|].
    assert (r <> p) by congruence. rewrite lookup_insert_ne in Hr by done.
    apply entry_loaded_insert; [|by apply (lg_done _ _ L)]. intros q. by apply (loading_closed_ne D st p r e).
  - intros r q [->|Hr]%elem_of_cons Hpq; right; [|by apply (lg_closed _ _ L r)].
    destruct Hpq as (b' & Hb' & Hq). apply Hpar. congruence.
  - apply L.
  - intros h. destruct S3 as [->| ->]; [intros Hh; by apply Hdom, L|]. intros [= <-]. by rewrite lookup_insert_eq.
  - rewrite S4. destruct (candidates_insert D st p b2 b3 L Hp) as [Hs Hin];
      [apply (el_work _ _ _ Hnew)|done..|]. split; [done|]. intros r. rewrite Hin, (proj2 (lg_cand _ _ L)), elem_of_cons.
    assert (candidateb b2 = candidateb b3) as Ecb by (unfold b3, b2, loaded; by destruct (negb _ && _)). split.
    + intros [[-> Hcb]|(Hr & e & He & Hcr)].
      * split; [by left|]. exists b3. rewrite lookup_insert_eq. split; [done|]. apply candidateb_spec. congruence.
      * split; [by right|]. exists e. split; [by apply Hkeep|done].
    + intros ([->|Hr] & e & He & Hcr).
      * left. split; [done|]. rewrite lookup_insert_eq in He. injection He as <-. apply candidateb_spec in Hcr. congruence.
      * right. split; [done|]. exists e. split; [|done]. assert (r <> p) by congruence. by rewrite lookup_insert_ne in He.
  - destruct (lg_unlinked _ _ L) as [Hnd Hun]. rewrite S5.
    assert (forall o r, (o, r) ∈ mapBlocksUnlinked st -> r ∈ p :: D /\ exists e q, <[p := b3]> (index_of st) !! r = Some e /\
      pprev e = o /\ o = Some q /\ nTx e <> 0 /\ nChainTx e = 0) as Hold.
    { intros o r Hor. destruct (Hun o r Hor) as (Hr & e & q & He & ?). split; [by right|]. exists e, q.
      by destruct (Hkeep r e Hr He). }
    destruct (chain_txs b c).2 eqn:Ewait; [|by split].
    assert (exists q, pprev b = Some q /\ nTx b <> 0 /\ (chain_txs b c).1 = 0) as (q & Eq & Hn & Ec).
    { unfold chain_txs in Ewait |- *. rewrite Z.gtb_ltb in Ewait |- *. destruct (Z.ltb_spec 0 (nTx b)); [|done].
      unfold c, parent_at in Ewait |- *. destruct (pprev b) as [q|]; [|done]. exists q.
      cbn [mbind option_bind] in *. destruct (index_of st !! q) as [d|]; [|done]. destruct (nChainTx d =? 0); [|done]. split_and!; [done|lia|done]. }
    split.
    + rewrite fmap_app. apply NoDup_app. split; [done|]. split; [|apply NoDup_singleton].
      intros x Hx Hx'. apply list_elem_of_singleton in Hx'. cbn in Hx'. subst x.
      apply list_elem_of_fmap in Hx as ([o r] & -> & Hor). by apply Hun in Hor as [? _].
    + intros o r. rewrite elem_of_app, list_elem_of_singleton. intros [Hor|[= -> ->]]; [by apply Hold|].
      split; [left|]. exists b3, q. rewrite lookup_insert_eq. split; [done|]. split; [done|]. split; [done|].
      assert (nTx b3 = nTx b /\ nChainTx b3 = (chain_txs b c).1) as [-> ->] by (unfold b3, b2, loaded; by destruct (negb _ && _)). done.
  - intros q. destruct S6 as [->| ->]; [intros Hq; by apply Hdom, (lg_invalid _ _ L)|]. intros [= <-]. by rewrite lookup_insert_eq.
  - destruct (lg_rest _ _ L) as (R1 & R2 & R3 & R4). split_and!; congruence.
Qed.

(** The whole loop. *)
Lemma load_entries_loading l D st : loading D st -> NoDup l -> (forall p, p ∈ l -> p ∉ D /\ is_Some (m1 !! p)) ->
  (forall l1 p l2 q, l = l1 ++ p :: l2 -> parent m1 p q -> q ∈ D \/ q ∈ l1) ->
  exists st', load_entries l st = Some st' /\ loading (reverse l ++ D) st'.
Proof.
  revert D st. induction l as [|p l IH]; intros D st L Hnd Hl Hpar; [by exists st|].
  apply NoDup_cons in Hnd as [Hp Hnd]. destruct (Hl p ltac:(left)) as [HD [b Hb]]. cbn [load_entries].
  destruct (load_entry_loading D st p b L HD Hb) as (st1 & -> & L1).
  { intros q Hq. destruct (Hpar [] p l q eq_refl) as [|Hin]; [by exists b|done|by apply not_elem_of_nil in Hin]. }
  cbn [mbind option_bind]. destruct (IH (p :: D) st1 L1 Hnd) as (st2 & E2 & L2).
  - intros r Hr. destruct (Hl r ltac:(by right)). split; [|done]. apply not_elem_of_cons. split; [|done]. by intros ->.
  - intros l1 r l2 q -> Hq. destruct (Hpar (p :: l1) r l2 q eq_refl Hq) as [?|[->|?]%elem_of_cons]; [left; by right|left; left|by right].
  - exists st2. split; [done|]. rewrite reverse_cons, <- app_assoc. exact L2.
Qed.

Lemma with_heights_spec m l : (forall h p, (h, p) ∈ l -> is_Some (m !! p)) ->
  exists r, with_heights m l = Some r /\ r.*2 = l.*2 /\ forall x, x ∈ r -> exists b, m !! x.2 = Some b /\ x.1 = nHeight b.
Proof.
  induction l as [|[h p] l IH]; intros Hl; [exists []; split_and!; [done..|intros x Hx; by apply not_elem_of_nil in Hx]|].
  cbn [with_heights]. destruct (Hl h p ltac:(left)) as [b Hb]. rewrite Hb. cbn [mbind option_bind].
  destruct IH as (r & -> & Er & Hr); [intros h' p' Hin; apply (Hl h'); by right|]. cbn [mbind option_bind].
  eexists. split; [done|]. split; [cbn; by rewrite Er|]. intros x [->|Hx]%elem_of_cons; [by exists b|by apply Hr].
Qed.

#[local] Instance pair_le_trans : Transitive pair_le.
Proof. intros x y z. unfold pair_le. lia. Qed.
#[local] Instance pair_le_total : Total pair_le.
Proof. intros x y. unfold pair_le. lia. Qed.

(** What comes before a block in the order of the heights. *)
Lemma sorted_parents (v : list (Z * ptr)) : index_wf m1 -> (forall x, x ∈ v -> exists b, m1 !! x.2 = Some b /\ x.1 = nHeight b) ->
  (forall p, is_Some (m1 !! p) -> p ∈ v.*2) ->
  forall l1 p l2 q, (merge_sort pair_le v).*2 = l1 ++ p :: l2 -> parent m1 p q -> q ∈ l1.
Proof.
  intros Hwf Hv Hall l1 p l2 q E (b & Hb & Hq). pose proof (StronglySorted_merge_sort pair_le v) as Hs.
  pose proof (merge_sort_Permutation pair_le v) as Hperm. set (s := merge_sort pair_le v) in *.
  apply fmap_app_inv in E as (s1 & s2 & E1 & E2 & Es). symmetry in E2.
  destruct s2 as [|[h p'] s2]; [done|]. cbn in E2. injection E2 as -> E2.
  destruct (wf_parent _ Hwf p b q Hb Hq) as (c & Hc & Hh).
  assert (forall x, x ∈ s -> exists e, m1 !! x.2 = Some e /\ x.1 = nHeight e) as Hs' by (intros x Hx; apply Hv; by rewrite <- Hperm).
  assert (q ∈ s.*2) as Hin.
  { rewrite Hperm. apply Hall. by exists c. }
  rewrite Es in Hin, Hs, Hs'. rewrite fmap_app, elem_of_app in Hin. rewrite E1. destruct Hin as [?|Hin]; [done|]. exfalso.
  destruct (Hs' (h, p)) as (b' & Hb' & Eh); [apply elem_of_app; right; left|]. cbn in Hb', Eh. assert (b' = b) as -> by congruence.
  apply StronglySorted_app_1_r in Hs. apply StronglySorted_inv in Hs as [_ Hf]. rewrite Forall_forall in Hf.
  cbn in Hin. apply elem_of_cons in Hin as [->|Hin]; [assert (c = b) as -> by congruence; lia|].
  apply list_elem_of_fmap in Hin as ([h' q'] & Eq & Hin). cbn in Eq. subst q'.
  destruct (Hs' (h', q)) as (c' & Hc' & Eh'); [apply elem_of_app; right; by right|]. cbn in Hc', Eh'.
  assert (c' = c) as -> by congruence. pose proof (Hf _ Hin) as Hle. unfold pair_le in Hle. cbn in Hle. lia.
Qed.

(** *** The state after the loop *)

Section all.
Context (D : list ptr) (st : CChainState) (L : loading D st) (Hall : forall p, is_Some (m1 !! p) -> p ∈ D).

Lemma loaded_index_wf : index_wf (index_of st).
Proof using Hraw L. apply loading_wf; [apply L|]. intros p b s. by apply (loading_skip D). Qed.

Lemma loaded_at p b : index_of st !! p = Some b -> entry_loaded (index_of st) p b.
Proof using Hraw L Hall.
  intros Hb. apply (lg_done _ _ L); [done|]. apply Hall.
  destruct (same_unloaded_lookup _ _ p b (same_unloaded_sym _ _ (lg_same _ _ L)) Hb) as (b1 & Hb1 & _). by exists b1.
Qed.

Lemma loaded_raw p b : index_of st !! p = Some b -> exists b1, m1 !! p = Some b1 /\ unloaded b = unloaded b1 /\
  have_data b = have_data b1 /\ Z.land (nStatus b) BLOCK_VALID_MASK = Z.land (nStatus b1) BLOCK_VALID_MASK /\
  failed b = failed b1 || from_option failed false (parent_at (index_of st) b) /\
  (nStatus b = nStatus b1 \/ nStatus b = Z.lor (nStatus b1) BLOCK_FAILED_CHILD).
Proof using Hraw L Hall.
  intros Hb. destruct (el_status _ _ _ (loaded_at p b Hb)) as (b1 & Hb1 & Es). exists b1. split; [done|]. split.
  { destruct (same_unloaded_lookup _ _ p b (same_unloaded_sym _ _ (lg_same _ _ L)) Hb) as (b' & Hb' & <-). congruence. }
  rewrite !have_data_bit, !failed_bits, Es. destruct (negb (failed b1)) eqn:En, (from_option failed false (parent_at (index_of st) b)); cbn [andb].
  1: { rewrite Z.land_lor_distr_l, !Z.lor_spec. change (Z.land BLOCK_FAILED_CHILD BLOCK_VALID_MASK) with 0. rewrite Z.lor_0_r.
       change (Z.testbit BLOCK_FAILED_CHILD 3) with false. change (Z.testbit BLOCK_FAILED_CHILD 6) with true.
       rewrite !orb_true_r, orb_false_r. split_and!; [done..|by right]. }
  all: rewrite ?orb_false_r; split_and!; auto.
  apply negb_false_iff in En. rewrite failed_bits in En. by rewrite En.
Qed.

(** Exactly the blocks with a failed ancestor are failed. *)
Lemma loaded_failed p b : index_of st !! p = Some b ->
  failed b = true <-> exists r c, rtc (parent m1) p r /\ m1 !! r = Some c /\ failed c = true.
Proof using Hraw L Hall.
  revert p b. apply index_ind; [apply loaded_index_wf|]. intros p b Hb IH.
  destruct (loaded_raw p b Hb) as (b1 & Hb1 & Eu & _ & _ & -> & _). apply unloaded_eq in Eu as (Eq & _).
  rewrite orb_true_iff. split.
  - intros [Hf|Hf]; [exists p, b1; by split; [apply rtc_refl|]|].
    destruct (pprev b) as [q|] eqn:Hq; [|unfold parent_at in Hf; by rewrite Hq in Hf].
    destruct (parent_at_lookup _ p b q loaded_index_wf Hb Hq) as (c & Hc & E). rewrite E in Hf. cbn in Hf.
    apply (IH q c eq_refl Hc) in Hf as (r & d & Hr & Hd). exists r, d. split; [|done].
    eapply rtc_l; [|exact Hr]. by exists b1.
  - intros (r & c & Hr & Hc & Hf). apply rtc_inv in Hr as [->|(q & (b1' & Hb1' & Hq) & Hr)]; [left; congruence|]. right.
    assert (b1' = b1) as -> by congruence. rewrite <- Eq in Hq.
    destruct (parent_at_lookup _ p b q loaded_index_wf Hb Hq) as (d & Hd & ->). cbn. apply (IH q d Hq Hd). by exists r, c.
Qed.

Lemma loaded_valid p : is_Some (m1 !! p) -> valid (index_of st) p <-> valid m1 p.
Proof using Hraw L Hall.
  intros Hp. split; intros Hv r b Hr Hb.
  - destruct (same_unloaded_lookup _ _ r b (lg_same _ _ L) Hb) as (b' & Hb' & _).
    destruct (Hv r b') as [Hf Hd]; [by apply (rtc_unloaded m1); [apply L|]|done|].
    destruct (loaded_raw r b' Hb') as (b1 & Hb1 & _ & E1 & _ & E2 & _). assert (b1 = b) as -> by congruence.
    rewrite E2 in Hf. apply orb_false_iff in Hf as [Hf _]. split; [done|congruence].
  - apply (rtc_unloaded _ m1) in Hr; [|apply same_unloaded_sym, L]. destruct (loaded_raw r b Hb) as (b1 & Hb1 & _ & -> & _).
    split; [|by apply (Hv r b1)]. destruct (failed b) eqn:Ef; [|done].
    apply (loaded_failed r b Hb) in Ef as (x & c & Hx & Hc & Hf). destruct (Hv x c) as [Hf' _]; [by etrans|done|congruence].
Qed.

(** The number of transactions, and when it is there. *)
Lemma loaded_txs p b : index_of st !! p = Some b -> nChainTx b <> 0 -> nTx b <> 0 /\ path_txs (index_of st) p (nChainTx b).
Proof using Hraw L Hall.
  revert p b. apply (index_ind _ (fun p b => nChainTx b <> 0 -> nTx b <> 0 /\ path_txs (index_of st) p (nChainTx b)));
    [apply loaded_index_wf|]. intros p b Hb IH Hn. pose proof (el_txs _ _ _ (loaded_at p b Hb)) as Et.
  destruct (Z.eqb_spec (nTx b) 0) as [E0|E0]; [congruence|]. split; [done|]. destruct (pprev b) as [q|] eqn:Hq.
  - destruct (parent_at_lookup _ p b q loaded_index_wf Hb Hq) as (c & Hc & E). rewrite E in Et.
    destruct (Z.eqb_spec (nChainTx c) 0) as [Ec|Ec]; [congruence|]. destruct (IH q c eq_refl Hc Ec) as [_ Hpath].
    pose proof (path_step _ p b q _ Hb Hq Hpath) as Hp. rewrite Et, wrap_small; [done|].
    pose proof (path_txs_nonneg _ p _ ltac:(intros r d Hd;
      destruct (loaded_raw r d Hd) as (d1 & Hd1 & Eu & _); apply unloaded_eq in Eu as (_ & _ & _ & _ & _ & -> & _);
      by apply (ro_data _ Hraw r)) Hp).
    split; [done|]. apply (ro_txs _ Hraw p). by apply (path_txs_unloaded (index_of st)); [apply same_unloaded_sym, L|].
  - assert (parent_at (index_of st) b = None) as E by (unfold parent_at; by rewrite Hq). rewrite E in Et. rewrite Et. by apply path_genesis.
Qed.

Lemma loaded_linked p b : index_of st !! p = Some b ->
  (forall r c, rtc (parent m1) p r -> m1 !! r = Some c -> nTx c <> 0) -> nChainTx b <> 0.
Proof using Hraw L Hall.
  revert p b. apply (index_ind _ (fun p b => (forall r c, rtc (parent m1) p r -> m1 !! r = Some c -> nTx c <> 0) -> nChainTx b <> 0));
    [apply loaded_index_wf|]. intros p b Hb IH Htx.
  destruct (loaded_raw p b Hb) as (b1 & Hb1 & Eu & _). apply unloaded_eq in Eu as (Eq & _ & _ & _ & _ & Et & _).
  assert (nTx b <> 0) as E0 by (rewrite Et; apply (Htx p b1); [apply rtc_refl|done]).
  destruct (loaded_at p b Hb) as [_ _ En _ _]. rewrite (proj2 (Z.eqb_neq _ _) E0) in En. destruct (pprev b) as [q|] eqn:Hq.
  - destruct (parent_at_lookup _ p b q loaded_index_wf Hb Hq) as (c & Hc & E). rewrite E in En.
    assert (forall r d, rtc (parent m1) q r -> m1 !! r = Some d -> nTx d <> 0) as Hq'.
    { intros r d Hr. apply Htx. eapply rtc_l; [|exact Hr]. exists b1. by split; [|congruence]. }
    pose proof (IH q c eq_refl Hc Hq') as Hn. rewrite (proj2 (Z.eqb_neq _ _) Hn) in En.
    destruct (loaded_txs q c Hc Hn) as [_ Hpath]. pose proof (path_step _ p b q _ Hb Hq Hpath) as Hp.
    assert (forall r d, index_of st !! r = Some d -> 0 <= nTx d) as Hnn.
    { intros r d Hd. destruct (loaded_raw r d Hd) as (d1 & Hd1 & Eu & _). apply unloaded_eq in Eu as (_ & _ & _ & _ & _ & -> & _).
      by apply (ro_data _ Hraw r). }
    pose proof (path_txs_nonneg _ q _ Hnn Hpath). pose proof (Hnn p b Hb).
    rewrite En, wrap_small; [lia|]. split; [lia|]. apply (ro_txs _ Hraw p).
    by apply (path_txs_unloaded (index_of st)); [apply same_unloaded_sym, L|].
  - assert (parent_at (index_of st) b = None) as E by (unfold parent_at; by rewrite Hq). rewrite E in En. congruence.
Qed.

Lemma candidate_usable p b : index_of st !! p = Some b -> candidate b -> nChainTx b <> 0.
Proof using Hraw L Hall.
  intros Hb (Hf & Hl & [?|Hroot]); [done|]. destruct (loaded_raw p b Hb) as (b1 & Hb1 & Eu & Ed & El & Ef & _).
  apply unloaded_eq in Eu as (_ & _ & _ & _ & _ & Et & _).
  rewrite Ef in Hf. apply orb_false_iff in Hf as [Hf _].
  assert (nTx b <> 0) as Hn by (rewrite Et; apply (ro_data _ Hraw p b1 Hb1), (ro_level _ Hraw p b1 Hb1 Hf); lia).
  rewrite (el_txs _ _ _ (loaded_at p b Hb)), (proj2 (Z.eqb_neq _ _) Hn). unfold parent_at. by rewrite Hroot.
Qed.

Lemma loaded_tree_wf : tree_wf (tree st).
Proof using Hraw Hmap L Hall.
  split.
  - apply loaded_index_wf.
  - intros h p. rewrite (lg_map _ _ L), Hmap. split; intros (b & Hb & <-).
    + destruct (same_unloaded_lookup _ _ p b (lg_same _ _ L) Hb) as (b' & Hb' & E). exists b'. by apply unloaded_eq in E as (_ & _ & -> & _).
    + destruct (same_unloaded_lookup _ _ p b (same_unloaded_sym _ _ (lg_same _ _ L)) Hb) as (b' & Hb' & E). exists b'.
      by apply unloaded_eq in E as (_ & _ & -> & _).
  - intros p b Hb. apply (el_work _ _ _ (loaded_at p b Hb)).
  - intros p b Hb. destruct (el_time _ _ _ (loaded_at p b Hb)) as [T1 T2]. split; [done|]. intros q c Hq Hc. apply T2.
    unfold parent_at. by rewrite Hq.
  - apply L.
Qed.

Lemma loaded_wf : chain_wf st /\ based st None.
Proof using Hraw Hmap L Hall.
  destruct (lg_rest _ _ L) as (R1 & R2 & R3 & R4). destruct (lg_cand _ _ L) as [C1 C2].
  assert (forall p b, index_of st !! p = Some b -> 0 <= nTx b /\ (have_data b = true <-> nTx b <> 0)) as Hdata.
  { intros p b Hb. destruct (loaded_raw p b Hb) as (b1 & Hb1 & Eu & -> & _). apply unloaded_eq in Eu as (_ & _ & _ & _ & _ & -> & _).
    by apply (ro_data _ Hraw p). }
  split; [split|split].
  - apply loaded_tree_wf.
  - split; rewrite ?R1; try done; [apply loaded_index_wf|by apply (loading_works D)| | |by apply (lg_invalid _ _ L)].
    + intros p Hp. apply C2 in Hp as (_ & b & Hb & Hc). exists b. split; [done|]. by apply (candidate_usable p).
    + intros p b q Hb Hn Hq. destruct (parent_at_lookup _ p b q loaded_index_wf Hb Hq) as (c & Hc & E). exists c. split; [done|].
      pose proof (el_txs _ _ _ (loaded_at p b Hb)) as Et. rewrite E in Et. destruct (nTx b =? 0); [done|].
      destruct (Z.eqb_spec (nChainTx c) 0); [done|done].
  - rewrite R1. done.
  - done.
  - apply loaded_txs.
  - destruct (lg_unlinked _ _ L) as [U1 U2]. split; [done|]. intros o p Hop. by destruct (U2 o p Hop) as [_ ?].
  - rewrite R2. split; [constructor|]. intros p Hp. by apply not_elem_of_nil in Hp.
  - rewrite R3, R4. by intros q [|].
  - intros p b Hb Hn Hv _. apply C2. destruct (loaded_raw p b Hb) as (b1 & Hb1 & _ & Ed & El & Ef & _).
    split; [apply Hall; by exists b1|]. exists b. split; [done|]. destruct (Hv p b) as [Hf Hd]; [apply rtc_refl|done|].
    split; [done|]. split; [|by left]. rewrite El. rewrite Ef in Hf. apply orb_false_iff in Hf as [Hf _].
    apply (ro_level _ Hraw p b1 Hb1 Hf). congruence.
  - done.
  - rewrite R1. done.
Qed.
End all.
End second.

(** *** The index of before *)

(** The same hash in two trees. *)
Definition twin (t t' : BlockTree) (p p' : ptr) : Prop := exists h, mapBlockIndex t !! h = Some p /\ mapBlockIndex t' !! h = Some p'.

(** What [LoadBlockIndexGuts] checks of the entries, what the code keeps of
    their status, and bounds. *)
Record loadable `{Hs : HashFunctions} (params : Params) (m : index_map) : Prop := {
  la_hash : forall p b d, m !! p = Some b -> make_disk_index m b = Some d -> header_GetHash (di_header d) = phashBlock b;
  la_null : forall p b, m !! p = Some b -> base_blob.IsNull (phashBlock b) = false;
  la_work : forall p b, m !! p = Some b -> CheckProofOfWork (phashBlock b) (nBits b) params = true;
  la_bits : forall p b, m !! p = Some b -> in_range 32 (nBits b);
  la_level : forall p b, m !! p = Some b -> failed b = false -> (have_data b = true <-> 3 <= Z.land (nStatus b) BLOCK_VALID_MASK);
  la_file : forall p b, m !! p = Some b -> have_data b = true -> 0 <= nFile b;
  la_txs : txs_bounded m;
}.

Section image.
Context `{Hs : HashFunctions} (params : Params) (t0 : BlockTree) (db : gmap uint256 CDiskBlockIndex).
Context (Hwf : tree_wf t0) (Hload : loadable params (heap t0))
  (Hdata : forall p b, heap t0 !! p = Some b -> 0 <= nTx b /\ (have_data b = true <-> nTx b <> 0))
  (Hdb : forall h, db !! h = (p ← mapBlockIndex t0 !! h; b ← heap t0 !! p; make_disk_index (heap t0) b)).
Abbreviation m0 := (heap t0).

Lemma make_disk_spec p b : m0 !! p = Some b -> exists d, make_disk_index m0 b = Some d /\ db !! phashBlock b = Some d /\
  hdr_hashPrevBlock (di_header d) = match parent_at m0 b with None => uint256_null | Some c => phashBlock c end.
Proof using Hwf Hdb.
  intros Hb. assert (mapBlockIndex t0 !! phashBlock b = Some p) as Hm by (apply (tw_map _ Hwf); by exists b).
  rewrite Hdb, Hm. cbn [mbind option_bind]. rewrite Hb. cbn [mbind option_bind]. unfold make_disk_index, parent_at.
  destruct (pprev b) as [q|] eqn:Eq; [|by eexists]. destruct (wf_parent _ (tw_index _ Hwf) p b q Hb Eq) as (c & Hc & _).
  cbn. rewrite Hc. by eexists.
Qed.

Lemma db_entry h d : db !! h = Some d -> exists p b, mapBlockIndex t0 !! h = Some p /\ m0 !! p = Some b /\ phashBlock b = h /\
  make_disk_index m0 b = Some d.
Proof using Hwf Hdb.
  rewrite Hdb. destruct (mapBlockIndex t0 !! h) as [p|] eqn:Hm; [|done]. cbn [mbind option_bind].
  destruct (proj1 (tw_map _ Hwf h p) Hm) as (b & Hb & Hh). rewrite Hb. cbn [mbind option_bind]. intros Hd. by exists p, b.
Qed.

Lemma image_entries_ok : entries_ok params db.
Proof using Hwf Hload Hdb.
  split; intros h d Hd; destruct (db_entry h d Hd) as (p & b & Hm & Hb & <- & E).
  - split; [by apply (la_hash _ _ Hload p b)|by apply (la_null _ _ Hload p)].
  - destruct (make_disk_spec p b Hb) as (d' & Ed & _ & Ep). assert (d' = d) as -> by congruence. rewrite Ep.
    unfold parent_at. destruct (pprev b) as [q|]; [|done]. cbn. destruct (m0 !! q) as [c|] eqn:Hc; [|done].
    intros _. destruct (make_disk_spec q c Hc) as (dc & _ & -> & _). by eexists.
  - assert (hdr_nBits (di_header d) = nBits b) as ->; [|by apply (la_work _ _ Hload p)].
    unfold make_disk_index in E. destruct (match pprev b with Some _ => _ | None => _ end); [|done]. cbn in E. by injection E as <-.
Qed.

Context (D : list uint256) (t1 : BlockTree) (Hrd : reading db D t1) (HD : forall h, is_Some (db !! h) -> h ∈ D).
Abbreviation m1 := (heap t1).

Lemma twin_of p b : m0 !! p = Some b -> exists p' d, twin t0 t1 p p' /\ make_disk_index m0 b = Some d /\
  m1 !! p' = Some (fill d (prev_of t1 d) (blank (phashBlock b))).
Proof using Hwf Hdb Hrd HD.
  intros Hb. destruct (make_disk_spec p b Hb) as (d & Ed & Hd & _).
  destruct (rd_done _ _ _ Hrd (phashBlock b) d) as (p' & Hp' & Hb' & _); [apply HD; by exists d|done|]. exists p', d.
  split; [|done]. exists (phashBlock b). split; [|done]. apply (tw_map _ Hwf). by exists b.
Qed.

Lemma twin_back p' b' : m1 !! p' = Some b' -> exists p b, twin t0 t1 p p' /\ m0 !! p = Some b /\ phashBlock b = phashBlock b'.
Proof using Hwf Hdb Hrd.
  intros Hb'. assert (mapBlockIndex t1 !! phashBlock b' = Some p') as Hm by (apply (rd_map _ _ _ Hrd); by exists b').
  destruct (rd_known _ _ _ Hrd _ _ Hm) as [d Hd]. destruct (db_entry _ d Hd) as (p & b & Hp & Hb & E & _).
  exists p, b. split; [by exists (phashBlock b')|]. done.
Qed.

Lemma twin_hash t t' p p' b b' : (forall h p, mapBlockIndex t !! h = Some p <-> exists b, heap t !! p = Some b /\ phashBlock b = h) ->
  (forall h p, mapBlockIndex t' !! h = Some p <-> exists b, heap t' !! p = Some b /\ phashBlock b = h) ->
  heap t !! p = Some b -> heap t' !! p' = Some b' -> twin t t' p p' <-> phashBlock b = phashBlock b'.
Proof.
  intros M M' Hb Hb'. split.
  - intros (h & (c & Hc & <-)%M & (c' & Hc' & Eh)%M'). congruence.
  - intros E. exists (phashBlock b). split; [apply M; by exists b|apply M'; by exists b'].
Qed.

(** Twins: the fields of the database, and the predecessors. *)
Lemma twin_fields p p' b : twin t0 t1 p p' -> m0 !! p = Some b -> exists d, make_disk_index m0 b = Some d /\
  m1 !! p' = Some (fill d (prev_of t1 d) (blank (phashBlock b))) /\
  match pprev b with None => prev_of t1 d = None | Some q => exists q', prev_of t1 d = Some q' /\ twin t0 t1 q q' end.
Proof using Hwf Hload Hdb Hrd HD.
  intros (h & Hh & Hh') Hb. destruct (twin_of p b Hb) as (x & d & (h2 & Hh2 & Hx) & Ed & Hbx).
  assert (h2 = h) as ->.
  { apply (tw_map _ Hwf) in Hh as (c & Hc & <-). apply (tw_map _ Hwf) in Hh2 as (c2 & Hc2 & <-). congruence. }
  assert (x = p') as -> by congruence. exists d. split; [done|]. split; [done|].
  destruct (make_disk_spec p b Hb) as (d' & Ed' & Hd & Ep). assert (d' = d) as -> by congruence.
  unfold prev_of. rewrite Ep. unfold parent_at. destruct (pprev b) as [q|] eqn:Eq; [|done].
  destruct (wf_parent _ (tw_index _ Hwf) p b q Hb Eq) as (c & Hc & _). cbn [mbind option_bind]. rewrite Hc,  (la_null _ _ Hload q c Hc).
  destruct (twin_of q c Hc) as (q' & _ & (h3 & Hq & Hq') & _). exists q'.
  assert (h3 = phashBlock c) as -> by (apply (tw_map _ Hwf) in Hq as (c' & Hc' & <-); congruence).
  split; [done|]. exists (phashBlock c). by split.
Qed.

Lemma disk_fields b d : make_disk_index m0 b = Some d ->
  di_nHeight d = nHeight b /\ di_nTx d = nTx b /\ di_nStatus d = nStatus b /\ hdr_nBits (di_header d) = nBits b /\ di_nFile d = nFile b.
Proof.
  unfold make_disk_index. destruct (match pprev b with Some _ => _ | None => _ end); [|done]. cbn. by intros [= <-].
Qed.

(** Everything about an entry of the new tree, by its twin. *)
Lemma new_entry p' b' : m1 !! p' = Some b' -> exists p b, twin t0 t1 p p' /\ m0 !! p = Some b /\
  nHeight b' = nHeight b /\ nTx b' = nTx b /\ nStatus b' = nStatus b /\ nBits b' = nBits b /\
  match pprev b with None => pprev b' = None | Some q => exists q', pprev b' = Some q' /\ twin t0 t1 q q' end.
Proof using Hwf Hload Hdb Hrd HD.
  intros Hb'. destruct (twin_back p' b' Hb') as (p & b & T & Hb & _). exists p, b.
  destruct (twin_fields p p' b T Hb) as (d & Ed & Hd & Hq). assert (b' = fill d (prev_of t1 d) (blank (phashBlock b))) as -> by congruence.
  cbn [fill nHeight nTx nStatus nBits pprev]. destruct (disk_fields b d Ed) as (-> & -> & -> & -> & _). by split_and!.
Qed.

Lemma twin_some p p' : twin t0 t1 p p' -> is_Some (m0 !! p) /\ is_Some (m1 !! p').
Proof using Hwf Hrd.
  intros (h & Hh & Hh'). apply (tw_map _ Hwf) in Hh as (b & Hb & _). apply (rd_map _ _ _ Hrd) in Hh' as (b' & Hb' & _).
  split; by eexists.
Qed.
Lemma twin_inj p q p' : twin t0 t1 p p' -> twin t0 t1 q p' -> p = q.
Proof using Hwf Hrd. intros (h & Hh & Hh') (k & Hk & Hk'). rewrite (map_inj db D t1 h k p' Hrd Hh' Hk') in Hh. congruence. Qed.
Lemma twin_fun p p' q' : twin t0 t1 p p' -> twin t0 t1 p q' -> p' = q'.
Proof using Hwf.
  intros (h & Hh & Hh') (k & Hk & Hk'). apply (tw_map _ Hwf) in Hh as (b & Hb & <-). apply (tw_map _ Hwf) in Hk as (c & Hc & <-).
  congruence.
Qed.

Lemma twin_path p' n : path_txs m1 p' n -> forall p, twin t0 t1 p p' -> path_txs m0 p n.
Proof using Hwf Hload Hdb Hrd HD.
  induction 1 as [p' b' Hb' Hq|p' b' q' n Hb' Hq _ IH]; intros p T;
    destruct (new_entry p' b' Hb') as (x & b & Tx & Hb & _ & -> & _ & _ & Hpar);
    assert (x = p) as -> by (by apply (twin_inj x p p')); rewrite Hq in Hpar.
  - destruct (pprev b) eqn:E; [by destruct Hpar as (? & ? & _)|]. by apply path_genesis.
  - destruct (pprev b) as [q|] eqn:E; [|done]. destruct Hpar as (x & [= <-] & Tq). eapply path_step; [done..|by apply IH].
Qed.

Lemma image_raw : raw_ok m1.
Proof using Hwf Hload Hdata Hdb Hrd HD.
  assert (forall p b, m1 !! p = Some b -> exists d h q, b = fill d q (blank h)) as Hshape.
  { intros p' b' Hb'. destruct (twin_back p' b' Hb') as (p & b & T & Hb & _).
    destruct (twin_fields p p' b T Hb) as (d & _ & Hd & _). do 3 eexists. rewrite Hb' in Hd. by injection Hd. }
  split.
  - split.
    + intros p b Hb. destruct (new_entry p b Hb) as (x & c & _ & Hc & -> & _). by apply (wf_height _ (tw_index _ Hwf) x).
    + intros p b Hb Hq. destruct (new_entry p b Hb) as (x & c & _ & Hc & -> & _ & _ & _ & Hpar). rewrite Hq in Hpar.
      destruct (pprev c) eqn:E; [by destruct Hpar as (? & ? & _)|]. by apply (wf_genesis _ (tw_index _ Hwf) x).
    + intros p b q Hb Hq. destruct (new_entry p b Hb) as (x & c & _ & Hc & -> & _ & _ & _ & Hpar). rewrite Hq in Hpar.
      destruct (pprev c) as [y|] eqn:E; [|done]. destruct Hpar as (q' & [= <-] & Ty).
      destruct (wf_parent _ (tw_index _ Hwf) x c y Hc E) as (e & He & ->). destruct (twin_fields y q e Ty He) as (d & Ed & Hd & _).
      eexists. split; [exact Hd|]. cbn. by destruct (disk_fields e d Ed) as (-> & _).
    + intros p b s Hb Hs'. by destruct (Hshape p b Hb) as (d & h & q & ->).
  - intros p b Hb. destruct (Hshape p b Hb) as (d & h & q & ->). done.
  - intros p b Hb. destruct (new_entry p b Hb) as (x & c & _ & Hc & _ & _ & _ & -> & _). by apply (la_bits _ _ Hload x).
  - intros p b Hb. destruct (new_entry p b Hb) as (x & c & _ & Hc & _ & -> & Es & _). unfold have_data. rewrite Es. by apply (Hdata x).
  - intros p b Hb. destruct (new_entry p b Hb) as (x & c & _ & Hc & _ & _ & Es & _). unfold failed, have_data. rewrite Es.
    by apply (la_level _ _ Hload x).
  - intros p' n Hp. assert (exists b', m1 !! p' = Some b') as [b' Hb'] by (inversion Hp; by eexists).
    destruct (new_entry p' b' Hb') as (p & _ & T & _). by apply (la_txs _ _ Hload p), (twin_path p').
Qed.

(** *** After both passes *)

Lemma twin_rtc p p' r' : twin t0 t1 p p' -> rtc (parent m1) p' r' -> exists r, twin t0 t1 r r' /\ rtc (parent m0) p r.
Proof using Hwf Hload Hdb Hrd HD.
  intros T Hr. revert p T. induction Hr as [x|x y z (bx & Hbx & Hy) _ IH]; intros p T; [by exists p|].
  destruct (new_entry x bx Hbx) as (p2 & b & T2 & Hb & _ & _ & _ & _ & Hpar). assert (p2 = p) as -> by (by apply (twin_inj p2 p x)).
  rewrite Hy in Hpar. destruct (pprev b) as [q|] eqn:E; [|done]. destruct Hpar as (y' & [= <-] & Ty).
  destruct (IH q Ty) as (r & Tr & Hr). exists r. split; [done|]. eapply rtc_l; [by exists b|done].
Qed.

Lemma rtc_twin p p' r : twin t0 t1 p p' -> rtc (parent m0) p r -> exists r', twin t0 t1 r r' /\ rtc (parent m1) p' r'.
Proof using Hwf Hload Hdb Hrd HD.
  intros T Hr. revert p' T. induction Hr as [x|x y z (b & Hb & Hy) _ IH]; intros p' T; [by exists p'|].
  destruct (twin_fields x p' b T Hb) as (d & _ & Hd & Hpar). rewrite Hy in Hpar. destruct Hpar as (y' & Hy' & Ty).
  destruct (IH y' Ty) as (r' & Tr & Hr'). exists r'. split; [done|]. eapply rtc_l; [|done]. eexists. by split.
Qed.

Context (D2 : list ptr) (st : CChainState) (L : loading t1 D2 st) (Hall : forall p, is_Some (m1 !! p) -> p ∈ D2).
Let Hraw : raw_ok m1 := image_raw.
Abbreviation m2 := (index_of st).

(** An entry of the new index: its own raw form, and the entry of before. *)
Lemma final_entry p p' b : twin t0 t1 p p' -> m0 !! p = Some b -> exists b1 b2 d, m1 !! p' = Some b1 /\ m2 !! p' = Some b2 /\
  make_disk_index m0 b = Some d /\ b1 = fill d (prev_of t1 d) (blank (phashBlock b)) /\ unloaded b2 = unloaded b1 /\
  match pprev b with None => pprev b2 = None | Some q => exists q', pprev b2 = Some q' /\ twin t0 t1 q q' end.
Proof using Hwf Hload Hdb Hrd HD L.
  intros T Hb. destruct (twin_fields p p' b T Hb) as (d & Ed & Hd & Hpar).
  destruct (same_unloaded_lookup _ _ p' _ (lg_same _ _ _ L) Hd) as (b2 & Hb2 & Eu). eexists _, b2, d. split; [exact Hd|].
  split; [done|]. split; [done|]. split; [done|]. split; [done|]. apply unloaded_eq in Eu as (-> & _). exact Hpar.
Qed.

Lemma final_work p' b2 : m2 !! p' = Some b2 -> forall p b, twin t0 t1 p p' -> m0 !! p = Some b -> val (nChainWork b2) = val (nChainWork b).
Proof using Hwf Hload Hdata Hdb Hrd HD L Hall Hraw.
  revert p' b2. apply (index_ind _ (fun p' b2 => forall p b, twin t0 t1 p p' -> m0 !! p = Some b -> val (nChainWork b2) = val (nChainWork b)));
    [by apply (loaded_index_wf t1 Hraw D2)|]. intros p' b2 Hb2 IH p b T Hb.
  destruct (final_entry p p' b T Hb) as (b1 & b2' & d & Hb1 & Hb2' & Ed & -> & Eu & Hpar). assert (b2' = b2) as -> by congruence.
  apply unloaded_eq in Eu as (_ & _ & _ & Ebits & _). cbn [fill nBits] in Ebits.
  destruct (disk_fields b d Ed) as (_ & _ & _ & E4 & _). rewrite E4 in Ebits.
  destruct (loaded_at t1 Hraw D2 st L Hall p' b2 Hb2) as [(_ & w & Hw & ->) _ _ _ _]. destruct (tw_work _ Hwf p b Hb) as (_ & w' & Hw' & ->).
  assert (w' = w) as -> by congruence. f_equal. f_equal. unfold parent_work. destruct (pprev b) as [q|] eqn:Eq.
  - destruct Hpar as (q' & Hq' & Tq). rewrite Hq'. destruct (wf_parent _ (tw_index _ Hwf) p b q Hb Eq) as (c & Hc & _). rewrite Hc.
    destruct (final_entry q q' c Tq Hc) as (_ & c2 & _ & _ & Hc2 & _). rewrite Hc2. by apply (IH q' c2 Hq' Hc2 q c).
  - by rewrite Hpar.
Qed.

Lemma final_txs p p' b b2 : (forall q c, m0 !! q = Some c -> nChainTx c <> 0 -> nTx c <> 0 /\ path_txs m0 q (nChainTx c)) ->
  (forall q c r, m0 !! q = Some c -> nChainTx c <> 0 -> pprev c = Some r -> exists e, m0 !! r = Some e /\ nChainTx e <> 0) ->
  twin t0 t1 p p' -> m0 !! p = Some b -> m2 !! p' = Some b2 -> nChainTx b <> 0 -> nChainTx b2 = nChainTx b.
Proof using Hwf Hload Hdata Hdb Hrd HD L Hall Hraw.
  intros Htx Hpar T Hb Hb2 Hn. destruct (Htx p b Hb Hn) as [_ Hpath].
  assert (forall r, rtc (parent m0) p r -> exists c, m0 !! r = Some c /\ nChainTx c <> 0) as Hup.
  { intros r Hr. assert (exists c, m0 !! p = Some c /\ nChainTx c <> 0) as Hc by (by exists b). clear -Hr Hc Hpar.
    induction Hr as [x|x y z (bx & Hbx & Hy) _ IH]; [done|]. apply IH. destruct Hc as (c & Hc & Hnc).
    assert (c = bx) as -> by congruence. by apply (Hpar x bx). }
  assert (nChainTx b2 <> 0) as Hn2.
  { apply (loaded_linked t1 Hraw D2 st L Hall p' b2 Hb2). intros r' c' Hr' Hc'. destruct (twin_rtc p p' r' T Hr') as (r & Tr & Hr).
    destruct (Hup r Hr) as (c & Hc & Hnc). destruct (new_entry r' c' Hc') as (x & c2 & Tx & Hc2 & _ & -> & _).
    assert (x = r) as -> by (by apply (twin_inj x r r')). assert (c2 = c) as -> by congruence. by apply (Htx r). }
  destruct (loaded_txs t1 Hraw D2 st L Hall p' b2 Hb2 Hn2) as [_ Hpath2].
  apply (path_txs_unloaded _ m1) in Hpath2; [|apply same_unloaded_sym, L].
  exact (path_txs_det _ _ _ _ (twin_path p' _ Hpath2 p T) Hpath).
Qed.

Lemma final_failed p p' b2 : twin t0 t1 p p' -> m2 !! p' = Some b2 ->
  failed b2 = true <-> exists r c, rtc (parent m0) p r /\ m0 !! r = Some c /\ failed c = true.
Proof using Hwf Hload Hdata Hdb Hrd HD L Hall Hraw.
  intros T Hb2. rewrite (loaded_failed t1 Hraw D2 st L Hall p' b2 Hb2). split.
  - intros (r' & c' & Hr' & Hc' & Hf). destruct (twin_rtc p p' r' T Hr') as (r & Tr & Hr).
    destruct (new_entry r' c' Hc') as (x & c & Tx & Hc & _ & _ & Es & _). assert (x = r) as -> by (by apply (twin_inj x r r')).
    exists r, c. split_and!; try done. unfold failed in *. congruence.
  - intros (r & c & Hr & Hc & Hf). destruct (rtc_twin p p' r T Hr) as (r' & Tr & Hr').
    destruct (twin_fields r r' c Tr Hc) as (d & Ed & Hd & _). eexists r', _. split; [done|]. split; [exact Hd|].
    unfold failed in *. cbn [fill nStatus]. by destruct (disk_fields c d Ed) as (_ & _ & -> & _).
Qed.

Lemma final_disk p p' b b2 : twin t0 t1 p p' -> m0 !! p = Some b -> m2 !! p' = Some b2 ->
  make_disk_index m2 (set_nStatus (nStatus b) b2) = make_disk_index m0 b.
Proof using Hwf Hload Hdb Hrd HD L.
  intros T Hb Hb2. destruct (final_entry p p' b T Hb) as (b1 & b2' & d & Hb1 & Hb2' & Ed & -> & Eu & Hpar).
  assert (b2' = b2) as -> by congruence. unfold make_disk_index in Ed |- *. cbn [set_nStatus pprev].
  assert ((match pprev b2 with None => Some uint256_null | Some q => phashBlock <$> m2 !! q end) =
    match pprev b with None => Some uint256_null | Some q => phashBlock <$> m0 !! q end) as ->.
  { destruct (pprev b) as [q|] eqn:Eq; [|by rewrite Hpar]. destruct Hpar as (q' & -> & Tq).
    destruct (wf_parent _ (tw_index _ Hwf) p b q Hb Eq) as (c & Hc & _).
    destruct (final_entry q q' c Tq Hc) as (c1 & c2 & dc & _ & -> & _ & -> & Euc & _). rewrite Hc. cbn. f_equal.
    by apply unloaded_eq in Euc as (_ & _ & -> & _). }
  destruct (match pprev b with None => _ | Some q => _ end) as [h|]; [|done]. cbn in Ed |- *. injection Ed as <-.
  assert (nHeight b2 = nHeight b /\ nTx b2 = nTx b /\ nFile b2 = nFile b /\ nDataPos b2 = nDataPos b /\ nUndoPos b2 = nUndoPos b /\
    nVersion b2 = nVersion b /\ hashMerkleRoot b2 = hashMerkleRoot b /\ nTime b2 = nTime b /\ nBits b2 = nBits b /\
    nNonce b2 = nNonce b /\ nSolution b2 = nSolution b) as (-> & -> & -> & -> & -> & -> & -> & -> & -> & -> & ->).
  { split_and!; [exact (f_equal nHeight Eu)|exact (f_equal nTx Eu)|exact (f_equal nFile Eu)|exact (f_equal nDataPos Eu)|
      exact (f_equal nUndoPos Eu)|exact (f_equal nVersion Eu)|exact (f_equal hashMerkleRoot Eu)|exact (f_equal nTime Eu)|
      exact (f_equal nBits Eu)|exact (f_equal nNonce Eu)|exact (f_equal nSolution Eu)]. }
  done.
Qed.
End image.

(** *** What a start restores *)

(** The entry [p'] of the new state is the entry [p] of before: written back,
    up to its status, it gives what was in the database. *)
Record restored (st st' : CChainState) (p p' : ptr) (b b' : CBlockIndex) : Prop := {
  rs_disk : make_disk_index (index_of st') (set_nStatus (nStatus b) b') = make_disk_index (index_of st) b;
  rs_status : nStatus b' = nStatus b \/ nStatus b' = Z.lor (nStatus b) BLOCK_FAILED_CHILD;
  rs_failed : failed b' = true <-> exists r c, rtc (parent (index_of st)) p r /\ index_of st !! r = Some c /\ failed c = true;
  rs_parent : match pprev b with
    | None => pprev b' = None
    | Some q => exists q', pprev b' = Some q' /\ twin (tree st) (tree st') q q'
    end;
  rs_height : nHeight b' = nHeight b;
  rs_work : val (nChainWork b') = val (nChainWork b);
  rs_txs : nChainTx b <> 0 -> nChainTx b' = nChainTx b;
}.

Record reloaded (st st' : CChainState) : Prop := {
  rl_map : forall h, is_Some (mapBlockIndex (tree st') !! h) <-> is_Some (mapBlockIndex (tree st) !! h);
  rl_entry : forall p p' b, twin (tree st) (tree st') p p' -> index_of st !! p = Some b ->
    exists b', index_of st' !! p' = Some b' /\ restored st st' p p' b b';
}.

Section start.
Context `{Hs : HashFunctions} `{IP : IndexPlatform} `{IL : !IndexPlatformLaws IP} `{DP : LoadPlatform} `{DL : !LoadPlatformLaws DP}.
Context (params : Params).

Lemma LoadBlockIndex_spec st0 db : chain_wf st0 -> loadable params (index_of st0) ->
  (forall h, db !! h = (p ← mapBlockIndex (tree st0) !! h; b ← index_of st0 !! p; make_disk_index (index_of st0) b)) ->
  exists st', LoadBlockIndex params db (headers_only no_tree) = Some (st', true) /\ chain_wf st' /\ based st' None /\
    chainActive st' = [] /\ reloaded st0 st'.
Proof using IL DL.
  intros W0 Hload Hdb. pose proof (cw_tree _ W0) as T0. pose proof (fun p b => cw_data _ W0 p b) as Hdata.
  pose proof (image_entries_ok params (tree st0) db T0 Hload Hdb) as Hok.
  pose proof (seek_entries_perm db) as Hperm.
  destruct (LoadBlockIndexGuts_spec params db (seek_entries db) [] no_tree Hok (reading_empty db)) as (t1 & E1 & Hrd).
  { rewrite Hperm. apply NoDup_fst_map_to_list. }
  { intros h d Hin. rewrite Hperm in Hin. apply elem_of_map_to_list in Hin. split; [done|apply not_elem_of_nil]. }
  assert (forall h, is_Some (db !! h) -> h ∈ reverse (seek_entries db).*1 ++ []) as HD.
  { intros h [d Hd]. rewrite app_nil_r, elem_of_reverse, Hperm. apply list_elem_of_fmap. exists (h, d). split; [done|].
    by apply elem_of_map_to_list. }
  set (D1 := reverse (seek_entries db).*1 ++ []) in *.
  pose proof (image_raw params (tree st0) db T0 Hload Hdata Hdb D1 t1 Hrd HD) as Hraw.
  unfold LoadBlockIndex. cbn [tree headers_only]. rewrite E1. cbn [mbind option_bind negb].
  set (st1 := set_tree t1 (headers_only no_tree)). change (index_of st1) with (heap t1). change (mapBlockIndex (tree st1)) with (mapBlockIndex t1).
  pose proof (iterate_index_perm (mapBlockIndex t1)) as Hit.
  assert (forall h p, (h, p) ∈ iterate_index (mapBlockIndex t1) <-> mapBlockIndex t1 !! h = Some p) as Hin.
  { intros h p. rewrite Hit. apply elem_of_map_to_list. }
  destruct (with_heights_spec (heap t1) (iterate_index (mapBlockIndex t1))) as (v & Ev & Ev2 & Hv).
  { intros h p Hp. apply Hin, (rd_map _ _ _ Hrd) in Hp as (b & Hb & _). by exists b. }
  rewrite Ev. cbn [mbind option_bind].
  assert (forall p, is_Some (heap t1 !! p) <-> p ∈ v.*2) as Hptr.
  { intros p. rewrite Ev2, list_elem_of_fmap. split.
    - intros [b Hb]. exists (phashBlock b, p). split; [done|]. apply Hin, (rd_map _ _ _ Hrd). by exists b.
    - intros ([h q] & -> & Hq). apply Hin, (rd_map _ _ _ Hrd) in Hq as (b & Hb & _). by exists b. }
  pose proof (merge_sort_Permutation pair_le v) as Hms.
  assert (loading t1 [] st1) as L1.
  { destruct (rd_rest _ _ _ Hrd) as [R1 R2]. split; try done; cbn.
    - intros p b _ Hp. by apply not_elem_of_nil in Hp.
    - intros p q Hp. by apply not_elem_of_nil in Hp.
    - rewrite R1. done.
    - split; [constructor|]. intros p. split; [intros Hp; by apply not_elem_of_nil in Hp|]. intros [Hp _]. by apply not_elem_of_nil in Hp.
    - split; [constructor|]. intros o p Hp. by apply not_elem_of_nil in Hp. }
  destruct (load_entries_loading t1 Hraw (rd_map _ _ _ Hrd) (merge_sort pair_le v).*2 [] st1 L1) as (st2 & E2 & L2).
  { rewrite Hms, Ev2. apply NoDup_fmap_2_strong; [|rewrite Hit; apply NoDup_map_to_list].
    intros [h p] [k q] Hp Hq Epq. cbn in Epq. subst q. apply Hin in Hp, Hq. by rewrite (map_inj db D1 t1 h k p Hrd Hp Hq). }
  { intros p Hp. rewrite Hms in Hp. split; [apply not_elem_of_nil|by apply Hptr]. }
  { intros l1 p l2 q El Hpq. right. apply (sorted_parents t1 v (ro_index _ Hraw) Hv ltac:(intros r Hr; by apply Hptr) l1 p l2 q El Hpq). }
  rewrite E2. cbn [mbind option_bind]. exists st2. split; [done|].
  set (D2 := reverse (merge_sort pair_le v).*2 ++ []) in *.
  assert (forall p, is_Some (heap t1 !! p) -> p ∈ D2) as Hall2.
  { intros p Hp. unfold D2. rewrite app_nil_r, elem_of_reverse, Hms. by apply Hptr. }
  destruct (loaded_wf t1 Hraw (rd_map _ _ _ Hrd) D2 st2 L2 Hall2) as [W2 B2].
  split; [done|]. split; [done|]. split; [apply L2|].
  assert (forall p p', twin (tree st0) (tree st2) p p' <-> twin (tree st0) t1 p p') as Htw.
  { intros p p'. unfold twin. by rewrite (lg_map _ _ _ L2). }
  split.
  - intros h. rewrite (lg_map _ _ _ L2). split.
    + intros [p Hp]. destruct (rd_known _ _ _ Hrd h p Hp) as [d Hd]. destruct (db_entry (tree st0) db T0 Hdb h d Hd) as (q & _ & Hq & _). by exists q.
    + intros [p Hp]. destruct (proj1 (tw_map _ T0 h p) Hp) as (b & Hb & <-).
      destruct (twin_of (tree st0) db T0 Hdb D1 t1 Hrd HD p b Hb) as (p' & _ & (k & Hk & Hk') & _). exists p'.
      apply (tw_map _ T0) in Hk as (c & Hc & <-). by assert (c = b) as -> by congruence.
  - intros p p' b T Hb. apply Htw in T.
    destruct (final_entry params (tree st0) db T0 Hload Hdb D1 t1 Hrd HD D2 st2 L2 p p' b T Hb) as (b1 & b2 & d & Hb1 & Hb2 & Ed & E & Eu & Hpar).
    destruct (disk_fields (tree st0) b d Ed) as (F1 & _ & F3 & _). subst b1.
    exists b2. split; [done|]. split.
    + by apply (final_disk params (tree st0) db T0 Hload Hdb D1 t1 Hrd HD D2 st2 L2 p p').
    + destruct (loaded_raw t1 Hraw D2 st2 L2 Hall2 p' b2 Hb2) as (b1 & Hb1' & _ & _ & _ & _ & Es). rewrite Hb1 in Hb1'. injection Hb1' as <-.
      cbn [fill nStatus] in Es. by rewrite F3 in Es.
    + by apply (final_failed params (tree st0) db T0 Hload Hdata Hdb D1 t1 Hrd HD D2 st2 L2 Hall2 p p' b2).
    + destruct (pprev b) as [q|]; [|done]. destruct Hpar as (q' & Hq' & Tq). exists q'. split; [done|]. by apply Htw.
    + apply unloaded_eq in Eu as (_ & -> & _). exact F1.
    + by apply (final_work params (tree st0) db T0 Hload Hdata Hdb D1 t1 Hrd HD D2 st2 L2 Hall2 p' b2 Hb2 p b).
    + apply (final_txs params (tree st0) db T0 Hload Hdata Hdb D1 t1 Hrd HD D2 st2 L2 Hall2 p p' b b2); [apply (cw_txs _ W0)| |done..].
      intros q c r Hc Hn Hr. destruct (co_parents _ (cw_cand _ W0) q c r Hc Hn Hr) as (e & He & Hne). by exists e.
Qed.
End start.

(** *** The files *)

Lemma load_infos_spec db bf n v : db_last_block db = Some n -> vinfoBlockFile bf = [] -> 0 <= n ->
  length v = Z.to_nat (n + 1) -> (forall k i, v !! k = Some i -> default info_SetNull (db_block_files db !! Z.of_nat k) = i) ->
  (forall f, is_Some (db_block_files db !! f) -> f <= n) ->
  load_infos db bf = Some (set_infos v n (setDirtyFileInfo bf) bf).
Proof.
  intros Hn Hv Hn0 Hl Hdb Hmax. unfold load_infos. rewrite Hn, Hv. cbn [from_option id].
  assert (imap (fun k info => default info (ReadBlockFileInfo (Z.of_nat k) db)) (resize (Z.to_nat (n + 1)) info_SetNull []) = v) as ->.
  { apply list_eq. intros k. rewrite list_lookup_imap. destruct (decide (k < Z.to_nat (n + 1))%nat) as [Hk|Hk].
    - rewrite lookup_resize_new by (cbn; lia). cbn. destruct (lookup_lt_is_Some_2 v k) as [i Hi]; [lia|]. rewrite Hi. by rewrite <- (Hdb k i Hi).
    - rewrite lookup_resize_old by lia. cbn. symmetry. apply lookup_ge_None_2. lia. }
  destruct (lookup_lt_is_Some_2 v (Z.to_nat n)) as [i Hi]; [lia|]. rewrite Hi. cbn [mbind option_bind].
  assert (ReadBlockFileInfo (n + 1) db = None) as E.
  { unfold ReadBlockFileInfo. destruct (db_block_files db !! (n + 1)) eqn:E; [|done]. assert (n + 1 <= n) by (apply Hmax; by eexists). lia. }
  by destruct (size (db_block_files db)); cbn [more_infos]; rewrite E.
Qed.

Lemma data_files_spec m l : (forall h p, (h, p) ∈ l -> is_Some (m !! p)) ->
  exists s, data_files m l = Some s /\ forall f, f ∈ s -> exists h p b, (h, p) ∈ l /\ m !! p = Some b /\ have_data b = true /\ nFile b = f.
Proof.
  induction l as [|[h p] l IH]; intros Hl; [exists ∅; split; [done|]; intros f Hf; by apply not_elem_of_empty in Hf|].
  cbn [data_files]. destruct (Hl h p ltac:(left)) as [b Hb]. rewrite Hb. cbn [mbind option_bind].
  destruct IH as (s & -> & Hs'); [intros h' p' Hin; apply (Hl h'); by right|]. cbn [mbind option_bind]. eexists. split; [done|].
  assert (forall f, f ∈ s -> exists h' p' b', (h', p') ∈ (h, p) :: l /\ m !! p' = Some b' /\ have_data b' = true /\ nFile b' = f) as Hold.
  { intros f Hf. destruct (Hs' f Hf) as (h' & p' & b' & Hin & ?). exists h', p', b'. split; [by right|done]. }
  intros f Hf. destruct (have_data b) eqn:Ed; [|by apply Hold]. apply elem_of_union in Hf as [Hf|Hf]; [|by apply Hold].
  apply elem_of_singleton in Hf as ->. exists h, p, b. by split; [left|].
Qed.

Lemma can_open_spec FP fs f : reading_works FP -> 0 <= f -> is_Some (fs !! (BLK, f)) -> can_open fs f = true.
Proof.
  intros (Hr & _) Hf Hin. unfold can_open, OpenDiskFile, pos_IsNull. cbn [pos_nFile pos_nPos].
  rewrite (proj2 (Z.eqb_neq f (-1))) by lia. rewrite (bool_decide_eq_true_2 _ Hin), Hr. cbn. done.
Qed.

(** What is left when the process has ended: the files, the database and the
    view below the cache. *)
Definition restart {V : Type} `{CV : CCoinsView V} (ds : disk_state V) : disk_state V := {|
  ds_files := {| vinfoBlockFile := []; nLastBlockFile := 0; setDirtyFileInfo := ∅; fCheckForPruning := false;
                 fRequestShutdown := false; files := files (ds_files ds) |};
  ds_db := ds_db ds; pcoinsTip := make_cache (view_base (pcoinsTip ds)); fHavePruned := false;
  nLastWrite := 0; nLastFlush := 0; nLastSetChain := 0 |}.

Section database.
Context `{Hs : HashFunctions} `{IP : IndexPlatform} `{IL : !IndexPlatformLaws IP} `{DP : LoadPlatform} `{DL : !LoadPlatformLaws DP}
  `{FP : FilePlatform} `{P : CoinsPlatform} `{PL : !CoinsPlatformLaws P} {V : Type} `{CV : CCoinsView V} `{CL : !CoinsViewLaws CV}.
Context (params : Params).

(** A database that everything has been written to. *)
Record written (st : CChainState) (ds : disk_state V) : Prop := {
  wn_disk : disk_wf st ds;
  wn_all : all_written st ds;
  wn_infos : 0 <= nLastBlockFile (ds_files ds) /\ length (vinfoBlockFile (ds_files ds)) = Z.to_nat (nLastBlockFile (ds_files ds) + 1);
}.

(** This is what [FlushStateToDisk] achieves. *)
Lemma FlushStateToDisk_written `{FL : !FilePlatformLaws FP} `{LP : FlushPlatform} cfg fReindex usage h st ds st' ds' : disk_wf st ds -> crash_safe ds ->
  FlushStateToDisk cfg fReindex usage FLUSH_STATE_ALWAYS h st ds = Some (st', ds', true) ->
  0 <= nLastBlockFile (ds_files ds') /\ length (vinfoBlockFile (ds_files ds')) = Z.to_nat (nLastBlockFile (ds_files ds') + 1) ->
  written st' ds'.
Proof using CL PL.
  intros D S E Hl. destruct (FlushStateToDisk_spec _ _ _ _ _ _ _ _ _ _ D S E) as (_ & [[_ HD]|[? _]] & HA); [|done].
  split; [apply HD; by right|by apply HA|done].
Qed.

Lemma written_entries st ds h : chain_wf st -> written st ds -> db_block_index (ds_db ds) !! h =
  (p ← mapBlockIndex (tree st) !! h; b ← index_of st !! p; make_disk_index (index_of st) b).
Proof using.
  intros W [D (Hd & _) _]. destruct (mapBlockIndex (tree st) !! h) as [p|] eqn:Hm; cbn [mbind option_bind].
  - destruct (dw_map _ _ D h p Hm) as (b & Hb & _). unfold block_at in Hb. rewrite Hb. cbn [mbind option_bind].
    apply (dw_index _ _ D h p b Hm Hb). rewrite Hd. apply not_elem_of_empty.
  - destruct (db_block_index (ds_db ds) !! h) as [d|] eqn:E; [|done]. destruct (dw_known _ _ D h d E). congruence.
Qed.

Lemma LoadBlockIndexDB_spec st0 ds : chain_wf st0 -> loadable params (index_of st0) -> written st0 ds ->
  exists st' ds' ok, LoadBlockIndexDB params (headers_only no_tree) (restart ds) = Some (st', ds', ok) /\
    chain_wf st' /\ based st' None /\ chainActive st' = [] /\ reloaded st0 st' /\ ds_db ds' = ds_db ds /\
    pcoinsTip ds' = make_cache (view_base (pcoinsTip ds)) /\ (reading_works FP -> ok = true) /\
    (ok = true -> vinfoBlockFile (ds_files ds') = vinfoBlockFile (ds_files ds) /\
       nLastBlockFile (ds_files ds') = nLastBlockFile (ds_files ds) /\ files (ds_files ds') = files (ds_files ds)).
Proof using IL DL.
  intros W0 Hload Wr. pose proof (wn_disk _ _ Wr) as D. destruct (wn_all _ _ Wr) as (_ & Hnd & Hlast). destruct (wn_infos _ _ Wr) as (Hl0 & Hlen).
  destruct (LoadBlockIndex_spec params st0 _ W0 Hload (fun h => written_entries st0 ds h W0 Wr)) as (st' & E & W & B & Ch & R).
  unfold LoadBlockIndexDB. cbn [ds_db restart]. rewrite E. cbn [mbind option_bind negb].
  rewrite (load_infos_spec (ds_db ds) (ds_files (restart ds)) (nLastBlockFile (ds_files ds)) (vinfoBlockFile (ds_files ds)) Hlast eq_refl Hl0 Hlen).
  2:{ intros k i Hi. apply (dw_files _ _ D); [|rewrite Hnd; apply not_elem_of_empty].
      unfold info_at. rewrite (proj2 (Z.ltb_ge _ _)) by lia. by rewrite Nat2Z.id. }
  2:{ intros f Hf. apply (dw_stats _ _ D) in Hf as [i Hi]. unfold info_at in Hi. destruct (Z.ltb_spec f 0); [done|].
      apply lookup_lt_Some in Hi. lia. }
  cbn [mbind option_bind].
  destruct (data_files_spec (index_of st') (iterate_index (mapBlockIndex (tree st')))) as (s & -> & Hsd).
  { intros h p Hp. rewrite iterate_index_perm in Hp. apply elem_of_map_to_list in Hp.
    apply (tw_map _ (cw_tree _ W)) in Hp as (b & Hb & _). by exists b. }
  cbn [mbind option_bind]. destruct (forallb _ (elements s)) eqn:Ef; cbn [negb]; eexists st', _, _; (split; [reflexivity|]); split_and!; try done.
  intros Hr. exfalso. rewrite <- not_true_iff_false in Ef. apply Ef, forallb_forall. intros f Hf.
  apply list_elem_of_In, elem_of_elements, Hsd in Hf as (h & p' & b' & Hin & Hb' & Hd' & <-).
  rewrite iterate_index_perm in Hin. apply elem_of_map_to_list in Hin.
  destruct (proj1 (rl_map _ _ R h)) as [p Hp]; [by exists p'|]. destruct (dw_map _ _ D h p Hp) as (b & Hb & Eh).
  destruct (rl_entry _ _ R p p' b) as (b2 & Hb2 & Rs); [by exists h|done|]. assert (b2 = b') as -> by congruence.
  assert (have_data b = true) as Hd.
  { rewrite have_data_bit in Hd' |- *. destruct (rs_status _ _ _ _ _ _ Rs) as [Es|Es]; rewrite Es in Hd'; [done|].
    rewrite Z.lor_spec in Hd'. by rewrite orb_false_r in Hd'. }
  assert (nFile b' = nFile b) as ->.
  { destruct (make_disk_index_total st0 ds p b D Hb) as [d Ed]. pose proof (rs_disk _ _ _ _ _ _ Rs) as Er. rewrite Ed in Er.
    apply make_disk_index_fields in Ed as [_ Ed], Er as [_ Er]. cbn in Er. congruence. }
  apply (can_open_spec FP); [done|by apply (la_file _ _ Hload p)|]. cbn. by apply (dw_data _ _ D h p).
Qed.
End database.

(** *** The tip *)

(** The same hashes at the same heights. *)
Definition same_chain (st st' : CChainState) : Prop :=
  Height (chainActive st') = Height (chainActive st) /\
  forall h p, chain_at (chainActive st) h = Some p -> exists p', chain_at (chainActive st') h = Some p' /\ twin (tree st) (tree st') p p'.

Lemma reloaded_same st st' st2 : tree st2 = tree st' -> reloaded st st' -> reloaded st st2.
Proof.
  intros E [R1 R2]. assert (index_of st2 = index_of st') as Ei by (unfold index_of; by rewrite E). split; [by rewrite E|].
  intros p p' b T Hb. rewrite E in T. destruct (R2 p p' b T Hb) as (b' & Hb' & []). exists b'. rewrite Ei. split; [done|].
  split; try done; by rewrite ?Ei, ?E.
Qed.

Section reloaded.
Context (st st' : CChainState) (W : chain_wf st) (W' : chain_wf st') (R : reloaded st st').

Lemma twin_entries p p' : twin (tree st) (tree st') p p' -> exists b b', index_of st !! p = Some b /\ index_of st' !! p' = Some b' /\
  restored st st' p p' b b'.
Proof using W R.
  intros T. assert (T2 := T). destruct T as (h & Hh & _). apply (tw_map _ (cw_tree _ W)) in Hh as (b & Hb & _).
  destruct (rl_entry _ _ R p p' b T2 Hb) as (b' & Hb' & Rs). by exists b, b'.
Qed.

Lemma reloaded_up p p' r' : twin (tree st) (tree st') p p' -> rtc (parent (index_of st')) p' r' ->
  exists r, twin (tree st) (tree st') r r' /\ rtc (parent (index_of st)) p r.
Proof using W R.
  intros T Hr. revert p T. induction Hr as [x|x y z (bx & Hbx & Hy) _ IH]; intros p T; [by exists p|].
  destruct (twin_entries p x T) as (b & b' & Hb & Hb' & Rs). assert (b' = bx) as -> by congruence.
  pose proof (rs_parent _ _ _ _ _ _ Rs) as Hpar. destruct (pprev b) as [q|] eqn:E; [|congruence]. destruct Hpar as (y' & Hy' & Ty).
  assert (y' = y) as -> by congruence. destruct (IH q Ty) as (r & Tr & Hr). exists r. split; [done|]. eapply rtc_l; [by exists b|done].
Qed.

Lemma reloaded_down p p' r : twin (tree st) (tree st') p p' -> rtc (parent (index_of st)) p r ->
  exists r', twin (tree st) (tree st') r r' /\ rtc (parent (index_of st')) p' r'.
Proof using W R.
  intros T Hr. revert p' T. induction Hr as [x|x y z (bx & Hbx & Hy) _ IH]; intros p' T; [by exists p'|].
  destruct (twin_entries x p' T) as (b & b' & Hb & Hb' & Rs). assert (b = bx) as -> by congruence.
  pose proof (rs_parent _ _ _ _ _ _ Rs) as Hpar. rewrite Hy in Hpar. destruct Hpar as (y' & Hy' & Ty).
  destruct (IH y' Ty) as (r' & Tr & Hr'). exists r'. split; [done|]. eapply rtc_l; [by exists b'|done].
Qed.

(** The tip of before can be the tip again. *)
Lemma reloaded_tip t t' : Tip (chainActive st) = Some t -> twin (tree st) (tree st') t t' ->
  valid (index_of st') t' /\ exists b, index_of st' !! t' = Some b /\ nChainTx b <> 0.
Proof using W R.
  intros Ht T. destruct (cw_active _ W t Ht) as [Hv (b & Hb & Hn)]. split.
  - intros r' b' Hr' Hb'. destruct (reloaded_up t t' r' T Hr') as (r & Tr & Hr).
    destruct (twin_entries r r' Tr) as (c & c' & Hc & Hc' & Rs). assert (c' = b') as -> by congruence. split.
    + destruct (failed b') eqn:Ef; [|done]. apply (rs_failed _ _ _ _ _ _ Rs) in Ef as (x & d & Hx & Hd & Hf).
      destruct (Hv x d) as [Hf' _]; [by etrans|done|congruence].
    + destruct (Hv r c Hr Hc) as [_ Hd]. rewrite have_data_bit in Hd |- *.
      destruct (rs_status _ _ _ _ _ _ Rs) as [-> | ->]; [done|]. by rewrite Z.lor_spec, Hd.
  - destruct (twin_entries t t' T) as (c & c' & Hc & Hc' & Rs). assert (c = b) as -> by congruence. exists c'. split; [done|].
    by rewrite (rs_txs _ _ _ _ _ _ Rs Hn).
Qed.

Lemma reloaded_chain t t' : Tip (chainActive st) = Some t -> twin (tree st) (tree st') t t' ->
  chain_of (index_of st') (chainActive st') (Some t') -> same_chain st st'.
Proof using W W' R.
  intros Ht T (b' & Hb' & Hl' & Ha'). pose proof (co_chain _ (cw_cand _ W)) as Hc. rewrite Ht in Hc. destruct Hc as (b & Hb & Hl & Ha).
  destruct (twin_entries t t' T) as (c & c' & Hc & Hc' & Rs). assert (c = b /\ c' = b') as [-> ->] by (split; congruence).
  pose proof (rs_height _ _ _ _ _ _ Rs) as Eh. split; [unfold Height; lia|].
  intros h p Hp. pose proof (chain_at_range _ _ _ Hp) as Hr. destruct (Ha h ltac:(lia)) as (x & Hx & [Hxr Hxh]).
  assert (x = p) as -> by congruence. destruct (Ha' h ltac:(lia)) as (p' & Hp' & [Hpr' Hph']). exists p'. split; [done|].
  destruct (reloaded_down t t' p T Hxr) as (y & Ty & Hy). replace p' with y; [done|].
  apply (ancestor_unique (index_of st') (co_index _ (cw_cand _ W')) t' h); [|done]. split; [done|].
  destruct (twin_entries p y Ty) as (d & d' & Hd & Hd' & Rsd). apply height_lookup in Hxh as (d2 & Hd2 & <-).
  assert (d2 = d) as -> by congruence. unfold height. rewrite Hd'. cbn. by rewrite (rs_height _ _ _ _ _ _ Rsd).
Qed.
End reloaded.

Section tip.
Context `{P : CoinsPlatform} `{PL : !CoinsPlatformLaws P} {V : Type} `{CV : CCoinsView V} `{CL : !CoinsViewLaws CV}
  {X : Type} `{CT : ChainTip X CBlock} (get_coins : X -> CCoinsViewCache V) (put_coins : CCoinsViewCache V -> X -> X).
Context (get_put : forall c x, get_coins (put_coins c x) = c).

Lemma make_cache_spec (v : V) : view_ok v ->
  cache_ok (make_cache v) /\ cache_best (make_cache v) = best v /\ cache_coins (make_cache v) = coins v.
Proof using.
  intros Hv. split; [split; [done|apply map_Forall_empty|]|split; [done|]].
  - done.
  - unfold cache_coins. apply map_eq. intros o. rewrite overlay_lookup. cbn [cacheCoins make_cache view_base]. by rewrite lookup_empty.
Qed.

Lemma LoadChainTip_spec env fuel st st' x t : chain_wf st -> chain_wf st' -> based st' None -> chainActive st' = [] -> reloaded st st' ->
  Tip (chainActive st) = Some t -> cache_ok (get_coins x) -> base_blob.IsNull (cache_best (get_coins x)) = false ->
  phashBlock <$> index_of st !! t = Some (cache_best (get_coins x)) ->
  exists st2 x2, LoadChainTip get_coins put_coins env fuel (st', x) = Ok ((st2, x2), true) /\ chain_wf st2 /\
    based st2 (Tip (chainActive st2)) /\ index_of st2 = index_of st' /\ tree st2 = tree st' /\ same_chain st st2 /\
    cache_ok (get_coins x2) /\ cache_coins (get_coins x2) = cache_coins (get_coins x).
Proof using PL CL get_put.
  intros W W' B' Ch R Ht Hok Hn Hbest. destruct (index_of st !! t) as [b|] eqn:Hb; [|done]. cbn in Hbest. injection Hbest as Hh.
  unfold LoadChainTip, best_of_coins. cbn [fst snd].
  destruct (cache_GetBestBlock (get_coins x)) as [c h] eqn:E1. destruct (cache_GetBestBlock_ok _ _ _ Hok E1) as (K1 & K2 & K3 & ->).
  cbn [fst snd]. rewrite Ch. cbn [Tip last default from_option or_abort mbind result_bind].
  rewrite bool_decide_eq_false_2 by done. rewrite Hn. cbn [andb mbind result_bind negb]. cbn [fst snd]. rewrite get_put.
  destruct (cache_GetBestBlock c) as [c2 h2] eqn:E2. destruct (cache_GetBestBlock_ok _ _ _ K1 E2) as (J1 & J2 & J3 & ->). cbn [fst snd].
  assert (mapBlockIndex (tree st) !! cache_best c = Some t) as Hm.
  { rewrite K3, <- Hh. apply (tw_map _ (cw_tree _ W)). by exists b. }
  destruct (proj2 (rl_map _ _ R (cache_best c))) as [t' Ht']; [by exists t|]. rewrite Ht'.
  assert (twin (tree st) (tree st') t t') as T by (by exists (cache_best c)).
  destruct (reloaded_tip st st' W R t t' Ht T) as [Hv (b' & Hb' & Hn')].
  pose proof (co_index _ (cw_cand _ W')) as Hwf'.
  rewrite Ch. destruct (SetTip_spec (index_of st') Hwf' [] None (Some t') eq_refl) as (ch & -> & Hch); [by intros ? [= <-] ?; congruence|].
  cbn [or_abort mbind result_bind].
  pose proof (Tip_chain_of _ _ _ Hwf' Hch) as Htip.
  assert (chain_wf (set_chain ch st')) as W3.
  { apply (chain_wf_chain st' ch (Some t')); [done|done| |done]. intros ? [= <-]. split; [done|by exists b']. }
  assert (t' ∈ setBlockIndexCandidates st') as Hcand by (by apply (bs_complete _ _ B' t' b')).
  pose proof (so_irrefl _ _ (work_less_order _ (co_works _ (cw_cand _ W'))) t' ltac:(by exists b')) as Hirr.
  assert (based (set_chain ch st') (Some t')) as B3.
  { split.
    - intros p d Hd Hnd Hvd _. by apply (bs_complete _ _ B' p d).
    - intros ? [= <-]. by exists b'.
    - intros u Hu. change (Tip ch = Some u) in Hu. rewrite Htip in Hu. injection Hu as <-. by exists t'. }
  destruct (PruneBlockIndexCandidates_spec (set_chain ch st') t' t' (Some t') W3 B3 Htip Hcand Hirr) as (cand & -> & W4 & B4 & _).
  cbn [or_abort mbind result_bind]. eexists _, _. split; [reflexivity|]. split; [done|].
  split; [change (based (set_candidates cand (set_chain ch st')) (Tip ch)); by rewrite Htip|]. split; [done|]. split; [done|]. split; [|split; [by rewrite get_put|rewrite get_put; congruence]].
  apply (reloaded_chain st (set_candidates cand (set_chain ch st')) W W4 (reloaded_same st st' (set_candidates cand (set_chain ch st')) eq_refl R) t t' Ht T Hch).
Qed.
End tip.
End loadindex_facts.

(** ** An example: a node with its first block *)

Module loadindex_example.
Import chain_facts chainstate_facts loadindex_facts.
Export accept_example.

#[export] Instance in_order : LoadPlatform := {| seek_entries m := map_to_list m |}.
#[export] Instance in_order_laws : LoadPlatformLaws in_order.
Proof. split. done. Qed.

Definition header1 : CBlockHeader := {|
  hdr_nVersion := 4; hdr_hashPrevBlock := uint256_null; hdr_hashMerkleRoot := le_digits 8 32 1; hdr_nTime := 2000;
  hdr_nBits := 0x207fffff; hdr_nNonce := uint256_null; hdr_nSolution := [] |}.
Definition hash1 : uint256 := root.
Lemma header1_hash : header_GetHash header1 = hash1.
Proof. vm_compute. reflexivity. Qed.

(** The entry of the block, with one transaction; its data is at the start of
    the first file. *)
Definition entry1 : CBlockIndex := {|
  phashBlock := hash1; pprev := None; pskip := None; nHeight := 0; nFile := 0; nDataPos := 8; nUndoPos := 0;
  nChainWork := [2; 0; 0; 0; 0; 0; 0; 0]; nTx := 1; nChainTx := 1; nStatus := Z.lor BLOCK_VALID_SCRIPTS BLOCK_HAVE_DATA;
  nVersion := hdr_nVersion header1; hashMerkleRoot := hdr_hashMerkleRoot header1; nTime := hdr_nTime header1;
  nBits := hdr_nBits header1; nNonce := hdr_nNonce header1; nSolution := hdr_nSolution header1;
  nSequenceId := 1; nTimeMax := hdr_nTime header1 |}.
Definition stored1 : CDiskBlockIndex := {|
  di_nHeight := 0; di_nStatus := nStatus entry1; di_nTx := 1; di_nFile := 0; di_nDataPos := 8; di_nUndoPos := 0; di_header := header1 |}.
Definition running : CChainState := set_sets [Some 1%positive] [1%positive] [] [] (headers_only {|
  heap := {[ 1%positive := entry1 ]}; mapBlockIndex := {[ hash1 := 1%positive ]};
  pindexBestHeader := Some 1%positive; setDirtyBlockIndex := ∅ |}).
Definition flushed : disk_state coins_example.db := {|
  ds_files := {| vinfoBlockFile := [info_SetNull]; nLastBlockFile := 0; setDirtyFileInfo := ∅; fCheckForPruning := false;
                 fRequestShutdown := false; files := {[ (BLK, 0) := [] ]} |};
  ds_db := {| db_block_files := ∅; db_last_block := Some 0; db_block_index := {[ hash1 := stored1 ]}; db_pruned := false |};
  pcoinsTip := make_cache (∅, hash1); fHavePruned := false; nLastWrite := 0; nLastFlush := 0; nLastSetChain := 0 |}.

Lemma running_at p b : index_of running !! p = Some b -> p = 1%positive /\ b = entry1.
Proof. intros H. cbn [index_of tree running set_sets headers_only heap] in H. by apply lookup_singleton_Some in H as [<- <-]. Qed.
Lemma running_map h p : mapBlockIndex (tree running) !! h = Some p -> h = hash1 /\ p = 1%positive.
Proof. intros H. cbn [tree running set_sets headers_only mapBlockIndex] in H. by apply lookup_singleton_Some in H as [<- <-]. Qed.

Lemma entry1_proof : GetBlockProof (nBits entry1) = Some (nChainWork entry1).
Proof. vm_compute. reflexivity. Qed.

Lemma running_tree : tree_wf (tree running).
Proof.
  split.
  - split; intros p b; [intros [-> ->]%running_at; discriminate|intros [-> ->]%running_at _; reflexivity|
      intros q [-> ->]%running_at Hq; discriminate Hq|intros s [-> ->]%running_at Hs; discriminate Hs].
  - intros h p. split; [intros [-> ->]%running_map; exists entry1; split; [apply lookup_singleton_eq|reflexivity]|]. intros (b & [-> ->]%running_at & <-).
    apply lookup_singleton_eq.
  - intros p b [-> ->]%running_at. split; [split; [reflexivity|decided]|]. exists (nChainWork entry1).
    split; [exact entry1_proof|]. vm_compute. reflexivity.
  - intros p b [-> ->]%running_at. split; [cbn; lia|]. intros q c Hq. discriminate Hq.
  - intros p Hp. cbn in Hp. injection Hp as <-. exists entry1. apply lookup_singleton_eq.
Qed.

Lemma running_wf : chain_wf running.
Proof.
  assert (index_of running !! 1%positive = Some entry1) as H1 by apply lookup_singleton_eq.
  assert (forall p b, index_of running !! p = Some b -> nTx b <> 0 /\ path_txs (index_of running) p (nChainTx b)) as Htx.
  { intros p b [-> ->]%running_at. split; [discriminate|]. exact (path_genesis _ _ entry1 H1 eq_refl). }
  split.
  - apply running_tree.
  - split; [apply running_tree| | | | | |intros q Hq; discriminate Hq].
    + intros p b Hb. exact (proj1 (tw_work _ running_tree p b Hb)).
    + exists entry1. split; [exact H1|]. split; [reflexivity|]. intros h Hh. exists 1%positive.
      assert (h = 0) as -> by (cbn in Hh; lia). split; [reflexivity|]. split; [apply rtc_refl|]. by unfold height; rewrite H1.
    + repeat constructor.
    + intros p Hp. apply list_elem_of_singleton in Hp as ->. exists entry1. split; [exact H1|discriminate].
    + intros p b q [-> ->]%running_at _ Hq. discriminate Hq.
  - intros t Ht. cbn in Ht. injection Ht as <-. split; [|exists entry1; split; [exact H1|discriminate]].
    intros r b _ [-> ->]%running_at. split; reflexivity.
  - intros p b [-> ->]%running_at. split; [cbn; lia|]. split; [discriminate|reflexivity].
  - intros p b Hb _. exact (Htx p b Hb).
  - split; [constructor|]. intros o p Hp. cbn [mapBlocksUnlinked running set_sets] in Hp. destruct (not_elem_of_nil _ Hp).
  - split; [constructor|]. intros p Hp. cbn [g_failed_blocks running set_sets] in Hp. destruct (not_elem_of_nil _ Hp).
  - intros q [Hq|Hq]; discriminate Hq.
Qed.

Lemma running_loadable : loadable (consensus setup) (index_of running).
Proof.
  split; try (intros p b [-> ->]%running_at).
  - intros p b d [-> ->]%running_at Hd. injection Hd as <-. exact header1_hash.
  - vm_compute. reflexivity.
  - vm_compute. reflexivity.
  - vm_compute. split; [discriminate|reflexivity].
  - intros _. split; [intros _; vm_compute; discriminate|reflexivity].
  - intros _. cbn. lia.
  - apply (txs_bounded_of _ 1 0); [apply running_tree|lia| |lia]. intros p b [-> ->]%running_at. cbn. lia.
Qed.

Lemma flushed_written : written running flushed.
Proof.
  split; [|split; [|split]; reflexivity|split; [cbn; lia|reflexivity]]. split.
  - intros h p [-> ->]%running_map. exists entry1. split; [apply lookup_singleton_eq|reflexivity].
  - intros p Hp. destruct (not_elem_of_empty _ Hp).
  - intros p b q [-> ->]%running_at Hq. discriminate Hq.
  - intros f Hf. destruct (not_elem_of_empty _ Hf).
  - intros h p b [-> ->]%running_map [_ ->]%running_at _. apply lookup_singleton_eq.
  - intros f i Hi _. cbn [db_block_files ds_db flushed]. rewrite lookup_empty. unfold info_at in Hi.
    destruct (f <? 0); [discriminate Hi|]. cbn in Hi. by apply list_lookup_singleton_Some in Hi as [_ <-].
  - intros f [i Hi]. cbn [db_block_files ds_db flushed] in Hi. rewrite lookup_empty in Hi. discriminate Hi.
  - intros h d Hd. cbn [db_block_index ds_db flushed] in Hd. apply lookup_singleton_Some in Hd as [<- _]. exists 1%positive.
    apply lookup_singleton_eq.
  - intros h p b _ [_ ->]%running_at _. eexists. apply lookup_singleton_eq.
  - split; cbn; [apply map_Forall_empty|apply map_Forall_empty|reflexivity].
  - intros _. exists 1%positive. apply lookup_singleton_eq.
Qed.
End loadindex_example.

(** ** Properties *)

Import chain_facts chainstate_facts coins_facts block_files_facts blockdb_facts loadindex_facts.

(** C27: A node finds itself again.  Let everything of a well-formed node be in
    its database, as a full flush leaves it, and the coins belong to its tip.
    After the process has ended and started again, [LoadBlockIndexDB] ends, and
    succeeds if the files can be opened; it rebuilds the statistics of the files
    and an index with the same hashes, in which every entry has the
    predecessor, the height, the work, the position and the header of before,
    and at least as many linked transactions; exactly the descendants of failed
    blocks are failed.  The candidates are complete, whatever was among them
    before.  [LoadChainTip] then finds the same chain, with the same coins, in
    a state that satisfies the invariant again.  It does not depend on the
    order in which the database and the hash table are gone through, nor on the
    addresses of the new entries. *)
Theorem restart_correct `{Hs : HashFunctions} `{IP : IndexPlatform} `{IL : !IndexPlatformLaws IP} `{DP : LoadPlatform}
    `{DL : !LoadPlatformLaws DP} `{FP : FilePlatform} `{P : CoinsPlatform} `{PL : !CoinsPlatformLaws P} {V : Type}
    `{CV : CCoinsView V} `{CL : !CoinsViewLaws CV} {X : Type} `{CT : ChainTip X CBlock} (get_coins : X -> CCoinsViewCache V)
    (put_coins : CCoinsViewCache V -> X -> X) (params : Params) (env : environment) (fuel : nat) (st : CChainState)
    (ds : disk_state V) (t : ptr) (x : X) :
  (forall c x, get_coins (put_coins c x) = c) ->
  chain_wf st -> loadable params (index_of st) -> written st ds -> Tip (chainActive st) = Some t ->
  phashBlock <$> index_of st !! t = Some (best (view_base (pcoinsTip ds))) ->
  get_coins x = make_cache (view_base (pcoinsTip ds)) ->
  exists st1 ds1 ok, LoadBlockIndexDB params (headers_only no_tree) (restart ds) = Some (st1, ds1, ok) /\
    (reading_works FP -> ok = true) /\
    (ok = true -> vinfoBlockFile (ds_files ds1) = vinfoBlockFile (ds_files ds) /\
       nLastBlockFile (ds_files ds1) = nLastBlockFile (ds_files ds) /\ files (ds_files ds1) = files (ds_files ds)) /\
    chain_wf st1 /\ based st1 None /\ reloaded st st1 /\
    exists st2 x2, LoadChainTip get_coins put_coins env fuel (st1, x) = Ok ((st2, x2), true) /\
      chain_wf st2 /\ based st2 (Tip (chainActive st2)) /\ reloaded st st2 /\ same_chain st st2 /\
      cache_coins (get_coins x2) = coins (view_base (pcoinsTip ds)).
Proof.
  intros Hgp W Hload Wr Ht Hb Hx.
  destruct (LoadBlockIndexDB_spec params st ds W Hload Wr) as (st1 & ds1 & ok & E & W1 & B1 & Ch & R & _ & _ & Hok & Hinfos).
  exists st1, ds1, ok. do 6 (split; [done|]).
  assert (cache_ok (get_coins x) /\ cache_best (get_coins x) = best (view_base (pcoinsTip ds)) /\
    cache_coins (get_coins x) = coins (view_base (pcoinsTip ds))) as (K1 & K2 & K3).
  { rewrite Hx. apply make_cache_spec, (dw_coins _ _ (wn_disk _ _ Wr)). }
  assert (base_blob.IsNull (cache_best (get_coins x)) = false) as Hn.
  { rewrite K2. destruct (index_of st !! t) as [b|] eqn:Hbt; [|done]. cbn in Hb. injection Hb as <-. by apply (la_null _ _ Hload t). }
  rewrite <- K2 in Hb.
  destruct (LoadChainTip_spec get_coins put_coins Hgp env fuel st st1 x t W W1 B1 Ch R Ht K1 Hn Hb)
    as (st2 & x2 & E2 & W2 & B2 & Ei & Etree & Hc & _ & Hcoins).
  exists st2, x2. split; [done|]. split; [done|]. split; [done|].
  split; [by apply (reloaded_same st st1)|]. split; [done|]. congruence.
Qed.

Import loadindex_example.
Lemma restart_correct_witness : exists st1 ds1 st2 ds2,
  LoadBlockIndexDB (IP := chainstate_example.platform) (consensus setup) (headers_only no_tree) (restart flushed) = Some (st1, ds1, true) /\
  LoadChainTip pcoinsTip (fun c ds => set_disk (ds_files ds) (ds_db ds) c (fHavePruned ds) ds) chainstate_example.env 0
    (st1, restart flushed) = Ok ((st2, ds2), true) /\
  chain_wf st2 /\ Height (chainActive st2) = 0.
Proof.
  destruct (restart_correct (IP := chainstate_example.platform) (IL := chainstate_example.platform_laws) pcoinsTip
    (fun c ds => set_disk (ds_files ds) (ds_db ds) c (fHavePruned ds) ds) (consensus setup) chainstate_example.env 0 running flushed
    1%positive (restart flushed)) as (st1 & ds1 & ok & E & Hok & _ & _ & _ & _ & st2 & ds2 & E2 & W2 & _ & _ & [Hc _] & _).
  - reflexivity.
  - exact running_wf.
  - exact running_loadable.
  - exact flushed_written.
  - reflexivity.
  - reflexivity.
  - reflexivity.
  - assert (ok = true) as -> by (apply Hok; split; reflexivity). exists st1, ds1, st2, ds2.
    split; [exact E|]. split; [exact E2|]. split; [exact W2|]. rewrite Hc. reflexivity.
Defined.
