(* ===== verification/Validation.v ===== *)
(** * Connecting a block ([validation.cpp], [validation.h], [amount.h])

    The block subsidy, the script checks of a transaction, and [ConnectBlock],
    which validates a block against the coins and applies it to them.  The
    signature cache is left out: it holds signatures that verified before.
    The script-execution cache is the predicate [cached] on its entries; the
    disk is the interface [BlockStorage]. *)

From S2P Require Import Prelude ArithUint256 Uint256 Hash Chain Params Pow Script Interpreter Serialize Transaction.
From S2P Require Import SigHash Coins TxVerify Block Merkle BlockCheck Undo.
Import base_uint arith_uint256.

(** ** The subsidy *)

Definition GENESIS_MONEY : CAmount := 3300000000 * COIN.
Definition INITIAL_SUBSIDY : CAmount := 125 * COIN.

Definition GetBlockSubsidy (nHeight : Z) (params : Params) : CAmount :=
  if nHeight =? 0 then GENESIS_MONEY
  else
    let halvings := Z.quot nHeight (nSubsidyHalvingInterval params) in
    if halvings >=? 64 then 0 else Z.shiftr INITIAL_SUBSIDY halvings.

(** ** Script checks *)

Record CScriptCheck := {
  m_tx_out : CTxOut;
  ptxTo : CTransaction;
  sc_nIn : Z;
  nFlags : Z;
  sc_txdata : PrecomputedTransactionData;
}.

(** [policy/policy.h]. *)
Definition MANDATORY_SCRIPT_VERIFY_FLAGS : Z := SCRIPT_VERIFY_P2SH.
Definition STANDARD_SCRIPT_VERIFY_FLAGS : Z :=
  foldl Z.lor MANDATORY_SCRIPT_VERIFY_FLAGS
    [SCRIPT_VERIFY_STRICTENC; SCRIPT_VERIFY_MINIMALDATA; SCRIPT_VERIFY_NULLDUMMY;
     SCRIPT_VERIFY_DISCOURAGE_UPGRADABLE_NOPS; SCRIPT_VERIFY_CLEANSTACK; SCRIPT_VERIFY_MINIMALIF;
     SCRIPT_VERIFY_NULLFAIL; SCRIPT_VERIFY_CHECKLOCKTIMEVERIFY; SCRIPT_VERIFY_CHECKSEQUENCEVERIFY;
     SCRIPT_VERIFY_WITNESS; SCRIPT_VERIFY_DISCOURAGE_UPGRADABLE_WITNESS_PROGRAM; SCRIPT_VERIFY_WITNESS_PUBKEYTYPE].
Definition STANDARD_NOT_MANDATORY_VERIFY_FLAGS : Z :=
  Z.land STANDARD_SCRIPT_VERIFY_FLAGS (Z.lnot MANDATORY_SCRIPT_VERIFY_FLAGS).

Definition REJECT_NONSTANDARD : Z := 0x40.

Section scripts.
Context `{Hs : HashFunctions} `{L : Layout} `{E : ed25519} (mem : memory).

(** [CScriptCheck::operator()]. *)
Definition run_check (c : CScriptCheck) : bool :=
  match vin (ptxTo c) !! Z.to_nat (sc_nIn c) with
  | None => false
  | Some txin =>
      match VerifyScript
              (B := TransactionSignatureChecker mem (ptxTo c) (sc_nIn c) (nValue (m_tx_out c)) (Some (sc_txdata c)))
              (nFlags c) (scriptSig txin) (scriptPubKey (m_tx_out c)) (Some (scriptWitness txin)) with
      | Ok _ => true
      | Err _ => false
      end
  end.

(** The entry of the script-execution cache: the nonce, the witness hash and
    the flags. *)
Definition script_cache_entry (nonce : uint256) (tx : CTransaction) (flags : Z) : uint256 :=
  CSHA3_256 (take 19 nonce ++ GetWitnessHash tx ++ le_digits 8 4 flags).

Context {V : Type} `{CV : CCoinsView V} `{P : CoinsPlatform}.

(** The loop over the inputs of [CheckInputs]: the checks in the order of the
    inputs, pushed when [queue] holds and run at once otherwise. *)
Fixpoint check_scripts (inputs : CCoinsViewCache V) (tx : CTransaction) (l : list CTxIn) (i flags : Z)
    (txdata : PrecomputedTransactionData) (queue : bool) : CCoinsViewCache V * tx_result (list CScriptCheck) :=
  match l with
  | [] => (inputs, Ok [])
  | txin :: l =>
      let '(inputs, coin) := AccessCoin inputs (prevout txin) in
      if Coin_IsSpent coin then (inputs, Err tx_assertion)
      else
        let c := {| m_tx_out := coin_out coin; ptxTo := tx; sc_nIn := i; nFlags := flags; sc_txdata := txdata |} in
        if queue then
          let '(inputs, r) := check_scripts inputs tx l (i + 1) flags txdata queue in
          (inputs, cs ← r; Ok (c :: cs))
        else if run_check c then check_scripts inputs tx l (i + 1) flags txdata queue
        else
          let check2 := {| m_tx_out := coin_out coin; ptxTo := tx; sc_nIn := i;
                           nFlags := Z.land flags (Z.lnot STANDARD_NOT_MANDATORY_VERIFY_FLAGS); sc_txdata := txdata |} in
          if has flags STANDARD_NOT_MANDATORY_VERIFY_FLAGS && run_check check2
          then (inputs, Err (DoS 0 REJECT_NONSTANDARD "non-mandatory-script-verify-flag" false))
          else (inputs, Err (invalid 100 "mandatory-script-verify-flag-failed"))
  end.

(** The checks that are queued. *)
Definition CheckInputs (tx : CTransaction) (inputs : CCoinsViewCache V) (fScriptChecks : bool) (flags : Z)
    (nonce : uint256) (cached : uint256 -> bool) (txdata : PrecomputedTransactionData) (queue : bool)
    : CCoinsViewCache V * tx_result (list CScriptCheck) :=
  if IsCoinBase tx then (inputs, Ok [])
  else if negb fScriptChecks then (inputs, Ok [])
  else if cached (script_cache_entry nonce tx flags) then (inputs, Ok [])
  else check_scripts inputs tx (vin tx) 0 flags txdata queue.
End scripts.

(** [GetBlockScriptFlags]: every soft fork is active from the start. *)
Definition GetBlockScriptFlags : Z :=
  let flags := SCRIPT_VERIFY_NONE in
  let flags := Z.lor flags SCRIPT_VERIFY_P2SH in
  let flags := Z.lor flags SCRIPT_VERIFY_CHECKLOCKTIMEVERIFY in
  let flags := Z.lor flags SCRIPT_VERIFY_CHECKSEQUENCEVERIFY in
  if IsWitnessEnabled then Z.lor (Z.lor flags SCRIPT_VERIFY_WITNESS) SCRIPT_VERIFY_NULLDUMMY else flags.

(** ** [ConnectBlock] *)

(** What the code asks of the disk: the position of the undo data written,
    if it could be, and whether the transaction index was written. *)
Class BlockStorage := {
  UndoWriteToDisk : CBlockUndo -> option Z;
  WriteTxIndex : CBlock -> bool;
}.

(** The state that the node is in: the index with [hashAssumeValid], the tip
    of the active chain, the script-execution cache, and the number of
    threads that run the queue of script checks. *)
Record node_state := {
  ns_index : index_map;
  ns_mapBlockIndex : gmap uint256 ptr;
  ns_pindexBestHeader : option ptr;
  ns_tip : option ptr;
  hashAssumeValid : uint256;
  nMinimumChainWork_arith : list Z;
  scriptExecutionCacheNonce : uint256;
  scriptExecutionCache : uint256 -> bool;
  nScriptCheckThreads : Z;
}.

Definition set_undo (pos : Z) (b : CBlockIndex) : CBlockIndex := {|
  phashBlock := phashBlock b; pprev := pprev b; pskip := pskip b; nHeight := nHeight b;
  nFile := nFile b; nDataPos := nDataPos b; nUndoPos := pos;
  nChainWork := nChainWork b; nTx := nTx b; nChainTx := nChainTx b;
  nStatus := Z.lor (nStatus b) BLOCK_HAVE_UNDO;
  nVersion := nVersion b; hashMerkleRoot := hashMerkleRoot b; nTime := nTime b;
  nBits := nBits b; nNonce := nNonce b; nSolution := nSolution b;
  nSequenceId := nSequenceId b; nTimeMax := nTimeMax b |}.

(** Whether the scripts have to be checked: not for an ancestor of the best
    header under [hashAssumeValid] that is two weeks of work below it. *)
Definition script_checks_needed (ns : node_state) (pindex : ptr) (params : Params) : option bool :=
  if base_blob.IsNull (hashAssumeValid ns) then Some true
  else
    match ns_mapBlockIndex ns !! hashAssumeValid ns with
    | None => Some true
    | Some a =>
        b ← ns_index ns !! pindex;
        a1 ← GetAncestor (ns_index ns) a (nHeight b);
        if bool_decide (a1 = Some pindex) then
          best ← ns_pindexBestHeader ns;
          a2 ← GetAncestor (ns_index ns) best (nHeight b);
          bb ← ns_index ns !! best;
          if bool_decide (a2 = Some pindex) && geb W (nChainWork bb) (nMinimumChainWork_arith ns) then
            t ← GetBlockProofEquivalentTime bb b bb (nPowTargetSpacing params);
            Some (t <=? 60 * 60 * 24 * 7 * 2)
          else Some true
        else Some true
    end.

Section connect.
Context `{Hs : HashFunctions} `{L : Layout} `{IO : cpp_int_io} `{Eh : Equihash} `{E : ed25519} (mem : memory).
Context `{St : BlockStorage} {V : Type} `{CV : CCoinsView V} `{P : CoinsPlatform}.

(** A pointer that has to be there. *)
Definition deref {A} (o : option A) : tx_result A := match o with Some a => Ok a | None => Err tx_assertion end.

(** The state of the loop over the transactions. *)
Record connecting := {
  c_view : CCoinsViewCache V;
  c_nFees : CAmount;
  c_nSigOpsCost : Z;
  c_undo : list CTxUndo;
  c_checks : list CScriptCheck;
}.

(** [prevheights[j] = view.AccessCoin(tx.vin[j].prevout).nHeight]. *)
Fixpoint prev_heights (view : CCoinsViewCache V) (l : list CTxIn) : CCoinsViewCache V * list Z :=
  match l with
  | [] => (view, [])
  | txin :: l =>
      let '(view, coin) := AccessCoin view (prevout txin) in
      let '(view, hs) := prev_heights view l in
      (view, coin_nHeight coin :: hs)
  end.

(** The checks of a transaction that is not a coinbase: the fee. *)
Definition check_spending (ns : node_state) (pindex : ptr) (height : Z) (tx : CTransaction)
    (view : CCoinsViewCache V) (nFees : CAmount) : tx_result (CCoinsViewCache V * CAmount) :=
  let '(view, txfee) := CheckTxInputs tx view height in
  txfee ← txfee;
  let nFees := nFees + txfee in
  check (MoneyRange nFees) (invalid 100 "bad-txns-accumulated-fee-outofrange");;
  let '(view, prevheights) := prev_heights view (vin tx) in
  '(_, final) ← deref (SequenceLocks (ns_index ns) tx LOCKTIME_VERIFY_SEQUENCE prevheights pindex);
  check final (invalid 100 "bad-txns-nonfinal");;
  Ok (view, nFees).

(** One turn of the loop; [i] is the index of the transaction. *)
Definition connect_tx (ns : node_state) (pindex : ptr) (height : Z) (fScriptChecks : bool) (i : nat)
    (tx : CTransaction) (st : connecting) : tx_result connecting :=
  '(view, nFees) ← (if negb (IsCoinBase tx) then check_spending ns pindex height tx (c_view st) (c_nFees st)
                    else Ok (c_view st, c_nFees st));
  let '(view, cost) := GetTransactionSigOpCost tx view GetBlockScriptFlags in
  cost ← deref cost;
  let nSigOpsCost := c_nSigOpsCost st + cost in
  check (negb (nSigOpsCost >? MAX_BLOCK_SIGOPS_COST)) (invalid 100 "bad-blk-sigops");;
  let '(view, vChecks) :=
    CheckInputs mem tx view fScriptChecks GetBlockScriptFlags (scriptExecutionCacheNonce ns) (scriptExecutionCache ns)
      (Precompute tx) (negb (nScriptCheckThreads ns =? 0)) in
  vChecks ← vChecks;
  '(view, txundo) ← UpdateCoins tx view height;
  Ok {| c_view := view; c_nFees := nFees; c_nSigOpsCost := nSigOpsCost;
        c_undo := if (0 <? i)%nat then c_undo st ++ [txundo] else c_undo st;
        c_checks := c_checks st ++ vChecks |}.

Fixpoint connect_txs (ns : node_state) (pindex : ptr) (height : Z) (fScriptChecks : bool) (i : nat)
    (vtx : list CTransaction) (st : connecting) : tx_result connecting :=
  match vtx with
  | [] => Ok st
  | tx :: vtx =>
      st ← connect_tx ns pindex height fScriptChecks i tx st;
      connect_txs ns pindex height fScriptChecks (S i) vtx st
  end.

(** [WriteUndoDataForBlock]: only if the undo position of the index is null. *)
Definition WriteUndoDataForBlock (blockundo : CBlockUndo) (b : CBlockIndex) : tx_result CBlockIndex :=
  if has (nStatus b) BLOCK_HAVE_UNDO && negb (nFile b =? -1) then Ok b
  else match UndoWriteToDisk blockundo with
       | Some pos => Ok (set_undo pos b)
       | None => Err (run_time_error "Failed to write undo data")
       end.

(** What a connected block leaves: the block with its flag, the index entry,
    the coins, and the undo data. *)
Record connected := {
  r_block : CBlock;
  r_index : CBlockIndex;
  r_view : CCoinsViewCache V;
  r_undo : CBlockUndo;
}.

Definition ConnectBlock (ns : node_state) (params : Params) (block : CBlock) (pindex : ptr)
    (view : CCoinsViewCache V) (fJustCheck : bool) : tx_result connected :=
  b ← deref (ns_index ns !! pindex);
  check (bool_decide (phashBlock b = header_GetHash block)) tx_assertion;;
  tip ← match ns_tip ns with None => Ok None | Some p => c ← deref (ns_index ns !! p); Ok (Some (nHeight c)) end;
  block ← CheckBlock block tip params (negb fJustCheck) (negb fJustCheck);
  hashPrevBlock ← match pprev b with
                  | None => Ok uint256_null
                  | Some q => c ← deref (ns_index ns !! q); Ok (phashBlock c)
                  end;
  let '(view, best) := cache_GetBestBlock view in
  check (bool_decide (hashPrevBlock = best)) tx_assertion;;
  fScriptChecks ← deref (script_checks_needed ns pindex params);
  check (negb (negb (bool_decide (best = uint256_null)) && bool_decide (pprev b = None))) tx_assertion;;
  st ← connect_txs ns pindex (nHeight b) fScriptChecks 0 (vtx block)
         {| c_view := view; c_nFees := 0; c_nSigOpsCost := 0; c_undo := []; c_checks := [] |};
  let blockReward := c_nFees st + GetBlockSubsidy (nHeight b) params in
  coinbase ← deref (head (vtx block));
  value ← (match GetValueOut (tx_data coinbase) with Some v => Ok v | None => Err value_out_of_range end);
  check (negb (value >? blockReward)) (invalid 100 "bad-cb-amount");;
  check (forallb (run_check mem) (c_checks st)) (invalid 100 "block-validation-failed");;
  let blockundo := {| vtxundo := c_undo st |} in
  if fJustCheck then Ok {| r_block := block; r_index := b; r_view := c_view st; r_undo := blockundo |}
  else
    b ← WriteUndoDataForBlock blockundo b;
    valid ← deref (IsValid b BLOCK_VALID_SCRIPTS);
    b ← (if negb valid then '(b, _) ← deref (RaiseValidity b BLOCK_VALID_SCRIPTS); Ok b else Ok b);
    check (WriteTxIndex block) (run_time_error "Failed to write transaction index");;
    Ok {| r_block := block; r_index := b; r_view := SetBestBlock (c_view st) (phashBlock b); r_undo := blockundo |}.
End connect.

(** ** Facts *)

Module validation_facts.
Import coins_facts txverify_facts undo_facts.

(** *** The supply *)

(** The money in a set of coins. *)
Definition supply (u : utxo) : CAmount := map_fold (fun _ c t => nValue (coin_out c) + t) 0 u.

Lemma supply_empty : supply ∅ = 0.
Proof. apply map_fold_empty. Qed.

Lemma supply_insert u o c : u !! o = None -> supply (<[o := c]> u) = nValue (coin_out c) + supply u.
Proof. intros H. unfold supply. rewrite map_fold_insert_L; [done|intros; lia|done]. Qed.

Lemma supply_delete u o c : u !! o = Some c -> supply (delete o u) = supply u - nValue (coin_out c).
Proof. intros H. rewrite <- (insert_delete_id u o c H) at 2. rewrite supply_insert by apply lookup_delete_eq. lia. Qed.

Lemma supply_without u l cs :
  spent_coins u l cs -> NoDup (prevout <$> l) -> supply (without u (prevout <$> l)) = supply u - total_coins cs.
Proof.
  intros H. revert u H. revert cs. induction l as [|i l IH]; intros cs u H Hnd;
    inversion H as [|? coin ? cs' Hcoin Hcs]; subst; cbn [fmap list_fmap] in *.
  { unfold total_coins. cbn. lia. }
  apply NoDup_cons in Hnd as [Hi Hnd]. rewrite <- without_delete, (IH cs') by (by apply spent_coins_delete || done).
  rewrite (supply_delete u _ coin) by done. unfold total_coins, total_value. cbn [fmap list_fmap foldr].
  cbn. lia.
Qed.

Lemma supply_add_outputs u txid vout i h cb :
  Forall (fun o => 0 <= nValue o <= MAX_MONEY) vout -> 0 <= i -> i + Z.of_nat (length vout) <= 2 ^ 32 ->
  (forall j, u !! {| op_hash := txid; op_n := j |} = None \/ j < i) ->
  supply (add_outputs u txid vout i h cb) <= supply u + total_value vout.
Proof.
  intros Hv. revert u i. induction Hv as [|o vout Ho Hv IH]; intros u i Hi Hl Hn; cbn [add_outputs total_value foldr length] in *.
  { lia. }
  fold (total_value vout). rewrite (wrap_small 32) by (unfold in_range; lia).
  destruct (CScript.IsUnspendable _).
  - etransitivity; [apply IH; [lia|lia|intros j; destruct (Hn j); [by left|right; lia]]|lia].
  - etransitivity; [apply IH; [lia|lia|]|].
    + intros j. destruct (decide (j < i + 1)) as [|Hj]; [by right|left].
      rewrite lookup_insert_ne by (intros [= ->]; lia). destruct (Hn j); [done|lia].
    + rewrite supply_insert; [cbn; lia|]. destruct (Hn i); [done|lia].
Qed.

(** Amounts that are money. *)
Definition money_outputs (tx : CTransaction) : Prop := Forall (fun o => 0 <= nValue o <= MAX_MONEY) (vout tx).

(** What a transaction pays besides its outputs. *)
Definition entry_fee (p : CTransaction * list Coin) : CAmount :=
  if IsCoinBase p.1 then 0 else total_coins p.2 - total_value (vout p.1).
Definition total_fees (l : list (CTransaction * list Coin)) : CAmount := foldr (fun p t => entry_fee p + t) 0 l.

Lemma supply_apply_tx h u (tx : CTransaction) cs :
  fits tx -> money_outputs tx -> new_outputs u tx -> tx_coins u tx cs ->
  supply (apply_tx h u tx) <= supply u + total_value (vout tx) - total_coins cs.
Proof.
  intros [Hnd [_ Hl]] Hm Hn Hcs. unfold apply_tx. etransitivity; [apply supply_add_outputs; [done|lia|lia|]|].
  - intros j. left. rewrite without_lookup. by destruct (decide _).
  - unfold spends, tx_coins in *. destruct (IsCoinBase tx); [subst cs; cbn; lia|]. rewrite (supply_without u _ cs) by done. lia.
Qed.

(** Without coinbases, what is applied destroys its fees. *)
Lemma supply_applied h u l u' :
  applied h u l u' -> fresh_ids u l.*1 -> Forall fits l.*1 -> Forall money_outputs l.*1 ->
  Forall (fun tx : CTransaction => IsCoinBase tx = false) l.*1 -> supply u' <= supply u - total_fees l.
Proof.
  intros H. induction H as [u|u tx cs l u' Hcs Hap IH]; intros Hfr Hft Hm Hcb; cbn [total_fees foldr] in *; [lia|].
  cbn [fmap list_fmap fst] in *. apply Forall_cons in Hft as [Hft1 Hft], Hm as [Hm1 Hm], Hcb as [Hcb1 Hcb].
  destruct (fresh_ids_cons h u tx l.*1 (proj2 Hft1) Hfr) as [Hnew Hfr'].
  pose proof (supply_apply_tx h u tx cs Hft1 Hm1 Hnew Hcs). specialize (IH Hfr' Hft Hm Hcb).
  unfold entry_fee at 1. cbn [fst snd]. rewrite Hcb1. fold (total_fees l). lia.
Qed.

(** *** Connecting transactions *)

Section connect.
Context `{Hs : HashFunctions} `{L : Layout} `{IO : cpp_int_io} `{Eh : Equihash} `{E : ed25519} (mem : memory).
Context `{St : BlockStorage} {V : Type} `{CV : CCoinsView V} `{P : CoinsPlatform}.
Context `{PL : !CoinsPlatformLaws P} `{CL : !CoinsViewLaws CV}.
Implicit Types c : CCoinsViewCache V.

Lemma lookup_check_scripts tx l i flags txdata q : lookup_only (fun c => check_scripts mem c tx l i flags txdata q).
Proof.
  revert i. induction l as [|txin l IH]; intros i; [apply lookup_ret|]. apply lookup_AccessCoin. intros coin.
  destruct (Coin_IsSpent coin); [apply lookup_ret|]. cbn zeta. destruct q.
  - intros c c' r Hc H. cbn beta in H. fold (check_scripts mem) in H.
    destruct (check_scripts mem c tx l (i + 1) flags txdata true) as [c1 r1] eqn:H1. injection H as <- <-.
    by apply IH in H1.
  - destruct (run_check mem _); [apply IH|]. destruct (_ && _); apply lookup_ret.
Qed.

Lemma lookup_CheckInputs tx b flags nonce cached txdata q :
  lookup_only (fun c => CheckInputs mem tx c b flags nonce cached txdata q).
Proof.
  unfold CheckInputs. destruct (IsCoinBase tx); [apply lookup_ret|]. destruct (negb b); [apply lookup_ret|].
  destruct (cached _); [apply lookup_ret|apply lookup_check_scripts].
Qed.

Lemma lookup_prev_heights l : lookup_only (fun c => prev_heights c l).
Proof.
  induction l as [|txin l IH]; [apply lookup_ret|]. apply lookup_AccessCoin. intros coin c c' r Hc H. cbn beta in H. fold (prev_heights (V := V)) in H.
  destruct (prev_heights c l) as [c1 hs] eqn:H1. injection H as <- <-. by apply IH in H1.
Qed.

Lemma check_spending_ok ns pindex h (tx : CTransaction) c fees c' fees' :
  check_spending ns pindex h tx c fees = Ok (c', fees') -> cache_ok c -> IsCoinBase tx = false ->
  same c c' /\ exists cs, spent_coins (cache_coins c) (vin tx) cs /\ Forall (mature h) cs /\
    fees' = fees + (total_coins cs - total_value (vout tx)).
Proof.
  unfold check_spending. intros H Hc Hcb. destruct (CheckTxInputs tx c h) as [c1 fee] eqn:Hf.
  apply CheckTxInputs_spec in Hf as (H1 & H2 & _ & Hfee); [|done|done].
  apply bind_Ok in H as (f & -> & H). apply bind_Ok in H as (? & _ & H).
  destruct (prev_heights c1 (vin tx)) as [c2 hs] eqn:Hp. apply lookup_prev_heights in Hp as [K1 K2]; [|done].
  apply bind_Ok in H as ([? final] & _ & H). apply bind_Ok in H as (? & _ & H). injection H as <- <-.
  split; [split; [done|congruence]|].
  destruct (proj1 (Hfee f) eq_refl) as (cs & out & Hcs & Hm & _ & _ & Hout & _ & Heq).
  exists cs. split; [done|]. split; [done|]. apply GetValueOut_loop_Some in Hout as (_ & -> & _). lia.
Qed.

(** A connected transaction is applied; what it pays is added to the fees. *)
Lemma connect_tx_ok ns pindex h b i (tx : CTransaction) st st' :
  connect_tx mem ns pindex h b i tx st = Ok st' -> cache_ok (c_view st) -> fits tx ->
  new_outputs (cache_coins (c_view st)) tx ->
  exists cs, tx_coins (cache_coins (c_view st)) tx cs /\ cache_ok (c_view st') /\
    cache_coins (c_view st') = apply_tx h (cache_coins (c_view st)) tx /\
    c_nFees st' = c_nFees st + entry_fee (tx, cs) /\
    c_undo st' = if (0 <? i)%nat then c_undo st ++ [{| vprevout := cs |}] else c_undo st.
Proof.
  unfold connect_tx. intros H Hc Hft Hnew. apply bind_Ok in H as ([c1 fees] & H1 & H).
  assert (same (c_view st) c1 /\ exists cs, tx_coins (cache_coins (c_view st)) tx cs /\
    fees = c_nFees st + entry_fee (tx, cs)) as ([K1 K2] & cs & Hcs & Hfees).
  { unfold tx_coins, entry_fee. cbn [fst snd]. destruct (IsCoinBase tx) eqn:Hcb; cbn [negb] in H1.
    - injection H1 as <- <-. split; [done|]. exists []. split; [done|lia].
    - apply check_spending_ok in H1 as (? & cs & ? & _ & ?); [|done|done]. split; [done|]. by exists cs. }
  destruct (GetTransactionSigOpCost tx c1 GetBlockScriptFlags) as [c2 cost] eqn:Hc2.
  apply lookup_SigOpCost in Hc2 as [K3 K4]; [|done].
  apply bind_Ok in H as (cost' & _ & H). apply bind_Ok in H as (? & _ & H).
  destruct (CheckInputs mem tx c2 b _ _ _ _ _) as [c3 checks] eqn:Hc3.
  apply lookup_CheckInputs in Hc3 as [K5 K6]; [|done]. apply bind_Ok in H as (cks & _ & H).
  assert (cache_coins c3 = cache_coins (c_view st)) as Hcoins by congruence.
  destruct (UpdateCoins_ok c3 tx h cs) as (c4 & Hu & K7 & _ & K8); [done|done|by rewrite Hcoins..|].
  rewrite Hu in H. cbn [mbind result_bind] in H. injection H as <-. cbn [c_view c_nFees c_undo].
  exists cs. rewrite K8, Hcoins. done.
Qed.

Lemma connect_txs_ok ns pindex h b i txs st st' :
  connect_txs mem ns pindex h b i txs st = Ok st' -> (0 < i)%nat -> cache_ok (c_view st) -> Forall fits txs ->
  fresh_ids (cache_coins (c_view st)) txs ->
  exists l, l.*1 = txs /\ applied h (cache_coins (c_view st)) l (cache_coins (c_view st')) /\ cache_ok (c_view st') /\
    c_nFees st' = c_nFees st + total_fees l /\ c_undo st' = c_undo st ++ vtxundo (block_undo l).
Proof.
  revert i st. induction txs as [|tx txs IH]; intros i st H Hi Hc Hft Hfr.
  { injection H as <-. exists []. split; [done|]. split; [constructor|]. split; [done|]. cbn.
    split; [lia|by rewrite app_nil_r]. }
  cbn [connect_txs] in H. apply bind_Ok in H as (st1 & H1 & H). apply Forall_cons in Hft as [Hft1 Hft].
  destruct (fresh_ids_cons h (cache_coins (c_view st)) tx txs (proj2 Hft1) Hfr) as [Hnew Hfr'].
  apply connect_tx_ok in H1 as (cs & Hcs & K1 & K2 & K3 & K4); [|done|done|done].
  apply IH in H as (l & Hl & L1 & L2 & L3 & L4); [|lia|done|done|by rewrite K2].
  exists ((tx, cs) :: l). split; [by rewrite <- Hl|]. split; [constructor; [done|by rewrite <- K2]|].
  split; [done|]. cbn [total_fees foldr]. fold (total_fees l). split; [lia|].
  rewrite L4, K4. destruct i; [lia|]. cbn [Nat.ltb Nat.leb block_undo vtxundo fmap list_fmap snd]. by rewrite <- app_assoc.
Qed.

(** *** Connecting a block *)

Lemma check_transactions_ok txs :
  check_transactions txs = Ok () -> Forall (fun tx : CTransaction => accepted tx false) txs.
Proof.
  induction txs as [|tx txs IH]; intros H; [constructor|]. cbn [check_transactions] in H.
  apply bind_Ok in H as ([] & H1%CheckTransaction_Ok & H). constructor; auto.
Qed.

Lemma check_coinbase_ok block :
  check_coinbase block = Ok () ->
  exists cb rest, vtx block = cb :: rest /\ IsCoinBase cb = true /\ Forall (fun tx : CTransaction => IsCoinBase tx = false) rest.
Proof.
  unfold check_coinbase. destruct (vtx block) as [|cb rest]; [done|]. intros H.
  apply bind_Ok in H as (? & H1%check_Ok & H%check_Ok). exists cb, rest. split; [done|]. split; [done|].
  revert H. rewrite forallb_forall, Forall_forall. setoid_rewrite negb_true_iff. setoid_rewrite list_elem_of_In. done.
Qed.

Lemma CheckBlock_ok block tip params pow root block' :
  CheckBlock block tip params pow root = Ok block' ->
  vtx block' = vtx block /\
  (fChecked block = false -> check_coinbase block = Ok () /\ check_transactions (vtx block) = Ok ()).
Proof.
  unfold CheckBlock. destruct (fChecked block); [by intros [= <-]|]. intros H.
  do 3 (apply bind_Ok in H as (? & _ & H)). apply bind_Ok in H as ([] & H1 & H).
  apply bind_Ok in H as (? & _ & H). apply bind_Ok in H as ([] & H2 & H).
  apply bind_Ok in H as (? & _ & H). by injection H as <-.
Qed.

(** What connecting is not asked to find out about a block: that the
    identifiers of its transactions are new, that no transaction spends an
    outpoint twice, and that a block marked as checked was. *)
Record connectable (u : utxo) (block : CBlock) : Prop := {
  new_ids : fresh_ids u (vtx block);
  distinct_inputs : Forall (fun tx => NoDup (spends tx)) (vtx block);
  few_outputs : Forall (fun tx : CTransaction => Z.of_nat (length (vout tx)) <= 2 ^ 32) (vtx block);
  was_checked : fChecked block = true -> check_coinbase block = Ok () /\ check_transactions (vtx block) = Ok ();
}.

Lemma accepted_fits u block :
  connectable u block -> check_transactions (vtx block) = Ok () ->
  Forall fits (vtx block) /\ Forall money_outputs (vtx block).
Proof.
  intros Hb H%check_transactions_ok. pose proof (distinct_inputs _ _ Hb) as H1. pose proof (few_outputs _ _ Hb) as H2.
  rewrite !Forall_forall. rewrite Forall_forall in H, H1, H2. split; intros tx Htx; destruct (H _ Htx) as (_ & _ & _ & Hv & _); [|done].
  split; [auto|]. split; [|auto]. eapply Forall_impl; [exact Hv|]. intros o Ho. unfold CTxOut_IsNull. cbn in Ho.
  apply Z.eqb_neq. lia.
Qed.

(** A connected block is a coinbase and other transactions, applied in order;
    the coinbase gets at most the subsidy and the fees. *)
Lemma ConnectBlock_ok ns params block pindex c fJustCheck r :
  ConnectBlock mem ns params block pindex c fJustCheck = Ok r -> cache_ok c -> connectable (cache_coins c) block ->
  exists b cb l, ns_index ns !! pindex = Some b /\ vtx block = cb :: l.*1 /\ IsCoinBase cb = true /\
    Forall (fun tx : CTransaction => IsCoinBase tx = false) l.*1 /\
    Forall fits (vtx block) /\ Forall money_outputs (vtx block) /\
    applied (nHeight b) (cache_coins c) ((cb, []) :: l) (cache_coins (r_view r)) /\ cache_ok (r_view r) /\
    vtx (r_block r) = vtx block /\ r_undo r = block_undo l /\
    match pprev b with None => Some uint256_null | Some q => phashBlock <$> ns_index ns !! q end = Some (cache_best c) /\
    total_value (vout cb) <= total_fees l + GetBlockSubsidy (nHeight b) params.
Proof.
  unfold ConnectBlock. intros H Hc Hb. apply bind_Ok in H as (b & Hidx & H).
  destruct (ns_index ns !! pindex) as [b'|]; [|done]. injection Hidx as ->.
  apply bind_Ok in H as (? & _ & H). apply bind_Ok in H as (tip & _ & H).
  apply bind_Ok in H as (block' & Hck & H). apply CheckBlock_ok in Hck as [Hvtx Hck].
  assert (check_coinbase block = Ok () /\ check_transactions (vtx block) = Ok ()) as [Hcb Htx].
  { destruct (fChecked block) eqn:Hf; [exact (was_checked _ _ Hb Hf)|auto]. }
  apply check_coinbase_ok in Hcb as (cb & rest & Hv & Hcb & Hrest).
  destruct (accepted_fits _ _ Hb Htx) as [Hfits Hmoney].
  apply bind_Ok in H as (prev & Hprev & H). destruct (cache_GetBestBlock c) as [c1 best] eqn:Hbest.
  apply cache_GetBestBlock_ok in Hbest as (K1 & K2 & _ & ->); [|done].
  apply bind_Ok in H as (? & Heq%check_Ok%bool_decide_eq_true & H).
  apply bind_Ok in H as (fScriptChecks & _ & H). apply bind_Ok in H as (? & _ & H).
  apply bind_Ok in H as (st & Hst & H). rewrite Hvtx, Hv in Hst. cbn [connect_txs] in Hst.
  apply bind_Ok in Hst as (st1 & H1 & Hst).
  pose proof (new_ids _ _ Hb) as Hfr. pose proof Hfits as Hft. rewrite Hv in Hfr, Hft. apply Forall_cons in Hft as [Hft1 Hft].
  destruct (fresh_ids_cons (nHeight b) (cache_coins c) cb rest (proj2 Hft1) Hfr) as [Hnew Hfr'].
  apply connect_tx_ok in H1 as (cs & Hcs & M1 & M2 & M3 & M4); cbn [c_view c_nFees c_undo] in *;
    [|done|done|by rewrite K2].
  rewrite K2 in M2, Hcs. unfold tx_coins in Hcs. rewrite Hcb in Hcs. subst cs.
  apply connect_txs_ok in Hst as (l & Hl & N1 & N2 & N3 & N4); [|lia|done|done|by rewrite M2].
  apply bind_Ok in H as (coinbase & Hhd & H). rewrite Hvtx, Hv in Hhd. injection Hhd as <-.
  apply bind_Ok in H as (value & Hval & H). destruct (GetValueOut cb) as [v|] eqn:Hvo; [|done]. injection Hval as ->.
  apply GetValueOut_loop_Some in Hvo as (_ & -> & _).
  apply bind_Ok in H as (? & Hrew%check_Ok & H). rewrite negb_true_iff, Z.gtb_ltb, Z.ltb_ge in Hrew.
  apply bind_Ok in H as (? & _ & H).
  assert (vtx (r_block r) = vtx block /\ r_undo r = block_undo l /\ cache_ok (r_view r) /\
    cache_coins (r_view r) = cache_coins (c_view st)) as (R1 & R2 & R3 & R4).
  { assert (c_undo st = vtxundo (block_undo l)) as Hund by (rewrite N4, M4; done).
    destruct fJustCheck; [injection H as <-; cbn [r_block r_undo r_view]; by rewrite Hund|].
    do 4 (apply bind_Ok in H as (? & _ & H)). injection H as <-. cbn [r_block r_undo r_view].
    rewrite Hund. split; [done|]. split; [done|]. by split; [apply SetBestBlock_ok|]. }
  exists b, cb, l. rewrite R4. split; [done|]. split; [by rewrite Hl|]. split; [done|]. split; [by rewrite Hl|].
  split; [done|]. split; [done|]. split; [constructor; [unfold tx_coins; by rewrite Hcb|by rewrite <- M2]|].
  split; [done|]. split; [done|]. split; [done|]. split.
  - destruct (pprev b) as [q|]; [|injection Hprev as <-; by rewrite Heq].
    apply bind_Ok in Hprev as (cq & Hq & Hprev). destruct (ns_index ns !! q); [|done]. injection Hq as ->.
    injection Hprev as <-. cbn. by rewrite Heq.
  - unfold entry_fee in M3. cbn [fst] in M3. rewrite Hcb in M3. lia.
Qed.

(** Connecting a block creates at most its subsidy. *)
Lemma ConnectBlock_supply_ok ns params block pindex c fJustCheck r b :
  ConnectBlock mem ns params block pindex c fJustCheck = Ok r -> cache_ok c -> connectable (cache_coins c) block ->
  ns_index ns !! pindex = Some b ->
  supply (cache_coins (r_view r)) <= supply (cache_coins c) + GetBlockSubsidy (nHeight b) params.
Proof.
  intros H Hc Hb Hidx. pose proof (new_ids _ _ Hb) as Hfr.
  apply ConnectBlock_ok in H as (b' & cb & l & Hidx' & Hv & Hcb & Hrest & Hft & Hm & Hap & _ & _ & _ & _ & Hval); [|done|done].
  rewrite Hidx in Hidx'. injection Hidx' as <-. rewrite Hv in Hfr, Hft, Hm.
  apply Forall_cons in Hft as [Hft1 Hft], Hm as [Hm1 Hm].
  destruct (fresh_ids_cons (nHeight b) (cache_coins c) cb l.*1 (proj2 Hft1) Hfr) as [Hnew Hfr'].
  inversion Hap as [|? ? ? ? ? Hcs Hap']; subst.
  pose proof (supply_apply_tx (nHeight b) (cache_coins c) cb [] Hft1 Hm1 Hnew Hcs) as Hsup.
  pose proof (supply_applied _ _ _ _ Hap' Hfr' Hft Hm Hrest). unfold total_coins in Hsup.
  cbn in Hsup. lia.
Qed.

(** *** The chain *)

(** The coins that a connected block leaves are amounts of money again. *)
Lemma applied_all (Q : Coin -> Prop) h u l u' :
  applied h u l u' -> map_Forall (fun _ => Q) u ->
  Forall (fun tx : CTransaction =>
    Forall (fun o => CScript.IsUnspendable (scriptPubKey o) = false -> Q (make_Coin o h (IsCoinBase tx))) (vout tx)) l.*1 ->
  map_Forall (fun _ => Q) u'.
Proof.
  intros H. induction H as [u|u tx cs l u' _ _ IH]; intros Hu Hl; [done|].
  cbn in Hl. apply Forall_cons in Hl as [Htx Hl]. apply IH; [|done]. by apply apply_tx_all.
Qed.

Lemma ConnectBlock_money_ok ns params block pindex c fJustCheck r :
  ConnectBlock mem ns params block pindex c fJustCheck = Ok r -> cache_ok c -> connectable (cache_coins c) block ->
  map_Forall (fun _ => in_money) (cache_coins c) ->
  cache_ok (r_view r) /\ map_Forall (fun _ => in_money) (cache_coins (r_view r)).
Proof.
  intros H Hc Hb Hm.
  apply ConnectBlock_ok in H as (b & cb & l & _ & Hv & _ & _ & _ & Hout & Hap & Hok & _); [|done|done].
  split; [done|]. eapply applied_all; [exact Hap|exact Hm|]. cbn [fmap list_fmap fst]. change (fst <$> l) with l.*1.
  rewrite <- Hv. eapply Forall_impl; [exact Hout|]. intros tx Htx. eapply Forall_impl; [exact Htx|]. by intros o Ho _.
Qed.

Lemma supply_nonneg u : map_Forall (fun _ => in_money) u -> 0 <= supply u.
Proof.
  revert u. apply (map_ind (fun u => map_Forall (fun _ => in_money) u -> 0 <= supply u)).
  { intros _. by rewrite supply_empty. }
  intros o coin u Ho IH H. rewrite map_Forall_insert in H by done. destruct H as [[? _] H].
  rewrite supply_insert by done. specialize (IH H). lia.
Qed.

(** The coins of a node whose chain has the blocks of heights 0 to n - 1: it
    starts without coins; every block is connected at its height; between
    blocks the coins may be flushed or read through another cache. *)
Inductive chain_state (params : Params) : Z -> CCoinsViewCache V -> Prop :=
  | chain_start c : cache_ok c -> cache_coins c = ∅ -> chain_state params 0 c
  | chain_connect n c ns block pindex b r c' :
      chain_state params n c -> connectable (cache_coins c) block ->
      ns_index ns !! pindex = Some b -> nHeight b = n ->
      ConnectBlock mem ns params block pindex c false = Ok r ->
      cache_ok c' -> cache_coins c' = cache_coins (r_view r) ->
      chain_state params (n + 1) c'.
End connect.

(** *** Issuance *)

Section issuance.
Context (params : Params).
Local Abbreviation I := (nSubsidyHalvingInterval params).
Context (HI : 0 < I).

(** All the subsidies of the heights below [n]. *)
Fixpoint subsidies (n : nat) : CAmount :=
  match n with O => 0 | S n => subsidies n + GetBlockSubsidy (Z.of_nat n) params end.

(** The subsidy of an era of [I] blocks. *)
Definition era_subsidy (k : Z) : CAmount := if k >=? 64 then 0 else Z.shiftr INITIAL_SUBSIDY k.

Lemma era_subsidy_halves k : 0 <= k -> 0 <= 2 * era_subsidy (k + 1) <= era_subsidy k.
Proof.
  intros Hk. unfold era_subsidy. rewrite !Z.geb_leb.
  destruct (Z.leb_spec 64 (k + 1)), (Z.leb_spec 64 k); try lia.
  - pose proof (proj2 (Z.shiftr_nonneg INITIAL_SUBSIDY k) ltac:(by vm_compute)). lia.
  - rewrite <- Z.shiftr_shiftr by lia. rewrite (Z.shiftr_div_pow2 _ 1) by lia. change (2 ^ 1) with 2.
    pose proof (proj2 (Z.shiftr_nonneg INITIAL_SUBSIDY k) ltac:(by vm_compute)). dlia.
Qed.

(** What is issued from height [n] on is at most this. *)
Definition remaining (n : Z) : CAmount := era_subsidy (n / I) * (2 * I - n mod I).

Lemma remaining_step n : 0 < n -> GetBlockSubsidy n params + remaining (n + 1) <= remaining n /\ 0 <= remaining n.
Proof.
  intros Hn. unfold GetBlockSubsidy, remaining. rewrite (proj2 (Z.eqb_neq n 0)) by lia.
  rewrite Z.quot_div_nonneg by lia. fold (era_subsidy (n / I)).
  pose proof (era_subsidy_halves (n / I) ltac:(apply Z.div_pos; lia)) as Hh.
  pose proof (Z.mod_pos_bound n I HI) as Hr. pose proof (Z.div_mod n I ltac:(lia)) as Hd.
  destruct (decide (n mod I + 1 = I)) as [Heq|Hne].
  - rewrite <- (Z.div_unique (n + 1) I (n / I + 1) 0), <- (Z.mod_unique (n + 1) I (n / I + 1) 0) by lia. nia.
  - rewrite <- (Z.div_unique (n + 1) I (n / I) (n mod I + 1)), <- (Z.mod_unique (n + 1) I (n / I) (n mod I + 1)) by lia. nia.
Qed.

Lemma subsidies_remaining n : subsidies (S n) + remaining (Z.of_nat n + 1) <= GENESIS_MONEY + remaining 1.
Proof.
  induction n as [|n IH]; [change (subsidies 1) with GENESIS_MONEY; change (Z.of_nat 0 + 1) with 1; lia|].
  change (subsidies (S (S n))) with (subsidies (S n) + GetBlockSubsidy (Z.of_nat (S n)) params).
  destruct (remaining_step (Z.of_nat (S n)) ltac:(lia)) as [H _].
  replace (Z.of_nat n + 1) with (Z.of_nat (S n)) in IH by lia. lia.
Qed.

Lemma subsidy_nonneg h : 0 <= GetBlockSubsidy h params.
Proof using.
  unfold GetBlockSubsidy. destruct (Z.eqb_spec h 0); [by vm_compute|]. cbn zeta.
  destruct (_ >=? 64); [done|]. apply Z.shiftr_nonneg. by vm_compute.
Qed.

Lemma subsidies_bound n : I <= 2000000 -> 0 <= subsidies n <= MAX_MONEY.
Proof.
  intros Hmax.
  split; [induction n as [|n IH]; cbn [subsidies]; [lia|pose proof (subsidy_nonneg (Z.of_nat n)); lia]|].
  destruct n as [|n]; [by vm_compute|]. pose proof (subsidies_remaining n) as H.
  destruct (remaining_step (Z.of_nat n + 1) ltac:(lia)) as [_ H0].
  assert (remaining 1 <= INITIAL_SUBSIDY * (2 * I)).
  { unfold remaining. assert (0 <= era_subsidy (1 / I) <= INITIAL_SUBSIDY) as He.
    { assert (1 / I = 0 \/ 1 / I = 1) as [-> | ->]; [|by vm_compute..].
      destruct (decide (I = 1)) as [-> |]; [by right|left; apply Z.div_small; lia]. }
    pose proof (Z.mod_pos_bound 1 I HI). nia. }
  unfold GENESIS_MONEY, INITIAL_SUBSIDY, MAX_MONEY, COIN in *. lia.
Qed.
End issuance.
End validation_facts.

(** ** An example *)

Module validation_example.
Export coins_example sighash_example pow_example.
Import coins_facts txverify_facts undo_facts validation_facts.

#[export] Instance equihash : Equihash := {| EhIsValidSolution _ _ := true |}.
#[export] Instance storage : BlockStorage := {| UndoWriteToDisk _ := Some 1; WriteTxIndex _ := true |}.

(** A coinbase for height 8, a payment of the coin of 5, and the same payment
    with its input twice. *)
Definition coinbase (v : Z) : CTransaction := {|
  tx_data := {| vin := [{| prevout := COutPoint_null; scriptSig := [OP_8; OP_0]; nSequence := SEQUENCE_FINAL;
                           scriptWitness := [] |}];
                vout := [{| nValue := v; scriptPubKey := [OP_1] |}]; tx_nVersion := 1; tx_nLockTime := 0 |};
  hash := le_digits 8 32 100 |}.
Definition input : CTxIn :=
  {| prevout := out 1 0; scriptSig := []; nSequence := SEQUENCE_FINAL; scriptWitness := [] |}.
Definition payment (inputs : list CTxIn) (v : Z) : CTransaction := {|
  tx_data := {| vin := inputs; vout := [{| nValue := v; scriptPubKey := [OP_1] |}]; tx_nVersion := 1; tx_nLockTime := 0 |};
  hash := le_digits 8 32 101 |}.

Definition make_block (prev : Z) (txs : list CTransaction) : CBlock :=
  let b root := {| header := {| hdr_nVersion := 4; hdr_hashPrevBlock := le_digits 8 32 prev; hdr_hashMerkleRoot := root;
                                hdr_nTime := 2000; hdr_nBits := 0x207fffff; hdr_nNonce := uint256_null;
                                hdr_nSolution := [] |}; vtx := txs; fChecked := false |} in
  b (from_option fst uint256_null (BlockMerkleRoot (b uint256_null))).

Definition state_at (q : option ptr) (h : Z) (b : CBlock) : node_state := {|
  ns_index := <[2%positive := set_links q h None (CBlockIndex_of_header (header_GetHash b) b)]>
              {[1%positive := chain_example.entry 9 None 7]};
  ns_mapBlockIndex := ∅; ns_pindexBestHeader := None; ns_tip := Some 1%positive; hashAssumeValid := uint256_null;
  nMinimumChainWork_arith := []; scriptExecutionCacheNonce := uint256_null; scriptExecutionCache _ := false;
  nScriptCheckThreads := 0 |}.

Definition state (b : CBlock) : node_state := state_at (Some 1%positive) 8 b.

Definition connect (b : CBlock) : tx_result connected :=
  ConnectBlock mem0 (state b) params b 2%positive (make_cache base) false.

Definition block1 : CBlock := make_block 9 [coinbase (125 * COIN + 2); payment [input] 3].
Definition block2 : CBlock := make_block 9 [coinbase (125 * COIN); payment [input; input] 10].

Lemma base_new h : op_hash (out 1 0) <> h -> forall j, cache_coins (make_cache base) !! {| op_hash := h; op_n := j |} = None.
Proof.
  intros Hh j. unfold cache_coins. rewrite overlay_lookup. cbn [make_cache cacheCoins view_base coins db_laws base fst].
  rewrite lookup_empty. apply lookup_singleton_ne. intros Heq. apply Hh. by rewrite Heq.
Qed.

Lemma base_ok : cache_ok (make_cache base).
Proof. exact cache0_ok. Qed.

Lemma block1_connectable : connectable (cache_coins (make_cache base)) block1.
Proof.
  split.
  - split; [decided|]. repeat (apply Forall_cons; split; [intros j; apply base_new; decided|]). constructor.
  - decided.
  - decided.
  - done.
Qed.

Lemma base_coins : cache_coins (make_cache base) = {[out 1 0 := coin 5]}.
Proof. vm_compute. reflexivity. Qed.

Lemma base_supply : supply (cache_coins (make_cache base)) = 5.
Proof. vm_compute. reflexivity. Qed.

Lemma base_money : map_Forall (fun _ => in_money) (cache_coins (make_cache base)).
Proof. rewrite base_coins. apply map_Forall_singleton. unfold in_money. vm_compute. split; discriminate. Qed.

Lemma state_entry blk : exists b, ns_index (state blk) !! 2%positive = Some b /\ nHeight b = 8.
Proof. eexists. cbn [ns_index state state_at]. rewrite lookup_insert_eq. split; reflexivity. Qed.

Lemma state_height blk b : ns_index (state blk) !! 2%positive = Some b -> nHeight b = 8.
Proof. cbn [ns_index state state_at]. rewrite lookup_insert_eq. intros H. apply (inj Some) in H. by subst b. Qed.

(** The first block, and the coins before it. *)
Definition block0 : CBlock := make_block 0 [coinbase GENESIS_MONEY].
Definition cache_start : CCoinsViewCache db := make_cache (∅, uint256_null).

Lemma start_coins : cache_coins cache_start = ∅.
Proof. reflexivity. Qed.
Lemma start_ok : cache_ok cache_start.
Proof. split; cbn; [apply map_Forall_empty|apply map_Forall_empty|reflexivity]. Qed.

Lemma block0_connectable : connectable (cache_coins cache_start) block0.
Proof.
  rewrite start_coins. split; [|decided|decided|done].
  split; [decided|]. apply Forall_singleton. intros j. apply lookup_empty.
Qed.

(** The blocks are connected. *)
Definition connects (r : tx_result (connected (V := db))) : bool := match r with Ok _ => true | Err _ => false end.
Definition connect0 : tx_result connected := ConnectBlock mem0 (state_at None 0 block0) params block0 2%positive cache_start false.

Lemma connects_Ok r : connects r = true -> exists c, r = Ok c.
Proof. destruct r as [c|e]; [by exists c|done]. Qed.
Lemma connect0_Ok : exists c, connect0 = Ok c.
Proof. apply connects_Ok. vm_compute. reflexivity. Qed.
Lemma connect1_Ok : exists c, connect block1 = Ok c.
Proof. apply connects_Ok. vm_compute. reflexivity. Qed.
Lemma connect2_Ok : exists c, connect block2 = Ok c.
Proof. apply connects_Ok. vm_compute. reflexivity. Qed.
End validation_example.
Import coins_facts txverify_facts undo_facts validation_facts.

(** ** Properties *)

(** C2: A connected block does to the coins what its transactions say.  When
    [ConnectBlock] accepts a block (whose transactions are new and spend no
    outpoint twice), the block is a coinbase followed by other transactions;
    the coins afterwards are those of applying the transactions one after
    another, where each spends coins that are there; what each spent is the
    undo data; the coinbase gets at most the subsidy of the height and the
    fees, so that the supply grows by at most the subsidy, and every coin is
    still an amount of money. *)
Theorem ConnectBlock_correct `{Hs : HashFunctions} `{L : Layout} `{IO : cpp_int_io} `{Eh : Equihash} `{E : ed25519}
    (mem : memory) `{St : BlockStorage} {V : Type} `{CV : CCoinsView V} `{P : CoinsPlatform}
    `{PL : !CoinsPlatformLaws P} `{CL : !CoinsViewLaws CV}
    (ns : node_state) (params : Params) (block : CBlock) (pindex : ptr) (view : CCoinsViewCache V) (fJustCheck : bool)
    (r : connected) :
  ConnectBlock mem ns params block pindex view fJustCheck = Ok r ->
  cache_ok view -> map_Forall (fun _ => in_money) (cache_coins view) -> connectable (cache_coins view) block ->
  exists b cb l, ns_index ns !! pindex = Some b /\ vtx block = cb :: l.*1 /\ IsCoinBase cb = true /\
    Forall (fun tx : CTransaction => IsCoinBase tx = false) l.*1 /\
    applied (nHeight b) (cache_coins view) ((cb, []) :: l) (cache_coins (r_view r)) /\
    cache_ok (r_view r) /\ map_Forall (fun _ => in_money) (cache_coins (r_view r)) /\
    r_undo r = {| vtxundo := (fun p => {| vprevout := p.2 |}) <$> l |} /\
    total_value (vout cb) <= total_fees l + GetBlockSubsidy (nHeight b) params /\
    supply (cache_coins (r_view r)) <= supply (cache_coins view) + GetBlockSubsidy (nHeight b) params.
Proof.
  intros H Hc Hm Hb. destruct (ConnectBlock_money_ok _ _ _ _ _ _ _ _ H Hc Hb Hm) as [_ Hm'].
  destruct (ConnectBlock_ok _ _ _ _ _ _ _ _ H Hc Hb) as (b & cb & l & H1 & H2 & H3 & H4 & _ & _ & H5 & H6 & _ & H7 & _ & H8).
  exists b, cb, l. pose proof (ConnectBlock_supply_ok _ _ _ _ _ _ _ _ b H Hc Hb H1). done.
Qed.

Import validation_example.

Lemma ConnectBlock_correct_witness :
  exists r, connect block1 = Ok r /\ supply (cache_coins (r_view r)) <= 5 + 125 * COIN.
Proof.
  destruct connect1_Ok as [r H].
  exists r. split; [exact H|]. unfold connect in H.
  destruct (ConnectBlock_correct _ _ _ _ _ _ _ _ H base_ok) as (b & cb & l & Hb & _ & _ & _ & _ & _ & _ & _ & _ & Hs).
  - exact base_money.
  - exact block1_connectable.
  - rewrite (state_height _ _ Hb), base_supply in Hs. exact Hs.
Defined.

(** C1: The money supply is bounded.  In every state that connecting blocks
    one after another from an empty set of coins reaches ([chain_state]),
    whatever the node and the blocks, the coins are amounts of money whose sum
    is at most all the subsidies of the heights connected; with a halving
    interval of at most 2,000,000 blocks the subsidy is never negative and no
    number of subsidies sums up to more than [MAX_MONEY], so that no such sum
    overflows.  The blocks have to be [connectable]: their transactions have new
    ids and at most 2^32 outputs each, none of them names an output twice (which
    the code does not check, see [duplicate_inputs_inflate]), and if [fChecked]
    is set already, then the coinbase and the transactions did pass the checks
    of [CheckBlock]. *)
Theorem supply_bounded `{Hs : HashFunctions} `{L : Layout} `{IO : cpp_int_io} `{Eh : Equihash} `{E : ed25519}
    (mem : memory) `{St : BlockStorage} {V : Type} `{CV : CCoinsView V} `{P : CoinsPlatform}
    `{PL : !CoinsPlatformLaws P} `{CL : !CoinsViewLaws CV} (params : Params) (n : Z) (view : CCoinsViewCache V) :
  0 < nSubsidyHalvingInterval params <= 2000000 ->
  chain_state mem params n view ->
  0 <= n /\ cache_ok view /\ map_Forall (fun _ => in_money) (cache_coins view) /\
  0 <= supply (cache_coins view) <= subsidies params (Z.to_nat n) /\
  (forall h, 0 <= GetBlockSubsidy h params) /\ forall k, 0 <= subsidies params k <= MAX_MONEY.
Proof.
  intros HI H.
  assert (0 <= n /\ cache_ok view /\ map_Forall (fun _ => in_money) (cache_coins view) /\
    supply (cache_coins view) <= subsidies params (Z.to_nat n)) as (Hn & Hc & Hm & Hsup).
  { induction H as [c Hc Hcoins|n c ns block pindex b r c' _ (Hn & Hc & Hm & Hsup) Hb Hidx Hh Hcon Hc' Hcoins].
    - rewrite Hcoins. split; [lia|]. split; [done|]. split; [apply map_Forall_empty|]. by rewrite supply_empty.
    - rewrite Hcoins. split; [lia|]. split; [done|].
      destruct (ConnectBlock_money_ok _ _ _ _ _ _ _ _ Hcon Hc Hb Hm) as [_ Hm']. split; [done|].
      pose proof (ConnectBlock_supply_ok _ _ _ _ _ _ _ _ _ Hcon Hc Hb Hidx) as Hsup'. rewrite Hh in Hsup'.
      replace (Z.to_nat (n + 1)) with (S (Z.to_nat n)) by lia. cbn [subsidies]. rewrite Z2Nat.id by done. lia. }
  split; [done|]. split; [done|]. split; [done|]. split; [split; [by apply supply_nonneg|done]|].
  split; [apply subsidy_nonneg|]. intros k. apply subsidies_bound; lia.
Qed.

Lemma supply_bounded_witness :
  exists r, ConnectBlock mem0 (state_at None 0 block0) params block0 2%positive cache_start false = Ok r /\
    supply (cache_coins (r_view r)) <= MAX_MONEY.
Proof.
  destruct connect0_Ok as [r H]. unfold connect0 in H. exists r. split; [exact H|].
  destruct (ConnectBlock_money_ok _ _ _ _ _ _ _ _ H start_ok block0_connectable) as [Hok _];
    [rewrite start_coins; apply map_Forall_empty|].
  destruct (supply_bounded mem0 params 1 (r_view r)) as (_ & _ & _ & Hs & _ & Hmax).
  - split; reflexivity || discriminate.
  - refine (chain_connect mem0 params 0 _ _ _ _ _ r (r_view r) _ block0_connectable _ _ H Hok eq_refl).
    + apply chain_start; [exact start_ok|exact start_coins].
    + cbn [ns_index state_at]. apply lookup_insert_eq.
    + reflexivity.
  - exact (Z.le_trans _ _ _ (proj2 Hs) (proj2 (Hmax _))).
Defined.

(** C3: Disconnecting undoes connecting.  The undo data that [ConnectBlock]
    keeps takes the block back, from any cache that stands for the coins
    after it: [DisconnectBlock] reports no mismatch, restores exactly the
    coins before the block and the best block.  The coins before it have to
    be of known height: for a coin of height 0, which the undo data cannot
    tell from one without metadata, the undo fails unless another output of
    the same transaction is unspent. *)
Theorem DisconnectBlock_undoes `{Hs : HashFunctions} `{L : Layout} `{IO : cpp_int_io} `{Eh : Equihash} `{E : ed25519}
    (mem : memory) `{St : BlockStorage} {V : Type} `{CV : CCoinsView V} `{P : CoinsPlatform}
    `{PL : !CoinsPlatformLaws P} `{CL : !CoinsViewLaws CV} :
  (forall (ns : node_state) (params : Params) (block : CBlock) (pindex : ptr) (b : CBlockIndex)
     (view c : CCoinsViewCache V) (fJustCheck : bool) (r : connected),
     ConnectBlock mem ns params block pindex view fJustCheck = Ok r ->
     cache_ok view -> connectable (cache_coins view) block ->
     map_Forall (fun _ => restorable) (cache_coins view) ->
     ns_index ns !! pindex = Some b -> 0 < nHeight b < 2 ^ 31 ->
     cache_ok c -> cache_coins c = cache_coins (r_view r) ->
     exists c', DisconnectBlock (ns_index ns) (r_block r) (Some (r_undo r)) b c = Some (Ok (c', DISCONNECT_OK)) /\
       cache_ok c' /\ cache_coins c' = cache_coins view /\ hashBlock c' = cache_best view) /\
  (forall (c : CCoinsViewCache V) (o : COutPoint) (coin : Coin),
     cache_ok c -> coin_nHeight coin = 0 ->
     (forall j, cache_coins c !! {| op_hash := op_hash o; op_n := j |} = None) ->
     exists c', ApplyTxInUndo coin c o = Ok (c', DISCONNECT_FAILED)).
Proof.
  split; [|apply ApplyTxInUndo_height_0].
  intros ns params block pindex b view c fJustCheck r H Hv Hb Hr Hidx Hh Hc Hcoins.
  destruct (ConnectBlock_ok _ _ _ _ _ _ _ _ H Hv Hb)
    as (b' & cb & l & Hidx' & Hvtx & Hcb & Hrest & Hfits & _ & Hap & _ & Hvtx' & -> & Hprev & _).
  rewrite Hidx in Hidx'. injection Hidx' as <-. pose proof (new_ids _ _ Hb) as Hfr. rewrite <- Hvtx' in *.
  by eapply DisconnectBlock_ok.
Qed.

Lemma DisconnectBlock_undoes_witness :
  exists r, connect block1 = Ok r /\
    exists c', DisconnectBlock (ns_index (state block1)) (r_block r) (Some (r_undo r))
                 (default (chain_example.entry 0 None 0) (ns_index (state block1) !! 2%positive)) (r_view r)
               = Some (Ok (c', DISCONNECT_OK)) /\ cache_coins c' = {[out 1 0 := coin 5]}.
Proof.
  destruct connect1_Ok as [r H].
  exists r. split; [exact H|]. unfold connect in H.
  destruct (ConnectBlock_money_ok _ _ _ _ _ _ _ _ H base_ok block1_connectable base_money) as [Hok _].
  destruct (state_entry block1) as (b & Hb & Hh).
  destruct (proj1 (DisconnectBlock_undoes mem0) _ _ _ _ b _ (r_view r) _ r H base_ok block1_connectable)
    as (c' & Hd & _ & Hc' & _).
  - rewrite base_coins. apply map_Forall_singleton. split; [discriminate|split; reflexivity].
  - exact Hb.
  - rewrite Hh. split; reflexivity.
  - exact Hok.
  - reflexivity.
  - rewrite Hb. exists c'. split; [exact Hd|]. rewrite Hc'. apply base_coins.
Defined.

(** C4: Inputs spent twice.  [ConnectBlock] accepts a block in which a
    transaction names the same coin twice: [CheckBlock] calls
    [CheckTransaction] without the test for duplicate inputs, which would
    have rejected it, and [SpendCoin] hands out a second time an entry that
    it has spent but keeps in the cache.  The block of the example pays 10
    for a coin of 5, so that the supply grows by more than the subsidy. *)
Theorem duplicate_inputs_inflate :
  exists r, ConnectBlock mem0 (state block2) params block2 2%positive (make_cache base) false = Ok r /\
    cache_ok (make_cache base) /\
    supply (cache_coins (make_cache base)) + GetBlockSubsidy 8 params < supply (cache_coins (r_view r)) /\
    Exists (fun tx : CTransaction => CheckTransaction tx true = Err (invalid 100 "bad-txns-inputs-duplicate")) (vtx block2).
Proof.
  destruct connect2_Ok as [r H]. exists r. split; [exact H|].
  split; [exact base_ok|]. split; [|right; left; vm_compute; reflexivity].
  assert (match connect block2 with Ok r => Some (supply (cache_coins (r_view r))) | Err _ => None end =
    Some (10 + 125 * COIN)) as Hs by (vm_compute; reflexivity).
  rewrite H in Hs. apply (inj Some) in Hs. rewrite Hs, base_supply. vm_compute. reflexivity.
Qed.
