(* ===== verification/ChainParams.v ===== *)
(** * The networks ([chainparams.cpp], [chainparams.h])

    The consensus parameters and the genesis blocks of the three networks,
    with the hash functions that the program uses.  The ports, seeds, prefixes
    and flags of [CChainParams] that have no part in consensus are left out.
    The authorization key is an argument, like [CPubKey] in [Params]. *)

From S2P Require Import Prelude ArithUint256 Uint256 Hash Crypto Chain Params Pow VersionBits Script Interpreter Serialize.
From S2P Require Import Transaction SigHash Coins TxVerify Block Merkle BlockCheck Undo Validation.

(** The characters of a string literal. *)
Definition text (s : string) : bytes := map (fun c => Z.of_nat (Ascii.nat_of_ascii c)) (String.list_ascii_of_string s).

Section genesis.
Context `{Hs : HashFunctions} `{L : Layout}.

Definition CreateGenesisBlock_from (pszTimestamp : bytes) (genesisOutputScript : bytes) (nTime : Z) (nNonce : uint256)
    (nSolution : bytes) (nBits nVersion : Z) (genesisReward : CAmount) : option CBlock :=
  let txNew := {|
    vin := [{| prevout := COutPoint_null;
               scriptSig := CScript.push_data (CScript.push_data (CScript.push_int64 [] 0) (CScriptNum.serialize 4)) pszTimestamp;
               nSequence := SEQUENCE_FINAL; scriptWitness := [] |}];
    vout := [{| nValue := genesisReward; scriptPubKey := genesisOutputScript |}];
    tx_nVersion := 1; tx_nLockTime := 0 |} in
  let genesis root := {|
    header := {| hdr_nVersion := nVersion; hdr_hashPrevBlock := uint256_null; hdr_hashMerkleRoot := root;
                 hdr_nTime := nTime; hdr_nBits := nBits; hdr_nNonce := nNonce; hdr_nSolution := nSolution |};
    vtx := [MakeTransaction txNew]; fChecked := false |} in
  root ← BlockMerkleRoot (genesis uint256_null);
  Some (genesis (fst root)).

Definition CreateGenesisBlock (nTime : Z) (nNonce : uint256) (nSolution : bytes) (nBits nVersion : Z)
    (genesisReward : CAmount) : option CBlock :=
  let pszTimestamp := text "The Times 03/Jan/2009 Chancellor on brink of second bailout for banks" in
  s ← CScript.push_opcode [] OP_DUP;
  s ← CScript.push_opcode s OP_HASH160;
  let s := CScript.push_data s (hex.ParseHex (text "3bf1b57c1b21c5eb32caf9e1f0c6ff795156dd20")) in
  s ← CScript.push_opcode s OP_EQUALVERIFY;
  genesisOutputScript ← CScript.push_opcode s OP_CHECKSIG;
  CreateGenesisBlock_from pszTimestamp genesisOutputScript nTime nNonce nSolution nBits nVersion genesisReward.
End genesis.

(** ** The solutions of the genesis blocks *)

Definition main_solution : string :=
  "00c9c1cf397445d1bf72a2db19b821399cef9517e710b09ca26f091fbef2bfe25ecbf3948a451a7801ed0cd0e1cdd6782c37f26d6179a1df97a4e37456b83621a3e5df7f29a48fe26f128569ea4750b02338fe430b04eaec448dede3a46d95327e699b4185fef82505466a4615fb5895c7235ff7ce3c5ea3b3a8191fd9030fa307cbe2a16849f320d700db4ba45f49e19fb9e010b18da64aa1ee75f59253410d4886bb09fbfc482806c4788e5a678df5fb09c5355dd178deacda9e397a293b2b5b2e910a015663e3cc9c4cfae9e0d297e30c06dce1166274c1e3f43673f8234342dd41b30b2c1f13a56e3eebab4091631aa3d57a7f823f0bebde4aea08c902ca866de87bede803fb75f900568f72956e5421230e84535e8f671a98223827de0c91912af91038169d54571a3a0dd1ff9b63695328dbeb95ac3d71dc3670fc54a862767bb854a6cf556a93ff1682dc129d0196118ecc97f606e2d573880971f25dfbe957766e43ffe5a30832d4b3cccdeab893faf1a2f4961d3b9902a09789e78198828246a23488e0e9f0bfa9d0474403b74c12446a28ebedce67cf3c7655de2858d1623a03f0b8357593457f65abe224b77a1904e2f79c953d51d49bb21a6b6c7db330c851b4fe0bba14e3969d8b20078ba08a0c293ef7b753fcc6f15b4edfe7f9f5c827d5cd329e358eb3ee8fa4fd6d3d6825d51d7a02c10aa162958f17491adaf1d324e371c07d83603e120317a916557a53c6cda524826df2ee9dddfc80bcc03913122774d94673d648c5b330a7227c65840073af7b2c43ca81915ce9cb52d117b4124b5c9a84b874df74122d22b6609610c112bfb4f1f2330401e55374b297230f66659556e831227595beeceeb32dd4ab54ab5f334a4cb79a6f504b8f94958d95d575f18b2472d9cb37b2e2eb5d66a0393f882879114ade5f13381917fd01b28bd61313b079ac47dd3594e9ea3f68211c2cc90e76e2d35d70f5a9c10a234684508966be57d91e051c4fecc4398ece0df90155c7a0e6cc2dfcf6d5038f36dfe43103718dd1ceac53716cda69c1b49af422700ad555b8af1eb1677bc8b189c4940714b26b877e204984b55c2fe6fe4739d1f9963653966e6db63f396e2880cbac3996eb88d80ec2e59b65c119be827ca98a44db56d309173b4f7d7c958013c97ad3287cdc829f04cc2450fb1e2f2be209b0672d3f7e7901835443a929224281b1ebde519944473ca5f72d5e602a731a551b7eaf4f2c4bc68c9fb512842dec6fb2f6ca9d8a672397b1a88f170b47ad1472a7d8a49e65f286f3e7651691d210bf88fffff014719e9c2c6868a4ae500c691f334f735de8151f4730d3417d30f57dcb8af3f3d91cde8e9e9b9c52490a489453cde886b68f30dadc812fc88c4f8d65c883a4daa49c48fd8a8561586bb0b101dc0fdf6d9f369ba74e83e043ca44052488d905d10d4fcdc73906875bad06c4e640f0dbaf39bebee64f05146c80d0b442dfba1785218957e03d57f36d98ef1466f69aab506ae4e1c2326a02f45a3ac3a23bc40304daa15619eba685bc4a10db798bc1d8d6ec328d06726e648ecf2a3ed35a7a79e8fdf8049b2798ffe7e0162549814c498483c943f49e603fa7e527f231652d55e37e83c49c75677cca772d42ea256f186fbb94aa0332c6355649876f6fc6a55556bcec69e94ff048781e5312723ee5f0cb3dd5f6ff28524d95db5355be9a04607ae2de5baba15a73f10225faef60b1b7cf02f853f9fb3e9295967191627574d5451855e2287f7af50392e500751202d36ecc71e61f7c5a68af419d724707e8f04f21b225c5c881e13ddf392c9480e3dc0ecd0dfad68dbb0c88febe1956569d703d2aaf423a1d0b11e8ad3aeeb19819e76086f5b3dab75dce7effcdfe".

Definition test_solution : string :=
  "0046ebc0ca4a720fa622b1307cd81ab9014eaed69a0af0075b82242a9176bfe42a43419f51707d180f28307e9ee718e8c595be8b2468612c983aa3f8db893131a8976e7d92a133fcfc9649887eb5d9bbe2b1de36037514e40b43fe831e0e20ae087266b523bb0a32df076cf9df72df722dd45399397c5ce16285f83bd31d123c41106849536f30f3d1ab23136ca612053f98fb41ba9d4a36582c87f83e867ee341a0e1c42cf38c960323dd21c68309c4aa2d012f44411551ca537dc2c410ec75395fc71c0c935764f997fa0f89c137cf51961f77ce710e206741f178533bff2a5f35f017f673092d669df48f1e9c337de2b5458b4fc196208293c7860c8ad1717806032e51690b9f9fec7a038e753f4e1225b1c5aff1ce8465aedf46a87a5dd0c672837c7eb30cdad6357ed98c93b1f4713e9c9dfdbd108bf923052cd152dce65998d34a4e73083dedc9cde257b2f33a01893912be15a167e9a274ec3a7a2c65d2945b7e05210d156e6912e8e9c8c5c599f152d99ad983bfca4107f67c32bcdcfe93548f1212a790aa70d6bab47ce85c0c0b6720b5a77bbb569a31855a686b15c599f7d80230eeb09e19da4af12350d8c6670ac0663e2787227174158447351c9fc0ae590ff8e94bda48833da52c1f6b5255fa1643fdd23bc5dbe9d0cd6633a7d49ecf25654149868b5c59c4c285b970db39a2800efa9cf7093502731d1eeaf15b59a15771db8f38a960c563f079646ed098e2a95fb4f49869f1793896e2c43b0d0b10205b9127560a851fd0e40fb82cd5bd10f1ed8fc223857deb6d52dfeaef5ff2e7959d12b23188f941b80a2ce914882bdcf3edf56172309b07455fc1f770e70a7b6c778167d345f389c1a49aa92146da931ca3c828d582686bee3c11e872b341faa8160993a9dd38c64638065bd6a5a7eb4c70d470c7d04fea34f61c01bf00a59828d71d65b72f3353b87d230893827d7dcc9427e252ce03a1e5359d6e45d3f54bd88ee2fa387a250f9af08c6d8dadfe8f14143577a53d05201a2bd9b932c4f48d3df5010bf67be988356c37e6dbab56f4fd070d965850427c92997984683b38e29d81318dd1cb20b56ceed1d3ce6773d02283ebbd6c30d267bbfc3817b9e47c5b46a013d63d04793fd7118ad80c5a1d2f24fee2b065a840679a273361157766aa26ed72e8b803c6630ae9c9be1114c20184dbb293ad3a38d27608487b9f7ee830844ff6f6b497882709398662555ee437f77ce58e530403485284dc1d6947bac0481f040245b69f2b25a3a7d1779a65581a2dda5a16f458249b03ff6f6980c3077642e2e1ffc5c8a36968c8ade5c0173ac5a31f4c2949d226d6da21eb4cadf731f0f9f30d5d6081305d9b373e9603f4f7af66be2792fa4a85165e06f632dc1d8559b0216fa91b2a38f2ee6bebd004e44102a10b0e8b2c25928885728cf14be43e3e0a290e349863107f33c0f1a3beb3b028ab54d0df99fb0bbb68af430acf7c93a338f0abdf663ed388b941c94389cb6461a3714b96cd04e05cf982e3be0fff518705162babee503436f697e42cf8362dd608ccb452cd40697f382a548cfd679c29dd00e23fef38945d72170bf92e797344419f7875c6cd9236e655e9b7b329d82dd20e1d1a4cb3453b4fc61591dd172ec104ffec69078f2b7f24deb997358e16c0b4d19afde822940e890e35f5b878156e24d3ea32de34bca2a551d2fa1b6f2e9f0a15d30c67ff48f5092ac5e351aaccf6b8248e47edac4a2b63e44fa2a175bcd6f09331f2127ae1d80b8fb538dd0ec62b578190cf4cddbf150c8995174e1977de525cdc10e3c225b580956303e5acde5126771e0bdda48ed7ad2cc699625e7c67a80af7c8f9b15b3616ea6d766383d9c406f39edbbb1fe9d71cf086fe".

Definition regtest_solution : string :=
  "1620db1dd1869b8fe92f99dc5443dcc727ff299e189827275ee9f931529a36e37b8ce927".

(** ** The networks *)

(** What consensus takes from [CChainParams]. *)
Record CChainParams := {
  consensus : Params;
  genesis : CBlock;
  mapCheckpoints : list (Z * uint256);
  nEquihashN : Z;
  nEquihashK : Z;
}.

Section networks.
Context `{L : Layout} (key : CPubKey).

Definition testdummy (nStartTime nTimeout : Z) : list BIP9Deployment :=
  [{| bit := 28; nStartTime := nStartTime; nTimeout := nTimeout |}].

(** The constructors; [None] is a failed assertion. *)
Definition CMainParams : option CChainParams :=
  genesis ← CreateGenesisBlock 1524206068
    (uint256S (text "0x0000000000000000000000000000000000000000000000000000000000000006"))
    (hex.ParseHex (text main_solution)) 0x1f7fffff 1 GENESIS_MONEY;
  let hash := header_GetHash (header genesis) in
  if bool_decide (hash = uint256S (text "0x003f15eade9586446b8dae5ff3eca036c8829dd695aa891738f0972ab3c2c92c"))
     && bool_decide (hdr_hashMerkleRoot (header genesis)
                     = uint256S (text "0x031fcb90377f5fdae730e3689f36d032cbcc036c27a935bf56a08ed958da8b2e")) then
    Some {|
      consensus := {|
        hashGenesisBlock := hash;
        nSubsidyHalvingInterval := 2000000;
        nRuleChangeActivationThreshold := 2736;
        nMinerConfirmationWindow := 2880;
        vDeployments := testdummy 1199145601 1230767999;
        powLimit := uint256S (text "007fffffffffffffffffffffffffffffffffffffffffffffffffffffffffffff");
        fPowAllowMinDifficultyBlocks := true;
        fPowNoRetargeting := false;
        nPowTargetSpacing := 60;
        nPowTargetTimespan := 2 * 24 * 60 * 60;
        nMinimumChainWork := uint256S (text "0x0000000000000000000000000000000000000000000000000000000000000000");
        defaultAssumeValid := uint256S (text "0x0000000000000000000000000000000000000000000000000000000000000000");
        authorizationForkHeight := 211680;
        authorizationKey := key |};
      genesis := genesis;
      mapCheckpoints := [(0, uint256S (text "003f15eade9586446b8dae5ff3eca036c8829dd695aa891738f0972ab3c2c92c"))];
      nEquihashN := 200;
      nEquihashK := 9 |}
  else None.

Definition CTestNetParams : option CChainParams :=
  genesis ← CreateGenesisBlock 1523876400
    (uint256S (text "0x0000000000000000000000000000000000000000000000000000000000000001"))
    (hex.ParseHex (text test_solution)) 0x207fffff 1 GENESIS_MONEY;
  let hash := header_GetHash (header genesis) in
  if bool_decide (hash = uint256S (text "0x09bf3167d39207977109a5864c4406cf5de8597f66ac520eafb92e93caf67b5a"))
     && bool_decide (hdr_hashMerkleRoot (header genesis)
                     = uint256S (text "0x031fcb90377f5fdae730e3689f36d032cbcc036c27a935bf56a08ed958da8b2e")) then
    Some {|
      consensus := {|
        hashGenesisBlock := hash;
        nSubsidyHalvingInterval := 2000000;
        nRuleChangeActivationThreshold := 2160;
        nMinerConfirmationWindow := 2880;
        vDeployments := testdummy 1199145601 1230767999;
        powLimit := uint256S (text "7fffffffffffffffffffffffffffffffffffffffffffffffffffffffffffffff");
        fPowAllowMinDifficultyBlocks := true;
        fPowNoRetargeting := false;
        nPowTargetSpacing := 60;
        nPowTargetTimespan := 2 * 24 * 60 * 60;
        nMinimumChainWork := uint256S (text "0x0000000000000000000000000000000000000000000000000000000000000000");
        defaultAssumeValid := uint256S (text "0x0000000000000000000000000000000000000000000000000000000000000000");
        authorizationForkHeight := 0;
        authorizationKey := key |};
      genesis := genesis;
      mapCheckpoints := [(0, uint256S (text "09bf3167d39207977109a5864c4406cf5de8597f66ac520eafb92e93caf67b5a"))];
      nEquihashN := 200;
      nEquihashK := 9 |}
  else None.

Definition CRegTestParams : option CChainParams :=
  genesis ← CreateGenesisBlock 1296688602
    (uint256S (text "0x0000000000000000000000000000000000000000000000000000000000000004"))
    (hex.ParseHex (text regtest_solution)) 0x207fffff 1 GENESIS_MONEY;
  let hash := header_GetHash (header genesis) in
  if bool_decide (hash = uint256S (text "0x34eb897a5f8e37c156c4170becc5993740003cbb3ce4a326ddd31701d3a749d0"))
     && bool_decide (hdr_hashMerkleRoot (header genesis)
                     = uint256S (text "0x031fcb90377f5fdae730e3689f36d032cbcc036c27a935bf56a08ed958da8b2e")) then
    Some {|
      consensus := {|
        hashGenesisBlock := hash;
        nSubsidyHalvingInterval := 150;
        nRuleChangeActivationThreshold := 108;
        nMinerConfirmationWindow := 144;
        vDeployments := testdummy 0 NO_TIMEOUT;
        powLimit := uint256S (text "7fffffffffffffffffffffffffffffffffffffffffffffffffffffffffffffff");
        fPowAllowMinDifficultyBlocks := true;
        fPowNoRetargeting := true;
        nPowTargetSpacing := 10 * 60;
        nPowTargetTimespan := 14 * 24 * 60 * 60;
        nMinimumChainWork := uint256S (text "0x00");
        defaultAssumeValid := uint256S (text "0x00");
        authorizationForkHeight := 0;
        authorizationKey := key |};
      genesis := genesis;
      mapCheckpoints := [(0, uint256S (text "34eb897a5f8e37c156c4170becc5993740003cbb3ce4a326ddd31701d3a749d0"))];
      nEquihashN := 48;
      nEquihashK := 5 |}
  else None.

(** [CreateChainParams]; [None] is the exception of an unknown chain. *)
Definition CreateChainParams (chain : string) : option CChainParams :=
  if String.eqb chain "main" then CMainParams
  else if String.eqb chain "test" then CTestNetParams
  else if String.eqb chain "regtest" then CRegTestParams
  else None.
End networks.

(** [UpdateVersionBitsParameters] of regtest. *)
Definition UpdateVersionBitsParameters (p : CChainParams) (d : nat) (nStartTime nTimeout : Z) : CChainParams :=
  let c := consensus p in
  {| consensus := {|
       hashGenesisBlock := hashGenesisBlock c;
       nSubsidyHalvingInterval := nSubsidyHalvingInterval c;
       nRuleChangeActivationThreshold := nRuleChangeActivationThreshold c;
       nMinerConfirmationWindow := nMinerConfirmationWindow c;
       vDeployments := alter (fun b => {| bit := bit b; nStartTime := nStartTime; nTimeout := nTimeout |}) d (vDeployments c);
       powLimit := powLimit c;
       fPowAllowMinDifficultyBlocks := fPowAllowMinDifficultyBlocks c;
       fPowNoRetargeting := fPowNoRetargeting c;
       nPowTargetSpacing := nPowTargetSpacing c;
       nPowTargetTimespan := nPowTargetTimespan c;
       nMinimumChainWork := nMinimumChainWork c;
       defaultAssumeValid := defaultAssumeValid c;
       authorizationForkHeight := authorizationForkHeight c;
       authorizationKey := authorizationKey c |};
     genesis := genesis p; mapCheckpoints := mapCheckpoints p; nEquihashN := nEquihashN p; nEquihashK := nEquihashK p |}.

(** ** Facts *)

Module chainparams_facts.

(** What the theorems on difficulty, version bits, subsidies and checkpoints
    ask of the parameters of a network. *)
Record sound (p : CChainParams) : Prop := {
  sound_genesis : hashGenesisBlock (consensus p) = header_GetHash (header (genesis p));
  sound_pow : pow_facts.params_ok (consensus p);
  sound_halving : 0 < nSubsidyHalvingInterval (consensus p) <= 2000000;
  sound_deployments : length (vDeployments (consensus p)) = MAX_VERSION_BITS_DEPLOYMENTS;
  sound_threshold : 0 < nRuleChangeActivationThreshold (consensus p) <= nMinerConfirmationWindow (consensus p);
  sound_period : forall d, d ∈ vDeployments (consensus p) ->
    0 <= bit d < VERSIONBITS_NUM_BITS /\ nStartTime d <= nTimeout d /\ nStartTime d <> ALWAYS_ACTIVE;
  sound_checkpoints : mapCheckpoints p = [(0, hashGenesisBlock (consensus p))];
}.

(** The genesis block on its own. *)
Record genesis_ok `{L : Layout} (p : CChainParams) : Prop := {
  genesis_transactions : exists tx, vtx (genesis p) = [tx] /\ IsCoinBase tx = true /\ GetValueOut tx = Some GENESIS_MONEY;
  genesis_root : BlockMerkleRoot (genesis p) = Some (hdr_hashMerkleRoot (genesis p), false);
  genesis_work : CheckProofOfWork (hashGenesisBlock (consensus p)) (hdr_nBits (genesis p)) (consensus p) = true;
  genesis_checked : forall Eh : Equihash, CheckEquihashSolution (genesis p) = true ->
    exists b, CheckBlock (genesis p) None (consensus p) true true = Ok b /\ fChecked b = true;
}.

(** Both as tests that can be run, with the key and the layout unknown. *)
Definition sound_test (p : CChainParams) : bool :=
  let c := consensus p in
  bool_decide (hashGenesisBlock c = header_GetHash (header (genesis p)))
  && (length (powLimit c) =? 32)%nat && forallb (fun b => (0 <=? b) && (b <? 256)) (powLimit c)
  && (4 <=? nPowTargetTimespan c) && (nPowTargetTimespan c <? 2 ^ 60)
  && (0 <? nPowTargetSpacing c) && (nPowTargetSpacing c <=? nPowTargetTimespan c)
  && (0 <? nSubsidyHalvingInterval c) && (nSubsidyHalvingInterval c <=? 2000000)
  && (length (vDeployments c) =? MAX_VERSION_BITS_DEPLOYMENTS)%nat
  && (0 <? nRuleChangeActivationThreshold c) && (nRuleChangeActivationThreshold c <=? nMinerConfirmationWindow c)
  && forallb (fun d => (0 <=? bit d) && (bit d <? VERSIONBITS_NUM_BITS) && (nStartTime d <=? nTimeout d)
                       && negb (nStartTime d =? ALWAYS_ACTIVE)) (vDeployments c)
  && bool_decide (mapCheckpoints p = [(0, hashGenesisBlock c)]).

Lemma sound_test_ok p : sound_test p = true -> sound p.
Proof.
  unfold sound_test. cbn zeta. rewrite !andb_true_iff, !bool_decide_eq_true, !Z.leb_le, !Z.ltb_lt, !Nat.eqb_eq, !forallb_forall.
  intros (((((((((((((Hg & Hl) & Hb) & H1) & H2) & H3) & H4) & H5) & H6) & H7) & H8) & H9) & Hd) & Hc).
  constructor; [exact Hg| |exact (conj H5 H6)|exact H7|exact (conj H8 H9)| |exact Hc].
  - split; [split; [exact Hl|]|exact (conj (conj H1 H2) (conj H3 H4))]. apply Forall_forall. intros b Hin.
    apply list_elem_of_In in Hin. specialize (Hb b Hin). unfold in_range. clear - Hb. lia.
  - intros d Hin. apply list_elem_of_In in Hin. specialize (Hd d Hin).
    rewrite !andb_true_iff, !Z.leb_le, !Z.ltb_lt, negb_true_iff, Z.eqb_neq in Hd.
    destruct Hd as (((D1 & D2) & D3) & D4). exact (conj (conj D1 D2) (conj D3 D4)).
Qed.

Definition genesis_test `{L : Layout} (p : CChainParams) : bool :=
  let b := genesis p in
  match vtx b with
  | [tx] => IsCoinBase tx && bool_decide (GetValueOut tx = Some GENESIS_MONEY)
  | _ => false
  end
  && bool_decide (BlockMerkleRoot b = Some (hdr_hashMerkleRoot b, false))
  && CheckProofOfWork (hashGenesisBlock (consensus p)) (hdr_nBits b) (consensus p)
  && negb (fChecked b)
  && match check_merkle_root b;; check_size b;; check_coinbase b;; check_auth b None (consensus p) true;;
           check_transactions (vtx b);;
           check (E := tx_failure) (negb (u32 (legacy_sigops (vtx b) * WITNESS_SCALE_FACTOR) >? MAX_BLOCK_SIGOPS_COST))
             (invalid 100 "bad-blk-sigops") with
     | Ok _ => true
     | Err _ => false
     end.

Lemma genesis_test_ok `{L : Layout} p : sound p -> genesis_test p = true -> genesis_ok p.
Proof.
  intros [Hg _ _ _ _ _ _]. unfold genesis_test. cbn zeta. rewrite !andb_true_iff, bool_decide_eq_true, negb_true_iff.
  intros ((((Ht & Hr) & Hw) & Hf) & Hc). constructor; [|exact Hr|exact Hw|].
  - destruct (vtx (genesis p)) as [|tx [|]]; [discriminate| |discriminate]. exists tx.
    rewrite andb_true_iff, bool_decide_eq_true in Ht. exact (conj eq_refl Ht).
  - intros Eh HEh. unfold CheckBlock, CheckBlockHeader. rewrite Hf, HEh, <- Hg, Hw. cbn [negb andb check mbind result_bind].
    destruct (check_merkle_root _) as [[]|]; [cbn [mbind result_bind] in *|discriminate].
    destruct (check_size _) as [[]|]; [cbn [mbind result_bind] in *|discriminate].
    destruct (check_coinbase _) as [[]|]; [cbn [mbind result_bind] in *|discriminate].
    destruct (check_auth _ _ _ _) as [[]|]; [cbn [mbind result_bind] in *|discriminate].
    destruct (check_transactions _) as [[]|]; [cbn [mbind result_bind] in *|discriminate].
    destruct (check _ _) as [[]|]; [cbn [mbind result_bind] in *|discriminate]. by eexists.
Qed.

Definition network_test `{L : Layout} (p : option CChainParams) : bool :=
  match p with Some p => sound_test p && genesis_test p | None => false end.

Lemma network_test_ok `{L : Layout} p : network_test p = true -> exists q, p = Some q /\ sound q /\ genesis_ok q.
Proof.
  destruct p as [q|]; [|done]. cbn. intros [Hs Hg]%andb_true_iff. apply sound_test_ok in Hs. exists q.
  split; [reflexivity|]. split; [exact Hs|]. exact (genesis_test_ok q Hs Hg).
Qed.

Lemma main_ok `{L : Layout} key : network_test (CMainParams key) = true.
Proof. vm_compute. reflexivity. Qed.
Lemma test_ok `{L : Layout} key : network_test (CTestNetParams key) = true.
Proof. vm_compute. reflexivity. Qed.
Lemma regtest_ok `{L : Layout} key : network_test (CRegTestParams key) = true.
Proof. vm_compute. reflexivity. Qed.
End chainparams_facts.

(** ** Properties *)

(** C18: The three networks are well-formed, with the real hash functions.
    Their constructors pass their assertions, that is, the genesis blocks built
    here have the hashes and the Merkle root written in the source.  Their
    parameters satisfy what the theorems on difficulty, version bits and
    subsidies ask for, the only checkpoint is the genesis block, and the genesis
    block has one coinbase that pays GENESIS_MONEY, meets its own proof of work
    and passes CheckBlock as soon as its Equihash solution is accepted.  Any
    other name of a chain is refused. *)
Theorem networks_sound `{L : Layout} (key : CPubKey) :
  (forall chain, chain ∈ ["main"; "test"; "regtest"]%string ->
     exists p, CreateChainParams key chain = Some p /\
       chainparams_facts.sound p /\ chainparams_facts.genesis_ok p) /\
  (forall chain, chain ∉ ["main"; "test"; "regtest"]%string -> CreateChainParams key chain = None).
Proof.
  split; intros chain.
  - rewrite !elem_of_cons, elem_of_nil. intros [->|[->|[->|[]]]]; apply chainparams_facts.network_test_ok.
    + apply chainparams_facts.main_ok.
    + apply chainparams_facts.test_ok.
    + apply chainparams_facts.regtest_ok.
  - rewrite !not_elem_of_cons. intros (H1 & H2 & H3 & _). unfold CreateChainParams.
    by rewrite (proj2 (String.eqb_neq _ _) H1), (proj2 (String.eqb_neq _ _) H2), (proj2 (String.eqb_neq _ _) H3).
Qed.


Lemma networks_sound_witness :
  exists p, CreateChainParams (L := {| sizeof_CTxIn := 104; sizeof_CTxOut := 40; sizeof_valtype := 24;
                                       sizeof_ok := ltac:(decided) |})
              {| IsFullyValid := true; Verify := fun _ _ => true |} "main" = Some p /\ chainparams_facts.sound p.
Proof.
  destruct (proj1 (networks_sound (L := {| sizeof_CTxIn := 104; sizeof_CTxOut := 40; sizeof_valtype := 24;
    sizeof_ok := ltac:(decided) |}) {| IsFullyValid := true; Verify := fun _ _ => true |}) "main"%string
    (list_elem_of_here _ _)) as (p & Hp & Hs & _).
  exists p. split; [exact Hp|exact Hs].
Defined.
