(* ===== verification/Standard.v ===== *)
(** * Standard scripts ([script/standard.h], [script/standard.cpp])

    [ScriptSolver] and its templates, destinations, and the scripts that pay
    to them; [IsStandard] of [policy/policy.cpp].  A [WitnessUnknown] keeps the
    first [length] bytes of its array, the ones that its comparisons and all
    its uses look at. *)

From S2P Require Import Prelude ArithUint256 Uint256 Hash Script Interpreter SigHash.
Import common.

Inductive txnouttype :=
  | TX_NONSTANDARD | TX_PUBKEY | TX_PUBKEYHASH | TX_SCRIPTHASH | TX_MULTISIG | TX_NULL_DATA
  | TX_WITNESS_V0_SCRIPTHASH | TX_WITNESS_V0_KEYHASH | TX_WITNESS_UNKNOWN.

#[export] Instance txnouttype_eq_dec : EqDecision txnouttype.
Proof. solve_decision. Defined.

Inductive CTxDestination :=
  | CNoDestination
  | CKeyID (hash : uint160)
  | CScriptID (hash : uint160)
  | WitnessV0ScriptHash (hash : uint256)
  | WitnessV0KeyHash (hash : uint160)
  | WitnessUnknown (version : Z) (program : bytes).

#[export] Instance CTxDestination_eq_dec : EqDecision CTxDestination.
Proof. solve_decision. Defined.

Definition IsValidDestination (dest : CTxDestination) : bool :=
  match dest with CNoDestination => false | _ => true end.

(** ** [ScriptSolver] *)

(** [mTemplates], in the order of its keys. *)
Definition mTemplates : list (txnouttype * bytes) :=
  [(TX_PUBKEY, [OP_PUBKEY; OP_CHECKSIG]);
   (TX_PUBKEYHASH, [OP_DUP; OP_HASH160; OP_PUBKEYHASH; OP_EQUALVERIFY; OP_CHECKSIG]);
   (TX_MULTISIG, [OP_SMALLINTEGER; OP_PUBKEYS; OP_SMALLINTEGER; OP_CHECKMULTISIG])].

(** [GetOp] with its three results, also when it fails. *)
Definition GetOp (pc : bytes) : bool * Z * valtype * bytes :=
  match CScript.GetOp2 pc with
  | Some (opcode, vch, pc') => (true, opcode, vch, pc')
  | None => (false, OP_INVALIDOPCODE, [], CScript.GetOp2_failed pc)
  end.

(** The loop that collects the public keys; it ends at an operand of another
    size, at the latest at the end of the script. *)
Fixpoint pubkeys_loop (fuel : nat) (pc1 : bytes) (opcode1 : Z) (vch1 : valtype) (sols : list valtype)
    : bytes * Z * valtype * list valtype :=
  if (length vch1 =? PUBLIC_KEY_SIZE)%nat then
    let sols := sols ++ [vch1] in
    let '(ok, opcode1, vch1, pc1) := GetOp pc1 in
    match fuel, ok with
    | S fuel, true => pubkeys_loop fuel pc1 opcode1 vch1 sols
    | _, _ => (pc1, opcode1, vch1, sols)
    end
  else (pc1, opcode1, vch1, sols).

(** One comparison of the loop over a template: the operand and the opcode of
    the script against the opcode of the template; [None] leaves the loop. *)
Definition match_op (opcode2 : Z) (vch2 : valtype) (opcode1 : Z) (vch1 : valtype) (sols : list valtype)
    : option (list valtype) :=
  if opcode2 =? OP_PUBKEY then
    if negb (length vch1 =? PUBLIC_KEY_SIZE)%nat then None else Some (sols ++ [vch1])
  else if opcode2 =? OP_PUBKEYHASH then
    if negb (length vch1 =? 20)%nat then None else Some (sols ++ [vch1])
  else if opcode2 =? OP_SMALLINTEGER then
    if (opcode1 =? OP_0) || ((opcode1 >=? OP_1) && (opcode1 <=? OP_16)) then
      n ← CScript.DecodeOP_N opcode1; Some (sols ++ [[u8 n]])
    else None
  else if negb (opcode1 =? opcode2) || negb (bool_decide (vch1 = vch2)) then None
  else Some sols.

Fixpoint match_template (fuel : nat) (pc1 pc2 : bytes) (sols : list valtype) : option (list valtype) :=
  match pc1, pc2 with
  | [], [] => Some sols
  | _, _ =>
      match fuel with
      | O => None
      | S fuel =>
          '(opcode1, vch1, pc1) ← CScript.GetOp2 pc1;
          '(opcode2, vch2, pc2) ← CScript.GetOp2 pc2;
          if opcode2 =? OP_PUBKEYS then
            let '(pc1, opcode1, vch1, sols) := pubkeys_loop (length pc1) pc1 opcode1 vch1 sols in
            '(opcode2, vch2, pc2) ← CScript.GetOp2 pc2;
            sols ← match_op opcode2 vch2 opcode1 vch1 sols;
            match_template fuel pc1 pc2 sols
          else
            sols ← match_op opcode2 vch2 opcode1 vch1 sols;
            match_template fuel pc1 pc2 sols
      end
  end.

(** The checks of a multisignature script: [m] and [n] are the first and the
    last solution. *)
Definition multisig_ok (sols : list valtype) : bool :=
  let m := nth 0 (default [] (head sols)) 0 in
  let n := nth 0 (default [] (last sols)) 0 in
  negb ((m <? 1) || (n <? 1) || (m >? n) || negb (Z.of_nat (length sols - 2) =? n)).

Fixpoint scan_templates (script1 : bytes) (templates : list (txnouttype * bytes))
    : bool * txnouttype * list valtype :=
  match templates with
  | [] => (false, TX_NONSTANDARD, [])
  | (t, script2) :: templates =>
      match match_template (length script1) script1 script2 [] with
      | Some sols =>
          if bool_decide (t = TX_MULTISIG) && negb (multisig_ok sols) then (false, t, sols)
          else (true, t, sols)
      | None => scan_templates script1 templates
      end
  end.

(** The verdict, [typeRet], which is left as it was on one of the paths, and
    [vSolutionsRet]. *)
Definition ScriptSolver (scriptPubKey : bytes) (typeRet : txnouttype) : bool * txnouttype * list valtype :=
  if CScript.IsPayToScriptHash scriptPubKey then
    (true, TX_SCRIPTHASH, [take 20 (drop 2 scriptPubKey)])
  else
    match CScript.IsWitnessProgram scriptPubKey with
    | Some (witnessversion, witnessprogram) =>
        if (witnessversion =? 0) && (length witnessprogram =? 20)%nat then
          (true, TX_WITNESS_V0_KEYHASH, [witnessprogram])
        else if (witnessversion =? 0) && (length witnessprogram =? 32)%nat then
          (true, TX_WITNESS_V0_SCRIPTHASH, [witnessprogram])
        else if negb (witnessversion =? 0) then
          (true, TX_WITNESS_UNKNOWN, [[u8 witnessversion]; witnessprogram])
        else (false, typeRet, [])
    | None =>
        if (1 <=? length scriptPubKey)%nat && (CScript.byte_at scriptPubKey 0 =? OP_RETURN)
           && CScript.IsPushOnly (drop 1 scriptPubKey)
        then (true, TX_NULL_DATA, [])
        else scan_templates scriptPubKey mTemplates
    end.

(** ** Destinations *)

Section destinations.
Context `{Hs : HashFunctions} (mem : memory).

(** [CPubKey(vch).GetID()]. *)
Definition GetID (vch : valtype) : CTxDestination := CKeyID (CHash160 (CPubKey_of mem vch)).

(** [None] is the result [false]. *)
Definition ExtractDestination (scriptPubKey : bytes) : option CTxDestination :=
  let '(ok, whichType, vSolutions) := ScriptSolver scriptPubKey TX_NONSTANDARD in
  if negb ok then None
  else
    match whichType, vSolutions with
    | TX_PUBKEY, s0 :: _ => if negb CPubKey_IsValid then None else Some (GetID s0)
    | TX_PUBKEYHASH, s0 :: _ => Some (CKeyID s0)
    | TX_SCRIPTHASH, s0 :: _ => Some (CScriptID s0)
    | TX_WITNESS_V0_KEYHASH, s0 :: _ => Some (WitnessV0KeyHash s0)
    | TX_WITNESS_V0_SCRIPTHASH, s0 :: _ => Some (WitnessV0ScriptHash s0)
    | TX_WITNESS_UNKNOWN, s0 :: s1 :: _ => Some (WitnessUnknown (nth 0 s0 0) s1)
    | _, _ => None
    end.

(** The verdict, [typeRet], [addressRet] and [nRequiredRet], which is left as
    it was on three of the paths. *)
Definition ExtractDestinations (scriptPubKey : bytes) (nRequiredRet : Z)
    : bool * txnouttype * list CTxDestination * Z :=
  let '(ok, typeRet, vSolutions) := ScriptSolver scriptPubKey TX_NONSTANDARD in
  if negb ok then (false, typeRet, [], nRequiredRet)
  else if bool_decide (typeRet = TX_NULL_DATA) then (false, typeRet, [], nRequiredRet)
  else if bool_decide (typeRet = TX_MULTISIG) then
    let keys := take (length vSolutions - 2) (drop 1 vSolutions) in
    let addressRet := omap (fun k => if negb CPubKey_IsValid then None else Some (GetID k)) keys in
    (match addressRet with [] => false | _ => true end, typeRet, addressRet,
     nth 0 (default [] (head vSolutions)) 0)
  else
    match ExtractDestination scriptPubKey with
    | None => (false, typeRet, [], 1)
    | Some address => (true, typeRet, [address], 1)
    end.

(** [CScriptVisitor]; [None] is the failed assertion of [EncodeOP_N]. *)
Definition GetScriptForDestination (dest : CTxDestination) : option bytes :=
  match dest with
  | CNoDestination => Some []
  | CKeyID keyID => Some (CScript.push_data [OP_DUP; OP_HASH160] keyID ++ [OP_EQUALVERIFY; OP_CHECKSIG])
  | CScriptID scriptID => Some (CScript.push_data [OP_HASH160] scriptID ++ [OP_EQUAL])
  | WitnessV0KeyHash id => Some (CScript.push_data [OP_0] id)
  | WitnessV0ScriptHash id => Some (CScript.push_data [OP_0] id)
  | WitnessUnknown version program =>
      op ← CScript.EncodeOP_N version; Some (CScript.push_data [op] program)
  end.

(** A public key is its 32 bytes. *)
Definition GetScriptForRawPubKey (pubKey : bytes) : bytes := CScript.push_data [] pubKey ++ [OP_CHECKSIG].

Definition GetScriptForMultisig (nRequired : Z) (keys : list bytes) : option bytes :=
  m ← CScript.EncodeOP_N nRequired;
  let script := foldl CScript.push_data [m] keys in
  n ← CScript.EncodeOP_N (i32 (Z.of_nat (length keys)));
  Some (script ++ [n; OP_CHECKMULTISIG]).

Definition GetScriptForWitness (redeemscript : bytes) : option bytes :=
  let '(ok, typ, vSolutions) := ScriptSolver redeemscript TX_NONSTANDARD in
  match ok, typ, vSolutions with
  | true, TX_PUBKEY, s0 :: _ => GetScriptForDestination (WitnessV0KeyHash (CHash160 s0))
  | true, TX_PUBKEYHASH, s0 :: _ => GetScriptForDestination (WitnessV0KeyHash s0)
  | _, _, _ => GetScriptForDestination (WitnessV0ScriptHash (CSHA3_256 redeemscript))
  end.
End destinations.

(** ** [IsStandard] of [policy/policy.cpp] *)

(** [fAcceptDatacarrier] and [nMaxDatacarrierBytes] are settings of the node. *)
Definition MAX_OP_RETURN_RELAY : Z := 83.

Section policy.
Variables (fAcceptDatacarrier : bool) (nMaxDatacarrierBytes : Z).

Definition IsStandard (scriptPubKey : bytes) (whichType : txnouttype) (witnessEnabled : bool)
    : bool * txnouttype :=
  let '(ok, whichType, vSolutions) := ScriptSolver scriptPubKey whichType in
  (if negb ok then false
   else if bool_decide (whichType = TX_MULTISIG) then
     let m := nth 0 (default [] (head vSolutions)) 0 in
     let n := nth 0 (default [] (last vSolutions)) 0 in
     if (n <? 1) || (n >? 3) then false else if (m <? 1) || (m >? n) then false else true
   else if bool_decide (whichType = TX_NULL_DATA) &&
           (negb fAcceptDatacarrier || (Z.of_nat (length scriptPubKey) >? nMaxDatacarrierBytes)) then false
   else if negb witnessEnabled &&
           bool_decide (whichType = TX_WITNESS_V0_KEYHASH \/ whichType = TX_WITNESS_V0_SCRIPTHASH) then false
   else negb (bool_decide (whichType = TX_NONSTANDARD)) && negb (bool_decide (whichType = TX_WITNESS_UNKNOWN)),
   whichType).
End policy.

(** ** What a standard script is *)

(** The encodings of a push: the source accepts any of the four that fits. *)
Inductive push_form (k : valtype) : bytes -> Prop :=
  | push_direct : Z.of_nat (length k) < OP_PUSHDATA1 -> push_form k (Z.of_nat (length k) :: k)
  | push_one : Z.of_nat (length k) <= 0xff -> push_form k (OP_PUSHDATA1 :: Z.of_nat (length k) :: k)
  | push_two : Z.of_nat (length k) <= 0xffff ->
      push_form k (OP_PUSHDATA2 :: WriteLE16 (Z.of_nat (length k)) ++ k)
  | push_four : Z.of_nat (length k) < 2 ^ 32 ->
      push_form k (OP_PUSHDATA4 :: WriteLE32 (Z.of_nat (length k)) ++ k).

(** The opcode of a small number. *)
Definition small_op (n : Z) : Z := if n =? 0 then OP_0 else OP_1 + n - 1.

Definition key_push (k : valtype) (u : bytes) : Prop := length k = PUBLIC_KEY_SIZE /\ push_form k u.

(** The scripts of each type, with what [ScriptSolver] extracts. *)
Inductive standard_form : bytes -> txnouttype -> list valtype -> Prop :=
  | form_scripthash h : length h = 20%nat ->
      standard_form (OP_HASH160 :: 0x14 :: h ++ [OP_EQUAL]) TX_SCRIPTHASH [h]
  | form_keyhash p : length p = 20%nat -> standard_form (OP_0 :: 20 :: p) TX_WITNESS_V0_KEYHASH [p]
  | form_witness_scripthash p : length p = 32%nat ->
      standard_form (OP_0 :: 32 :: p) TX_WITNESS_V0_SCRIPTHASH [p]
  | form_witness_unknown v p : 1 <= v <= 16 -> (2 <= length p <= 40)%nat ->
      standard_form (small_op v :: Z.of_nat (length p) :: p) TX_WITNESS_UNKNOWN [[v]; p]
  | form_null_data r : CScript.IsPushOnly r = true -> standard_form (OP_RETURN :: r) TX_NULL_DATA []
  | form_pubkey k u : key_push k u -> standard_form (u ++ [OP_CHECKSIG]) TX_PUBKEY [k]
  | form_pubkeyhash h u : length h = 20%nat -> push_form h u ->
      standard_form (OP_DUP :: OP_HASH160 :: u ++ [OP_EQUALVERIFY; OP_CHECKSIG]) TX_PUBKEYHASH [h]
  | form_multisig m ks us : 1 <= m <= Z.of_nat (length ks) -> (length ks <= 16)%nat ->
      Forall2 key_push ks us ->
      standard_form (small_op m :: concat us ++ [small_op (Z.of_nat (length ks)); OP_CHECKMULTISIG])
        TX_MULTISIG ([m] :: ks ++ [[Z.of_nat (length ks)]]).

(** ** Facts *)

Module standard_facts.
Import CScript.

Lemma push_form_read k u r : push_form k u -> Z.of_nat (length (u ++ r)) < 2 ^ 32 ->
  exists op, op <= OP_PUSHDATA4 /\ GetOp2 (u ++ r) = Some (op, k, r).
Proof.
  intros Hu Hlen.
  assert (Z.of_nat (length (k ++ r)) < 2 ^ 32) as Hlen'.
  { destruct Hu; rewrite !length_app in *; cbn [length] in Hlen; rewrite ?length_app in Hlen; lia. }
  assert (forall o : Z, (if u32 (Z.of_nat (length (k ++ r))) <? Z.of_nat (length k) then None
    else Some (o, take (Z.to_nat (Z.of_nat (length k))) (k ++ r), drop (Z.to_nat (Z.of_nat (length k))) (k ++ r)))
    = Some (o, k, r)) as Hfin.
  { intros o. rewrite wrap_small by (unfold in_range; lia).
    rewrite length_app, (proj2 (Z.ltb_ge _ _)) by lia. rewrite Nat2Z.id.
    by rewrite take_app_length, drop_app_length. }
  destruct Hu as [H|H|H|H].
  - exists (Z.of_nat (length k)). unfold OP_PUSHDATA4, OP_PUSHDATA1 in *. split; [lia|]. cbn [app GetOp2].
    rewrite (proj2 (Z.leb_le _ _)), (proj2 (Z.ltb_lt _ _)) by (unfold OP_PUSHDATA4, OP_PUSHDATA1; lia). apply Hfin.
  - exists OP_PUSHDATA1. split; [done|]. apply Hfin.
  - exists OP_PUSHDATA2. split; [done|]. change ((OP_PUSHDATA2 :: WriteLE16 (Z.of_nat (length k)) ++ k) ++ r) with
      (OP_PUSHDATA2 :: (WriteLE16 (Z.of_nat (length k)) ++ k) ++ r).
    rewrite <- app_assoc. transitivity ('(n, pc) ← Some (ReadLE16 (WriteLE16 (Z.of_nat (length k)) ++ k ++ r), k ++ r);
       if u32 (Z.of_nat (length pc)) <? n then None
       else Some (OP_PUSHDATA2, take (Z.to_nat n) pc, drop (Z.to_nat n) pc)); [reflexivity|].
    unfold ReadLE16, WriteLE16. rewrite script_facts.ReadLE_Write by (change (8 * Z.of_nat 2) with 16; lia). apply Hfin.
  - exists OP_PUSHDATA4. split; [done|]. change ((OP_PUSHDATA4 :: WriteLE32 (Z.of_nat (length k)) ++ k) ++ r) with
      (OP_PUSHDATA4 :: (WriteLE32 (Z.of_nat (length k)) ++ k) ++ r).
    rewrite <- app_assoc. transitivity ('(n, pc) ← Some (ReadLE32 (WriteLE32 (Z.of_nat (length k)) ++ k ++ r), k ++ r);
       if u32 (Z.of_nat (length pc)) <? n then None
       else Some (OP_PUSHDATA4, take (Z.to_nat n) pc, drop (Z.to_nat n) pc)); [reflexivity|].
    unfold ReadLE32, WriteLE32. rewrite script_facts.ReadLE_Write by (change (8 * Z.of_nat 4) with 32; lia). apply Hfin.
Qed.

Lemma le_digits_ReadLE (n : nat) l : bytes_ok l -> (n <= length l)%nat -> le_digits 8 n (le_val 8 (take n l)) = take n l.
Proof.
  intros Hb Hn. rewrite <- (length_take_le l n) at 1 by done. apply le_digits_val; [done|by apply Forall_take].
Qed.

Lemma push_operand_form pc op k r : bytes_ok pc -> GetOp2 pc = Some (op, k, r) -> k <> [] ->
  exists u, push_form k u /\ pc = u ++ r.
Proof.
  destruct pc as [|o pc]; [done|]. cbn [GetOp2]. intros [Ho Hb]%Forall_cons Hg Hk.
  destruct (Z.leb_spec o OP_PUSHDATA4) as [Ho4|]; [|congruence].
  match type of Hg with (?m ≫= _) = _ => destruct m as [[n pc']|] eqn:Hm; [|done] end.
  cbn [mbind option_bind] in Hg.
  destruct (Z.ltb_spec (u32 (Z.of_nat (length pc'))) n) as [|Hn]; [done|]. injection Hg as -> Hk' Hr.
  assert (exists p, bytes_ok pc' /\ 0 <= n < 2 ^ 32 /\ pc = p ++ pc' /\
    (Z.of_nat (length k) = n -> push_form k (op :: p ++ k))) as (p & Hpc' & Hn0 & -> & Hf).
  { unfold in_range in Ho. unfold OP_PUSHDATA4, OP_PUSHDATA1, OP_PUSHDATA2 in *.
    destruct (Z.ltb_spec op 0x4c); [injection Hm as <- <-; exists []; cbn; split_and!; [done|lia|lia|done|];
      intros Hl; rewrite <- Hl; apply push_direct; unfold OP_PUSHDATA1; lia|].
    destruct (Z.eqb_spec op 0x4d) as [->|]; [|destruct (Z.eqb_spec op 0x4c) as [->|]].
    - change (0x4d =? 0x4c) with false in Hm. cbn [negb] in Hm. destruct (length pc <? 2)%nat eqn:Hl2; [done|].
      injection Hm as <- <-. apply Nat.ltb_ge in Hl2. exists (take 2 pc).
      pose proof (le_val_bound 8 (take 2 pc) ltac:(done) (Forall_take _ _ _ Hb)) as Hv.
      rewrite length_take_le in Hv by done. change (8 * Z.of_nat 2) with 16 in Hv. unfold ReadLE16.
      split; [by apply Forall_drop|]. split; [lia|]. split; [by rewrite take_drop|]. intros Hl.
      rewrite <- (le_digits_ReadLE 2) by done. rewrite <- Hl. apply push_two. lia.
    - change (0x4c =? 0x4c) with true in Hm. destruct pc as [|b pc]; [done|]. injection Hm as <- <-.
      apply Forall_cons in Hb as [Hb1 Hb]. unfold in_range in Hb1. exists [b]. split_and!; [done|lia|lia|done|].
      intros <-. apply push_one. lia.
    - destruct (Nat.ltb_spec (length pc) 4) as [|Hl4].
      { destruct (Z.eqb_spec op 0x4c), (Z.eqb_spec op 0x4d); done || lia. }
      injection Hm as <- <-. exists (take 4 pc). assert (op = OP_PUSHDATA4) as -> by (unfold OP_PUSHDATA4; lia).
      pose proof (le_val_bound 8 (take 4 pc) ltac:(done) (Forall_take _ _ _ Hb)) as Hv.
      rewrite length_take_le in Hv by done. change (8 * Z.of_nat 4) with 32 in Hv. unfold ReadLE32.
      split; [by apply Forall_drop|]. split; [lia|]. split; [by rewrite take_drop|]. intros Hl.
      rewrite <- (le_digits_ReadLE 4) by done. rewrite <- Hl. apply push_four. lia. }
  assert (n <= Z.of_nat (length pc')) as Hle.
  { revert Hn. unfold wrap. pose proof (Z.mod_le (Z.of_nat (length pc')) (2 ^ 32)). lia. }
  exists (op :: p ++ k). split; [apply Hf; rewrite <- Hk', length_take_le; lia|].
  cbn. rewrite <- app_assoc, <- Hk', <- Hr. by rewrite take_drop.
Qed.

Lemma GetOp2_high op pc : OP_PUSHDATA4 < op -> GetOp2 (op :: pc) = Some (op, [], pc).
Proof. intros H. cbn [GetOp2]. by rewrite (proj2 (Z.leb_gt _ _)). Qed.

Lemma GetOp2_high_inv pc op k r : GetOp2 pc = Some (op, k, r) -> OP_PUSHDATA4 < op -> pc = op :: r.
Proof.
  destruct pc as [|o pc]; [done|]. intros Hg Ho.
  destruct (script_facts.GetOp2_suffix _ _ _ _ Hg) as (u & [= -> ->] & _).
  rewrite GetOp2_high in Hg by done. congruence.
Qed.

Lemma small_op_DecodeOP_N v : 0 <= v <= 16 -> DecodeOP_N (small_op v) = Some v.
Proof.
  intros Hv. unfold DecodeOP_N, small_op, OP_0, OP_1, OP_16.
  destruct (Z.eqb_spec v 0) as [->|]; [done|]. bcases; f_equal; lia.
Qed.

Lemma DecodeOP_N_small_op op v : DecodeOP_N op = Some v -> 0 <= v <= 16 /\ op = small_op v.
Proof.
  unfold DecodeOP_N, small_op, OP_0, OP_1, OP_16.
  destruct (Z.eqb_spec op 0) as [->|]; [by intros [= <-]|].
  case_match eqn:Hop; [|done]. apply andb_true_iff in Hop as [H1%Z.geb_le H2%Z.leb_le]. intros [= <-].
  rewrite (proj2 (Z.eqb_neq _ _)) by lia. lia.
Qed.

Lemma GetOp2_small v r : 0 <= v <= 16 -> GetOp2 (small_op v :: r) = Some (small_op v, [], r).
Proof.
  intros Hv. unfold small_op. destruct (Z.eqb_spec v 0) as [->|].
  - cbn [GetOp2]. change (OP_0 <=? OP_PUSHDATA4) with true. change (OP_0 <? OP_PUSHDATA1) with true.
    cbn [mbind option_bind]. rewrite (proj2 (Z.ltb_ge _ _)); [done|]. apply wrap_range. lia.
  - apply GetOp2_high. unfold OP_PUSHDATA4, OP_1. lia.
Qed.

Lemma GetOp2_small_inv pc v k r : 0 <= v <= 16 -> GetOp2 pc = Some (small_op v, k, r) -> pc = small_op v :: r.
Proof.
  intros Hv Hg. destruct pc as [|o pc]; [done|].
  destruct (script_facts.GetOp2_suffix _ _ _ _ Hg) as (u & [= -> ->] & _).
  rewrite GetOp2_small in Hg by done. congruence.
Qed.

(** *** The loop over a template *)

Lemma match_end n pc1 sols r : match_template n pc1 [] sols = Some r <-> pc1 = [] /\ sols = r.
Proof.
  split.
  - destruct pc1 as [|b pc1]; [by destruct n; intros [= ->]|]. destruct n; [done|].
    cbn [match_template]. by destruct (GetOp2 (b :: pc1)) as [[[??]?]|].
  - intros [-> ->]. by destruct n.
Qed.

Lemma match_step n pc1 o2 pc2 sols r : OP_PUSHDATA4 < o2 -> o2 <> OP_PUBKEYS -> (length pc1 <= n)%nat ->
  match_template n pc1 (o2 :: pc2) sols = Some r <->
  exists op1 v1 pc1' sols', GetOp2 pc1 = Some (op1, v1, pc1') /\ (length pc1' <= n - 1)%nat /\
    match_op o2 [] op1 v1 sols = Some sols' /\ match_template (n - 1) pc1' pc2 sols' = Some r.
Proof.
  intros Ho Hk Hn. destruct pc1 as [|b pc1].
  { split; [by destruct n|]. intros (?&?&?&?&[=]&_). }
  destruct n as [|n]; [cbn in Hn; lia|]. rewrite Nat.sub_succ, Nat.sub_0_r. cbn [match_template].
  destruct (GetOp2 (b :: pc1)) as [[[op1 v1] pc1']|] eqn:Hg.
  2:{ split; [done|]. intros (?&?&?&?&[=]&_). }
  pose proof (script_facts.GetOp2_shorter _ _ _ _ Hg) as Hs. cbn [length] in Hs, Hn.
  cbn [mbind option_bind]. rewrite GetOp2_high by done. cbn [mbind option_bind].
  rewrite (proj2 (Z.eqb_neq _ _)) by done. split.
  - destruct (match_op o2 [] op1 v1 sols) as [sols'|] eqn:Hm; [|done]. intros H.
    exists op1, v1, pc1', sols'. split_and!; [done|lia|done|done].
  - intros (op1' & v1' & pc' & sols' & [= <- <- <-] & _ & -> & H). done.
Qed.

(** An opcode of a template that stands for itself. *)
Definition literal_op (o : Z) : Prop := OP_PUSHDATA4 < o < OP_SMALLINTEGER.

Lemma match_literal n pc1 o2 pc2 sols r : literal_op o2 -> (length pc1 <= n)%nat ->
  match_template n pc1 (o2 :: pc2) sols = Some r <->
  exists pc1', pc1 = o2 :: pc1' /\ (length pc1' <= n - 1)%nat /\ match_template (n - 1) pc1' pc2 sols = Some r.
Proof.
  unfold literal_op, OP_SMALLINTEGER. intros [Ho Hs] Hn. rewrite match_step by (unfold OP_PUBKEYS; done || lia).
  assert (forall op1 v1 sols', match_op o2 [] op1 v1 sols = Some sols' <-> op1 = o2 /\ v1 = [] /\ sols' = sols) as Hop.
  { intros. unfold match_op, OP_PUBKEY, OP_PUBKEYHASH, OP_SMALLINTEGER.
    rewrite (proj2 (Z.eqb_neq o2 0xfe)), (proj2 (Z.eqb_neq o2 0xfd)), (proj2 (Z.eqb_neq o2 0xfa)) by lia.
    destruct (Z.eqb_spec op1 o2), (decide (v1 = [])) as [->|]; cbn [negb orb].
    - rewrite bool_decide_true by done. naive_solver.
    - rewrite bool_decide_false by done. naive_solver.
    - naive_solver.
    - naive_solver. }
  split.
  - intros (op1 & v1 & pc1' & sols' & Hg & Hl & (-> & -> & ->)%Hop & H).
    exists pc1'. split_and!; [by eapply GetOp2_high_inv|done|done].
  - intros (pc1' & -> & Hl & H). exists o2, [], pc1', sols. split_and!; [by apply GetOp2_high|done| |done].
    by apply Hop.
Qed.

(** An opcode of a template that stands for an operand of [size] bytes. *)
Definition operand_op (o : Z) (size : nat) : Prop :=
  o = OP_PUBKEY /\ size = PUBLIC_KEY_SIZE \/ o = OP_PUBKEYHASH /\ size = 20%nat.

Lemma match_operand n pc1 o2 size pc2 sols r : operand_op o2 size -> bytes_ok pc1 ->
  (length pc1 <= n)%nat -> Z.of_nat (length pc1) < 2 ^ 32 ->
  match_template n pc1 (o2 :: pc2) sols = Some r <->
  exists k u pc1', length k = size /\ push_form k u /\ pc1 = u ++ pc1' /\ (length pc1' <= n - 1)%nat /\
    match_template (n - 1) pc1' pc2 (sols ++ [k]) = Some r.
Proof.
  intros Ho Hb Hn Hlen.
  assert (OP_PUSHDATA4 < o2 /\ o2 <> OP_PUBKEYS /\ (0 < size)%nat /\ forall op1 v1, match_op o2 [] op1 v1 sols =
    if negb (length v1 =? size)%nat then None else Some (sols ++ [v1])) as (Ho1 & Ho2 & Hsz & Hop).
  { destruct Ho as [[-> ->]|[-> ->]]; unfold PUBLIC_KEY_SIZE; split_and!; first [done | lia | by intros]. }
  rewrite match_step by done. split.
  - intros (op1 & v1 & pc1' & sols' & Hg & Hl & Hm & H). rewrite Hop in Hm.
    destruct (Nat.eqb_spec (length v1) size) as [Hv|]; [|done]. injection Hm as <-.
    destruct (push_operand_form pc1 op1 v1 pc1' Hb Hg) as (u & Hu & ->); [intros ->; cbn in Hv; lia|].
    by exists v1, u, pc1'.
  - intros (k & u & pc1' & Hk & Hu & -> & Hl & H). destruct (push_form_read k u pc1' Hu Hlen) as (op1 & _ & Hg).
    exists op1, k, pc1', (sols ++ [k]). split_and!; [done..| |done]. by rewrite Hop, Hk, Nat.eqb_refl.
Qed.

Lemma match_op_small op1 v1 sols sols' : match_op OP_SMALLINTEGER [] op1 v1 sols = Some sols' <->
  exists v, 0 <= v <= 16 /\ op1 = small_op v /\ sols' = sols ++ [[v]].
Proof.
  unfold match_op. change (OP_SMALLINTEGER =? OP_PUBKEY) with false. change (OP_SMALLINTEGER =? OP_PUBKEYHASH) with false.
  change (OP_SMALLINTEGER =? OP_SMALLINTEGER) with true. cbn [negb].
  assert (forall v, 0 <= v <= 16 -> u8 v = v) as Hu8 by (intros; apply wrap_small; unfold in_range; lia).
  split.
  - case_match; [|done]. destruct (DecodeOP_N op1) as [v|] eqn:Hd; [|done]. cbn [mbind option_bind].
    intros [= <-]. apply DecodeOP_N_small_op in Hd as [Hv ->]. exists v. by rewrite Hu8.
  - intros (v & Hv & -> & ->). rewrite small_op_DecodeOP_N by done. cbn [mbind option_bind]. rewrite Hu8 by done.
    replace (_ || _) with true; [done|]. unfold small_op, OP_0, OP_1, OP_16.
    destruct (Z.eqb_spec v 0) as [->|]; [done|]. bcases.
Qed.

Lemma match_small n pc1 pc2 sols r : (length pc1 <= n)%nat ->
  match_template n pc1 (OP_SMALLINTEGER :: pc2) sols = Some r <->
  exists v pc1', 0 <= v <= 16 /\ pc1 = small_op v :: pc1' /\ (length pc1' <= n - 1)%nat /\
    match_template (n - 1) pc1' pc2 (sols ++ [[v]]) = Some r.
Proof.
  intros Hn. rewrite match_step by done. split.
  - intros (op1 & v1 & pc1' & sols' & Hg & Hl & Hm & H). apply match_op_small in Hm as (v & Hv & -> & ->).
    exists v, pc1'. split_and!; [lia|lia|by eapply GetOp2_small_inv|done|done].
  - intros (v & pc1' & Hv & -> & Hl & H). exists (small_op v), [], pc1', (sols ++ [[v]]).
    split_and!; [by apply GetOp2_small|done| |done]. apply match_op_small. by exists v.
Qed.

(** *** The public keys of a multisignature script *)

Lemma key_push_operand k u r : key_push k u -> Z.of_nat (length (u ++ r)) < 2 ^ 32 ->
  exists op, GetOp2 (u ++ r) = Some (op, k, r).
Proof. intros [_ Hu] Hlen. destruct (push_form_read k u r Hu Hlen) as (op & _ & H). by exists op. Qed.

Lemma keys_complete ks us rest op1 v1 pc1 : Forall2 key_push ks us ->
  GetOp2 rest = Some (op1, v1, pc1) -> length v1 <> PUBLIC_KEY_SIZE ->
  Z.of_nat (length (concat us ++ rest)) < 2 ^ 32 -> forall sols,
  exists op0 v0 pc0, GetOp2 (concat us ++ rest) = Some (op0, v0, pc0) /\
    forall fuel, (length pc0 <= fuel)%nat -> pubkeys_loop fuel pc0 op0 v0 sols = (pc1, op1, v1, sols ++ ks).
Proof.
  intros Hks Hg Hv1. induction Hks as [|k u ks us Hk Hks IH]; intros Hlen sols.
  - exists op1, v1, pc1. split; [done|]. intros [|fuel] _; cbn [pubkeys_loop];
      by rewrite (proj2 (Nat.eqb_neq _ _)), app_nil_r by done.
  - cbn [concat] in *. rewrite <- app_assoc in *. destruct (key_push_operand _ _ _ Hk Hlen) as (op & Hop).
    rewrite length_app in Hlen. destruct (IH ltac:(lia) (sols ++ [k])) as (op0 & v0 & pc0 & Hg0 & Hl).
    exists op, k, (concat us ++ rest). split; [done|]. intros fuel Hf.
    pose proof (script_facts.GetOp2_shorter _ _ _ _ Hg0). destruct fuel as [|fuel]; [lia|]. cbn [pubkeys_loop].
    rewrite (proj2 (Nat.eqb_eq _ _)) by apply Hk. unfold GetOp. rewrite Hg0, Hl by lia.
    by rewrite <- app_assoc.
Qed.

Lemma keys_sound fuel : forall pc pc0 op0 v0 sols pc1 op1 v1 sols', bytes_ok pc ->
  GetOp2 pc = Some (op0, v0, pc0) -> (length pc0 <= fuel)%nat ->
  pubkeys_loop fuel pc0 op0 v0 sols = (pc1, op1, v1, sols') ->
  exists ks us rest, Forall2 key_push ks us /\ pc = concat us ++ rest /\ sols' = sols ++ ks /\
    (GetOp2 rest = Some (op1, v1, pc1) \/ op1 = OP_INVALIDOPCODE).
Proof.
  induction fuel as [|fuel IH]; intros pc pc0 op0 v0 sols pc1 op1 v1 sols' Hb Hg Hl; cbn [pubkeys_loop];
    (destruct (Nat.eqb_spec (length v0) PUBLIC_KEY_SIZE) as [Hv0|];
     [|intros [= <- <- <- <-]; exists [], [], pc; rewrite app_nil_r; by split_and!; [constructor|..|left]]);
    (destruct (push_operand_form pc op0 v0 pc0 Hb Hg) as (u & Hu & ->); [by intros ->|]).
  all: unfold GetOp; destruct (GetOp2 pc0) as [[[op v] pc']|] eqn:Hg0.
  1: { destruct pc0; [done|cbn in Hl; lia]. }
  2: { pose proof (script_facts.GetOp2_shorter _ _ _ _ Hg0) as Hs. intros H. apply Forall_app in Hb as [_ Hb].
       destruct (IH pc0 pc' op v (sols ++ [v0]) pc1 op1 v1 sols' Hb Hg0 ltac:(lia) H) as (ks & us & rest & Hks & -> & -> & Hr).
       exists (v0 :: ks), (u :: us), rest. split_and!; [by constructor|by cbn; rewrite <- app_assoc|by rewrite <- app_assoc|done]. }
  all: intros [= <- <- <- <-]; exists [v0], [u], pc0; split_and!;
    [by repeat constructor|by cbn; rewrite app_nil_r|done|by right].
Qed.

Lemma match_pubkeys n pc1 pc2 sols r : bytes_ok pc1 -> (length pc1 <= n)%nat -> Z.of_nat (length pc1) < 2 ^ 32 ->
  match_template n pc1 (OP_PUBKEYS :: OP_SMALLINTEGER :: pc2) sols = Some r <->
  exists ks us v pc1', Forall2 key_push ks us /\ 0 <= v <= 16 /\ pc1 = concat us ++ small_op v :: pc1' /\
    (length pc1' <= n - 1)%nat /\ match_template (n - 1) pc1' pc2 (sols ++ ks ++ [[v]]) = Some r.
Proof.
  intros Hb Hn Hlen. destruct pc1 as [|b pc1].
  { split; [by destruct n|]. intros (? & us & v & pc1' & _ & _ & H & _). by destruct (concat us). }
  destruct n as [|n]; [cbn in Hn; lia|]. rewrite Nat.sub_succ, Nat.sub_0_r. cbn [match_template].
  destruct (GetOp2 (b :: pc1)) as [[[op0 v0] pc0]|] eqn:Hg.
  2:{ split; [done|]. intros (ks & us & v & pc1' & Hks & Hv & He & _). rewrite He in Hg, Hlen.
      destruct (keys_complete ks us _ _ _ _ Hks (GetOp2_small v pc1' Hv) ltac:(done) Hlen []) as (?&?&?&H&_). congruence. }
  cbn [mbind option_bind]. rewrite GetOp2_high by done. cbn [mbind option_bind].
  change (OP_PUBKEYS =? OP_PUBKEYS) with true. cbn iota. rewrite GetOp2_high by done. cbn [mbind option_bind].
  destruct (pubkeys_loop (length pc0) pc0 op0 v0 sols) as [[[pc' op1] v1] sols1] eqn:Hp. split.
  - destruct (match_op OP_SMALLINTEGER [] op1 v1 sols1) as [sols2|] eqn:Hm; [|done]. intros H.
    apply match_op_small in Hm as (v & Hv & -> & ->).
    destruct (keys_sound _ _ _ _ _ _ _ _ _ _ Hb Hg (le_n _) Hp) as (ks & us & rest & Hks & He & -> & [Hr|Hr]).
    2:{ exfalso. revert Hr. unfold small_op, OP_INVALIDOPCODE, OP_0, OP_1. destruct (v =? 0); lia. }
    apply GetOp2_small_inv in Hr as ->; [|done].
    exists ks, us, v, pc'. rewrite He in Hn. rewrite length_app in Hn. cbn [length] in Hn.
    split_and!; [done|lia|lia|done|lia|by rewrite app_assoc].
  - intros (ks & us & v & pc1' & Hks & Hv & He & Hl & H). rewrite He in Hg, Hlen.
    destruct (keys_complete ks us _ _ _ _ Hks (GetOp2_small v pc1' Hv) ltac:(done) Hlen sols) as (op0' & v0' & pc0' & H0 & Hf).
    rewrite Hg in H0. injection H0 as <- <- <-. rewrite Hf in Hp by done. injection Hp as <- <- <- <-.
    rewrite (proj2 (match_op_small _ _ _ ((sols ++ ks) ++ [[v]]))) by (by exists v).
    cbn [mbind option_bind]. by rewrite <- app_assoc.
Qed.

(** *** Each template, and the shortcuts before them *)

Definition pubkey_script (s : bytes) (sols : list valtype) : Prop :=
  exists k u, key_push k u /\ s = u ++ [OP_CHECKSIG] /\ sols = [k].
Definition pubkeyhash_script (s : bytes) (sols : list valtype) : Prop :=
  exists h u, length h = 20%nat /\ push_form h u /\
    s = OP_DUP :: OP_HASH160 :: u ++ [OP_EQUALVERIFY; OP_CHECKSIG] /\ sols = [h].
Definition multisig_script (s : bytes) (sols : list valtype) : Prop :=
  exists m ks us n, 0 <= m <= 16 /\ 0 <= n <= 16 /\ Forall2 key_push ks us /\
    s = small_op m :: concat us ++ [small_op n; OP_CHECKMULTISIG] /\ sols = [m] :: ks ++ [[n]].

Section templates.
Context (s : bytes) (Hb : bytes_ok s) (Hlen : Z.of_nat (length s) < 2 ^ 32).

Lemma template_pubkey sols :
  match_template (length s) s [OP_PUBKEY; OP_CHECKSIG] [] = Some sols <-> pubkey_script s sols.
Proof using Hb Hlen.
  rewrite (match_operand _ _ _ PUBLIC_KEY_SIZE) by (first [by left | done]). split.
  - intros (k & u & pc & Hk & Hu & -> & Hl & H). rewrite match_literal in H by done.
    destruct H as (pc' & -> & _ & H). apply match_end in H as [-> <-]. by exists k, u.
  - intros (k & u & [Hk Hu] & He & ->). exists k, u, [OP_CHECKSIG].
    assert (0 < length u)%nat by (destruct Hu; cbn; lia). rewrite He at 2. rewrite length_app. cbn [length].
    split_and!; [done..|lia|]. rewrite match_literal by (done || (rewrite He, length_app; cbn [length]; lia)).
    exists []. split_and!; [done|cbn; lia|]. by apply match_end.
Qed.

Lemma template_pubkeyhash sols :
  match_template (length s) s [OP_DUP; OP_HASH160; OP_PUBKEYHASH; OP_EQUALVERIFY; OP_CHECKSIG] [] = Some sols
  <-> pubkeyhash_script s sols.
Proof using Hb Hlen.
  rewrite match_literal by done. split.
  - intros (pc & He & Hl & H). rewrite match_literal in H by done. destruct H as (pc' & -> & Hl' & H).
    rewrite He in Hb, Hlen. apply Forall_cons in Hb as [_ Hb']. apply Forall_cons in Hb' as [_ Hb']. cbn [length] in Hlen.
    rewrite (match_operand _ _ _ 20) in H by (first [by right | done | lia]).
    destruct H as (h & u & pc & Hh & Hu & -> & Hl2 & H). rewrite match_literal in H by done.
    destruct H as (pc' & -> & Hl3 & H). rewrite match_literal in H by done. destruct H as (pc & -> & _ & H).
    apply match_end in H as [-> <-]. by exists h, u.
  - intros (h & u & Hh & Hu & He & ->). rewrite He in Hb, Hlen |- *. apply Forall_cons in Hb as [_ Hb'].
    apply Forall_cons in Hb' as [_ Hb']. cbn [length] in Hlen |- *. rewrite !Nat.sub_succ, Nat.sub_0_r.
    eexists. split_and!; [done|done|]. rewrite match_literal by (done || (cbn [length]; lia)).
    eexists. split_and!; [done|cbn [length]; lia|]. rewrite Nat.sub_succ, Nat.sub_0_r.
    assert (0 < length u)%nat by (destruct Hu; cbn; lia).
    rewrite (match_operand _ _ _ 20) by (first [by right | done | lia]).
    exists h, u, [OP_EQUALVERIFY; OP_CHECKSIG]. rewrite length_app. cbn [length].
    split_and!; [done..|lia|]. rewrite match_literal by (done || (cbn [length]; lia)). eexists.
    split_and!; [done|cbn [length]; lia|]. rewrite match_literal by (done || (cbn [length]; lia)). eexists.
    split_and!; [done|cbn [length]; lia|]. by apply match_end.
Qed.

Lemma template_multisig sols :
  match_template (length s) s [OP_SMALLINTEGER; OP_PUBKEYS; OP_SMALLINTEGER; OP_CHECKMULTISIG] [] = Some sols
  <-> multisig_script s sols.
Proof using Hb Hlen.
  rewrite match_small by done. split.
  - intros (m & pc & Hm & He & Hl & H). rewrite He in Hb, Hlen. apply Forall_cons in Hb as [_ Hb']. cbn [length] in Hlen.
    rewrite match_pubkeys in H by (done || lia). destruct H as (ks & us & n & pc' & Hks & Hn & -> & Hl' & H).
    rewrite match_literal in H by done. destruct H as (pc & -> & _ & H). apply match_end in H as [-> <-].
    by exists m, ks, us, n.
  - intros (m & ks & us & n & Hm & Hn & Hks & He & ->). rewrite He in Hb, Hlen |- *. apply Forall_cons in Hb as [_ Hb'].
    cbn [length] in Hlen |- *. rewrite Nat.sub_succ, Nat.sub_0_r. exists m. eexists. split_and!; [lia|lia|done|done|].
    rewrite match_pubkeys by (done || lia). exists ks, us, n, [OP_CHECKMULTISIG]. rewrite length_app. cbn [length].
    split_and!; [done|lia|lia|done|lia|]. rewrite match_literal by (done || (cbn [length]; lia)). exists [].
    split_and!; [done|cbn; lia|]. by apply match_end.
Qed.
End templates.

Lemma scripthash_iff s : IsPayToScriptHash s = true <->
  exists h, length h = 20%nat /\ s = OP_HASH160 :: 0x14 :: h ++ [OP_EQUAL].
Proof.
  unfold IsPayToScriptHash, byte_at. split.
  - intros [[[H0%Nat.eqb_eq H1%Z.eqb_eq]%andb_true_iff H2%Z.eqb_eq]%andb_true_iff H3%Z.eqb_eq]%andb_true_iff.
    destruct s as [|a [|b r]]; [done|done|]. cbn [nth length] in *. subst a b.
    destruct (decide (r = [])) as [->|Hr]; [done|]. destruct (exists_last Hr) as (h & x & ->).
    rewrite length_app in H0. cbn [length] in H0. exists h. split; [lia|].
    rewrite app_nth2 in H3 by lia. replace (20 - length h)%nat with 0%nat in H3 by lia. cbn in H3. by subst.
  - intros (h & Hh & ->). cbn [nth length]. rewrite length_app, Hh. cbn [length Nat.add].
    rewrite app_nth2 by lia. by rewrite Hh.
Qed.

Lemma witness_iff s v p : IsWitnessProgram s = Some (v, p) <->
  0 <= v <= 16 /\ (2 <= length p <= 40)%nat /\ s = small_op v :: Z.of_nat (length p) :: p.
Proof.
  unfold IsWitnessProgram, byte_at. split.
  - destruct s as [|a [|b r]]; [done|done|]. cbn [nth length drop].
    case_match eqn:H1; [done|]. apply orb_false_iff in H1 as [H1%Z.ltb_ge H1'].
    rewrite Z.gtb_ltb in H1'. apply Z.ltb_ge in H1'. case_match; [done|].
    destruct (Z.eqb_spec (b + 2) (Z.of_nat (S (S (length r))))) as [H2|]; [|done].
    destruct (DecodeOP_N a) as [n|] eqn:Hd; [|done]. cbn [mbind option_bind]. intros [= -> <-].
    apply DecodeOP_N_small_op in Hd as [Hv ->]. rewrite drop_0. split_and!; [lia|lia|lia|lia|]. do 2 f_equal; lia.
  - intros (Hv & Hp & ->). cbn [nth length drop]. rewrite Z.gtb_ltb.
    rewrite (proj2 (Z.ltb_ge _ _)), (proj2 (Z.ltb_ge _ _)) by lia. cbn [orb].
    rewrite (proj2 (Z.eqb_eq (Z.of_nat (length p) + 2) _)) by lia. rewrite small_op_DecodeOP_N by done.
    replace (_ && _) with false; [done|]. unfold small_op, OP_0, OP_1, OP_16. destruct (Z.eqb_spec v 0); [done|].
    rewrite !Z.gtb_ltb. bcases.
Qed.

(** *** First bytes tell the types apart *)

Lemma witness_None_head b r : b <> OP_0 -> (b < OP_1 \/ OP_16 < b) -> IsWitnessProgram (b :: r) = None.
Proof.
  intros H0 H1. destruct (IsWitnessProgram (b :: r)) as [[v p]|] eqn:H; [|done]. exfalso.
  apply witness_iff in H as (Hv & _ & [= -> _]). revert H0 H1. unfold small_op, OP_0, OP_1, OP_16.
  destruct (Z.eqb_spec v 0); lia.
Qed.

Lemma scripthash_false_head b r : b <> OP_HASH160 -> IsPayToScriptHash (b :: r) = false.
Proof.
  intros Hb. apply not_true_iff_false. intros (h & _ & [= -> _])%scripthash_iff. done.
Qed.

Lemma push_form_head k u : push_form k u -> k <> [] -> exists b u', u = b :: u' /\ 0 < b <= OP_PUSHDATA4.
Proof.
  intros Hu Hk. assert (0 < length k)%nat by (destruct k; [done|cbn; lia]).
  destruct Hu; eexists _, _; (split; [done|]); unfold OP_PUSHDATA1, OP_PUSHDATA2, OP_PUSHDATA4 in *; lia.
Qed.

Lemma key_push_head k u : key_push k u -> exists b u', u = b :: u' /\ 0 < b <= OP_PUSHDATA4.
Proof. intros [Hk Hu]. apply (push_form_head k); [done|]. by intros ->. Qed.

(** Past the shortcuts, the templates decide. *)
Lemma solver_templates b r t0 : b <> OP_HASH160 -> b <> OP_RETURN -> IsWitnessProgram (b :: r) = None ->
  ScriptSolver (b :: r) t0 = scan_templates (b :: r) mTemplates.
Proof.
  intros H1 H2 H3. unfold ScriptSolver. rewrite scripthash_false_head, H3 by done. unfold byte_at. cbn [nth].
  rewrite (proj2 (Z.eqb_neq _ _)) by done. by rewrite andb_false_r.
Qed.

Lemma multisig_not_witness m ks us n : 1 <= m <= 16 -> ks <> [] -> Forall2 key_push ks us ->
  IsWitnessProgram (small_op m :: concat us ++ [small_op n; OP_CHECKMULTISIG]) = None.
Proof.
  intros Hm Hks Hf. destruct (IsWitnessProgram _) as [[v p]|] eqn:H; [|done]. exfalso.
  apply witness_iff in H as (_ & Hp & [= _ H]). destruct Hf as [|k u ks us [Hk Hu] Hf]; [done|]. cbn [concat] in H.
  pose proof (f_equal length H) as Hl. rewrite !length_app in Hl. cbn [length] in Hl. unfold PUBLIC_KEY_SIZE in Hk.
  destruct Hu; injection H as H _; unfold OP_PUSHDATA1, OP_PUSHDATA2, OP_PUSHDATA4 in *; cbn [length] in Hl; lia.
Qed.

Lemma multisig_ok_spec m ks n : 0 <= n <= 16 ->
  multisig_ok ([m] :: ks ++ [[n]]) = true <-> 1 <= m <= n /\ n = Z.of_nat (length ks).
Proof.
  intros Hn. unfold multisig_ok. rewrite app_comm_cons, last_snoc. cbn [app head from_option id nth length].
  rewrite length_app. cbn [length]. replace (S (length ks + 1) - 2)%nat with (length ks) by lia.
  rewrite Z.gtb_ltb. bcases; cbn; split; intros; try done; lia.
Qed.

Lemma templates_correct s t sols : bytes_ok s -> Z.of_nat (length s) < 2 ^ 32 ->
  scan_templates s mTemplates = (true, t, sols) <->
  (t = TX_PUBKEY /\ pubkey_script s sols) \/ (t = TX_PUBKEYHASH /\ pubkeyhash_script s sols) \/
  (t = TX_MULTISIG /\ multisig_script s sols /\ multisig_ok sols = true).
Proof.
  intros Hb Hlen. pose proof (template_pubkey s Hb Hlen) as H1. pose proof (template_pubkeyhash s Hb Hlen) as H2.
  pose proof (template_multisig s Hb Hlen) as H3.
  assert (forall r1 r2, pubkey_script s r1 -> pubkeyhash_script s r2 -> False) as H12.
  { intros r1 r2 (k & u & Hk & -> & _) (h & u' & _ & _ & He & _). destruct (key_push_head _ _ Hk) as (b & ? & -> & Hr).
    injection He as -> _. by destruct Hr. }
  assert (forall r1 r2, pubkey_script s r1 -> multisig_script s r2 -> multisig_ok r2 = true -> False) as H13.
  { intros r1 r2 (k & u & Hk & -> & _) (m & ks & us & n & Hm & Hn & _ & He & ->) [Hok _]%multisig_ok_spec; [|done].
    destruct (key_push_head _ _ Hk) as (b & ? & -> & Hr). injection He as -> _. revert Hr.
    unfold small_op, OP_1, OP_PUSHDATA4. destruct (Z.eqb_spec m 0); lia. }
  assert (forall r1 r2, pubkeyhash_script s r1 -> multisig_script s r2 -> False) as H23.
  { intros r1 r2 (h & u & _ & _ & -> & _) (m & ks & us & n & Hm & Hn & _ & He & _). injection He as He _.
    revert He. unfold small_op, OP_DUP, OP_0, OP_1. destruct (m =? 0); lia. }
  unfold mTemplates. cbn [scan_templates].
  destruct (match_template (length s) s [OP_PUBKEY; OP_CHECKSIG] []) as [r1|].
  { pose proof (proj1 (H1 r1) eq_refl) as Hp. rewrite bool_decide_false by done. cbn [andb]. split.
    - intros [= <- <-]. by left.
    - intros [[-> H]|[[_ H]|(_ & H & Hok)]]; [apply H1 in H; by injection H as ->|exfalso; eauto..]. }
  destruct (match_template (length s) s [OP_DUP; OP_HASH160; OP_PUBKEYHASH; OP_EQUALVERIFY; OP_CHECKSIG] []) as [r2|].
  { pose proof (proj1 (H2 r2) eq_refl) as Hp. rewrite bool_decide_false by done. cbn [andb]. split.
    - intros [= <- <-]. by right; left.
    - intros [[_ H]|[[-> H]|(_ & H & Hok)]]; [by apply H1 in H|apply H2 in H; by injection H as ->|exfalso; eauto]. }
  destruct (match_template (length s) s [OP_SMALLINTEGER; OP_PUBKEYS; OP_SMALLINTEGER; OP_CHECKMULTISIG] []) as [r3|].
  2:{ split; [done|]. intros [[_ H%H1]|[[_ H%H2]|(_ & H%H3 & _)]]; done. }
  pose proof (proj1 (H3 r3) eq_refl) as Hp. rewrite bool_decide_true by done. cbn [andb].
  destruct (multisig_ok r3) eqn:Hok; cbn [negb]; split.
  - intros [= <- <-]. by do 2 right.
  - intros [[_ H%H1]|[[_ H%H2]|(-> & H%H3 & _)]]; congruence.
  - done.
  - intros [[_ H%H1]|[[_ H%H2]|(-> & H%H3 & H')]]; congruence.
Qed.

(** Every standard form is recognised, whatever [typeRet] was. *)
Lemma form_solved s t sols t0 : bytes_ok s -> Z.of_nat (length s) < 2 ^ 32 ->
  standard_form s t sols -> ScriptSolver s t0 = (true, t, sols).
Proof.
  intros Hb Hlen Hf. unfold key_push in *.
  assert (forall v p, 0 <= v <= 16 -> (2 <= length p <= 40)%nat -> s = small_op v :: Z.of_nat (length p) :: p ->
    IsPayToScriptHash s = false /\ IsWitnessProgram s = Some (v, p)) as Hwit.
  { intros v p Hv Hp ->. split; [|by apply witness_iff]. apply scripthash_false_head.
    unfold small_op, OP_0, OP_1, OP_HASH160. destruct (Z.eqb_spec v 0); lia. }
  destruct Hf as [h Hh|p Hp|p Hp|v p Hv Hp|r Hr|k u Hk|h u Hh Hu|m ks us Hm Hk Hks].
  - unfold ScriptSolver. rewrite (proj2 (scripthash_iff _)) by (by exists h). cbn [drop]. rewrite drop_0.
    by rewrite take_app_length'.
  - unfold ScriptSolver. destruct (Hwit 0 p) as [-> ->]; [lia|lia|by rewrite Hp|]. by rewrite Hp.
  - unfold ScriptSolver. destruct (Hwit 0 p) as [-> ->]; [lia|lia|by rewrite Hp|]. by rewrite Hp.
  - unfold ScriptSolver. destruct (Hwit v p) as [-> ->]; [lia|lia|done|].
    rewrite (proj2 (Z.eqb_neq _ _)) by lia. cbn [andb negb]. by rewrite wrap_small by (unfold in_range; lia).
  - unfold ScriptSolver. rewrite scripthash_false_head, witness_None_head by (done || by right).
    cbn [length drop]. rewrite drop_0, Hr. done.
  - destruct (key_push_head _ _ Hk) as (b & u' & -> & Hbr). cbn [app] in *. unfold OP_PUSHDATA4 in Hbr.
    rewrite solver_templates; [|unfold OP_HASH160; lia|unfold OP_RETURN; lia|
      apply witness_None_head; [unfold OP_0; lia|left; unfold OP_1; lia]].
    apply templates_correct; [done..|]. left. split; [done|]. by exists k, (b :: u').
  - rewrite solver_templates by (done || (apply witness_None_head; [done|by right])).
    apply templates_correct; [done..|]. right; left. split; [done|]. by exists h, u.
  - rewrite solver_templates.
    + apply templates_correct; [done..|]. do 2 right. split; [done|]. split.
      * exists m, ks, us, (Z.of_nat (length ks)). split_and!; [lia|lia|lia|lia|done..].
      * apply multisig_ok_spec; lia.
    + unfold small_op, OP_0, OP_1, OP_HASH160. destruct (m =? 0); lia.
    + unfold small_op, OP_0, OP_1, OP_RETURN. destruct (m =? 0); lia.
    + apply (multisig_not_witness _ ks); [lia| |done]. intros ->. cbn in Hm. lia.
Qed.

Lemma solved_form s t sols t0 : bytes_ok s -> Z.of_nat (length s) < 2 ^ 32 ->
  ScriptSolver s t0 = (true, t, sols) -> standard_form s t sols.
Proof.
  intros Hb Hlen. unfold ScriptSolver. destruct (IsPayToScriptHash s) eqn:Hs.
  { apply scripthash_iff in Hs as (h & Hh & ->). cbn [drop]. rewrite drop_0, take_app_length' by done.
    intros [= <- <-]. by constructor. }
  destruct (IsWitnessProgram s) as [[v p]|] eqn:Hw.
  { apply witness_iff in Hw as (Hv & Hp & ->). destruct (Z.eqb_spec v 0) as [->|]; cbn [andb negb].
    - destruct (Nat.eqb_spec (length p) 20) as [H|]; [intros [= <- <-]; rewrite H; by constructor|].
      destruct (Nat.eqb_spec (length p) 32) as [H|]; [intros [= <- <-]; rewrite H; by constructor|done].
    - intros [= <- <-]. rewrite wrap_small by (unfold in_range; lia). constructor; lia. }
  case_match eqn:Hnull.
  { apply andb_true_iff in Hnull as [[_ H0%Z.eqb_eq]%andb_true_iff H1]. intros [= <- <-].
    destruct s as [|b r]; [done|]. cbn [byte_at nth] in H0. subst b. cbn [drop] in H1. rewrite drop_0 in H1.
    by constructor. }
  intros H%templates_correct; [|done..].
  destruct H as [(-> & k & u & Hk & -> & ->)|[(-> & h & u & Hh & Hu & -> & ->)|(-> & (m & ks & us & n & Hm & Hn & Hks & -> & ->) & Hok)]].
  - by constructor.
  - by constructor.
  - apply multisig_ok_spec in Hok as [Hm' ->]; [|done]. constructor; [done|lia|done].
Qed.

(** *** The scripts that the wallet makes *)

Lemma push_data_form k : Z.of_nat (length k) < 2 ^ 32 -> push_form k (push_data [] k).
Proof.
  intros Hk. unfold push_data. cbn [app].
  destruct (Z.ltb_spec (Z.of_nat (length k)) OP_PUSHDATA1) as [H|H]; [|destruct (Z.leb_spec (Z.of_nat (length k)) 0xff);
    [|destruct (Z.leb_spec (Z.of_nat (length k)) 0xffff)]];
    rewrite wrap_small by (unfold in_range, OP_PUSHDATA1 in *; lia); by constructor.
Qed.

Lemma push_data_short k : (length k < 76)%nat -> push_data [] k = Z.of_nat (length k) :: k.
Proof.
  intros Hk. unfold push_data. rewrite (proj2 (Z.ltb_lt _ _)) by (unfold OP_PUSHDATA1; lia).
  by rewrite wrap_small by (unfold in_range; lia).
Qed.

Lemma push_keys m keys : foldl push_data [m] keys = m :: concat (push_data [] <$> keys).
Proof.
  change (m :: concat _) with ([m] ++ concat (push_data [] <$> keys)). generalize [m]. induction keys as [|k keys IH]; intros s.
  - by rewrite app_nil_r.
  - cbn. by rewrite IH, (script_facts.push_data_app s k), <- app_assoc.
Qed.
End standard_facts.

(** ** The properties *)

(** The destinations that the program builds. *)
Definition dest_ok (d : CTxDestination) : Prop :=
  match d with
  | CNoDestination => False
  | CKeyID h | CScriptID h | WitnessV0KeyHash h => length h = 20%nat /\ bytes_ok h
  | WitnessV0ScriptHash h => length h = 32%nat /\ bytes_ok h
  | WitnessUnknown v p => 1 <= v <= 16 /\ (2 <= length p <= 40)%nat /\ bytes_ok p
  end.

(** The standard type of the script that pays to a destination. *)
Definition dest_type (d : CTxDestination) : txnouttype :=
  match d with
  | CNoDestination => TX_NONSTANDARD
  | CKeyID _ => TX_PUBKEYHASH
  | CScriptID _ => TX_SCRIPTHASH
  | WitnessV0KeyHash _ => TX_WITNESS_V0_KEYHASH
  | WitnessV0ScriptHash _ => TX_WITNESS_V0_SCRIPTHASH
  | WitnessUnknown _ _ => TX_WITNESS_UNKNOWN
  end.

Module destination_facts.
Import standard_facts.

Lemma destination_form d : dest_ok d -> exists s sols,
  GetScriptForDestination d = Some s /\ bytes_ok s /\ (length s <= 42)%nat /\ standard_form s (dest_type d) sols /\
  match dest_type d, sols with
  | TX_WITNESS_UNKNOWN, [[v]; p] => d = WitnessUnknown v p
  | TX_PUBKEYHASH, [h] => d = CKeyID h
  | TX_SCRIPTHASH, [h] => d = CScriptID h
  | TX_WITNESS_V0_KEYHASH, [h] => d = WitnessV0KeyHash h
  | TX_WITNESS_V0_SCRIPTHASH, [h] => d = WitnessV0ScriptHash h
  | _, _ => False
  end.
Proof.
  assert (forall n, (n < 256)%nat -> in_range 8 (Z.of_nat n)) as Hbyte by (unfold in_range; lia).
  destruct d as [|h|h|h|h|v p]; cbn [dest_ok]; [done|intros [Hl Hb]..|intros (Hv & Hl & Hb)];
    unfold GetScriptForDestination;
    try (rewrite (script_facts.push_data_app _ h), push_data_short by lia; rewrite Hl).
  - eexists _, [h]. split_and!; [done| | |constructor; [done|rewrite <- Hl; apply push_direct; unfold OP_PUSHDATA1; lia]|done].
    + repeat (apply Forall_app; split); repeat (constructor; [done|]); [..|constructor]; done.
    + rewrite !length_app. cbn [length]. lia.
  - eexists _, [h]. split_and!; [done| | |by constructor|done].
    + cbn [app]. repeat (constructor; [done|]). apply Forall_app. split; [done|by repeat constructor].
    + cbn [app length]. rewrite length_app. cbn [length]. lia.
  - eexists _, [h]. split_and!; [done| | |by constructor|done]; [by repeat (constructor; [done|])|cbn; lia].
  - eexists _, [h]. split_and!; [done| | |by constructor|done]; [by repeat (constructor; [done|])|cbn; lia].
  - assert (CScript.EncodeOP_N v = Some (small_op v)) as ->.
    { unfold CScript.EncodeOP_N, small_op. bcases; done. }
    cbn [mbind option_bind]. rewrite script_facts.push_data_app, push_data_short by lia.
    eexists _, [[v]; p]. split_and!; [done| | |by constructor|done].
    + cbn [app]. constructor; [|constructor; [apply Hbyte; lia|done]].
      unfold small_op, OP_0, OP_1, in_range. destruct (v =? 0); lia.
    + cbn [app length]. lia.
Qed.

Lemma multisig_form m keys : 1 <= m <= Z.of_nat (length keys) -> (length keys <= 16)%nat ->
  Forall (fun k => length k = PUBLIC_KEY_SIZE /\ bytes_ok k) keys ->
  exists s, GetScriptForMultisig m keys = Some s /\ bytes_ok s /\ Z.of_nat (length s) < 2 ^ 32 /\
    standard_form s TX_MULTISIG ([m] :: keys ++ [[Z.of_nat (length keys)]]).
Proof.
  intros Hm Hn Hk.
  assert (forall v, 1 <= v <= 16 -> CScript.EncodeOP_N v = Some (small_op v) /\ in_range 8 (small_op v)) as Henc.
  { intros v Hv. unfold CScript.EncodeOP_N, small_op, in_range, OP_0, OP_1. destruct (Z.eqb_spec v 0); [lia|].
    bcases; split; done || lia. }
  unfold GetScriptForMultisig. rewrite (proj1 (Henc m ltac:(lia))). cbn [mbind option_bind].
  rewrite swrap_small by lia. rewrite (proj1 (Henc (Z.of_nat (length keys)) ltac:(lia))). cbn [mbind option_bind].
  rewrite push_keys. eexists. split; [done|].
  assert (Forall (fun u => bytes_ok u /\ length u = 33%nat) (CScript.push_data [] <$> keys)) as Hus.
  { apply Forall_fmap. eapply Forall_impl; [exact Hk|]. intros k [Hl Hb]. cbn. rewrite push_data_short, Hl by (rewrite Hl; unfold PUBLIC_KEY_SIZE; lia).
    split; [by constructor|]. cbn. by rewrite Hl. }
  assert (length (concat (CScript.push_data [] <$> keys)) <= 33 * length keys)%nat as Hlen.
  { rewrite <- (length_fmap (CScript.push_data []) keys). clear -Hus. induction Hus as [|u us [_ Hu] _ IH]; [done|].
    cbn [concat length]. rewrite length_app. lia. }
  cbn [app]. split_and!.
  - constructor; [apply Henc; lia|]. apply Forall_app. split.
    + clear -Hus. induction Hus as [|u us [Hu _] _ IH]; [constructor|]. cbn [concat]. by apply Forall_app.
    + constructor; [apply Henc; lia|]. by constructor.
  - cbn [length]. rewrite length_app. cbn [length]. lia.
  - constructor; [done..|]. clear -Hk. induction Hk as [|k keys [Hl Hb] _ IH]; [constructor|]. cbn [fmap list_fmap].
    constructor; [|done]. split; [done|]. apply push_data_form. rewrite Hl. unfold PUBLIC_KEY_SIZE. lia.
Qed.
End destination_facts.

(** C35: [ScriptSolver] decides exactly the standard forms.  For every script
    of bytes below 4 gigabytes and whatever the caller's [typeRet] was before,
    the solver succeeds with a type and solutions if and only if the script
    has the standard form of this type, where the solutions are the hash, the
    witness version and program, the public key, or the threshold, the keys
    in order and their number; keys and hashes may be pushed in any of the
    four encodings, witness programs and script hashes only in one. *)
Theorem ScriptSolver_correct (s : bytes) (t0 t : txnouttype) (sols : list valtype) :
  bytes_ok s -> Z.of_nat (length s) < 2 ^ 32 ->
  ScriptSolver s t0 = (true, t, sols) <-> standard_form s t sols.
Proof.
  intros Hb Hlen. split; [by apply standard_facts.solved_form|by apply standard_facts.form_solved].
Qed.

Lemma ScriptSolver_correct_witness :
  standard_form [OP_RETURN; 2; 7; 8] TX_NULL_DATA [] /\
  ScriptSolver ([OP_DUP; OP_HASH160; OP_PUSHDATA1; 20] ++ replicate 20 7 ++ [OP_EQUALVERIFY; OP_CHECKSIG]) TX_MULTISIG
  = (true, TX_PUBKEYHASH, [replicate 20 7]).
Proof.
  split.
  - apply (ScriptSolver_correct _ TX_NONSTANDARD); [decided|reflexivity|reflexivity].
  - apply ScriptSolver_correct; [decided|reflexivity|].
    apply (form_pubkeyhash (replicate 20 7) (OP_PUSHDATA1 :: 20 :: replicate 20 7)); [reflexivity|].
    apply (push_one (replicate 20 7)). discriminate.
Defined.

(** C36: Paying and recognising.  The script that the program makes for a
    valid destination is the standard script of its kind, from which
    [ExtractDestination] gives the destination back, so that different
    destinations have different scripts, and the node relays it unless it is
    a witness program of an unknown version.  From the script for a public
    key comes the hash of the key, and from the multisignature script of up to
    16 keys come the hashes of all its keys in order and the number of
    signatures. *)
Theorem destinations_roundtrip `{Hs : HashFunctions} (mem : memory) (acceptData : bool) (maxData : Z) :
  (forall d, dest_ok d -> exists s, GetScriptForDestination d = Some s /\
     ExtractDestination mem s = Some d /\
     forall t0, IsStandard acceptData maxData s t0 true =
       (match d with WitnessUnknown _ _ => false | _ => true end, dest_type d)) /\
  (forall k, length k = PUBLIC_KEY_SIZE -> bytes_ok k ->
     ExtractDestination mem (GetScriptForRawPubKey k) = Some (CKeyID (CHash160 k))) /\
  (forall m keys n0, 1 <= m <= Z.of_nat (length keys) -> (length keys <= 16)%nat ->
     Forall (fun k => length k = PUBLIC_KEY_SIZE /\ bytes_ok k) keys -> exists s,
     GetScriptForMultisig m keys = Some s /\
     ExtractDestinations mem s n0 = (true, TX_MULTISIG, (fun k => CKeyID (CHash160 k)) <$> keys, m)).
Proof.
  assert (forall k, length k = PUBLIC_KEY_SIZE -> GetID mem k = CKeyID (CHash160 k)) as Hid.
  { intros k Hk. unfold GetID, CPubKey_of. by rewrite (proj2 (Nat.eqb_eq _ _)). }
  split_and!.
  - intros d Hd. destruct (destination_facts.destination_form d Hd) as (s & sols & Hs' & Hb & Hl & Hf & Hd').
    exists s. split; [done|].
    assert (forall t0, ScriptSolver s t0 = (true, dest_type d, sols)) as Hsol
      by (intros; apply standard_facts.form_solved; [done|lia|done]).
    unfold ExtractDestination, IsStandard. split; [rewrite Hsol|intros t0; rewrite Hsol];
      destruct d; cbn [dest_type] in *; repeat case_match; simplify_eq; done.
  - intros k Hk Hb. unfold ExtractDestination.
    rewrite (standard_facts.form_solved _ TX_PUBKEY [k]); [cbn; by rewrite Hid|..];
      unfold GetScriptForRawPubKey; rewrite standard_facts.push_data_short, Hk by (rewrite Hk; unfold PUBLIC_KEY_SIZE; lia).
    + constructor; [done|]. apply Forall_app. split; [done|by constructor].
    + cbn [app length]. rewrite length_app, Hk. done.
    + rewrite <- Hk. apply form_pubkey. split; [done|]. apply push_direct. by rewrite Hk.
  - intros m keys n0 Hm Hn Hk.
    destruct (destination_facts.multisig_form m keys Hm Hn Hk) as (s & Hs' & Hb & Hl & Hf).
    exists s. split; [done|]. unfold ExtractDestinations. rewrite (standard_facts.form_solved _ _ _ _ Hb Hl Hf).
    cbn [negb]. rewrite bool_decide_false, bool_decide_true by done. cbn [length drop head from_option id nth].
    rewrite drop_0, length_app. cbn [length]. replace (S (length keys + 1) - 2)%nat with (length keys) by lia.
    rewrite take_app_length.
    assert (omap (fun k => if negb CPubKey_IsValid then None else Some (GetID mem k)) keys
            = (fun k => CKeyID (CHash160 k)) <$> keys) as ->.
    { transitivity (omap (fun k => Some (GetID mem k)) keys); [done|]. clear -Hk Hid.
      induction Hk as [|k keys [Hl _] _ IH]; [done|]. cbn [omap list_omap fmap list_fmap].
      f_equal; [by apply Hid|done]. }
    destruct keys; [cbn in Hm; lia|done].
Qed.

Definition fixed_hashes : HashFunctions := {|
  CRIPEMD160 := fun _ => replicate 20 1; CSHA1 := fun _ => replicate 20 2; CSHA3_256 := fun _ => replicate 32 3 |}.

Lemma destinations_roundtrip_witness :
  (exists s, GetScriptForDestination (WitnessUnknown 16 [1; 2]) = Some s /\
     @ExtractDestination fixed_hashes {| uninitialised := []; beyond := [] |} s = Some (WitnessUnknown 16 [1; 2])) /\
  (exists s, GetScriptForMultisig 1 [replicate 32 5; replicate 32 6] = Some s /\
     @ExtractDestinations fixed_hashes {| uninitialised := []; beyond := [] |} s 9
     = (true, TX_MULTISIG, [CKeyID (replicate 20 1); CKeyID (replicate 20 1)], 1)).
Proof.
  destruct (@destinations_roundtrip fixed_hashes {| uninitialised := []; beyond := [] |} true 83) as (H1 & _ & H3).
  split.
  - destruct (H1 (WitnessUnknown 16 [1; 2])) as (s & Hs & He & _); [|by exists s].
    split; [lia|]. split; [cbn; lia|]. decided.
  - destruct (H3 1 [replicate 32 5; replicate 32 6] 9) as (s & Hs & He); [cbn; lia|cbn; lia|decided|].
    by exists s.
Defined.
