(* ===== verification/Bloom.v ===== *)
(** * Bloom filters ([bloom.h], [bloom.cpp])

    [CBloomFilter], the filter that a light client loads into its peers, and
    [CRollingBloomFilter], which remembers the last elements inserted.  The
    sizes that the constructors compute in floating point are arguments here.
    [None] is a division by zero. *)

From S2P Require Import Prelude ArithUint256 Uint256 Blocks SipHash Hash Script Interpreter Serialize Transaction TxVerify Block Merkle MerkleBlock Standard.

Definition MAX_BLOOM_FILTER_SIZE : Z := 36000.
Definition MAX_HASH_FUNCS : Z := 50.
Definition BLOOM_UPDATE_NONE : Z := 0.
Definition BLOOM_UPDATE_ALL : Z := 1.
Definition BLOOM_UPDATE_P2PUBKEY_ONLY : Z := 2.
Definition BLOOM_UPDATE_MASK : Z := 3.

(** ** [CBloomFilter] *)

Record CBloomFilter := {
  vData : bytes;
  isFull : bool;
  isEmpty : bool;
  nHashFuncs : Z;
  nTweak : Z;
  nFlags : Z;
}.

(** The default constructor, and the one for a number of elements and a rate:
    [bits] and [funcs] are the two rounded floating-point results. *)
Definition default_filter : CBloomFilter :=
  {| vData := []; isFull := true; isEmpty := false; nHashFuncs := 0; nTweak := 0; nFlags := 0 |}.
Definition new_filter (bits funcs nTweakIn nFlagsIn : Z) : CBloomFilter :=
  {| vData := replicate (Z.to_nat (Z.min bits (MAX_BLOOM_FILTER_SIZE * 8) / 8)) 0;
     isFull := false; isEmpty := true; nHashFuncs := Z.min funcs MAX_HASH_FUNCS;
     nTweak := nTweakIn; nFlags := nFlagsIn |}.

Definition with_bits (f : CBloomFilter) (d : bytes) : CBloomFilter :=
  {| vData := d; isFull := isFull f; isEmpty := isEmpty f;
     nHashFuncs := nHashFuncs f; nTweak := nTweak f; nFlags := nFlags f |}.
Definition with_marks (f : CBloomFilter) (full empty : bool) : CBloomFilter :=
  {| vData := vData f; isFull := full; isEmpty := empty;
     nHashFuncs := nHashFuncs f; nTweak := nTweak f; nFlags := nFlags f |}.

(** [Hash]. *)
Definition bloom_seed (nHashNum nTweak : Z) : Z := u32 (u32 (nHashNum * 0xFBA4C795) + nTweak).
Definition bloom_Hash (f : CBloomFilter) (nHashNum : Z) (vDataToHash : bytes) : option Z :=
  let m := Z.of_nat (length (vData f)) * 8 in
  if m =? 0 then None else Some (MurmurHash3 (bloom_seed nHashNum (nTweak f)) vDataToHash mod m).

(** Setting and testing bit [nIndex] of [vData]. *)
Definition set_bit (d : bytes) (nIndex : Z) : bytes :=
  let i := Z.to_nat (Z.shiftr nIndex 3) in
  <[i := u8 (Z.lor (nth i d 0) (Z.shiftl 1 (Z.land 7 nIndex)))]> d.
Definition test_bit (d : bytes) (nIndex : Z) : bool :=
  negb (Z.land (nth (Z.to_nat (Z.shiftr nIndex 3)) d 0) (Z.shiftl 1 (Z.land 7 nIndex)) =? 0).

(** The loops over the hash functions, from number [i] on. *)
Fixpoint insert_loop (n : nat) (i : Z) (f : CBloomFilter) (vKey : bytes) : option CBloomFilter :=
  match n with
  | O => Some f
  | S n =>
      nIndex ← bloom_Hash f i vKey;
      insert_loop n (i + 1) (with_bits f (set_bit (vData f) nIndex)) vKey
  end.
Fixpoint contains_loop (n : nat) (i : Z) (f : CBloomFilter) (vKey : bytes) : option bool :=
  match n with
  | O => Some true
  | S n =>
      nIndex ← bloom_Hash f i vKey;
      if negb (test_bit (vData f) nIndex) then Some false else contains_loop n (i + 1) f vKey
  end.

Definition insert (f : CBloomFilter) (vKey : bytes) : option CBloomFilter :=
  if isFull f then Some f
  else
    f ← insert_loop (Z.to_nat (nHashFuncs f)) 0 f vKey;
    Some (with_marks f (isFull f) false).
Definition contains (f : CBloomFilter) (vKey : bytes) : option bool :=
  if isFull f then Some true
  else if isEmpty f then Some false
  else contains_loop (Z.to_nat (nHashFuncs f)) 0 f vKey.

(** The overloads for outpoints and hashes. *)
Definition insert_outpoint (f : CBloomFilter) (o : COutPoint) : option CBloomFilter :=
  insert f (Serialize outpoint_codec o).
Definition contains_outpoint (f : CBloomFilter) (o : COutPoint) : option bool :=
  contains f (Serialize outpoint_codec o).

Definition clear (f : CBloomFilter) : CBloomFilter :=
  with_marks (with_bits f (replicate (length (vData f)) 0)) false true.
Definition reset (f : CBloomFilter) (nNewTweak : Z) : CBloomFilter :=
  let f := clear f in
  {| vData := vData f; isFull := isFull f; isEmpty := isEmpty f;
     nHashFuncs := nHashFuncs f; nTweak := nNewTweak; nFlags := nFlags f |}.

Definition IsWithinSizeConstraints (f : CBloomFilter) : bool :=
  (Z.of_nat (length (vData f)) <=? MAX_BLOOM_FILTER_SIZE) && (nHashFuncs f <=? MAX_HASH_FUNCS).

Definition UpdateEmptyFull (f : CBloomFilter) : CBloomFilter :=
  let '(full, empty) :=
    foldl (fun '(full, empty) b => (full && (b =? 0xff), empty && (b =? 0))) (true, true) (vData f) in
  with_marks f full empty.

(** [SerializationOp]; reading leaves [isFull] and [isEmpty] as the default
    constructor set them. *)
Definition bloom_codec : codec CBloomFilter := {|
  Serialize f := Serialize bytes_codec (vData f) ++ Serialize uint32_codec (nHashFuncs f) ++
    Serialize uint32_codec (nTweak f) ++ Serialize uint8_codec (nFlags f);
  Unserialize s :=
    '(d, s) ← Unserialize bytes_codec s;
    '(n, s) ← Unserialize uint32_codec s;
    '(t, s) ← Unserialize uint32_codec s;
    '(g, s) ← Unserialize uint8_codec s;
    Ok ({| vData := d; isFull := true; isEmpty := false; nHashFuncs := n; nTweak := t; nFlags := g |}, s) |}.

(** *** [IsRelevantAndUpdate] *)

(** The loop over the operands of a script, up to the first one that the
    filter contains. *)
Fixpoint scan_script (fuel : nat) (f : CBloomFilter) (pc : bytes) : option bool :=
  match fuel, pc with
  | S fuel, _ :: _ =>
      match CScript.GetOp2 pc with
      | None => Some false
      | Some (_, data, pc) =>
          found ← (if negb (length data =? 0)%nat then contains f data else Some false);
          if found : bool then Some true else scan_script fuel f pc
      end
  | _, _ => Some false
  end.

(** What is inserted when an output matches. *)
Definition update_matched (f : CBloomFilter) (txout : CTxOut) (o : COutPoint) : option CBloomFilter :=
  if Z.land (nFlags f) BLOOM_UPDATE_MASK =? BLOOM_UPDATE_ALL then insert_outpoint f o
  else if Z.land (nFlags f) BLOOM_UPDATE_MASK =? BLOOM_UPDATE_P2PUBKEY_ONLY then
    let '(ok, type, _) := ScriptSolver (scriptPubKey txout) TX_NONSTANDARD in
    if ok && bool_decide (type = TX_PUBKEY \/ type = TX_MULTISIG) then insert_outpoint f o else Some f
  else Some f.

Fixpoint scan_outputs (vout : list CTxOut) (i : Z) (hash : uint256) (f : CBloomFilter) (fFound : bool)
    : option (CBloomFilter * bool) :=
  match vout with
  | [] => Some (f, fFound)
  | txout :: vout =>
      found ← scan_script (length (scriptPubKey txout)) f (scriptPubKey txout);
      if found : bool then
        f ← update_matched f txout {| op_hash := hash; op_n := i |};
        scan_outputs vout (i + 1) hash f true
      else scan_outputs vout (i + 1) hash f fFound
  end.

Fixpoint scan_inputs (vin : list CTxIn) (f : CBloomFilter) : option bool :=
  match vin with
  | [] => Some false
  | txin :: vin =>
      spends ← contains_outpoint f (prevout txin);
      if spends : bool then Some true
      else
        found ← scan_script (length (scriptSig txin)) f (scriptSig txin);
        if found : bool then Some true else scan_inputs vin f
  end.

Definition relevant_and_update (f : CBloomFilter) (tx : CTransaction) : option (CBloomFilter * bool) :=
  if isFull f then Some (f, true)
  else if isEmpty f then Some (f, false)
  else
    let hash := GetHash tx in
    found ← contains f hash;
    '(f, fFound) ← scan_outputs (vout tx) 0 hash f found;
    if fFound : bool then Some (f, true)
    else found ← scan_inputs (vin tx) f; Some (f, found).

(** The interface of [MerkleBlock]. *)
#[export] Instance bloom_filter : BloomFilter CBloomFilter := { IsRelevantAndUpdate := relevant_and_update }.

(** ** [CRollingBloomFilter] *)

Record CRollingBloomFilter := {
  nEntriesPerGeneration : Z;
  nEntriesThisGeneration : Z;
  nGeneration : Z;
  data : list Z;
  r_nTweak : Z;
  r_nHashFuncs : Z;
}.

Definition with_data (r : CRollingBloomFilter) (d : list Z) : CRollingBloomFilter :=
  {| nEntriesPerGeneration := nEntriesPerGeneration r; nEntriesThisGeneration := nEntriesThisGeneration r;
     nGeneration := nGeneration r; data := d; r_nTweak := r_nTweak r; r_nHashFuncs := r_nHashFuncs r |}.
Definition with_entries (r : CRollingBloomFilter) (entries generation : Z) : CRollingBloomFilter :=
  {| nEntriesPerGeneration := nEntriesPerGeneration r; nEntriesThisGeneration := entries;
     nGeneration := generation; data := data r; r_nTweak := r_nTweak r; r_nHashFuncs := r_nHashFuncs r |}.

(** [tweak] is the random number. *)
Definition rolling_reset (r : CRollingBloomFilter) (tweak : Z) : CRollingBloomFilter :=
  {| nEntriesPerGeneration := nEntriesPerGeneration r; nEntriesThisGeneration := 0;
     nGeneration := 1; data := replicate (length (data r)) 0; r_nTweak := tweak; r_nHashFuncs := r_nHashFuncs r |}.

(** [funcs] is the rounded quotient of logarithms, [nFilterBits] the rounded
    number of bits. *)
Definition new_rolling (nElements funcs nFilterBits tweak : Z) : CRollingBloomFilter :=
  rolling_reset
    {| nEntriesPerGeneration := u32 (nElements + 1) / 2; nEntriesThisGeneration := 0; nGeneration := 0;
       data := replicate (Z.to_nat (Z.shiftl (u32 (nFilterBits + 63) / 64) 1)) 0;
       r_nTweak := 0; r_nHashFuncs := Z.max 1 (Z.min funcs 50) |} tweak.

(** Wiping the entries of a generation, two words at a time. *)
Fixpoint wipe (nGenerationMask1 nGenerationMask2 : Z) (d : list Z) : list Z :=
  match d with
  | p1 :: p2 :: d =>
      let mask := Z.lor (Z.lxor p1 nGenerationMask1) (Z.lxor p2 nGenerationMask2) in
      Z.land p1 mask :: Z.land p2 mask :: wipe nGenerationMask1 nGenerationMask2 d
  | _ => d
  end.

Definition next_generation (r : CRollingBloomFilter) : CRollingBloomFilter :=
  if nEntriesThisGeneration r =? nEntriesPerGeneration r then
    let g := nGeneration r + 1 in
    let g := if g =? 4 then 1 else g in
    let mask1 := u64 (0 - Z.land g 1) in
    let mask2 := u64 (0 - Z.shiftr g 1) in
    with_data (with_entries r 0 g) (wipe mask1 mask2 (data r))
  else r.

Definition RollingBloomHash (nHashNum nTweak : Z) (vDataToHash : bytes) : Z :=
  MurmurHash3 (bloom_seed nHashNum nTweak) vDataToHash.

(** The bit in a word and the position of the word. *)
Definition rolling_bit (h : Z) : Z := Z.land h 0x3F.
Definition rolling_pos (r : CRollingBloomFilter) (h : Z) : option Z :=
  let m := Z.of_nat (length (data r)) in
  if m =? 0 then None else Some (Z.shiftr h 6 mod m).

Definition put_bit (d : list Z) (i bit v : Z) : list Z :=
  let i := Z.to_nat i in
  <[i := Z.lor (Z.land (nth i d 0) (Z.lnot (Z.shiftl 1 bit))) (Z.shiftl v bit)]> d.

Definition mark (r : CRollingBloomFilter) (h : Z) : option CRollingBloomFilter :=
  let bit := rolling_bit h in
  pos ← rolling_pos r h;
  let d := put_bit (data r) (Z.land pos (Z.lnot 1)) bit (Z.land (nGeneration r) 1) in
  let d := put_bit d (Z.lor pos 1) bit (Z.shiftr (nGeneration r) 1) in
  Some (with_data r d).

Fixpoint rolling_insert_loop (n : nat) (i : Z) (r : CRollingBloomFilter) (vKey : bytes) : option CRollingBloomFilter :=
  match n with
  | O => Some r
  | S n => r ← mark r (RollingBloomHash i (r_nTweak r) vKey); rolling_insert_loop n (i + 1) r vKey
  end.

Definition rolling_insert (r : CRollingBloomFilter) (vKey : bytes) : option CRollingBloomFilter :=
  let r := next_generation r in
  let r := with_entries r (nEntriesThisGeneration r + 1) (nGeneration r) in
  rolling_insert_loop (Z.to_nat (r_nHashFuncs r)) 0 r vKey.

Definition marked (r : CRollingBloomFilter) (h : Z) : option bool :=
  let bit := rolling_bit h in
  pos ← rolling_pos r h;
  let word := Z.lor (nth (Z.to_nat (Z.land pos (Z.lnot 1))) (data r) 0) (nth (Z.to_nat (Z.lor pos 1)) (data r) 0) in
  Some (negb (Z.land (Z.shiftr word bit) 1 =? 0)).

Fixpoint rolling_contains_loop (n : nat) (i : Z) (r : CRollingBloomFilter) (vKey : bytes) : option bool :=
  match n with
  | O => Some true
  | S n =>
      m ← marked r (RollingBloomHash i (r_nTweak r) vKey);
      if negb m then Some false else rolling_contains_loop n (i + 1) r vKey
  end.
Definition rolling_contains (r : CRollingBloomFilter) (vKey : bytes) : option bool :=
  rolling_contains_loop (Z.to_nat (r_nHashFuncs r)) 0 r vKey.

(** ** Facts about [CBloomFilter] *)

(** What a script is searched for: the operands up to the first malformed
    instruction, without the empty ones. *)
Fixpoint operands_loop (fuel : nat) (pc : bytes) : list valtype :=
  match fuel, pc with
  | S fuel, _ :: _ =>
      match CScript.GetOp2 pc with
      | None => []
      | Some (_, d, pc) => if negb (length d =? 0)%nat then d :: operands_loop fuel pc else operands_loop fuel pc
      end
  | _, _ => []
  end.
Definition operands (script : bytes) : list valtype := operands_loop (length script) script.

(** The elements of a transaction that a filter is asked for. *)
Inductive tx_element (tx : CTransaction) : valtype -> Prop :=
  | element_hash : tx_element tx (GetHash tx)
  | element_output o k : o ∈ vout tx -> k ∈ operands (scriptPubKey o) -> tx_element tx k
  | element_prevout i : i ∈ vin tx -> tx_element tx (Serialize outpoint_codec (prevout i))
  | element_input i k : i ∈ vin tx -> k ∈ operands (scriptSig i) -> tx_element tx k.

(** Nothing is divided by zero: the filter is marked as full, has no hash
    functions, or has bits. *)
Definition filter_wf (f : CBloomFilter) : Prop :=
  bytes_ok (vData f) /\ (isFull f = true \/ nHashFuncs f <= 0 \/ vData f <> []).

(** A filter that was made from another by insertions. *)
Record filter_le (f g : CBloomFilter) : Prop := {
  le_size : length (vData g) = length (vData f);
  le_hash_funcs : nHashFuncs g = nHashFuncs f;
  le_tweak : nTweak g = nTweak f;
  le_flags : nFlags g = nFlags f;
  le_full : isFull g = isFull f;
  le_empty : isEmpty f = false -> isEmpty g = false;
  le_bits : forall n, 0 <= n -> test_bit (vData f) n = true -> test_bit (vData g) n = true;
}.

#[export] Instance filter_le_preorder : PreOrder filter_le.
Proof.
  split.
  - intros f. by split.
  - intros f g h [] []. split; try congruence; auto.
Qed.

Abbreviation In_filter f k := (contains f k = Some true).

Module bloom_facts.

Lemma land_shiftl_1 x k : 0 <= k -> (Z.land x (Z.shiftl 1 k) =? 0) = negb (Z.testbit x k).
Proof.
  intros Hk. destruct (Z.testbit x k) eqn:Ht; cbn [negb].
  - apply Z.eqb_neq. intros H. apply (f_equal (fun z => Z.testbit z k)) in H.
    rewrite Z.land_spec, Ht, Z.shiftl_spec, Z.sub_diag, Z.bits_0 in H by done. done.
  - apply Z.eqb_eq, Z.bits_inj'. intros i Hi. rewrite Z.land_spec, Z.shiftl_spec, Z.bits_0 by done.
    destruct (Z.eq_dec i k) as [->|]; [by rewrite Ht|].
    replace (Z.testbit 1 (i - k)) with false; [apply andb_false_r|]. symmetry.
    destruct (Z.lt_ge_cases i k); [apply Z.testbit_neg_r; lia|]. apply (in_range_testbit 1); [done|done|lia].
Qed.

Lemma test_bit_spec d n : 0 <= n -> test_bit d n = Z.testbit (nth (Z.to_nat (n / 8)) d 0) (n mod 8).
Proof.
  intros Hn. unfold test_bit. rewrite Z.shiftr_div_pow2 by done. change (2 ^ 3) with 8.
  replace (Z.land 7 n) with (n mod 8) by (rewrite Z.land_comm; change 7 with (Z.ones 3); by rewrite Z.land_ones).
  rewrite land_shiftl_1 by dlia. apply negb_involutive.
Qed.

Lemma length_set_bit d n : length (set_bit d n) = length d.
Proof. apply length_insert. Qed.

Lemma set_bit_ok d n : bytes_ok d -> bytes_ok (set_bit d n).
Proof. intros Hd. apply Forall_insert; [done|]. apply wrap_range. lia. Qed.

Lemma nth_insert (d : list Z) i j v : (i < length d)%nat -> nth j (<[i := v]> d) 0 = if (j =? i)%nat then v else nth j d 0.
Proof.
  intros Hi. rewrite !nth_lookup. destruct (Nat.eqb_spec j i) as [->|].
  - by rewrite list_lookup_insert_eq.
  - by rewrite list_lookup_insert_ne.
Qed.

Lemma test_set_bit d n m : bytes_ok d -> 0 <= m -> 0 <= n < Z.of_nat (length d) * 8 ->
  test_bit (set_bit d n) m = (m =? n) || test_bit d m.
Proof.
  intros Hd Hm Hn. rewrite !test_bit_spec by done. unfold set_bit. rewrite Z.shiftr_div_pow2 by done. change (2 ^ 3) with 8.
  rewrite nth_insert by (apply Nat2Z.inj_lt; rewrite Z2Nat.id; dlia).
  destruct (Nat.eqb_spec (Z.to_nat (m / 8)) (Z.to_nat (n / 8))) as [He|He].
  - assert (m / 8 = n / 8) as Hdiv by dlia. rewrite wrap_testbit, (proj2 (Z.ltb_lt _ _)) by dlia. cbn [andb].
    rewrite Z.lor_spec, He, Z.shiftl_spec by dlia. rewrite orb_comm. f_equal.
    replace (Z.land 7 n) with (n mod 8) by (rewrite Z.land_comm; change 7 with (Z.ones 3); by rewrite Z.land_ones).
    destruct (Z.eqb_spec m n) as [->|Hne]; [by rewrite Z.sub_diag|].
    destruct (Z.lt_ge_cases (m mod 8) (n mod 8)); [apply Z.testbit_neg_r; lia|].
    apply (in_range_testbit 1); [done|done|dlia].
  - rewrite (proj2 (Z.eqb_neq _ _)); [done|]. intros ->. done.
Qed.

(** *** The two loops *)

Section loops.
Context (f : CBloomFilter) (k : bytes) (f_bits : vData f <> []).

Lemma Hash_Some g i : length (vData g) = length (vData f) -> nTweak g = nTweak f ->
  exists n, bloom_Hash g i k = Some n /\ bloom_Hash f i k = Some n /\ 0 <= n < Z.of_nat (length (vData f)) * 8.
Proof using f_bits.
  intros Hl Ht. unfold bloom_Hash. rewrite Hl, Ht. destruct (vData f) as [|b d]; [done|]. cbn [length].
  rewrite (proj2 (Z.eqb_neq _ _)) by lia. eexists. split; [done|]. split; [done|]. apply Z.mod_pos_bound. lia.
Qed.

Lemma insert_loop_ok n : forall i g, filter_le f g -> bytes_ok (vData g) ->
  exists h, insert_loop n i g k = Some h /\ filter_le g h /\ isEmpty h = isEmpty g /\ bytes_ok (vData h) /\
    forall j x, i <= j < i + Z.of_nat n -> bloom_Hash f j k = Some x -> test_bit (vData h) x = true.
Proof using f_bits.
  induction n as [|n IH]; intros i g Hg Hb.
  - exists g. split_and!; [done|reflexivity|done|done|lia].
  - cbn [insert_loop]. destruct (Hash_Some g i (le_size _ _ Hg) (le_tweak _ _ Hg)) as (x & -> & Hx & Hxr). cbn [mbind option_bind].
    assert (filter_le g (with_bits g (set_bit (vData g) x))) as Hset.
    { split; try done; cbn; [by rewrite length_set_bit|]. intros m Hm Ht. rewrite test_set_bit by (first [done | lia | rewrite (le_size _ _ Hg); lia]).
      by rewrite Ht, orb_true_r. }
    destruct (IH (i + 1) (with_bits g (set_bit (vData g) x))) as (h & -> & Hle & He & Hok & Hall);
      [by etransitivity|by apply set_bit_ok|].
    exists h. split_and!; [done|by etransitivity|done|done|]. intros j y Hj Hy.
    destruct (decide (j = i)) as [->|]; [|apply (Hall j); [lia|done]]. rewrite Hx in Hy. injection Hy as <-.
    apply (le_bits _ _ Hle); [lia|]. cbn. rewrite test_set_bit by (first [done | lia | rewrite (le_size _ _ Hg); lia]). by rewrite Z.eqb_refl.
Qed.

Lemma contains_loop_ok n : forall i, exists b, contains_loop n i f k = Some b /\
  (b = true <-> forall j x, i <= j < i + Z.of_nat n -> bloom_Hash f j k = Some x -> test_bit (vData f) x = true).
Proof using f_bits.
  induction n as [|n IH]; intros i.
  - exists true. split; [done|]. split; [lia|done].
  - cbn [contains_loop]. destruct (Hash_Some f i eq_refl eq_refl) as (x & _ & Hx & _). rewrite Hx. cbn [mbind option_bind].
    destruct (test_bit (vData f) x) eqn:Ht; cbn [negb].
    + destruct (IH (i + 1)) as (b & -> & Hb). exists b. split; [done|]. rewrite Hb. split; intros H j y Hj Hy.
      * destruct (decide (j = i)) as [->|]; [congruence|]. apply (H j); [lia|done].
      * apply (H j); [lia|done].
    + exists false. split; [done|]. split; [done|]. intros H. rewrite (H i x) in Ht by (done || lia). done.
Qed.
End loops.

Lemma wf_cases f : filter_wf f -> isFull f = false -> Z.to_nat (nHashFuncs f) = 0%nat \/ vData f <> [].
Proof. intros [_ [H|[H|H]]] Hf; [congruence|left; lia|by right]. Qed.

Lemma filter_le_wf f g : filter_wf f -> filter_le f g -> bytes_ok (vData g) -> filter_wf g.
Proof.
  intros [_ H] Hle Hb. split; [done|]. rewrite (le_full _ _ Hle), (le_hash_funcs _ _ Hle).
  destruct H as [?|[?|H]]; [by left|by right; left|]. do 2 right. intros He. apply H.
  pose proof (le_size _ _ Hle) as Hl. rewrite He in Hl. by destruct (vData f).
Qed.

Lemma contains_ok f k : filter_wf f -> exists b, contains f k = Some b /\
  (b = true <-> isFull f = true \/ isEmpty f = false /\
     forall j x, 0 <= j < nHashFuncs f -> bloom_Hash f j k = Some x -> test_bit (vData f) x = true).
Proof.
  intros Hwf. unfold contains. destruct (isFull f) eqn:Hf; [exists true; split; [done|]; split; [by left|done]|].
  destruct (isEmpty f); [exists false; split; [done|]; split; [done|]; by intros [?|[? _]]|].
  destruct (wf_cases f Hwf Hf) as [H0|Hne].
  - rewrite H0. exists true. split; [done|]. split; [|done]. intros _. right. split; [done|]. lia.
  - destruct (contains_loop_ok f k Hne (Z.to_nat (nHashFuncs f)) 0) as (b & -> & Hb). exists b. split; [done|].
    rewrite Hb. split.
    + intros H. right. split; [done|]. intros j x Hj. apply H. lia.
    + intros [?|[_ H]]; [done|]. intros j x Hj. apply H. lia.
Qed.

Lemma contains_mono f g k : filter_wf f -> filter_le f g -> bytes_ok (vData g) -> In_filter f k -> In_filter g k.
Proof.
  intros Hf Hle Hb Hk. pose proof (filter_le_wf f g Hf Hle Hb) as Hg.
  destruct (contains_ok f k Hf) as (b & Hc & H). rewrite Hk in Hc. injection Hc as <-.
  destruct (contains_ok g k Hg) as (b & -> & H'). f_equal. apply H'.
  rewrite (le_full _ _ Hle), (le_hash_funcs _ _ Hle). destruct (proj1 H eq_refl) as [|[He Hall]]; [by left|]. right.
  split; [by apply (le_empty _ _ Hle)|]. intros j x Hj Hx.
  unfold bloom_Hash in Hx. rewrite (le_size _ _ Hle), (le_tweak _ _ Hle) in Hx.
  apply (le_bits _ _ Hle).
  - case_match eqn:H0; [done|]. apply Z.eqb_neq in H0. injection Hx as <-. apply Z.mod_pos_bound. lia.
  - by apply (Hall j).
Qed.

Lemma insert_ok f k : filter_wf f -> exists g, insert f k = Some g /\ filter_wf g /\ filter_le f g /\
  bytes_ok (vData g) /\ In_filter g k.
Proof.
  intros Hwf. pose proof Hwf as [Hb _]. unfold insert. destruct (isFull f) eqn:Hf.
  { exists f. split_and!; [done..|]. unfold contains. by rewrite Hf. }
  assert (exists g, insert_loop (Z.to_nat (nHashFuncs f)) 0 f k = Some g /\ filter_le f g /\ bytes_ok (vData g) /\
    forall j x, 0 <= j < nHashFuncs f -> bloom_Hash f j k = Some x -> test_bit (vData g) x = true) as (g & -> & Hle & Hok & Hall).
  { destruct (wf_cases f Hwf Hf) as [H0|Hne].
    - rewrite H0. exists f. split_and!; [done..|lia].
    - destruct (insert_loop_ok f k Hne (Z.to_nat (nHashFuncs f)) 0 f (reflexivity _) Hb) as (g & -> & Hle & _ & Hok & Hall).
      exists g. split_and!; [done..|]. intros j x Hj. apply Hall. lia. }
  cbn [mbind option_bind]. set (h := with_marks g (isFull g) false).
  assert (filter_le f h) as Hfh by (destruct Hle; by split). exists h.
  pose proof (filter_le_wf f h Hwf Hfh Hok) as Hh. split_and!; [done..|].
  destruct (contains_ok h k Hh) as (b & -> & H). f_equal. apply H. right. split; [done|]. intros j x Hj Hx. cbn.
  apply (Hall j); [by rewrite <- (le_hash_funcs _ _ Hfh)|]. unfold bloom_Hash in *.
  by rewrite <- (le_size _ _ Hfh), <- (le_tweak _ _ Hfh).
Qed.

(** *** Scanning a transaction *)

Lemma contains_some f k : filter_wf f -> exists b, contains f k = Some b.
Proof. intros Hf. destruct (contains_ok f k Hf) as (b & H & _). by exists b. Qed.

Lemma scan_script_ok f fuel : filter_wf f -> forall pc, exists b, scan_script fuel f pc = Some b /\
  (b = true <-> exists k, k ∈ operands_loop fuel pc /\ In_filter f k).
Proof.
  intros Hf. assert (false = true <-> exists k : valtype, k ∈ [] /\ In_filter f k) as Hnil.
  { split; [done|]. intros (k & Hk & _). by apply not_elem_of_nil in Hk. }
  induction fuel as [|fuel IH]; intros pc; [by exists false|]. cbn [scan_script operands_loop].
  destruct pc as [|c pc]; [by exists false|]. destruct (CScript.GetOp2 (c :: pc)) as [[[op d] pc']|]; [|by exists false].
  destruct (IH pc') as (b & Hb & Hiff). destruct (length d =? 0)%nat; cbn [negb].
  { exists b. by cbn [mbind option_bind]. }
  destruct (contains_some f d Hf) as ([|] & Hd); rewrite Hd; cbn [mbind option_bind].
  - exists true. split; [done|]. split; [|done]. intros _. exists d. split; [by left|done].
  - exists b. split; [done|]. rewrite Hiff. split.
    + intros (k & Hk & Hin). exists k. split; [by right|done].
    + intros (k & [->|Hk]%elem_of_cons & Hin); [congruence|by exists k].
Qed.

Lemma scan_inputs_ok f vin : filter_wf f -> exists b, scan_inputs vin f = Some b /\
  (b = true <-> exists i k, i ∈ vin /\ (k = Serialize outpoint_codec (prevout i) \/ k ∈ operands (scriptSig i)) /\ In_filter f k).
Proof.
  intros Hf. induction vin as [|i vin (b & Hb & Hiff)].
  { exists false. split; [done|]. split; [done|]. intros (i & k & Hi & _). by apply not_elem_of_nil in Hi. }
  cbn [scan_inputs]. unfold contains_outpoint.
  destruct (contains_some f (Serialize outpoint_codec (prevout i)) Hf) as ([|] & Hp); rewrite Hp; cbn [mbind option_bind].
  { exists true. split; [done|]. split; [|done]. intros _. exists i, (Serialize outpoint_codec (prevout i)).
    split_and!; [by left|by left|done]. }
  destruct (scan_script_ok f (length (scriptSig i)) Hf (scriptSig i)) as ([|] & -> & Hs); cbn [mbind option_bind].
  { exists true. split; [done|]. split; [|done]. intros _. destruct (proj1 Hs eq_refl) as (k & Hk & Hin).
    exists i, k. split_and!; [by left|by right|done]. }
  exists b. split; [done|]. rewrite Hiff. split.
  - intros (j & k & Hj & Hk). exists j, k. split; [by right|done].
  - intros (j & k & [->|Hj]%elem_of_cons & Hk & Hin); [|by exists j, k]. exfalso. destruct Hk as [->|Hk]; [congruence|].
    by discriminate (proj2 Hs (ex_intro _ k (conj Hk Hin))).
Qed.

(** Whether the filter asks for the outputs that match to be inserted. *)
Definition follows (flags : Z) (o : CTxOut) : Prop :=
  Z.land flags BLOOM_UPDATE_MASK = BLOOM_UPDATE_ALL \/
  Z.land flags BLOOM_UPDATE_MASK = BLOOM_UPDATE_P2PUBKEY_ONLY /\
  exists t sols, ScriptSolver (scriptPubKey o) TX_NONSTANDARD = (true, t, sols) /\ (t = TX_PUBKEY \/ t = TX_MULTISIG).

Definition extends (f g : CBloomFilter) : Prop := filter_wf g /\ filter_le f g /\ bytes_ok (vData g).

Lemma extends_refl f : filter_wf f -> extends f f.
Proof. intros Hf. split_and!; [done|done|apply Hf]. Qed.

Lemma extends_trans f g h : extends f g -> extends g h -> extends f h.
Proof. intros (? & ? & ?) (? & ? & ?). split_and!; [done|by etransitivity|done]. Qed.

Lemma extends_mono f g k : filter_wf f -> extends f g -> In_filter f k -> In_filter g k.
Proof. intros Hf (Hg & Hle & Hb). by apply contains_mono. Qed.

Lemma update_matched_ok f o p : filter_wf f -> exists g, update_matched f o p = Some g /\ extends f g /\
  (follows (nFlags f) o -> In_filter g (Serialize outpoint_codec p)).
Proof.
  intros Hf. unfold update_matched, insert_outpoint.
  destruct (insert_ok f (Serialize outpoint_codec p) Hf) as (g & Hg & Hwf & Hle & Hb & Hin). rewrite Hg.
  pose proof (extends_refl f Hf) as Hrefl.
  destruct (Z.eqb_spec (Z.land (nFlags f) BLOOM_UPDATE_MASK) BLOOM_UPDATE_ALL) as [Ha|Ha]; [by exists g|].
  destruct (Z.eqb_spec (Z.land (nFlags f) BLOOM_UPDATE_MASK) BLOOM_UPDATE_P2PUBKEY_ONLY) as [Hp|Hp].
  2:{ exists f. split_and!; [done..|]. by intros [?|[? _]]. }
  destruct (ScriptSolver (scriptPubKey o) TX_NONSTANDARD) as [[ok t] sols] eqn:Hs.
  destruct ok; cbn [andb]; [case_bool_decide as Ht; [by exists g|]|]; exists f; split_and!; try done;
    (intros [?|(_ & t' & sols' & Hs' & Ht')]; [done|]; rewrite Hs in Hs'; injection Hs'; intros; subst; done).
Qed.

Lemma scan_outputs_ok hash vout : forall f i found, filter_wf f -> exists g b,
  scan_outputs vout i hash f found = Some (g, b) /\ extends f g /\
  (found = true -> b = true) /\
  (b = true -> found = true \/ exists o k, o ∈ vout /\ k ∈ operands (scriptPubKey o) /\ In_filter g k) /\
  forall n o k, vout !! n = Some o -> k ∈ operands (scriptPubKey o) -> In_filter f k ->
    b = true /\ (follows (nFlags f) o -> In_filter g (Serialize outpoint_codec {| op_hash := hash; op_n := i + Z.of_nat n |})).
Proof.
  induction vout as [|o vout IH]; intros f i found Hf.
  { exists f, found. split_and!; [done|by apply extends_refl|done|by left|done]. }
  cbn [scan_outputs]. destruct (scan_script_ok f (length (scriptPubKey o)) Hf (scriptPubKey o)) as (m & -> & Hm).
  cbn [mbind option_bind].
  assert (exists f1, (if m then update_matched f o {| op_hash := hash; op_n := i |} else Some f) = Some f1 /\ extends f f1 /\
    (m = true -> follows (nFlags f) o -> In_filter f1 (Serialize outpoint_codec {| op_hash := hash; op_n := i |}))) as (f1 & Hf1 & Hx & Hfol).
  { destruct m; [|exists f; split_and!; [done|by apply extends_refl|done]].
    destruct (update_matched_ok f o {| op_hash := hash; op_n := i |} Hf) as (g & ? & ? & ?). by exists g. }
  pose proof Hx as (Hwf1 & Hle1 & _).
  destruct (IH f1 (i + 1) (if m then true else found) Hwf1) as (g & b & Hg & Hxg & Hfound & Hb & Hall).
  assert ((if m then f ← update_matched f o {| op_hash := hash; op_n := i |}; scan_outputs vout (i + 1) hash f true
           else scan_outputs vout (i + 1) hash f found) = Some (g, b)) as Heq.
  { destruct m; [rewrite Hf1; exact Hg|]. injection Hf1 as ->. exact Hg. }
  exists g, b. split; [exact Heq|]. split; [by eapply extends_trans|]. split; [intros ->; apply Hfound; by destruct m|]. split.
  - intros Hbt. destruct (Hb Hbt) as [Hmf|(o' & k & Ho & Hk & Hin)]; [|right; exists o', k; split_and!; [by right|done..]].
    destruct m; [|by left]. right. destruct (proj1 Hm eq_refl) as (k & Hk & Hin). exists o, k.
    split_and!; [by left|done|]. eapply extends_mono; [exact Hf|by eapply extends_trans|done].
  - intros [|n] o' k; cbn [lookup list_lookup].
    + intros [= <-] Hk Hin. assert (m = true) as -> by (apply Hm; by exists k). split; [by apply Hfound|].
      intros Ho. rewrite Z.add_0_r. eapply extends_mono; [exact Hwf1|exact Hxg|by apply Hfol].
    + intros Ho Hk Hin. rewrite Nat2Z.inj_succ. replace (i + Z.succ (Z.of_nat n)) with (i + 1 + Z.of_nat n) by lia.
      rewrite <- (le_flags _ _ Hle1). apply (Hall n o' k); [done..|by apply (extends_mono f)].
Qed.

(** The verdict on a transaction and the filter after it. *)
Lemma relevant_ok f (tx : CTransaction) : filter_wf f -> exists g b, relevant_and_update f tx = Some (g, b) /\ extends f g /\
  (forall k, tx_element tx k -> In_filter f k -> b = true) /\
  (b = true -> exists k, tx_element tx k /\ In_filter g k) /\
  forall n o k, vout tx !! n = Some o -> k ∈ operands (scriptPubKey o) -> In_filter f k -> follows (nFlags f) o ->
    In_filter g (Serialize outpoint_codec {| op_hash := GetHash tx; op_n := Z.of_nat n |}).
Proof.
  intros Hf. unfold relevant_and_update. pose proof (extends_refl f Hf) as Hrefl.
  destruct (isFull f) eqn:Hfull.
  { assert (forall k, In_filter f k) as Hall by (intros; unfold contains; by rewrite Hfull).
    exists f, true. split_and!; [done..| |done]. intros _. exists (GetHash tx). split; [constructor|done]. }
  destruct (isEmpty f) eqn:Hempty.
  { assert (forall k, ~ In_filter f k) as Hnone by (intros; unfold contains; by rewrite Hfull, Hempty).
    exists f, false. split_and!; [done|done| |done|]; intros; exfalso; by eapply Hnone. }
  destruct (contains_some f (GetHash tx) Hf) as (b0 & Hb0). rewrite Hb0. cbn [mbind option_bind].
  destruct (scan_outputs_ok (GetHash tx) (vout tx) f 0 b0 Hf) as (g & b1 & -> & Hx & Hfound & Hb1 & Hall).
  cbn [mbind option_bind]. pose proof Hx as (Hwf & _ & _).
  destruct (scan_inputs_ok g (vin tx) Hwf) as (b2 & Hb2 & Hiff).
  assert ((if b1 then Some (g, true) else found ← scan_inputs (vin tx) g; Some (g, found)) = Some (g, b1 || b2)) as ->.
  { destruct b1; [done|]. by rewrite Hb2. }
  exists g, (b1 || b2). split_and!; [done|done| | |].
  - intros k Hk Hin. apply orb_true_iff. destruct Hk as [|o k Ho Hk|i Hi|i k Hi Hk].
    + left. apply Hfound. congruence.
    + left. apply list_elem_of_lookup in Ho as [n Ho]. by apply (Hall n o k).
    + right. apply Hiff. exists i, (Serialize outpoint_codec (prevout i)). split_and!; [done|by left|by apply (extends_mono f)].
    + right. apply Hiff. exists i, k. split_and!; [done|by right|by apply (extends_mono f)].
  - intros [Hb|Hb]%orb_true_iff.
    + destruct (Hb1 Hb) as [->|(o & k & Ho & Hk & Hin)].
      * exists (GetHash tx). split; [constructor|by apply (extends_mono f)].
      * exists k. split; [by eapply element_output|done].
    + destruct (proj1 Hiff Hb) as (i & k & Hi & [->|Hk] & Hin); eexists; (split; [|exact Hin]);
        [by constructor|by eapply element_input].
  - intros n o k Ho Hk Hin Hfl. by apply (Hall n o k).
Qed.

(** *** The life of a filter *)

Lemma UpdateEmptyFull_spec f : UpdateEmptyFull f =
  with_marks f (forallb (fun b => b =? 0xff) (vData f)) (forallb (fun b => b =? 0) (vData f)).
Proof.
  unfold UpdateEmptyFull.
  assert (forall d a b, foldl (fun '(full, empty) c => (full && (c =? 0xff), empty && (c =? 0))) (a, b) d
    = (a && forallb (fun c => c =? 0xff) d, b && forallb (fun c => c =? 0) d)) as ->; [|done].
  induction d as [|c d IH]; intros a b; cbn [foldl forallb]; [by rewrite !andb_true_r|]. by rewrite IH, <- !andb_assoc.
Qed.

(** An empty vector counts as full, so that no received filter divides by
    zero. *)
Lemma UpdateEmptyFull_wf f : bytes_ok (vData f) -> filter_wf (UpdateEmptyFull f).
Proof.
  intros Hb. rewrite UpdateEmptyFull_spec. split; [done|]. cbn. destruct (vData f); [by left|by do 2 right].
Qed.

Lemma new_filter_wf bits funcs tweak flags : (bits < 8 -> funcs <= 0) -> filter_wf (new_filter bits funcs tweak flags).
Proof.
  intros H. split; [apply Forall_replicate; done|]. cbn. right. destruct (Z.lt_ge_cases bits 8); [left; lia|right].
  assert (1 <= Z.min bits (MAX_BLOOM_FILTER_SIZE * 8) / 8).
  { apply Z.div_le_lower_bound; unfold MAX_BLOOM_FILTER_SIZE; lia. }
  destruct (Z.to_nat _) eqn:He; [lia|done].
Qed.

Lemma forallb_bits (f : CBloomFilter) (c : Z) n : 0 <= n < Z.of_nat (length (vData f)) * 8 ->
  forallb (fun b => b =? c) (vData f) = true -> test_bit (vData f) n = Z.testbit c (n mod 8).
Proof.
  intros Hn Hall. rewrite test_bit_spec by lia. f_equal. apply Z.eqb_eq.
  rewrite forallb_forall in Hall. apply (Hall (nth (Z.to_nat (n / 8)) (vData f) 0)). apply nth_In.
  apply Nat2Z.inj_lt. rewrite Z2Nat.id; dlia.
Qed.

(** Looking again whether the filter is empty or full loses nothing. *)
Lemma received_filter_wf s raw rest : bytes_ok s -> Unserialize bloom_codec s = Ok (raw, rest) -> filter_wf (UpdateEmptyFull raw).
Proof.
  intros Hs H. cbn [Unserialize bloom_codec] in H.
  apply bind_Ok in H as ([d s1] & E & H).
  destruct (@serialize_unserialize _ _ _ serialize_facts.bytes_laws d s s1 Hs E) as [[Hd _] _].
  apply bind_Ok in H as ([n s2] & _ & H). apply bind_Ok in H as ([t s3] & _ & H). apply bind_Ok in H as ([g s4] & _ & H).
  injection H as <- _. by apply UpdateEmptyFull_wf.
Qed.

Lemma UpdateEmptyFull_keeps f k : filter_wf f -> isFull f = false -> 0 < nHashFuncs f -> In_filter f k ->
  In_filter (UpdateEmptyFull f) k.
Proof.
  intros Hf Hfull Hn Hk. assert (vData f <> []) as Hne by (destruct Hf as [_ [?|[?|?]]]; [congruence|lia|done]).
  destruct (contains_ok f k Hf) as (b & Hc & Hb). rewrite Hk in Hc. injection Hc as <-.
  pose proof (UpdateEmptyFull_wf f (proj1 Hf)) as Hwf. rewrite UpdateEmptyFull_spec in *.
  set (g := with_marks _ _ _) in *. destruct (contains_ok g k Hwf) as (b & -> & Hg). f_equal. apply Hg.
  destruct (proj1 Hb eq_refl) as [|[He Hall]]; [congruence|]. right. split; [|done].
  apply not_true_iff_false. intros Hz. change (forallb (fun b => b =? 0) (vData f) = true) in Hz.
  destruct (Hash_Some f k Hne f 0 eq_refl eq_refl) as (x & Hx & _ & Hr).
  pose proof (Hall 0 x ltac:(lia) Hx) as Ht. rewrite (forallb_bits f 0 x Hr Hz), Z.bits_0 in Ht. done.
Qed.

Lemma clear_contains f k : contains (clear f) k = Some false.
Proof. done. Qed.
End bloom_facts.

(** ** Filtered blocks made with a bloom filter *)

(** Why a transaction of a block concerns the owner of filter [f]: one of its
    elements is in the filter, or it spends an output of an earlier
    transaction of the block that matched and that the filter follows. *)
Inductive wanted (f : CBloomFilter) (vtx : list CTransaction) (n : nat) : Prop :=
  | wanted_element tx k : vtx !! n = Some tx -> tx_element tx k -> In_filter f k -> wanted f vtx n
  | wanted_spend (tx : CTransaction) m (tx' : CTransaction) (i : nat) o k j : vtx !! n = Some tx -> (m < n)%nat -> vtx !! m = Some tx' ->
      vout tx' !! i = Some o -> k ∈ operands (scriptPubKey o) -> In_filter f k ->
      bloom_facts.follows (nFlags f) o -> j ∈ vin tx ->
      prevout j = {| op_hash := GetHash tx'; op_n := Z.of_nat i |} -> wanted f vtx n.

Module filtered_facts.
Import bloom_facts.

Lemma match_loop_ok `{Hs : HashFunctions} vtx : forall i f, filter_wf f -> exists g ms matched,
  match_loop vtx i (Some f) None = Some (Some g, ms, GetHash <$> vtx, matched) /\ extends f g /\ length ms = length vtx /\
  (forall n, wanted f vtx n -> ms !! n = Some true) /\
  (forall n tx, vtx !! n = Some tx -> ms !! n = Some true -> (i + Z.of_nat n, GetHash tx) ∈ matched).
Proof.
  induction vtx as [|tx vtx IH]; intros i f Hf.
  { exists f, [], []. split_and!; [done|by apply extends_refl|done| |done]. intros n []; by rewrite lookup_nil in *. }
  cbn [match_loop]. destruct (relevant_ok f tx Hf) as (f1 & b & Hr & Hx1 & Hel & _ & Hfol). pose proof Hx1 as (Hwf1 & Hle1 & _).
  cbn [IsRelevantAndUpdate bloom_filter]. rewrite Hr. cbn [mbind option_bind].
  destruct (IH (i + 1) f1 Hwf1) as (g & ms & matched & HIH & Hx & Hl & Hw & Hm).
  exists g, (b :: ms), ((if b then [(i, GetHash tx)] else []) ++ matched). split_and!.
  - destruct b; cbn [mbind option_bind]; by rewrite HIH.
  - by eapply extends_trans.
  - cbn. by rewrite Hl.
  - intros [|n] Hn; cbn [lookup list_lookup].
    + f_equal. destruct Hn as [tx1 k [= <-] Hk Hin|tx1 m]; [by apply (Hel k)|lia].
    + apply Hw. destruct Hn as [tx1 k Htx Hk Hin|tx1 m tx' j o k inp Htx Hlt Htx' Ho Hk Hin Hfl Hi Hp].
      { apply (wanted_element _ _ _ tx1 k); [done..|by apply (extends_mono f)]. }
      destruct m as [|m].
      * injection Htx' as <-. apply (wanted_element _ _ _ tx1 (Serialize outpoint_codec (prevout inp))); [done|by constructor|].
        rewrite Hp. by apply (Hfol j o k).
      * apply (wanted_spend _ _ _ tx1 m tx' j o k inp); try done; [lia|by apply (extends_mono f)|].
        by rewrite (le_flags _ _ Hle1).
  - intros [|n] tx1; cbn [lookup list_lookup].
    + intros [= <-] [= ->]. rewrite Z.add_0_r. apply elem_of_app. left. by left.
    + intros Htx Hn. apply elem_of_app. right. replace (i + Z.of_nat (S n)) with (i + 1 + Z.of_nat n) by lia. by apply Hm.
Qed.
End filtered_facts.

(** C32: A light client misses nothing.  Every filter that is read from what a
    peer sent and passes [UpdateEmptyFull] is well-formed.  For a well-formed
    filter and a block of at most MAX_BLOCK_WEIGHT / MIN_TRANSACTION_WEIGHT
    transactions whose Merkle tree has no equal siblings, the node makes a
    filtered block without dividing by zero (it would be [None]), the client
    that extracts it obtains the Merkle root of the block, and among its
    matches, with its position, is every transaction that concerns the filter:
    whose hash, spent outpoint or script operand was inserted, and whatever
    spends an output that the filter matched and follows earlier in the same
    block.  The filter itself only grows. *)
Theorem filtered_block_complete `{Hs : HashFunctions} (block : CBlock) (f : CBloomFilter) :
  (forall s raw rest, bytes_ok s -> Unserialize bloom_codec s = Ok (raw, rest) -> filter_wf (UpdateEmptyFull raw)) /\
  (filter_wf f ->
   0 < Z.of_nat (length (vtx block)) <= MAX_BLOCK_WEIGHT / MIN_TRANSACTION_WEIGHT ->
   merkleblock_facts.distinct_siblings (GetHash <$> vtx block) ->
   exists mb g root mutated st,
     make_CMerkleBlock block (Some f) None = Some (mb, Some g) /\
     (forall k, In_filter f k -> In_filter g k) /\
     ComputeMerkleRoot (GetHash <$> vtx block) = Some (root, mutated) /\
     ExtractMatches (mb_txn mb) [] = Some (root, st) /\ x_fBad st = false /\
     forall n tx, vtx block !! n = Some tx -> wanted f (vtx block) n ->
       (Z.of_nat n, GetHash tx) ∈ vMatchedTxn mb /\ Z.of_nat n ∈ x_vnIndex st /\ GetHash tx ∈ x_vMatch st).
Proof.
  split; [by apply bloom_facts.received_filter_wf|].
  intros Hf Hn Hd. change (MAX_BLOCK_WEIGHT / MIN_TRANSACTION_WEIGHT) with 133333 in *.
  set (leaves := GetHash <$> vtx block) in *.
  assert (length leaves = length (vtx block)) as Hlen by apply length_fmap.
  assert (0 < Z.of_nat (length leaves) <= 2 ^ 31) as Hn31 by (pow_literals; lia).
  destruct (filtered_facts.match_loop_ok (vtx block) 0 f Hf) as (g & ms & matched & Hml & Hx & Hms & Hw & Hm).
  unfold ComputeMerkleRoot. destruct (merkle_facts.MerkleComputation_ok leaves false (u32 (-1))) as (H & mut & br & -> & HH & _ & _); [done|done|].
  cbn [mbind option_bind].
  destruct (merkleblock_facts.built_extracts leaves Hn31 ms ltac:(lia) H Hd HH) as (t & Ht & Htn & Htb & _ & _ & _ & Hex).
  { change (MAX_BLOCK_WEIGHT / MIN_TRANSACTION_WEIGHT) with 133333. lia. }
  destruct (Hex 0%nat [] ltac:(by rewrite Nat.add_0_r)) as (st & Hst & Hbad & H1 & H2).
  assert (make_CMerkleBlock block (Some f) None =
    Some ({| mb_header := header block; mb_txn := t; vMatchedTxn := matched |}, Some g)) as ->.
  { unfold make_CMerkleBlock. rewrite Hml. cbn [mbind option_bind]. unfold leaves in Ht. by rewrite Ht. }
  eexists _, g, (merkle_facts.node leaves H 0), mut, st. cbn [mb_txn vMatchedTxn]. split_and!; [done| |done| |done|].
  - intros k Hk. by apply (bloom_facts.extends_mono f).
  - rewrite app_nil_r in Hst. rewrite <- Hst, <- Htn. f_equal. destruct t. cbn in *. by subst.
  - intros n tx Htx Hwant. pose proof (Hw n Hwant) as Hmn. split; [by apply (Hm n)|].
    assert (Z.of_nat n ∈ List.filter (fun p => nth (Z.to_nat p) ms false) (seqZ 0 (Z.of_nat (length leaves)))) as Hin.
    { apply list_elem_of_In, filter_In. split; [apply list_elem_of_In, elem_of_seqZ|].
      - apply lookup_lt_Some in Htx. lia.
      - rewrite Nat2Z.id, nth_lookup, Hmn. done. }
    rewrite H1, H2. split; [exact Hin|]. apply list_elem_of_fmap. exists (Z.of_nat n). split; [|exact Hin].
    unfold merkleblock_facts.leaf. rewrite Nat2Z.id, nth_lookup. unfold leaves. by rewrite list_lookup_fmap, Htx.
Qed.

(** ** Facts about [CRollingBloomFilter] *)

(** Inserting a sequence of keys. *)
Fixpoint rolling_insert_all (r : CRollingBloomFilter) (keys : list bytes) : option CRollingBloomFilter :=
  match keys with
  | [] => Some r
  | k :: keys => r ← rolling_insert r k; rolling_insert_all r keys
  end.

Module rolling_facts.
Import bloom_facts.

(** The generation stored at a bit of the [p]-th pair of words; 0 is none. *)
Definition tag (d : list Z) (p : nat) (bit : Z) : Z :=
  Z.b2z (Z.testbit (nth (2 * p) d 0) bit) + 2 * Z.b2z (Z.testbit (nth (2 * p + 1) d 0) bit).

(** The place that a hash selects. *)
Definition place (r : CRollingBloomFilter) (h : Z) : nat :=
  Z.to_nat ((Z.shiftr h 6 mod Z.of_nat (length (data r))) / 2).

Record rolling_wf (r : CRollingBloomFilter) : Prop := {
  wf_even : Nat.even (length (data r)) = true;
  wf_data : data r <> [];
  wf_generation : 1 <= nGeneration r <= 3;
  wf_entries : 0 <= nEntriesThisGeneration r <= nEntriesPerGeneration r;
  wf_per_generation : 1 <= nEntriesPerGeneration r;
}.

Lemma generation_bits g : 1 <= g <= 3 ->
  Z.land g 1 = Z.b2z (Z.testbit g 0) /\ Z.shiftr g 1 = Z.b2z (Z.testbit g 1) /\
  Z.b2z (Z.testbit g 0) + 2 * Z.b2z (Z.testbit g 1) = g.
Proof. intros Hg. assert (g = 1 \/ g = 2 \/ g = 3) as [->|[->| ->]] by lia; done. Qed.

Lemma testbit_shiftl_bit (b : bool) bit i : 0 <= bit -> 0 <= i ->
  Z.testbit (Z.shiftl (Z.b2z b) bit) i = (i =? bit) && b.
Proof.
  intros Hb Hi. rewrite Z.shiftl_spec by done. destruct (Z.eqb_spec i bit) as [->|]; [rewrite Z.sub_diag; by destruct b|].
  destruct (Z.lt_ge_cases i bit); [apply Z.testbit_neg_r; lia|].
  apply (in_range_testbit 1); [done|by destruct b|lia].
Qed.

Lemma length_put_bit d i bit v : length (put_bit d i bit v) = length d.
Proof. apply length_insert. Qed.

Lemma put_bit_spec d i bit (b : bool) j k : 0 <= i < Z.of_nat (length d) -> 0 <= bit -> 0 <= k ->
  Z.testbit (nth j (put_bit d i bit (Z.b2z b)) 0) k =
  if (j =? Z.to_nat i)%nat && (k =? bit) then b else Z.testbit (nth j d 0) k.
Proof.
  intros Hi Hb Hk. unfold put_bit. rewrite nth_insert by lia. destruct (Nat.eqb_spec j (Z.to_nat i)) as [->|]; [|done].
  rewrite Z.lor_spec, Z.land_spec, Z.lnot_spec, testbit_shiftl_bit by done.
  change 1 with (Z.b2z true). rewrite testbit_shiftl_bit by done.
  destruct (k =? bit); cbn; [by rewrite andb_false_r|by rewrite andb_true_r, orb_false_r].
Qed.

Lemma pair_positions pos : 0 <= pos -> Z.land pos (Z.lnot 1) = 2 * (pos / 2) /\ Z.lor pos 1 = 2 * (pos / 2) + 1.
Proof.
  intros Hp. assert (Z.land pos 1 = pos mod 2) as H1 by (change 1 with (Z.ones 1); by rewrite Z.land_ones).
  assert (Z.land pos (Z.lnot 1) = 2 * (pos / 2)) as H2.
  { rewrite <- Z.ldiff_land. pose proof (Z.add_nocarry_lor (Z.land pos 1) (Z.ldiff pos 1)) as H.
    assert (Z.lor (Z.land pos 1) (Z.ldiff pos 1) = pos) as H3.
    { apply Z.bits_inj'. intros i Hi. rewrite Z.lor_spec, Z.land_spec, Z.ldiff_spec. by destruct (Z.testbit pos i), (Z.testbit 1 i). }
    rewrite H3 in H. rewrite H1 in H. pose proof (Z.div_mod pos 2). rewrite <- H1 in H.
    enough (Z.land pos 1 + Z.ldiff pos 1 = pos) by lia. apply H. apply Z.bits_inj'. intros i Hi.
    rewrite !Z.land_spec, Z.ldiff_spec, Z.bits_0. by destruct (Z.testbit pos i), (Z.testbit 1 i). }
  split; [done|]. rewrite <- H2. rewrite Z.add_nocarry_lor.
  - apply Z.bits_inj'. intros i Hi. rewrite !Z.lor_spec, Z.land_spec, Z.lnot_spec by done. by destruct (Z.testbit pos i), (Z.testbit 1 i).
  - apply Z.bits_inj'. intros i Hi. rewrite !Z.land_spec, Z.lnot_spec, Z.bits_0 by done. by destruct (Z.testbit pos i), (Z.testbit 1 i).
Qed.

(** *** Marking *)

Lemma rolling_bit_range h : 0 <= rolling_bit h < 64.
Proof. unfold rolling_bit. change 0x3F with (Z.ones 6). rewrite Z.land_ones by done. by apply Z.mod_pos_bound. Qed.

Lemma place_ok r h : rolling_wf r -> exists pos, rolling_pos r h = Some pos /\ 0 <= pos /\
  place r h = Z.to_nat (pos / 2) /\ (2 * place r h + 1 < length (data r))%nat /\
  Z.land pos (Z.lnot 1) = Z.of_nat (2 * place r h) /\ Z.lor pos 1 = Z.of_nat (2 * place r h + 1).
Proof.
  intros [He Hd _ _ _]. unfold rolling_pos, place. destruct (data r) as [|x d] eqn:Hdata; [done|].
  rewrite (proj2 (Z.eqb_neq _ _)) by (cbn [length]; lia). eexists. split; [done|].
  set (m := Z.of_nat (length (x :: d))). pose proof (Z.mod_pos_bound (Z.shiftr h 6) m ltac:(cbn in m; lia)) as Hr.
  destruct (pair_positions (Z.shiftr h 6 mod m)) as [-> ->]; [lia|].
  apply Nat.even_spec in He as [q Hq]. unfold m in *. rewrite Hq in *.
  assert (0 <= (Z.shiftr h 6 mod Z.of_nat (2 * q)) / 2 < Z.of_nat q) by dlia. split_and!; [lia|done|lia|lia|lia].
Qed.

Lemma mark_ok r h : rolling_wf r -> exists r', mark r h = Some r' /\ rolling_wf r' /\
  nGeneration r' = nGeneration r /\ nEntriesThisGeneration r' = nEntriesThisGeneration r /\
  nEntriesPerGeneration r' = nEntriesPerGeneration r /\ r_nTweak r' = r_nTweak r /\ r_nHashFuncs r' = r_nHashFuncs r /\
  length (data r') = length (data r) /\
  forall p bit, 0 <= bit -> tag (data r') p bit =
    if (p =? place r h)%nat && (bit =? rolling_bit h) then nGeneration r else tag (data r) p bit.
Proof.
  intros Hwf. unfold mark. destruct (place_ok r h Hwf) as (pos & -> & _ & _ & Hb & He & Ho). cbn [mbind option_bind].
  rewrite He, Ho.
  pose proof (rolling_bit_range h) as Hbit. destruct (generation_bits _ (wf_generation _ Hwf)) as (-> & -> & Hg).
  eexists. split; [done|]. split; [destruct Hwf; split; try done; cbn;
    [by rewrite !length_put_bit|by intros H%(f_equal length); rewrite !length_put_bit in H; destruct (data r)]|].
  split_and!; try done; cbn [data with_data]; [by rewrite !length_put_bit|]. intros p bit Hb0. unfold tag.
  rewrite !put_bit_spec by (rewrite ?length_put_bit; lia). rewrite !Nat2Z.id.
  destruct (Nat.eqb_spec p (place r h)) as [->|Hp].
  - rewrite !Nat.eqb_refl, (proj2 (Nat.eqb_neq _ _)), (proj2 (Nat.eqb_neq (2 * place r h + 1) _)) by lia. cbn [andb].
    destruct (bit =? rolling_bit h); done.
  - rewrite !(proj2 (Nat.eqb_neq _ _)) by lia. done.
Qed.

Definition hash_of (r : CRollingBloomFilter) (i : Z) (k : bytes) : Z := RollingBloomHash i (r_nTweak r) k.

(** All the marks of a key. *)
Definition marks (r : CRollingBloomFilter) (k : bytes) (n : Z) (P : Z -> Prop) : Prop :=
  forall i, 0 <= i < n -> P (tag (data r) (place r (hash_of r i k)) (rolling_bit (hash_of r i k))).

Lemma insert_loop_marks k n : forall i r, rolling_wf r -> exists r', rolling_insert_loop n i r k = Some r' /\ rolling_wf r' /\
  nGeneration r' = nGeneration r /\ nEntriesThisGeneration r' = nEntriesThisGeneration r /\
  nEntriesPerGeneration r' = nEntriesPerGeneration r /\ r_nTweak r' = r_nTweak r /\ r_nHashFuncs r' = r_nHashFuncs r /\
  length (data r') = length (data r) /\
  (forall p bit, 0 <= bit -> tag (data r') p bit = nGeneration r \/ tag (data r') p bit = tag (data r) p bit) /\
  (forall j, i <= j < i + Z.of_nat n -> tag (data r') (place r (hash_of r j k)) (rolling_bit (hash_of r j k)) = nGeneration r).
Proof.
  induction n as [|n IH]; intros i r Hwf; cbn [rolling_insert_loop].
  { exists r. split_and!; try done; [by right|lia]. }
  destruct (mark_ok r (RollingBloomHash i (r_nTweak r) k) Hwf) as (r1 & -> & Hwf1 & Hg & He & Hp & Ht & Hf & Hl & Htag).
  cbn [mbind option_bind].
  destruct (IH (i + 1) r1 Hwf1) as (r2 & -> & Hwf2 & Hg2 & He2 & Hp2 & Ht2 & Hf2 & Hl2 & Hkeep & Hall).
  exists r2. rewrite Hg in *. split_and!; try congruence; try done.
  - intros p bit Hb. destruct (Hkeep p bit Hb) as [->| ->]; [by left|]. rewrite Htag by done. case_match; auto.
  - intros j Hj. unfold hash_of, place in *. rewrite Hl, Ht in Hall. destruct (decide (j = i)) as [->|]; [|apply Hall; lia].
    pose proof (rolling_bit_range (RollingBloomHash i (r_nTweak r) k)).
    match goal with |- tag _ ?p ?b = _ => destruct (Hkeep p b) as [->| ->]; [lia|done|] end.
    rewrite Htag by lia. unfold place. by rewrite Nat.eqb_refl, Z.eqb_refl.
Qed.

(** *** Wiping a generation *)

Definition next (g : Z) : Z := if g + 1 =? 4 then 1 else g + 1.

Lemma mask_bit (b : bool) bit : 0 <= bit < 64 -> Z.testbit (u64 (0 - Z.b2z b)) bit = b.
Proof.
  intros Hb. rewrite wrap_testbit, (proj2 (Z.ltb_lt _ _)) by lia. cbn [andb].
  destruct b; [change (0 - Z.b2z true) with (-1); apply Z.bits_m1; lia|apply Z.bits_0].
Qed.

Lemma wipe_spec g : 1 <= g <= 3 -> forall n d p bit, length d = (2 * n)%nat -> 0 <= bit < 64 ->
  length (wipe (u64 (0 - Z.land g 1)) (u64 (0 - Z.shiftr g 1)) d) = length d /\
  tag (wipe (u64 (0 - Z.land g 1)) (u64 (0 - Z.shiftr g 1)) d) p bit = if tag d p bit =? g then 0 else tag d p bit.
Proof.
  intros Hg. destruct (generation_bits g Hg) as (-> & -> & Hgb).
  induction n as [|n IH]; intros d p bit Hd Hb.
  { destruct d; [|done]. split; [done|]. cbn [wipe]. unfold tag. rewrite !nth_overflow by (cbn; lia).
    rewrite Z.bits_0. by case_match. }
  destruct d as [|x [|y d]]; [cbn in Hd; lia|cbn in Hd; lia|]. cbn [length] in Hd. cbn [wipe]. cbn [length].
  destruct (IH d (pred p) bit ltac:(lia) Hb) as [-> Htag]. split; [done|]. destruct p as [|p].
  - unfold tag. cbn [nth Nat.mul Nat.add]. rewrite !Z.land_spec, Z.lor_spec, !Z.lxor_spec, !mask_bit by done.
    destruct (Z.testbit g 0), (Z.testbit g 1); cbn [Z.b2z] in Hgb; subst g; by destruct (Z.testbit x bit), (Z.testbit y bit).
  - cbn [pred] in Htag. unfold tag in *. replace (2 * S p)%nat with (S (S (2 * p))) by lia. exact Htag.
Qed.

(** What may be stored at the marks of a key that is to survive [a] more
    generations. *)
Definition fresh (g a t : Z) : Prop :=
  t <> 0 /\ (1 <= a -> t <> next g) /\ (2 <= a -> t <> next (next g)).

Lemma fresh_own g a : 1 <= g <= 3 -> fresh g a g.
Proof. intros Hg. assert (g = 1 \/ g = 2 \/ g = 3) as [->|[->| ->]] by lia; by split_and!. Qed.

(** The state in which the marks of an insertion are made. *)
Definition begun (r : CRollingBloomFilter) : CRollingBloomFilter :=
  with_entries (next_generation r) (nEntriesThisGeneration (next_generation r) + 1) (nGeneration (next_generation r)).

Lemma begun_ok r : rolling_wf r -> rolling_wf (begun r) /\ r_nTweak (begun r) = r_nTweak r /\
  r_nHashFuncs (begun r) = r_nHashFuncs r /\ length (data (begun r)) = length (data r) /\
  nEntriesPerGeneration (begun r) = nEntriesPerGeneration r /\ 1 <= nEntriesThisGeneration (begun r) /\
  ((nEntriesThisGeneration (begun r) = nEntriesThisGeneration r + 1 /\ nGeneration (begun r) = nGeneration r /\ data (begun r) = data r) \/
   (nEntriesThisGeneration r = nEntriesPerGeneration r /\ nEntriesThisGeneration (begun r) = 1 /\ nGeneration (begun r) = next (nGeneration r) /\
    forall p bit, 0 <= bit < 64 -> tag (data (begun r)) p bit =
      if tag (data r) p bit =? next (nGeneration r) then 0 else tag (data r) p bit)).
Proof.
  intros [He Hd Hg Hn Hp]. unfold begun, next_generation.
  destruct (Z.eqb_spec (nEntriesThisGeneration r) (nEntriesPerGeneration r)) as [Hf|Hf]; cbn.
  2:{ split_and!; try done; try lia; [split; cbn; done || lia|by left]. }
  assert (1 <= next (nGeneration r) <= 3) as Hng by (unfold next; bcases).
  fold (next (nGeneration r)). pose proof He as [q Hq]%Nat.even_spec.
  assert (length (wipe (u64 (0 - Z.land (next (nGeneration r)) 1)) (u64 (0 - Z.shiftr (next (nGeneration r)) 1)) (data r)) = length (data r)) as Hl
    by exact (proj1 (wipe_spec _ Hng q (data r) 0 0 Hq ltac:(lia))).
  split_and!; try done; try lia.
  - split; cbn; try lia; [by rewrite Hl|intros H; rewrite H in Hl; by destruct (data r)].
  - right. split_and!; [done|done|done|]. intros p bit Hb. exact (proj2 (wipe_spec _ Hng q (data r) p bit Hq Hb)).
Qed.

(** One insertion: its key is fresh for two generations, and every other key
    stays as fresh as it was, or one generation less. *)
Lemma rolling_insert_ok r k : rolling_wf r -> exists r', rolling_insert r k = Some r' /\ rolling_wf r' /\
  r_nTweak r' = r_nTweak r /\ r_nHashFuncs r' = r_nHashFuncs r /\ length (data r') = length (data r) /\
  nEntriesPerGeneration r' = nEntriesPerGeneration r /\
  marks r' k (r_nHashFuncs r) (fresh (nGeneration r') 2) /\
  forall k' n a, marks r k' n (fresh (nGeneration r) a) ->
    (nEntriesThisGeneration r' = nEntriesThisGeneration r + 1 /\ marks r' k' n (fresh (nGeneration r') a)) \/
    (nEntriesThisGeneration r = nEntriesPerGeneration r /\ nEntriesThisGeneration r' = 1 /\
     (1 <= a <= 2 -> marks r' k' n (fresh (nGeneration r') (a - 1)))).
Proof.
  intros Hwf. destruct (begun_ok r Hwf) as (Hwf0 & Ht0 & Hf0 & Hl0 & Hp0 & _ & Hcase).
  destruct (insert_loop_marks k (Z.to_nat (r_nHashFuncs r)) 0 (begun r) Hwf0)
    as (r' & Hr & Hwf' & Hg & He & Hp & Ht & Hf & Hl & Hkeep & Hall).
  exists r'. split_and!; try congruence.
  - unfold rolling_insert. fold (begun r). rewrite Hf0. exact Hr.
  - intros i Hi. unfold hash_of, place in *. rewrite Ht, Ht0, Hl, Hl0 in *. rewrite Hall by lia.
    rewrite Hg. apply fresh_own, Hwf0.
  - intros k' n a Hk. assert (forall b, (forall i, 0 <= i < n ->
        fresh (nGeneration r') b (tag (data (begun r)) (place r (hash_of r i k')) (rolling_bit (hash_of r i k')))) ->
        marks r' k' n (fresh (nGeneration r') b)) as Hlift.
    { intros b Hb i Hi. specialize (Hb i Hi). unfold hash_of, place in *. rewrite Ht, Ht0, Hl, Hl0.
      match goal with |- fresh _ _ (tag _ ?p ?c) => destruct (Hkeep p c) as [->| ->] end;
        [apply rolling_bit_range|rewrite Hg; apply fresh_own, Hwf0|done]. }
    destruct Hcase as [(He0 & Hg0 & Hd0)|(Hfull & He0 & Hg0 & Hd0)].
    + left. split; [congruence|]. apply Hlift. rewrite Hd0, Hg, Hg0. exact Hk.
    + right. split_and!; [done|congruence|]. intros Ha. apply Hlift. intros i Hi.
      rewrite Hd0 by apply rolling_bit_range. rewrite Hg, Hg0. destruct (Hk i Hi) as (H1 & H2 & H3).
      rewrite (proj2 (Z.eqb_neq _ _)) by (apply H2; lia). split_and!; [done|intros; apply H3; lia|lia].
Qed.

Lemma contains_marks r k : rolling_wf r -> marks r k (r_nHashFuncs r) (fresh (nGeneration r) 0) ->
  rolling_contains r k = Some true.
Proof.
  intros Hwf Hm. unfold rolling_contains.
  assert (forall n i, 0 <= i -> i + Z.of_nat n <= Z.max 0 (r_nHashFuncs r) -> rolling_contains_loop n i r k = Some true) as H.
  { induction n as [|n IH]; intros i Hi Hn; [done|]. cbn [rolling_contains_loop]. fold (hash_of r i k). unfold marked.
    destruct (place_ok r (hash_of r i k) Hwf) as (pos & -> & _ & _ & _ & He & Ho). cbn [mbind option_bind].
    rewrite He, Ho, !Nat2Z.id. pose proof (rolling_bit_range (hash_of r i k)) as Hb.
    replace (Z.land _ 1 =? 0) with false; [cbn [negb]; apply IH; lia|]. symmetry.
    match goal with |- (Z.land ?w _ =? 0) = _ => transitivity (negb (Z.testbit w 0)); [exact (land_shiftl_1 w 0 ltac:(lia))|] end.
    rewrite Z.shiftr_spec, Z.add_0_l, Z.lor_spec by lia.
    destruct (Hm i ltac:(lia)) as [Hne _]. unfold tag in Hne.
    destruct (Z.testbit _ _), (Z.testbit _ _) in Hne |- *; done. }
  apply H; lia.
Qed.

Lemma insert_all_ok keys : forall r k a, rolling_wf r -> 0 <= a <= 2 ->
  marks r k (r_nHashFuncs r) (fresh (nGeneration r) a) ->
  Z.of_nat (length keys) <= nEntriesPerGeneration r - nEntriesThisGeneration r + a * nEntriesPerGeneration r ->
  exists r', rolling_insert_all r keys = Some r' /\ rolling_contains r' k = Some true.
Proof.
  induction keys as [|k' keys IH]; intros r k a Hwf Ha Hm Hlen.
  - exists r. split; [done|]. apply contains_marks; [done|]. intros i Hi. destruct (Hm i Hi) as (H1 & _). by split_and!.
  - cbn [rolling_insert_all]. cbn [length] in Hlen.
    destruct (rolling_insert_ok r k' Hwf) as (r1 & -> & Hwf1 & _ & Hf & _ & Hp & _ & Hkeep). cbn [mbind option_bind].
    pose proof (wf_entries _ Hwf). destruct (Hkeep k _ a Hm) as [(He & Hm1)|(Hfull & He & Hm1)].
    + apply (IH r1 k a); [done|done|by rewrite Hf|lia].
    + assert (1 <= a) by (destruct (Z.eq_dec a 0) as [->|]; lia).
      apply (IH r1 k (a - 1)); [done|lia|rewrite Hf; apply Hm1; lia|rewrite Hp, He; lia].
Qed.

Lemma insert_all_wf keys : forall r, rolling_wf r -> exists r', rolling_insert_all r keys = Some r' /\ rolling_wf r' /\
  nEntriesPerGeneration r' = nEntriesPerGeneration r.
Proof.
  induction keys as [|k keys IH]; intros r Hwf; [by exists r|]. cbn [rolling_insert_all].
  destruct (rolling_insert_ok r k Hwf) as (r1 & -> & Hwf1 & _ & _ & _ & Hp & _). cbn [mbind option_bind].
  destruct (IH r1 Hwf1) as (r' & -> & Hwf' & Hp'). exists r'. split_and!; [done|done|congruence].
Qed.

Lemma insert_all_app l1 l2 r : rolling_insert_all r (l1 ++ l2) = r ← rolling_insert_all r l1; rolling_insert_all r l2.
Proof.
  revert r. induction l1 as [|k l1 IH]; intros r; [done|]. cbn [app rolling_insert_all].
  destruct (rolling_insert r k); cbn [mbind option_bind]; [apply IH|done].
Qed.

Lemma new_rolling_wf nElements funcs bits tweak : 1 <= nElements < 2 ^ 32 - 1 -> 1 <= bits <= 2 ^ 32 - 64 ->
  rolling_wf (new_rolling nElements funcs bits tweak).
Proof.
  intros Hn Hb. unfold new_rolling. rewrite !wrap_small by (unfold in_range; pow_literals; lia). assert (1 <= (bits + 63) / 64) by dlia.
  assert (Z.to_nat (Z.shiftl ((bits + 63) / 64) 1) = (2 * Z.to_nat ((bits + 63) / 64))%nat) as Hl.
  { rewrite Z.shiftl_mul_pow2 by done. change (2 ^ 1) with 2. lia. }
  split; cbn; rewrite ?length_replicate, ?Hl; try lia; try dlia.
  - apply Nat.even_spec. by exists (Z.to_nat ((bits + 63) / 64)).
  - destruct (Z.to_nat ((bits + 63) / 64)) eqn:E; [lia|done].
Qed.
End rolling_facts.

(** C33: A rolling filter remembers.  A filter made for [nElements] elements,
    with any number of hash functions and of bits and any tweak, is never
    divided by zero, and whatever was inserted before, a key is contained
    as long as no more than [nElements] keys were inserted after it:
    overwritten marks keep the key, and a generation is wiped only when two
    younger ones are full.  (The bounds keep the sizes from wrapping around.) *)
Theorem rolling_filter_remembers (nElements funcs nFilterBits tweak : Z) (before after : list bytes) (k : bytes) :
  1 <= nElements < 2 ^ 32 - 1 -> 1 <= nFilterBits <= 2 ^ 32 - 64 -> Z.of_nat (length after) <= nElements ->
  exists r, rolling_insert_all (new_rolling nElements funcs nFilterBits tweak) (before ++ k :: after) = Some r /\
    rolling_contains r k = Some true.
Proof.
  intros Hn Hb Hl. rewrite rolling_facts.insert_all_app.
  destruct (rolling_facts.insert_all_wf before _ (rolling_facts.new_rolling_wf nElements funcs nFilterBits tweak Hn Hb))
    as (r0 & -> & Hwf0 & Hp0). cbn [mbind option_bind rolling_insert_all].
  destruct (rolling_facts.rolling_insert_ok r0 k Hwf0) as (r1 & -> & Hwf1 & _ & Hf & _ & Hp & Hk & _). cbn [mbind option_bind].
  apply (rolling_facts.insert_all_ok after r1 k 2); [done|lia|by rewrite Hf|].
  pose proof (rolling_facts.wf_entries _ Hwf1). rewrite Hp, Hp0 in *.
  change (nEntriesPerGeneration (new_rolling _ _ _ _)) with (u32 (nElements + 1) / 2) in *.
  rewrite wrap_small in * by (unfold in_range; pow_literals; lia). dlia.
Qed.

Lemma rolling_filter_remembers_witness :
  exists r, rolling_insert_all (new_rolling 1 2 64 5) ([[1]; [2]] ++ [3] :: [[4]]) = Some r /\
    rolling_contains r [3] = Some true.
Proof. apply (rolling_filter_remembers 1 2 64 5 [[1]; [2]] [[4]] [3]); cbn; lia. Defined.

(** A block of three transactions: the second pays to a script with the key
    [7; 7], the third spends it. *)
Module bloom_example.
Export merkle_example.
Definition key : bytes := [7; 7].
Definition filter : CBloomFilter :=
  Eval vm_compute in default default_filter (insert (new_filter 64 2 5 BLOOM_UPDATE_ALL) key).
Definition tx_of (h : uint256) (ins : list CTxIn) (outs : list CTxOut) : CTransaction :=
  {| tx_data := {| vin := ins; vout := outs; tx_nVersion := 1; tx_nLockTime := 0 |}; hash := h |}.
Definition pays : CTxOut := {| nValue := 5; scriptPubKey := [2; 7; 7; OP_DROP] |}.
Definition spends : CTxIn :=
  {| prevout := {| op_hash := word 12; op_n := 0 |}; scriptSig := []; nSequence := 0; scriptWitness := [] |}.
Definition txs : list CTransaction := [tx_of (word 11) [] []; tx_of (word 12) [] [pays]; tx_of (word 13) [spends] []].
Definition block : CBlock := {| header := header_SetNull; vtx := txs; fChecked := false |}.

Lemma filter_ok : filter_wf filter.
Proof. split; [decided|]. do 2 right. discriminate. Qed.

Lemma spend_wanted : wanted filter (vtx block) 2.
Proof.
  apply (wanted_spend filter (vtx block) 2 (tx_of (word 13) [spends] []) 1 (tx_of (word 12) [] [pays]) 0 pays key spends);
    try reflexivity; [lia| |by left|by left].
  assert (operands (scriptPubKey pays) = [key]) as -> by reflexivity. by left.
Qed.
End bloom_example.

Lemma filtered_block_complete_witness :
  exists mb g root st,
    make_CMerkleBlock (Hs := merkle_example.hashes) bloom_example.block (Some bloom_example.filter) None = Some (mb, Some g) /\
    contains g bloom_example.key = Some true /\
    ExtractMatches (Hs := merkle_example.hashes) (mb_txn mb) [] = Some (root, st) /\
    merkle_example.word 13 ∈ x_vMatch st /\ 2 ∈ x_vnIndex st.
Proof.
  destruct (proj2 (filtered_block_complete (Hs := merkle_example.hashes) bloom_example.block bloom_example.filter))
    as (mb & g & root & mutated & st & H1 & H2 & _ & H3 & _ & H4);
    [apply bloom_example.filter_ok|vm_compute; split; [reflexivity|discriminate]|exact merkleblock_example.leaves_distinct|].
  destruct (H4 2%nat (bloom_example.tx_of (merkle_example.word 13) [bloom_example.spends] []) eq_refl
    bloom_example.spend_wanted) as (_ & H5 & H6).
  exists mb, g, root, st. split; [exact H1|]. split; [apply H2; vm_compute; reflexivity|].
  split; [exact H3|]. split; [exact H6|exact H5].
Defined.
