(* ===== verification/Bech32.v ===== *)
(** * Bech32 text ([bech32.cpp], [ConvertBits] of [utilstrencodings.h])

    The encoding of witness addresses: five-bit symbols behind a
    human-readable prefix, with a checksum of six symbols, and the conversion
    between bytes and symbols.  Strings are lists of bytes. *)

From S2P Require Import Prelude.

Module bech32.

Definition CHARSET : bytes := [113; 112; 122; 114; 121; 57; 120; 56; 103; 102; 50; 116; 118; 100; 119; 48;
  115; 51; 106; 110; 53; 52; 107; 104; 99; 101; 54; 109; 117; 97; 55; 108].

Definition CHARSET_REV : list Z := [
  -1; -1; -1; -1; -1; -1; -1; -1; -1; -1; -1; -1; -1; -1; -1; -1;
  -1; -1; -1; -1; -1; -1; -1; -1; -1; -1; -1; -1; -1; -1; -1; -1;
  -1; -1; -1; -1; -1; -1; -1; -1; -1; -1; -1; -1; -1; -1; -1; -1;
  15; -1; 10; 17; 21; 20; 26; 30;  7;  5; -1; -1; -1; -1; -1; -1;
  -1; 29; -1; 24; 13; 25;  9;  8; 23; -1; 18; 22; 31; 27; 19; -1;
   1;  0;  3; 16; 11; 28; 12; 14;  6;  4;  2; -1; -1; -1; -1; -1;
  -1; 29; -1; 24; 13; 25;  9;  8; 23; -1; 18; 22; 31; 27; 19; -1;
   1;  0;  3; 16; 11; 28; 12; 14;  6;  4;  2; -1; -1; -1; -1; -1].

Definition Cat (x y : bytes) : bytes := x ++ y.

(** One turn of the loop of [PolyMod]. *)
Definition generator (c0 : Z) (bit k : Z) : Z := if Z.land c0 bit =? 0 then 0 else k.
Definition polymod_step (c v_i : Z) : Z :=
  let c0 := u8 (Z.shiftr c 25) in
  let c := Z.lxor (u32 (Z.shiftl (Z.land c 0x1ffffff) 5)) v_i in
  let c := Z.lxor c (generator c0 1 0x3b6a57b2) in
  let c := Z.lxor c (generator c0 2 0x26508e6d) in
  let c := Z.lxor c (generator c0 4 0x1ea119fa) in
  let c := Z.lxor c (generator c0 8 0x3d4233dd) in
  Z.lxor c (generator c0 16 0x2a1462b3).
Definition PolyMod (v : bytes) : Z := foldl polymod_step 1 v.

Definition LowerCase (c : Z) : Z := if (c >=? 65) && (c <=? 90) then u8 (c - 65 + 97) else c.

Definition ExpandHRP (hrp : bytes) : bytes :=
  map (fun c => Z.shiftr c 5) hrp ++ [0] ++ map (fun c => Z.land c 0x1f) hrp.

Definition VerifyChecksum (hrp values : bytes) : bool := PolyMod (Cat (ExpandHRP hrp) values) =? 1.

Definition CreateChecksum (hrp values : bytes) : bytes :=
  let enc := Cat (ExpandHRP hrp) values ++ replicate 6 0 in
  let mod_ := Z.lxor (PolyMod enc) 1 in
  map (fun i => Z.land (Z.shiftr mod_ (5 * (5 - i))) 31) [0; 1; 2; 3; 4; 5].

(** A symbol selects a character; the values are below 32. *)
Definition Encode (hrp values : bytes) : bytes :=
  let combined := Cat values (CreateChecksum hrp values) in
  hrp ++ [49] ++ map (fun c => nth (Z.to_nat c) CHARSET 0) combined.

Definition lower (c : Z) : bool := (97 <=? c) && (c <=? 122).
Definition upper (c : Z) : bool := (65 <=? c) && (c <=? 90).

(** [str.rfind('1')]. *)
Fixpoint rfind1 (str : bytes) : option nat :=
  match str with
  | [] => None
  | c :: str =>
      match rfind1 str with
      | Some p => Some (S p)
      | None => if c =? 49 then Some 0%nat else None
      end
  end.

Definition char_value (c : Z) : Z :=
  if (c <? 33) || (c >? 126) then -1 else nth (Z.to_nat c) CHARSET_REV 0.

Fixpoint char_values (str : bytes) : option bytes :=
  match str with
  | [] => Some []
  | c :: str =>
      let rev := char_value c in
      if rev =? -1 then None else values ← char_values str; Some (u8 rev :: values)
  end.

(** The prefix and the values without the checksum; both empty when the text
    is refused. *)
Definition Decode (str : bytes) : bytes * bytes :=
  if existsb (fun c => (c <? 33) || (c >? 126)) str then ([], [])
  else if existsb lower str && existsb upper str then ([], [])
  else
    match rfind1 str with
    | None => ([], [])
    | Some pos =>
        if (Z.of_nat (length str) >? 90) || (pos =? 0)%nat || (length str <? pos + 7)%nat then ([], [])
        else
          match char_values (drop (S pos) str) with
          | None => ([], [])
          | Some values =>
              let hrp := map LowerCase (take pos str) in
              if negb (VerifyChecksum hrp values) then ([], [])
              else (hrp, take (length values - 6) values)
          end
    end.
End bech32.

(** ** [ConvertBits]

    The accumulator, the number of its bits that are not used up, and the
    output. *)
Section convert.
Variables (frombits tobits : Z).

Fixpoint emit (fuel : nat) (acc bits : Z) (out : list Z) : Z * list Z :=
  match fuel with
  | O => (bits, out)
  | S fuel =>
      if bits >=? tobits then
        let bits := bits - tobits in
        emit fuel acc bits (out ++ [Z.land (Z.shiftr acc bits) (Z.shiftl 1 tobits - 1)])
      else (bits, out)
  end.

(** No inner loop takes more than [frombits + tobits] turns. *)
Fixpoint convert_loop (input : list Z) (acc bits : Z) (out : list Z) : Z * Z * list Z :=
  match input with
  | [] => (acc, bits, out)
  | v :: input =>
      let max_acc := Z.shiftl 1 (frombits + tobits - 1) - 1 in
      let acc := Z.land (u64 (Z.lor (Z.shiftl acc frombits) v)) max_acc in
      let '(bits, out) := emit (Z.to_nat (frombits + tobits)) acc (bits + frombits) out in
      convert_loop input acc bits out
  end.

Definition ConvertBits (pad : bool) (input : list Z) : bool * list Z :=
  let maxv := Z.shiftl 1 tobits - 1 in
  let '(acc, bits, out) := convert_loop input 0 0 [] in
  let rest := Z.land (u64 (Z.shiftl acc (tobits - bits))) maxv in
  if pad then (true, if negb (bits =? 0) then out ++ [rest] else out)
  else if (bits >=? frombits) || negb (rest =? 0) then (false, out)
  else (true, out).
End convert.

(** ** Facts about the checksum *)

Module bech32_facts.
Import bech32.

Lemma xor_swap a b c d : Z.lxor (Z.lxor a b) (Z.lxor c d) = Z.lxor (Z.lxor a c) (Z.lxor b d).
Proof. apply Z.bits_inj'. intros i _. rewrite !Z.lxor_spec. by destruct (Z.testbit a i), (Z.testbit b i), (Z.testbit c i), (Z.testbit d i). Qed.

Lemma lxor_range w a b : 0 <= w -> in_range w a -> in_range w b -> in_range w (Z.lxor a b).
Proof.
  intros Hw Ha Hb. rewrite <- (wrap_small w a), <- (wrap_small w b) by done.
  replace (Z.lxor (wrap w a) (wrap w b)) with (wrap w (Z.lxor a b)); [by apply wrap_range|].
  apply Z.bits_inj'. intros n Hn. rewrite Z.lxor_spec, !wrap_testbit, Z.lxor_spec by lia. by destruct (n <? w).
Qed.

(** The remainder of a 30-bit value: what [polymod_step] adds for the top
    five bits. *)
Definition top_part (c0 : Z) : Z :=
  Z.lxor (Z.lxor (Z.lxor (Z.lxor (generator c0 1 0x3b6a57b2) (generator c0 2 0x26508e6d)) (generator c0 4 0x1ea119fa))
    (generator c0 8 0x3d4233dd)) (generator c0 16 0x2a1462b3).
Definition low_part (c : Z) : Z := Z.shiftl (Z.land c 0x1ffffff) 5.

Lemma step_parts c v : in_range 30 c ->
  polymod_step c v = Z.lxor (Z.lxor (low_part c) v) (top_part (Z.shiftr c 25)) /\
  in_range 5 (Z.shiftr c 25) /\ in_range 30 (low_part c).
Proof.
  intros Hc. assert (in_range 5 (Z.shiftr c 25)) as Htop.
  { unfold in_range in *. rewrite Z.shiftr_div_pow2 by done. pow_literals. dlia. }
  assert (in_range 30 (low_part c)) as Hlow.
  { unfold low_part, in_range in *. change 0x1ffffff with (Z.ones 25). rewrite Z.land_ones, Z.shiftl_mul_pow2 by done. pow_literals. dlia. }
  split; [|done]. unfold polymod_step. rewrite (wrap_small 8) by (unfold in_range in *; pow_literals; lia).
  fold (low_part c). rewrite (wrap_small 32) by (unfold in_range in *; pow_literals; lia).
  unfold top_part. by rewrite !Z.lxor_assoc.
Qed.

Lemma generator_xor a b bit k : generator (Z.lxor a b) bit k =
  if Z.land (Z.lxor a b) bit =? 0 then 0 else k.
Proof. done. Qed.

Lemma small_cases (P : Z -> bool) : forallb P (seqZ 0 32) = true -> forall x, in_range 5 x -> P x = true.
Proof.
  intros H x Hx. rewrite forallb_forall in H. apply H. apply list_elem_of_In, elem_of_seqZ.
  unfold in_range in Hx. change (2 ^ 5) with 32 in Hx. lia.
Qed.

Lemma top_part_xor a b : in_range 5 a -> in_range 5 b -> top_part (Z.lxor a b) = Z.lxor (top_part a) (top_part b).
Proof.
  intros Ha Hb. apply Z.eqb_eq. revert b Hb. apply (small_cases (fun b => _)). revert a Ha. apply (small_cases (fun a => _)).
  vm_compute. reflexivity.
Qed.

(** The constant terms of the multiples of the generator differ. *)
Lemma top_part_low a : in_range 5 a -> in_range 30 (top_part a) /\ (Z.land (top_part a) 31 = 0 -> a = 0).
Proof.
  intros Ha. assert ((0 <=? top_part a) && (top_part a <? 2 ^ 30) && ((a =? 0) || negb (Z.land (top_part a) 31 =? 0)) = true) as H.
  { revert a Ha. apply (small_cases (fun a => _)). vm_compute. reflexivity. }
  apply andb_true_iff in H as [[H1%Z.leb_le H2%Z.ltb_lt]%andb_true_iff H3]. split; [done|]. intros H0. rewrite H0 in H3.
  apply orb_true_iff in H3 as [H3%Z.eqb_eq|H3]; [done|done].
Qed.

Lemma low_part_xor a b : low_part (Z.lxor a b) = Z.lxor (low_part a) (low_part b).
Proof.
  unfold low_part. apply Z.bits_inj'. intros i Hi. rewrite Z.lxor_spec, !Z.shiftl_spec, !Z.land_spec, Z.lxor_spec by done.
  by destruct (Z.testbit a (i - 5)), (Z.testbit b (i - 5)), (Z.testbit 0x1ffffff (i - 5)).
Qed.

Lemma shiftr_xor a b k : Z.shiftr (Z.lxor a b) k = Z.lxor (Z.shiftr a k) (Z.shiftr b k).
Proof. apply Z.shiftr_lxor. Qed.

(** The step is linear over GF(2). *)
Lemma step_xor c d v w : in_range 30 c -> in_range 30 d ->
  polymod_step (Z.lxor c d) (Z.lxor v w) = Z.lxor (polymod_step c v) (polymod_step d w).
Proof.
  intros Hc Hd. destruct (step_parts c v Hc) as (-> & Htc & _). destruct (step_parts d w Hd) as (-> & Htd & _).
  destruct (step_parts (Z.lxor c d) (Z.lxor v w) (lxor_range 30 c d ltac:(done) Hc Hd)) as (-> & _ & _).
  rewrite low_part_xor, shiftr_xor, top_part_xor by done. rewrite (xor_swap (low_part c)). apply xor_swap.
Qed.

Lemma step_range c v : in_range 30 c -> in_range 5 v -> in_range 30 (polymod_step c v).
Proof.
  intros Hc Hv. destruct (step_parts c v Hc) as (-> & Ht & Hl). destruct (top_part_low _ Ht) as [Htop _].
  apply lxor_range; [done|apply lxor_range; [done|done|]|done]. unfold in_range in *. pow_literals. lia.
Qed.

(** A state that is not zero does not become zero by zeros. *)
Lemma step_zero c : in_range 30 c -> polymod_step c 0 = 0 -> c = 0.
Proof.
  intros Hc. destruct (step_parts c 0 Hc) as (-> & Ht & Hl). rewrite Z.lxor_0_r. intros H.
  apply Z.lxor_eq in H. assert (Z.land (low_part c) 31 = 0) as H0.
  { unfold low_part. apply Z.bits_inj'. intros i Hi. rewrite Z.land_spec, Z.bits_0, Z.shiftl_spec by done.
    destruct (Z.lt_ge_cases i 5); [by rewrite (Z.testbit_neg_r _ (i - 5)) by lia|].
    rewrite (in_range_testbit 5 31 i) by done. apply andb_false_r. }
  rewrite H in H0. apply (proj2 (top_part_low _ Ht)) in H0. rewrite H0 in H. change (top_part 0) with 0 in H.
  unfold low_part in H. rewrite Z.shiftl_mul_pow2 in H by done. change 0x1ffffff with (Z.ones 25) in H.
  rewrite Z.land_ones in H by done. rewrite Z.shiftr_div_pow2 in H0 by done. unfold in_range in Hc. pow_literals. dlia.
Qed.

Abbreviation symbols_ok := (Forall (in_range 5)).

Lemma fold_range vs : forall c, in_range 30 c -> symbols_ok vs -> in_range 30 (foldl polymod_step c vs).
Proof.
  induction vs as [|v vs IH]; intros c Hc Hv; [done|]. apply Forall_cons in Hv as [Hv Hvs]. cbn. apply IH; [by apply step_range|done].
Qed.

Definition xors (a b : list Z) : list Z := zip_with Z.lxor a b.

Lemma fold_xor a : forall b c d, length a = length b -> symbols_ok a -> symbols_ok b -> in_range 30 c -> in_range 30 d ->
  foldl polymod_step (Z.lxor c d) (xors a b) = Z.lxor (foldl polymod_step c a) (foldl polymod_step d b).
Proof.
  induction a as [|x a IH]; intros [|y b] c d Hl Ha Hb Hc Hd; try done.
  apply Forall_cons in Ha as [Hx Ha]. apply Forall_cons in Hb as [Hy Hb]. cbn. rewrite step_xor by done.
  apply IH; [by injection Hl|done..|by apply step_range|by apply step_range].
Qed.

Lemma fold_zeros_inj n : forall c, in_range 30 c -> foldl polymod_step c (replicate n 0) = 0 -> c = 0.
Proof.
  induction n as [|n IH]; intros c Hc; [done|]. cbn. intros H. apply step_zero; [done|].
  apply IH; [by apply step_range|done].
Qed.

(** Six symbols after nothing are packed into 30 bits. *)
Definition pack (vs : list Z) : Z := foldl (fun a v => a * 32 + v) 0 vs.

Lemma step_small c v : 0 <= c < 2 ^ 25 -> in_range 5 v -> polymod_step c v = c * 32 + v.
Proof.
  intros Hc Hv. destruct (step_parts c v) as (-> & _ & _); [unfold in_range; pow_literals; lia|].
  rewrite (Z.shiftr_div_pow2 c 25), Z.div_small by done. change (top_part 0) with 0. rewrite Z.lxor_0_r.
  unfold low_part. change 0x1ffffff with (Z.ones 25). rewrite Z.land_ones, Z.mod_small by done.
  assert (Z.land (Z.shiftl c 5) v = 0) as H0.
  { apply Z.bits_inj'. intros i Hi. rewrite Z.land_spec, Z.bits_0, Z.shiftl_spec by done.
    destruct (Z.lt_ge_cases i 5); [by rewrite (Z.testbit_neg_r _ (i - 5)) by lia|].
    rewrite (in_range_testbit 5 v i) by done. apply andb_false_r. }
  by rewrite <- Z.add_nocarry_lxor, Z.shiftl_mul_pow2.
Qed.

Lemma pack_bound vs : forall a n, 0 <= a < 32 ^ n -> 0 <= n -> symbols_ok vs ->
  0 <= foldl (fun a v => a * 32 + v) a vs < 32 ^ (n + Z.of_nat (length vs)).
Proof.
  induction vs as [|v vs IH]; intros a n Ha Hn Hvs; cbn; [by rewrite Z.add_0_r|].
  apply Forall_cons in Hvs as [Hv Hvs]. unfold in_range in Hv. change (2 ^ 5) with 32 in Hv.
  replace (n + Z.of_nat (S (length vs))) with (Z.succ n + Z.of_nat (length vs)) by lia.
  apply IH; [|lia|done]. rewrite Z.pow_succ_r by done. lia.
Qed.

Lemma fold_pack vs : forall a n, (Z.to_nat n + length vs <= 6)%nat -> 0 <= n -> 0 <= a < 32 ^ n -> symbols_ok vs ->
  foldl polymod_step a vs = foldl (fun a v => a * 32 + v) a vs.
Proof.
  induction vs as [|v vs IH]; intros a n Hn Hn0 Ha Hvs; [done|]. apply Forall_cons in Hvs as [Hv Hvs]. cbn in *.
  assert (32 ^ n <= 32 ^ 5) by (apply Z.pow_le_mono_r; lia).
  rewrite step_small by (first [done | change (2 ^ 25) with (32 ^ 5); lia]).
  apply (IH _ (Z.succ n)); [lia|lia| |done]. unfold in_range in Hv. change (2 ^ 5) with 32 in Hv.
  rewrite Z.pow_succ_r by done. lia.
Qed.

Lemma pack_zero vs : symbols_ok vs -> forall a, 0 <= a -> foldl (fun a v => a * 32 + v) a vs = 0 -> a = 0 /\ vs = replicate (length vs) 0.
Proof.
  induction 1 as [|v vs Hv Hvs IH]; intros a Ha; cbn; [done|]. unfold in_range in Hv. intros H.
  apply IH in H as [H ->]; [|lia]. split; [lia|]. rewrite length_replicate. f_equal. lia.
Qed.

(** *** The checksum *)

Lemma PolyMod_app a b : PolyMod (a ++ b) = foldl polymod_step (PolyMod a) b.
Proof. apply foldl_app. Qed.

Lemma PolyMod_range a : symbols_ok a -> in_range 30 (PolyMod a).
Proof. apply fold_range. by unfold in_range. Qed.

Lemma symbol_bits x : in_range 5 (Z.land x 31).
Proof. change 31 with (Z.ones 5). rewrite Z.land_ones by done. by apply Z.mod_pos_bound. Qed.

Lemma pack_digits m : in_range 30 m ->
  pack (map (fun i => Z.land (Z.shiftr m (5 * (5 - i))) 31) [0; 1; 2; 3; 4; 5]) = m.
Proof.
  intros Hm. unfold pack. cbn [map foldl].
  assert (forall k k', 0 <= k -> k' = k + 5 -> Z.shiftr m k = Z.shiftr m k' * 32 + Z.land (Z.shiftr m k) 31) as Hq.
  { intros k k' Hk ->. change 31 with (Z.ones 5). rewrite Z.land_ones, <- Z.shiftr_shiftr, (Z.shiftr_div_pow2 (Z.shiftr m k) 5) by done.
    change (2 ^ 5) with 32. pose proof (Z.div_mod (Z.shiftr m k) 32). lia. }
  pose proof (Hq 0 5 ltac:(done) eq_refl) as H0. pose proof (Hq 5 10 ltac:(done) eq_refl) as H1.
  pose proof (Hq 10 15 ltac:(done) eq_refl) as H2. pose proof (Hq 15 20 ltac:(done) eq_refl) as H3.
  pose proof (Hq 20 25 ltac:(done) eq_refl) as H4. pose proof (Hq 25 30 ltac:(done) eq_refl) as H5.
  assert (Z.shiftr m 30 = 0) as H6.
  { rewrite Z.shiftr_div_pow2 by done. apply Z.div_small. exact Hm. }
  rewrite (Z.shiftr_0_r m) in H0.
  change (5 * (5 - 0)) with 25. change (5 * (5 - 1)) with 20. change (5 * (5 - 2)) with 15. change (5 * (5 - 3)) with 10.
  change (5 * (5 - 4)) with 5. change (5 * (5 - 5)) with 0. rewrite Z.shiftr_0_r. lia.
Qed.

Lemma CreateChecksum_ok hrp values : length (CreateChecksum hrp values) = 6%nat /\ symbols_ok (CreateChecksum hrp values).
Proof. split; [done|]. unfold CreateChecksum. repeat constructor; apply symbol_bits. Qed.

Lemma xors_zeros n b : length b = n -> xors (replicate n 0) b = b.
Proof. revert b. induction n as [|n IH]; intros [|x b] Hl; try done. cbn. f_equal. apply IH. by injection Hl. Qed.

Lemma xors_ok a b : symbols_ok a -> symbols_ok b -> symbols_ok (xors a b).
Proof.
  intros Ha. revert b. induction Ha as [|x a Hx Ha IH]; intros [|y b] Hb; try by constructor.
  apply Forall_cons in Hb as [Hy Hb]. constructor; [by apply lxor_range|by apply IH].
Qed.

Lemma xors_zero a b : length a = length b -> xors a b = replicate (length a) 0 -> a = b.
Proof.
  revert b. induction a as [|x a IH]; intros [|y b] Hl H; try done. cbn in H. injection H as Hx H.
  apply Z.lxor_eq in Hx as ->. f_equal. apply IH; [by injection Hl|done].
Qed.

Lemma zeros_ok n : symbols_ok (replicate n 0).
Proof. by apply Forall_replicate. Qed.

(** The six symbols make the remainder 1. *)
Lemma CreateChecksum_verifies x values : symbols_ok x -> symbols_ok values ->
  forall hrp, ExpandHRP hrp = x -> VerifyChecksum hrp (values ++ CreateChecksum hrp values) = true.
Proof.
  intros Hx Hv hrp He. unfold VerifyChecksum, Cat. rewrite He. apply Z.eqb_eq.
  destruct (CreateChecksum_ok hrp values) as [Hl Hc]. rewrite app_assoc, PolyMod_app.
  set (P := PolyMod (x ++ values)). assert (in_range 30 P) as HP by (apply PolyMod_range; by apply Forall_app).
  rewrite <- (xors_zeros 6 (CreateChecksum hrp values)) by done. rewrite <- (Z.lxor_0_r P).
  rewrite fold_xor by (first [done | apply zeros_ok]).
  rewrite (fold_pack _ 0 0) by (first [done | rewrite Hl; cbn; lia]).
  fold (pack (CreateChecksum hrp values)). unfold CreateChecksum, Cat. rewrite He, PolyMod_app. fold P.
  assert (in_range 30 (foldl polymod_step P (replicate 6 0))) as Hr by (apply fold_range; [done|apply zeros_ok]).
  rewrite pack_digits by (apply lxor_range; done). by rewrite <- Z.lxor_assoc, Z.lxor_nilpotent, Z.lxor_0_l.
Qed.

Lemma xors_self l : xors l l = replicate (length l) 0.
Proof. induction l as [|x l IH]; [done|]. change (xors (x :: l) (x :: l)) with (Z.lxor x x :: xors l l). by rewrite Z.lxor_nilpotent, IH. Qed.

(** Replacing a part of the symbols multiplies out to the difference. *)
Lemma PolyMod_difference pre a b post : symbols_ok pre -> symbols_ok a -> symbols_ok b -> symbols_ok post ->
  length a = length b -> PolyMod (pre ++ a ++ post) = PolyMod (pre ++ b ++ post) -> foldl polymod_step 0 (xors a b) = 0.
Proof.
  intros Hpre Ha Hb Hpost Hl He. rewrite !PolyMod_app in He. rewrite !foldl_app in He.
  pose proof (PolyMod_range pre Hpre) as HP. set (P := PolyMod pre) in *.
  apply (fold_zeros_inj (length post)); [apply fold_range; [done|by apply xors_ok]|].
  rewrite <- (xors_self post). rewrite <- (Z.lxor_nilpotent P) at 1.
  rewrite (fold_xor a b P P) by done. rewrite fold_xor by (first [done | by apply fold_range]).
  rewrite He. apply Z.lxor_nilpotent.
Qed.

Lemma burst_detected pre a b post : symbols_ok pre -> symbols_ok a -> symbols_ok b -> symbols_ok post ->
  length a = length b -> (length a <= 6)%nat -> PolyMod (pre ++ a ++ post) = PolyMod (pre ++ b ++ post) -> a = b.
Proof.
  intros Hpre Ha Hb Hpost Hl H6 He. apply PolyMod_difference in He; [|done..].
  assert (length (xors a b) = length a) as Hx by (unfold xors; rewrite length_zip_with; lia).
  rewrite (fold_pack _ 0 0) in He by (first [done | rewrite Hx; cbn; lia | by apply xors_ok]).
  apply pack_zero in He as [_ He]; [|by apply xors_ok|done]. rewrite Hx in He. by apply xors_zero.
Qed.

(** Two wrong symbols up to 89 places apart. *)
Fixpoint orbit_ok (n : nat) (c : Z) : bool :=
  match n with
  | O => true
  | S n => let c := polymod_step c 0 in (32 <=? c) && orbit_ok n c
  end.

Lemma orbits : forallb (fun e => (e =? 0) || orbit_ok 89 e) (seqZ 0 32) = true.
Proof. vm_compute. reflexivity. Qed.

Lemma orbit_spec n : forall c d, orbit_ok n c = true -> (0 < d <= n)%nat -> 32 <= foldl polymod_step c (replicate d 0).
Proof.
  induction n as [|n IH]; intros c d Ho Hd; [lia|]. cbn [orbit_ok] in Ho. apply andb_true_iff in Ho as [H1%Z.leb_le Ho].
  destruct d as [|[|d]]; [lia|done|]. change (32 <= foldl polymod_step (polymod_step c 0) (replicate (S d) 0)).
  apply IH; [done|lia].
Qed.

Lemma xors_app a a' b b' : length a = length a' -> xors (a ++ b) (a' ++ b') = xors a a' ++ xors b b'.
Proof. apply zip_with_app. Qed.

Lemma pair_detected pre x x' m y y' post : symbols_ok pre -> symbols_ok m -> symbols_ok post ->
  in_range 5 x -> in_range 5 x' -> in_range 5 y -> in_range 5 y' -> (length m <= 88)%nat ->
  PolyMod (pre ++ (x :: m ++ [y]) ++ post) = PolyMod (pre ++ (x' :: m ++ [y']) ++ post) -> x = x' /\ y = y'.
Proof.
  intros Hpre Hm Hpost Hx Hx' Hy Hy' Hl He.
  assert (forall z t, in_range 5 z -> in_range 5 t -> symbols_ok (z :: m ++ [t])) as Hok.
  { intros z t Hz Ht. constructor; [done|]. apply Forall_app. split; [done|by constructor]. }
  apply PolyMod_difference in He; [|by auto..|cbn; by rewrite !length_app].
  cbn [xors zip_with] in He. fold (xors (m ++ [y]) (m ++ [y'])) in He. rewrite xors_app, xors_self in He by done.
  pose proof (lxor_range 5 x x' ltac:(done) Hx Hx') as He1. pose proof (lxor_range 5 y y' ltac:(done) Hy Hy') as He2.
  set (e1 := Z.lxor x x') in *. set (e2 := Z.lxor y y') in *. cbn [foldl] in He. rewrite step_small in He by done.
  rewrite Z.mul_0_l, Z.add_0_l, foldl_app in He. cbn [foldl xors zip_with] in He. fold e2 in He.
  set (s := foldl polymod_step e1 (replicate (length m) 0)) in *.
  assert (in_range 30 e1) as He30 by (unfold in_range in *; pow_literals; lia).
  assert (in_range 30 s) as Hs by (apply fold_range; [done|apply zeros_ok]).
  assert (polymod_step s e2 = Z.lxor (polymod_step s 0) e2) as Hst.
  { transitivity (polymod_step (Z.lxor s 0) (Z.lxor 0 e2)); [by rewrite Z.lxor_0_r, Z.lxor_0_l|].
    rewrite step_xor by done. f_equal. rewrite step_small by done. lia. }
  rewrite Hst in He.
  apply Z.lxor_eq in He.
  assert (polymod_step s 0 = foldl polymod_step e1 (replicate (S (length m)) 0)) as Hfold.
  { rewrite replicate_S_end, foldl_app. done. }
  destruct (Z.eq_dec e1 0) as [H0|Hne].
  - split; [by apply Z.lxor_eq|]. apply Z.lxor_eq. fold e2. rewrite <- He, Hfold, H0. clear. induction (S (length m)) as [|n IH]; done.
  - exfalso. pose proof orbits as Ho. apply (small_cases _ Ho) in He1. rewrite (proj2 (Z.eqb_neq _ _)) in He1 by done.
    pose proof (orbit_spec 89 e1 (S (length m)) He1 ltac:(lia)) as H32. rewrite <- Hfold, He in H32.
    unfold in_range in He2. change (2 ^ 5) with 32 in He2. lia.
Qed.

(** *** Characters *)

Definition hrp_ok (hrp : bytes) : Prop := hrp <> [] /\ Forall (fun c => 33 <= c <= 126 /\ upper c = false) hrp.
Definition char_of (v : Z) : Z := nth (Z.to_nat v) CHARSET 0.

Lemma char_of_spec v : in_range 5 v ->
  33 <= char_of v <= 126 /\ upper (char_of v) = false /\ char_of v <> 49 /\ char_value (char_of v) = v.
Proof.
  intros Hv. assert ((33 <=? char_of v) && (char_of v <=? 126) && negb (upper (char_of v)) && negb (char_of v =? 49) &&
    (char_value (char_of v) =? v) = true) as H.
  { revert v Hv. apply (small_cases (fun v => _)). vm_compute. reflexivity. }
  apply andb_true_iff in H as [[[[H1 H2]%andb_true_iff H3]%andb_true_iff H4]%andb_true_iff H5].
  apply Z.leb_le in H1, H2. apply negb_true_iff in H3, H4. apply Z.eqb_neq in H4. apply Z.eqb_eq in H5. done.
Qed.

Lemma char_value_spec c : 33 <= c <= 126 -> char_value c <> -1 ->
  in_range 5 (u8 (char_value c)) /\ char_of (u8 (char_value c)) = LowerCase c /\ c <> 49.
Proof.
  intros Hc. assert (forallb (fun c => (char_value c =? -1) ||
    (bool_decide (in_range 5 (u8 (char_value c))) && (char_of (u8 (char_value c)) =? LowerCase c) && negb (c =? 49))) (seqZ 33 94) = true) as H
    by (vm_compute; reflexivity).
  rewrite forallb_forall in H. intros Hne. specialize (H c).
  rewrite (proj2 (Z.eqb_neq _ _) Hne) in H. cbn [orb] in H.
  apply andb_true_iff in H as [[H1%bool_decide_eq_true H2%Z.eqb_eq]%andb_true_iff H3%negb_true_iff%Z.eqb_neq]; [done|].
  apply list_elem_of_In, elem_of_seqZ. lia.
Qed.

Lemma LowerCase_spec c : 33 <= c <= 126 ->
  33 <= LowerCase c <= 126 /\ upper (LowerCase c) = false /\ (upper c = false -> LowerCase c = c).
Proof.
  intros Hc. unfold LowerCase, upper. rewrite Z.geb_leb.
  destruct (Z.leb_spec 65 c), (Z.leb_spec c 90); cbn [andb]; rewrite ?wrap_small by (unfold in_range; lia);
    split_and!; try lia; bcases.
Qed.

Lemma rfind1_last a b : Forall (fun c => c <> 49) b -> rfind1 (a ++ 49 :: b) = Some (length a).
Proof.
  intros Hb. assert (rfind1 b = None) as Hn.
  { induction Hb as [|c b Hc Hb IH]; [done|]. cbn. rewrite IH. by rewrite (proj2 (Z.eqb_neq _ _)). }
  induction a as [|c a IH]; cbn; [by rewrite Hn|by rewrite IH].
Qed.

Lemma rfind1_split s p : rfind1 s = Some p -> exists a b, s = a ++ 49 :: b /\ length a = p.
Proof.
  revert p. induction s as [|c s IH]; intros p; cbn; [done|]. destruct (rfind1 s) as [q|].
  - intros [= <-]. destruct (IH q eq_refl) as (a & b & -> & <-). by exists (c :: a), b.
  - destruct (Z.eqb_spec c 49) as [->|]; [|done]. intros [= <-]. by exists [], s.
Qed.

Lemma char_values_of vs : symbols_ok vs -> char_values (map char_of vs) = Some vs.
Proof.
  induction 1 as [|v vs Hv Hvs IH]; [done|]. cbn [map char_values]. destruct (char_of_spec v Hv) as (_ & _ & _ & ->).
  unfold in_range in Hv. rewrite (proj2 (Z.eqb_neq _ _)) by lia. rewrite IH. cbn [mbind option_bind].
  rewrite wrap_small; [done|]. unfold in_range. pow_literals. lia.
Qed.

Lemma char_values_spec s vs : Forall (fun c => 33 <= c <= 126) s -> char_values s = Some vs ->
  symbols_ok vs /\ length vs = length s /\ map char_of vs = map LowerCase s.
Proof.
  intros Hs. revert vs. induction Hs as [|c s Hc Hs IH]; intros vs; cbn [char_values]; [by intros [= <-]|].
  destruct (Z.eqb_spec (char_value c) (-1)) as [|Hne]; [done|]. destruct (char_values s) as [vs'|]; [|done].
  cbn [mbind option_bind]. intros [= <-]. destruct (IH vs' eq_refl) as (H1 & H2 & H3).
  destruct (char_value_spec c Hc Hne) as (H4 & H5 & _). split_and!; [by constructor|cbn; by rewrite H2|cbn [map]; by rewrite H3, H5].
Qed.

Lemma ExpandHRP_ok hrp : Forall (fun c => 33 <= c <= 126) hrp -> symbols_ok (ExpandHRP hrp).
Proof.
  intros Hh. unfold ExpandHRP. apply Forall_app. split; [|constructor; [done|]].
  - induction Hh as [|c hrp Hc Hh IH]; [constructor|]. cbn. constructor; [|done].
    unfold in_range. rewrite Z.shiftr_div_pow2 by done. pow_literals. dlia.
  - induction Hh as [|c hrp Hc Hh IH]; [constructor|]. cbn. constructor; [apply symbol_bits|done].
Qed.

Lemma existsb_none {A} (P : A -> bool) l : Forall (fun x => P x = false) l -> existsb P l = false.
Proof. induction 1 as [|x l Hx Hl IH]; [done|]. cbn. by rewrite Hx, IH. Qed.

Lemma existsb_false {A} (P : A -> bool) l : existsb P l = false -> Forall (fun x => P x = false) l.
Proof.
  induction l as [|x l IH]; cbn; [constructor|]. intros [Hx Hl]%orb_false_iff. constructor; [done|by apply IH].
Qed.

(** What was encoded is decoded. *)
Lemma Decode_Encode hrp values : hrp_ok hrp -> symbols_ok values -> (length hrp + 7 + length values <= 90)%nat ->
  Decode (Encode hrp values) = (hrp, values).
Proof.
  intros [Hne Hh] Hv Hlen. destruct (CreateChecksum_ok hrp values) as [Hcl Hc].
  assert (Forall (fun c => 33 <= c <= 126) hrp) as Hh1 by (eapply Forall_impl; [exact Hh|naive_solver]).
  unfold Encode, Cat. fold char_of. set (vs := values ++ CreateChecksum hrp values).
  assert (symbols_ok vs) as Hvs by (by apply Forall_app). assert (length vs = (length values + 6)%nat) as Hvl by (unfold vs; rewrite length_app; lia).
  change (map (fun c => nth (Z.to_nat c) CHARSET 0) vs) with (map char_of vs).
  assert (Forall (fun c => 33 <= c <= 126 /\ upper c = false /\ c <> 49) (map char_of vs)) as Hcs.
  { apply Forall_fmap. eapply Forall_impl; [exact Hvs|]. intros v Hv0. destruct (char_of_spec v Hv0) as (? & ? & ? & _). done. }
  set (str := hrp ++ [49] ++ map char_of vs).
  assert (Forall (fun c => 33 <= c <= 126 /\ upper c = false) str) as Hstr.
  { apply Forall_app. split; [done|]. constructor; [done|]. eapply Forall_impl; [exact Hcs|naive_solver]. }
  assert (length str = (length hrp + 7 + length values)%nat) as Hsl.
  { unfold str. rewrite length_app. cbn [app length]. rewrite length_map. lia. }
  unfold Decode. rewrite existsb_none.
  2:{ eapply Forall_impl; [exact Hstr|]. cbn. intros c [Hcr _]. rewrite Z.gtb_ltb. bcases. }
  rewrite (existsb_none upper) by (eapply Forall_impl; [exact Hstr|naive_solver]). rewrite andb_false_r.
  change (rfind1 str) with (rfind1 (hrp ++ 49 :: map char_of vs)). rewrite rfind1_last by (eapply Forall_impl; [exact Hcs|naive_solver]).
  rewrite Hsl. rewrite Z.gtb_ltb, (proj2 (Z.ltb_ge _ _)) by lia.
  rewrite (proj2 (Nat.eqb_neq _ _)) by (destruct hrp; done). rewrite (proj2 (Nat.ltb_ge _ _)) by lia. cbn [orb].
  unfold str. rewrite (app_assoc hrp [49]), drop_app_length', char_values_of by (done || (rewrite length_app; cbn; lia)).
  rewrite <- app_assoc, take_app_length.
  assert (map LowerCase hrp = hrp) as ->.
  { clear -Hh. induction Hh as [|c hrp [Hr Hu] Hh IH]; [done|]. cbn. rewrite IH. f_equal. by apply (LowerCase_spec c Hr). }
  unfold vs at 1. rewrite (CreateChecksum_verifies (ExpandHRP hrp)) by (first [done | by apply ExpandHRP_ok]). cbn [negb].
  rewrite Hvl, Nat.add_sub. unfold vs. by rewrite take_app_length.
Qed.

(** What is decoded is, up to the case of its letters, an encoding. *)
Lemma Encode_Decode s hrp values : Decode s = (hrp, values) -> hrp <> [] ->
  hrp_ok hrp /\ symbols_ok values /\ (length hrp + 7 + length values <= 90)%nat /\ map LowerCase s = Encode hrp values.
Proof.
  unfold Decode. destruct (existsb _ s) eqn:Hr; [by intros [= <- <-]|]. apply existsb_false in Hr.
  assert (Forall (fun c => 33 <= c <= 126) s) as Hs.
  { eapply Forall_impl; [exact Hr|]. cbn. intros c [H1%Z.ltb_ge H2]%orb_false_iff. rewrite Z.gtb_ltb in H2. apply Z.ltb_ge in H2. lia. }
  destruct (existsb lower s && existsb upper s); [by intros [= <- <-]|].
  destruct (rfind1 s) as [pos|] eqn:Hp; [|by intros [= <- <-]]. apply rfind1_split in Hp as (a & b & -> & <-).
  destruct (_ || _) eqn:Hl; [by intros [= <- <-]|].
  apply orb_false_iff in Hl as [[Hl1 Hl2%Nat.eqb_neq]%orb_false_iff Hl3%Nat.ltb_ge]. rewrite Z.gtb_ltb in Hl1. apply Z.ltb_ge in Hl1.
  rewrite length_app in Hl1, Hl3. cbn [length] in Hl1, Hl3.
  change (a ++ 49 :: b) with (a ++ [49] ++ b) at 1. rewrite app_assoc, drop_app_length' by (rewrite length_app; cbn; lia).
  apply Forall_app in Hs as [Ha [_ Hb]%Forall_cons].
  destruct (char_values b) as [vs|] eqn:Hcv; [|by intros [= <- <-]]. apply char_values_spec in Hcv as (Hvs & Hvl & Hmap); [|done].
  rewrite take_app_length. destruct (VerifyChecksum (map LowerCase a) vs) eqn:Hver; cbn [negb]; [|by intros [= <- <-]].
  intros [= <- <-] _.
  assert (Forall (fun c => 33 <= c <= 126 /\ upper c = false) (map LowerCase a)) as Hla.
  { apply Forall_fmap. eapply Forall_impl; [exact Ha|]. intros c Hc. cbn. destruct (LowerCase_spec c Hc) as (? & ? & _). done. }
  set (hrp := map LowerCase a) in *. set (n := (length vs - 6)%nat). pose proof (take_drop n vs) as Hsplit.
  assert (symbols_ok (take n vs) /\ symbols_ok (drop n vs)) as [Ht Hd] by (by rewrite <- Forall_app, Hsplit).
  assert (length (take n vs) = n) as Htl by (rewrite length_take; lia).
  assert (drop n vs = CreateChecksum hrp (take n vs)) as Hck.
  { assert (symbols_ok (ExpandHRP hrp)) as Hx by (apply ExpandHRP_ok; eapply Forall_impl; [exact Hla|naive_solver]).
    destruct (CreateChecksum_ok hrp (take n vs)) as [Hcl Hc].
    apply (burst_detected (ExpandHRP hrp ++ take n vs) _ _ []); [by apply Forall_app|done|done|constructor| | |].
    - rewrite length_drop. rewrite Hcl. lia.
    - rewrite length_drop. lia.
    - rewrite !app_nil_r, <- !app_assoc, Hsplit. unfold VerifyChecksum, Cat in Hver. apply Z.eqb_eq in Hver. rewrite Hver.
      pose proof (CreateChecksum_verifies _ _ Hx Ht hrp eq_refl) as H2. unfold VerifyChecksum, Cat in H2. by apply Z.eqb_eq in H2. }
  split; [split; [by destruct a|done]|]. split_and!; [done| |].
  - rewrite Htl. unfold hrp, n. rewrite length_map. lia.
  - unfold Encode, Cat. rewrite map_app. cbn [map]. change (LowerCase 49) with 49. fold hrp. rewrite <- Hck, Hsplit, <- Hmap. done.
Qed.
End bech32_facts.

(** ** Facts about [ConvertBits] *)

Module convert_facts.

(** The number that a list of [w]-bit values stands for, the first one
    highest. *)
Definition be_val (w : Z) (l : list Z) : Z := le_val w (rev l).

Lemma be_val_snoc w l x : be_val w (l ++ [x]) = be_val w l * 2 ^ w + x.
Proof. unfold be_val. rewrite rev_app_distr. cbn. lia. Qed.

Lemma be_val_inj w a b : 0 <= w -> limbs_ok w a -> limbs_ok w b -> length a = length b -> be_val w a = be_val w b -> a = b.
Proof.
  intros Hw Ha Hb Hl He. rewrite <- (rev_involutive a), <- (rev_involutive b). f_equal.
  apply (le_val_inj w); [done|by apply Forall_rev|by apply Forall_rev|by rewrite !length_rev|done].
Qed.

Lemma be_val_cons w x l : 0 <= w -> be_val w (x :: l) = x * 2 ^ (w * Z.of_nat (length l)) + be_val w l.
Proof. intros Hw. unfold be_val. cbn [rev]. rewrite le_val_app, length_rev by done. cbn [le_val]. ring. Qed.

Lemma be_val_bound w l : 0 <= w -> limbs_ok w l -> 0 <= be_val w l < 2 ^ (w * Z.of_nat (length l)).
Proof. intros Hw Hl. unfold be_val. rewrite <- length_rev. apply le_val_bound; [done|by apply Forall_rev]. Qed.

Lemma mod_pow2_trans x a b : 0 <= a <= b -> (x mod 2 ^ b) mod 2 ^ a = x mod 2 ^ a.
Proof.
  intros H. apply Z.mod_mod_divide. exists (2 ^ (b - a)). rewrite <- Z.pow_add_r by lia. f_equal. lia.
Qed.

Lemma append_bits_mod x v f b : 0 <= f -> 0 <= b -> 0 <= v < 2 ^ f ->
  (x * 2 ^ f + v) mod 2 ^ (b + f) = (x mod 2 ^ b) * 2 ^ f + v.
Proof.
  intros Hf Hb Hv. rewrite Z.pow_add_r, (Z.mul_comm (2 ^ b)) by done. rewrite Z.rem_mul_r by lia.
  replace (x * 2 ^ f + v) with (v + 2 ^ f * x) by ring. rewrite digit_mod, digit_div by done. ring.
Qed.

Section convert.
Context (frombits tobits : Z) (Hf : 1 <= frombits <= 8) (Ht : 1 <= tobits <= 8).
(** What the output and the unused bits of the accumulator stand for. *)
Definition stands_for (acc bits : Z) (out : list Z) (m : Z) (total : Z) : Prop :=
  limbs_ok tobits out /\ 0 <= bits /\ total = tobits * Z.of_nat (length out) + bits /\
  m = be_val tobits out * 2 ^ bits + acc mod 2 ^ bits.

Lemma mask_bits x w : 0 <= w -> Z.land x (Z.shiftl 1 w - 1) = x mod 2 ^ w.
Proof.
  intros Hw. rewrite Z.shiftl_mul_pow2, Z.mul_1_l by done. rewrite <- (Z.land_ones x w) by done. f_equal.
  rewrite Z.ones_equiv. lia.
Qed.

Lemma emit_ok fuel : forall acc bits out m total, stands_for acc bits out m total -> bits < tobits * Z.of_nat (S fuel) ->
  forall bits' out', emit tobits fuel acc bits out = (bits', out') ->
  stands_for acc bits' out' m total /\ bits' < tobits.
Proof using Ht.
  induction fuel as [|fuel IH]; intros acc bits out m total (Ho & Hb & Htot & Hm) Hlt bits' out'; cbn.
  - intros [= <- <-]. split; [by split_and!|lia].
  - destruct (Z.geb_spec bits tobits) as [Hge|Hge].
    2:{ intros [= <- <-]. split; [by split_and!|lia]. }
    apply (IH _ _ _ m total); [|lia]. rewrite mask_bits by lia.
    assert (0 < 2 ^ tobits) by lia. assert (0 < 2 ^ (bits - tobits)) by (apply Z.pow_pos_nonneg; lia).
    split_and!.
    + apply Forall_app. split; [done|]. constructor; [apply Z.mod_pos_bound; lia|done].
    + lia.
    + rewrite length_app. cbn. lia.
    + rewrite be_val_snoc, Hm, Z.shiftr_div_pow2 by lia.
      replace (2 ^ bits) with (2 ^ (bits - tobits) * 2 ^ tobits) by (rewrite <- Z.pow_add_r by lia; f_equal; lia).
      rewrite Z.rem_mul_r by lia. ring.
Qed.

Lemma convert_loop_ok input : limbs_ok frombits input -> forall acc bits out m total, stands_for acc bits out m total ->
  bits < tobits -> 0 <= acc < 2 ^ (frombits + tobits - 1) ->
  forall acc' bits' out', convert_loop frombits tobits input acc bits out = (acc', bits', out') ->
  stands_for acc' bits' out' (m * 2 ^ (frombits * Z.of_nat (length input)) + be_val frombits input)
    (total + frombits * Z.of_nat (length input)) /\ bits' < tobits /\ 0 <= acc' < 2 ^ (frombits + tobits - 1).
Proof using Hf Ht.
  intros Hin. assert (forall l, be_val frombits ([] ++ l) = be_val frombits l) as Hnil by done.
  induction Hin as [|v input Hv Hin IH]; intros acc bits out m total Hs Hlt Hacc acc' bits' out'.
  - cbn. intros [= <- <- <-]. rewrite Z.mul_0_r, Z.pow_0_r, Z.mul_1_r, !Z.add_0_r. done.
  - cbn [convert_loop].
    set (acc1 := Z.land _ _). destruct (emit _ _ _ _ _) as [bits1 out1] eqn:He.
    assert (acc1 = (acc * 2 ^ frombits + v) mod 2 ^ (frombits + tobits - 1)) as Hacc1.
    { unfold acc1. rewrite mask_bits by lia. f_equal. rewrite Z.lor_comm, lor_shiftl_add by (done || lia).
      rewrite wrap_small; [lia|]. unfold in_range in *. assert (2 ^ (frombits + tobits - 1) <= 2 ^ 15) by (apply Z.pow_le_mono_r; lia).
      assert (2 ^ frombits <= 2 ^ 8) by (apply Z.pow_le_mono_r; lia). pow_literals. nia. }
    destruct Hs as (Ho & Hb & Htot & Hm).
    assert (0 < 2 ^ frombits) by lia. assert (0 < 2 ^ bits) by lia.
    apply (emit_ok _ _ _ _ (m * 2 ^ frombits + v) (total + frombits)) in He as [Hs1 Hlt1].
    2:{ split_and!; [done|lia|lia|]. rewrite Hm, Hacc1, mod_pow2_trans, append_bits_mod by (first [exact Hv | lia]).
        rewrite Z.pow_add_r by lia. ring. }
    2:{ unfold in_range in Hv. nia. }
    intros Hrest. cbn [length]. rewrite Nat2Z.inj_succ, be_val_cons by lia.
    replace (m * 2 ^ (frombits * Z.succ (Z.of_nat (length input))) + (v * 2 ^ (frombits * Z.of_nat (length input)) + be_val frombits input))
      with ((m * 2 ^ frombits + v) * 2 ^ (frombits * Z.of_nat (length input)) + be_val frombits input).
    2:{ rewrite Z.mul_succ_r, Z.pow_add_r by lia. ring. }
    replace (total + frombits * Z.succ (Z.of_nat (length input))) with (total + frombits + frombits * Z.of_nat (length input)) by lia.
    apply (IH acc1 bits1 out1); [done|done| |done]. rewrite Hacc1. apply Z.mod_pos_bound. lia.
Qed.

Lemma convert_all input acc bits out : limbs_ok frombits input -> convert_loop frombits tobits input 0 0 [] = (acc, bits, out) ->
  limbs_ok tobits out /\ 0 <= bits < tobits /\ 0 <= acc < 2 ^ (frombits + tobits - 1) /\
  frombits * Z.of_nat (length input) = tobits * Z.of_nat (length out) + bits /\
  be_val frombits input = be_val tobits out * 2 ^ bits + acc mod 2 ^ bits.
Proof using Hf Ht.
  intros Hin Hc. destruct (convert_loop_ok input Hin 0 0 [] 0 0) with acc bits out as ((Ho & Hb & Htot & Hm) & Hlt & Hacc);
    [split_and!; [constructor|done|cbn; lia|done]|lia|lia|done|]. rewrite Z.mul_0_l, !Z.add_0_l in *. done.
Qed.

(** The unused bits moved to the top of a last output value. *)
Lemma rest_value acc bits : 0 <= bits < tobits -> 0 <= acc < 2 ^ (frombits + tobits - 1) ->
  Z.land (u64 (Z.shiftl acc (tobits - bits))) (Z.shiftl 1 tobits - 1) = acc mod 2 ^ bits * 2 ^ (tobits - bits).
Proof using Hf Ht.
  intros Hb Hacc. rewrite mask_bits by lia. rewrite Z.shiftl_mul_pow2 by lia.
  rewrite wrap_small.
  2:{ unfold in_range. assert (2 ^ (frombits + tobits - 1) <= 2 ^ 15) by (apply Z.pow_le_mono_r; lia).
      assert (0 < 2 ^ (tobits - bits) <= 2 ^ 8) by (split; [|apply Z.pow_le_mono_r]; lia). pow_literals. nia. }
  pose proof (append_bits_mod acc 0 (tobits - bits) bits ltac:(lia) ltac:(lia) ltac:(lia)) as H.
  rewrite !Z.add_0_r in H. rewrite <- H. f_equal. f_equal. lia.
Qed.

Lemma ConvertBits_pad input : limbs_ok frombits input -> exists out k, ConvertBits frombits tobits true input = (true, out) /\
  limbs_ok tobits out /\ 0 <= k < tobits /\ tobits * Z.of_nat (length out) = frombits * Z.of_nat (length input) + k /\
  be_val tobits out = be_val frombits input * 2 ^ k.
Proof using Hf Ht.
  intros Hin. unfold ConvertBits. destruct (convert_loop frombits tobits input 0 0 []) as [[acc bits] out] eqn:Hc.
  destruct (convert_all _ _ _ _ Hin Hc) as (Ho & Hb & Hacc & Htot & Hm). rewrite rest_value by done.
  destruct (Z.eqb_spec bits 0) as [->|Hne]; cbn [negb].
  - exists out, 0. rewrite Z.pow_0_r, Z.mod_1_r in *. split_and!; [done|done|lia|lia|lia|lia].
  - eexists _, (tobits - bits). split; [done|]. assert (0 < 2 ^ bits) by lia. assert (0 < 2 ^ (tobits - bits)) by (apply Z.pow_pos_nonneg; lia).
    assert (2 ^ tobits = 2 ^ bits * 2 ^ (tobits - bits)) as Hp by (rewrite <- Z.pow_add_r by lia; f_equal; lia).
    split_and!; [|lia|lia| |].
    + apply Forall_app. split; [done|]. constructor; [|done]. unfold in_range. rewrite Hp.
      pose proof (Z.mod_pos_bound acc (2 ^ bits)). nia.
    + rewrite length_app. cbn. lia.
    + rewrite be_val_snoc, Hp, Hm. ring.
Qed.

Lemma ConvertBits_nopad input ok out : limbs_ok frombits input -> ConvertBits frombits tobits false input = (ok, out) ->
  exists bits r, limbs_ok tobits out /\ 0 <= bits < tobits /\ 0 <= r < 2 ^ bits /\
    frombits * Z.of_nat (length input) = tobits * Z.of_nat (length out) + bits /\
    be_val frombits input = be_val tobits out * 2 ^ bits + r /\ (ok = true <-> bits < frombits /\ r = 0).
Proof using Hf Ht.
  intros Hin. unfold ConvertBits. destruct (convert_loop frombits tobits input 0 0 []) as [[acc bits] out'] eqn:Hc.
  destruct (convert_all _ _ _ _ Hin Hc) as (Ho & Hb & Hacc & Htot & Hm). rewrite rest_value by done. intros Hres.
  assert (0 < 2 ^ (tobits - bits)) by (apply Z.pow_pos_nonneg; lia).
  pose proof (Z.mod_pos_bound acc (2 ^ bits) ltac:(lia)) as Hr.
  exists bits, (acc mod 2 ^ bits). rewrite Z.geb_leb in Hres.
  destruct (Z.leb_spec frombits bits) as [Hle|Hle], (Z.eqb_spec (acc mod 2 ^ bits * 2 ^ (tobits - bits)) 0) as [Hz|Hz]; cbn [orb negb] in Hres;
    injection Hres as <- <-; split_and!; try done; try lia; split; intros; try done; nia.
Qed.
End convert.

Lemma bytes_symbols_bytes l : bytes_ok l -> exists symbols, ConvertBits 8 5 true l = (true, symbols) /\
  ConvertBits 5 8 false symbols = (true, l).
Proof.
  intros Hl. destruct (ConvertBits_pad 8 5 ltac:(lia) ltac:(lia) l Hl) as (s & k & Hs & Hok & Hk & Hlen & Hv).
  exists s. split; [done|]. destruct (ConvertBits 5 8 false s) as [ok out] eqn:Hc.
  destruct (ConvertBits_nopad 5 8 ltac:(lia) ltac:(lia) s ok out Hok Hc) as (b & r & Ho & Hb & Hr & Hlen' & Hv' & Hiff).
  assert (b = k /\ length out = length l) as [-> Hll] by lia. rewrite Hv in Hv'.
  assert (0 < 2 ^ k) by lia. destruct (Z.div_mod_unique (2 ^ k) (be_val 8 l) (be_val 8 out) 0 r) as [He <-]; [lia|lia|lia|].
  rewrite (proj2 Hiff) by lia. f_equal. by apply (be_val_inj 8).
Qed.

Lemma symbols_bytes_symbols s l : limbs_ok 5 s -> ConvertBits 5 8 false s = (true, l) -> ConvertBits 8 5 true l = (true, s).
Proof.
  intros Hs Hc. destruct (ConvertBits_nopad 5 8 ltac:(lia) ltac:(lia) s true l Hs Hc) as (b & r & Ho & Hb & Hr & Hlen & Hv & Hiff).
  destruct (proj1 Hiff eq_refl) as [Hb5 ->]. rewrite Z.add_0_r in Hv.
  destruct (ConvertBits_pad 8 5 ltac:(lia) ltac:(lia) l Ho) as (s' & k & -> & Hok & Hk & Hlen' & Hv').
  assert (b = k /\ length s' = length s) as [-> Hll] by lia. do 2 f_equal. apply (be_val_inj 5); try done. lia.
Qed.
End convert_facts.

(** C38: Bech32 text.  A prefix of printable characters without capitals and
    symbols that fit into 90 characters are decoded from their encoding, and
    any text that is accepted is an encoding up to the case of its letters.
    Bytes spread over five-bit symbols come back from them, and symbols are
    accepted as bytes only when they are what these bytes are spread over.
    The checksum detects any error within six neighbouring symbols, and any
    two wrong symbols less than 90 places apart. *)
Theorem bech32_correct :
  (forall hrp values, bech32_facts.hrp_ok hrp -> limbs_ok 5 values -> (length hrp + 7 + length values <= 90)%nat ->
     bech32.Decode (bech32.Encode hrp values) = (hrp, values)) /\
  (forall s hrp values, bech32.Decode s = (hrp, values) -> hrp <> [] ->
     bech32_facts.hrp_ok hrp /\ limbs_ok 5 values /\ (length hrp + 7 + length values <= 90)%nat /\
     map bech32.LowerCase s = bech32.Encode hrp values) /\
  (forall l, bytes_ok l -> exists symbols, ConvertBits 8 5 true l = (true, symbols) /\
     ConvertBits 5 8 false symbols = (true, l)) /\
  (forall symbols l, limbs_ok 5 symbols -> ConvertBits 5 8 false symbols = (true, l) ->
     ConvertBits 8 5 true l = (true, symbols)) /\
  (forall hrp pre a b post, Forall (fun c => 33 <= c <= 126) hrp -> limbs_ok 5 (pre ++ a ++ post) -> limbs_ok 5 b ->
     length b = length a -> (length a <= 6)%nat -> a <> b ->
     bech32.VerifyChecksum hrp (pre ++ a ++ post) = true -> bech32.VerifyChecksum hrp (pre ++ b ++ post) = false) /\
  (forall hrp pre x y m x' y' post, Forall (fun c => 33 <= c <= 126) hrp -> limbs_ok 5 (pre ++ (x :: m ++ [y]) ++ post) ->
     limbs_ok 5 [x'; y'] -> (length m <= 88)%nat -> (x, y) <> (x', y') ->
     bech32.VerifyChecksum hrp (pre ++ (x :: m ++ [y]) ++ post) = true ->
     bech32.VerifyChecksum hrp (pre ++ (x' :: m ++ [y']) ++ post) = false).
Proof.
  split; [apply bech32_facts.Decode_Encode|]. split; [apply bech32_facts.Encode_Decode|]. split; [|split; [|split]].
  - apply convert_facts.bytes_symbols_bytes.
  - apply convert_facts.symbols_bytes_symbols.
  - intros hrp pre a b post Hh [Hpre [Ha Hpost]%Forall_app]%Forall_app Hb Hl H6 Hne Hv. apply not_true_iff_false. intros Hv'.
    apply Hne. unfold bech32.VerifyChecksum, bech32.Cat in *. apply Z.eqb_eq in Hv, Hv'. rewrite !app_assoc in Hv, Hv'.
    rewrite <- !(app_assoc (_ ++ pre)) in Hv, Hv'.
    apply (bech32_facts.burst_detected (bech32.ExpandHRP hrp ++ pre) a b post); [|done..|congruence].
    apply Forall_app. split; [by apply bech32_facts.ExpandHRP_ok|done].
  - intros hrp pre x y m x' y' post Hh [Hpre [Ha Hpost]%Forall_app]%Forall_app Hb Hm Hne Hv. apply not_true_iff_false. intros Hv'.
    apply Forall_cons in Ha as [Hx [Hmm [Hy _]%Forall_cons]%Forall_app].
    apply Forall_cons in Hb as [Hx' [Hy' _]%Forall_cons].
    unfold bech32.VerifyChecksum, bech32.Cat in *. apply Z.eqb_eq in Hv, Hv'. rewrite (app_assoc _ pre) in Hv, Hv'.
    apply Hne. destruct (bech32_facts.pair_detected (bech32.ExpandHRP hrp ++ pre) x x' m y y' post) as [-> ->]; try done; [|congruence].
    apply Forall_app. split; [by apply bech32_facts.ExpandHRP_ok|done].
Qed.

Lemma bech32_correct_witness :
  bech32.Decode (bech32.Encode [101; 99] [0; 14; 31]) = ([101; 99], [0; 14; 31]) /\
  (exists symbols, ConvertBits 8 5 true [255; 1] = (true, symbols) /\ ConvertBits 5 8 false symbols = (true, [255; 1])) /\
  bech32.VerifyChecksum [101; 99] ([0] ++ [15; 30] ++ bech32.CreateChecksum [101; 99] [0; 14; 31]) = false /\
  bech32.VerifyChecksum [101; 99] ([] ++ (1 :: [14] ++ [30]) ++ bech32.CreateChecksum [101; 99] [0; 14; 31]) = false.
Proof.
  destruct bech32_correct as (H1 & _ & H3 & _ & H5 & H6). split_and!.
  - apply H1; [split; [discriminate|decided]|decided|cbn; lia].
  - apply H3. decided.
  - apply (H5 [101; 99] [0] [14; 31] [15; 30]); [decided|decided|decided|reflexivity|cbn; lia|discriminate|vm_compute; reflexivity].
  - apply (H6 [101; 99] [] 0 31 [14] 1 30); [decided|decided|decided|cbn; lia|discriminate|vm_compute; reflexivity].
Defined.
