(* ===== verification/Base58.v ===== *)
(** * Base58 text ([base58.cpp])

    A string is the list of its bytes.  The buffers of digits are lists with
    the lowest digit first: the loops of the source go over them from the end
    with a [reverse_iterator]. *)

From S2P Require Import Prelude Uint256 Hash.

Definition pszBase58 : bytes := [
  49; 50; 51; 52; 53; 54; 55; 56; 57; 65; 66; 67; 68; 69; 70; 71; 72; 74; 75; 76;
  77; 78; 80; 81; 82; 83; 84; 85; 86; 87; 88; 89; 90; 97; 98; 99; 100; 101; 102; 103;
  104; 105; 106; 107; 109; 110; 111; 112; 113; 114; 115; 116; 117; 118; 119; 120; 121; 122].

(** [isspace] in the "C" locale. *)
Definition isspace (c : Z) : bool := (c =? 32) || ((9 <=? c) && (c <=? 13)).

(** Why no bytes come out of a text: it is not base58, or an assertion or an
    allocation failed. *)
Inductive base58_error := NotBase58 | Failure.

(** The inner loop, [digits = digits * mul + carry] in base [base], up to
    digit number [length] and as long as there is a carry.  The result is the
    digits, the carry and [i]. *)
Fixpoint digit_loop (base mul : Z) (digits : list Z) (carry i length : Z) : list Z * Z * Z :=
  match digits with
  | [] => ([], carry, i)
  | it :: digits' =>
      if negb (carry =? 0) || (i <? length) then
        let carry := carry + mul * it in
        let '(ds, c, n) := digit_loop base mul digits' (carry / base) (i + 1) length in
        (carry mod base :: ds, c, n)
      else (digits, carry, i)
  end.

Fixpoint count_while (x : Z) (l : list Z) : nat :=
  match l with
  | y :: l => if y =? x then S (count_while x l) else 0%nat
  | [] => 0%nat
  end.
Definition skip_zeros (l : list Z) : list Z := drop (count_while 0 l) l.

(** From the digit that [begin() + (size - length)] points to, without the
    zeros there. *)
Definition result_digits (digits : list Z) (length : Z) : list Z :=
  skip_zeros (drop (Z.to_nat (Z.of_nat (List.length digits) - length)) (rev digits)).

(** ** Encoding *)

Fixpoint encode_bytes (p : bytes) (b58 : list Z) (length : Z) : result base58_error (list Z * Z) :=
  match p with
  | [] => Ok (b58, length)
  | b :: p =>
      let '(b58, carry, i) := digit_loop 58 256 b58 b 0 length in
      check (carry =? 0) Failure;;
      encode_bytes p b58 i
  end.

Definition EncodeBase58 (v : bytes) : result base58_error bytes :=
  let zeroes := count_while 0 v in
  let p := drop zeroes v in
  let size := i32 (Z.of_nat (length p) * 138 / 100 + 1) in
  check (0 <=? size) Failure;;
  '(b58, length) ← encode_bytes p (replicate (Z.to_nat size) 0) 0;
  Ok (replicate zeroes 49 ++ map (fun d => nth (Z.to_nat d) pszBase58 0) (result_digits b58 length)).

(** ** Decoding *)

(** [strchr(pszBase58, c) - pszBase58]. *)
Fixpoint index_of (c : Z) (l : bytes) : option Z :=
  match l with
  | [] => None
  | x :: l => if x =? c then Some 0 else i ← index_of c l; Some (i + 1)
  end.

Fixpoint skip_spaces (psz : bytes) : bytes :=
  match psz with
  | c :: psz' => if isspace c then skip_spaces psz' else psz
  | [] => []
  end.

Fixpoint decode_chars (psz : bytes) (b256 : list Z) (length : Z) : result base58_error (bytes * list Z * Z) :=
  match psz with
  | [] => Ok ([], b256, length)
  | c :: psz' =>
      if isspace c then Ok (psz, b256, length)
      else
        match index_of c pszBase58 with
        | None => Err NotBase58
        | Some carry =>
            let '(b256, carry, i) := digit_loop 256 58 b256 carry 0 length in
            check (carry =? 0) Failure;;
            decode_chars psz' b256 i
        end
  end.

(** On a C string. *)
Definition DecodeBase58 (psz : bytes) : result base58_error bytes :=
  let psz := skip_spaces psz in
  let zeroes := count_while 49 psz in
  let psz := drop zeroes psz in
  let size := i32 (Z.of_nat (length psz) * 733 / 1000 + 1) in
  check (0 <=? size) Failure;;
  '(psz, b256, length) ← decode_chars psz (replicate (Z.to_nat size) 0) 0;
  match skip_spaces psz with
  | [] => Ok (replicate zeroes 0 ++ result_digits b256 length)
  | _ => Err NotBase58
  end.

(** [str.c_str()] read as a C string: up to the first zero byte. *)
Fixpoint c_str (str : bytes) : bytes :=
  match str with
  | c :: str => if c =? 0 then [] else c :: c_str str
  | [] => []
  end.

Section check.
Context `{Hs : HashFunctions}.

Definition EncodeBase58Check (vchIn : bytes) : result base58_error bytes :=
  EncodeBase58 (vchIn ++ take 4 (CHash256 vchIn)).

Definition DecodeBase58Check (psz : bytes) : result base58_error bytes :=
  vchRet ← DecodeBase58 psz;
  let n := (length vchRet - 4)%nat in
  if (length vchRet <? 4)%nat then Err NotBase58
  else if negb (bool_decide (take 4 (CHash256 (take n vchRet)) = drop n vchRet)) then Err NotBase58
  else Ok (take n vchRet).
End check.

(** ** Numbers in a base *)

Module radix.

(** The value of digits, the highest first, and the lowest first. *)
Definition be (b : Z) (l : list Z) : Z := foldl (fun a d => a * b + d) 0 l.
Fixpoint le (b : Z) (l : list Z) : Z :=
  match l with
  | [] => 0
  | d :: l => d + b * le b l
  end.

Abbreviation digits_ok b := (Forall (fun d => 0 <= d < b)).

(** Digits without a leading zero. *)
Definition canonical (b : Z) (l : list Z) : Prop := digits_ok b l /\ head l <> Some 0.

Section base.
Context (b : Z) (Hb : 2 <= b).

Lemma be_snoc l d : be b (l ++ [d]) = be b l * b + d.
Proof using. unfold be. by rewrite foldl_app. Qed.

Lemma be_rev l : be b (rev l) = le b l.
Proof using. induction l as [|d l IH]; [done|]. cbn [rev le]. rewrite be_snoc, IH. ring. Qed.

Lemma be_le l : be b l = le b (rev l).
Proof using. by rewrite <- be_rev, rev_involutive. Qed.

Lemma le_bound l : digits_ok b l -> 0 <= le b l < b ^ Z.of_nat (length l).
Proof using Hb.
  induction 1 as [|d l Hd Hl IH]; cbn [le length]; [lia|]. rewrite Nat2Z.inj_succ, Z.pow_succ_r by lia. nia.
Qed.

Lemma be_bound l : digits_ok b l -> 0 <= be b l < b ^ Z.of_nat (length l).
Proof using Hb. intros Hl. rewrite be_le, <- length_rev. apply le_bound. by apply Forall_rev. Qed.

Lemma le_inj l1 l2 : digits_ok b l1 -> digits_ok b l2 -> length l1 = length l2 -> le b l1 = le b l2 -> l1 = l2.
Proof using Hb.
  intros H1. revert l2. induction H1 as [|d l1 Hd H1 IH]; intros [|e l2] H2 Hl He; try done.
  apply Forall_cons in H2 as [He0 H2]. cbn [le] in He.
  destruct (Z.div_mod_unique b (le b l1) (le b l2) d e) as [Hle ->]; [lia|lia|lia|]. f_equal. apply IH; [done|by injection Hl|done].
Qed.

Lemma be_cons d l : be b (d :: l) = d * b ^ Z.of_nat (length l) + be b l.
Proof using.
  induction l as [|x l IH] using rev_ind; [unfold be; cbn; lia|].
  rewrite app_comm_cons, !be_snoc, IH, length_app. cbn [length]. rewrite Nat.add_1_r, Nat2Z.inj_succ, Z.pow_succ_r by lia. ring.
Qed.

Lemma canonical_low l : canonical b l -> l <> [] -> b ^ Z.of_nat (length l - 1) <= be b l.
Proof using Hb.
  intros [Hl Hh] Hne. destruct l as [|d l]; [done|]. apply Forall_cons in Hl as [Hd Hl].
  assert (d <> 0) by (intros ->; done). rewrite be_cons. cbn [length]. rewrite Nat.sub_succ, Nat.sub_0_r.
  pose proof (be_bound l Hl). assert (0 < b ^ Z.of_nat (length l)) by lia. nia.
Qed.

Lemma canonical_inj l1 l2 : canonical b l1 -> canonical b l2 -> be b l1 = be b l2 -> l1 = l2.
Proof using Hb.
  intros H1 H2 He. assert (forall l l', canonical b l -> canonical b l' -> be b l = be b l' -> (length l <= length l')%nat) as Hlen.
  { intros l l' Hl Hl' Hll. destruct (decide (l = [])) as [->|Hne]; [cbn; lia|].
    pose proof (canonical_low l Hl Hne) as Hlow. pose proof (be_bound l' (proj1 Hl')) as Hup. rewrite <- Hll in Hup.
    destruct (Nat.le_gt_cases (length l) (length l')) as [|Hgt]; [done|]. exfalso.
    assert (b ^ Z.of_nat (length l') <= b ^ Z.of_nat (length l - 1)) by (apply Z.pow_le_mono_r; lia). lia. }
  pose proof (Hlen l1 l2 H1 H2 He). pose proof (Hlen l2 l1 H2 H1 (eq_sym He)).
  rewrite <- (rev_involutive l1), <- (rev_involutive l2). f_equal.
  apply le_inj; [apply Forall_rev, H1|apply Forall_rev, H2|rewrite !length_rev; lia|by rewrite <- !be_le].
Qed.

(** Leading zeros do not count. *)
Lemma be_zeros n l : be b (replicate n 0 ++ l) = be b l.
Proof using. induction n as [|n IH]; [done|]. cbn [replicate app]. rewrite be_cons, IH. lia. Qed.

Lemma skip_zeros_split l : l = replicate (count_while 0 l) 0 ++ skip_zeros l /\ head (skip_zeros l) <> Some 0.
Proof using.
  unfold skip_zeros. induction l as [|x l [IH1 IH2]]; [done|]. cbn [count_while].
  destruct (Z.eqb_spec x 0) as [->|Hx]; cbn [drop replicate app]; [by rewrite <- IH1|].
  split; [done|]. cbn. congruence.
Qed.

Lemma skip_zeros_spec l : digits_ok b l -> canonical b (skip_zeros l) /\ be b (skip_zeros l) = be b l.
Proof using.
  intros Hl. destruct (skip_zeros_split l) as [He Hh]. split.
  - split; [|done]. rewrite He in Hl. by apply Forall_app in Hl as [_ Hl].
  - rewrite He at 2. by rewrite be_zeros.
Qed.
End base.

(** *** The inner loop *)

(** Digit number [n], counted from [i], is zero from [length] on. *)
Definition zero_from (length i : Z) (l : list Z) : Prop := forall n d, l !! n = Some d -> length <= i + Z.of_nat n -> d = 0.

Lemma zero_from_cons length i d l : zero_from length i (d :: l) <-> (length <= i -> d = 0) /\ zero_from length (i + 1) l.
Proof.
  split.
  - intros H. split; [intros Hl; apply (H 0%nat d); [done|lia]|]. intros n e Hn Hl. apply (H (S n) e); [done|lia].
  - intros [H0 H] [|n] e Hn Hl; [injection Hn as <-; apply H0; lia|]. apply (H n e); [done|lia].
Qed.

Lemma le_zero b l : (forall n d, l !! n = Some d -> d = 0) -> le b l = 0.
Proof.
  induction l as [|d l IH]; intros H; [done|]. cbn [le]. rewrite (H 0%nat d) by done. rewrite IH; [lia|].
  intros n e Hn. by apply (H (S n) e).
Qed.

Lemma digit_loop_ok base mul digits : 2 <= base -> 0 <= mul -> digits_ok base digits -> forall carry i len ds c n,
  0 <= carry -> zero_from len i digits -> digit_loop base mul digits carry i len = (ds, c, n) ->
  digits_ok base ds /\ length ds = length digits /\ 0 <= c /\
  le base ds + base ^ Z.of_nat (length digits) * c = mul * le base digits + carry /\
  zero_from n i ds /\ i <= n <= i + Z.of_nat (length digits).
Proof.
  intros Hb Hm. induction 1 as [|d digits Hd Hds IH]; intros carry i len ds c n Hc Hz; cbn [digit_loop].
  - intros [= <- <- <-]. cbn. split_and!; try done; try lia.
  - apply zero_from_cons in Hz as [Hz0 Hz]. destruct (negb (carry =? 0) || (i <? len)) eqn:Hgo.
    + destruct (digit_loop base mul digits ((carry + mul * d) / base) (i + 1) len) as [[ds' c'] n'] eqn:Hrec.
      intros [= <- <- <-]. apply IH in Hrec as (H1 & H2 & H3 & H4 & H5 & H6); [|apply Z.div_pos; nia|done].
      pose proof (Z.mod_pos_bound (carry + mul * d) base ltac:(lia)) as Hr. pose proof (Z.div_mod (carry + mul * d) base ltac:(lia)) as Hdm.
      cbn [length le]. rewrite Nat2Z.inj_succ, Z.pow_succ_r by lia.
      split_and!; [by constructor|by rewrite H2|done| | |lia|lia].
      * replace ((carry + mul * d) mod base) with (carry + mul * d - base * ((carry + mul * d) / base)) by lia. nia.
      * apply zero_from_cons. split; [lia|done].
    + apply orb_false_iff in Hgo as [H1%negb_false_iff%Z.eqb_eq H2%Z.ltb_ge]. intros [= <- <- <-]. subst carry.
      assert (le base (d :: digits) = 0) as H0.
      { apply le_zero. intros [|n] e; cbn; [intros [= <-]; by apply Hz0|]. intros Hn. apply (Hz n e Hn). lia. }
      rewrite H0. split_and!; [by constructor|done|done|lia| |lia|lia].
      apply zero_from_cons. split; [intros _; by apply Hz0|]. intros n e Hn Hl. apply (Hz n e Hn). lia.
Qed.

Lemma result_digits_ok b digits len : 2 <= b -> digits_ok b digits -> 0 <= len <= Z.of_nat (length digits) -> zero_from len 0 digits ->
  canonical b (result_digits digits len) /\ be b (result_digits digits len) = le b digits.
Proof.
  intros Hb Hd Hl Hz. unfold result_digits. set (k := Z.to_nat (Z.of_nat (length digits) - len)).
  destruct (skip_zeros_spec b (drop k (rev digits)) (Forall_drop _ _ _ (Forall_rev Hd))) as [Hc He].
  split; [done|]. rewrite He, <- be_rev. rewrite <- (take_drop k (rev digits)) at 2.
  assert (take k (rev digits) = replicate k 0) as ->; [|by rewrite be_zeros].
  apply list_eq_Forall2. apply Forall2_same_length_lookup. split; [rewrite length_take, length_rev, length_replicate; lia|].
  intros i x y Hx Hy. apply lookup_replicate in Hy as [-> Hi]. rewrite lookup_take_lt in Hx by done.
  assert (i < length digits)%nat by lia. rewrite rev_alt in Hx. change (rev_append digits []) with (reverse digits) in Hx. rewrite reverse_lookup in Hx by done.
  apply (Hz _ _ Hx). lia.
Qed.
End radix.

(** ** What a text stands for *)

Definition char_of (d : Z) : Z := nth (Z.to_nat d) pszBase58 0.

(** A text of a byte string: a character 1 for every leading zero byte, and
    then the digits of the number that the other bytes are. *)
Definition base58_text (v t : bytes) : Prop :=
  exists z w ds, v = replicate z 0 ++ w /\ t = replicate z 49 ++ map char_of ds /\
    radix.canonical 256 w /\ radix.canonical 58 ds /\ radix.be 58 ds = radix.be 256 w.

Module base58_facts.
Import radix.

(** [a ^ p <= b ^ q] bounds the digits that a number needs. *)
Lemma pow_ratio a b p q n s : 2 <= a -> 2 <= b -> 0 < p -> 0 <= q -> a ^ p <= b ^ q -> 0 <= n -> 0 <= s -> q * n <= p * s ->
  a ^ n <= b ^ s.
Proof.
  intros Ha Hb Hp Hq H Hn Hs Hr. destruct (Z.le_gt_cases (a ^ n) (b ^ s)) as [|Hgt]; [done|]. exfalso.
  assert ((b ^ s) ^ p < (a ^ n) ^ p) as Hlt by (apply Z.pow_lt_mono_l; [done|split; [apply Z.pow_nonneg; lia|done]]).
  rewrite <- !Z.pow_mul_r in Hlt by lia. assert (a ^ (n * p) <= b ^ (s * p)); [|lia].
  rewrite (Z.mul_comm n p), Z.pow_mul_r by lia. transitivity ((b ^ q) ^ n).
  - apply Z.pow_le_mono_l. split; [apply Z.pow_nonneg; lia|done].
  - rewrite <- Z.pow_mul_r by lia. apply Z.pow_le_mono_r; lia.
Qed.

Lemma encode_size n : 0 <= n -> 256 ^ n <= 58 ^ (n * 138 / 100 + 1).
Proof. intros Hn. apply (pow_ratio 256 58 30 41); [lia|lia|lia|lia|vm_compute; discriminate|lia|dlia|dlia]. Qed.

Lemma decode_size n : 0 <= n -> 58 ^ n <= 256 ^ (n * 733 / 1000 + 1).
Proof. intros Hn. apply (pow_ratio 58 256 71 52); [lia|lia|lia|lia|vm_compute; discriminate|lia|dlia|dlia]. Qed.

(** *** The outer loops *)

Record digits_inv (b : Z) (digits : list Z) (len : Z) : Prop := {
  inv_ok : digits_ok b digits;
  inv_zero : zero_from len 0 digits;
  inv_len : 0 <= len <= Z.of_nat (length digits);
}.

(** One character or byte: [digits * mul + carry] fits, so that no carry is
    left. *)
Lemma step_ok b mul digits len carry : 2 <= b -> 0 <= mul -> 0 <= carry -> digits_inv b digits len ->
  mul * le b digits + carry < b ^ Z.of_nat (length digits) ->
  exists ds n, digit_loop b mul digits carry 0 len = (ds, 0, n) /\ digits_inv b ds n /\
    length ds = length digits /\ le b ds = le b digits * mul + carry.
Proof.
  intros Hb Hm Hc [Hok Hz Hl] Hfit. destruct (digit_loop b mul digits carry 0 len) as [[ds c] n] eqn:Hd.
  apply digit_loop_ok in Hd as (H1 & H2 & H3 & H4 & H5 & H6); try done.
  assert (0 <= le b ds) by (apply le_bound; done).
  assert (c = 0) as -> by (assert (0 < b ^ Z.of_nat (length digits)) by lia; nia).
  exists ds, n. split; [done|]. split; [split; [done|done|lia]|]. split; [done|]. lia.
Qed.

Lemma encode_bytes_ok p : bytes_ok p -> forall digits len k, digits_inv 58 digits len -> 0 <= k ->
  le 58 digits < 256 ^ k -> 256 ^ (k + Z.of_nat (length p)) <= 58 ^ Z.of_nat (length digits) ->
  exists ds n, encode_bytes p digits len = Ok (ds, n) /\ digits_inv 58 ds n /\
    le 58 ds = foldl (fun a d => a * 256 + d) (le 58 digits) p.
Proof.
  induction 1 as [|b p Hb Hp IH]; intros digits len k Hinv Hk Hlt Hfit; [by exists digits, len|].
  cbn [encode_bytes length] in *. rewrite Nat2Z.inj_succ in Hfit. unfold in_range in Hb. change (2 ^ 8) with 256 in Hb.
  assert (256 ^ Z.succ k <= 256 ^ (k + Z.succ (Z.of_nat (length p)))) by (apply Z.pow_le_mono_r; lia).
  rewrite Z.pow_succ_r in * by lia.
  destruct (step_ok 58 256 digits len b) as (ds & n & -> & Hinv' & Hl & Hle); [lia|lia|lia|done|lia|].
  change (check (0 =? 0) Failure) with (@Ok base58_error unit ()). cbn [mbind result_bind foldl]. rewrite <- Hle.
  apply (IH _ _ (Z.succ k)); [done|lia|rewrite Z.pow_succ_r by lia; lia|].
  rewrite Hl. replace (Z.succ k + Z.of_nat (length p)) with (k + Z.succ (Z.of_nat (length p))) by lia. done.
Qed.

(** The digits of a text up to the first space. *)
Fixpoint text_digits (psz : bytes) : option (list Z * bytes) :=
  match psz with
  | [] => Some ([], [])
  | c :: psz' =>
      if isspace c then Some ([], psz)
      else d ← index_of c pszBase58; '(ds, rest) ← text_digits psz'; Some (d :: ds, rest)
  end.

Lemma index_of_spec c d : index_of c pszBase58 = Some d -> 0 <= d < 58 /\ char_of d = c.
Proof.
  assert (forall l k, index_of c l = Some k -> 0 <= k < Z.of_nat (length l) /\ nth (Z.to_nat k) l 0 = c) as H.
  { induction l as [|x l IH]; intros k; cbn [index_of]; [done|]. destruct (Z.eqb_spec x c) as [->|].
    - intros [= <-]. cbn [length]. split; [lia|done].
    - destruct (index_of c l) as [j|]; [|done]. cbn [mbind option_bind]. intros [= <-]. destruct (IH j eq_refl) as [Hj <-].
      cbn [length]. split; [lia|]. replace (Z.to_nat (j + 1)) with (S (Z.to_nat j)) by lia. done. }
  apply H.
Qed.

Lemma char_of_index d : 0 <= d < 58 -> index_of (char_of d) pszBase58 = Some d /\ isspace (char_of d) = false /\
  (char_of d = 49 -> d = 0).
Proof.
  intros Hd. assert (forallb (fun d => bool_decide (index_of (char_of d) pszBase58 = Some d) && negb (isspace (char_of d)) &&
    ((d =? 0) || negb (char_of d =? 49))) (seqZ 0 58) = true) as H by (vm_compute; reflexivity).
  rewrite forallb_forall in H. specialize (H d). apply andb_true_iff in H as [[H1 H2]%andb_true_iff H3];
    [|apply list_elem_of_In, elem_of_seqZ; lia].
  apply bool_decide_eq_true in H1. apply negb_true_iff in H2. split_and!; [done|done|]. intros He. rewrite He in H3.
  apply orb_true_iff in H3 as [H3%Z.eqb_eq|H3]; done.
Qed.

Lemma text_digits_sound psz : forall ds rest, text_digits psz = Some (ds, rest) ->
  psz = map char_of ds ++ rest /\ digits_ok 58 ds /\ (rest = [] \/ exists c r, rest = c :: r /\ isspace c = true).
Proof.
  induction psz as [|c psz IH]; intros ds rest; cbn [text_digits].
  - intros [= <- <-]. split_and!; [done|constructor|by left].
  - destruct (isspace c) eqn:Hs; [intros [= <- <-]; split_and!; [done|constructor|right; by exists c, psz]|].
    destruct (index_of c pszBase58) as [d|] eqn:Hi; [|done]. cbn [mbind option_bind].
    destruct (text_digits psz) as [[ds' r]|]; [|done]. cbn [mbind option_bind]. intros [= <- <-].
    apply index_of_spec in Hi as [Hd <-]. destruct (IH ds' r eq_refl) as (-> & Hok & Hr). split_and!; [done|by constructor|done].
Qed.

Lemma text_digits_complete ds rest : digits_ok 58 ds -> Forall (fun c => isspace c = true) rest ->
  text_digits (map char_of ds ++ rest) = Some (ds, rest).
Proof.
  intros Hds Hr. induction Hds as [|d ds Hd Hds IH].
  - destruct Hr as [|c rest Hc Hr]; [done|]. cbn. by rewrite Hc.
  - cbn [map app text_digits]. destruct (char_of_index d Hd) as (-> & -> & _). cbn [mbind option_bind]. by rewrite IH.
Qed.

Lemma decode_chars_ok psz : forall digits len k, digits_inv 256 digits len -> 0 <= k -> le 256 digits < 58 ^ k ->
  58 ^ (k + Z.of_nat (length psz)) <= 256 ^ Z.of_nat (length digits) ->
  match text_digits psz with
  | None => decode_chars psz digits len = Err NotBase58
  | Some (ds, rest) => exists out n, decode_chars psz digits len = Ok (rest, out, n) /\ digits_inv 256 out n /\
      le 256 out = foldl (fun a d => a * 58 + d) (le 256 digits) ds
  end.
Proof.
  induction psz as [|c psz IH]; intros digits len k Hinv Hk Hlt Hfit; cbn [text_digits decode_chars]; [by exists digits, len|].
  destruct (isspace c); [by exists digits, len|].
  destruct (index_of c pszBase58) as [d|] eqn:Hi; [|done]. cbn [mbind option_bind]. apply index_of_spec in Hi as [Hd _].
  cbn [length] in Hfit. rewrite Nat2Z.inj_succ in Hfit.
  assert (58 ^ Z.succ k <= 58 ^ (k + Z.succ (Z.of_nat (length psz)))) by (apply Z.pow_le_mono_r; lia).
  rewrite Z.pow_succ_r in * by lia.
  destruct (step_ok 256 58 digits len d) as (ds & n & -> & Hinv' & Hl & Hle); [lia|lia|lia|done|lia|].
  change (check (0 =? 0) Failure) with (@Ok base58_error unit ()). cbn [mbind result_bind].
  specialize (IH ds n (Z.succ k) Hinv' ltac:(lia)).
  replace (Z.succ k + Z.of_nat (length psz)) with (k + Z.succ (Z.of_nat (length psz))) in IH by lia.
  rewrite Z.pow_succ_r, Hl in IH by lia. specialize (IH ltac:(lia) Hfit).
  destruct (text_digits psz) as [[ds' rest]|]; cbn [mbind option_bind]; [|done].
  destruct IH as (out & m & -> & Hinv2 & Hle2). exists out, m. split_and!; [done|done|]. cbn [foldl]. by rewrite <- Hle.
Qed.

Lemma zeros_inv b n : 2 <= b -> digits_inv b (replicate n 0) 0.
Proof.
  intros Hb. split; [apply Forall_replicate; lia| |rewrite length_replicate; lia].
  intros i d Hd _. by apply lookup_replicate in Hd as [-> _].
Qed.

Lemma le_zeros b n : le b (replicate n 0) = 0.
Proof. apply le_zero. intros i d Hd. by apply lookup_replicate in Hd as [-> _]. Qed.

Lemma count_while_split x l : l = replicate (count_while x l) x ++ drop (count_while x l) l /\
  head (drop (count_while x l) l) <> Some x.
Proof.
  induction l as [|y l [IH1 IH2]]; [done|]. cbn [count_while].
  destruct (Z.eqb_spec y x) as [->|Hx]; cbn [drop replicate app]; [by rewrite <- IH1|]. split; [done|]. cbn. congruence.
Qed.

Lemma count_while_app x n l : head l <> Some x -> count_while x (replicate n x ++ l) = n.
Proof.
  intros Hl. induction n as [|n IH]; cbn [replicate app count_while].
  - destruct l as [|y l]; [done|]. cbn. rewrite (proj2 (Z.eqb_neq _ _)); [done|]. intros ->. done.
  - by rewrite Z.eqb_refl, IH.
Qed.

(** *** Encoding and decoding *)

Abbreviation spaces l := (Forall (fun c => isspace c = true) l).

Lemma EncodeBase58_ok v : bytes_ok v -> Z.of_nat (length v) < 2 ^ 30 ->
  exists t, EncodeBase58 v = Ok t /\ base58_text v t.
Proof.
  intros Hv Hlen. destruct (count_while_split 0 v) as [Hsplit Hhead]. unfold EncodeBase58.
  set (z := count_while 0 v) in *. set (w := drop z v) in *.
  assert (bytes_ok w) as Hw by (by apply Forall_drop).
  assert (length w <= length v)%nat by (unfold w; rewrite length_drop; lia).
  set (n := Z.of_nat (length w)). assert (0 <= n * 138 / 100 <= 2 ^ 31 - 2) by (pow_literals; dlia).
  rewrite swrap_small by (cbn; lia). rewrite (proj2 (Z.leb_le _ _)) by lia. change (check true Failure) with (@Ok base58_error unit ()).
  cbn [mbind result_bind]. set (size := Z.to_nat (n * 138 / 100 + 1)).
  destruct (encode_bytes_ok w Hw (replicate size 0) 0 0) as (ds & len & -> & Hinv & Hle);
    [by apply zeros_inv|done|by rewrite le_zeros| |].
  { rewrite Z.add_0_l, length_replicate. unfold size. rewrite Z2Nat.id by lia. exact (encode_size n ltac:(lia)). }
  cbn [mbind result_bind]. destruct Hinv as [Hok Hz Hl]. rewrite le_zeros in Hle.
  destruct (result_digits_ok 58 ds len ltac:(lia) Hok Hl Hz) as [Hc Hb].
  eexists. split; [done|]. exists z, w, (result_digits ds len). split; [done|]. split; [done|].
  split; [|split; [done|by rewrite Hb, Hle]]. split; [|done]. eapply Forall_impl; [exact Hw|]. done.
Qed.

Lemma skip_spaces_prefix sp l : spaces sp -> skip_spaces (sp ++ l) = skip_spaces l.
Proof. induction 1 as [|c sp Hc Hsp IH]; [done|]. cbn. by rewrite Hc. Qed.

Lemma skip_spaces_split l : exists sp, spaces sp /\ l = sp ++ skip_spaces l /\
  (skip_spaces l = [] \/ exists c r, skip_spaces l = c :: r /\ isspace c = false).
Proof.
  induction l as [|c l (sp & Hsp & Hl & Hr)]; [exists []; split_and!; [constructor|done|by left]|]. cbn [skip_spaces].
  destruct (isspace c) eqn:Hc; [exists (c :: sp); split_and!; [by constructor|by rewrite Hl at 1|done]|].
  exists []. split_and!; [constructor|done|right; by exists c, l].
Qed.

(** [DecodeBase58] from its parts. *)
Lemma DecodeBase58_parts s z u : skip_spaces s = replicate z 49 ++ u -> head u <> Some 49 -> Z.of_nat (length s) < 2 ^ 31 ->
  match text_digits u with
  | None => DecodeBase58 s = Err NotBase58
  | Some (ds, rest) =>
      exists w, canonical 256 w /\ be 256 w = be 58 ds /\
      DecodeBase58 s = match skip_spaces rest with [] => Ok (replicate z 0 ++ w) | _ => Err NotBase58 end
  end.
Proof.
  intros Hs Hu Hlen. unfold DecodeBase58. rewrite Hs, count_while_app, drop_app_length' by (done || by rewrite length_replicate).
  assert (length u <= length s)%nat as Hul.
  { destruct (skip_spaces_split s) as (sp & _ & Hsp & _). rewrite Hsp, Hs, !length_app. lia. }
  set (n := Z.of_nat (length u)). assert (0 <= n * 733 / 1000 <= 2 ^ 31 - 2) by (pow_literals; dlia).
  rewrite swrap_small by (cbn; lia). rewrite (proj2 (Z.leb_le _ _)) by lia. change (check true Failure) with (@Ok base58_error unit ()).
  cbn [mbind result_bind]. set (size := Z.to_nat (n * 733 / 1000 + 1)).
  pose proof (decode_chars_ok u (replicate size 0) 0 0) as Hdec. rewrite le_zeros, length_replicate in Hdec.
  specialize (Hdec ltac:(by apply zeros_inv) ltac:(done) ltac:(done)).
  replace (Z.of_nat size) with (n * 733 / 1000 + 1) in Hdec by (unfold size; lia).
  specialize (Hdec (decode_size n ltac:(lia))). destruct (text_digits u) as [[ds rest]|]; [|by rewrite Hdec].
  destruct Hdec as (out & len & -> & [Hok Hz Hl] & Hle). cbn [mbind result_bind].
  destruct (result_digits_ok 256 out len ltac:(lia) Hok Hl Hz) as [Hc Hb].
  exists (result_digits out len). split_and!; [done|by rewrite Hb, Hle|]. by destruct (skip_spaces rest).
Qed.

Lemma char_not_one ds l : canonical 58 ds -> (ds = [] -> head l <> Some 49) -> head (map char_of ds ++ l) <> Some 49.
Proof.
  intros [Hok Hh] Hl. destruct ds as [|d ds]; [by apply Hl|]. cbn. intros [= He]. apply Forall_cons in Hok as [Hd _].
  destruct (char_of_index d Hd) as (_ & _ & H). apply Hh. cbn. by rewrite H.
Qed.

(** A text between spaces is decoded. *)
Lemma DecodeBase58_text sp1 sp2 v t : base58_text v t -> spaces sp1 -> spaces sp2 ->
  Z.of_nat (length (sp1 ++ t ++ sp2)) < 2 ^ 31 -> DecodeBase58 (sp1 ++ t ++ sp2) = Ok v.
Proof.
  intros (z & w & ds & -> & -> & Hw & Hds & He) Hs1 Hs2 Hlen.
  assert (exists sp, spaces sp /\ skip_spaces (sp1 ++ (replicate z 49 ++ map char_of ds) ++ sp2) = replicate z 49 ++ map char_of ds ++ sp) as (sp & Hsp & Hskip).
  { rewrite skip_spaces_prefix by done. rewrite <- app_assoc. destruct z as [|z]; [|by exists sp2].
    destruct ds as [|d ds]; [|exists sp2; split; [done|]].
    - exists []. split; [done|]. cbn. rewrite <- (app_nil_r sp2). by rewrite skip_spaces_prefix.
    - cbn [replicate app map skip_spaces]. destruct Hds as [[Hd _]%Forall_cons _]. by destruct (char_of_index d Hd) as (_ & -> & _). }
  assert (head (map char_of ds ++ sp) <> Some 49) as Hone.
  { apply char_not_one; [done|]. intros _. destruct Hsp as [|c sp Hc _]; [done|]. cbn. intros [= ->]. done. }
  pose proof (DecodeBase58_parts _ z _ Hskip Hone Hlen) as H. rewrite text_digits_complete in H by (done || apply Hds).
  destruct H as (w' & Hw' & He' & ->).
  assert (skip_spaces sp = []) as -> by (rewrite <- (app_nil_r sp); by rewrite skip_spaces_prefix).
  do 2 f_equal. apply (canonical_inj 256); [done..|]. congruence.
Qed.

(** And nothing else is. *)
Lemma DecodeBase58_sound s v : Z.of_nat (length s) < 2 ^ 31 -> DecodeBase58 s = Ok v ->
  exists sp1 t sp2, s = sp1 ++ t ++ sp2 /\ spaces sp1 /\ spaces sp2 /\ base58_text v t.
Proof.
  intros Hlen Hv. destruct (skip_spaces_split s) as (sp1 & Hs1 & Hs & _).
  destruct (count_while_split 49 (skip_spaces s)) as [Hz Hh]. set (z := count_while 49 (skip_spaces s)) in *.
  set (u := drop z (skip_spaces s)) in *. pose proof (DecodeBase58_parts s z u Hz Hh Hlen) as H.
  destruct (text_digits u) as [[ds rest]|] eqn:Hu; [|congruence]. destruct H as (w & Hw & He & H). rewrite Hv in H.
  apply text_digits_sound in Hu as (Hu & Hds & Hrest). destruct (skip_spaces_split rest) as (sp2 & Hs2 & Hrs & _).
  destruct (skip_spaces rest); [|done]. injection H as ->. rewrite app_nil_r in Hrs. subst sp2.
  exists sp1, (replicate z 49 ++ map char_of ds), rest. split; [by rewrite <- app_assoc, <- Hu, <- Hz|]. split; [done|]. split; [done|].
  exists z, w, ds. split_and!; try done. split; [done|]. intros H0. apply Hh. rewrite Hu. destruct ds as [|d ds]; [done|].
  injection H0 as ->. done.
Qed.

Lemma DecodeBase58_no_failure s : Z.of_nat (length s) < 2 ^ 31 -> DecodeBase58 s <> Err Failure.
Proof.
  intros Hlen. destruct (count_while_split 49 (skip_spaces s)) as [Hz Hh].
  pose proof (DecodeBase58_parts s _ _ Hz Hh Hlen) as H. destruct (text_digits _) as [[ds rest]|]; [|by rewrite H].
  destruct H as (w & _ & _ & ->). by destruct (skip_spaces rest).
Qed.

(** The text and the bytes determine each other. *)
Lemma text_inj v v' t : base58_text v t -> base58_text v' t -> Z.of_nat (length t) < 2 ^ 31 -> v = v'.
Proof.
  intros H1 H2 Hlen. assert (forall x, base58_text x t -> DecodeBase58 ([] ++ t ++ []) = Ok x) as H.
  { intros x Hx. apply DecodeBase58_text; [done|constructor|constructor|]. cbn. by rewrite app_nil_r. }
  apply H in H1. apply H in H2. congruence.
Qed.

Lemma char_of_canonical ds ds' : digits_ok 58 ds -> digits_ok 58 ds' -> map char_of ds = map char_of ds' -> ds = ds'.
Proof.
  intros H1 H2 He. pose proof (text_digits_complete ds [] H1 ltac:(constructor)) as Ht.
  pose proof (text_digits_complete ds' [] H2 ltac:(constructor)) as Ht'. rewrite He in Ht. congruence.
Qed.

Lemma text_unique v t t' : base58_text v t -> base58_text v t' -> t = t'.
Proof.
  intros (z & w & ds & -> & -> & Hw & Hds & He) (z' & w' & ds' & Hv & -> & Hw' & Hds' & He').
  assert (forall n l, head l <> Some 0 -> count_while 0 (replicate n 0 ++ l) = n) as Hc by (intros; by apply count_while_app).
  assert (z = z') as <-.
  { apply (f_equal (count_while 0)) in Hv. by rewrite !Hc in Hv by (apply Hw || apply Hw'). }
  apply app_inv_head in Hv as <-. do 2 f_equal. apply (canonical_inj 58); [lia|done|done|congruence].
Qed.

(** A text is little longer than its bytes. *)
Lemma text_length v t : base58_text v t -> Z.of_nat (length t) <= Z.of_nat (length v) * 138 / 100 + 1.
Proof.
  intros (z & w & ds & -> & -> & Hw & Hds & He). rewrite !length_app, !length_replicate, length_map.
  destruct (decide (ds = [])) as [->|Hne]; [cbn [length]; dlia|].
  pose proof (canonical_low 58 ltac:(lia) ds Hds Hne) as Hlow. pose proof (be_bound 256 ltac:(lia) w (proj1 Hw)) as Hup.
  pose proof (encode_size (Z.of_nat (length w)) ltac:(lia)) as Hs.
  assert (Z.of_nat (length ds - 1) < Z.of_nat (length w) * 138 / 100 + 1).
  { apply (Z.pow_lt_mono_r_iff 58); [lia|dlia|lia]. }
  assert (0 < length ds)%nat by (destruct ds; [done|cbn; lia]). dlia.
Qed.

Lemma bytes_length v t : base58_text v t -> (length v <= length t)%nat.
Proof.
  intros (z & w & ds & -> & -> & Hw & Hds & He). rewrite !length_app, !length_replicate, length_map.
  destruct (decide (w = [])) as [->|Hne]; [cbn [length]; lia|].
  pose proof (canonical_low 256 ltac:(lia) w Hw Hne) as Hlow. pose proof (be_bound 58 ltac:(lia) ds (proj1 Hds)) as Hup.
  assert (58 ^ Z.of_nat (length ds) <= 256 ^ Z.of_nat (length ds)) by (apply Z.pow_le_mono_l; lia).
  assert (Z.of_nat (length w - 1) < Z.of_nat (length ds)) by (apply (Z.pow_lt_mono_r_iff 256); lia).
  lia.
Qed.

Lemma text_bytes_ok v t : base58_text v t -> bytes_ok v.
Proof.
  intros (z & w & ds & -> & _ & [Hw _] & _). apply Forall_app. split; [by apply Forall_replicate|].
  eapply Forall_impl; [exact Hw|]. done.
Qed.

(** Decoding is the inverse of encoding, up to spaces around the text. *)
Lemma DecodeBase58_iff s v : Z.of_nat (length s) < 2 ^ 30 -> DecodeBase58 s = Ok v <->
  bytes_ok v /\ exists sp1 t sp2, s = sp1 ++ t ++ sp2 /\ spaces sp1 /\ spaces sp2 /\ EncodeBase58 v = Ok t /\
    (length v <= length s)%nat.
Proof.
  intros Hlen. split.
  - intros (sp1 & t & sp2 & -> & H1 & H2 & Ht)%DecodeBase58_sound; [|lia]. split; [by eapply text_bytes_ok|].
    pose proof (bytes_length _ _ Ht) as Hl. rewrite !length_app in Hlen.
    destruct (EncodeBase58_ok v (text_bytes_ok _ _ Ht) ltac:(lia)) as (t' & He & Ht').
    exists sp1, t, sp2. split_and!; [done..| |rewrite !length_app; lia]. by rewrite He, (text_unique v t' t).
  - intros (Hv & sp1 & t & sp2 & -> & H1 & H2 & He & Hl).
    destruct (EncodeBase58_ok v Hv ltac:(lia)) as (t' & He' & Ht). rewrite He in He'. injection He' as <-.
    apply DecodeBase58_text; [done..|lia].
Qed.

Section check.
Context `{Hs : HashFunctions} `{HL : !HashLaws Hs}.

Lemma EncodeBase58Check_ok v : bytes_ok v -> Z.of_nat (length v) + 4 < 2 ^ 30 ->
  exists t, EncodeBase58Check v = Ok t /\ base58_text (v ++ take 4 (CHash256 v)) t.
Proof.
  intros Hv Hl. apply EncodeBase58_ok.
  - apply Forall_app. split; [done|]. apply Forall_take, bytes_Hash256.
  - rewrite length_app, length_take, length_Hash256. lia.
Qed.

(** The checksum: whatever the spaces, a text is accepted exactly when it is
    what the bytes are encoded to. *)
Lemma DecodeBase58Check_iff s v : Z.of_nat (length s) < 2 ^ 29 -> DecodeBase58Check s = Ok v <->
  bytes_ok v /\ (length v <= length s)%nat /\
  exists sp1 t sp2, s = sp1 ++ t ++ sp2 /\ spaces sp1 /\ spaces sp2 /\ EncodeBase58Check v = Ok t.
Proof.
  intros Hlen. unfold DecodeBase58Check, EncodeBase58Check. split.
  - destruct (DecodeBase58 s) as [x|] eqn:Hd; [|done]. cbn [mbind result_bind].
    apply DecodeBase58_iff in Hd as (Hx & sp1 & t & sp2 & He & H1 & H2 & Ht & Hl); [|pow_literals; lia].
    destruct (Nat.ltb_spec (length x) 4) as [|H4]; [done|]. case_bool_decide as Hsum; [|done]. cbn [negb].
    set (n := (length x - 4)%nat) in *. intros [= <-]. split; [by apply Forall_take|]. split; [rewrite length_take; lia|].
    exists sp1, t, sp2. split_and!; [done..|]. by rewrite Hsum, take_drop.
  - intros (Hv & Hl & sp1 & t & sp2 & He & H1 & H2 & Ht).
    destruct (EncodeBase58Check_ok v Hv ltac:(pow_literals; lia)) as (t' & He' & Htext). unfold EncodeBase58Check in He'.
    rewrite Ht in He'. injection He' as <-. rewrite He in Hlen |- *.
    rewrite (DecodeBase58_text sp1 sp2 _ t Htext) by (done || (pow_literals; lia)). cbn [mbind result_bind].
    assert (length (take 4 (CHash256 v)) = 4%nat) as H4 by (rewrite length_take, length_Hash256; lia).
    rewrite length_app, H4, Nat.add_sub, (proj2 (Nat.ltb_ge _ _)) by lia.
    rewrite take_app_length, drop_app_length, bool_decide_true by done. done.
Qed.
End check.
End base58_facts.

(** C39: Base58 text.  The loops of digits never run out of room, so that no
    assertion fails: every byte string has a text, and a text - for this many
    characters - is decoded or refused.  It is decoded to a byte string
    exactly when, without the spaces around it, it is the encoding of this
    string, and the text with a checksum exactly when it is the encoding with
    a checksum; a text has at most 138 characters for 100 bytes, and one
    more. *)
Theorem base58_correct `{Hs : HashFunctions} `{HL : !HashLaws Hs} (v s : bytes) :
  Z.of_nat (length s) < 2 ^ 29 ->
  (bytes_ok v -> Z.of_nat (length v) + 4 < 2 ^ 30 ->
     exists t tc, EncodeBase58 v = Ok t /\ EncodeBase58Check v = Ok tc /\
       Z.of_nat (length t) <= Z.of_nat (length v) * 138 / 100 + 1) /\
  DecodeBase58 s <> Err Failure /\
  (DecodeBase58 s = Ok v <-> bytes_ok v /\ (length v <= length s)%nat /\
     exists sp1 t sp2, s = sp1 ++ t ++ sp2 /\ base58_facts.spaces sp1 /\ base58_facts.spaces sp2 /\ EncodeBase58 v = Ok t) /\
  (DecodeBase58Check s = Ok v <-> bytes_ok v /\ (length v <= length s)%nat /\
     exists sp1 t sp2, s = sp1 ++ t ++ sp2 /\ base58_facts.spaces sp1 /\ base58_facts.spaces sp2 /\ EncodeBase58Check v = Ok t).
Proof.
  intros Hlen. split_and!.
  - intros Hv Hl. destruct (base58_facts.EncodeBase58_ok v Hv ltac:(lia)) as (t & Ht & Htext).
    destruct (base58_facts.EncodeBase58Check_ok v Hv Hl) as (tc & Htc & _).
    exists t, tc. split_and!; [done..|by apply base58_facts.text_length].
  - apply base58_facts.DecodeBase58_no_failure. pow_literals. lia.
  - rewrite base58_facts.DecodeBase58_iff by (pow_literals; lia). naive_solver.
  - by apply base58_facts.DecodeBase58Check_iff.
Qed.

Module base58_example.
Definition hashes : HashFunctions := {|
  CRIPEMD160 := fun _ => replicate 20 1; CSHA1 := fun _ => replicate 20 2; CSHA3_256 := fun _ => replicate 32 3 |}.
Lemma hash_laws : HashLaws hashes.
Proof. split; intros m; first [reflexivity | by apply Forall_replicate]. Defined.
End base58_example.

Lemma base58_correct_witness :
  (exists t tc, EncodeBase58 [0; 255] = Ok t /\ @EncodeBase58Check base58_example.hashes [0; 255] = Ok tc /\
     Z.of_nat (length t) <= 3) /\
  DecodeBase58 [32; 49; 53; 81; 32] = Ok [0; 255] /\ DecodeBase58 [48] <> Err Failure.
Proof.
  destruct (@base58_correct base58_example.hashes base58_example.hash_laws [0; 255] [32; 49; 53; 81; 32]) as (H1 & _ & H3 & _);
    [reflexivity|].
  split; [|split].
  - apply H1; [decided|reflexivity].
  - apply H3. split; [decided|]. split; [cbn; lia|]. exists [32], [49; 53; 81], [32].
    split; [reflexivity|]. split; [by repeat constructor|]. split; [by repeat constructor|]. vm_compute. reflexivity.
  - apply (proj1 (proj2 (@base58_correct base58_example.hashes base58_example.hash_laws [] [48] eq_refl))).
Defined.
