(* ===== verification/KeyIO.v ===== *)
(** * Addresses ([key_io.cpp])

    The text of a destination and the destination of a text, with the
    prefixes of the three networks of [chainparams.cpp].  The texts of keys go
    through the same functions and are left out with the keys. *)

From S2P Require Import Prelude Uint256 Hash Standard Bech32 Base58.

(** [base58Prefixes[PUBKEY_ADDRESS]], [base58Prefixes[SCRIPT_ADDRESS]] and
    [bech32_hrp]. *)
Record AddressParams := {
  pubkey_prefix : bytes;
  script_prefix : bytes;
  Bech32HRP : bytes;
}.

Definition main_addresses : AddressParams :=
  {| pubkey_prefix := [33]; script_prefix := [15]; Bech32HRP := [101; 99] |}.
Definition test_addresses : AddressParams :=
  {| pubkey_prefix := [111]; script_prefix := [196]; Bech32HRP := [116; 101] |}.
Definition regtest_addresses : AddressParams :=
  {| pubkey_prefix := [111]; script_prefix := [196]; Bech32HRP := [101; 99; 114; 116] |}.

Section key_io.
Context `{Hs : HashFunctions} (params : AddressParams).

(** The symbols of a witness program behind its version. *)
Definition witness_text (version : Z) (program : bytes) : bytes :=
  bech32.Encode (Bech32HRP params) (version :: snd (ConvertBits 8 5 true program)).

(** [DestinationEncoder]; an error is a failed assertion. *)
Definition EncodeDestination (dest : CTxDestination) : result base58_error bytes :=
  match dest with
  | CKeyID id => EncodeBase58Check (pubkey_prefix params ++ id)
  | CScriptID id => EncodeBase58Check (script_prefix params ++ id)
  | WitnessV0KeyHash id => Ok (witness_text 0 id)
  | WitnessV0ScriptHash id => Ok (witness_text 0 id)
  | WitnessUnknown version program =>
      let length := Z.of_nat (length program) in
      if (version <? 1) || (version >? 16) || (length <? 2) || (length >? 40) then Ok []
      else Ok (witness_text (u8 version) program)
  | CNoDestination => Ok []
  end.

(** [data.size() == 20 + prefix.size()] and the prefix: the hash behind it. *)
Definition strip_prefix (prefix data : bytes) : option bytes :=
  if (length data =? 20 + length prefix)%nat && bool_decide (take (length prefix) data = prefix)
  then Some (drop (length prefix) data) else None.

Definition decode_base58 (data : bytes) : option CTxDestination :=
  match strip_prefix (pubkey_prefix params) data with
  | Some hash => Some (CKeyID hash)
  | None =>
      match strip_prefix (script_prefix params) data with
      | Some hash => Some (CScriptID hash)
      | None => None
      end
  end.

Definition decode_bech32 (str : bytes) : CTxDestination :=
  let bech := bech32.Decode str in
  match snd bech with
  | version :: symbols =>
      if bool_decide (fst bech = Bech32HRP params) then
        let '(ok, data) := ConvertBits 5 8 false symbols in
        if ok then
          if version =? 0 then
            if (length data =? 20)%nat then WitnessV0KeyHash data
            else if (length data =? 32)%nat then WitnessV0ScriptHash data
            else CNoDestination
          else if (version >? 16) || (length data <? 2)%nat || (40 <? length data)%nat then CNoDestination
          else WitnessUnknown version data
        else CNoDestination
      else CNoDestination
  | [] => CNoDestination
  end.

(** [None] is a failed assertion. *)
Definition DecodeDestination (str : bytes) : option CTxDestination :=
  match DecodeBase58Check (c_str str) with
  | Ok data =>
      match decode_base58 data with
      | Some dest => Some dest
      | None => Some (decode_bech32 str)
      end
  | Err NotBase58 => Some (decode_bech32 str)
  | Err Failure => None
  end.

Definition IsValidDestinationString (str : bytes) : option bool :=
  dest ← DecodeDestination str; Some (IsValidDestination dest).
End key_io.

(** ** Facts *)

(** What the three networks satisfy. *)
Record params_ok (p : AddressParams) : Prop := {
  ok_pubkey : exists b, pubkey_prefix p = [b] /\ in_range 8 b;
  ok_script : exists b, script_prefix p = [b] /\ in_range 8 b;
  ok_different : pubkey_prefix p <> script_prefix p;
  ok_hrp : bech32_facts.hrp_ok (Bech32HRP p);
  ok_hrp_length : (length (Bech32HRP p) <= 11)%nat;
}.

(** The destinations whose text is never mistaken: the text of a shorter
    program of an unknown version has the length of a base58 address and could
    also be one. *)
Definition text_ok (d : CTxDestination) : Prop :=
  dest_ok d /\ match d with WitnessUnknown _ p => (17 <= length p)%nat | _ => True end.

Module key_io_facts.

Lemma DecodeBase58Check_no_failure `{Hs : HashFunctions} s : Z.of_nat (length s) < 2 ^ 31 -> DecodeBase58Check s <> Err Failure.
Proof.
  intros Hl. unfold DecodeBase58Check. pose proof (base58_facts.DecodeBase58_no_failure s Hl) as H.
  destruct (DecodeBase58 s) as [x|e]; [|by destruct e]. cbn [mbind result_bind].
  destruct (length x <? 4)%nat; [done|]. by destruct (negb _).
Qed.

Lemma c_str_id s : Forall (fun c => c <> 0) s -> c_str s = s.
Proof. induction 1 as [|c s Hc Hs IH]; [done|]. cbn. by rewrite (proj2 (Z.eqb_neq _ _)), IH. Qed.

Lemma length_c_str s : (length (c_str s) <= length s)%nat.
Proof. induction s as [|c s IH]; [done|]. cbn. case_match; cbn; lia. Qed.

Lemma convert_length l symbols : bytes_ok l -> ConvertBits 8 5 true l = (true, symbols) ->
  limbs_ok 5 symbols /\ (8 * length l <= 5 * length symbols <= 8 * length l + 4)%nat.
Proof.
  intros Hl He. destruct (convert_facts.ConvertBits_pad 8 5 ltac:(lia) ltac:(lia) l Hl) as (out & k & He' & Hok & Hk & Hlen & _).
  rewrite He in He'. injection He' as <-. split; [done|lia].
Qed.

(** *** Witness addresses *)

Section witness.
Context (p : AddressParams) (Hp : params_ok p) (v : Z) (program : bytes).
Hypothesis (Hv : 0 <= v <= 16) (Hprog : bytes_ok program) (Hlen : (2 <= length program <= 40)%nat).

Lemma witness_text_ok : exists symbols, ConvertBits 8 5 true program = (true, symbols) /\
  ConvertBits 5 8 false symbols = (true, program) /\
  bech32.Decode (witness_text p v program) = (Bech32HRP p, v :: symbols) /\
  Z.of_nat (length (witness_text p v program)) = Z.of_nat (length (Bech32HRP p)) + 8 + Z.of_nat (length symbols) /\
  Forall (fun c => 33 <= c <= 126) (witness_text p v program).
Proof using Hp Hv Hprog Hlen.
  destruct (convert_facts.bytes_symbols_bytes program Hprog) as (symbols & He & Hd).
  destruct (convert_length program symbols Hprog He) as [Hok Hsl]. exists symbols. split; [done|]. split; [done|].
  assert (limbs_ok 5 (v :: symbols)) as Hvs by (constructor; [unfold in_range; pow_literals; lia|done]).
  pose proof (ok_hrp_length _ Hp). unfold witness_text. rewrite He. cbn [snd].
  split; [apply bech32_facts.Decode_Encode; [apply Hp|done|cbn; lia]|].
  split.
  - unfold bech32.Encode, bech32.Cat. rewrite !length_app, length_map, length_app. cbn [length].
    rewrite (proj1 (bech32_facts.CreateChecksum_ok _ _)). lia.
  - unfold bech32.Encode, bech32.Cat. apply Forall_app. split.
    + eapply Forall_impl; [apply (ok_hrp _ Hp)|]. by intros c [? _].
    + constructor; [done|]. apply Forall_fmap.
      assert (limbs_ok 5 ((v :: symbols) ++ bech32.CreateChecksum (Bech32HRP p) (v :: symbols))) as Hall
        by (apply Forall_app; split; [done|apply bech32_facts.CreateChecksum_ok]).
      eapply Forall_impl; [exact Hall|]. intros x Hx. by destruct (bech32_facts.char_of_spec x Hx) as (? & _).
Qed.
End witness.

Lemma decode_bech32_text p v program symbols s : ConvertBits 5 8 false symbols = (true, program) ->
  bech32.Decode s = (Bech32HRP p, v :: symbols) -> 0 <= v <= 16 -> (2 <= length program <= 40)%nat ->
  decode_bech32 p s =
    if v =? 0 then
      if (length program =? 20)%nat then WitnessV0KeyHash program
      else if (length program =? 32)%nat then WitnessV0ScriptHash program else CNoDestination
    else WitnessUnknown v program.
Proof.
  intros Hc Hd Hv Hl. unfold decode_bech32. rewrite Hd. cbn [fst snd]. rewrite bool_decide_true by done. rewrite Hc.
  destruct (v =? 0); [done|]. rewrite Z.gtb_ltb, (proj2 (Z.ltb_ge _ _)), !(proj2 (Nat.ltb_ge _ _)) by lia. done.
Qed.

Section texts.
Context `{Hs : HashFunctions} `{HL : !HashLaws Hs} (p : AddressParams) (Hp : params_ok p).

(** A text of 36 characters or more is no base58 address. *)
Lemma long_text_not_base58 s data : (36 <= length s)%nat -> Z.of_nat (length s) < 2 ^ 29 ->
  Forall (fun c => isspace c = false) s -> DecodeBase58Check s = Ok data -> decode_base58 p data = None.
Proof using HL Hp.
  intros Hs36 Hs29 Hns Hd. apply base58_facts.DecodeBase58Check_iff in Hd as (Hb & Hl & sp1 & t & sp2 & -> & H1 & H2 & Ht); [|done].
  assert (forall sp, base58_facts.spaces sp -> Forall (fun c => isspace c = false) sp -> sp = []) as Hnil.
  { intros [|c sp] Hx Hy; [done|]. apply Forall_cons in Hx as [Hx _]. apply Forall_cons in Hy as [Hy _]. congruence. }
  apply Forall_app in Hns as [Hn1 [_ Hn2]%Forall_app]. 
  rewrite (Hnil sp1 H1 Hn1), (Hnil sp2 H2 Hn2), app_nil_r in Hs36, Hs29, Hl. cbn [app] in Hs36, Hs29, Hl.
  destruct (base58_facts.EncodeBase58Check_ok data Hb) as (t' & Ht' & Htext); [pow_literals; lia|].
  rewrite Ht in Ht'. injection Ht' as <-. apply base58_facts.text_length in Htext.
  rewrite length_app, length_take, length_Hash256 in Htext.
  assert (21 < length data)%nat as Hlong by dlia. destruct Hp as [(b & Hpk & _) (c & Hsc & _) _ _ _].
  unfold decode_base58, strip_prefix. rewrite Hpk, Hsc. cbn [length]. by rewrite (proj2 (Nat.eqb_neq _ _)) by lia.
Qed.

Lemma DecodeDestination_witness v program : 0 <= v <= 16 -> bytes_ok program -> (17 <= length program <= 40)%nat ->
  exists symbols, ConvertBits 5 8 false symbols = (true, program) /\
  bech32.Decode (witness_text p v program) = (Bech32HRP p, v :: symbols) /\
  DecodeDestination p (witness_text p v program) = Some (decode_bech32 p (witness_text p v program)).
Proof using HL Hp.
  intros Hv Hb Hl. destruct (witness_text_ok p Hp v program Hv Hb ltac:(lia)) as (symbols & He & Hc & Hd & Htl & Hcs).
  exists symbols. split; [done|]. split; [done|]. unfold DecodeDestination.
  destruct (convert_length program symbols Hb He) as [_ Hsl]. pose proof (ok_hrp_length _ Hp).
  assert (0 < length (Bech32HRP p))%nat by (destruct (ok_hrp _ Hp) as [Hne _]; destruct (Bech32HRP p); [done|cbn; lia]).
  set (t := witness_text p v program) in *.
  rewrite c_str_id by (eapply Forall_impl; [exact Hcs|]; cbn; lia).
  pose proof (DecodeBase58Check_no_failure t ltac:(lia)) as Hnf.
  destruct (DecodeBase58Check t) as [data|e] eqn:Hdata; [|by destruct e].
  rewrite (long_text_not_base58 t data); [done|lia|lia| |done].
  eapply Forall_impl; [exact Hcs|]. intros c Hc'. cbn beta in Hc'. unfold isspace.
  rewrite (proj2 (Z.eqb_neq _ _)), (proj2 (Z.leb_gt c 13)) by lia. apply andb_false_r.
Qed.

Lemma base58_roundtrip prefix b hash : prefix = [b] -> in_range 8 b -> length hash = 20%nat -> bytes_ok hash ->
  exists t, EncodeBase58Check (prefix ++ hash) = Ok t /\ DecodeBase58Check (c_str t) = Ok (prefix ++ hash).
Proof using HL.
  intros -> Hb Hl Hh. assert (bytes_ok ([b] ++ hash)) as Hok by (by constructor).
  assert (length ([b] ++ hash) = 21%nat) as H21 by (cbn; lia).
  destruct (base58_facts.EncodeBase58Check_ok ([b] ++ hash) Hok) as (t & Ht & Htext); [rewrite H21; done|].
  exists t. split; [done|]. pose proof (base58_facts.text_length _ _ Htext) as Htl.
  pose proof (base58_facts.bytes_length _ _ Htext) as Hbl.
  rewrite length_app, length_take, length_Hash256, H21 in Htl, Hbl.
  destruct Htext as (z & w & ds & _ & Hteq & _ & [Hds _] & _).
  rewrite c_str_id.
  2:{ rewrite Hteq. apply Forall_app. split; [by apply Forall_replicate|]. apply Forall_fmap. eapply Forall_impl; [exact Hds|].
      intros d Hd H0. change (Base58.char_of d = 0) in H0.
      destruct (base58_facts.char_of_index d Hd) as (Hi & _). rewrite H0 in Hi. done. }
  assert (Z.of_nat 25 * 138 / 100 + 1 = 35) as H35 by done. cbn [Nat.min Nat.add] in Htl, Hbl. rewrite H35 in Htl.
  apply base58_facts.DecodeBase58Check_iff; [pow_literals; lia|]. split; [done|]. split; [rewrite H21; lia|].
  exists [], t, []. rewrite app_nil_r. split_and!; [done|constructor|constructor|done].
Qed.

(** *** Round trip *)

Lemma addresses_roundtrip d : text_ok d -> exists t, EncodeDestination p d = Ok t /\ DecodeDestination p t = Some d.
Proof using HL Hp.
  intros [Hd Hlong]. destruct Hp as [(b1 & Hb1 & Hr1) (b2 & Hb2 & Hr2) Hdiff _ _].
  destruct d as [|h|h|h|h|v prog]; cbn [dest_ok] in Hd; [done|..].
  - destruct Hd as [Hl Hb]. destruct (base58_roundtrip _ b1 h Hb1 Hr1 Hl Hb) as (t & Ht & Hdec). exists t. split; [done|].
    unfold DecodeDestination. rewrite Hdec. unfold decode_base58, strip_prefix. rewrite length_app, Hl, Nat.add_comm, Nat.eqb_refl.
    by rewrite take_app_length, drop_app_length, bool_decide_true.
  - destruct Hd as [Hl Hb]. destruct (base58_roundtrip _ b2 h Hb2 Hr2 Hl Hb) as (t & Ht & Hdec). exists t. split; [done|].
    unfold DecodeDestination. rewrite Hdec. unfold decode_base58, strip_prefix. rewrite length_app, Hl, Nat.add_comm, Nat.eqb_refl.
    rewrite take_app_length, drop_app_length, (bool_decide_true (script_prefix p = _)) by done.
    rewrite bool_decide_false; [by rewrite andb_false_r|]. rewrite Hb1, Hb2 in *. cbn. intros [= ->]. done.
  - destruct Hd as [Hl Hb]. destruct (DecodeDestination_witness 0 h) as (symbols & Hc & Hdec & Hdd); [lia|done|lia|].
    exists (witness_text p 0 h). split; [done|]. rewrite Hdd, (decode_bech32_text p 0 h symbols) by (done || lia).
    by rewrite Hl.
  - destruct Hd as [Hl Hb]. destruct (DecodeDestination_witness 0 h) as (symbols & Hc & Hdec & Hdd); [lia|done|lia|].
    exists (witness_text p 0 h). split; [done|]. rewrite Hdd, (decode_bech32_text p 0 h symbols) by (done || lia).
    by rewrite Hl.
  - destruct Hd as (Hv & Hl & Hb). destruct (DecodeDestination_witness v prog) as (symbols & Hc & Hdec & Hdd); [lia|done|lia|].
    exists (witness_text p v prog). split.
    + cbn [EncodeDestination]. rewrite !Z.gtb_ltb, !(proj2 (Z.ltb_ge _ _)) by lia. cbn [orb].
      by rewrite wrap_small by (unfold in_range; lia).
    + rewrite Hdd, (decode_bech32_text p v prog symbols) by (done || lia). by rewrite (proj2 (Z.eqb_neq _ _)) by lia.
Qed.

(** *** What is accepted *)

Lemma strip_prefix_Some prefix data hash : strip_prefix prefix data = Some hash -> data = prefix ++ hash /\ length hash = 20%nat.
Proof using.
  unfold strip_prefix. destruct (Nat.eqb_spec (length data) (20 + length prefix)) as [Hl|]; [|done]. case_bool_decide as Ht; [|done].
  cbn [andb]. intros [= <-]. split; [by rewrite <- Ht at 1; rewrite take_drop|rewrite length_drop; lia].
Qed.

(** The texts of a destination: its encoding between spaces, and anything
    behind a zero byte; or, for witness programs, in other case. *)
Definition is_text_of (s t : bytes) : Prop :=
  (exists sp1 sp2, c_str s = sp1 ++ t ++ sp2 /\ base58_facts.spaces sp1 /\ base58_facts.spaces sp2) \/
  map bech32.LowerCase s = t.

Lemma DecodeDestination_sound s d : Z.of_nat (length s) < 2 ^ 29 -> DecodeDestination p s = Some d -> d <> CNoDestination ->
  dest_ok d /\ exists t, EncodeDestination p d = Ok t /\ is_text_of s t.
Proof using HL Hp.
  intros Hlen. pose proof (length_c_str s) as Hcl.
  assert (forall d, decode_bech32 p s = d -> d <> CNoDestination -> dest_ok d /\ exists t, EncodeDestination p d = Ok t /\ is_text_of s t) as Hbech.
  { intros d' <-. unfold decode_bech32. destruct (bech32.Decode s) as [hrp [|v symbols]] eqn:Hd; cbn [fst snd]; [done|].
    case_bool_decide as Hhrp; [|done]. subst hrp. destruct (ConvertBits 5 8 false symbols) as [[|] data] eqn:Hc; [|done].
    apply bech32_facts.Encode_Decode in Hd as (_ & Hv & _ & Hlow); [|apply (ok_hrp _ Hp)]. apply Forall_cons in Hv as [Hv Hsym].
    unfold in_range in Hv. change (2 ^ 5) with 32 in Hv.
    pose proof (convert_facts.symbols_bytes_symbols symbols data Hsym Hc) as Hpad.
    assert (bytes_ok data) as Hdata
      by (by destruct (convert_facts.ConvertBits_nopad 5 8 ltac:(lia) ltac:(lia) symbols true data Hsym Hc) as (? & ? & ? & _)).
    assert (is_text_of s (witness_text p v data)) as Htext by (right; unfold witness_text; by rewrite Hpad).
    destruct (Z.eqb_spec v 0) as [->|Hv0].
    - destruct (Nat.eqb_spec (length data) 20) as [|_]; [intros _; split; [done|]; by exists (witness_text p 0 data)|].
      destruct (Nat.eqb_spec (length data) 32) as [|_]; [intros _; split; [done|]; by exists (witness_text p 0 data)|done].
    - destruct (_ || _) eqn:Hr; [done|]. intros _. rewrite Z.gtb_ltb in Hr.
      apply orb_false_iff in Hr as [[H1%Z.ltb_ge H2%Nat.ltb_ge]%orb_false_iff H3%Nat.ltb_ge]. split; [by split_and!; try lia|].
      exists (witness_text p v data). split; [|done]. cbn [EncodeDestination]. rewrite !Z.gtb_ltb, !(proj2 (Z.ltb_ge _ _)) by lia.
      cbn [orb]. by rewrite wrap_small by (unfold in_range; lia). }
  unfold DecodeDestination. destruct (DecodeBase58Check (c_str s)) as [data|[|]] eqn:Hd; [|intros [= <-]; by apply Hbech|done].
  apply base58_facts.DecodeBase58Check_iff in Hd as (Hb & Hl & sp1 & t & sp2 & He & H1 & H2 & Ht); [|lia].
  assert (is_text_of s t) as Htext by (left; by exists sp1, sp2).
  unfold decode_base58. destruct (strip_prefix (pubkey_prefix p) data) as [hash|] eqn:Hpk.
  { apply strip_prefix_Some in Hpk as [-> Hh]. intros [= <-] _. apply Forall_app in Hb as [_ Hb]. split; [done|]. by exists t. }
  destruct (strip_prefix (script_prefix p) data) as [hash|] eqn:Hsc; [|intros [= <-]; by apply Hbech].
  apply strip_prefix_Some in Hsc as [-> Hh]. intros [= <-] _. apply Forall_app in Hb as [_ Hb]. split; [done|]. by exists t.
Qed.

(** *** The first character of a base58 address *)

Lemma first_char b rest t k c c' : base58_text (b :: rest) t -> b <> 0 -> 0 <= k -> 1 <= c -> c' <= 58 ->
  c * 58 ^ k <= b * 256 ^ Z.of_nat (length rest) -> (b + 1) * 256 ^ Z.of_nat (length rest) <= c' * 58 ^ k ->
  exists d t', t = Base58.char_of d :: t' /\ c <= d < c'.
Proof using.
  intros (z & w & ds & Hv & -> & [Hw _] & Hds & He) Hb Hk Hc Hc' Hlow Hup.
  destruct z as [|z]; [|injection Hv as -> _; done]. cbn [replicate app] in *. subst w.
  apply Forall_cons in Hw as [Hbr Hrest]. rewrite radix.be_cons in He.
  pose proof (radix.be_bound 256 ltac:(lia) rest Hrest) as Hr. assert (0 < 58 ^ k) by lia.
  assert (0 < 256 ^ Z.of_nat (length rest)) by lia. set (N := radix.be 58 ds) in *.
  assert (c * 58 ^ k <= N < c' * 58 ^ k) as HN by nia.
  destruct ds as [|d ds]; [exfalso; change N with 0 in HN; nia|]. exists d, (map Base58.char_of ds). split; [done|].
  pose proof (radix.canonical_low 58 ltac:(lia) (d :: ds) Hds ltac:(done)) as Hlo. fold N in Hlo. cbn [length] in Hlo.
  rewrite Nat.sub_succ, Nat.sub_0_r in Hlo. destruct Hds as [Hds _]. pose proof (radix.be_bound 58 ltac:(lia) _ Hds) as Hhi. fold N in Hhi.
  cbn [length] in Hhi. apply Forall_cons in Hds as [Hd Hds]. pose proof (radix.be_bound 58 ltac:(lia) ds Hds) as Hrem.
  unfold N in HN. rewrite radix.be_cons in HN. fold N in HN.
  assert (Z.of_nat (length ds) = k) as Hlen.
  { destruct (Z.lt_trichotomy (Z.of_nat (length ds)) k) as [Hlt|[?|Hgt]]; [exfalso|done|exfalso].
    - assert (58 ^ Z.of_nat (S (length ds)) <= 58 ^ k) by (apply Z.pow_le_mono_r; lia). nia.
    - assert (58 ^ Z.succ k <= 58 ^ Z.of_nat (length ds)) by (apply Z.pow_le_mono_r; lia).
      rewrite Z.pow_succ_r in * by done. nia. }
  rewrite Hlen in *. nia.
Qed.

Lemma address_first_char b c c' k h t : b <> 0 -> in_range 8 b -> 0 <= k -> 1 <= c -> c' <= 58 ->
  c * 58 ^ k <= b * 256 ^ 24 -> (b + 1) * 256 ^ 24 <= c' * 58 ^ k -> length h = 20%nat -> bytes_ok h ->
  EncodeBase58Check ([b] ++ h) = Ok t -> exists d t', t = Base58.char_of d :: t' /\ c <= d < c'.
Proof using HL.
  intros Hb Hr Hk Hc Hc' Hlow Hup Hl Hh Ht. assert (bytes_ok ([b] ++ h)) as Hok by (by constructor).
  destruct (base58_facts.EncodeBase58Check_ok ([b] ++ h) Hok) as (t' & Ht' & Htext); [cbn [app length]; rewrite Hl; done|].
  rewrite Ht in Ht'. injection Ht' as <-.
  assert (Z.of_nat (length (h ++ take 4 (CHash256 ([b] ++ h)))) = 24) as H24 by (rewrite length_app, length_take, length_Hash256, Hl; done).
  apply (first_char b (h ++ take 4 (CHash256 ([b] ++ h))) t k c c'); [exact Htext|done..|by rewrite H24|by rewrite H24].
Qed.
End texts.
End key_io_facts.

Module network_facts.
Import key_io_facts.

Lemma main_addresses_ok : params_ok main_addresses.
Proof. split; [by exists 33|by exists 15|done|split; [done|decided]|cbn; lia]. Qed.
Lemma test_addresses_ok : params_ok test_addresses.
Proof. split; [by exists 111|by exists 196|done|split; [done|decided]|cbn; lia]. Qed.
Lemma regtest_addresses_ok : params_ok regtest_addresses.
Proof. split; [by exists 111|by exists 196|done|split; [done|decided]|cbn; lia]. Qed.

Section apart.
Context `{Hs : HashFunctions} `{HL : !HashLaws Hs} (p q : AddressParams) (Hp : params_ok p) (Hq : params_ok q).

(** A text of network [p] that is read in network [q]. *)
Hypothesis (prefixes : forall x y, x ∈ [pubkey_prefix p; script_prefix p] -> y ∈ [pubkey_prefix q; script_prefix q] -> x <> y).
Hypothesis (hrps : Bech32HRP p <> Bech32HRP q).
Hypothesis (first : forall x h t, x ∈ [pubkey_prefix p; script_prefix p] -> length h = 20%nat -> bytes_ok h ->
  EncodeBase58Check (x ++ h) = Ok t -> exists c t', t = c :: t' /\ head (Bech32HRP q) <> Some (bech32.LowerCase c)).

Lemma base58_foreign x h t : x ∈ [pubkey_prefix p; script_prefix p] -> length h = 20%nat -> bytes_ok h ->
  EncodeBase58Check (x ++ h) = Ok t -> DecodeDestination q t = Some CNoDestination.
Proof using HL Hp Hq prefixes hrps first.
  intros Hx Hl Hb Ht. assert (exists b, x = [b] /\ in_range 8 b) as (b & Hxb & Hr).
  { apply elem_of_cons in Hx as [->|[->|Hx]%elem_of_cons]; [apply (ok_pubkey _ Hp)|apply (ok_script _ Hp)|by apply not_elem_of_nil in Hx]. }
  destruct (base58_roundtrip x b h Hxb Hr Hl Hb) as (t' & Ht' & Hdec). rewrite Ht in Ht'. injection Ht' as <-.
  unfold DecodeDestination. rewrite Hdec.
  assert (decode_base58 q (x ++ h) = None) as ->.
  { assert (forall y, y ∈ [pubkey_prefix q; script_prefix q] -> strip_prefix y (x ++ h) = None) as Hy.
    { intros y Hy. assert (exists e, y = [e]) as (e & He).
      { apply elem_of_cons in Hy as [->|[->|Hy]%elem_of_cons];
          [destruct (ok_pubkey _ Hq) as (e & ? & _)|destruct (ok_script _ Hq) as (e & ? & _)|by apply not_elem_of_nil in Hy]; by exists e. }
      unfold strip_prefix. rewrite bool_decide_false; [by rewrite andb_false_r|]. subst x y. cbn. intros [= ->].
      by apply (prefixes [e] [e]). }
    unfold decode_base58. rewrite !Hy; [done|by right; left|by left]. }
  f_equal. unfold decode_bech32. destruct (bech32.Decode t) as [hrp [|v symbols]] eqn:Hd; cbn [fst snd]; [done|].
  case_bool_decide as Hhrp; [|done]. exfalso. subst hrp. destruct (ok_hrp _ Hq) as [Hne _].
  apply bech32_facts.Encode_Decode in Hd as (_ & _ & _ & Hlow); [|done].
  destruct (first x h t Hx Hl Hb Ht) as (c & t' & -> & Hc). apply Hc.
  unfold bech32.Encode in Hlow. destruct (Bech32HRP q) as [|c' hrp]; [done|]. cbn [map app] in Hlow. injection Hlow as Hlow _.
  cbn. by rewrite Hlow.
Qed.

Lemma witness_foreign v prog : 0 <= v <= 16 -> bytes_ok prog -> (17 <= length prog <= 40)%nat ->
  DecodeDestination q (witness_text p v prog) = Some CNoDestination.
Proof using HL Hp Hq hrps.
  intros Hv Hb Hl. destruct (witness_text_ok p Hp v prog Hv Hb ltac:(lia)) as (symbols & He & Hc & Hd & Htl & Hcs).
  destruct (convert_length prog symbols Hb He) as [_ Hsl].
  assert (0 < length (Bech32HRP p))%nat by (destruct (ok_hrp _ Hp) as [Hne _]; destruct (Bech32HRP p); [done|cbn; lia]).
  pose proof (ok_hrp_length _ Hp). set (t := witness_text p v prog) in *.
  assert (decode_bech32 q t = CNoDestination) as Hno by (unfold decode_bech32; rewrite Hd; cbn [fst snd]; by rewrite bool_decide_false).
  unfold DecodeDestination. rewrite c_str_id by (eapply Forall_impl; [exact Hcs|]; cbn; lia).
  pose proof (DecodeBase58Check_no_failure t ltac:(lia)) as Hnf.
  destruct (DecodeBase58Check t) as [data|e] eqn:Hdata; [|by rewrite Hno; destruct e].
  rewrite (long_text_not_base58 q Hq t data); [by rewrite Hno|lia|lia| |done].
  eapply Forall_impl; [exact Hcs|]. intros c Hc'. cbn beta in Hc'. unfold isspace.
  rewrite (proj2 (Z.eqb_neq _ _)), (proj2 (Z.leb_gt c 13)) by lia. apply andb_false_r.
Qed.

Lemma foreign_refused d t : text_ok d -> EncodeDestination p d = Ok t -> DecodeDestination q t = Some CNoDestination.
Proof using HL Hp Hq prefixes hrps first.
  intros [Hd Hlong]. destruct d as [|h|h|h|h|v prog]; cbn [dest_ok EncodeDestination] in *; [done|..].
  - destruct Hd. apply base58_foreign; [by left|done..].
  - destruct Hd. apply base58_foreign; [by right; left|done..].
  - destruct Hd. intros [= <-]. apply witness_foreign; [lia|done|lia].
  - destruct Hd. intros [= <-]. apply witness_foreign; [lia|done|lia].
  - destruct Hd as (Hv & Hl & Hb). rewrite !Z.gtb_ltb, !(proj2 (Z.ltb_ge _ _)) by lia. cbn [orb].
    rewrite wrap_small by (unfold in_range; lia). intros [= <-]. apply witness_foreign; [lia|done|lia].
Qed.
End apart.

Section networks.
Context `{Hs : HashFunctions} `{HL : !HashLaws Hs}.

(** What the comments of [chainparams.cpp] say of the main network: E and
    7. *)
Lemma main_pubkey_char h t : length h = 20%nat -> bytes_ok h -> EncodeBase58Check ([33] ++ h) = Ok t -> head t = Some 69.
Proof using HL.
  intros Hl Hb Ht. destruct (address_first_char 33 13 14 33 h t) as (d & t' & -> & Hd);
    [lia|unfold in_range; lia|lia|lia|lia|vm_compute; discriminate|vm_compute; discriminate|exact Hl|exact Hb|exact Ht|].
  by assert (d = 13) as -> by lia.
Qed.

Lemma main_script_char h t : length h = 20%nat -> bytes_ok h -> EncodeBase58Check ([15] ++ h) = Ok t -> head t = Some 55.
Proof using HL.
  intros Hl Hb Ht. destruct (address_first_char 15 6 7 33 h t) as (d & t' & -> & Hd);
    [lia|unfold in_range; lia|lia|lia|lia|vm_compute; discriminate|vm_compute; discriminate|exact Hl|exact Hb|exact Ht|].
  by assert (d = 6) as -> by lia.
Qed.

(** m, n and 2 on the test network. *)
Lemma test_pubkey_char h t : length h = 20%nat -> bytes_ok h -> EncodeBase58Check ([111] ++ h) = Ok t ->
  head t = Some 109 \/ head t = Some 110.
Proof using HL.
  intros Hl Hb Ht. destruct (address_first_char 111 44 46 33 h t) as (d & t' & -> & Hd);
    [lia|unfold in_range; lia|lia|lia|lia|vm_compute; discriminate|vm_compute; discriminate|exact Hl|exact Hb|exact Ht|].
  assert (d = 44 \/ d = 45) as [->| ->] by lia; [by left|by right].
Qed.

Lemma test_script_char h t : length h = 20%nat -> bytes_ok h -> EncodeBase58Check ([196] ++ h) = Ok t -> head t = Some 50.
Proof using HL.
  intros Hl Hb Ht. destruct (address_first_char 196 1 2 34 h t) as (d & t' & -> & Hd);
    [lia|unfold in_range; lia|lia|lia|lia|vm_compute; discriminate|vm_compute; discriminate|exact Hl|exact Hb|exact Ht|].
  by assert (d = 1) as -> by lia.
Qed.

Lemma main_test d t : text_ok d -> EncodeDestination main_addresses d = Ok t ->
  DecodeDestination test_addresses t = Some CNoDestination.
Proof using HL.
  apply (foreign_refused main_addresses test_addresses main_addresses_ok test_addresses_ok).
  - intros x y [->|[->|Hx]%elem_of_cons]%elem_of_cons [->|[->|Hy]%elem_of_cons]%elem_of_cons; try discriminate;
      first [destruct (not_elem_of_nil _ Hx) | destruct (not_elem_of_nil _ Hy)].
  - done.
  - intros x h s Hx Hl Hb Ht. apply elem_of_cons in Hx as [->|[->|Hx]%elem_of_cons]; [| |destruct (not_elem_of_nil _ Hx)].
    + pose proof (main_pubkey_char h s Hl Hb Ht) as Hc. destruct s as [|c s']; [done|]. injection Hc as ->.
      eexists _, _. split; [done|]. cbn. discriminate.
    + pose proof (main_script_char h s Hl Hb Ht) as Hc. destruct s as [|c s']; [done|]. injection Hc as ->.
      eexists _, _. split; [done|]. cbn. discriminate.
Qed.

Lemma test_main d t : text_ok d -> EncodeDestination test_addresses d = Ok t ->
  DecodeDestination main_addresses t = Some CNoDestination.
Proof using HL.
  apply (foreign_refused test_addresses main_addresses test_addresses_ok main_addresses_ok).
  - intros x y [->|[->|Hx]%elem_of_cons]%elem_of_cons [->|[->|Hy]%elem_of_cons]%elem_of_cons; try discriminate;
      first [destruct (not_elem_of_nil _ Hx) | destruct (not_elem_of_nil _ Hy)].
  - done.
  - intros x h s Hx Hl Hb Ht. apply elem_of_cons in Hx as [->|[->|Hx]%elem_of_cons]; [| |destruct (not_elem_of_nil _ Hx)].
    + destruct (test_pubkey_char h s Hl Hb Ht) as [Hc|Hc]; destruct s as [|c s']; [done| |done|];
        injection Hc as ->; eexists _, _; (split; [done|]); cbn; discriminate.
    + pose proof (test_script_char h s Hl Hb Ht) as Hc. destruct s as [|c s']; [done|]. injection Hc as ->.
      eexists _, _. split; [done|]. cbn. discriminate.
Qed.
End networks.
End network_facts.

(** C37: Addresses.  With the prefixes of any of the networks, the text of a
    destination is read as this destination, so that different destinations
    have different texts.  What a text of less than 2^29 characters is read as
    is a destination with the sizes it must have, of which it is a text:
    between spaces and up to a zero byte, or in other case.  No assertion
    fails.  The addresses of the main network begin with E and 7, as the
    comments of [chainparams.cpp] say, and those of the main and the test
    network are refused by each other.  (For witness programs of unknown
    version the first and the last statement ask for 17 bytes: the text of a
    shorter one could also be a base58 address.) *)
Theorem addresses_correct `{Hs : HashFunctions} `{HL : !HashLaws Hs} (p : AddressParams) :
  p ∈ [main_addresses; test_addresses; regtest_addresses] ->
  (forall d, text_ok d -> exists t, EncodeDestination p d = Ok t /\ DecodeDestination p t = Some d) /\
  (forall s, Z.of_nat (length s) < 2 ^ 29 -> exists d, DecodeDestination p s = Some d /\
     (d <> CNoDestination -> dest_ok d /\ exists t, EncodeDestination p d = Ok t /\ key_io_facts.is_text_of s t)) /\
  (forall h t, length h = 20%nat -> bytes_ok h ->
     (EncodeDestination main_addresses (CKeyID h) = Ok t -> head t = Some 69) /\
     (EncodeDestination main_addresses (CScriptID h) = Ok t -> head t = Some 55)) /\
  (forall d t, text_ok d ->
     (EncodeDestination main_addresses d = Ok t -> DecodeDestination test_addresses t = Some CNoDestination) /\
     (EncodeDestination test_addresses d = Ok t -> DecodeDestination main_addresses t = Some CNoDestination)).
Proof.
  intros Hin. assert (params_ok p) as Hp.
  { apply elem_of_cons in Hin as [->|[->|[->|Hin]%elem_of_cons]%elem_of_cons];
      [apply network_facts.main_addresses_ok|apply network_facts.test_addresses_ok|apply network_facts.regtest_addresses_ok|destruct (not_elem_of_nil _ Hin)]. }
  split; [by apply key_io_facts.addresses_roundtrip|]. split.
  - intros s Hlen. destruct (DecodeDestination p s) as [d|] eqn:Hd.
    + exists d. split; [done|]. by apply key_io_facts.DecodeDestination_sound.
    + exfalso. unfold DecodeDestination in Hd. pose proof (key_io_facts.length_c_str s) as Hcl.
      pose proof (key_io_facts.DecodeBase58Check_no_failure (c_str s) ltac:(lia)) as Hnf.
      destruct (DecodeBase58Check (c_str s)) as [data|[|]]; [by destruct (decode_base58 p data)|done|done].
  - split; intros; split; intros.
    + by eapply network_facts.main_pubkey_char.
    + by eapply network_facts.main_script_char.
    + by eapply network_facts.main_test.
    + by eapply network_facts.test_main.
Qed.

Lemma addresses_correct_witness :
  exists t, @EncodeDestination base58_example.hashes main_addresses (CKeyID (replicate 20 7)) = Ok t /\
    @DecodeDestination base58_example.hashes main_addresses t = Some (CKeyID (replicate 20 7)) /\
    head t = Some 69 /\ @DecodeDestination base58_example.hashes test_addresses t = Some CNoDestination.
Proof.
  destruct (@addresses_correct base58_example.hashes base58_example.hash_laws main_addresses) as (H1 & _ & H3 & H4); [by left|].
  assert (text_ok (CKeyID (replicate 20 7))) as Hd by (split; [split; [reflexivity|decided]|exact I]).
  destruct (H1 (CKeyID (replicate 20 7)) Hd) as (t & Ht & Hdec). exists t. split; [exact Ht|]. split; [exact Hdec|]. split.
  - exact (proj1 (H3 (replicate 20 7) t eq_refl (proj2 (proj1 Hd))) Ht).
  - exact (proj1 (H4 _ t Hd) Ht).
Defined.
